(* ===== verification/_CoqProject ===== *)
-Q . S2P
Prelude.v
Helplets.v
Loffli.v
ChunkHeader.v
MemPool.v
MemoryManager.v
RelativePointer.v
SharedChunk.v
Queue.v
QueueThreads.v
IndexQueue.v
LockFreeQueue.v
VariantQueue.v
UsedChunkList.v
ConditionVariable.v
ChunkQueue.v
ChunkDistributor.v
ChunkSender.v
CaPro.v
PubSubPorts.v
ClientServerPorts.v
ServiceRegistry.v
PortPool.v
PortManager.v
Discovery.v
Scenarios.v
Serialization.v
IpcMessage.v
RouDi.v
PoshRuntime.v
Ownership.v
Requests.v
RuntimeScenarios.v
Notifications.v
Attachments.v
Lifetimes.v
Waiting.v
NotificationSteps.v
NotificationScenarios.v
Duration.v
CxxList.v
CxxForwardList.v
CxxVector.v
CxxString.v
UserApi.v
Samples.v
ResponseRouting.v
RpcApi.v
SegmentManager.v
RouDiMemory.v
ObjectPool.v
Gateway.v
DdsGateway.v
Introspection.v
IntrospectionSpec.v
Configuration.v
