(* ===== verification/Prelude.v ===== *)
(** * iceoryx: a verification development

    iceoryx is a publish-subscribe and request-response middleware that passes
    data between processes on one machine without copying it.  A daemon, RouDi,
    owns the shared memory: pools of chunks, and tables of ports.  Applications
    register at RouDi over IPC channels and get pointers to their ports.  A
    publisher takes a chunk out of a pool, writes its payload and hands the chunk
    to the queues of all connected subscribers; reference counters decide when it
    goes back into its pool.  RouDi connects ports by passing CaPro messages
    between their RouDi sides, and removes the ports of applications that end.

    ** The files, from the bottom up

    Sources are under [src/iceoryx]; [hoofs] is [iceoryx_hoofs], [posh] is
    [iceoryx_posh].

    - [Prelude]: machine integers, termination of the process and reported errors
      ([outcome], [let*]), arrays, shared lemmas and tactics.
    - [Helplets]: [cxx::align], [isPowerOfTwo], ... (hoofs [helplets.hpp]).
    - [Loffli]: the lock-free free list of indices (hoofs [loffli.cpp]) as
      sequential operations and as a step relation of any number of threads.
    - [ChunkHeader]: [ChunkSettings] and [ChunkHeader], the layout of a chunk.
    - [MemPool]: [posix::Allocator], [MePooConfig], [MemPool].
    - [MemoryManager]: [MemoryManager] and [ChunkManagement].
    - [RelativePointer]: [PointerRepository], [RelativePointerData],
      [BaseRelativePointer].
    - [SharedChunk]: reference counting, [ShmSafeUnmanagedChunk], and programs over
      chunk variables.
    - [Queue], [IndexQueue], [LockFreeQueue], [VariantQueue]: the ring buffers
      FiFo and SoFi, the index queue, the lock-free queues on top of it and the
      variant that ports use; [QueueThreads]: FiFo and SoFi with a producer and a
      consumer.
    - [UsedChunkList]: the chunks that a user holds.
    - [ConditionVariable]: notifier and listener, with their interleavings.
    - [ChunkQueue], [ChunkDistributor], [ChunkSender]: the building blocks of ports
      (posh [popo/building_blocks]); [ChunkSender] also holds [ChunkReceiver].
      Their common state is [World]: the memory of all segments, the queues and
      the condition variables.
    - [CaPro]: service descriptions, CaPro messages, options, unique ids.
    - [PubSubPorts], [ClientServerPorts]: both sides of all ports.
    - [ServiceRegistry]: RouDi's list of offered services.
    - [PortPool], [PortManager]: the tables of ports, their creation, discovery and
      destruction ([port_pool.cpp], [port_manager.cpp]).
    - [Discovery], [Scenarios]: what discovery guarantees, and runs of it.
    - [Serialization], [IpcMessage]: the texts of the requests.
    - [RouDi]: [process_manager.cpp] and the message loop of [roudi.cpp].
    - [PoshRuntime]: registration and requests of an application
      ([ipc_runtime_interface.cpp], [posh_runtime_impl.cpp]).
    - [Ownership], [Requests], [RuntimeScenarios]: what RouDi guarantees about the
      objects of applications, that requests are transparent, and runs.
    - [Notifications]: wait set, listener, triggers and the objects that are
      attached to them ([wait_set.inl], [listener.inl], [trigger.cpp],
      [trigger_handle.cpp], [user_trigger.cpp], [base_subscriber.inl], ...).  All
      objects are in one [System], pointers between them are indices.
    - [Attachments]: the invariant between the two sides of an attachment, and that
      attaching and detaching keep it; [Lifetimes]: the destructors; [Waiting]: what
      a wait returns; [NotificationSteps]: all operations as a step relation and the
      properties of reachable states; [NotificationScenarios]: runs.
    - [Duration]: [units::Duration] and [cxx::DeadlineTimer].
    - [CxxList], [CxxForwardList], [CxxVector], [CxxString]: the containers of hoofs
      ([list.inl], [forward_list.inl], [vector.inl], [string.inl]).
    - [UserApi]: [cxx::unique_ptr], samples, publishers and subscribers, typed and
      untyped ([sample.inl], [publisher_impl.inl], [untyped_publisher_impl.inl], ...);
      [Samples]: programs over samples and what they observe.
    - [ResponseRouting]: which queue a response goes to; [RpcApi]: requests,
      responses, clients and servers of the user API.
    - [SegmentManager]: groups and users, segments and their creation and mapping
      ([mepoo_segment.inl], [segment_manager.inl]).
    - [RouDiMemory]: memory blocks, providers and [RouDiMemoryManager], up to
      [IceOryxRouDiMemoryManager].
    - [ObjectPool]: [cxx::ObjectPool] and shared pointers into it; [Gateway]: channels
      and the generic gateway with the discovery of the gateway to DDS;
      [DdsGateway]: datagrams, reader, writer and both forwarding loops.
    - [Introspection]: what RouDi publishes about ports, processes and pools
      ([port_introspection.inl], [process_introspection.inl],
      [mempool_introspection.inl]); [IntrospectionSpec]: what its samples show.
    - [Configuration]: the command line, the configuration files of RouDi and of
      gateways, and [main].

    ** How code is modelled

    Integers are [Z], reduced to their width where the source computes at that
    width.  A pointer into shared memory is the address or the slot of the object
    in its table; the state that operations change is passed explicitly.  Code
    that can end the process, by a violated contract, a fatal error or the use of
    a pointer to no object, returns an [outcome]; errors of lower level are
    appended to a list in the state.  [expected] and [option] are those of the
    source.  Loops over data are structural recursions; loops that wait take the
    list of what the other threads do in each round ([ChunkDistributor.wait_loop],
    [IpcRuntimeInterface.rounds]), or have fuel, with a theorem that enough of it
    gives the result: a retry loop that runs out of fuel returns no result, and
    [VariantQueue.variant_queue_refines] shows that none does,
    a loop over a linked list after at most one round per element, a search for a
    free cell after one round per cell, a forwarding loop after one round per
    sample or chunk.  Where interleavings matter ([Loffli], [QueueThreads],
    [ConditionVariable], [Gateway.Threads]) every atomic access is a step of a
    relation; memory is sequentially consistent.

    A cell of a container is [None] where no object lives and [Some] otherwise, so
    that using a destroyed element is visible; the vector also keeps the objects that
    placement new overwrites.  What a moved-from object holds is an argument.  Reading
    a character array beyond its end is an error value of [CxxString].  The values that users write are
    a map from payload pointers.  The deleter of a [unique_ptr] is a constructor that
    names the port and what is called.  Except in the files about them, containers
    are lists with the capacity checks at the place of use.

    What the source does not define is an argument: the constants of the build
    ([Build]), the sizes of types, the addresses of objects, the groups of a user,
    whether a channel takes a message, the result of [kill], the clock, the hash
    of a type, the flags a condition variable returns, the callbacks of the user,
    the system calls for shared memory and access rights, the DDS entities and the
    terminals of a gateway.  Where a proof relies on one of them, the law is a class
    or a named hypothesis ([maps_free_pages], [LawfulSupply], [LawfulQueue],
    [LawfulPublisher], [LawfulSubscriber]) that concrete instances satisfy; the
    publisher of a gateway has finitely many chunks.

    ** What the theorems show

    - Memory: chunks are laid out without overlap, taken from the smallest fitting
      pool, never handed out twice and never lost; the required sizes suffice.
      RouDi's memory is placed completely or not at all, and what destroying it
      leaves is said exactly; each segment of a configuration is created and mapped
      exactly for its groups.
    - References: any program over [SharedChunk] variables keeps the counters
      exact, frees each chunk once and uses none after it was freed.
    - Queues and containers: all queues implement a bounded queue and lose no
      element silently, FiFo and SoFi also if a producer and a consumer interleave;
      the containers implement bounded sequences and texts, and where they lose an
      object or read beyond an operand is stated with them; every expression over
      durations has its exact value or saturates.
    - Delivery: [send] reaches exactly the connected queues, in order, with the
      history for late joiners; with blocking queues nothing is lost and the
      delivery returns when the consumers take a chunk of each full queue;
      notifications are not lost, also if they arrive between the two accesses of the
      listener to a flag.
    - User API: programs over samples read what was published, keep every counter
      exact and never leak a chunk; a program on the untyped API does what it does on
      the typed one; an answer reaches the client that asked.
    - Discovery: in every reachable state publishers deliver only to existing,
      subscribed and compatible ports, and, as long as there are not more subscribers
      than a publisher can have, to all of those.
    - RouDi: the registry is a bounded map; every object has an owner that is
      registered, or that was until the shutdown of RouDi cleared its list; silent
      applications are removed with exactly their objects; texts are read back,
      malformed texts are rejected without an exception, and a request over the
      channels has the result and the effect of a direct call; the introspection lists
      exactly the tracked ports and the state of all pools; RouDi starts with the
      configuration of its options and its file.
    - Notifications: handles and slots always point to each other, whatever is
      attached again, detached or destroyed first; a wait returns exactly the
      notified events and the states that persist, in every further wait while they
      do, also if notifications are pending.
    - Gateway: terminals live as long as a copy of their channel, the channels are
      those of the offered services, and chunks cross DDS unchanged while the
      publisher has room.
    - Failures: theorems with concrete runs where the code does not do what it
      means to, among them the retried compare-exchange of the free list, pools
      beyond 4 GiB, a queue of capacity zero, discovery with a gateway, requests
      that are never answered, a state that is attached too late, insertion behind
      the end of a forward list, insertion into a vector, an array without a zero,
      sending an empty request, a group that never
      exists, memory that is announced only once, gateway threads that end when
      they start, a datagram that stops the gateway, sizes of datagrams that wrap
      around, connections to removed publishers in the introspection, a default
      configuration file that is never read.

    ** Not modelled

    - The log; the threads of RouDi and of its introspection, whose rounds are
      operations between others; so are the rounds of the listener's thread.
    - The POSIX wrappers, which are system calls, and the DDS implementation.
    - [getopt_long] beyond options that are words of their own, and the TOML parser,
      a third-party library; the C binding, examples and tools.
    - The multiplication of durations with floating point numbers; [optional],
      [expected], [variant] and callables of hoofs as such, which are the types of
      the host language here.
    - The start-up of the gateway from DDS, which has the shape of the other one.
    - Weak memory: atomics are sequentially consistent. *)

From Stdlib Require Export ZArith Lia.
From stdpp Require Export numbers gmap strings list.

#[global] Open Scope Z_scope.

(** ** Machine integers

    Unsigned integers of the C++ code are kept as [Z] and reduced to their
    width at every operation that the source performs at that width. *)

Definition u8 (z : Z) : Z := z mod 2 ^ 8.
Definition u16 (z : Z) : Z := z mod 2 ^ 16.
Definition u32 (z : Z) : Z := z mod 2 ^ 32.
Definition u64 (z : Z) : Z := z mod 2 ^ 64.

(** [static_cast<int64_t>] of an unsigned 64 bit value. *)
Definition i64 (z : Z) : Z :=
  let v := z mod 2 ^ 64 in if v <? 2 ^ 63 then v else v - 2 ^ 64.

Definition UINT16_MAX : Z := 2 ^ 16 - 1.
Definition UINT32_MAX : Z := 2 ^ 32 - 1.
Definition UINT64_MAX : Z := 2 ^ 64 - 1.

Lemma u32_small z : 0 <= z < 2 ^ 32 -> u32 z = z.
Proof. apply Z.mod_small. Qed.

Lemma u64_small z : 0 <= z < 2 ^ 64 -> u64 z = z.
Proof. apply Z.mod_small. Qed.

Lemma u32_range z : 0 <= u32 z < 2 ^ 32.
Proof. apply Z.mod_pos_bound; lia. Qed.

Lemma u64_range z : 0 <= u64 z < 2 ^ 64.
Proof. apply Z.mod_pos_bound; lia. Qed.

Lemma i64_small z : 0 <= z < 2 ^ 63 -> i64 z = z.
Proof.
  intros H. unfold i64. rewrite Z.mod_small by lia.
  destruct (Z.ltb_spec z (2 ^ 63)); lia.
Qed.

Create Rewrite HintDb width.
Create Rewrite HintDb count.
#[export] Hint Rewrite u32_small u64_small i64_small using lia : width.

(** ** Termination of the process and reported errors

    [cxx::Expects]/[cxx::Ensures] and [errorHandler] with level [FATAL] end the
    process ([ErrorHandler::reactOnErrorLevel]); the two other levels log the
    error and go on.  [outcome] is the result of code that can terminate. *)

Inductive ErrorLevel := FATAL | SEVERE | MODERATE.

Inductive Error :=
  | EXPECTS_ENSURES_FAILED
  | UNDEFINED_BEHAVIOUR (* a pointer that points to no object is used *)
  | DOES_NOT_RETURN (* a loop of the code goes on forever *)
  | UNCAUGHT_EXCEPTION (* an exception leaves a [noexcept] function *)
  | MEPOO__MEMPOOL_CHUNKSIZE_MUST_BE_MULTIPLE_OF_CHUNK_MEMORY_ALIGNMENT
  | MEPOO__MEMPOOL_ADDMEMPOOL_AFTER_GENERATECHUNKMANAGEMENTPOOL
  | MEPOO__MEMPOOL_CONFIG_MUST_BE_ORDERED_BY_INCREASING_SIZE
  | MEPOO__MEMPOOL_GETCHUNK_CHUNK_WITHOUT_MEMPOOL
  | MEPOO__MEMPOOL_GETCHUNK_CHUNK_IS_TOO_LARGE
  | MEPOO__MEMPOOL_GETCHUNK_POOL_IS_RUNNING_OUT_OF_CHUNKS
  | MEPOO__MAXIMUM_NUMBER_OF_MEMPOOLS_REACHED
  | MEPOO__USER_WITH_MORE_THAN_ONE_WRITE_SEGMENT
  | MEPOO__CANNOT_ALLOCATE_CHUNK
  | MEPOO__INTROSPECTION_CONTAINER_FULL
  | MEPOO__SEGMENT_COULD_NOT_APPLY_POSIX_RIGHTS_TO_SHARED_MEMORY
  | MEPOO__SEGMENT_UNABLE_TO_CREATE_SHARED_MEMORY_OBJECT
  | ROUDI__DEFAULT_ROUDI_MEMORY_FAILED_TO_ADD_SEGMENT_MANAGER_MEMORY_BLOCK
  | ROUDI__DEFAULT_ROUDI_MEMORY_FAILED_TO_ADD_INTROSPECTION_MEMORY_BLOCK
  | ICEORYX_ROUDI_MEMORY_MANAGER__FAILED_TO_ADD_PORTPOOL_MEMORY_BLOCK
  | ICEORYX_ROUDI_MEMORY_MANAGER__FAILED_TO_ADD_MANAGEMENT_MEMORY_BLOCK
  | POSH__MEMPOOL_POSSIBLE_DOUBLE_FREE
  | POPO__CHUNK_DISTRIBUTOR_OVERFLOW_OF_QUEUE_CONTAINER
  | POPO__CHUNK_DISTRIBUTOR_CLEANUP_DEADLOCK_BECAUSE_BAD_APPLICATION_TERMINATION
  | POPO__CHUNK_SENDER_INVALID_CHUNK_TO_FREE_FROM_USER
  | POPO__CHUNK_SENDER_INVALID_CHUNK_TO_SEND_FROM_USER
  | POPO__CHUNK_RECEIVER_INVALID_CHUNK_TO_RELEASE_FROM_USER
  | POPO__CHUNK_QUEUE_POPPER_CHUNK_WITH_INCOMPATIBLE_CHUNK_HEADER_VERSION
  | POPO__CONDITION_NOTIFIER_INDEX_TOO_LARGE
  | POPO__CONDITION_NOTIFIER_SEMAPHORE_CORRUPT_IN_NOTIFY
  | POPO__TYPED_UNIQUE_ID_OVERFLOW
  | POPO__TYPED_UNIQUE_ID_ROUDI_HAS_ALREADY_DEFINED_CUSTOM_UNIQUE_ID
  | POPO__CAPRO_PROTOCOL_ERROR
  | POPO__CLIENT_PORT_INVALID_REQUEST_TO_FREE_FROM_USER
  | POPO__CLIENT_PORT_INVALID_REQUEST_TO_SEND_FROM_USER
  | POPO__CLIENT_PORT_INVALID_RESPONSE_TO_RELEASE_FROM_USER
  | POPO__SERVER_PORT_INVALID_REQUEST_TO_RELEASE_FROM_USER
  | POPO__SERVER_PORT_INVALID_RESPONSE_TO_FREE_FROM_USER
  | POPO__SERVER_PORT_INVALID_RESPONSE_TO_SEND_FROM_USER
  | POPO__SERVER_PORT_NO_CLIENT_RESPONSE_QUEUE_TO_CONNECT
  | POSH__INTERFACEPORT_CAPRO_MESSAGE_DISMISSED
  | PORT_MANAGER__HANDLE_PUBLISHER_PORTS_INVALID_CAPRO_MESSAGE
  | PORT_MANAGER__HANDLE_SUBSCRIBER_PORTS_INVALID_CAPRO_MESSAGE
  | PORT_MANAGER__HANDLE_CLIENT_PORTS_INVALID_CAPRO_MESSAGE
  | PORT_MANAGER__HANDLE_SERVER_PORTS_INVALID_CAPRO_MESSAGE
  | PORT_MANAGER__NO_PUBLISHER_PORT_FOR_INTERNAL_SERVICE
  | POSH__PORT_MANAGER_PUBLISHERPORT_NOT_UNIQUE
  | POSH__PORT_MANAGER_SERVERPORT_NOT_UNIQUE
  | POSH__PORT_MANAGER_INTERNAL_SERVICE_DESCRIPTION_IS_FORBIDDEN
  | POSH__PORT_MANAGER_COULD_NOT_ADD_SERVICE_TO_REGISTRY
  | PORT_POOL__PUBLISHERLIST_OVERFLOW
  | PORT_POOL__SUBSCRIBERLIST_OVERFLOW
  | PORT_POOL__CLIENTLIST_OVERFLOW
  | PORT_POOL__SERVERLIST_OVERFLOW
  | PORT_POOL__INTERFACELIST_OVERFLOW
  | PORT_POOL__NODELIST_OVERFLOW
  | PORT_POOL__CONDITION_VARIABLE_LIST_OVERFLOW
  | IPC_INTERFACE__APP_WITH_SAME_NAME_STILL_RUNNING
  | IPC_INTERFACE__COULD_NOT_ACQUIRE_FILE_LOCK
  | IPC_INTERFACE__REG_ACK_INVALIG_NUMBER_OF_PARAMS
  | IPC_INTERFACE__REG_ACK_NO_RESPONSE
  | IPC_INTERFACE__REG_ROUDI_NOT_AVAILABLE
  | IPC_INTERFACE__REG_UNABLE_TO_WRITE_TO_ROUDI_CHANNEL
  | IPC_INTERFACE__UNABLE_TO_CREATE_APPLICATION_CHANNEL
  | POPO__BASE_SUBSCRIBER_OVERRIDING_WITH_EVENT_SINCE_HAS_DATA_OR_DATA_RECEIVED_ALREADY_ATTACHED
  | POPO__BASE_SUBSCRIBER_OVERRIDING_WITH_STATE_SINCE_HAS_DATA_OR_DATA_RECEIVED_ALREADY_ATTACHED
  | POPO__BASE_CLIENT_OVERRIDING_WITH_EVENT_SINCE_HAS_RESPONSE_OR_RESPONSE_RECEIVED_ALREADY_ATTACHED
  | POPO__BASE_CLIENT_OVERRIDING_WITH_STATE_SINCE_HAS_RESPONSE_OR_RESPONSE_RECEIVED_ALREADY_ATTACHED
  | POPO__BASE_SERVER_OVERRIDING_WITH_EVENT_SINCE_HAS_REQUEST_OR_REQUEST_RECEIVED_ALREADY_ATTACHED
  | POPO__BASE_SERVER_OVERRIDING_WITH_STATE_SINCE_HAS_REQUEST_OR_REQUEST_RECEIVED_ALREADY_ATTACHED
  | POPO__CONDITION_LISTENER_SEMAPHORE_CORRUPTED_IN_DESTROY
  | POPO__NOTIFICATION_INFO_TYPE_INCONSISTENCY_IN_GET_ORIGIN
  | POPO__TRIGGER_HANDLE_INVALID_RESET_CALLBACK
  | POPO__TRIGGER_INVALID_HAS_TRIGGERED_CALLBACK
  | POPO__TRIGGER_INVALID_RESET_CALLBACK
  | POSH__PUBLISHING_EMPTY_SAMPLE
  | POSH__ROUDI_PROCESS_SEND_VIA_IPC_CHANNEL_FAILED
  | POSH__ROUDI_PROCESS_SHUTDOWN_FAILED
  | POSH__RUNTIME_CLIENT_PORT_CREATION_UNKNOWN_ERROR
  | POSH__RUNTIME_FACTORY_IS_NOT_SET
  | POSH__RUNTIME_IS_CREATED_MULTIPLE_TIMES
  | POSH__RUNTIME_LEADING_SLASH_PROVIDED
  | POSH__RUNTIME_NAME_EMPTY
  | POSH__RUNTIME_NO_NAME_PROVIDED
  | POSH__RUNTIME_NO_WRITABLE_SHM_SEGMENT
  | POSH__RUNTIME_PUBLISHER_PORT_CREATION_UNKNOWN_ERROR
  | POSH__RUNTIME_PUBLISHER_PORT_NOT_UNIQUE
  | POSH__RUNTIME_ROUDI_CONDITION_VARIABLE_CREATION_UNKNOWN_ERROR
  | POSH__RUNTIME_ROUDI_CONDITION_VARIABLE_LIST_FULL
  | POSH__RUNTIME_ROUDI_CREATE_NODE_INVALID_RESPONSE
  | POSH__RUNTIME_ROUDI_CREATE_NODE_WRONG_IPC_MESSAGE_RESPONSE
  | POSH__RUNTIME_ROUDI_GET_MW_INTERFACE_INVALID_RESPONSE
  | POSH__RUNTIME_ROUDI_GET_MW_INTERFACE_WRONG_IPC_MESSAGE_RESPONSE
  | POSH__RUNTIME_ROUDI_OUT_OF_CLIENTS
  | POSH__RUNTIME_ROUDI_OUT_OF_SERVERS
  | POSH__RUNTIME_ROUDI_PUBLISHER_LIST_FULL
  | POSH__RUNTIME_ROUDI_REQUEST_CLIENT_INVALID_RESPONSE
  | POSH__RUNTIME_ROUDI_REQUEST_CLIENT_WRONG_IPC_MESSAGE_RESPONSE
  | POSH__RUNTIME_ROUDI_REQUEST_CONDITION_VARIABLE_INVALID_RESPONSE
  | POSH__RUNTIME_ROUDI_REQUEST_CONDITION_VARIABLE_WRONG_IPC_MESSAGE_RESPONSE
  | POSH__RUNTIME_ROUDI_REQUEST_PUBLISHER_INVALID_RESPONSE
  | POSH__RUNTIME_ROUDI_REQUEST_PUBLISHER_WRONG_IPC_MESSAGE_RESPONSE
  | POSH__RUNTIME_ROUDI_REQUEST_SERVER_INVALID_RESPONSE
  | POSH__RUNTIME_ROUDI_REQUEST_SERVER_WRONG_IPC_MESSAGE_RESPONSE
  | POSH__RUNTIME_ROUDI_REQUEST_SUBSCRIBER_INVALID_RESPONSE
  | POSH__RUNTIME_ROUDI_REQUEST_SUBSCRIBER_WRONG_IPC_MESSAGE_RESPONSE
  | POSH__RUNTIME_ROUDI_SUBSCRIBER_LIST_FULL
  | POSH__RUNTIME_SERVER_PORT_CREATION_UNKNOWN_ERROR
  | POSH__RUNTIME_SERVICE_DESCRIPTION_FORBIDDEN
  | POSH__RUNTIME_SUBSCRIBER_PORT_CREATION_UNKNOWN_ERROR
  | POSH__SENDING_EMPTY_REQUEST
  | POSH__SENDING_EMPTY_RESPONSE
  | POSH__SERVICE_DISCOVERY_UNKNOWN_EVENT_PROVIDED
  | POSH__SERVICE_DISCOVERY_UNKNOWN_MESSAGE_PATTERN_PROVIDED
  | POSH__SHM_APP_MAPP_ERR
  | POSH__SHM_APP_SEGMENT_COUNT_OVERFLOW
  | POSH__SHM_APP_SEGMENT_MAPP_ERR
  | ROUDI__PRECONDITIONS_FOR_PROCESS_MANAGER_NOT_FULFILLED.

#[global] Instance Error_eq_dec : EqDecision Error.
Proof. solve_decision. Defined.

Inductive outcome (A : Type) :=
  | Done (a : A)
  | Terminated (e : Error).
Arguments Done {A} a.
Arguments Terminated {A} e.

Definition obind {A B} (m : outcome A) (f : A -> outcome B) : outcome B :=
  match m with Done a => f a | Terminated e => Terminated e end.

Declare Scope iox_scope.
Delimit Scope iox_scope with iox.
#[global] Open Scope iox_scope.

Notation "'let*' x := m 'in' k" := (obind m (fun x => k))
  (at level 10, x binder, m at level 100, k at level 200) : iox_scope.
Notation "'let*' ' x := m 'in' k" := (obind m (fun x => k))
  (at level 10, x strict pattern, m at level 100, k at level 200) : iox_scope.

(** [cxx::Expects(c)] followed by [k]. *)
Definition expects {A} (c : bool) (k : outcome A) : outcome A :=
  if c then k else Terminated EXPECTS_ENSURES_FAILED.

Lemma expects_true {A} c (k : outcome A) : c = true -> expects c k = k.
Proof. intros ->. done. Qed.

Lemma obind_Done_inv {A B} (m : outcome A) (f : A -> outcome B) b :
  obind m f = Done b -> exists a, m = Done a /\ f a = Done b.
Proof. destruct m; simpl; [eauto | done]. Qed.

(** A loop that may not end, in the middle of other code. *)
Definition returns {A} (m : option A) : outcome A :=
  match m with Some a => Done a | None => Terminated DOES_NOT_RETURN end.

(** [cxx::expected<T, E>]. *)
Inductive expected (A E : Type) :=
  | success (a : A)
  | error (e : E).
Arguments success {A E} a.
Arguments error {A E} e.

Definition has_error {A E} (x : expected A E) : bool :=
  match x with success _ => false | error _ => true end.

(** ** Lists indexed by [Z] as C arrays

    [arr !!! i] style access: the models read and write arrays only at indices
    the source indexes, [aget] gives a default outside and [aset] is the
    identity there; the invariants show that every access is in range. *)

Definition aget {A} (d : A) (l : list A) (i : Z) : A :=
  default d (if i <? 0 then None else l !! Z.to_nat i).

Definition aset {A} (l : list A) (i : Z) (x : A) : list A :=
  if i <? 0 then l else <[Z.to_nat i := x]> l.

Definition in_range {A} (l : list A) (i : Z) : Prop := 0 <= i < Z.of_nat (length l).

Lemma length_aset {A} (l : list A) i x : length (aset l i x) = length l.
Proof. unfold aset. destruct (i <? 0); [done | apply length_insert]. Qed.

Lemma aget_aset_eq {A} d (l : list A) i x : in_range l i -> aget d (aset l i x) i = x.
Proof.
  intros H. unfold aget, aset, in_range in *. destruct (Z.ltb_spec i 0); [lia|].
  rewrite list_lookup_insert_eq by lia. done.
Qed.

Lemma aget_aset_ne {A} d (l : list A) i j x : i <> j -> aget d (aset l i x) j = aget d l j.
Proof.
  intros H. unfold aget, aset.
  destruct (Z.ltb_spec i 0), (Z.ltb_spec j 0); try done.
  rewrite list_lookup_insert_ne by lia. done.
Qed.

Lemma aget_aset {A} d (l : list A) i j x :
  in_range l i -> aget d (aset l i x) j = if decide (i = j) then x else aget d l j.
Proof.
  intros H. case_decide; subst; [by apply aget_aset_eq | by apply aget_aset_ne].
Qed.

Lemma in_range_aset {A} (l : list A) i j x : in_range (aset l i x) j <-> in_range l j.
Proof. unfold in_range. by rewrite length_aset. Qed.

(** ** Counting occurrences *)

Definition count {A} `{EqDecision A} (x : A) (l : list A) : Z :=
  Z.of_nat (length (filter (x =.) l)).

Section count.
Context {A : Type} `{EqDecision A}.
Implicit Types (x y : A) (l : list A).

Lemma count_nil x : count x [] = 0.
Proof. done. Qed.

Lemma count_cons x y l : count x (y :: l) = (if decide (x = y) then 1 else 0) + count x l.
Proof.
  unfold count. rewrite filter_cons. repeat case_decide; simpl; try congruence; lia.
Qed.

Lemma count_app x l k : count x (l ++ k) = count x l + count x k.
Proof. unfold count. rewrite filter_app, length_app. lia. Qed.

Lemma count_nonneg x l : 0 <= count x l.
Proof. unfold count. lia. Qed.

Lemma count_pos x l : x ∈ l -> 1 <= count x l.
Proof.
  induction 1; rewrite count_cons; [case_decide; [|done]; pose proof (count_nonneg x l); lia|].
  case_decide; lia.
Qed.

Lemma count_length x l : count x l <= Z.of_nat (length l).
Proof. unfold count. pose proof (length_filter (x =.) l). lia. Qed.

Lemma count_zero x l : x ∉ l -> count x l = 0.
Proof.
  induction l as [|y l IH]; intros H; [done|]. apply not_elem_of_cons in H as [Hne H].
  rewrite count_cons, decide_False, IH by done. done.
Qed.

Lemma count_Permutation x l k : l ≡ₚ k -> count x l = count x k.
Proof. intros H. unfold count. by rewrite H. Qed.
End count.

#[export] Hint Rewrite @count_nil @count_cons @count_app : count.

(** ** Resources of a store

    A store is a list of cells; every cell holds some resources.  Updating one
    cell changes only what that cell holds. *)

Lemma bind_focus {A B} (f : A -> list B) (l : list A) (i : nat) x :
  l !! i = Some x ->
  exists rest, (l ≫= f) ≡ₚ f x ++ rest /\ forall y, (<[i := y]> l ≫= f) ≡ₚ f y ++ rest.
Proof.
  revert i. induction l as [|z l IH]; intros [|i] H; simplify_eq/=.
  - exists (l ≫= f). done.
  - destruct (IH i H) as (rest & E & Eins). exists (f z ++ rest). split; [rewrite E|intros y; rewrite (Eins y)];
      rewrite !app_assoc; apply Permutation_app_tail, Permutation_app_comm.
Qed.

(** Two different cells. *)
Lemma bind_focus2 {A B} (f : A -> list B) (l : list A) (i j : nat) x y :
  i <> j -> l !! i = Some x -> l !! j = Some y ->
  exists rest, (l ≫= f) ≡ₚ f x ++ f y ++ rest /\
    forall x' y', (<[j := y']> (<[i := x']> l) ≫= f) ≡ₚ f x' ++ f y' ++ rest.
Proof.
  revert i j. induction l as [|z l IH]; intros [|i] [|j] Hne Hi Hj; simplify_eq/=.
  - destruct (bind_focus f l j y Hj) as (rest & E & I). exists rest. split; [by rewrite E|].
    intros x' y'. by rewrite I.
  - destruct (bind_focus f l i x Hi) as (rest & E & I). exists rest.
    split; [rewrite E|intros x' y'; rewrite I]; solve_Permutation.
  - destruct (IH i j) as (rest & E & I); [congruence|done|done|]. exists (f z ++ rest).
    split; [rewrite E|intros x' y'; rewrite I]; solve_Permutation.
Qed.

(** ** Tactics *)

Ltac bool_to_prop :=
  repeat match goal with
  | H : (_ <? _) = true |- _ => apply Z.ltb_lt in H
  | H : (_ <? _) = false |- _ => apply Z.ltb_ge in H
  | H : (_ <=? _) = true |- _ => apply Z.leb_le in H
  | H : (_ <=? _) = false |- _ => apply Z.leb_gt in H
  | H : (_ =? _) = true |- _ => apply Z.eqb_eq in H
  | H : (_ =? _) = false |- _ => apply Z.eqb_neq in H
  | H : _ && _ = true |- _ => apply andb_true_iff in H as [? ?]
  | H : negb _ = true |- _ => apply negb_true_iff in H
  | H : negb _ = false |- _ => apply negb_false_iff in H
  | H : _ || _ = false |- _ => apply orb_false_iff in H as [? ?]
  end.

Ltac case_zb :=
  match goal with
  | |- context [?a <? ?b] => destruct (Z.ltb_spec a b)
  | |- context [?a <=? ?b] => destruct (Z.leb_spec a b)
  | |- context [?a =? ?b] => destruct (Z.eqb_spec a b)
  end.

(** ** The search for a free cell

    [cxx::ObjectPool] and the [FixedSizeContainer] of the introspection look for
    the next free cell of an array, starting at an index and wrapping around. *)

Section cyclic_search.
Context {A : Type} (used : A -> bool) (capacity : nat).
Implicit Types (cells : list A).

Fixpoint cyclic_search (fuel : nat) (index : nat) (cells : list A) : option nat :=
  match fuel with
  | O => None
  | S fuel =>
      match cells !! index with
      | Some c => if used c then cyclic_search fuel (Nat.modulo (index + 1) capacity) cells else Some index
      | None => None
      end
  end.

Definition used_cells cells : nat := length (filter (fun c => used c = true) cells).

Lemma used_cells_insert cells i c d : cells !! i = Some c ->
  Z.of_nat (used_cells (<[i := d]> cells)) =
  Z.of_nat (used_cells cells) - (if used c then 1 else 0) + (if used d then 1 else 0).
Proof.
  intros Hi. unfold used_cells. rewrite (insert_take_drop cells i d) by (by eapply lookup_lt_Some).
  rewrite <- (take_drop_middle cells i c Hi) at 3.
  rewrite !filter_app, !filter_cons, !length_app. repeat case_decide; destruct (used c), (used d); simpl; try done; lia.
Qed.

Lemma used_cells_le cells : (used_cells cells <= length cells)%nat.
Proof. unfold used_cells. apply length_filter. Qed.

Lemma used_cells_pos cells i c : cells !! i = Some c -> used c = true -> (0 < used_cells cells)%nat.
Proof.
  intros Hi Hc. unfold used_cells. assert (H : c ∈ filter (fun c => used c = true) cells)
    by (apply list_elem_of_filter; split; [done|by eapply list_elem_of_lookup_2]).
  destruct (filter _ cells); [by apply elem_of_nil in H|simpl; lia].
Qed.

Lemma unused_cell_exists cells : (used_cells cells < length cells)%nat -> exists j c, cells !! j = Some c /\ used c = false.
Proof.
  induction cells as [|c cells IH]; simpl; [unfold used_cells; simpl; lia|]. unfold used_cells. rewrite filter_cons.
  destruct (used c) eqn:E; rewrite ?decide_True, ?decide_False by congruence; simpl.
  - intros H. destruct IH as (j & d & Hj & Hd); [unfold used_cells; lia|]. by exists (S j), d.
  - intros _. by exists 0%nat, c.
Qed.

Lemma cyclic_search_reaches cells j cj : length cells = capacity -> cells !! j = Some cj -> used cj = false ->
  forall k fuel i, (i < capacity)%nat -> Nat.modulo (i + k) capacity = j -> (k < fuel)%nat ->
  exists i' c, cyclic_search fuel i cells = Some i' /\ cells !! i' = Some c /\ used c = false.
Proof.
  intros Hl Hj Hv. induction k as [|k IH]; intros [|fuel] i Hi Hm Hf; try lia; simpl;
    destruct (lookup_lt_is_Some_2 cells i) as [c Hc]; try lia; rewrite Hc; (destruct (used c) eqn:Ec; [|by exists i, c]).
  - exfalso. rewrite Nat.add_0_r, Nat.mod_small in Hm by done. subst. congruence.
  - apply IH; [apply Nat.mod_upper_bound; lia| |lia]. rewrite Nat.Div0.add_mod_idemp_l. rewrite <- Hm. f_equal. lia.
Qed.

(** If not all cells are used, as many rounds as there are cells find a free one. *)
Lemma cyclic_search_finds cells i : length cells = capacity -> (i < capacity)%nat -> (used_cells cells < capacity)%nat ->
  exists i' c, cyclic_search (S capacity) i cells = Some i' /\ cells !! i' = Some c /\ used c = false.
Proof.
  intros Hl Hi Hn. destruct (unused_cell_exists cells) as (j & cj & Hj & Hv); [lia|]. pose proof (lookup_lt_Some _ _ _ Hj).
  apply (cyclic_search_reaches cells j cj Hl Hj Hv (Nat.modulo (capacity + j - i) capacity)); [done| |].
  - rewrite Nat.Div0.add_mod_idemp_r. replace (i + (capacity + j - i))%nat with (j + 1 * capacity)%nat by lia.
    rewrite Nat.Div0.mod_add, Nat.mod_small by lia. done.
  - apply Nat.lt_lt_succ_r, Nat.mod_upper_bound. lia.
Qed.
End cyclic_search.
