(* ===== verification/Helplets.v ===== *)
(** * helplets: integer helpers of the C++ layer

    [iceoryx_hoofs/cxx/helplets.hpp]: [align] and [isPowerOfTwo], with the
    arithmetic facts the memory layout proofs need. *)

From S2P Require Import Prelude.

(** [align<uint64_t>(value, alignment)] *)
Definition align (value alignment : Z) : Z :=
  let remainder := value mod alignment in
  u64 (value + (if remainder =? 0 then 0 else u64 (alignment - remainder))).

(** [isPowerOfTwo(n)] *)
Definition isPowerOfTwo (n : Z) : bool := negb (n =? 0) && (Z.land n (n - 1) =? 0).

Lemma isPowerOfTwo_pow2 n : 0 <= n -> isPowerOfTwo n = true -> exists k, 0 <= k /\ n = 2 ^ k.
Proof.
  unfold isPowerOfTwo. intros Hn H. bool_to_prop.
  assert (Hpos : 0 < n) by lia. pose proof (Z.log2_nonneg n) as Hk.
  pose proof (Z.log2_spec n Hpos) as [Hlo Hhi].
  exists (Z.log2 n). split; [done|].
  destruct (decide (n = 2 ^ Z.log2 n)) as [|Hne]; [done|]. exfalso.
  assert (Hlog : Z.log2 (n - 1) = Z.log2 n) by (apply Z.log2_unique; lia).
  assert (Hbit : Z.testbit (Z.land n (n - 1)) (Z.log2 n) = true).
  { rewrite Z.land_spec, Z.bit_log2 by lia. rewrite <- Hlog at 1. apply Z.bit_log2.
    assert (0 < 2 ^ Z.log2 n) by (apply Z.pow_pos_nonneg; lia). lia. }
  assert (Z.land n (n - 1) = 0) as E by done. rewrite E, Z.bits_0 in Hbit. done.
Qed.

Lemma pow2_isPowerOfTwo k : 0 <= k -> isPowerOfTwo (2 ^ k) = true.
Proof.
  intros Hk. unfold isPowerOfTwo.
  assert (0 < 2 ^ k) by (apply Z.pow_pos_nonneg; lia).
  rewrite (proj2 (Z.eqb_neq (2 ^ k) 0)) by lia. simpl.
  rewrite Z.sub_1_r, <- Z.ones_equiv, Z.land_ones, Z.mod_same by lia. done.
Qed.

Lemma isPowerOfTwo_pos n : 0 <= n -> isPowerOfTwo n = true -> 0 < n.
Proof. unfold isPowerOfTwo. intros ? H. bool_to_prop. lia. Qed.

(** The smaller of two powers of two divides the larger one. *)
Lemma pow2_divide a b :
  0 <= a <= b -> isPowerOfTwo a = true -> isPowerOfTwo b = true -> (a | b).
Proof.
  intros Hab Ha Hb.
  destruct (isPowerOfTwo_pow2 a) as (i & Hi & ->); [lia|done|].
  destruct (isPowerOfTwo_pow2 b) as (j & Hj & ->); [lia|done|].
  assert (i <= j) by (apply (Z.pow_le_mono_r_iff 2); lia).
  exists (2 ^ (j - i)). rewrite <- Z.pow_add_r by lia. f_equal. lia.
Qed.

(** Without overflow [align] rounds up to the next multiple. *)
Lemma align_spec v a :
  0 <= v -> 0 < a -> v + a <= 2 ^ 64 ->
  v <= align v a < v + a /\ (a | align v a).
Proof.
  intros Hv Ha Hb. unfold align.
  pose proof (Z.mod_pos_bound v a Ha) as Hr. pose proof (Z.div_mod v a ltac:(lia)) as Hd.
  destruct (Z.eqb_spec (v mod a) 0) as [E|E].
  - rewrite u64_small by lia. split; [lia|]. exists (v / a). lia.
  - rewrite (u64_small (a - v mod a)) by lia. rewrite u64_small by lia.
    split; [lia|]. exists (v / a + 1). lia.
Qed.

(** Values of the same grid: the distance to the next multiple shrinks. *)
Lemma align_grid v a g :
  0 <= v -> 0 < g -> (g | a) -> (g | v) -> 0 < a -> v + a <= 2 ^ 64 ->
  align v a <= v + a - g.
Proof.
  intros Hv Hg Hga Hgv Ha Hb. destruct (align_spec v a Hv Ha Hb) as [Hr Hd].
  assert (Hgd : (g | v + a - align v a)).
  { apply Z.divide_sub_r; [by apply Z.divide_add_r|]. by apply (Z.divide_trans _ a). }
  destruct Hgd as [q Hq]. assert (0 < q) by nia. nia.
Qed.

Lemma align_id v a : 0 <= v < 2 ^ 64 -> 0 < a -> (a | v) -> align v a = v.
Proof.
  intros Hv Ha Hd. unfold align. apply Z.mod_divide in Hd; [|lia]. rewrite Hd.
  simpl. rewrite Z.add_0_r. by apply u64_small.
Qed.

(** Shifting by a multiple of the alignment. *)
Lemma align_shift b v a :
  0 <= v -> 0 <= b -> 0 < a -> (a | b) -> b + v + a <= 2 ^ 64 ->
  align (b + v) a = b + align v a.
Proof.
  intros Hv Hb Ha [q ->] Hle. unfold align.
  replace (q * a + v) with (v + q * a) by lia. rewrite Z.mod_add by lia.
  pose proof (Z.mod_pos_bound v a Ha).
  case_zb; [rewrite !u64_small by lia; lia|].
  rewrite (u64_small (a - _)) by lia. rewrite !u64_small by lia. lia.
Qed.
