(* ===== verification/Loffli.v ===== *)
(** * LoFFLi: the lock-free free list

    Models [iceoryx_hoofs/source/concurrent/loffli.cpp]: the index stack that
    every [MemPool] uses to hand out chunk indices.  The file holds the shared
    data, the two operations at the granularity of their atomic accesses (a
    program counter per thread and an interleaving of thread steps), the same
    operations run without interference ([pop], [push]), and the free-list
    invariant. *)

From S2P Require Import Prelude.

Module LoFFLi.

(** [LoFFLi::Node], the 64 bit word updated by compare-exchange. *)
Record Node := mkNode { indexToNextFreeIndex : Z; abaCounter : Z }.

#[global] Instance Node_eq_dec : EqDecision Node.
Proof. solve_decision. Defined.

(** The members of the class; [m_nextFreeIndex] is the index memory it was
    initialised with. *)
Record t := mk {
  m_size : Z;
  m_invalidIndex : Z;
  m_head : Node;
  m_nextFreeIndex : list Z }.

Definition set_head (h : Node) (l : t) : t :=
  mk (m_size l) (m_invalidIndex l) h (m_nextFreeIndex l).

(** [m_nextFreeIndex[i] = v] *)
Definition set_next (i v : Z) (l : t) : t :=
  mk (m_size l) (m_invalidIndex l) (m_head l) (aset (m_nextFreeIndex l) i v).

(** [m_nextFreeIndex[i]] *)
Definition next (l : t) (i : Z) : Z := aget 0 (m_nextFreeIndex l) i.

(** The default member initialisers. *)
Definition ctor : t := mk 0 0 (mkNode 0 1) [].

(** [requiredIndexMemorySize]: bytes needed for the index memory. *)
Definition requiredIndexMemorySize (capacity : Z) : Z := u64 ((capacity + 1) * 4).

(** The loop of [init] that links index [i] to [i + 1]. *)
Definition link_all (mem : list Z) (n : nat) : list Z :=
  foldl (fun m i => aset m (Z.of_nat i) (u32 (Z.of_nat i + 1))) mem (seq 0 n).

(** [init]: [mem] is the memory passed in, [lock_free] what
    [m_head.is_lock_free()] answers on the platform. *)
Definition init (lock_free : bool) (self : t) (mem : list Z) (capacity : Z) : outcome t :=
  expects (0 <? capacity)
  (expects (capacity <? UINT32_MAX - 1)
  (expects lock_free
  (Done (mk capacity (u32 (capacity + 1)) (m_head self)
            (link_all mem (Z.to_nat (u32 (capacity + 1)))))))).

(** ** The operations as thread programs *)

(** The position of a thread inside [pop] or [push]; each constructor stands
    before one access to the shared data.  [old] and [new] are the local
    variables [oldHead] and [newHead]. *)
Inductive pc :=
  | Idle
  | PopLoad
  | PopLoop (old new : Node)
  | PopCas (old new : Node)
  | PopMark (index : Z)
  | PopRet (r : option Z)
  | PushCheck (index : Z)
  | PushLoad (index : Z)
  | PushLoop (index : Z) (old new : Node)
  | PushCas (index : Z) (old new : Node)
  | PushRet (index : Z) (r : bool).

(** [m_head.compare_exchange_weak(old, new)]: may fail spuriously; a failure
    reloads [old] and leaves [new] as it is. *)
Definition cas_weak (spurious : bool) (l : t) (old new : Node) : bool * t * Node :=
  if negb spurious && bool_decide (m_head l = old)
  then (true, set_head new l, old)
  else (false, l, m_head l).

(** One step of a thread. *)
Definition thread_step (spurious : bool) (l : t) (p : pc) : t * pc :=
  match p with
  | PopLoad => (l, PopLoop (m_head l) (m_head l))
  | PopLoop old new =>
      if m_size l <=? indexToNextFreeIndex old then (l, PopRet None)
      else (l, PopCas old (mkNode (next l (indexToNextFreeIndex old))
                                  (u32 (abaCounter new + 1))))
  | PopCas old new =>
      match cas_weak spurious l old new with
      | (true, l', _) => (l', PopMark (indexToNextFreeIndex old))
      | (false, l', old') => (l', PopLoop old' new)
      end
  | PopMark index => (set_next index (m_invalidIndex l) l, PopRet (Some index))
  | PushCheck index =>
      if (m_size l <=? index) || negb (next l index =? m_invalidIndex l)
      then (l, PushRet index false)
      else (l, PushLoad index)
  | PushLoad index => (l, PushLoop index (m_head l) (m_head l))
  | PushLoop index old new =>
      (set_next index (indexToNextFreeIndex old) l,
       PushCas index old (mkNode index (u32 (abaCounter new + 1))))
  | PushCas index old new =>
      match cas_weak spurious l old new with
      | (true, l', _) => (l', PushRet index true)
      | (false, l', old') => (l', PushLoop index old' new)
      end
  | Idle | PopRet _ | PushRet _ _ => (l, p)
  end.

(** ** The operations without interference *)

(** [pop] *)
Definition pop (l : t) : option Z * t :=
  let oldHead := m_head l in
  let index := indexToNextFreeIndex oldHead in
  if m_size l <=? index then (None, l)
  else
    let newHead := mkNode (next l index) (u32 (abaCounter oldHead + 1)) in
    (Some index, set_next index (m_invalidIndex l) (set_head newHead l)).

(** [push] *)
Definition push (l : t) (index : Z) : bool * t :=
  if (m_size l <=? index) || negb (next l index =? m_invalidIndex l) then (false, l)
  else
    let oldHead := m_head l in
    let newHead := mkNode index (u32 (abaCounter oldHead + 1)) in
    (true, set_head newHead (set_next index (indexToNextFreeIndex oldHead) l)).

(** [n] uncontended steps of one thread. *)
Fixpoint solo (n : nat) (l : t) (p : pc) : t * pc :=
  match n with
  | O => (l, p)
  | S n => let '(l', p') := thread_step false l p in solo n l' p'
  end.

Lemma pop_solo l : solo 4 l PopLoad = (snd (pop l), PopRet (fst (pop l))).
Proof.
  unfold pop. simpl. case_zb; simpl; [done|].
  unfold cas_weak. rewrite bool_decide_true by done. done.
Qed.

Lemma push_solo l i : solo 4 l (PushCheck i) = (snd (push l i), PushRet i (fst (push l i))).
Proof.
  unfold push. simpl. destruct (_ || _) eqn:E; simpl; [done|].
  unfold cas_weak. by rewrite bool_decide_true.
Qed.

(** ** The free list *)

(** [chain size nx h fl]: following [nx] from [h] visits exactly [fl] and ends
    at the index [size]. *)
Inductive chain (size : Z) (nx : list Z) : Z -> list Z -> Prop :=
  | chain_nil : chain size nx size []
  | chain_cons h fl :
      0 <= h < size -> chain size nx (aget 0 nx h) fl -> chain size nx h (h :: fl).

Record Rep (l : t) (fl : list Z) : Prop := {
  rep_size : 0 < m_size l < UINT32_MAX - 1;
  rep_invalid : m_invalidIndex l = m_size l + 1;
  rep_length : Z.of_nat (length (m_nextFreeIndex l)) = m_size l + 1;
  rep_chain : chain (m_size l) (m_nextFreeIndex l) (indexToNextFreeIndex (m_head l)) fl;
  rep_nodup : NoDup fl;
  rep_taken : forall i, 0 <= i < m_size l -> i ∉ fl -> next l i = m_invalidIndex l }.

Lemma chain_range size nx h fl : chain size nx h fl -> forall i, i ∈ fl -> 0 <= i < size.
Proof. induction 1; intros i Hi; [by apply elem_of_nil in Hi|]. apply elem_of_cons in Hi as [->|Hi]; eauto. Qed.

Lemma chain_frame size nx h fl i v :
  chain size nx h fl -> i ∉ fl -> chain size (aset nx i v) h fl.
Proof.
  induction 1 as [|h fl Hh Hc IH]; intros Hi; [constructor|].
  apply not_elem_of_cons in Hi as [Hne Hi]. constructor; [done|].
  rewrite aget_aset_ne by done. auto.
Qed.

Lemma chain_next size nx h fl i : 0 < size ->
  chain size nx h fl -> i ∈ fl -> 0 <= aget 0 nx i <= size.
Proof.
  intros Hs. induction 1 as [|h fl Hh Hc IH]; intros Hi; [set_solver|].
  apply elem_of_cons in Hi as [->|Hi]; [|auto].
  inversion Hc; subst; lia.
Qed.

Lemma chain_head size nx h fl :
  chain size nx h fl ->
  (fl = [] /\ h = size) \/
  (exists fl', fl = h :: fl' /\ 0 <= h < size /\ chain size nx (aget 0 nx h) fl').
Proof. destruct 1; eauto 10. Qed.

Lemma rep_free_range l fl i : Rep l fl -> i ∈ fl -> 0 <= i < m_size l.
Proof. intros H. eapply chain_range, H. Qed.

(** The number of indices in use never exceeds the capacity. *)
Lemma rep_free_length l fl : Rep l fl -> Z.of_nat (length fl) <= m_size l.
Proof.
  intros H. assert (Hsub : fl ⊆ seqZ 0 (m_size l)).
  { intros i Hi. apply elem_of_seqZ. pose proof (rep_free_range _ _ _ H Hi). lia. }
  pose proof (NoDup_submseteq fl _ (rep_nodup _ _ H) Hsub) as Hl.
  apply submseteq_length in Hl. rewrite length_seqZ in Hl.
  destruct H as [[? ?] _ _ _ _ _]. lia.
Qed.

Lemma aget_link_all mem n i :
  (n <= length mem)%nat -> 0 <= i < Z.of_nat n ->
  aget 0 (link_all mem n) i = u32 (i + 1).
Proof.
  unfold link_all. intros Hn. revert i. induction n as [|n IH]; intros i Hi; [lia|].
  rewrite seq_S, foldl_snoc, Nat.add_0_l.
  assert (Hlen : length (foldl (fun m i => aset m (Z.of_nat i) (u32 (Z.of_nat i + 1))) mem
                   (seq 0 n)) = length mem).
  { clear. induction n as [|n IH]; [done|].
    rewrite seq_S, foldl_snoc, length_aset. done. }
  rewrite aget_aset by (unfold in_range; lia).
  case_decide; [by subst|]. apply IH; lia.
Qed.

Lemma length_link_all mem n : length (link_all mem n) = length mem.
Proof.
  unfold link_all. induction n as [|n IH]; [done|].
  by rewrite seq_S, foldl_snoc, length_aset.
Qed.

Lemma chain_linked size nx k :
  0 <= k <= size -> (forall i, 0 <= i < size -> aget 0 nx i = i + 1) ->
  chain size nx k (seqZ k (size - k)).
Proof.
  intros Hk Hnx. remember (Z.to_nat (size - k)) as n eqn:En. revert k Hk En.
  induction n as [|n IH]; intros k Hk En.
  - assert (k = size) as -> by lia. rewrite Z.sub_diag. constructor.
  - rewrite seqZ_cons by lia. constructor; [lia|]. rewrite Hnx by lia.
    replace (Z.pred (size - k)) with (size - Z.succ k) by lia.
    replace (k + 1) with (Z.succ k) by lia. apply IH; lia.
Qed.

(** [init] builds the list of all indices, in increasing order. *)
Lemma init_rep mem capacity :
  0 < capacity < UINT32_MAX - 1 -> Z.of_nat (length mem) = capacity + 1 ->
  exists l, init true ctor mem capacity = Done l /\ Rep l (seqZ 0 capacity) /\
            m_size l = capacity.
Proof.
  intros Hc Hm. unfold init. unfold UINT32_MAX in *.
  rewrite !expects_true by (try apply Z.ltb_lt; unfold UINT32_MAX; lia).
  eexists. split; [done|]. split; [|done].
  assert (Hu : u32 (capacity + 1) = capacity + 1) by (apply u32_small; lia).
  constructor; simpl; unfold next; simpl.
  - unfold UINT32_MAX; lia.
  - done.
  - rewrite length_link_all. lia.
  - rewrite <- (Z.sub_0_r capacity) at 3. apply chain_linked; [lia|].
    intros i Hi. rewrite aget_link_all by (rewrite ?Hu; lia). apply u32_small; lia.
  - apply NoDup_seqZ.
  - intros i Hi Hn. destruct Hn. apply elem_of_seqZ. lia.
Qed.

Lemma pop_nil l : Rep l [] -> pop l = (None, l).
Proof.
  intros H. unfold pop. pose proof (rep_chain _ _ H) as Hc. inversion Hc as [Hh|].
  rewrite (proj2 (Z.leb_le _ _)) by lia. done.
Qed.

Lemma pop_cons l i fl : Rep l (i :: fl) -> exists l', pop l = (Some i, l') /\ Rep l' fl /\ m_size l' = m_size l.
Proof.
  intros H. destruct H as [Hs Hi Hl Hc Hn Ht]. unfold pop.
  inversion Hc as [|h fl' Hh Hc' E1 E2]; subst. apply NoDup_cons in Hn as [Hni Hn].
  rewrite (proj2 (Z.leb_gt _ _)) by lia. eexists. split; [done|]. split; [|done].
  constructor; unfold next; simpl; try done.
  - by rewrite length_aset.
  - by apply chain_frame.
  - intros j Hj Hnj. rewrite aget_aset by (unfold in_range; lia).
    case_decide; [done|]. apply Ht; [done|]. rewrite not_elem_of_cons. auto.
Qed.

Lemma push_free l i fl : Rep l fl -> i ∈ fl -> push l i = (false, l).
Proof.
  intros [Hs Hi Hl Hc Hn Ht] Hin. unfold push, next.
  pose proof (chain_next _ _ _ _ _ (proj1 Hs) Hc Hin) as Hx.
  rewrite (proj2 (Z.eqb_neq (aget 0 (m_nextFreeIndex l) i) (m_invalidIndex l))) by lia.
  by rewrite orb_true_r.
Qed.

Lemma push_out_of_range l i : m_size l <= i -> push l i = (false, l).
Proof. intros H. unfold push. by rewrite (proj2 (Z.leb_le _ _)) by lia. Qed.

Lemma push_taken l i fl : Rep l fl -> 0 <= i < m_size l -> i ∉ fl ->
  exists l', push l i = (true, l') /\ Rep l' (i :: fl) /\ m_size l' = m_size l.
Proof.
  intros [Hs Hi Hl Hc Hn Ht] Hr Hin. unfold push. rewrite Ht by done.
  rewrite (proj2 (Z.leb_gt _ _)), Z.eqb_refl by lia. eexists. split; [done|]. split; [|done].
  constructor; unfold next; simpl; try done.
  - by rewrite length_aset.
  - constructor; [done|]. rewrite aget_aset_eq by (unfold in_range; lia). by apply chain_frame.
  - by constructor.
  - intros j Hj Hnj. apply not_elem_of_cons in Hnj as [Hne Hnj].
    rewrite aget_aset_ne by done. by apply Ht.
Qed.

(** ** Concurrent clients

    A client thread owns the indices it popped; it pushes only indices it owns.
    [exec] runs one action of the system, [None] when the action is not enabled. *)

Record thread := mkThread { t_pc : pc; t_held : list Z }.

Record sys := mkSys { s_list : t; s_threads : list thread }.

Inductive action :=
  | InvokePop (tid : nat)
  | InvokePush (tid : nat) (index : Z)
  | Step (tid : nat) (spurious : bool)
  | Return (tid : nat).

Definition at_access (p : pc) : bool :=
  match p with Idle | PopRet _ | PushRet _ _ => false | _ => true end.

Definition set_thread (s : sys) (l : t) (tid : nat) (th : thread) : sys :=
  mkSys l (<[tid := th]> (s_threads s)).

Definition exec (s : sys) (a : action) : option sys :=
  match a with
  | InvokePop tid =>
      th ← s_threads s !! tid;
      match t_pc th with
      | Idle => Some (set_thread s (s_list s) tid (mkThread PopLoad (t_held th)))
      | _ => None
      end
  | InvokePush tid i =>
      th ← s_threads s !! tid;
      match t_pc th with
      | Idle =>
          if bool_decide (i ∈ t_held th) then
            Some (set_thread s (s_list s) tid
                    (mkThread (PushCheck i) (filter (fun j => j <> i) (t_held th))))
          else None
      | _ => None
      end
  | Step tid sp =>
      th ← s_threads s !! tid;
      if at_access (t_pc th) then
        let '(l', p') := thread_step sp (s_list s) (t_pc th) in
        Some (set_thread s l' tid (mkThread p' (t_held th)))
      else None
  | Return tid =>
      th ← s_threads s !! tid;
      match t_pc th with
      | PopRet (Some i) => Some (set_thread s (s_list s) tid (mkThread Idle (i :: t_held th)))
      | PopRet None => Some (set_thread s (s_list s) tid (mkThread Idle (t_held th)))
      | PushRet i true => Some (set_thread s (s_list s) tid (mkThread Idle (t_held th)))
      | PushRet i false => Some (set_thread s (s_list s) tid (mkThread Idle (i :: t_held th)))
      | _ => None
      end
  end.

Definition run (tr : list action) (s : sys) : option sys :=
  foldl (fun o a => s ← o; exec s a) (Some s) tr.

Definition init_sys (capacity : Z) (threads : nat) : option sys :=
  match init true ctor (replicate (Z.to_nat (capacity + 1)) 0) capacity with
  | Done l => Some (mkSys l (replicate threads (mkThread Idle [])))
  | Terminated _ => None
  end.

(** Thread [tid] holds index [i] after its operations returned it. *)
Definition holds (s : sys) (tid : nat) (i : Z) : Prop :=
  exists th, s_threads s !! tid = Some th /\ i ∈ t_held th.

(** *** Executions in which no compare-exchange is retried *)

Definition cas_succeeds (s : sys) (a : action) : Prop :=
  match a with
  | Step tid sp =>
      match t_pc <$> s_threads s !! tid with
      | Some (PopCas old _) | Some (PushCas _ old _) => sp = false /\ m_head (s_list s) = old
      | _ => True
      end
  | _ => True
  end.

Inductive retry_free (capacity : Z) (threads : nat) : nat -> sys -> Prop :=
  | rf_init s : init_sys capacity threads = Some s -> retry_free capacity threads 0 s
  | rf_step n s a s' :
      retry_free capacity threads n s -> cas_succeeds s a -> exec s a = Some s' ->
      retry_free capacity threads (S n) s'.

(** The indices a thread is responsible for, held or inside an operation. *)
Definition inflight (p : pc) : list Z :=
  match p with
  | PopMark i | PopRet (Some i) | PushCheck i | PushLoad i
  | PushLoop i _ _ | PushCas i _ _ | PushRet i false => [i]
  | _ => []
  end.

Definition owned (th : thread) : list Z := inflight (t_pc th) ++ t_held th.

(** [old] is a snapshot of the head: an earlier one has a smaller counter. *)
Definition snapshot (l : t) (old : Node) : Prop :=
  1 <= abaCounter old <= abaCounter (m_head l) /\
  (abaCounter old = abaCounter (m_head l) -> m_head l = old).

Definition pc_ok (l : t) (p : pc) : Prop :=
  match p with
  | PopLoop old new => new = old /\ snapshot l old
  | PopCas old new =>
      abaCounter new = abaCounter old + 1 /\ snapshot l old /\
      (m_head l = old -> indexToNextFreeIndex old < m_size l /\
                         indexToNextFreeIndex new = next l (indexToNextFreeIndex old))
  | PopRet (Some i) | PushCheck i | PushLoad i => next l i = m_invalidIndex l
  | PushLoop i old new => new = old /\ snapshot l old
  | PushCas i old new =>
      new = mkNode i (abaCounter old + 1) /\ snapshot l old /\
      next l i = indexToNextFreeIndex old
  | PushRet i false => False
  | _ => True
  end.

Record list_ok (n : nat) (l : t) (fl : list Z) : Prop := {
  lo_size : 0 < m_size l < UINT32_MAX - 1;
  lo_invalid : m_invalidIndex l = m_size l + 1;
  lo_length : Z.of_nat (length (m_nextFreeIndex l)) = m_size l + 1;
  lo_chain : chain (m_size l) (m_nextFreeIndex l) (indexToNextFreeIndex (m_head l)) fl;
  lo_nodup : NoDup fl;
  lo_aba : 1 <= abaCounter (m_head l) <= 1 + Z.of_nat n }.

Record Inv (n : nat) (fl : list Z) (s : sys) : Prop := {
  inv_list : list_ok n (s_list s) fl;
  inv_own : forall tid th i, s_threads s !! tid = Some th -> i ∈ owned th ->
      0 <= i < m_size (s_list s) /\ i ∉ fl;
  inv_nodup : forall tid th, s_threads s !! tid = Some th -> NoDup (owned th);
  inv_excl : forall t1 th1 t2 th2 i,
      s_threads s !! t1 = Some th1 -> s_threads s !! t2 = Some th2 ->
      i ∈ owned th1 -> i ∈ owned th2 -> t1 = t2;
  inv_pc : forall tid th, s_threads s !! tid = Some th -> pc_ok (s_list s) (t_pc th);
  inv_held : forall tid th i, s_threads s !! tid = Some th -> i ∈ t_held th ->
      next (s_list s) i = m_invalidIndex (s_list s) }.

Lemma pc_ok_set_next n l fl p i v :
  list_ok n l fl -> i ∉ inflight p -> i ∉ fl -> pc_ok l p -> pc_ok (set_next i v l) p.
Proof.
  intros Hl Hp Hfl. unfold pc_ok, snapshot, next in *.
  destruct p as [| |old new|old new|j|[j|]|j|j|j old new|j old new|j []]; simpl in *; try done;
    try (rewrite aget_aset_ne by set_solver; done).
  intros (Ha & Hs & Hc). split; [done|]. split; [done|]. intros E.
  specialize (Hc E). rewrite aget_aset_ne; [done|]. intros ->. subst old.
  destruct (chain_head _ _ _ _ (lo_chain _ _ _ Hl)) as [[-> ?]|(fl' & -> & _)]; [lia|].
  set_solver.
Qed.

Lemma pc_ok_set_head l p h :
  abaCounter h = abaCounter (m_head l) + 1 -> pc_ok l p -> pc_ok (set_head h l) p.
Proof.
  intros Hh. unfold pc_ok, snapshot, next in *.
  destruct p as [| |old new|old new|j|[j|]|j|j|j old new|j old new|j []]; simpl in *; try done.
  - intros (-> & ? & ?). repeat split; lia || done.
  - intros (? & [? ?] & ?). repeat split; try lia; intros; subst; lia.
  - intros (-> & ? & ?). repeat split; lia || done.
  - intros (-> & [? ?] & ?). repeat split; try lia; done.
Qed.

(** Replacing one thread's state, with what its step may do to the list. *)
Lemma inv_set_thread n n' fl fl' s l' tid th th' :
  Inv n fl s -> s_threads s !! tid = Some th -> list_ok n' l' fl' ->
  m_size l' = m_size (s_list s) -> m_invalidIndex l' = m_invalidIndex (s_list s) ->
  (forall i, i ∈ owned th' -> (i ∈ owned th \/ i ∈ fl) /\ i ∉ fl') ->
  NoDup (owned th') ->
  (forall i, i ∈ fl' -> i ∈ fl \/ i ∈ owned th) ->
  pc_ok l' (t_pc th') ->
  (forall i, i ∈ t_held th' -> next l' i = m_invalidIndex l') ->
  (forall p, (forall i, i ∈ inflight p -> i ∉ owned th) -> pc_ok (s_list s) p -> pc_ok l' p) ->
  (forall i, i ∉ owned th -> i ∉ fl -> next l' i = next (s_list s) i) ->
  Inv n' fl' (set_thread s l' tid th').
Proof.
  intros Hinv Hth Hl Hsz Hiv Hown Hnd Hfl Hpc Hheld Hoth Hnx.
  assert (Hlook : forall t2 th2, (<[tid:=th']> (s_threads s)) !! t2 = Some th2 ->
            (t2 = tid /\ th2 = th') \/ (t2 <> tid /\ s_threads s !! t2 = Some th2)).
  { intros t2 th2. rewrite list_lookup_insert_Some. intros [(-> & -> & _)|[? ?]]; auto. }
  assert (Hdisj : forall t2 th2 i, t2 <> tid -> s_threads s !! t2 = Some th2 -> i ∈ owned th2 ->
            i ∉ owned th /\ i ∉ fl).
  { intros t2 th2 i Ht H2 Hi. split; [|by eapply inv_own].
    intros Hi'. apply Ht. by eapply inv_excl. }
  constructor; simpl; [done|..].
  - intros t2 th2 i [[-> ->]|[Ht H2]]%Hlook Hi; rewrite Hsz.
    + destruct (Hown i Hi) as [[Ho|Ho] Hn]; (split; [|done]).
      * by eapply inv_own.
      * eapply chain_range, Ho. apply Hinv.
    + split; [by eapply inv_own|]. destruct (Hdisj _ _ _ Ht H2 Hi). intros [?|?]%Hfl; done.
  - intros t2 th2 [[-> ->]|[Ht H2]]%Hlook; [done|]. by eapply inv_nodup.
  - intros t1 th1 t2 th2 i [[-> ->]|[Ht1 H1]]%Hlook [[-> ->]|[Ht2 H2]]%Hlook Hi1 Hi2; [done|..].
    + destruct (Hdisj _ _ _ Ht2 H2 Hi2). destruct (Hown i Hi1) as [[?|?] _]; done.
    + destruct (Hdisj _ _ _ Ht1 H1 Hi1). destruct (Hown i Hi2) as [[?|?] _]; done.
    + by eapply (inv_excl _ _ _ Hinv).
  - intros t2 th2 [[-> ->]|[Ht H2]]%Hlook; [done|]. apply Hoth; [|by eapply inv_pc].
    intros i Hi. apply (Hdisj _ _ _ Ht H2). unfold owned. set_solver.
  - intros t2 th2 i [[-> ->]|[Ht H2]]%Hlook Hi; [by apply Hheld|].
    destruct (Hdisj _ _ i Ht H2); [unfold owned; set_solver|].
    rewrite Hnx, Hiv by done. by eapply inv_held.
Qed.

Lemma list_ok_S n l fl : list_ok n l fl -> list_ok (S n) l fl.
Proof. intros []. constructor; try done. lia. Qed.

(** A step that does not touch the list. *)
Lemma inv_set_local n fl s tid th p' held' :
  Inv n fl s -> s_threads s !! tid = Some th ->
  (forall i, i ∈ inflight p' ++ held' -> i ∈ owned th) -> NoDup (inflight p' ++ held') ->
  pc_ok (s_list s) p' ->
  (forall i, i ∈ held' -> next (s_list s) i = m_invalidIndex (s_list s)) ->
  Inv (S n) fl (set_thread s (s_list s) tid (mkThread p' held')).
Proof.
  intros Hinv Hth Hown Hnd Hpc Hheld.
  eapply inv_set_thread; try done; eauto using list_ok_S, inv_list.
  intros i Hi. apply Hown in Hi. split; [by left|]. by eapply inv_own.
Qed.

Lemma snapshot_head n l fl : list_ok n l fl -> snapshot l (m_head l).
Proof. intros []. split; [lia|done]. Qed.

Lemma invoke_push_inv n fl s tid th i :
  Inv n fl s -> s_threads s !! tid = Some th -> t_pc th = Idle -> i ∈ t_held th ->
  Inv (S n) fl (set_thread s (s_list s) tid
                  (mkThread (PushCheck i) (filter (fun j => j <> i) (t_held th)))).
Proof.
  intros Hinv Hth Hpc Hi. pose proof (inv_nodup _ _ _ Hinv _ _ Hth) as Hnd.
  unfold owned in Hnd. rewrite Hpc in Hnd. simpl in Hnd.
  eapply inv_set_local; eauto; simpl.
  - intros j [->|Hj]%elem_of_cons; unfold owned; [set_solver|].
    apply list_elem_of_filter in Hj. set_solver.
  - constructor; [|by apply NoDup_filter]. rewrite list_elem_of_filter. tauto.
  - by eapply inv_held.
  - intros j [_ Hj]%list_elem_of_filter. by eapply inv_held.
Qed.

Lemma return_inv n fl s tid s' :
  Inv n fl s -> exec s (Return tid) = Some s' -> Inv (S n) fl s'.
Proof.
  intros Hinv. simpl. destruct (s_threads s !! tid) as [th|] eqn:Hth; [simpl|done].
  pose proof (inv_nodup _ _ _ Hinv _ _ Hth) as Hnd. pose proof (inv_pc _ _ _ Hinv _ _ Hth) as Hpc.
  destruct th as [p held]; simpl in *.
  destruct p as [| |old new|old new|j|[j|]|j|j|j old new|j old new|j []]; simpl in *;
    intros [= <-]; try done; eapply inv_set_local; eauto; simpl; try done;
    intros i Hi; try (by eapply (inv_held _ _ _ Hinv _ _ _ Hth)).
  apply elem_of_cons in Hi as [->|Hi]; [done|by eapply (inv_held _ _ _ Hinv _ _ _ Hth)].
Qed.

Lemma pop_cas_inv n fl s tid held old new :
  Inv n fl s -> s_threads s !! tid = Some (mkThread (PopCas old new) held) ->
  m_head (s_list s) = old -> 
  exists fl', Inv (S n) fl' (set_thread s (set_head new (s_list s)) tid
                   (mkThread (PopMark (indexToNextFreeIndex old)) held)).
Proof.
  intros Hinv Hth Hold.
  destruct (inv_pc _ _ _ Hinv _ _ Hth) as (Ha & _ & Hc). destruct (Hc Hold) as [Hlt Hnew].
  destruct (inv_list _ _ _ Hinv) as [Hs Hi Hl Hch Hn Hab]. rewrite Hold in *.
  destruct (chain_head _ _ _ _ Hch) as [[_ ?]|(fl' & -> & Hr & Hch')]; [lia|].
  apply NoDup_cons in Hn as [Hni Hn].
  exists fl'. eapply inv_set_thread; try done; simpl.
  - constructor; simpl; try done; [by rewrite Hnew|lia].
  - intros i. unfold owned; simpl. intros [->|Ho]%elem_of_cons; [split; [right; left|done]|].
    split; [by left|]. destruct (inv_own _ _ _ Hinv _ _ i Hth) as [_ Hx]; [done|]. set_solver.
  - unfold owned. simpl. constructor; [|by apply (inv_nodup _ _ _ Hinv _ _ Hth)].
    intros Hx. destruct (inv_own _ _ _ Hinv _ _ _ Hth Hx) as [_ Hx']. set_solver.
  - set_solver.
  - intros i Hx. by eapply (inv_held _ _ _ Hinv _ _ _ Hth).
  - intros p _ Hp. apply pc_ok_set_head; [|done]. by rewrite Hold.
Qed.

Lemma push_cas_inv n fl s tid held i old new :
  Inv n fl s -> s_threads s !! tid = Some (mkThread (PushCas i old new) held) ->
  m_head (s_list s) = old ->
  Inv (S n) (i :: fl) (set_thread s (set_head new (s_list s)) tid
                         (mkThread (PushRet i true) held)).
Proof.
  intros Hinv Hth Hold.
  destruct (inv_pc _ _ _ Hinv _ _ Hth) as (-> & _ & Hnx).
  destruct (inv_list _ _ _ Hinv) as [Hs Hi Hl Hch Hn Hab]. rewrite Hold in *.
  pose proof (inv_nodup _ _ _ Hinv _ _ Hth) as Hnd. apply NoDup_cons in Hnd as [Hih Hnd].
  destruct (inv_own _ _ _ Hinv _ _ i Hth) as [Hr Hif]; [by left|].
  eapply inv_set_thread; try done; simpl.
  - constructor; simpl; try done; [|by constructor|lia].
    constructor; [done|]. unfold next in Hnx. by rewrite Hnx.
  - intros j Hj. split; [left; by right|].
    destruct (inv_own _ _ _ Hinv _ _ j Hth) as [_ Hx]; [by right|].
    intros [->|?]%elem_of_cons; done.
  - intros j [->|Hj]%elem_of_cons; [right; by left|by left].
  - intros j Hx. by eapply (inv_held _ _ _ Hinv _ _ _ Hth).
  - intros p _ Hp. apply pc_ok_set_head; [|done]. by rewrite Hold.
Qed.

(** A write to [m_nextFreeIndex] at the index the thread works on. *)
Lemma write_inv n fl s tid p p' held i v :
  Inv n fl s -> s_threads s !! tid = Some (mkThread p held) ->
  inflight p = [i] -> inflight p' = [i] -> pc_ok (set_next i v (s_list s)) p' ->
  Inv (S n) fl (set_thread s (set_next i v (s_list s)) tid (mkThread p' held)).
Proof.
  intros Hinv Hth Hp Hp' Hpc.
  destruct (inv_list _ _ _ Hinv) as [Hs Hi Hl Hch Hn Hab].
  pose proof (inv_nodup _ _ _ Hinv _ _ Hth) as Hnd. unfold owned in Hnd. simpl in Hnd.
  rewrite Hp in Hnd. apply NoDup_cons in Hnd as [Hih Hnd].
  assert (Hown : i ∈ owned (mkThread p held)) by (unfold owned; simpl; rewrite Hp; by left).
  destruct (inv_own _ _ _ Hinv _ _ i Hth Hown) as [Hr Hif].
  eapply inv_set_thread; try done; simpl.
  - constructor; simpl; try done; [by rewrite length_aset|by apply chain_frame|lia].
  - intros j Hj. unfold owned in Hj; simpl in Hj. rewrite Hp' in Hj.
    assert (Hj' : j ∈ owned (mkThread p held)) by (unfold owned; simpl; by rewrite Hp).
    split; [by left|]. by eapply inv_own.
  - unfold owned. simpl. rewrite Hp'. by constructor.
  - set_solver.
  - intros j Hj. unfold next; simpl. rewrite aget_aset_ne by set_solver.
    by eapply (inv_held _ _ _ Hinv _ _ _ Hth).
  - intros q Hq. eapply pc_ok_set_next; [by apply Hinv| |done]. intros Hx. by apply (Hq i).
  - intros j Hj _. unfold next; simpl. apply aget_aset_ne. intros ->. done.
Qed.

Lemma step_inv n fl s tid sp s' :
  Inv n fl s -> Z.of_nat n < 2 ^ 32 - 2 -> cas_succeeds s (Step tid sp) ->
  exec s (Step tid sp) = Some s' -> exists fl', Inv (S n) fl' s'.
Proof.
  intros Hinv Hb. simpl. destruct (s_threads s !! tid) as [[p held]|] eqn:Hth; [simpl|done].
  pose proof (inv_list _ _ _ Hinv) as Hl. pose proof (snapshot_head _ _ _ Hl) as Hsn.
  pose proof (inv_pc _ _ _ Hinv _ _ Hth) as Hpc. pose proof (inv_nodup _ _ _ Hinv _ _ Hth) as Hnd.
  assert (Hheld : forall i, i ∈ held -> next (s_list s) i = m_invalidIndex (s_list s)).
  { intros i Hi. by eapply (inv_held _ _ _ Hinv _ _ _ Hth). }
  assert (Haba : forall old, snapshot (s_list s) old -> u32 (abaCounter old + 1) = abaCounter old + 1).
  { intros old [? _]. apply u32_small. destruct Hl. lia. }
  destruct p as [| |old new|old new|j|r|j|j|j old new|j old new|j r]; simpl in *; try done.
  - intros _ [= <-]. exists fl. eapply inv_set_local; eauto. by split.
  - destruct Hpc as [-> Hs]. case_zb; intros _ [= <-]; exists fl;
      (eapply inv_set_local; [done|done|done|done| |done]); [done|].
    simpl. split; [by apply Haba|]. split; [done|]. intros _. split; [lia|done].
  - unfold cas_weak. intros [-> Hold] E. rewrite bool_decide_true in E by done.
    simplify_eq/=. by eapply pop_cas_inv.
  - intros _ [= <-]. exists fl. eapply write_inv; eauto. simpl. unfold next; simpl.
    destruct (inv_own _ _ _ Hinv _ _ j Hth) as [Hr _]; [by left|].
    apply aget_aset_eq. destruct Hl. unfold in_range. lia.
  - destruct (inv_own _ _ _ Hinv _ _ j Hth) as [Hr _]; [by left|].
    rewrite Hpc, Z.eqb_refl, (proj2 (Z.leb_gt _ _)) by lia. intros _ [= <-].
    exists fl. eapply inv_set_local; eauto.
  - intros _ [= <-]. exists fl. eapply inv_set_local; eauto. by split.
  - destruct Hpc as [-> Hs]. intros _ [= <-]. exists fl. eapply write_inv; eauto. simpl.
    rewrite Haba by done. split; [done|]. split; [done|]. unfold next; simpl.
    destruct (inv_own _ _ _ Hinv _ _ j Hth) as [Hr _]; [by left|].
    apply aget_aset_eq. destruct Hl. unfold in_range. lia.
  - unfold cas_weak. intros [-> Hold] E. rewrite bool_decide_true in E by done.
    simplify_eq/=. eexists. by eapply push_cas_inv.
Qed.

Lemma exec_inv n fl s a s' :
  Inv n fl s -> Z.of_nat n < 2 ^ 32 - 2 -> cas_succeeds s a -> exec s a = Some s' ->
  exists fl', Inv (S n) fl' s'.
Proof.
  intros Hinv Hb Hc. destruct a as [tid|tid i|tid sp|tid].
  - simpl. destruct (s_threads s !! tid) as [[p held]|] eqn:Hth; [simpl|done].
    destruct p; intros [= <-]. exists fl. eapply inv_set_local; eauto.
    + by apply (inv_nodup _ _ _ Hinv _ _ Hth).
    + intros i Hi. by eapply (inv_held _ _ _ Hinv _ _ _ Hth).
  - simpl. destruct (s_threads s !! tid) as [[p held]|] eqn:Hth; [simpl|done].
    destruct p; try done. case_bool_decide; intros [= <-]. exists fl.
    by apply (invoke_push_inv n fl s tid (mkThread Idle held)).
  - by apply step_inv with (1 := Hinv).
  - intros E. exists fl. by eapply return_inv.
Qed.

Lemma init_inv capacity threads s :
  init_sys capacity threads = Some s -> Inv 0 (seqZ 0 capacity) s.
Proof.
  unfold init_sys.
  destruct (init true ctor _ capacity) as [l|] eqn:E; intros [= <-].
  assert (Hc : 0 < capacity < UINT32_MAX - 1).
  { unfold init, expects in E. destruct (0 <? capacity) eqn:E1; [|done].
    destruct (capacity <? UINT32_MAX - 1) eqn:E2; [|done]. bool_to_prop. lia. }
  destruct (init_rep (replicate (Z.to_nat (capacity + 1)) 0) capacity) as (l' & E' & Hrep & Hs).
  { done. } { rewrite length_replicate. lia. }
  assert (l' = l) as -> by congruence. destruct Hrep.
  assert (Hth : forall tid th, replicate threads (mkThread Idle []) !! tid = Some th ->
                               th = mkThread Idle []).
  { intros tid th. rewrite lookup_replicate. naive_solver. }
  constructor; simpl; [constructor; try done|..].
  - unfold init in E. rewrite !expects_true in E by (done || apply Z.ltb_lt; lia).
    injection E as <-. simpl. lia.
  - intros tid th i ->%Hth Hi. by apply elem_of_nil in Hi.
  - intros tid th ->%Hth. constructor.
  - intros t1 th1 t2 th2 i ->%Hth _ Hi. by apply elem_of_nil in Hi.
  - intros tid th ->%Hth. done.
  - intros tid th i ->%Hth Hi. by apply elem_of_nil in Hi.
Qed.

Lemma retry_free_inv capacity threads n s :
  retry_free capacity threads n s -> Z.of_nat n < 2 ^ 32 - 1 -> exists fl, Inv n fl s.
Proof.
  induction 1 as [s Hs|n s a s' Hr IH Hc He]; intros Hb.
  - eexists. by eapply init_inv.
  - destruct IH as [fl Hinv]; [lia|]. eapply exec_inv; eauto. lia.
Qed.

(** Every step of a trace finds its compare-exchange undisturbed. *)
Fixpoint all_cas_succeed (tr : list action) (s : sys) : Prop :=
  match tr with
  | [] => True
  | a :: tr =>
      cas_succeeds s a /\ match exec s a with Some s' => all_cas_succeed tr s' | None => False end
  end.

Lemma run_retry_free capacity threads n s tr s' :
  retry_free capacity threads n s -> all_cas_succeed tr s -> run tr s = Some s' ->
  retry_free capacity threads (n + length tr) s'.
Proof.
  unfold run. revert n s. induction tr as [|a tr IH]; intros n s Hr Ha He; simpl in *.
  - simplify_eq. by rewrite Nat.add_0_r.
  - destruct Ha as [Hc Ha]. destruct (exec s a) as [s1|] eqn:E; [|done].
    rewrite Nat.add_succ_r, <- Nat.add_succ_l. eapply IH; eauto. by eapply rf_step.
Qed.

(** ** Properties *)

(** C17: without interference the free list is a stack of distinct indices.
    [pop] takes the top index and marks it taken, fails on the empty list and
    changes nothing; [push] of a taken index puts it on top; [push] of an index
    that is free (a double free) or out of range is rejected and changes
    nothing.  Every case keeps the representation invariant. *)
Theorem loffli_sequential_spec l fl :
  Rep l fl ->
  (match fl with
   | [] => pop l = (None, l)
   | i :: fl' => exists l', pop l = (Some i, l') /\ Rep l' fl'
   end) /\
  (forall i, 0 <= i ->
     if decide (i < m_size l /\ i ∉ fl)
     then exists l', push l i = (true, l') /\ Rep l' (i :: fl)
     else push l i = (false, l)).
Proof.
  intros H. split.
  - destruct fl as [|i fl]; [by apply pop_nil|].
    destruct (pop_cons _ _ _ H) as (l' & ? & ? & _). eauto.
  - intros i Hi. case_decide as D.
    + destruct (push_taken l i fl) as (l' & ? & ? & _); [done|lia|apply D|eauto].
    + destruct (decide (i < m_size l)) as [Hlt|Hge].
      * apply push_free with fl; [done|]. destruct (decide (i ∈ fl)); [done|tauto].
      * apply push_out_of_range. lia.
Qed.

Lemma loffli_sequential_spec_witness :
  exists l, init true ctor [0; 0; 0; 0] 3 = Done l /\
    (exists l', pop l = (Some 0, l') /\ Rep l' [1; 2]) /\
    push l 1 = (false, l).
Proof.
  destruct (init_rep [0; 0; 0; 0] 3) as (l & E & H & Hs); [split; reflexivity|reflexivity|].
  exists l. split; [exact E|].
  destruct (loffli_sequential_spec l _ H) as [Hpop Hpush]. split; [exact Hpop|].
  specialize (Hpush 1 ltac:(lia)). rewrite decide_False in Hpush; [exact Hpush|].
  intros [_ Hn]. apply Hn. vm_compute. right. left.
Defined.

(** Mutual exclusion under any interleaving of threads, provided no
    compare-exchange had to be retried and the counter did not wrap: two
    threads never hold the same index. *)
Theorem loffli_retry_free_exclusive capacity threads n s t1 t2 i :
  retry_free capacity threads n s -> Z.of_nat n < 2 ^ 32 - 1 ->
  holds s t1 i -> holds s t2 i -> t1 = t2.
Proof.
  intros Hr Hn (th1 & H1 & Hi1) (th2 & H2 & Hi2).
  destruct (retry_free_inv _ _ _ _ Hr Hn) as [fl Hinv].
  apply (inv_excl _ _ _ Hinv t1 th1 t2 th2 i); try done; unfold owned; apply elem_of_app; by right.
Qed.

(** One uncontended operation of a client. *)
Definition call_pop (tid : nat) : list action :=
  InvokePop tid :: replicate 4 (Step tid false) ++ [Return tid].
Definition call_push (tid : nat) (i : Z) : list action :=
  InvokePush tid i :: replicate 4 (Step tid false) ++ [Return tid].

(** An interleaving of four well-behaved clients on a list of six indices. *)
Definition stale_counter_trace : list action :=
  (InvokePop 1 :: replicate 2 (Step 1 false)) ++ call_pop 2 ++ call_pop 2 ++
  (InvokePop 0 :: replicate 2 (Step 0 false)) ++ call_pop 2 ++ call_pop 2 ++
  call_push 2 2 ++ call_push 2 1 ++
  replicate 4 (Step 1 false) ++ [Return 1] ++
  replicate 2 (Step 0 false) ++ [Return 0] ++ call_pop 3.

(** With a retried compare-exchange the exclusion fails.  [newHead] keeps
    its own [abaCounter] across retries instead of taking the reloaded head's,
    so the counter can go back to an earlier value, a stale compare-exchange
    succeeds, and index 3 ends up held by two threads at once while the indices
    4 and 5 are lost. *)
Theorem loffli_retry_double_allocation :
  exists s0 s, init_sys 6 4 = Some s0 /\ run stale_counter_trace s0 = Some s /\
    holds s 2 3 /\ holds s 3 3 /\ (forall tid, ~ holds s tid 4) /\ pop (s_list s) = (None, s_list s).
Proof.
  eexists _, _. split; [vm_compute; reflexivity|]. split; [vm_compute; reflexivity|].
  split; [|split; [|split]].
  - eexists. split; [reflexivity|]. left.
  - eexists. split; [reflexivity|]. left.
  - intros tid (th & Hth & Hin). do 4 (destruct tid as [|tid]; [simplify_eq/=; set_solver|]). done.
  - reflexivity.
Qed.

(** A two-thread execution without a retry, for the witness below. *)
Definition two_pops : list action := call_pop 0 ++ call_pop 1.

Lemma loffli_retry_free_exclusive_witness :
  exists s, retry_free 2 2 12 s /\ holds s 0 0 /\ (forall t, holds s t 0 -> 0%nat = t).
Proof.
  destruct (init_sys 2 2) as [s0|] eqn:E0; [|discriminate].
  destruct (run two_pops s0) as [s|] eqn:E1;
    [|vm_compute in E0; injection E0 as <-; vm_compute in E1; discriminate].
  exists s.
  assert (Hr : retry_free 2 2 12 s).
  { apply (run_retry_free 2 2 0 s0 two_pops s); [by constructor| |done].
    vm_compute in E0. injection E0 as <-. vm_compute. repeat split. }
  assert (Hh : holds s 0 0).
  { vm_compute in E0. injection E0 as <-. vm_compute in E1. injection E1 as <-.
    eexists. split; [reflexivity|]. vm_compute. left. }
  split; [exact Hr|]. split; [exact Hh|]. intros t Ht.
  apply (loffli_retry_free_exclusive 2 2 12 s 0 t 0 Hr); [lia | exact Hh | exact Ht].
Defined.
End LoFFLi.
