(* ===== verification/ChunkHeader.v ===== *)
(** * ChunkSettings and ChunkHeader: the layout of a chunk

    [iceoryx_posh/source/mepoo/chunk_settings.cpp] and [chunk_header.cpp].  A
    chunk starts with the [ChunkHeader], optionally followed by the user-header
    and then the user-payload; the 32 bit word in front of the user-payload
    holds the offset back to the header.  Addresses are [Z]; the words of type
    [UserPayloadOffset_t] that the code writes are kept in a map from addresses. *)

From S2P Require Import Prelude Helplets.

(** [sizeof(ChunkHeader)] and [alignof(ChunkHeader)] follow from the members:
    four words of 4+1+1+2 bytes, two of 8 bytes and four of 4 bytes. *)
Definition SIZEOF_CHUNK_HEADER : Z := 40.
Definition ALIGNOF_CHUNK_HEADER : Z := 8.
(** Offset of the member [m_userPayloadOffset], the last one. *)
Definition OFFSETOF_USER_PAYLOAD_OFFSET : Z := 36.
(** [UserPayloadOffset_t] is [uint32_t]. *)
Definition SIZEOF_USER_PAYLOAD_OFFSET_T : Z := 4.
Definition ALIGNOF_USER_PAYLOAD_OFFSET_T : Z := 4.

Module ChunkSettings.

Inductive Error :=
  | ALIGNMENT_NOT_POWER_OF_TWO
  | USER_HEADER_ALIGNMENT_EXCEEDS_CHUNK_HEADER_ALIGNMENT
  | USER_HEADER_SIZE_NOT_MULTIPLE_OF_ITS_ALIGNMENT
  | REQUIRED_CHUNK_SIZE_EXCEEDS_MAX_CHUNK_SIZE.

Record t := mk {
  userPayloadSize : Z;
  userPayloadAlignment : Z;
  userHeaderSize : Z;
  userHeaderAlignment : Z;
  requiredChunkSize : Z }.

Definition calculateRequiredChunkSize (payloadSize payloadAlignment headerSize : Z) : Z :=
  if headerSize =? 0 then
    if payloadAlignment <=? ALIGNOF_CHUNK_HEADER
    then u64 (SIZEOF_CHUNK_HEADER + payloadSize)
    else
      let preUserPayloadAlignmentOverhang := u64 (SIZEOF_CHUNK_HEADER - ALIGNOF_CHUNK_HEADER) in
      u64 (preUserPayloadAlignmentOverhang + payloadAlignment + payloadSize)
  else
    let headersSize := u64 (SIZEOF_CHUNK_HEADER + headerSize) in
    let preUserPayloadAlignmentOverhang := align headersSize ALIGNOF_USER_PAYLOAD_OFFSET_T in
    let maxPadding := Z.max SIZEOF_USER_PAYLOAD_OFFSET_T payloadAlignment in
    u64 (preUserPayloadAlignmentOverhang + maxPadding + payloadSize).

Definition create (payloadSize payloadAlignment headerSize headerAlignment : Z) : expected t Error :=
  let adjustedUserPayloadAlignment := if payloadAlignment =? 0 then 1 else payloadAlignment in
  let adjustedUserHeaderAlignment := if headerAlignment =? 0 then 1 else headerAlignment in
  if negb (isPowerOfTwo adjustedUserPayloadAlignment)
     || negb (isPowerOfTwo adjustedUserHeaderAlignment)
  then error ALIGNMENT_NOT_POWER_OF_TWO
  else if ALIGNOF_CHUNK_HEADER <? adjustedUserHeaderAlignment
  then error USER_HEADER_ALIGNMENT_EXCEEDS_CHUNK_HEADER_ALIGNMENT
  else if negb (headerSize mod adjustedUserHeaderAlignment =? 0)
  then error USER_HEADER_SIZE_NOT_MULTIPLE_OF_ITS_ALIGNMENT
  else
    let required :=
      calculateRequiredChunkSize payloadSize adjustedUserPayloadAlignment headerSize in
    if UINT32_MAX <? required
    then error REQUIRED_CHUNK_SIZE_EXCEEDS_MAX_CHUNK_SIZE
    else success (mk payloadSize adjustedUserPayloadAlignment headerSize
                     adjustedUserHeaderAlignment (u32 required)).

(** What a successful [create] guarantees. *)
Record valid (s : t) : Prop := {
  v_ps : 0 <= userPayloadSize s < 2 ^ 32;
  v_pa : 0 < userPayloadAlignment s < 2 ^ 32;
  v_pow : isPowerOfTwo (userPayloadAlignment s) = true;
  v_hs : 0 <= userHeaderSize s < 2 ^ 32;
  v_ha : 0 < userHeaderAlignment s <= ALIGNOF_CHUNK_HEADER;
  v_hpow : isPowerOfTwo (userHeaderAlignment s) = true;
  v_hdiv : (userHeaderAlignment s | userHeaderSize s);
  v_req : requiredChunkSize s =
          calculateRequiredChunkSize (userPayloadSize s) (userPayloadAlignment s) (userHeaderSize s);
  v_max : 0 <= requiredChunkSize s < 2 ^ 32 }.

Lemma required_nonneg ps pa hs : 0 <= calculateRequiredChunkSize ps pa hs.
Proof. unfold calculateRequiredChunkSize. repeat case_zb; apply u64_range. Qed.

Lemma create_valid ps pa hs ha s :
  0 <= ps < 2 ^ 32 -> 0 <= pa < 2 ^ 32 -> 0 <= hs < 2 ^ 32 -> 0 <= ha < 2 ^ 32 ->
  create ps pa hs ha = success s -> valid s.
Proof.
  intros Hps Hpa Hhs Hha. unfold create, UINT32_MAX.
  set (pa' := if pa =? 0 then 1 else pa). set (ha' := if ha =? 0 then 1 else ha).
  assert (0 < pa' < 2 ^ 32) by (subst pa'; case_zb; lia).
  assert (0 < ha' < 2 ^ 32) by (subst ha'; case_zb; lia).
  destruct (_ || _) eqn:E1; [done|]. destruct (ALIGNOF_CHUNK_HEADER <? ha') eqn:E2; [done|].
  destruct (negb (hs mod ha' =? 0)) eqn:E3; [done|].
  destruct (_ <? calculateRequiredChunkSize _ _ _) eqn:E4; [done|].
  intros [= <-]. bool_to_prop.
  pose proof (required_nonneg ps pa' hs).
  assert (u32 (calculateRequiredChunkSize ps pa' hs) = calculateRequiredChunkSize ps pa' hs) as E.
  { apply u32_small. lia. }
  constructor; simpl; try lia; try done.
  apply Z.mod_divide; [lia|done].
Qed.

End ChunkSettings.

Module ChunkHeader.

Definition CHUNK_HEADER_VERSION : Z := 1.
Definition NO_USER_HEADER : Z := 0.
Definition UNKNOWN_USER_HEADER : Z := 65535.
(** [UniquePortId(InvalidPortId)] *)
Definition INVALID_UNIQUE_ID : Z := 0.

Record t := mk {
  chunkSize : Z;
  chunkHeaderVersion : Z;
  userHeaderId : Z;
  originId : Z;
  sequenceNumber : Z;
  userHeaderSize : Z;
  userPayloadSize : Z;
  userPayloadAlignment : Z;
  userPayloadOffset : Z }.

Definition setOriginId (v : Z) (h : t) : t :=
  mk (chunkSize h) (chunkHeaderVersion h) (userHeaderId h) v (sequenceNumber h)
     (userHeaderSize h) (userPayloadSize h) (userPayloadAlignment h) (userPayloadOffset h).

Definition setSequenceNumber (v : Z) (h : t) : t :=
  mk (chunkSize h) (chunkHeaderVersion h) (userHeaderId h) (originId h) v
     (userHeaderSize h) (userPayloadSize h) (userPayloadAlignment h) (userPayloadOffset h).

Definition overflowSafeUsedSizeOfChunk (h : t) : Z := u64 (userPayloadOffset h + userPayloadSize h).

Definition usedSizeOfChunk (h : t) : Z := u32 (overflowSafeUsedSizeOfChunk h).

(** The pointers handed to the user; [None] is the null pointer. *)
Definition userHeader (this : Z) (h : t) : option Z :=
  if userHeaderId h =? NO_USER_HEADER then None else Some (u64 (this + SIZEOF_CHUNK_HEADER)).

Definition userPayload (this : Z) (h : t) : Z := u64 (this + userPayloadOffset h).

(** Words of type [UserPayloadOffset_t] in the chunk memory. *)
Notation memory := (gmap Z Z).

Definition load (m : memory) (a : Z) : Z := default 0 (m !! a).

Definition fromUserPayload (m : memory) (p : option Z) : option Z :=
  match p with
  | None => None
  | Some a => Some (u64 (a - load m (u64 (a - SIZEOF_USER_PAYLOAD_OFFSET_T))))
  end.

Definition fromUserHeader (p : option Z) : option Z :=
  match p with None => None | Some a => Some (u64 (a - SIZEOF_CHUNK_HEADER)) end.

(** The constructor at address [this].  Writing the member
    [m_userPayloadOffset] writes the word at its offset; the back-offset is
    written through its own pointer. *)
Definition ctor (m : memory) (this size : Z) (s : ChunkSettings.t) : outcome (t * memory) :=
  let payloadAlignment := ChunkSettings.userPayloadAlignment s in
  let headerSize := ChunkSettings.userHeaderSize s in
  let header id offset :=
    mk size CHUNK_HEADER_VERSION id INVALID_UNIQUE_ID 0 headerSize
       (ChunkSettings.userPayloadSize s) payloadAlignment offset in
  let store_offset offset m := <[this + OFFSETOF_USER_PAYLOAD_OFFSET := offset]> m in
  let '(h, m') :=
    if headerSize =? 0 then
      if payloadAlignment <=? ALIGNOF_CHUNK_HEADER then
        (header NO_USER_HEADER SIZEOF_CHUNK_HEADER, store_offset SIZEOF_CHUNK_HEADER m)
      else
        let headerEndAddress := u64 (this + SIZEOF_CHUNK_HEADER) in
        let alignedUserPayloadAddress := align headerEndAddress payloadAlignment in
        let offset := u32 (u64 (alignedUserPayloadAddress - this)) in
        let addressOfBackOffset := u64 (alignedUserPayloadAddress - SIZEOF_USER_PAYLOAD_OFFSET_T) in
        (header NO_USER_HEADER offset, <[addressOfBackOffset := offset]> (store_offset offset m))
    else
      let headerEndAddress := u64 (this + SIZEOF_CHUNK_HEADER + headerSize) in
      let anticipatedBackOffsetAddress := align headerEndAddress ALIGNOF_USER_PAYLOAD_OFFSET_T in
      let unalignedUserPayloadAddress :=
        u64 (anticipatedBackOffsetAddress + SIZEOF_USER_PAYLOAD_OFFSET_T) in
      let alignedUserPayloadAddress := align unalignedUserPayloadAddress payloadAlignment in
      let offset := u32 (u64 (alignedUserPayloadAddress - this)) in
      let backOffsetAddress := u64 (alignedUserPayloadAddress - SIZEOF_USER_PAYLOAD_OFFSET_T) in
      (header UNKNOWN_USER_HEADER offset, <[backOffsetAddress := offset]> (store_offset offset m))
  in
  (* Ensures *)
  expects (overflowSafeUsedSizeOfChunk h <=? size) (Done (h, m')).

(** ** The layout *)

(** What the constructor establishes for a chunk of [size] bytes at [this]:
    the parts lie one after the other inside the chunk, the payload has the
    requested alignment, and the words written lead back to the header. *)
Record layout (this size : Z) (s : ChunkSettings.t) (m : memory) (h : t) (m' : memory) : Prop := {
  lay_size : chunkSize h = size;
  lay_version : chunkHeaderVersion h = CHUNK_HEADER_VERSION;
  lay_used : usedSizeOfChunk h <= ChunkSettings.requiredChunkSize s;
  lay_aligned : (ChunkSettings.userPayloadAlignment s | userPayload this h);
  lay_order : this + SIZEOF_CHUNK_HEADER + ChunkSettings.userHeaderSize s
              + (if decide (ChunkSettings.userHeaderSize s = 0) then 0 else SIZEOF_USER_PAYLOAD_OFFSET_T)
              <= userPayload this h;
  lay_end : userPayload this h + ChunkSettings.userPayloadSize s
            <= this + ChunkSettings.requiredChunkSize s;
  lay_back : fromUserPayload m' (Some (userPayload this h)) = Some this;
  lay_member : load m' (this + OFFSETOF_USER_PAYLOAD_OFFSET) = userPayloadOffset h;
  lay_frame : forall a, m' !! a <> m !! a -> this <= a /\ a + SIZEOF_USER_PAYLOAD_OFFSET_T <= userPayload this h;
  lay_header :
    if decide (ChunkSettings.userHeaderSize s = 0) then userHeader this h = None
    else userHeader this h = Some (this + SIZEOF_CHUNK_HEADER) /\
         (ChunkSettings.userHeaderAlignment s | this + SIZEOF_CHUNK_HEADER) /\
         fromUserHeader (userHeader this h) = Some this }.

(** The address the constructor places the payload at. *)
Definition payload_address (this : Z) (s : ChunkSettings.t) : Z :=
  if ChunkSettings.userHeaderSize s =? 0 then
    if ChunkSettings.userPayloadAlignment s <=? ALIGNOF_CHUNK_HEADER then this + SIZEOF_CHUNK_HEADER
    else align (u64 (this + SIZEOF_CHUNK_HEADER)) (ChunkSettings.userPayloadAlignment s)
  else
    align (u64 (align (u64 (this + SIZEOF_CHUNK_HEADER + ChunkSettings.userHeaderSize s))
                      ALIGNOF_USER_PAYLOAD_OFFSET_T + SIZEOF_USER_PAYLOAD_OFFSET_T))
          (ChunkSettings.userPayloadAlignment s).

Section layout_proofs.
Context (this size : Z) (s : ChunkSettings.t).
Context (Hthis : 0 <= this) (Haligned : (ALIGNOF_CHUNK_HEADER | this)).
Context (Hv : ChunkSettings.valid s).
Context (Hsize : ChunkSettings.requiredChunkSize s <= size < 2 ^ 32).
Context (Hend : this + size <= 2 ^ 63).

Local Lemma pow8 : isPowerOfTwo ALIGNOF_CHUNK_HEADER = true.
Proof. done. Qed.

(** No user-header: between the header and the first aligned address. *)
Lemma payload_no_header :
  ChunkSettings.userHeaderSize s = 0 ->
  let p := payload_address this s in
  (ChunkSettings.userPayloadAlignment s | p) /\ this + SIZEOF_CHUNK_HEADER <= p /\
  p + ChunkSettings.userPayloadSize s <= this + ChunkSettings.requiredChunkSize s /\
  (SIZEOF_USER_PAYLOAD_OFFSET_T | p) /\
  (p = this + SIZEOF_CHUNK_HEADER \/ this + SIZEOF_CHUNK_HEADER + SIZEOF_USER_PAYLOAD_OFFSET_T <= p).
Proof.
  intros H0. destruct Hv. unfold payload_address, ChunkSettings.calculateRequiredChunkSize in *.
  rewrite H0 in *. simpl in *. unfold SIZEOF_CHUNK_HEADER, ALIGNOF_CHUNK_HEADER,
    SIZEOF_USER_PAYLOAD_OFFSET_T in *.
  set (pa := ChunkSettings.userPayloadAlignment s) in *.
  assert (H48 : (4 | this)) by (destruct Haligned as [q ->]; exists (2 * q); lia).
  destruct (Z.leb_spec pa 8) as [Hle|Hgt].
  - rewrite u64_small in v_req by lia.
    assert (Hpa : (pa | 8)) by (apply pow2_divide; [lia|done|done]).
    assert (Hp40 : (pa | 40)) by (apply (Z.divide_trans _ 8); [done|by exists 5]).
    split; [apply Z.divide_add_r; [by apply (Z.divide_trans _ 8)|done]|].
    split; [lia|]. split; [lia|]. split; [|by left]. apply Z.divide_add_r; [done|by exists 10].
  - assert (H8 : (8 | pa)) by (apply pow2_divide; [lia|done|done]).
    rewrite (u64_small (40 - 8)), u64_small in v_req by lia.
    rewrite (u64_small (this + 40)) by lia.
    assert (H840 : (8 | this + 40)) by (apply Z.divide_add_r; [done|by exists 5]).
    destruct (align_spec (this + 40) pa) as [Hr Hd]; [lia..|].
    pose proof (align_grid (this + 40) pa 8) as Hg. specialize (Hg ltac:(lia) ltac:(lia) H8 H840 ltac:(lia) ltac:(lia)).
    split; [done|]. split; [lia|]. split; [lia|].
    assert (H8a : (8 | align (this + 40) pa)) by (by apply (Z.divide_trans _ pa)).
    split; [apply (Z.divide_trans _ 8); [by exists 2|done]|].
    destruct (decide (align (this + 40) pa = this + 40)); [by left|right].
    destruct H8a as [q1 Hq1], H840 as [q2 Hq2]. lia.
Qed.

(** With a user-header: the back-offset gets a slot of its own. *)
Lemma payload_with_header :
  ChunkSettings.userHeaderSize s <> 0 ->
  let p := payload_address this s in
  (ChunkSettings.userPayloadAlignment s | p) /\
  this + SIZEOF_CHUNK_HEADER + ChunkSettings.userHeaderSize s + SIZEOF_USER_PAYLOAD_OFFSET_T <= p /\
  p + ChunkSettings.userPayloadSize s <= this + ChunkSettings.requiredChunkSize s.
Proof.
  intros H0. destruct Hv. unfold payload_address, ChunkSettings.calculateRequiredChunkSize in *.
  rewrite (proj2 (Z.eqb_neq _ _)) in * by done.
  unfold SIZEOF_CHUNK_HEADER, ALIGNOF_CHUNK_HEADER, ALIGNOF_USER_PAYLOAD_OFFSET_T,
    SIZEOF_USER_PAYLOAD_OFFSET_T in *.
  set (pa := ChunkSettings.userPayloadAlignment s) in *.
  set (hs := ChunkSettings.userHeaderSize s) in *.
  assert (H4 : (4 | this)) by (destruct Haligned as [q ->]; exists (2 * q); lia).
  rewrite (u64_small (40 + hs)) in v_req by lia.
  rewrite (u64_small (this + 40 + hs)) by lia.
  rewrite <- Z.add_assoc, (align_shift this) by (try done; lia).
  destruct (align_spec (40 + hs) 4) as [Hr Hd]; [lia..|].
  set (pre := align (40 + hs) 4) in *.
  rewrite u64_small in v_req by lia. rewrite u64_small by lia.
  assert (Hg4 : (4 | this + pre + 4)).
  { apply Z.divide_add_r; [by apply Z.divide_add_r|by exists 1]. }
  destruct (align_spec (this + pre + 4) pa) as [Hr' Hd']; [lia..|].
  split; [done|]. split; [lia|].
  destruct (Z.le_gt_cases pa 4) as [Hle|Hgt].
  - rewrite align_id; [lia|lia|lia|].
    apply (Z.divide_trans _ 4); [|done]. by apply pow2_divide; [lia|..].
  - pose proof (align_grid (this + pre + 4) pa 4) as Hg.
    assert (H4pa : (4 | pa)) by (by apply pow2_divide; [lia|..]).
    specialize (Hg ltac:(lia) ltac:(lia) H4pa Hg4 ltac:(lia) ltac:(lia)). lia.
Qed.

(** The constructor, with the payload address it computes. *)
Lemma ctor_eq m :
  let p := payload_address this s in
  let offset := p - this in
  let id := if ChunkSettings.userHeaderSize s =? 0 then NO_USER_HEADER else UNKNOWN_USER_HEADER in
  let h := mk size CHUNK_HEADER_VERSION id INVALID_UNIQUE_ID 0 (ChunkSettings.userHeaderSize s)
              (ChunkSettings.userPayloadSize s) (ChunkSettings.userPayloadAlignment s) offset in
  exists m', ctor m this size s = Done (h, m') /\
    load m' (this + OFFSETOF_USER_PAYLOAD_OFFSET) = offset /\
    load m' (p - SIZEOF_USER_PAYLOAD_OFFSET_T) = offset /\
    (forall a, a <> this + OFFSETOF_USER_PAYLOAD_OFFSET -> a <> p - SIZEOF_USER_PAYLOAD_OFFSET_T ->
               m' !! a = m !! a).
Proof.
  intros p offset id h.
  assert (Hp : this + SIZEOF_CHUNK_HEADER <= p /\
               p + ChunkSettings.userPayloadSize s <= this + ChunkSettings.requiredChunkSize s).
  { destruct (decide (ChunkSettings.userHeaderSize s = 0)).
    - destruct payload_no_header as (_ & ? & ? & _); [done|]. lia.
    - destruct payload_with_header as (_ & ? & ?); [done|]. destruct Hv.
      unfold SIZEOF_USER_PAYLOAD_OFFSET_T in *. lia. }
  destruct Hv. unfold SIZEOF_CHUNK_HEADER in Hp.
  assert (Ho : u32 (u64 (p - this)) = offset) by (rewrite u64_small, u32_small; unfold offset; lia).
  assert (Hb : u64 (p - SIZEOF_USER_PAYLOAD_OFFSET_T) = p - SIZEOF_USER_PAYLOAD_OFFSET_T).
  { apply u64_small. unfold SIZEOF_USER_PAYLOAD_OFFSET_T. lia. }
  assert (Hens : overflowSafeUsedSizeOfChunk h <=? size = true).
  { apply Z.leb_le. unfold overflowSafeUsedSizeOfChunk. simpl.
    rewrite u64_small by (unfold offset; lia). unfold offset. lia. }
  assert (Hst : forall mm, load (<[p - SIZEOF_USER_PAYLOAD_OFFSET_T := offset]>
                   (<[this + OFFSETOF_USER_PAYLOAD_OFFSET := offset]> mm))
                   (this + OFFSETOF_USER_PAYLOAD_OFFSET) = offset).
  { intros mm. unfold load. destruct (decide (p - SIZEOF_USER_PAYLOAD_OFFSET_T
      = this + OFFSETOF_USER_PAYLOAD_OFFSET)) as [->|]; [by simplify_map_eq|].
    by rewrite lookup_insert_ne, lookup_insert_eq. }
  assert (Hoff : offset = p - this) by done. unfold ctor. subst h id. clearbody offset.
  subst p. revert Hoff Ho Hb Hens Hst. unfold payload_address.
  destruct (ChunkSettings.userHeaderSize s =? 0);
    [destruct (ChunkSettings.userPayloadAlignment s <=? ALIGNOF_CHUNK_HEADER)|];
    intros Hoff Ho Hb Hens Hst.
  - rewrite Z.add_simpl_l in Hoff. subst offset. rewrite expects_true by exact Hens. eexists.
    split; [done|]. unfold load, SIZEOF_CHUNK_HEADER, OFFSETOF_USER_PAYLOAD_OFFSET,
      SIZEOF_USER_PAYLOAD_OFFSET_T. split; [by simplify_map_eq|].
    replace (this + 40 - 4) with (this + 36) by lia. split; [by simplify_map_eq|].
    intros a H1 _. by rewrite lookup_insert_ne.
  - rewrite Ho, Hb, expects_true by exact Hens. eexists. split; [done|]. split; [apply Hst|].
    split; [unfold load; by simplify_map_eq|]. intros a H1 H2. by rewrite !lookup_insert_ne.
  - rewrite Ho, Hb, expects_true by exact Hens. eexists. split; [done|]. split; [apply Hst|].
    split; [unfold load; by simplify_map_eq|]. intros a H1 H2. by rewrite !lookup_insert_ne.
Qed.
End layout_proofs.

Lemma ctor_layout this size s m :
  0 <= this -> (ALIGNOF_CHUNK_HEADER | this) -> ChunkSettings.valid s ->
  ChunkSettings.requiredChunkSize s <= size < 2 ^ 32 -> this + size <= 2 ^ 63 ->
  exists h m', ctor m this size s = Done (h, m') /\ layout this size s m h m' /\
    originId h = INVALID_UNIQUE_ID /\ sequenceNumber h = 0.
Proof.
  intros Hthis Hal Hv Hs He.
  destruct (ctor_eq this size s Hthis Hal Hv Hs He m) as (m' & Hc & Hm & Hback & Hframe).
  set (p := payload_address this s) in *.
  assert (Hp : (ChunkSettings.userPayloadAlignment s | p) /\
    this + SIZEOF_CHUNK_HEADER + ChunkSettings.userHeaderSize s
      + (if decide (ChunkSettings.userHeaderSize s = 0) then 0 else SIZEOF_USER_PAYLOAD_OFFSET_T) <= p /\
    p + ChunkSettings.userPayloadSize s <= this + ChunkSettings.requiredChunkSize s).
  { case_decide as H0.
    - destruct (payload_no_header this size s) as (? & ? & ? & _); [done..|].
      unfold p. split; [done|]. lia.
    - by apply payload_with_header with size. }
  destruct Hp as (Hpa & Hpo & Hpe). pose proof Hv as [].
  assert (Hp40 : this + 40 <= p).
  { unfold SIZEOF_CHUNK_HEADER, SIZEOF_USER_PAYLOAD_OFFSET_T in *. case_decide; lia. }
  eexists _, m'. split; [exact Hc|].
  assert (Hup : u64 (this + (p - this)) = p) by (rewrite u64_small; lia).
  split; [|done]. constructor; unfold userPayload, userHeader; simpl; rewrite ?Hup; try done.
  - unfold usedSizeOfChunk, overflowSafeUsedSizeOfChunk. simpl.
    rewrite u64_small, u32_small by lia. lia.
  - rewrite (u64_small (p - SIZEOF_USER_PAYLOAD_OFFSET_T)) by (unfold SIZEOF_USER_PAYLOAD_OFFSET_T; lia).
    rewrite Hback, u64_small by lia. f_equal. lia.
  - intros a Ha. unfold SIZEOF_USER_PAYLOAD_OFFSET_T, OFFSETOF_USER_PAYLOAD_OFFSET in *.
    destruct (decide (a = this + 36)); [lia|]. destruct (decide (a = p - 4)); [lia|].
    destruct Ha. by apply Hframe.
  - case_decide as H0; [by rewrite H0|]. rewrite (proj2 (Z.eqb_neq (ChunkSettings.userHeaderSize s) 0)) by done. simpl.
    unfold SIZEOF_CHUNK_HEADER, ALIGNOF_CHUNK_HEADER in *. rewrite (u64_small (this + 40)) by lia.
    split; [done|]. split; [|f_equal; rewrite u64_small; lia].
    assert (Hd : (ChunkSettings.userHeaderAlignment s | 8)) by (by apply pow2_divide; [lia|..]).
    apply Z.divide_add_r; [by apply (Z.divide_trans _ 8)|]. apply (Z.divide_trans _ 8); [done|by exists 5].
Qed.

(** The payload pointer of the chunk at [this] lies inside the chunk and, with
    the words [m] of the memory, leads back to its header. *)
Record placed (m : memory) (this : Z) (h : t) : Prop := {
  pl_start : this + SIZEOF_CHUNK_HEADER <= userPayload this h;
  pl_end : userPayload this h <= this + chunkSize h;
  pl_back : fromUserPayload m (Some (userPayload this h)) = Some this }.

Lemma layout_placed this size s m h m' :
  layout this size s m h m' -> ChunkSettings.valid s -> ChunkSettings.requiredChunkSize s <= size -> placed m' this h.
Proof.
  intros [] [] Hs. constructor; [|rewrite lay_size0; lia|done].
  unfold SIZEOF_USER_PAYLOAD_OFFSET_T in *. case_decide; lia.
Qed.

(** Only the words inside the chunk matter, and of the header only the members
    that place the payload. *)
Lemma placed_frame m m' this h h' :
  placed m this h -> 0 <= this -> this + chunkSize h <= 2 ^ 63 ->
  userPayloadOffset h' = userPayloadOffset h -> chunkSize h' = chunkSize h ->
  (forall a, this <= a < this + chunkSize h -> m' !! a = m !! a) -> placed m' this h'.
Proof.
  intros [] H0 He Ho Hs Hm. assert (E : userPayload this h' = userPayload this h) by (unfold userPayload; by rewrite Ho).
  constructor; rewrite E, ?Hs; try done. rewrite <- pl_back0. unfold fromUserPayload, load, SIZEOF_CHUNK_HEADER, SIZEOF_USER_PAYLOAD_OFFSET_T in *.
  rewrite (u64_small (_ - 4)) by lia. by rewrite Hm by lia.
Qed.

(** ** Properties *)

(** C22: for every combination of sizes and alignments that [ChunkSettings::create]
    accepts, and every chunk of at least the required size at an address aligned
    like a mempool chunk, the [ChunkHeader] constructor passes its own check and
    lays the chunk out correctly: header, user-header, back-offset and payload do
    not overlap, the payload is aligned and ends inside the required size,
    [fromUserPayload] and [fromUserHeader] give back the header, and no byte
    outside the front part of the chunk is written. *)
Theorem chunk_layout_correct ps pa hs ha s this size m :
  0 <= ps < 2 ^ 32 -> 0 <= pa < 2 ^ 32 -> 0 <= hs < 2 ^ 32 -> 0 <= ha < 2 ^ 32 ->
  ChunkSettings.create ps pa hs ha = success s ->
  0 <= this -> (ALIGNOF_CHUNK_HEADER | this) -> this + size <= 2 ^ 63 ->
  ChunkSettings.requiredChunkSize s <= size < 2 ^ 32 ->
  exists h m', ctor m this size s = Done (h, m') /\ layout this size s m h m'.
Proof.
  intros Hps Hpa Hhs Hha Hc Ht Hal He Hs.
  destruct (ctor_layout this size s m) as (h & m' & ? & ? & _); eauto using ChunkSettings.create_valid.
Qed.

Lemma chunk_layout_correct_witness :
  exists s h m', ChunkSettings.create 100 64 6 2 = success s /\
    ctor ∅ 4096 256 s = Done (h, m') /\ userPayload 4096 h = 4160 /\ layout 4096 256 s ∅ h m'.
Proof.
  eexists. destruct (chunk_layout_correct 100 64 6 2 (ChunkSettings.mk 100 64 6 2 212) 4096 256 ∅)
    as (h & m' & Hc & Hl); [lia..|reflexivity|lia|by exists 512|lia|simpl; lia|].
  exists h, m'. split; [reflexivity|]. split; [exact Hc|]. split; [|exact Hl].
  vm_compute in Hc. by injection Hc as <- _.
Defined.

(** [ChunkSettings::create] succeeds exactly for power-of-two alignments
    (zero counts as one), a user-header aligned to at most the [ChunkHeader]'s
    alignment whose size is a multiple of its alignment, and a required size
    that fits 32 bits. *)
Theorem create_success_iff ps pa hs ha :
  0 <= ps < 2 ^ 32 -> 0 <= pa < 2 ^ 32 -> 0 <= hs < 2 ^ 32 -> 0 <= ha < 2 ^ 32 ->
  let pa' := Z.max 1 pa in let ha' := Z.max 1 ha in
  has_error (ChunkSettings.create ps pa hs ha) = false <->
  (exists k, 0 <= k /\ pa' = 2 ^ k) /\ (ha' ∈ [1; 2; 4; 8]) /\ (ha' | hs) /\
  ChunkSettings.calculateRequiredChunkSize ps pa' hs < 2 ^ 32.
Proof.
  intros Hps Hpa Hhs Hha pa' ha'. unfold ChunkSettings.create, UINT32_MAX, ALIGNOF_CHUNK_HEADER.
  replace (if pa =? 0 then 1 else pa) with pa' by (unfold pa'; case_zb; lia).
  replace (if ha =? 0 then 1 else ha) with ha' by (unfold ha'; case_zb; lia).
  assert (Hpp : 0 < pa') by (unfold pa'; lia). assert (Hhh : 0 < ha') by (unfold ha'; lia).
  split.
  - destruct (isPowerOfTwo pa') eqn:E1; [|done]. destruct (isPowerOfTwo ha') eqn:E2; [simpl|done].
    destruct (8 <? ha') eqn:E3; [done|]. destruct (negb _) eqn:E4; [done|].
    destruct (2 ^ 32 - 1 <? _) eqn:E5; [done|]. intros _. bool_to_prop.
    split; [apply isPowerOfTwo_pow2; [lia|done]|]. split; [|split; [by apply Z.mod_divide; [lia|]|lia]].
    destruct (decide (ha' = 3 \/ ha' = 5 \/ ha' = 6 \/ ha' = 7)) as [Hx|];
      [by destruct Hx as [->|[->|[->| ->]]]|].
    rewrite !elem_of_cons. lia.
  - intros ((k & Hk & E1) & Hin & Hd & Hr). rewrite E1, pow2_isPowerOfTwo, <- E1 by done.
    assert (E2 : isPowerOfTwo ha' = true /\ ha' <= 8).
    { rewrite !elem_of_cons, elem_of_nil in Hin. destruct Hin as [->|[->|[->|[->|[]]]]]; done. }
    destruct E2 as [-> E3]. simpl. rewrite (proj2 (Z.ltb_ge _ _)) by lia.
    apply Z.mod_divide in Hd; [|lia]. rewrite Hd. simpl.
    rewrite (proj2 (Z.ltb_ge _ _)) by lia. done.
Qed.

Lemma create_success_iff_witness :
  has_error (ChunkSettings.create 100 64 6 2) = false /\
  has_error (ChunkSettings.create 100 48 6 2) = true.
Proof.
  split; [|reflexivity].
  apply (create_success_iff 100 64 6 2); [lia..|]. split; [by exists 6|].
  split; [vm_compute; right; left|]. split; [by exists 3|reflexivity].
Defined.
End ChunkHeader.
