(* ===== verification/MemPool.v ===== *)
(** * Allocator, MePooConfig and MemPool

    [posix::Allocator] (allocator.cpp) is the bump allocator the pools take
    their memory from, [MePooConfig] (mepoo_config.cpp) the list of configured
    pools, [MemPool] (mem_pool.cpp) hands out chunks of one size through a
    [LoFFLi] of indices. *)

From stdpp Require Import sorting.
From S2P Require Import Prelude Helplets Loffli.

Module Allocator.

Record t := mk {
  m_startAddress : Z;
  m_length : Z;
  m_currentPosition : Z;
  m_allocationFinalized : bool }.

Definition ctor (startAddress length : Z) : t := mk startAddress length 0 false.

Definition allocate (a : t) (size alignment : Z) : outcome (Z * t) :=
  expects (0 <? size)
  (expects (negb (m_allocationFinalized a))
  (let currentAddress := u64 (m_startAddress a + m_currentPosition a) in
   let alignedPosition := u64 (align currentAddress alignment - m_startAddress a) in
   if u64 (alignedPosition + size) <=? m_length a
   then Done (m_startAddress a + alignedPosition,
              mk (m_startAddress a) (m_length a) (u64 (alignedPosition + size)) false)
   else expects false (Done (0, a)))).

Definition finalizeAllocation (a : t) : t :=
  mk (m_startAddress a) (m_length a) (m_currentPosition a) true.

(** An allocator whose memory lies in the address space and that has been used
    only with requests aligned to its start. *)
Record wf (a : t) : Prop := {
  wf_start : 0 <= m_startAddress a;
  wf_end : m_startAddress a + m_length a <= 2 ^ 47;
  wf_pos : 0 <= m_currentPosition a <= m_length a;
  wf_open : m_allocationFinalized a = false }.

Lemma allocate_spec a size alignment :
  wf a -> 0 < size -> 0 < alignment -> (alignment | m_startAddress a) ->
  align (m_currentPosition a) alignment + size <= m_length a -> alignment < 2 ^ 32 ->
  exists a', allocate a size alignment =
             Done (m_startAddress a + align (m_currentPosition a) alignment, a') /\
    wf a' /\ m_startAddress a' = m_startAddress a /\ m_length a' = m_length a /\
    m_currentPosition a' = align (m_currentPosition a) alignment + size.
Proof.
  intros [Hs He Hp Ho] Hsz Hal Hdiv Hfit Hal2. unfold allocate.
  rewrite Ho, (proj2 (Z.ltb_lt 0 size)) by done. unfold expects, negb.
  rewrite (u64_small (m_startAddress a + _)) by lia.
  rewrite align_shift by (try done; lia).
  destruct (align_spec (m_currentPosition a) alignment) as [Hr _]; [lia..|].
  rewrite Z.add_simpl_l, (u64_small (align _ _)), (u64_small (_ + size)) by lia.
  rewrite (proj2 (Z.leb_le _ _)) by lia. eexists. split; [done|].
  split; [constructor; simpl; lia || done|]. done.
Qed.

(** Running out of memory ends the process. *)
Lemma allocate_exhausted a size alignment :
  wf a -> 0 < size < 2 ^ 62 -> 0 < alignment < 2 ^ 32 -> (alignment | m_startAddress a) ->
  m_length a < align (m_currentPosition a) alignment + size ->
  allocate a size alignment = Terminated EXPECTS_ENSURES_FAILED.
Proof.
  intros [Hs He Hp Ho] Hsz Hal Hdiv Hfit. unfold allocate.
  rewrite Ho, (proj2 (Z.ltb_lt 0 size)) by lia. unfold expects, negb.
  rewrite (u64_small (m_startAddress a + _)) by lia.
  rewrite align_shift by (try done; lia).
  destruct (align_spec (m_currentPosition a) alignment) as [Hr _]; [lia..|].
  rewrite Z.add_simpl_l, (u64_small (align _ _)), (u64_small (_ + size)) by lia.
  by rewrite (proj2 (Z.leb_gt _ _)) by lia.
Qed.
End Allocator.

Module MePooConfig.

Record Entry := mkEntry { m_size : Z; m_chunkCount : Z }.

Definition MAX_NUMBER_OF_MEMPOOLS : nat := 32.

(** [m_mempoolConfig] *)
Definition t := list Entry.

(** [cxx::vector::push_back], which does nothing when the vector is full. *)
Definition push_back (c : t) (e : Entry) : t :=
  if bool_decide (length c < MAX_NUMBER_OF_MEMPOOLS)%nat then c ++ [e] else c.

Definition addMemPool (c : t) (e : Entry) : outcome t :=
  if bool_decide (length c < MAX_NUMBER_OF_MEMPOOLS)%nat then Done (push_back c e)
  else Terminated MEPOO__MAXIMUM_NUMBER_OF_MEMPOOLS_REACHED.

Definition setDefaults (c : t) : t :=
  foldl push_back c
    [mkEntry 128 10000; mkEntry 1024 5000; mkEntry (1024 * 16) 1000; mkEntry (1024 * 128) 200;
     mkEntry (1024 * 512) 50; mkEntry (1024 * 1024) 30; mkEntry (1024 * 1024 * 4) 10].

Definition size_le (x y : Entry) : Prop := m_size x <= m_size y.

#[global] Instance size_le_dec : RelDecision size_le.
Proof. intros x y. unfold size_le. apply _. Defined.

#[global] Instance size_le_trans : Transitive size_le.
Proof. intros x y z. unfold size_le. lia. Qed.

#[global] Instance size_le_total : Total size_le.
Proof. intros x y. unfold size_le. lia. Qed.

(** One iteration of the merging loop of [optimize]: the new configuration and
    [newEntry]. *)
Definition merge_entry (st : t * Entry) (entry : Entry) : t * Entry :=
  let '(c, newEntry) := st in
  if negb (m_size entry =? m_size newEntry) then
    ((if negb (m_size newEntry =? 0) then push_back c newEntry else c), entry)
  else (c, mkEntry (m_size newEntry) (u32 (m_chunkCount newEntry + m_chunkCount entry))).

(** [std::sort] with the comparison by size is some sorting permutation; equal
    sizes are merged afterwards, so their order does not matter. *)
Definition optimize (c : t) : t :=
  let '(c', newEntry) := foldl merge_entry ([], mkEntry 0 0) (merge_sort size_le c) in
  if negb (m_size newEntry =? 0) then push_back c' newEntry else c'.

(** Chunks configured for a size. *)
Definition total (s : Z) (c : t) : Z :=
  foldr (fun e acc => (if m_size e =? s then m_chunkCount e else 0) + acc) 0 c.

Lemma total_app s c d : total s (c ++ d) = total s c + total s d.
Proof. induction c as [|e c IH]; simpl; lia. Qed.

Lemma total_perm s c d : c ≡ₚ d -> total s c = total s d.
Proof. induction 1; simpl; lia. Qed.

(** What the loop of [optimize] has established after the entries [l]. *)
Record merged (l : t) (st : t * Entry) : Prop := {
  mg_sorted : StronglySorted Z.lt (m_size <$> st.1);
  mg_below : forall e, e ∈ st.1 -> 0 < m_size e < m_size st.2;
  mg_seen : forall e, e ∈ l -> m_size e <= m_size st.2;
  mg_size : 0 <= m_size st.2;
  mg_count : forall s, 0 < s -> u32 (total s (st.1 ++ [st.2])) = u32 (total s l);
  mg_range : forall e, e ∈ st.1 ++ [st.2] -> 0 <= m_chunkCount e < 2 ^ 32;
  mg_length : m_size st.2 <> 0 -> (length st.1 < length l)%nat;
  mg_from : m_size st.2 = 0 \/ exists e, e ∈ l /\ m_size e = m_size st.2 }.

Lemma push_back_room c e :
  (length c < MAX_NUMBER_OF_MEMPOOLS)%nat -> push_back c e = c ++ [e].
Proof. intros H. unfold push_back. by rewrite bool_decide_true. Qed.

Lemma merged_close l c ne :
  merged l (c, ne) -> (length l <= MAX_NUMBER_OF_MEMPOOLS)%nat ->
  let c' := if negb (m_size ne =? 0) then push_back c ne else c in
  StronglySorted Z.lt (m_size <$> c') /\ (forall e, e ∈ c' -> 0 < m_size e <= m_size ne) /\
  (forall e, e ∈ c' -> 0 <= m_chunkCount e < 2 ^ 32) /\
  (forall s, 0 < s -> u32 (total s c') = u32 (total s l)) /\ (length c' <= length l)%nat.
Proof.
  intros [Hs Hb Hseen Hsz Hc Hr Hl Hf] Hlen; simpl in *.
  destruct (Z.eqb_spec (m_size ne) 0) as [E|E]; simpl.
  - split; [done|]. split; [intros e He; specialize (Hb e He); lia|].
    split; [intros e He; apply Hr, elem_of_app; by left|]. split; cycle 1.
    { destruct c as [|x c]; [simpl; lia|]. specialize (Hb x (list_elem_of_here x c)). lia. }
    intros s Hs0. rewrite <- Hc by done. rewrite total_app. simpl.
    rewrite (proj2 (Z.eqb_neq _ _)) by lia. f_equal. lia.
  - specialize (Hl E). rewrite push_back_room by lia. split.
    { rewrite fmap_app. apply StronglySorted_app_2; [|done|repeat constructor].
      intros y z (e & -> & He)%list_elem_of_fmap ->%list_elem_of_singleton. by apply Hb. }
    split.
    { intros e [He|He]%elem_of_app; [specialize (Hb e He); lia|].
      apply list_elem_of_singleton in He as ->. lia. }
    split; [done|]. split; [done|]. rewrite length_app. simpl. lia.
Qed.

Lemma merge_entry_merged l st e :
  merged l st -> (length l < MAX_NUMBER_OF_MEMPOOLS)%nat ->
  (forall x, x ∈ l -> m_size x <= m_size e) -> 0 <= m_size e -> 0 <= m_chunkCount e < 2 ^ 32 ->
  merged (l ++ [e]) (merge_entry st e).
Proof.
  destruct st as [c ne]. intros Hm Hlen Hle He Hce.
  assert (Hge : forall x, x ∈ l ++ [e] -> m_size x <= m_size e).
  { intros x [Hx|Hx]%elem_of_app; [by apply Hle|]. apply list_elem_of_singleton in Hx as ->. lia. }
  unfold merge_entry. destruct (Z.eqb_spec (m_size e) (m_size ne)) as [E|E]; simpl.
  - destruct Hm as [Hs Hb Hseen Hsz Hc Hr Hl Hf]; simpl in *.
    constructor; simpl; try done.
    + intros x Hx. rewrite <- E. by apply Hge.
    + intros s Hs0. specialize (Hc s Hs0). rewrite !total_app in *. simpl in *. rewrite E.
      destruct (m_size ne =? s); [|by rewrite !Z.add_0_r in *].
      unfold u32 in *. rewrite !Z.add_0_r in *. rewrite Zplus_mod_idemp_r.
      rewrite (Zplus_mod (total s l)), <- Hc, <- Zplus_mod. f_equal. lia.
    + intros x [Hx|Hx]%elem_of_app; [apply Hr, elem_of_app; by left|].
      apply list_elem_of_singleton in Hx as ->. simpl. apply u32_range.
    + intros Hne. specialize (Hl Hne). rewrite length_app. simpl. lia.
    + right. exists e. split; [|done]. apply elem_of_app. right. by left.
  - destruct (merged_close _ _ _ Hm) as (Hs & Hb & Hr & Hc & Hl); [lia|]. simpl in *.
    assert (Hlt : m_size ne < m_size e).
    { destruct (mg_from _ _ Hm) as [H0|(x & Hx & Ex)]; simpl in *; [lia|].
      specialize (Hle x Hx). lia. }
    set (c' := if negb _ then _ else _) in *.
    constructor; simpl; try done.
    + intros x Hx. specialize (Hb x Hx). lia.
    + intros s Hs0. rewrite !total_app. simpl. unfold u32 in *.
      rewrite Zplus_mod, Hc by done. by rewrite <- Zplus_mod.
    + intros x [Hx|Hx]%elem_of_app; [by apply Hr|]. by apply list_elem_of_singleton in Hx as ->.
    + intros _. rewrite length_app. simpl. lia.
    + right. exists e. split; [|done]. apply elem_of_app. right. by left.
Qed.

Lemma foldl_merged l r st :
  merged l st -> (length (l ++ r) <= MAX_NUMBER_OF_MEMPOOLS)%nat ->
  StronglySorted size_le (l ++ r) ->
  (forall e, e ∈ r -> 0 <= m_size e /\ 0 <= m_chunkCount e < 2 ^ 32) ->
  merged (l ++ r) (foldl merge_entry st r).
Proof.
  revert l st. induction r as [|e r IH]; intros l st Hm Hlen Hs Hr; simpl; [by rewrite app_nil_r|].
  replace (l ++ e :: r) with ((l ++ [e]) ++ r) by by rewrite <- app_assoc.
  rewrite length_app in Hlen. simpl in Hlen. destruct (Hr e) as [? ?]; [by left|].
  apply IH.
  - apply merge_entry_merged; try done; [lia|]. intros x Hx.
    apply (StronglySorted_app_1_elem_of _ _ _ x e Hs Hx). by left.
  - rewrite !length_app. simpl. lia.
  - by rewrite <- app_assoc.
  - intros x Hx. apply Hr. by right.
Qed.

(** [optimize] returns a configuration the memory manager accepts: the
    sizes are strictly increasing and not zero, and for every size the chunk
    count is the (32 bit) sum of the counts configured for it. *)
Theorem optimize_correct c :
  (length c <= MAX_NUMBER_OF_MEMPOOLS)%nat ->
  (forall e, e ∈ c -> 0 <= m_size e /\ 0 <= m_chunkCount e < 2 ^ 32) ->
  StronglySorted Z.lt (m_size <$> optimize c) /\ (forall e, e ∈ optimize c -> 0 < m_size e) /\
  (forall s, 0 < s -> u32 (total s (optimize c)) = u32 (total s c)) /\
  (length (optimize c) <= length c)%nat.
Proof.
  intros Hlen Hr. unfold optimize.
  pose proof (merge_sort_Permutation size_le c) as Hp.
  assert (Hm : merged (merge_sort size_le c) (foldl merge_entry ([], mkEntry 0 0) (merge_sort size_le c))).
  { apply (foldl_merged []).
    - constructor; simpl; try done; try (intros e He; by apply elem_of_nil in He); [constructor|..].
      + intros s Hs. by destruct s.
      + intros e He. apply list_elem_of_singleton in He as ->. done.
      + by left.
    - simpl. by rewrite Hp.
    - apply (StronglySorted_merge_sort size_le).
    - intros e He. apply Hr. by rewrite Hp in He. }
  destruct (foldl _ _ _) as [c' ne] eqn:E.
  destruct (merged_close _ _ _ Hm) as (H1 & H2 & H3 & H4 & H5); [by rewrite Hp|].
  split; [done|]. split; [intros e He; specialize (H2 e He); lia|]. split.
  - intros s Hs. rewrite H4 by done. f_equal. by apply total_perm.
  - by rewrite Hp in H5.
Qed.

Lemma optimize_correct_witness :
  optimize [mkEntry 64 1; mkEntry 32 5; mkEntry 64 2; mkEntry 0 9] = [mkEntry 32 5; mkEntry 64 3] /\
  StronglySorted Z.lt (m_size <$> optimize [mkEntry 64 1; mkEntry 32 5; mkEntry 64 2; mkEntry 0 9]).
Proof.
  split; [reflexivity|].
  apply (optimize_correct [mkEntry 64 1; mkEntry 32 5; mkEntry 64 2; mkEntry 0 9]).
  - vm_compute. lia.
  - intros e He. rewrite !elem_of_cons, elem_of_nil in He.
    destruct He as [->|[->|[->|[->|[]]]]]; simpl; lia.
Defined.
End MePooConfig.

Module MemPool.

Definition CHUNK_MEMORY_ALIGNMENT : Z := 8.

Record t := mk {
  m_rawMemory : Z;
  m_chunkSize : Z;
  m_numberOfChunks : Z;
  m_usedChunks : Z;
  m_minFree : Z;
  m_freeIndices : LoFFLi.t }.

Record MemPoolInfo := mkInfo {
  i_usedChunks : Z; i_minFreeChunks : Z; i_numChunks : Z; i_chunkSize : Z }.

Definition isMultipleOfAlignment (value : Z) : bool := value mod CHUNK_MEMORY_ALIGNMENT =? 0.

(** The constructor; [greater_or_equal] parameters check their bound.  The
    index memory is as long as [requiredIndexMemorySize] says, in 4 byte words;
    the head of the free list is one lock-free 64 bit word. *)
Definition ctor (chunkSize numberOfChunks : Z) (managementAllocator chunkMemoryAllocator : Allocator.t)
    : outcome (t * Allocator.t * Allocator.t) :=
  expects (CHUNK_MEMORY_ALIGNMENT <=? chunkSize)
  (expects (1 <=? numberOfChunks)
  (if isMultipleOfAlignment chunkSize then
     let* '(raw, chunkMemoryAllocator) :=
       Allocator.allocate chunkMemoryAllocator (u64 (numberOfChunks * chunkSize)) CHUNK_MEMORY_ALIGNMENT in
     let* '(memoryLoFFLi, managementAllocator) :=
       Allocator.allocate managementAllocator (LoFFLi.requiredIndexMemorySize numberOfChunks)
         CHUNK_MEMORY_ALIGNMENT in
     let* freeIndices :=
       LoFFLi.init true LoFFLi.ctor
         (replicate (Z.to_nat (LoFFLi.requiredIndexMemorySize numberOfChunks / 4)) 0) numberOfChunks in
     Done (mk raw chunkSize numberOfChunks 0 numberOfChunks freeIndices,
           managementAllocator, chunkMemoryAllocator)
   else Terminated MEPOO__MEMPOOL_CHUNKSIZE_MUST_BE_MULTIPLE_OF_CHUNK_MEMORY_ALIGNMENT)).

(** The management pool takes both kinds of memory from one allocator. *)
Definition ctor_one (chunkSize numberOfChunks : Z) (allocator : Allocator.t)
    : outcome (t * Allocator.t) :=
  expects (CHUNK_MEMORY_ALIGNMENT <=? chunkSize)
  (expects (1 <=? numberOfChunks)
  (if isMultipleOfAlignment chunkSize then
     let* '(raw, allocator) :=
       Allocator.allocate allocator (u64 (numberOfChunks * chunkSize)) CHUNK_MEMORY_ALIGNMENT in
     let* '(memoryLoFFLi, allocator) :=
       Allocator.allocate allocator (LoFFLi.requiredIndexMemorySize numberOfChunks)
         CHUNK_MEMORY_ALIGNMENT in
     let* freeIndices :=
       LoFFLi.init true LoFFLi.ctor
         (replicate (Z.to_nat (LoFFLi.requiredIndexMemorySize numberOfChunks / 4)) 0) numberOfChunks in
     Done (mk raw chunkSize numberOfChunks 0 numberOfChunks freeIndices, allocator)
   else Terminated MEPOO__MEMPOOL_CHUNKSIZE_MUST_BE_MULTIPLE_OF_CHUNK_MEMORY_ALIGNMENT)).

Definition adjustMinFree (p : t) : t :=
  mk (m_rawMemory p) (m_chunkSize p) (m_numberOfChunks p) (m_usedChunks p)
     (Z.min (u32 (m_numberOfChunks p - m_usedChunks p)) (m_minFree p)) (m_freeIndices p).

(** The address is computed from the product of two [uint32_t]. *)
Definition getChunk (p : t) : option Z * t :=
  match LoFFLi.pop (m_freeIndices p) with
  | (None, l) => (None, mk (m_rawMemory p) (m_chunkSize p) (m_numberOfChunks p) (m_usedChunks p)
                           (m_minFree p) l)
  | (Some index, l) =>
      (Some (m_rawMemory p + u32 (index * m_chunkSize p)),
       adjustMinFree (mk (m_rawMemory p) (m_chunkSize p) (m_numberOfChunks p)
                         (u32 (m_usedChunks p + 1)) (m_minFree p) l))
  end.

Definition freeChunk (p : t) (chunk : Z) : outcome t :=
  expects ((m_rawMemory p <=? chunk)
           && (chunk <=? m_rawMemory p + u64 (m_chunkSize p * u32 (m_numberOfChunks p - 1))))
  (let offset := chunk - m_rawMemory p in
   expects (offset mod m_chunkSize p =? 0)
   (let index := u32 (offset / m_chunkSize p) in
    match LoFFLi.push (m_freeIndices p) index with
    | (true, l) => Done (mk (m_rawMemory p) (m_chunkSize p) (m_numberOfChunks p)
                            (u32 (m_usedChunks p - 1)) (m_minFree p) l)
    | (false, _) => Terminated POSH__MEMPOOL_POSSIBLE_DOUBLE_FREE
    end)).

Definition getInfo (p : t) : MemPoolInfo :=
  mkInfo (m_usedChunks p) (m_minFree p) (m_numberOfChunks p) (m_chunkSize p).

(** ** Well-formed pools *)

(** The address of the chunk with index [i]. *)
Definition chunk_at (p : t) (i : Z) : Z := m_rawMemory p + i * m_chunkSize p.

(** [wf p fl]: the indices [fl] are free, the counters agree with them, and the
    pool's memory fits the 32 bit product of [getChunk]. *)
Record wf (p : t) (fl : list Z) : Prop := {
  wf_free : LoFFLi.Rep (m_freeIndices p) fl;
  wf_indices : LoFFLi.m_size (m_freeIndices p) = m_numberOfChunks p;
  wf_size : CHUNK_MEMORY_ALIGNMENT <= m_chunkSize p < 2 ^ 32;
  wf_mult : (CHUNK_MEMORY_ALIGNMENT | m_chunkSize p);
  wf_used : m_usedChunks p = m_numberOfChunks p - Z.of_nat (length fl);
  wf_min : 0 <= m_minFree p <= Z.of_nat (length fl);
  wf_raw : 0 <= m_rawMemory p;
  wf_aligned : (CHUNK_MEMORY_ALIGNMENT | m_rawMemory p);
  wf_small : m_numberOfChunks p * m_chunkSize p <= 2 ^ 32;
  wf_space : m_rawMemory p + m_numberOfChunks p * m_chunkSize p <= 2 ^ 47 }.

(** What stays the same while a pool is used. *)
Definition same_shape (p q : t) : Prop :=
  m_rawMemory p = m_rawMemory q /\ m_chunkSize p = m_chunkSize q /\
  m_numberOfChunks p = m_numberOfChunks q.

#[global] Instance same_shape_equiv : Equivalence same_shape.
Proof. split; unfold same_shape; red; naive_solver congruence. Qed.

Lemma chunk_at_shape p q i : same_shape p q -> chunk_at p i = chunk_at q i.
Proof. unfold chunk_at. intros (-> & -> & _). done. Qed.

Lemma chunk_at_inj p fl i j : wf p fl -> chunk_at p i = chunk_at p j -> i = j.
Proof. intros [] H. unfold chunk_at, CHUNK_MEMORY_ALIGNMENT in *. nia. Qed.

Lemma wf_number p fl : wf p fl -> 0 < m_numberOfChunks p < UINT32_MAX - 1.
Proof. intros []. rewrite <- wf_indices0. apply wf_free0. Qed.

Lemma wf_free_bound p fl : wf p fl -> Z.of_nat (length fl) <= m_numberOfChunks p.
Proof. intros []. rewrite <- wf_indices0. by apply LoFFLi.rep_free_length. Qed.

Lemma getChunk_empty p : wf p [] -> exists p', getChunk p = (None, p') /\ wf p' [] /\ same_shape p p' /\
  m_usedChunks p' = m_usedChunks p.
Proof.
  intros H. pose proof H as []. unfold getChunk. rewrite LoFFLi.pop_nil by done.
  eexists. split; [done|]. split; [by constructor|]. done.
Qed.

Lemma getChunk_some p i fl : wf p (i :: fl) ->
  exists p', getChunk p = (Some (chunk_at p i), p') /\ wf p' fl /\ same_shape p p' /\
    m_usedChunks p' = m_usedChunks p + 1 /\ 0 <= i < m_numberOfChunks p.
Proof.
  intros H. pose proof (wf_number _ _ H). pose proof H as []. unfold getChunk, UINT32_MAX in *.
  destruct (LoFFLi.pop_cons _ _ _ wf_free0) as (l & -> & Hl & Hs).
  assert (Hi : 0 <= i < m_numberOfChunks p).
  { rewrite <- wf_indices0. eapply LoFFLi.rep_free_range; [done|by left]. }
  assert (Hb : 0 <= i * m_chunkSize p < 2 ^ 32).
  { unfold CHUNK_MEMORY_ALIGNMENT in *. split; [lia|]. nia. }
  pose proof (wf_free_bound _ _ H). simpl in *. rewrite (u32_small (i * _)), (u32_small (m_usedChunks p + 1)) by lia. eexists. split; [done|].
  split; [|done]. constructor; simpl; try done; try lia.
  rewrite u32_small by lia. lia.
Qed.

Lemma chunk_at_bounds p fl i : wf p fl -> 0 <= i < m_numberOfChunks p ->
  m_rawMemory p <= chunk_at p i /\
  chunk_at p i + m_chunkSize p <= m_rawMemory p + m_numberOfChunks p * m_chunkSize p /\
  (CHUNK_MEMORY_ALIGNMENT | chunk_at p i).
Proof.
  intros [] Hi. unfold chunk_at, CHUNK_MEMORY_ALIGNMENT in *. split; [nia|]. split; [nia|].
  apply Z.divide_add_r; [done|]. by apply Z.divide_mul_r.
Qed.

Lemma freeChunk_index p fl i :
  wf p fl -> 0 <= i < m_numberOfChunks p ->
  freeChunk p (chunk_at p i) =
    match LoFFLi.push (m_freeIndices p) i with
    | (true, l) => Done (mk (m_rawMemory p) (m_chunkSize p) (m_numberOfChunks p)
                            (u32 (m_usedChunks p - 1)) (m_minFree p) l)
    | (false, _) => Terminated POSH__MEMPOOL_POSSIBLE_DOUBLE_FREE
    end.
Proof.
  intros H Hi. pose proof (wf_number _ _ H). pose proof H as []. unfold freeChunk, UINT32_MAX in *.
  destruct (chunk_at_bounds p fl i) as (Hb1 & Hb2 & _); [done..|].
  rewrite (u32_small (m_numberOfChunks p - 1)) by lia. unfold CHUNK_MEMORY_ALIGNMENT in *.
  rewrite u64_small by nia.
  rewrite (proj2 (Z.leb_le _ _)), (proj2 (Z.leb_le _ _)) by (unfold chunk_at in *; nia). simpl.
  replace (chunk_at p i - m_rawMemory p) with (i * m_chunkSize p) by (unfold chunk_at; lia).
  rewrite Z.mod_mul, Z.div_mul by lia. simpl. by rewrite (u32_small i) by lia.
Qed.

Lemma freeChunk_free p fl i :
  wf p fl -> 0 <= i < m_numberOfChunks p -> i ∈ fl ->
  freeChunk p (chunk_at p i) = Terminated POSH__MEMPOOL_POSSIBLE_DOUBLE_FREE.
Proof.
  intros H Hi Hin. rewrite (freeChunk_index p fl) by done.
  by rewrite (LoFFLi.push_free _ _ fl) by (done || apply H).
Qed.

Lemma freeChunk_taken p fl i :
  wf p fl -> 0 <= i < m_numberOfChunks p -> i ∉ fl ->
  exists p', freeChunk p (chunk_at p i) = Done p' /\ wf p' (i :: fl) /\ same_shape p p' /\
    m_usedChunks p' = m_usedChunks p - 1.
Proof.
  intros H Hi Hn. rewrite (freeChunk_index p fl) by done.
  pose proof (wf_number _ _ H). pose proof H as []. unfold UINT32_MAX in *.
  destruct (LoFFLi.push_taken (m_freeIndices p) i fl) as (l & -> & Hl & Hs); [done|lia|done|].
  assert (Hlen : Z.of_nat (length (i :: fl)) <= m_numberOfChunks p).
  { rewrite <- wf_indices0, <- Hs. by apply LoFFLi.rep_free_length. }
  simpl in Hlen. rewrite u32_small by lia.
  eexists. split; [done|]. split; [|done].
  constructor; simpl; try done; try lia.
Qed.

(** ** Construction *)

Lemma requiredIndexMemorySize_small n :
  0 <= n < 2 ^ 32 -> LoFFLi.requiredIndexMemorySize n = (n + 1) * 4.
Proof. intros H. unfold LoFFLi.requiredIndexMemorySize. by rewrite u64_small by lia. Qed.

Lemma init_fresh n :
  0 < n < UINT32_MAX - 1 ->
  exists l, LoFFLi.init true LoFFLi.ctor
              (replicate (Z.to_nat (LoFFLi.requiredIndexMemorySize n / 4)) 0) n = Done l /\
            LoFFLi.Rep l (seqZ 0 n) /\ LoFFLi.m_size l = n.
Proof.
  intros H. unfold UINT32_MAX in *.
  rewrite requiredIndexMemorySize_small, Z.div_mul by lia.
  apply LoFFLi.init_rep; [unfold UINT32_MAX; lia|]. rewrite length_replicate. lia.
Qed.

(** A pool that was just constructed at the address [raw]. *)
Definition fresh (p : t) (raw size n : Z) : Prop :=
  wf p (seqZ 0 n) /\ m_rawMemory p = raw /\ m_chunkSize p = size /\ m_numberOfChunks p = n /\
  m_usedChunks p = 0 /\ m_minFree p = n.

Lemma fresh_intro raw size n l :
  0 < n < UINT32_MAX - 1 -> CHUNK_MEMORY_ALIGNMENT <= size < 2 ^ 32 ->
  (CHUNK_MEMORY_ALIGNMENT | size) -> 0 <= raw -> (CHUNK_MEMORY_ALIGNMENT | raw) ->
  n * size <= 2 ^ 32 -> raw + n * size <= 2 ^ 47 ->
  LoFFLi.Rep l (seqZ 0 n) -> LoFFLi.m_size l = n ->
  fresh (mk raw size n 0 n l) raw size n.
Proof.
  intros. unfold fresh. split; [|done].
  constructor; simpl; try done; rewrite ?length_seqZ; lia.
Qed.

(** A pool larger than 4 GiB: a constructor call and three chunk requests. *)
Definition large_pool_requests : outcome (list (option Z)) :=
  let* '(p, _, _) := ctor (2 ^ 31) 3 (Allocator.ctor 4096 4096) (Allocator.ctor (2 ^ 40) (2 ^ 34)) in
  let '(c0, p) := getChunk p in
  let '(c1, p) := getChunk p in
  let '(c2, p) := getChunk p in
  Done [c0; c1; c2].

(** the address of a chunk is computed with a 32 bit product, so a pool
    of more than 4 GiB hands out the same address twice: the pool of three chunks
    of 2 GiB is constructed without a complaint and its first and third chunk
    are at the same address while both are in use. *)
Theorem large_pool_same_address :
  large_pool_requests = Done [Some (2 ^ 40); Some (2 ^ 40 + 2 ^ 31); Some (2 ^ 40)].
Proof. reflexivity. Qed.

(** Within 4 GiB a pool hands out its chunks exclusively.  From a well-formed
    pool, [getChunk] returns an aligned chunk inside the pool's memory that no
    one holds, or null when all chunks are in use; freeing a chunk in use makes
    exactly it available again; freeing a chunk that is not in use ends the
    process.  The used and minimum-free counters stay exact. *)
Theorem mempool_exclusive p fl :
  wf p fl ->
  (match fl with
   | [] => exists p', getChunk p = (None, p') /\ wf p' []
   | i :: fl' => exists p', getChunk p = (Some (chunk_at p i), p') /\ wf p' fl' /\
                   (CHUNK_MEMORY_ALIGNMENT | chunk_at p i) /\
                   m_rawMemory p <= chunk_at p i /\
                   chunk_at p i + m_chunkSize p <= m_rawMemory p + m_numberOfChunks p * m_chunkSize p
   end) /\
  (forall i, 0 <= i < m_numberOfChunks p ->
     if decide (i ∈ fl)
     then freeChunk p (chunk_at p i) = Terminated POSH__MEMPOOL_POSSIBLE_DOUBLE_FREE
     else exists p', freeChunk p (chunk_at p i) = Done p' /\ wf p' (i :: fl)).
Proof.
  intros H. split.
  - destruct fl as [|i fl].
    + destruct (getChunk_empty p H) as (p' & ? & ? & _). eauto.
    + destruct (getChunk_some p i fl H) as (p' & ? & ? & _ & _ & Hi).
      destruct (chunk_at_bounds p (i :: fl) i) as (? & ? & ?); eauto 10.
  - intros i Hi. case_decide as D.
    + by eapply freeChunk_free.
    + destruct (freeChunk_taken p fl i) as (p' & ? & ? & _); eauto.
Qed.

(** The pool of two chunks of 64 bytes used below. *)
Definition two_chunks : outcome (t * Allocator.t * Allocator.t) :=
  ctor 64 2 (Allocator.ctor 4096 4096) (Allocator.ctor 8192 4096).

Lemma mempool_exclusive_witness :
  exists p p' ma ca, two_chunks = Done (p, ma, ca) /\ getChunk p = (Some 8192, p') /\
    freeChunk p 8256 = Terminated POSH__MEMPOOL_POSSIBLE_DOUBLE_FREE.
Proof.
  destruct (init_fresh 2) as (l & El & Hl & Hs); [unfold UINT32_MAX; lia|].
  assert (Hf : fresh (mk 8192 64 2 0 2 l) 8192 64 2).
  { apply fresh_intro; unfold UINT32_MAX, CHUNK_MEMORY_ALIGNMENT; try done; try lia;
      [by exists 8|by exists 1024]. }
  destruct (mempool_exclusive _ _ (proj1 Hf)) as [(p' & Hg & _) Hfree].
  vm_compute in El. injection El as <-.
  eexists _, p', _, _. split; [vm_compute; reflexivity|]. split; [exact Hg|].
  specialize (Hfree 1). rewrite decide_True in Hfree; [apply Hfree; simpl; lia|].
  vm_compute. right. left.
Defined.
End MemPool.
