(* ===== verification/MemoryManager.v ===== *)
(** * MemoryManager: the pools of one memory segment

    [memory_manager.cpp], [chunk_management.cpp].  A memory manager owns the
    mempools of a segment, ordered by increasing chunk size, and one further
    pool for the [ChunkManagement] structs that carry the reference counters.
    The model keeps the contents of the segment beside the pools: the
    [ChunkManagement]s, the [ChunkHeader]s and the back-offset words, by
    address.  Freed memory keeps its contents, as in the program. *)

From stdpp Require Import sorting.
From S2P Require Import Prelude Helplets Loffli ChunkHeader MemPool.

(** The pool a [ChunkManagement] points to, inside its own segment. *)
Inductive PoolRef := DataPool (k : nat) | ManagementPool.

(** [struct ChunkManagement] *)
Record ChunkManagement := mkChunkManagement {
  m_chunkHeader : Z;
  m_referenceCounter : Z;
  m_mempool : PoolRef;
  m_chunkManagementPool : PoolRef }.

(** Three relative pointers of 16 bytes and the 8 byte counter. *)
Definition SIZEOF_CHUNK_MANAGEMENT : Z := 56.

(** The constructor. *)
Definition ChunkManagement_ctor (chunkHeader : Z) (mempool chunkManagementPool : PoolRef)
    : ChunkManagement :=
  mkChunkManagement chunkHeader 1 mempool chunkManagementPool.

Definition set_referenceCounter (v : Z) (c : ChunkManagement) : ChunkManagement :=
  mkChunkManagement (m_chunkHeader c) v (m_mempool c) (m_chunkManagementPool c).

Module MemoryManager.

Inductive Error :=
  | NO_MEMPOOLS_AVAILABLE
  | NO_MEMPOOL_FOR_REQUESTED_CHUNK_SIZE
  | MEMPOOL_OUT_OF_CHUNKS.

Record t := mk {
  m_denyAddMemPool : bool;
  m_totalNumberOfChunks : Z;
  m_memPoolVector : list MemPool.t;
  m_managementPool : list MemPool.t;
  (* the contents of the segment *)
  mgmts : gmap Z ChunkManagement;
  headers : gmap Z ChunkHeader.t;
  words : gmap Z Z }.

Definition ctor : t := mk false 0 [] [] ∅ ∅ ∅.

Definition set_pools (v : list MemPool.t) (m : t) : t :=
  mk (m_denyAddMemPool m) (m_totalNumberOfChunks m) v (m_managementPool m) (mgmts m) (headers m) (words m).
Definition set_managementPool (v : list MemPool.t) (m : t) : t :=
  mk (m_denyAddMemPool m) (m_totalNumberOfChunks m) (m_memPoolVector m) v (mgmts m) (headers m) (words m).
Definition set_mgmt (a : Z) (c : ChunkManagement) (m : t) : t :=
  mk (m_denyAddMemPool m) (m_totalNumberOfChunks m) (m_memPoolVector m) (m_managementPool m)
     (<[a := c]> (mgmts m)) (headers m) (words m).
Definition set_header (a : Z) (h : ChunkHeader.t) (m : t) : t :=
  mk (m_denyAddMemPool m) (m_totalNumberOfChunks m) (m_memPoolVector m) (m_managementPool m)
     (mgmts m) (<[a := h]> (headers m)) (words m).
Definition set_words (w : gmap Z Z) (m : t) : t :=
  mk (m_denyAddMemPool m) (m_totalNumberOfChunks m) (m_memPoolVector m) (m_managementPool m)
     (mgmts m) (headers m) w.

(** ** Configuration *)

(** The parameter is a [range<uint32_t, 1, max - sizeof(ChunkHeader)>]. *)
Definition sizeWithChunkHeaderStruct (size : Z) : outcome Z :=
  expects ((1 <=? size) && (size <=? UINT32_MAX - SIZEOF_CHUNK_HEADER))
    (Done (u32 (size + SIZEOF_CHUNK_HEADER))).

Definition addMemPool (m : t) (managementAllocator chunkMemoryAllocator : Allocator.t)
    (chunkPayloadSize numberOfChunks : Z) : outcome (t * Allocator.t * Allocator.t) :=
  expects (MemPool.CHUNK_MEMORY_ALIGNMENT <=? chunkPayloadSize)
  (expects (1 <=? numberOfChunks)
  (let* adjustedChunkSize := sizeWithChunkHeaderStruct chunkPayloadSize in
   if m_denyAddMemPool m
   then Terminated MEPOO__MEMPOOL_ADDMEMPOOL_AFTER_GENERATECHUNKMANAGEMENTPOOL
   else if match last (m_memPoolVector m) with
           | Some back => adjustedChunkSize <=? MemPool.m_chunkSize back
           | None => false
           end
   then Terminated MEPOO__MEMPOOL_CONFIG_MUST_BE_ORDERED_BY_INCREASING_SIZE
   else
     let* '(pools, managementAllocator, chunkMemoryAllocator) :=
       if bool_decide (length (m_memPoolVector m) < MePooConfig.MAX_NUMBER_OF_MEMPOOLS)%nat then
         let* '(p, managementAllocator, chunkMemoryAllocator) :=
           MemPool.ctor adjustedChunkSize numberOfChunks managementAllocator chunkMemoryAllocator in
         Done (m_memPoolVector m ++ [p], managementAllocator, chunkMemoryAllocator)
       else Done (m_memPoolVector m, managementAllocator, chunkMemoryAllocator) in
     Done (mk (m_denyAddMemPool m) (u32 (m_totalNumberOfChunks m + numberOfChunks)) pools
              (m_managementPool m) (mgmts m) (headers m) (words m),
           managementAllocator, chunkMemoryAllocator))).

Definition generateChunkManagementPool (m : t) (managementAllocator : Allocator.t)
    : outcome (t * Allocator.t) :=
  let m := mk true (m_totalNumberOfChunks m) (m_memPoolVector m) (m_managementPool m)
              (mgmts m) (headers m) (words m) in
  match m_managementPool m with
  | [] =>
      let* '(p, managementAllocator) :=
        MemPool.ctor_one SIZEOF_CHUNK_MANAGEMENT (m_totalNumberOfChunks m) managementAllocator in
      Done (set_managementPool [p] m, managementAllocator)
  | _ => Done (m, managementAllocator)
  end.

Fixpoint addMemPools (cfg : MePooConfig.t) (m : t) (managementAllocator chunkMemoryAllocator : Allocator.t)
    : outcome (t * Allocator.t * Allocator.t) :=
  match cfg with
  | [] => Done (m, managementAllocator, chunkMemoryAllocator)
  | entry :: cfg =>
      let* '(m, managementAllocator, chunkMemoryAllocator) :=
        addMemPool m managementAllocator chunkMemoryAllocator
          (MePooConfig.m_size entry) (MePooConfig.m_chunkCount entry) in
      addMemPools cfg m managementAllocator chunkMemoryAllocator
  end.

Definition configureMemoryManager (m : t) (cfg : MePooConfig.t)
    (managementAllocator chunkMemoryAllocator : Allocator.t) : outcome (t * Allocator.t * Allocator.t) :=
  let* '(m, managementAllocator, chunkMemoryAllocator) :=
    addMemPools cfg m managementAllocator chunkMemoryAllocator in
  let* '(m, managementAllocator) := generateChunkManagementPool m managementAllocator in
  Done (m, managementAllocator, chunkMemoryAllocator).

(** [configureMemoryManager(config, allocator, allocator)]: the same with one
    allocator for both kinds of memory. *)
Definition addMemPool_one (m : t) (allocator : Allocator.t) (chunkPayloadSize numberOfChunks : Z)
    : outcome (t * Allocator.t) :=
  expects (MemPool.CHUNK_MEMORY_ALIGNMENT <=? chunkPayloadSize)
  (expects (1 <=? numberOfChunks)
  (let* adjustedChunkSize := sizeWithChunkHeaderStruct chunkPayloadSize in
   if m_denyAddMemPool m
   then Terminated MEPOO__MEMPOOL_ADDMEMPOOL_AFTER_GENERATECHUNKMANAGEMENTPOOL
   else if match last (m_memPoolVector m) with
           | Some back => adjustedChunkSize <=? MemPool.m_chunkSize back
           | None => false
           end
   then Terminated MEPOO__MEMPOOL_CONFIG_MUST_BE_ORDERED_BY_INCREASING_SIZE
   else
     let* '(pools, allocator) :=
       if bool_decide (length (m_memPoolVector m) < MePooConfig.MAX_NUMBER_OF_MEMPOOLS)%nat then
         let* '(p, allocator) := MemPool.ctor_one adjustedChunkSize numberOfChunks allocator in
         Done (m_memPoolVector m ++ [p], allocator)
       else Done (m_memPoolVector m, allocator) in
     Done (mk (m_denyAddMemPool m) (u32 (m_totalNumberOfChunks m + numberOfChunks)) pools
              (m_managementPool m) (mgmts m) (headers m) (words m), allocator))).

Fixpoint addMemPools_one (cfg : MePooConfig.t) (m : t) (allocator : Allocator.t) : outcome (t * Allocator.t) :=
  match cfg with
  | [] => Done (m, allocator)
  | entry :: cfg =>
      let* '(m, allocator) :=
        addMemPool_one m allocator (MePooConfig.m_size entry) (MePooConfig.m_chunkCount entry) in
      addMemPools_one cfg m allocator
  end.

Definition configureMemoryManager_one (m : t) (cfg : MePooConfig.t) (allocator : Allocator.t)
    : outcome (t * Allocator.t) :=
  let* '(m, allocator) := addMemPools_one cfg m allocator in
  generateChunkManagementPool m allocator.

(** ** Memory requirements *)

Fixpoint requiredChunkMemorySize_from (memorySize : Z) (cfg : MePooConfig.t) : outcome Z :=
  match cfg with
  | [] => Done memorySize
  | e :: cfg =>
      let* s := sizeWithChunkHeaderStruct (MePooConfig.m_size e) in
      requiredChunkMemorySize_from
        (u64 (memorySize + align (u64 (MePooConfig.m_chunkCount e * s)) MemPool.CHUNK_MEMORY_ALIGNMENT)) cfg
  end.

Definition requiredChunkMemorySize (cfg : MePooConfig.t) : outcome Z :=
  requiredChunkMemorySize_from 0 cfg.

(** One iteration of the loop of [requiredManagementMemorySize]. *)
Definition management_step (st : Z * Z) (mempool : MePooConfig.Entry) : Z * Z :=
  let '(memorySize, sumOfAllChunks) := st in
  (u64 (memorySize + align (LoFFLi.requiredIndexMemorySize (MePooConfig.m_chunkCount mempool))
                           MemPool.CHUNK_MEMORY_ALIGNMENT),
   u32 (sumOfAllChunks + MePooConfig.m_chunkCount mempool)).

Definition requiredManagementMemorySize (cfg : MePooConfig.t) : Z :=
  let '(memorySize, sumOfAllChunks) := foldl management_step (0, 0) cfg in
  let memorySize := u64 (memorySize + align (u64 (sumOfAllChunks * SIZEOF_CHUNK_MANAGEMENT))
                                            MemPool.CHUNK_MEMORY_ALIGNMENT) in
  u64 (memorySize + align (LoFFLi.requiredIndexMemorySize sumOfAllChunks) MemPool.CHUNK_MEMORY_ALIGNMENT).

Definition requiredFullMemorySize (cfg : MePooConfig.t) : outcome Z :=
  let* chunkMemory := requiredChunkMemorySize cfg in
  Done (u64 (requiredManagementMemorySize cfg + chunkMemory)).

Definition getNumberOfMemPools (m : t) : Z := u32 (Z.of_nat (length (m_memPoolVector m))).

Definition getMemPoolInfo (m : t) (index : Z) : MemPool.MemPoolInfo :=
  match m_memPoolVector m !! Z.to_nat index with
  | Some p => MemPool.getInfo p
  | None => MemPool.mkInfo 0 0 0 0
  end.

(** ** Chunks *)

(** The search of [getChunk]: the first pool whose chunks are large enough. *)
Fixpoint find_pool (required : Z) (pools : list MemPool.t) (k : nat) : option (nat * MemPool.t) :=
  match pools with
  | [] => None
  | p :: pools =>
      if required <=? MemPool.m_chunkSize p then Some (k, p) else find_pool required pools (S k)
  end.

(** [getChunk]: the result (the address of the [ChunkManagement] inside a
    [SharedChunk]), the error reported with a non-fatal level, and the manager.
    Constructing an object at a null pointer is undefined behaviour. *)
Definition getChunk (m : t) (settings : ChunkSettings.t)
    : outcome (expected Z Error * option Prelude.Error * t) :=
  let required := ChunkSettings.requiredChunkSize settings in
  match find_pool required (m_memPoolVector m) 0 with
  | None =>
      match m_memPoolVector m with
      | [] => Done (error NO_MEMPOOLS_AVAILABLE, Some MEPOO__MEMPOOL_GETCHUNK_CHUNK_WITHOUT_MEMPOOL, m)
      | _ => Done (error NO_MEMPOOL_FOR_REQUESTED_CHUNK_SIZE,
                   Some MEPOO__MEMPOOL_GETCHUNK_CHUNK_IS_TOO_LARGE, m)
      end
  | Some (k, pool) =>
      let '(chunk, pool') := MemPool.getChunk pool in
      let m := set_pools (<[k := pool']> (m_memPoolVector m)) m in
      match chunk with
      | None => Done (error MEMPOOL_OUT_OF_CHUNKS,
                      Some MEPOO__MEMPOOL_GETCHUNK_POOL_IS_RUNNING_OUT_OF_CHUNKS, m)
      | Some chunk =>
          let* '(chunkHeader, w) :=
            ChunkHeader.ctor (words m) chunk (MemPool.m_chunkSize pool) settings in
          let m := set_words w (set_header chunk chunkHeader m) in
          match m_managementPool m with
          | [] => Terminated EXPECTS_ENSURES_FAILED
          | front :: rest =>
              let '(place, front') := MemPool.getChunk front in
              let m := set_managementPool (front' :: rest) m in
              match place with
              | None => Terminated UNDEFINED_BEHAVIOUR
              | Some place =>
                  Done (success place, None,
                        set_mgmt place (ChunkManagement_ctor chunk (DataPool k) ManagementPool) m)
              end
          end
      end
  end.

(** [pool->freeChunk(chunk)] through a pool pointer. *)
Definition freeChunk (m : t) (r : PoolRef) (chunk : Z) : outcome t :=
  match r with
  | DataPool k =>
      match m_memPoolVector m !! k with
      | Some p => let* p' := MemPool.freeChunk p chunk in
                  Done (set_pools (<[k := p']> (m_memPoolVector m)) m)
      | None => Terminated UNDEFINED_BEHAVIOUR
      end
  | ManagementPool =>
      match m_managementPool m with
      | front :: rest => let* p' := MemPool.freeChunk front chunk in
                         Done (set_managementPool (p' :: rest) m)
      | [] => Terminated UNDEFINED_BEHAVIOUR
      end
  end.

(** ** The invariant

    [owners] lists, with multiplicity, the addresses of the [ChunkManagement]s
    that live handles refer to.  [fls] and [mfl] are the free indices of the
    pools. *)

Definition sum (f : MemPool.t -> Z) (l : list MemPool.t) : Z := foldr (fun p acc => f p + acc) 0 l.

(** The [ChunkManagement] with index [i] is in use and describes a chunk in use. *)
Record live (m : t) (fls : list (list Z)) (owners : list Z) (a : Z) (c : ChunkManagement)
    (k : nat) (p : MemPool.t) (fl : list Z) (j : Z) (h : ChunkHeader.t) : Prop := {
  lv_mgmt : mgmts m !! a = Some c;
  lv_count : m_referenceCounter c = count a owners;
  lv_pos : 1 <= m_referenceCounter c < 2 ^ 64;
  lv_ref : m_mempool c = DataPool k;
  lv_mref : m_chunkManagementPool c = ManagementPool;
  lv_pool : m_memPoolVector m !! k = Some p;
  lv_fl : fls !! k = Some fl;
  lv_index : 0 <= j < MemPool.m_numberOfChunks p;
  lv_taken : j ∉ fl;
  lv_addr : m_chunkHeader c = MemPool.chunk_at p j;
  lv_header : headers m !! m_chunkHeader c = Some h;
  lv_size : ChunkHeader.chunkSize h = MemPool.m_chunkSize p;
  lv_version : ChunkHeader.chunkHeaderVersion h = ChunkHeader.CHUNK_HEADER_VERSION;
  lv_placed : ChunkHeader.placed (words m) (m_chunkHeader c) h }.

(** Pools one after the other in memory. *)
Definition before (p q : MemPool.t) : Prop :=
  MemPool.m_rawMemory p + MemPool.m_numberOfChunks p * MemPool.m_chunkSize p <= MemPool.m_rawMemory q.

Record Inv (m : t) (fls : list (list Z)) (mp : MemPool.t) (mfl : list Z) (owners : list Z) : Prop := {
  inv_pools : Forall2 MemPool.wf (m_memPoolVector m) fls;
  inv_sizes : StronglySorted Z.lt (MemPool.m_chunkSize <$> m_memPoolVector m);
  inv_disjoint : StronglySorted before (m_memPoolVector m);
  inv_mgmt : m_managementPool m = [mp];
  inv_mwf : MemPool.wf mp mfl;
  inv_total : sum MemPool.m_numberOfChunks (m_memPoolVector m) = MemPool.m_numberOfChunks mp;
  inv_used : sum MemPool.m_usedChunks (m_memPoolVector m) = MemPool.m_usedChunks mp;
  inv_live : forall i, 0 <= i < MemPool.m_numberOfChunks mp -> i ∉ mfl ->
      exists c k p fl j h, live m fls owners (MemPool.chunk_at mp i) c k p fl j h;
  inv_owned : forall a, a ∈ owners ->
      exists i, 0 <= i < MemPool.m_numberOfChunks mp /\ i ∉ mfl /\ a = MemPool.chunk_at mp i;
  inv_inj : forall i1 i2 c1 c2, 0 <= i1 < MemPool.m_numberOfChunks mp -> i1 ∉ mfl ->
      0 <= i2 < MemPool.m_numberOfChunks mp -> i2 ∉ mfl ->
      mgmts m !! MemPool.chunk_at mp i1 = Some c1 -> mgmts m !! MemPool.chunk_at mp i2 = Some c2 ->
      m_chunkHeader c1 = m_chunkHeader c2 -> i1 = i2 }.

Definition Valid (m : t) (owners : list Z) : Prop := exists fls mp mfl, Inv m fls mp mfl owners.

#[global] Instance Valid_proper m : Proper ((≡ₚ) ==> iff) (Valid m).
Proof.
  assert (Himp : forall o1 o2, o1 ≡ₚ o2 -> Valid m o1 -> Valid m o2).
  { intros o1 o2 E (fls & mp & mfl & []). exists fls, mp, mfl. constructor; try done.
    - intros i Hi Hn. destruct (inv_live0 i Hi Hn) as (c & k & p & fl & j & h & []).
      exists c, k, p, fl, j, h. constructor; try done. by rewrite <- (count_Permutation _ _ _ E).
    - intros a Ha. apply inv_owned0. by rewrite E. }
  intros o1 o2 E. split; apply Himp; [done|by symmetry].
Qed.

(** *** Pools *)

Lemma sum_app f l k : sum f (l ++ k) = sum f l + sum f k.
Proof. induction l; simpl; lia. Qed.

Lemma sum_insert f (l : list MemPool.t) (k : nat) p p' :
  l !! k = Some p -> sum f (<[k := p']> l) = sum f l - f p + f p'.
Proof.
  revert k. induction l as [|q l IH]; intros [|k] H; simplify_eq/=; [lia|].
  rewrite (IH k) by done. lia.
Qed.

Lemma shape_fmap_insert {A} (f : MemPool.t -> A) (l : list MemPool.t) (k : nat) p p' :
  l !! k = Some p -> f p = f p' -> f <$> <[k := p']> l = f <$> l.
Proof.
  intros Hk Hf. rewrite list_fmap_insert. apply list_insert_id. by rewrite list_lookup_fmap, Hk, <- Hf.
Qed.

(** Replacing a pool by one of the same shape keeps the geometry. *)
Lemma before_insert (l : list MemPool.t) (k : nat) p p' :
  l !! k = Some p -> MemPool.same_shape p p' -> StronglySorted before l ->
  StronglySorted before (<[k := p']> l).
Proof.
  intros Hk Hs Hl. revert k Hk. induction Hl as [|q l Hl IH Hq]; intros k Hk; [done|].
  destruct Hs as (H1 & H2 & H3). destruct k as [|k]; simplify_eq/=.
  - constructor; [done|]. eapply Forall_impl; [exact Hq|]. intros x. unfold before. by rewrite H1, H2, H3.
  - constructor; [by apply IH|]. apply Forall_insert; [done|].
    rewrite Forall_lookup in Hq. specialize (Hq k p Hk). unfold before in *. by rewrite <- H1.
Qed.

(** Pools in the order of their indices. *)
Lemma pools_before m fls mp mfl owners a b pa pb :
  Inv m fls mp mfl owners -> (a < b)%nat -> m_memPoolVector m !! a = Some pa -> m_memPoolVector m !! b = Some pb ->
  before pa pb.
Proof.
  intros H Hab Ha Hb. pose proof (inv_disjoint _ _ _ _ _ H) as Hd.
  rewrite <- (take_drop (S a) (m_memPoolVector m)) in Hd.
  apply (StronglySorted_app_1_elem_of _ _ _ _ _ Hd).
  - apply (list_elem_of_lookup_2 _ a). rewrite lookup_take by lia. by rewrite decide_True by lia.
  - apply (list_elem_of_lookup_2 _ (b - S a)). rewrite lookup_drop. by replace (S a + (b - S a))%nat with b by lia.
Qed.

(** Chunks of different pools, or with different indices, do not overlap. *)
Lemma chunks_disjoint m fls mp mfl owners k1 k2 p1 p2 j1 j2 :
  Inv m fls mp mfl owners ->
  m_memPoolVector m !! k1 = Some p1 -> m_memPoolVector m !! k2 = Some p2 ->
  0 <= j1 < MemPool.m_numberOfChunks p1 -> 0 <= j2 < MemPool.m_numberOfChunks p2 ->
  (k1 = k2 /\ j1 = j2) \/
  MemPool.chunk_at p1 j1 + MemPool.m_chunkSize p1 <= MemPool.chunk_at p2 j2 \/
  MemPool.chunk_at p2 j2 + MemPool.m_chunkSize p2 <= MemPool.chunk_at p1 j1.
Proof.
  intros H Hk1 Hk2 Hj1 Hj2.
  destruct (Forall2_lookup_l _ _ _ _ _ (inv_pools _ _ _ _ _ H) Hk1) as (f1 & _ & W1).
  destruct (Forall2_lookup_l _ _ _ _ _ (inv_pools _ _ _ _ _ H) Hk2) as (f2 & _ & W2).
  destruct (MemPool.chunk_at_bounds p1 f1 j1) as (L1 & U1 & _); [done..|].
  destruct (MemPool.chunk_at_bounds p2 f2 j2) as (L2 & U2 & _); [done..|].
  pose proof (MemPool.wf_size _ _ W1) as S1. unfold MemPool.CHUNK_MEMORY_ALIGNMENT in S1.
  destruct (Nat.lt_trichotomy k1 k2) as [Hl|[->|Hl]].
  - right. pose proof (pools_before _ _ _ _ _ _ _ _ _ H Hl Hk1 Hk2) as B. unfold before in B. lia.
  - assert (p1 = p2) as -> by congruence. destruct (decide (j1 = j2)) as [->|Hj]; [by left|right].
    unfold MemPool.chunk_at. nia.
  - right. pose proof (pools_before _ _ _ _ _ _ _ _ _ H Hl Hk2 Hk1) as B. unfold before in B. lia.
Qed.

(** They have different addresses. *)
Lemma chunk_at_unique m fls mp mfl owners k1 k2 p1 p2 j1 j2 :
  Inv m fls mp mfl owners ->
  m_memPoolVector m !! k1 = Some p1 -> m_memPoolVector m !! k2 = Some p2 ->
  0 <= j1 < MemPool.m_numberOfChunks p1 -> 0 <= j2 < MemPool.m_numberOfChunks p2 ->
  MemPool.chunk_at p1 j1 = MemPool.chunk_at p2 j2 -> k1 = k2 /\ j1 = j2.
Proof.
  intros H Hk1 Hk2 Hj1 Hj2 E.
  destruct (Forall2_lookup_l _ _ _ _ _ (inv_pools _ _ _ _ _ H) Hk1) as (f1 & _ & W1).
  destruct (Forall2_lookup_l _ _ _ _ _ (inv_pools _ _ _ _ _ H) Hk2) as (f2 & _ & W2).
  pose proof (MemPool.wf_size _ _ W1). pose proof (MemPool.wf_size _ _ W2). unfold MemPool.CHUNK_MEMORY_ALIGNMENT in *.
  destruct (chunks_disjoint _ _ _ _ _ _ _ _ _ _ _ H Hk1 Hk2 Hj1 Hj2) as [?|?]; [done|lia].
Qed.

Lemma find_pool_spec r pools k :
  match find_pool r pools k with
  | Some (k', p) => (k <= k')%nat /\ pools !! (k' - k)%nat = Some p /\ r <= MemPool.m_chunkSize p /\
      forall i q, (i < k' - k)%nat -> pools !! i = Some q -> MemPool.m_chunkSize q < r
  | None => forall q, q ∈ pools -> MemPool.m_chunkSize q < r
  end.
Proof.
  revert k. induction pools as [|p pools IH]; intros k; simpl; [intros q Hq; by apply elem_of_nil in Hq|].
  case_zb.
  - split; [lia|]. rewrite Nat.sub_diag. split; [done|]. split; [done|]. intros i q Hi. lia.
  - specialize (IH (S k)). destruct (find_pool r pools (S k)) as [[k' q]|].
    + destruct IH as (Hle & Hk & Hr & Hlt). split; [lia|].
      replace (k' - k)%nat with (S (k' - S k)) by lia. split; [done|]. split; [done|].
      intros [|i] q' Hi Hq; simplify_eq/=; [done|]. apply (Hlt i); [lia|done].
    + intros q [->|Hq]%elem_of_cons; [done|by apply IH].
Qed.

Lemma sum_used_le pools fls :
  Forall2 MemPool.wf pools fls -> sum MemPool.m_usedChunks pools <= sum MemPool.m_numberOfChunks pools.
Proof. induction 1 as [|p fl pools fls [] H IH]; simpl; lia. Qed.

(** A pool with a free chunk: fewer chunks in use than there are. *)
Lemma sum_used_lt pools fls k p i fl :
  Forall2 MemPool.wf pools fls -> pools !! k = Some p -> fls !! k = Some (i :: fl) ->
  sum MemPool.m_usedChunks pools < sum MemPool.m_numberOfChunks pools.
Proof.
  intros H. revert k. induction H as [|q fq pools fls Hq Hf IH]; intros [|k] Hk Hl; simplify_eq/=.
  - pose proof (sum_used_le _ _ Hf). destruct Hq as [_ _ _ _ Hu _ _ _ _ _]. simpl in Hu. lia.
  - specialize (IH k Hk Hl). destruct Hq as [_ _ _ _ Hu _ _ _ _ _]. lia.
Qed.

(** *** What handles see *)

Definition header_address (m : t) (a : Z) : option Z := m_chunkHeader <$> mgmts m !! a.
Definition header_of (m : t) (a : Z) : option ChunkHeader.t := header_address m a ≫= fun x => headers m !! x.

(** The chunks of [owners] are where they were, with the same headers. *)
Definition same_chunks (owners : list Z) (m m' : t) : Prop :=
  forall a, a ∈ owners -> header_address m' a = header_address m a /\ header_of m' a = header_of m a.

Lemma same_chunks_refl owners m : same_chunks owners m m.
Proof. done. Qed.

Lemma same_chunks_trans owners m1 m2 m3 :
  same_chunks owners m1 m2 -> same_chunks owners m2 m3 -> same_chunks owners m1 m3.
Proof. intros H1 H2 a Ha. destruct (H1 a Ha), (H2 a Ha). split; congruence. Qed.

Lemma same_chunks_subset o1 o2 m m' : o2 ⊆ o1 -> same_chunks o1 m m' -> same_chunks o2 m m'.
Proof. intros Hs H a Ha. by apply H, Hs. Qed.

(** Changing one pool, within its shape, keeps a chunk in use if its index is
    not freed. *)
Lemma live_update m fls owners a c k p fl j h k' p1 p' fl' :
  live m fls owners a c k p fl j h ->
  m_memPoolVector m !! k' = Some p1 -> MemPool.same_shape p1 p' ->
  (k = k' -> j ∉ fl') ->
  exists p2 fl2, live (set_pools (<[k' := p']> (m_memPoolVector m)) m) (<[k' := fl']> fls) owners
                      a c k p2 fl2 j h.
Proof.
  intros [] Hk' Hs Hfl.
  destruct (decide (k = k')) as [->|Hne].
  - assert (p1 = p) as -> by congruence. exists p', fl'. constructor; try done.
    + simpl. apply list_lookup_insert_eq. by eapply lookup_lt_Some.
    + apply list_lookup_insert_eq. by eapply lookup_lt_Some.
    + destruct Hs as (_ & _ & <-). done.
    + by apply Hfl.
    + by rewrite <- (MemPool.chunk_at_shape p).
    + by destruct Hs as (_ & <- & _).
  - exists p, fl. constructor; try done; simpl; by rewrite list_lookup_insert_ne.
Qed.

Lemma Forall2_wf_insert pools fls (k : nat) p' fl' :
  Forall2 MemPool.wf pools fls -> MemPool.wf p' fl' ->
  Forall2 MemPool.wf (<[k := p']> pools) (<[k := fl']> fls).
Proof. intros. by apply Forall2_insert. Qed.

(** *** Taking a chunk *)

Section alloc.
Context (m : t) (fls : list (list Z)) (mp : MemPool.t) (i : Z) (mfl : list Z) (owners : list Z).
Context (Hinv : Inv m fls mp (i :: mfl) owners).
Context (k : nat) (p p' : MemPool.t) (j : Z) (fl : list Z) (mp' : MemPool.t).
Context (Hk : m_memPoolVector m !! k = Some p) (Hfk : fls !! k = Some (j :: fl)).
Context (Hp' : MemPool.wf p' fl) (Hps : MemPool.same_shape p p').
Context (Hpu : MemPool.m_usedChunks p' = MemPool.m_usedChunks p + 1).
Context (Hmp' : MemPool.wf mp' mfl) (Hms : MemPool.same_shape mp mp').
Context (Hmu : MemPool.m_usedChunks mp' = MemPool.m_usedChunks mp + 1).
Context (Hj : 0 <= j < MemPool.m_numberOfChunks p).
Context (Hi : 0 <= i < MemPool.m_numberOfChunks mp).
Context (h : ChunkHeader.t) (w : gmap Z Z) (Hsize : ChunkHeader.chunkSize h = MemPool.m_chunkSize p).
Context (Hversion : ChunkHeader.chunkHeaderVersion h = ChunkHeader.CHUNK_HEADER_VERSION).
Context (Hplaced : ChunkHeader.placed w (MemPool.chunk_at p j) h).
Context (Hframe : forall b, w !! b <> words m !! b ->
  MemPool.chunk_at p j <= b < MemPool.chunk_at p j + MemPool.m_chunkSize p).

Let a := MemPool.chunk_at mp i.
Let chunk := MemPool.chunk_at p j.
Let m' := set_mgmt a (ChunkManagement_ctor chunk (DataPool k) ManagementPool)
            (set_managementPool [mp'] (set_words w (set_header chunk h
              (set_pools (<[k := p']> (m_memPoolVector m)) m)))).

Lemma mgmt_address_inj i1 i2 : MemPool.chunk_at mp i1 = MemPool.chunk_at mp i2 -> i1 = i2.
Proof. apply MemPool.chunk_at_inj with (i :: mfl). apply Hinv. Qed.

Lemma alloc_fresh : a ∉ owners.
Proof.
  intros Ha. destruct (inv_owned _ _ _ _ _ Hinv a Ha) as (i' & _ & Hn & E).
  apply mgmt_address_inj in E as <-. apply Hn. by left.
Qed.

(** Chunks that were in use are not at the address of the new one. *)
Lemma alloc_chunk_fresh c k0 p0 fl0 j0 h0 b :
  live m fls owners b c k0 p0 fl0 j0 h0 -> m_chunkHeader c <> chunk.
Proof.
  intros [] E. rewrite lv_addr0 in E.
  destruct (chunk_at_unique _ _ _ _ _ k0 k p0 p j0 j Hinv) as [-> ->]; try done.
  assert (fl0 = j :: fl) as -> by congruence. apply lv_taken0. by left.
Qed.

Lemma nodup_free : j ∉ fl /\ NoDup (i :: mfl).
Proof.
  destruct (Forall2_lookup_l _ _ _ _ _ (inv_pools _ _ _ _ _ Hinv) Hk) as (f & Ef & W).
  assert (f = j :: fl) as -> by congruence.
  pose proof (LoFFLi.rep_nodup _ _ (MemPool.wf_free _ _ W)) as Hn%NoDup_cons.
  split; [apply Hn|]. apply (LoFFLi.rep_nodup _ _ (MemPool.wf_free _ _ (inv_mwf _ _ _ _ _ Hinv))).
Qed.

(** The words of chunks that were in use are not written. *)
Lemma alloc_placed_old b c k0 p0 fl0 j0 h0 :
  live m fls owners b c k0 p0 fl0 j0 h0 -> ChunkHeader.placed w (m_chunkHeader c) h0.
Proof.
  intros Hl. pose proof (alloc_chunk_fresh _ _ _ _ _ _ _ Hl) as Hfresh. destruct Hl.
  destruct (Forall2_lookup_l _ _ _ _ _ (inv_pools _ _ _ _ _ Hinv) lv_pool0) as (f0 & _ & W0).
  destruct (MemPool.chunk_at_bounds p0 f0 j0 W0 lv_index0) as (B1 & B2 & _).
  eapply ChunkHeader.placed_frame; [exact lv_placed0|..]; try done; rewrite ?lv_size0, ?lv_addr0 in *.
  - destruct W0. lia.
  - destruct W0. lia.
  - intros x Hx. destruct (decide (w !! x = words m !! x)) as [E|Hne]; [done|]. apply Hframe in Hne.
    destruct (chunks_disjoint _ _ _ _ _ _ _ _ _ _ _ Hinv lv_pool0 Hk lv_index0 Hj) as [[-> ->]|?]; [|lia].
    assert (p0 = p) as -> by congruence. done.
Qed.

Lemma alloc_live_old i0 :
  0 <= i0 < MemPool.m_numberOfChunks mp -> i0 ∉ mfl -> i0 <> i ->
  exists c k0 p0 fl0 j0 h0,
    live m' (<[k := fl]> fls) (a :: owners) (MemPool.chunk_at mp i0) c k0 p0 fl0 j0 h0 /\
    mgmts m !! MemPool.chunk_at mp i0 = Some c.
Proof.
  intros H0 Hn Hne.
  destruct (inv_live _ _ _ _ _ Hinv i0 H0) as (c & k0 & p0 & fl0 & j0 & h0 & Hl).
  { rewrite not_elem_of_cons. done. }
  pose proof (alloc_chunk_fresh _ _ _ _ _ _ _ Hl) as Hfresh.
  destruct (live_update _ _ _ _ _ _ _ _ _ _ k p p' fl Hl Hk Hps) as (p2 & fl2 & Hl2).
  { intros ->. destruct Hl. assert (fl0 = j :: fl) as -> by congruence.
    intros Hin. apply lv_taken0. by right. }
  exists c, k0, p2, fl2, j0, h0. split; [|apply Hl]. destruct Hl2. constructor; try done; simpl in *.
  - rewrite lookup_insert_ne; [done|]. intros E%mgmt_address_inj. done.
  - rewrite count_cons, decide_False; [done|]. intros E%mgmt_address_inj. done.
  - rewrite lookup_insert_ne; [done|]. by apply not_eq_sym.
  - by eapply alloc_placed_old.
Qed.

Lemma alloc_inv : Inv m' (<[k := fl]> fls) mp' mfl (a :: owners).
Proof.
  destruct nodup_free as [Hjn Hnd]. apply NoDup_cons in Hnd as [Hni Hnd].
  pose proof Hms as (Hm1 & Hm2 & Hm3). pose proof Hps as (Hs1 & Hs2 & Hs3).
  pose proof Hinv as []. constructor; simpl; try done.
  - by apply Forall2_wf_insert.
  - by rewrite (shape_fmap_insert _ _ _ p).
  - by apply before_insert with p.
  - rewrite (sum_insert _ _ _ p) by done. rewrite <- Hm3. lia.
  - rewrite (sum_insert _ _ _ p) by done. lia.
  - intros i0 H0 Hn. rewrite <- (MemPool.chunk_at_shape mp) by done. rewrite <- Hm3 in H0.
    destruct (decide (i0 = i)) as [->|Hne].
    + exists (ChunkManagement_ctor chunk (DataPool k) ManagementPool), k, p', fl, j, h.
      constructor; simpl; try done.
      * apply lookup_insert_eq.
      * rewrite count_cons, decide_True by done.
        destruct (decide (count (MemPool.chunk_at mp i) owners = 0)) as [->|Hc]; [done|].
        exfalso. apply Hc. apply count_zero. apply alloc_fresh.
      * apply list_lookup_insert_eq. by eapply lookup_lt_Some.
      * apply list_lookup_insert_eq. by eapply lookup_lt_Some.
      * by rewrite <- Hs3.
      * by apply MemPool.chunk_at_shape.
      * apply lookup_insert_eq.
      * congruence.
    + destruct (alloc_live_old i0) as (c & k0 & p0 & fl0 & j0 & h0 & ? & _); eauto 10.
  - intros b [->|Hb]%elem_of_cons.
    + exists i. rewrite <- Hm3. split; [done|]. split; [done|]. by apply MemPool.chunk_at_shape.
    + destruct (inv_owned0 b Hb) as (i0 & H0 & Hn & ->). exists i0. rewrite <- Hm3. split; [done|].
      apply not_elem_of_cons in Hn as [_ Hn]. split; [done|]. by apply MemPool.chunk_at_shape.
  - intros i1 i2 c1 c2. rewrite <- Hm3, <- !(MemPool.chunk_at_shape mp mp') by done.
    intros H1 N1 H2 N2 L1 L2 E.
    destruct (decide (i1 = i)) as [->|Ne1], (decide (i2 = i)) as [->|Ne2]; [done|..].
    + destruct (alloc_live_old i2) as (c & k0 & p0 & fl0 & j0 & h0 & Hl & L); [done..|].
      exfalso. destruct (inv_live0 i2 H2) as (c' & ? & ? & ? & ? & ? & Hl'); [by apply not_elem_of_cons|].
      apply (alloc_chunk_fresh _ _ _ _ _ _ _ Hl'). pose proof (lv_mgmt _ _ _ _ _ _ _ _ _ _ Hl) as Lm.
      pose proof (lv_mgmt _ _ _ _ _ _ _ _ _ _ Hl') as Lm'. simpl in *.
      rewrite lookup_insert_eq in L1. simplify_eq. simpl in E. congruence.
    + destruct (alloc_live_old i1) as (c & k0 & p0 & fl0 & j0 & h0 & Hl & L); [done..|].
      exfalso. destruct (inv_live0 i1 H1) as (c' & ? & ? & ? & ? & ? & Hl'); [by apply not_elem_of_cons|].
      apply (alloc_chunk_fresh _ _ _ _ _ _ _ Hl'). pose proof (lv_mgmt _ _ _ _ _ _ _ _ _ _ Hl) as Lm.
      pose proof (lv_mgmt _ _ _ _ _ _ _ _ _ _ Hl') as Lm'. simpl in *.
      rewrite lookup_insert_eq in L2. simplify_eq. simpl in E. congruence.
    + rewrite lookup_insert_ne in L1 by (intros X%mgmt_address_inj; done).
      rewrite lookup_insert_ne in L2 by (intros X%mgmt_address_inj; done).
      apply (inv_inj0 i1 i2 c1 c2); try done; by apply not_elem_of_cons.
Qed.

Lemma alloc_same_chunks : same_chunks owners m m'.
Proof.
  intros b Hb. destruct (inv_owned _ _ _ _ _ Hinv b Hb) as (i0 & H0 & Hn & ->).
  apply not_elem_of_cons in Hn as [Hne Hn].
  destruct (inv_live _ _ _ _ _ Hinv i0 H0) as (c & k0 & p0 & fl0 & j0 & h0 & Hl); [by apply not_elem_of_cons|].
  pose proof (alloc_chunk_fresh _ _ _ _ _ _ _ Hl). destruct Hl. unfold header_of, header_address. simpl.
  rewrite lookup_insert_ne by (intros X%mgmt_address_inj; done). rewrite lv_mgmt0. simpl.
  by rewrite lookup_insert_ne by done.
Qed.
End alloc.

(** A pool request that finds the pool exhausted changes no chunk. *)
Lemma exhausted_inv m fls mp mfl owners k p p' :
  Inv m fls mp mfl owners -> m_memPoolVector m !! k = Some p -> fls !! k = Some [] ->
  MemPool.wf p' [] -> MemPool.same_shape p p' -> MemPool.m_usedChunks p' = MemPool.m_usedChunks p ->
  Inv (set_pools (<[k := p']> (m_memPoolVector m)) m) fls mp mfl owners.
Proof.
  intros Hinv Hk Hfk Hp' Hs Hu. pose proof Hs as (Hs1 & Hs2 & Hs3).
  pose proof Hinv as []. constructor; simpl; try done.
  - rewrite <- (list_insert_id fls k []) by done. by apply Forall2_wf_insert.
  - by rewrite (shape_fmap_insert _ _ _ p).
  - by apply before_insert with p.
  - rewrite (sum_insert _ _ _ p) by done. lia.
  - rewrite (sum_insert _ _ _ p) by done. lia.
  - intros i Hi Hn. destruct (inv_live0 i Hi Hn) as (c & k0 & p0 & fl0 & j0 & h0 & Hl).
    destruct (live_update _ _ _ _ _ _ _ _ _ _ k p p' [] Hl Hk Hs) as (p2 & fl2 & Hl2).
    { intros _. apply not_elem_of_nil. }
    rewrite (list_insert_id fls k []) in Hl2 by done. eauto 10.
Qed.

(** The outcomes of [getChunk] on a valid manager. *)
Inductive getChunk_result (m : t) (owners : list Z) (s : ChunkSettings.t)
    : expected Z Error * option Prelude.Error * t -> Prop :=
  | got_none : m_memPoolVector m = [] ->
      getChunk_result m owners s
        (error NO_MEMPOOLS_AVAILABLE, Some MEPOO__MEMPOOL_GETCHUNK_CHUNK_WITHOUT_MEMPOOL, m)
  | got_too_large :
      m_memPoolVector m <> [] ->
      (forall p, p ∈ m_memPoolVector m -> MemPool.m_chunkSize p < ChunkSettings.requiredChunkSize s) ->
      getChunk_result m owners s
        (error NO_MEMPOOL_FOR_REQUESTED_CHUNK_SIZE, Some MEPOO__MEMPOOL_GETCHUNK_CHUNK_IS_TOO_LARGE, m)
  | got_exhausted k p m' :
      find_pool (ChunkSettings.requiredChunkSize s) (m_memPoolVector m) 0 = Some (k, p) ->
      MemPool.m_usedChunks p = MemPool.m_numberOfChunks p ->
      Valid m' owners -> same_chunks owners m m' ->
      getChunk_result m owners s
        (error MEMPOOL_OUT_OF_CHUNKS, Some MEPOO__MEMPOOL_GETCHUNK_POOL_IS_RUNNING_OUT_OF_CHUNKS, m')
  | got_chunk k p m' a c h :
      find_pool (ChunkSettings.requiredChunkSize s) (m_memPoolVector m) 0 = Some (k, p) ->
      Valid m' (a :: owners) -> a ∉ owners -> same_chunks owners m m' ->
      mgmts m' !! a = Some c -> m_referenceCounter c = 1 -> m_mempool c = DataPool k ->
      headers m' !! m_chunkHeader c = Some h ->
      ChunkHeader.layout (m_chunkHeader c) (MemPool.m_chunkSize p) s (words m) h (words m') ->
      ChunkHeader.originId h = ChunkHeader.INVALID_UNIQUE_ID -> ChunkHeader.sequenceNumber h = 0 ->
      getChunk_result m owners s (success a, None, m').

Lemma getChunk_total m owners s :
  Valid m owners -> ChunkSettings.valid s ->
  exists r, getChunk m s = Done r /\ getChunk_result m owners s r.
Proof.
  intros (fls & mp & mfl & Hinv) Hs. unfold getChunk.
  pose proof (find_pool_spec (ChunkSettings.requiredChunkSize s) (m_memPoolVector m) 0) as Hf.
  destruct (find_pool _ _ _) as [[k p]|] eqn:Efind; cycle 1.
  { destruct (m_memPoolVector m) as [|q l] eqn:El; (eexists; split; [done|]).
    - by apply got_none.
    - apply got_too_large; rewrite El; done. }
  destruct Hf as (_ & Hk & Hreq & _). rewrite Nat.sub_0_r in Hk.
  destruct (Forall2_lookup_l _ _ _ _ _ (inv_pools _ _ _ _ _ Hinv) Hk) as (fl & Hfk & Wp).
  destruct fl as [|j fl].
  { destruct (MemPool.getChunk_empty p Wp) as (p' & -> & Wp' & Hsh & Hu). eexists. split; [done|].
    eapply got_exhausted; [done| | |].
    - destruct Wp as [_ _ _ _ -> _ _ _ _ _]. simpl. lia.
    - exists fls, mp, mfl. by eapply exhausted_inv.
    - done. }
  destruct (MemPool.getChunk_some p j fl Wp) as (p' & -> & Wp' & Hsh & Hu & Hj).
  destruct (MemPool.chunk_at_bounds p (j :: fl) j Wp Hj) as (Hb1 & Hb2 & Hal).
  destruct (ChunkHeader.ctor_layout (MemPool.chunk_at p j) (MemPool.m_chunkSize p) s (words m))
    as (h & w & Hc & Hlay & Ho & Hsn); [|done|done| | |].
  { destruct Wp. lia. } { destruct Wp. lia. } { destruct Wp. lia. }
  simpl. rewrite Hc. simpl.
  pose proof (sum_used_lt _ _ _ _ _ _ (inv_pools _ _ _ _ _ Hinv) Hk Hfk) as Hlt.
  rewrite (inv_total _ _ _ _ _ Hinv), (inv_used _ _ _ _ _ Hinv) in Hlt.
  rewrite (inv_mgmt _ _ _ _ _ Hinv).
  pose proof (inv_mwf _ _ _ _ _ Hinv) as Wm. destruct mfl as [|i mfl].
  { destruct Wm as [_ _ _ _ Hmu _ _ _ _ _]. simpl in Hmu. lia. }
  destruct (MemPool.getChunk_some mp i mfl Wm) as (mp' & -> & Wm' & Hmsh & Hmu & Hi).
  eexists. split; [done|].
  eapply got_chunk with (k := k) (p := p) (h := h)
    (c := ChunkManagement_ctor (MemPool.chunk_at p j) (DataPool k) ManagementPool); try done.
  - exists (<[k := fl]> fls), mp', mfl. apply alloc_inv; try done; try apply Hlay.
    + by eapply ChunkHeader.layout_placed.
    + intros b Hb. apply (ChunkHeader.lay_frame _ _ _ _ _ _ Hlay) in Hb.
      pose proof (ChunkHeader.lay_end _ _ _ _ _ _ Hlay). destruct Hs. unfold SIZEOF_USER_PAYLOAD_OFFSET_T in *. lia.
  - by eapply alloc_fresh.
  - by eapply alloc_same_chunks.
  - simpl. apply lookup_insert_eq.
  - simpl. apply lookup_insert_eq.
Qed.

(** ** Configuring a manager *)

Definition csum (f : MePooConfig.Entry -> Z) (c : MePooConfig.t) : Z :=
  foldr (fun e acc => f e + acc) 0 c.

Lemma csum_app f c d : csum f (c ++ d) = csum f c + csum f d.
Proof. induction c; simpl; lia. Qed.

Lemma csum_bound f c lo hi :
  Forall (fun e => lo <= f e <= hi) c ->
  lo * Z.of_nat (length c) <= csum f c <= hi * Z.of_nat (length c).
Proof. induction 1; cbn [csum foldr length]; [lia|]. rewrite Nat2Z.inj_succ. unfold csum in *. lia. Qed.

Definition count_of (e : MePooConfig.Entry) : Z := MePooConfig.m_chunkCount e.
Definition bytes_of (e : MePooConfig.Entry) : Z :=
  MePooConfig.m_chunkCount e * (MePooConfig.m_size e + SIZEOF_CHUNK_HEADER).
Definition index_bytes_of (e : MePooConfig.Entry) : Z :=
  align ((MePooConfig.m_chunkCount e + 1) * 4) MemPool.CHUNK_MEMORY_ALIGNMENT.

(** A configuration entry for a pool of at most 4 GiB. *)
Record entry_ok (e : MePooConfig.Entry) : Prop := {
  eo_size : MemPool.CHUNK_MEMORY_ALIGNMENT <= MePooConfig.m_size e <= UINT32_MAX - SIZEOF_CHUNK_HEADER;
  eo_mult : (MemPool.CHUNK_MEMORY_ALIGNMENT | MePooConfig.m_size e);
  eo_count : 1 <= MePooConfig.m_chunkCount e;
  eo_small : bytes_of e <= 2 ^ 32 }.

Record cfg_ok (c : MePooConfig.t) : Prop := {
  co_entries : Forall entry_ok c;
  co_sorted : StronglySorted Z.lt (MePooConfig.m_size <$> c);
  co_length : (0 < length c <= MePooConfig.MAX_NUMBER_OF_MEMPOOLS)%nat;
  co_total : csum count_of c * SIZEOF_CHUNK_MANAGEMENT <= 2 ^ 32 }.

Lemma entry_bounds e : entry_ok e ->
  1 <= MePooConfig.m_chunkCount e < 2 ^ 27 /\ 48 <= bytes_of e /\
  0 <= index_bytes_of e <= 2 ^ 30 /\ (8 | index_bytes_of e) /\ (8 | bytes_of e).
Proof.
  intros []. unfold bytes_of, index_bytes_of, MemPool.CHUNK_MEMORY_ALIGNMENT, SIZEOF_CHUNK_HEADER, UINT32_MAX in *.
  assert (1 <= MePooConfig.m_chunkCount e < 2 ^ 27) by nia.
  destruct (align_spec ((MePooConfig.m_chunkCount e + 1) * 4) 8) as [? ?]; [lia..|].
  split; [done|]. split; [nia|]. split; [lia|]. split; [done|].
  apply Z.divide_mul_r, Z.divide_add_r; [done|by exists 5].
Qed.

(** The manager after the entries [d] of the configuration have been added; the
    pools lie below [limit]. *)
Record built (d : MePooConfig.t) (m : t) (limit : Z) : Prop := {
  b_deny : m_denyAddMemPool m = false;
  b_mgmt : m_managementPool m = [];
  b_total : m_totalNumberOfChunks m = csum count_of d;
  b_pools : Forall2 MemPool.wf (m_memPoolVector m)
              ((fun p => seqZ 0 (MemPool.m_numberOfChunks p)) <$> m_memPoolVector m);
  b_sizes : MemPool.m_chunkSize <$> m_memPoolVector m =
            (fun e => MePooConfig.m_size e + SIZEOF_CHUNK_HEADER) <$> d;
  b_counts : MemPool.m_numberOfChunks <$> m_memPoolVector m = MePooConfig.m_chunkCount <$> d;
  b_disjoint : StronglySorted before (m_memPoolVector m);
  b_end : forall p, p ∈ m_memPoolVector m ->
      MemPool.m_rawMemory p + MemPool.m_numberOfChunks p * MemPool.m_chunkSize p <= limit;
  b_used : sum MemPool.m_usedChunks (m_memPoolVector m) = 0;
  b_fresh : mgmts m = ∅ /\ headers m = ∅ /\ words m = ∅ }.

(** The manager and its two allocators; [mo] bytes of the memory for management
    data were in use before. *)
Record building (mo : Z) (d : MePooConfig.t) (m : t) (ma ca : Allocator.t) : Prop := {
  b_built : built d m (Allocator.m_startAddress ca + Allocator.m_currentPosition ca);
  b_ca : Allocator.wf ca;
  b_ca_al : (MemPool.CHUNK_MEMORY_ALIGNMENT | Allocator.m_startAddress ca);
  b_ca_pos : Allocator.m_currentPosition ca = csum bytes_of d;
  b_ma : Allocator.wf ma;
  b_ma_al : (MemPool.CHUNK_MEMORY_ALIGNMENT | Allocator.m_startAddress ma);
  b_ma_pos : align (Allocator.m_currentPosition ma) MemPool.CHUNK_MEMORY_ALIGNMENT = mo + csum index_bytes_of d }.

Lemma sizeWithChunkHeaderStruct_ok e : entry_ok e ->
  sizeWithChunkHeaderStruct (MePooConfig.m_size e) = Done (MePooConfig.m_size e + SIZEOF_CHUNK_HEADER).
Proof.
  intros []. unfold sizeWithChunkHeaderStruct, MemPool.CHUNK_MEMORY_ALIGNMENT, UINT32_MAX,
    SIZEOF_CHUNK_HEADER in *.
  rewrite (proj2 (Z.leb_le 1 _)), (proj2 (Z.leb_le _ _)) by lia. simpl. by rewrite u32_small by lia.
Qed.

Lemma csum_divide f c : Forall (fun e => (8 | f e)) c -> (8 | csum f c).
Proof. induction 1; [by exists 0|]. by apply Z.divide_add_r. Qed.

(** Constructing one pool with aligned allocators that have room for it. *)
Lemma MemPool_ctor_ok size n ma ca :
  MemPool.CHUNK_MEMORY_ALIGNMENT <= size < 2 ^ 32 -> (MemPool.CHUNK_MEMORY_ALIGNMENT | size) ->
  1 <= n < UINT32_MAX - 1 -> n * size <= 2 ^ 32 ->
  Allocator.wf ma -> Allocator.wf ca ->
  (MemPool.CHUNK_MEMORY_ALIGNMENT | Allocator.m_startAddress ma) ->
  (MemPool.CHUNK_MEMORY_ALIGNMENT | Allocator.m_startAddress ca) ->
  (MemPool.CHUNK_MEMORY_ALIGNMENT | Allocator.m_currentPosition ca) ->
  align (Allocator.m_currentPosition ma) MemPool.CHUNK_MEMORY_ALIGNMENT + (n + 1) * 4 <= Allocator.m_length ma ->
  Allocator.m_currentPosition ca + n * size <= Allocator.m_length ca ->
  exists p ma' ca', MemPool.ctor size n ma ca = Done (p, ma', ca') /\
    MemPool.fresh p (Allocator.m_startAddress ca + Allocator.m_currentPosition ca) size n /\
    Allocator.wf ma' /\ Allocator.wf ca' /\
    Allocator.m_startAddress ma' = Allocator.m_startAddress ma /\ Allocator.m_length ma' = Allocator.m_length ma /\
    Allocator.m_startAddress ca' = Allocator.m_startAddress ca /\ Allocator.m_length ca' = Allocator.m_length ca /\
    Allocator.m_currentPosition ma' =
      align (Allocator.m_currentPosition ma) MemPool.CHUNK_MEMORY_ALIGNMENT + (n + 1) * 4 /\
    Allocator.m_currentPosition ca' = Allocator.m_currentPosition ca + n * size.
Proof.
  intros Hs Hm Hn Hsmall Wm Wc Am Ac Ap Fm Fc. unfold MemPool.CHUNK_MEMORY_ALIGNMENT, UINT32_MAX in *.
  pose proof Wc as [C1 C2 C3 C4]. pose proof Wm as [M1 M2 M3 M4].
  unfold MemPool.ctor. rewrite (proj2 (Z.leb_le _ _)), (proj2 (Z.leb_le 1 n)) by
    (unfold MemPool.CHUNK_MEMORY_ALIGNMENT; lia). simpl.
  unfold MemPool.isMultipleOfAlignment, MemPool.CHUNK_MEMORY_ALIGNMENT.
  rewrite (proj2 (Z.mod_divide size 8 ltac:(lia)) Hm). simpl.
  rewrite u64_small by lia.
  assert (Hal : align (Allocator.m_currentPosition ca) 8 = Allocator.m_currentPosition ca).
  { apply align_id; [lia|lia|done]. }
  destruct (Allocator.allocate_spec ca (n * size) 8) as (ca' & -> & Wc' & S1 & S2 & S3);
    [done|nia|lia|done|lia|lia|]. simpl.
  rewrite MemPool.requiredIndexMemorySize_small by lia.
  destruct (Allocator.allocate_spec ma ((n + 1) * 4) 8) as (ma' & -> & Wm' & T1 & T2 & T3);
    [done|lia|lia|done|lia|lia|]. simpl.
  destruct (MemPool.init_fresh n) as (l & El & Hl & Hls); [unfold UINT32_MAX; lia|].
  rewrite MemPool.requiredIndexMemorySize_small in El by lia. rewrite El. simpl.
  eexists _, ma', ca'. split; [done|]. rewrite Hal in *. split; [|split_and!; done || lia].
  apply MemPool.fresh_intro; unfold MemPool.CHUNK_MEMORY_ALIGNMENT, UINT32_MAX; try done; try lia.
  by apply Z.divide_add_r.
Qed.

(** The size check of [addMemPool] passes when the sizes increase. *)
Lemma last_smaller d (pools : list MemPool.t) e :
  MemPool.m_chunkSize <$> pools = (fun e => MePooConfig.m_size e + SIZEOF_CHUNK_HEADER) <$> d ->
  (forall x, x ∈ d -> MePooConfig.m_size x < MePooConfig.m_size e) ->
  match last pools with
  | Some back => (MePooConfig.m_size e + SIZEOF_CHUNK_HEADER <=? MemPool.m_chunkSize back) = false
  | None => True
  end.
Proof.
  intros E Hlt. destruct (last pools) as [q|] eqn:El; [|done].
  assert (Hq : MemPool.m_chunkSize q ∈ MemPool.m_chunkSize <$> pools).
  { apply list_elem_of_fmap. exists q. split; [done|]. by apply last_Some_elem_of. }
  rewrite E in Hq. apply list_elem_of_fmap in Hq as (x & -> & Hx). apply Z.leb_gt.
  specialize (Hlt x Hx). lia.
Qed.

(** The manager with one pool more. *)
Definition with_pool (m : t) (p : MemPool.t) : t :=
  mk (m_denyAddMemPool m) (u32 (m_totalNumberOfChunks m + MemPool.m_numberOfChunks p)) (m_memPoolVector m ++ [p])
     (m_managementPool m) (mgmts m) (headers m) (words m).

Lemma built_add d m limit e p raw :
  built d m limit -> 0 <= csum count_of d -> csum count_of (d ++ [e]) < 2 ^ 32 -> 1 <= count_of e -> limit <= raw ->
  MemPool.fresh p raw (MePooConfig.m_size e + SIZEOF_CHUNK_HEADER) (MePooConfig.m_chunkCount e) ->
  0 <= bytes_of e -> built (d ++ [e]) (with_pool m p) (raw + bytes_of e).
Proof.
  intros [] Hcnt Htot He Hl (Wp & P1 & P2 & P3 & P4 & P5) Hby. rewrite csum_app in Htot. cbn [csum foldr] in Htot.
  unfold count_of at 2 in Htot. unfold count_of in He.
  constructor; simpl; try done.
  - rewrite P3, u32_small, csum_app, b_total0 by lia. simpl. unfold count_of at 3. lia.
  - rewrite fmap_app. apply Forall2_app; [done|]. constructor; [|constructor]. by rewrite P3.
  - rewrite !fmap_app, b_sizes0. simpl. by rewrite P2.
  - rewrite !fmap_app, b_counts0. simpl. by rewrite P3.
  - apply StronglySorted_app_2; [|done|repeat constructor].
    intros x y Hx ->%list_elem_of_singleton. unfold before. rewrite P1. specialize (b_end0 x Hx). lia.
  - intros x [Hx|Hx]%elem_of_app.
    + specialize (b_end0 x Hx). lia.
    + apply list_elem_of_singleton in Hx as ->. rewrite P1, P2, P3. unfold bytes_of. lia.
  - rewrite sum_app. simpl. lia.
Qed.

Lemma built_nil limit : built [] ctor limit.
Proof. constructor; simpl; try done; [constructor|]. intros p Hp. by apply elem_of_nil in Hp. Qed.

Lemma built_length d m limit : built d m limit -> length (m_memPoolVector m) = length d.
Proof. intros []. rewrite <- (length_fmap MemPool.m_chunkSize), b_sizes0. apply length_fmap. Qed.

Lemma csum_count_nonneg d : Forall entry_ok d -> 0 <= csum count_of d.
Proof.
  intros Hd. destruct (csum_bound count_of d 0 (2 ^ 27)); [|lia].
  eapply Forall_impl; [exact Hd|]. intros x Hx. unfold count_of. destruct (entry_bounds x Hx). lia.
Qed.

Lemma addMemPool_building mo d m ma ca e :
  building mo d m ma ca -> (MemPool.CHUNK_MEMORY_ALIGNMENT | mo) -> entry_ok e ->
  (forall x, x ∈ d -> MePooConfig.m_size x < MePooConfig.m_size e) ->
  Forall entry_ok d -> (length d < MePooConfig.MAX_NUMBER_OF_MEMPOOLS)%nat ->
  csum count_of (d ++ [e]) < 2 ^ 32 ->
  mo + csum index_bytes_of (d ++ [e]) <= Allocator.m_length ma ->
  csum bytes_of (d ++ [e]) <= Allocator.m_length ca ->
  exists m' ma' ca',
    addMemPool m ma ca (MePooConfig.m_size e) (MePooConfig.m_chunkCount e) = Done (m', ma', ca') /\
    building mo (d ++ [e]) m' ma' ca' /\
    Allocator.m_startAddress ma' = Allocator.m_startAddress ma /\ Allocator.m_length ma' = Allocator.m_length ma /\
    Allocator.m_length ca' = Allocator.m_length ca.
Proof.
  intros Hb Hmo He Hlt Hd Hlen Htot Hma Hca. pose proof Hb as []. pose proof b_built0 as [].
  destruct (entry_bounds e He) as (Hc & Hby & Hix & Hix8 & Hby8). pose proof He as [Hs Hm Hc1 Hsmall].
  pose proof (csum_count_nonneg d Hd) as Hcnt. pose proof Htot as Htot0.
  unfold addMemPool. unfold MemPool.CHUNK_MEMORY_ALIGNMENT in *. rewrite !csum_app in Htot, Hma, Hca.
  cbn [csum foldr] in Htot, Hma, Hca. rewrite !Z.add_0_r in *.
  rewrite (proj2 (Z.leb_le 8 _)), (proj2 (Z.leb_le 1 _)) by lia. simpl.
  rewrite sizeWithChunkHeaderStruct_ok by done. simpl. rewrite b_deny0.
  assert (Hlast := last_smaller d _ e b_sizes0 Hlt). pose proof (built_length _ _ _ b_built0) as Hlen'.
  destruct (MemPool_ctor_ok (MePooConfig.m_size e + SIZEOF_CHUNK_HEADER) (MePooConfig.m_chunkCount e) ma ca)
    as (p & ma' & ca' & Ec & Hf & Wm & Wc & X1 & X2 & X3 & X4 & X5 & X6);
    unfold MemPool.CHUNK_MEMORY_ALIGNMENT, SIZEOF_CHUNK_HEADER, UINT32_MAX in *; try done; try lia.
  { apply Z.divide_add_r; [done|by exists 5]. }
  { rewrite b_ca_pos0. apply csum_divide. eapply Forall_impl; [exact Hd|]. intros x Hx. by apply entry_bounds. }
  { rewrite b_ma_pos0. destruct (align_spec ((MePooConfig.m_chunkCount e + 1) * 4) 8); [lia..|].
    assert (index_bytes_of e = align ((MePooConfig.m_chunkCount e + 1) * 4) 8) by done. lia. }
  { unfold bytes_of, SIZEOF_CHUNK_HEADER in *. lia. }
  rewrite (bool_decide_true (_ < _)%nat) by lia.
  exists (with_pool m p), ma', ca'. pose proof Hf as (_ & _ & _ & P3 & _). split.
  { unfold with_pool. rewrite P3. destruct (last (m_memPoolVector m)) as [q|]; [rewrite Hlast|]; rewrite Ec; simpl; by rewrite b_deny0. }
  split; [|done].
  assert (Eby : bytes_of e = MePooConfig.m_chunkCount e * (MePooConfig.m_size e + 40)) by done.
  constructor; simpl; try done.
  - replace (Allocator.m_startAddress ca' + _) with
      (Allocator.m_startAddress ca + Allocator.m_currentPosition ca + bytes_of e) by lia.
    eapply built_add; [exact b_built0|done|done|unfold count_of; lia|lia|exact Hf|lia].
  - by rewrite X3.
  - rewrite X6, csum_app, b_ca_pos0. simpl. lia.
  - by rewrite X1.
  - rewrite X5, csum_app, b_ma_pos0. simpl. unfold MemPool.CHUNK_MEMORY_ALIGNMENT.
    assert (H8 : (8 | csum index_bytes_of d)).
    { apply csum_divide. eapply Forall_impl; [exact Hd|]. intros x Hx. by apply entry_bounds. }
    pose proof b_ma0 as [M1 M2 M3 M4].
    destruct (align_spec (Allocator.m_currentPosition ma) 8); [lia..|].
    rewrite align_shift by (try (by apply Z.divide_add_r); lia).
    assert (index_bytes_of e = align ((MePooConfig.m_chunkCount e + 1) * 4) 8) by done. lia.
Qed.

Lemma csum_le f c d : Forall entry_ok (c ++ d) -> (forall e, entry_ok e -> 0 <= f e) ->
  0 <= csum f c <= csum f (c ++ d).
Proof.
  intros H Hf. rewrite csum_app. apply Forall_app in H as [Hc Hd].
  assert (Hnn : forall l, Forall entry_ok l -> 0 <= csum f l).
  { intros l. induction 1 as [|x l Hx _ IH]; simpl; [done|]. specialize (Hf x Hx). lia. }
  pose proof (Hnn c Hc). pose proof (Hnn d Hd). lia.
Qed.

Lemma entry_nonneg e : entry_ok e -> 0 <= count_of e /\ 0 <= index_bytes_of e /\ 0 <= bytes_of e.
Proof. intros He. destruct (entry_bounds e He). unfold count_of. lia. Qed.

(** The conditions on the next entry follow from those on the configuration. *)
Lemma cfg_next d e c : cfg_ok ((d ++ [e]) ++ c) ->
  entry_ok e /\ (forall x, x ∈ d -> MePooConfig.m_size x < MePooConfig.m_size e) /\ Forall entry_ok d /\
  (length d < MePooConfig.MAX_NUMBER_OF_MEMPOOLS)%nat /\ csum count_of (d ++ [e]) < 2 ^ 32 /\
  csum index_bytes_of (d ++ [e]) <= csum index_bytes_of ((d ++ [e]) ++ c) /\
  csum bytes_of (d ++ [e]) <= csum bytes_of ((d ++ [e]) ++ c).
Proof.
  intros [He Hs Hl Ht]. pose proof He as [Hde Hc]%Forall_app. pose proof Hde as [Hd He1]%Forall_app.
  destruct (csum_le count_of (d ++ [e]) c He) as [? ?]; [apply entry_nonneg|].
  destruct (csum_le index_bytes_of (d ++ [e]) c He) as [? ?]; [apply entry_nonneg|].
  destruct (csum_le bytes_of (d ++ [e]) c He) as [? ?]; [apply entry_nonneg|].
  unfold SIZEOF_CHUNK_MANAGEMENT in Ht. split_and!; try done; try lia.
  - by inversion He1.
  - intros x Hx. rewrite !fmap_app in Hs. apply StronglySorted_app_1_l in Hs.
    apply (StronglySorted_app_1_elem_of _ _ _ _ _ Hs).
    + apply list_elem_of_fmap. eauto.
    + by left.
  - rewrite !length_app in Hl. simpl in Hl. lia.
Qed.

Lemma addMemPools_building mo d c m ma ca :
  building mo d m ma ca -> (MemPool.CHUNK_MEMORY_ALIGNMENT | mo) -> cfg_ok (d ++ c) ->
  mo + csum index_bytes_of (d ++ c) <= Allocator.m_length ma -> csum bytes_of (d ++ c) <= Allocator.m_length ca ->
  exists m' ma' ca', addMemPools c m ma ca = Done (m', ma', ca') /\ building mo (d ++ c) m' ma' ca' /\
    Allocator.m_startAddress ma' = Allocator.m_startAddress ma /\ Allocator.m_length ma' = Allocator.m_length ma.
Proof.
  revert d m ma ca. induction c as [|e c IH]; intros d m ma ca Hb Hmo Hok Hma Hca; simpl.
  { rewrite app_nil_r. eauto 10. }
  replace (d ++ e :: c) with ((d ++ [e]) ++ c) in * by by rewrite <- app_assoc.
  destruct (cfg_next d e c Hok) as (H1 & H2 & H3 & H4 & H5 & H6 & H7).
  destruct (addMemPool_building mo d m ma ca e) as (m1 & ma1 & ca1 & -> & Hb1 & S1 & L1 & L2); try done; try lia.
  simpl. destruct (IH (d ++ [e]) m1 ma1 ca1) as (m' & ma' & ca' & -> & Hb' & S' & L'); try done; try lia.
  exists m', ma', ca'. split; [done|]. split; [done|]. split; congruence.
Qed.

(** A pool that takes both kinds of memory from one allocator. *)
Lemma MemPool_ctor_one_ok size n a :
  MemPool.CHUNK_MEMORY_ALIGNMENT <= size < 2 ^ 32 -> (MemPool.CHUNK_MEMORY_ALIGNMENT | size) ->
  1 <= n < UINT32_MAX - 1 -> n * size <= 2 ^ 32 -> Allocator.wf a ->
  (MemPool.CHUNK_MEMORY_ALIGNMENT | Allocator.m_startAddress a) ->
  align (Allocator.m_currentPosition a) MemPool.CHUNK_MEMORY_ALIGNMENT + n * size + (n + 1) * 4 <= Allocator.m_length a ->
  exists p a', MemPool.ctor_one size n a = Done (p, a') /\
    MemPool.fresh p (Allocator.m_startAddress a + align (Allocator.m_currentPosition a) MemPool.CHUNK_MEMORY_ALIGNMENT) size n /\
    Allocator.wf a' /\ Allocator.m_startAddress a' = Allocator.m_startAddress a /\
    Allocator.m_length a' = Allocator.m_length a /\
    Allocator.m_currentPosition a' =
      align (Allocator.m_currentPosition a) MemPool.CHUNK_MEMORY_ALIGNMENT + n * size + (n + 1) * 4.
Proof.
  intros Hs Hm Hn Hsmall W A F. unfold MemPool.CHUNK_MEMORY_ALIGNMENT, UINT32_MAX in *. pose proof W as [M1 M2 M3 M4].
  destruct (align_spec (Allocator.m_currentPosition a) 8) as [Hr Hd]; [lia..|].
  unfold MemPool.ctor_one. rewrite (proj2 (Z.leb_le _ _)), (proj2 (Z.leb_le 1 n)) by
    (unfold MemPool.CHUNK_MEMORY_ALIGNMENT; lia). simpl.
  unfold MemPool.isMultipleOfAlignment, MemPool.CHUNK_MEMORY_ALIGNMENT.
  rewrite (proj2 (Z.mod_divide size 8 ltac:(lia)) Hm). simpl. rewrite u64_small by lia.
  destruct (Allocator.allocate_spec a (n * size) 8) as (a1 & -> & W1 & S1 & S2 & S3); [done|nia|lia|done|lia|lia|]. simpl.
  rewrite MemPool.requiredIndexMemorySize_small by lia.
  assert (Hal : align (Allocator.m_currentPosition a1) 8 = Allocator.m_currentPosition a1).
  { rewrite S3. apply align_id; [nia|lia|]. apply Z.divide_add_r; [done|]. by apply Z.divide_mul_r. }
  destruct (Allocator.allocate_spec a1 ((n + 1) * 4) 8) as (a2 & -> & W2 & T1 & T2 & T3);
    [done|lia|lia|by rewrite S1|lia|lia|]. simpl.
  destruct (MemPool.init_fresh n) as (l & El & Hl & Hls); [unfold UINT32_MAX; lia|].
  rewrite MemPool.requiredIndexMemorySize_small in El by lia. rewrite El. simpl.
  eexists _, a2. split; [done|]. split; [|split_and!; done || lia].
  apply MemPool.fresh_intro; unfold MemPool.CHUNK_MEMORY_ALIGNMENT, UINT32_MAX; try done; try lia.
  by apply Z.divide_add_r.
Qed.

Lemma sum_fmap f (l : list MemPool.t) g (c : MePooConfig.t) :
  f <$> l = g <$> c -> sum f l = csum g c.
Proof.
  revert c. induction l as [|p l IH]; intros [|e c] H; simplify_eq/=; [done|]. rewrite (IH c) by done. lia.
Qed.

(** A manager without a chunk in use. *)
Lemma built_valid c m limit mp raw :
  built c m limit -> StronglySorted Z.lt (MePooConfig.m_size <$> c) ->
  MemPool.fresh mp raw SIZEOF_CHUNK_MANAGEMENT (csum count_of c) ->
  Valid (set_managementPool [mp] (mk true (m_totalNumberOfChunks m) (m_memPoolVector m) []
                                     (mgmts m) (headers m) (words m))) [].
Proof.
  intros [] Hs (Wm & P1 & P2 & P3 & P4 & P5).
  exists ((fun p => seqZ 0 (MemPool.m_numberOfChunks p)) <$> m_memPoolVector m), mp, (seqZ 0 (csum count_of c)).
  constructor; simpl; try done.
  - rewrite b_sizes0. clear -Hs. induction c as [|e c IH]; [constructor|]. rewrite fmap_cons in *.
    apply StronglySorted_inv in Hs as [Hs Hf]. constructor; [by apply IH|].
    rewrite Forall_fmap in Hf |- *. eapply Forall_impl; [exact Hf|]. simpl. intros x. lia.
  - rewrite P3. by apply sum_fmap.
  - congruence.
  - intros i Hi Hn. destruct Hn. apply elem_of_seqZ. lia.
  - intros a Ha. by apply elem_of_nil in Ha.
  - intros i1 i2 c1 c2 H1 N1. destruct N1. apply elem_of_seqZ. lia.
Qed.

(** The size computations, without overflow. *)
Lemma csum_small f c : Forall entry_ok c -> (length c <= 32)%nat ->
  (forall e, entry_ok e -> 0 <= f e <= 2 ^ 32) -> 0 <= csum f c <= 2 ^ 37.
Proof.
  intros Hc Hl Hf. destruct (csum_bound f c 0 (2 ^ 32)); [|lia].
  eapply Forall_impl; [exact Hc|]. intros e He. specialize (Hf e He). lia.
Qed.

Lemma requiredChunkMemorySize_ok c : Forall entry_ok c -> (length c <= 32)%nat ->
  requiredChunkMemorySize c = Done (csum bytes_of c).
Proof.
  intros Hc Hl. unfold requiredChunkMemorySize.
  assert (Hgen : forall d c, Forall entry_ok (d ++ c) -> (length (d ++ c) <= 32)%nat ->
    requiredChunkMemorySize_from (csum bytes_of d) c = Done (csum bytes_of (d ++ c))).
  { clear. intros d c. revert d. induction c as [|e c IH]; intros d Hc Hl; simpl; [by rewrite app_nil_r|].
    replace (d ++ e :: c) with ((d ++ [e]) ++ c) in * by by rewrite <- app_assoc.
    pose proof Hc as [Hde _]%Forall_app. pose proof Hde as [Hd He]%Forall_app. inversion He as [|? ? He1 _]; subst.
    destruct (entry_bounds e He1) as (B1 & B2 & B3 & B4 & B5). pose proof (eo_small _ He1).
    rewrite sizeWithChunkHeaderStruct_ok by done. simpl.
    fold (bytes_of e). rewrite (u64_small (bytes_of e)) by lia.
    unfold MemPool.CHUNK_MEMORY_ALIGNMENT. rewrite align_id by (try done; lia).
    assert (0 <= csum bytes_of d <= 2 ^ 37).
    { apply csum_small; [done|rewrite !length_app in Hl; lia|]. intros x Hx.
      destruct (entry_bounds x Hx). pose proof (eo_small _ Hx). lia. }
    rewrite u64_small by lia. rewrite <- IH by done. f_equal. rewrite csum_app. simpl. lia. }
  by apply (Hgen []).
Qed.

Lemma requiredManagementMemorySize_ok c : cfg_ok c ->
  requiredManagementMemorySize c =
    csum index_bytes_of c + csum count_of c * SIZEOF_CHUNK_MANAGEMENT
    + align ((csum count_of c + 1) * 4) MemPool.CHUNK_MEMORY_ALIGNMENT.
Proof.
  intros [He Hs Hl Ht]. unfold requiredManagementMemorySize, SIZEOF_CHUNK_MANAGEMENT, MePooConfig.MAX_NUMBER_OF_MEMPOOLS in *.
  assert (Hgen : forall c d, Forall entry_ok (d ++ c) -> (length (d ++ c) <= 32)%nat ->
    csum count_of (d ++ c) < 2 ^ 32 ->
    foldl management_step (csum index_bytes_of d, csum count_of d) c = (csum index_bytes_of (d ++ c), csum count_of (d ++ c))).
  { clear c He Hs Hl Ht. intros c. induction c as [|e c IH]; intros d Hc Hl Hb; simpl; [by rewrite app_nil_r|].
    replace (d ++ e :: c) with ((d ++ [e]) ++ c) in * by by rewrite <- app_assoc.
    pose proof Hc as [Hde _]%Forall_app. pose proof Hde as [Hd He]%Forall_app. inversion He as [|? ? He1 _]; subst.
    destruct (entry_bounds e He1) as (B1 & B2 & B3 & B4 & B5).
    destruct (csum_le count_of (d ++ [e]) c Hc) as [? Hle]; [apply entry_nonneg|].
    destruct (csum_le count_of d [e] Hde) as [? ?]; [apply entry_nonneg|].
    assert (0 <= csum index_bytes_of d <= 2 ^ 37).
    { apply csum_small; [done|rewrite !length_app in Hl; lia|]. intros x Hx. destruct (entry_bounds x Hx). lia. }
    rewrite <- IH by done. f_equal. rewrite !csum_app in *. cbn [csum foldr] in *. unfold management_step.
    rewrite MemPool.requiredIndexMemorySize_small by lia. fold (index_bytes_of e). fold (count_of e).
    rewrite u64_small, u32_small by lia. f_equal; lia. }
  assert (H37 : 0 <= csum index_bytes_of c <= 2 ^ 37).
  { apply csum_small; [done|lia|]. intros x Hx. destruct (entry_bounds x Hx). lia. }
  assert (0 <= csum count_of c).
  { destruct (csum_le count_of c []); rewrite ?app_nil_r; try done. apply entry_nonneg. }
  specialize (Hgen c []). simpl in Hgen. rewrite Hgen by (done || lia).
  unfold MemPool.CHUNK_MEMORY_ALIGNMENT. rewrite (u64_small (_ * 56)) by lia.
  rewrite (align_id (_ * 56)); [|lia|lia|exists (csum count_of c * 7); lia].
  rewrite MemPool.requiredIndexMemorySize_small by lia.
  destruct (align_spec ((csum count_of c + 1) * 4) 8); [lia..|].
  rewrite (u64_small (csum index_bytes_of c + _)) by lia. by rewrite u64_small by lia.
Qed.

Lemma requiredManagementMemorySize_bounds c : cfg_ok c ->
  1 <= csum count_of c < 2 ^ 27 /\ 0 <= csum index_bytes_of c <= 2 ^ 37 /\ 0 <= csum bytes_of c <= 2 ^ 37 /\
  (8 | csum index_bytes_of c) /\ (8 | csum bytes_of c) /\ 0 <= requiredManagementMemorySize c < 2 ^ 38 /\
  (8 | requiredManagementMemorySize c).
Proof.
  intros Hok. rewrite requiredManagementMemorySize_ok by done. destruct Hok as [He Hs Hl Ht].
  unfold SIZEOF_CHUNK_MANAGEMENT, MePooConfig.MAX_NUMBER_OF_MEMPOOLS, MemPool.CHUNK_MEMORY_ALIGNMENT in *.
  assert (1 <= csum count_of c).
  { destruct (csum_bound count_of c 1 (2 ^ 27)); [|lia].
    eapply Forall_impl; [exact He|]. intros x Hx. destruct (entry_bounds x Hx). unfold count_of. lia. }
  assert (0 <= csum index_bytes_of c <= 2 ^ 37).
  { apply csum_small; [done|lia|]. intros x Hx. destruct (entry_bounds x Hx). lia. }
  assert (0 <= csum bytes_of c <= 2 ^ 37).
  { apply csum_small; [done|lia|]. intros x Hx. destruct (entry_bounds x Hx). pose proof (eo_small _ Hx). lia. }
  assert (H8 : (8 | csum index_bytes_of c)) by (apply csum_divide; eapply Forall_impl; [exact He|]; intros x Hx; by apply entry_bounds).
  assert ((8 | csum bytes_of c)) by (apply csum_divide; eapply Forall_impl; [exact He|]; intros x Hx; by apply entry_bounds).
  destruct (align_spec ((csum count_of c + 1) * 4) 8) as [? ?]; [lia..|].
  split_and!; try done; try lia. repeat apply Z.divide_add_r; try done. exists (csum count_of c * 7). lia.
Qed.

(** The last step of the configuration. *)
Lemma generate_ok c m limit a : built c m limit -> cfg_ok c -> Allocator.wf a ->
  (MemPool.CHUNK_MEMORY_ALIGNMENT | Allocator.m_startAddress a) ->
  let used := align (Allocator.m_currentPosition a) MemPool.CHUNK_MEMORY_ALIGNMENT
              + requiredManagementMemorySize c - csum index_bytes_of c in
  used <= Allocator.m_length a ->
  exists m' a', generateChunkManagementPool m a = Done (m', a') /\ Valid m' [] /\
    MemPool.m_chunkSize <$> m_memPoolVector m' = (fun e => MePooConfig.m_size e + SIZEOF_CHUNK_HEADER) <$> c /\
    MemPool.m_numberOfChunks <$> m_memPoolVector m' = MePooConfig.m_chunkCount <$> c /\
    Allocator.wf a' /\ Allocator.m_startAddress a' = Allocator.m_startAddress a /\
    Allocator.m_length a' = Allocator.m_length a /\
    align (Allocator.m_currentPosition a') MemPool.CHUNK_MEMORY_ALIGNMENT = used.
Proof.
  intros Hb Hok W A used Hl. destruct (requiredManagementMemorySize_bounds c Hok) as (B1 & B2 & B3 & B4 & B5 & _).
  unfold used in *. rewrite requiredManagementMemorySize_ok in * by done.
  pose proof Hok as [_ Hs _ Ht]. unfold SIZEOF_CHUNK_MANAGEMENT, MemPool.CHUNK_MEMORY_ALIGNMENT in *.
  pose proof W as [W1 W2 W3 W4]. destruct (align_spec (Allocator.m_currentPosition a) 8) as [R1 R2]; [lia..|].
  destruct (align_spec ((csum count_of c + 1) * 4) 8) as [R3 R4]; [lia..|].
  destruct (MemPool_ctor_one_ok 56 (csum count_of c) a) as (mp & a' & E & Hf & W' & S1 & S2 & S3);
    unfold MemPool.CHUNK_MEMORY_ALIGNMENT, UINT32_MAX in *; try done; try lia; [by exists 7|].
  unfold generateChunkManagementPool. simpl. rewrite (b_mgmt _ _ _ Hb). unfold SIZEOF_CHUNK_MANAGEMENT.
  rewrite (b_total _ _ _ Hb), E. simpl. eexists _, a'. split; [done|].
  pose proof (built_valid c m limit mp _ Hb Hs Hf) as Hv. rewrite (b_total _ _ _ Hb) in Hv. split; [exact Hv|].
  split; [apply Hb|]. split; [apply Hb|]. split; [done|]. split; [done|]. split; [done|].
  rewrite S3. rewrite align_shift by (try (apply Z.divide_add_r; [done|exists (csum count_of c * 7); lia]); lia). lia.
Qed.

(** Configuration with memory for management data that is partly used. *)
Lemma configure_from c ma cs cl R :
  cfg_ok c -> requiredChunkMemorySize c = Done R -> Allocator.wf ma ->
  (MemPool.CHUNK_MEMORY_ALIGNMENT | Allocator.m_startAddress ma) ->
  align (Allocator.m_currentPosition ma) MemPool.CHUNK_MEMORY_ALIGNMENT + requiredManagementMemorySize c <= Allocator.m_length ma ->
  0 <= cs -> (MemPool.CHUNK_MEMORY_ALIGNMENT | cs) -> cs + cl <= 2 ^ 47 -> R <= cl ->
  exists m ma' ca', configureMemoryManager ctor c ma (Allocator.ctor cs cl) = Done (m, ma', ca') /\ Valid m [] /\
    MemPool.m_chunkSize <$> m_memPoolVector m = (fun e => MePooConfig.m_size e + SIZEOF_CHUNK_HEADER) <$> c /\
    MemPool.m_numberOfChunks <$> m_memPoolVector m = MePooConfig.m_chunkCount <$> c /\
    Allocator.wf ma' /\ Allocator.m_startAddress ma' = Allocator.m_startAddress ma /\
    Allocator.m_length ma' = Allocator.m_length ma /\
    align (Allocator.m_currentPosition ma') MemPool.CHUNK_MEMORY_ALIGNMENT =
      align (Allocator.m_currentPosition ma) MemPool.CHUNK_MEMORY_ALIGNMENT + requiredManagementMemorySize c.
Proof.
  intros Hok HR W A HM Hcs Acs Hcl HC. destruct (requiredManagementMemorySize_bounds c Hok) as (B1 & B2 & B3 & B4 & B5 & B6 & B7).
  assert (Hlen : (length c <= 32)%nat) by (pose proof (co_length _ Hok); unfold MePooConfig.MAX_NUMBER_OF_MEMPOOLS in *; lia).
  rewrite requiredChunkMemorySize_ok in HR by (done || apply Hok). injection HR as <-.
  pose proof (requiredManagementMemorySize_ok c Hok) as EM. unfold SIZEOF_CHUNK_MANAGEMENT, MemPool.CHUNK_MEMORY_ALIGNMENT in *.
  destruct (align_spec ((csum count_of c + 1) * 4) 8) as [R3 R4]; [lia..|].
  pose proof W as [W1 W2 W3 W4]. destruct (align_spec (Allocator.m_currentPosition ma) 8) as [R1 R2]; [lia..|].
  set (mo := align (Allocator.m_currentPosition ma) 8) in *.
  destruct (addMemPools_building mo [] c ctor ma (Allocator.ctor cs cl))
    as (m & ma1 & ca & E & Hb & S & L); simpl in *; try done; try lia.
  { constructor; simpl; try done; [apply built_nil|constructor; simpl; done || lia|].
    unfold MemPool.CHUNK_MEMORY_ALIGNMENT. fold mo. lia. }
  pose proof (b_ma_pos _ _ _ _ _ Hb) as Hp. unfold MemPool.CHUNK_MEMORY_ALIGNMENT in Hp.
  destruct (generate_ok c m _ ma1 (b_built _ _ _ _ _ Hb) Hok (b_ma _ _ _ _ _ Hb) (b_ma_al _ _ _ _ _ Hb))
    as (m' & ma' & E' & Hv & Z1 & Z2 & W' & S' & L' & P').
  { unfold MemPool.CHUNK_MEMORY_ALIGNMENT. lia. }
  unfold configureMemoryManager. rewrite E. simpl. rewrite E'. simpl. exists m', ma', ca.
  unfold MemPool.CHUNK_MEMORY_ALIGNMENT in *. split_and!; try done; try congruence. lia.
Qed.

Lemma configure_valid c ms ml cs cl R :
  cfg_ok c -> requiredChunkMemorySize c = Done R ->
  0 <= ms -> (MemPool.CHUNK_MEMORY_ALIGNMENT | ms) -> ms + ml <= 2 ^ 47 ->
  0 <= cs -> (MemPool.CHUNK_MEMORY_ALIGNMENT | cs) -> cs + cl <= 2 ^ 47 ->
  requiredManagementMemorySize c <= ml -> R <= cl ->
  exists m ma' ca', configureMemoryManager ctor c (Allocator.ctor ms ml) (Allocator.ctor cs cl)
                    = Done (m, ma', ca') /\ Valid m [] /\
    MemPool.m_chunkSize <$> m_memPoolVector m = (fun e => MePooConfig.m_size e + SIZEOF_CHUNK_HEADER) <$> c /\
    MemPool.m_numberOfChunks <$> m_memPoolVector m = MePooConfig.m_chunkCount <$> c.
Proof.
  intros Hok HR Hms Ams Hml Hcs Acs Hcl HM HC. pose proof (requiredManagementMemorySize_bounds c Hok) as (_ & _ & _ & _ & _ & B & _).
  destruct (configure_from c (Allocator.ctor ms ml) cs cl R) as (m & ma' & ca' & E & Hv & Z1 & Z2 & _); try done.
  { constructor; simpl; done || lia. }
  by exists m, ma', ca'.
Qed.

(** *** One allocator for everything *)

Record building_one (mo : Z) (d : MePooConfig.t) (m : t) (a : Allocator.t) : Prop := {
  bo_built : built d m (Allocator.m_startAddress a + Allocator.m_currentPosition a);
  bo_wf : Allocator.wf a;
  bo_al : (MemPool.CHUNK_MEMORY_ALIGNMENT | Allocator.m_startAddress a);
  bo_pos : align (Allocator.m_currentPosition a) MemPool.CHUNK_MEMORY_ALIGNMENT
           = mo + csum index_bytes_of d + csum bytes_of d }.

Lemma addMemPool_one_building mo d m a e :
  building_one mo d m a -> entry_ok e ->
  (forall x, x ∈ d -> MePooConfig.m_size x < MePooConfig.m_size e) ->
  Forall entry_ok d -> (length d < MePooConfig.MAX_NUMBER_OF_MEMPOOLS)%nat ->
  csum count_of (d ++ [e]) < 2 ^ 32 ->
  mo + csum index_bytes_of (d ++ [e]) + csum bytes_of (d ++ [e]) <= Allocator.m_length a ->
  exists m' a', addMemPool_one m a (MePooConfig.m_size e) (MePooConfig.m_chunkCount e) = Done (m', a') /\
    building_one mo (d ++ [e]) m' a' /\
    Allocator.m_startAddress a' = Allocator.m_startAddress a /\ Allocator.m_length a' = Allocator.m_length a.
Proof.
  intros Hb He Hlt Hd Hlen Htot Hma. pose proof Hb as []. pose proof bo_built0 as [].
  destruct (entry_bounds e He) as (Hc & Hby & Hix & Hix8 & Hby8). pose proof He as [Hs Hm Hc1 Hsmall].
  pose proof (csum_count_nonneg d Hd) as Hcnt. pose proof Htot as Htot0.
  unfold addMemPool_one. unfold MemPool.CHUNK_MEMORY_ALIGNMENT in *. rewrite !(csum_app count_of) in Htot. rewrite !(csum_app index_bytes_of), !(csum_app bytes_of) in Hma.
  cbn [csum foldr] in Htot, Hma. rewrite !Z.add_0_r in *.
  rewrite (proj2 (Z.leb_le 8 _)), (proj2 (Z.leb_le 1 _)) by lia. simpl.
  rewrite sizeWithChunkHeaderStruct_ok by done. simpl. rewrite b_deny0.
  assert (Hlast := last_smaller d _ e b_sizes0 Hlt). pose proof (built_length _ _ _ bo_built0) as Hlen'.
  pose proof bo_wf0 as [W1 W2 W3 W4]. destruct (align_spec (Allocator.m_currentPosition a) 8) as [R1 R2]; [lia..|].
  assert (Eix : index_bytes_of e = align ((MePooConfig.m_chunkCount e + 1) * 4) 8) by done.
  assert (Eby : bytes_of e = MePooConfig.m_chunkCount e * (MePooConfig.m_size e + 40)) by done.
  destruct (align_spec ((MePooConfig.m_chunkCount e + 1) * 4) 8) as [R3 R4]; [lia..|].
  destruct (MemPool_ctor_one_ok (MePooConfig.m_size e + SIZEOF_CHUNK_HEADER) (MePooConfig.m_chunkCount e) a)
    as (p & a' & Ec & Hf & W' & X1 & X2 & X3);
    unfold MemPool.CHUNK_MEMORY_ALIGNMENT, SIZEOF_CHUNK_HEADER, UINT32_MAX in *; try done; try lia.
  { apply Z.divide_add_r; [done|by exists 5]. }
  rewrite (bool_decide_true (_ < _)%nat) by lia.
  exists (with_pool m p), a'. pose proof Hf as (_ & _ & _ & P3 & _). split.
  { unfold with_pool. rewrite P3. destruct (last (m_memPoolVector m)) as [q|]; [rewrite Hlast|]; rewrite Ec; simpl; by rewrite b_deny0. }
  split; [|done]. constructor; [|done|by rewrite X1|].
  - assert (Hbt : built (d ++ [e]) (with_pool m p) (Allocator.m_startAddress a + align (Allocator.m_currentPosition a) 8 + bytes_of e)).
    { eapply built_add; [exact bo_built0|done|done|unfold count_of; lia|lia|exact Hf|lia]. }
    destruct Hbt. constructor; try done. intros q Hq. specialize (b_end1 q Hq). lia.
  - rewrite X3. unfold MemPool.CHUNK_MEMORY_ALIGNMENT.
    rewrite align_shift by (try (apply Z.divide_add_r; [done|by rewrite <- Eby]); lia).
    rewrite !(csum_app index_bytes_of), !(csum_app bytes_of). simpl. lia.
Qed.

Lemma addMemPools_one_building mo d c m a :
  building_one mo d m a -> cfg_ok (d ++ c) ->
  mo + csum index_bytes_of (d ++ c) + csum bytes_of (d ++ c) <= Allocator.m_length a ->
  exists m' a', addMemPools_one c m a = Done (m', a') /\ building_one mo (d ++ c) m' a' /\
    Allocator.m_startAddress a' = Allocator.m_startAddress a /\ Allocator.m_length a' = Allocator.m_length a.
Proof.
  revert d m a. induction c as [|e c IH]; intros d m a Hb Hok Hma; simpl.
  { rewrite app_nil_r. eauto 10. }
  replace (d ++ e :: c) with ((d ++ [e]) ++ c) in * by by rewrite <- app_assoc.
  destruct (cfg_next d e c Hok) as (H1 & H2 & H3 & H4 & H5 & H6 & H7).
  destruct (addMemPool_one_building mo d m a e) as (m1 & a1 & -> & Hb1 & S1 & L1); try done; try lia.
  simpl. destruct (IH (d ++ [e]) m1 a1) as (m' & a' & -> & Hb' & S' & L'); try done; try lia.
  exists m', a'. split; [done|]. split; [done|]. split; congruence.
Qed.

(** The full size suffices for one allocator. *)
Lemma configure_one_valid c a F :
  cfg_ok c -> requiredFullMemorySize c = Done F -> Allocator.wf a ->
  (MemPool.CHUNK_MEMORY_ALIGNMENT | Allocator.m_startAddress a) ->
  align (Allocator.m_currentPosition a) MemPool.CHUNK_MEMORY_ALIGNMENT + F <= Allocator.m_length a ->
  exists m a', configureMemoryManager_one ctor c a = Done (m, a') /\ Valid m [] /\
    MemPool.m_chunkSize <$> m_memPoolVector m = (fun e => MePooConfig.m_size e + SIZEOF_CHUNK_HEADER) <$> c /\
    MemPool.m_numberOfChunks <$> m_memPoolVector m = MePooConfig.m_chunkCount <$> c.
Proof.
  intros Hok HF W A HL. destruct (requiredManagementMemorySize_bounds c Hok) as (B1 & B2 & B3 & B4 & B5 & B6 & B7).
  assert (Hlen : (length c <= 32)%nat) by (pose proof (co_length _ Hok); unfold MePooConfig.MAX_NUMBER_OF_MEMPOOLS in *; lia).
  unfold requiredFullMemorySize in HF. rewrite requiredChunkMemorySize_ok in HF by (done || apply Hok). simpl in HF.
  rewrite u64_small in HF by lia. injection HF as <-.
  pose proof (requiredManagementMemorySize_ok c Hok) as EM. unfold SIZEOF_CHUNK_MANAGEMENT, MemPool.CHUNK_MEMORY_ALIGNMENT in *.
  destruct (align_spec ((csum count_of c + 1) * 4) 8) as [R3 R4]; [lia..|].
  destruct (addMemPools_one_building (align (Allocator.m_currentPosition a) 8) [] c ctor a) as (m & a1 & E & Hb & S & L); simpl in *; try done; try lia.
  { constructor; simpl; try done; [apply built_nil|unfold MemPool.CHUNK_MEMORY_ALIGNMENT; lia]. }
  pose proof (bo_pos _ _ _ _ Hb) as Hp. unfold MemPool.CHUNK_MEMORY_ALIGNMENT in Hp.
  destruct (generate_ok c m _ a1 (bo_built _ _ _ _ Hb) Hok (bo_wf _ _ _ _ Hb) (bo_al _ _ _ _ Hb))
    as (m' & a' & E' & Hv & Z1 & Z2 & _).
  { unfold MemPool.CHUNK_MEMORY_ALIGNMENT. lia. }
  unfold configureMemoryManager_one. rewrite E. simpl. by exists m', a'.
Qed.

(** ** Properties *)

(** The computed memory requirements are sufficient.  For every configuration
    with increasing chunk sizes (multiples of the alignment) and pools of at most
    4 GiB, allocators with exactly [requiredManagementMemorySize] and
    [requiredChunkMemorySize] bytes at aligned addresses let
    [configureMemoryManager] finish: no allocation fails and the manager is
    valid, with one pool per entry and no chunk in use. *)
Theorem configure_correct c ms ml cs cl R :
  cfg_ok c -> requiredChunkMemorySize c = Done R ->
  0 <= ms -> (MemPool.CHUNK_MEMORY_ALIGNMENT | ms) -> ms + ml <= 2 ^ 47 ->
  0 <= cs -> (MemPool.CHUNK_MEMORY_ALIGNMENT | cs) -> cs + cl <= 2 ^ 47 ->
  requiredManagementMemorySize c <= ml -> R <= cl ->
  exists m ma' ca', configureMemoryManager ctor c (Allocator.ctor ms ml) (Allocator.ctor cs cl)
                    = Done (m, ma', ca') /\ Valid m [] /\
    MemPool.m_chunkSize <$> m_memPoolVector m = (fun e => MePooConfig.m_size e + SIZEOF_CHUNK_HEADER) <$> c /\
    MemPool.m_numberOfChunks <$> m_memPoolVector m = MePooConfig.m_chunkCount <$> c.
Proof. apply configure_valid. Qed.

(** The configuration of the witnesses: two pools. *)
Definition small_config : MePooConfig.t := [MePooConfig.mkEntry 64 2; MePooConfig.mkEntry 128 1].

Lemma small_config_ok : cfg_ok small_config.
Proof.
  constructor.
  - unfold small_config. rewrite !Forall_cons.
    split; [|split; [|done]]; constructor;
      unfold MemPool.CHUNK_MEMORY_ALIGNMENT, UINT32_MAX, SIZEOF_CHUNK_HEADER, bytes_of;
      cbn [MePooConfig.m_size MePooConfig.m_chunkCount]; try lia; try (vm_compute; congruence);
      [by exists 8|by exists 16].
  - simpl. by repeat constructor.
  - simpl. unfold MePooConfig.MAX_NUMBER_OF_MEMPOOLS. lia.
  - vm_compute. congruence.
Qed.

Lemma configure_correct_witness :
  exists m ma' ca', configureMemoryManager ctor small_config (Allocator.ctor 4096 224) (Allocator.ctor 8192 376)
                    = Done (m, ma', ca') /\ Valid m [].
Proof.
  destruct (configure_correct small_config 4096 224 8192 376 376) as (m & ma & ca & E & H & _);
    [exact small_config_ok|reflexivity|lia|by exists 512|lia|lia|by exists 1024|lia|vm_compute; congruence|lia|].
  exists m, ma, ca. split; [exact E|exact H].
Defined.

(** C11: [getChunk] on a valid manager is total and exact.  It never reaches the
    constructor's [Ensures], a null management pointer or any other
    termination.  It fails only when there is no pool, no pool with large
    enough chunks, or when the smallest fitting pool is exhausted (larger pools
    are not tried); on success the chunk comes from the smallest fitting pool,
    nobody else holds it, its reference counter is one, its header is laid out
    for the settings, and all chunks held by others are untouched. *)
Theorem getChunk_correct m owners s :
  Valid m owners -> ChunkSettings.valid s ->
  exists r, getChunk m s = Done r /\ getChunk_result m owners s r.
Proof. apply getChunk_total. Qed.

(** Settings for 64 bytes of payload without further requirements. *)
Definition settings64 : ChunkSettings.t := ChunkSettings.mk 64 8 0 1 104.

Lemma settings64_valid : ChunkSettings.valid settings64.
Proof. by apply (ChunkSettings.create_valid 64 8 0 1); [lia..|]. Qed.

Lemma getChunk_correct_witness :
  exists m r, Valid m [] /\ getChunk m settings64 = Done r /\ getChunk_result m [] settings64 r.
Proof.
  destruct (configure_valid small_config 4096 224 8192 376 376) as (m & ma & ca & E & H & _);
    [exact small_config_ok|reflexivity|lia|by exists 512|lia|lia|by exists 1024|lia|vm_compute; congruence|lia|].
  destruct (getChunk_correct m [] settings64 H settings64_valid) as (r & Er & Hr).
  exists m, r. split; [exact H|]. split; [exact Er|exact Hr].
Defined.
End MemoryManager.
