(* ===== verification/RelativePointer.v ===== *)
(** * Relative pointers

    [relative_pointer_data.{hpp,inl,cpp}], [pointer_repository.{hpp,inl}] and
    [base_relative_pointer.cpp]: pointers into shared memory segments that every
    process maps at its own address.  A pointer is stored as the id of the
    segment and the offset inside it; each process resolves it with its own
    repository of segment start addresses. *)

From S2P Require Import Prelude.

(** The packed form: 16 bits of id, 48 bits of offset in one word. *)
Module RelativePointerData.

Definition ID_RANGE : Z := 2 ^ 16 - 1.
Definition NULL_POINTER_ID : Z := ID_RANGE.
Definition MAX_VALID_ID : Z := ID_RANGE - 1.
Definition OFFSET_RANGE : Z := 2 ^ 48 - 1.
Definition NULL_POINTER_OFFSET : Z := OFFSET_RANGE.
Definition MAX_VALID_OFFSET : Z := OFFSET_RANGE - 1.
Definition LOGICAL_NULLPTR : Z :=
  Z.lor (u64 (Z.shiftl NULL_POINTER_OFFSET 16)) NULL_POINTER_ID.

(** [m_idAndOffset] *)
Definition t := Z.

Definition default : t := LOGICAL_NULLPTR.

Definition ctor (id offset : Z) : t :=
  if (MAX_VALID_ID <? id) || (MAX_VALID_OFFSET <? offset) then LOGICAL_NULLPTR
  else Z.lor id (u64 (Z.shiftl offset 16)).

Definition id (d : t) : Z := u16 (Z.land d ID_RANGE).
Definition offset (d : t) : Z := Z.land (Z.shiftr d 16) OFFSET_RANGE.
Definition reset (d : t) : t := LOGICAL_NULLPTR.
Definition isLogicalNullptr (d : t) : bool := d =? LOGICAL_NULLPTR.

Lemma lor_shift i o : 0 <= i < 2 ^ 16 -> 0 <= o -> Z.lor i (Z.shiftl o 16) = i + o * 2 ^ 16.
Proof.
  intros Hi Ho. rewrite Z.shiftl_mul_pow2 by lia. symmetry.
  rewrite <- Z.lxor_lor; [apply Z.add_nocarry_lxor|]; apply Z.bits_inj'; intros n Hn;
    rewrite Z.land_spec, Z.bits_0; destruct (Z.lt_ge_cases n 16);
    [rewrite Z.mul_pow2_bits_low by lia; by rewrite andb_false_r| |
     rewrite Z.mul_pow2_bits_low by lia; by rewrite andb_false_r|];
    (rewrite (Z.bits_above_log2 i n); [done|lia|];
     destruct (decide (i = 0)) as [->|]; [simpl; lia|];
     assert (Z.log2 i < 16) by (apply Z.log2_lt_pow2; lia); lia).
Qed.

Lemma ctor_value i o : 0 <= i <= MAX_VALID_ID -> 0 <= o <= MAX_VALID_OFFSET -> ctor i o = i + o * 2 ^ 16.
Proof.
  unfold ctor, MAX_VALID_ID, MAX_VALID_OFFSET, ID_RANGE, OFFSET_RANGE. intros Hi Ho.
  rewrite (proj2 (Z.ltb_ge _ _)), (proj2 (Z.ltb_ge _ _)) by lia. simpl.
  rewrite u64_small by (rewrite Z.shiftl_mul_pow2; lia). apply lor_shift; lia.
Qed.

Lemma packed i o : 0 <= i <= MAX_VALID_ID -> 0 <= o <= MAX_VALID_OFFSET ->
  id (ctor i o) = i /\ offset (ctor i o) = o /\ isLogicalNullptr (ctor i o) = false.
Proof.
  intros Hi Ho. rewrite ctor_value by lia.
  unfold id, offset, isLogicalNullptr, MAX_VALID_OFFSET, MAX_VALID_ID in *.
  unfold ID_RANGE, OFFSET_RANGE in *. change (2 ^ 16 - 1) with (Z.ones 16).
  change (2 ^ 48 - 1) with (Z.ones 48). rewrite !Z.land_ones, Z.shiftr_div_pow2 by lia.
  rewrite Z.mod_add, Z.div_add by lia. rewrite Z.div_small, (Z.mod_small i) by lia.
  split; [apply Z.mod_small; lia|]. split; [apply Z.mod_small; lia|].
  apply Z.eqb_neq. change LOGICAL_NULLPTR with (2 ^ 64 - 1). lia.
Qed.

(** Every valid segment id and offset survives packing into the 64 bit
    word and is never mistaken for null, and everything outside the valid range
    becomes the null pointer. *)
Theorem relative_pointer_data_roundtrip i o :
  0 <= i < 2 ^ 16 -> 0 <= o < 2 ^ 64 ->
  if decide (i <= MAX_VALID_ID /\ o <= MAX_VALID_OFFSET)
  then id (ctor i o) = i /\ offset (ctor i o) = o /\ isLogicalNullptr (ctor i o) = false
  else isLogicalNullptr (ctor i o) = true.
Proof.
  intros Hi Ho. case_decide as D; [apply packed; lia|]. unfold ctor, isLogicalNullptr.
  destruct (Z.ltb_spec MAX_VALID_ID i), (Z.ltb_spec MAX_VALID_OFFSET o);
    simpl; (apply Z.eqb_refl || lia).
Qed.

Lemma relative_pointer_data_roundtrip_witness :
  id (ctor 3 4096) = 3 /\ offset (ctor 3 4096) = 4096 /\ isLogicalNullptr (ctor 3 4096) = false.
Proof.
  pose proof (relative_pointer_data_roundtrip 3 4096 ltac:(lia) ltac:(lia)) as H.
  rewrite decide_True in H; [exact H|]. vm_compute. split; congruence.
Defined.
End RelativePointerData.

Module PointerRepository.

Record Info := mkInfo { basePtr : Z; endPtr : Z }.

Definition CAPACITY : Z := 10000.
Definition MIN_ID : Z := 1.
Definition MAX_ID : Z := CAPACITY - 1.
Definition INVALID_ID : Z := UINT64_MAX.

(** [m_info] is a vector of [CAPACITY] entries; the map holds the ones that
    were written.  The null pointer is 0. *)
Record t := mk { m_info : gmap Z Info; m_maxRegistered : Z }.

Definition ctor : t := mk ∅ 0.

Definition info (r : t) (i : Z) : Info := default (mkInfo 0 0) (m_info r !! i).

Definition store (r : t) (i ptr size : Z) : t :=
  mk (<[i := mkInfo ptr (u64 (ptr + size - 1))]> (m_info r))
     (if m_maxRegistered r <? i then i else m_maxRegistered r).

Definition registerPtr_id (r : t) (i ptr size : Z) : bool * t :=
  if MAX_ID <? i then (false, r)
  else if basePtr (info r i) =? 0 then (true, store r i ptr size)
  else (false, r).

(** The first unused id is taken. *)
Definition registerPtr (r : t) (ptr size : Z) : Z * t :=
  match list_find (fun i => basePtr (info r i) = 0) (seqZ 1 MAX_ID) with
  | Some (_, i) => (i, store r i ptr size)
  | None => (INVALID_ID, r)
  end.

Definition unregisterPtr (r : t) (i : Z) : bool * t :=
  if (i <=? MAX_ID) && (MIN_ID <=? i) then
    if negb (basePtr (info r i) =? 0)
    then (true, mk (<[i := mkInfo 0 (endPtr (info r i))]> (m_info r)) (m_maxRegistered r))
    else (false, r)
  else (false, r).

Definition unregisterAll (r : t) : t :=
  mk ((fun x => mkInfo 0 (endPtr x)) <$> m_info r) 0.

Definition getBasePtr (r : t) (i : Z) : Z :=
  if (i <=? MAX_ID) && (MIN_ID <=? i) then basePtr (info r i) else 0.

Definition searchId (r : t) (ptr : Z) : Z :=
  match list_find (fun i => basePtr (info r i) <= ptr /\ ptr <= endPtr (info r i))
                  (seqZ 1 (m_maxRegistered r)) with
  | Some (_, i) => i
  | None => 0
  end.

Definition isValid (i : Z) : bool := negb (i =? INVALID_ID).

(** ** Repositories built by registering disjoint segments *)

Record wf (r : t) : Prop := {
  wf_max : 0 <= m_maxRegistered r <= MAX_ID;
  wf_ids : forall i, is_Some (m_info r !! i) -> MIN_ID <= i <= m_maxRegistered r;
  wf_info : forall i x, m_info r !! i = Some x -> 0 < basePtr x <= endPtr x /\ endPtr x < 2 ^ 64;
  wf_disjoint : forall i j x y, i <> j -> m_info r !! i = Some x -> m_info r !! j = Some y ->
      endPtr x < basePtr y \/ endPtr y < basePtr x }.

(** The segment [ptr, ptr + size) overlaps no registered one. *)
Definition free_range (r : t) (ptr size : Z) : Prop :=
  0 < ptr /\ 0 < size /\ ptr + size <= 2 ^ 64 /\
  forall i x, m_info r !! i = Some x -> ptr + size <= basePtr x \/ endPtr x < ptr.

Lemma store_wf r i ptr size :
  wf r -> free_range r ptr size -> MIN_ID <= i <= MAX_ID -> m_info r !! i = None ->
  wf (store r i ptr size).
Proof.
  intros [] (Hp & Hs & He & Hd) Hi Hn. unfold store, MIN_ID in *.
  assert (Hu : u64 (ptr + size - 1) = ptr + size - 1) by (apply u64_small; lia). rewrite Hu.
  assert (Hmax : m_maxRegistered r <= (if m_maxRegistered r <? i then i else m_maxRegistered r) /\
                 i <= (if m_maxRegistered r <? i then i else m_maxRegistered r) <= MAX_ID) by (case_zb; lia).
  constructor; simpl; [lia| | |].
  - intros k [x Hk]. apply lookup_insert_Some in Hk as [[<- _]|[_ Hk]]; [unfold MIN_ID; lia|].
    specialize (wf_ids0 k (mk_is_Some _ _ Hk)). unfold MIN_ID in *. lia.
  - intros k x Hk. apply lookup_insert_Some in Hk as [[<- <-]|[_ Hk]]; [simpl; lia|]. by eapply wf_info0.
  - intros k j x y Hkj Hk Hj.
    apply lookup_insert_Some in Hk as [[<- <-]|[_ Hk]]; apply lookup_insert_Some in Hj as [[<- <-]|[_ Hj]];
      simpl; [done| | |by eapply wf_disjoint0].
    + destruct (Hd _ _ Hj); lia.
    + destruct (Hd _ _ Hk); lia.
Qed.

Lemma wf_unused r i : wf r -> basePtr (info r i) = 0 -> m_info r !! i = None.
Proof.
  intros [] H. destruct (m_info r !! i) as [x|] eqn:E; [|done]. unfold info in H. rewrite E in H. simpl in H.
  destruct (wf_info0 i x E). lia.
Qed.

Lemma registerPtr_id_wf r i ptr size :
  wf r -> free_range r ptr size -> MIN_ID <= i -> wf (snd (registerPtr_id r i ptr size)).
Proof.
  intros Hw Hf Hi. unfold registerPtr_id. case_zb; [done|]. destruct (Z.eqb_spec (basePtr (info r i)) 0); [|done].
  simpl. apply store_wf; try done. by apply wf_unused.
Qed.

(** The lookup finds the one segment that contains the address. *)
Lemma searchId_inside r i x ptr :
  wf r -> m_info r !! i = Some x -> basePtr x <= ptr <= endPtr x -> searchId r ptr = i.
Proof.
  intros Hw Hx Hp. pose proof Hw as []. unfold searchId.
  destruct (list_find _ _) as [[n k]|] eqn:E.
  - apply list_find_Some in E as (_ & Hk & _). unfold info in Hk.
    destruct (decide (k = i)) as [|Hne]; [done|].
    destruct (m_info r !! k) as [y|] eqn:Ey; simpl in Hk.
    + destruct (wf_disjoint0 k i y x Hne Ey Hx); lia.
    + destruct (wf_info0 i x Hx). lia.
  - rewrite list_find_None, Forall_forall in E. exfalso. apply (E i).
    + apply elem_of_seqZ. specialize (wf_ids0 i (mk_is_Some _ _ Hx)). unfold MIN_ID in *. lia.
    + unfold info. by rewrite Hx.
Qed.
End PointerRepository.

Module BaseRelativePointer.
Import PointerRepository.

Definition NULL_POINTER_ID : Z := UINT64_MAX.
Definition NULL_POINTER_OFFSET : Z := UINT64_MAX.

Record t := mk { m_id : Z; m_offset : Z }.

Definition default : t := mk NULL_POINTER_ID NULL_POINTER_OFFSET.

(** The static functions, with the repository of the calling process. *)
Definition searchId (r : PointerRepository.t) (ptr : Z) : Z :=
  if ptr =? 0 then NULL_POINTER_ID else PointerRepository.searchId r ptr.

Definition getOffset (r : PointerRepository.t) (i ptr : Z) : Z :=
  if i =? NULL_POINTER_ID then NULL_POINTER_OFFSET else u64 (ptr - getBasePtr r i).

Definition getPtr (r : PointerRepository.t) (i offset : Z) : Z :=
  if offset =? NULL_POINTER_OFFSET then 0 else u64 (offset + getBasePtr r i).

(** [BaseRelativePointer(ptr_t ptr)] and the assignment of a raw pointer. *)
Definition of_ptr (r : PointerRepository.t) (ptr : Z) : t :=
  let i := searchId r ptr in mk i (getOffset r i ptr).

Definition of_offset (offset i : Z) : t := mk i offset.

Definition get (r : PointerRepository.t) (p : t) : Z := getPtr r (m_id p) (m_offset p).

Lemma getBasePtr_registered r i x : wf r -> m_info r !! i = Some x -> getBasePtr r i = basePtr x.
Proof.
  intros Hw Hx. pose proof (wf_ids _ Hw i (mk_is_Some _ _ Hx)) as Hi. pose proof (wf_max _ Hw).
  unfold getBasePtr. rewrite (proj2 (Z.leb_le _ _)), (proj2 (Z.leb_le _ _)) by lia. simpl.
  unfold info. by rewrite Hx.
Qed.

(** C25: a relative pointer made in one process denotes the same byte of the
    segment in every other process that mapped the segment under the same id,
    wherever it is mapped; the null pointer stays null. *)
Theorem relative_pointer_transfer r1 r2 i x y ptr :
  wf r1 -> wf r2 -> m_info r1 !! i = Some x -> m_info r2 !! i = Some y ->
  endPtr x - basePtr x = endPtr y - basePtr y -> basePtr x <= ptr <= endPtr x ->
  get r2 (of_ptr r1 ptr) = basePtr y + (ptr - basePtr x) /\ m_id (of_ptr r1 ptr) = i /\
  get r2 (of_ptr r1 0) = 0.
Proof.
  intros W1 W2 Hx Hy Hsz Hp. unfold of_ptr, get, searchId. simpl.
  destruct (wf_info _ W1 i x Hx) as [B1 B2]. destruct (wf_info _ W2 i y Hy) as [B3 B4].
  rewrite (proj2 (Z.eqb_neq ptr 0)) by lia. rewrite (searchId_inside r1 i x) by done.
  unfold getOffset, getPtr. rewrite !(getBasePtr_registered r1 i x), (getBasePtr_registered r2 i y) by done.
  pose proof (wf_ids _ W1 i (mk_is_Some _ _ Hx)) as Hi. pose proof (wf_max _ W1).
  unfold NULL_POINTER_ID, NULL_POINTER_OFFSET, UINT64_MAX, MAX_ID, CAPACITY in *.
  rewrite (proj2 (Z.eqb_neq i _)) by lia. rewrite (u64_small (ptr - basePtr x)) by lia.
  rewrite (proj2 (Z.eqb_neq (ptr - basePtr x) _)) by lia. rewrite u64_small by lia.
  split; [lia|]. done.
Qed.

(** Two processes that map segment 1 at different addresses. *)
Definition process_a : PointerRepository.t := snd (registerPtr_id ctor 1 4096 64).
Definition process_b : PointerRepository.t := snd (registerPtr_id ctor 1 65536 64).

Lemma ctor_wf : wf ctor.
Proof.
  constructor; simpl; [unfold MAX_ID, CAPACITY; lia| |intros i x Hx; by rewrite lookup_empty in Hx|].
  - intros i [x Hx]. by rewrite lookup_empty in Hx.
  - intros i j x y _ Hx. by rewrite lookup_empty in Hx.
Qed.

Lemma one_segment_wf ptr size :
  0 < ptr -> 0 < size -> ptr + size <= 2 ^ 64 -> wf (snd (registerPtr_id ctor 1 ptr size)).
Proof.
  intros Hp Hs He. apply registerPtr_id_wf; [apply ctor_wf| |unfold MIN_ID; lia].
  split_and!; [done..|]. intros i x Hx. simpl in Hx. by rewrite lookup_empty in Hx.
Qed.

Lemma relative_pointer_transfer_witness : get process_b (of_ptr process_a 4100) = 65540.
Proof.
  destruct (relative_pointer_transfer process_a process_b 1 (mkInfo 4096 4159) (mkInfo 65536 65599) 4100)
    as [H _]; [apply one_segment_wf; lia|apply one_segment_wf; lia|reflexivity|reflexivity|reflexivity|simpl; lia|].
  exact H.
Defined.

(** Segment 1 lies above segment 2 in the address space and is unregistered. *)
Definition stale_end : PointerRepository.t :=
  snd (unregisterPtr (snd (registerPtr_id (snd (registerPtr_id ctor 1 65536 64)) 2 4096 64)) 1).

(** [unregisterPtr] resets the start of a segment but not its end, so
    the lookup takes the unregistered entry for a segment that starts at null:
    an address inside the registered segment 2 is resolved to the unregistered
    id 1, and the relative pointer made from it is wrong in a process that maps
    segment 2 elsewhere. *)
Theorem unregister_leaves_end :
  m_info stale_end !! 2 = Some (mkInfo 4096 4159) /\
  PointerRepository.searchId stale_end 4100 = 1 /\
  of_ptr stale_end 4100 = mk 1 4100 /\
  get (snd (registerPtr_id ctor 2 8192 64)) (of_ptr stale_end 4100) = 4100.
Proof. repeat split; reflexivity. Qed.
End BaseRelativePointer.
