(* ===== verification/SharedChunk.v ===== *)
(** * Reference counted chunks

    [shared_chunk.cpp] and [shm_safe_unmanaged_chunk.cpp] over the memory of
    all segments.  A handle names a [ChunkManagement]: the segment and the
    address in it.  [Balanced h owners] is the invariant of the whole memory:
    the reference counter of every chunk in use equals the number of handles
    that refer to it, and chunks nobody refers to are free. *)

From stdpp Require Import sorting.
From S2P Require Import Prelude Helplets Loffli ChunkHeader MemPool MemoryManager RelativePointer.

(** The memory segments, one manager each, and the errors reported with a level
    that lets the program continue. *)
Record Heap := mkHeap { segs : list MemoryManager.t; errors : list (Error * ErrorLevel) }.

Definition report (e : Error) (l : ErrorLevel) (h : Heap) : Heap :=
  mkHeap (segs h) (errors h ++ [(e, l)]).

Definition set_seg (s : nat) (m : MemoryManager.t) (h : Heap) : Heap :=
  mkHeap (<[s := m]> (segs h)) (errors h).

Notation handle := (nat * Z)%type.

(** Using a pointer into segment [s]. *)
Definition with_seg {A} (h : Heap) (s : nat) (f : MemoryManager.t -> outcome (A * MemoryManager.t))
    : outcome (A * Heap) :=
  match segs h !! s with
  | Some m => let* '(x, m) := f m in Done (x, set_seg s m h)
  | None => Terminated UNDEFINED_BEHAVIOUR
  end.

Module SharedChunk.

(** [m_chunkManagement], [None] is null. *)
Notation t := (option handle).

Definition add_reference (a : Z) (m : MemoryManager.t) : outcome (unit * MemoryManager.t) :=
  match MemoryManager.mgmts m !! a with
  | Some c => Done ((), MemoryManager.set_mgmt a
                          (set_referenceCounter (u64 (m_referenceCounter c + 1)) c) m)
  | None => Terminated UNDEFINED_BEHAVIOUR
  end.

Definition incrementReferenceCounter (this : t) (h : Heap) : outcome Heap :=
  match this with
  | None => Done h
  | Some (s, a) => let* '(_, h) := with_seg h s (add_reference a) in Done h
  end.

(** [freeChunk]: the pools are the ones the management struct points to. *)
Definition freeChunk (a : Z) (m : MemoryManager.t) : outcome MemoryManager.t :=
  match MemoryManager.mgmts m !! a with
  | Some c =>
      let* m := MemoryManager.freeChunk m (m_mempool c) (m_chunkHeader c) in
      MemoryManager.freeChunk m (m_chunkManagementPool c) a
  | None => Terminated UNDEFINED_BEHAVIOUR
  end.

(** [fetch_sub] returns the old value; the last owner frees.  The flag tells
    whether the chunk was freed. *)
Definition drop_reference (a : Z) (m : MemoryManager.t) : outcome (bool * MemoryManager.t) :=
  match MemoryManager.mgmts m !! a with
  | Some c =>
      let old := m_referenceCounter c in
      let m := MemoryManager.set_mgmt a (set_referenceCounter (u64 (old - 1)) c) m in
      if old =? 1 then let* m := freeChunk a m in Done (true, m) else Done (false, m)
  | None => Terminated UNDEFINED_BEHAVIOUR
  end.

(** [decrementReferenceCounter]: the handle afterwards (null if the chunk was
    freed) and the memory. *)
Definition decrementReferenceCounter (this : t) (h : Heap) : outcome (t * Heap) :=
  match this with
  | None => Done (None, h)
  | Some (s, a) =>
      let* '(freed, h) := with_seg h s (drop_reference a) in
      Done ((if freed then None else this), h)
  end.

(** The destructor. *)
Definition dtor (this : t) (h : Heap) : outcome Heap :=
  let* '(_, h) := decrementReferenceCounter this h in Done h.

(** [operator=(const SharedChunk&)] for two different objects. *)
Definition assign_copy (this rhs : t) (h : Heap) : outcome (t * Heap) :=
  let* '(_, h) := decrementReferenceCounter this h in
  let this := rhs in
  let* h := incrementReferenceCounter this h in
  Done (this, h).

(** [operator=(SharedChunk&&)] for two different objects: the new value of the
    object and of the moved-from one. *)
Definition assign_move (this rhs : t) (h : Heap) : outcome (t * t * Heap) :=
  let* '(_, h) := decrementReferenceCounter this h in
  Done (rhs, None, h).

(** The copy and move constructors assign to a null object. *)
Definition copy (rhs : t) (h : Heap) : outcome (t * Heap) := assign_copy None rhs h.
Definition move (rhs : t) (h : Heap) : outcome (t * t * Heap) := assign_move None rhs h.

(** [getChunkHeader] as an address, with the segment it lies in. *)
Definition getChunkHeader (this : t) (h : Heap) : option handle :=
  match this with
  | None => None
  | Some (s, a) => m ← segs h !! s; x ← MemoryManager.header_address m a; Some (s, x)
  end.

(** [getUserPayload] *)
Definition getUserPayload (this : t) (h : Heap) : option handle :=
  match this with
  | None => None
  | Some (s, a) =>
      m ← segs h !! s; x ← MemoryManager.header_address m a; hd ← MemoryManager.header_of m a;
      Some (s, ChunkHeader.userPayload x hd)
  end.

(** [operator==] for two chunks. *)
Definition eqb (this rhs : t) : bool := bool_decide (this = rhs).

(** [operator==(const void*const)] compares the user-payload pointers. *)
Definition eqb_ptr (this : t) (rhs : option handle) (h : Heap) : bool :=
  bool_decide (getUserPayload this h = rhs).

Definition operator_bool (this : t) : bool := bool_decide (this <> None).

(** [release]: gives up the reference without decrementing. *)
Definition release (this : t) : option handle * t := (this, None).

End SharedChunk.

Module ShmSafeUnmanagedChunk.

(** [m_chunkManagement]: the packed segment id and offset. *)
Definition t := RelativePointerData.t.

Definition null : t := RelativePointerData.default.

Definition isLogicalNullptr (this : t) : bool := RelativePointerData.isLogicalNullptr this.

(** The pointer a packed value stands for. *)
Definition pointer (this : t) : handle :=
  (Z.to_nat (RelativePointerData.id this), RelativePointerData.offset this).

(** The constructor takes over the reference of its by-value argument, which
    is null when it is destroyed at the end. *)
Definition ctor (chunk : SharedChunk.t) : outcome t :=
  match chunk with
  | None => Done null
  | Some (s, a) =>
      expects (Z.of_nat s <=? RelativePointerData.ID_RANGE)
      (expects (a <=? RelativePointerData.OFFSET_RANGE)
      (Done (RelativePointerData.ctor (u16 (Z.of_nat s)) a)))
  end.

Definition releaseToSharedChunk (this : t) : SharedChunk.t * t :=
  if isLogicalNullptr this then (None, this)
  else (Some (pointer this), RelativePointerData.reset this).

Definition cloneToSharedChunk (this : t) (h : Heap) : outcome (SharedChunk.t * Heap) :=
  if isLogicalNullptr this then Done (None, h)
  else
    let* '(_, h) := with_seg h (fst (pointer this)) (SharedChunk.add_reference (snd (pointer this))) in
    Done (Some (pointer this), h).

Definition getChunkHeader (this : t) (h : Heap) : option handle :=
  if isLogicalNullptr this then None else SharedChunk.getChunkHeader (Some (pointer this)) h.

Definition isNotLogicalNullptrAndHasNoOtherOwners (this : t) (h : Heap) : bool :=
  if isLogicalNullptr this then false
  else
    match segs h !! fst (pointer this) with
    | Some m =>
        match MemoryManager.mgmts m !! snd (pointer this) with
        | Some c => m_referenceCounter c =? 1
        | None => false
        end
    | None => false
    end.
End ShmSafeUnmanagedChunk.

(** ** One manager: adding and dropping references *)

Section references.
Import MemoryManager.

(** Changing only the reference counter of [a]. *)
Lemma live_counter m fls o o' a c k p fl j h b rc :
  live m fls o b c k p fl j h ->
  (b <> a -> count b o' = count b o) ->
  (b = a -> rc = count a o' /\ 1 <= rc < 2 ^ 64) ->
  exists c', live (set_mgmt a (set_referenceCounter rc (default c (mgmts m !! a))) m) fls o' b c' k p fl j h /\
    m_chunkHeader c' = m_chunkHeader c.
Proof.
  intros [] Hne Heq. destruct (decide (b = a)) as [->|Hba].
  - destruct (Heq eq_refl) as [-> Hr]. rewrite lv_mgmt0. simpl.
    exists (set_referenceCounter (count a o') c). split; [|done].
    constructor; simpl; try done. apply lookup_insert_eq.
  - exists c. split; [|done]. constructor; simpl; try done.
    + by rewrite lookup_insert_ne.
    + by rewrite Hne.
Qed.

(** All uses of the counter alone: the owners of [a] change in number, the ones
    of other chunks do not. *)
Lemma counter_inv m fls mp mfl o o' a c :
  Inv m fls mp mfl o -> a ∈ o -> mgmts m !! a = Some c ->
  (forall b, b <> a -> count b o' = count b o) -> (forall b, b ∈ o' -> b ∈ o) ->
  1 <= count a o' < 2 ^ 64 ->
  Inv (set_mgmt a (set_referenceCounter (count a o') c) m) fls mp mfl o'.
Proof.
  intros Hinv Ha Hc Hne Hsub Hr. pose proof Hinv as [].
  assert (Hd : default c (mgmts m !! a) = c) by by rewrite Hc.
  constructor; simpl; try done.
  - intros i Hi Hn. destruct (inv_live0 i Hi Hn) as (c0 & k & p & fl & j & h & Hl).
    destruct (live_counter m fls o o' a c0 k p fl j h _ (count a o') Hl) as (c' & Hl' & _).
    { intros Hb. by apply Hne. } { done. }
    rewrite Hc in Hl'. simpl in Hl'. eauto 10.
  - intros b Hb. by apply inv_owned0, Hsub.
  - intros i1 i2 c1 c2 H1 N1 H2 N2 L1 L2 E.
    apply lookup_insert_Some in L1 as [[E1 <-]|[_ L1]]; apply lookup_insert_Some in L2 as [[E2 <-]|[_ L2]];
      simpl in E.
    + apply (inv_inj0 i1 i2 c c); congruence.
    + apply (inv_inj0 i1 i2 c c2); congruence.
    + apply (inv_inj0 i1 i2 c1 c); congruence.
    + by apply (inv_inj0 i1 i2 c1 c2).
Qed.

Lemma counter_same_chunks m o a c rc :
  mgmts m !! a = Some c -> same_chunks o m (set_mgmt a (set_referenceCounter rc c) m).
Proof.
  intros Hc b _. unfold header_of, header_address. simpl.
  destruct (decide (a = b)) as [<-|]; [rewrite lookup_insert_eq, Hc|rewrite lookup_insert_ne by done]; done.
Qed.

(** An owned chunk is in use. *)
Lemma owned_live m fls mp mfl o a :
  Inv m fls mp mfl o -> a ∈ o ->
  exists i c k p fl j h, a = MemPool.chunk_at mp i /\ 0 <= i < MemPool.m_numberOfChunks mp /\ i ∉ mfl /\
    live m fls o a c k p fl j h.
Proof.
  intros Hinv Ha. destruct (inv_owned _ _ _ _ _ Hinv a Ha) as (i & Hi & Hn & ->).
  destruct (inv_live _ _ _ _ _ Hinv i Hi Hn) as (c & k & p & fl & j & h & Hl). eauto 15.
Qed.

Lemma add_reference_valid m o a :
  Valid m o -> a ∈ o -> Z.of_nat (length o) + 1 < 2 ^ 64 ->
  exists m', SharedChunk.add_reference a m = Done ((), m') /\ Valid m' (a :: o) /\ same_chunks o m m'.
Proof.
  intros (fls & mp & mfl & Hinv) Ha Hlen.
  destruct (owned_live _ _ _ _ _ _ Hinv Ha) as (i & c & k & p & fl & j & h & -> & Hi & Hn & Hl).
  unfold SharedChunk.add_reference. rewrite (lv_mgmt _ _ _ _ _ _ _ _ _ _ Hl).
  set (a := MemPool.chunk_at mp i) in *.
  pose proof (count_length a o). pose proof (count_nonneg a o).
  rewrite (lv_count _ _ _ _ _ _ _ _ _ _ Hl).
  replace (u64 (count a o + 1)) with (count a (a :: o))
    by (rewrite count_cons, decide_True by done; rewrite u64_small; lia).
  eexists. split; [done|]. split; [|by apply counter_same_chunks, Hl].
  exists fls, mp, mfl. apply counter_inv with o; try done.
  - apply Hl.
  - intros b Hb. rewrite count_cons, decide_False by done. lia.
  - intros b [->|Hb]%elem_of_cons; done.
  - rewrite count_cons, decide_True by done. lia.
Qed.

(** *** The last reference *)

Section last.
Context (m : t) (fls : list (list Z)) (mp : MemPool.t) (mfl : list Z) (i : Z) (o : list Z).
Let a := MemPool.chunk_at mp i.
Context (Hinv : Inv m fls mp mfl (a :: o)) (Ha : a ∉ o).
Context (Hi : 0 <= i < MemPool.m_numberOfChunks mp) (Hn : i ∉ mfl).
Context (c : ChunkManagement) (k : nat) (p : MemPool.t) (fl : list Z) (j : Z) (h : ChunkHeader.t).
Context (Hl : live m fls (a :: o) a c k p fl j h).
Context (p' mp' : MemPool.t) (Wp' : MemPool.wf p' (j :: fl)) (Hs : MemPool.same_shape p p').
Context (Hu : MemPool.m_usedChunks p' = MemPool.m_usedChunks p - 1).
Context (Wm' : MemPool.wf mp' (i :: mfl)) (Hms : MemPool.same_shape mp mp').
Context (Hmu : MemPool.m_usedChunks mp' = MemPool.m_usedChunks mp - 1).

Let m' := set_managementPool [mp'] (set_pools (<[k := p']> (m_memPoolVector m))
            (set_mgmt a (set_referenceCounter 0 c) m)).

Lemma other_address i0 : i0 <> i -> MemPool.chunk_at mp i0 <> a.
Proof. intros Hne E. apply Hne. eapply MemPool.chunk_at_inj, E. apply Hinv. Qed.

Lemma last_live_other i0 :
  0 <= i0 < MemPool.m_numberOfChunks mp -> i0 ∉ i :: mfl ->
  exists c0 k0 p0 fl0 j0 h0,
    live m' (<[k := j :: fl]> fls) o (MemPool.chunk_at mp i0) c0 k0 p0 fl0 j0 h0 /\
    mgmts m !! MemPool.chunk_at mp i0 = Some c0.
Proof.
  intros H0 [Hne Hn0]%not_elem_of_cons. pose proof (other_address i0 Hne) as Hadr.
  destruct (inv_live _ _ _ _ _ Hinv i0 H0 Hn0) as (c0 & k0 & p0 & fl0 & j0 & h0 & Hl0).
  destruct (live_update _ _ _ _ _ _ _ _ _ _ k p p' (j :: fl) Hl0) as (p2 & fl2 & Hl2); [apply Hl|done| |].
  { intros ->. apply not_elem_of_cons. split.
    - intros ->. apply Hne. apply (inv_inj _ _ _ _ _ Hinv i0 i c0 c); try done; [apply Hl0|apply Hl|].
      rewrite (lv_addr _ _ _ _ _ _ _ _ _ _ Hl0), (lv_addr _ _ _ _ _ _ _ _ _ _ Hl).
      assert (p0 = p) as ->; [|done].
      pose proof (lv_pool _ _ _ _ _ _ _ _ _ _ Hl0). pose proof (lv_pool _ _ _ _ _ _ _ _ _ _ Hl). congruence.
    - assert (fl0 = fl) as <-; [|apply Hl0].
      pose proof (lv_fl _ _ _ _ _ _ _ _ _ _ Hl0). pose proof (lv_fl _ _ _ _ _ _ _ _ _ _ Hl). congruence. }
  exists c0, k0, p2, fl2, j0, h0. split; [|apply Hl0]. destruct Hl2. constructor; try done; simpl in *.
  - by rewrite lookup_insert_ne.
  - rewrite lv_count0, count_cons, decide_False by done. lia.
Qed.

Lemma last_inv : Inv m' (<[k := j :: fl]> fls) mp' (i :: mfl) o.
Proof.
  pose proof Hms as (Hm1 & Hm2 & Hm3). pose proof Hs as (Hs1 & Hs2 & Hs3).
  pose proof (lv_pool _ _ _ _ _ _ _ _ _ _ Hl) as Hk.
  pose proof Hinv as []. constructor; simpl; try done.
  - by apply Forall2_wf_insert.
  - by rewrite (shape_fmap_insert _ _ _ p).
  - by apply before_insert with p.
  - rewrite (sum_insert _ _ _ p) by done. rewrite <- Hm3. lia.
  - rewrite (sum_insert _ _ _ p) by done. lia.
  - intros i0 H0 Hn0. rewrite <- (MemPool.chunk_at_shape mp) by done. rewrite <- Hm3 in H0.
    destruct (last_live_other i0 H0 Hn0) as (c0 & k0 & p0 & fl0 & j0 & h0 & ? & _). eauto 10.
  - intros b Hb. destruct (inv_owned0 b) as (i0 & H0 & Hn0 & ->); [by right|].
    exists i0. rewrite <- Hm3. split; [done|]. split; [|by apply MemPool.chunk_at_shape].
    apply not_elem_of_cons. split; [|done]. intros ->. done.
  - intros i1 i2 c1 c2. rewrite <- Hm3, <- !(MemPool.chunk_at_shape mp mp') by done.
    intros H1 [Ne1 N1]%not_elem_of_cons H2 [Ne2 N2]%not_elem_of_cons L1 L2 E.
    rewrite lookup_insert_ne in L1 by (apply not_eq_sym, other_address, Ne1).
    rewrite lookup_insert_ne in L2 by (apply not_eq_sym, other_address, Ne2).
    by apply (inv_inj0 i1 i2 c1 c2).
Qed.

Lemma last_same_chunks : same_chunks o m m'.
Proof. intros b Hb. by apply (counter_same_chunks m o a c 0), Hb; apply Hl. Qed.
End last.

Lemma count_last a (o : list Z) : count a (a :: o) = 1 -> a ∉ o.
Proof. rewrite count_cons, decide_True by done. intros H Hin%count_pos. lia. Qed.

Lemma drop_reference_valid m o a :
  Valid m (a :: o) ->
  exists freed m', SharedChunk.drop_reference a m = Done (freed, m') /\ Valid m' o /\ same_chunks o m m' /\
    (freed = true <-> a ∉ o).
Proof.
  intros (fls & mp & mfl & Hinv).
  destruct (owned_live _ _ _ _ _ a Hinv) as (i & c & k & p & fl & j & h & Ea & Hi & Hn & Hl); [by left|].
  unfold SharedChunk.drop_reference. rewrite (lv_mgmt _ _ _ _ _ _ _ _ _ _ Hl).
  pose proof (lv_pos _ _ _ _ _ _ _ _ _ _ Hl) as Hpos. rewrite (lv_count _ _ _ _ _ _ _ _ _ _ Hl) in *.
  rewrite u64_small by lia. destruct (Z.eqb_spec (count a (a :: o)) 1) as [E|E].
  - pose proof (count_last a o E) as Hno. rewrite E. change (1 - 1) with 0.
    destruct (MemPool.freeChunk_taken p fl j) as (p' & Ep & Wp' & Sp & Up).
    { pose proof (inv_pools _ _ _ _ _ Hinv) as HF. eapply Forall2_lookup_lr; [exact HF|apply Hl|apply Hl]. }
    { apply Hl. } { apply Hl. }
    destruct (MemPool.freeChunk_taken mp mfl i) as (mp' & Em & Wm' & Sm & Um); [apply Hinv|done|done|].
    unfold SharedChunk.freeChunk. simpl. rewrite lookup_insert_eq. simpl.
    rewrite (lv_ref _ _ _ _ _ _ _ _ _ _ Hl), (lv_mref _ _ _ _ _ _ _ _ _ _ Hl). unfold MemoryManager.freeChunk. simpl.
    rewrite (lv_pool _ _ _ _ _ _ _ _ _ _ Hl), (lv_addr _ _ _ _ _ _ _ _ _ _ Hl), Ep. simpl.
    rewrite (inv_mgmt _ _ _ _ _ Hinv), Ea, Em. simpl. eexists true, _. split; [done|]. subst a.
    split; [|split; [by eapply last_same_chunks|done]].
    exists (<[k := j :: fl]> fls), mp', (i :: mfl). by eapply last_inv.
  - eexists false, _. split; [done|]. rewrite count_cons, decide_True in * by done.
    pose proof (count_nonneg a o).
    assert (Hin : a ∈ o) by (destruct (decide (a ∈ o)) as [|Hno]; [done|]; rewrite (count_zero a o Hno) in E; lia).
    replace (1 + count a o - 1) with (count a o) by lia.
    split; [|split; [by apply counter_same_chunks, Hl|done]].
    exists fls, mp, mfl. apply counter_inv with (a :: o); try done.
    + by left.
    + apply Hl.
    + intros b Hb. by rewrite count_cons, decide_False by done.
    + intros b Hb. by right.
    + split; [by apply count_pos|lia].
Qed.
End references.

(** ** The whole memory *)

Definition MAX_SHM_SEGMENTS : Z := 100.

(** The handles into segment [s]. *)
Definition in_seg (s : nat) (l : list handle) : list Z := snd <$> filter (fun x => fst x = s) l.

#[global] Instance in_seg_proper s : Proper ((≡ₚ) ==> (≡ₚ)) (in_seg s).
Proof. intros l k E. unfold in_seg. by rewrite E. Qed.

Lemma in_seg_cons s x l :
  in_seg s (x :: l) = if decide (fst x = s) then snd x :: in_seg s l else in_seg s l.
Proof. unfold in_seg. rewrite filter_cons. by case_decide. Qed.

Lemma elem_of_in_seg s a l : a ∈ in_seg s l <-> (s, a) ∈ l.
Proof.
  unfold in_seg. rewrite list_elem_of_fmap. split.
  - intros ([s' a'] & -> & Hin). apply list_elem_of_filter in Hin as [Hs Hin]. simpl in *. by subst.
  - intros H. exists (s, a). split; [done|]. by apply list_elem_of_filter.
Qed.

Lemma length_in_seg s l : (length (in_seg s l) <= length l)%nat.
Proof. unfold in_seg. rewrite length_fmap. apply length_filter. Qed.

(** Every reference counter equals the number of handles in [owners], and what
    has no handle is free. *)
Record Balanced (h : Heap) (owners : list handle) : Prop := {
  bal_valid : forall s m, segs h !! s = Some m -> MemoryManager.Valid m (in_seg s owners);
  bal_owned : forall x, x ∈ owners -> is_Some (segs h !! fst x);
  bal_segs : Z.of_nat (length (segs h)) <= MAX_SHM_SEGMENTS }.

#[global] Instance Balanced_proper h : Proper ((≡ₚ) ==> iff) (Balanced h).
Proof.
  assert (Himp : forall o1 o2, o1 ≡ₚ o2 -> Balanced h o1 -> Balanced h o2).
  { intros o1 o2 E []. constructor; [|intros x; rewrite <- E; apply bal_owned0|done].
    intros s m Hm. rewrite <- E. by apply bal_valid0. }
  intros o1 o2 E. split; apply Himp; [done|by symmetry].
Qed.

(** The header a handle leads to. *)
Definition chunk_view (h : Heap) (x : handle) : option (Z * ChunkHeader.t) :=
  m ← segs h !! fst x; a ← MemoryManager.header_address m (snd x);
  hd ← MemoryManager.header_of m (snd x); Some (a, hd).

(** The chunks behind [owners] keep their place and header. *)
Definition same_view (owners : list handle) (h h' : Heap) : Prop :=
  length (segs h') = length (segs h) /\
  forall x, x ∈ owners -> chunk_view h' x = chunk_view h x.

Lemma same_view_refl o h : same_view o h h.
Proof. done. Qed.

Lemma same_view_trans o h1 h2 h3 : same_view o h1 h2 -> same_view o h2 h3 -> same_view o h1 h3.
Proof. intros [L1 H1] [L2 H2]. split; [congruence|]. intros x Hx. by rewrite (H2 x Hx), (H1 x Hx). Qed.

Lemma same_view_subset o1 o2 h h' : o2 ⊆ o1 -> same_view o1 h h' -> same_view o2 h h'.
Proof. intros Hs [L H]. split; [done|]. intros x Hx. by apply H, Hs. Qed.

Lemma set_seg_balanced h s m m' o o' :
  Balanced h o -> segs h !! s = Some m -> MemoryManager.Valid m' (in_seg s o') ->
  (forall s', s' <> s -> in_seg s' o' = in_seg s' o) -> Balanced (set_seg s m' h) o'.
Proof.
  intros [] Hm Hv Hne. constructor; simpl; [| |by rewrite length_insert].
  - intros s' m0 H0. apply list_lookup_insert_Some in H0 as [(<- & <- & _)|[Hs H0]]; [done|].
    rewrite Hne by done. by apply bal_valid0.
  - intros [s' a] Hx. simpl. apply lookup_lt_is_Some. rewrite length_insert. apply lookup_lt_is_Some.
    destruct (decide (s' = s)) as [->|Hs]; [by exists m|].
    apply (bal_owned0 (s', a)). apply elem_of_in_seg. rewrite <- Hne by done. by apply elem_of_in_seg.
Qed.

Lemma set_seg_view h s m m' o :
  segs h !! s = Some m -> MemoryManager.same_chunks (in_seg s o) m m' -> same_view o h (set_seg s m' h).
Proof.
  intros Hm Hs. split; [simpl; apply length_insert|]. intros [s' a] Hx. unfold chunk_view. simpl.
  destruct (decide (s = s')) as [<-|Hne]; [|by rewrite list_lookup_insert_ne].
  rewrite list_lookup_insert_eq by (by eapply lookup_lt_Some). rewrite Hm. simpl.
  destruct (Hs a) as [-> ->]; [by apply elem_of_in_seg|]. done.
Qed.

Lemma in_seg_cons_other s s' a l : s' <> s -> in_seg s' ((s, a) :: l) = in_seg s' l.
Proof. intros H. rewrite in_seg_cons, decide_False; [done|]. simpl. congruence. Qed.

Lemma in_seg_cons_same s a l : in_seg s ((s, a) :: l) = a :: in_seg s l.
Proof. rewrite in_seg_cons, decide_True; done. Qed.

(** *** Handles *)

Definition handles (c : SharedChunk.t) : list handle := option_list c.

Definition shm_handles (c : ShmSafeUnmanagedChunk.t) : list handle :=
  if ShmSafeUnmanagedChunk.isLogicalNullptr c then [] else [ShmSafeUnmanagedChunk.pointer c].

(** Room for [k] more references. *)
Definition headroom (o : list handle) (k : Z) : Prop := Z.of_nat (length o) + k < 2 ^ 64.

Lemma increment_ok h o x :
  Balanced h o -> x ∈ o -> headroom o 1 ->
  exists h', SharedChunk.incrementReferenceCounter (Some x) h = Done h' /\ Balanced h' (x :: o) /\
    same_view o h h' /\ errors h' = errors h.
Proof.
  destruct x as [s a]. intros Hb Hx Hh. destruct (bal_owned _ _ Hb _ Hx) as [m Hm]. simpl in Hm.
  destruct (add_reference_valid m (in_seg s o) a) as (m' & E & Hv & Hs).
  { by apply (bal_valid _ _ Hb). } { by apply elem_of_in_seg. }
  { pose proof (length_in_seg s o). unfold headroom in Hh. lia. }
  unfold SharedChunk.incrementReferenceCounter, with_seg. rewrite Hm, E. simpl.
  eexists. split; [done|]. split; [|split; [by eapply set_seg_view|done]].
  eapply set_seg_balanced; [done|done|by rewrite in_seg_cons_same|].
  intros s' Hs'. by apply in_seg_cons_other.
Qed.

Lemma decrement_ok h o c :
  Balanced h (handles c ++ o) ->
  exists c' h', SharedChunk.decrementReferenceCounter c h = Done (c', h') /\ Balanced h' o /\
    same_view o h h' /\ errors h' = errors h.
Proof.
  destruct c as [[s a]|]; simpl; intros Hb; [|by eexists _, _].
  destruct (bal_owned _ _ Hb (s, a)) as [m Hm]; [by left|]. simpl in Hm.
  destruct (drop_reference_valid m (in_seg s o) a) as (freed & m' & E & Hv & Hs & _).
  { rewrite <- in_seg_cons_same. by apply (bal_valid _ _ Hb). }
  unfold with_seg. rewrite Hm, E. simpl. eexists _, _. split; [done|].
  split; [|split; [by eapply set_seg_view|done]].
  eapply set_seg_balanced; [done|done|done|]. intros s' Hs'. by rewrite in_seg_cons_other.
Qed.

Lemma dtor_ok h o c :
  Balanced h (handles c ++ o) ->
  exists h', SharedChunk.dtor c h = Done h' /\ Balanced h' o /\ same_view o h h' /\ errors h' = errors h.
Proof.
  intros Hb. destruct (decrement_ok h o c Hb) as (c' & h' & E & H). exists h'. unfold SharedChunk.dtor.
  by rewrite E.
Qed.

Lemma copy_ok h o c :
  Balanced h (handles c ++ o) -> headroom (handles c ++ o) 1 ->
  exists h', SharedChunk.copy c h = Done (c, h') /\ Balanced h' (handles c ++ handles c ++ o) /\
    same_view (handles c ++ o) h h' /\ errors h' = errors h.
Proof.
  intros Hb Hh. unfold SharedChunk.copy, SharedChunk.assign_copy. simpl.
  destruct c as [x|]; simpl in *; [|by eexists].
  destruct (increment_ok h (x :: o) x Hb) as (h' & E & ?); [by left|done|].
  simpl in E. rewrite E. simpl. eauto.
Qed.

(** Addresses of chunk managements fit the packed representation. *)
Lemma owned_packable h o s a : Balanced h o -> (s, a) ∈ o ->
  Z.of_nat s <= RelativePointerData.MAX_VALID_ID /\ 0 <= a <= RelativePointerData.MAX_VALID_OFFSET.
Proof.
  intros Hb Hx. destruct (bal_owned _ _ Hb _ Hx) as [m Hm]. simpl in Hm.
  pose proof (lookup_lt_Some _ _ _ Hm). pose proof (bal_segs _ _ Hb) as Hl.
  unfold MAX_SHM_SEGMENTS, RelativePointerData.MAX_VALID_ID, RelativePointerData.MAX_VALID_OFFSET,
    RelativePointerData.ID_RANGE, RelativePointerData.OFFSET_RANGE in *.
  split; [lia|]. destruct (bal_valid _ _ Hb s m Hm) as (fls & mp & mfl & Hinv).
  destruct (MemoryManager.inv_owned _ _ _ _ _ Hinv a) as (i & Hi & _ & ->); [by apply elem_of_in_seg|].
  pose proof (MemoryManager.inv_mwf _ _ _ _ _ Hinv) as W.
  destruct (MemPool.chunk_at_bounds mp mfl i W Hi) as (? & ? & _). destruct W.
  unfold MemPool.CHUNK_MEMORY_ALIGNMENT in *. lia.
Qed.

Lemma shm_ctor_ok h o c :
  Balanced h (handles c ++ o) ->
  exists u, ShmSafeUnmanagedChunk.ctor c = Done u /\ shm_handles u = handles c.
Proof.
  destruct c as [[s a]|]; simpl; intros Hb; [|by eexists].
  destruct (owned_packable h _ s a Hb) as [Hs Ha]; [by left|].
  unfold RelativePointerData.MAX_VALID_ID, RelativePointerData.MAX_VALID_OFFSET in *.
  rewrite (proj2 (Z.leb_le _ _)), (proj2 (Z.leb_le _ _)) by lia. simpl. eexists. split; [done|].
  assert (Hu : u16 (Z.of_nat s) = Z.of_nat s).
  { unfold u16. apply Z.mod_small. unfold RelativePointerData.ID_RANGE in *. lia. }
  rewrite Hu. unfold shm_handles, ShmSafeUnmanagedChunk.isLogicalNullptr, ShmSafeUnmanagedChunk.pointer.
  destruct (RelativePointerData.packed (Z.of_nat s) a) as (E1 & E2 & E3).
  { unfold RelativePointerData.MAX_VALID_ID. lia. } { unfold RelativePointerData.MAX_VALID_OFFSET. lia. }
  by rewrite E1, E2, E3, Nat2Z.id.
Qed.

Lemma release_handles u :
  handles (fst (ShmSafeUnmanagedChunk.releaseToSharedChunk u)) = shm_handles u /\
  shm_handles (snd (ShmSafeUnmanagedChunk.releaseToSharedChunk u)) = [].
Proof.
  unfold ShmSafeUnmanagedChunk.releaseToSharedChunk, shm_handles.
  destruct (ShmSafeUnmanagedChunk.isLogicalNullptr u) eqn:E; simpl; [by rewrite E|done].
Qed.

Lemma clone_ok h o u :
  Balanced h o -> shm_handles u ⊆ o -> headroom o 1 ->
  exists c h', ShmSafeUnmanagedChunk.cloneToSharedChunk u h = Done (c, h') /\ handles c = shm_handles u /\
    Balanced h' (handles c ++ o) /\ same_view o h h' /\ errors h' = errors h.
Proof.
  intros Hb Hx Hh. unfold ShmSafeUnmanagedChunk.cloneToSharedChunk, shm_handles in *.
  destruct (ShmSafeUnmanagedChunk.isLogicalNullptr u); [by eexists None, _|].
  set (x := ShmSafeUnmanagedChunk.pointer u) in *.
  destruct (increment_ok h o x Hb) as (h' & E & ?); [apply Hx; by left|done|].
  destruct x as [s a]. simpl in *. destruct (with_seg _ _ _) as [[[] h1]|] eqn:E1; simplify_eq/=.
  eexists (Some (s, a)), _. eauto.
Qed.

Lemma count_in_seg s a o : count a (in_seg s o) = count (s, a) o.
Proof.
  induction o as [|[s' a'] o IH]; [done|]. rewrite in_seg_cons, count_cons. simpl.
  destruct (decide (s' = s)) as [->|Hs]; [rewrite count_cons|rewrite decide_False by congruence; by rewrite IH].
  rewrite IH. f_equal. destruct (decide (a = a')) as [->|]; [by rewrite decide_True|by rewrite decide_False by congruence].
Qed.

(** The test for other owners is exact. *)
Lemma sole_owner h o u x : Balanced h (x :: o) -> shm_handles u = [x] ->
  ShmSafeUnmanagedChunk.isNotLogicalNullptrAndHasNoOtherOwners u h = bool_decide (x ∉ o).
Proof.
  intros Hb Hu. unfold ShmSafeUnmanagedChunk.isNotLogicalNullptrAndHasNoOtherOwners, shm_handles in *.
  destruct (ShmSafeUnmanagedChunk.isLogicalNullptr u); [done|]. injection Hu as ->. destruct x as [s a]. simpl.
  destruct (bal_owned _ _ Hb (s, a)) as [m Hm]; [by left|]. simpl in Hm. rewrite Hm.
  destruct (bal_valid _ _ Hb s m Hm) as (fls & mp & mfl & Hinv).
  destruct (owned_live m fls mp mfl (in_seg s ((s, a) :: o)) a Hinv) as (i & c & k & p & fl & j & hd & _ & _ & _ & []);
    [apply elem_of_in_seg; by left|].
  rewrite lv_mgmt, lv_count, count_in_seg, count_cons, decide_True by done.
  case_bool_decide as Hin.
  - rewrite (count_zero _ _ Hin). done.
  - apply Z.eqb_neq. destruct (decide ((s, a) ∈ o)) as [H|]; [apply count_pos in H; lia|done].
Qed.

(** ** Chunk headers *)

Lemma chunk_view_owned h o x : Balanced h o -> x ∈ o -> is_Some (chunk_view h x).
Proof.
  destruct x as [s a]. intros Hb Hx. destruct (bal_owned _ _ Hb _ Hx) as [m Hm]. simpl in Hm.
  destruct (bal_valid _ _ Hb s m Hm) as (fls & mp & mfl & Hinv).
  destruct (owned_live m fls mp mfl (in_seg s o) a Hinv) as (i & c & k & p & fl & j & hd & _ & _ & _ & []);
    [by apply elem_of_in_seg|].
  unfold chunk_view, MemoryManager.header_of, MemoryManager.header_address. simpl.
  rewrite Hm. simpl. rewrite lv_mgmt. simpl. rewrite lv_header. simpl. eauto.
Qed.

Lemma getChunkHeader_view h x a hd : chunk_view h x = Some (a, hd) ->
  SharedChunk.getChunkHeader (Some x) h = Some (fst x, a).
Proof.
  destruct x as [s b]. unfold chunk_view, SharedChunk.getChunkHeader. simpl.
  destruct (segs h !! s) as [m|]; [|done]. simpl.
  destruct (MemoryManager.header_address m b) as [x|]; [|done]. simpl.
  destruct (MemoryManager.header_of m b); [|done]. by intros [= <- <-].
Qed.

(** Different chunks in use have different headers. *)
Lemma header_inj h o x y : Balanced h o -> x ∈ o -> y ∈ o ->
  SharedChunk.getChunkHeader (Some x) h = SharedChunk.getChunkHeader (Some y) h -> x = y.
Proof.
  destruct x as [s a], y as [s' a']. intros Hb Hx Hy. unfold SharedChunk.getChunkHeader.
  destruct (bal_owned _ _ Hb _ Hx) as [m Hm]. destruct (bal_owned _ _ Hb _ Hy) as [m' Hm'].
  simpl in Hm, Hm'. rewrite Hm, Hm'. simpl.
  destruct (bal_valid _ _ Hb s m Hm) as (fls & mp & mfl & Hinv).
  destruct (owned_live m fls mp mfl (in_seg s o) a Hinv) as (i & c & k & p & fl & j & hd & -> & Hi & Hn & L);
    [by apply elem_of_in_seg|].
  unfold MemoryManager.header_address. rewrite (MemoryManager.lv_mgmt _ _ _ _ _ _ _ _ _ _ L). simpl.
  destruct (MemoryManager.mgmts m' !! a') as [c'|] eqn:Ec; simpl; [|done]. intros [= <- E].
  rewrite Hm in Hm'. injection Hm' as <-.
  destruct (owned_live m fls mp mfl (in_seg s o) a' Hinv) as (i' & c2 & k' & p' & fl' & j' & hd' & -> & Hi' & Hn' & L');
    [by apply elem_of_in_seg|].
  f_equal. f_equal. eapply (MemoryManager.inv_inj _ _ _ _ _ Hinv); try done. apply L.
Qed.

(** Writing through a pointer to a chunk header. *)
Definition write_header (p : handle) (f : ChunkHeader.t -> ChunkHeader.t) (h : Heap) : outcome Heap :=
  match segs h !! fst p with
  | Some m =>
      match MemoryManager.headers m !! snd p with
      | Some hd => Done (set_seg (fst p) (MemoryManager.set_header (snd p) (f hd) m) h)
      | None => Terminated UNDEFINED_BEHAVIOUR
      end
  | None => Terminated UNDEFINED_BEHAVIOUR
  end.

(** Reading through such a pointer. *)
Definition read_header (p : handle) (h : Heap) : outcome ChunkHeader.t :=
  match segs h !! fst p ≫= fun m => MemoryManager.headers m !! snd p with
  | Some hd => Done hd
  | None => Terminated UNDEFINED_BEHAVIOUR
  end.

Lemma read_header_ok h x a hd : chunk_view h x = Some (a, hd) -> read_header (fst x, a) h = Done hd.
Proof.
  destruct x as [s b]. unfold chunk_view, read_header, MemoryManager.header_of. simpl.
  destruct (segs h !! s) as [m|]; [|done]. simpl.
  destruct (MemoryManager.header_address m b) as [x|]; [|done]. simpl.
  destruct (MemoryManager.headers m !! x) eqn:E; [|done]. intros [= <- <-]. by rewrite E.
Qed.

(** Headers of the same chunk: its size, its version and the place of its payload stay. *)
Definition same_chunk (hd hd' : ChunkHeader.t) : Prop :=
  ChunkHeader.chunkSize hd' = ChunkHeader.chunkSize hd /\
  ChunkHeader.chunkHeaderVersion hd' = ChunkHeader.chunkHeaderVersion hd /\
  ChunkHeader.userPayloadOffset hd' = ChunkHeader.userPayloadOffset hd.

(** A header constructed anew, with the words [w] of the memory [m] written. *)
Definition new_chunk (m w : gmap Z Z) (x : Z) (hd hd' : ChunkHeader.t) : Prop :=
  ChunkHeader.chunkSize hd' = ChunkHeader.chunkSize hd /\
  ChunkHeader.chunkHeaderVersion hd' = ChunkHeader.chunkHeaderVersion hd /\
  ChunkHeader.placed w x hd' /\
  forall b, w !! b <> m !! b -> x <= b < x + ChunkHeader.chunkSize hd.

(** Any way of writing the header leaves everything but that header as it is.
    [w] stands for changes to the words outside the headers. *)
Lemma header_valid m o a x hd w :
  MemoryManager.Valid m o -> MemoryManager.header_address m a = Some x -> a ∈ o ->
  (forall hd0, MemoryManager.headers m !! x = Some hd0 -> new_chunk (MemoryManager.words m) w x hd0 hd) ->
  MemoryManager.Valid (MemoryManager.set_words w (MemoryManager.set_header x hd m)) o.
Proof.
  intros (fls & mp & mfl & Hinv) Hx Ha Hsz. exists fls, mp, mfl.
  destruct (owned_live m fls mp mfl o a Hinv Ha) as (i1 & c1 & k1 & p1 & fl1 & j1 & hd1 & _ & _ & _ & L1).
  pose proof Hinv as []. constructor; simpl; try done.
  unfold MemoryManager.header_address in Hx. rewrite (MemoryManager.lv_mgmt _ _ _ _ _ _ _ _ _ _ L1) in Hx. injection Hx as <-.
  destruct (Hsz hd1 (MemoryManager.lv_header _ _ _ _ _ _ _ _ _ _ L1)) as (S1 & S2 & S3 & S4).
  intros i Hi Hn. destruct (inv_live i Hi Hn) as (c & k & p & fl & j & hd0 & []).
  destruct (decide (m_chunkHeader c = m_chunkHeader c1)) as [E|Hne].
  - exists c, k, p, fl, j, hd. rewrite E in *.
    assert (hd1 = hd0) as <- by (pose proof (MemoryManager.lv_header _ _ _ _ _ _ _ _ _ _ L1); congruence).
    constructor; simpl; try done; rewrite ?E; try congruence. apply lookup_insert_eq.
  - exists c, k, p, fl, j, hd0. constructor; simpl; try done; [by rewrite lookup_insert_ne|].
    destruct (Forall2_lookup_l _ _ _ _ _ inv_pools lv_pool) as (f0 & _ & W0).
    destruct (MemPool.chunk_at_bounds p f0 j W0 lv_index) as (B1 & B2 & _).
    eapply ChunkHeader.placed_frame; [exact lv_placed|..]; try done; rewrite ?lv_size, ?lv_addr in *; [destruct W0; lia..|].
    intros b Hb. destruct (decide (w !! b = MemoryManager.words m !! b)) as [?|Hw]; [done|]. apply S4 in Hw. destruct L1.
    rewrite lv_size0, lv_addr0 in *.
    destruct (MemoryManager.chunks_disjoint _ _ _ _ _ _ _ _ _ _ _ Hinv lv_pool lv_pool0 lv_index lv_index0) as [[-> ->]|?]; [|lia].
    destruct Hne. congruence.
Qed.

Lemma set_header_view h o x a hd hd' w m :
  Balanced h o -> x ∈ o -> chunk_view h x = Some (a, hd) -> segs h !! fst x = Some m ->
  new_chunk (MemoryManager.words m) w a hd hd' ->
  let h' := set_seg (fst x) (MemoryManager.set_words w (MemoryManager.set_header a hd' m)) h in
  Balanced h' o /\ chunk_view h' x = Some (a, hd') /\
  length (segs h') = length (segs h) /\ (forall y, y ∈ o -> y <> x -> chunk_view h' y = chunk_view h y).
Proof.
  intros Hb Hx Hv Hm Hsz h'. pose proof (getChunkHeader_view h x a hd Hv) as Hg.
  pose proof (read_header_ok h x a hd Hv) as Hr. unfold read_header in Hr. simpl in Hr.
  destruct x as [s b]. simpl in *.
  assert (Ha : MemoryManager.header_address m b = Some a).
  { unfold chunk_view in Hv. simpl in Hv. rewrite Hm in Hv. simpl in Hv.
    destruct (MemoryManager.header_address m b); [|done]. simpl in Hv.
    destruct (MemoryManager.header_of m b); by simplify_eq/=. }
  split_and!.
  - apply (set_seg_balanced h s m _ o o); [done|done| |done].
    apply header_valid with b; [by apply Hb|done|by apply elem_of_in_seg|].
    intros hd0 H0. rewrite Hm in Hr. simpl in Hr. rewrite H0 in Hr. by injection Hr as ->.
  - unfold chunk_view, h'. simpl. rewrite list_lookup_insert_eq by (by eapply lookup_lt_Some). simpl.
    unfold MemoryManager.header_of, MemoryManager.header_address in *. simpl. rewrite Ha. simpl.
    by rewrite lookup_insert_eq.
  - simpl. apply length_insert.
  - intros [s' b'] Hy Hne. unfold chunk_view, h'. simpl.
    destruct (decide (s = s')) as [<-|Hs]; [|by rewrite list_lookup_insert_ne].
    rewrite list_lookup_insert_eq by (by eapply lookup_lt_Some). rewrite Hm. simpl.
    unfold MemoryManager.header_of, MemoryManager.header_address. simpl.
    destruct (MemoryManager.mgmts m !! b') as [c'|] eqn:Ec; [|done]. simpl.
    rewrite lookup_insert_ne; [done|]. intros E. apply Hne.
    apply (header_inj h o _ _ Hb Hy Hx). etransitivity; [|symmetry; exact Hg].
    simpl. rewrite Hm. simpl. unfold MemoryManager.header_address. rewrite Ec. simpl. by rewrite E.
Qed.

(** The chunk behind an owned handle lies in memory with the size its header
    says. *)
Lemma owned_extent h o x a hd : Balanced h o -> x ∈ o -> chunk_view h x = Some (a, hd) ->
  0 <= a /\ (ChunkHeader.ALIGNOF_CHUNK_HEADER | a) /\ ChunkHeader.chunkSize hd < 2 ^ 32 /\
  a + ChunkHeader.chunkSize hd <= 2 ^ 63 /\ ChunkHeader.chunkHeaderVersion hd = ChunkHeader.CHUNK_HEADER_VERSION.
Proof.
  destruct x as [s b]. intros Hb Hx Hv. destruct (bal_owned _ _ Hb _ Hx) as [m Hm]. simpl in Hm.
  destruct (bal_valid _ _ Hb s m Hm) as (fls & mp & mfl & Hinv).
  destruct (owned_live m fls mp mfl (in_seg s o) b Hinv) as (i & c & k & p & fl & j & hd0 & _ & _ & _ & []);
    [by apply elem_of_in_seg|].
  unfold chunk_view, MemoryManager.header_of, MemoryManager.header_address in Hv. simpl in Hv.
  rewrite Hm in Hv. simpl in Hv. rewrite lv_mgmt in Hv. simpl in Hv. rewrite lv_header in Hv. simplify_eq/=.
  destruct (Forall2_lookup_l _ _ _ _ _ (MemoryManager.inv_pools _ _ _ _ _ Hinv) lv_pool) as (fl' & _ & W).
  destruct (MemPool.chunk_at_bounds p fl' j W lv_index) as (B1 & B2 & B3).
  rewrite lv_addr, lv_size. destruct W. split_and!; try done; lia.
Qed.

(** Its payload pointer leads back to it. *)
Lemma owned_placed h o x a hd m : Balanced h o -> x ∈ o -> chunk_view h x = Some (a, hd) -> segs h !! fst x = Some m ->
  ChunkHeader.placed (MemoryManager.words m) a hd.
Proof.
  destruct x as [s b]. intros Hb Hx Hv Hm. simpl in Hm.
  destruct (bal_valid _ _ Hb s m Hm) as (fls & mp & mfl & Hinv).
  destruct (owned_live m fls mp mfl (in_seg s o) b Hinv) as (i & c & k & p & fl & j & hd0 & _ & _ & _ & []);
    [by apply elem_of_in_seg|].
  unfold chunk_view, MemoryManager.header_of, MemoryManager.header_address in Hv. simpl in Hv.
  rewrite Hm in Hv. simpl in Hv. rewrite lv_mgmt in Hv. simpl in Hv. rewrite lv_header in Hv. by simplify_eq/=.
Qed.

Lemma write_header_ok h o x a hd f :
  Balanced h o -> x ∈ o -> chunk_view h x = Some (a, hd) ->
  same_chunk hd (f hd) ->
  exists h', write_header (fst x, a) f h = Done h' /\ Balanced h' o /\ chunk_view h' x = Some (a, f hd) /\
    length (segs h') = length (segs h) /\ errors h' = errors h /\
    (forall y, y ∈ o -> y <> x -> chunk_view h' y = chunk_view h y).
Proof.
  intros Hb Hx Hv Hsz. destruct (bal_owned _ _ Hb _ Hx) as [m Hm].
  pose proof (read_header_ok h x a hd Hv) as Hr. unfold read_header in Hr. unfold write_header. simpl in *.
  rewrite Hm in *. simpl in Hr. destruct (MemoryManager.headers m !! a) as [hd0|]; [|done]. injection Hr as ->.
  destruct (set_header_view h o x a hd (f hd) (MemoryManager.words m) m Hb Hx Hv Hm) as (H1 & H2 & H3 & H4).
  { destruct Hsz as (S1 & S2 & S3). split_and!; try done. destruct (owned_extent h o x a hd Hb Hx Hv) as (? & _ & ? & ? & _).
    eapply ChunkHeader.placed_frame; [by eapply owned_placed|..]; done. }
  eexists. split; [done|]. split; [exact H1|]. split; [exact H2|]. split; [exact H3|]. split; [done|exact H4].
Qed.

(** The chunk at [a] has room for what [s] asks for: the payload is aligned and
    ends inside the chunk, and there is a user-header if one is wanted. *)
Definition fits (s : ChunkSettings.t) (a : Z) (hd : ChunkHeader.t) : Prop :=
  ChunkSettings.requiredChunkSize s <= ChunkHeader.chunkSize hd /\
  (ChunkSettings.userPayloadAlignment s | ChunkHeader.userPayload a hd) /\
  ChunkHeader.userPayload a hd + ChunkSettings.userPayloadSize s <= a + ChunkHeader.chunkSize hd /\
  ChunkHeader.userHeader a hd =
    if decide (ChunkSettings.userHeaderSize s = 0) then None else Some (a + SIZEOF_CHUNK_HEADER).

Lemma layout_fits a size s m hd m' : ChunkHeader.layout a size s m hd m' -> ChunkSettings.requiredChunkSize s <= size ->
  fits s a hd.
Proof.
  intros [] Hs. unfold fits. rewrite lay_size. split; [done|]. split; [done|]. split; [lia|].
  case_decide; [done|apply lay_header].
Qed.

(** A new chunk has a fresh header. *)
Definition fresh_header (s : ChunkSettings.t) (a : Z) (hd : ChunkHeader.t) : Prop :=
  ChunkHeader.originId hd = ChunkHeader.INVALID_UNIQUE_ID /\ ChunkHeader.sequenceNumber hd = 0 /\
  ChunkHeader.chunkHeaderVersion hd = ChunkHeader.CHUNK_HEADER_VERSION /\ fits s a hd.

(** [new (p) ChunkHeader(chunkSize, settings)]. *)
Definition construct_header (p : handle) (chunkSize : Z) (settings : ChunkSettings.t) (h : Heap) : outcome Heap :=
  match segs h !! fst p with
  | Some m =>
      let* '(hd, w) := ChunkHeader.ctor (MemoryManager.words m) (snd p) chunkSize settings in
      Done (set_seg (fst p) (MemoryManager.set_words w (MemoryManager.set_header (snd p) hd m)) h)
  | None => Terminated UNDEFINED_BEHAVIOUR
  end.

Lemma construct_header_ok h o x a hd settings :
  Balanced h o -> x ∈ o -> chunk_view h x = Some (a, hd) -> ChunkSettings.valid settings ->
  ChunkSettings.requiredChunkSize settings <= ChunkHeader.chunkSize hd ->
  exists h' hd', construct_header (fst x, a) (ChunkHeader.chunkSize hd) settings h = Done h' /\ Balanced h' o /\
    chunk_view h' x = Some (a, hd') /\ fresh_header settings a hd' /\
    length (segs h') = length (segs h) /\ errors h' = errors h /\
    (forall y, y ∈ o -> y <> x -> chunk_view h' y = chunk_view h y).
Proof.
  intros Hb Hx Hv Hs Hr. destruct (bal_owned _ _ Hb _ Hx) as [m Hm].
  destruct (owned_extent h o x a hd Hb Hx Hv) as (E1 & E2 & E3 & E4 & E5).
  unfold construct_header. simpl. rewrite Hm.
  destruct (ChunkHeader.ctor_layout a (ChunkHeader.chunkSize hd) settings (MemoryManager.words m))
    as (hd' & w & -> & L & O & S); [done|done|done|lia|lia|]. simpl.
  destruct (set_header_view h o x a hd hd' w m Hb Hx Hv Hm) as (H1 & H2 & H3 & H4).
  { split; [apply L|]. split; [rewrite E5; apply L|]. split; [by eapply ChunkHeader.layout_placed|].
    intros b B%(ChunkHeader.lay_frame _ _ _ _ _ _ L). pose proof (ChunkHeader.lay_end _ _ _ _ _ _ L). destruct Hs.
    unfold SIZEOF_USER_PAYLOAD_OFFSET_T in *. lia. }
  eexists _, hd'. split; [done|]. split; [exact H1|]. split; [exact H2|]. split; [|by split_and!].
  split; [done|]. split; [done|]. split; [apply L|]. by eapply layout_fits.
Qed.

(** ** Requesting a chunk

    [MemoryManager::getChunk] on the manager of segment [s]; errors are reported
    with the levels the code passes to the error handler. *)

Definition level_of (e : MemoryManager.Error) : ErrorLevel :=
  match e with
  | MemoryManager.NO_MEMPOOLS_AVAILABLE => SEVERE
  | MemoryManager.NO_MEMPOOL_FOR_REQUESTED_CHUNK_SIZE => SEVERE
  | MemoryManager.MEMPOOL_OUT_OF_CHUNKS => MODERATE
  end.

Definition getChunk (s : nat) (settings : ChunkSettings.t) (h : Heap)
    : outcome (expected SharedChunk.t MemoryManager.Error * Heap) :=
  match segs h !! s with
  | None => Terminated UNDEFINED_BEHAVIOUR
  | Some m =>
      let* '(r, e, m') := MemoryManager.getChunk m settings in
      let h := set_seg s m' h in
      match r with
      | success a => Done (success (Some (s, a)), h)
      | error er =>
          Done (error er, match e with Some e => report e (level_of er) h | None => h end)
      end
  end.

Lemma report_balanced e l h o : Balanced h o -> Balanced (report e l h) o.
Proof. intros []. by constructor. Qed.

Lemma getChunk_ok h o s settings :
  Balanced h o -> (s < length (segs h))%nat -> ChunkSettings.valid settings ->
  exists r h', getChunk s settings h = Done (r, h') /\ same_view o h h' /\
    match r with
    | success c => exists x hd a, c = Some x /\ x ∉ o /\ Balanced h' (x :: o) /\
                     chunk_view h' x = Some (a, hd) /\ fresh_header settings a hd /\ errors h' = errors h
    | error _ => Balanced h' o
    end.
Proof.
  intros Hb Hs Hv. unfold getChunk. destruct (lookup_lt_is_Some_2 _ _ Hs) as [m Hm]. rewrite Hm.
  destruct (MemoryManager.getChunk_total m (in_seg s o) settings) as (r & -> & Hr); [by apply Hb|done|].
  assert (Hsame : set_seg s m h = h).
  { unfold set_seg. rewrite list_insert_id by done. by destruct h. }
  destruct Hr as [E|E1 E2|k p m' Hf Hu Hval Hsc|k p m' a c hd Hf Hval Hno Hsc Hmg Hrc Hmp Hhd Hlay Ho Hsn]; simpl.
  - eexists _, _. rewrite Hsame. split; [done|]. split; [done|]. by apply report_balanced.
  - eexists _, _. rewrite Hsame. split; [done|]. split; [done|]. by apply report_balanced.
  - eexists _, _. split; [done|]. split; [by eapply set_seg_view|].
    apply report_balanced. by eapply set_seg_balanced.
  - eexists _, _. split; [done|]. split; [by eapply set_seg_view|].
    exists (s, a), hd, (m_chunkHeader c). split; [done|].
    split; [by rewrite <- elem_of_in_seg|]. split.
    { eapply set_seg_balanced; [done|done|by rewrite in_seg_cons_same|].
      intros s' Hs'. by apply in_seg_cons_other. }
    split.
    { unfold chunk_view. simpl. rewrite list_lookup_insert_eq by done. simpl.
      unfold MemoryManager.header_of, MemoryManager.header_address. rewrite Hmg. simpl. by rewrite Hhd. }
    split; [|done]. split; [done|]. split; [done|]. split; [apply Hlay|]. eapply layout_fits; [exact Hlay|].
    pose proof (MemoryManager.find_pool_spec (ChunkSettings.requiredChunkSize settings)
                  (MemoryManager.m_memPoolVector m) 0) as Hfp. rewrite Hf in Hfp. apply Hfp.
Qed.

(** A segment with the pools of [small_config] and one chunk in use. *)
Lemma sample_heap : exists h x, Balanced h [x] /\ length (segs h) = 1%nat /\ errors h = [] /\
  exists a hd, chunk_view h x = Some (a, hd) /\
    ChunkSettings.requiredChunkSize MemoryManager.settings64 <= ChunkHeader.chunkSize hd.
Proof.
  destruct (MemoryManager.configure_valid MemoryManager.small_config 4096 224 8192 376 376)
    as (m & ma & ca & E & H & _); [exact MemoryManager.small_config_ok|reflexivity|lia|by exists 512|lia|lia|
      by exists 1024|lia|vm_compute; congruence|lia|].
  assert (Hb : Balanced (mkHeap [m] []) []).
  { constructor; simpl; [|intros x Hx; by apply elem_of_nil in Hx|unfold MAX_SHM_SEGMENTS; lia].
    intros [|s] m0 Hm0; simplify_eq/=. exact H. }
  destruct (getChunk_ok (mkHeap [m] []) [] 0 MemoryManager.settings64 Hb) as (r & h & Eg & [L _] & Hr);
    [simpl; lia|apply MemoryManager.settings64_valid|].
  destruct r as [c|e].
  - destruct Hr as (x & hd & a & _ & _ & Hb' & Hv & (_ & _ & _ & Hsz) & Er). exists h, x.
    split; [done|]. split; [done|]. split; [by rewrite Er|]. exists a, hd. by split; [|apply Hsz].
  - exfalso. vm_compute in E. injection E as <- _ _. vm_compute in Eg. discriminate.
Qed.

(** ** Programs that use chunks *)

Module ChunkProgram.

(** The variables of type [SharedChunk] of a program, and what it does with them. *)
Inductive op :=
  | CopyAssign (i j : nat)          (* v[i] = v[j] *)
  | MoveAssign (i j : nat)          (* v[i] = std::move(v[j]) *)
  | Destroy (i : nat)               (* v[i].~SharedChunk(), then a null object *)
  | Request (i s : nat) (settings : ChunkSettings.t). (* v[i] = std::move(getChunk(..).value()) *)

Definition step (o : op) (vars : list SharedChunk.t) (h : Heap) : outcome (list SharedChunk.t * Heap) :=
  match o with
  | CopyAssign i j =>
      match vars !! i, vars !! j with
      | Some vi, Some vj =>
          if bool_decide (i = j) then Done (vars, h)
          else let* '(vi, h) := SharedChunk.assign_copy vi vj h in Done (<[i := vi]> vars, h)
      | _, _ => Terminated UNDEFINED_BEHAVIOUR
      end
  | MoveAssign i j =>
      match vars !! i, vars !! j with
      | Some vi, Some vj =>
          if bool_decide (i = j) then Done (vars, h)
          else let* '(vi, vj, h) := SharedChunk.assign_move vi vj h in
               Done (<[j := vj]> (<[i := vi]> vars), h)
      | _, _ => Terminated UNDEFINED_BEHAVIOUR
      end
  | Destroy i =>
      match vars !! i with
      | Some vi => let* h := SharedChunk.dtor vi h in Done (<[i := None]> vars, h)
      | _ => Terminated UNDEFINED_BEHAVIOUR
      end
  | Request i s settings =>
      match vars !! i with
      | Some vi =>
          let* '(r, h) := getChunk s settings h in
          match r with
          | success c => let* '(vi, _, h) := SharedChunk.assign_move vi c h in Done (<[i := vi]> vars, h)
          | error _ => Done (vars, h)
          end
      | _ => Terminated UNDEFINED_BEHAVIOUR
      end
  end.

Fixpoint exec (ops : list op) (vars : list SharedChunk.t) (h : Heap) : outcome (list SharedChunk.t * Heap) :=
  match ops with
  | [] => Done (vars, h)
  | o :: ops => let* '(vars, h) := step o vars h in exec ops vars h
  end.

(** Operations on existing variables, segments and with valid settings. *)
Definition op_ok (n segments : nat) (o : op) : Prop :=
  match o with
  | CopyAssign i j | MoveAssign i j => (i < n)%nat /\ (j < n)%nat
  | Destroy i => (i < n)%nat
  | Request i s settings => (i < n)%nat /\ (s < segments)%nat /\ ChunkSettings.valid settings
  end.

Lemma length_handles (vars : list SharedChunk.t) : (length (vars ≫= handles) <= length vars)%nat.
Proof. induction vars as [|v vars IH]; [done|]. rewrite bind_cons, length_app. destruct v; simpl; lia. Qed.

Lemma step_balanced o vars h :
  Balanced h (vars ≫= handles) -> op_ok (length vars) (length (segs h)) o ->
  Z.of_nat (length vars) + 1 < 2 ^ 64 ->
  exists vars' h', step o vars h = Done (vars', h') /\ Balanced h' (vars' ≫= handles) /\
    length vars' = length vars /\ length (segs h') = length (segs h).
Proof.
  intros Hb Hok Hn. pose proof (length_handles vars) as Hlen.
  destruct o as [i j|i j|i|i s st]; simpl in *.
  - destruct Hok as [Hi Hj]. destruct (lookup_lt_is_Some_2 _ _ Hi) as [vi Ei].
    destruct (lookup_lt_is_Some_2 _ _ Hj) as [vj Ej]. rewrite Ei, Ej.
    case_bool_decide as D; [by eexists _, _|].
    destruct (bind_focus2 handles vars i j vi vj D Ei Ej) as (rest & E & I).
    rewrite E in Hb. unfold SharedChunk.assign_copy.
    destruct (decrement_ok _ _ _ Hb) as (c' & h1 & -> & Hb1 & [L1 _] & _). simpl.
    apply Permutation_length in E. rewrite !length_app in E.
    destruct (copy_ok h1 rest vj Hb1) as (h2 & E2 & Hb2 & [L2 _] & _).
    { unfold headroom. rewrite length_app. lia. }
    unfold SharedChunk.copy, SharedChunk.assign_copy in E2. simpl in E2.
    destruct (SharedChunk.incrementReferenceCounter vj h1) as [h2'|]; simplify_eq/=.
    eexists _, _. split; [done|]. split; [|split; [apply length_insert|congruence]].
    specialize (I vj vj). rewrite (list_insert_id (<[i:=vj]> vars) j) in I by (by rewrite list_lookup_insert_ne).
    by rewrite I.
  - destruct Hok as [Hi Hj]. destruct (lookup_lt_is_Some_2 _ _ Hi) as [vi Ei].
    destruct (lookup_lt_is_Some_2 _ _ Hj) as [vj Ej]. rewrite Ei, Ej.
    case_bool_decide as D; [by eexists _, _|].
    destruct (bind_focus2 handles vars i j vi vj D Ei Ej) as (rest & E & I).
    rewrite E in Hb. unfold SharedChunk.assign_move.
    destruct (decrement_ok _ _ _ Hb) as (c' & h1 & -> & Hb1 & [L1 _] & _). simpl.
    eexists _, _. split; [done|]. split; [|split; [by rewrite !length_insert|congruence]].
    rewrite (I vj None). done.
  - destruct (lookup_lt_is_Some_2 _ _ Hok) as [vi Ei]. rewrite Ei.
    destruct (bind_focus handles vars i vi Ei) as (rest & E & I). rewrite E in Hb.
    destruct (dtor_ok _ _ _ Hb) as (h1 & -> & Hb1 & [L1 _] & _). simpl.
    eexists _, _. split; [done|]. split; [|split; [by rewrite !length_insert|congruence]].
    by rewrite (I None).
  - destruct Hok as (Hi & Hs & Hv). destruct (lookup_lt_is_Some_2 _ _ Hi) as [vi Ei]. rewrite Ei.
    destruct (getChunk_ok h _ s st Hb Hs Hv) as (r & h1 & -> & [L1 _] & Hr). simpl.
    destruct r as [c|e]; [|by eexists _, _].
    destruct Hr as (x & hd & a & -> & _ & Hb1 & _).
    destruct (bind_focus handles vars i vi Ei) as (rest & E & I). rewrite E in Hb1.
    unfold SharedChunk.assign_move.
    destruct (decrement_ok h1 (x :: rest) vi) as (c' & h2 & -> & Hb2 & [L2 _] & _).
    { eapply Balanced_proper; [|exact Hb1]. solve_Permutation. }
    simpl. eexists _, _. split; [done|]. split; [|split; [by rewrite !length_insert|congruence]].
    by rewrite (I (Some x)).
Qed.

Lemma exec_balanced ops vars h :
  Balanced h (vars ≫= handles) -> Forall (op_ok (length vars) (length (segs h))) ops ->
  Z.of_nat (length vars) + 1 < 2 ^ 64 ->
  exists vars' h', exec ops vars h = Done (vars', h') /\ Balanced h' (vars' ≫= handles).
Proof.
  revert vars h. induction ops as [|o ops IH]; intros vars h Hb Ho Hn; simpl; [eauto|].
  inversion Ho as [|? ? Ho1 Ho2]; subst.
  destruct (step_balanced o vars h Hb Ho1 Hn) as (v1 & h1 & -> & Hb1 & L1 & L2). simpl.
  apply IH; [done|by rewrite L1, L2|lia].
Qed.

(** C3: reference counting is exact for every program that copies, moves,
    destroys and requests chunks in any order.  No step dereferences a dangling
    pointer, frees twice or terminates; after every run each chunk's counter
    equals the number of variables that hold it, and a chunk no variable holds
    is back in its pool (no leak, no use after free). *)
Theorem shared_chunk_programs_balanced ops vars h :
  Balanced h (vars ≫= handles) -> Forall (op_ok (length vars) (length (segs h))) ops ->
  Z.of_nat (length vars) + 1 < 2 ^ 64 ->
  exists vars' h', exec ops vars h = Done (vars', h') /\ Balanced h' (vars' ≫= handles).
Proof. apply exec_balanced. Qed.

Lemma shared_chunk_programs_balanced_witness :
  exists m vars' h', exec [Request 0 0 MemoryManager.settings64; CopyAssign 1 0; Destroy 0; MoveAssign 0 1]
      [None; None] (mkHeap [m] []) = Done (vars', h') /\ Balanced h' (vars' ≫= handles).
Proof.
  destruct (MemoryManager.configure_valid MemoryManager.small_config 4096 224 8192 376 376)
    as (m & ma & ca & E & H & _); [exact MemoryManager.small_config_ok|reflexivity|lia|by exists 512|lia|lia|
      by exists 1024|lia|vm_compute; congruence|lia|].
  exists m. apply (shared_chunk_programs_balanced _ [None; None] (mkHeap [m] [])).
  - constructor; simpl; [|intros x Hx; by apply elem_of_nil in Hx|unfold MAX_SHM_SEGMENTS; lia].
    intros [|s] m0 Hm0; simplify_eq/=. exact H.
  - repeat constructor; simpl; try lia; apply MemoryManager.settings64_valid.
  - simpl. lia.
Defined.
End ChunkProgram.
