(* ===== verification/Queue.v ===== *)
(** * The bounded queue and the two ring buffers

    The specification every queue of the program implements (a list with a
    capacity and a rule for a push onto a full queue), as an interface of
    operations with laws, and its first two implementations: [FiFo]
    (fifo.inl, rejects) and [SoFi] (sofi.inl, evicts the oldest element). *)

From S2P Require Import Prelude.

(** ** Specification *)

(** What [push] returns (the evicted or rejected value, if any) and leaves. *)
Definition spec_push {A} (evict : bool) (cap : Z) (l : list A) (v : A) : option A * list A :=
  if Z.of_nat (length l) <? cap then (None, l ++ [v])
  else if evict then match l with x :: l' => (Some x, l' ++ [v]) | [] => (Some v, []) end
  else (Some v, l).

Definition spec_pop {A} (l : list A) : option A * list A :=
  match l with x :: l' => (Some x, l') | [] => (None, []) end.

(** Nothing is lost or duplicated: the new elements and what came out are the
    old elements and the pushed one. *)
Lemma spec_push_Permutation {A} evict cap (l : list A) v : 0 < cap ->
  v :: l ≡ₚ option_list (fst (spec_push evict cap l v)) ++ snd (spec_push evict cap l v).
Proof.
  intros Hc. unfold spec_push. case_zb; simpl; [by rewrite (Permutation_app_comm l)|].
  destruct evict; [|done]. destruct l as [|x l]; [done|]. simpl.
  rewrite Permutation_swap. by rewrite (Permutation_app_comm l).
Qed.

(** Pushing commutes with an encoding of the elements. *)
Lemma spec_push_Forall2 {A B} (R : A -> B -> Prop) evict cap l k v w :
  Forall2 R l k -> R v w ->
  match fst (spec_push evict cap l v), fst (spec_push evict cap k w) with
  | None, None => True
  | Some a, Some b => R a b
  | _, _ => False
  end /\ Forall2 R (snd (spec_push evict cap l v)) (snd (spec_push evict cap k w)).
Proof.
  intros Hl Hv. unfold spec_push. rewrite (Forall2_length _ _ _ Hl). case_zb; simpl.
  - split; [done|]. apply Forall2_app; [done|by constructor].
  - destruct evict; [|done]. destruct Hl as [|a b l k Hab Hl]; simpl; [done|].
    split; [done|]. apply Forall2_app; [done|by constructor].
Qed.

(** The operations of an implementation.  [None] from [do_push] and [do_pop] means
    that the call does not return. *)
Record QueueOps (Q A : Type) := mkQueueOps {
  do_push : Q -> A -> option (option A * Q);
  do_pop : Q -> option (option A * Q);
  do_empty : Q -> bool;
  do_size : Q -> Z;
  do_capacity : Q -> Z }.
Arguments do_push {Q A}.
Arguments do_pop {Q A}.
Arguments do_empty {Q A}.
Arguments do_size {Q A}.
Arguments do_capacity {Q A}.

(** The interface: [q_rep q cap l n] says that [q] has capacity [cap], holds
    [l] (oldest first) and that its 64 bit counters have room for [n] more
    operations.  A queue of capacity zero that evicts is covered only where the
    implementation returns. *)
Class QueueLaws {Q A} (ops : QueueOps Q A) (evict : bool) := {
  q_rep : Q -> Z -> list A -> Z -> Prop;
  q_push : forall q cap l n v, q_rep q cap l n -> 0 < n -> 0 < cap ->
    exists q', do_push ops q v = Some (fst (spec_push evict cap l v), q') /\
               q_rep q' cap (snd (spec_push evict cap l v)) (n - 1);
  q_pop : forall q cap l n, q_rep q cap l n -> 0 < n ->
    exists q', do_pop ops q = Some (fst (spec_pop l), q') /\ q_rep q' cap (snd (spec_pop l)) (n - 1);
  q_empty : forall q cap l n, q_rep q cap l n -> do_empty ops q = bool_decide (l = []);
  q_size : forall q cap l n, q_rep q cap l n -> do_size ops q = Z.of_nat (length l);
  q_capacity : forall q cap l n, q_rep q cap l n -> do_capacity ops q = cap;
  q_bound : forall q cap l n, q_rep q cap l n -> Z.of_nat (length l) <= cap }.

(** ** Rings *)

Section ring.
Context {A : Type} (d : A).

(** [l] is stored from position [r] on in a ring of [c] cells. *)
Record ring (data : list A) (c r : Z) (l : list A) : Prop := {
  ring_cap : 0 < c <= Z.of_nat (length data);
  ring_start : 0 <= r;
  ring_len : Z.of_nat (length l) <= c;
  ring_at : forall (k : nat) x, l !! k = Some x -> aget d data ((r + Z.of_nat k) mod c) = x }.

Lemma ring_index data c r l p : ring data c r l -> in_range data (p mod c).
Proof. intros []. unfold in_range. pose proof (Z.mod_pos_bound p c). lia. Qed.

(** Positions less than a cycle apart are in different cells. *)
Lemma mod_distinct c p q : 0 < c -> p < q < p + c -> p mod c <> q mod c.
Proof.
  intros Hc H E. assert (Hd : (c | q - p)).
  { exists (q / c - p / c). pose proof (Z.div_mod p c ltac:(lia)). pose proof (Z.div_mod q c ltac:(lia)). lia. }
  destruct Hd as [k Hk]. destruct (Z.le_gt_cases k 0); nia.
Qed.

Lemma ring_push data c r l v :
  ring data c r l -> Z.of_nat (length l) < c ->
  ring (aset data ((r + Z.of_nat (length l)) mod c) v) c r (l ++ [v]).
Proof.
  intros H Hl. pose proof H as []. constructor; rewrite ?length_aset, ?length_app; simpl; try lia.
  intros k x Hk. rewrite aget_aset by (by eapply ring_index). apply lookup_app_Some in Hk as [Hk|[Hk1 Hk2]].
  - pose proof (lookup_lt_Some _ _ _ Hk). rewrite decide_False; [by apply ring_at0|].
    apply not_eq_sym, mod_distinct; lia.
  - assert (k = length l) as ->.
    { apply lookup_lt_Some in Hk2. simpl in Hk2. lia. }
    rewrite Nat.sub_diag in Hk2. simplify_eq/=. by rewrite decide_True.
Qed.

Lemma ring_pop data c r x l :
  ring data c r (x :: l) -> aget d data (r mod c) = x /\ ring data c (r + 1) l.
Proof.
  intros []. split.
  - specialize (ring_at0 0%nat x eq_refl). by rewrite Z.add_0_r in ring_at0.
  - constructor; simpl in *; try lia. intros k y Hk.
    specialize (ring_at0 (S k) y Hk). by replace (r + 1 + Z.of_nat k) with (r + Z.of_nat (S k)) by lia.
Qed.
End ring.

(** ** FiFo *)

Module FiFo.

Record t (A : Type) := mk { m_data : list A; m_write_pos : Z; m_read_pos : Z }.
Arguments mk {A}.
Arguments m_data {A}.
Arguments m_write_pos {A}.
Arguments m_read_pos {A}.

Section ops.
Context {A : Type} (d : A) (Capacity : Z).

Definition ctor : t A := mk (replicate (Z.to_nat Capacity) d) 0 0.

Definition is_full (q : t A) : bool := m_write_pos q =? u64 (m_read_pos q + Capacity).
Definition size (q : t A) : Z := u64 (m_write_pos q - m_read_pos q).
Definition capacity (q : t A) : Z := Capacity.
Definition empty (q : t A) : bool := m_read_pos q =? m_write_pos q.

Definition push (q : t A) (v : A) : bool * t A :=
  if is_full q then (false, q)
  else
    let currentWritePos := m_write_pos q in
    (true, mk (aset (m_data q) (currentWritePos mod Capacity) v) (u64 (currentWritePos + 1)) (m_read_pos q)).

Definition pop (q : t A) : option A * t A :=
  let currentReadPos := m_read_pos q in
  let isEmpty := currentReadPos =? m_write_pos q in
  if isEmpty then (None, q)
  else (Some (aget d (m_data q) (currentReadPos mod Capacity)),
        mk (m_data q) (m_write_pos q) (u64 (currentReadPos + 1))).

(** [cxx::VariantQueue::push] on this queue. *)
Definition ops : QueueOps (t A) A :=
  mkQueueOps _ _ (fun q v => let '(hadSpace, q) := push q v in Some (if hadSpace then None else Some v, q))
    (fun q => Some (pop q)) empty size capacity.

Definition Rep (q : t A) (cap : Z) (l : list A) (n : Z) : Prop :=
  cap = Capacity /\ ring d (m_data q) Capacity (m_read_pos q) l /\
  m_write_pos q = m_read_pos q + Z.of_nat (length l) /\ m_write_pos q + Capacity + n < 2 ^ 64 /\ 0 <= n.

Lemma full_spec q cap l n : Rep q cap l n -> is_full q = negb (Z.of_nat (length l) <? cap).
Proof.
  intros (-> & [] & Hw & Hb & Hn). unfold is_full. rewrite u64_small by lia.
  destruct (Z.ltb_spec (Z.of_nat (length l)) Capacity); simpl;
    [apply Z.eqb_neq|apply Z.eqb_eq]; lia.
Qed.

#[global] Instance laws : QueueLaws ops false.
Proof.
  refine {| q_rep := Rep |}.
  - intros q cap l n v H Hn Hc. unfold spec_push. simpl. unfold push. rewrite (full_spec q cap l n H).
    destruct H as (-> & Hr & Hw & Hb & _). pose proof (ring_len _ _ _ _ _ Hr).
    pose proof (ring_start _ _ _ _ _ Hr).
    destruct (Z.ltb_spec (Z.of_nat (length l)) Capacity); simpl; (eexists; split; [done|]).
    + split; [done|]. simpl. rewrite Hw, u64_small by lia.
      split; [by apply ring_push|]. rewrite length_app. simpl. lia.
    + split; [done|]. split; [done|]. lia.
  - intros q cap l n (-> & Hr & Hw & Hb & Hn0) Hn. simpl. unfold pop.
    destruct l as [|x l]; simpl in *.
    + rewrite (proj2 (Z.eqb_eq _ _)) by lia. eexists. split; [done|]. split; [done|]. split; [done|]. simpl. lia.
    + rewrite (proj2 (Z.eqb_neq _ _)) by lia. apply ring_pop in Hr as [-> Hr].
      pose proof (ring_start _ _ _ _ _ Hr). pose proof (ring_cap _ _ _ _ _ Hr).
      eexists. split; [done|]. split; [done|]. simpl.
      rewrite u64_small by lia. split; [done|]. lia.
  - intros q cap l n (-> & Hr & Hw & Hb & Hn). simpl. unfold empty.
    case_bool_decide as D; [subst l; apply Z.eqb_eq; simpl in *; lia|].
    apply Z.eqb_neq. destruct l; [done|]. simpl in Hw. lia.
  - intros q cap l n (-> & Hr & Hw & Hb & Hn). simpl. unfold size.
    pose proof (ring_len _ _ _ _ _ Hr). pose proof (ring_cap _ _ _ _ _ Hr). pose proof (ring_start _ _ _ _ _ Hr).
    rewrite u64_small; lia.
  - intros q cap l n (-> & _). done.
  - intros q cap l n (-> & [] & _). done.
Defined.

Lemma fifo_ctor_rep : 0 < Capacity -> forall n, 0 <= n -> Capacity + n < 2 ^ 64 -> Rep ctor Capacity [] n.
Proof.
  intros Hc n Hn Hb. split; [done|]. simpl. split; [|lia].
  constructor; simpl; try lia; [rewrite length_replicate; lia|]. done.
Qed.
End ops.
End FiFo.

(** ** SoFi *)

Module SoFi.

Definition INTERNAL_SIZE_ADD_ON : Z := 1.

Record t (A : Type) := mk { m_data : list A; m_size : Z; m_readPosition : Z; m_writePosition : Z }.
Arguments mk {A}.
Arguments m_data {A}.
Arguments m_size {A}.
Arguments m_readPosition {A}.
Arguments m_writePosition {A}.

Section ops.
Context {A : Type} (d : A) (CapacityValue : Z).

Definition INTERNAL_SOFI_SIZE : Z := CapacityValue + INTERNAL_SIZE_ADD_ON.

Definition ctor : t A := mk (replicate (Z.to_nat INTERNAL_SOFI_SIZE) d) INTERNAL_SOFI_SIZE 0 0.

Definition capacity (q : t A) : Z := u64 (m_size q - INTERNAL_SIZE_ADD_ON).
Definition size (q : t A) : Z := u64 (m_writePosition q - m_readPosition q).
Definition empty (q : t A) : bool := m_writePosition q =? m_readPosition q.

Definition setCapacity (q : t A) (newSize : Z) : bool * t A :=
  let newInternalSize := u64 (newSize + INTERNAL_SIZE_ADD_ON) in
  if empty q && (newInternalSize <=? INTERNAL_SOFI_SIZE)
  then (true, mk (m_data q) newInternalSize 0 0)
  else (false, q).

(** [popIf] without a concurrent push: the compare-exchange succeeds at once. *)
Definition popIf (q : t A) (verificator : A -> bool) : option A * t A :=
  let currentReadPosition := m_readPosition q in
  if currentReadPosition =? m_writePosition q then (None, q)
  else
    let valueOut := aget d (m_data q) (currentReadPosition mod m_size q) in
    if negb (verificator valueOut) then (None, q)
    else (Some valueOut, mk (m_data q) (m_size q) (u64 (currentReadPosition + 1)) (m_writePosition q)).

Definition pop (q : t A) : option A * t A := popIf q (fun _ => true).

(** [push] without a concurrent pop: [Some] is the overflow value. *)
Definition push (q : t A) (v : A) : option A * t A :=
  let currentWritePosition := m_writePosition q in
  let nextWritePosition := u64 (currentWritePosition + 1) in
  let data := aset (m_data q) (currentWritePosition mod m_size q) v in
  let currentReadPosition := m_readPosition q in
  if nextWritePosition <? u64 (currentReadPosition + m_size q)
  then (None, mk data (m_size q) currentReadPosition nextWritePosition)
  else
    let nextReadPosition := u64 (currentReadPosition + 1) in
    (Some (aget d data (currentReadPosition mod m_size q)),
     mk data (m_size q) nextReadPosition nextWritePosition).

Definition ops : QueueOps (t A) A :=
  mkQueueOps _ _ (fun q v => Some (push q v)) (fun q => Some (pop q)) empty size capacity.

Definition Rep (q : t A) (cap : Z) (l : list A) (n : Z) : Prop :=
  cap = m_size q - INTERNAL_SIZE_ADD_ON /\ ring d (m_data q) (m_size q) (m_readPosition q) l /\
  Z.of_nat (length l) <= cap /\ m_size q <= INTERNAL_SOFI_SIZE /\
  m_writePosition q = m_readPosition q + Z.of_nat (length l) /\
  m_writePosition q + INTERNAL_SOFI_SIZE + n < 2 ^ 64 /\ 0 <= n.

Lemma push_spec q cap l n v : Rep q cap l n -> 0 < n ->
  exists q', push q v = (fst (spec_push true cap l v), q') /\
             Rep q' cap (snd (spec_push true cap l v)) (n - 1).
Proof.
  intros (-> & Hr & Hl & Hs & Hw & Hb & _) Hn. unfold push, spec_push, INTERNAL_SIZE_ADD_ON in *.
  pose proof (ring_cap _ _ _ _ _ Hr) as Hc. pose proof (ring_start _ _ _ _ _ Hr).
  rewrite !u64_small by lia. pose proof (ring_push _ _ _ _ _ v Hr ltac:(lia)) as Hp. rewrite <- Hw in Hp.
  destruct (Z.ltb_spec (m_writePosition q + 1) (m_readPosition q + m_size q)).
  - rewrite (proj2 (Z.ltb_lt _ _)) by lia. eexists. split; [done|]. unfold Rep, INTERNAL_SIZE_ADD_ON. simpl.
    rewrite length_app. simpl. split_and!; try done; lia.
  - rewrite (proj2 (Z.ltb_ge _ _)) by lia.
    destruct l as [|x l]; simpl in *; apply ring_pop in Hp as [-> Hp];
      (eexists; split; [done|]); unfold Rep, INTERNAL_SIZE_ADD_ON; simpl; rewrite ?length_app; simpl;
      split_and!; try done; lia.
Qed.

Lemma popIf_spec q cap l n (f : A -> bool) : Rep q cap l n -> 0 < n ->
  exists q', popIf q f = (match l with x :: _ => if f x then Some x else None | [] => None end, q') /\
    Rep q' cap (match l with x :: l' => if f x then l' else l | [] => [] end) (n - 1).
Proof.
  intros H Hn. pose proof H as (-> & Hr & Hl & Hs & Hw & Hb & _). unfold popIf, INTERNAL_SIZE_ADD_ON in *.
  pose proof (ring_cap _ _ _ _ _ Hr) as Hc. pose proof (ring_start _ _ _ _ _ Hr).
  assert (Hm : Rep q (m_size q - 1) l (n - 1)).
  { unfold Rep, INTERNAL_SIZE_ADD_ON. split_and!; try done; lia. }
  destruct l as [|x l]; simpl in *.
  - rewrite (proj2 (Z.eqb_eq _ _)) by lia. eauto.
  - rewrite (proj2 (Z.eqb_neq _ _)) by lia. apply ring_pop in Hr as [-> Hr].
    destruct (f x); simpl; [|eauto]. eexists. split; [done|]. unfold Rep, INTERNAL_SIZE_ADD_ON. simpl.
    rewrite u64_small by lia. split_and!; try done; lia.
Qed.

#[global] Instance laws : QueueLaws ops true.
Proof.
  refine {| q_rep := Rep |}.
  - intros q cap l n v H Hn _. destruct (push_spec q cap l n v H Hn) as (q' & E & H').
    exists q'. simpl. by rewrite E.
  - intros q cap l n H Hn. destruct (popIf_spec q cap l n (fun _ => true) H Hn) as (q' & E & H').
    exists q'. simpl. unfold pop. rewrite E. by destruct l.
  - intros q cap l n (-> & Hr & Hl & Hs & Hw & Hb & Hn0). simpl. unfold empty.
    case_bool_decide as D; [subst l; apply Z.eqb_eq; simpl in *; lia|].
    apply Z.eqb_neq. destruct l; [done|]. simpl in Hw. lia.
  - intros q cap l n (-> & Hr & Hl & Hs & Hw & Hb & Hn0). simpl. unfold size, INTERNAL_SIZE_ADD_ON in *.
    pose proof (ring_cap _ _ _ _ _ Hr). pose proof (ring_start _ _ _ _ _ Hr). rewrite u64_small; lia.
  - intros q cap l n (-> & Hr & Hl & Hs & Hw & Hb & Hn0). simpl. unfold capacity, INTERNAL_SIZE_ADD_ON in *.
    pose proof (ring_cap _ _ _ _ _ Hr). pose proof (ring_start _ _ _ _ _ Hr). rewrite u64_small; lia.
  - intros q cap l n (-> & Hr & Hl & _). done.
Defined.

(** Resizing is possible only while the queue is empty, within the array; the
    positions start again at zero. *)
Lemma setCapacity_spec q cap l n newSize :
  Rep q cap l n -> 0 <= newSize < 2 ^ 63 -> 0 <= CapacityValue < 2 ^ 62 ->
  Z.of_nat (length (m_data q)) = INTERNAL_SOFI_SIZE ->
  if decide (l = [] /\ newSize <= CapacityValue)
  then exists q', setCapacity q newSize = (true, q') /\ Rep q' newSize [] (2 ^ 63) /\
                  length (m_data q') = length (m_data q)
  else setCapacity q newSize = (false, q).
Proof.
  intros (-> & Hr & Hl & Hs & Hw & Hb & _) Hns Hcv Hd. unfold setCapacity, INTERNAL_SOFI_SIZE, INTERNAL_SIZE_ADD_ON in *.
  rewrite u64_small by lia. unfold empty. case_decide as D.
  - destruct D as [-> Hle]. simpl in *.
    rewrite (proj2 (Z.eqb_eq _ _)), (proj2 (Z.leb_le _ _)) by lia. simpl. eexists. split; [done|].
    split; [|done]. unfold Rep, INTERNAL_SOFI_SIZE, INTERNAL_SIZE_ADD_ON. simpl.
    split; [lia|]. split; [constructor; simpl; try lia; done|]. lia.
  - destruct (Z.eqb_spec (m_writePosition q) (m_readPosition q)), (Z.leb_spec (newSize + 1) (CapacityValue + 1));
      simpl; try done. destruct D. split; [|lia]. destruct l; [done|]. simpl in *. lia.
Qed.

Lemma sofi_ctor_rep : 0 <= CapacityValue < 2 ^ 62 -> Rep ctor CapacityValue [] (2 ^ 63).
Proof.
  intros Hc. unfold Rep, ctor, INTERNAL_SOFI_SIZE, INTERNAL_SIZE_ADD_ON. simpl. split; [lia|].
  split; [constructor; simpl; try lia; [rewrite length_replicate; lia|done]|]. lia.
Qed.
End ops.
End SoFi.
