(* ===== verification/QueueThreads.v ===== *)
(** * The ring buffers with a producer and a consumer

    [Queue] has the operations of [sofi.inl] and [fifo.inl] as calls that nobody
    interrupts.  Here one thread pushes and one pops, and each access to a shared
    variable is a step.  Writing a cell takes two steps: what a copy reads from it in
    between, or from a cell that was never written, is arbitrary.  The weak
    compare-exchange may fail without a reason.  Memory is sequentially consistent. *)

From S2P Require Import Prelude Queue.

Module SofiThreads.
Section threads.
Context {A : Type} (m_size : Z).

(** A cell without a valid object is [None]. *)
Record shared := mkShared { m_data : list (option A); m_readPosition : Z; m_writePosition : Z }.

(** The control points of [push], with the local variables that are used later. *)
Inductive producer :=
  | PIdle
  | PLoad (value : A)                                  (* load m_writePosition *)
  | PWrite (value : A) (currentWritePosition : Z)      (* begin to write the cell *)
  | PWriting (value : A) (currentWritePosition : Z)    (* the cell is being written *)
  | PStore (value : A) (currentWritePosition : Z)      (* store m_writePosition *)
  | PLoadRead (nextWritePosition : Z)                  (* load m_readPosition, compare *)
  | PExchange (currentReadPosition : Z)                (* compare-exchange *)
  | PCopy (currentReadPosition : Z).                   (* memcpy of the overflow *)

(** The control points of [popIf], with its verificator. *)
Inductive consumer :=
  | CIdle
  | CLoad (f : A -> bool)                                                   (* load m_readPosition *)
  | CCompare (f : A -> bool) (currentReadPosition : Z)                      (* load m_writePosition *)
  | CCopy (f : A -> bool) (currentReadPosition : Z)                         (* memcpy *)
  | CVerify (f : A -> bool) (currentReadPosition : Z) (valueOut : A)        (* load m_readPosition *)
  | CExchange (f : A -> bool) (currentReadPosition : Z) (popped : option A). (* compare-exchange *)

(** The values that were pushed, up to the store of the write position, and those
    that the calls have returned, the popped ones with the verificator. *)
Record config := mkConfig {
  mem : shared;
  prod : producer;
  cons_ : consumer;
  pushed : list A;
  overflowed : list A;
  popped : list ((A -> bool) * A) }.

Definition index (position : Z) : nat := Z.to_nat (position mod m_size).
Definition write_cell (position : Z) (v : option A) (s : shared) : shared :=
  mkShared (<[index position := v]> (m_data s)) (m_readPosition s) (m_writePosition s).
Definition set_read (position : Z) (s : shared) : shared := mkShared (m_data s) position (m_writePosition s).
Definition set_write (position : Z) (s : shared) : shared := mkShared (m_data s) (m_readPosition s) position.

(** What a copy of a cell can read. *)
Definition reads (position : Z) (s : shared) (v : A) : Prop :=
  forall x, m_data s !! index position = Some (Some x) -> v = x.

(** The position that the compare-exchange of [popIf] stores. *)
Definition nextReadPosition (currentReadPosition : Z) (popped : option A) : Z :=
  match popped with Some _ => u64 (currentReadPosition + 1) | None => currentReadPosition end.

Definition to_prod (s : shared) (p : producer) (c : config) : config := mkConfig s p (cons_ c) (pushed c) (overflowed c) (popped c).
Definition to_cons (s : shared) (k : consumer) (c : config) : config := mkConfig s (prod c) k (pushed c) (overflowed c) (popped c).

Inductive push_step : config -> config -> Prop :=
  | push_call c v : prod c = PIdle -> push_step c (to_prod (mem c) (PLoad v) c)
  | push_load c v : prod c = PLoad v -> push_step c (to_prod (mem c) (PWrite v (m_writePosition (mem c))) c)
  | push_begin c v w : prod c = PWrite v w -> push_step c (to_prod (write_cell w None (mem c)) (PWriting v w) c)
  | push_end c v w : prod c = PWriting v w -> push_step c (to_prod (write_cell w (Some v) (mem c)) (PStore v w) c)
  | push_store c v w : prod c = PStore v w ->
      push_step c (mkConfig (set_write (u64 (w + 1)) (mem c)) (PLoadRead (u64 (w + 1))) (cons_ c) (pushed c ++ [v]) (overflowed c) (popped c))
  | push_compare c w : prod c = PLoadRead w ->
      push_step c (to_prod (mem c)
        (if w <? u64 (m_readPosition (mem c) + m_size) then PIdle else PExchange (m_readPosition (mem c))) c)
  | push_exchange c r : prod c = PExchange r -> m_readPosition (mem c) = r ->
      push_step c (to_prod (set_read (u64 (r + 1)) (mem c)) (PCopy r) c)
  | push_late c r : prod c = PExchange r -> m_readPosition (mem c) <> r -> push_step c (to_prod (mem c) PIdle c)
  | push_overflow c r v : prod c = PCopy r -> reads r (mem c) v ->
      push_step c (mkConfig (mem c) PIdle (cons_ c) (pushed c) (overflowed c ++ [v]) (popped c)).

Inductive pop_step : config -> config -> Prop :=
  | pop_call c f : cons_ c = CIdle -> pop_step c (to_cons (mem c) (CLoad f) c)
  | pop_load c f : cons_ c = CLoad f -> pop_step c (to_cons (mem c) (CCompare f (m_readPosition (mem c))) c)
  | pop_compare c f r : cons_ c = CCompare f r ->
      pop_step c (to_cons (mem c) (if r =? m_writePosition (mem c) then CExchange f r None else CCopy f r) c)
  | pop_copy c f r v : cons_ c = CCopy f r -> reads r (mem c) v -> pop_step c (to_cons (mem c) (CVerify f r v) c)
  | pop_verify c f r v : cons_ c = CVerify f r v ->
      pop_step c (to_cons (mem c)
        (CExchange f r (if (m_readPosition (mem c) =? r) && negb (f v) then None else Some v)) c)
  | pop_exchange c f r o : cons_ c = CExchange f r o -> m_readPosition (mem c) = r ->
      pop_step c (mkConfig (set_read (nextReadPosition r o) (mem c)) (prod c) CIdle (pushed c) (overflowed c)
        (match o with Some v => popped c ++ [(f, v)] | None => popped c end))
  | pop_retry c f r o : cons_ c = CExchange f r o ->
      pop_step c (to_cons (mem c) (CCompare f (m_readPosition (mem c))) c).

Definition step (c c' : config) : Prop := push_step c c' \/ pop_step c c'.

(** A queue for [m_size - 1] elements. *)
Definition start : config := mkConfig (mkShared (replicate (Z.to_nat m_size) None) 0 0) PIdle CIdle [] [] [].

Inductive reachable : config -> Prop :=
  | r_start : reachable start
  | r_step c c' : reachable c -> step c c' -> reachable c'.

(** ** The invariant *)

Context (Hsize : 1 <= m_size).
Implicit Types (s : shared) (P : list A) (c : config).

Definition at_position P (k : Z) (v : A) : Prop := P !! Z.to_nat k = Some v.

(** The cells between the positions hold the values that were pushed there. *)
Record mem_inv s P : Prop := {
  mi_length : Z.of_nat (length (m_data s)) = m_size;
  mi_write : m_writePosition s = Z.of_nat (length P);
  mi_read : 0 <= m_readPosition s <= m_writePosition s;
  mi_cells : forall k, m_readPosition s <= k < m_writePosition s ->
    exists v, at_position P k v /\ m_data s !! index k = Some (Some v) }.

(** No place is left between the store of the write position and the end of [push]. *)
Definition room (p : producer) : Z :=
  match p with PLoadRead _ | PExchange _ => m_size | _ => m_size - 1 end.

Definition prod_inv s P (p : producer) : Prop :=
  match p with
  | PIdle | PLoad _ => True
  | PWrite _ w | PWriting _ w => w = m_writePosition s
  | PStore v w => w = m_writePosition s /\ m_data s !! index w = Some (Some v)
  | PLoadRead w => w = m_writePosition s
  | PExchange r => 0 <= r <= m_readPosition s /\ r + m_size = m_writePosition s
  | PCopy r => 0 <= r < m_writePosition s /\ exists v, at_position P r v /\ m_data s !! index r = Some (Some v)
  end.

(** What the consumer has read is right as long as the read position is the same. *)
Definition cons_inv s P (k : consumer) : Prop :=
  match k with
  | CIdle | CLoad _ => True
  | CCompare _ r | CExchange _ r None => 0 <= r <= m_readPosition s
  | CCopy _ r => 0 <= r <= m_readPosition s /\ r < m_writePosition s
  | CVerify _ r v => 0 <= r <= m_readPosition s /\ r < m_writePosition s /\ (r = m_readPosition s -> at_position P r v)
  | CExchange f r (Some v) =>
      0 <= r <= m_readPosition s /\ r < m_writePosition s /\ (r = m_readPosition s -> at_position P r v /\ f v = true)
  end.

(** [taken] lists the values that left the queue and whether the consumer took them;
    one may be in the hands of the producer. *)
Definition pending P (p : producer) : list A := match p with PCopy r => option_list (P !! Z.to_nat r) | _ => [] end.
Definition by_consumer (x : bool * A) : Prop := x.1 = true.
Definition by_producer (x : bool * A) : Prop := x.1 = false.
#[local] Instance by_consumer_dec x : Decision (by_consumer x) := bool_eq_dec _ _.
#[local] Instance by_producer_dec x : Decision (by_producer x) := bool_eq_dec _ _.

Definition accounted (removed : list A) (byProducer byConsumer : list A) : Prop :=
  exists taken : list (bool * A), taken.*2 = removed /\
    (filter by_consumer taken).*2 = byConsumer /\ (filter by_producer taken).*2 = byProducer.

Record inv c : Prop := {
  i_mem : mem_inv (mem c) (pushed c);
  i_room : m_writePosition (mem c) - m_readPosition (mem c) <= room (prod c);
  i_prod : prod_inv (mem c) (pushed c) (prod c);
  i_cons : cons_inv (mem c) (pushed c) (cons_ c);
  i_taken : accounted (take (Z.to_nat (m_readPosition (mem c))) (pushed c))
    (overflowed c ++ pending (pushed c) (prod c)) (popped c).*2;
  i_verified : Forall (fun x => x.1 x.2 = true) (popped c) }.

Lemma index_ne k k' : 0 <= k -> k < k' < k + m_size -> index k <> index k'.
Proof.
  intros H0 H E. unfold index in E. apply Z2Nat.inj in E; [|apply Z.mod_pos_bound; lia..].
  assert (Hd : (k' - k) mod m_size = 0) by (rewrite Zminus_mod, E, Z.sub_diag; apply Z.mod_0_l; lia).
  rewrite Z.mod_small in Hd by lia. lia.
Qed.

Lemma index_lt s P k : mem_inv s P -> (index k < length (m_data s))%nat.
Proof.
  intros W. pose proof (mi_length _ _ W). unfold index. pose proof (Z.mod_pos_bound k m_size ltac:(lia)). lia.
Qed.

Lemma sofi_start_inv : inv start.
Proof.
  constructor; simpl; try done; [|lia|by exists []]. constructor; simpl; try done; [|lia].
  rewrite length_replicate. lia.
Qed.

Lemma accounted_snoc removed byP byC v : accounted removed byP byC ->
  accounted (removed ++ [v]) (byP ++ [v]) byC /\ accounted (removed ++ [v]) byP (byC ++ [v]).
Proof.
  intros (t & <- & <- & <-). split; [exists (t ++ [(false, v)])|exists (t ++ [(true, v)])];
    by rewrite !filter_app, !fmap_app; simpl; rewrite ?app_nil_r.
Qed.

Lemma take_next P k v : 0 <= k -> at_position P k v -> take (Z.to_nat (k + 1)) P = take (Z.to_nat k) P ++ [v].
Proof. intros Hk Hv. replace (Z.to_nat (k + 1)) with (S (Z.to_nat k)) by lia. by apply take_S_r. Qed.

Lemma at_position_lt P k v : 0 <= k -> at_position P k v -> k < Z.of_nat (length P).
Proof. intros Hk Hv%lookup_lt_Some. lia. Qed.

Lemma at_position_app P l k v : at_position P k v -> at_position (P ++ l) k v.
Proof. apply lookup_app_l_Some. Qed.

(** Writing the next cell touches none that is in use. *)
Lemma write_next s P v : mem_inv s P -> m_writePosition s - m_readPosition s <= m_size - 1 ->
  mem_inv (write_cell (m_writePosition s) v s) P.
Proof.
  intros W H. pose proof W as [W1 W2 W3 W4]. constructor; simpl; [by rewrite length_insert|done|done|].
  intros k Hk. destruct (W4 k Hk) as (x & Hx & Hc). exists x. split; [done|]. rewrite list_lookup_insert_ne; [done|].
  symmetry. apply index_ne; lia.
Qed.

(** The consumer is not disturbed when values are pushed, and starts again when the
    read position moves. *)
Lemma cons_inv_push s s' P l k : m_readPosition s' = m_readPosition s -> m_writePosition s <= m_writePosition s' ->
  cons_inv s P k -> cons_inv s' (P ++ l) k.
Proof.
  intros E1 E2. destruct k as [| | | | |f r [v|]]; simpl; rewrite ?E1; try done; try lia.
  - intros (H1 & H2 & H3). split; [done|split; [lia|]]. intros E. by apply at_position_app, H3.
  - intros (H1 & H2 & H3). split; [done|split; [lia|]]. intros E. destruct (H3 E). split; [by apply at_position_app|done].
Qed.

Lemma cons_inv_read s s' P k : m_readPosition s < m_readPosition s' -> m_writePosition s' = m_writePosition s ->
  cons_inv s P k -> cons_inv s' P k.
Proof.
  intros E1 E2. destruct k as [| | | | |f r [v|]]; simpl; rewrite ?E2; try done; try lia;
    intros (H1 & H2 & _); split; try lia; split; try lia.
Qed.

Lemma push_step_inv c c' : inv c -> push_step c c' -> Z.of_nat (length (pushed c')) + m_size < 2 ^ 64 -> inv c'.
Proof.
  intros [M R Pi Ci T V] Hstep B. pose proof M as [M1 M2 M3 M4].
  destruct Hstep as [c v E|c v E|c v w E|c v w E|c v w E|c w E|c r E Er|c r E Er|c r v E Hr]; rewrite E in *; simpl in *.
  - by constructor.
  - by constructor.
  - subst w. constructor; simpl; try done; by apply write_next.
  - subst w. constructor; simpl; try done; [by apply write_next|].
    split; [done|]. apply list_lookup_insert_eq. by eapply index_lt.
  - destruct Pi as [-> Hc]. rewrite length_app in B. simpl in B. rewrite u64_small by lia.
    constructor; simpl; try done; [|lia|by eapply cons_inv_push; [| |exact Ci]; simpl; [|lia]|].
    + constructor; simpl; [done|rewrite length_app; simpl; lia|lia|]. intros k Hk. destruct (decide (k = m_writePosition (mem c))) as [->|Hne].
      * exists v. split; [|done]. unfold at_position. rewrite M2, Nat2Z.id. by apply list_lookup_middle.
      * destruct (M4 k) as (x & Hx & Hx'); [lia|]. exists x. split; [by apply at_position_app|done].
    + rewrite app_nil_r in *. rewrite take_app_le by lia. done.
  - subst w. rewrite u64_small by lia. destruct (Z.ltb_spec (m_writePosition (mem c)) (m_readPosition (mem c) + m_size)).
    + constructor; simpl; try done. lia.
    + constructor; simpl; try done. lia.
  - destruct Pi as [H1 H2]. rewrite u64_small by lia. destruct (M4 r) as (x & Hx & Hx'); [lia|].
    constructor; simpl; try done; [| |split; [lia|by exists x]| |].
    + constructor; simpl; try done; [lia|]. intros k Hk. apply M4. lia.
    + lia.
    + eapply cons_inv_read; [| |exact Ci]; simpl; [lia|done].
    + subst r. rewrite (take_next _ _ x), app_nil_r in * by (done || lia). unfold at_position in Hx. rewrite Hx. simpl.
      by apply accounted_snoc.
  - destruct Pi as [H1 H2]. constructor; simpl; try done. lia.
  - destruct Pi as (H1 & x & Hx & Hx'). rewrite (Hr x Hx') in *. constructor; simpl; try done.
    unfold at_position in Hx. rewrite Hx in T. simpl in T. by rewrite app_nil_r.
Qed.

Lemma pop_step_inv c c' : inv c -> pop_step c c' -> Z.of_nat (length (pushed c')) + m_size < 2 ^ 64 -> inv c'.
Proof.
  intros [M R Pi Ci T V] Hstep B. pose proof M as [M1 M2 M3 M4].
  destruct Hstep as [c f E|c f E|c f r E|c f r v E Hr|c f r v E|c f r o E Er|c f r o E]; rewrite E in *; simpl in *.
  - by constructor.
  - constructor; simpl; try done; lia.
  - constructor; simpl; try done. case_zb; simpl; lia.
  - constructor; simpl; try done. destruct Ci as [H1 H2]. split; [done|split; [done|]]. intros ->.
    destruct (M4 (m_readPosition (mem c))) as (x & Hx & Hx'); [lia|]. by rewrite (Hr x Hx').
  - constructor; simpl; try done. destruct Ci as (H1 & H2 & H3). destruct (Z.eqb_spec (m_readPosition (mem c)) r) as [Hrr|Hne]; simpl.
    + destruct (f v) eqn:Ef; simpl; [|lia]. split; [done|split; [done|]]. intros Er. split; [by apply H3|done].
    + split; [done|split; [done|]]. intros Er. lia.
  - subst r. destruct o as [v|]; simpl in *.
    + destruct Ci as (H1 & H2 & H3). destruct (H3 eq_refl) as [Hv Hf]. rewrite u64_small by lia.
      constructor; simpl; try done.
      * constructor; simpl; try done; [lia|]. intros k Hk. apply M4. lia.
      * destruct (prod c); simpl in *; lia.
      * destruct (prod c); simpl in *; try done; lia.
      * rewrite (take_next _ _ v) by (done || lia). rewrite fmap_app. simpl. by apply accounted_snoc.
      * apply Forall_app. split; [done|]. by apply Forall_singleton.
    + assert (Es : set_read (m_readPosition (mem c)) (mem c) = mem c) by (by destruct (mem c)). rewrite Es. by constructor.
  - constructor; simpl; try done. lia.
Qed.

Lemma reachable_sofi_inv c : reachable c -> Z.of_nat (length (pushed c)) + m_size < 2 ^ 64 -> inv c.
Proof.
  induction 1 as [|c c' _ IH Hstep]; [intros _; apply sofi_start_inv|]. intros B.
  assert (Hle : (length (pushed c) <= length (pushed c'))%nat).
  { destruct Hstep as [Hs|Hs]; destruct Hs; simpl; try done. rewrite length_app. lia. }
  destruct Hstep as [Hs|Hs]; [eapply push_step_inv|eapply pop_step_inv]; try done; apply IH; lia.
Qed.

(** ** Calls that nobody interrupts *)

(** The memory of a queue of [Queue.SoFi]. *)
Definition embed (q : SoFi.t A) : shared := mkShared (Some <$> SoFi.m_data q) (SoFi.m_readPosition q) (SoFi.m_writePosition q).

Lemma embed_read (d : A) (q : SoFi.t A) k : (index k < length (SoFi.m_data q))%nat ->
  m_data (embed q) !! index k = Some (Some (aget d (SoFi.m_data q) (k mod m_size))).
Proof.
  intros H. simpl. rewrite list_lookup_fmap. unfold aget. pose proof (Z.mod_pos_bound k m_size ltac:(lia)).
  rewrite (proj2 (Z.ltb_ge _ _)) by lia. change (Z.to_nat (k mod m_size)) with (index k).
  destruct (lookup_lt_is_Some_2 _ _ H) as [x ->]. done.
Qed.

(** The steps of an uninterrupted [push] do what the function does. *)
Lemma push_alone (d : A) (q : SoFi.t A) v k P O C : SoFi.m_size q = m_size -> Z.of_nat (length (SoFi.m_data q)) = m_size ->
  rtc push_step (mkConfig (embed q) PIdle k P O C)
    (mkConfig (embed (SoFi.push d q v).2) PIdle k (P ++ [v]) (O ++ option_list (SoFi.push d q v).1) C).
Proof.
  intros Es El. set (w := SoFi.m_writePosition q). set (q1 := SoFi.mk (aset (SoFi.m_data q) (w mod m_size) v) m_size (SoFi.m_readPosition q) (u64 (w + 1))).
  assert (Hlt : (index w < length (SoFi.m_data q))%nat) by (unfold index; pose proof (Z.mod_pos_bound w m_size ltac:(lia)); lia).
  assert (Hw : set_write (u64 (w + 1)) (write_cell w (Some v) (write_cell w None (embed q))) = embed q1).
  { unfold set_write, write_cell, embed, q1. simpl. rewrite list_insert_insert_eq, <- list_fmap_insert. unfold aset.
    pose proof (Z.mod_pos_bound w m_size ltac:(lia)). by rewrite (proj2 (Z.ltb_ge _ _)) by lia. }
  eapply rtc_l; [by apply (push_call _ v)|]. eapply rtc_l; [by apply (push_load _ v)|]. eapply rtc_l; [by apply (push_begin _ v w)|].
  eapply rtc_l; [by apply (push_end _ v w)|]. eapply rtc_l; [by apply (push_store _ v w)|]. simpl. rewrite Hw.
  eapply rtc_l; [by apply (push_compare _ (u64 (w + 1)))|]. unfold SoFi.push. rewrite Es. fold w. unfold to_prod. simpl.
  destruct (u64 (w + 1) <? u64 (SoFi.m_readPosition q + m_size)); simpl; [by rewrite app_nil_r|].
  eapply rtc_l; [by apply (push_exchange _ (SoFi.m_readPosition q))|]. unfold to_prod. simpl.
  match goal with |- rtc _ ?c _ => apply rtc_once, (push_overflow c (SoFi.m_readPosition q)
    (aget d (aset (SoFi.m_data q) (w mod m_size) v) (SoFi.m_readPosition q mod m_size))) end; [done|].
  intros x Hx. pose proof (embed_read d q1 (SoFi.m_readPosition q)) as Hr. simpl in Hr. rewrite length_aset in Hr.
  simpl in Hx. rewrite Hr in Hx; [by injection Hx|]. unfold index. pose proof (Z.mod_pos_bound (SoFi.m_readPosition q) m_size ltac:(lia)). lia.
Qed.

(** So do the steps of an uninterrupted [popIf]. *)
Lemma popIf_alone (d : A) (q : SoFi.t A) f p P O C : SoFi.m_size q = m_size -> Z.of_nat (length (SoFi.m_data q)) = m_size ->
  rtc pop_step (mkConfig (embed q) p CIdle P O C)
    (mkConfig (embed (SoFi.popIf d q f).2) p CIdle P O (C ++ (pair f <$> option_list (SoFi.popIf d q f).1))).
Proof.
  intros Es El. set (r := SoFi.m_readPosition q). unfold SoFi.popIf. fold r. rewrite Es.
  assert (Hlt : (index r < length (SoFi.m_data q))%nat) by (unfold index; pose proof (Z.mod_pos_bound r m_size ltac:(lia)); lia).
  eapply rtc_l; [by apply (pop_call _ f)|]. eapply rtc_l; [by apply (pop_load _ f)|]. eapply rtc_l; [by apply (pop_compare _ f r)|].
  unfold to_cons. simpl. destruct (r =? SoFi.m_writePosition q); simpl.
  - rewrite app_nil_r. by match goal with |- rtc _ ?c _ => apply rtc_once, (pop_exchange c f r None) end.
  - eapply rtc_l; [apply (pop_copy _ f r (aget d (SoFi.m_data q) (r mod m_size))); [done|]|].
    { intros x Hx. simpl in Hx. pose proof (embed_read d q r Hlt) as Hr. simpl in Hr. rewrite Hr in Hx. by injection Hx. }
    eapply rtc_l; [by apply (pop_verify _ f r)|]. unfold to_cons. simpl. rewrite Z.eqb_refl. simpl.
    destruct (f (aget d (SoFi.m_data q) (r mod m_size))); simpl.
    + by match goal with |- rtc _ ?c _ => apply rtc_once, (pop_exchange c f r (Some (aget d (SoFi.m_data q) (r mod m_size)))) end.
    + rewrite app_nil_r. by match goal with |- rtc _ ?c _ => apply rtc_once, (pop_exchange c f r None) end.
Qed.
End threads.

(** C4: SoFi loses and invents nothing, however its producer and its consumer
    interleave.  The pushed values are those that left the queue followed by its
    content; each that left was either returned by a pop or by the push that
    overflowed (or is about to be), once, and both in the order of the pushes, also if
    cells are overwritten while they are read.  The content has at most the capacity,
    and one value more while a push is between its two positions; every popped value
    satisfies the condition of its call; a pop that finds nothing looked at an empty
    queue, and the value that it tests while the read position is the same is the
    oldest one. *)
Theorem sofi_threads_lossless {A} (m_size : Z) (c : @config A) :
  1 <= m_size -> reachable m_size c -> Z.of_nat (length (pushed c)) + m_size < 2 ^ 64 ->
  exists removed content, pushed c = removed ++ content /\
    accounted removed (overflowed c ++ pending (pushed c) (prod c)) (popped c).*2 /\
    Z.of_nat (length content) <= room m_size (prod c) /\
    Forall (fun x => x.1 x.2 = true) (popped c) /\
    (forall f r, cons_ c = CCompare f r -> r = m_writePosition (mem c) -> content = []) /\
    (forall f r v, cons_ c = CVerify f r v -> r = m_readPosition (mem c) -> exists rest, content = v :: rest).
Proof.
  intros Hs Hr B. destruct (reachable_sofi_inv m_size Hs c Hr B) as [M R Pi Ci T V]. pose proof M as [M1 M2 M3 M4].
  set (n := Z.to_nat (m_readPosition (mem c))) in *. exists (take n (pushed c)), (drop n (pushed c)).
  split; [by rewrite take_drop|split; [done|split; [rewrite length_drop; lia|split; [done|split]]]].
  - intros f r E Er. rewrite E in Ci. simpl in Ci. apply drop_ge. lia.
  - intros f r v E Er. rewrite E in Ci. destruct Ci as (H1 & H2 & H3). specialize (H3 Er). unfold at_position in H3. subst r.
    exists (drop (S n) (pushed c)). by apply drop_S.
Qed.

Lemma reachable_rtc {A} m_size (c : @config A) : rtc (step m_size) (start m_size) c -> reachable m_size c.
Proof.
  intros H. apply (rtc_ind_r (reachable m_size) (start m_size)) in H; [done|constructor|]. intros x y _ Hs Hx. by eapply r_step.
Qed.

(** A queue for one value: while the consumer copies the first value, the second push
    overflows and takes it; the consumer tries again and gets the second. *)
Definition overtaken : @config Z :=
  mkConfig (mkShared [Some 1; Some 2] 2 2) PIdle CIdle [1; 2] [1] [(fun _ => true, 2)].

(** One step from the current configuration, and the next one evaluated. *)
Ltac side := first [reflexivity | by intros ? [= <-]].
Ltac evaluate := match goal with |- rtc ?R ?c ?e => let d := eval vm_compute in c in change (rtc R d e) end.
Ltac p_step h := match goal with |- rtc _ ?c _ => eapply rtc_l; [left; eapply (h c); side|]; evaluate end.
Ltac c_step h := match goal with |- rtc _ ?c _ => eapply rtc_l; [right; eapply (h c); side|]; evaluate end.

Lemma overtaken_reachable : reachable 2 overtaken.
Proof.
  apply reachable_rtc. evaluate. p_step (fun c => @push_call Z 2 c 1).
  p_step (@push_load Z 2). p_step (@push_begin Z 2). p_step (@push_end Z 2). p_step (@push_store Z 2). p_step (@push_compare Z 2).
  c_step (fun c => @pop_call Z 2 c (fun _ => true)). c_step (@pop_load Z 2). c_step (@pop_compare Z 2).
  c_step (fun c => @pop_copy Z 2 c (fun _ => true) 0 1). p_step (fun c => @push_call Z 2 c 2).
  p_step (@push_load Z 2). p_step (@push_begin Z 2). p_step (@push_end Z 2). p_step (@push_store Z 2). p_step (@push_compare Z 2).
  p_step (@push_exchange Z 2). c_step (@pop_verify Z 2). c_step (@pop_retry Z 2). p_step (fun c => @push_overflow Z 2 c 0 1).
  c_step (@pop_compare Z 2). c_step (fun c => @pop_copy Z 2 c (fun _ => true) 1 2). c_step (@pop_verify Z 2).
  c_step (@pop_exchange Z 2). apply rtc_refl.
Qed.

Lemma sofi_threads_lossless_witness :
  exists removed content, [1; 2] = removed ++ content /\ accounted removed [1] [2] /\ (length content <= 1)%nat.
Proof.
  destruct (sofi_threads_lossless 2 overtaken ltac:(lia) overtaken_reachable ltac:(simpl; lia)) as (removed & content & H1 & H2 & H3 & _).
  exists removed, content. simpl in *. split; [exact H1|split; [exact H2|lia]].
Defined.
End SofiThreads.

(** ** FiFo *)

Module FifoThreads.
Import SofiThreads.
Section threads.
Context {A : Type} (Capacity : Z).

(** The control points of [push], which first calls [is_full], and of [pop]. *)
Inductive producer :=
  | PIdle
  | PFull (value : A)                             (* is_full: load m_write_pos *)
  | PFullRead (value : A) (w : Z)                 (* is_full: load m_read_pos, compare *)
  | PLoad (value : A)                             (* load m_write_pos *)
  | PWrite (value : A) (currentWritePos : Z)      (* begin to write the cell *)
  | PWriting (value : A) (currentWritePos : Z)
  | PStore (value : A) (currentWritePos : Z).     (* store m_write_pos *)

Inductive consumer :=
  | CIdle
  | CLoad                                         (* load m_read_pos *)
  | CCompare (currentReadPos : Z)                 (* load m_write_pos, compare *)
  | CCopy (currentReadPos : Z)                    (* copy the value *)
  | CStore (currentReadPos : Z) (out : A).        (* store m_read_pos *)

(** The values that were pushed and popped, and those that were refused. *)
Record config := mkConfig {
  mem : @shared A; prod : producer; cons_ : consumer; pushed : list A; refused : list A; popped : list A }.

Notation index := (index Capacity).
Notation write_cell := (write_cell Capacity).
Notation reads := (reads Capacity).

Definition to_prod (s : shared) (p : producer) (c : config) : config := mkConfig s p (cons_ c) (pushed c) (refused c) (popped c).
Definition to_cons (s : shared) (k : consumer) (c : config) : config := mkConfig s (prod c) k (pushed c) (refused c) (popped c).

Inductive step : config -> config -> Prop :=
  | push_call c v : prod c = PIdle -> step c (to_prod (mem c) (PFull v) c)
  | push_full c v : prod c = PFull v -> step c (to_prod (mem c) (PFullRead v (m_writePosition (mem c))) c)
  | push_refuse c v w : prod c = PFullRead v w -> w = u64 (m_readPosition (mem c) + Capacity) ->
      step c (mkConfig (mem c) PIdle (cons_ c) (pushed c) (refused c ++ [v]) (popped c))
  | push_accept c v w : prod c = PFullRead v w -> w <> u64 (m_readPosition (mem c) + Capacity) -> step c (to_prod (mem c) (PLoad v) c)
  | push_load c v : prod c = PLoad v -> step c (to_prod (mem c) (PWrite v (m_writePosition (mem c))) c)
  | push_begin c v w : prod c = PWrite v w -> step c (to_prod (write_cell w None (mem c)) (PWriting v w) c)
  | push_end c v w : prod c = PWriting v w -> step c (to_prod (write_cell w (Some v) (mem c)) (PStore v w) c)
  | push_store c v w : prod c = PStore v w ->
      step c (mkConfig (set_write (u64 (w + 1)) (mem c)) PIdle (cons_ c) (pushed c ++ [v]) (refused c) (popped c))
  | pop_call c : cons_ c = CIdle -> step c (to_cons (mem c) CLoad c)
  | pop_load c : cons_ c = CLoad -> step c (to_cons (mem c) (CCompare (m_readPosition (mem c))) c)
  | pop_compare c r : cons_ c = CCompare r ->
      step c (to_cons (mem c) (if r =? m_writePosition (mem c) then CIdle else CCopy r) c)
  | pop_copy c r v : cons_ c = CCopy r -> reads r (mem c) v -> step c (to_cons (mem c) (CStore r v) c)
  | pop_store c r v : cons_ c = CStore r v ->
      step c (mkConfig (set_read (u64 (r + 1)) (mem c)) (prod c) CIdle (pushed c) (refused c) (popped c ++ [v])).

Definition start : config := mkConfig (mkShared (replicate (Z.to_nat Capacity) None) 0 0) PIdle CIdle [] [] [].

Inductive reachable : config -> Prop :=
  | r_start : reachable start
  | r_step c c' : reachable c -> step c c' -> reachable c'.

Context (Hcap : 1 <= Capacity).

(** The producer has a free cell once it found one; it alone moves the write position. *)
Definition prod_inv (s : @shared A) (p : producer) : Prop :=
  match p with
  | PIdle | PFull _ => True
  | PFullRead _ w => w = m_writePosition s
  | PLoad _ => m_writePosition s - m_readPosition s <= Capacity - 1
  | PWrite _ w | PWriting _ w => w = m_writePosition s /\ m_writePosition s - m_readPosition s <= Capacity - 1
  | PStore v w =>
      w = m_writePosition s /\ m_writePosition s - m_readPosition s <= Capacity - 1 /\ m_data s !! index w = Some (Some v)
  end.

Definition cons_inv (s : @shared A) (P : list A) (k : consumer) : Prop :=
  match k with
  | CIdle | CLoad => True
  | CCompare r => r = m_readPosition s
  | CCopy r => r = m_readPosition s /\ r < m_writePosition s
  | CStore r v => r = m_readPosition s /\ r < m_writePosition s /\ at_position P r v
  end.

Record inv c : Prop := {
  i_mem : mem_inv Capacity (mem c) (pushed c);
  i_room : m_writePosition (mem c) - m_readPosition (mem c) <= Capacity;
  i_prod : prod_inv (mem c) (prod c);
  i_cons : cons_inv (mem c) (pushed c) (cons_ c);
  i_popped : popped c = take (Z.to_nat (m_readPosition (mem c))) (pushed c) }.

Lemma fifo_step_inv c c' : inv c -> step c c' -> Z.of_nat (length (pushed c')) + Capacity < 2 ^ 64 -> inv c'.
Proof.
  intros [M R Pi Ci T] Hstep B. pose proof M as [M1 M2 M3 M4].
  destruct Hstep as [c v E|c v E|c v w E Ew|c v w E Ew|c v E|c v w E|c v w E|c v w E|c E|c E|c r E|c r v E Hr|c r v E];
    rewrite E in *; simpl in *; try (by constructor).
  - subst w. rewrite u64_small in Ew by lia. constructor; simpl; try done. lia.
  - destruct Pi as [-> Hw]. constructor; simpl; try done. by apply write_next.
  - destruct Pi as [-> Hw]. constructor; simpl; try done; [by apply write_next|].
    split; [done|split; [done|]]. apply list_lookup_insert_eq. by eapply index_lt.
  - destruct Pi as (-> & Hw & Hc). rewrite length_app in B. simpl in B. rewrite u64_small by lia.
    constructor; simpl; try done; [|lia| |].
    + constructor; simpl; [done|rewrite length_app; simpl; lia|lia|]. intros k Hk. destruct (decide (k = m_writePosition (mem c))) as [->|Hne].
      * exists v. split; [|done]. unfold at_position. rewrite M2, Nat2Z.id. by apply list_lookup_middle.
      * destruct (M4 k) as (x & Hx & Hx'); [lia|]. exists x. split; [by apply at_position_app|done].
    + destruct (cons_ c); simpl in *; try done; [lia|]. destruct Ci as (? & ? & ?). split; [done|split; [lia|by apply at_position_app]].
    + by rewrite take_app_le by lia.
  - constructor; simpl; try done. case_zb; simpl; [done|]. lia.
  - destruct Ci as [-> Hlt]. destruct (M4 (m_readPosition (mem c))) as (x & Hx & Hx'); [lia|]. rewrite (Hr x Hx') in *.
    by constructor.
  - destruct Ci as (-> & Hlt & Hv). rewrite u64_small by lia. constructor; simpl; try done.
    + constructor; simpl; try done; [lia|]. intros k Hk. apply M4. lia.
    + lia.
    + destruct (prod c); simpl in *; try done; lia || (destruct Pi as [? Pi]; split; [done|]; try lia; destruct Pi; split; [lia|done]).
    + by rewrite (take_next _ _ v), T by (done || lia).
Qed.

Lemma reachable_fifo_inv c : reachable c -> Z.of_nat (length (pushed c)) + Capacity < 2 ^ 64 -> inv c.
Proof.
  induction 1 as [|c c' _ IH Hstep]; intros B.
  - constructor; simpl; try done; [|lia]. constructor; simpl; try done; [|lia]. rewrite length_replicate. lia.
  - assert (Hle : (length (pushed c) <= length (pushed c'))%nat) by (destruct Hstep; simpl; try done; rewrite length_app; lia).
    eapply fifo_step_inv; try done. apply IH. lia.
Qed.

(** What was pushed is what was popped and then the content, of at most [Capacity]
    values, in every interleaving; a push is only refused by a full queue, and a pop
    only finds nothing in an empty one. *)
Theorem fifo_threads_exact c : reachable c -> Z.of_nat (length (pushed c)) + Capacity < 2 ^ 64 ->
  exists content, pushed c = popped c ++ content /\ Z.of_nat (length content) <= Capacity /\
    (forall v w, prod c = PFullRead v w -> w = u64 (m_readPosition (mem c) + Capacity) -> Z.of_nat (length content) = Capacity) /\
    (forall r, cons_ c = CCompare r -> r = m_writePosition (mem c) -> content = []).
Proof.
  intros Hr B. destruct (reachable_fifo_inv c Hr B) as [M R Pi Ci ->]. pose proof M as [M1 M2 M3 M4].
  exists (drop (Z.to_nat (m_readPosition (mem c))) (pushed c)). rewrite take_drop, length_drop.
  split; [done|split; [lia|split]].
  - intros v w E Ew. rewrite E in Pi. simpl in Pi. rewrite u64_small in Ew by lia. lia.
  - intros r E Er. rewrite E in Ci. simpl in Ci. apply drop_ge. lia.
Qed.
End threads.
End FifoThreads.
