(* ===== verification/IndexQueue.v ===== *)
(** * CyclicIndex and IndexQueue

    [cyclic_index.inl] and [index_queue.inl]: a queue of buffer indices whose
    cells carry the cycle in which they were written, so that readers can tell
    whether a cell has been filled.  The operations are modelled without
    interference, loops with fuel; one round suffices in every well-formed
    state. *)

From S2P Require Import Prelude Queue.

Module CyclicIndex.
Section ops.
Context (CycleLength : Z).

Definition MAX_VALUE : Z := UINT64_MAX.
Definition MAX_CYCLE : Z := MAX_VALUE / CycleLength.
Definition INDEX_AT_MAX_VALUE : Z := MAX_VALUE mod CycleLength.
Definition OVERFLOW_START_INDEX : Z := (INDEX_AT_MAX_VALUE + 1) mod CycleLength.

(** [CyclicIndex(index, cycle)] *)
Definition make (index cycle : Z) : Z := u64 (index + u64 (cycle * CycleLength)).
Definition getIndex (v : Z) : Z := v mod CycleLength.
Definition getCycle (v : Z) : Z := v / CycleLength.

Definition add (v value : Z) : Z :=
  let delta := MAX_VALUE - value in
  if delta <? v then u64 (OVERFLOW_START_INDEX + (v - delta - 1)) else u64 (v + value).

Definition next (v : Z) : Z := if v =? MAX_VALUE then OVERFLOW_START_INDEX else u64 (v + 1).

Definition isOneCycleBehind (this other : Z) : bool :=
  let thisCycle := getCycle this in
  let otherCycle := getCycle other in
  if thisCycle =? MAX_CYCLE then otherCycle =? 0 else u64 (thisCycle + 1) =? otherCycle.

(** [operator-] *)
Definition sub (v rhs : Z) : Z := i64 (v - rhs).

Context (HC : 0 < CycleLength).

Lemma add_small v n : 0 <= v -> 0 <= n -> v + n < 2 ^ 64 -> add v n = v + n.
Proof.
  intros Hv Hn H. unfold add, MAX_VALUE, UINT64_MAX. rewrite (proj2 (Z.ltb_ge _ _)) by lia. apply u64_small. lia.
Qed.

Lemma make_small i k : 0 <= i < CycleLength -> 0 <= k -> (k + 1) * CycleLength < 2 ^ 64 ->
  make i k = i + k * CycleLength.
Proof. intros Hi Hk H. unfold make. rewrite (u64_small (k * _)) by nia. apply u64_small. nia. Qed.

Lemma getIndex_make i k : 0 <= i < CycleLength -> getIndex (i + k * CycleLength) = i.
Proof. intros Hi. unfold getIndex. rewrite Z.mod_add by lia. by apply Z.mod_small. Qed.

Lemma getCycle_make i k : 0 <= i < CycleLength -> getCycle (i + k * CycleLength) = k.
Proof. intros Hi. unfold getCycle. rewrite Z.div_add by lia. rewrite Z.div_small by done. lia. Qed.

(** Away from the end of the range the cycles are compared as integers. *)
Lemma isOneCycleBehind_spec v p :
  0 <= getCycle v -> 0 <= p -> p + CycleLength < 2 ^ 64 -> getCycle v <= p / CycleLength ->
  isOneCycleBehind v p = (getCycle v + 1 =? p / CycleLength).
Proof.
  intros Hv Hp Hb Hle. unfold isOneCycleBehind. fold (getCycle p).
  assert (Hlt : p / CycleLength < MAX_CYCLE).
  { unfold MAX_CYCLE, MAX_VALUE, UINT64_MAX.
    assert (Hd : (p + CycleLength) / CycleLength <= (2 ^ 64 - 1) / CycleLength) by (apply Z.div_le_mono; lia).
    replace (p + CycleLength) with (p + 1 * CycleLength) in Hd by lia. rewrite Z.div_add in Hd by lia. lia. }
  rewrite (proj2 (Z.eqb_neq _ _)) by lia. rewrite u64_small; [done|].
  assert (p / CycleLength <= p) by (apply Z.div_le_upper_bound; nia). lia.
Qed.
End ops.
End CyclicIndex.

Module IndexQueue.

Record t := mk { m_cells : list Z; m_readPosition : Z; m_writePosition : Z }.

Section ops.
Context (Capacity : Z).
Notation getIndex := (CyclicIndex.getIndex Capacity).
Notation getCycle := (CyclicIndex.getCycle Capacity).
Notation isOneCycleBehind := (CyclicIndex.isOneCycleBehind Capacity).
Notation plus := (CyclicIndex.add Capacity).

Definition ConstructEmpty : t := mk (replicate (Z.to_nat Capacity) 0) Capacity Capacity.
Definition ConstructFull : t := mk (seqZ 0 Capacity) 0 Capacity.

Definition loadvalueAt (q : t) (position : Z) : Z := aget 0 (m_cells q) (getIndex position).

Definition set_read (r : Z) (q : t) : t := mk (m_cells q) r (m_writePosition q).
Definition set_write (w : Z) (q : t) : t := mk (m_cells q) (m_readPosition q) w.
Definition set_cell (i v : Z) (q : t) : t := mk (aset (m_cells q) i v) (m_readPosition q) (m_writePosition q).

(** [m_writePosition.compare_exchange_strong(expected, desired)]: the queue and
    the value of [expected] afterwards. *)
Definition cas_write (q : t) (expected desired : Z) : t * Z :=
  if m_writePosition q =? expected then (set_write desired q, expected) else (q, m_writePosition q).

(** The loop of [push]: where the index was published. *)
Fixpoint push_loop (fuel : nat) (q : t) (writePosition index : Z) : option (Z * t) :=
  match fuel with
  | O => None
  | S fuel =>
      let oldValue := loadvalueAt q writePosition in
      let cellIsFree := isOneCycleBehind oldValue writePosition in
      if cellIsFree then
        let newValue := CyclicIndex.make Capacity index (getCycle writePosition) in
        Some (writePosition, set_cell (getIndex writePosition) newValue q)
      else
        let writePositionRequiresUpdate := getCycle oldValue =? getCycle writePosition in
        if writePositionRequiresUpdate then
          let '(q, writePosition) := cas_write q writePosition (plus writePosition 1) in
          push_loop fuel q writePosition index
        else push_loop fuel q (m_writePosition q) index
  end.

Definition push (fuel : nat) (q : t) (index : Z) : option t :=
  match push_loop fuel q (m_writePosition q) index with
  | Some (writePosition, q) => Some (fst (cas_write q writePosition (plus writePosition 1)))
  | None => None
  end.

Fixpoint pop_loop (fuel : nat) (q : t) (readPosition : Z) : option (option Z * t) :=
  match fuel with
  | O => None
  | S fuel =>
      let value := loadvalueAt q readPosition in
      let cellIsValidToRead := getCycle readPosition =? getCycle value in
      if cellIsValidToRead then
        if m_readPosition q =? readPosition
        then Some (Some (getIndex value), set_read (plus readPosition 1) q)
        else pop_loop fuel q (m_readPosition q)
      else if isOneCycleBehind value readPosition then Some (None, q)
      else pop_loop fuel q (m_readPosition q)
  end.

Definition pop (fuel : nat) (q : t) : option (option Z * t) := pop_loop fuel q (m_readPosition q).

Definition popIfFull (q : t) : option Z * t :=
  let writePosition := m_writePosition q in
  let readPosition := m_readPosition q in
  let value := loadvalueAt q readPosition in
  let isFull := (getIndex writePosition =? getIndex readPosition)
                && isOneCycleBehind readPosition writePosition in
  if isFull then (Some (getIndex value), set_read (plus readPosition 1) q) else (None, q).

Definition popIfSizeIsAtLeast (fuel : nat) (requiredSize : Z) (q : t) : option (option Z * t) :=
  if requiredSize =? 0 then pop fuel q
  else
    let writePosition := m_writePosition q in
    let readPosition := m_readPosition q in
    let delta := CyclicIndex.sub writePosition readPosition in
    if delta <? 0 then Some (None, q)
    else if requiredSize <=? delta then
      let value := loadvalueAt q readPosition in
      Some (Some (getIndex value), set_read (plus readPosition 1) q)
    else Some (None, q).

Definition empty (q : t) : bool :=
  let readPosition := m_readPosition q in
  isOneCycleBehind (loadvalueAt q readPosition) readPosition.

(** ** Representation *)

(** The cells of the positions from [read] to [read + Capacity]: filled ones
    carry the cycle of their position, free ones the cycle before. *)
Record Rep (q : t) (l : list Z) (n : Z) : Prop := {
  rep_cap : 0 < Capacity;
  rep_cells : Z.of_nat (length (m_cells q)) = Capacity;
  rep_read : 0 <= m_readPosition q;
  rep_write : m_writePosition q = m_readPosition q + Z.of_nat (length l);
  rep_len : Z.of_nat (length l) <= Capacity;
  rep_range : Forall (fun i => 0 <= i < Capacity) l;
  rep_filled : forall (k : nat) i, l !! k = Some i ->
      loadvalueAt q (m_readPosition q + Z.of_nat k)
      = i + (m_readPosition q + Z.of_nat k) / Capacity * Capacity;
  rep_free : forall p, m_writePosition q <= p < m_readPosition q + Capacity ->
      0 <= getCycle (loadvalueAt q p) /\ getCycle (loadvalueAt q p) + 1 = p / Capacity;
  rep_room : m_writePosition q + 2 * Capacity + n < 2 ^ 64;
  rep_n : 0 <= n }.

Lemma index_in_range q l n p : Rep q l n -> in_range (m_cells q) (getIndex p).
Proof.
  intros []. unfold in_range, CyclicIndex.getIndex. pose proof (Z.mod_pos_bound p Capacity rep_cap0). lia.
Qed.

(** A free cell at the write position. *)
Lemma index_push_ok q l n i fuel :
  Rep q l n -> 0 < n -> Z.of_nat (length l) < Capacity -> 0 <= i < Capacity ->
  exists q', push (S fuel) q i = Some q' /\ Rep q' (l ++ [i]) (n - 1).
Proof.
  intros H Hn Hl Hi. pose proof H as []. unfold push. simpl.
  set (w := m_writePosition q) in *.
  destruct (rep_free0 w) as [Hc0 Hc1]; [lia|].
  rewrite CyclicIndex.isOneCycleBehind_spec by lia. rewrite (proj2 (Z.eqb_eq _ _)) by done.
  unfold cas_write. simpl. fold w. rewrite Z.eqb_refl. rewrite CyclicIndex.add_small by lia.
  assert (Hw : w / Capacity * Capacity <= w < (w / Capacity + 1) * Capacity).
  { pose proof (Z.div_mod w Capacity ltac:(lia)). pose proof (Z.mod_pos_bound w Capacity rep_cap0). nia. }
  assert (Hcy : 0 <= w / Capacity) by lia.
  unfold CyclicIndex.getCycle at 1. rewrite CyclicIndex.make_small by nia.
  eexists. split; [done|].
  assert (Hld : forall p, loadvalueAt (set_write (w + 1) (set_cell (getIndex w) (i + w / Capacity * Capacity) q)) p
                = if decide (getIndex w = getIndex p) then i + w / Capacity * Capacity else loadvalueAt q p).
  { intros p. unfold loadvalueAt. simpl. apply aget_aset. by eapply index_in_range. }
  constructor; simpl; try done; rewrite ?length_aset, ?length_app; simpl; try lia.
  - apply Forall_app. split; [done|]. by constructor.
  - intros k j Hk. rewrite Hld. apply lookup_app_Some in Hk as [Hk|[Hk1 Hk2]].
    + pose proof (lookup_lt_Some _ _ _ Hk). rewrite decide_False; [by apply rep_filled0|].
      unfold CyclicIndex.getIndex. apply not_eq_sym, mod_distinct; lia.
    + assert (k = length l) as -> by (apply lookup_lt_Some in Hk2; simpl in Hk2; lia).
      rewrite Nat.sub_diag in Hk2. simplify_eq/=. rewrite <- rep_write0. by rewrite decide_True.
  - intros p Hp. rewrite Hld. rewrite decide_False; [apply rep_free0; lia|].
    unfold CyclicIndex.getIndex. apply mod_distinct; lia.
Qed.

Lemma load_first q i l n : Rep q (i :: l) n ->
  loadvalueAt q (m_readPosition q) = i + m_readPosition q / Capacity * Capacity /\ 0 <= i < Capacity.
Proof.
  intros []. specialize (rep_filled0 0%nat i eq_refl). rewrite Z.add_0_r in rep_filled0.
  split; [done|]. by inversion rep_range0.
Qed.

(** Moving the read position past the first element. *)
Lemma advance_ok q i l n : Rep q (i :: l) n -> 0 < n -> Rep (set_read (m_readPosition q + 1) q) l (n - 1).
Proof.
  intros H Hn. destruct (load_first q i l n H) as [Hld Hi]. destruct H.
  constructor; simpl in *; try done; try lia.
  - by inversion rep_range0.
  - intros k j Hk. specialize (rep_filled0 (S k) j Hk).
    replace (m_readPosition q + 1 + Z.of_nat k) with (m_readPosition q + Z.of_nat (S k)) by lia. done.
  - intros p Hp. destruct (decide (p = m_readPosition q + Capacity)) as [->|Hne]; [|apply rep_free0; lia].
    replace (loadvalueAt (set_read (m_readPosition q + 1) q) (m_readPosition q + Capacity))
      with (loadvalueAt q (m_readPosition q)).
    + rewrite Hld, CyclicIndex.getCycle_make by done.
      replace (m_readPosition q + Capacity) with (m_readPosition q + 1 * Capacity) by lia.
      rewrite Z.div_add by lia. split; [apply Z.div_pos; lia|done].
    + unfold loadvalueAt, CyclicIndex.getIndex. simpl.
      replace (m_readPosition q + Capacity) with (m_readPosition q + 1 * Capacity) by lia.
      by rewrite Z.mod_add by lia.
Qed.

Lemma index_rep_less q l n m : Rep q l n -> 0 <= m <= n -> Rep q l m.
Proof. intros [] Hm. constructor; try done; lia. Qed.

(** Popping an empty queue changes nothing. *)
Lemma pop_empty q n fuel : Rep q [] n -> pop (S fuel) q = Some (None, q).
Proof.
  intros []. unfold pop. simpl in *. destruct (rep_free0 (m_readPosition q)) as [Hc0 Hc1]; [lia|].
  unfold CyclicIndex.getCycle at 1. rewrite (proj2 (Z.eqb_neq _ _)) by lia.
  by rewrite CyclicIndex.isOneCycleBehind_spec, (proj2 (Z.eqb_eq _ _)) by lia.
Qed.

Lemma index_pop_ok q l n fuel : Rep q l n -> 0 < n ->
  exists q', pop (S fuel) q = Some (fst (spec_pop l), q') /\ Rep q' (snd (spec_pop l)) (n - 1).
Proof.
  intros H Hn. unfold pop. simpl. destruct l as [|i l]; simpl.
  - exists q. split; [by apply (pop_empty q n fuel)|]. apply index_rep_less with n; [done|lia].
  - destruct (load_first q i l n H) as [Hld Hi]. pose proof H as [].
    rewrite Hld, CyclicIndex.getCycle_make, CyclicIndex.getIndex_make by done.
    unfold CyclicIndex.getCycle. rewrite !Z.eqb_refl. simpl in *. rewrite CyclicIndex.add_small by lia.
    eexists. split; [done|]. by apply advance_ok with i.
Qed.

Lemma popIfFull_ok q l n : Rep q l n -> 0 < n ->
  exists q', popIfFull q = (if decide (Z.of_nat (length l) = Capacity) then fst (spec_pop l) else None, q') /\
    Rep q' (if decide (Z.of_nat (length l) = Capacity) then snd (spec_pop l) else l) (n - 1).
Proof.
  intros H Hn. pose proof H as []. unfold popIfFull. rewrite rep_write0.
  destruct l as [|i l].
  - case_decide as D; [simpl in D; lia|]. simpl. rewrite Z.add_0_r, Z.eqb_refl. simpl.
    rewrite CyclicIndex.isOneCycleBehind_spec; simpl in *; try lia; try done;
      [|apply Z.div_pos; lia].
    rewrite (proj2 (Z.eqb_neq _ _)) by (unfold CyclicIndex.getCycle; lia).
    exists q. split; [done|]. apply index_rep_less with n; [done|lia].
  - destruct (load_first q i l n H) as [Hld Hi]. case_decide as D.
    + rewrite D. unfold CyclicIndex.getIndex at 1.
      replace (m_readPosition q + Capacity) with (m_readPosition q + 1 * Capacity) by lia.
      rewrite Z.mod_add by lia. unfold CyclicIndex.getIndex at 1. rewrite Z.eqb_refl.
      rewrite CyclicIndex.isOneCycleBehind_spec; try lia;
        [|apply Z.div_pos; lia|unfold CyclicIndex.getCycle; apply Z.div_le_mono; lia].
      rewrite Z.div_add by lia. unfold CyclicIndex.getCycle. rewrite Z.eqb_refl. cbn [andb].
      rewrite Hld, CyclicIndex.getIndex_make, CyclicIndex.add_small by (done || lia).
      eexists. split; [done|]. by apply advance_ok with i.
    + unfold CyclicIndex.getIndex at 1. rewrite (proj2 (Z.eqb_neq _ _)).
      { exists q. split; [done|]. apply index_rep_less with n; [done|lia]. }
      unfold CyclicIndex.getIndex. apply not_eq_sym, mod_distinct; simpl in *; lia.
Qed.

Lemma popIfSizeIsAtLeast_ok q l n k fuel : Rep q l n -> 0 < n -> 0 <= k -> Capacity < 2 ^ 62 ->
  exists q', popIfSizeIsAtLeast (S fuel) k q
             = Some (if decide (k <= Z.of_nat (length l)) then fst (spec_pop l) else None, q') /\
    Rep q' (if decide (k <= Z.of_nat (length l)) then snd (spec_pop l) else l) (n - 1).
Proof.
  intros H Hn Hk Hc. unfold popIfSizeIsAtLeast. destruct (Z.eqb_spec k 0) as [->|Hk0].
  { case_decide; [by apply index_pop_ok|lia]. }
  pose proof H as []. unfold CyclicIndex.sub. rewrite rep_write0, Z.add_simpl_l, i64_small by lia.
  rewrite (proj2 (Z.ltb_ge _ _)) by lia. case_decide as D.
  - rewrite (proj2 (Z.leb_le _ _)) by lia. destruct l as [|i l]; [simpl in D; lia|].
    destruct (load_first q i l n H) as [Hld Hi]. simpl in *.
    rewrite Hld, CyclicIndex.getIndex_make, CyclicIndex.add_small by (done || lia).
    eexists. split; [done|]. by apply advance_ok with i.
  - rewrite (proj2 (Z.leb_gt _ _)) by lia. exists q. split; [done|]. apply index_rep_less with n; [done|lia].
Qed.

Lemma empty_ok q l n : Rep q l n -> empty q = bool_decide (l = []).
Proof.
  intros H. pose proof H as []. unfold empty. destruct l as [|i l]; simpl in *.
  - destruct (rep_free0 (m_readPosition q)) as [Hc0 Hc1]; [lia|].
    rewrite CyclicIndex.isOneCycleBehind_spec by lia. apply Z.eqb_eq. lia.
  - destruct (load_first q i l n H) as [Hld Hi].
    assert (0 <= m_readPosition q / Capacity) by (apply Z.div_pos; lia).
    rewrite CyclicIndex.isOneCycleBehind_spec; rewrite ?Hld, ?CyclicIndex.getCycle_make; try done; try lia.
Qed.

Context (HC : 0 < Capacity < 2 ^ 60).

Lemma ConstructFull_ok : Rep ConstructFull (seqZ 0 Capacity) (2 ^ 62).
Proof.
  assert (Hlen : length (seqZ 0 Capacity) = Z.to_nat Capacity) by apply length_seqZ.
  constructor; simpl; try lia.
  - apply Forall_forall. intros i Hi%elem_of_seqZ. lia.
  - intros k i Hk. apply lookup_seqZ in Hk as [-> Hk]. unfold loadvalueAt, CyclicIndex.getIndex. simpl.
    rewrite Z.mod_small, Z.div_small by lia. unfold aget. rewrite (proj2 (Z.ltb_ge _ _)) by lia.
    rewrite Z.add_0_l, Nat2Z.id, lookup_seqZ_lt by lia. simpl. lia.
Qed.

Lemma ConstructEmpty_ok : Rep ConstructEmpty [] (2 ^ 62).
Proof.
  constructor; simpl; try lia; try done; [rewrite length_replicate; lia|].
  intros p Hp. assert (E : loadvalueAt ConstructEmpty p = 0).
  { unfold loadvalueAt, aget. simpl. destruct (getIndex p <? 0); [done|].
    destruct (replicate _ _ !! _) as [x|] eqn:E; [|done]. by apply lookup_replicate in E as [-> _]. }
  rewrite E. unfold CyclicIndex.getCycle. rewrite Z.div_0_l by lia. split; [lia|].
  replace p with ((p - Capacity) + 1 * Capacity) by lia. rewrite Z.div_add, Z.div_small by lia. lia.
Qed.
End ops.
End IndexQueue.
