(* ===== verification/LockFreeQueue.v ===== *)
(** * LockFreeQueue and ResizeableLockFreeQueue

    [lockfree_queue.inl] and [resizeable_lockfree_queue.inl]: a buffer whose
    free and used slots circulate through two [IndexQueue]s; the resizeable
    queue keeps a third set of indices that its current capacity does not use.
    Operations run without interference; [fuel] bounds the retry loops and
    [None] stands for a call that has not returned within it. *)

From S2P Require Import Prelude Queue IndexQueue.

Module LockFreeQueue.

Record t (A : Type) := mk {
  m_freeIndices : IndexQueue.t;
  m_usedIndices : IndexQueue.t;
  m_buffer : list A;
  m_size : Z }.
Arguments mk {A}.
Arguments m_freeIndices {A}.
Arguments m_usedIndices {A}.
Arguments m_buffer {A}.
Arguments m_size {A}.

Section ops.
Context {A : Type} (d : A) (Capacity : Z) (fuel : nat).

Definition ctor : t A :=
  mk (IndexQueue.ConstructFull Capacity) (IndexQueue.ConstructEmpty Capacity)
     (replicate (Z.to_nat Capacity) d) 0.

Definition set_free (x : IndexQueue.t) (q : t A) : t A := mk x (m_usedIndices q) (m_buffer q) (m_size q).
Definition set_used (x : IndexQueue.t) (q : t A) : t A := mk (m_freeIndices q) x (m_buffer q) (m_size q).

(** Moves the element out of the buffer. *)
Definition readBufferAt (q : t A) (index : Z) : A * t A :=
  (aget d (m_buffer q) index,
   mk (m_freeIndices q) (m_usedIndices q) (m_buffer q) (u64 (m_size q - 1))).

Definition writeBufferAt (q : t A) (index : Z) (value : A) : t A :=
  mk (m_freeIndices q) (m_usedIndices q) (aset (m_buffer q) index value) (u64 (m_size q + 1)).

(** Writing the value and publishing its index, the end of every push. *)
Definition publish (q : t A) (index : Z) (value : A) : option (t A) :=
  let q := writeBufferAt q index value in
  used ← IndexQueue.push Capacity fuel (m_usedIndices q) index; Some (set_used used q).

Definition tryPush (q : t A) (value : A) : option (bool * t A) :=
  '(index, free) ← IndexQueue.pop Capacity fuel (m_freeIndices q);
  match index with
  | None => Some (false, set_free free q)
  | Some index => q ← publish (set_free free q) index value; Some (true, q)
  end.

(** The loop of [pushImpl]: the index to write to and the evicted value. *)
Fixpoint acquire (n : nat) (q : t A) : option (Z * option A * t A) :=
  match n with
  | O => None
  | S n =>
      '(index, free) ← IndexQueue.pop Capacity fuel (m_freeIndices q);
      let q := set_free free q in
      match index with
      | Some index => Some (index, None, q)
      | None =>
          match IndexQueue.popIfFull Capacity (m_usedIndices q) with
          | (Some index, used) =>
              let '(evicted, q) := readBufferAt (set_used used q) index in Some (index, Some evicted, q)
          | (None, used) => acquire n (set_used used q)
          end
      end
  end.

Definition push (q : t A) (value : A) : option (option A * t A) :=
  '(index, evictedValue, q) ← acquire fuel q; q ← publish q index value; Some (evictedValue, q).

Definition pop (q : t A) : option (option A * t A) :=
  '(index, used) ← IndexQueue.pop Capacity fuel (m_usedIndices q);
  let q := set_used used q in
  match index with
  | None => Some (None, q)
  | Some index =>
      let '(result, q) := readBufferAt q index in
      free ← IndexQueue.push Capacity fuel (m_freeIndices q) index;
      Some (Some result, set_free free q)
  end.

Definition empty (q : t A) : bool := IndexQueue.empty Capacity (m_usedIndices q).
Definition size (q : t A) : Z := m_size q.
Definition capacity (q : t A) : Z := Capacity.

(** ** Representation

    [fl], [ul]: the free and used indices in queue order; [unused]: indices
    neither queue holds. *)

Record Rep (q : t A) (fl ul unused : list Z) (l : list A) (n : Z) : Prop := {
  rep_free : IndexQueue.Rep Capacity (m_freeIndices q) fl n;
  rep_used : IndexQueue.Rep Capacity (m_usedIndices q) ul n;
  rep_perm : fl ++ ul ++ unused ≡ₚ seqZ 0 Capacity;
  rep_buffer : Z.of_nat (length (m_buffer q)) = Capacity;
  rep_contents : l = aget d (m_buffer q) <$> ul;
  rep_size : m_size q = Z.of_nat (length l);
  rep_cap : Capacity < 2 ^ 60 }.

Lemma rep_index q fl ul un l n i : Rep q fl ul un l n -> i ∈ fl ++ ul ++ un -> 0 <= i < Capacity.
Proof. intros [] Hi. rewrite rep_perm0 in Hi. apply elem_of_seqZ in Hi. lia. Qed.

Lemma rep_nodup q fl ul un l n : Rep q fl ul un l n -> NoDup (fl ++ ul ++ un).
Proof. intros []. rewrite rep_perm0. apply NoDup_seqZ. Qed.

Lemma rep_count q fl ul un l n : Rep q fl ul un l n ->
  Z.of_nat (length fl) + Z.of_nat (length ul) + Z.of_nat (length un) = Capacity /\ length l = length ul.
Proof.
  intros []. apply Permutation_length in rep_perm0. rewrite !length_app, length_seqZ in rep_perm0.
  pose proof (IndexQueue.rep_cap _ _ _ _ rep_free0). split; [lia|]. subst l. apply length_fmap.
Qed.

Lemma fmap_aset_notin (b : list A) i v (ul : list Z) : i ∉ ul -> aget d (aset b i v) <$> ul = aget d b <$> ul.
Proof.
  induction ul as [|j ul IH]; intros Hi; [done|]. apply not_elem_of_cons in Hi as [Hne Hi].
  rewrite !fmap_cons, aget_aset_ne, IH by done. done.
Qed.

(** Publishing a value under an index that neither queue holds. *)
Lemma publish_ok q fl ul un l n i v f :
  fuel = S f ->
  IndexQueue.Rep Capacity (m_freeIndices q) fl (n - 1) -> IndexQueue.Rep Capacity (m_usedIndices q) ul n ->
  0 < n -> fl ++ i :: ul ++ un ≡ₚ seqZ 0 Capacity ->
  Z.of_nat (length (m_buffer q)) = Capacity -> l = aget d (m_buffer q) <$> ul ->
  m_size q = Z.of_nat (length l) -> Capacity < 2 ^ 60 ->
  exists q', publish q i v = Some q' /\ Rep q' fl (ul ++ [i]) un (l ++ [v]) (n - 1).
Proof.
  intros Hf Hfr Hus Hn Hp Hb Hl Hs Hc. unfold publish. simpl.
  assert (Hi : 0 <= i < Capacity).
  { assert (Hin : i ∈ fl ++ i :: ul ++ un) by (apply elem_of_app; right; by left).
    rewrite Hp in Hin. apply elem_of_seqZ in Hin. lia. }
  assert (Hnd : i ∉ ul).
  { assert (Hn' : NoDup (fl ++ i :: ul ++ un)) by (rewrite Hp; apply NoDup_seqZ).
    apply NoDup_app in Hn' as (_ & _ & Hn'). apply NoDup_cons in Hn' as [Hni _].
    intros Hin. apply Hni, elem_of_app. by left. }
  assert (Hlen : Z.of_nat (length ul) < Capacity).
  { apply Permutation_length in Hp. rewrite !length_app in Hp. simpl in Hp. rewrite length_app, length_seqZ in Hp. lia. }
  rewrite Hf. destruct (IndexQueue.index_push_ok Capacity _ ul n i f Hus Hn Hlen Hi) as (u' & -> & Hu'). simpl.
  eexists. split; [done|].
  assert (Hll : length l = length ul) by (subst l; apply length_fmap).
  constructor; simpl; try done.
  - rewrite <- Hp. solve_Permutation.
  - by rewrite length_aset.
  - rewrite fmap_app, fmap_aset_notin by done. simpl. rewrite aget_aset_eq by (unfold in_range; lia). by subst l.
  - rewrite length_app. simpl. rewrite Hs, u64_small; lia.
Qed.

Lemma lockfree_pop_ok q fl ul un l n f :
  fuel = S f -> Rep q fl ul un l n -> 0 < n ->
  exists q' fl' ul', pop q = Some (fst (spec_pop l), q') /\ Rep q' fl' ul' un (snd (spec_pop l)) (n - 1) /\
    (length fl' + length ul' = length fl + length ul)%nat.
Proof.
  intros Hf H Hn. pose proof H as []. destruct (rep_count _ _ _ _ _ _ H) as [Hcnt Hlen].
  unfold pop. rewrite Hf.
  destruct (IndexQueue.index_pop_ok Capacity _ ul n f rep_used0 Hn) as (u' & -> & Hu'). simpl.
  destruct ul as [|i ul]; simpl in *.
  - subst l. simpl. eexists _, fl, []. split; [done|]. split; [|done]. constructor; simpl; try done.
    by apply IndexQueue.index_rep_less with n; [|lia].
  - assert (Hi : 0 <= i < Capacity).
    { eapply rep_index; [exact H|]. apply elem_of_app. right. by left. }
    destruct (IndexQueue.index_push_ok Capacity _ fl n i f rep_free0 Hn) as (f' & -> & Hf'); [lia|done|]. simpl.
    rewrite Hlen in rep_size0. subst l. simpl in *. eexists _, (fl ++ [i]), ul. split; [done|]. split; [|rewrite length_app; simpl; lia].
    constructor; simpl; try done.
    + rewrite <- rep_perm0. solve_Permutation.
    + rewrite rep_size0, length_fmap. rewrite u64_small; lia.
Qed.

Lemma lockfree_tryPush_ok q fl ul un l n v f :
  fuel = S f -> Rep q fl ul un l n -> 0 < n ->
  match fl with
  | [] => exists q', tryPush q v = Some (false, q') /\ Rep q' [] ul un l (n - 1)
  | i :: fl' => exists q', tryPush q v = Some (true, q') /\ Rep q' fl' (ul ++ [i]) un (l ++ [v]) (n - 1)
  end.
Proof.
  intros Hf H Hn. pose proof H as []. unfold tryPush. rewrite Hf.
  destruct (IndexQueue.index_pop_ok Capacity _ fl n f rep_free0 Hn) as (f' & -> & Hf'). simpl.
  destruct fl as [|i fl]; simpl in *.
  - eexists. split; [done|]. constructor; simpl; try done. by apply IndexQueue.index_rep_less with n; [|lia].
  - destruct (publish_ok (set_free f' q) fl ul un l n i v f) as (q' & -> & Hq'); try done.
    { rewrite <- rep_perm0. solve_Permutation. }
    simpl. eauto.
Qed.

(** A push onto a queue with all indices in use: evicts exactly when full. *)
Lemma lockfree_push_ok q fl ul l n v f :
  fuel = S f -> Rep q fl ul [] l n -> 1 < n ->
  exists q' fl' ul', push q v = Some (fst (spec_push true Capacity l v), q') /\
    Rep q' fl' ul' [] (snd (spec_push true Capacity l v)) (n - 2).
Proof.
  intros Hf H Hn. pose proof H as []. destruct (rep_count _ _ _ _ _ _ H) as [Hcnt Hlen]. simpl in Hcnt.
  pose proof (IndexQueue.rep_cap _ _ _ _ rep_free0) as Hcp.
  unfold push, spec_push. rewrite Hf. simpl. rewrite Hf.
  destruct (IndexQueue.index_pop_ok Capacity _ fl n f rep_free0 ltac:(lia)) as (f' & -> & Hf'). simpl.
  destruct fl as [|i fl]; simpl in *.
  - rewrite (proj2 (Z.ltb_ge _ _)) by lia.
    destruct (IndexQueue.popIfFull_ok Capacity _ ul n rep_used0 ltac:(lia)) as (u' & -> & Hu').
    case_decide as D; [|lia]. destruct ul as [|i ul]; [simpl in *; lia|]. rewrite Hlen in rep_size0. simpl in *. subst l. simpl.
    destruct (publish_ok (snd (readBufferAt (set_used u' (set_free f' q)) i)) [] ul [] (aget d (m_buffer q) <$> ul)
                (n - 1) i v f) as (q' & E & Hq'); simpl; try done.
    { by apply IndexQueue.index_rep_less with (n - 1); [|lia]. } { lia. }
    { rewrite rep_size0, length_fmap, u64_small; lia. }
    simpl in E. rewrite E. simpl. eexists _, _, _. split; [done|].
    replace (n - 2) with (n - 1 - 1) by lia. done.
  - rewrite (proj2 (Z.ltb_lt _ _)) by lia.
    destruct (publish_ok (set_free f' q) fl ul [] l (n - 1) i v f) as (q' & E & Hq'); simpl; try done.
    { by apply IndexQueue.index_rep_less with (n - 1); [|lia]. }
    { by apply IndexQueue.index_rep_less with n; [|lia]. } { lia. }
    { rewrite <- rep_perm0. solve_Permutation. }
    rewrite E. simpl. eexists _, _, _. split; [done|]. replace (n - 2) with (n - 1 - 1) by lia. done.
Qed.

Lemma lockfree_ctor_rep : 0 < Capacity < 2 ^ 60 -> Rep ctor (seqZ 0 Capacity) [] [] [] (2 ^ 62).
Proof.
  intros HC. constructor; simpl; try done; try lia.
  - by apply IndexQueue.ConstructFull_ok.
  - by apply IndexQueue.ConstructEmpty_ok.
  - by rewrite app_nil_r.
  - rewrite length_replicate. lia.
Qed.
End ops.
End LockFreeQueue.

Module ResizeableLockFreeQueue.

Record t (A : Type) := mk {
  base : LockFreeQueue.t A;
  m_capacity : Z;
  m_resizeInProgress : bool;
  m_unusedIndices : list Z }.
Arguments mk {A}.
Arguments base {A}.
Arguments m_capacity {A}.
Arguments m_resizeInProgress {A}.
Arguments m_unusedIndices {A}.

Section ops.
Context {A : Type} (d : A) (MaxCapacity : Z) (fuel : nat).

Definition ctor : t A := mk (LockFreeQueue.ctor d MaxCapacity) MaxCapacity false [].

Definition set_base (b : LockFreeQueue.t A) (q : t A) : t A :=
  mk b (m_capacity q) (m_resizeInProgress q) (m_unusedIndices q).

Definition maxCapacity : Z := MaxCapacity.
Definition capacity (q : t A) : Z := m_capacity q.

(** [Base::tryPush], [Base::pop], [Base::empty], [Base::size]. *)
Definition tryPush (q : t A) (v : A) : option (bool * t A) :=
  '(r, b) ← LockFreeQueue.tryPush MaxCapacity fuel (base q) v; Some (r, set_base b q).
Definition pop (q : t A) : option (option A * t A) :=
  '(r, b) ← LockFreeQueue.pop d MaxCapacity fuel (base q); Some (r, set_base b q).
Definition empty (q : t A) : bool := LockFreeQueue.empty MaxCapacity (base q).
Definition size (q : t A) : Z := LockFreeQueue.size (base q).

Definition tryGetUsedIndex (q : t A) : option (option Z * t A) :=
  '(index, used) ← IndexQueue.popIfSizeIsAtLeast MaxCapacity fuel (capacity q)
                     (LockFreeQueue.m_usedIndices (base q));
  Some (index, set_base (LockFreeQueue.set_used used (base q)) q).

(** The loop of [pushImpl]. *)
Fixpoint acquire (n : nat) (q : t A) : option (Z * option A * t A) :=
  match n with
  | O => None
  | S n =>
      '(index, free) ← IndexQueue.pop MaxCapacity fuel (LockFreeQueue.m_freeIndices (base q));
      let q := set_base (LockFreeQueue.set_free free (base q)) q in
      match index with
      | Some index => Some (index, None, q)
      | None =>
          '(index, q) ← tryGetUsedIndex q;
          match index with
          | Some index =>
              let '(evicted, b) := LockFreeQueue.readBufferAt d (base q) index in
              Some (index, Some evicted, set_base b q)
          | None => acquire n q
          end
      end
  end.

Definition push (q : t A) (value : A) : option (option A * t A) :=
  '(index, evictedValue, q) ← acquire fuel q;
  b ← LockFreeQueue.publish MaxCapacity fuel (base q) index value;
  Some (evictedValue, set_base b q).

(** *** Resizing *)

(** [increaseCapacity] takes indices from the back of [m_unusedIndices]. *)
Fixpoint increaseCapacity (n : nat) (toIncrease increased : Z) (q : t A) : option (Z * t A) :=
  match n with
  | O => None
  | S n =>
      if increased <? toIncrease then
        match last (m_unusedIndices q) with
        | None => Some (increased, q)
        | Some back =>
            free ← IndexQueue.push MaxCapacity fuel (LockFreeQueue.m_freeIndices (base q)) back;
            increaseCapacity n toIncrease (increased + 1)
              (mk (LockFreeQueue.set_free free (base q)) (u64 (m_capacity q + 1)) (m_resizeInProgress q)
                  (removelast (m_unusedIndices q)))
        end
      else Some (increased, q)
  end.

(** One index goes to [m_unusedIndices]; the flag tells whether the capacity
    reached zero. *)
Definition retire (index : Z) (q : t A) : bool * t A :=
  (m_capacity q =? 1,
   mk (base q) (u64 (m_capacity q - 1)) (m_resizeInProgress q) (m_unusedIndices q ++ [index])).

(** The first inner loop of [decreaseCapacity]: free indices. *)
Fixpoint retire_free (n : nat) (toDecrease decreased : Z) (q : t A) : option (Z * bool * t A) :=
  match n with
  | O => None
  | S n =>
      if decreased <? toDecrease then
        '(index, free) ← IndexQueue.pop MaxCapacity fuel (LockFreeQueue.m_freeIndices (base q));
        let q := set_base (LockFreeQueue.set_free free (base q)) q in
        match index with
        | None => Some (decreased, false, q)
        | Some index =>
            let '(zero, q) := retire index q in
            if zero then Some (decreased + 1, true, q) else retire_free n toDecrease (decreased + 1) q
        end
      else Some (decreased, false, q)
  end.

(** The second inner loop: used indices; the elements go to the remove handler. *)
Fixpoint retire_used (n : nat) (toDecrease decreased : Z) (removed : list A) (q : t A)
    : option (Z * bool * list A * t A) :=
  match n with
  | O => None
  | S n =>
      if decreased <? toDecrease then
        '(index, q) ← tryGetUsedIndex q;
        match index with
        | None => Some (decreased, false, removed, q)
        | Some index =>
            let '(result, b) := LockFreeQueue.readBufferAt d (base q) index in
            let '(zero, q) := retire index (set_base b q) in
            if zero then Some (decreased + 1, true, removed ++ [result], q)
            else retire_used n toDecrease (decreased + 1) (removed ++ [result]) q
        end
      else Some (decreased, false, removed, q)
  end.

Fixpoint decreaseCapacity (n : nat) (toDecrease decreased : Z) (removed : list A) (q : t A)
    : option (Z * list A * t A) :=
  match n with
  | O => None
  | S n =>
      if decreased <? toDecrease then
        match retire_free fuel toDecrease decreased q with
        | None => None
        | Some (decreased, true, q) => Some (decreased, removed, q)
        | Some (decreased, false, q) =>
            match retire_used fuel toDecrease decreased removed q with
            | None => None
            | Some (decreased, true, removed, q) => Some (decreased, removed, q)
            | Some (decreased, false, removed, q) => decreaseCapacity n toDecrease decreased removed q
            end
        end
      else Some (decreased, removed, q)
  end.

Fixpoint resize_loop (n : nat) (newCapacity : Z) (removed : list A) (q : t A) : option (list A * t A) :=
  match n with
  | O => None
  | S n =>
      let cap := capacity q in
      if cap =? newCapacity then Some (removed, q)
      else if cap <? newCapacity then
        '(_, q) ← increaseCapacity fuel (newCapacity - cap) 0 q; resize_loop n newCapacity removed q
      else
        '(_, removed, q) ← decreaseCapacity fuel (cap - newCapacity) 0 removed q;
        resize_loop n newCapacity removed q
  end.

(** [setCapacity] with a remove handler: the result, the elements handed to
    the handler, and the queue. *)
Definition setCapacity (q : t A) (newCapacity : Z) : option (bool * list A * t A) :=
  if MaxCapacity <? newCapacity then Some (false, [], q)
  else if m_resizeInProgress q then Some (false, [], q)
  else
    let q := mk (base q) (m_capacity q) true (m_unusedIndices q) in
    '(removed, q) ← resize_loop fuel newCapacity [] q;
    Some (true, removed, mk (base q) (m_capacity q) false (m_unusedIndices q)).

(** ** Representation *)

Record Rep (q : t A) (cap : Z) (l : list A) (n : Z) : Prop := {
  rep_base : exists fl ul, LockFreeQueue.Rep d MaxCapacity (base q) fl ul (m_unusedIndices q) l n /\
               Z.of_nat (length fl) + Z.of_nat (length ul) = cap;
  rep_capacity : m_capacity q = cap }.

Lemma rep_bounds q cap l n : Rep q cap l n ->
  Z.of_nat (length l) <= cap <= MaxCapacity /\ MaxCapacity < 2 ^ 60 /\ 0 < MaxCapacity /\ 0 <= n.
Proof.
  intros [(fl & ul & Hb & Hc) _]. destruct (LockFreeQueue.rep_count _ _ _ _ _ _ _ _ Hb) as [? ?].
  destruct Hb. pose proof (IndexQueue.rep_cap _ _ _ _ rep_free). pose proof (IndexQueue.rep_n _ _ _ _ rep_free). lia.
Qed.

Lemma resizeable_pop_ok q cap l n f : fuel = S f -> Rep q cap l n -> 0 < n ->
  exists q', pop q = Some (fst (spec_pop l), q') /\ Rep q' cap (snd (spec_pop l)) (n - 1) /\
    m_resizeInProgress q' = m_resizeInProgress q.
Proof.
  intros Hf [(fl & ul & Hb & Hc) Hcap] Hn. unfold pop.
  destruct (LockFreeQueue.lockfree_pop_ok d MaxCapacity fuel _ _ _ _ _ _ f Hf Hb Hn) as (b' & fl' & ul' & -> & Hb' & Hl').
  simpl. eexists. split; [done|]. split; [|done]. constructor; [|done]. exists fl', ul'. split; [done|]. lia.
Qed.

Lemma resizeable_tryPush_ok q cap l n v f : fuel = S f -> Rep q cap l n -> 0 < n ->
  exists q', tryPush q v = Some (Z.of_nat (length l) <? cap, q') /\
    Rep q' cap (snd (spec_push false cap l v)) (n - 1) /\ m_resizeInProgress q' = m_resizeInProgress q.
Proof.
  intros Hf [(fl & ul & Hb & Hc) Hcap] Hn. unfold tryPush, spec_push.
  destruct (LockFreeQueue.rep_count _ _ _ _ _ _ _ _ Hb) as [_ Hll].
  pose proof (LockFreeQueue.lockfree_tryPush_ok d MaxCapacity fuel _ _ _ _ _ _ v f Hf Hb Hn) as Ht.
  destruct fl as [|i fl]; destruct Ht as (b' & -> & Hb'); simpl in *.
  - rewrite (proj2 (Z.ltb_ge _ _)) by lia. simpl. eexists. split; [done|]. split; [|done].
    constructor; [|done]. exists [], ul. done.
  - rewrite (proj2 (Z.ltb_lt _ _)) by lia. simpl. eexists. split; [done|]. split; [|done].
    constructor; [|done]. exists fl, (ul ++ [i]). split; [done|]. rewrite length_app. simpl. lia.
Qed.

Lemma resizeable_push_ok q cap l n v f : fuel = S f -> Rep q cap l n -> 1 < n -> 0 < cap ->
  exists q', push q v = Some (fst (spec_push true cap l v), q') /\
    Rep q' cap (snd (spec_push true cap l v)) (n - 2) /\ m_resizeInProgress q' = m_resizeInProgress q.
Proof.
  intros Hf [(fl & ul & Hb & Hc) Hcap] Hn Hpos. pose proof Hb as [].
  destruct (LockFreeQueue.rep_count _ _ _ _ _ _ _ _ Hb) as [Hcnt Hll].
  pose proof (IndexQueue.rep_cap _ _ _ _ rep_free) as Hcp.
  unfold push, spec_push. rewrite Hf. simpl. rewrite Hf.
  destruct (IndexQueue.index_pop_ok MaxCapacity _ fl n f rep_free ltac:(lia)) as (f' & -> & Hf'). simpl.
  destruct fl as [|i fl]; simpl in *.
  - rewrite (proj2 (Z.ltb_ge _ _)) by lia. unfold tryGetUsedIndex, capacity. simpl. rewrite Hf, Hcap.
    destruct (IndexQueue.popIfSizeIsAtLeast_ok MaxCapacity _ ul n cap f rep_used) as (u' & -> & Hu'); [lia..|].
    simpl. case_decide as D; [|lia]. destruct ul as [|i ul]; [simpl in *; lia|].
    rewrite Hll in rep_size. simpl in *. subst l. simpl.
    edestruct (LockFreeQueue.publish_ok d MaxCapacity (S f)) with (un := m_unusedIndices q) (ul := ul) (n := n - 1)
      (fl := @nil Z) as (q' & E & Hq'); [reflexivity| | |lia| | |reflexivity| |done|].
    6:{ rewrite E. simpl. eexists. split; [done|]. split; [|done]. constructor; [|done]. simpl.
        exists [], (ul ++ [i]). replace (n - 2) with (n - 1 - 1) by lia. split; [done|].
        rewrite length_app. simpl. lia. }
    all: simpl; try done.
    + by apply IndexQueue.index_rep_less with (n - 1); [|lia].
    + rewrite rep_size, length_fmap, u64_small; lia.
  - rewrite (proj2 (Z.ltb_lt _ _)) by lia.
    edestruct (LockFreeQueue.publish_ok d MaxCapacity (S f)) with (un := m_unusedIndices q) (ul := ul) (n := n - 1)
      (fl := fl) (i := i) (l := l) as (q' & E & Hq'); [reflexivity| | |lia| | | | |done|].
    7:{ rewrite E. simpl. eexists. split; [done|]. split; [|done]. constructor; [|done]. simpl.
        exists fl, (ul ++ [i]). replace (n - 2) with (n - 1 - 1) by lia. split; [done|].
        rewrite length_app. simpl. lia. }
    all: simpl; try done.
    + by apply IndexQueue.index_rep_less with (n - 1); [|lia].
    + by apply IndexQueue.index_rep_less with n; [|lia].
    + rewrite <- rep_perm. solve_Permutation.
Qed.

(** *** Resizing *)

(** The representation with the index lists named. *)
Record Indices (q : t A) (fl ul : list Z) (l : list A) (n : Z) : Prop := {
  ix_base : LockFreeQueue.Rep d MaxCapacity (base q) fl ul (m_unusedIndices q) l n;
  ix_cap : m_capacity q = Z.of_nat (length fl) + Z.of_nat (length ul) }.

Lemma indices_bounds q fl ul l n : Indices q fl ul l n ->
  m_capacity q + Z.of_nat (length (m_unusedIndices q)) = MaxCapacity /\ MaxCapacity < 2 ^ 60 /\
  0 < MaxCapacity /\ length l = length ul.
Proof.
  intros [Hb Hc]. destruct (LockFreeQueue.rep_count _ _ _ _ _ _ _ _ Hb) as [? ?]. destruct Hb.
  pose proof (IndexQueue.rep_cap _ _ _ _ rep_free). lia.
Qed.

Lemma indices_less q fl ul l n m : Indices q fl ul l n -> 0 <= m <= n -> Indices q fl ul l m.
Proof.
  intros [[] ?] Hm. constructor; [|done]. constructor; try done; by apply IndexQueue.index_rep_less with n.
Qed.

Lemma increase_ok f m toI inc q fl ul l n :
  fuel = S f -> Indices q fl ul l n -> 0 <= toI - inc <= Z.of_nat (length (m_unusedIndices q)) ->
  toI - inc < Z.of_nat m -> toI - inc <= n ->
  exists q' fl', increaseCapacity m toI inc q = Some (toI, q') /\
    Indices q' fl' ul l (n - (toI - inc)) /\ m_capacity q' = m_capacity q + (toI - inc) /\
    m_resizeInProgress q' = m_resizeInProgress q.
Proof.
  intros Hf. revert inc q fl n. induction m as [|m IH]; intros inc q fl n H Hk Hm Hn; [lia|]. simpl.
  destruct (Z.ltb_spec inc toI) as [Hlt|Hge]; cycle 1.
  { exists q, fl. assert (inc = toI) as -> by lia. rewrite !Z.sub_diag, Z.sub_0_r. split_and!; done || lia. }
  destruct (indices_bounds _ _ _ _ _ H) as (Hcap & Hmax & Hpos & Hll). pose proof H as [[] Hc].
  destruct (m_unusedIndices q) as [|b u _] eqn:Eu using rev_ind; [simpl in Hk; lia|].
  rewrite last_snoc, removelast_last. rewrite length_app in *. simpl in *.
  assert (Hb : 0 <= b < MaxCapacity).
  { assert (Hin : b ∈ fl ++ ul ++ u ++ [b]) by (rewrite !elem_of_app; right; right; right; by left).
    rewrite rep_perm in Hin. apply elem_of_seqZ in Hin. lia. }
  rewrite Hf.
  destruct (IndexQueue.index_push_ok MaxCapacity _ fl n b f rep_free) as (f' & -> & Hf'); [lia|lia|done|]. simpl.
  destruct (IH (inc + 1) (mk (LockFreeQueue.set_free f' (base q)) (u64 (m_capacity q + 1))
              (m_resizeInProgress q) u) (fl ++ [b]) (n - 1)) as (q' & fl' & E & Hi & Hc' & Hr'); simpl; try lia.
  { constructor; simpl; [|rewrite length_app, u64_small; simpl; lia].
    constructor; simpl; try done; [by apply IndexQueue.index_rep_less with n; [|lia]|].
    rewrite <- rep_perm. solve_Permutation. }
  exists q', fl'. split; [done|]. simpl in *. rewrite u64_small in Hc' by lia.
  split; [|split; [lia|done]]. by replace (n - (toI - inc)) with (n - 1 - (toI - (inc + 1))) by lia.
Qed.

Lemma retire_free_ok f m toD dec q fl ul l n :
  fuel = S f -> Indices q fl ul l n -> 0 <= toD - dec -> Z.of_nat (length fl) < Z.of_nat m ->
  Z.of_nat (length fl) < n ->
  exists q' fl' j z, retire_free m toD dec q = Some (dec + j, z, q') /\
    Indices q' fl' ul l (n - 1 - j) /\ j = Z.min (toD - dec) (Z.of_nat (length fl)) /\
    m_capacity q' = m_capacity q - j /\ Z.of_nat (length fl') = Z.of_nat (length fl) - j /\
    (z = true -> m_capacity q' = 0) /\ m_resizeInProgress q' = m_resizeInProgress q.
Proof.
  intros Hf. revert dec q fl n. induction m as [|m IH]; intros dec q fl n H Hk Hm Hn; [lia|]. simpl.
  destruct (Z.ltb_spec dec toD) as [Hlt|Hge]; cycle 1.
  { exists q, fl, 0, false. rewrite Z.add_0_r. split; [done|].
    split; [by apply indices_less with n; [|lia]|]. split_and!; done || lia. }
  destruct (indices_bounds _ _ _ _ _ H) as (Hcap & Hmax & Hpos & Hll). pose proof H as [[] Hc]. rewrite Hf.
  destruct (IndexQueue.index_pop_ok MaxCapacity _ fl n f rep_free ltac:(lia)) as (f' & -> & Hf'). simpl.
  destruct fl as [|i fl]; simpl in *.
  { eexists _, [], 0, false. rewrite Z.add_0_r. split; [done|].
    split; [|split_and!; simpl; done || lia]. constructor; simpl; [|lia].
    constructor; simpl; try done;
      [by apply IndexQueue.index_rep_less with (n - 1); [|lia]|by apply IndexQueue.index_rep_less with n; [|lia]]. }
  set (q1 := mk _ _ _ _).
  assert (H1 : Indices q1 fl ul l (n - 1)).
  { constructor; simpl; [|rewrite u64_small; lia].
    constructor; simpl; try done; [by apply IndexQueue.index_rep_less with n; [|lia]|].
    rewrite <- rep_perm. solve_Permutation. }
  assert (Hq1 : m_capacity q1 = m_capacity q - 1) by (simpl; rewrite u64_small; lia).
  destruct (Z.eqb_spec (m_capacity q) 1) as [E1|E1].
  - exists q1, fl, 1, true. split; [done|]. split; [by apply indices_less with (n - 1); [|lia]|].
    split_and!; done || lia.
  - destruct (IH (dec + 1) q1 fl (n - 1) H1) as (q' & fl' & j & z & E & Hi & Hj & Hc' & Hl' & Hz & Hr'); try lia.
    exists q', fl', (j + 1), z. replace (dec + (j + 1)) with (dec + 1 + j) by lia. split; [done|].
    replace (n - 1 - (j + 1)) with (n - 1 - 1 - j) by lia. split; [done|]. split_and!; done || lia.
Qed.

Lemma retire_used_ok f m toD dec removed q ul l n :
  fuel = S f -> Indices q [] ul l n -> 0 <= toD - dec <= Z.of_nat (length ul) -> toD - dec < Z.of_nat m ->
  toD - dec < n ->
  exists q' ul' z, retire_used m toD dec removed q
      = Some (toD, z, removed ++ take (Z.to_nat (toD - dec)) l, q') /\
    Indices q' [] ul' (drop (Z.to_nat (toD - dec)) l) (n - (toD - dec)) /\
    m_capacity q' = m_capacity q - (toD - dec) /\ (z = true -> m_capacity q' = 0) /\
    m_resizeInProgress q' = m_resizeInProgress q.
Proof.
  intros Hf. revert dec removed q ul l n.
  induction m as [|m IH]; intros dec removed q ul l n H Hk Hm Hn; [lia|]. simpl.
  destruct (Z.ltb_spec dec toD) as [Hlt|Hge]; cycle 1.
  { exists q, ul, false. assert (dec = toD) as -> by lia. rewrite Z.sub_diag, Z.sub_0_r. simpl.
    rewrite app_nil_r, drop_0. split_and!; done || lia. }
  destruct (indices_bounds _ _ _ _ _ H) as (Hcap & Hmax & Hpos & Hll). pose proof H as [[] Hc]. simpl in Hc.
  unfold tryGetUsedIndex, capacity. rewrite Hf.
  destruct (IndexQueue.popIfSizeIsAtLeast_ok MaxCapacity _ ul n (m_capacity q) f rep_used)
    as (u' & -> & Hu'); [lia..|]. simpl. case_decide as D; [|lia].
  destruct ul as [|i ul]; [simpl in *; lia|]. simpl in *. rewrite Hll in rep_size. subst l. simpl in *.
  set (q1 := mk _ _ _ _).
  assert (H1 : Indices q1 [] ul (aget d (LockFreeQueue.m_buffer (base q)) <$> ul) (n - 1)).
  { constructor; simpl; [|rewrite u64_small; lia].
    constructor; simpl; try done; [by apply IndexQueue.index_rep_less with n; [|lia]| |].
    - rewrite <- rep_perm. solve_Permutation.
    - rewrite rep_size, length_fmap, u64_small; lia. }
  assert (Hq1 : m_capacity q1 = m_capacity q - 1) by (simpl; rewrite u64_small; lia).
  replace (Z.to_nat (toD - dec)) with (S (Z.to_nat (toD - (dec + 1)))) by lia. simpl.
  destruct (Z.eqb_spec (m_capacity q) 1) as [E1|E1].
  - assert (ul = []) as -> by (destruct ul; [done|]; simpl in *; lia).
    assert (toD = dec + 1) as -> by lia. exists q1, [], true. simpl. rewrite take_nil, drop_nil.
    split; [done|]. replace (n - (dec + 1 - dec)) with (n - 1) by lia. split; [done|]. rewrite ?u64_small by lia. split_and!; done || lia.
  - destruct (IH (dec + 1) (removed ++ [aget d (LockFreeQueue.m_buffer (base q)) i]) q1 ul _ (n - 1) H1)
      as (q' & ul' & z & E & Hi & Hc' & Hz & Hr'); try lia.
    exists q', ul', z. rewrite E, <- app_assoc. split; [done|].
    replace (n - (toD - dec)) with (n - 1 - (toD - (dec + 1))) by lia. split; [done|]. split_and!; done || lia.
Qed.

(** Lowering the capacity by [k]: free indices first, then the oldest elements. *)
Lemma decrease_ok f m k q fl ul l n :
  fuel = S f -> MaxCapacity + 1 < Z.of_nat fuel -> (2 <= m)%nat -> Indices q fl ul l n ->
  0 < k <= m_capacity q -> 2 * MaxCapacity + 2 < n ->
  exists q' fl' ul', decreaseCapacity m k 0 [] q
      = Some (k, take (Z.to_nat (k - Z.of_nat (length fl))) l, q') /\
    Indices q' fl' ul' (drop (Z.to_nat (k - Z.of_nat (length fl))) l) (n - 2 * MaxCapacity - 1) /\
    m_capacity q' = m_capacity q - k /\ m_resizeInProgress q' = m_resizeInProgress q.
Proof.
  intros Hf Hfuel Hm H Hk Hn. destruct m as [|[|m]]; [lia|lia|].
  destruct (indices_bounds _ _ _ _ _ H) as (Hcap & Hmax & Hpos & Hll). pose proof (ix_cap _ _ _ _ _ H) as Hc.
  cbn [decreaseCapacity]. rewrite (proj2 (Z.ltb_lt 0 k)) by lia.
  destruct (retire_free_ok f fuel k 0 q fl ul l n Hf H) as (q1 & fl1 & j & z & E1 & H1 & Hj & Hc1 & Hl1 & Hz1 & Hr1);
    [lia..|].
  rewrite E1. rewrite Z.sub_0_r, Z.add_0_l in *.
  destruct (indices_bounds _ _ _ _ _ H1) as (Hcap1 & _ & _ & _). pose proof (ix_cap _ _ _ _ _ H1) as Hc1'.
  destruct z.
  { specialize (Hz1 eq_refl). assert (ul = []) as -> by (destruct ul; [done|]; simpl in *; lia).
    assert (l = []) as -> by (destruct l; [done|]; simpl in *; lia). assert (j = k) as -> by lia.
    rewrite take_nil, drop_nil. exists q1, fl1, []. split; [done|].
    split; [by apply indices_less with (n - 1 - k); [|lia]|]. split; [lia|congruence]. }
  destruct (decide (j = k)) as [->|Hne].
  { replace (Z.to_nat (k - Z.of_nat (length fl))) with 0%nat by lia. rewrite take_0, drop_0.
    assert (Eu : retire_used fuel k k [] q1 = Some (k, false, [], q1)).
    { rewrite Hf. simpl. by rewrite (proj2 (Z.ltb_ge _ _)) by lia. }
    rewrite Eu, (proj2 (Z.ltb_ge _ _)) by lia. exists q1, fl1, ul. split; [done|].
    split; [by apply indices_less with (n - 1 - k); [|lia]|]. split; [lia|congruence]. }
  assert (fl1 = []) as -> by (destruct fl1; [done|]; simpl in *; lia). simpl in *.
  destruct (retire_used_ok f fuel k j [] q1 ul l (n - 1 - j) Hf H1) as (q2 & ul2 & z & E2 & H2 & Hc2 & Hz2 & Hr2);
    [lia..|].
  rewrite E2. simpl. assert (j = Z.of_nat (length fl)) as -> by lia.
  destruct z.
  - exists q2, [], ul2. split; [done|]. split; [eapply indices_less; [done|lia]|]. split; [lia|congruence].
  - rewrite (proj2 (Z.ltb_ge _ _)) by lia.
    exists q2, [], ul2. split; [done|]. split; [eapply indices_less; [done|lia]|]. split; [lia|congruence].
Qed.

(** [setCapacity] always returns; shrinking below the number of elements
    hands the oldest ones to the remove handler. *)
Lemma setCapacity_ok f q cap l n newCapacity :
  fuel = S f -> MaxCapacity + 1 < Z.of_nat fuel -> Rep q cap l n -> m_resizeInProgress q = false ->
  0 <= newCapacity <= MaxCapacity -> 2 * MaxCapacity + 2 < n ->
  let k := Z.to_nat (Z.of_nat (length l) - newCapacity) in
  exists q', setCapacity q newCapacity = Some (true, take k l, q') /\
    Rep q' newCapacity (drop k l) (n - 2 * MaxCapacity - 1) /\ m_resizeInProgress q' = false.
Proof.
  intros Hf Hfuel [(fl & ul & Hb & Hlen) Hcap] Hr Hnew Hn k. unfold setCapacity.
  rewrite (proj2 (Z.ltb_ge _ _)), Hr by lia.
  set (q0 := mk (base q) (m_capacity q) true (m_unusedIndices q)).
  assert (H : Indices q0 fl ul l n) by (constructor; [done|simpl; lia]).
  destruct (indices_bounds _ _ _ _ _ H) as (Hc0 & Hmax & Hpos & Hll). simpl in Hc0.
  assert (Hdone : forall m r (q' : t A), m_capacity q' = newCapacity ->
            resize_loop (S m) newCapacity r q' = Some (r, q')).
  { intros m r q' E. simpl. unfold capacity. by rewrite E, Z.eqb_refl. }
  assert (Hrep : forall q' fl' ul' l', Indices q' fl' ul' l' (n - 2 * MaxCapacity - 1) -> m_capacity q' = newCapacity ->
            Rep (mk (base q') (m_capacity q') false (m_unusedIndices q')) newCapacity l' (n - 2 * MaxCapacity - 1)).
  { intros q' fl' ul' l' [Hb' Hc'] E. constructor; [|done]. exists fl', ul'. simpl. split; [done|lia]. }
  destruct fuel as [|[|f2]] eqn:Ef; [lia|lia|].
  destruct (Z.eq_dec cap newCapacity) as [E|E].
  - rewrite Hdone by (simpl; lia). subst k. replace (Z.to_nat _) with 0%nat by lia. rewrite take_0, drop_0. simpl.
    eexists. split; [done|]. split; [|done]. apply (Hrep q0 fl ul l); [|simpl; lia].
    by apply indices_less with n; [|lia].
  - cbn [resize_loop]. assert (Hcq : capacity q0 = cap) by exact Hcap. rewrite !Hcq.
    rewrite (proj2 (Z.eqb_neq _ _)) by done. destruct (Z.ltb_spec cap newCapacity).
    + destruct (increase_ok (S f2) fuel (newCapacity - cap) 0 q0 fl ul l n Ef H) as (q1 & fl1 & E1 & H1 & Hc1 & Hr1);
        try (simpl; lia).
      rewrite E1. simpl in Hc1. simpl. unfold capacity. rewrite (proj2 (Z.eqb_eq _ _)) by lia. simpl.
      subst k. replace (Z.to_nat (Z.of_nat (length l) - newCapacity)) with 0%nat by lia. rewrite take_0, drop_0.
      eexists. split; [done|]. split; [|done]. apply (Hrep q1 fl1 ul l); [|lia].
      eapply indices_less; [done|lia].
    + destruct (decrease_ok (S f2) fuel (cap - newCapacity) q0 fl ul l n Ef) as (q1 & fl1 & ul1 & E1 & H1 & Hc1 & Hr1);
        try (simpl; lia); try done.
      rewrite E1. simpl in Hc1. simpl. unfold capacity. rewrite (proj2 (Z.eqb_eq _ _)) by lia. simpl.
      assert (Ek : Z.to_nat (cap - newCapacity - Z.of_nat (length fl)) = k) by (subst k; lia). rewrite Ek in *.
      eexists. split; [done|]. split; [|done]. apply (Hrep q1 fl1 ul1 (drop k l)); [done|lia].
Qed.

(** *** Capacity zero *)

Lemma acquire_empty m f q n : fuel = S f -> Indices q [] [] [] n -> 0 < n ->
  m_capacity q = 0 -> acquire m q = None.
Proof.
  intros Hf H Hn Hc. pose proof H as [[] _]. induction m as [|m IH]; [done|]. simpl. rewrite Hf.
  rewrite (IndexQueue.pop_empty MaxCapacity _ n f rep_free). simpl.
  unfold tryGetUsedIndex, capacity. simpl. rewrite Hf, Hc. simpl.
  unfold IndexQueue.popIfSizeIsAtLeast. simpl. rewrite (IndexQueue.pop_empty MaxCapacity _ n f rep_used). simpl.
  replace (set_base _ _) with q; [done|]. by destruct q as [[] ? ? ?].
Qed.
End ops.

(** A push onto a resizeable lock-free queue of capacity zero never
    returns, whatever number of rounds its retry loop runs: no index is free
    and none is in use that could be evicted. *)
Theorem lockfree_push_capacity_zero_diverges {A} (d : A) MaxCapacity q n v :
  Rep d MaxCapacity q 0 [] n -> 0 < n -> forall fuel, push d MaxCapacity fuel q v = None.
Proof.
  intros [(fl & ul & Hb & Hlen) Hcap] Hn [|f]; [done|].
  destruct fl; [|simpl in Hlen; lia]. destruct ul; [|simpl in Hlen; lia].
  unfold push. by rewrite (acquire_empty d MaxCapacity (S f) (S f) f q n); [|done|constructor|..].
Qed.

Lemma lockfree_push_capacity_zero_diverges_witness :
  exists q, setCapacity 0 2 5 (ctor 0 2) 0 = Some (true, [], q) /\
    forall fuel, push 0 2 fuel q 7 = None.
Proof.
  destruct (setCapacity_ok 0 2 5 4 (ctor 0 2) 2 [] (2 ^ 62) 0) as (q & E & H & _);
    [reflexivity|lia| |reflexivity|lia|lia|].
  - constructor; [|reflexivity]. exists (seqZ 0 2), []. split; [apply LockFreeQueue.lockfree_ctor_rep; lia|reflexivity].
  - exists q. split; [exact E|]. apply (lockfree_push_capacity_zero_diverges 0 2 q _ 7 H). lia.
Defined.
End ResizeableLockFreeQueue.
