(* ===== verification/VariantQueue.v ===== *)
(** * VariantQueue

    [cxx/variant_queue.{hpp,inl}]: one of the four queue kinds behind one
    interface, chosen at construction.  [push] returns the value that did not
    get into the queue or was evicted for the new one. *)

From S2P Require Import Prelude Queue IndexQueue LockFreeQueue.

Inductive VariantQueueTypes :=
  | FiFo_SingleProducerSingleConsumer
  | SoFi_SingleProducerSingleConsumer
  | FiFo_MultiProducerSingleConsumer
  | SoFi_MultiProducerSingleConsumer.

#[global] Instance VariantQueueTypes_eq_dec : EqDecision VariantQueueTypes.
Proof. solve_decision. Defined.

(** Whether a push onto a full queue evicts the oldest element. *)
Definition evicts (ty : VariantQueueTypes) : bool :=
  match ty with
  | FiFo_SingleProducerSingleConsumer | FiFo_MultiProducerSingleConsumer => false
  | SoFi_SingleProducerSingleConsumer | SoFi_MultiProducerSingleConsumer => true
  end.

Module VariantQueue.

(** [fifo_t]: both multi-producer kinds use the same alternative. *)
Inductive fifo_t (A : Type) :=
  | AsFiFo (q : FiFo.t A)
  | AsSoFi (q : SoFi.t A)
  | AsLockFree (q : ResizeableLockFreeQueue.t A).
Arguments AsFiFo {A}.
Arguments AsSoFi {A}.
Arguments AsLockFree {A}.

Record t (A : Type) := mk { m_type : VariantQueueTypes; m_fifo : fifo_t A }.
Arguments mk {A}.
Arguments m_type {A}.
Arguments m_fifo {A}.

Section ops.
Context {A : Type} (d : A) (Capacity : Z).

(** Enough rounds for every retry loop of the lock-free queue. *)
Definition fuel : nat := Z.to_nat (Capacity + 3).

Definition ctor (type : VariantQueueTypes) : t A :=
  mk type
    match type with
    | FiFo_SingleProducerSingleConsumer => AsFiFo (FiFo.ctor d Capacity)
    | SoFi_SingleProducerSingleConsumer => AsSoFi (SoFi.ctor d Capacity)
    | FiFo_MultiProducerSingleConsumer
    | SoFi_MultiProducerSingleConsumer => AsLockFree (ResizeableLockFreeQueue.ctor d Capacity)
    end.

(** [None]: the call does not return (or the stored alternative is not the one
    of the type, which no constructor produces). *)
Definition push (q : t A) (value : A) : option (option A * t A) :=
  match m_type q, m_fifo q with
  | FiFo_SingleProducerSingleConsumer, AsFiFo f =>
      let '(hadSpace, f) := FiFo.push Capacity f value in
      Some (if hadSpace then None else Some value, mk (m_type q) (AsFiFo f))
  | SoFi_SingleProducerSingleConsumer, AsSoFi f =>
      let '(overridden, f) := SoFi.push d f value in Some (overridden, mk (m_type q) (AsSoFi f))
  | FiFo_MultiProducerSingleConsumer, AsLockFree f =>
      match ResizeableLockFreeQueue.tryPush Capacity fuel f value with
      | Some (hadSpace, f) => Some (if hadSpace then None else Some value, mk (m_type q) (AsLockFree f))
      | None => None
      end
  | SoFi_MultiProducerSingleConsumer, AsLockFree f =>
      match ResizeableLockFreeQueue.push d Capacity fuel f value with
      | Some (evicted, f) => Some (evicted, mk (m_type q) (AsLockFree f))
      | None => None
      end
  | _, _ => None
  end.

Definition pop (q : t A) : option (option A * t A) :=
  match m_type q, m_fifo q with
  | FiFo_SingleProducerSingleConsumer, AsFiFo f =>
      let '(r, f) := FiFo.pop d Capacity f in Some (r, mk (m_type q) (AsFiFo f))
  | SoFi_SingleProducerSingleConsumer, AsSoFi f =>
      let '(r, f) := SoFi.pop d f in Some (r, mk (m_type q) (AsSoFi f))
  | FiFo_MultiProducerSingleConsumer, AsLockFree f
  | SoFi_MultiProducerSingleConsumer, AsLockFree f =>
      match ResizeableLockFreeQueue.pop d Capacity fuel f with
      | Some (r, f) => Some (r, mk (m_type q) (AsLockFree f))
      | None => None
      end
  | _, _ => None
  end.

Definition empty (q : t A) : bool :=
  match m_fifo q with
  | AsFiFo f => FiFo.empty f
  | AsSoFi f => SoFi.empty f
  | AsLockFree f => ResizeableLockFreeQueue.empty Capacity f
  end.

Definition size (q : t A) : Z :=
  match m_fifo q with
  | AsFiFo f => FiFo.size f
  | AsSoFi f => SoFi.size f
  | AsLockFree f => ResizeableLockFreeQueue.size f
  end.

Definition capacity (q : t A) : Z :=
  match m_fifo q with
  | AsFiFo f => FiFo.capacity Capacity f
  | AsSoFi f => SoFi.capacity f
  | AsLockFree f => ResizeableLockFreeQueue.capacity f
  end.

(** The answer, the elements that were discarded, and the queue. *)
Definition setCapacity (q : t A) (newCapacity : Z) : option (bool * list A * t A) :=
  match m_fifo q with
  | AsFiFo f => Some (false, [], q)
  | AsSoFi f => let '(_, f) := SoFi.setCapacity Capacity f newCapacity in
                Some (true, [], mk (m_type q) (AsSoFi f))
  | AsLockFree f =>
      match ResizeableLockFreeQueue.setCapacity d Capacity fuel f newCapacity with
      | Some (r, removed, f) => Some (r, removed, mk (m_type q) (AsLockFree f))
      | None => None
      end
  end.

Definition ops : QueueOps (t A) A := mkQueueOps _ _ push pop empty size capacity.

(** ** The queue implements the specification *)

Definition Rep (ty : VariantQueueTypes) (q : t A) (cap : Z) (l : list A) (n : Z) : Prop :=
  m_type q = ty /\
  match ty, m_fifo q with
  | FiFo_SingleProducerSingleConsumer, AsFiFo f => FiFo.Rep d Capacity f cap l n
  | SoFi_SingleProducerSingleConsumer, AsSoFi f => SoFi.Rep d Capacity f cap l n
  | FiFo_MultiProducerSingleConsumer, AsLockFree f
  | SoFi_MultiProducerSingleConsumer, AsLockFree f =>
      ResizeableLockFreeQueue.Rep d Capacity f cap l (2 * n) /\
      ResizeableLockFreeQueue.m_resizeInProgress f = false
  | _, _ => False
  end.

Context (HC : 0 < Capacity < 2 ^ 60).

Lemma fuel_S : exists f, fuel = S f.
Proof. exists (Z.to_nat (Capacity + 2)). unfold fuel. lia. Qed.

Lemma lockfree_less f cap l n m :
  ResizeableLockFreeQueue.Rep d Capacity f cap l n -> 0 <= m <= n ->
  ResizeableLockFreeQueue.Rep d Capacity f cap l m.
Proof.
  intros [(fl & ul & [] & Hc) Hcap] Hm. constructor; [|done]. exists fl, ul. split; [|done].
  constructor; try done; by apply IndexQueue.index_rep_less with n.
Qed.

Lemma variant_rep_less ty q cap l n m : Rep ty q cap l n -> 0 <= m <= n -> Rep ty q cap l m.
Proof.
  intros [Ht H] Hm. split; [done|]. destruct ty, (m_fifo q) as [x|x|x]; try done.
  - destruct H as (? & ? & ? & ? & ?). unfold FiFo.Rep. split_and!; try done; lia.
  - destruct H as (? & ? & ? & ? & ? & ? & ?). unfold SoFi.Rep. split_and!; try done; lia.
  - destruct H as [H ?]. split; [|done]. apply lockfree_less with (2 * n); [done|lia].
  - destruct H as [H ?]. split; [|done]. apply lockfree_less with (2 * n); [done|lia].
Qed.

Lemma push_refines ty q cap l n v : Rep ty q cap l n -> 0 < n -> 0 < cap ->
  exists q', push q v = Some (fst (spec_push (evicts ty) cap l v), q') /\
             Rep ty q' cap (snd (spec_push (evicts ty) cap l v)) (n - 1).
Proof.
  intros [Ht H] Hn Hc. destruct fuel_S as [f Hf]. unfold push. rewrite Ht.
  destruct ty, (m_fifo q) as [x|x|x]; try done; simpl.
  - destruct (@q_push _ _ _ _ (FiFo.laws d Capacity) x cap l n v H Hn Hc) as (x' & E & H'). simpl in E.
    destruct (FiFo.push Capacity x v) as [b x1]. injection E as E ->. rewrite <- E.
    eexists. split; [done|]. done.
  - destruct (@q_push _ _ _ _ (SoFi.laws d Capacity) x cap l n v H Hn Hc) as (x' & E & H'). simpl in E.
    destruct (SoFi.push d x v) as [b x1]. injection E as -> ->. eexists. split; [done|]. done.
  - destruct H as [H Hr].
    destruct (ResizeableLockFreeQueue.resizeable_tryPush_ok d Capacity fuel x cap l (2 * n) v f Hf H ltac:(lia))
      as (x' & -> & H' & Hr').
    eexists. split; [unfold spec_push; destruct (_ <? _); done|].
    split; [done|]. simpl. split; [|congruence]. eapply lockfree_less; [exact H'|lia].
  - destruct H as [H Hr].
    destruct (ResizeableLockFreeQueue.resizeable_push_ok d Capacity fuel x cap l (2 * n) v f Hf H ltac:(lia) Hc)
      as (x' & -> & H' & Hr').
    eexists. split; [done|]. split; [done|]. simpl. split; [|congruence].
    by replace (2 * (n - 1)) with (2 * n - 2) by lia.
Qed.

Lemma pop_refines ty q cap l n : Rep ty q cap l n -> 0 < n ->
  exists q', pop q = Some (fst (spec_pop l), q') /\ Rep ty q' cap (snd (spec_pop l)) (n - 1).
Proof.
  intros [Ht H] Hn. destruct fuel_S as [f Hf]. unfold pop. rewrite Ht.
  destruct ty, (m_fifo q) as [x|x|x]; try done; simpl.
  - destruct (@q_pop _ _ _ _ (FiFo.laws d Capacity) x cap l n H Hn) as (x' & E & H'). simpl in E.
    injection E as E. rewrite E. by eexists.
  - destruct (@q_pop _ _ _ _ (SoFi.laws d Capacity) x cap l n H Hn) as (x' & E & H'). simpl in E.
    injection E as E. rewrite E. by eexists.
  - destruct H as [H Hr].
    destruct (ResizeableLockFreeQueue.resizeable_pop_ok d Capacity fuel x cap l (2 * n) f Hf H ltac:(lia)) as (x' & -> & H' & Hr').
    eexists. split; [done|]. split; [done|]. simpl. split; [|congruence]. eapply lockfree_less; [exact H'|lia].
  - destruct H as [H Hr].
    destruct (ResizeableLockFreeQueue.resizeable_pop_ok d Capacity fuel x cap l (2 * n) f Hf H ltac:(lia)) as (x' & -> & H' & Hr').
    eexists. split; [done|]. split; [done|]. simpl. split; [|congruence]. eapply lockfree_less; [exact H'|lia].
Qed.

Lemma lockfree_observers x cap l n : ResizeableLockFreeQueue.Rep d Capacity x cap l n ->
  ResizeableLockFreeQueue.empty Capacity x = bool_decide (l = []) /\
  ResizeableLockFreeQueue.size x = Z.of_nat (length l) /\
  ResizeableLockFreeQueue.capacity x = cap /\ Z.of_nat (length l) <= cap.
Proof.
  intros H. pose proof (ResizeableLockFreeQueue.rep_bounds _ _ _ _ _ _ H).
  destruct H as [(fl & ul & [] & Hc) Hcap]. split; [|split; [done|split; [done|lia]]].
  unfold ResizeableLockFreeQueue.empty, LockFreeQueue.empty.
  rewrite (IndexQueue.empty_ok Capacity _ ul n rep_used). subst l. by destruct ul.
Qed.

#[global] Instance laws ty : QueueLaws ops (evicts ty).
Proof.
  refine {| q_rep := Rep ty |}.
  - intros. by apply push_refines.
  - intros. by apply pop_refines.
  - intros q cap l n [Ht H]. simpl. unfold empty. destruct ty, (m_fifo q) as [x|x|x]; try done.
    + exact (@q_empty _ _ _ _ (FiFo.laws d Capacity) x cap l n H).
    + exact (@q_empty _ _ _ _ (SoFi.laws d Capacity) x cap l n H).
    + eapply lockfree_observers, H.
    + eapply lockfree_observers, H.
  - intros q cap l n [Ht H]. simpl. unfold size. destruct ty, (m_fifo q) as [x|x|x]; try done.
    + exact (@q_size _ _ _ _ (FiFo.laws d Capacity) x cap l n H).
    + exact (@q_size _ _ _ _ (SoFi.laws d Capacity) x cap l n H).
    + eapply lockfree_observers, H.
    + eapply lockfree_observers, H.
  - intros q cap l n [Ht H]. simpl. unfold capacity. destruct ty, (m_fifo q) as [x|x|x]; try done.
    + exact (@q_capacity _ _ _ _ (FiFo.laws d Capacity) x cap l n H).
    + exact (@q_capacity _ _ _ _ (SoFi.laws d Capacity) x cap l n H).
    + eapply lockfree_observers, H.
    + eapply lockfree_observers, H.
  - intros q cap l n [Ht H]. destruct ty, (m_fifo q) as [x|x|x]; try done.
    + exact (@q_bound _ _ _ _ (FiFo.laws d Capacity) x cap l n H).
    + exact (@q_bound _ _ _ _ (SoFi.laws d Capacity) x cap l n H).
    + eapply lockfree_observers, H.
    + eapply lockfree_observers, H.
Defined.

Lemma variant_ctor_rep ty : Rep ty (ctor ty) Capacity [] (2 ^ 61).
Proof.
  split; [done|]. destruct ty; simpl.
  - apply FiFo.fifo_ctor_rep; lia.
  - destruct (SoFi.sofi_ctor_rep d Capacity ltac:(lia)) as (? & ? & ? & ? & ? & ? & _).
    unfold SoFi.Rep. split_and!; try done; lia.
  - split; [|done]. constructor; [|done]. exists (seqZ 0 Capacity), []. split; [by apply LockFreeQueue.lockfree_ctor_rep|].
    rewrite length_seqZ. simpl. lia.
  - split; [|done]. constructor; [|done]. exists (seqZ 0 Capacity), []. split; [by apply LockFreeQueue.lockfree_ctor_rep|].
    rewrite length_seqZ. simpl. lia.
Qed.

(** ** Traces *)

Inductive op := Push (v : A) | Pop.

(** The results of a sequence of calls; [None] if one does not return. *)
Fixpoint run (tr : list op) (q : t A) : option (list (option A)) :=
  match tr with
  | [] => Some []
  | Push v :: tr => '(r, q) ← push q v; rs ← run tr q; Some (r :: rs)
  | Pop :: tr => '(r, q) ← pop q; rs ← run tr q; Some (r :: rs)
  end.

(** The same calls on a bounded list. *)
Fixpoint spec_run (evict : bool) (cap : Z) (tr : list op) (l : list A) : list (option A) :=
  match tr with
  | [] => []
  | Push v :: tr => fst (spec_push evict cap l v) :: spec_run evict cap tr (snd (spec_push evict cap l v))
  | Pop :: tr => fst (spec_pop l) :: spec_run evict cap tr (snd (spec_pop l))
  end.

Lemma run_refines ty tr q cap l n :
  Rep ty q cap l n -> 0 < cap -> Z.of_nat (length tr) < n ->
  run tr q = Some (spec_run (evicts ty) cap tr l).
Proof.
  revert q l n. induction tr as [|[v|] tr IH]; intros q l n H Hc Hn; simpl in *; [done| |].
  - destruct (push_refines ty q cap l n v H ltac:(lia) Hc) as (q' & -> & H'). simpl.
    rewrite (IH _ _ _ H' Hc ltac:(lia)). done.
  - destruct (pop_refines ty q cap l n H ltac:(lia)) as (q' & -> & H'). simpl.
    rewrite (IH _ _ _ H' Hc ltac:(lia)). done.
Qed.
End ops.

(** C20: all four queue kinds implement the bounded queue.  Every call of every
    sequence of pushes and pops returns, pops come in first-in first-out order,
    and a push onto a full queue gives back the pushed value ([FiFo] kinds) or
    evicts the oldest one ([SoFi] kinds); the retry loops of the lock-free
    queue need no more rounds than the model's fuel. *)
Theorem variant_queue_refines {A} (d : A) Capacity ty tr :
  0 < Capacity < 2 ^ 60 -> Z.of_nat (length tr) < 2 ^ 61 ->
  run d Capacity tr (ctor d Capacity ty) = Some (spec_run (evicts ty) Capacity tr []).
Proof.
  intros HC Htr. apply (run_refines d Capacity HC ty tr _ Capacity [] (2 ^ 61)); [by apply variant_ctor_rep|lia|done].
Qed.

Lemma variant_queue_refines_witness :
  run 0 2 [Push 1; Push 2; Push 3; Pop; Pop; Pop] (ctor 0 2 SoFi_MultiProducerSingleConsumer)
  = Some [None; None; Some 1; Some 2; Some 3; None].
Proof.
  rewrite (variant_queue_refines 0 2 SoFi_MultiProducerSingleConsumer); [reflexivity|lia|simpl; lia].
Defined.

(** [setCapacity] of the single producer overflowing queue answers true
    although the queue refuses the new capacity: a queue that is not empty, or a
    capacity beyond the maximum, leaves the capacity as it was. *)
Theorem variant_sofi_setCapacity_ignored {A} (d : A) Capacity q l n newCapacity :
  0 < Capacity < 2 ^ 60 -> Rep d Capacity SoFi_SingleProducerSingleConsumer q Capacity l n ->
  0 <= newCapacity < 2 ^ 63 -> l <> [] \/ Capacity < newCapacity ->
  exists q', setCapacity d Capacity q newCapacity = Some (true, [], q') /\ capacity Capacity q' = Capacity.
Proof.
  intros HC [Ht H] Hnew Hno. unfold setCapacity, capacity. destruct (m_fifo q) as [x|x|x]; try done.
  pose proof (@q_capacity _ _ _ _ (SoFi.laws d Capacity) x Capacity l n H) as Hcap. simpl in Hcap.
  assert (E : SoFi.setCapacity Capacity x newCapacity = (false, x)).
  { unfold SoFi.setCapacity. rewrite u64_small by (unfold SoFi.INTERNAL_SIZE_ADD_ON; lia).
    destruct H as (_ & _ & _ & _ & Hw & _).
    unfold SoFi.empty, SoFi.INTERNAL_SOFI_SIZE, SoFi.INTERNAL_SIZE_ADD_ON.
    destruct (Z.eqb_spec (SoFi.m_writePosition x) (SoFi.m_readPosition x)) as [Ew|]; [|done].
    rewrite (proj2 (Z.leb_gt _ _)); [done|]. destruct Hno as [Hl|]; [|lia]. destruct l; [done|]. simpl in Hw. lia. }
  rewrite E. eexists. split; [done|]. done.
Qed.

Lemma variant_sofi_setCapacity_ignored_witness :
  exists q', setCapacity 0 4 (ctor 0 4 SoFi_SingleProducerSingleConsumer) 9 = Some (true, [], q') /\
    capacity 4 q' = 4.
Proof.
  apply (variant_sofi_setCapacity_ignored 0 4 _ [] (2 ^ 61) 9); [lia|apply variant_ctor_rep; lia|lia|right; lia].
Defined.
End VariantQueue.
