(* ===== verification/UsedChunkList.v ===== *)
(** * UsedChunkList

    [popo/used_chunk_list.inl]: the chunks an application currently holds, kept
    in shared memory so that they can be released when the application dies.
    Two index lists run through [m_listIndices]: the used entries, newest first,
    and the free ones. *)

From stdpp Require Import sorting.
From S2P Require Import Prelude Loffli ChunkHeader MemPool MemoryManager RelativePointer SharedChunk.

Module UsedChunkList.

(** The template parameter is [Capacity], also the invalid index. *)
Record t := mk {
  m_usedListHead : Z;
  m_freeListHead : Z;
  m_listIndices : list Z;
  m_listData : list ShmSafeUnmanagedChunk.t }.

Section ops.
Context (Capacity : Z).

Definition INVALID_INDEX : Z := Capacity.

Definition index_at (u : t) (i : Z) : Z := aget 0 (m_listIndices u) i.
Definition data_at (u : t) (i : Z) : ShmSafeUnmanagedChunk.t :=
  aget ShmSafeUnmanagedChunk.null (m_listData u) i.

(** [for (auto& data : m_listData) data.releaseToSharedChunk();]: the returned
    temporary is destroyed at once. *)
Fixpoint clear_data (data : list ShmSafeUnmanagedChunk.t) (h : Heap)
    : outcome (list ShmSafeUnmanagedChunk.t * Heap) :=
  match data with
  | [] => Done ([], h)
  | d :: data =>
      let '(c, d) := ShmSafeUnmanagedChunk.releaseToSharedChunk d in
      let* h := SharedChunk.dtor c h in
      let* '(data, h) := clear_data data h in Done (d :: data, h)
  end.

Definition init_indices (indices : list Z) : list Z :=
  let indices := foldl (fun m i => aset m (Z.of_nat i) (u32 (Z.of_nat i + 1))) indices
                       (seq 0 (Z.to_nat Capacity)) in
  if 0 <? Capacity then aset indices (Capacity - 1) INVALID_INDEX else aset indices 0 INVALID_INDEX.

Definition init (u : t) (h : Heap) : outcome (t * Heap) :=
  let* '(data, h) := clear_data (m_listData u) h in
  Done (mk INVALID_INDEX 0 (init_indices (m_listIndices u)) data, h).

Definition ctor (h : Heap) : outcome (t * Heap) :=
  init (mk INVALID_INDEX 0 (replicate (Z.to_nat Capacity) 0)
           (replicate (Z.to_nat Capacity) ShmSafeUnmanagedChunk.null)) h.

(** [insert]: the by-value parameter [chunk] is copied into the entry and
    destroyed at the end, also when there is no free entry. *)
Definition insert (u : t) (chunk : SharedChunk.t) (h : Heap) : outcome (bool * t * Heap) :=
  if negb (m_freeListHead u =? INVALID_INDEX) then
    let nextFree := index_at u (m_freeListHead u) in
    let indices := aset (m_listIndices u) (m_freeListHead u) (m_usedListHead u) in
    let usedListHead := m_freeListHead u in
    let* '(c, h) := SharedChunk.copy chunk h in
    let* d := ShmSafeUnmanagedChunk.ctor c in
    let* h := SharedChunk.dtor chunk h in
    Done (true, mk usedListHead nextFree indices (aset (m_listData u) usedListHead d), h)
  else
    let* h := SharedChunk.dtor chunk h in Done (false, u, h).

(** The search of [remove]: the matching entry and the one before it. *)
Fixpoint find (fuel : nat) (u : t) (h : Heap) (chunkHeader : option handle) (previous current : Z)
    : option (option (Z * Z)) :=
  match fuel with
  | O => None
  | S fuel =>
      if current =? INVALID_INDEX then Some None
      else if negb (ShmSafeUnmanagedChunk.isLogicalNullptr (data_at u current))
              && bool_decide (ShmSafeUnmanagedChunk.getChunkHeader (data_at u current) h = chunkHeader)
      then Some (Some (previous, current))
      else find fuel u h chunkHeader current (index_at u current)
  end.

(** [remove]: [chunk] is the reference parameter that receives the chunk.  The
    used list has at most [Capacity] entries, so the search ends in time. *)
Definition remove (u : t) (chunkHeader : option handle) (chunk : SharedChunk.t) (h : Heap)
    : outcome (bool * SharedChunk.t * t * Heap) :=
  let* entry := returns (find (Z.to_nat Capacity + 1) u h chunkHeader INVALID_INDEX (m_usedListHead u)) in
  match entry with
  | None => Done (false, chunk, u, h)
  | Some (previous, current) =>
        (let '(released, d) := ShmSafeUnmanagedChunk.releaseToSharedChunk (data_at u current) in
         let data := aset (m_listData u) current d in
         let* '(chunk, _, h) := SharedChunk.assign_move chunk released h in
         let '(usedListHead, indices) :=
           if current =? m_usedListHead u then (index_at u current, m_listIndices u)
           else (m_usedListHead u, aset (m_listIndices u) previous (index_at u current)) in
         let indices := aset indices current (m_freeListHead u) in
         Done (true, chunk, mk usedListHead current indices data, h))
  end.

(** The loop of [cleanup]: every chunk is released and destroyed. *)
Fixpoint release_all (data : list ShmSafeUnmanagedChunk.t) (h : Heap)
    : outcome (list ShmSafeUnmanagedChunk.t * Heap) :=
  match data with
  | [] => Done ([], h)
  | d :: data =>
      if negb (ShmSafeUnmanagedChunk.isLogicalNullptr d) then
        let '(c, d) := ShmSafeUnmanagedChunk.releaseToSharedChunk d in
        let* h := SharedChunk.dtor c h in
        let* '(data, h) := release_all data h in Done (d :: data, h)
      else
        let* '(data, h) := release_all data h in Done (d :: data, h)
  end.

Definition cleanup (u : t) (h : Heap) : outcome (t * Heap) :=
  let* '(data, h) := release_all (m_listData u) h in
  init (mk (m_usedListHead u) (m_freeListHead u) (m_listIndices u) data) h.

(** ** Representation *)

(** The chunks the list holds. *)
Definition held (u : t) : list handle := m_listData u ≫= shm_handles.

Record Rep (u : t) (ul fl : list Z) : Prop := {
  rep_cap : 0 < Capacity < 2 ^ 32;
  rep_indices : Z.of_nat (length (m_listIndices u)) = Capacity;
  rep_data : Z.of_nat (length (m_listData u)) = Capacity;
  rep_used : LoFFLi.chain Capacity (m_listIndices u) (m_usedListHead u) ul;
  rep_free : LoFFLi.chain Capacity (m_listIndices u) (m_freeListHead u) fl;
  rep_nodup : NoDup (ul ++ fl);
  rep_all : Z.of_nat (length ul) + Z.of_nat (length fl) = Capacity;
  rep_null : forall i, i ∈ fl -> shm_handles (data_at u i) = [] }.

Lemma rep_in_range u ul fl i : Rep u ul fl -> i ∈ ul ++ fl -> 0 <= i < Capacity.
Proof. intros [] [Hi|Hi]%elem_of_app; eapply LoFFLi.chain_range; [exact rep_used0| |exact rep_free0|]; done. Qed.

(** Updating one cell changes what that cell holds. *)
Lemma held_focus u ul fl i : Rep u ul fl -> i ∈ ul ++ fl ->
  exists rest, held u ≡ₚ shm_handles (data_at u i) ++ rest /\
    forall d, (aset (m_listData u) i d ≫= shm_handles) ≡ₚ shm_handles d ++ rest.
Proof.
  intros H Hi. pose proof (rep_in_range u ul fl i H Hi) as Hr. pose proof (rep_data _ _ _ H) as Hd.
  destruct (lookup_lt_is_Some_2 (m_listData u) (Z.to_nat i)) as [x Hx]; [lia|].
  destruct (bind_focus shm_handles (m_listData u) (Z.to_nat i) x Hx) as (rest & E & I).
  exists rest. unfold held, data_at, aget, aset. rewrite (proj2 (Z.ltb_ge _ _)) by lia. rewrite Hx. done.
Qed.

(** *** [insert] *)

Lemma insert_full u ul h o c : Rep u ul [] -> Balanced h (handles c ++ o) ->
  exists h', insert u c h = Done (false, u, h') /\ Balanced h' o /\ same_view o h h' /\ errors h' = errors h.
Proof.
  intros [] Hb. unfold insert. inversion rep_free0 as [Hh|]. unfold INVALID_INDEX.
  rewrite (proj2 (Z.eqb_eq (m_freeListHead u) Capacity)) by done. simpl. destruct (dtor_ok h o c Hb) as (h' & -> & ?). simpl. eauto.
Qed.

Lemma insert_ok u ul i fl h o c :
  Rep u ul (i :: fl) -> Balanced h (handles c ++ held u ++ o) -> headroom (handles c ++ held u ++ o) 1 ->
  exists u' h', insert u c h = Done (true, u', h') /\ Rep u' (i :: ul) fl /\
    held u' ≡ₚ handles c ++ held u /\ Balanced h' (held u' ++ o) /\
    same_view (handles c ++ held u ++ o) h h' /\ errors h' = errors h.
Proof.
  intros H Hb Hh. pose proof H as []. unfold insert, INVALID_INDEX.
  inversion rep_free0 as [|? ? Hi Hch E1]; subst.
  rewrite (proj2 (Z.eqb_neq (m_freeListHead u) _)) by lia. simpl. set (i := m_freeListHead u) in *.
  destruct (copy_ok h (held u ++ o) c Hb Hh) as (h1 & -> & Hb1 & [L1 V1] & Er1). simpl.
  destruct (shm_ctor_ok h1 _ c Hb1) as (d & -> & Hd). simpl.
  destruct (dtor_ok h1 (handles c ++ held u ++ o) c Hb1) as (h2 & -> & Hb2 & [L2 V2] & Er2). simpl.
  destruct (held_focus u ul (i :: fl) i H) as (rest & E & I); [apply elem_of_app; right; by left|].
  rewrite rep_null0 in E by (by left). simpl in E.
  apply NoDup_app in rep_nodup0 as (Nu & Nd & Nf). apply NoDup_cons in Nf as [Nif Nf].
  assert (Niu : i ∉ ul) by (intros Hin; apply (Nd i Hin); by left).
  assert (Hheld : (aset (m_listData u) i d ≫= shm_handles) ≡ₚ handles c ++ held u).
  { rewrite (I d), Hd. by rewrite E. }
  eexists _, h2. split; [done|]. split; [|split; [exact Hheld|split; [|split]]].
  - constructor; simpl; rewrite ?length_aset; try done; try lia.
    + constructor; [done|]. rewrite aget_aset_eq by (unfold in_range; lia). by apply LoFFLi.chain_frame.
    + by apply LoFFLi.chain_frame.
    + constructor; [by rewrite not_elem_of_app|]. apply NoDup_app. split; [done|]. split; [|done].
      intros x Hx Hf. apply (Nd x Hx). by right.
    + simpl in *. lia.
    + intros j Hj. unfold data_at. simpl. rewrite aget_aset_ne by (intros ->; done).
      apply rep_null0. by right.
  - unfold held at 1. simpl. rewrite Hheld, <- app_assoc. exact Hb2.
  - split; [congruence|]. intros x Hx. rewrite V2, V1 by done. done.
  - congruence.
Qed.

(** *** [remove] *)

Lemma chain_remove nx x l1 c l2 p :
  LoFFLi.chain Capacity nx x (l1 ++ p :: c :: l2) -> NoDup (l1 ++ p :: c :: l2) ->
  Z.of_nat (length nx) = Capacity ->
  LoFFLi.chain Capacity (aset nx p (aget 0 nx c)) x (l1 ++ p :: l2).
Proof.
  intros H Hn Hl. revert x H Hn. induction l1 as [|y l1 IH]; intros x H Hn; simpl in *.
  - inversion H as [|? ? Hp H']; subst. inversion H' as [|? ? Hc H'']; subst.
    constructor; [done|]. rewrite aget_aset_eq by (unfold in_range; lia).
    apply LoFFLi.chain_frame; [done|]. apply NoDup_cons in Hn as [Hn _].
    intros Hin. apply Hn. by right.
  - inversion H as [|? ? Hp H']; subst. apply NoDup_cons in Hn as [Hx Hn].
    constructor; [done|]. rewrite aget_aset_ne; [by apply IH|].
    intros ->. apply Hx. apply elem_of_app. right. by left.
Qed.

(** Entry [i] is the one looked for. *)
Definition matches (u : t) (h : Heap) (chunkHeader : option handle) (i : Z) : Prop :=
  exists x, shm_handles (data_at u i) = [x] /\ SharedChunk.getChunkHeader (Some x) h = chunkHeader.

Lemma match_test u h chunkHeader i :
  negb (ShmSafeUnmanagedChunk.isLogicalNullptr (data_at u i))
    && bool_decide (ShmSafeUnmanagedChunk.getChunkHeader (data_at u i) h = chunkHeader) = true <->
  matches u h chunkHeader i.
Proof.
  unfold matches, shm_handles, ShmSafeUnmanagedChunk.getChunkHeader.
  destruct (ShmSafeUnmanagedChunk.isLogicalNullptr (data_at u i)); simpl.
  - split; [done|]. by intros (x & ? & _).
  - rewrite bool_decide_eq_true. split; [intros H; by eexists|]. by intros (x & [= <-] & ?).
Qed.

Lemma last_shift (x d : Z) l : List.last (x :: l) d = List.last l x.
Proof. revert x d. induction l as [|y l IH]; intros x d; [done|]. rewrite (IH y x). exact (IH y d). Qed.

Lemma find_spec fuel u h chunkHeader previous current l :
  LoFFLi.chain Capacity (m_listIndices u) current l -> (length l < fuel)%nat ->
  exists r, find fuel u h chunkHeader previous current = Some r /\
    match r with
    | None => Forall (fun i => ~ matches u h chunkHeader i) l
    | Some (p, c) => exists l1 l2, l = l1 ++ c :: l2 /\ p = List.last l1 previous /\
                       matches u h chunkHeader c /\ Forall (fun i => ~ matches u h chunkHeader i) l1
    end.
Proof.
  revert previous current l. induction fuel as [|fuel IH]; intros previous current l Hc Hf; [lia|].
  simpl. unfold INVALID_INDEX. inversion Hc as [|? l' Hr Hc']; subst.
  - rewrite Z.eqb_refl. exists None. split; [done|constructor].
  - rewrite (proj2 (Z.eqb_neq _ _)) by lia. simpl in Hf.
    destruct (negb _ && _) eqn:E.
    + apply match_test in E. eexists. split; [done|]. by exists [], l'.
    + assert (Hm : ~ matches u h chunkHeader current) by (rewrite <- match_test; congruence).
      destruct (IH current _ l' Hc') as (r & Hf2 & Hr'); [lia|]. eexists. split; [exact Hf2|].
      destruct r as [[p c]|]; [|by constructor].
      destruct Hr' as (l1 & l2 & -> & -> & ? & ?). exists (current :: l1), l2.
      split; [done|]. split; [by rewrite last_shift|]. split; [done|]. by constructor.
Qed.

(** Taking the used entry [c] out of both lists. *)
Lemma remove_rep u l1 c l2 fl d :
  Rep u (l1 ++ c :: l2) fl -> shm_handles d = [] ->
  Rep (let '(usedListHead, indices) :=
         if c =? m_usedListHead u then (index_at u c, m_listIndices u)
         else (m_usedListHead u, aset (m_listIndices u) (List.last l1 INVALID_INDEX) (index_at u c)) in
       mk usedListHead c (aset indices c (m_freeListHead u)) (aset (m_listData u) c d))
    (l1 ++ l2) (c :: fl).
Proof.
  intros H Hd. pose proof (rep_in_range u _ fl c H) as Hc.
  specialize (Hc ltac:(rewrite !elem_of_app; left; right; by left)).
  destruct H. pose proof rep_nodup0 as (Nu & Nd & Nf)%NoDup_app.
  assert (Ncf : c ∉ fl) by (apply Nd; rewrite elem_of_app; right; by left).
  assert (Nc : c ∉ l1 ++ l2 /\ NoDup (l1 ++ l2)) by (by apply NoDup_cons; rewrite Permutation_middle).
  assert (Hnd : NoDup ((l1 ++ l2) ++ c :: fl)).
  { rewrite <- Permutation_middle, app_comm_cons, (Permutation_middle l1 l2 c). done. }
  assert (Hlen : Z.of_nat (length (l1 ++ l2)) + Z.of_nat (length (c :: fl)) = Capacity).
  { rewrite length_app in *. simpl in *. lia. }
  assert (Hnull : forall i, i ∈ c :: fl ->
    shm_handles (aget ShmSafeUnmanagedChunk.null (aset (m_listData u) c d) i) = []).
  { intros i [->|Hi]%elem_of_cons; [rewrite aget_aset_eq by (unfold in_range; lia); done|].
    rewrite aget_aset_ne by (intros ->; done). by apply rep_null0. }
  destruct l1 as [|y l1].
  - simpl in *. inversion rep_used0 as [|? ? Hr Hch E]; subst. rewrite Z.eqb_refl.
    constructor; simpl; rewrite ?length_aset; try done.
    + apply LoFFLi.chain_frame; [done|]. apply Nc.
    + constructor; [done|]. rewrite aget_aset_eq by (unfold in_range; lia). by apply LoFFLi.chain_frame.
  - assert (y = m_usedListHead u) as -> by (by inversion rep_used0).
    rewrite (proj2 (Z.eqb_neq c _)) by (intros ->; apply (proj1 Nc); by left).
    destruct (exists_last (l := m_usedListHead u :: l1)) as (l0 & p & El); [done|].
    rewrite El in *. rewrite last_last. rewrite <- !app_assoc in *. simpl in *.
    assert (Hpc : p <> c).
    { intros ->. apply (proj1 Nc), elem_of_app. right. by left. }
    constructor; simpl; rewrite ?length_aset; try done.
    + apply LoFFLi.chain_frame; [|apply Nc]. by apply chain_remove.
    + constructor; [done|]. rewrite aget_aset_eq by (unfold in_range; rewrite length_aset; lia).
      apply LoFFLi.chain_frame; [|done]. apply LoFFLi.chain_frame; [done|].
      apply Nd, elem_of_app. right. by left.
    + by rewrite <- app_assoc.
Qed.

(** The handle the list gives back. *)
Definition found (h : Heap) (u : t) (chunkHeader : option handle) (x : handle) : Prop :=
  x ∈ held u /\ SharedChunk.getChunkHeader (Some x) h = chunkHeader.

Lemma matches_found u ul fl h chunkHeader x :
  Rep u ul fl -> found h u chunkHeader x -> exists i, i ∈ ul /\ matches u h chunkHeader i.
Proof.
  intros H [Hx Hh]. unfold held in Hx. apply list_elem_of_bind in Hx as (d & Hx & Hd).
  apply list_elem_of_lookup in Hd as (k & Hk).
  assert (E : data_at u (Z.of_nat k) = d).
  { unfold data_at, aget. rewrite (proj2 (Z.ltb_ge _ _)), Nat2Z.id, Hk by lia. done. }
  assert (Hx' : shm_handles d = [x]).
  { unfold shm_handles in *. destruct (ShmSafeUnmanagedChunk.isLogicalNullptr d); [by apply elem_of_nil in Hx|].
    by apply list_elem_of_singleton in Hx as <-. }
  exists (Z.of_nat k). split; [|exists x; by rewrite E].
  assert (Hin : Z.of_nat k ∈ ul ++ fl).
  { destruct H. apply lookup_lt_Some in Hk. destruct (decide (Z.of_nat k ∈ ul ++ fl)) as [|Hn]; [done|].
    assert (Hsub : Z.of_nat k :: ul ++ fl ⊆+ seqZ 0 Capacity).
    { apply NoDup_submseteq; [by constructor|]. intros j [->|Hj]%elem_of_cons; apply elem_of_seqZ; [lia|].
      apply elem_of_app in Hj as [Hj|Hj]; [eapply LoFFLi.chain_range in Hj; [|exact rep_used0]|
        eapply LoFFLi.chain_range in Hj; [|exact rep_free0]]; lia. }
    apply submseteq_length in Hsub. rewrite length_seqZ in Hsub. simpl in Hsub. rewrite length_app in Hsub. lia. }
  apply elem_of_app in Hin as [?|Hf]; [done|]. apply (rep_null _ _ _ H) in Hf. rewrite E in Hf. congruence.
Qed.

Lemma remove_ok u ul fl h o chunkHeader c :
  Rep u ul fl -> Balanced h (handles c ++ held u ++ o) ->
  exists r, remove u chunkHeader c h = Done r /\
    match r with
    | (false, c', u', h') => c' = c /\ u' = u /\ h' = h /\ forall x, ~ found h u chunkHeader x
    | (true, c', u', h') => exists x ul' fl', c' = Some x /\ found h u chunkHeader x /\
        held u ≡ₚ x :: held u' /\ Rep u' ul' fl' /\ length ul = S (length ul') /\
        Balanced h' (x :: held u' ++ o) /\ same_view (held u ++ o) h h' /\ errors h' = errors h
    end.
Proof.
  intros H Hb. unfold remove.
  destruct (find_spec (Z.to_nat Capacity + 1) u h chunkHeader INVALID_INDEX (m_usedListHead u) ul) as (r & -> & Hr).
  { apply H. } { destruct H. lia. }
  simpl.
  destruct r as [[p i]|]; [|eexists; split; [done|]; split_and!; try done].
  2:{ intros x Hx. destruct (matches_found _ _ _ _ _ _ H Hx) as (i & Hi & Hm).
      rewrite Forall_forall in Hr. by apply (Hr i). }
  destruct Hr as (l1 & l2 & -> & -> & (x & Ex & Hh) & _).
  destruct (held_focus u _ fl i H) as (rest & E & I); [rewrite !elem_of_app; left; right; by left|].
  destruct (release_handles (data_at u i)) as [Hr1 Hr2].
  destruct (ShmSafeUnmanagedChunk.releaseToSharedChunk (data_at u i)) as [released d].
  simpl in Hr1, Hr2. rewrite Ex in *. destruct released as [y|]; simplify_eq/=.
  unfold SharedChunk.assign_move.
  destruct (decrement_ok h (held u ++ o) c Hb) as (c' & h' & -> & Hb' & Hv & Er). simpl.
  pose proof (remove_rep u l1 i l2 fl d H Hr2) as HR.
  destruct (if i =? m_usedListHead u then _ else _) as [uh ind]. simpl in *.
  eexists. split; [done|]. exists x, (l1 ++ l2), (i :: fl). specialize (I d). rewrite Hr2 in I. simpl in I.
  assert (EE : held u ≡ₚ x :: held (mk uh i (aset ind i (m_freeListHead u)) (aset (m_listData u) i d))).
  { rewrite E. unfold held. simpl. by rewrite I. }
  split; [done|]. split; [split; [rewrite E; by left|done]|]. split; [done|]. split; [done|].
  split; [rewrite !length_app; simpl; lia|]. split; [|done]. rewrite EE in Hb'. done.
Qed.

(** *** [cleanup] and [init] *)

Lemma clear_data_ok data h o :
  Balanced h ((data ≫= shm_handles) ++ o) ->
  exists data' h', clear_data data h = Done (data', h') /\ length data' = length data /\
    Forall (fun d => shm_handles d = []) data' /\ Balanced h' o /\ same_view o h h' /\ errors h' = errors h.
Proof.
  revert h. induction data as [|d data IH]; intros h Hb; simpl; [by eexists _, _|].
  destruct (release_handles d) as [E1 E2]. destruct (ShmSafeUnmanagedChunk.releaseToSharedChunk d) as [c d'].
  simpl in *. rewrite <- E1, <- app_assoc in Hb.
  destruct (dtor_ok h _ c Hb) as (h1 & -> & Hb1 & V1 & Er1). simpl.
  destruct (IH h1 Hb1) as (data' & h2 & -> & L & F & Hb2 & V2 & Er2). simpl.
  eexists _, _. split; [done|]. split; [simpl; lia|]. split; [by constructor|]. split; [done|].
  split; [|congruence]. eapply same_view_trans; [|exact V2]. eapply same_view_subset; [|exact V1].
  intros x Hx. apply elem_of_app. by right.
Qed.

(** With the null test the loop of [cleanup] does the same. *)
Lemma release_all_clear data h : release_all data h = clear_data data h.
Proof.
  revert h. induction data as [|d data IH]; intros h; [done|]. simpl.
  unfold ShmSafeUnmanagedChunk.releaseToSharedChunk.
  destruct (ShmSafeUnmanagedChunk.isLogicalNullptr d); simpl.
  - by rewrite IH.
  - destruct (SharedChunk.dtor _ h) as [h1|]; [|done]. simpl. by rewrite IH.
Qed.

Lemma null_data_no_handles data :
  Forall (fun d => shm_handles d = []) data -> data ≫= shm_handles = [].
Proof. induction 1 as [|d data E _ IH]; [done|]. rewrite bind_cons, E, IH. done. Qed.

Lemma init_ok u h o :
  0 < Capacity < 2 ^ 32 -> Z.of_nat (length (m_listIndices u)) = Capacity ->
  Z.of_nat (length (m_listData u)) = Capacity -> Balanced h (held u ++ o) ->
  exists u' h', init u h = Done (u', h') /\ Rep u' [] (seqZ 0 Capacity) /\ held u' = [] /\ Balanced h' o /\
    same_view o h h' /\ errors h' = errors h.
Proof.
  intros HC HI HD Hb. unfold init. destruct (clear_data_ok _ h o Hb) as (data & h' & -> & L & F & ?). simpl.
  eexists _, _. split; [done|]. split; [|split; [by apply null_data_no_handles|done]].
  pose proof (LoFFLi.length_link_all (m_listIndices u) (Z.to_nat Capacity)) as HL.
  pose proof (fun i => LoFFLi.aget_link_all (m_listIndices u) (Z.to_nat Capacity) i) as HG.
  unfold LoFFLi.link_all in *. constructor; simpl; unfold init_indices; try rewrite (proj2 (Z.ltb_lt 0 Capacity)) by lia.
  - done.
  - rewrite length_aset. lia.
  - lia.
  - constructor.
  - replace (seqZ 0 Capacity) with (seqZ 0 (Capacity - 0)) by (f_equal; lia). apply LoFFLi.chain_linked; [lia|].
    intros i Hi. rewrite aget_aset by (unfold in_range; lia). case_decide; [unfold INVALID_INDEX; lia|].
    rewrite HG by lia. apply u32_small. lia.
  - apply NoDup_seqZ.
  - rewrite length_seqZ. simpl. lia.
  - intros i [_ Hi]%elem_of_seqZ. unfold data_at, aget. simpl. destruct (i <? 0); [done|].
    destruct (data !! Z.to_nat i) as [d|] eqn:Ed; [|done]. simpl. rewrite Forall_lookup in F. by eapply F.
Qed.

Lemma ctor_ok h o : 0 < Capacity < 2 ^ 32 -> Balanced h o ->
  exists u h', ctor h = Done (u, h') /\ Rep u [] (seqZ 0 Capacity) /\ held u = [] /\ Balanced h' o /\
    same_view o h h' /\ errors h' = errors h.
Proof.
  intros HC Hb. apply init_ok; simpl; [done|rewrite length_replicate; lia|rewrite length_replicate; lia|].
  unfold held. simpl. rewrite null_data_no_handles; [done|]. by apply Forall_replicate.
Qed.

Lemma cleanup_ok u ul fl h o :
  Rep u ul fl -> Balanced h (held u ++ o) ->
  exists u' h', cleanup u h = Done (u', h') /\ Rep u' [] (seqZ 0 Capacity) /\ held u' = [] /\ Balanced h' o /\
    same_view o h h' /\ errors h' = errors h.
Proof.
  intros H Hb. unfold cleanup. rewrite release_all_clear.
  destruct (clear_data_ok _ h o Hb) as (data & h1 & -> & L & F & Hb1 & V1 & E1). simpl.
  edestruct (init_ok (mk (m_usedListHead u) (m_freeListHead u) (m_listIndices u) data) h1 o)
    as (u' & h2 & E & R & Eh & Hb2 & V2 & E2); simpl; try apply H.
  { rewrite L. apply H. } { unfold held. simpl. by rewrite null_data_no_handles. }
  eexists _, _. split; [exact E|]. split; [done|]. split; [done|]. split; [done|].
  split; [by eapply same_view_trans|congruence].
Qed.
End ops.
End UsedChunkList.
