(* ===== verification/ConditionVariable.v ===== *)
(** * Condition variables

    [condition_variable_data], [condition_notifier] and [condition_listener] of
    [popo/building_blocks]: a semaphore and one flag per notifier, in shared
    memory.  [notify] sets its flag and posts; [wait] empties the semaphore,
    collects the flags and blocks if there were none.  The first part has the
    operations as functions, the second their interleavings. *)

From stdpp Require Import sorting.
From S2P Require Import Prelude.

Module ConditionVariable.

(** [ConditionVariableData]; the array has [MAX_NUMBER_OF_NOTIFIERS] elements,
    a build option. *)
Record t := mk { m_semaphore : Z; m_activeNotifications : list bool }.

Definition MAX_NUMBER_OF_NOTIFIERS (cv : t) : Z := Z.of_nat (length (m_activeNotifications cv)).

(** The largest value of a POSIX semaphore; [sem_post] fails there. *)
Definition SEM_VALUE_MAX : Z := 2 ^ 31 - 1.

Definition ctor (notifiers : nat) : t := mk 0 (replicate notifiers false).

Definition set_semaphore (v : Z) (cv : t) : t := mk v (m_activeNotifications cv).
Definition set_notification (i : Z) (v : bool) (cv : t) : t :=
  mk (m_semaphore cv) (aset (m_activeNotifications cv) i v).

(** [m_semaphore.post()], its failure is fatal. *)
Definition post (cv : t) : outcome t :=
  if m_semaphore cv <? SEM_VALUE_MAX then Done (set_semaphore (m_semaphore cv + 1) cv)
  else Terminated POPO__CONDITION_NOTIFIER_SEMAPHORE_CORRUPT_IN_NOTIFY.

(** [ConditionNotifier(cv, index)]. *)
Definition ConditionNotifier (cv : t) (index : Z) : outcome unit :=
  if MAX_NUMBER_OF_NOTIFIERS cv <=? index then Terminated POPO__CONDITION_NOTIFIER_INDEX_TOO_LARGE
  else Done ().

Definition notify_store (index : Z) (cv : t) : t :=
  if index <? MAX_NUMBER_OF_NOTIFIERS cv then set_notification index true cv else cv.

Definition notify (index : Z) (cv : t) : outcome t := post (notify_store index cv).

(** [ConditionListener] *)
Definition wasNotified (cv : t) : bool := negb (m_semaphore cv =? 0).

Definition reset (index : Z) (cv : t) : t :=
  if index <? MAX_NUMBER_OF_NOTIFIERS cv then set_notification index false cv else cv.

(** The flag that the loop in [waitImpl] loads. *)
Definition notified (i : Z) (cv : t) : bool := aget false (m_activeNotifications cv) i.

(** One round of the loop in [waitImpl] over the flags, without interference: [i] is
    the next index. *)
Definition collect (i : Z) (active : list Z) (cv : t) : list Z * t :=
  if notified i cv then (active ++ [i], reset i cv) else (active, cv).

(** ** Sequential facts *)

Lemma notify_ok cv i :
  0 <= i < MAX_NUMBER_OF_NOTIFIERS cv -> m_semaphore cv < SEM_VALUE_MAX ->
  notify i cv = Done (mk (m_semaphore cv + 1) (aset (m_activeNotifications cv) i true)).
Proof.
  intros Hi Hs. unfold notify, notify_store, post.
  rewrite (proj2 (Z.ltb_lt i _)) by lia. simpl. by rewrite (proj2 (Z.ltb_lt _ _)) by lia.
Qed.

Lemma max_reset i cv : MAX_NUMBER_OF_NOTIFIERS (reset i cv) = MAX_NUMBER_OF_NOTIFIERS cv.
Proof. unfold reset, MAX_NUMBER_OF_NOTIFIERS. case_zb; simpl; [|done]. by rewrite length_aset. Qed.

Lemma max_store i cv : MAX_NUMBER_OF_NOTIFIERS (notify_store i cv) = MAX_NUMBER_OF_NOTIFIERS cv.
Proof. unfold notify_store, MAX_NUMBER_OF_NOTIFIERS. case_zb; simpl; [|done]. by rewrite length_aset. Qed.

(** ** One listener and any number of notifiers

    Atomic accesses and semaphore operations are the steps, in one total
    order.  A notifier is between its two steps or not; the listener is at one
    of the control points of [waitImpl]. *)

Inductive kind := Wait | TimedWait.

Inductive pc :=
  | Idle                                             (* not in wait() *)
  | ResetSemaphore (k : kind)                        (* the loop of resetSemaphore *)
  | Test (k : kind) (last : bool)                    (* while (!m_toBeDestroyed) *)
  | Scan (k : kind) (last : bool) (i : Z) (active : list Z) (* for (i ..), before the load *)
  | Clear (k : kind) (last : bool) (i : Z) (active : list Z) (* the load gave true, before reset(i) *)
  | Blocked (k : kind)                               (* in waitCall() *)
  | Returned (k : kind) (active : list Z).

Record system := mkSystem {
  data : t;
  pending : list Z;            (* notifiers that set their flag and did not post yet *)
  m_toBeDestroyed : bool;
  destroy_pending : bool;      (* destroy() set the flag and did not post yet *)
  listener : pc }.

Inductive step : system -> system -> Prop :=
  | s_store s i : 0 <= i < MAX_NUMBER_OF_NOTIFIERS (data s) ->
      step s (mkSystem (notify_store i (data s)) (i :: pending s) (m_toBeDestroyed s) (destroy_pending s) (listener s))
  | s_post s i l1 l2 cv : pending s = l1 ++ i :: l2 -> post (data s) = Done cv ->
      step s (mkSystem cv (l1 ++ l2) (m_toBeDestroyed s) (destroy_pending s) (listener s))
  | s_destroy s : destroy_pending s = false ->
      step s (mkSystem (data s) (pending s) true true (listener s))
  | s_destroy_post s cv : destroy_pending s = true -> post (data s) = Done cv ->
      step s (mkSystem cv (pending s) (m_toBeDestroyed s) false (listener s))
  | s_call s k : listener s = Idle ->
      step s (mkSystem (data s) (pending s) (m_toBeDestroyed s) (destroy_pending s) (ResetSemaphore k))
  | s_reset s k : listener s = ResetSemaphore k -> 0 < m_semaphore (data s) ->
      step s (mkSystem (set_semaphore (m_semaphore (data s) - 1) (data s)) (pending s) (m_toBeDestroyed s)
                (destroy_pending s) (ResetSemaphore k))
  | s_reset_end s k : listener s = ResetSemaphore k -> m_semaphore (data s) = 0 ->
      step s (mkSystem (data s) (pending s) (m_toBeDestroyed s) (destroy_pending s) (Test k false))
  | s_test s k last : listener s = Test k last ->
      step s (mkSystem (data s) (pending s) (m_toBeDestroyed s) (destroy_pending s)
                (if m_toBeDestroyed s then Returned k [] else Scan k last 0 []))
  | s_scan s k last i active : listener s = Scan k last i active -> i < MAX_NUMBER_OF_NOTIFIERS (data s) ->
      step s (mkSystem (data s) (pending s) (m_toBeDestroyed s) (destroy_pending s)
                (if notified i (data s) then Clear k last i active else Scan k last (i + 1) active))
  | s_clear s k last i active : listener s = Clear k last i active ->
      step s (mkSystem (reset i (data s)) (pending s) (m_toBeDestroyed s) (destroy_pending s)
                (Scan k last (i + 1) (active ++ [i])))
  | s_scan_end s k last i active : listener s = Scan k last i active -> MAX_NUMBER_OF_NOTIFIERS (data s) <= i ->
      step s (mkSystem (data s) (pending s) (m_toBeDestroyed s) (destroy_pending s)
                (if negb (bool_decide (active = [])) || last then Returned k active else Blocked k))
  | s_wait s k : listener s = Blocked k -> 0 < m_semaphore (data s) ->
      step s (mkSystem (set_semaphore (m_semaphore (data s) - 1) (data s)) (pending s) (m_toBeDestroyed s)
                (destroy_pending s) (Test k (match k with Wait => false | TimedWait => true end)))
  | s_timeout s : listener s = Blocked TimedWait ->
      step s (mkSystem (data s) (pending s) (m_toBeDestroyed s) (destroy_pending s) (Test TimedWait true))
  | s_return s k active : listener s = Returned k active ->
      step s (mkSystem (data s) (pending s) (m_toBeDestroyed s) (destroy_pending s) Idle).

Definition start (notifiers : nat) : system := mkSystem (ctor notifiers) [] false false Idle.

Inductive reachable (notifiers : nat) : system -> Prop :=
  | r_start : reachable notifiers (start notifiers)
  | r_step s s' : reachable notifiers s -> step s s' -> reachable notifiers s'.

(** *** The invariant *)

(** Control points from which the flag [i] will be looked at before the
    listener can block. *)
Definition will_scan (p : pc) (i : Z) : Prop :=
  match p with Scan _ _ j _ | Clear _ _ j _ => j <= i | Blocked _ => False | _ => True end.

(** Control points from which [m_toBeDestroyed] will be tested first. *)
Definition will_test (p : pc) : Prop :=
  match p with Scan _ _ _ _ | Clear _ _ _ _ | Blocked _ => False | _ => True end.

Definition ascending (active : list Z) (bound : Z) : Prop :=
  StronglySorted Z.lt active /\ Forall (fun i => 0 <= i < bound) active.

Record Inv (s : system) : Prop := {
  inv_sem : 0 <= m_semaphore (data s);
  inv_flag : forall i, 0 <= i < MAX_NUMBER_OF_NOTIFIERS (data s) ->
      aget false (m_activeNotifications (data s)) i = true ->
      i ∈ pending s \/ 0 < m_semaphore (data s) \/ will_scan (listener s) i;
  inv_destroy : m_toBeDestroyed s = true ->
      destroy_pending s = true \/ 0 < m_semaphore (data s) \/ will_test (listener s);
  inv_last : match listener s with
      | Test k last | Scan k last _ _ | Clear k last _ _ => last = true -> k = TimedWait
      | _ => True
      end;
  inv_active : match listener s with
      | Scan _ _ i active => 0 <= i <= MAX_NUMBER_OF_NOTIFIERS (data s) /\ ascending active i
      | Clear _ _ i active => 0 <= i < MAX_NUMBER_OF_NOTIFIERS (data s) /\ ascending active i
      | Returned k active => ascending active (MAX_NUMBER_OF_NOTIFIERS (data s)) /\
          (k = Wait -> active = [] -> m_toBeDestroyed s = true)
      | _ => True
      end }.

Lemma post_inv cv cv' : post cv = Done cv' -> cv' = set_semaphore (m_semaphore cv + 1) cv.
Proof. unfold post. case_zb; congruence. Qed.

Lemma ascending_snoc active i : ascending active i -> 0 <= i -> ascending (active ++ [i]) (i + 1).
Proof.
  intros [Hs Hf] Hi. rewrite Forall_forall in Hf. split.
  - apply StronglySorted_app_2; [|done|repeat constructor].
    intros x y Hx ->%list_elem_of_singleton. apply (Hf x Hx).
  - apply Forall_forall. intros x [Hx|Hx]%elem_of_app; [apply Hf in Hx|apply list_elem_of_singleton in Hx]; lia.
Qed.

Lemma ascending_weaken active b b' : ascending active b -> b <= b' -> ascending active b'.
Proof. intros [Hs Hf] Hb. split; [done|]. eapply Forall_impl; [exact Hf|]. simpl. lia. Qed.

Lemma reset_cases i cv : 0 <= i < MAX_NUMBER_OF_NOTIFIERS cv ->
  m_semaphore (reset i cv) = m_semaphore cv /\ aget false (m_activeNotifications (reset i cv)) i = false /\
  forall j, j <> i -> aget false (m_activeNotifications (reset i cv)) j = aget false (m_activeNotifications cv) j.
Proof.
  intros Hi. unfold reset. rewrite (proj2 (Z.ltb_lt i _)) by lia. simpl. unfold MAX_NUMBER_OF_NOTIFIERS in Hi.
  split; [done|]. split; [by apply aget_aset_eq|]. intros j Hj. by apply aget_aset_ne.
Qed.

Lemma listener_step_inv s s' : Inv s -> step s s' -> Inv s'.
Proof.
  intros [Hsem Hflag Hdes Hlast Hact] Hstep.
  destruct Hstep as [s i Hi|s i l1 l2 cv Hp Hpost|s Hd|s cv Hd Hpost|s k Hl|s k Hl Hs|s k Hl Hs|s k last Hl
    |s k last i active Hl Hi|s k last i active Hl|s k last i active Hl Hi|s k Hl Hs|s Hl|s k active Hl];
    try (rewrite Hl in *; simpl in *).
  - pose proof (max_store i (data s)) as Hm. constructor; simpl; rewrite ?Hm; try done.
    + unfold notify_store. by case_zb.
    + unfold notify_store. rewrite (proj2 (Z.ltb_lt i _)) by lia. simpl. intros j Hj.
      rewrite aget_aset by done. case_decide as E; [subst; intros _; left; by left|]. intros Hf.
      destruct (Hflag j Hj Hf) as [?|?]; [left; by right|by right].
    + intros H. destruct (Hdes H) as [?|[?|?]]; [by left| |by auto]. right; left.
      unfold notify_store. by case_zb.
  - apply post_inv in Hpost as ->. constructor; simpl; try done; lia.
  - constructor; simpl; try done; [by left|]. destruct (listener s); try done. intuition.
  - apply post_inv in Hpost as ->. constructor; simpl; try done; lia.
  - constructor; simpl; auto.
  - constructor; simpl; auto. lia.
  - constructor; simpl; auto. done.
  - constructor; simpl; try done.
    + intros i Hi Hf. right; right. destruct (m_toBeDestroyed s); simpl; [done|lia].
    + intros E. rewrite E. simpl. by auto.
    + by destruct (m_toBeDestroyed s).
    + destruct (m_toBeDestroyed s); simpl.
      * split; [split; [constructor|by apply Forall_nil]|done].
      * unfold MAX_NUMBER_OF_NOTIFIERS. split; [lia|]. split; [constructor|by apply Forall_nil].
  - destruct Hact as [Hr Ha]. unfold notified. destruct (aget false (m_activeNotifications (data s)) i) eqn:E.
    + constructor; simpl; try done. split; [lia|done].
    + constructor; simpl; try done.
      * intros j Hj Hf. destruct (decide (j = i)) as [->|Hne]; [congruence|].
        destruct (Hflag j Hj Hf) as [?|[?|?]]; [by auto|by auto|]. right; right. lia.
      * split; [lia|]. eapply ascending_weaken; [done|lia].
  - destruct Hact as [Hr Ha]. destruct (reset_cases i (data s) Hr) as (E1 & E2 & E3). pose proof (max_reset i (data s)) as Hm.
    constructor; simpl; rewrite ?E1, ?Hm; try done.
    + intros j Hj. destruct (decide (j = i)) as [->|Hne]; [congruence|]. rewrite E3 by done. intros Hf.
      destruct (Hflag j Hj Hf) as [?|[?|?]]; [by auto|by auto|]. right; right. lia.
    + split; [lia|]. apply ascending_snoc; [done|lia].
  - destruct Hact as [Hr Ha]. assert (i = MAX_NUMBER_OF_NOTIFIERS (data s)) as -> by lia.
    case_bool_decide as E; simpl; [destruct last|]; constructor; simpl; try by auto.
    + split; [done|]. intros -> _. discriminate (Hlast eq_refl).
    + intros j Hj Hf. destruct (Hflag j Hj Hf) as [?|[?|?]]; auto. lia.
  - constructor; simpl; auto; [lia|]. by destruct k.
  - constructor; simpl; auto.
  - constructor; simpl; auto.
Qed.

Lemma start_inv n : Inv (start n).
Proof.
  constructor; simpl; try done.
  intros i _. unfold aget. destruct (i <? 0); [done|]. simpl.
  destruct (replicate n false !! Z.to_nat i) eqn:E; [|done]. apply lookup_replicate in E as [-> _]. done.
Qed.

Lemma reachable_inv n s : reachable n s -> Inv s.
Proof. induction 1; [apply start_inv|by eapply listener_step_inv]. Qed.

(** C14: no notification is lost.  If the listener is blocked and its semaphore
    is zero, so that nothing wakes it up, then no completed [notify] is
    outstanding (every set flag belongs to a notifier that will still post) and
    no completed [destroy] either. *)
Theorem listener_no_lost_wakeup n s k :
  reachable n s -> listener s = Blocked k -> m_semaphore (data s) = 0 ->
  (forall i, 0 <= i < MAX_NUMBER_OF_NOTIFIERS (data s) ->
     aget false (m_activeNotifications (data s)) i = true -> i ∈ pending s) /\
  (m_toBeDestroyed s = true -> destroy_pending s = true).
Proof.
  intros Hr Hl Hs. destruct (reachable_inv n s Hr) as [_ Hf Hd _ _]. rewrite Hl in *. split.
  - intros i Hi E. destruct (Hf i Hi E) as [?|[?|[]]]; [done|lia].
  - intros E. destruct (Hd E) as [?|[?|[]]]; [done|lia].
Qed.

(** The listener blocks while a notifier has set its flag and not yet posted. *)
Definition racing : system := mkSystem (mk 0 [true; false]) [0] false false (Blocked Wait).

Lemma racing_reachable : reachable 2 racing.
Proof.
  assert (H : reachable 2 (mkSystem (mk 0 [false; false]) [] false false (Scan Wait false 1 []))).
  { eapply r_step; [|apply (s_scan (mkSystem (mk 0 [false; false]) [] false false (Scan Wait false 0 [])) _ _ _ _ eq_refl); reflexivity].
    eapply r_step; [|apply (s_test (mkSystem (mk 0 [false; false]) [] false false (Test Wait false)) _ _ eq_refl)].
    eapply r_step; [|apply (s_reset_end (mkSystem (mk 0 [false; false]) [] false false (ResetSemaphore Wait)) _ eq_refl eq_refl)].
    eapply r_step; [apply r_start|]. apply (s_call (start 2) Wait). reflexivity. }
  eapply r_step; [|apply (s_scan_end (mkSystem (mk 0 [true; false]) [0] false false (Scan Wait false 2 [])) _ _ _ _ eq_refl);
    vm_compute; congruence].
  eapply r_step; [|apply (s_scan (mkSystem (mk 0 [true; false]) [0] false false (Scan Wait false 1 [])) _ _ _ _ eq_refl);
    reflexivity].
  eapply r_step; [exact H|].
  apply (s_store (mkSystem (mk 0 [false; false]) [] false false (Scan Wait false 1 [])) 0). vm_compute. split; congruence.
Qed.

Lemma listener_no_lost_wakeup_witness :
  aget false (m_activeNotifications (data racing)) 0 = true /\ 0 ∈ pending racing.
Proof.
  split; [reflexivity|].
  apply (proj1 (listener_no_lost_wakeup 2 racing Wait racing_reachable eq_refl eq_refl) 0);
    [vm_compute; split; congruence|reflexivity].
Defined.

(** What [wait] and [timedWait] return is a strictly increasing list of
    notifier indices, and [wait] returns an empty one only after [destroy]. *)
Theorem listener_returns_sorted n s k active :
  reachable n s -> listener s = Returned k active ->
  ascending active (MAX_NUMBER_OF_NOTIFIERS (data s)) /\
  (k = Wait -> active = [] -> m_toBeDestroyed s = true).
Proof. intros Hr Hl. pose proof (inv_active _ (reachable_inv n s Hr)) as H. by rewrite Hl in H. Qed.

Lemma listener_returns_sorted_witness :
  ascending [] (MAX_NUMBER_OF_NOTIFIERS (ctor 2)) /\ (Wait = Wait -> @nil Z = [] -> true = true).
Proof.
  apply (listener_returns_sorted 2 (mkSystem (ctor 2) [] true true (Returned Wait [])) Wait []); [|reflexivity].
  eapply r_step; [|apply (s_test (mkSystem (ctor 2) [] true true (Test Wait false)) _ _ eq_refl)].
  eapply r_step; [|apply (s_reset_end (mkSystem (ctor 2) [] true true (ResetSemaphore Wait)) _ eq_refl eq_refl)].
  eapply r_step; [|apply (s_call (mkSystem (ctor 2) [] true true Idle) Wait eq_refl)].
  eapply r_step; [apply r_start|]. apply (s_destroy (start 2)). reflexivity.
Defined.
End ConditionVariable.
