(* ===== verification/ChunkQueue.v ===== *)
(** * Chunk queues

    [chunk_queue_data], [chunk_queue_pusher.inl] and [chunk_queue_popper.inl]:
    the queue of chunks between a sender and one receiver, with the condition
    variable that wakes the receiver.  [World] is the shared memory the senders
    and receivers work on: the segments, the queues and the condition
    variables, the latter two addressed by their index. *)

From S2P Require Import Prelude ChunkHeader MemoryManager SharedChunk Queue VariantQueue ConditionVariable.

Module QueueFullPolicy.
Inductive t := BLOCK_PRODUCER | DISCARD_OLDEST_DATA.

#[global] Instance eq_dec : EqDecision t.
Proof. solve_decision. Defined.
End QueueFullPolicy.

(** [ChunkQueueData]; [MAX_CAPACITY] is a static member of the template. *)
Module ChunkQueueData.
Record t := mk {
  m_uniqueId : Z;
  MAX_CAPACITY : Z;
  m_queue : VariantQueue.t ShmSafeUnmanagedChunk.t;
  m_queueHasLostChunks : bool;
  m_conditionVariableDataPtr : option nat;
  m_conditionVariableNotificationIndex : option Z;
  m_queueFullPolicy : QueueFullPolicy.t }.

Definition ctor (uniqueId maxCapacity : Z) (policy : QueueFullPolicy.t) (queueType : VariantQueueTypes) : t :=
  mk uniqueId maxCapacity (VariantQueue.ctor ShmSafeUnmanagedChunk.null maxCapacity queueType)
     false None None policy.

Definition set_queue (v : VariantQueue.t ShmSafeUnmanagedChunk.t) (d : t) : t :=
  mk (m_uniqueId d) (MAX_CAPACITY d) v (m_queueHasLostChunks d) (m_conditionVariableDataPtr d)
     (m_conditionVariableNotificationIndex d) (m_queueFullPolicy d).
Definition set_lost (v : bool) (d : t) : t :=
  mk (m_uniqueId d) (MAX_CAPACITY d) (m_queue d) v (m_conditionVariableDataPtr d)
     (m_conditionVariableNotificationIndex d) (m_queueFullPolicy d).
Definition set_condition (cv : option nat) (i : option Z) (d : t) : t :=
  mk (m_uniqueId d) (MAX_CAPACITY d) (m_queue d) (m_queueHasLostChunks d) cv i (m_queueFullPolicy d).

(** The kind and the current capacity of the queue. *)
Definition kind (d : t) : VariantQueueTypes := VariantQueue.m_type (m_queue d).
Definition capacity (d : t) : Z := VariantQueue.capacity (MAX_CAPACITY d) (m_queue d).
End ChunkQueueData.

Record World := mkWorld {
  heap : Heap;
  queues : list ChunkQueueData.t;
  condvars : list ConditionVariable.t }.

Definition set_heap (h : Heap) (w : World) : World := mkWorld h (queues w) (condvars w).
Definition set_queue_data (q : nat) (d : ChunkQueueData.t) (w : World) : World :=
  mkWorld (heap w) (<[q := d]> (queues w)) (condvars w).
Definition set_condvar (c : nat) (cv : ConditionVariable.t) (w : World) : World :=
  mkWorld (heap w) (queues w) (<[c := cv]> (condvars w)).

(** [queue->...] for a pointer to a queue. *)
Definition get_queue (q : nat) (w : World) : outcome ChunkQueueData.t :=
  match queues w !! q with Some d => Done d | None => Terminated UNDEFINED_BEHAVIOUR end.

Definition report_world (e : Error) (l : ErrorLevel) (w : World) : World := set_heap (report e l (heap w)) w.

(** A temporary [SharedChunk] is destroyed. *)
Definition drop (c : SharedChunk.t) (w : World) : outcome World :=
  let* h := SharedChunk.dtor c (heap w) in Done (set_heap h w).

(** A [SharedChunk] is copied, as for a by-value parameter. *)
Definition copy (c : SharedChunk.t) (w : World) : outcome (SharedChunk.t * World) :=
  let* '(c, h) := SharedChunk.copy c (heap w) in Done (c, set_heap h w).

Module ChunkQueuePusher.

(** The notification at the end of [push]. *)
Definition notify (q : nat) (w : World) : outcome World :=
  let* d := get_queue q w in
  match ChunkQueueData.m_conditionVariableDataPtr d with
  | None => Done w
  | Some c =>
      match ChunkQueueData.m_conditionVariableNotificationIndex d, condvars w !! c with
      | None, _ => Terminated EXPECTS_ENSURES_FAILED (* [*optional] *)
      | _, None => Terminated UNDEFINED_BEHAVIOUR
      | Some i, Some cv =>
          let* _ := ConditionVariable.ConditionNotifier cv i in
          let* cv := ConditionVariable.notify i cv in
          Done (set_condvar c cv w)
      end
  end.

(** [push]: the parameter is copied into a [ShmSafeUnmanagedChunk] for the queue
    and destroyed at the end. *)
Definition push (q : nat) (chunk : SharedChunk.t) (w : World) : outcome (bool * World) :=
  let* d := get_queue q w in
  let* '(c, w) := copy chunk w in
  let* e := ShmSafeUnmanagedChunk.ctor c in
  let* '(pushRet, m_queue) :=
    returns (VariantQueue.push ShmSafeUnmanagedChunk.null (ChunkQueueData.MAX_CAPACITY d)
               (ChunkQueueData.m_queue d) e) in
  let w := set_queue_data q (ChunkQueueData.set_queue m_queue d) w in
  let* '(hasQueueOverflow, w) :=
    match pushRet with
    | Some v => let* w := drop (fst (ShmSafeUnmanagedChunk.releaseToSharedChunk v)) w in Done (true, w)
    | None => Done (false, w)
    end in
  let* w := notify q w in
  let* w := drop chunk w in
  Done (negb hasQueueOverflow, w).

Definition lostAChunk (q : nat) (w : World) : outcome World :=
  let* d := get_queue q w in
  Done (set_queue_data q (ChunkQueueData.set_lost true d) w).
End ChunkQueuePusher.

Module ChunkQueuePopper.

Definition tryPop (q : nat) (w : World) : outcome (option SharedChunk.t * World) :=
  let* d := get_queue q w in
  let* '(retVal, m_queue) :=
    returns (VariantQueue.pop ShmSafeUnmanagedChunk.null (ChunkQueueData.MAX_CAPACITY d) (ChunkQueueData.m_queue d)) in
  let w := set_queue_data q (ChunkQueueData.set_queue m_queue d) w in
  match retVal with
  | Some v =>
      let '(chunk, _) := ShmSafeUnmanagedChunk.releaseToSharedChunk v in
      match SharedChunk.getChunkHeader chunk (heap w) with
      | None => Terminated UNDEFINED_BEHAVIOUR
      | Some p =>
          let* hd := read_header p (heap w) in
          if ChunkHeader.chunkHeaderVersion hd =? ChunkHeader.CHUNK_HEADER_VERSION
          then
            let* '(r, w) := copy chunk w in
            let* w := drop chunk w in
            Done (Some r, w)
          else
            let w := report_world POPO__CHUNK_QUEUE_POPPER_CHUNK_WITH_INCOMPATIBLE_CHUNK_HEADER_VERSION SEVERE w in
            let* w := drop chunk w in
            Done (None, w)
      end
  | None => Done (None, w)
  end.

Definition hasLostChunks (q : nat) (w : World) : outcome (bool * World) :=
  let* d := get_queue q w in
  if ChunkQueueData.m_queueHasLostChunks d
  then Done (true, set_queue_data q (ChunkQueueData.set_lost false d) w)
  else Done (false, w).

Definition empty (q : nat) (w : World) : outcome bool :=
  let* d := get_queue q w in
  Done (VariantQueue.empty (ChunkQueueData.MAX_CAPACITY d) (ChunkQueueData.m_queue d)).

Definition size (q : nat) (w : World) : outcome Z :=
  let* d := get_queue q w in Done (VariantQueue.size (ChunkQueueData.m_queue d)).

(** [clear]: one element more than the queue can hold is never there. *)
Fixpoint clear_loop (fuel : nat) (q : nat) (w : World) : outcome World :=
  match fuel with
  | O => Terminated DOES_NOT_RETURN
  | S fuel =>
      let* d := get_queue q w in
      let* '(maybeUnmanagedChunk, m_queue) :=
        returns (VariantQueue.pop ShmSafeUnmanagedChunk.null (ChunkQueueData.MAX_CAPACITY d)
                   (ChunkQueueData.m_queue d)) in
      let w := set_queue_data q (ChunkQueueData.set_queue m_queue d) w in
      match maybeUnmanagedChunk with
      | Some v =>
          let* w := drop (fst (ShmSafeUnmanagedChunk.releaseToSharedChunk v)) w in
          clear_loop fuel q w
      | None => Done w
      end
  end.

Definition clear (q : nat) (w : World) : outcome World :=
  let* d := get_queue q w in
  clear_loop (Z.to_nat (ChunkQueueData.MAX_CAPACITY d) + 1) q w.

Definition setConditionVariable (q : nat) (conditionVariable : nat) (notificationIndex : Z) (w : World) : outcome World :=
  let* d := get_queue q w in
  Done (set_queue_data q (ChunkQueueData.set_condition (Some conditionVariable) (Some notificationIndex) d) w).

Definition unsetConditionVariable (q : nat) (w : World) : outcome World :=
  let* d := get_queue q w in
  Done (set_queue_data q (ChunkQueueData.set_condition None None d) w).

Definition isConditionVariableSet (q : nat) (w : World) : outcome bool :=
  let* d := get_queue q w in
  Done (bool_decide (ChunkQueueData.m_conditionVariableDataPtr d <> None)).
End ChunkQueuePopper.

(** ** The invariant of the shared memory

    [contents] lists what every queue holds, oldest first, as handles; [n] is a
    bound on the operations that follow, for the counters that do not wrap. *)

Definition encodes (e : ShmSafeUnmanagedChunk.t) (x : handle) : Prop := shm_handles e = [x].

Record queue_rep (n : Z) (d : ChunkQueueData.t) (hs : list handle) : Prop := {
  qr_max : 0 < ChunkQueueData.MAX_CAPACITY d < 2 ^ 60;
  qr_cap : 0 < ChunkQueueData.capacity d <= ChunkQueueData.MAX_CAPACITY d;
  qr_rep : exists l, VariantQueue.Rep ShmSafeUnmanagedChunk.null (ChunkQueueData.MAX_CAPACITY d)
             (ChunkQueueData.kind d) (ChunkQueueData.m_queue d) (ChunkQueueData.capacity d) l n /\
             Forall2 encodes l hs }.

Definition condition_ok (cvs : list ConditionVariable.t) (d : ChunkQueueData.t) : Prop :=
  match ChunkQueueData.m_conditionVariableDataPtr d with
  | None => True
  | Some c => exists cv i, cvs !! c = Some cv /\ ChunkQueueData.m_conditionVariableNotificationIndex d = Some i /\
                0 <= i < ConditionVariable.MAX_NUMBER_OF_NOTIFIERS cv
  end.

Record WorldInv (w : World) (contents : list (list handle)) (n : Z) : Prop := {
  wi_n : 0 <= n;
  wi_queues : Forall2 (queue_rep n) (queues w) contents;
  wi_conditions : Forall (condition_ok (condvars w)) (queues w);
  wi_semaphores : Forall (fun cv => 0 <= ConditionVariable.m_semaphore cv /\
                            ConditionVariable.m_semaphore cv + n <= ConditionVariable.SEM_VALUE_MAX) (condvars w) }.

(** What a queue is besides its contents and its lost-chunk flag. *)
Definition same_queue (d d' : ChunkQueueData.t) : Prop :=
  ChunkQueueData.m_uniqueId d' = ChunkQueueData.m_uniqueId d /\
  ChunkQueueData.MAX_CAPACITY d' = ChunkQueueData.MAX_CAPACITY d /\
  ChunkQueueData.kind d' = ChunkQueueData.kind d /\
  ChunkQueueData.capacity d' = ChunkQueueData.capacity d /\
  ChunkQueueData.m_conditionVariableDataPtr d' = ChunkQueueData.m_conditionVariableDataPtr d /\
  ChunkQueueData.m_conditionVariableNotificationIndex d' = ChunkQueueData.m_conditionVariableNotificationIndex d /\
  ChunkQueueData.m_queueFullPolicy d' = ChunkQueueData.m_queueFullPolicy d.

#[global] Instance same_queue_refl : Reflexive same_queue.
Proof. unfold same_queue. intros d. by split_and!. Qed.
#[global] Instance same_queue_trans : Transitive same_queue.
Proof. unfold same_queue. intros d1 d2 d3. naive_solver congruence. Qed.

(** The queues of a world keep their identity and configuration. *)
Definition same_queues (w w' : World) : Prop := Forall2 same_queue (queues w) (queues w').

#[global] Instance same_queues_refl : Reflexive same_queues.
Proof. intros w. unfold same_queues. induction (queues w); by constructor. Qed.
#[global] Instance same_queues_trans : Transitive same_queues.
Proof.
  intros w1 w2 w3. unfold same_queues. generalize (queues w1) (queues w2) (queues w3).
  intros l1 l2 l3 H. revert l3. induction H as [|d1 d2 l1 l2 H12 _ IH]; intros l3 H; inversion H; subst; constructor;
    [by etransitivity|by apply IH].
Qed.

(** The lost-chunk flags. *)
Definition lost_flags (w : World) : list bool := ChunkQueueData.m_queueHasLostChunks <$> queues w.

Definition owned (contents : list (list handle)) : list handle := contents ≫= id.

Lemma worldinv_less w c n m : WorldInv w c n -> 0 <= m <= n -> WorldInv w c m.
Proof.
  intros [] Hm. constructor; [lia| |done|].
  - eapply Forall2_impl; [done|]. intros d hs [? ? (l & ? & ?)]. constructor; try done.
    exists l. split; [|done]. by eapply VariantQueue.variant_rep_less.
  - eapply Forall_impl; [done|]. simpl. lia.
Qed.

Lemma worldinv_heap w c n h : WorldInv w c n -> WorldInv (set_heap h w) c n.
Proof. intros []. by constructor. Qed.

Lemma insert_same_queue (l : list ChunkQueueData.t) q d d' :
  l !! q = Some d -> same_queue d d' -> Forall2 same_queue l (<[q := d']> l).
Proof.
  revert q. induction l as [|x l IH]; intros [|q] H Hs; simplify_eq/=; constructor; auto; try done.
Qed.

Lemma same_queues_insert w q d d' h cvs : queues w !! q = Some d -> same_queue d d' ->
  same_queues w (mkWorld h (<[q := d']> (queues w)) cvs).
Proof. apply insert_same_queue. Qed.

Lemma owned_focus contents q hs : contents !! q = Some hs ->
  exists rest, owned contents ≡ₚ hs ++ rest /\ forall hs', owned (<[q := hs']> contents) ≡ₚ hs' ++ rest.
Proof. apply (bind_focus id). Qed.

(** *** Pushing *)

Lemma rep_capacity n d l : 0 < ChunkQueueData.MAX_CAPACITY d < 2 ^ 60 ->
  forall q cap, VariantQueue.Rep ShmSafeUnmanagedChunk.null (ChunkQueueData.MAX_CAPACITY d) (ChunkQueueData.kind d)
    q cap l n -> VariantQueue.capacity (ChunkQueueData.MAX_CAPACITY d) q = cap /\
                 VariantQueue.m_type q = ChunkQueueData.kind d.
Proof.
  intros Hm q cap H. split; [|apply H].
  exact (@q_capacity _ _ _ _ (VariantQueue.laws _ _ Hm (ChunkQueueData.kind d)) q cap l n H).
Qed.

Lemma notify_world w contents n q d : WorldInv w contents n -> 0 < n -> queues w !! q = Some d ->
  exists w', ChunkQueuePusher.notify q w = Done w' /\ WorldInv w' contents (n - 1) /\
    heap w' = heap w /\ queues w' = queues w.
Proof.
  intros HW Hn Hq. pose proof HW as []. unfold ChunkQueuePusher.notify, get_queue. rewrite Hq. simpl.
  pose proof (Forall_lookup_1 _ _ _ _ wi_conditions0 Hq) as Hc. unfold condition_ok in Hc.
  destruct (ChunkQueueData.m_conditionVariableDataPtr d) as [c|].
  2:{ eexists. split; [done|]. split; [|done]. eapply worldinv_less; [done|lia]. }
  destruct Hc as (cv & i & Hcv & -> & Hi). rewrite Hcv.
  destruct (Forall_lookup_1 _ _ _ _ wi_semaphores0 Hcv) as [Hs1 Hs2].
  unfold ConditionVariable.ConditionNotifier. rewrite (proj2 (Z.leb_gt _ _)) by lia. simpl.
  rewrite ConditionVariable.notify_ok by lia. simpl. eexists. split; [done|]. split; [|done].
  destruct (worldinv_less w contents n (n - 1) HW ltac:(lia)). constructor; simpl; try done.
  - eapply Forall_impl; [done|]. intros d0. unfold condition_ok.
    destruct (ChunkQueueData.m_conditionVariableDataPtr d0) as [c0|]; [|done].
    intros (cv0 & i0 & Hcv0 & Hi0 & Hr). destruct (decide (c0 = c)) as [->|Hne].
    + eexists _, i0. split; [apply list_lookup_insert_eq; by eapply lookup_lt_Some|]. split; [done|].
      unfold ConditionVariable.MAX_NUMBER_OF_NOTIFIERS in *. simpl. rewrite length_aset.
      by assert (cv0 = cv) as -> by congruence.
    + exists cv0, i0. by rewrite list_lookup_insert_ne.
  - apply Forall_insert; [done|]. simpl. lia.
Qed.

(** The state after [hs'] became the contents of queue [q]. *)
Lemma set_contents w contents n q d q' l hs' h :
  WorldInv w contents n -> queues w !! q = Some d ->
  VariantQueue.Rep ShmSafeUnmanagedChunk.null (ChunkQueueData.MAX_CAPACITY d) (ChunkQueueData.kind d)
    q' (ChunkQueueData.capacity d) l n -> Forall2 encodes l hs' ->
  let w' := mkWorld h (<[q := ChunkQueueData.set_queue q' d]> (queues w)) (condvars w) in
  WorldInv w' (<[q := hs']> contents) n /\ same_queues w w' /\ lost_flags w' = lost_flags w.
Proof.
  intros [] Hq Hrep Hl w'. destruct (Forall2_lookup_l _ _ _ _ _ wi_queues0 Hq) as (hs & Hhs & [Hm Hc _]).
  destruct (rep_capacity n d l Hm q' _ Hrep) as [E1 E2].
  split; [|split].
  - constructor; simpl; try done.
    + apply Forall2_insert; [done|]. constructor; simpl; unfold ChunkQueueData.capacity, ChunkQueueData.kind in *; simpl.
      * done.
      * by rewrite E1.
      * exists l. by rewrite E1, E2.
    + apply Forall_insert; [done|]. pose proof (Forall_lookup_1 _ _ _ _ wi_conditions0 Hq). done.
  - apply same_queues_insert with d; [done|].
    unfold same_queue, ChunkQueueData.kind, ChunkQueueData.capacity in *. simpl. by split_and!.
  - unfold lost_flags, w'. simpl. rewrite list_fmap_insert. simpl. apply list_insert_id.
    by rewrite list_lookup_fmap, Hq.
Qed.

(** What [push] does to queue [d] with contents [hs]. *)
Definition queue_push (d : ChunkQueueData.t) (hs : list handle) (x : handle) : option handle * list handle :=
  spec_push (evicts (ChunkQueueData.kind d)) (ChunkQueueData.capacity d) hs x.

Lemma queue_push_owned contents q d hs x : contents !! q = Some hs -> 0 < ChunkQueueData.capacity d ->
  x :: owned contents ≡ₚ option_list (fst (queue_push d hs x)) ++ owned (<[q := snd (queue_push d hs x)]> contents).
Proof.
  intros Hq Hc. destruct (owned_focus contents q hs Hq) as (rest & -> & I). rewrite I.
  rewrite app_comm_cons, (spec_push_Permutation (evicts (ChunkQueueData.kind d)) _ hs x Hc). by rewrite app_assoc.
Qed.

(** Dropping a chunk that a queue gave up. *)
Lemma drop_entry w e x o : encodes e x -> Balanced (heap w) (x :: o) ->
  exists h', drop (fst (ShmSafeUnmanagedChunk.releaseToSharedChunk e)) w = Done (set_heap h' w) /\
    Balanced h' o /\ same_view o (heap w) h' /\ errors h' = errors (heap w).
Proof.
  intros He Hb. destruct (release_handles e) as [Hv _]. rewrite He in Hv. unfold drop.
  destruct (ShmSafeUnmanagedChunk.releaseToSharedChunk e) as [[y|] e']; simpl in Hv; [|done]. injection Hv as ->.
  destruct (dtor_ok (heap w) o (Some x) Hb) as (h' & E & ?). cbn [fst]. rewrite E. by exists h'.
Qed.

(** The overflow of a push. *)
Lemma drop_overflow w out r o :
  match out, r with None, None => True | Some e, Some y => encodes e y | _, _ => False end ->
  Balanced (heap w) (option_list r ++ o) ->
  exists h', match out with
             | Some v => let* w := drop (fst (ShmSafeUnmanagedChunk.releaseToSharedChunk v)) w in Done (true, w)
             | None => Done (false, w)
             end = Done (negb (bool_decide (r = None)), set_heap h' w) /\
    Balanced h' o /\ same_view o (heap w) h' /\ errors h' = errors (heap w).
Proof.
  intros He Hb. destruct out as [e|], r as [y|]; try done.
  - destruct (drop_entry w e y o He Hb) as (h' & -> & ?). by exists h'.
  - exists (heap w). by destruct w.
Qed.

Lemma pusher_push_ok w contents n q d hs x o :
  WorldInv w contents n -> 1 < n -> queues w !! q = Some d -> contents !! q = Some hs ->
  Balanced (heap w) (x :: owned contents ++ o) -> headroom (x :: owned contents ++ o) 1 ->
  let r := queue_push d hs x in
  exists w', ChunkQueuePusher.push q (Some x) w = Done (bool_decide (fst r = None), w') /\
    WorldInv w' (<[q := snd r]> contents) (n - 2) /\
    Balanced (heap w') (owned (<[q := snd r]> contents) ++ o) /\
    same_view (owned (<[q := snd r]> contents) ++ o) (heap w) (heap w') /\ errors (heap w') = errors (heap w) /\
    same_queues w w' /\ lost_flags w' = lost_flags w.
Proof.
  intros HW Hn Hq Hhs Hb Hh r. unfold ChunkQueuePusher.push, get_queue, copy. rewrite Hq. cbn [obind].
  destruct (copy_ok (heap w) (owned contents ++ o) (Some x) Hb Hh) as (h1 & -> & Hb1 & V1 & Er1). cbn [obind].
  destruct (shm_ctor_ok h1 _ (Some x) Hb1) as (e & -> & He). cbn [obind].
  destruct (Forall2_lookup_lr _ _ _ _ _ _ (wi_queues _ _ _ HW) Hq Hhs) as [Hm Hc (l & Hl & Henc)].
  destruct (VariantQueue.push_refines _ _ Hm _ _ _ _ _ e Hl) as (q' & E & Hl'); [lia|lia|].
  rewrite E. cbn [obind returns]. clear E.
  destruct (spec_push_Forall2 encodes (evicts (ChunkQueueData.kind d)) (ChunkQueueData.capacity d) l hs e x Henc He)
    as [Hout Henc']. fold (queue_push d hs x) in Hout, Henc'. fold r in Hout, Henc'.
  destruct (set_contents w contents (n - 1) q d q' _ _ h1 (worldinv_less w contents n (n - 1) HW ltac:(lia)) Hq Hl' Henc')
    as (HW1 & Hs1 & Hf1).
  set (w1 := mkWorld h1 _ _) in *. unfold set_queue_data. simpl. fold w1.
  pose proof (queue_push_owned contents q d hs x Hhs ltac:(lia)) as P. fold r in P.
  set (contents' := <[q := snd r]> contents) in *.
  assert (Hb2 : Balanced (heap w1) (option_list (fst r) ++ x :: owned contents' ++ o)).
  { eapply Balanced_proper; [|exact Hb1]. simpl. rewrite (app_comm_cons (owned contents)), P. solve_Permutation. }
  destruct (drop_overflow w1 _ _ _ Hout Hb2) as (h2 & -> & Hb3 & V3 & Er3). cbn [obind].
  destruct (notify_world (set_heap h2 w1) contents' (n - 1) q (ChunkQueueData.set_queue q' d))
    as (w3 & -> & HW3 & Eh & Eq);
    [by apply worldinv_heap|lia|apply list_lookup_insert_eq; by eapply lookup_lt_Some|]. cbn [obind]. unfold drop.
  destruct (dtor_ok (heap w3) (owned contents' ++ o) (Some x)) as (h4 & E & Hb4 & V4 & Er4); [by rewrite Eh|].
  rewrite E. cbn [obind]. rewrite negb_involutive. eexists. split; [done|]. simpl in *. rewrite Eh in *. simpl in *.
  split; [apply worldinv_heap; by replace (n - 2) with (n - 1 - 1) by lia|]. split; [done|]. split; [|split; [congruence|split]].
  - eapply same_view_trans; [|exact V4]. eapply same_view_trans; (eapply same_view_subset; [|done]).
    + intros y. rewrite (app_comm_cons (owned contents)), P, <- app_assoc. rewrite !elem_of_app. tauto.
    + intros y. by right.
  - unfold same_queues in *. simpl. by rewrite Eq.
  - unfold lost_flags in *. simpl. by rewrite Eq.
Qed.

(** *** Popping *)

Lemma pop_world w contents n q d hs :
  WorldInv w contents n -> 0 < n -> queues w !! q = Some d -> contents !! q = Some hs ->
  exists out q', VariantQueue.pop ShmSafeUnmanagedChunk.null (ChunkQueueData.MAX_CAPACITY d) (ChunkQueueData.m_queue d)
                 = Some (out, q') /\
    let w' := set_queue_data q (ChunkQueueData.set_queue q' d) w in
    WorldInv w' (<[q := snd (spec_pop hs)]> contents) (n - 1) /\ same_queues w w' /\ lost_flags w' = lost_flags w /\
    match out, fst (spec_pop hs) with None, None => True | Some e, Some x => encodes e x | _, _ => False end.
Proof.
  intros HW Hn Hq Hhs.
  destruct (Forall2_lookup_lr _ _ _ _ _ _ (wi_queues _ _ _ HW) Hq Hhs) as [Hm Hc (l & Hl & Henc)].
  destruct (VariantQueue.pop_refines _ _ Hm _ _ _ _ _ Hl Hn) as (q' & E & Hl'). eexists _, q'. split; [exact E|].
  assert (Henc' : Forall2 encodes (snd (spec_pop l)) (snd (spec_pop hs)) /\
    match fst (spec_pop l), fst (spec_pop hs) with None, None => True | Some e, Some x => encodes e x | _, _ => False end)
    by (destruct Henc; done). destruct Henc' as [Henc' Hout].
  destruct (set_contents w contents (n - 1) q d q' _ _ (heap w) (worldinv_less w contents n (n - 1) HW ltac:(lia)) Hq Hl' Henc')
    as (HW1 & Hs1 & Hf1). by split_and!.
Qed.

Lemma pop_owned contents q x hs : contents !! q = Some (x :: hs) -> owned contents ≡ₚ x :: owned (<[q := hs]> contents).
Proof. intros H. destruct (owned_focus contents q _ H) as (rest & -> & I). by rewrite I. Qed.

Lemma tryPop_empty w contents n q d :
  WorldInv w contents n -> 0 < n -> queues w !! q = Some d -> contents !! q = Some [] ->
  exists w', ChunkQueuePopper.tryPop q w = Done (None, w') /\ WorldInv w' contents (n - 1) /\ heap w' = heap w /\
    same_queues w w' /\ lost_flags w' = lost_flags w.
Proof.
  intros HW Hn Hq Hhs. unfold ChunkQueuePopper.tryPop, get_queue. rewrite Hq. cbn [obind].
  destruct (pop_world w contents n q d [] HW Hn Hq Hhs) as (out & q' & -> & HW1 & Hs & Hf & Hout). cbn [returns obind].
  destruct out; [done|]. eexists. split; [done|]. cbn in HW1. rewrite (list_insert_id contents q []) in HW1 by done. done.
Qed.

Lemma tryPop_ok w contents n q d x hs o :
  WorldInv w contents n -> 0 < n -> queues w !! q = Some d -> contents !! q = Some (x :: hs) ->
  Balanced (heap w) (owned contents ++ o) -> headroom (owned contents ++ o) 1 ->
  exists w', ChunkQueuePopper.tryPop q w = Done (Some (Some x), w') /\ WorldInv w' (<[q := hs]> contents) (n - 1) /\
    Balanced (heap w') (x :: owned (<[q := hs]> contents) ++ o) /\
    same_view (owned contents ++ o) (heap w) (heap w') /\ errors (heap w') = errors (heap w) /\
    same_queues w w' /\ lost_flags w' = lost_flags w.
Proof.
  intros HW Hn Hq Hhs Hb Hh. unfold ChunkQueuePopper.tryPop, get_queue. rewrite Hq. cbn [obind].
  destruct (pop_world w contents n q d (x :: hs) HW Hn Hq Hhs) as (out & q' & -> & HW1 & Hs & Hf & Hout). cbn [returns obind].
  set (w1 := set_queue_data _ _ w) in *. cbn [spec_pop fst snd] in HW1, Hout. destruct out as [e|]; [|done].
  pose proof (pop_owned contents q x hs Hhs) as P. set (contents' := <[q := hs]> contents) in *.
  destruct (release_handles e) as [Hv _]. rewrite Hout in Hv.
  destruct (ShmSafeUnmanagedChunk.releaseToSharedChunk e) as [[y|] e']; simpl in Hv; [|done]. injection Hv as ->.
  rewrite P in Hb. unfold headroom in Hh. rewrite P in Hh.
  destruct (chunk_view_owned (heap w) _ x Hb) as [[a hd] Hview]; [by left|].
  change (heap w) with (heap w1) in Hb, Hview. rewrite (getChunkHeader_view _ _ _ _ Hview).
  rewrite (read_header_ok _ _ _ _ Hview). cbn [obind].
  destruct (owned_extent (heap w1) _ x a hd Hb) as (_ & _ & _ & _ & ->); [by left|done|]. rewrite Z.eqb_refl.
  unfold copy. destruct (copy_ok (heap w1) (owned contents' ++ o) (Some x) Hb Hh) as (h2 & -> & Hb2 & V2 & Er2).
  cbn [obind]. unfold drop.
  destruct (dtor_ok h2 (x :: owned contents' ++ o) (Some x) Hb2) as (h3 & E & Hb3 & V3 & Er3).
  cbn [heap set_heap]. rewrite E. cbn [obind]. eexists. split; [done|].
  split; [by do 2 apply worldinv_heap|]. split; [done|].
  split; [|split; [exact (eq_trans Er3 Er2)|done]].
  eapply same_view_subset; [|eapply same_view_trans; [exact V2|exact V3]].
  intros z. by rewrite P.
Qed.

(** *** [clear] *)

Lemma clear_loop_ok fuel w contents n q d hs o :
  WorldInv w contents n -> Z.of_nat fuel <= n -> queues w !! q = Some d -> contents !! q = Some hs ->
  Balanced (heap w) (owned contents ++ o) -> (length hs < fuel)%nat ->
  exists w', ChunkQueuePopper.clear_loop fuel q w = Done w' /\ WorldInv w' (<[q := []]> contents) (n - Z.of_nat fuel) /\
    Balanced (heap w') (owned (<[q := []]> contents) ++ o) /\
    same_view (owned (<[q := []]> contents) ++ o) (heap w) (heap w') /\ errors (heap w') = errors (heap w) /\
    same_queues w w' /\ lost_flags w' = lost_flags w.
Proof.
  revert w contents n d hs. induction fuel as [|fuel IH]; intros w contents n d hs HW Hn Hq Hhs Hb Hf; [lia|].
  simpl. unfold get_queue. rewrite Hq. cbn [obind].
  destruct (pop_world w contents n q d hs HW ltac:(lia) Hq Hhs) as (out & q' & -> & HW1 & Hs & Hl & Hout). cbn [returns obind].
  set (w1 := set_queue_data _ _ w) in *. destruct hs as [|x hs]; simpl in *; destruct out as [e|]; try done.
  - eexists. split; [done|]. split; [eapply worldinv_less; [done|lia]|].
    by rewrite (list_insert_id contents q []) by done.
  - pose proof (pop_owned contents q x hs Hhs) as P. rewrite P in Hb.
    destruct (drop_entry w1 e x _ Hout Hb) as (h2 & -> & Hb2 & V2 & Er2). cbn [obind].
    pose proof (lookup_lt_Some _ _ _ Hq) as Hlt. pose proof (lookup_lt_Some _ _ _ Hhs) as Hlt'.
    destruct (IH (set_heap h2 w1) (<[q := hs]> contents) (n - 1) (ChunkQueueData.set_queue q' d) hs)
      as (w' & -> & HW' & Hb' & V' & Er' & Hs' & Hl').
    + by apply worldinv_heap.
    + lia.
    + by apply list_lookup_insert_eq.
    + by apply list_lookup_insert_eq.
    + done.
    + lia.
    + rewrite list_insert_insert_eq in *. eexists. split; [done|].
      split; [eapply worldinv_less; [done|lia]|]. split; [done|]. split; [|split; [simpl in *; congruence|split]].
      * eapply same_view_trans; [|exact V']. eapply same_view_subset; [|exact V2].
        intros z Hz. destruct (owned_focus contents q _ Hhs) as (rest & _ & I).
        rewrite (I []) in Hz. simpl in Hz. rewrite (I hs). rewrite !elem_of_app in *. tauto.
      * by transitivity (set_heap h2 w1).
      * etransitivity; [exact Hl'|exact Hl].
Qed.

Lemma clear_ok w contents n q d hs o :
  WorldInv w contents n -> ChunkQueueData.MAX_CAPACITY d + 1 <= n -> queues w !! q = Some d -> contents !! q = Some hs ->
  Balanced (heap w) (owned contents ++ o) ->
  exists w', ChunkQueuePopper.clear q w = Done w' /\
    WorldInv w' (<[q := []]> contents) (n - (ChunkQueueData.MAX_CAPACITY d + 1)) /\
    Balanced (heap w') (owned (<[q := []]> contents) ++ o) /\
    same_view (owned (<[q := []]> contents) ++ o) (heap w) (heap w') /\ errors (heap w') = errors (heap w) /\
    same_queues w w' /\ lost_flags w' = lost_flags w.
Proof.
  intros HW Hn Hq Hhs Hb. unfold ChunkQueuePopper.clear, get_queue. rewrite Hq. cbn [obind].
  destruct (Forall2_lookup_lr _ _ _ _ _ _ (wi_queues _ _ _ HW) Hq Hhs) as [Hm Hc (l & Hl & Henc)].
  pose proof (@q_bound _ _ _ _ (VariantQueue.laws _ _ Hm _) _ _ _ _ Hl) as Hlen.
  rewrite (Forall2_length _ _ _ Henc) in Hlen.
  destruct (clear_loop_ok (Z.to_nat (ChunkQueueData.MAX_CAPACITY d) + 1) w contents n q d hs o) as (w' & -> & ?);
    try done; [lia|lia|]. exists w'.
  by replace (n - (ChunkQueueData.MAX_CAPACITY d + 1))
    with (n - Z.of_nat (Z.to_nat (ChunkQueueData.MAX_CAPACITY d) + 1)) by lia.
Qed.

(** ** Steps of the shared memory

    [evolves w w' contents n o]: from [w] to [w'], where the queues then hold
    [contents] and [o] is owned elsewhere; nothing owned has moved. *)
Record evolves (w w' : World) (contents : list (list handle)) (n : Z) (o : list handle) : Prop := {
  ev_inv : WorldInv w' contents n;
  ev_bal : Balanced (heap w') (owned contents ++ o);
  ev_view : same_view (owned contents ++ o) (heap w) (heap w');
  ev_errors : errors (heap w') = errors (heap w);
  ev_queues : same_queues w w' }.

Lemma evolves_trans w1 w2 w3 c2 c3 n2 n3 o2 o3 :
  evolves w1 w2 c2 n2 o2 -> evolves w2 w3 c3 n3 o3 -> owned c3 ++ o3 ⊆ owned c2 ++ o2 -> evolves w1 w3 c3 n3 o3.
Proof.
  intros [] [] Hs. constructor; try done; [|congruence|by transitivity w2].
  eapply same_view_trans; [eapply same_view_subset; [exact Hs|]|]; done.
Qed.

(** A change of the heap alone comes first. *)
Lemma evolves_heap w h w' S c n o :
  same_view S (heap w) h -> errors h = errors (heap w) -> owned c ++ o ⊆ S ->
  evolves (set_heap h w) w' c n o -> evolves w w' c n o.
Proof.
  intros V E Hs []. constructor; try done; [|simpl in *; congruence].
  eapply same_view_trans; [eapply same_view_subset; [exact Hs|exact V]|done].
Qed.

Lemma evolves_perm w w' c n o o' : o ≡ₚ o' -> evolves w w' c n o -> evolves w w' c n o'.
Proof.
  intros E []. constructor; try done; [by rewrite <- E|].
  eapply same_view_subset; [|done]. intros x. by rewrite E.
Qed.

Lemma evolves_less w w' c n m o : evolves w w' c n o -> 0 <= m <= n -> evolves w w' c m o.
Proof. intros [] Hm. constructor; try done. by eapply worldinv_less. Qed.

Lemma push_evolves w contents n q d hs x o :
  WorldInv w contents n -> 1 < n -> queues w !! q = Some d -> contents !! q = Some hs ->
  Balanced (heap w) (x :: owned contents ++ o) -> headroom (x :: owned contents ++ o) 1 ->
  let r := queue_push d hs x in
  exists w', ChunkQueuePusher.push q (Some x) w = Done (bool_decide (fst r = None), w') /\
    evolves w w' (<[q := snd r]> contents) (n - 2) o /\ lost_flags w' = lost_flags w.
Proof.
  intros HW Hn Hq Hhs Hb Hh r.
  destruct (pusher_push_ok w contents n q d hs x o HW Hn Hq Hhs Hb Hh) as (w' & E & ? & ? & ? & ? & ? & ?).
  exists w'. split; [done|]. by split.
Qed.

(** Copying and dropping a chunk. *)
Lemma copy_evolves w contents n x o :
  WorldInv w contents n -> Balanced (heap w) (x :: owned contents ++ o) -> headroom (x :: owned contents ++ o) 1 ->
  exists w', copy (Some x) w = Done (Some x, w') /\ evolves w w' contents n (x :: x :: o) /\ lost_flags w' = lost_flags w.
Proof.
  intros HW Hb Hh. unfold copy.
  destruct (copy_ok (heap w) _ (Some x) Hb Hh) as (h & -> & Hb' & V & E). simpl in *. eexists. split; [done|].
  split; [|done]. constructor; simpl; try done.
  - by apply worldinv_heap.
  - eapply Balanced_proper; [|exact Hb']. solve_Permutation.
  - eapply same_view_subset; [|exact V]. intros y. rewrite !elem_of_cons, !elem_of_app, !elem_of_cons. tauto.
  - exact (same_queues_refl w).
Qed.

Lemma drop_evolves w contents n x o :
  WorldInv w contents n -> Balanced (heap w) (x :: owned contents ++ o) ->
  exists w', drop (Some x) w = Done w' /\ evolves w w' contents n o /\ lost_flags w' = lost_flags w.
Proof.
  intros HW Hb. unfold drop. destruct (dtor_ok (heap w) _ (Some x) Hb) as (h & E & Hb' & V & Er). rewrite E.
  eexists. split; [done|]. split; [|done]. constructor; simpl; try done; [by apply worldinv_heap|exact (same_queues_refl w)].
Qed.

(** A world with one queue that holds one chunk, which somebody else owns too. *)
Lemma queue_ctor_rep id max policy ty : 0 < max < 2 ^ 60 ->
  queue_rep (2 ^ 61) (ChunkQueueData.ctor id max policy ty) [].
Proof.
  intros Hm. pose proof (VariantQueue.variant_ctor_rep ShmSafeUnmanagedChunk.null max Hm ty) as H.
  assert (E : ChunkQueueData.capacity (ChunkQueueData.ctor id max policy ty) = max).
  { exact (@q_capacity _ _ _ _ (VariantQueue.laws _ _ Hm ty) _ _ _ _ H). }
  constructor; [done|rewrite E; simpl; lia|]. exists []. rewrite E. split; [exact H|constructor].
Qed.

Lemma sample_world max policy ty : 0 < max < 2 ^ 60 ->
  exists w d x, queues w = [d] /\ ChunkQueueData.kind d = ty /\ ChunkQueueData.m_queueFullPolicy d = policy /\
    ChunkQueueData.capacity d = max /\ WorldInv w [[x]] 1000 /\ Balanced (heap w) [x; x] /\ errors (heap w) = [].
Proof.
  intros Hm. destruct sample_heap as (h & x & Hb & _ & Er & _).
  set (d0 := ChunkQueueData.ctor 7 max policy ty).
  pose proof (queue_ctor_rep 7 max policy ty Hm) as Hq. fold d0 in Hq.
  assert (HW : WorldInv (mkWorld h [d0] []) [[]] (2 ^ 20)).
  { apply worldinv_less with (2 ^ 61); [|lia]. constructor; simpl; try lia; repeat constructor; apply Hq. }
  destruct (copy_evolves _ _ _ x [] HW) as (w1 & _ & E1 & _); [done|unfold headroom; simpl; lia|].
  pose proof (ev_queues _ _ _ _ _ E1) as Hs. inversion Hs as [|? d1 ? ? Hd1 Hs' Eq1 Eq2]; subst. inversion Hs'; subst.
  destruct (push_evolves w1 [[]] (2 ^ 20) 0 d1 [] x [x] (ev_inv _ _ _ _ _ E1)) as (w2 & _ & E2 & _);
    [lia|by rewrite <- Eq2|done|apply E1|unfold headroom; simpl; lia|].
  pose proof (ev_queues _ _ _ _ _ E2) as Hs2. unfold same_queues in Hs2. rewrite <- Eq2 in Hs2.
  inversion Hs2 as [|? d2 ? ? Hd2 Hs2' Eq3 Eq4]; subst. inversion Hs2'; subst.
  assert (Hd : same_queue d0 d2) by (by transitivity d1).
  assert (Hcap : ChunkQueueData.capacity d0 = max).
  { exact (@q_capacity _ _ _ _ (VariantQueue.laws _ _ Hm ty) _ _ _ _ (VariantQueue.variant_ctor_rep ShmSafeUnmanagedChunk.null max Hm ty)). }
  assert (Ep : snd (queue_push d1 [] x) = [x]).
  { unfold queue_push, spec_push. destruct Hd1 as (_ & _ & _ & -> & _). rewrite Hcap. simpl length.
    by rewrite (proj2 (Z.ltb_lt _ _)) by lia. }
  rewrite Ep in E2. simpl in E2. exists w2, d2, x. destruct Hd as (_ & _ & Hk & Hc & _ & _ & Hp).
  split; [done|]. split; [by rewrite Hk|]. split; [by rewrite Hp|]. split; [by rewrite Hc|].
  split; [eapply worldinv_less; [apply E2|lia]|]. split; [apply E2|].
  rewrite (ev_errors _ _ _ _ _ E2), (ev_errors _ _ _ _ _ E1). done.
Qed.
