(* ===== verification/ChunkDistributor.v ===== *)
(** * ChunkDistributor

    [chunk_distributor.inl]: delivers a chunk to all connected queues and keeps
    the history for queues that connect later.  Operations hold the lock of the
    distributor; where the code gives it up (while it waits for full queues of
    blocking subscribers) other threads run, which is an argument of the
    model. *)

From stdpp Require Import sorting.
From S2P Require Import Prelude ChunkHeader MemoryManager SharedChunk Queue VariantQueue ConditionVariable ChunkQueue.

Module ConsumerTooSlowPolicy.
Inductive t := WAIT_FOR_CONSUMER | DISCARD_OLDEST_DATA.

#[global] Instance eq_dec : EqDecision t.
Proof. solve_decision. Defined.
End ConsumerTooSlowPolicy.

Inductive ChunkDistributorError := QUEUE_CONTAINER_OVERFLOW | QUEUE_NOT_IN_CONTAINER.

Module ChunkDistributor.

(** [ChunkDistributorData]; the two bounds are static members of the template.
    A queue is named by its index in the world, in the order of addresses. *)
Record t := mk {
  MAX_QUEUES : Z;
  MAX_HISTORY_CAPACITY : Z;
  m_historyCapacity : Z;
  m_queues : list nat;
  m_history : list ShmSafeUnmanagedChunk.t;
  m_consumerTooSlowPolicy : ConsumerTooSlowPolicy.t }.

Definition ctor (maxQueues maxHistory : Z) (policy : ConsumerTooSlowPolicy.t) (historyCapacity : Z) : t :=
  mk maxQueues maxHistory (Z.min historyCapacity maxHistory) [] [] policy.

Definition set_queues (v : list nat) (d : t) : t :=
  mk (MAX_QUEUES d) (MAX_HISTORY_CAPACITY d) (m_historyCapacity d) v (m_history d) (m_consumerTooSlowPolicy d).
Definition set_history (v : list ShmSafeUnmanagedChunk.t) (d : t) : t :=
  mk (MAX_QUEUES d) (MAX_HISTORY_CAPACITY d) (m_historyCapacity d) (m_queues d) v (m_consumerTooSlowPolicy d).

(** [pushToQueue]: its by-value parameter is copied once more for [push]. *)
Definition pushToQueue (queue : nat) (chunk : SharedChunk.t) (w : World) : outcome (bool * World) :=
  let* '(c, w) := copy chunk w in
  let* '(r, w) := ChunkQueuePusher.push queue c w in
  let* w := drop chunk w in
  Done (r, w).

(** The chunks of the history that a new queue gets, in order. *)
Fixpoint push_history (queue : nat) (history : list ShmSafeUnmanagedChunk.t) (w : World) : outcome World :=
  match history with
  | [] => Done w
  | e :: history =>
      let* '(c, h) := ShmSafeUnmanagedChunk.cloneToSharedChunk e (heap w) in
      let* '(_, w) := pushToQueue queue c (set_heap h w) in
      push_history queue history w
  end.

Definition tryAddQueue (d : t) (queueToAdd : nat) (requestedHistory : Z) (w : World)
    : outcome (expected unit ChunkDistributorError * t * World) :=
  if bool_decide (queueToAdd ∈ m_queues d) then Done (success (), d, w)
  else if Z.of_nat (length (m_queues d)) <? MAX_QUEUES d then
    let d := set_queues (m_queues d ++ [queueToAdd]) d in
    let currChunkHistorySize := Z.of_nat (length (m_history d)) in
    let startIndex := if requestedHistory <=? currChunkHistorySize
                      then currChunkHistorySize - requestedHistory else 0 in
    let* w := push_history queueToAdd (List.skipn (Z.to_nat startIndex) (m_history d)) w in
    Done (success (), d, w)
  else
    Done (error QUEUE_CONTAINER_OVERFLOW, d,
          report_world POPO__CHUNK_DISTRIBUTOR_OVERFLOW_OF_QUEUE_CONTAINER MODERATE w).

(** [erase] of the first match. *)
Fixpoint erase (q : nat) (l : list nat) : option (list nat) :=
  match l with
  | [] => None
  | x :: l => if bool_decide (x = q) then Some l
              else match erase q l with Some l => Some (x :: l) | None => None end
  end.

Definition tryRemoveQueue (d : t) (queueToRemove : nat) : expected unit ChunkDistributorError * t :=
  match erase queueToRemove (m_queues d) with
  | Some l => (success (), set_queues l d)
  | None => (error QUEUE_NOT_IN_CONTAINER, d)
  end.

Definition removeAllQueues (d : t) : t := set_queues [] d.
Definition hasStoredQueues (d : t) : bool := bool_decide (m_queues d <> []).
Definition getHistorySize (d : t) : Z := Z.of_nat (length (m_history d)).
Definition getHistoryCapacity (d : t) : Z := m_historyCapacity d.

(** [addToHistoryWithoutDelivery], the parameter is destroyed at the end. *)
Definition addToHistoryWithoutDelivery (d : t) (chunk : SharedChunk.t) (w : World) : outcome (t * World) :=
  let* '(d, w) :=
    if 0 <? m_historyCapacity d then
      let* '(history, w) :=
        if m_historyCapacity d <=? Z.of_nat (length (m_history d)) then
          match m_history d with
          | chunkToRemove :: rest =>
              let* w := drop (fst (ShmSafeUnmanagedChunk.releaseToSharedChunk chunkToRemove)) w in Done (rest, w)
          | [] => Terminated UNDEFINED_BEHAVIOUR
          end
        else Done (m_history d, w) in
      let* '(c, w) := copy chunk w in
      let* e := ShmSafeUnmanagedChunk.ctor c in
      Done (set_history (history ++ [e]) d, w)
    else Done (d, w) in
  let* w := drop chunk w in
  Done (d, w).

(** The first loop of [deliverToAllStoredQueues]: how many queues were served,
    and the blocking queues that are full. *)
Fixpoint deliver_loop (willWaitForConsumer : bool) (qs : list nat) (chunk : SharedChunk.t)
    (numberOfQueues : Z) (remainingQueues : list nat) (w : World) : outcome (Z * list nat * World) :=
  match qs with
  | [] => Done (numberOfQueues, remainingQueues, w)
  | queue :: qs =>
      let* q := get_queue queue w in
      let isBlockingQueue :=
        willWaitForConsumer && bool_decide (ChunkQueueData.m_queueFullPolicy q = QueueFullPolicy.BLOCK_PRODUCER) in
      let* '(c, w) := copy chunk w in
      let* '(pushed, w) := pushToQueue queue c w in
      if pushed then deliver_loop willWaitForConsumer qs chunk (u64 (numberOfQueues + 1)) remainingQueues w
      else if isBlockingQueue
      then deliver_loop willWaitForConsumer qs chunk numberOfQueues (remainingQueues ++ [queue]) w
      else
        let* w := ChunkQueuePusher.lostAChunk queue w in
        deliver_loop willWaitForConsumer qs chunk (u64 (numberOfQueues + 1)) remainingQueues w
  end.

(** [std::set_intersection] of sorted ranges. *)
Fixpoint set_intersection (l1 : list nat) : list nat -> list nat :=
  fix go (l2 : list nat) : list nat :=
    match l1, l2 with
    | a :: l1', b :: l2' =>
        if (a <? b)%nat then set_intersection l1' l2
        else if (b <? a)%nat then go l2'
        else a :: set_intersection l1' l2'
    | _, _ => []
    end.

(** The loop over the remaining queues, from the last index down; [i] is the
    index plus one. *)
Fixpoint deliver_remaining (i : nat) (remainingQueues : list nat) (chunk : SharedChunk.t)
    (numberOfQueues : Z) (w : World) : outcome (Z * list nat * World) :=
  match i with
  | O => Done (numberOfQueues, remainingQueues, w)
  | S i =>
      match remainingQueues !! i with
      | None => Done (numberOfQueues, remainingQueues, w)
      | Some queue =>
          let* '(c, w) := copy chunk w in
          let* '(pushed, w) := pushToQueue queue c w in
          if pushed
          then deliver_remaining i (delete i remainingQueues) chunk (u64 (numberOfQueues + 1)) w
          else deliver_remaining i remainingQueues chunk numberOfQueues w
      end
  end.

(** What other threads do to the distributor and the shared memory while the
    lock is not held. *)
Definition interference := t -> World -> t * World.

(** The busy waiting loop; [rounds] has one element per round.  If it is used
    up the call has not returned yet. *)
Fixpoint wait_loop (rounds : list interference) (d : t) (remainingQueues : list nat) (chunk : SharedChunk.t)
    (numberOfQueues : Z) (w : World) : outcome (Z * t * World) :=
  match remainingQueues with
  | [] => Done (numberOfQueues, d, w)
  | _ =>
      match rounds with
      | [] => Terminated DOES_NOT_RETURN
      | others :: rounds =>
          let '(d, w) := others d w in
          let d := set_queues (merge_sort Nat.le (m_queues d)) d in
          let remainingQueues := set_intersection (m_queues d) (merge_sort Nat.le remainingQueues) in
          let* '(numberOfQueues, remainingQueues, w) :=
            deliver_remaining (length remainingQueues) remainingQueues chunk numberOfQueues w in
          wait_loop rounds d remainingQueues chunk numberOfQueues w
      end
  end.

Definition deliverToAllStoredQueues (rounds : list interference) (d : t) (chunk : SharedChunk.t) (w : World)
    : outcome (Z * t * World) :=
  let willWaitForConsumer := bool_decide (m_consumerTooSlowPolicy d = ConsumerTooSlowPolicy.WAIT_FOR_CONSUMER) in
  let* '(numberOfQueues, remainingQueues, w) := deliver_loop willWaitForConsumer (m_queues d) chunk 0 [] w in
  let* '(numberOfQueues, d, w) := wait_loop rounds d remainingQueues chunk numberOfQueues w in
  let* '(c, w) := copy chunk w in
  let* '(d, w) := addToHistoryWithoutDelivery d c w in
  let* w := drop chunk w in
  Done (numberOfQueues, d, w).

Fixpoint find_id (uniqueQueueId : Z) (qs : list nat) (index : Z) (w : World) : outcome (option Z) :=
  match qs with
  | [] => Done None
  | queue :: qs =>
      let* q := get_queue queue w in
      if ChunkQueueData.m_uniqueId q =? uniqueQueueId then Done (Some index)
      else find_id uniqueQueueId qs (u32 (index + 1)) w
  end.

Definition getQueueIndex (d : t) (uniqueQueueId lastKnownQueueIndex : Z) (w : World) : outcome (option Z) :=
  let* known :=
    if lastKnownQueueIndex <? Z.of_nat (length (m_queues d)) then
      match m_queues d !! Z.to_nat lastKnownQueueIndex with
      | Some queue => let* q := get_queue queue w in Done (ChunkQueueData.m_uniqueId q =? uniqueQueueId)
      | None => Terminated EXPECTS_ENSURES_FAILED
      end
    else Done false in
  if known then Done (Some lastKnownQueueIndex) else find_id uniqueQueueId (m_queues d) 0 w.

(** [deliverToQueue]: between two attempts other threads run. *)
Fixpoint deliverToQueue (rounds : list interference) (d : t) (uniqueQueueId lastKnownQueueIndex : Z)
    (chunk : SharedChunk.t) (w : World) : outcome (expected unit ChunkDistributorError * t * World) :=
  let* queueIndex := getQueueIndex d uniqueQueueId lastKnownQueueIndex w in
  match queueIndex with
  | None => let* w := drop chunk w in Done (error QUEUE_NOT_IN_CONTAINER, d, w)
  | Some i =>
      match m_queues d !! Z.to_nat i with
      | None => Terminated EXPECTS_ENSURES_FAILED
      | Some queue =>
          let* q := get_queue queue w in
          let isBlockingQueue := bool_decide (m_consumerTooSlowPolicy d = ConsumerTooSlowPolicy.WAIT_FOR_CONSUMER)
                                 && bool_decide (ChunkQueueData.m_queueFullPolicy q = QueueFullPolicy.BLOCK_PRODUCER) in
          let* '(c, w) := copy chunk w in
          let* '(pushed, w) := pushToQueue queue c w in
          if negb pushed && isBlockingQueue then
            match rounds with
            | [] => Terminated DOES_NOT_RETURN
            | others :: rounds =>
                let '(d, w) := others d w in
                deliverToQueue rounds d uniqueQueueId lastKnownQueueIndex chunk w
            end
          else
            let* w := if pushed then Done w else ChunkQueuePusher.lostAChunk queue w in
            let* w := drop chunk w in
            Done (success (), d, w)
      end
  end.

Fixpoint release_history (history : list ShmSafeUnmanagedChunk.t) (w : World) : outcome World :=
  match history with
  | [] => Done w
  | e :: history =>
      let* w := drop (fst (ShmSafeUnmanagedChunk.releaseToSharedChunk e)) w in release_history history w
  end.

Definition clearHistory (d : t) (w : World) : outcome (t * World) :=
  let* w := release_history (m_history d) w in Done (set_history [] d, w).

(** [cleanup]; [locked]: a process died while it held the lock. *)
Definition cleanup (locked : bool) (d : t) (w : World) : outcome (t * World) :=
  if negb locked then clearHistory d w
  else Terminated POPO__CHUNK_DISTRIBUTOR_CLEANUP_DEADLOCK_BECAUSE_BAD_APPLICATION_TERMINATION.

(** ** Delivering to one queue *)

Lemma owned_push_length contents q d hs x : contents !! q = Some hs -> 0 < ChunkQueueData.capacity d ->
  (length (owned (<[q := snd (queue_push d hs x)]> contents)) <= S (length (owned contents)))%nat.
Proof.
  intros Hq Hc. pose proof (Permutation_length (queue_push_owned contents q d hs x Hq Hc)) as H.
  rewrite length_app in H. simpl in H. lia.
Qed.

Lemma owned_push_subset contents q d hs x o : contents !! q = Some hs -> 0 < ChunkQueueData.capacity d ->
  owned (<[q := snd (queue_push d hs x)]> contents) ++ o ⊆ x :: owned contents ++ o.
Proof.
  intros Hq Hc y. rewrite (app_comm_cons (owned contents)), (queue_push_owned contents q d hs x Hq Hc).
  rewrite !elem_of_app. tauto.
Qed.

Lemma pushToQueue_ok w contents n q d hs x o :
  WorldInv w contents n -> 1 < n -> queues w !! q = Some d -> contents !! q = Some hs ->
  Balanced (heap w) (x :: owned contents ++ o) -> headroom (x :: owned contents ++ o) 2 ->
  let r := queue_push d hs x in
  exists w', pushToQueue q (Some x) w = Done (bool_decide (fst r = None), w') /\
    evolves w w' (<[q := snd r]> contents) (n - 2) o /\ lost_flags w' = lost_flags w.
Proof.
  intros HW Hn Hq Hhs Hb Hh r. unfold pushToQueue.
  assert (Hcap : 0 < ChunkQueueData.capacity d).
  { destruct (Forall2_lookup_lr _ _ _ _ _ _ (wi_queues _ _ _ HW) Hq Hhs). lia. }
  destruct (copy_evolves w contents n x o HW Hb) as (w1 & -> & E1 & F1); [unfold headroom in *; simpl in *; lia|].
  cbn [obind]. pose proof (ev_queues _ _ _ _ _ E1) as Hs1. unfold same_queues in Hs1.
  destruct (Forall2_lookup_l _ _ _ _ _ Hs1 Hq) as (d1 & Hq1 & Hd1).
  assert (Er : queue_push d1 hs x = r).
  { unfold r, queue_push. destruct Hd1 as (_ & _ & -> & -> & _). done. }
  destruct (push_evolves w1 contents n q d1 hs x (x :: o) (ev_inv _ _ _ _ _ E1) Hn Hq1 Hhs) as (w2 & E & E2 & F2).
  { eapply Balanced_proper; [|apply E1]. solve_Permutation. }
  { unfold headroom in *. simpl in *. rewrite length_app in *. simpl. lia. }
  rewrite E, Er in *. cbn [obind]. clear E.
  destruct (drop_evolves w2 (<[q := snd r]> contents) (n - 2) x o) as (w3 & -> & E3 & F3); [apply E2| |].
  { eapply Balanced_proper; [|apply E2]. solve_Permutation. }
  cbn [obind]. eexists. split; [done|]. split; [|congruence].
  pose proof (owned_push_subset contents q d hs x o Hhs Hcap) as Hsub. fold r in Hsub.
  eapply evolves_trans; [exact E1| |].
  - eapply evolves_trans; [exact E2|exact E3|]. intros y. rewrite !elem_of_app, elem_of_cons. tauto.
  - intros y Hy. apply Hsub in Hy. revert Hy. rewrite !elem_of_cons, !elem_of_app, !elem_of_cons. tauto.
Qed.

Lemma lostAChunk_ok w contents n q d o :
  WorldInv w contents n -> queues w !! q = Some d -> Balanced (heap w) (owned contents ++ o) ->
  exists w', ChunkQueuePusher.lostAChunk q w = Done w' /\ evolves w w' contents n o /\
    lost_flags w' = <[q := true]> (lost_flags w).
Proof.
  intros HW Hq Hb. unfold ChunkQueuePusher.lostAChunk, get_queue. rewrite Hq. simpl. eexists. split; [done|].
  split; [|unfold lost_flags; simpl; by rewrite list_fmap_insert].
  pose proof HW as []. constructor; simpl; try done.
  - constructor; simpl; try done.
    + apply Forall2_same_length_lookup_2; [rewrite length_insert; by eapply Forall2_length|].
      intros i d' hs Hi Hhs. apply list_lookup_insert_Some in Hi as [(<- & <- & _)|[_ Hi]].
      * by destruct (Forall2_lookup_lr _ _ _ _ _ _ wi_queues Hq Hhs).
      * by eapply Forall2_lookup_lr.
    + apply Forall_insert; [done|]. by apply (Forall_lookup_1 _ _ _ _ wi_conditions Hq).
  - apply insert_same_queue with d; done.
Qed.

(** ** Delivering to all queues

    The effect on the contents and the flags, given the queues [ds]. *)

(** The push of [x] onto queue [q] does not just append. *)
Definition overflows (ds : list ChunkQueueData.t) (contents : list (list handle)) (x : handle) (q : nat) : bool :=
  match ds !! q, contents !! q with
  | Some d, Some hs => bool_decide (fst (queue_push d hs x) <> None)
  | _, _ => false
  end.

Definition blocking (wait : bool) (ds : list ChunkQueueData.t) (q : nat) : bool :=
  match ds !! q with
  | Some d => wait && bool_decide (ChunkQueueData.m_queueFullPolicy d = QueueFullPolicy.BLOCK_PRODUCER)
  | None => false
  end.

(** The producer will wait for [q]. *)
Definition stays (wait : bool) ds contents x q : bool := overflows ds contents x q && blocking wait ds q.

Definition after_delivery (ds : list ChunkQueueData.t) (qs : list nat) (x : handle) (contents : list (list handle))
    : list (list handle) :=
  imap (fun q hs => if bool_decide (q ∈ qs)
                    then match ds !! q with Some d => snd (queue_push d hs x) | None => hs end else hs) contents.

Definition lost_after (wait : bool) ds (qs : list nat) (x : handle) contents (flags : list bool) : list bool :=
  imap (fun q b => if bool_decide (q ∈ qs) && overflows ds contents x q && negb (blocking wait ds q)
                   then true else b) flags.

(** The queues with another index do not matter for what happens to [q]. *)
Section frame.
Context (ds ds' : list ChunkQueueData.t) (Hds : Forall2 same_queue ds ds').

Lemma same_at q d : ds !! q = Some d -> exists d', ds' !! q = Some d' /\ same_queue d d'.
Proof. intros H. by eapply Forall2_lookup_l in H as (d' & ? & ?); [|done]; eauto. Qed.

Lemma none_at q : ds !! q = None -> ds' !! q = None.
Proof. rewrite !lookup_ge_None. by rewrite (Forall2_length _ _ _ Hds). Qed.

Lemma same_push d d' hs x : same_queue d d' -> queue_push d' hs x = queue_push d hs x.
Proof. unfold queue_push. by intros (_ & _ & -> & -> & _). Qed.

Lemma overflows_frame contents x q q' hs : q' <> q ->
  overflows ds' (<[q := hs]> contents) x q' = overflows ds contents x q'.
Proof.
  intros Hne. unfold overflows. rewrite list_lookup_insert_ne by done.
  destruct (ds !! q') as [d|] eqn:E; [|by rewrite none_at].
  destruct (same_at q' d E) as (d' & -> & Hs). destruct (contents !! q'); [|done]. by rewrite (same_push d).
Qed.

Lemma blocking_frame wait q : blocking wait ds' q = blocking wait ds q.
Proof.
  unfold blocking. destruct (ds !! q) as [d|] eqn:E; [|by rewrite none_at].
  destruct (same_at q d E) as (d' & -> & (_ & _ & _ & _ & _ & _ & ->)). done.
Qed.

Lemma overflows_same contents x q : overflows ds' contents x q = overflows ds contents x q.
Proof.
  unfold overflows. destruct (ds !! q) as [d|] eqn:E; [|by rewrite none_at].
  destruct (same_at q d E) as (d' & -> & Hs). destruct (contents !! q); [|done]. by rewrite (same_push d).
Qed.

Lemma after_delivery_same qs x contents : after_delivery ds' qs x contents = after_delivery ds qs x contents.
Proof.
  apply list_eq. intros i. unfold after_delivery. rewrite !list_lookup_imap.
  destruct (contents !! i) as [hs|]; [|done]. simpl. case_bool_decide; [|done].
  destruct (ds !! i) as [d|] eqn:E; [|by rewrite none_at].
  destruct (same_at i d E) as (d' & -> & Hs). by rewrite (same_push d).
Qed.

Lemma lost_after_same wait qs x contents flags :
  lost_after wait ds' qs x contents flags = lost_after wait ds qs x contents flags.
Proof. apply imap_ext. intros i b _. by rewrite overflows_same, blocking_frame. Qed.

Lemma stays_same wait contents x q : stays wait ds' contents x q = stays wait ds contents x q.
Proof. unfold stays. by rewrite overflows_same, blocking_frame. Qed.

Lemma after_delivery_cons q qs x contents d hs :
  q ∉ qs -> ds !! q = Some d -> contents !! q = Some hs ->
  after_delivery ds' qs x (<[q := snd (queue_push d hs x)]> contents) = after_delivery ds (q :: qs) x contents.
Proof.
  intros Hn Hd Hhs. apply list_eq. intros i. unfold after_delivery. rewrite !list_lookup_imap.
  destruct (decide (i = q)) as [->|Hne].
  - rewrite list_lookup_insert_eq by (by eapply lookup_lt_Some). rewrite Hhs. simpl.
    rewrite bool_decide_false, bool_decide_true by (done || by left). by rewrite Hd.
  - rewrite list_lookup_insert_ne by done. destruct (contents !! i) as [hs'|]; [|done]. simpl.
    rewrite (bool_decide_ext (i ∈ q :: qs) (i ∈ qs)) by (rewrite elem_of_cons; tauto).
    case_bool_decide; [|done]. destruct (ds !! i) as [d0|] eqn:E; [|by rewrite none_at].
    destruct (same_at i d0 E) as (d' & -> & Hs). by rewrite (same_push d0).
Qed.

Lemma lost_after_cons wait q qs x contents d hs flags :
  q ∉ qs -> ds !! q = Some d -> contents !! q = Some hs ->
  lost_after wait ds' qs x (<[q := snd (queue_push d hs x)]> contents)
    (if bool_decide (fst (queue_push d hs x) <> None) && negb (blocking wait ds q) then <[q := true]> flags else flags)
  = lost_after wait ds (q :: qs) x contents flags.
Proof.
  intros Hn Hd Hhs. apply list_eq. intros i. unfold lost_after. rewrite !list_lookup_imap.
  assert (Ho : overflows ds contents x q = bool_decide (fst (queue_push d hs x) <> None))
    by (unfold overflows; by rewrite Hd, Hhs).
  destruct (decide (i = q)) as [->|Hne].
  - rewrite bool_decide_false by done. rewrite (bool_decide_true (q ∈ q :: qs)) by (by left). simpl. rewrite Ho.
    destruct (bool_decide (fst (queue_push d hs x) <> None) && negb (blocking wait ds q)); [|done].
    destruct (decide (q < length flags)%nat) as [Hlt|Hge].
    + rewrite list_lookup_insert_eq by done. by destruct (lookup_lt_is_Some_2 flags q Hlt) as [b ->].
    + rewrite !(proj2 (lookup_ge_None _ _)); [done|lia|rewrite length_insert; lia].
  - rewrite overflows_frame, blocking_frame by done.
    rewrite (bool_decide_ext (i ∈ q :: qs) (i ∈ qs)) by (rewrite elem_of_cons; tauto).
    destruct (_ && negb (blocking wait ds q)); [|done]. by rewrite list_lookup_insert_ne.
Qed.

Lemma stays_frame wait contents x q qs hs : q ∉ qs ->
  List.filter (stays wait ds' (<[q := hs]> contents) x) qs = List.filter (stays wait ds contents x) qs.
Proof.
  intros Hn. apply filter_ext_in. intros i Hi. unfold stays.
  rewrite overflows_frame, blocking_frame; [done|]. intros ->. by apply Hn, list_elem_of_In.
Qed.

Lemma served_frame wait contents x q qs hs : q ∉ qs ->
  List.filter (fun i => negb (stays wait ds' (<[q := hs]> contents) x i)) qs
  = List.filter (fun i => negb (stays wait ds contents x i)) qs.
Proof.
  intros Hn. apply filter_ext_in. intros i Hi. unfold stays.
  rewrite overflows_frame, blocking_frame; [done|]. intros ->. by apply Hn, list_elem_of_In.
Qed.
End frame.

(** One queue of the loop: a copy is pushed. *)
Lemma deliver_one w contents n q d hs x o :
  WorldInv w contents n -> 1 < n -> queues w !! q = Some d -> contents !! q = Some hs ->
  Balanced (heap w) (x :: owned contents ++ o) -> headroom (x :: owned contents ++ o) 3 ->
  let r := queue_push d hs x in
  exists w', (let* '(c, w) := copy (Some x) w in pushToQueue q c w) = Done (bool_decide (fst r = None), w') /\
    evolves w w' (<[q := snd r]> contents) (n - 2) (x :: o) /\ lost_flags w' = lost_flags w.
Proof.
  intros HW Hn Hq Hhs Hb Hh r.
  destruct (copy_evolves w contents n x o HW Hb) as (w1 & -> & E1 & F1); [unfold headroom in *; simpl in *; lia|].
  cbn [obind]. destruct (Forall2_lookup_l _ _ _ _ _ (ev_queues _ _ _ _ _ E1) Hq) as (d1 & Hq1 & Hd1).
  destruct (pushToQueue_ok w1 contents n q d1 hs x (x :: o) (ev_inv _ _ _ _ _ E1) Hn Hq1 Hhs) as (w2 & E & E2 & F2).
  { eapply Balanced_proper; [|apply E1]. solve_Permutation. }
  { unfold headroom in *. simpl in *. rewrite length_app in *. simpl. lia. }
  rewrite (same_push d d1) in * by done. fold r in E, E2. exists w2. split; [exact E|]. split; [|congruence].
  eapply evolves_trans; [exact E1|exact E2|]. 
  destruct (Forall2_lookup_lr _ _ _ _ _ _ (wi_queues _ _ _ HW) Hq Hhs) as [_ Hcap _].
  intros y Hy. apply (owned_push_subset contents q d hs x (x :: o)) in Hy; [|done|lia].
  revert Hy. rewrite !elem_of_cons, !elem_of_app, !elem_of_cons. tauto.
Qed.

Lemma owned_push_headroom contents q d hs x o k : contents !! q = Some hs -> 0 < ChunkQueueData.capacity d ->
  headroom (x :: owned contents ++ o) (k + 1) ->
  headroom (x :: owned (<[q := snd (queue_push d hs x)]> contents) ++ o) k.
Proof.
  intros Hq Hc. pose proof (owned_push_length contents q d hs x Hq Hc). unfold headroom. simpl. rewrite !length_app. lia.
Qed.

Lemma after_delivery_nil ds x contents : after_delivery ds [] x contents = contents.
Proof. apply list_eq. intros i. unfold after_delivery. rewrite list_lookup_imap. by destruct (contents !! i). Qed.

Lemma lost_after_nil wait ds x contents flags : lost_after wait ds [] x contents flags = flags.
Proof. apply list_eq. intros i. unfold lost_after. rewrite list_lookup_imap. by destruct (flags !! i). Qed.

Lemma after_delivery_subset ds qs x contents o :
  Forall2 (fun d (_ : list handle) => 0 < ChunkQueueData.capacity d) ds contents ->
  owned (after_delivery ds qs x contents) ++ x :: o ⊆ x :: owned contents ++ o.
Proof.
  intros Hc y Hy. apply elem_of_app in Hy as [Hy|Hy]; [|rewrite !elem_of_cons, !elem_of_app in *; tauto].
  apply list_elem_of_bind in Hy as (hs' & Hy & Hin). apply list_elem_of_lookup in Hin as (q & Hq).
  unfold after_delivery in Hq. rewrite list_lookup_imap in Hq.
  destruct (contents !! q) as [hs|] eqn:Ehs; [|done]. simpl in Hq. injection Hq as <-.
  assert (Hhs : y ∈ hs -> y ∈ x :: owned contents ++ o).
  { intros H. right. apply elem_of_app. left. apply list_elem_of_bind. exists hs. split; [done|]. by eapply list_elem_of_lookup_2. }
  case_bool_decide; [|by apply Hhs]. destruct (ds !! q) as [d|] eqn:Ed; [|by apply Hhs].
  assert (Hin : y ∈ x :: hs).
  { unfold queue_push in Hy. rewrite (spec_push_Permutation (evicts (ChunkQueueData.kind d)) (ChunkQueueData.capacity d)).
    - apply elem_of_app. by right.
    - by eapply Forall2_lookup_lr in Hc. }
  apply elem_of_cons in Hin as [->|?]; [by left|by apply Hhs].
Qed.

Lemma length_after_delivery ds qs x contents :
  Forall2 (fun d (_ : list handle) => 0 < ChunkQueueData.capacity d) ds contents ->
  NoDup qs -> Forall (fun q => q < length ds)%nat qs ->
  (length (owned (after_delivery ds qs x contents)) <= length (owned contents) + length qs)%nat.
Proof.
  revert contents. induction qs as [|q qs IH]; intros contents Hc Hn Hr.
  - rewrite after_delivery_nil. simpl. lia.
  - apply NoDup_cons in Hn as [Hq Hn]. apply Forall_cons in Hr as [Hlt Hr].
    destruct (lookup_lt_is_Some_2 _ _ Hlt) as [d Hd].
    destruct (Forall2_lookup_l _ _ _ _ _ Hc Hd) as (hs & Hhs & Hcap).
    assert (Hds : Forall2 same_queue ds ds) by (clear; induction ds; by constructor).
    rewrite <- (after_delivery_cons ds ds Hds q qs x contents d hs) by done.
    pose proof (owned_push_length contents q d hs x Hhs Hcap).
    specialize (IH (<[q := snd (queue_push d hs x)]> contents)). simpl. etransitivity; [apply IH|lia]; try done.
    apply Forall2_same_length_lookup_2; [rewrite length_insert; by eapply Forall2_length|].
    intros i di hi Hi Hhi. apply Forall2_length in Hc as Hl. destruct (lookup_lt_is_Some_2 contents i) as [h' Hh'].
    { rewrite <- Hl. by eapply lookup_lt_Some. } by eapply (Forall2_lookup_lr _ _ _ _ _ _ Hc Hi Hh').
Qed.

Lemma worldinv_caps w contents n : WorldInv w contents n ->
  Forall2 (fun d (_ : list handle) => 0 < ChunkQueueData.capacity d) (queues w) contents.
Proof. intros []. eapply Forall2_impl; [done|]. intros ? ? [_ ? _]. lia. Qed.

Definition loop_spec (wait : bool) (qs : list nat) (x : handle) (o : list handle) : Prop :=
  forall w contents n count rem,
  NoDup qs -> Forall (fun q => q < length (queues w))%nat qs -> WorldInv w contents n ->
  2 * Z.of_nat (length qs) <= n ->
  Balanced (heap w) (x :: owned contents ++ o) ->
  headroom (x :: owned contents ++ o) (3 + Z.of_nat (length qs)) ->
  0 <= count -> count + Z.of_nat (length qs) < 2 ^ 64 ->
  let stay := stays wait (queues w) contents x in
  exists w', deliver_loop wait qs (Some x) count rem w
      = Done (count + Z.of_nat (length (List.filter (fun q => negb (stay q)) qs)), rem ++ List.filter stay qs, w') /\
    evolves w w' (after_delivery (queues w) qs x contents) (n - 2 * Z.of_nat (length qs)) (x :: o) /\
    lost_flags w' = lost_after wait (queues w) qs x contents (lost_flags w).

(** After queue [q] is done, from [w] to [w2], the loop goes on with [qs]. *)
Lemma deliver_rest wait q qs x o w contents n d hs w2 count rem :
  loop_spec wait qs x o -> q ∉ qs -> NoDup qs -> Forall (fun q => q < length (queues w))%nat qs ->
  queues w !! q = Some d -> contents !! q = Some hs -> 0 < ChunkQueueData.capacity d ->
  2 * Z.of_nat (length qs) <= n - 2 -> headroom (x :: owned contents ++ o) (4 + Z.of_nat (length qs)) ->
  let r := queue_push d hs x in
  let stay := stays wait (queues w) contents x in
  evolves w w2 (<[q := snd r]> contents) (n - 2) (x :: o) ->
  lost_flags w2 = (if bool_decide (fst r <> None) && negb (blocking wait (queues w) q)
                   then <[q := true]> (lost_flags w) else lost_flags w) ->
  0 <= count -> count + Z.of_nat (length qs) < 2 ^ 64 ->
  exists w', deliver_loop wait qs (Some x) count rem w2
    = Done (count + Z.of_nat (length (List.filter (fun q => negb (stay q)) qs)), rem ++ List.filter stay qs, w') /\
    evolves w w' (after_delivery (queues w) (q :: qs) x contents) (n - 2 * Z.of_nat (S (length qs))) (x :: o) /\
    lost_flags w' = lost_after wait (queues w) (q :: qs) x contents (lost_flags w).
Proof.
  intros IH Hq Hnd Hr Hd Hhs Hcap Hn Hh r stay E2 F2 Hc1 Hc2. pose proof (ev_queues _ _ _ _ _ E2) as Hds.
  destruct (IH w2 (<[q := snd r]> contents) (n - 2) count rem) as (w' & -> & E3 & F3); try done.
  - eapply Forall_impl; [exact Hr|]. intros i. by rewrite (Forall2_length _ _ _ Hds).
  - apply E2.
  - eapply Balanced_proper; [|apply E2]. solve_Permutation.
  - apply owned_push_headroom; [done|lia|]. unfold headroom in *. lia.
  - unfold stay. rewrite (stays_frame _ _ Hds), (served_frame _ _ Hds) by done.
    unfold r in F2, F3, E3. rewrite F2, (lost_after_cons _ _ Hds) in F3 by done.
    rewrite (after_delivery_cons _ _ Hds) in E3 by done.
    eexists. split; [done|]. split; [|done].
    replace (n - 2 * Z.of_nat (S (length qs))) with (n - 2 - 2 * Z.of_nat (length qs)) by lia.
    eapply evolves_trans; [exact E2|exact E3|].
    rewrite <- (after_delivery_cons _ _ Hds q qs x contents d hs) by done. fold r.
    intros y Hy. apply after_delivery_subset in Hy.
    + revert Hy. rewrite !elem_of_cons, !elem_of_app, !elem_of_cons. tauto.
    + eapply worldinv_caps, E2.
Qed.

Lemma deliver_loop_ok wait qs x o : loop_spec wait qs x o.
Proof.
  induction qs as [|q qs IH]; intros w contents n count rem Hnd Hr HW Hn Hb Hh Hc1 Hc2 stay.
  - simpl. rewrite app_nil_r, Z.add_0_r, Z.sub_0_r, after_delivery_nil, lost_after_nil. eexists.
    split; [done|]. split; [|done]. constructor; try done. eapply Balanced_proper; [|exact Hb]. solve_Permutation.
  - apply NoDup_cons in Hnd as [Hq Hnd]. apply Forall_cons in Hr as [Hlt Hr]. cbn [length] in *.
    destruct (lookup_lt_is_Some_2 _ _ Hlt) as [d Hd].
    destruct (Forall2_lookup_l _ _ _ _ _ (wi_queues _ _ _ HW) Hd) as (hs & Hhs & [_ Hcap _]).
    destruct (deliver_one w contents n q d hs x o HW ltac:(lia) Hd Hhs Hb) as (w1 & E & E1 & F1).
    { unfold headroom in *. lia. }
    pose proof (fun w2 count rem => deliver_rest wait q qs x o w contents n d hs w2 count rem IH Hq Hnd Hr Hd Hhs
      ltac:(lia) ltac:(lia) ltac:(unfold headroom in *; lia)) as Hrest. simpl in Hrest. fold stay in Hrest.
    set (r := queue_push d hs x) in *. cbn [deliver_loop]. unfold get_queue. rewrite Hd. cbn [obind].
    destruct (copy (Some x) w) as [[c wc]|]; [|done]. cbn [obind] in *. rewrite E. cbn [obind]. clear E.
    assert (Hbl : blocking wait (queues w) q
      = wait && bool_decide (ChunkQueueData.m_queueFullPolicy d = QueueFullPolicy.BLOCK_PRODUCER))
      by (unfold blocking; by rewrite Hd).
    assert (Hst : stay q = bool_decide (fst r <> None) && blocking wait (queues w) q)
      by (unfold stay, stays, overflows; by rewrite Hd, Hhs).
    cbn [List.filter]. rewrite Hst. rewrite Hbl in *. destruct (fst r) as [y|] eqn:Er.
    + rewrite bool_decide_false by done. rewrite (bool_decide_true (Some y <> None)) in * by done. simpl in *.
      destruct (wait && _) eqn:Ew; simpl in *.
      * destruct (Hrest w1 count (rem ++ [q]) E1 F1 Hc1 ltac:(lia)) as (w' & -> & ?). rewrite <- app_assoc. by eexists.
      * destruct (Forall2_lookup_l _ _ _ _ _ (ev_queues _ _ _ _ _ E1) Hd) as (d1 & Hd1 & _).
        destruct (lostAChunk_ok w1 _ _ q d1 (x :: o) (ev_inv _ _ _ _ _ E1) Hd1 (ev_bal _ _ _ _ _ E1)) as (w2 & -> & E2 & F2).
        cbn [obind]. rewrite u64_small by lia.
        destruct (Hrest w2 (count + 1) rem) as (w' & -> & ?); [|by rewrite F2, F1|lia|lia|].
        { by eapply evolves_trans; [exact E1|exact E2|]. }
        eexists. split; [do 3 f_equal; lia|done].
    + rewrite bool_decide_true by done. rewrite (bool_decide_false (None <> None)) in * by (by intros H; apply H).
      simpl in *. rewrite u64_small by lia.
      destruct (Hrest w1 (count + 1) rem E1 F1) as (w' & -> & ?); [lia|lia|].
      eexists. split; [do 3 f_equal; lia|done].
Qed.

(** ** History *)

Definition history_push (cap : Z) (hist : list handle) (x : handle) : list handle :=
  if 0 <? cap then (if cap <=? Z.of_nat (length hist) then tail hist else hist) ++ [x] else hist.

Lemma history_push_subset cap hist x : history_push cap hist x ⊆ x :: hist.
Proof.
  unfold history_push. intros y. destruct (0 <? cap); [|by right].
  rewrite elem_of_app, list_elem_of_singleton, elem_of_cons.
  destruct (_ <=? _); [|tauto]. destruct hist as [|z hist]; simpl; [tauto|]. rewrite elem_of_cons. tauto.
Qed.

Lemma length_history_push cap hist x : (length (history_push cap hist x) <= S (length hist))%nat.
Proof.
  unfold history_push. destruct (0 <? cap); [|lia]. rewrite length_app. simpl.
  destruct (_ <=? _); [|lia]. destruct hist; simpl; lia.
Qed.

Record DistInv (d : t) (hist : list handle) (w : World) : Prop := {
  di_nodup : NoDup (m_queues d);
  di_range : Forall (fun q => q < length (queues w))%nat (m_queues d);
  di_max : Z.of_nat (length (m_queues d)) <= MAX_QUEUES d < 2 ^ 32;
  di_hist : Forall2 encodes (m_history d) hist;
  di_hcap : 0 <= m_historyCapacity d <= MAX_HISTORY_CAPACITY d;
  di_hlen : Z.of_nat (length hist) <= m_historyCapacity d }.

Lemma distinv_world d hist w w' : length (queues w') = length (queues w) -> DistInv d hist w -> DistInv d hist w'.
Proof. intros E []. constructor; try done. by rewrite E. Qed.

Lemma distinv_history d hist hist' es w : DistInv d hist w -> Forall2 encodes es hist' ->
  Z.of_nat (length hist') <= m_historyCapacity d -> DistInv (set_history es d) hist' w.
Proof. intros []. by constructor. Qed.

Lemma drop_entry_evolves w contents n e x o :
  encodes e x -> WorldInv w contents n -> Balanced (heap w) (x :: owned contents ++ o) ->
  exists w', drop (fst (ShmSafeUnmanagedChunk.releaseToSharedChunk e)) w = Done w' /\ evolves w w' contents n o /\
    lost_flags w' = lost_flags w.
Proof.
  intros He HW Hb. destruct (drop_entry w e x _ He Hb) as (h & -> & ? & ? & ?). eexists. split; [done|]. split; [|done].
  constructor; simpl; try done; [by apply worldinv_heap|exact (same_queues_refl w)].
Qed.

(** What operations on the history keep. *)
Definition same_config (d d' : t) : Prop :=
  m_queues d' = m_queues d /\ m_consumerTooSlowPolicy d' = m_consumerTooSlowPolicy d /\
  m_historyCapacity d' = m_historyCapacity d.

Lemma addToHistory_ok d hist w contents n x o :
  DistInv d hist w -> WorldInv w contents n -> Balanced (heap w) (x :: owned contents ++ hist ++ o) ->
  headroom (x :: owned contents ++ hist ++ o) 1 ->
  let hist' := history_push (m_historyCapacity d) hist x in
  exists d' w', addToHistoryWithoutDelivery d (Some x) w = Done (d', w') /\ evolves w w' contents n (hist' ++ o) /\
    DistInv d' hist' w' /\ same_config d d' /\ lost_flags w' = lost_flags w.
Proof.
  intros HD HW Hb Hh hist'. pose proof HD as []. unfold addToHistoryWithoutDelivery.
  unfold history_push in hist'. destruct (Z.ltb_spec 0 (m_historyCapacity d)) as [Hc|Hc].
  2:{ cbn [obind]. destruct (drop_evolves w contents n x (hist ++ o) HW Hb) as (w' & -> & E & F).
      eexists _, _. split; [done|]. split; [done|]. split; [|done]. eapply distinv_world; [|exact HD].
      symmetry. eapply Forall2_length, E. }
  (* make room *)
  set (room := if m_historyCapacity d <=? _ then _ else _).
  set (kept := if m_historyCapacity d <=? Z.of_nat (length hist) then tail hist else hist) in *.
  assert (Hroom : exists es w1, room = Done (es, w1) /\ evolves w w1 contents n (x :: kept ++ o) /\
    Forall2 encodes es kept /\ lost_flags w1 = lost_flags w /\ Z.of_nat (length kept) < m_historyCapacity d).
  { unfold room, kept. rewrite (Forall2_length _ _ _ di_hist0). case_zb.
    - destruct di_hist0 as [|e y es hist He Hes]; simpl in *; [lia|].
      destruct (drop_entry_evolves w contents n e y (x :: hist ++ o) He HW) as (w1 & -> & E & F).
      { eapply Balanced_proper; [|exact Hb]. solve_Permutation. }
      eexists _, _. split; [done|]. split_and!; try done. lia.
    - eexists _, _. split; [done|]. split_and!; try done. constructor; try done.
      eapply Balanced_proper; [|exact Hb]. solve_Permutation. }
  destruct Hroom as (es & w1 & -> & E1 & Hes & F1 & Hlen). cbn [obind].
  assert (Hkept : (length kept <= length hist)%nat) by (unfold kept; case_zb; [destruct hist; simpl; lia|done]).
  destruct (copy_evolves w1 contents n x (kept ++ o) (ev_inv _ _ _ _ _ E1)) as (w2 & -> & E2 & F2).
  { eapply Balanced_proper; [|apply E1]. solve_Permutation. }
  { unfold headroom in *. simpl in *. rewrite !length_app in *. lia. }
  cbn [obind]. destruct (shm_ctor_ok (heap w2) (x :: owned contents ++ kept ++ o) (Some x)) as (e & -> & He).
  { eapply Balanced_proper; [|apply E2]. solve_Permutation. }
  cbn [obind]. destruct (drop_evolves w2 contents n x (x :: kept ++ o) (ev_inv _ _ _ _ _ E2)) as (w3 & -> & E3 & F3).
  { eapply Balanced_proper; [|apply E2]. solve_Permutation. }
  cbn [obind]. eexists _, _. split; [done|]. split; [|split; [|split; [done|congruence]]].
  - eapply evolves_perm with (o := x :: kept ++ o); [solve_Permutation|].
    eapply evolves_trans; [exact E1| |done]. eapply evolves_trans; [exact E2|exact E3|].
    intros y. rewrite !elem_of_app, !elem_of_cons. tauto.
  - eapply distinv_world with (w := w).
    + symmetry. transitivity (length (queues w1)); [eapply Forall2_length, E1|].
      transitivity (length (queues w2)); eapply Forall2_length; [apply E2|apply E3].
    + eapply distinv_history; [done| |unfold hist'; rewrite length_app; simpl; lia].
      apply Forall2_app; [done|]. by constructor.
Qed.

Lemma filter_none {A} (f : A -> bool) l : (forall x, x ∈ l -> f x = false) ->
  List.filter f l = [] /\ List.filter (fun x => negb (f x)) l = l.
Proof.
  induction l as [|a l IH]; intros H; [done|]. simpl. rewrite (H a) by (by left). simpl.
  destruct IH as [-> ->]; [|done]. intros x Hx. apply H. by right.
Qed.

Definition waits (d : t) : bool := bool_decide (m_consumerTooSlowPolicy d = ConsumerTooSlowPolicy.WAIT_FOR_CONSUMER).

(** No queue makes the producer wait: every connected queue is served at once. *)
Lemma deliver_all_ok rounds d hist w contents n x o :
  DistInv d hist w -> WorldInv w contents n -> 2 * Z.of_nat (length (m_queues d)) <= n ->
  Balanced (heap w) (x :: owned contents ++ hist ++ o) ->
  headroom (x :: owned contents ++ hist ++ o) (4 + Z.of_nat (length (m_queues d))) ->
  (forall q, q ∈ m_queues d -> stays (waits d) (queues w) contents x q = false) ->
  let hist' := history_push (m_historyCapacity d) hist x in
  exists d' w', deliverToAllStoredQueues rounds d (Some x) w = Done (Z.of_nat (length (m_queues d)), d', w') /\
    evolves w w' (after_delivery (queues w) (m_queues d) x contents) (n - 2 * Z.of_nat (length (m_queues d))) (hist' ++ o) /\
    DistInv d' hist' w' /\ same_config d d' /\
    lost_flags w' = lost_after (waits d) (queues w) (m_queues d) x contents (lost_flags w).
Proof.
  intros HD HW Hn Hb Hh Hst hist'. pose proof HD as []. unfold deliverToAllStoredQueues. fold (waits d).
  destruct (deliver_loop_ok (waits d) (m_queues d) x (hist ++ o) w contents n 0 []) as (w1 & -> & E1 & F1);
    try done; [unfold headroom in *; lia|lia|].
  destruct (filter_none _ _ Hst) as [-> ->]. cbn [obind app]. rewrite Z.add_0_l.
  replace (wait_loop rounds d [] (Some x) (Z.of_nat (length (m_queues d))) w1)
    with (@Done (Z * t * World) (Z.of_nat (length (m_queues d)), d, w1)) by (by destruct rounds). cbn [obind].
  set (contents1 := after_delivery _ _ _ _) in *. set (n1 := n - _) in *.
  pose proof (length_after_delivery (queues w) (m_queues d) x contents (worldinv_caps _ _ _ HW) di_nodup0 di_range0) as Hl.
  fold contents1 in Hl.
  destruct (copy_evolves w1 contents1 n1 x (hist ++ o) (ev_inv _ _ _ _ _ E1)) as (w2 & -> & E2 & F2).
  { eapply Balanced_proper; [|apply E1]. solve_Permutation. }
  { unfold headroom in *. simpl in *. rewrite !length_app in *. lia. }
  cbn [obind]. destruct (addToHistory_ok d hist w2 contents1 n1 x (x :: o)) as (d3 & w3 & -> & E3 & HD3 & Q3 & F3).
  { apply (distinv_world _ _ w); [|done]. symmetry. transitivity (length (queues w1)); eapply Forall2_length; [apply E1|apply E2]. }
  { apply E2. }
  { eapply Balanced_proper; [|apply E2]. solve_Permutation. }
  { unfold headroom in *. simpl in *. rewrite !length_app in *. simpl. lia. }
  fold hist' in E3, HD3. cbn [obind].
  destruct (drop_evolves w3 contents1 n1 x (hist' ++ o) (ev_inv _ _ _ _ _ E3)) as (w4 & -> & E4 & F4).
  { eapply Balanced_proper; [|apply E3]. solve_Permutation. }
  cbn [obind]. eexists _, _. split; [done|]. split; [|split; [|split; [done|congruence]]].
  - assert (Hsub : hist' ⊆ x :: hist) by apply history_push_subset.
    eapply evolves_trans; [exact E1| |].
    + eapply evolves_trans; [exact E2| |].
      * eapply evolves_trans; [exact E3|exact E4|]. intros y. rewrite !elem_of_app, !elem_of_cons. tauto.
      * intros y. specialize (Hsub y). revert Hsub. rewrite !elem_of_app, !elem_of_cons, !elem_of_app. tauto.
    + intros y. specialize (Hsub y). revert Hsub. rewrite !elem_of_app, !elem_of_cons, !elem_of_app. tauto.
  - apply (distinv_world _ _ w3); [|done]. symmetry. eapply Forall2_length, E4.
Qed.

(** ** Waiting for blocking subscribers *)








Section wait.
Context (ds : list ChunkQueueData.t) (contents : list (list handle)) (x : handle).
Context (Hc : Forall2 (fun d (_ : list handle) => 0 < ChunkQueueData.capacity d) ds contents).


End wait.









(** Delivery without waiting.  If no full queue makes the producer wait, a
    delivery serves every connected queue, and only those: a queue with room
    gets the chunk as its newest, a full one loses the oldest chunk or, if it
    does not evict, the new one, and in both cases its lost-chunk flag is set;
    the history keeps the newest chunks up to its capacity; no chunk is leaked
    or freed while somebody owns it. *)
Theorem delivery_serves_all rounds d hist w contents n x o :
  DistInv d hist w -> WorldInv w contents n -> 2 * Z.of_nat (length (m_queues d)) <= n ->
  Balanced (heap w) (x :: owned contents ++ hist ++ o) ->
  headroom (x :: owned contents ++ hist ++ o) (4 + Z.of_nat (length (m_queues d))) ->
  (forall q, q ∈ m_queues d -> stays (waits d) (queues w) contents x q = false) ->
  let hist' := history_push (m_historyCapacity d) hist x in
  exists d' w', deliverToAllStoredQueues rounds d (Some x) w = Done (Z.of_nat (length (m_queues d)), d', w') /\
    evolves w w' (after_delivery (queues w) (m_queues d) x contents) (n - 2 * Z.of_nat (length (m_queues d))) (hist' ++ o) /\
    DistInv d' hist' w' /\ same_config d d' /\
    lost_flags w' = lost_after (waits d) (queues w) (m_queues d) x contents (lost_flags w).
Proof. apply deliver_all_ok. Qed.

(** A distributor connected to the only queue. *)
Definition sample_distributor (policy : ConsumerTooSlowPolicy.t) : t := mk 4 8 2 [0%nat] [] policy.

Lemma sample_distinv policy w d : queues w = [d] -> DistInv (sample_distributor policy) [] w.
Proof.
  intros E. constructor; simpl; rewrite ?E; try lia; [apply NoDup_singleton| |by constructor].
  apply Forall_singleton. simpl. lia.
Qed.

Lemma delivery_serves_all_witness :
  exists w x d' w', deliverToAllStoredQueues [] (sample_distributor ConsumerTooSlowPolicy.DISCARD_OLDEST_DATA) (Some x) w
    = Done (1, d', w') /\ lost_flags w' = [true].
Proof.
  destruct (sample_world 1 QueueFullPolicy.DISCARD_OLDEST_DATA SoFi_MultiProducerSingleConsumer ltac:(lia))
    as (w & d & x & Eq & Hk & Hp & Hc & HW & Hb & _).
  destruct (delivery_serves_all [] (sample_distributor ConsumerTooSlowPolicy.DISCARD_OLDEST_DATA) [] w [[x]] 1000 x [])
    as (d' & w' & E & _ & _ & _ & F); [by eapply sample_distinv|done|simpl; lia|done|unfold headroom; simpl; lia| |].
  - intros q _. unfold stays, blocking. simpl. destruct (queues w !! q); by rewrite andb_false_r.
  - exists w, x, d', w'. split; [exact E|]. rewrite F. unfold lost_flags, lost_after, overflows, blocking. rewrite Eq. simpl.
    unfold queue_push, spec_push. by rewrite Hk, Hc.
Defined.






(** ** Late joiners *)

(** Pushing several chunks, oldest first. *)
Definition queue_push_all (d : ChunkQueueData.t) (hs xs : list handle) : list handle :=
  foldl (fun hs x => snd (queue_push d hs x)) hs xs.

Lemma queue_push_all_subset d xs : forall hs, 0 < ChunkQueueData.capacity d -> queue_push_all d hs xs ⊆ hs ++ xs.
Proof.
  induction xs as [|x xs IH]; intros hs Hc; [by rewrite app_nil_r|]. intros y Hy.
  change (y ∈ queue_push_all d (snd (queue_push d hs x)) xs) in Hy. apply IH in Hy; [|done].
  rewrite elem_of_app, elem_of_cons. apply elem_of_app in Hy as [Hy|Hy]; [|by auto].
  assert (Hin : y ∈ x :: hs).
  { unfold queue_push in Hy. rewrite (spec_push_Permutation (evicts (ChunkQueueData.kind d)) (ChunkQueueData.capacity d)) by done.
    apply elem_of_app. by right. }
  apply elem_of_cons in Hin. tauto.
Qed.

Lemma push_history_ok q d es xs : forall w contents n hs o,
  Forall2 encodes es xs -> WorldInv w contents n -> 2 * Z.of_nat (length xs) <= n ->
  queues w !! q = Some d -> contents !! q = Some hs ->
  Balanced (heap w) (owned contents ++ o) -> xs ⊆ o ->
  headroom (owned contents ++ o) (3 + Z.of_nat (length xs)) ->
  exists w', push_history q es w = Done w' /\
    evolves w w' (<[q := queue_push_all d hs xs]> contents) (n - 2 * Z.of_nat (length xs)) o /\
    lost_flags w' = lost_flags w.
Proof.
  intros w contents n hs o Henc. revert w contents n hs d.
  induction Henc as [|e x es xs He Henc IH]; intros w contents n hs d HW Hn Hd Hhs Hb Hsub Hh.
  - simpl. rewrite (list_insert_id contents q hs), Z.sub_0_r by done. eexists. split; [done|]. split; [|done]. by constructor.
  - cbn [push_history length] in *.
    destruct (Forall2_lookup_lr _ _ _ _ _ _ (wi_queues _ _ _ HW) Hd Hhs) as [_ Hcap _].
    destruct (clone_ok (heap w) _ e Hb) as (c & h1 & -> & Hc & Hb1 & V1 & Er1).
    { rewrite He. intros y ->%list_elem_of_singleton. apply elem_of_app. right. apply Hsub. by left. }
    { unfold headroom in *. lia. }
    rewrite He in Hc. destruct c as [x'|]; [|done]. injection Hc as ->. cbn [obind].
    destruct (pushToQueue_ok (set_heap h1 w) contents n q d hs x o) as (w2 & -> & E2 & F2);
      [by apply worldinv_heap|lia|done|done|done|unfold headroom in *; simpl in *; lia|].
    cbn [obind]. pose proof (ev_queues _ _ _ _ _ E2) as Hds.
    destruct (Forall2_lookup_l _ _ _ _ _ Hds Hd) as (d2 & Hd2 & Hs2).
    pose proof (lookup_lt_Some _ _ _ Hhs) as Hlt.
    destruct (IH w2 (<[q := snd (queue_push d hs x)]> contents) (n - 2) (snd (queue_push d hs x)) d2) as (w3 & -> & E3 & F3).
    + apply E2.
    + lia.
    + done.
    + by apply list_lookup_insert_eq.
    + apply E2.
    + intros y Hy. apply Hsub. by right.
    + pose proof (owned_push_length contents q d hs x Hhs ltac:(lia)). unfold headroom in *. rewrite !length_app in *. lia.
    + rewrite list_insert_insert_eq in E3.
      assert (Heq : queue_push_all d2 (snd (queue_push d hs x)) xs = queue_push_all d hs (x :: xs)).
      { unfold queue_push_all. simpl. generalize (snd (queue_push d hs x)). clear -Hs2.
        induction xs as [|y xs IH]; intros hs; [done|]. simpl. by rewrite (same_push d d2). }
      rewrite Heq in E3. exists w3. split; [done|]. split; [|by rewrite F3, F2].
      replace (n - 2 * Z.of_nat (S (length xs))) with (n - 2 - 2 * Z.of_nat (length xs)) by lia.
      eapply evolves_trans; [eapply evolves_heap; [exact V1|exact Er1| |exact E2]|exact E3|].
      * intros y Hy. apply owned_push_subset in Hy; [|done|lia]. rewrite elem_of_cons, elem_of_app in Hy.
        rewrite elem_of_app. destruct Hy as [->|?]; [right; apply Hsub; by left|done].
      * destruct (owned_focus contents q hs Hhs) as (rest & _ & I). intros y. rewrite !elem_of_app, !(I _), !elem_of_app.
        assert (Hall : queue_push_all d hs (x :: xs) ⊆ snd (queue_push d hs x) ++ xs)
          by exact (queue_push_all_subset d xs (snd (queue_push d hs x)) ltac:(lia)).
        specialize (Hall y). rewrite elem_of_app in Hall. specialize (Hsub y). rewrite elem_of_cons in Hsub. tauto.
Qed.

(** C26: a late joiner gets the history.  Adding a queue that is not connected
    yet pushes the newest [min(requested, size)] chunks of the history into it,
    oldest first, and connects it; the history and all other queues keep what
    they have. *)
Theorem late_joiner_gets_history d hist w contents n q dq hs requestedHistory o :
  DistInv d hist w -> WorldInv w contents n -> 2 * Z.of_nat (length hist) <= n ->
  q ∉ m_queues d -> Z.of_nat (length (m_queues d)) < MAX_QUEUES d ->
  queues w !! q = Some dq -> contents !! q = Some hs -> 0 <= requestedHistory < 2 ^ 64 ->
  Balanced (heap w) (owned contents ++ hist ++ o) ->
  headroom (owned contents ++ hist ++ o) (3 + Z.of_nat (length hist)) ->
  let newest := List.skipn (length hist - Z.to_nat requestedHistory) hist in
  exists d' w', tryAddQueue d q requestedHistory w = Done (success (), d', w') /\
    m_queues d' = m_queues d ++ [q] /\ DistInv d' hist w' /\
    evolves w w' (<[q := queue_push_all dq hs newest]> contents) (n - 2 * Z.of_nat (length newest)) (hist ++ o) /\
    lost_flags w' = lost_flags w.
Proof.
  intros HD HW Hn Hq Hmax Hdq Hhs Hreq Hb Hh newest. pose proof HD as []. unfold tryAddQueue.
  rewrite bool_decide_false, (proj2 (Z.ltb_lt _ _)) by done. cbn [set_queues m_history].
  assert (Es : (if requestedHistory <=? Z.of_nat (length (m_history d))
    then Z.of_nat (length (m_history d)) - requestedHistory else 0) = Z.of_nat (length hist - Z.to_nat requestedHistory)).
  { rewrite (Forall2_length _ _ _ di_hist0). case_zb; lia. }
  rewrite Es, Nat2Z.id. assert (Hnew : newest ⊆ hist ++ o).
  { intros y Hy. apply elem_of_app. left. unfold newest in Hy. rewrite <- (take_drop (length hist - Z.to_nat requestedHistory) hist).
    apply elem_of_app. by right. }
  assert (Hlen : (length newest <= length hist)%nat) by (unfold newest; rewrite length_skipn; lia).
  destruct (push_history_ok q dq (List.skipn (length hist - Z.to_nat requestedHistory) (m_history d)) newest
    w contents n hs (hist ++ o)) as (w' & -> & E & F); try done; [by apply Forall2_drop|lia|unfold headroom in *; lia|].
  cbn [obind]. eexists _, _. split; [done|]. split; [done|]. split; [|done].
  apply (distinv_world _ _ w); [symmetry; eapply Forall2_length, E|]. constructor; simpl; try done.
  - apply NoDup_app. split; [done|]. split; [|apply NoDup_singleton]. intros y Hy ->%list_elem_of_singleton. done.
  - apply Forall_app. split; [done|]. apply Forall_singleton. by eapply lookup_lt_Some.
  - rewrite length_app. simpl. lia.
Qed.

Lemma late_joiner_gets_history_witness :
  exists w x e w', tryAddQueue (mk 4 8 2 [] [e] ConsumerTooSlowPolicy.DISCARD_OLDEST_DATA) 0 5 w
    = Done (success (), mk 4 8 2 [0%nat] [e] ConsumerTooSlowPolicy.DISCARD_OLDEST_DATA, w') /\
    shm_handles e = [x] /\ WorldInv w' [[x; x]] 998.
Proof.
  destruct (sample_world 2 QueueFullPolicy.DISCARD_OLDEST_DATA SoFi_MultiProducerSingleConsumer ltac:(lia))
    as (w & d & x & Eq & _ & _ & Hcap & HW & Hb & _).
  destruct (shm_ctor_ok (heap w) [x] (Some x) Hb) as (e & _ & He). simpl in He.
  destruct (late_joiner_gets_history (mk 4 8 2 [] [e] ConsumerTooSlowPolicy.DISCARD_OLDEST_DATA) [x] w [[x]] 1000 0 d [x] 5 [])
    as (d' & w' & E & Em & HD & Ev & _).
  - constructor; simpl; try lia; [constructor|by apply Forall_nil|by repeat constructor].
  - done.
  - simpl. lia.
  - by apply not_elem_of_nil.
  - simpl. lia.
  - by rewrite Eq.
  - done.
  - lia.
  - done.
  - unfold headroom. simpl. lia.
  - exists w, x, e, w'.
    assert (Ed : d' = mk 4 8 2 [0%nat] [e] ConsumerTooSlowPolicy.DISCARD_OLDEST_DATA).
    { unfold tryAddQueue in E. cbn -[push_history] in E. destruct (push_history _ _ _); [|done]. by injection E as <- _. }
    rewrite <- Ed. split; [done|]. split; [done|]. pose proof (ev_inv _ _ _ _ _ Ev) as Hi. simpl in Hi.
    unfold queue_push_all, queue_push, spec_push in Hi. simpl in Hi. rewrite Hcap in Hi. exact Hi.
Defined.
End ChunkDistributor.
