(* ===== verification/ChunkSender.v ===== *)
(** * ChunkSender and ChunkReceiver

    [chunk_sender.inl] and [chunk_receiver.inl]: what the user-side ports do
    with chunks.  The sender allocates chunks (or recycles the last one it
    sent), remembers those the user holds, and hands a chunk over to the
    distributor; the receiver takes chunks from its queue and remembers them
    until the user releases them. *)

From S2P Require Import Prelude ChunkHeader MemoryManager SharedChunk UsedChunkList Queue VariantQueue.
From S2P Require Import ConditionVariable ChunkQueue ChunkDistributor.

Inductive AllocationError :=
  | UNDEFINED_ERROR
  | NO_MEMPOOLS_AVAILABLE
  | RUNNING_OUT_OF_CHUNKS
  | TOO_MANY_CHUNKS_ALLOCATED_IN_PARALLEL
  | INVALID_PARAMETER_FOR_USER_PAYLOAD_OR_USER_HEADER
  | INVALID_PARAMETER_FOR_REQUEST_HEADER.

(** [cxx::from<MemoryManager::Error, AllocationError>] *)
Definition into_AllocationError (e : MemoryManager.Error) : AllocationError :=
  match e with
  | MemoryManager.NO_MEMPOOLS_AVAILABLE => NO_MEMPOOLS_AVAILABLE
  | MemoryManager.NO_MEMPOOL_FOR_REQUESTED_CHUNK_SIZE => NO_MEMPOOLS_AVAILABLE
  | MemoryManager.MEMPOOL_OUT_OF_CHUNKS => RUNNING_OUT_OF_CHUNKS
  end.

Module ChunkSender.

(** [ChunkSenderData]: the distributor is its base class, [m_memoryMgr] is the
    index of the segment and [MAX_CHUNKS] the template parameter. *)
Record t := mk {
  dist : ChunkDistributor.t;
  m_memoryMgr : nat;
  MAX_CHUNKS : Z;
  m_chunksInUse : UsedChunkList.t;
  m_sequenceNumber : Z;
  m_lastChunkUnmanaged : ShmSafeUnmanagedChunk.t }.

Definition set_dist (v : ChunkDistributor.t) (s : t) : t :=
  mk v (m_memoryMgr s) (MAX_CHUNKS s) (m_chunksInUse s) (m_sequenceNumber s) (m_lastChunkUnmanaged s).
Definition set_used (v : UsedChunkList.t) (s : t) : t :=
  mk (dist s) (m_memoryMgr s) (MAX_CHUNKS s) v (m_sequenceNumber s) (m_lastChunkUnmanaged s).
Definition set_sequence (v : Z) (s : t) : t :=
  mk (dist s) (m_memoryMgr s) (MAX_CHUNKS s) (m_chunksInUse s) v (m_lastChunkUnmanaged s).
Definition set_last (v : ShmSafeUnmanagedChunk.t) (s : t) : t :=
  mk (dist s) (m_memoryMgr s) (MAX_CHUNKS s) (m_chunksInUse s) (m_sequenceNumber s) v.

(** [insert(chunk)] with an lvalue: the parameter is a copy. *)
Definition insert_copy (s : t) (chunk : SharedChunk.t) (w : World) : outcome (bool * t * World) :=
  let* '(c, w) := copy chunk w in
  let* '(r, u, h) := UsedChunkList.insert (MAX_CHUNKS s) (m_chunksInUse s) c (heap w) in
  Done (r, set_used u s, set_heap h w).

(** The header pointer of a chunk that is not null. *)
Definition header_pointer (chunk : SharedChunk.t) (w : World) : outcome handle :=
  match SharedChunk.getChunkHeader chunk (heap w) with
  | Some p => Done p
  | None => Terminated UNDEFINED_BEHAVIOUR
  end.

Definition write (p : handle) (f : ChunkHeader.t -> ChunkHeader.t) (w : World) : outcome World :=
  let* h := write_header p f (heap w) in Done (set_heap h w).

(** The pointer of [tryAllocate] to the header of the last chunk, if nobody
    else owns that chunk. *)
Definition recyclable (s : t) (w : World) : option handle :=
  if ShmSafeUnmanagedChunk.isNotLogicalNullptrAndHasNoOtherOwners (m_lastChunkUnmanaged s) (heap w)
  then ShmSafeUnmanagedChunk.getChunkHeader (m_lastChunkUnmanaged s) (heap w) else None.

(** The branch that uses the last chunk again. *)
Definition recycle (p : handle) (settings : ChunkSettings.t) (s : t) (w : World)
    : outcome (expected handle AllocationError * t * World) :=
  let* '(sharedChunk, h) := ShmSafeUnmanagedChunk.cloneToSharedChunk (m_lastChunkUnmanaged s) (heap w) in
  let* '(inserted, s, w) := insert_copy s sharedChunk (set_heap h w) in
  if inserted : bool then
    let* hd := read_header p (heap w) in
    let* h := construct_header p (ChunkHeader.chunkSize hd) settings (heap w) in
    let* w := drop sharedChunk (set_heap h w) in
    Done (success p, s, w)
  else
    let* w := drop sharedChunk w in
    Done (error TOO_MANY_CHUNKS_ALLOCATED_IN_PARALLEL, s, w).

(** The branch that requests a new chunk. *)
Definition allocate_new (originId : Z) (settings : ChunkSettings.t) (s : t) (w : World)
    : outcome (expected handle AllocationError * t * World) :=
  let* '(getChunkResult, h) := getChunk (m_memoryMgr s) settings (heap w) in
  let w := set_heap h w in
  match getChunkResult with
  | success chunk =>
      let* '(inserted, s, w) := insert_copy s chunk w in
      if inserted : bool then
        let* p := header_pointer chunk w in
        let* w := write p (ChunkHeader.setOriginId originId) w in
        let* w := drop chunk w in
        Done (success p, s, w)
      else
        let* w := drop chunk w in
        Done (error TOO_MANY_CHUNKS_ALLOCATED_IN_PARALLEL, s, w)
  | error e => Done (error (into_AllocationError e), s, w)
  end.

Definition tryAllocate (originId userPayloadSize userPayloadAlignment userHeaderSize userHeaderAlignment : Z)
    (s : t) (w : World) : outcome (expected handle AllocationError * t * World) :=
  match ChunkSettings.create userPayloadSize userPayloadAlignment userHeaderSize userHeaderAlignment with
  | error _ => Done (error INVALID_PARAMETER_FOR_USER_PAYLOAD_OR_USER_HEADER, s, w)
  | success chunkSettings =>
      let requiredChunkSize := ChunkSettings.requiredChunkSize chunkSettings in
      match recyclable s w with
      | Some lastChunkChunkHeader =>
          let* hd := read_header lastChunkChunkHeader (heap w) in
          if requiredChunkSize <=? ChunkHeader.chunkSize hd
          then recycle lastChunkChunkHeader chunkSettings s w
          else allocate_new originId chunkSettings s w
      | None => allocate_new originId chunkSettings s w
      end
  end.

(** [m_chunksInUse.remove(chunkHeader, chunk)] with a null [chunk]. *)
Definition take_used (s : t) (chunkHeader : option handle) (w : World) : outcome (bool * SharedChunk.t * t * World) :=
  let* '(found, chunk, u, h) := UsedChunkList.remove (MAX_CHUNKS s) (m_chunksInUse s) chunkHeader None (heap w) in
  Done (found, chunk, set_used u s, set_heap h w).

Definition release (chunkHeader : option handle) (s : t) (w : World) : outcome (t * World) :=
  let* '(found, chunk, s, w) := take_used s chunkHeader w in
  let w := if found : bool then w else report_world POPO__CHUNK_SENDER_INVALID_CHUNK_TO_FREE_FROM_USER SEVERE w in
  let* w := drop chunk w in
  Done (s, w).

(** [m_sequenceNumber] is a [uint64_t]. *)
Definition getChunkReadyForSend (chunkHeader : option handle) (s : t) (w : World)
    : outcome (bool * SharedChunk.t * t * World) :=
  let* '(found, chunk, s, w) := take_used s chunkHeader w in
  if found : bool then
    let* p := header_pointer chunk w in
    let* w := write p (ChunkHeader.setSequenceNumber (m_sequenceNumber s)) w in
    Done (true, chunk, set_sequence (u64 (m_sequenceNumber s + 1)) s, w)
  else
    Done (false, chunk, s, report_world POPO__CHUNK_SENDER_INVALID_CHUNK_TO_SEND_FROM_USER SEVERE w).

(** [m_lastChunkUnmanaged.releaseToSharedChunk(); m_lastChunkUnmanaged = chunk;],
    then [chunk] goes out of scope. *)
Definition replace_last (chunk : SharedChunk.t) (s : t) (w : World) : outcome (t * World) :=
  let* w := drop (fst (ShmSafeUnmanagedChunk.releaseToSharedChunk (m_lastChunkUnmanaged s))) w in
  let* '(c, w) := copy chunk w in
  let* e := ShmSafeUnmanagedChunk.ctor c in
  let* w := drop chunk w in
  Done (set_last e s, w).

Definition send (rounds : list ChunkDistributor.interference) (chunkHeader : option handle) (s : t) (w : World)
    : outcome (Z * t * World) :=
  let* '(ready, chunk, s, w) := getChunkReadyForSend chunkHeader s w in
  if ready : bool then
    let* '(c, w) := copy chunk w in
    let* '(numberOfReceivers, d, w) := ChunkDistributor.deliverToAllStoredQueues rounds (dist s) c w in
    let* '(s, w) := replace_last chunk (set_dist d s) w in
    Done (numberOfReceivers, s, w)
  else let* w := drop chunk w in Done (0, s, w).

Definition sendToQueue (rounds : list ChunkDistributor.interference) (chunkHeader : option handle)
    (uniqueQueueId lastKnownQueueIndex : Z) (s : t) (w : World) : outcome (bool * t * World) :=
  let* '(ready, chunk, s, w) := getChunkReadyForSend chunkHeader s w in
  if ready : bool then
    let* '(c, w) := copy chunk w in
    let* '(deliveryResult, d, w) :=
      ChunkDistributor.deliverToQueue rounds (dist s) uniqueQueueId lastKnownQueueIndex c w in
    let* '(s, w) := replace_last chunk (set_dist d s) w in
    Done (negb (has_error deliveryResult), s, w)
  else let* w := drop chunk w in Done (false, s, w).

Definition pushToHistory (chunkHeader : option handle) (s : t) (w : World) : outcome (t * World) :=
  let* '(ready, chunk, s, w) := getChunkReadyForSend chunkHeader s w in
  if ready : bool then
    let* '(c, w) := copy chunk w in
    let* '(d, w) := ChunkDistributor.addToHistoryWithoutDelivery (dist s) c w in
    replace_last chunk (set_dist d s) w
  else let* w := drop chunk w in Done (s, w).

Definition tryGetPreviousChunk (s : t) (w : World) : option (option handle) :=
  if negb (ShmSafeUnmanagedChunk.isLogicalNullptr (m_lastChunkUnmanaged s))
  then Some (ShmSafeUnmanagedChunk.getChunkHeader (m_lastChunkUnmanaged s) (heap w)) else None.

Definition releaseAll (locked : bool) (s : t) (w : World) : outcome (t * World) :=
  let* '(u, h) := UsedChunkList.cleanup (MAX_CHUNKS s) (m_chunksInUse s) (heap w) in
  let s := set_used u s in
  let* '(d, w) := ChunkDistributor.cleanup locked (dist s) (set_heap h w) in
  let s := set_dist d s in
  let '(c, e) := ShmSafeUnmanagedChunk.releaseToSharedChunk (m_lastChunkUnmanaged s) in
  let* w := drop c w in
  Done (set_last e s, w).
End ChunkSender.

Inductive ChunkReceiveResult := TOO_MANY_CHUNKS_HELD_IN_PARALLEL | NO_CHUNK_AVAILABLE.

Module ChunkReceiver.

(** [ChunkReceiverData]: the queue is its base class, here its index. *)
Record t := mk {
  queue : nat;
  MAX_CHUNKS_IN_USE : Z;
  m_chunksInUse : UsedChunkList.t }.

Definition set_used (v : UsedChunkList.t) (r : t) : t := mk (queue r) (MAX_CHUNKS_IN_USE r) v.

(** [*popRet] is copied; the optional is destroyed at the end. *)
Definition tryGet (r : t) (w : World) : outcome (expected (option handle) ChunkReceiveResult * t * World) :=
  let* '(popRet, w) := ChunkQueuePopper.tryPop (queue r) w in
  match popRet with
  | Some popped =>
      let* '(sharedChunk, w) := copy popped w in
      let* '(c, w) := copy sharedChunk w in
      let* '(inserted, u, h) := UsedChunkList.insert (MAX_CHUNKS_IN_USE r) (m_chunksInUse r) c (heap w) in
      let r := set_used u r in
      let w := set_heap h w in
      let p := SharedChunk.getChunkHeader sharedChunk (heap w) in
      let* w := drop sharedChunk w in
      let* w := drop popped w in
      Done (if inserted : bool then success p else error TOO_MANY_CHUNKS_HELD_IN_PARALLEL, r, w)
  | None => Done (error NO_CHUNK_AVAILABLE, r, w)
  end.

Definition release (chunkHeader : option handle) (r : t) (w : World) : outcome (t * World) :=
  let* '(found, chunk, u, h) :=
    UsedChunkList.remove (MAX_CHUNKS_IN_USE r) (m_chunksInUse r) chunkHeader None (heap w) in
  let w := set_heap h w in
  let w := if found : bool then w
           else report_world POPO__CHUNK_RECEIVER_INVALID_CHUNK_TO_RELEASE_FROM_USER SEVERE w in
  let* w := drop chunk w in
  Done (set_used u r, w).

Definition releaseAll (r : t) (w : World) : outcome (t * World) :=
  let* '(u, h) := UsedChunkList.cleanup (MAX_CHUNKS_IN_USE r) (m_chunksInUse r) (heap w) in
  let* w := ChunkQueuePopper.clear (queue r) (set_heap h w) in
  Done (set_used u r, w).
End ChunkReceiver.

(** ** Invariants *)

Lemma heap_evolves w contents n h o :
  WorldInv w contents n -> Balanced h (owned contents ++ o) -> same_view (owned contents ++ o) (heap w) h ->
  errors h = errors (heap w) -> evolves w (set_heap h w) contents n o.
Proof. intros. constructor; try done; [by apply worldinv_heap|exact (same_queues_refl w)]. Qed.

Lemma evolves_length w w' c n o : evolves w w' c n o ->
  length (queues w') = length (queues w) /\ length (segs (heap w')) = length (segs (heap w)).
Proof. intros []. split; [symmetry; by eapply Forall2_length|apply ev_view]. Qed.

(** The used chunk list with its capacity. *)
Definition used_ok (cap : Z) (u : UsedChunkList.t) : Prop := exists ul fl, UsedChunkList.Rep cap u ul fl.

(** No entry is free. *)
Definition used_full (cap : Z) (u : UsedChunkList.t) : bool := UsedChunkList.m_freeListHead u =? cap.

Record SenderInv (s : ChunkSender.t) (hist : list handle) (w : World) : Prop := {
  si_dist : ChunkDistributor.DistInv (ChunkSender.dist s) hist w;
  si_used : used_ok (ChunkSender.MAX_CHUNKS s) (ChunkSender.m_chunksInUse s);
  si_seq : 0 <= ChunkSender.m_sequenceNumber s < 2 ^ 64;
  si_seg : (ChunkSender.m_memoryMgr s < length (segs (heap w)))%nat }.

(** What the user of the sender holds, the last chunk, and everything the
    sender owns. *)
Definition user_chunks (s : ChunkSender.t) : list handle := UsedChunkList.held (ChunkSender.m_chunksInUse s).
Definition last_chunk (s : ChunkSender.t) : list handle := shm_handles (ChunkSender.m_lastChunkUnmanaged s).
Definition sender_owned (s : ChunkSender.t) (hist : list handle) : list handle := hist ++ user_chunks s ++ last_chunk s.

Lemma insert_evolves cap u c w contents n o x :
  used_ok cap u -> c = Some x -> WorldInv w contents n ->
  Balanced (heap w) (owned contents ++ x :: UsedChunkList.held u ++ o) ->
  headroom (owned contents ++ x :: UsedChunkList.held u ++ o) 1 ->
  exists b u' h', UsedChunkList.insert cap u c (heap w) = Done (b, u', h') /\ used_ok cap u' /\
    evolves w (set_heap h' w) contents n (UsedChunkList.held u' ++ o) /\
    UsedChunkList.held u' ≡ₚ (if b then [x] else []) ++ UsedChunkList.held u /\ b = negb (used_full cap u).
Proof.
  intros (ul & fl & HR) -> HW Hb Hh.
  assert (Hfull : used_full cap u = match fl with [] => true | _ => false end).
  { unfold used_full. pose proof (UsedChunkList.rep_free _ _ _ _ HR) as Hc. inversion Hc; [by apply Z.eqb_eq|].
    apply Z.eqb_neq. lia. }
  assert (Hb' : Balanced (heap w) (handles (Some x) ++ UsedChunkList.held u ++ owned contents ++ o)).
  { eapply Balanced_proper; [|exact Hb]. simpl. solve_Permutation. }
  destruct fl as [|i fl].
  - destruct (UsedChunkList.insert_full cap u ul (heap w) (UsedChunkList.held u ++ owned contents ++ o) (Some x) HR Hb')
      as (h' & -> & Hb2 & V & E). exists false, u, h'. split; [done|]. split; [by exists ul, []|]. split; [|by rewrite Hfull].
    apply heap_evolves; try done.
    + eapply Balanced_proper; [|exact Hb2]. solve_Permutation.
    + eapply same_view_subset; [|exact V]. intros y. rewrite !elem_of_app. tauto.
  - destruct (UsedChunkList.insert_ok cap u ul i fl (heap w) (owned contents ++ o) (Some x) HR Hb')
      as (u' & h' & -> & HR' & Hu & Hb2 & V & E).
    { unfold headroom in *. simpl in *. rewrite !length_app in *. simpl in *. rewrite !length_app in *. lia. }
    exists true, u', h'. split; [done|]. split; [by exists (i :: ul), fl|]. split; [|by rewrite Hfull].
    apply heap_evolves; try done.
    + eapply Balanced_proper; [|exact Hb2]. solve_Permutation.
    + eapply same_view_subset; [|exact V]. simpl. intros y. rewrite Hu. simpl.
      rewrite !elem_of_app, !elem_of_cons, !elem_of_app. tauto.
Qed.

Lemma remove_evolves cap u p w contents n o :
  used_ok cap u -> WorldInv w contents n ->
  Balanced (heap w) (owned contents ++ UsedChunkList.held u ++ o) ->
  exists b c u' h', UsedChunkList.remove cap u p None (heap w) = Done (b, c, u', h') /\ used_ok cap u' /\
    evolves w (set_heap h' w) contents n (handles c ++ UsedChunkList.held u' ++ o) /\
    UsedChunkList.held u ≡ₚ handles c ++ UsedChunkList.held u' /\
    if b then exists x, c = Some x /\ x ∈ UsedChunkList.held u /\ SharedChunk.getChunkHeader (Some x) (heap w) = p
    else c = None /\ u' = u /\ forall x, x ∈ UsedChunkList.held u -> SharedChunk.getChunkHeader (Some x) (heap w) <> p.
Proof.
  intros (ul & fl & HR) HW Hb.
  destruct (UsedChunkList.remove_ok cap u ul fl (heap w) (owned contents ++ o) p None HR) as ([[[b c] u'] h'] & -> & Hr).
  { eapply Balanced_proper; [|exact Hb]. simpl. solve_Permutation. }
  destruct b.
  - destruct Hr as (x & ul' & fl' & -> & [Hx Hp] & Hu & HR' & _ & Hb' & V & E).
    exists true, (Some x), u', h'. split; [done|]. split; [by exists ul', fl'|]. split; [|split; [exact Hu|by exists x]].
    apply heap_evolves; try done.
    + eapply Balanced_proper; [|exact Hb']. simpl. solve_Permutation.
    + eapply same_view_subset; [|exact V]. intros y. rewrite Hu. simpl.
      rewrite !elem_of_app, !elem_of_cons, !elem_of_app. tauto.
  - destruct Hr as (-> & -> & -> & Hno). exists false, None, u, (heap w). split; [done|]. split; [by exists ul, fl|].
    split; [|split; [done|split; [done|split; [done|]]]].
    + by apply heap_evolves.
    + intros x Hx E. by apply (Hno x).
Qed.

Lemma cleanup_evolves cap u w contents n o :
  used_ok cap u -> WorldInv w contents n -> Balanced (heap w) (owned contents ++ UsedChunkList.held u ++ o) ->
  exists u' h', UsedChunkList.cleanup cap u (heap w) = Done (u', h') /\ used_ok cap u' /\ UsedChunkList.held u' = [] /\
    evolves w (set_heap h' w) contents n o.
Proof.
  intros (ul & fl & HR) HW Hb.
  destruct (UsedChunkList.cleanup_ok cap u ul fl (heap w) (owned contents ++ o) HR) as (u' & h' & -> & HR' & Hu & Hb' & V & E).
  { eapply Balanced_proper; [|exact Hb]. solve_Permutation. }
  exists u', h'. split; [done|]. split; [by eexists _, _|]. split; [done|]. by apply heap_evolves.
Qed.

(** [changes x w w' contents n o]: like [evolves], but the header of [x] is
    rewritten. *)
Record changes (x : handle) (w w' : World) (contents : list (list handle)) (n : Z) (o : list handle) : Prop := {
  ch_inv : WorldInv w' contents n;
  ch_bal : Balanced (heap w') (owned contents ++ o);
  ch_segs : length (segs (heap w')) = length (segs (heap w));
  ch_view : forall y, y ∈ owned contents ++ o -> y <> x -> chunk_view (heap w') y = chunk_view (heap w) y;
  ch_errors : errors (heap w') = errors (heap w);
  ch_queues : same_queues w w' }.

Lemma evolves_changes x w w' c n o : evolves w w' c n o -> changes x w w' c n o.
Proof. intros []. constructor; try done; [apply ev_view|]. intros y Hy _. by apply ev_view. Qed.

Lemma changes_trans x w1 w2 w3 c2 c3 n2 n3 o2 o3 :
  changes x w1 w2 c2 n2 o2 -> changes x w2 w3 c3 n3 o3 -> owned c3 ++ o3 ⊆ owned c2 ++ o2 -> changes x w1 w3 c3 n3 o3.
Proof.
  intros [] [] Hs. constructor; try done; [congruence| |congruence|by transitivity w2].
  intros y Hy Hne. rewrite ch_view1 by done. apply ch_view0; [by apply Hs|done].
Qed.

Lemma changes_perm x w w' c n o o' : o ≡ₚ o' -> changes x w w' c n o -> changes x w w' c n o'.
Proof. intros E []. constructor; try done; [by rewrite <- E|]. intros y. rewrite <- E. apply ch_view0. Qed.

Lemma write_changes w contents n o x a hd f :
  WorldInv w contents n -> Balanced (heap w) (owned contents ++ o) -> x ∈ o -> chunk_view (heap w) x = Some (a, hd) ->
  same_chunk hd (f hd) ->
  exists w', ChunkSender.write (fst x, a) f w = Done w' /\ changes x w w' contents n o /\
    chunk_view (heap w') x = Some (a, f hd) /\ queues w' = queues w.
Proof.
  intros HW Hb Hx Hv Hs. unfold ChunkSender.write.
  destruct (write_header_ok (heap w) _ x a hd f Hb) as (h & -> & Hb' & Hv' & L & E & V); [apply elem_of_app; by right|done|done|].
  simpl. eexists. split; [done|]. split; [|done].
  constructor; try done; [by apply worldinv_heap|exact (same_queues_refl w)].
Qed.

Lemma construct_changes w contents n o x a hd settings :
  WorldInv w contents n -> Balanced (heap w) (owned contents ++ o) -> x ∈ o -> chunk_view (heap w) x = Some (a, hd) ->
  ChunkSettings.valid settings -> ChunkSettings.requiredChunkSize settings <= ChunkHeader.chunkSize hd ->
  exists h' hd', construct_header (fst x, a) (ChunkHeader.chunkSize hd) settings (heap w) = Done h' /\
    changes x w (set_heap h' w) contents n o /\ chunk_view h' x = Some (a, hd') /\ fresh_header settings a hd'.
Proof.
  intros HW Hb Hx Hv Hs Hr.
  destruct (construct_header_ok (heap w) _ x a hd settings Hb) as (h & hd' & -> & Hb' & Hv' & Hf & L & E & V);
    [apply elem_of_app; by right|done|done|done|].
  exists h, hd'. split; [done|]. split; [|done].
  constructor; try done; [by apply worldinv_heap|exact (same_queues_refl w)].
Qed.

(** ** Allocation *)

Section sender.
Import ChunkSender.

(** What a successful allocation gives: a chunk with a fresh header that
    nobody but the user (and the sender's memory of its last chunk) refers to. *)
Definition allocated (settings : ChunkSettings.t) (origin : Z) (s s' : t) (hist : list handle) (w w' : World)
    (contents : list (list handle)) (n : Z) (o : list handle) (p : handle) : Prop :=
  exists x a hd, p = (fst x, a) /\ user_chunks s' ≡ₚ x :: user_chunks s /\
    chunk_view (heap w') x = Some (a, hd) /\ ChunkHeader.originId hd = origin /\ ChunkHeader.sequenceNumber hd = 0 /\
    fits settings a hd /\
    x ∉ owned contents ++ hist ++ user_chunks s ++ o /\
    changes x w w' contents n (sender_owned s' hist ++ o).

(** The outcome of an allocation that fails: nothing changes hands. *)
Definition unchanged (s s' : t) (hist : list handle) (w w' : World) (contents : list (list handle)) (n : Z)
    (o : list handle) : Prop :=
  WorldInv w' contents n /\ user_chunks s' ≡ₚ user_chunks s /\
  Balanced (heap w') (owned contents ++ sender_owned s' hist ++ o) /\
  same_view (owned contents ++ sender_owned s' hist ++ o) (heap w) (heap w') /\ same_queues w w'.

(** The state of the sender besides the used chunk list. *)
Definition same_sender (s s' : t) : Prop :=
  dist s' = dist s /\ m_memoryMgr s' = m_memoryMgr s /\ MAX_CHUNKS s' = MAX_CHUNKS s /\
  m_sequenceNumber s' = m_sequenceNumber s /\ m_lastChunkUnmanaged s' = m_lastChunkUnmanaged s.

Lemma senderinv_same s s' hist w w' : SenderInv s hist w -> same_sender s s' ->
  used_ok (MAX_CHUNKS s') (m_chunksInUse s') -> length (queues w') = length (queues w) ->
  length (segs (heap w')) = length (segs (heap w)) -> SenderInv s' hist w'.
Proof.
  intros [] (E1 & E2 & E3 & E4 & E5) Hu Hq Hs. constructor; [|done|by rewrite E4|by rewrite E2, Hs].
  rewrite E1. by apply (ChunkDistributor.distinv_world _ _ w).
Qed.

Lemma insert_copy_ok s w contents n o x :
  used_ok (MAX_CHUNKS s) (m_chunksInUse s) -> WorldInv w contents n ->
  Balanced (heap w) (owned contents ++ x :: user_chunks s ++ o) ->
  headroom (owned contents ++ x :: user_chunks s ++ o) 2 ->
  exists b s' w', insert_copy s (Some x) w = Done (b, s', w') /\ same_sender s s' /\
    used_ok (MAX_CHUNKS s') (m_chunksInUse s') /\
    evolves w w' contents n (x :: user_chunks s' ++ o) /\
    user_chunks s' ≡ₚ (if b then [x] else []) ++ user_chunks s /\
    b = negb (used_full (MAX_CHUNKS s) (m_chunksInUse s)).
Proof.
  intros Hu HW Hb Hh. unfold insert_copy.
  destruct (copy_evolves w contents n x (user_chunks s ++ o) HW) as (w1 & -> & E1 & _).
  { eapply Balanced_proper; [|exact Hb]. solve_Permutation. }
  { unfold headroom in *. simpl in *. rewrite !length_app in *. simpl in *. rewrite !length_app in *. lia. }
  cbn [obind].
  destruct (insert_evolves (MAX_CHUNKS s) (m_chunksInUse s) (Some x) w1 contents n (x :: o) x Hu eq_refl (ev_inv _ _ _ _ _ E1))
    as (b & u' & h' & -> & Hu' & E2 & Hheld & Hfull).
  { eapply Balanced_proper; [|apply E1]. unfold user_chunks. solve_Permutation. }
  { unfold headroom, user_chunks in *. rewrite !length_app in *. simpl in *. rewrite !length_app in *. simpl. lia. }
  cbn [obind]. eexists b, _, _. split; [done|]. split; [done|]. split; [exact Hu'|]. split; [|by split].
  unfold user_chunks in *. simpl. eapply evolves_perm with (o := UsedChunkList.held u' ++ x :: o); [solve_Permutation|].
  eapply evolves_trans; [exact E1|exact E2|]. intros y. rewrite !elem_of_app, Hheld, !elem_of_cons, !elem_of_app.
  destruct b; simpl; rewrite ?elem_of_nil, ?list_elem_of_singleton; tauto.
Qed.

Lemma allocate_new_ok originId settings s hist w contents n o :
  SenderInv s hist w -> WorldInv w contents n -> ChunkSettings.valid settings ->
  Balanced (heap w) (owned contents ++ sender_owned s hist ++ o) ->
  headroom (owned contents ++ sender_owned s hist ++ o) 4 ->
  exists r s' w', allocate_new originId settings s w = Done (r, s', w') /\ SenderInv s' hist w' /\ same_sender s s' /\
    match r with
    | success p => allocated settings originId s s' hist w w' contents n o p
    | error _ => unchanged s s' hist w w' contents n o
    end.
Proof.
  intros HS HW Hv Hb Hh. pose proof HS as []. unfold allocate_new.
  destruct (getChunk_ok (heap w) _ (m_memoryMgr s) settings Hb) as (r & h1 & -> & V1 & Hr); [done|done|]. cbn [obind].
  destruct r as [c|e].
  2:{ eexists _, _, _. split; [done|]. split; [|split; [done|]].
      - eapply senderinv_same; try done. apply V1.
      - split; [by apply worldinv_heap|]. split; [done|]. split; [done|]. split; [done|exact (same_queues_refl w)]. }
  destruct Hr as (x & hd & a & -> & Hx & Hb1 & Hview & Hf & Er1).
  set (w1 := set_heap h1 w).
  destruct (insert_copy_ok s w1 contents n (hist ++ last_chunk s ++ o) x) as (b & s2 & w2 & -> & Hs2 & Hu2 & E2 & Hc2 & _).
  { done. } { by apply worldinv_heap. }
  { eapply Balanced_proper; [|exact Hb1]. unfold sender_owned. solve_Permutation. }
  { unfold headroom, sender_owned in *. repeat (rewrite !length_app in *; simpl in * ). lia. }
  cbn [obind].
  assert (Hl2 : last_chunk s2 = last_chunk s) by (unfold last_chunk; by destruct Hs2 as (_ & _ & _ & _ & ->)).
  destruct (evolves_length _ _ _ _ _ E2) as [Lq2 Ls2]. simpl in Lq2, Ls2. pose proof (proj1 V1) as Ls1.
  assert (Hsub : forall y, y ∈ owned contents ++ user_chunks s ++ hist ++ last_chunk s ++ o ->
    y ∈ owned contents ++ sender_owned s hist ++ o).
  { intros y. unfold sender_owned. rewrite !elem_of_app. tauto. }
  destruct b.
  - assert (Hview2 : chunk_view (heap w2) x = Some (a, hd)).
    { rewrite (proj2 (ev_view _ _ _ _ _ E2)); [done|]. apply elem_of_app. right. by left. }
    unfold header_pointer. rewrite (getChunkHeader_view _ _ _ _ Hview2). cbn [obind].
    destruct (write_changes w2 contents n (x :: user_chunks s2 ++ hist ++ last_chunk s ++ o) x a hd
      (ChunkHeader.setOriginId originId) (ev_inv _ _ _ _ _ E2) (ev_bal _ _ _ _ _ E2)) as (w3 & -> & C3 & Hview3 & _);
      [by left|done|done|]. cbn [obind].
    destruct (drop_evolves w3 contents n x (user_chunks s2 ++ hist ++ last_chunk s ++ o) (ch_inv _ _ _ _ _ _ C3))
      as (w4 & -> & E4 & _); [eapply Balanced_proper; [|apply C3]; solve_Permutation|]. cbn [obind].
    destruct (evolves_length _ _ _ _ _ E4) as [Lq4 Ls4]. pose proof (Forall2_length _ _ _ (ch_queues _ _ _ _ _ _ C3)) as Lq3.
    pose proof (ch_segs _ _ _ _ _ _ C3) as Ls3.
    eexists _, _, _. split; [done|]. split; [|split; [done|]].
    { eapply senderinv_same; try done; congruence. }
    exists x, a, (ChunkHeader.setOriginId originId hd). simpl in Hc2.
    split; [done|]. split; [done|]. split.
    { rewrite (proj2 (ev_view _ _ _ _ _ E4)); [done|]. rewrite !elem_of_app, Hc2. right. left. by left. }
    split; [done|]. split; [apply Hf|]. split; [apply Hf|]. split.
    { intros Hin. apply Hx, Hsub. rewrite !elem_of_app in *. tauto. }
    eapply changes_perm with (o := user_chunks s2 ++ hist ++ last_chunk s ++ o).
    { unfold sender_owned. rewrite Hl2. solve_Permutation. }
    constructor; try apply E4.
    + congruence.
    + intros y Hy Hne. rewrite (proj2 (ev_view _ _ _ _ _ E4)) by done.
      assert (Hy2 : y ∈ owned contents ++ x :: user_chunks s2 ++ hist ++ last_chunk s ++ o)
        by (rewrite !elem_of_app, elem_of_cons, !elem_of_app in *; tauto).
      rewrite (ch_view _ _ _ _ _ _ C3) by done. rewrite (proj2 (ev_view _ _ _ _ _ E2)) by done.
      apply V1, Hsub. rewrite !elem_of_app, Hc2, elem_of_cons in Hy. rewrite !elem_of_app. tauto.
    + rewrite (ev_errors _ _ _ _ _ E4), (ch_errors _ _ _ _ _ _ C3), (ev_errors _ _ _ _ _ E2). done.
    + transitivity w3; [|apply E4]. transitivity w2; [apply E2|apply C3].
  - simpl in Hc2.
    destruct (drop_evolves w2 contents n x (user_chunks s2 ++ hist ++ last_chunk s ++ o) (ev_inv _ _ _ _ _ E2))
      as (w4 & -> & E4 & _); [eapply Balanced_proper; [|apply E2]; solve_Permutation|]. cbn [obind].
    destruct (evolves_length _ _ _ _ _ E4) as [Lq4 Ls4].
    eexists _, _, _. split; [done|]. split; [|split; [done|]].
    { eapply senderinv_same; try done; congruence. }
    split; [apply E4|]. split; [done|].
    assert (P : owned contents ++ sender_owned s2 hist ++ o ≡ₚ owned contents ++ user_chunks s2 ++ hist ++ last_chunk s ++ o).
    { unfold sender_owned. rewrite Hl2. solve_Permutation. }
    split; [rewrite P; apply E4|]. split; [|transitivity w2; [apply E2|apply E4]].
    split; [congruence|]. intros y Hy. rewrite P in Hy. rewrite (proj2 (ev_view _ _ _ _ _ E4)) by done.
    rewrite (proj2 (ev_view _ _ _ _ _ E2)) by (rewrite !elem_of_app, elem_of_cons, !elem_of_app in *; tauto).
    apply V1, Hsub. by rewrite <- Hc2.
Qed.

Lemma recycle_ok settings s hist w contents n o x a hd :
  SenderInv s hist w -> WorldInv w contents n -> ChunkSettings.valid settings ->
  Balanced (heap w) (owned contents ++ sender_owned s hist ++ o) ->
  headroom (owned contents ++ sender_owned s hist ++ o) 4 ->
  last_chunk s = [x] -> x ∉ owned contents ++ hist ++ user_chunks s ++ o ->
  chunk_view (heap w) x = Some (a, hd) -> ChunkSettings.requiredChunkSize settings <= ChunkHeader.chunkSize hd ->
  exists r s' w', recycle (fst x, a) settings s w = Done (r, s', w') /\ SenderInv s' hist w' /\ same_sender s s' /\
    match r with
    | success p => allocated settings ChunkHeader.INVALID_UNIQUE_ID s s' hist w w' contents n o p
    | error _ => unchanged s s' hist w w' contents n o /\ used_full (MAX_CHUNKS s) (m_chunksInUse s) = true
    end.
Proof.
  intros HS HW Hset Hb Hh Hlast Hx Hview Hreq. pose proof HS as []. unfold recycle.
  assert (P : owned contents ++ sender_owned s hist ++ o ≡ₚ owned contents ++ user_chunks s ++ hist ++ x :: o).
  { unfold sender_owned. rewrite Hlast. solve_Permutation. }
  unfold headroom in Hh. rewrite P in Hb, Hh.
  destruct (clone_ok (heap w) _ (m_lastChunkUnmanaged s) Hb) as (c & h1 & -> & Hc & Hb1 & V1 & Er1).
  { change (shm_handles (m_lastChunkUnmanaged s)) with (last_chunk s). rewrite Hlast.
    intros y ->%list_elem_of_singleton. rewrite !elem_of_app, elem_of_cons. tauto. }
  { unfold headroom. lia. }
  change (shm_handles (m_lastChunkUnmanaged s)) with (last_chunk s) in Hc. rewrite Hlast in Hc.
  destruct c as [x'|]; [|done]. injection Hc as ->. cbn [obind].
  set (w1 := set_heap h1 w).
  assert (E1 : evolves w w1 contents n (x :: user_chunks s ++ hist ++ x :: o)).
  { apply heap_evolves; [done| | |done].
    - eapply Balanced_proper; [|exact Hb1]. solve_Permutation.
    - eapply same_view_subset; [|exact V1]. intros y. rewrite !elem_of_app, !elem_of_cons, !elem_of_app, !elem_of_cons. tauto. }
  destruct (insert_copy_ok s w1 contents n (hist ++ x :: o) x) as (b & s2 & w2 & -> & Hs2 & Hu2 & E2 & Hc2 & Hfull).
  { done. } { apply E1. } { apply E1. }
  { unfold headroom. repeat (rewrite !length_app in *; simpl in * ). lia. }
  cbn [obind].
  assert (Hl2 : last_chunk s2 = [x]) by (rewrite <- Hlast; unfold last_chunk; by destruct Hs2 as (_ & _ & _ & _ & ->)).
  assert (P2 : sender_owned s2 hist ++ o ≡ₚ user_chunks s2 ++ hist ++ x :: o).
  { unfold sender_owned. rewrite Hl2. solve_Permutation. }
  assert (E12 : evolves w w2 contents n (x :: user_chunks s2 ++ hist ++ x :: o)).
  { eapply evolves_trans; [exact E1|exact E2|]. intros y. rewrite !elem_of_app, !elem_of_cons, !elem_of_app, Hc2.
    rewrite !elem_of_app. destruct b; rewrite ?elem_of_nil, ?list_elem_of_singleton; tauto. }
  clear E1 E2 Hb1 V1 Er1. destruct (evolves_length _ _ _ _ _ E12) as [Lq2 Ls2]. destruct b; simpl in Hc2.
  - assert (Hview2 : chunk_view (heap w2) x = Some (a, hd)).
    { rewrite (proj2 (ev_view _ _ _ _ _ E12)); [done|]. apply elem_of_app. right. by left. }
    rewrite (read_header_ok _ _ _ _ Hview2). cbn [obind].
    destruct (construct_changes w2 contents n (x :: user_chunks s2 ++ hist ++ x :: o) x a hd settings
      (ev_inv _ _ _ _ _ E12) (ev_bal _ _ _ _ _ E12)) as (h3 & hd' & -> & C3 & Hview3 & Hf); [by left|done|done|done|].
    cbn [obind].
    destruct (drop_evolves (set_heap h3 w2) contents n x (user_chunks s2 ++ hist ++ x :: o) (ch_inv _ _ _ _ _ _ C3))
      as (w4 & -> & E4 & _); [eapply Balanced_proper; [|apply C3]; solve_Permutation|]. cbn [obind].
    assert (C : changes x w w4 contents n (user_chunks s2 ++ hist ++ x :: o)).
    { eapply changes_trans; [apply evolves_changes, E12| |].
      - eapply changes_trans; [exact C3|apply evolves_changes, E4|]. set_solver.
      - set_solver. }
    eexists _, _, _. split; [done|]. split; [|split; [done|]].
    { eapply senderinv_same; try done; [|apply C]. symmetry. eapply Forall2_length, C. }
    exists x, a, hd'. split; [done|]. split; [done|]. split.
    { rewrite (proj2 (ev_view _ _ _ _ _ E4)); [done|]. rewrite !elem_of_app, Hc2. right. left. by left. }
    destruct Hf as (Ho & Hsq & _ & Hsz). split; [done|]. split; [done|]. split; [done|]. split; [done|].
    eapply changes_perm; [|exact C]. by symmetry.
  - destruct (drop_evolves w2 contents n x (user_chunks s2 ++ hist ++ x :: o) (ev_inv _ _ _ _ _ E12))
      as (w4 & -> & E4 & _); [eapply Balanced_proper; [|apply E12]; solve_Permutation|]. cbn [obind].
    assert (E : evolves w w4 contents n (user_chunks s2 ++ hist ++ x :: o)).
    { eapply evolves_trans; [exact E12|exact E4|]. set_solver. }
    apply (evolves_perm _ _ _ _ _ _ (symmetry P2)) in E. destruct (evolves_length _ _ _ _ _ E).
    eexists _, _, _. split; [done|]. split; [by eapply senderinv_same|]. split; [done|].
    split; [by destruct E|]. by destruct (used_full _ _).
Qed.

(** The last chunk can be used again. *)
Definition reuses (settings : ChunkSettings.t) (s : t) (hist : list handle) (w : World)
    (contents : list (list handle)) (o : list handle) : Prop :=
  exists x a hd, last_chunk s = [x] /\ x ∉ owned contents ++ hist ++ user_chunks s ++ o /\
    chunk_view (heap w) x = Some (a, hd) /\ ChunkSettings.requiredChunkSize settings <= ChunkHeader.chunkSize hd.

Lemma recyclable_cases s hist w contents o :
  Balanced (heap w) (owned contents ++ sender_owned s hist ++ o) ->
  match recyclable s w with
  | Some p => exists x a hd, p = (fst x, a) /\ last_chunk s = [x] /\
                x ∉ owned contents ++ hist ++ user_chunks s ++ o /\ chunk_view (heap w) x = Some (a, hd)
  | None => forall x, last_chunk s = [x] -> x ∈ owned contents ++ hist ++ user_chunks s ++ o
  end.
Proof.
  intros Hb. unfold recyclable. destruct (last_chunk s) as [|x l] eqn:Hl.
  { unfold last_chunk, shm_handles, ShmSafeUnmanagedChunk.isNotLogicalNullptrAndHasNoOtherOwners in *.
    by destruct (ShmSafeUnmanagedChunk.isLogicalNullptr (m_lastChunkUnmanaged s)). }
  assert (l = []) as ->.
  { unfold last_chunk, shm_handles in Hl. destruct (ShmSafeUnmanagedChunk.isLogicalNullptr _); by simplify_eq. }
  assert (Hb' : Balanced (heap w) (x :: owned contents ++ hist ++ user_chunks s ++ o)).
  { eapply Balanced_proper; [|exact Hb]. unfold sender_owned. rewrite Hl. solve_Permutation. }
  rewrite (sole_owner _ _ _ _ Hb' Hl). case_bool_decide as Hx.
  - destruct (chunk_view_owned _ _ x Hb') as [[a hd] Hv]; [by left|].
    assert (E : ShmSafeUnmanagedChunk.getChunkHeader (m_lastChunkUnmanaged s) (heap w)
      = SharedChunk.getChunkHeader (Some x) (heap w)).
    { unfold last_chunk, shm_handles, ShmSafeUnmanagedChunk.getChunkHeader in *.
      destruct (ShmSafeUnmanagedChunk.isLogicalNullptr (m_lastChunkUnmanaged s)); [done|].
      injection Hl as Hl. by rewrite Hl. }
    rewrite E, (getChunkHeader_view _ _ _ _ Hv). by exists x, a, hd.
  - by intros y [= <-].
Qed.

Lemma tryAllocate_ok originId ps pa hs ha s hist w contents n o :
  SenderInv s hist w -> WorldInv w contents n ->
  Balanced (heap w) (owned contents ++ sender_owned s hist ++ o) ->
  headroom (owned contents ++ sender_owned s hist ++ o) 4 ->
  0 <= ps < 2 ^ 32 -> 0 <= pa < 2 ^ 32 -> 0 <= hs < 2 ^ 32 -> 0 <= ha < 2 ^ 32 ->
  exists r s' w', tryAllocate originId ps pa hs ha s w = Done (r, s', w') /\ SenderInv s' hist w' /\ same_sender s s' /\
    match r with
    | success p => exists settings, ChunkSettings.create ps pa hs ha = success settings /\
        exists origin, allocated settings origin s s' hist w w' contents n o p /\
          (reuses settings s hist w contents o -> origin = ChunkHeader.INVALID_UNIQUE_ID) /\
          (~ reuses settings s hist w contents o -> origin = originId)
    | error _ => unchanged s s' hist w w' contents n o
    end.
Proof.
  intros HS HW Hb Hh H1 H2 H3 H4. unfold tryAllocate.
  destruct (ChunkSettings.create ps pa hs ha) as [settings|e] eqn:Ec.
  2:{ eexists _, _, _. split; [done|]. split; [done|]. split; [done|]. by split_and!. }
  pose proof (ChunkSettings.create_valid _ _ _ _ _ H1 H2 H3 H4 Ec) as Hset.
  assert (Hnew : ~ reuses settings s hist w contents o ->
    exists r s' w', allocate_new originId settings s w = Done (r, s', w') /\ SenderInv s' hist w' /\ same_sender s s' /\
    match r with
    | success p => exists settings0, @success ChunkSettings.t ChunkSettings.Error settings = success settings0 /\
        exists origin, allocated settings0 origin s s' hist w w' contents n o p /\
          (reuses settings0 s hist w contents o -> origin = ChunkHeader.INVALID_UNIQUE_ID) /\
          (~ reuses settings0 s hist w contents o -> origin = originId)
    | error _ => unchanged s s' hist w w' contents n o
    end).
  { intros Hno. destruct (allocate_new_ok originId settings s hist w contents n o HS HW Hset Hb Hh)
      as (r & s' & w' & -> & HS' & Hs' & Hr). eexists _, _, _. split; [done|]. split; [done|]. split; [done|].
    destruct r as [p|]; [|done]. exists settings. split; [done|]. by exists originId. }
  pose proof (recyclable_cases s hist w contents o Hb) as Hrec. destruct (recyclable s w) as [p|].
  - destruct Hrec as (x & a & hd & -> & Hl & Hx & Hv). rewrite (read_header_ok _ _ _ _ Hv). cbn [obind].
    destruct (Z.leb_spec (ChunkSettings.requiredChunkSize settings) (ChunkHeader.chunkSize hd)) as [Hle|Hgt].
    + destruct (recycle_ok settings s hist w contents n o x a hd HS HW Hset Hb Hh Hl Hx Hv Hle)
        as (r & s' & w' & -> & HS' & Hs' & Hr). eexists _, _, _. split; [done|]. split; [done|]. split; [done|].
      destruct r as [p|]; [|apply Hr]. exists settings. split; [done|]. exists ChunkHeader.INVALID_UNIQUE_ID.
      split; [done|]. split; [done|]. intros Hno. destruct Hno. by exists x, a, hd.
    + apply Hnew. intros (x' & a' & hd' & Hl' & _ & Hv' & Hle). rewrite Hl in Hl'. injection Hl' as <-.
      rewrite Hv in Hv'. injection Hv' as <- <-. lia.
  - apply Hnew. intros (x' & a' & hd' & Hl' & Hx' & _). by apply Hx', Hrec.
Qed.

(** ** Sending *)

Lemma take_used_ok p s hist w contents n o :
  SenderInv s hist w -> WorldInv w contents n ->
  Balanced (heap w) (owned contents ++ sender_owned s hist ++ o) ->
  exists b c s' w', take_used s p w = Done (b, c, s', w') /\ SenderInv s' hist w' /\ same_sender s s' /\
    user_chunks s ≡ₚ handles c ++ user_chunks s' /\
    evolves w w' contents n (handles c ++ sender_owned s' hist ++ o) /\ queues w' = queues w /\
    if b then exists x, c = Some x /\ x ∈ user_chunks s /\ SharedChunk.getChunkHeader (Some x) (heap w) = p
    else c = None /\ forall x, x ∈ user_chunks s -> SharedChunk.getChunkHeader (Some x) (heap w) <> p.
Proof.
  intros HS HW Hb. pose proof HS as []. unfold take_used.
  destruct (remove_evolves (MAX_CHUNKS s) (m_chunksInUse s) p w contents n (hist ++ last_chunk s ++ o) si_used0 HW)
    as (b & c & u' & h' & -> & Hu & E & Hh & Hr).
  { eapply Balanced_proper; [|exact Hb]. unfold sender_owned, user_chunks. solve_Permutation. }
  cbn [obind]. destruct (evolves_length _ _ _ _ _ E). eexists b, c, _, _. split; [done|].
  split; [by eapply senderinv_same|]. split; [done|]. split; [done|]. split.
  - eapply evolves_perm; [|exact E]. unfold sender_owned, user_chunks, last_chunk. simpl. solve_Permutation.
  - split; [done|]. destruct b; [done|]. by destruct Hr as (? & _ & ?).
Qed.

(** [p] is the header of a chunk the user holds: there is only one. *)
Lemma user_chunk_unique s hist w contents o x y :
  Balanced (heap w) (owned contents ++ sender_owned s hist ++ o) ->
  x ∈ user_chunks s -> y ∈ user_chunks s ->
  SharedChunk.getChunkHeader (Some x) (heap w) = SharedChunk.getChunkHeader (Some y) (heap w) -> x = y.
Proof. intros Hb Hx Hy. apply (header_inj _ _ _ _ Hb); unfold sender_owned; set_solver. Qed.

Lemma getChunkReadyForSend_ok s hist w contents n o x a hd :
  SenderInv s hist w -> WorldInv w contents n ->
  Balanced (heap w) (owned contents ++ sender_owned s hist ++ o) ->
  x ∈ user_chunks s -> chunk_view (heap w) x = Some (a, hd) ->
  exists s' w', getChunkReadyForSend (Some (fst x, a)) s w = Done (true, Some x, s', w') /\
    dist s' = dist s /\ m_lastChunkUnmanaged s' = m_lastChunkUnmanaged s /\
    m_sequenceNumber s' = u64 (m_sequenceNumber s + 1) /\ SenderInv s' hist w' /\
    user_chunks s ≡ₚ x :: user_chunks s' /\ changes x w w' contents n (x :: sender_owned s' hist ++ o) /\
    chunk_view (heap w') x = Some (a, ChunkHeader.setSequenceNumber (m_sequenceNumber s) hd) /\
    queues w' = queues w.
Proof.
  intros HS HW Hb Hx Hv. unfold getChunkReadyForSend.
  destruct (take_used_ok (Some (fst x, a)) s hist w contents n o HS HW Hb) as (b & c & s1 & w1 & -> & HS1 & Hs1 & Hu1 & E1 & Eq1 & Hr).
  cbn [obind]. pose proof (getChunkHeader_view _ _ _ _ Hv) as Hg.
  destruct b; [|exfalso; by apply (proj2 Hr x)]. destruct Hr as (y & -> & Hy & Hyp).
  assert (y = x) as -> by (eapply user_chunk_unique; [done|done|done|congruence]).
  assert (Hv1 : chunk_view (heap w1) x = Some (a, hd)).
  { rewrite (proj2 (ev_view _ _ _ _ _ E1)); [done|]. simpl. set_solver. }
  unfold header_pointer. rewrite (getChunkHeader_view _ _ _ _ Hv1). cbn [obind]. simpl in Hu1, E1.
  destruct Hs1 as (D1 & D2 & D3 & D4 & D5). rewrite D4.
  destruct (write_changes w1 contents n (x :: sender_owned s1 hist ++ o) x a hd
    (ChunkHeader.setSequenceNumber (m_sequenceNumber s)) (ev_inv _ _ _ _ _ E1) (ev_bal _ _ _ _ _ E1)) as (w2 & -> & C2 & Hv2 & Eq2);
    [by left|done|done|]. cbn [obind].
  eexists _, _. split; [done|]. simpl. split; [done|]. split; [done|]. split; [done|].
  assert (C : changes x w w2 contents n (x :: sender_owned s1 hist ++ o)).
  { eapply changes_trans; [apply evolves_changes, E1|exact C2|done]. }
  split; [|split; [done|split; [exact C|split; [exact Hv2|congruence]]]].
  destruct HS1. constructor; simpl; try done.
  - apply (ChunkDistributor.distinv_world _ _ w1); [|done]. symmetry. eapply Forall2_length, C2.
  - apply u64_range.
  - by rewrite (ch_segs _ _ _ _ _ _ C2).
Qed.

Lemma drop_shm_evolves w contents n e o :
  WorldInv w contents n -> Balanced (heap w) (owned contents ++ shm_handles e ++ o) ->
  exists w', drop (fst (ShmSafeUnmanagedChunk.releaseToSharedChunk e)) w = Done w' /\ evolves w w' contents n o /\
    lost_flags w' = lost_flags w.
Proof.
  intros HW Hb. destruct (release_handles e) as [Hv _].
  destruct (ShmSafeUnmanagedChunk.releaseToSharedChunk e) as [[x|] e']; simpl in Hv; cbn [fst]; rewrite <- Hv in Hb.
  - apply drop_evolves; [done|]. eapply Balanced_proper; [|exact Hb]. simpl. solve_Permutation.
  - exists w. split; [by destruct w|]. split; [|done]. by constructor.
Qed.

Lemma replace_last_ok s w contents n o x :
  WorldInv w contents n -> Balanced (heap w) (owned contents ++ x :: last_chunk s ++ o) ->
  headroom (owned contents ++ x :: last_chunk s ++ o) 1 ->
  exists e w', replace_last (Some x) s w = Done (set_last e s, w') /\ shm_handles e = [x] /\
    evolves w w' contents n (x :: o) /\ lost_flags w' = lost_flags w.
Proof.
  intros HW Hb Hh. unfold replace_last.
  destruct (drop_shm_evolves w contents n (m_lastChunkUnmanaged s) (x :: o) HW) as (w1 & -> & E1 & F1).
  { eapply Balanced_proper; [|exact Hb]. unfold last_chunk. solve_Permutation. }
  cbn [obind]. destruct (copy_evolves w1 contents n x o (ev_inv _ _ _ _ _ E1)) as (w2 & -> & E2 & F2).
  { eapply Balanced_proper; [|apply E1]. solve_Permutation. }
  { unfold headroom in *. repeat (rewrite !length_app in *; simpl in * ). lia. }
  cbn [obind]. destruct (shm_ctor_ok (heap w2) (x :: owned contents ++ o) (Some x)) as (e & -> & He).
  { eapply Balanced_proper; [|apply E2]. simpl. solve_Permutation. }
  cbn [obind]. destruct (drop_evolves w2 contents n x (x :: o) (ev_inv _ _ _ _ _ E2)) as (w3 & -> & E3 & F3).
  { eapply Balanced_proper; [|apply E2]. solve_Permutation. }
  cbn [obind]. eexists e, _. split; [done|]. split; [done|]. split; [|congruence].
  eapply evolves_trans; [exact E1| |done]. eapply evolves_trans; [exact E2|exact E3|]. set_solver.
Qed.

Lemma send_ok rounds s hist w contents n o x a hd :
  SenderInv s hist w -> WorldInv w contents n ->
  Balanced (heap w) (owned contents ++ sender_owned s hist ++ o) ->
  headroom (owned contents ++ sender_owned s hist ++ o) (6 + Z.of_nat (length (ChunkDistributor.m_queues (dist s)))) ->
  2 * Z.of_nat (length (ChunkDistributor.m_queues (dist s))) <= n ->
  x ∈ user_chunks s -> chunk_view (heap w) x = Some (a, hd) ->
  (forall q, q ∈ ChunkDistributor.m_queues (dist s) ->
     ChunkDistributor.stays (ChunkDistributor.waits (dist s)) (queues w) contents x q = false) ->
  let qs := ChunkDistributor.m_queues (dist s) in
  let contents' := ChunkDistributor.after_delivery (queues w) qs x contents in
  let hist' := ChunkDistributor.history_push (ChunkDistributor.m_historyCapacity (dist s)) hist x in
  exists s' w', send rounds (Some (fst x, a)) s w = Done (Z.of_nat (length qs), s', w') /\
    SenderInv s' hist' w' /\ WorldInv w' contents' (n - 2 * Z.of_nat (length qs)) /\
    Balanced (heap w') (owned contents' ++ sender_owned s' hist' ++ o) /\
    m_sequenceNumber s' = u64 (m_sequenceNumber s + 1) /\ last_chunk s' = [x] /\
    user_chunks s ≡ₚ x :: user_chunks s' /\
    chunk_view (heap w') x = Some (a, ChunkHeader.setSequenceNumber (m_sequenceNumber s) hd) /\
    lost_flags w' = ChunkDistributor.lost_after (ChunkDistributor.waits (dist s)) (queues w) qs x contents (lost_flags w) /\
    changes x w w' contents' (n - 2 * Z.of_nat (length qs)) (sender_owned s' hist' ++ o) /\
    ChunkDistributor.same_config (dist s) (dist s').
Proof.
  intros HS HW Hb Hh Hn Hx Hv Hst qs contents' hist'. unfold send.
  destruct (getChunkReadyForSend_ok s hist w contents n o x a hd HS HW Hb Hx Hv)
    as (s1 & w1 & -> & D1 & L1 & Q1 & HS1 & Hu1 & C1 & Hv1 & Eq1). cbn [obind].
  assert (Hlen : length (user_chunks s) = S (length (user_chunks s1))) by (by rewrite Hu1).
  assert (Hlast1 : last_chunk s1 = last_chunk s) by (unfold last_chunk; by rewrite L1).
  destruct (copy_evolves w1 contents n x (sender_owned s1 hist ++ o) (ch_inv _ _ _ _ _ _ C1)) as (w2 & -> & E2 & F2).
  { eapply Balanced_proper; [|apply C1]. solve_Permutation. }
  { unfold headroom, sender_owned in *. rewrite Hlast1. repeat (rewrite !length_app in *; simpl in * ). lia. }
  cbn [obind]. pose proof (ev_queues _ _ _ _ _ E2) as Hds. unfold same_queues in Hds. rewrite Eq1 in Hds.
  destruct (ChunkDistributor.deliver_all_ok rounds (dist s1) hist w2 contents n x (x :: user_chunks s1 ++ last_chunk s1 ++ o))
    as (d3 & w3 & -> & E3 & HD3 & M3 & F3).
  { apply (ChunkDistributor.distinv_world _ _ w1); [|apply HS1]. symmetry. eapply Forall2_length, E2. }
  { apply E2. }
  { by rewrite D1. }
  { eapply Balanced_proper; [|apply E2]. unfold sender_owned. solve_Permutation. }
  { unfold headroom, sender_owned in *. rewrite D1, Hlast1. repeat (rewrite !length_app in *; simpl in * ). lia. }
  { rewrite D1. intros q Hq. rewrite (ChunkDistributor.stays_same _ _ Hds). by apply Hst. }
  rewrite D1 in E3, HD3, F3. rewrite (ChunkDistributor.after_delivery_same _ _ Hds) in E3.
  rewrite (ChunkDistributor.lost_after_same _ _ Hds) in F3. fold qs contents' in E3, F3. fold hist' in E3, HD3.
  cbn [obind].
  destruct (replace_last_ok (set_dist d3 s1) w3 contents' (n - 2 * Z.of_nat (length qs)) (hist' ++ user_chunks s1 ++ o) x
    (ev_inv _ _ _ _ _ E3)) as (e & w4 & -> & He & E4 & F4).
  { eapply Balanced_proper; [|apply E3]. unfold last_chunk. simpl. solve_Permutation. }
  { pose proof (ChunkDistributor.length_after_delivery (queues w) qs x contents (ChunkDistributor.worldinv_caps _ _ _ HW)
      (ChunkDistributor.di_nodup _ _ _ (si_dist _ _ _ HS)) (ChunkDistributor.di_range _ _ _ (si_dist _ _ _ HS))) as Hl.
    pose proof (ChunkDistributor.length_history_push (ChunkDistributor.m_historyCapacity (dist s)) hist x) as Hl2.
    fold contents' in Hl. fold hist' in Hl2.
    change (last_chunk (set_dist d3 s1)) with (last_chunk s1). unfold headroom, sender_owned in *. rewrite Hlast1.
    repeat (rewrite !length_app in *; simpl in * ). unfold qs in Hl. lia. }
  cbn [obind]. destruct (evolves_length _ _ _ _ _ E3), (evolves_length _ _ _ _ _ E4), (evolves_length _ _ _ _ _ E2).
  assert (P4 : sender_owned (set_last e (set_dist d3 s1)) hist' ≡ₚ x :: hist' ++ user_chunks s1).
  { unfold sender_owned, user_chunks, last_chunk. simpl. rewrite He. solve_Permutation. }
  assert (C : changes x w w4 contents' (n - 2 * Z.of_nat (length qs)) (x :: hist' ++ user_chunks s1 ++ o)).
  { pose proof (ChunkDistributor.history_push_subset (ChunkDistributor.m_historyCapacity (dist s)) hist x) as Hsub.
    fold hist' in Hsub. pose proof (ChunkDistributor.after_delivery_subset (queues w) qs x contents
      (hist' ++ user_chunks s1 ++ o) (ChunkDistributor.worldinv_caps _ _ _ HW)) as Hsub2. fold contents' in Hsub2.
    assert (Hall : owned contents' ++ x :: hist' ++ user_chunks s1 ++ o ⊆ owned contents ++ x :: sender_owned s1 hist ++ o).
    { intros y Hy. apply Hsub2 in Hy. specialize (Hsub y). revert Hy Hsub. unfold sender_owned.
      rewrite !elem_of_app, !elem_of_cons, !elem_of_app. tauto. }
    assert (E24 : evolves w1 w4 contents' (n - 2 * Z.of_nat (length qs)) (x :: hist' ++ user_chunks s1 ++ o)).
    { eapply evolves_trans; [exact E2| |].
      - eapply evolves_trans; [exact E3|exact E4|]. intros y. rewrite !elem_of_app, !elem_of_cons, !elem_of_app. tauto.
      - intros y Hy%Hall. revert Hy. rewrite !elem_of_app, !elem_of_cons. tauto. }
    eapply changes_trans; [exact C1|apply evolves_changes, E24|done]. }
  eexists _, _. split; [by rewrite D1|].
  split; [|split; [apply E4|split; [|split; [|split; [|split; [done|split; [|split; [|split]]]]]]]].
  - destruct HS1. constructor; simpl; try done; [|congruence].
    by apply (ChunkDistributor.distinv_world _ _ w3).
  - eapply Balanced_proper; [|apply E4]. unfold sender_owned, user_chunks, last_chunk. simpl. rewrite He. solve_Permutation.
  - done.
  - done.
  - rewrite (proj2 (ev_view _ _ _ _ _ E4)) by set_solver. rewrite (proj2 (ev_view _ _ _ _ _ E3)) by set_solver.
    rewrite (proj2 (ev_view _ _ _ _ _ E2)) by set_solver. done.
  - rewrite F4, F3, F2. unfold lost_flags. by rewrite Eq1.
  - eapply changes_perm; [|exact C]. rewrite P4. solve_Permutation.
  - simpl. by rewrite <- D1.
Qed.

Lemma pushToHistory_ok s hist w contents n o x a hd :
  SenderInv s hist w -> WorldInv w contents n ->
  Balanced (heap w) (owned contents ++ sender_owned s hist ++ o) ->
  headroom (owned contents ++ sender_owned s hist ++ o) 6 ->
  x ∈ user_chunks s -> chunk_view (heap w) x = Some (a, hd) ->
  let hist' := ChunkDistributor.history_push (ChunkDistributor.m_historyCapacity (dist s)) hist x in
  exists s' w', pushToHistory (Some (fst x, a)) s w = Done (s', w') /\ SenderInv s' hist' w' /\
    m_sequenceNumber s' = u64 (m_sequenceNumber s + 1) /\ last_chunk s' = [x] /\
    user_chunks s ≡ₚ x :: user_chunks s' /\
    chunk_view (heap w') x = Some (a, ChunkHeader.setSequenceNumber (m_sequenceNumber s) hd) /\
    lost_flags w' = lost_flags w /\ changes x w w' contents n (sender_owned s' hist' ++ o) /\
    ChunkDistributor.same_config (dist s) (dist s').
Proof.
  intros HS HW Hb Hh Hx Hv hist'. unfold pushToHistory.
  destruct (getChunkReadyForSend_ok s hist w contents n o x a hd HS HW Hb Hx Hv)
    as (s1 & w1 & -> & D1 & L1 & Q1 & HS1 & Hu1 & C1 & Hv1 & Eq1). cbn [obind].
  assert (Hlen : length (user_chunks s) = S (length (user_chunks s1))) by (by rewrite Hu1).
  assert (Hlast1 : last_chunk s1 = last_chunk s) by (unfold last_chunk; by rewrite L1).
  destruct (copy_evolves w1 contents n x (sender_owned s1 hist ++ o) (ch_inv _ _ _ _ _ _ C1)) as (w2 & -> & E2 & F2).
  { eapply Balanced_proper; [|apply C1]. solve_Permutation. }
  { unfold headroom, sender_owned in *. rewrite Hlast1. repeat (rewrite !length_app in *; simpl in * ). lia. }
  cbn [obind].
  destruct (ChunkDistributor.addToHistory_ok (dist s1) hist w2 contents n x (x :: user_chunks s1 ++ last_chunk s1 ++ o))
    as (d3 & w3 & -> & E3 & HD3 & M3 & F3).
  { apply (ChunkDistributor.distinv_world _ _ w1); [|apply HS1]. symmetry. eapply Forall2_length, E2. }
  { apply E2. }
  { eapply Balanced_proper; [|apply E2]. unfold sender_owned. solve_Permutation. }
  { unfold headroom, sender_owned in *. rewrite Hlast1. repeat (rewrite !length_app in *; simpl in * ). lia. }
  rewrite D1 in E3, HD3. fold hist' in E3, HD3. cbn [obind].
  pose proof (ChunkDistributor.length_history_push (ChunkDistributor.m_historyCapacity (dist s)) hist x) as Hl2. fold hist' in Hl2.
  destruct (replace_last_ok (set_dist d3 s1) w3 contents n (hist' ++ user_chunks s1 ++ o) x
    (ev_inv _ _ _ _ _ E3)) as (e & w4 & -> & He & E4 & F4).
  { eapply Balanced_proper; [|apply E3]. unfold last_chunk. simpl. solve_Permutation. }
  { change (last_chunk (set_dist d3 s1)) with (last_chunk s1). unfold headroom, sender_owned in *. rewrite Hlast1.
    repeat (rewrite !length_app in *; simpl in * ). lia. }
  destruct (evolves_length _ _ _ _ _ E3), (evolves_length _ _ _ _ _ E4), (evolves_length _ _ _ _ _ E2).
  assert (P4 : sender_owned (set_last e (set_dist d3 s1)) hist' ≡ₚ x :: hist' ++ user_chunks s1).
  { unfold sender_owned, user_chunks, last_chunk. simpl. rewrite He. solve_Permutation. }
  assert (Hall : owned contents ++ x :: hist' ++ user_chunks s1 ++ o ⊆ owned contents ++ x :: sender_owned s1 hist ++ o).
  { pose proof (ChunkDistributor.history_push_subset (ChunkDistributor.m_historyCapacity (dist s)) hist x) as Hsub.
    fold hist' in Hsub. intros y. specialize (Hsub y). revert Hsub. unfold sender_owned.
    rewrite !elem_of_app, !elem_of_cons, !elem_of_app. tauto. }
  assert (E24 : evolves w1 w4 contents n (x :: hist' ++ user_chunks s1 ++ o)).
  { eapply evolves_trans; [exact E2| |].
    - eapply evolves_trans; [exact E3|exact E4|]. intros y. rewrite !elem_of_app, !elem_of_cons, !elem_of_app. tauto.
    - intros y Hy%Hall. revert Hy. rewrite !elem_of_app, !elem_of_cons. tauto. }
  eexists _, _. split; [done|]. split; [|split; [done|split; [done|split; [done|split; [|split; [|split]]]]]].
  - destruct HS1. constructor; simpl; try done; [|congruence]. by apply (ChunkDistributor.distinv_world _ _ w3).
  - rewrite (proj2 (ev_view _ _ _ _ _ E24)) by set_solver. done.
  - rewrite F4, F3, F2. unfold lost_flags. by rewrite Eq1.
  - eapply changes_perm with (o := x :: hist' ++ user_chunks s1 ++ o); [rewrite P4; solve_Permutation|].
    eapply changes_trans; [exact C1|apply evolves_changes, E24|done].
  - simpl. by rewrite <- D1.
Qed.

(** ** Releasing *)

Lemma release_ok p s hist w contents n o :
  SenderInv s hist w -> WorldInv w contents n ->
  Balanced (heap w) (owned contents ++ sender_owned s hist ++ o) ->
  exists s' w', release p s w = Done (s', w') /\ SenderInv s' hist w' /\ same_sender s s' /\ WorldInv w' contents n /\
    Balanced (heap w') (owned contents ++ sender_owned s' hist ++ o) /\
    same_view (owned contents ++ sender_owned s' hist ++ o) (heap w) (heap w') /\ same_queues w w' /\
    ((exists x, x ∈ user_chunks s /\ SharedChunk.getChunkHeader (Some x) (heap w) = p /\
        user_chunks s ≡ₚ x :: user_chunks s' /\ errors (heap w') = errors (heap w)) \/
     (forall x, x ∈ user_chunks s -> SharedChunk.getChunkHeader (Some x) (heap w) <> p) /\
       user_chunks s' ≡ₚ user_chunks s /\
       errors (heap w') = errors (heap w) ++ [(POPO__CHUNK_SENDER_INVALID_CHUNK_TO_FREE_FROM_USER, SEVERE)]).
Proof.
  intros HS HW Hb. unfold release.
  destruct (take_used_ok p s hist w contents n o HS HW Hb) as (b & c & s1 & w1 & -> & HS1 & Hs1 & Hu1 & E1 & _ & Hr).
  cbn [obind]. destruct b.
  - destruct Hr as (x & -> & Hx & Hp). simpl in Hu1, E1.
    destruct (drop_evolves w1 contents n x (sender_owned s1 hist ++ o) (ev_inv _ _ _ _ _ E1)) as (w2 & -> & E2 & _).
    { eapply Balanced_proper; [|apply E1]. solve_Permutation. }
    cbn [obind]. destruct (evolves_length _ _ _ _ _ E2). eexists _, _. split; [done|].
    split; [by eapply senderinv_same; [exact HS1|..]; try done; apply HS1|]. split; [done|]. split; [apply E2|]. split; [apply E2|].
    assert (E : evolves w w2 contents n (sender_owned s1 hist ++ o)) by (eapply evolves_trans; [exact E1|exact E2|]; set_solver).
    split; [apply E|]. split; [apply E|]. left. exists x. split; [done|]. split; [done|]. split; [done|].
    by rewrite (ev_errors _ _ _ _ _ E2), (ev_errors _ _ _ _ _ E1).
  - destruct Hr as (-> & Hno). simpl in Hu1, E1. eexists _, _. split; [done|]. simpl.
    split; [by eapply senderinv_same; [exact HS1|..]; try done; apply HS1|]. split; [done|].
    split; [apply worldinv_heap, worldinv_heap, E1|]. split; [apply report_balanced, E1|].
    split; [apply E1|]. split; [apply E1|]. right. split; [done|]. split; [done|]. by rewrite (ev_errors _ _ _ _ _ E1).
Qed.

Lemma release_history_ok es hist w contents n o :
  Forall2 encodes es hist -> WorldInv w contents n -> Balanced (heap w) (owned contents ++ hist ++ o) ->
  exists w', ChunkDistributor.release_history es w = Done w' /\ evolves w w' contents n o.
Proof.
  intros Henc. revert w. induction Henc as [|e x es hist He _ IH]; intros w HW Hb.
  - exists w. split; [done|]. by constructor.
  - simpl. destruct (ChunkDistributor.drop_entry_evolves w contents n e x (hist ++ o) He HW) as (w1 & -> & E1 & _).
    { eapply Balanced_proper; [|exact Hb]. simpl. solve_Permutation. }
    cbn [obind]. destruct (IH w1 (ev_inv _ _ _ _ _ E1) (ev_bal _ _ _ _ _ E1)) as (w2 & -> & E2).
    exists w2. split; [done|]. eapply evolves_trans; [exact E1|exact E2|]. set_solver.
Qed.

(** After [releaseAll] the sender owns nothing. *)
Lemma releaseAll_ok s hist w contents n o :
  SenderInv s hist w -> WorldInv w contents n ->
  Balanced (heap w) (owned contents ++ sender_owned s hist ++ o) ->
  exists s' w', releaseAll false s w = Done (s', w') /\ SenderInv s' [] w' /\ sender_owned s' [] = [] /\
    evolves w w' contents n o.
Proof.
  intros HS HW Hb. pose proof HS as []. unfold releaseAll.
  destruct (cleanup_evolves (MAX_CHUNKS s) (m_chunksInUse s) w contents n (hist ++ last_chunk s ++ o) si_used0 HW)
    as (u & h & -> & Hu & Hheld & E1).
  { eapply Balanced_proper; [|exact Hb]. unfold sender_owned, user_chunks. solve_Permutation. }
  cbn [obind]. unfold ChunkDistributor.cleanup, ChunkDistributor.clearHistory. cbn [negb].
  destruct (release_history_ok (ChunkDistributor.m_history (dist s)) hist (set_heap h w) contents n (last_chunk s ++ o))
    as (w2 & E & E2); [apply si_dist0|apply E1|apply E1|].
  simpl. rewrite E. cbn [obind]. clear E.
  destruct (drop_shm_evolves w2 contents n (m_lastChunkUnmanaged s) o (ev_inv _ _ _ _ _ E2) (ev_bal _ _ _ _ _ E2))
    as (w3 & E & E3 & _).
  destruct (release_handles (m_lastChunkUnmanaged s)) as [_ Hnull].
  destruct (ShmSafeUnmanagedChunk.releaseToSharedChunk (m_lastChunkUnmanaged s)) as [c e].
  cbn [fst snd] in *. rewrite E. cbn [obind].
  assert (E13 : evolves w w3 contents n o).
  { eapply evolves_trans; [exact E1| |]; [eapply evolves_trans; [exact E2|exact E3|]|]; set_solver. }
  destruct (evolves_length _ _ _ _ _ E13) as [Lq Ls]. eexists _, _. split; [done|].
  split; [|split; [|done]].
  - constructor; simpl; try done; [|congruence]. apply (ChunkDistributor.distinv_world _ _ w); [done|].
    eapply (ChunkDistributor.distinv_history _ _ [] []); [done|by constructor|]. destruct si_dist0. simpl. lia.
  - unfold sender_owned, user_chunks, last_chunk. simpl. by rewrite Hheld, Hnull.
Qed.
End sender.

(** ** The receiver *)

Section receiver.
Import ChunkReceiver.

Record ReceiverInv (r : t) (w : World) : Prop := {
  ri_used : used_ok (MAX_CHUNKS_IN_USE r) (m_chunksInUse r);
  ri_queue : (queue r < length (queues w))%nat }.

Definition received (r : t) : list handle := UsedChunkList.held (m_chunksInUse r).

Lemma tryGet_ok r w contents n o :
  ReceiverInv r w -> WorldInv w contents n -> 0 < n ->
  Balanced (heap w) (owned contents ++ received r ++ o) -> headroom (owned contents ++ received r ++ o) 4 ->
  exists res r' w' contents', tryGet r w = Done (res, r', w') /\ ReceiverInv r' w' /\ queue r' = queue r /\
    evolves w w' contents' (n - 1) (received r' ++ o) /\ lost_flags w' = lost_flags w /\
    match contents !! queue r with
    | Some (x :: hs) => contents' = <[queue r := hs]> contents /\
        ((res = success (SharedChunk.getChunkHeader (Some x) (heap w)) /\ received r' ≡ₚ x :: received r) \/
         (res = error TOO_MANY_CHUNKS_HELD_IN_PARALLEL /\ received r' ≡ₚ received r))
    | _ => contents' = contents /\ res = error NO_CHUNK_AVAILABLE /\ r' = r
    end.
Proof.
  intros [Hu Hq] HW Hn Hb Hh. destruct (lookup_lt_is_Some_2 _ _ Hq) as [d Hd].
  destruct (Forall2_lookup_l _ _ _ _ _ (wi_queues _ _ _ HW) Hd) as ([|x hs] & Hhs & _); rewrite Hhs; unfold tryGet.
  - destruct (tryPop_empty w contents n (queue r) d HW Hn Hd Hhs) as (w1 & -> & HW1 & Eh & Hs & F). cbn [obind].
    eexists _, _, _, contents. split; [done|]. split; [constructor; [done|by rewrite <- (Forall2_length _ _ _ Hs)]|].
    split; [done|]. split; [|done]. constructor; try done; by rewrite Eh.
  - destruct (tryPop_ok w contents n (queue r) d x hs (received r ++ o) HW Hn Hd Hhs Hb) as (w1 & -> & HW1 & Hb1 & V1 & Er1 & Hs1 & F1).
    { unfold headroom in *. lia. }
    pose proof (pop_owned contents (queue r) x hs Hhs) as P. set (contents' := <[queue r := hs]> contents) in *.
    assert (Hlen : length (owned contents) = S (length (owned contents'))) by (by rewrite P).
    cbn [obind]. destruct (copy_evolves w1 contents' (n - 1) x (received r ++ o) HW1 Hb1) as (w2 & -> & E2 & F2).
    { unfold headroom in *. repeat (rewrite !length_app in *; simpl in * ). lia. }
    cbn [obind]. destruct (copy_evolves w2 contents' (n - 1) x (x :: received r ++ o) (ev_inv _ _ _ _ _ E2)) as (w3 & -> & E3 & F3).
    { eapply Balanced_proper; [|apply E2]. solve_Permutation. }
    { unfold headroom in *. repeat (rewrite !length_app in *; simpl in * ). lia. }
    cbn [obind].
    destruct (insert_evolves (MAX_CHUNKS_IN_USE r) (m_chunksInUse r) (Some x) w3 contents' (n - 1) (x :: x :: o) x Hu eq_refl
      (ev_inv _ _ _ _ _ E3)) as (b & u & h & -> & Hu' & E4 & Hheld & _).
    { eapply Balanced_proper; [|apply E3]. unfold received. solve_Permutation. }
    { unfold headroom, received in *. repeat (rewrite !length_app in *; simpl in * ). lia. }
    cbn [obind]. set (w4 := set_heap h w3) in *. set (res := SharedChunk.getChunkHeader (Some x) (heap w4)).
    destruct (drop_evolves w4 contents' (n - 1) x (UsedChunkList.held u ++ x :: o) (ev_inv _ _ _ _ _ E4)) as (w5 & -> & E5 & F5).
    { eapply Balanced_proper; [|apply E4]. solve_Permutation. }
    cbn [obind].
    destruct (drop_evolves w5 contents' (n - 1) x (UsedChunkList.held u ++ o) (ev_inv _ _ _ _ _ E5)) as (w6 & -> & E6 & F6).
    { eapply Balanced_proper; [|apply E5]. solve_Permutation. }
    cbn [obind].
    assert (Hsub : UsedChunkList.held u ⊆ x :: received r).
    { intros y. rewrite Hheld. unfold received. destruct b; set_solver. }
    assert (E24 : evolves w1 w4 contents' (n - 1) (UsedChunkList.held u ++ x :: x :: o)).
    { eapply evolves_trans; [exact E2| |set_solver]. eapply evolves_trans; [exact E3|exact E4|set_solver]. }
    assert (E26 : evolves w1 w6 contents' (n - 1) (UsedChunkList.held u ++ o)).
    { eapply evolves_trans; [exact E24| |set_solver]. eapply evolves_trans; [exact E5|exact E6|set_solver]. }
    assert (E16 : evolves w w6 contents' (n - 1) (UsedChunkList.held u ++ o)).
    { destruct E26. constructor; try done; [|congruence|by transitivity w1].
      eapply same_view_trans; [|done]. eapply same_view_subset; [|exact V1]. intros y. rewrite P. set_solver. }
    assert (Hres : res = SharedChunk.getChunkHeader (Some x) (heap w)).
    { destruct (chunk_view_owned (heap w) _ x Hb) as [[a hd] Hv]; [rewrite P; set_solver|].
      unfold res. rewrite (getChunkHeader_view (heap w) x a hd Hv). eapply getChunkHeader_view.
      rewrite (proj2 (ev_view _ _ _ _ _ E24)) by set_solver. rewrite (proj2 V1); [done|]. rewrite P. set_solver. }
    eexists _, _, _, contents'. split; [done|].
    split; [constructor; [done|simpl; by rewrite <- (Forall2_length _ _ _ (ev_queues _ _ _ _ _ E16))]|].
    split; [done|]. split; [exact E16|]. split; [rewrite F6, F5; change (lost_flags w4) with (lost_flags w3); congruence|]. split; [done|].
    destruct b; [left|right]; (split; [|exact Hheld]); [by rewrite Hres|done].
Qed.

(** The user gives a chunk back, or passes a pointer that is no header of a
    chunk it holds. *)
Lemma receiver_release_ok p r w contents n o :
  ReceiverInv r w -> WorldInv w contents n -> Balanced (heap w) (owned contents ++ received r ++ o) ->
  exists r' w', release p r w = Done (r', w') /\ ReceiverInv r' w' /\ queue r' = queue r /\ WorldInv w' contents n /\
    Balanced (heap w') (owned contents ++ received r' ++ o) /\
    same_view (owned contents ++ received r' ++ o) (heap w) (heap w') /\ same_queues w w' /\
    ((exists x, x ∈ received r /\ SharedChunk.getChunkHeader (Some x) (heap w) = p /\
        received r ≡ₚ x :: received r' /\ errors (heap w') = errors (heap w)) \/
     (forall x, x ∈ received r -> SharedChunk.getChunkHeader (Some x) (heap w) <> p) /\
       received r' ≡ₚ received r /\
       errors (heap w') = errors (heap w) ++ [(POPO__CHUNK_RECEIVER_INVALID_CHUNK_TO_RELEASE_FROM_USER, SEVERE)]).
Proof.
  intros [Hu Hq] HW Hb. unfold release.
  destruct (remove_evolves (MAX_CHUNKS_IN_USE r) (m_chunksInUse r) p w contents n o Hu HW Hb)
    as (b & c & u' & h' & -> & Hu' & E1 & Hheld & Hr). cbn [obind]. destruct b.
  - destruct Hr as (x & -> & Hx & Hp). simpl in Hheld, E1.
    destruct (drop_evolves (set_heap h' w) contents n x (UsedChunkList.held u' ++ o) (ev_inv _ _ _ _ _ E1)) as (w2 & -> & E2 & _).
    { eapply Balanced_proper; [|apply E1]. solve_Permutation. }
    assert (E : evolves w w2 contents n (UsedChunkList.held u' ++ o)).
    { eapply evolves_trans; [exact E1|exact E2|]. intros y. rewrite !elem_of_app, elem_of_cons, !elem_of_app. tauto. }
    cbn [obind]. destruct (evolves_length _ _ _ _ _ E) as [L _]. eexists _, _. split; [done|].
    split; [constructor; [done|simpl; by rewrite L]|]. split; [done|]. split; [apply E|]. split; [apply E|].
    split; [apply E|]. split; [apply E|]. left. exists x. split; [done|]. split; [done|]. split; [exact Hheld|apply E].
  - destruct Hr as (-> & _ & Hno). simpl in Hheld, E1. eexists _, _. split; [done|]. simpl.
    split; [by constructor|]. split; [done|]. split; [apply worldinv_heap, worldinv_heap, E1|].
    split; [apply report_balanced, E1|]. split; [apply E1|]. split; [apply E1|].
    right. split; [done|]. split; [by symmetry|]. by rewrite <- (ev_errors _ _ _ _ _ E1).
Qed.

Lemma receiver_releaseAll_ok r w contents n d hs o :
  ReceiverInv r w -> WorldInv w contents n -> queues w !! queue r = Some d -> contents !! queue r = Some hs ->
  ChunkQueueData.MAX_CAPACITY d + 1 <= n ->
  Balanced (heap w) (owned contents ++ received r ++ o) ->
  exists r' w', releaseAll r w = Done (r', w') /\ ReceiverInv r' w' /\ received r' = [] /\
    evolves w w' (<[queue r := []]> contents) (n - (ChunkQueueData.MAX_CAPACITY d + 1)) o.
Proof.
  intros [Hu Hq] HW Hd Hhs Hn Hb. unfold releaseAll.
  destruct (cleanup_evolves (MAX_CHUNKS_IN_USE r) (m_chunksInUse r) w contents n o Hu HW Hb) as (u & h & -> & Hu' & Hheld & E1).
  cbn [obind].
  destruct (clear_ok (set_heap h w) contents n (queue r) d hs o (ev_inv _ _ _ _ _ E1) Hn Hd Hhs (ev_bal _ _ _ _ _ E1))
    as (w2 & -> & ? & ? & ? & ? & ? & ?). cbn [obind].
  assert (E2 : evolves (set_heap h w) w2 (<[queue r := []]> contents) (n - (ChunkQueueData.MAX_CAPACITY d + 1)) o) by done.
  assert (E : evolves w w2 (<[queue r := []]> contents) (n - (ChunkQueueData.MAX_CAPACITY d + 1)) o).
  { eapply evolves_trans; [exact E1|exact E2|]. destruct (owned_focus contents (queue r) hs Hhs) as (rest & P & I).
    intros y. rewrite !elem_of_app, (I []), P. set_solver. }
  eexists _, _. split; [done|]. split; [|split; [done|exact E]].
  constructor; [done|]. simpl. by rewrite <- (Forall2_length _ _ _ (ev_queues _ _ _ _ _ E)).
Qed.
End receiver.

(** ** Properties *)

(** A used chunk list that holds nothing, and one that holds a given chunk. *)
Lemma sample_used : exists u, used_ok 4 u /\ UsedChunkList.held u = [] /\ used_full 4 u = false.
Proof.
  destruct sample_heap as (h & x & Hb & _). pose proof (UsedChunkList.ctor_ok 4 h [x] ltac:(lia) Hb) as (u & h' & E & HR & Hu & _).
  exists u. split; [by eexists _, _|]. split; [done|].
  unfold UsedChunkList.ctor, UsedChunkList.init in E. destruct (UsedChunkList.clear_data _ h) as [[data h2]|]; [|done].
  simpl in E. injection E as <- _. done.
Qed.

(** A sender whose last chunk is [x], connected to the queues [qs]. *)
Definition sample_sender (qs : list nat) (u : UsedChunkList.t) (e : ShmSafeUnmanagedChunk.t) : ChunkSender.t :=
  ChunkSender.mk (ChunkDistributor.mk 4 8 2 qs [] ConsumerTooSlowPolicy.DISCARD_OLDEST_DATA) 0 4 u 7 e.

Lemma sample_senderinv qs u e w : NoDup qs -> Forall (fun q => q < length (queues w))%nat qs -> (length qs <= 4)%nat ->
  used_ok 4 u -> (0 < length (segs (heap w)))%nat -> SenderInv (sample_sender qs u e) [] w.
Proof.
  intros. constructor; simpl; try done; try lia. constructor; simpl; try done; try lia.
Qed.

Lemma owned_segs h o x : Balanced h o -> x ∈ o -> (0 < length (segs h))%nat.
Proof.
  intros Hb Hx. destruct (bal_owned _ _ Hb x Hx) as [m Hm]. apply lookup_lt_Some in Hm. lia.
Qed.

(** C23: an allocated chunk belongs to the caller alone.  For every size and
    alignment, in every state, [tryAllocate] either fails and changes nothing
    but the error log, or returns a chunk with a fresh header that no queue, no
    history, no other chunk of the user and no other participant refers to, so
    writing it disturbs nobody; all other chunks keep their headers and every
    reference counter stays exact. *)
Theorem allocation_exclusive originId ps pa hs ha s hist w contents n o :
  SenderInv s hist w -> WorldInv w contents n ->
  Balanced (heap w) (owned contents ++ sender_owned s hist ++ o) ->
  headroom (owned contents ++ sender_owned s hist ++ o) 4 ->
  0 <= ps < 2 ^ 32 -> 0 <= pa < 2 ^ 32 -> 0 <= hs < 2 ^ 32 -> 0 <= ha < 2 ^ 32 ->
  exists r s' w', ChunkSender.tryAllocate originId ps pa hs ha s w = Done (r, s', w') /\ SenderInv s' hist w' /\
    same_sender s s' /\
    match r with
    | success p => exists settings, ChunkSettings.create ps pa hs ha = success settings /\
        exists origin, allocated settings origin s s' hist w w' contents n o p /\
          (reuses settings s hist w contents o -> origin = ChunkHeader.INVALID_UNIQUE_ID) /\
          (~ reuses settings s hist w contents o -> origin = originId)
    | error _ => unchanged s s' hist w w' contents n o
    end.
Proof. apply tryAllocate_ok. Qed.

Lemma allocation_exclusive_witness :
  exists s w r s' w', ChunkSender.tryAllocate 5 64 8 0 0 s w = Done (r, s', w') /\ SenderInv s' [] w'.
Proof.
  destruct (sample_world 2 QueueFullPolicy.DISCARD_OLDEST_DATA SoFi_MultiProducerSingleConsumer ltac:(lia))
    as (w & d & x & Eq & _ & _ & _ & HW & Hb & _).
  destruct sample_used as (u & Hu & Hheld & _).
  destruct (shm_ctor_ok (heap w) [x] (Some x) Hb) as (e & _ & He). simpl in He.
  destruct (allocation_exclusive 5 64 8 0 0 (sample_sender [0%nat] u e) [] w [[x]] 1000 []) as (r & s' & w' & E & HS & _).
  - apply sample_senderinv; [apply NoDup_singleton|rewrite Eq; apply Forall_singleton; simpl; lia|simpl; lia|done|].
    eapply owned_segs; [exact Hb|by left].
  - done.
  - unfold sender_owned, user_chunks, last_chunk. simpl. rewrite Hheld, He. done.
  - unfold sender_owned, user_chunks, last_chunk, headroom. simpl. rewrite Hheld, He. simpl. lia.
  - lia.
  - lia.
  - lia.
  - lia.
  - by exists (sample_sender [0%nat] u e), w, r, s', w'.
Defined.

(** a recycled chunk has no origin.  If nobody else owns the last chunk and
    it is large enough, [tryAllocate] gives it out again with an invalid origin
    id instead of the id of the port, which only the branch for new chunks
    sets. *)
Theorem recycled_chunk_has_no_origin originId ps pa hs ha s hist w contents n o settings :
  SenderInv s hist w -> WorldInv w contents n ->
  Balanced (heap w) (owned contents ++ sender_owned s hist ++ o) ->
  headroom (owned contents ++ sender_owned s hist ++ o) 4 ->
  0 <= ps < 2 ^ 32 -> 0 <= pa < 2 ^ 32 -> 0 <= hs < 2 ^ 32 -> 0 <= ha < 2 ^ 32 ->
  ChunkSettings.create ps pa hs ha = success settings -> reuses settings s hist w contents o ->
  used_full (ChunkSender.MAX_CHUNKS s) (ChunkSender.m_chunksInUse s) = false ->
  exists p s' w', ChunkSender.tryAllocate originId ps pa hs ha s w = Done (success p, s', w') /\
    allocated settings ChunkHeader.INVALID_UNIQUE_ID s s' hist w w' contents n o p.
Proof.
  intros HS HW Hb Hh H1 H2 H3 H4 Ec (x & a & hd & Hl & Hx & Hv & Hle) Hfull. unfold ChunkSender.tryAllocate. rewrite Ec.
  pose proof (ChunkSettings.create_valid _ _ _ _ _ H1 H2 H3 H4 Ec) as Hset.
  pose proof (recyclable_cases s hist w contents o Hb) as Hrec. destruct (ChunkSender.recyclable s w) as [p|].
  2:{ exfalso. by apply Hx, Hrec. }
  destruct Hrec as (x' & a' & hd' & -> & Hl' & _ & Hv'). rewrite Hl in Hl'. injection Hl' as <-.
  rewrite Hv in Hv'. injection Hv' as <- <-. rewrite (read_header_ok _ _ _ _ Hv). cbn [obind].
  rewrite (proj2 (Z.leb_le _ _)) by lia.
  destruct (recycle_ok settings s hist w contents n o x a hd HS HW Hset Hb Hh Hl Hx Hv Hle) as (r & s' & w' & -> & _ & _ & Hr).
  destruct r as [p|]; [by exists p, s', w'|]. destruct Hr as [_ Hr]. congruence.
Qed.

Lemma recycled_chunk_has_no_origin_witness :
  exists s w p s' w', ChunkSender.tryAllocate 42 64 8 0 0 s w = Done (success p, s', w') /\
    allocated MemoryManager.settings64 ChunkHeader.INVALID_UNIQUE_ID s s' [] w w' [] 10 [] p.
Proof.
  destruct sample_heap as (h & x & Hb & Hs & _ & a & hd & Hv & Hsz). destruct sample_used as (u & Hu & Hheld & Hfull).
  destruct (shm_ctor_ok h [] (Some x) Hb) as (e & _ & He). simpl in He.
  exists (sample_sender [] u e), (mkWorld h [] []).
  apply (recycled_chunk_has_no_origin 42 64 8 0 0 (sample_sender [] u e) [] (mkWorld h [] []) [] 10 [] MemoryManager.settings64).
  - apply sample_senderinv; [constructor|by apply Forall_nil|simpl; lia|done|simpl; lia].
  - constructor; simpl; try lia; by constructor.
  - unfold sender_owned, user_chunks, last_chunk. simpl. rewrite Hheld, He. done.
  - unfold sender_owned, user_chunks, last_chunk, headroom. simpl. rewrite Hheld, He. simpl. lia.
  - lia.
  - lia.
  - lia.
  - lia.
  - reflexivity.
  - exists x, a, hd. unfold last_chunk, user_chunks. simpl. rewrite Hheld, He. split_and!; try done. set_solver.
  - done.
Defined.

(** C10: [send] of a chunk the user holds.  When no queue makes the sender wait,
    the call returns the number of connected queues; the chunk carries the next
    sequence number, has left the user's list, was pushed to exactly the
    connected queues and the history, and is the new last chunk; reference
    counters stay exact. *)
Theorem send_delivers rounds s hist w contents n o x a hd :
  SenderInv s hist w -> WorldInv w contents n ->
  Balanced (heap w) (owned contents ++ sender_owned s hist ++ o) ->
  headroom (owned contents ++ sender_owned s hist ++ o)
    (6 + Z.of_nat (length (ChunkDistributor.m_queues (ChunkSender.dist s)))) ->
  2 * Z.of_nat (length (ChunkDistributor.m_queues (ChunkSender.dist s))) <= n ->
  x ∈ user_chunks s -> chunk_view (heap w) x = Some (a, hd) ->
  (forall q, q ∈ ChunkDistributor.m_queues (ChunkSender.dist s) ->
     ChunkDistributor.stays (ChunkDistributor.waits (ChunkSender.dist s)) (queues w) contents x q = false) ->
  let qs := ChunkDistributor.m_queues (ChunkSender.dist s) in
  let contents' := ChunkDistributor.after_delivery (queues w) qs x contents in
  let hist' := ChunkDistributor.history_push (ChunkDistributor.m_historyCapacity (ChunkSender.dist s)) hist x in
  exists s' w', ChunkSender.send rounds (Some (fst x, a)) s w = Done (Z.of_nat (length qs), s', w') /\
    SenderInv s' hist' w' /\ WorldInv w' contents' (n - 2 * Z.of_nat (length qs)) /\
    Balanced (heap w') (owned contents' ++ sender_owned s' hist' ++ o) /\
    ChunkSender.m_sequenceNumber s' = u64 (ChunkSender.m_sequenceNumber s + 1) /\ last_chunk s' = [x] /\
    user_chunks s ≡ₚ x :: user_chunks s' /\
    chunk_view (heap w') x = Some (a, ChunkHeader.setSequenceNumber (ChunkSender.m_sequenceNumber s) hd) /\
    lost_flags w' = ChunkDistributor.lost_after (ChunkDistributor.waits (ChunkSender.dist s)) (queues w) qs x contents
                      (lost_flags w) /\
    changes x w w' contents' (n - 2 * Z.of_nat (length qs)) (sender_owned s' hist' ++ o) /\
    ChunkDistributor.same_config (ChunkSender.dist s) (ChunkSender.dist s').
Proof. apply send_ok. Qed.

(** A used chunk list that holds [x]. *)
Lemma sample_holding w x contents n : WorldInv w contents n -> Balanced (heap w) (owned contents ++ [x]) ->
  headroom (owned contents ++ [x]) 1 ->
  exists u h, used_ok 4 u /\ UsedChunkList.held u ≡ₚ [x] /\ evolves w (set_heap h w) contents n (UsedChunkList.held u).
Proof.
  intros HW Hb Hh. destruct sample_used as (u & Hu & Hheld & Hfull).
  destruct (insert_evolves 4 u (Some x) w contents n [] x Hu eq_refl HW) as (b & u' & h & _ & Hu' & E & Hu2 & ->).
  { by rewrite Hheld. } { by rewrite Hheld. }
  rewrite app_nil_r in E. rewrite Hfull, Hheld in Hu2. by exists u', h.
Qed.

Lemma send_delivers_witness :
  exists s w p s' w', ChunkSender.send [] (Some p) s w = Done (1, s', w') /\
    ChunkSender.m_sequenceNumber s' = ChunkSender.m_sequenceNumber s + 1.
Proof.
  destruct (sample_world 2 QueueFullPolicy.DISCARD_OLDEST_DATA SoFi_MultiProducerSingleConsumer ltac:(lia))
    as (w0 & d & x & Eq & _ & _ & _ & HW & Hb & _).
  destruct (sample_holding w0 x [[x]] 1000 HW Hb) as (u & h & Hu & Hheld & E); [unfold headroom; simpl; lia|].
  set (w := set_heap h w0) in *. set (s := sample_sender [0%nat] u ShmSafeUnmanagedChunk.null).
  assert (Hin : x ∈ user_chunks s) by (unfold user_chunks; simpl; rewrite Hheld; by left).
  pose proof (ev_bal _ _ _ _ _ E) as Hb1.
  destruct (chunk_view_owned (heap w) _ x Hb1) as [[a hd] Hv]; [apply elem_of_app; right; by rewrite Hheld; left|].
  destruct (send_delivers [] s [] w [[x]] 1000 [] x a hd) as (s' & w' & Es & _ & _ & _ & Hq & _).
  - apply sample_senderinv; [apply NoDup_singleton|simpl; rewrite Eq; apply Forall_singleton; simpl; lia|simpl; lia|done|].
    eapply owned_segs; [exact Hb1|by left].
  - apply E.
  - unfold sender_owned, user_chunks, last_chunk. simpl. rewrite !app_nil_r. exact Hb1.
  - unfold sender_owned, user_chunks, last_chunk, headroom. simpl. rewrite !app_nil_r.
    rewrite (Permutation_length Hheld). simpl. lia.
  - simpl. lia.
  - done.
  - done.
  - intros q _. unfold ChunkDistributor.stays, ChunkDistributor.blocking. simpl. destruct (queues w0 !! q); by rewrite andb_false_r.
  - exists s, w, (fst x, a), s', w'. split; [exact Es|]. rewrite Hq. done.
Defined.

(** [releaseAll] of a sender gives everything back.  Afterwards the sender
    owns no chunk: those the user never released, the history and the last
    chunk are freed unless somebody else owns them. *)
Theorem sender_releaseAll_complete s hist w contents n o :
  SenderInv s hist w -> WorldInv w contents n ->
  Balanced (heap w) (owned contents ++ sender_owned s hist ++ o) ->
  exists s' w', ChunkSender.releaseAll false s w = Done (s', w') /\ SenderInv s' [] w' /\ sender_owned s' [] = [] /\
    evolves w w' contents n o.
Proof. apply releaseAll_ok. Qed.

Lemma sender_releaseAll_complete_witness :
  exists s w s' w', ChunkSender.releaseAll false s w = Done (s', w') /\ Balanced (heap w') [].
Proof.
  destruct sample_heap as (h0 & x & Hb & Hs & _). set (w0 := mkWorld h0 [] []).
  assert (HW : WorldInv w0 [] 10) by (constructor; simpl; try lia; by constructor).
  destruct (sample_holding w0 x [] 10 HW Hb) as (u & h & Hu & Hheld & E); [unfold headroom; simpl; lia|].
  set (w := set_heap h w0) in *. set (s := sample_sender [] u ShmSafeUnmanagedChunk.null).
  pose proof (ev_bal _ _ _ _ _ E) as Hb1.
  destruct (sender_releaseAll_complete s [] w [] 10 []) as (s' & w' & Es & _ & _ & E').
  - apply sample_senderinv; [constructor|by apply Forall_nil|simpl; lia|done|].
    eapply owned_segs; [exact Hb1|]. simpl. rewrite Hheld. by left.
  - apply E.
  - unfold sender_owned, user_chunks, last_chunk. simpl. rewrite !app_nil_r. exact Hb1.
  - exists s, w, s', w'. split; [exact Es|apply E'].
Defined.

(** Receiving.  [tryGet] returns the oldest chunk of the queue, which the
    user then holds, or says that there is none; when the user holds too many
    chunks the oldest one is dropped.  Chunks of the other queues and of the
    user are untouched. *)
Theorem receive_oldest r w contents n o :
  ReceiverInv r w -> WorldInv w contents n -> 0 < n ->
  Balanced (heap w) (owned contents ++ received r ++ o) -> headroom (owned contents ++ received r ++ o) 4 ->
  exists res r' w' contents', ChunkReceiver.tryGet r w = Done (res, r', w') /\ ReceiverInv r' w' /\
    ChunkReceiver.queue r' = ChunkReceiver.queue r /\
    evolves w w' contents' (n - 1) (received r' ++ o) /\ lost_flags w' = lost_flags w /\
    match contents !! ChunkReceiver.queue r with
    | Some (x :: hs) => contents' = <[ChunkReceiver.queue r := hs]> contents /\
        ((res = success (SharedChunk.getChunkHeader (Some x) (heap w)) /\ received r' ≡ₚ x :: received r) \/
         (res = error TOO_MANY_CHUNKS_HELD_IN_PARALLEL /\ received r' ≡ₚ received r))
    | _ => contents' = contents /\ res = error NO_CHUNK_AVAILABLE /\ r' = r
    end.
Proof. apply tryGet_ok. Qed.

Lemma receive_oldest_witness :
  exists r w res r' w', ChunkReceiver.tryGet r w = Done (res, r', w') /\ res <> error NO_CHUNK_AVAILABLE.
Proof.
  destruct (sample_world 2 QueueFullPolicy.DISCARD_OLDEST_DATA SoFi_MultiProducerSingleConsumer ltac:(lia))
    as (w & d & x & Eq & _ & _ & _ & HW & Hb & _).
  destruct sample_used as (u & Hu & Hheld & _).
  destruct (receive_oldest (ChunkReceiver.mk 0 4 u) w [[x]] 1000 [x]) as (res & r' & w' & contents' & E & _ & _ & _ & _ & Hr).
  - constructor; [done|]. rewrite Eq. simpl. lia.
  - done.
  - lia.
  - unfold received. simpl. rewrite Hheld. done.
  - unfold received, headroom. simpl. rewrite Hheld. simpl. lia.
  - exists (ChunkReceiver.mk 0 4 u), w, res, r', w'. split; [done|]. simpl in Hr. destruct Hr as [_ [[-> _]|[-> _]]]; done.
Defined.
