(* ===== verification/CaPro.v ===== *)
(** * Services, CaPro messages, options and identifiers

    [service_description.cpp], [capro_message.cpp], the option structs of the
    ports, [unique_port_id.cpp] and [unique_id.cpp]: the vocabulary the ports
    and RouDi talk in. *)

From S2P Require Import Prelude Queue VariantQueue ChunkQueue ChunkDistributor.
From Stdlib Require Import String.

#[global] Open Scope Z_scope.

Module Interfaces.
Inductive t := INTERNAL | ESOC | SOMEIP | AMQP | MQTT | DDS | SIGNAL | MTA | ROS1 | INTERFACE_END.

#[global] Instance eq_dec : EqDecision t.
Proof. solve_decision. Defined.

(** The value of the enumerator. *)
Definition value (i : t) : Z :=
  match i with
  | INTERNAL => 0 | ESOC => 1 | SOMEIP => 2 | AMQP => 3 | MQTT => 4
  | DDS => 5 | SIGNAL => 6 | MTA => 7 | ROS1 => 8 | INTERFACE_END => 9
  end.
End Interfaces.

Definition INTERFACE_NAMES : list string :=
  ["INTERNAL"; "ESOC"; "SOMEIP"; "AMQP"; "DDS"; "SIGNAL"; "MTA"; "ROS1"; "END"]%string.

Inductive Scope := WORLDWIDE | LOCAL | INVALID.

Module ServiceDescription.

(** [ClassHash::ClassHash(values)]: the first four values; the rest of the
    array keeps what it held. *)
Fixpoint class_hash (values data : list Z) : list Z :=
  match values, data with
  | v :: values, _ :: data => v :: class_hash values data
  | _, _ => data
  end.

Definition class_hash_eq (a b : list Z) : bool := bool_decide (a = b).

Record t := mk {
  m_serviceString : string;
  m_instanceString : string;
  m_eventString : string;
  m_classHash : list Z;
  m_scope : Scope;
  m_interfaceSource : Interfaces.t }.

Definition ctor (service instance event : string) (classHash : list Z) (interfaceSource : Interfaces.t) : t :=
  mk service instance event classHash WORLDWIDE interfaceSource.

Definition default_ctor : t := ctor "" "" "" [0; 0; 0; 0] Interfaces.INTERNAL.

(** [operator==] compares the three strings only. *)
Definition eqb (a b : t) : bool :=
  if negb (bool_decide (m_serviceString a = m_serviceString b)) then false
  else if negb (bool_decide (m_instanceString a = m_instanceString b)) then false
  else if negb (bool_decide (m_eventString a = m_eventString b)) then false
  else true.

Definition neqb (a b : t) : bool := negb (eqb a b).

(** [0 < compare(...)] of [cxx::string]. *)
Definition greater (c : comparison) : bool := match c with Gt => true | _ => false end.
Definition is_eq (c : comparison) : bool := match c with Eq => true | _ => false end.

Definition ltb (a b : t) : bool :=
  let serviceCompare := String.compare (m_serviceString a) (m_serviceString b) in
  if negb (is_eq serviceCompare) then greater serviceCompare
  else
    let instanceCompare := String.compare (m_instanceString a) (m_instanceString b) in
    if negb (is_eq instanceCompare) then greater instanceCompare
    else
      let eventCompare := String.compare (m_eventString a) (m_eventString b) in
      if negb (is_eq eventCompare) then greater eventCompare else false.

Definition isLocal (s : t) : bool := match m_scope s with LOCAL => true | _ => false end.
Definition setLocal (s : t) : t :=
  mk (m_serviceString s) (m_instanceString s) (m_eventString s) (m_classHash s) LOCAL (m_interfaceSource s).
Definition getSourceInterface (s : t) : Interfaces.t := m_interfaceSource s.
Definition serviceMatch (first second : t) : bool :=
  bool_decide (m_serviceString first = m_serviceString second).

(** The part of a description that [operator==] looks at. *)
Definition key (s : t) : string * string * string := (m_serviceString s, m_instanceString s, m_eventString s).

Lemma eqb_key a b : eqb a b = bool_decide (key a = key b).
Proof.
  unfold eqb, key. destruct (bool_decide_reflect (m_serviceString a = m_serviceString b)) as [E1|E1],
    (bool_decide_reflect (m_instanceString a = m_instanceString b)) as [E2|E2],
    (bool_decide_reflect (m_eventString a = m_eventString b)) as [E3|E3]; simpl;
    symmetry; rewrite ?bool_decide_eq_true, ?bool_decide_eq_false; congruence.
Qed.

Lemma eqb_true a b : eqb a b = true <-> key a = key b.
Proof. rewrite eqb_key. apply bool_decide_eq_true. Qed.
End ServiceDescription.

Module CaproMessageType.
Inductive t := NOTYPE | FIND | OFFER | STOP_OFFER | SUB | UNSUB | CONNECT | DISCONNECT
  | ACK | NACK | PUB | REQ | RES | PING | PONG | MESSGAGE_TYPE_END.

#[global] Instance eq_dec : EqDecision t.
Proof. solve_decision. Defined.
End CaproMessageType.

Module CaproServiceType.
Inductive t := NONE | PUBLISHER | SERVER.

#[global] Instance eq_dec : EqDecision t.
Proof. solve_decision. Defined.
End CaproServiceType.

(** A queue pointer of a message is the index of the queue. *)
Module CaproMessage.
Record t := mk {
  m_type : CaproMessageType.t;
  m_serviceType : CaproServiceType.t;
  m_serviceDescription : ServiceDescription.t;
  m_chunkQueueData : option nat;
  m_historyCapacity : Z }.

Definition ctor (type : CaproMessageType.t) (serviceDescription : ServiceDescription.t)
    (serviceType : CaproServiceType.t) (chunkQueueData : option nat) : t :=
  mk type serviceType serviceDescription chunkQueueData 0.

Definition set_type (v : CaproMessageType.t) (m : t) : t :=
  mk v (m_serviceType m) (m_serviceDescription m) (m_chunkQueueData m) (m_historyCapacity m).
Definition set_serviceType (v : CaproServiceType.t) (m : t) : t :=
  mk (m_type m) v (m_serviceDescription m) (m_chunkQueueData m) (m_historyCapacity m).
Definition set_description (v : ServiceDescription.t) (m : t) : t :=
  mk (m_type m) (m_serviceType m) v (m_chunkQueueData m) (m_historyCapacity m).
Definition set_queue (q : nat) (m : t) : t :=
  mk (m_type m) (m_serviceType m) (m_serviceDescription m) (Some q) (m_historyCapacity m).
Definition set_history (v : Z) (m : t) : t :=
  mk (m_type m) (m_serviceType m) (m_serviceDescription m) (m_chunkQueueData m) v.
End CaproMessage.

(** ** Options of the ports *)

Module PublisherOptions.
Record t := mk {
  historyCapacity : Z;
  nodeName : string;
  offerOnCreate : bool;
  subscriberTooSlowPolicy : ConsumerTooSlowPolicy.t }.

Definition default_ctor : t := mk 0 "" true ConsumerTooSlowPolicy.DISCARD_OLDEST_DATA.
End PublisherOptions.

Module SubscriberOptions.
Record t := mk {
  queueCapacity : Z;
  historyRequest : Z;
  nodeName : string;
  subscribeOnCreate : bool;
  queueFullPolicy : QueueFullPolicy.t;
  requiresPublisherHistorySupport : bool }.
End SubscriberOptions.

Module ClientOptions.
Record t := mk {
  responseQueueCapacity : Z;
  nodeName : string;
  connectOnCreate : bool;
  responseQueueFullPolicy : QueueFullPolicy.t;
  serverTooSlowPolicy : ConsumerTooSlowPolicy.t }.
End ClientOptions.

Module ServerOptions.
Record t := mk {
  requestQueueCapacity : Z;
  nodeName : string;
  offerOnCreate : bool;
  requestQueueFullPolicy : QueueFullPolicy.t;
  clientTooSlowPolicy : ConsumerTooSlowPolicy.t }.
End ServerOptions.

(** ** Identifiers

    The process-wide counters of [UniquePortId] and [cxx::UniqueId]. *)

Module UniqueIds.
Record t := mk {
  uniqueRouDiId : Z;
  globalIDCounter : Z; (* of [UniquePortId] *)
  finalized : bool;
  g_IdCounter : Z (* of [cxx::UniqueId] *) }.

Definition start : t := mk 0 1 false 1.

Definition ROUDI_ID_BIT_LENGTH : Z := 16.
Definition UNIQUE_ID_BIT_LENGTH : Z := 48.

(** [UniquePortId::UniquePortId()] *)
Definition new_port_id (s : t) : outcome (Z * t) :=
  let value := u64 (u64 (Z.shiftl (uniqueRouDiId s) UNIQUE_ID_BIT_LENGTH)
                    + Z.shiftr (u64 (Z.shiftl (globalIDCounter s) ROUDI_ID_BIT_LENGTH)) ROUDI_ID_BIT_LENGTH) in
  let s := mk (uniqueRouDiId s) (u64 (globalIDCounter s + 1)) true (g_IdCounter s) in
  if Z.shiftl 1 UNIQUE_ID_BIT_LENGTH <=? globalIDCounter s then Terminated POPO__TYPED_UNIQUE_ID_OVERFLOW
  else Done (value, s).

Definition INVALID_UNIQUE_ID : Z := 0.
Definition isValid (id : Z) : bool := negb (id =? INVALID_UNIQUE_ID).

(** [setUniqueRouDiId]; the flag says whether the error was reported. *)
Definition setUniqueRouDiId (id : Z) (s : t) : bool * t :=
  (finalized s, mk (u16 id) (globalIDCounter s) true (g_IdCounter s)).

(** [cxx::UniqueId::UniqueId()] *)
Definition new_id (s : t) : Z * t :=
  (g_IdCounter s, mk (uniqueRouDiId s) (globalIDCounter s) (finalized s) (u64 (g_IdCounter s + 1))).
End UniqueIds.

(** ** Facts *)

(** The enumerator and its name differ from [MQTT] on: the table has no entry
    for it. *)
Definition interface_name (i : Interfaces.t) : option string := INTERFACE_NAMES !! Z.to_nat (Interfaces.value i).
