(* ===== verification/PubSubPorts.v ===== *)
(** * Publisher, subscriber and interface ports

    The data of the ports and the operations of their two sides: the user side
    ([publisher_port_user.cpp], [subscriber_port_user.cpp]) runs in the
    application, the RouDi side ([publisher_port_roudi.cpp],
    [subscriber_port_single_producer.cpp], [subscriber_port_multi_producer.cpp])
    in the daemon; they meet in atomic flags of the shared port data.  The
    [interface_port.cpp] port forwards CaPro messages to a gateway. *)

From S2P Require Import Prelude ChunkHeader MemoryManager SharedChunk UsedChunkList Queue VariantQueue.
From S2P Require Import ConditionVariable ChunkQueue ChunkDistributor ChunkSender CaPro.

(** The constants of the deployment header that the build generates. *)
Inductive CommunicationPolicy := OneToManyPolicy | ManyToManyPolicy.

Record Build := mkBuild {
  Policy : CommunicationPolicy;
  MAX_PUBLISHERS : Z;
  MAX_SUBSCRIBERS : Z;
  MAX_INTERFACE_NUMBER : Z;
  MAX_SUBSCRIBERS_PER_PUBLISHER : Z;
  MAX_CHUNKS_ALLOCATED_PER_PUBLISHER_SIMULTANEOUSLY : Z;
  MAX_PUBLISHER_HISTORY : Z;
  MAX_CHUNKS_HELD_PER_SUBSCRIBER_SIMULTANEOUSLY : Z;
  MAX_NUMBER_OF_NOTIFIERS : Z }.

Definition MAX_SUBSCRIBER_QUEUE_CAPACITY (b : Build) : Z := MAX_CHUNKS_HELD_PER_SUBSCRIBER_SIMULTANEOUSLY b.
Definition MAX_INTERFACE_CAPRO_FIFO_SIZE (b : Build) : Z := MAX_PUBLISHERS b.

(** ** Construction of the two building blocks *)

(** [ChunkSenderData::ChunkSenderData] *)
Definition new_sender (maxQueues maxHistory maxChunks : Z) (memoryManager : nat) (policy : ConsumerTooSlowPolicy.t)
    (historyCapacity : Z) (w : World) : outcome (ChunkSender.t * World) :=
  let* '(u, h) := UsedChunkList.ctor maxChunks (heap w) in
  Done (ChunkSender.mk (ChunkDistributor.ctor maxQueues maxHistory policy historyCapacity) memoryManager maxChunks u 0
          ShmSafeUnmanagedChunk.null, set_heap h w).

(** [ChunkReceiverData::ChunkReceiverData] at the address of queue [q], and the
    [setCapacity] call of the port data constructors. *)
Definition new_receiver (q : nat) (maxCapacity maxHeld : Z) (queueType : VariantQueueTypes) (policy : QueueFullPolicy.t)
    (capacity : Z) (ids : UniqueIds.t) (w : World) : outcome (ChunkReceiver.t * UniqueIds.t * World) :=
  let '(id, ids) := UniqueIds.new_id ids in
  let d := ChunkQueueData.ctor id maxCapacity policy queueType in
  let* '(u, h) := UsedChunkList.ctor (maxHeld + 1) (heap w) in
  let* '(_, _, m_queue) :=
    returns (VariantQueue.setCapacity ShmSafeUnmanagedChunk.null maxCapacity (ChunkQueueData.m_queue d) capacity) in
  Done (ChunkReceiver.mk q (maxHeld + 1) u, ids, set_queue_data q (ChunkQueueData.set_queue m_queue d) (set_heap h w)).

(** ** Base port *)

Module BasePortData.
Record t := mk {
  m_serviceDescription : ServiceDescription.t;
  m_runtimeName : string;
  m_nodeName : string;
  m_uniqueId : Z;
  m_toBeDestroyed : bool }.

Definition ctor (serviceDescription : ServiceDescription.t) (runtimeName nodeName : string) (ids : UniqueIds.t)
    : outcome (t * UniqueIds.t) :=
  let* '(id, ids) := UniqueIds.new_port_id ids in
  Done (mk serviceDescription runtimeName nodeName id false, ids).

Definition destroy (b : t) : t :=
  mk (m_serviceDescription b) (m_runtimeName b) (m_nodeName b) (m_uniqueId b) true.
End BasePortData.

(** ** Publisher *)

Module PublisherPortData.
Record t := mk {
  base : BasePortData.t;
  m_chunkSenderData : ChunkSender.t;
  m_options : PublisherOptions.t;
  m_offeringRequested : bool;
  m_offered : bool }.

Definition ctor (b : Build) (serviceDescription : ServiceDescription.t) (runtimeName : string) (memoryManager : nat)
    (options : PublisherOptions.t) (ids : UniqueIds.t) (w : World) : outcome (t * UniqueIds.t * World) :=
  let* '(base, ids) := BasePortData.ctor serviceDescription runtimeName (PublisherOptions.nodeName options) ids in
  let* '(sender, w) :=
    new_sender (MAX_SUBSCRIBERS_PER_PUBLISHER b) (MAX_PUBLISHER_HISTORY b)
      (MAX_CHUNKS_ALLOCATED_PER_PUBLISHER_SIMULTANEOUSLY b) memoryManager
      (PublisherOptions.subscriberTooSlowPolicy options) (PublisherOptions.historyCapacity options) w in
  Done (mk base sender options (PublisherOptions.offerOnCreate options) false, ids, w).

Definition set_base (v : BasePortData.t) (p : t) : t :=
  mk v (m_chunkSenderData p) (m_options p) (m_offeringRequested p) (m_offered p).
Definition set_sender (v : ChunkSender.t) (p : t) : t :=
  mk (base p) v (m_options p) (m_offeringRequested p) (m_offered p).
Definition set_requested (v : bool) (p : t) : t :=
  mk (base p) (m_chunkSenderData p) (m_options p) v (m_offered p).
Definition set_offered (v : bool) (p : t) : t :=
  mk (base p) (m_chunkSenderData p) (m_options p) (m_offeringRequested p) v.

Definition service (p : t) : ServiceDescription.t := BasePortData.m_serviceDescription (base p).
(** The queues the publisher delivers to. *)
Definition stored (p : t) : list nat := ChunkDistributor.m_queues (ChunkSender.dist (m_chunkSenderData p)).
End PublisherPortData.

Module PublisherPortUser.
Import PublisherPortData.

Definition tryAllocateChunk (userPayloadSize userPayloadAlignment userHeaderSize userHeaderAlignment : Z) (p : t) (w : World)
    : outcome (expected handle AllocationError * t * World) :=
  let* '(r, s, w) := ChunkSender.tryAllocate (BasePortData.m_uniqueId (base p)) userPayloadSize userPayloadAlignment
                       userHeaderSize userHeaderAlignment (m_chunkSenderData p) w in
  Done (r, set_sender s p, w).

Definition releaseChunk (chunkHeader : option handle) (p : t) (w : World) : outcome (t * World) :=
  let* '(s, w) := ChunkSender.release chunkHeader (m_chunkSenderData p) w in
  Done (set_sender s p, w).

Definition sendChunk (rounds : list ChunkDistributor.interference) (chunkHeader : option handle) (p : t) (w : World)
    : outcome (t * World) :=
  if m_offeringRequested p then
    let* '(_, s, w) := ChunkSender.send rounds chunkHeader (m_chunkSenderData p) w in
    Done (set_sender s p, w)
  else
    let* '(s, w) := ChunkSender.pushToHistory chunkHeader (m_chunkSenderData p) w in
    Done (set_sender s p, w).

Definition tryGetPreviousChunk (p : t) (w : World) : option (option handle) :=
  ChunkSender.tryGetPreviousChunk (m_chunkSenderData p) w.

Definition offer (p : t) : t := if negb (m_offeringRequested p) then set_requested true p else p.
Definition stopOffer (p : t) : t := if m_offeringRequested p then set_requested false p else p.
Definition isOffered (p : t) : bool := m_offeringRequested p.
Definition hasSubscribers (p : t) : bool := ChunkDistributor.hasStoredQueues (ChunkSender.dist (m_chunkSenderData p)).
End PublisherPortUser.

Module PublisherPortRouDi.
Import PublisherPortData.

Definition tryGetCaProMessage (p : t) : option CaproMessage.t * t :=
  if m_offeringRequested p && negb (m_offered p) then
    let p := set_offered true p in
    let caproMessage := CaproMessage.ctor CaproMessageType.OFFER (service p) CaproServiceType.NONE None in
    let caproMessage :=
      CaproMessage.set_history (ChunkDistributor.getHistoryCapacity (ChunkSender.dist (m_chunkSenderData p)))
        caproMessage in
    (Some (CaproMessage.set_serviceType CaproServiceType.PUBLISHER caproMessage), p)
  else if negb (m_offeringRequested p) && m_offered p then
    let p := set_offered false p in
    let s := m_chunkSenderData p in
    let p := set_sender (ChunkSender.set_dist (ChunkDistributor.removeAllQueues (ChunkSender.dist s)) s) p in
    let caproMessage := CaproMessage.ctor CaproMessageType.STOP_OFFER (service p) CaproServiceType.NONE None in
    (Some (CaproMessage.set_serviceType CaproServiceType.PUBLISHER caproMessage), p)
  else (None, p).

(** [tryAddQueue] and [tryRemoveQueue] take a [not_null] pointer. *)
Definition add_queue (q : option nat) (requestedHistory : Z) (s : ChunkSender.t) (w : World)
    : outcome (expected unit ChunkDistributorError * ChunkSender.t * World) :=
  match q with
  | None => Terminated EXPECTS_ENSURES_FAILED
  | Some q =>
      let* '(ret, d, w) := ChunkDistributor.tryAddQueue (ChunkSender.dist s) q requestedHistory w in
      Done (ret, ChunkSender.set_dist d s, w)
  end.

Definition remove_queue (q : option nat) (s : ChunkSender.t) : outcome (expected unit ChunkDistributorError * ChunkSender.t) :=
  match q with
  | None => Terminated EXPECTS_ENSURES_FAILED
  | Some q =>
      let '(ret, d) := ChunkDistributor.tryRemoveQueue (ChunkSender.dist s) q in
      Done (ret, ChunkSender.set_dist d s)
  end.

Definition dispatchCaProMessageAndGetPossibleResponse (caProMessage : CaproMessage.t) (p : t) (w : World)
    : outcome (option CaproMessage.t * t * World) :=
  let responseMessage := CaproMessage.ctor CaproMessageType.NACK (service p) CaproServiceType.NONE None in
  if m_offered p then
    match CaproMessage.m_type caProMessage with
    | CaproMessageType.SUB =>
        let* '(ret, s, w) := add_queue (CaproMessage.m_chunkQueueData caProMessage)
                               (CaproMessage.m_historyCapacity caProMessage) (m_chunkSenderData p) w in
        let responseMessage :=
          if negb (has_error ret) then CaproMessage.set_type CaproMessageType.ACK responseMessage else responseMessage in
        Done (Some responseMessage, set_sender s p, w)
    | CaproMessageType.UNSUB =>
        let* '(ret, s) := remove_queue (CaproMessage.m_chunkQueueData caProMessage) (m_chunkSenderData p) in
        let responseMessage :=
          if negb (has_error ret) then CaproMessage.set_type CaproMessageType.ACK responseMessage else responseMessage in
        Done (Some responseMessage, set_sender s p, w)
    | _ => Done (Some responseMessage, p, report_world POPO__CAPRO_PROTOCOL_ERROR SEVERE w)
    end
  else Done (Some responseMessage, p, w).

(** [locked]: the application died inside the distributor. *)
Definition releaseAllChunks (locked : bool) (p : t) (w : World) : outcome (t * World) :=
  let* '(s, w) := ChunkSender.releaseAll locked (m_chunkSenderData p) w in
  Done (set_sender s p, w).
End PublisherPortRouDi.

(** ** Subscriber *)

Module SubscribeState.
Inductive t := NOT_SUBSCRIBED | SUBSCRIBE_REQUESTED | SUBSCRIBED | UNSUBSCRIBE_REQUESTED | WAIT_FOR_OFFER.

#[global] Instance eq_dec : EqDecision t.
Proof. solve_decision. Defined.
End SubscribeState.

Module SubscriberPortData.
Record t := mk {
  base : BasePortData.t;
  m_chunkReceiverData : ChunkReceiver.t;
  m_options : SubscriberOptions.t;
  m_subscribeRequested : bool;
  m_subscriptionState : SubscribeState.t }.

Definition ctor (b : Build) (q : nat) (serviceDescription : ServiceDescription.t) (runtimeName : string)
    (queueType : VariantQueueTypes) (options : SubscriberOptions.t) (ids : UniqueIds.t) (w : World)
    : outcome (t * UniqueIds.t * World) :=
  let* '(base, ids) := BasePortData.ctor serviceDescription runtimeName (SubscriberOptions.nodeName options) ids in
  let* '(receiver, ids, w) :=
    new_receiver q (MAX_SUBSCRIBER_QUEUE_CAPACITY b) (MAX_CHUNKS_HELD_PER_SUBSCRIBER_SIMULTANEOUSLY b) queueType
      (SubscriberOptions.queueFullPolicy options) (SubscriberOptions.queueCapacity options) ids w in
  Done (mk base receiver options (SubscriberOptions.subscribeOnCreate options) SubscribeState.NOT_SUBSCRIBED, ids, w).

Definition set_base (v : BasePortData.t) (s : t) : t :=
  mk v (m_chunkReceiverData s) (m_options s) (m_subscribeRequested s) (m_subscriptionState s).
Definition set_receiver (v : ChunkReceiver.t) (s : t) : t :=
  mk (base s) v (m_options s) (m_subscribeRequested s) (m_subscriptionState s).
Definition set_requested (v : bool) (s : t) : t :=
  mk (base s) (m_chunkReceiverData s) (m_options s) v (m_subscriptionState s).
Definition set_state (v : SubscribeState.t) (s : t) : t :=
  mk (base s) (m_chunkReceiverData s) (m_options s) (m_subscribeRequested s) v.

Definition service (s : t) : ServiceDescription.t := BasePortData.m_serviceDescription (base s).
(** The address of the queue of the port. *)
Definition queue (s : t) : nat := ChunkReceiver.queue (m_chunkReceiverData s).
End SubscriberPortData.

Module SubscriberPortUser.
Import SubscriberPortData.

Definition subscribe (s : t) (w : World) : outcome (t * World) :=
  if negb (m_subscribeRequested s) then
    let* w := ChunkQueuePopper.clear (queue s) w in
    Done (set_requested true s, w)
  else Done (s, w).

Definition unsubscribe (s : t) : t := if m_subscribeRequested s then set_requested false s else s.
Definition getSubscriptionState (s : t) : SubscribeState.t := m_subscriptionState s.

Definition tryGetChunk (s : t) (w : World) : outcome (expected (option handle) ChunkReceiveResult * t * World) :=
  let* '(r, c, w) := ChunkReceiver.tryGet (m_chunkReceiverData s) w in
  Done (r, set_receiver c s, w).

Definition releaseChunk (chunkHeader : option handle) (s : t) (w : World) : outcome (t * World) :=
  let* '(c, w) := ChunkReceiver.release chunkHeader (m_chunkReceiverData s) w in
  Done (set_receiver c s, w).

Definition releaseQueuedChunks (s : t) (w : World) : outcome World := ChunkQueuePopper.clear (queue s) w.

Definition hasNewChunks (s : t) (w : World) : outcome bool :=
  let* e := ChunkQueuePopper.empty (queue s) w in Done (negb e).

Definition hasLostChunksSinceLastCall (s : t) (w : World) : outcome (bool * World) :=
  ChunkQueuePopper.hasLostChunks (queue s) w.

Definition setConditionVariable (conditionVariable : nat) (notificationIndex : Z) (s : t) (w : World) : outcome World :=
  ChunkQueuePopper.setConditionVariable (queue s) conditionVariable notificationIndex w.
Definition unsetConditionVariable (s : t) (w : World) : outcome World :=
  ChunkQueuePopper.unsetConditionVariable (queue s) w.
Definition isConditionVariableSet (s : t) (w : World) : outcome bool :=
  ChunkQueuePopper.isConditionVariableSet (queue s) w.
End SubscriberPortUser.

(** The SUB and UNSUB messages of a subscriber port. *)
Definition sub_message (s : SubscriberPortData.t) : CaproMessage.t :=
  CaproMessage.set_history (SubscriberOptions.historyRequest (SubscriberPortData.m_options s))
    (CaproMessage.set_queue (SubscriberPortData.queue s)
       (CaproMessage.ctor CaproMessageType.SUB (SubscriberPortData.service s) CaproServiceType.NONE None)).
Definition unsub_message (s : SubscriberPortData.t) : CaproMessage.t :=
  CaproMessage.set_queue (SubscriberPortData.queue s)
    (CaproMessage.ctor CaproMessageType.UNSUB (SubscriberPortData.service s) CaproServiceType.NONE None).

Module SubscriberPortMultiProducer.
Import SubscriberPortData.

Definition tryGetCaProMessage (s : t) : option CaproMessage.t * t :=
  if m_subscribeRequested s && bool_decide (m_subscriptionState s = SubscribeState.NOT_SUBSCRIBED) then
    let s := set_state SubscribeState.SUBSCRIBED s in (Some (sub_message s), s)
  else if negb (m_subscribeRequested s) && bool_decide (m_subscriptionState s = SubscribeState.SUBSCRIBED) then
    let s := set_state SubscribeState.NOT_SUBSCRIBED s in (Some (unsub_message s), s)
  else (None, s).

Definition dispatchCaProMessageAndGetPossibleResponse (caProMessage : CaproMessage.t) (s : t) (w : World)
    : option CaproMessage.t * t * World :=
  match CaproMessage.m_type caProMessage, m_subscriptionState s with
  | CaproMessageType.OFFER, SubscribeState.SUBSCRIBED => (Some (sub_message s), s, w)
  | CaproMessageType.OFFER, SubscribeState.NOT_SUBSCRIBED => (None, s, w)
  | CaproMessageType.ACK, _ | CaproMessageType.NACK, _ | CaproMessageType.STOP_OFFER, _ => (None, s, w)
  | _, _ => (None, s, report_world POPO__CAPRO_PROTOCOL_ERROR SEVERE w)
  end.
End SubscriberPortMultiProducer.

Module SubscriberPortSingleProducer.
Import SubscriberPortData.

Definition tryGetCaProMessage (s : t) : option CaproMessage.t * t :=
  if m_subscribeRequested s && bool_decide (m_subscriptionState s = SubscribeState.NOT_SUBSCRIBED) then
    let s := set_state SubscribeState.SUBSCRIBE_REQUESTED s in (Some (sub_message s), s)
  else if negb (m_subscribeRequested s) && bool_decide (m_subscriptionState s = SubscribeState.SUBSCRIBED) then
    let s := set_state SubscribeState.UNSUBSCRIBE_REQUESTED s in (Some (unsub_message s), s)
  else if negb (m_subscribeRequested s) && bool_decide (m_subscriptionState s = SubscribeState.WAIT_FOR_OFFER) then
    (None, set_state SubscribeState.NOT_SUBSCRIBED s)
  else (None, s).

Definition dispatchCaProMessageAndGetPossibleResponse (caProMessage : CaproMessage.t) (s : t) (w : World)
    : option CaproMessage.t * t * World :=
  match CaproMessage.m_type caProMessage, m_subscriptionState s with
  | CaproMessageType.OFFER, SubscribeState.WAIT_FOR_OFFER =>
      let s := set_state SubscribeState.SUBSCRIBE_REQUESTED s in (Some (sub_message s), s, w)
  | CaproMessageType.STOP_OFFER, SubscribeState.SUBSCRIBED => (None, set_state SubscribeState.WAIT_FOR_OFFER s, w)
  | CaproMessageType.ACK, SubscribeState.SUBSCRIBE_REQUESTED => (None, set_state SubscribeState.SUBSCRIBED s, w)
  | CaproMessageType.ACK, SubscribeState.UNSUBSCRIBE_REQUESTED => (None, set_state SubscribeState.NOT_SUBSCRIBED s, w)
  | CaproMessageType.NACK, SubscribeState.SUBSCRIBE_REQUESTED => (None, set_state SubscribeState.WAIT_FOR_OFFER s, w)
  | CaproMessageType.NACK, SubscribeState.UNSUBSCRIBE_REQUESTED => (None, set_state SubscribeState.NOT_SUBSCRIBED s, w)
  | CaproMessageType.ACK, _ | CaproMessageType.NACK, _ => (None, s, report_world POPO__CAPRO_PROTOCOL_ERROR MODERATE w)
  | CaproMessageType.OFFER, SubscribeState.NOT_SUBSCRIBED
  | CaproMessageType.STOP_OFFER, SubscribeState.NOT_SUBSCRIBED => (None, s, w)
  | _, _ => (None, s, report_world POPO__CAPRO_PROTOCOL_ERROR SEVERE w)
  end.
End SubscriberPortSingleProducer.

(** [SubscriberPortType], the RouDi side that the build selects. *)
Module SubscriberPortType.
Import SubscriberPortData.

Definition tryGetCaProMessage (b : Build) : t -> option CaproMessage.t * t :=
  match Policy b with
  | OneToManyPolicy => SubscriberPortSingleProducer.tryGetCaProMessage
  | ManyToManyPolicy => SubscriberPortMultiProducer.tryGetCaProMessage
  end.

Definition dispatchCaProMessageAndGetPossibleResponse (b : Build)
    : CaproMessage.t -> t -> World -> option CaproMessage.t * t * World :=
  match Policy b with
  | OneToManyPolicy => SubscriberPortSingleProducer.dispatchCaProMessageAndGetPossibleResponse
  | ManyToManyPolicy => SubscriberPortMultiProducer.dispatchCaProMessageAndGetPossibleResponse
  end.

Definition releaseAllChunks (s : t) (w : World) : outcome (t * World) :=
  let* '(c, w) := ChunkReceiver.releaseAll (m_chunkReceiverData s) w in
  Done (set_receiver c s, w).
End SubscriberPortType.

(** ** Interface port *)

Module InterfacePortData.
Record t := mk {
  base : BasePortData.t;
  m_caproMessageFiFo : FiFo.t CaproMessage.t;
  m_doInitialOfferForward : bool }.

Definition no_message : CaproMessage.t :=
  CaproMessage.ctor CaproMessageType.NOTYPE ServiceDescription.default_ctor CaproServiceType.NONE None.

Definition ctor (b : Build) (runtimeName : string) (interface : Interfaces.t) (ids : UniqueIds.t) : outcome (t * UniqueIds.t) :=
  let* '(base, ids) :=
    BasePortData.ctor (ServiceDescription.ctor "" "" "" [0; 0; 0; 0] interface) runtimeName "" ids in
  Done (mk base (FiFo.ctor no_message (MAX_INTERFACE_CAPRO_FIFO_SIZE b)) true, ids).

Definition set_fifo (v : FiFo.t CaproMessage.t) (i : t) : t := mk (base i) v (m_doInitialOfferForward i).
Definition set_forward (v : bool) (i : t) : t := mk (base i) (m_caproMessageFiFo i) v.
Definition service (i : t) : ServiceDescription.t := BasePortData.m_serviceDescription (base i).
End InterfacePortData.

Module InterfacePort.
Import InterfacePortData.

Definition tryGetCaProMessage (b : Build) (i : t) : option CaproMessage.t * t :=
  let '(m, f) := FiFo.pop no_message (MAX_INTERFACE_CAPRO_FIFO_SIZE b) (m_caproMessageFiFo i) in (m, set_fifo f i).

Definition dispatchCaProMessage (b : Build) (caProMessage : CaproMessage.t) (i : t) (w : World) : t * World :=
  let messageInterface := ServiceDescription.getSourceInterface (CaproMessage.m_serviceDescription caProMessage) in
  let myInterface := ServiceDescription.getSourceInterface (service i) in
  if negb (bool_decide (myInterface = Interfaces.INTERNAL)) && bool_decide (myInterface = messageInterface) then (i, w)
  else
    let '(pushed, f) := FiFo.push (MAX_INTERFACE_CAPRO_FIFO_SIZE b) (m_caproMessageFiFo i) caProMessage in
    (set_fifo f i, if pushed then w else report_world POSH__INTERFACEPORT_CAPRO_MESSAGE_DISMISSED SEVERE w).
End InterfacePort.
