(* ===== verification/ClientServerPorts.v ===== *)
(** * Client and server ports

    [client_port_user.cpp], [client_port_roudi.cpp], [server_port_user.cpp],
    [server_port_roudi.cpp] and [rpc_header.cpp].  A client sends requests into
    the queue of the server; the server routes each response into the queue of
    the client whose id the request header carries. *)

From S2P Require Import Prelude ChunkHeader MemoryManager SharedChunk UsedChunkList Queue VariantQueue.
From S2P Require Import ConditionVariable ChunkQueue ChunkDistributor ChunkSender CaPro PubSubPorts.

Definition MAX_REQUESTS_ALLOCATED_SIMULTANEOUSLY : Z := 4.
Definition MAX_RESPONSES_PROCESSED_SIMULTANEOUSLY : Z := 16.
Definition MAX_RESPONSE_QUEUE_CAPACITY : Z := 16.
Definition MAX_CLIENTS_PER_SERVER : Z := 256.
Definition MAX_REQUESTS_PROCESSED_SIMULTANEOUSLY : Z := 4.
Definition MAX_RESPONSES_ALLOCATED_SIMULTANEOUSLY : Z := MAX_REQUESTS_PROCESSED_SIMULTANEOUSLY.
Definition MAX_REQUEST_QUEUE_CAPACITY : Z := 1024.

(** ** RPC headers

    They live in the user header of a chunk.  [RpcMemory] maps the address of a
    user header to the object constructed there. *)

Module RpcHeader.
Record t := mk {
  m_rpcHeaderVersion : Z;
  m_lastKnownClientQueueIndex : Z;
  m_uniqueClientQueueId : Z;
  m_sequenceId : Z;
  m_hasServerError : bool (* responses only *) }.

Definition RPC_HEADER_VERSION : Z := 1.
Definition UNKNOWN_CLIENT_QUEUE_INDEX : Z := UINT32_MAX.
Definition START_SEQUENCE_ID : Z := 0.

Definition RequestHeader (uniqueClientQueueId lastKnownClientQueueIndex : Z) : t :=
  mk RPC_HEADER_VERSION lastKnownClientQueueIndex uniqueClientQueueId START_SEQUENCE_ID false.
Definition ResponseHeader (uniqueClientQueueId lastKnownClientQueueIndex sequenceId : Z) : t :=
  mk RPC_HEADER_VERSION lastKnownClientQueueIndex uniqueClientQueueId sequenceId false.

Definition setSequenceId (v : Z) (r : t) : t :=
  mk (m_rpcHeaderVersion r) (m_lastKnownClientQueueIndex r) (m_uniqueClientQueueId r) v (m_hasServerError r).
Definition setServerError (r : t) : t :=
  mk (m_rpcHeaderVersion r) (m_lastKnownClientQueueIndex r) (m_uniqueClientQueueId r) (m_sequenceId r) true.
Definition set_index (v : Z) (r : t) : t :=
  mk (m_rpcHeaderVersion r) v (m_uniqueClientQueueId r) (m_sequenceId r) (m_hasServerError r).

(** [sizeof] and [alignof] on a 64 bit platform. *)
Definition SIZEOF_REQUEST_HEADER : Z := 24.
Definition SIZEOF_RESPONSE_HEADER : Z := 32.
Definition ALIGNOF_RPC_HEADER : Z := 8.
End RpcHeader.

Definition RpcMemory := gmap handle RpcHeader.t.

Definition read_rpc (p : handle) (rpc : RpcMemory) : outcome RpcHeader.t :=
  match rpc !! p with Some r => Done r | None => Terminated UNDEFINED_BEHAVIOUR end.

(** [chunkHeader->userHeader()] and [rpcHeader->getChunkHeader()]. *)
Definition user_header (p : handle) (w : World) : outcome (option handle) :=
  let* hd := read_header p (heap w) in
  Done (pair (fst p) <$> ChunkHeader.userHeader (snd p) hd).
Definition chunk_header (p : handle) : option handle := pair (fst p) <$> ChunkHeader.fromUserHeader (Some (snd p)).

(** ** Client *)

Module ConnectionState.
Inductive t := NOT_CONNECTED | CONNECT_REQUESTED | CONNECTED | DISCONNECT_REQUESTED | WAIT_FOR_OFFER.

#[global] Instance eq_dec : EqDecision t.
Proof. solve_decision. Defined.
End ConnectionState.

(** [getResponseQueueType] and [getRequestQueueType] *)
Definition rpc_queue_type (policy : QueueFullPolicy.t) : VariantQueueTypes :=
  if bool_decide (policy = QueueFullPolicy.DISCARD_OLDEST_DATA) then SoFi_MultiProducerSingleConsumer
  else FiFo_MultiProducerSingleConsumer.

Module ClientPortData.
Record t := mk {
  base : BasePortData.t;
  m_chunkSenderData : ChunkSender.t;
  m_chunkReceiverData : ChunkReceiver.t;
  m_connectRequested : bool;
  m_connectionState : ConnectionState.t }.

Definition ctor (q : nat) (serviceDescription : ServiceDescription.t) (runtimeName : string)
    (options : ClientOptions.t) (memoryManager : nat) (ids : UniqueIds.t) (w : World) : outcome (t * UniqueIds.t * World) :=
  let* '(base, ids) := BasePortData.ctor serviceDescription runtimeName (ClientOptions.nodeName options) ids in
  let* '(sender, w) := new_sender 1 1 MAX_REQUESTS_ALLOCATED_SIMULTANEOUSLY memoryManager
                         (ClientOptions.serverTooSlowPolicy options) 0 w in
  let* '(receiver, ids, w) :=
    new_receiver q MAX_RESPONSE_QUEUE_CAPACITY MAX_RESPONSES_PROCESSED_SIMULTANEOUSLY
      (rpc_queue_type (ClientOptions.responseQueueFullPolicy options)) (ClientOptions.responseQueueFullPolicy options)
      (ClientOptions.responseQueueCapacity options) ids w in
  Done (mk base sender receiver (ClientOptions.connectOnCreate options) ConnectionState.NOT_CONNECTED, ids, w).

Definition set_base (v : BasePortData.t) (c : t) : t :=
  mk v (m_chunkSenderData c) (m_chunkReceiverData c) (m_connectRequested c) (m_connectionState c).
Definition set_sender (v : ChunkSender.t) (c : t) : t :=
  mk (base c) v (m_chunkReceiverData c) (m_connectRequested c) (m_connectionState c).
Definition set_receiver (v : ChunkReceiver.t) (c : t) : t :=
  mk (base c) (m_chunkSenderData c) v (m_connectRequested c) (m_connectionState c).
Definition set_requested (v : bool) (c : t) : t :=
  mk (base c) (m_chunkSenderData c) (m_chunkReceiverData c) v (m_connectionState c).
Definition set_state (v : ConnectionState.t) (c : t) : t :=
  mk (base c) (m_chunkSenderData c) (m_chunkReceiverData c) (m_connectRequested c) v.

Definition service (c : t) : ServiceDescription.t := BasePortData.m_serviceDescription (base c).
Definition queue (c : t) : nat := ChunkReceiver.queue (m_chunkReceiverData c).
Definition stored (c : t) : list nat := ChunkDistributor.m_queues (ChunkSender.dist (m_chunkSenderData c)).
End ClientPortData.

Inductive ClientSendError := NO_CONNECT_REQUESTED | SERVER_NOT_AVAILABLE | INVALID_REQUEST.

Module ClientPortUser.
Import ClientPortData.

(** [m_chunkReceiverData.m_uniqueId] of the queue at the address. *)
Definition allocateRequest (userPayloadSize userPayloadAlignment : Z) (c : t) (rpc : RpcMemory) (w : World)
    : outcome (expected (option handle) AllocationError * t * RpcMemory * World) :=
  let* '(allocateResult, s, w) :=
    ChunkSender.tryAllocate (BasePortData.m_uniqueId (base c)) userPayloadSize userPayloadAlignment
      RpcHeader.SIZEOF_REQUEST_HEADER RpcHeader.ALIGNOF_RPC_HEADER (m_chunkSenderData c) w in
  let c := set_sender s c in
  match allocateResult with
  | error e => Done (error e, c, rpc, w)
  | success p =>
      let* u := user_header p w in
      let* d := get_queue (queue c) w in
      match u with
      | None => Terminated UNDEFINED_BEHAVIOUR
      | Some u =>
          let header := RpcHeader.RequestHeader (ChunkQueueData.m_uniqueId d) RpcHeader.UNKNOWN_CLIENT_QUEUE_INDEX in
          Done (success (Some u), c, <[u := header]> rpc, w)
      end
  end.

Definition releaseRequest (requestHeader : option handle) (c : t) (w : World) : outcome (t * World) :=
  match requestHeader with
  | Some r => let* '(s, w) := ChunkSender.release (chunk_header r) (m_chunkSenderData c) w in Done (set_sender s c, w)
  | None => Done (c, report_world POPO__CLIENT_PORT_INVALID_REQUEST_TO_FREE_FROM_USER SEVERE w)
  end.

Definition sendRequest (rounds : list ChunkDistributor.interference) (requestHeader : option handle) (c : t) (w : World)
    : outcome (expected unit ClientSendError * t * World) :=
  match requestHeader with
  | None => Done (error INVALID_REQUEST, c, report_world POPO__CLIENT_PORT_INVALID_REQUEST_TO_SEND_FROM_USER SEVERE w)
  | Some r =>
      if negb (m_connectRequested c) then
        let* '(c, w) := releaseRequest (Some r) c w in
        Done (error NO_CONNECT_REQUESTED, c, w)
      else
        let* '(numberOfReceiver, s, w) := ChunkSender.send rounds (chunk_header r) (m_chunkSenderData c) w in
        let c := set_sender s c in
        if numberOfReceiver =? 0 then Done (error SERVER_NOT_AVAILABLE, c, w) else Done (success (), c, w)
  end.

Definition connect (c : t) : t := if negb (m_connectRequested c) then set_requested true c else c.
Definition disconnect (c : t) : t := if m_connectRequested c then set_requested false c else c.
Definition getConnectionState (c : t) : ConnectionState.t := m_connectionState c.

Definition getResponse (c : t) (w : World) : outcome (expected (option handle) ChunkReceiveResult * t * World) :=
  let* '(getChunkResult, r, w) := ChunkReceiver.tryGet (m_chunkReceiverData c) w in
  let c := set_receiver r c in
  match getChunkResult with
  | error e => Done (error e, c, w)
  | success None => Terminated UNDEFINED_BEHAVIOUR
  | success (Some p) => let* u := user_header p w in Done (success u, c, w)
  end.

Definition releaseResponse (responseHeader : option handle) (c : t) (w : World) : outcome (t * World) :=
  match responseHeader with
  | Some r => let* '(v, w) := ChunkReceiver.release (chunk_header r) (m_chunkReceiverData c) w in Done (set_receiver v c, w)
  | None => Done (c, report_world POPO__CLIENT_PORT_INVALID_RESPONSE_TO_RELEASE_FROM_USER SEVERE w)
  end.

Definition releaseQueuedResponses (c : t) (w : World) : outcome World := ChunkQueuePopper.clear (queue c) w.
Definition hasNewResponses (c : t) (w : World) : outcome bool :=
  let* e := ChunkQueuePopper.empty (queue c) w in Done (negb e).
Definition hasLostResponsesSinceLastCall (c : t) (w : World) : outcome (bool * World) :=
  ChunkQueuePopper.hasLostChunks (queue c) w.
End ClientPortUser.

(** The messages of a client port. *)
Definition connect_message (c : ClientPortData.t) : CaproMessage.t :=
  CaproMessage.set_history 0
    (CaproMessage.set_queue (ClientPortData.queue c)
       (CaproMessage.ctor CaproMessageType.CONNECT (ClientPortData.service c) CaproServiceType.NONE None)).
Definition disconnect_message (c : ClientPortData.t) : CaproMessage.t :=
  CaproMessage.set_queue (ClientPortData.queue c)
    (CaproMessage.ctor CaproMessageType.DISCONNECT (ClientPortData.service c) CaproServiceType.NONE None).

Module ClientPortRouDi.
Import ClientPortData.

Definition result : Type := outcome (option CaproMessage.t * t * World).

Definition getServerTooSlowPolicy (c : t) : ConsumerTooSlowPolicy.t :=
  ChunkDistributor.m_consumerTooSlowPolicy (ChunkSender.dist (m_chunkSenderData c)).

Definition handleCaProProtocolViolation (c : t) (w : World) : result :=
  Done (None, c, report_world POPO__CAPRO_PROTOCOL_ERROR SEVERE w).

Definition remove_all (c : t) : t :=
  let s := m_chunkSenderData c in
  set_sender (ChunkSender.set_dist (ChunkDistributor.removeAllQueues (ChunkSender.dist s)) s) c.

Definition handleCaProMessageForStateNotConnected (caProMessage : CaproMessage.t) (c : t) (w : World) : result :=
  match CaproMessage.m_type caProMessage with
  | CaproMessageType.CONNECT =>
      let c := set_state ConnectionState.CONNECT_REQUESTED c in Done (Some (connect_message c), c, w)
  | CaproMessageType.OFFER => Done (None, c, w)
  | _ => handleCaProProtocolViolation c w
  end.

Definition handleCaProMessageForStateConnectRequested (caProMessage : CaproMessage.t) (c : t) (w : World) : result :=
  match CaproMessage.m_type caProMessage with
  | CaproMessageType.ACK =>
      let* '(ret, s, w) := PublisherPortRouDi.add_queue (CaproMessage.m_chunkQueueData caProMessage)
                             (CaproMessage.m_historyCapacity caProMessage) (m_chunkSenderData c) w in
      expects (negb (has_error ret)) (Done (None, set_state ConnectionState.CONNECTED (set_sender s c), w))
  | CaproMessageType.NACK => Done (None, set_state ConnectionState.WAIT_FOR_OFFER c, w)
  | _ => handleCaProProtocolViolation c w
  end.

Definition handleCaProMessageForStateWaitForOffer (caProMessage : CaproMessage.t) (c : t) (w : World) : result :=
  match CaproMessage.m_type caProMessage with
  | CaproMessageType.OFFER =>
      let c := set_state ConnectionState.CONNECT_REQUESTED c in Done (Some (connect_message c), c, w)
  | CaproMessageType.DISCONNECT => Done (None, set_state ConnectionState.NOT_CONNECTED c, w)
  | _ => handleCaProProtocolViolation c w
  end.

Definition handleCaProMessageForStateConnected (caProMessage : CaproMessage.t) (c : t) (w : World) : result :=
  match CaproMessage.m_type caProMessage with
  | CaproMessageType.STOP_OFFER => Done (None, remove_all (set_state ConnectionState.WAIT_FOR_OFFER c), w)
  | CaproMessageType.DISCONNECT =>
      let c := remove_all (set_state ConnectionState.DISCONNECT_REQUESTED c) in Done (Some (disconnect_message c), c, w)
  | _ => handleCaProProtocolViolation c w
  end.

Definition handleCaProMessageForStateDisconnectRequested (caProMessage : CaproMessage.t) (c : t) (w : World) : result :=
  match CaproMessage.m_type caProMessage with
  | CaproMessageType.ACK | CaproMessageType.NACK => Done (None, set_state ConnectionState.NOT_CONNECTED c, w)
  | _ => handleCaProProtocolViolation c w
  end.

Definition dispatchCaProMessageAndGetPossibleResponse (caProMessage : CaproMessage.t) (c : t) (w : World) : result :=
  match m_connectionState c with
  | ConnectionState.NOT_CONNECTED => handleCaProMessageForStateNotConnected caProMessage c w
  | ConnectionState.CONNECT_REQUESTED => handleCaProMessageForStateConnectRequested caProMessage c w
  | ConnectionState.WAIT_FOR_OFFER => handleCaProMessageForStateWaitForOffer caProMessage c w
  | ConnectionState.CONNECTED => handleCaProMessageForStateConnected caProMessage c w
  | ConnectionState.DISCONNECT_REQUESTED => handleCaProMessageForStateDisconnectRequested caProMessage c w
  end.

Definition tryGetCaProMessage (c : t) (w : World) : result :=
  match m_connectionState c with
  | ConnectionState.NOT_CONNECTED =>
      if m_connectRequested c then
        dispatchCaProMessageAndGetPossibleResponse
          (CaproMessage.ctor CaproMessageType.CONNECT (service c) CaproServiceType.NONE None) c w
      else Done (None, c, w)
  | ConnectionState.WAIT_FOR_OFFER | ConnectionState.CONNECTED =>
      if negb (m_connectRequested c) then
        dispatchCaProMessageAndGetPossibleResponse
          (CaproMessage.ctor CaproMessageType.DISCONNECT (service c) CaproServiceType.NONE None) c w
      else Done (None, c, w)
  | _ => Done (None, c, w)
  end.

Definition releaseAllChunks (locked : bool) (c : t) (w : World) : outcome (t * World) :=
  let* '(s, w) := ChunkSender.releaseAll locked (m_chunkSenderData c) w in
  let* '(r, w) := ChunkReceiver.releaseAll (m_chunkReceiverData c) w in
  Done (set_receiver r (set_sender s c), w).
End ClientPortRouDi.

(** ** Server *)

Module ServerPortData.
Record t := mk {
  base : BasePortData.t;
  m_chunkSenderData : ChunkSender.t;
  m_chunkReceiverData : ChunkReceiver.t;
  m_offeringRequested : bool;
  m_offered : bool }.

Definition ctor (q : nat) (serviceDescription : ServiceDescription.t) (runtimeName : string)
    (options : ServerOptions.t) (memoryManager : nat) (ids : UniqueIds.t) (w : World) : outcome (t * UniqueIds.t * World) :=
  let* '(base, ids) := BasePortData.ctor serviceDescription runtimeName (ServerOptions.nodeName options) ids in
  let* '(sender, w) := new_sender MAX_CLIENTS_PER_SERVER 1 MAX_RESPONSES_ALLOCATED_SIMULTANEOUSLY memoryManager
                         (ServerOptions.clientTooSlowPolicy options) 0 w in
  let* '(receiver, ids, w) :=
    new_receiver q MAX_REQUEST_QUEUE_CAPACITY MAX_REQUESTS_PROCESSED_SIMULTANEOUSLY
      (rpc_queue_type (ServerOptions.requestQueueFullPolicy options)) (ServerOptions.requestQueueFullPolicy options)
      (ServerOptions.requestQueueCapacity options) ids w in
  Done (mk base sender receiver (ServerOptions.offerOnCreate options) false, ids, w).

Definition set_base (v : BasePortData.t) (s : t) : t :=
  mk v (m_chunkSenderData s) (m_chunkReceiverData s) (m_offeringRequested s) (m_offered s).
Definition set_sender (v : ChunkSender.t) (s : t) : t :=
  mk (base s) v (m_chunkReceiverData s) (m_offeringRequested s) (m_offered s).
Definition set_receiver (v : ChunkReceiver.t) (s : t) : t :=
  mk (base s) (m_chunkSenderData s) v (m_offeringRequested s) (m_offered s).
Definition set_requested (v : bool) (s : t) : t :=
  mk (base s) (m_chunkSenderData s) (m_chunkReceiverData s) v (m_offered s).
Definition set_offered (v : bool) (s : t) : t :=
  mk (base s) (m_chunkSenderData s) (m_chunkReceiverData s) (m_offeringRequested s) v.

Definition service (s : t) : ServiceDescription.t := BasePortData.m_serviceDescription (base s).
Definition queue (s : t) : nat := ChunkReceiver.queue (m_chunkReceiverData s).
Definition stored (s : t) : list nat := ChunkDistributor.m_queues (ChunkSender.dist (m_chunkSenderData s)).
End ServerPortData.

Inductive ServerRequestResult :=
  | TOO_MANY_REQUESTS_HELD_IN_PARALLEL
  | NO_PENDING_REQUESTS
  | UNDEFINED_CHUNK_RECEIVE_ERROR
  | NO_PENDING_REQUESTS_AND_SERVER_DOES_NOT_OFFER.

(** [cxx::from<ChunkReceiveResult, ServerRequestResult>] *)
Definition into_ServerRequestResult (e : ChunkReceiveResult) : ServerRequestResult :=
  match e with
  | TOO_MANY_CHUNKS_HELD_IN_PARALLEL => TOO_MANY_REQUESTS_HELD_IN_PARALLEL
  | NO_CHUNK_AVAILABLE => NO_PENDING_REQUESTS
  end.

Inductive ServerSendError := NOT_OFFERED | CLIENT_NOT_AVAILABLE | INVALID_RESPONSE.

Module ServerPortUser.
Import ServerPortData.

Definition isOffered (s : t) : bool := m_offeringRequested s.

Definition getRequest (s : t) (w : World) : outcome (expected (option handle) ServerRequestResult * t * World) :=
  let* '(getChunkResult, r, w) := ChunkReceiver.tryGet (m_chunkReceiverData s) w in
  let s := set_receiver r s in
  match getChunkResult with
  | error e =>
      if negb (isOffered s) then Done (error NO_PENDING_REQUESTS_AND_SERVER_DOES_NOT_OFFER, s, w)
      else Done (error (into_ServerRequestResult e), s, w)
  | success None => Terminated UNDEFINED_BEHAVIOUR
  | success (Some p) => let* u := user_header p w in Done (success u, s, w)
  end.

Definition releaseRequest (requestHeader : option handle) (s : t) (w : World) : outcome (t * World) :=
  match requestHeader with
  | Some r => let* '(v, w) := ChunkReceiver.release (chunk_header r) (m_chunkReceiverData s) w in Done (set_receiver v s, w)
  | None => Done (s, report_world POPO__SERVER_PORT_INVALID_REQUEST_TO_RELEASE_FROM_USER SEVERE w)
  end.

Definition releaseQueuedRequests (s : t) (w : World) : outcome World := ChunkQueuePopper.clear (queue s) w.
Definition hasNewRequests (s : t) (w : World) : outcome bool :=
  let* e := ChunkQueuePopper.empty (queue s) w in Done (negb e).
Definition hasLostRequestsSinceLastCall (s : t) (w : World) : outcome (bool * World) :=
  ChunkQueuePopper.hasLostChunks (queue s) w.

Definition allocateResponse (requestHeader : option handle) (userPayloadSize userPayloadAlignment : Z) (s : t)
    (rpc : RpcMemory) (w : World) : outcome (expected (option handle) AllocationError * t * RpcMemory * World) :=
  match requestHeader with
  | None => Done (error INVALID_PARAMETER_FOR_REQUEST_HEADER, s, rpc, w)
  | Some r =>
      let* '(allocateResult, c, w) :=
        ChunkSender.tryAllocate (BasePortData.m_uniqueId (base s)) userPayloadSize userPayloadAlignment
          RpcHeader.SIZEOF_RESPONSE_HEADER RpcHeader.ALIGNOF_RPC_HEADER (m_chunkSenderData s) w in
      let s := set_sender c s in
      match allocateResult with
      | error e => Done (error e, s, rpc, w)
      | success p =>
          let* u := user_header p w in
          match u with
          | None => Terminated UNDEFINED_BEHAVIOUR
          | Some u =>
              let* request := read_rpc r rpc in
              let header := RpcHeader.ResponseHeader (RpcHeader.m_uniqueClientQueueId request)
                              (RpcHeader.m_lastKnownClientQueueIndex request) (RpcHeader.m_sequenceId request) in
              Done (success (Some u), s, <[u := header]> rpc, w)
          end
      end
  end.

Definition releaseResponse (responseHeader : option handle) (s : t) (w : World) : outcome (t * World) :=
  match responseHeader with
  | Some r => let* '(v, w) := ChunkSender.release (chunk_header r) (m_chunkSenderData s) w in Done (set_sender v s, w)
  | None => Done (s, report_world POPO__SERVER_PORT_INVALID_RESPONSE_TO_FREE_FROM_USER SEVERE w)
  end.

Definition sendResponse (rounds : list ChunkDistributor.interference) (responseHeader : option handle) (s : t)
    (rpc : RpcMemory) (w : World) : outcome (expected unit ServerSendError * t * RpcMemory * World) :=
  match responseHeader with
  | None =>
      Done (error INVALID_RESPONSE, s, rpc, report_world POPO__SERVER_PORT_INVALID_RESPONSE_TO_SEND_FROM_USER SEVERE w)
  | Some r =>
      if negb (m_offeringRequested s) then
        let* '(s, w) := releaseResponse (Some r) s w in
        Done (error NOT_OFFERED, s, rpc, w)
      else
        let* header := read_rpc r rpc in
        let* queueIndex :=
          ChunkDistributor.getQueueIndex (ChunkSender.dist (m_chunkSenderData s))
            (RpcHeader.m_uniqueClientQueueId header) (RpcHeader.m_lastKnownClientQueueIndex header) w in
        let* '(responseSent, s, rpc, w) :=
          match queueIndex with
          | Some queueIndex =>
              let rpc := <[r := RpcHeader.set_index queueIndex header]> rpc in
              let* '(sent, v, w) :=
                ChunkSender.sendToQueue rounds (chunk_header r) (RpcHeader.m_uniqueClientQueueId header) queueIndex
                  (m_chunkSenderData s) w in
              Done (sent, set_sender v s, rpc, w)
          | None => let* '(s, w) := releaseResponse (Some r) s w in Done (false, s, rpc, w)
          end in
        if negb responseSent then Done (error CLIENT_NOT_AVAILABLE, s, rpc, w) else Done (success (), s, rpc, w)
  end.

Definition offer (s : t) : t := if negb (m_offeringRequested s) then set_requested true s else s.
Definition stopOffer (s : t) : t := if m_offeringRequested s then set_requested false s else s.
Definition hasClients (s : t) : bool := ChunkDistributor.hasStoredQueues (ChunkSender.dist (m_chunkSenderData s)).
End ServerPortUser.

Module ServerPortRouDi.
Import ServerPortData.

Definition result : Type := outcome (option CaproMessage.t * t * World).

Definition getClientTooSlowPolicy (s : t) : ConsumerTooSlowPolicy.t :=
  ChunkDistributor.m_consumerTooSlowPolicy (ChunkSender.dist (m_chunkSenderData s)).

Definition handleCaProProtocolViolation (s : t) (w : World) : result :=
  Done (None, s, report_world POPO__CAPRO_PROTOCOL_ERROR SEVERE w).

Definition handleCaProMessageForStateOffered (caProMessage : CaproMessage.t) (s : t) (w : World) : result :=
  let responseMessage := CaproMessage.ctor CaproMessageType.NACK (service s) CaproServiceType.NONE None in
  match CaproMessage.m_type caProMessage with
  | CaproMessageType.STOP_OFFER =>
      let s := set_offered false s in
      let v := m_chunkSenderData s in
      Done (Some caProMessage,
            set_sender (ChunkSender.set_dist (ChunkDistributor.removeAllQueues (ChunkSender.dist v)) v) s, w)
  | CaproMessageType.OFFER => Done (Some responseMessage, s, w)
  | CaproMessageType.CONNECT =>
      match CaproMessage.m_chunkQueueData caProMessage with
      | None =>
          Done (Some responseMessage, s, report_world POPO__SERVER_PORT_NO_CLIENT_RESPONSE_QUEUE_TO_CONNECT MODERATE w)
      | Some q =>
          let* '(ret, v, w) := PublisherPortRouDi.add_queue (Some q) (CaproMessage.m_historyCapacity caProMessage)
                                 (m_chunkSenderData s) w in
          let s := set_sender v s in
          let responseMessage :=
            if negb (has_error ret) then
              CaproMessage.set_history 0
                (CaproMessage.set_queue (queue s) (CaproMessage.set_type CaproMessageType.ACK responseMessage))
            else responseMessage in
          Done (Some responseMessage, s, w)
      end
  | CaproMessageType.DISCONNECT =>
      let* '(ret, v) := PublisherPortRouDi.remove_queue (CaproMessage.m_chunkQueueData caProMessage)
                          (m_chunkSenderData s) in
      let responseMessage :=
        if negb (has_error ret) then CaproMessage.set_type CaproMessageType.ACK responseMessage else responseMessage in
      Done (Some responseMessage, set_sender v s, w)
  | _ => handleCaProProtocolViolation s w
  end.

Definition handleCaProMessageForStateNotOffered (caProMessage : CaproMessage.t) (s : t) (w : World) : result :=
  match CaproMessage.m_type caProMessage with
  | CaproMessageType.OFFER => Done (Some caProMessage, set_offered true s, w)
  | CaproMessageType.STOP_OFFER | CaproMessageType.CONNECT | CaproMessageType.DISCONNECT =>
      Done (Some (CaproMessage.ctor CaproMessageType.NACK (service s) CaproServiceType.NONE None), s, w)
  | _ => handleCaProProtocolViolation s w
  end.

Definition dispatchCaProMessageAndGetPossibleResponse (caProMessage : CaproMessage.t) (s : t) (w : World) : result :=
  if m_offered s then handleCaProMessageForStateOffered caProMessage s w
  else handleCaProMessageForStateNotOffered caProMessage s w.

Definition tryGetCaProMessage (s : t) (w : World) : result :=
  if m_offered s then
    if negb (m_offeringRequested s) then
      dispatchCaProMessageAndGetPossibleResponse
        (CaproMessage.ctor CaproMessageType.STOP_OFFER (service s) CaproServiceType.SERVER None) s w
    else Done (None, s, w)
  else if m_offeringRequested s then
    dispatchCaProMessageAndGetPossibleResponse
      (CaproMessage.ctor CaproMessageType.OFFER (service s) CaproServiceType.SERVER None) s w
  else Done (None, s, w).

Definition releaseAllChunks (locked : bool) (s : t) (w : World) : outcome (t * World) :=
  let* '(v, w) := ChunkSender.releaseAll locked (m_chunkSenderData s) w in
  let* '(r, w) := ChunkReceiver.releaseAll (m_chunkReceiverData s) w in
  Done (set_receiver r (set_sender v s), w).
End ServerPortRouDi.
