(* ===== verification/ServiceRegistry.v ===== *)
(** * ServiceRegistry

    [service_registry.cpp]: the offered services with the number of publishers
    and servers that offer them, in a vector of slots that are reused. *)

From S2P Require Import Prelude CaPro.
From Stdlib Require Import String.

#[global] Open Scope Z_scope.

Module ServiceRegistry.

Inductive Error := SERVICE_REGISTRY_FULL.

(** [ServiceDescriptionEntry] *)
Record Entry := mkEntry {
  serviceDescription : ServiceDescription.t;
  publisherCount : Z;
  serverCount : Z }.

(** The member that the [count] parameter of [add] points to. *)
Inductive Count := Publisher | Server.

Definition get_count (c : Count) (e : Entry) : Z :=
  match c with Publisher => publisherCount e | Server => serverCount e end.
Definition set_count (c : Count) (v : Z) (e : Entry) : Entry :=
  match c with
  | Publisher => mkEntry (serviceDescription e) v (serverCount e)
  | Server => mkEntry (serviceDescription e) (publisherCount e) v
  end.
Definition other (c : Count) : Count := match c with Publisher => Server | Server => Publisher end.

Record t := mk {
  m_serviceDescriptions : list (option Entry);
  m_freeIndex : Z }.

Section ops.
Context (CAPACITY : Z).

Definition NO_INDEX : Z := CAPACITY.

Definition ctor : t := mk [] NO_INDEX.

Fixpoint findIndex_from (i : Z) (slots : list (option Entry)) (s : ServiceDescription.t) : Z :=
  match slots with
  | [] => NO_INDEX
  | Some e :: slots =>
      if ServiceDescription.eqb (serviceDescription e) s then i else findIndex_from (u32 (i + 1)) slots s
  | None :: slots => findIndex_from (u32 (i + 1)) slots s
  end.
Definition findIndex (r : t) (s : ServiceDescription.t) : Z := findIndex_from 0 (m_serviceDescriptions r) s.

(** [entry.emplace(serviceDescription); ( *entry).*count = 1U;] *)
Definition new_entry (s : ServiceDescription.t) (c : Count) : option Entry := Some (set_count c 1 (mkEntry s 0 0)).

(** The loop that searches for an empty slot from the start. *)
Fixpoint fill_first (slots : list (option Entry)) (x : option Entry) : option (list (option Entry)) :=
  match slots with
  | [] => None
  | None :: slots => Some (x :: slots)
  | e :: slots => match fill_first slots x with Some l => Some (e :: l) | None => None end
  end.

Definition add (s : ServiceDescription.t) (c : Count) (r : t) : expected unit Error * t :=
  let index := findIndex r s in
  if negb (index =? NO_INDEX) then
    match aget None (m_serviceDescriptions r) index with
    | Some e =>
        (success (),
         mk (aset (m_serviceDescriptions r) index (Some (set_count c (u64 (get_count c e + 1)) e))) (m_freeIndex r))
    | None => (success (), r)
    end
  else if negb (m_freeIndex r =? NO_INDEX) then
    (success (), mk (aset (m_serviceDescriptions r) (m_freeIndex r) (new_entry s c)) NO_INDEX)
  else
    match fill_first (m_serviceDescriptions r) (new_entry s c) with
    | Some slots => (success (), mk slots (m_freeIndex r))
    | None =>
        if Z.of_nat (List.length (m_serviceDescriptions r)) <? CAPACITY
        then (success (), mk (m_serviceDescriptions r ++ [new_entry s c]) (m_freeIndex r))
        else (error SERVICE_REGISTRY_FULL, r)
    end.

Definition addPublisher (s : ServiceDescription.t) (r : t) : expected unit Error * t := add s Publisher r.
Definition addServer (s : ServiceDescription.t) (r : t) : expected unit Error * t := add s Server r.

(** [removePublisher] and [removeServer] are the same code with the roles of
    the counters exchanged. *)
Definition remove (c : Count) (s : ServiceDescription.t) (r : t) : t :=
  let index := findIndex r s in
  if negb (index =? NO_INDEX) then
    match aget None (m_serviceDescriptions r) index with
    | Some e =>
        if 1 <=? get_count c e then
          let e := set_count c (get_count c e - 1) e in
          if (get_count c e =? 0) && (get_count (other c) e =? 0)
          then mk (aset (m_serviceDescriptions r) index None) index
          else mk (aset (m_serviceDescriptions r) index (Some e)) (m_freeIndex r)
        else r
    | None => r
    end
  else r.
Definition removePublisher : ServiceDescription.t -> t -> t := remove Publisher.
Definition removeServer : ServiceDescription.t -> t -> t := remove Server.

Definition purge (s : ServiceDescription.t) (r : t) : t :=
  let index := findIndex r s in
  if negb (index =? NO_INDEX) then mk (aset (m_serviceDescriptions r) index None) index else r.

(** [forEach] and [find] call a function for every entry in order; the model
    returns these entries. *)
Definition forEach (r : t) : list Entry := omap id (m_serviceDescriptions r).

Definition matches (x : option string) (y : string) : bool :=
  match x with Some x => bool_decide (y = x) | None => true end.

Definition find (service instance event : option string) (r : t) : list Entry :=
  List.filter (fun e =>
    matches service (ServiceDescription.m_serviceString (serviceDescription e)) &&
    matches instance (ServiceDescription.m_instanceString (serviceDescription e)) &&
    matches event (ServiceDescription.m_eventString (serviceDescription e))) (forEach r).

(** ** The abstract registry

    A finite map from the three strings of a service to its two counters. *)

Notation key := (string * string * string)%type.
Notation counts := (Z * Z)%type.

Definition entry_key (e : Entry) : key := ServiceDescription.key (serviceDescription e).
Definition entry_counts (e : Entry) : counts := (publisherCount e, serverCount e).
Definition to_map (r : t) : gmap key counts :=
  list_to_map ((fun e => (entry_key e, entry_counts e)) <$> forEach r).

Definition bump (c : Count) (d : Z) (x : counts) : counts :=
  match c with Publisher => (fst x + d, snd x) | Server => (fst x, snd x + d) end.
Definition pick (c : Count) (x : counts) : Z := match c with Publisher => fst x | Server => snd x end.

Definition spec_add (c : Count) (k : key) (m : gmap key counts) : expected unit Error * gmap key counts :=
  match m !! k with
  | Some x => (success (), <[k := bump c 1 x]> m)
  | None => if Z.of_nat (size m) <? CAPACITY then (success (), <[k := bump c 1 (0, 0)]> m)
            else (error SERVICE_REGISTRY_FULL, m)
  end.

Definition spec_remove (c : Count) (k : key) (m : gmap key counts) : gmap key counts :=
  match m !! k with
  | Some x => if 1 <=? pick c x
              then if bool_decide (bump c (-1) x = (0, 0)) then delete k m else <[k := bump c (-1) x]> m
              else m
  | None => m
  end.

Inductive op := OpAdd (c : Count) (s : ServiceDescription.t) | OpRemove (c : Count) (s : ServiceDescription.t)
  | OpPurge (s : ServiceDescription.t).

Definition run_op (o : op) (r : t) : expected unit Error * t :=
  match o with
  | OpAdd c s => add s c r
  | OpRemove c s => (success (), remove c s r)
  | OpPurge s => (success (), purge s r)
  end.

Definition spec_op (o : op) (m : gmap key counts) : expected unit Error * gmap key counts :=
  match o with
  | OpAdd c s => spec_add c (ServiceDescription.key s) m
  | OpRemove c s => (success (), spec_remove c (ServiceDescription.key s) m)
  | OpPurge s => (success (), delete (ServiceDescription.key s) m)
  end.

Definition run {S} (step : op -> S -> expected unit Error * S) (tr : list op) (s : S) : list (expected unit Error) * S :=
  foldl (fun '(res, s) o => let '(x, s) := step o s in (res ++ [x], s)) ([], s) tr.

(** ** Invariant

    [n] bounds the counters. *)
Record Inv (r : t) (n : Z) : Prop := {
  inv_length : Z.of_nat (List.length (m_serviceDescriptions r)) <= CAPACITY;
  inv_nodup : NoDup (entry_key <$> forEach r);
  inv_counts : Forall (fun e => 0 <= publisherCount e <= n /\ 0 <= serverCount e <= n /\
                                0 < publisherCount e + serverCount e) (forEach r);
  inv_free : m_freeIndex r = NO_INDEX \/
             0 <= m_freeIndex r /\ m_serviceDescriptions r !! Z.to_nat (m_freeIndex r) = Some None }.

Context (HC : 0 <= CAPACITY < 2 ^ 32).

Lemma findIndex_from_spec slots s : forall i, 0 <= i -> i + Z.of_nat (List.length slots) <= CAPACITY ->
  (findIndex_from i slots s = NO_INDEX /\ forall e, Some e ∈ slots -> entry_key e <> ServiceDescription.key s) \/
  exists j e, findIndex_from i slots s = i + Z.of_nat j /\ slots !! j = Some (Some e) /\
    entry_key e = ServiceDescription.key s.
Proof.
  induction slots as [|[e|] slots IH]; intros i Hi Hl; simpl in *.
  - left. split; [done|]. intros e He. by apply elem_of_nil in He.
  - rewrite ServiceDescription.eqb_key. case_bool_decide as E.
    + right. exists O, e. split; [lia|done].
    + rewrite u32_small by lia. destruct (IH (i + 1)) as [[-> H]|(j & e' & -> & H1 & H2)]; [lia|lia| |].
      * left. split; [done|]. intros e' [[= ->]|He]%elem_of_cons; [done|by apply H].
      * right. exists (S j), e'. split; [lia|done].
  - rewrite u32_small by lia. destruct (IH (i + 1)) as [[-> H]|(j & e' & -> & H1 & H2)]; [lia|lia| |].
    + left. split; [done|]. intros e' [?|He]%elem_of_cons; [done|by apply H].
    + right. exists (S j), e'. split; [lia|done].
Qed.

Lemma elem_of_forEach (e : Entry) (slots : list (option Entry)) : e ∈ omap id slots <-> Some e ∈ slots.
Proof. rewrite list_elem_of_omap. unfold id. split; [intros (x & Hx & E); simpl in E; by subst|eauto]. Qed.

Lemma slots_split (slots : list (option Entry)) j x : slots !! j = Some x ->
  exists l, omap id slots ≡ₚ omap id [x] ++ l /\ forall y, omap id (<[j := y]> slots) ≡ₚ omap id [y] ++ l.
Proof.
  revert j. induction slots as [|z slots IH]; intros [|j] H; simplify_eq/=.
  - exists (omap id slots). split; [by destruct x|]. intros y. by destruct y.
  - destruct (IH j H) as (l & E1 & E2). exists (omap id [z] ++ l).
    split; [|intros y; specialize (E2 y)]; destruct z as [z|]; simpl; rewrite ?E1, ?E2; simpl; done || solve_Permutation.
Qed.

(** *** The map of a list of entries *)

Definition pairs (l : list Entry) : list (key * counts) := (fun e => (entry_key e, entry_counts e)) <$> l.
Definition map_of (l : list Entry) : gmap key counts := list_to_map (pairs l).

Lemma fst_pairs l : (pairs l).*1 = entry_key <$> l.
Proof. unfold pairs. rewrite <- list_fmap_compose. done. Qed.

Lemma map_of_perm l l' : NoDup (entry_key <$> l) -> l ≡ₚ l' -> map_of l = map_of l'.
Proof.
  intros Hn E. apply list_to_map_proper; [by rewrite fst_pairs|]. unfold pairs. by rewrite E.
Qed.

Lemma map_of_lookup l e : NoDup (entry_key <$> l) -> e ∈ l -> map_of l !! entry_key e = Some (entry_counts e).
Proof.
  intros Hn He. apply elem_of_list_to_map_1; [by rewrite fst_pairs|]. apply list_elem_of_fmap. by exists e.
Qed.

Lemma map_of_none l k : (forall e, e ∈ l -> entry_key e <> k) -> map_of l !! k = None.
Proof.
  intros H. apply not_elem_of_list_to_map_1. rewrite fst_pairs. intros (e & -> & He)%list_elem_of_fmap. by apply (H e).
Qed.

Lemma map_of_size l : NoDup (entry_key <$> l) -> size (map_of l) = List.length l.
Proof.
  intros Hn. unfold map_of. rewrite map_size_list_to_map by (by rewrite fst_pairs). unfold pairs. apply length_fmap.
Qed.

(** *** Slots *)

Lemma fill_first_spec slots x :
  match fill_first slots x with
  | Some slots' => exists j, slots !! j = Some None /\ slots' = <[j := x]> slots
  | None => List.length (omap id slots) = List.length slots
  end.
Proof.
  induction slots as [|[e|] slots IH]; simpl; [done| |by exists O].
  destruct (fill_first slots x) as [l|]; [|exact (f_equal S IH)].
  destruct IH as (j & H & ->). by exists (S j).
Qed.

Lemma omap_length (slots : list (option Entry)) : (List.length (omap id slots) <= List.length slots)%nat.
Proof. induction slots as [|[e|] slots IH]; [done|exact (le_n_S _ _ IH)|exact (le_S _ _ IH)]. Qed.

Lemma free_slot_length (slots : list (option Entry)) j : slots !! j = Some None ->
  (List.length (omap id slots) < List.length slots)%nat.
Proof.
  revert j. induction slots as [|x slots IH]; intros [|j] H; simplify_eq.
  - simpl in H. simplify_eq. exact (le_n_S _ _ (omap_length slots)).
  - destruct x; [exact (le_n_S _ _ (IH j H))|exact (le_S _ _ (IH j H))].
Qed.

Lemma findIndex_cases r n s : Inv r n ->
  (findIndex r s = NO_INDEX /\ to_map r !! ServiceDescription.key s = None /\
   forall e, e ∈ forEach r -> entry_key e <> ServiceDescription.key s) \/
  exists j e l, findIndex r s = Z.of_nat j /\ findIndex r s <> NO_INDEX /\
    m_serviceDescriptions r !! j = Some (Some e) /\ entry_key e = ServiceDescription.key s /\
    forEach r ≡ₚ e :: l /\ (forall y, omap id (<[j := y]> (m_serviceDescriptions r)) ≡ₚ omap id [y] ++ l) /\
    to_map r = <[entry_key e := entry_counts e]> (map_of l) /\ NoDup (entry_key e :: (entry_key <$> l)).
Proof.
  intros []. unfold findIndex.
  destruct (findIndex_from_spec (m_serviceDescriptions r) s 0) as [[-> H]|(j & e & E & Hj & Hk)]; [lia|lia| |].
  - left. assert (H' : forall e, e ∈ forEach r -> entry_key e <> ServiceDescription.key s).
    { intros e He. apply H. by apply elem_of_forEach. }
    split; [done|]. split; [|done]. by apply map_of_none.
  - right. destruct (slots_split _ _ _ Hj) as (l & E1 & E2). exists j, e, l.
    pose proof (lookup_lt_Some _ _ _ Hj). unfold NO_INDEX. change (forEach r ≡ₚ e :: l) in E1.
    assert (Hn : NoDup (entry_key <$> e :: l)) by (by rewrite <- E1).
    rewrite E. split_and!; try done; [lia|]. change (map_of (forEach r) = map_of (e :: l)). by apply map_of_perm.
Qed.

Lemma aget_slot (l : list (option Entry)) j x : l !! j = Some x -> aget None l (Z.of_nat j) = x.
Proof. intros H. unfold aget. rewrite (proj2 (Z.ltb_ge _ _)) by lia. by rewrite Nat2Z.id, H. Qed.

Lemma aset_slot (l : list (option Entry)) j x : aset l (Z.of_nat j) x = <[j := x]> l.
Proof. unfold aset. rewrite (proj2 (Z.ltb_ge _ _)) by lia. by rewrite Nat2Z.id. Qed.

Lemma free_other r n j e y : Inv r n -> m_serviceDescriptions r !! j = Some (Some e) ->
  m_freeIndex r = NO_INDEX \/
  0 <= m_freeIndex r /\ <[j := y]> (m_serviceDescriptions r) !! Z.to_nat (m_freeIndex r) = Some None.
Proof.
  intros [] Hj. destruct inv_free0 as [|[H1 H2]]; [by left|right]. split; [done|].
  rewrite list_lookup_insert_ne; [done|]. intros ->. congruence.
Qed.

(** An entry with counters within [n]. *)
Definition good (n : Z) (e : Entry) : Prop :=
  0 <= publisherCount e <= n /\ 0 <= serverCount e <= n /\ 0 < publisherCount e + serverCount e.

Lemma good_mono n m e : n <= m -> good n e -> good m e.
Proof. unfold good. lia. Qed.

(** The slots change so that the entries become [l']. *)
Lemma inv_intro slots f n l' :
  Z.of_nat (List.length slots) <= CAPACITY -> omap id slots ≡ₚ l' -> NoDup (entry_key <$> l') -> Forall (good n) l' ->
  (f = NO_INDEX \/ 0 <= f /\ slots !! Z.to_nat f = Some None) ->
  Inv (mk slots f) n /\ to_map (mk slots f) = map_of l'.
Proof.
  intros Hl E Hn Hg Hf. unfold to_map, forEach. split.
  - constructor; unfold forEach; simpl; try done; by rewrite E.
  - apply (map_of_perm (omap id slots)); [by rewrite E|done].
Qed.

Lemma set_count_key c v e : entry_key (set_count c v e) = entry_key e.
Proof. by destruct c. Qed.

(** A new entry for a service that has none. *)
Lemma new_entry_ok r n s c slots :
  Inv r n -> 0 <= n -> (forall e, e ∈ forEach r -> entry_key e <> ServiceDescription.key s) ->
  Z.of_nat (List.length slots) <= CAPACITY -> omap id slots ≡ₚ omap id [new_entry s c] ++ forEach r ->
  Inv (mk slots NO_INDEX) (n + 1) /\
  to_map (mk slots NO_INDEX) = <[ServiceDescription.key s := bump c 1 (0, 0)]> (to_map r).
Proof.
  intros [] Hn Hk Hl E. simpl in E.
  destruct (inv_intro slots NO_INDEX (n + 1) _ Hl E) as [HI ->]; [| |by left|split; [done|by destruct c]].
  - simpl. apply NoDup_cons. split; [|done]. rewrite set_count_key.
    intros (e & E' & He)%list_elem_of_fmap. by apply (Hk e).
  - constructor; [unfold good; destruct c; simpl; lia|].
    eapply Forall_impl; [exact inv_counts0|]. intros e. apply good_mono. lia.
Qed.

Lemma good_split r n e l : Inv r n -> forEach r ≡ₚ e :: l -> good n e /\ Forall (good n) l.
Proof. intros [] Hp. apply Forall_cons. by rewrite <- Hp. Qed.

Lemma add_ok r n s c : Inv r n -> 0 <= n -> n + 1 < 2 ^ 64 ->
  Inv (snd (add s c r)) (n + 1) /\
  spec_add c (ServiceDescription.key s) (to_map r) = (fst (add s c r), to_map (snd (add s c r))).
Proof.
  intros HI Hn0 Hn. pose proof HI as []. unfold add, spec_add.
  assert (Hsize : size (to_map r) = List.length (forEach r)) by (by apply map_of_size).
  destruct (findIndex_cases r n s HI) as [(-> & Hnone & Hk)|(j & e & l & E & Hne & Hj & Hk & Hp & Hp' & Hm & Hd)].
  - rewrite Z.eqb_refl, Hnone, Hsize. simpl.
    assert (Hfill : forall j, m_serviceDescriptions r !! j = Some None ->
      (Z.of_nat (List.length (forEach r)) <? CAPACITY) = true /\
      Inv (mk (<[j := new_entry s c]> (m_serviceDescriptions r)) NO_INDEX) (n + 1) /\
      to_map (mk (<[j := new_entry s c]> (m_serviceDescriptions r)) NO_INDEX) =
        <[ServiceDescription.key s := bump c 1 (0, 0)]> (to_map r)).
    { intros j Hj. pose proof (free_slot_length _ _ Hj) as Hlt. split; [apply Z.ltb_lt; unfold forEach; lia|].
      destruct (slots_split _ _ _ Hj) as (l & E1 & E2). simpl in E1.
      apply new_entry_ok; try done; [by rewrite length_insert|]. rewrite E2. unfold forEach. by rewrite E1. }
    destruct (Z.eqb_spec (m_freeIndex r) NO_INDEX) as [Ef|Ef]; simpl.
    + pose proof (fill_first_spec (m_serviceDescriptions r) (new_entry s c)) as Hf.
      destruct (fill_first _ _) as [slots|].
      * destruct Hf as (j & Hj & ->). destruct (Hfill j Hj) as (-> & H1 & H2). simpl. rewrite Ef. by rewrite H2.
      * unfold forEach. rewrite Hf. destruct (Z.ltb_spec (Z.of_nat (List.length (m_serviceDescriptions r))) CAPACITY); simpl.
        -- rewrite Ef. destruct (new_entry_ok r n s c (m_serviceDescriptions r ++ [new_entry s c])) as [H1 H2]; try done.
           { rewrite length_app. simpl. lia. }
           { rewrite omap_app. unfold forEach. solve_Permutation. }
           by rewrite H2.
        -- split; [|done]. constructor; try done. eapply Forall_impl; [exact inv_counts0|]. intros e. apply good_mono. lia.
    + destruct inv_free0 as [|[H0 Hj]]; [done|]. destruct (Hfill _ Hj) as (-> & H1 & H2).
      unfold aset. rewrite (proj2 (Z.ltb_ge _ _)) by lia. simpl. by rewrite H2.
  - rewrite (proj2 (Z.eqb_neq _ _) Hne), E, (aget_slot _ _ _ Hj). simpl. rewrite aset_slot, Hm, Hk, lookup_insert_eq.
    destruct (good_split r n e l HI Hp) as [He Hl].
    destruct (inv_intro (<[j := Some (set_count c (u64 (get_count c e + 1)) e)]> (m_serviceDescriptions r)) (m_freeIndex r)
      (n + 1) (set_count c (u64 (get_count c e + 1)) e :: l)) as [H1 ->].
    + by rewrite length_insert.
    + apply Hp'.
    + simpl. by rewrite set_count_key.
    + constructor; [|eapply Forall_impl; [exact Hl|]; intros x; apply good_mono; lia].
      unfold good in *. destruct c; simpl; rewrite u64_small by lia; lia.
    + by apply (free_other r n j e).
    + split; [done|]. f_equal. unfold map_of. simpl. rewrite set_count_key, Hk, insert_insert_eq. f_equal.
      unfold good in He. destruct c; simpl; unfold entry_counts; simpl; by rewrite u64_small by lia.
Qed.

(** The entry [e] of slot [j] is replaced or removed. *)
Lemma update_slot r n j e l y f :
  Inv r n -> m_serviceDescriptions r !! j = Some (Some e) -> forEach r ≡ₚ e :: l ->
  (forall y, omap id (<[j := y]> (m_serviceDescriptions r)) ≡ₚ omap id [y] ++ l) ->
  match y with
  | Some e' => entry_key e' = entry_key e /\ good n e' /\ f = m_freeIndex r
  | None => f = Z.of_nat j
  end ->
  Inv (mk (<[j := y]> (m_serviceDescriptions r)) f) n /\
  to_map (mk (<[j := y]> (m_serviceDescriptions r)) f) = map_of (omap id [y] ++ l).
Proof.
  intros HI Hj Hp Hp' Hy. destruct (good_split r n e l HI Hp) as [_ Hl].
  assert (Hd : NoDup (entry_key <$> e :: l)) by (rewrite <- Hp; apply HI).
  apply inv_intro; [rewrite length_insert; apply HI|apply Hp'| | |]; destruct y as [e'|]; simpl in *.
  - destruct Hy as (-> & _). done.
  - by apply NoDup_cons in Hd as [_ Hd].
  - constructor; [apply Hy|done].
  - done.
  - destruct Hy as (_ & _ & ->). by apply (free_other r n j e).
  - right. subst f. rewrite Nat2Z.id. split; [lia|]. apply list_lookup_insert_eq. by eapply lookup_lt_Some.
Qed.

Lemma registry_remove_ok r n s c : Inv r n -> 0 <= n ->
  Inv (remove c s r) n /\ to_map (remove c s r) = spec_remove c (ServiceDescription.key s) (to_map r).
Proof.
  intros HI Hn0. unfold remove, spec_remove.
  destruct (findIndex_cases r n s HI) as [(-> & -> & _)|(j & e & l & E & Hne & Hj & Hk & Hp & Hp' & Hm & Hd)].
  { rewrite Z.eqb_refl. done. }
  rewrite (proj2 (Z.eqb_neq _ _) Hne), E, (aget_slot _ _ _ Hj). simpl. rewrite !aset_slot, Hm, Hk, lookup_insert_eq.
  destruct (good_split r n e l HI Hp) as [He Hl]. unfold good in He.
  assert (Ec : get_count c e = pick c (entry_counts e)) by (by destruct c). rewrite Ec.
  destruct (Z.leb_spec 1 (pick c (entry_counts e))) as [H1|]; [|by rewrite Hm, Hk].
  set (e' := set_count c (pick c (entry_counts e) - 1) e).
  assert (Ee : entry_counts e' = bump c (-1) (entry_counts e)) by (unfold e'; by destruct c).
  assert (Et : (get_count c e' =? 0) && (get_count (other c) e' =? 0) = bool_decide (bump c (-1) (entry_counts e) = (0, 0))).
  { rewrite <- Ee. unfold entry_counts. apply eq_true_iff_eq. rewrite andb_true_iff, !Z.eqb_eq, bool_decide_eq_true.
    destruct c; simpl; split; [intros [-> ->]|intros [= -> ->]|intros [-> ->]|intros [= -> ->]]; done. }
  rewrite Et. case_bool_decide as E0.
  - destruct (update_slot r n j e l None (Z.of_nat j)) as [H2 ->]; try done. split; [done|]. simpl.
    symmetry. apply delete_insert_id, map_of_none. rewrite <- Hk.
    intros x Hx Ex. apply NoDup_cons in Hd as [Hd _]. apply Hd, list_elem_of_fmap. by exists x.
  - destruct (update_slot r n j e l (Some e') (m_freeIndex r)) as [H2 ->]; try done.
    { unfold e'. rewrite set_count_key. split; [done|]. split; [|done]. rewrite <- Ee in E0.
      assert (0 < publisherCount e' + serverCount e').
      { destruct (Z.eq_dec (publisherCount e' + serverCount e') 0) as [E1|E1].
        - exfalso. apply E0. unfold entry_counts. unfold e' in *. destruct c; simpl in *; f_equal; lia.
        - unfold e' in *. destruct c; simpl in *; lia. }
      unfold good. unfold e' in *. destruct c; simpl in *; lia. }
    split; [done|]. unfold map_of. simpl. rewrite Ee, insert_insert_eq. unfold e'. by rewrite set_count_key, Hk.
Qed.

Lemma purge_ok r n s : Inv r n ->
  Inv (purge s r) n /\ to_map (purge s r) = delete (ServiceDescription.key s) (to_map r).
Proof.
  intros HI. unfold purge.
  destruct (findIndex_cases r n s HI) as [(-> & H & _)|(j & e & l & E & Hne & Hj & Hk & Hp & Hp' & Hm & Hd)].
  { rewrite Z.eqb_refl. simpl. by rewrite delete_id. }
  rewrite (proj2 (Z.eqb_neq _ _) Hne), E. simpl. rewrite aset_slot.
  destruct (update_slot r n j e l None (Z.of_nat j)) as [H2 ->]; try done. split; [done|]. simpl.
  rewrite Hm, Hk. symmetry. apply delete_insert_id, map_of_none. rewrite <- Hk.
  intros x Hx Ex. apply NoDup_cons in Hd as [Hd _]. apply Hd, list_elem_of_fmap. by exists x.
Qed.

Lemma run_op_ok o r n : Inv r n -> 0 <= n -> n + 1 < 2 ^ 64 ->
  Inv (snd (run_op o r)) (n + 1) /\ spec_op o (to_map r) = (fst (run_op o r), to_map (snd (run_op o r))).
Proof.
  intros HI H0 Hn.
  assert (Hw : forall r', Inv r' n -> Inv r' (n + 1)).
  { intros r' []. constructor; try done. eapply Forall_impl; [exact inv_counts0|]. intros e. apply good_mono. lia. }
  destruct o as [c s|c s|s]; simpl.
  - by apply add_ok.
  - destruct (registry_remove_ok r n s c HI H0) as [H1 ->]. split; [by apply Hw|done].
  - destruct (purge_ok r n s HI) as [H1 ->]. split; [by apply Hw|done].
Qed.

Lemma run_snoc {S} (step : op -> S -> expected unit Error * S) tr o s :
  run step (tr ++ [o]) s =
  (fst (run step tr s) ++ [fst (step o (snd (run step tr s)))], snd (step o (snd (run step tr s)))).
Proof.
  unfold run. rewrite foldl_snoc. destruct (foldl _ _ tr) as [res s']. simpl. by destruct (step o s').
Qed.

Lemma run_ok tr : Z.of_nat (List.length tr) < 2 ^ 64 ->
  Inv (snd (run run_op tr ctor)) (Z.of_nat (List.length tr)) /\
  run spec_op tr ∅ = (fst (run run_op tr ctor), to_map (snd (run run_op tr ctor))).
Proof.
  induction tr as [|o tr IH] using rev_ind; intros Hl.
  - split; [|done]. constructor; simpl; [lia|by apply NoDup_nil_2|by constructor|by left].
  - rewrite length_app in *. simpl in *. destruct IH as [HI E]; [lia|]. rewrite !run_snoc, E. simpl.
    destruct (run_op_ok o _ _ HI) as [H1 H2]; [lia|lia|]. rewrite H2. simpl. split; [|done].
    by replace (Z.of_nat (List.length tr + 1)) with (Z.of_nat (List.length tr) + 1) by lia.
Qed.
End ops.

(** C12: for every sequence of additions, removals and purges from the empty registry, the slots represent the map
    that the multi-set specification computes (a counter pair per service, no pair (0,0)), and every addition reports
    SERVICE_REGISTRY_FULL exactly when the specification does: the service is new and CAPACITY different services are
    stored.  In particular slot reuse through [m_freeIndex] never overwrites an entry. *)
Theorem registry_refines_multiset CAPACITY tr :
  0 <= CAPACITY < 2 ^ 32 -> Z.of_nat (List.length tr) < 2 ^ 64 ->
  let '(results, r) := run (run_op CAPACITY) tr (ctor CAPACITY) in
  run (spec_op CAPACITY) tr ∅ = (results, to_map r).
Proof.
  intros HC Hl. destruct (run_ok CAPACITY HC tr Hl) as [_ E].
  destruct (run (run_op CAPACITY) tr (ctor CAPACITY)) as [results r]. done.
Qed.

Definition sample_service (name : string) : ServiceDescription.t :=
  ServiceDescription.ctor name "i" "e" [0; 0; 0; 0] Interfaces.INTERNAL.

Definition sample_trace : list op :=
  [OpAdd Publisher (sample_service "a"); OpAdd Server (sample_service "b"); OpAdd Publisher (sample_service "c");
   OpRemove Publisher (sample_service "a"); OpAdd Server (sample_service "c"); OpAdd Publisher (sample_service "d")].

Lemma registry_refines_multiset_witness :
  let '(results, r) := run (run_op 2) sample_trace (ctor 2) in
  results = [success (); success (); error SERVICE_REGISTRY_FULL; success (); success (); error SERVICE_REGISTRY_FULL] /\
  run (spec_op 2) sample_trace ∅ = (results, to_map r).
Proof.
  assert (H := registry_refines_multiset 2 sample_trace ltac:(lia) ltac:(vm_compute; reflexivity)).
  revert H. destruct (run (run_op 2) sample_trace (ctor 2)) as [results r] eqn:E. intros H. split; [|exact H].
  vm_compute in E. congruence.
Defined.

(** [find] calls its function for exactly the registered services whose three strings match the given ones, a
    missing string matching everything, each service once. *)
Theorem registry_find_exact CAPACITY tr service instance event :
  0 <= CAPACITY < 2 ^ 32 -> Z.of_nat (List.length tr) < 2 ^ 64 ->
  let r := snd (run (run_op CAPACITY) tr (ctor CAPACITY)) in
  NoDup (entry_key <$> find service instance event r) /\
  forall s i e x, (exists entry, entry ∈ find service instance event r /\ entry_key entry = (s, i, e) /\
                     entry_counts entry = x) <->
    to_map r !! (s, i, e) = Some x /\ matches service s = true /\ matches instance i = true /\ matches event e = true.
Proof.
  intros HC Hl r. destruct (run_ok CAPACITY HC tr Hl) as [HI _]. fold r in HI. pose proof HI as [_ Hn _ _].
  assert (Hf : forall entry, entry ∈ find service instance event r <-> entry ∈ forEach r /\
    matches service (ServiceDescription.m_serviceString (serviceDescription entry)) = true /\
    matches instance (ServiceDescription.m_instanceString (serviceDescription entry)) = true /\
    matches event (ServiceDescription.m_eventString (serviceDescription entry)) = true).
  { intros entry. unfold find. rewrite list_elem_of_In, filter_In, <- list_elem_of_In, !andb_true_iff. tauto. }
  split.
  - unfold find. revert Hn. generalize (forEach r). intros l Hn. induction l as [|a l IH]; [done|].
    apply NoDup_cons in Hn as [Ha Hn]. simpl. destruct (_ && _); [|by apply IH]. simpl. apply NoDup_cons.
    split; [|by apply IH]. intros (b & Eb & Hb)%list_elem_of_fmap. apply Ha, list_elem_of_fmap. exists b.
    split; [done|]. apply list_elem_of_In in Hb. apply filter_In in Hb as [Hb _]. by apply list_elem_of_In.
  - intros s i e x. split.
    + intros (entry & (He & H1 & H2 & H3)%Hf & Ek & <-). pose proof (map_of_lookup _ _ Hn He) as Hl'.
      rewrite Ek in Hl'. injection Ek as <- <- <-. done.
    + intros (Hx & H1 & H2 & H3). apply elem_of_list_to_map_2 in Hx.
      apply list_elem_of_fmap in Hx as (entry & E & He). injection E as -> -> -> ->. exists entry. split; [|done].
      by apply Hf.
Qed.

Lemma registry_find_exact_witness :
  let r := snd (run (run_op 8) sample_trace (ctor 8)) in
  find None (Some "i") None r <> [] /\
  (exists entry, entry ∈ find (Some "c") None None r /\ entry_key entry = ("c", "i", "e") /\ entry_counts entry = (1, 1)).
Proof.
  intros r. split; [vm_compute; discriminate|].
  apply (registry_find_exact 8 sample_trace (Some "c") None None ltac:(lia) ltac:(vm_compute; reflexivity)).
  split; [vm_compute; reflexivity|]. split; [apply bool_decide_eq_true; reflexivity|done].
Defined.
End ServiceRegistry.
