(* ===== verification/PortPool.v ===== *)
(** * PortPool

    [port_pool.cpp] and [port_pool_data.inl]: the fixed tables that all ports
    live in.  A pointer to a port is its table and slot.  The chunk queues of the
    subscriber, server and client tables are the queues of the shared memory, in
    this order. *)

From S2P Require Import Prelude ChunkHeader MemoryManager SharedChunk Queue VariantQueue ConditionVariable.
From S2P Require Import ChunkQueue ChunkDistributor ChunkSender CaPro PubSubPorts ClientServerPorts.

(** [FixedPositionContainer<T, Capacity>] *)
Module FixedPositionContainer.
Section ops.
Context {T : Type} (Capacity : Z).
Implicit Types m_data : list (option T).

Definition hasFreeSpace m_data : bool :=
  (Z.of_nat (length m_data) <? Capacity) || existsb (fun e => match e with None => true | Some _ => false end) m_data.

(** The slot that [insert] uses: the first empty one, or a new one. *)
Fixpoint free_slot m_data : nat :=
  match m_data with
  | Some _ :: m_data => S (free_slot m_data)
  | _ => O
  end.

Definition put (i : nat) (x : option T) m_data : list (option T) :=
  if bool_decide (i < length m_data)%nat then <[i := x]> m_data else m_data ++ [x].

Definition erase (i : nat) m_data : list (option T) := <[i := None]> m_data.

(** [content]: the pointers to the elements, in order. *)
Definition content m_data : list nat :=
  omap (fun '(i, e) => match e with Some _ => Some i | None => None end) (zip (seq 0 (length m_data)) m_data).

(** Following a pointer. *)
Definition get (i : nat) m_data : outcome T :=
  match m_data !! i with Some (Some x) => Done x | _ => Terminated UNDEFINED_BEHAVIOUR end.
End ops.

Section lemmas.
Context {T : Type}.
Implicit Types m_data : list (option T).

Lemma get_Done i m_data x : get i m_data = Done x <-> m_data !! i = Some (Some x).
Proof. unfold get. destruct (m_data !! i) as [[y|]|]; split; intros; simplify_eq; done. Qed.

Lemma free_slot_spec m_data : m_data !! free_slot m_data = Some None \/ free_slot m_data = length m_data.
Proof.
  induction m_data as [|[x|] m_data IH]; simpl; [by right| |by left]. destruct IH as [|E]; [by left|right; by rewrite E].
Qed.

Lemma lookup_put i j x m_data : m_data !! i = Some None \/ i = length m_data ->
  put i x m_data !! j = if decide (i = j) then Some x else m_data !! j.
Proof.
  intros H. unfold put. case_bool_decide.
  - case_decide; subst; [by apply list_lookup_insert_eq|by apply list_lookup_insert_ne].
  - destruct H as [H| ->]; [apply lookup_lt_Some in H; lia|]. case_decide; subst.
    + by rewrite lookup_app_r, Nat.sub_diag by lia.
    + destruct (decide (j < length m_data)%nat); [by rewrite lookup_app_l|].
      rewrite lookup_app_r, (lookup_ge_None_2 m_data) by lia. destruct (j - length m_data)%nat eqn:E; [lia|done].
Qed.

Lemma elem_of_content i m_data : i ∈ content m_data <-> exists x, m_data !! i = Some (Some x).
Proof.
  unfold content. rewrite list_elem_of_omap. split.
  - intros ([j e] & Hin & E). destruct e as [x|]; simplify_eq. exists x.
    apply list_elem_of_lookup in Hin as (k & Hk). apply lookup_zip_Some in Hk as [Hk1 Hk2].
    apply lookup_seq in Hk1 as [-> _]. done.
  - intros [x Hx]. exists (i, Some x). split; [|done]. apply list_elem_of_lookup. exists i.
    apply lookup_zip_Some. split; [|done]. apply lookup_seq. split; [done|]. by eapply lookup_lt_Some.
Qed.
End lemmas.
End FixedPositionContainer.

Inductive PortPoolError :=
  | UNIQUE_PUBLISHER_PORT_ALREADY_EXISTS
  | INTERNAL_SERVICE_DESCRIPTION_IS_FORBIDDEN
  | PUBLISHER_PORT_LIST_FULL
  | SUBSCRIBER_PORT_LIST_FULL
  | INTERFACE_PORT_LIST_FULL
  | CLIENT_PORT_LIST_FULL
  | UNIQUE_SERVER_PORT_ALREADY_EXISTS
  | SERVER_PORT_LIST_FULL
  | NODE_DATA_LIST_FULL
  | CONDITION_VARIABLE_LIST_FULL
  | EVENT_VARIABLE_LIST_FULL.

Definition MAX_CLIENTS (b : Build) : Z := MAX_SUBSCRIBERS b.
Definition MAX_SERVERS (b : Build) : Z := MAX_PUBLISHERS b.
Definition MAX_NODE_NUMBER : Z := 1000.
Definition MAX_NUMBER_OF_CONDITION_VARIABLES : Z := 1024.

Module NodeData.
Record t := mk {
  m_runtimeName : string;
  m_nodeName : string;
  m_nodeDeviceIdentifier : Z;
  m_toBeDestroyed : bool }.
End NodeData.

(** What RouDi looks at in a [ConditionVariableData]; its other members are the
    condition variable of the same index in the shared memory. *)
Module ConditionVariableInfo.
Record t := mk { m_runtimeName : string; m_toBeDestroyed : bool }.
End ConditionVariableInfo.

(** [PortPoolData], with the shared memory and the id counters the constructors
    of the ports use. *)
Module PortPool.
Record t := mk {
  m_interfacePortMembers : list (option InterfacePortData.t);
  m_nodeMembers : list (option NodeData.t);
  m_conditionVariableMembers : list (option ConditionVariableInfo.t);
  m_publisherPortMembers : list (option PublisherPortData.t);
  m_subscriberPortMembers : list (option SubscriberPortData.t);
  m_serverPortMembers : list (option ServerPortData.t);
  m_clientPortMembers : list (option ClientPortData.t);
  world : World;
  ids : UniqueIds.t }.

Definition set_interfaces v p := mk v (m_nodeMembers p) (m_conditionVariableMembers p) (m_publisherPortMembers p)
  (m_subscriberPortMembers p) (m_serverPortMembers p) (m_clientPortMembers p) (world p) (ids p).
Definition set_nodes v p := mk (m_interfacePortMembers p) v (m_conditionVariableMembers p) (m_publisherPortMembers p)
  (m_subscriberPortMembers p) (m_serverPortMembers p) (m_clientPortMembers p) (world p) (ids p).
Definition set_condition_variables v p := mk (m_interfacePortMembers p) (m_nodeMembers p) v (m_publisherPortMembers p)
  (m_subscriberPortMembers p) (m_serverPortMembers p) (m_clientPortMembers p) (world p) (ids p).
Definition set_publishers v p := mk (m_interfacePortMembers p) (m_nodeMembers p) (m_conditionVariableMembers p) v
  (m_subscriberPortMembers p) (m_serverPortMembers p) (m_clientPortMembers p) (world p) (ids p).
Definition set_subscribers v p := mk (m_interfacePortMembers p) (m_nodeMembers p) (m_conditionVariableMembers p)
  (m_publisherPortMembers p) v (m_serverPortMembers p) (m_clientPortMembers p) (world p) (ids p).
Definition set_servers v p := mk (m_interfacePortMembers p) (m_nodeMembers p) (m_conditionVariableMembers p)
  (m_publisherPortMembers p) (m_subscriberPortMembers p) v (m_clientPortMembers p) (world p) (ids p).
Definition set_clients v p := mk (m_interfacePortMembers p) (m_nodeMembers p) (m_conditionVariableMembers p)
  (m_publisherPortMembers p) (m_subscriberPortMembers p) (m_serverPortMembers p) v (world p) (ids p).
Definition set_world v p := mk (m_interfacePortMembers p) (m_nodeMembers p) (m_conditionVariableMembers p)
  (m_publisherPortMembers p) (m_subscriberPortMembers p) (m_serverPortMembers p) (m_clientPortMembers p) v (ids p).
Definition set_ids v p := mk (m_interfacePortMembers p) (m_nodeMembers p) (m_conditionVariableMembers p)
  (m_publisherPortMembers p) (m_subscriberPortMembers p) (m_serverPortMembers p) (m_clientPortMembers p) (world p) v.

Definition report_error (e : Error) (l : ErrorLevel) (p : t) : t := set_world (report_world e l (world p)) p.

Section ops.
Context (b : Build).

(** The addresses of the queues. *)
Definition subscriber_queue (slot : nat) : nat := slot.
Definition server_queue (slot : nat) : nat := (Z.to_nat (MAX_SUBSCRIBERS b) + slot)%nat.
Definition client_queue (slot : nat) : nat := (Z.to_nat (MAX_SUBSCRIBERS b) + Z.to_nat (MAX_SERVERS b) + slot)%nat.

Definition addInterfacePort (runtimeName : string) (interface : Interfaces.t) (p : t)
    : outcome (expected nat PortPoolError * t) :=
  if FixedPositionContainer.hasFreeSpace (MAX_INTERFACE_NUMBER b) (m_interfacePortMembers p) then
    let i := FixedPositionContainer.free_slot (m_interfacePortMembers p) in
    let* '(d, ids) := InterfacePortData.ctor b runtimeName interface (ids p) in
    Done (success i, set_ids ids (set_interfaces (FixedPositionContainer.put i (Some d) (m_interfacePortMembers p)) p))
  else Done (error INTERFACE_PORT_LIST_FULL, report_error PORT_POOL__INTERFACELIST_OVERFLOW MODERATE p).

Definition addNodeData (runtimeName nodeName : string) (nodeDeviceIdentifier : Z) (p : t) : expected nat PortPoolError * t :=
  if FixedPositionContainer.hasFreeSpace MAX_NODE_NUMBER (m_nodeMembers p) then
    let i := FixedPositionContainer.free_slot (m_nodeMembers p) in
    (success i, set_nodes (FixedPositionContainer.put i (Some (NodeData.mk runtimeName nodeName nodeDeviceIdentifier false))
                             (m_nodeMembers p)) p)
  else (error NODE_DATA_LIST_FULL, report_error PORT_POOL__NODELIST_OVERFLOW MODERATE p).

Definition addConditionVariableData (runtimeName : string) (p : t) : expected nat PortPoolError * t :=
  if FixedPositionContainer.hasFreeSpace MAX_NUMBER_OF_CONDITION_VARIABLES (m_conditionVariableMembers p) then
    let i := FixedPositionContainer.free_slot (m_conditionVariableMembers p) in
    let p := set_condition_variables
               (FixedPositionContainer.put i (Some (ConditionVariableInfo.mk runtimeName false))
                  (m_conditionVariableMembers p)) p in
    (success i, set_world (set_condvar i (ConditionVariable.ctor (Z.to_nat (MAX_NUMBER_OF_NOTIFIERS b))) (world p)) p)
  else (error CONDITION_VARIABLE_LIST_FULL, report_error PORT_POOL__CONDITION_VARIABLE_LIST_OVERFLOW MODERATE p).

Definition addPublisherPort (service : ServiceDescription.t) (memoryManager : nat) (runtimeName : string)
    (options : PublisherOptions.t) (p : t) : outcome (expected nat PortPoolError * t) :=
  if FixedPositionContainer.hasFreeSpace (MAX_PUBLISHERS b) (m_publisherPortMembers p) then
    let i := FixedPositionContainer.free_slot (m_publisherPortMembers p) in
    let* '(d, ids, w) := PublisherPortData.ctor b service runtimeName memoryManager options (ids p) (world p) in
    Done (success i, set_world w (set_ids ids
            (set_publishers (FixedPositionContainer.put i (Some d) (m_publisherPortMembers p)) p)))
  else Done (error PUBLISHER_PORT_LIST_FULL, report_error PORT_POOL__PUBLISHERLIST_OVERFLOW MODERATE p).

(** The queue type that [constructSubscriber] selects. *)
Definition subscriber_queue_type (policy : QueueFullPolicy.t) : VariantQueueTypes :=
  match Policy b with
  | ManyToManyPolicy =>
      if bool_decide (policy = QueueFullPolicy.DISCARD_OLDEST_DATA) then SoFi_MultiProducerSingleConsumer
      else FiFo_MultiProducerSingleConsumer
  | OneToManyPolicy =>
      if bool_decide (policy = QueueFullPolicy.DISCARD_OLDEST_DATA) then SoFi_SingleProducerSingleConsumer
      else FiFo_SingleProducerSingleConsumer
  end.

Definition addSubscriberPort (service : ServiceDescription.t) (runtimeName : string) (options : SubscriberOptions.t) (p : t)
    : outcome (expected nat PortPoolError * t) :=
  if FixedPositionContainer.hasFreeSpace (MAX_SUBSCRIBERS b) (m_subscriberPortMembers p) then
    let i := FixedPositionContainer.free_slot (m_subscriberPortMembers p) in
    let* '(d, ids, w) :=
      SubscriberPortData.ctor b (subscriber_queue i) service runtimeName
        (subscriber_queue_type (SubscriberOptions.queueFullPolicy options)) options (ids p) (world p) in
    Done (success i, set_world w (set_ids ids
            (set_subscribers (FixedPositionContainer.put i (Some d) (m_subscriberPortMembers p)) p)))
  else Done (error SUBSCRIBER_PORT_LIST_FULL, report_error PORT_POOL__SUBSCRIBERLIST_OVERFLOW MODERATE p).

Definition addClientPort (service : ServiceDescription.t) (memoryManager : nat) (runtimeName : string)
    (options : ClientOptions.t) (p : t) : outcome (expected nat PortPoolError * t) :=
  if negb (FixedPositionContainer.hasFreeSpace (MAX_CLIENTS b) (m_clientPortMembers p)) then
    Done (error CLIENT_PORT_LIST_FULL, report_error PORT_POOL__CLIENTLIST_OVERFLOW MODERATE p)
  else
    let i := FixedPositionContainer.free_slot (m_clientPortMembers p) in
    let* '(d, ids, w) :=
      ClientPortData.ctor (client_queue i) service runtimeName options memoryManager (ids p) (world p) in
    Done (success i, set_world w (set_ids ids
            (set_clients (FixedPositionContainer.put i (Some d) (m_clientPortMembers p)) p))).

Definition addServerPort (service : ServiceDescription.t) (memoryManager : nat) (runtimeName : string)
    (options : ServerOptions.t) (p : t) : outcome (expected nat PortPoolError * t) :=
  if negb (FixedPositionContainer.hasFreeSpace (MAX_SERVERS b) (m_serverPortMembers p)) then
    Done (error SERVER_PORT_LIST_FULL, report_error PORT_POOL__SERVERLIST_OVERFLOW MODERATE p)
  else
    let i := FixedPositionContainer.free_slot (m_serverPortMembers p) in
    let* '(d, ids, w) :=
      ServerPortData.ctor (server_queue i) service runtimeName options memoryManager (ids p) (world p) in
    Done (success i, set_world w (set_ids ids
            (set_servers (FixedPositionContainer.put i (Some d) (m_serverPortMembers p)) p))).

Definition removeInterfacePort (i : nat) (p : t) : t :=
  set_interfaces (FixedPositionContainer.erase i (m_interfacePortMembers p)) p.
Definition removeNodeData (i : nat) (p : t) : t := set_nodes (FixedPositionContainer.erase i (m_nodeMembers p)) p.
Definition removeConditionVariableData (i : nat) (p : t) : t :=
  set_condition_variables (FixedPositionContainer.erase i (m_conditionVariableMembers p)) p.
Definition removePublisherPort (i : nat) (p : t) : t :=
  set_publishers (FixedPositionContainer.erase i (m_publisherPortMembers p)) p.
Definition removeSubscriberPort (i : nat) (p : t) : t :=
  set_subscribers (FixedPositionContainer.erase i (m_subscriberPortMembers p)) p.
Definition removeClientPort (i : nat) (p : t) : t :=
  set_clients (FixedPositionContainer.erase i (m_clientPortMembers p)) p.
Definition removeServerPort (i : nat) (p : t) : t :=
  set_servers (FixedPositionContainer.erase i (m_serverPortMembers p)) p.
End ops.
End PortPool.
