(* ===== verification/PortManager.v ===== *)
(** * PortManager

    [port_manager.cpp]: the part of RouDi that creates and destroys ports and
    that connects publishers with subscribers and clients with servers by
    passing CaPro messages between their RouDi sides.  The port introspection,
    which only observes, is left out. *)

From S2P Require Import Prelude ChunkHeader MemoryManager SharedChunk Queue VariantQueue ConditionVariable.
From S2P Require Import ChunkQueue ChunkDistributor ChunkSender CaPro PubSubPorts ClientServerPorts.
From S2P Require Import ServiceRegistry PortPool.

Definition IPC_CHANNEL_ROUDI_NAME : string := "roudi".
Definition NUMBER_OF_INTERNAL_PUBLISHERS : Z := 6.
Definition SERVICE_REGISTRY_CAPACITY (b : Build) : Z := MAX_PUBLISHERS b + MAX_SERVERS b.
Definition CHUNK_NO_USER_HEADER_SIZE : Z := 0.
Definition CHUNK_NO_USER_HEADER_ALIGNMENT : Z := 1.

Module PortManager.

(** [samples]: the registries that were written into the payload of chunks, by
    the address of the chunk header. *)
Record t := mk {
  m_portPool : PortPool.t;
  m_serviceRegistry : ServiceRegistry.t;
  m_serviceRegistryPublisherPortData : option nat;
  m_internalServices : list ServiceDescription.t;
  samples : gmap handle ServiceRegistry.t }.

Definition set_pool v s := mk v (m_serviceRegistry s) (m_serviceRegistryPublisherPortData s) (m_internalServices s) (samples s).
Definition set_registry v s := mk (m_portPool s) v (m_serviceRegistryPublisherPortData s) (m_internalServices s) (samples s).
Definition set_registry_port v s := mk (m_portPool s) (m_serviceRegistry s) v (m_internalServices s) (samples s).
Definition set_internal v s := mk (m_portPool s) (m_serviceRegistry s) (m_serviceRegistryPublisherPortData s) v (samples s).
Definition set_samples v s :=
  mk (m_portPool s) (m_serviceRegistry s) (m_serviceRegistryPublisherPortData s) (m_internalServices s) v.

Definition world (s : t) : World := PortPool.world (m_portPool s).
Definition set_world (w : World) (s : t) : t := set_pool (PortPool.set_world w (m_portPool s)) s.
Definition report_error (e : Error) (l : ErrorLevel) (s : t) : t := set_world (report_world e l (world s)) s.

(** Access to ports through their pointers. *)
Definition publishers (s : t) := PortPool.m_publisherPortMembers (m_portPool s).
Definition subscribers (s : t) := PortPool.m_subscriberPortMembers (m_portPool s).
Definition servers (s : t) := PortPool.m_serverPortMembers (m_portPool s).
Definition clients (s : t) := PortPool.m_clientPortMembers (m_portPool s).
Definition interfaces (s : t) := PortPool.m_interfacePortMembers (m_portPool s).
Definition nodes (s : t) := PortPool.m_nodeMembers (m_portPool s).
Definition condition_variables (s : t) := PortPool.m_conditionVariableMembers (m_portPool s).

Definition get_publisher (i : nat) (s : t) : outcome PublisherPortData.t := FixedPositionContainer.get i (publishers s).
Definition put_publisher (i : nat) (p : PublisherPortData.t) (w : World) (s : t) : t :=
  set_pool (PortPool.set_world w (PortPool.set_publishers (<[i := Some p]> (publishers s)) (m_portPool s))) s.
Definition get_subscriber (i : nat) (s : t) : outcome SubscriberPortData.t := FixedPositionContainer.get i (subscribers s).
Definition put_subscriber (i : nat) (p : SubscriberPortData.t) (w : World) (s : t) : t :=
  set_pool (PortPool.set_world w (PortPool.set_subscribers (<[i := Some p]> (subscribers s)) (m_portPool s))) s.
Definition get_server (i : nat) (s : t) : outcome ServerPortData.t := FixedPositionContainer.get i (servers s).
Definition put_server (i : nat) (p : ServerPortData.t) (w : World) (s : t) : t :=
  set_pool (PortPool.set_world w (PortPool.set_servers (<[i := Some p]> (servers s)) (m_portPool s))) s.
Definition get_client (i : nat) (s : t) : outcome ClientPortData.t := FixedPositionContainer.get i (clients s).
Definition put_client (i : nat) (p : ClientPortData.t) (w : World) (s : t) : t :=
  set_pool (PortPool.set_world w (PortPool.set_clients (<[i := Some p]> (clients s)) (m_portPool s))) s.
Definition get_interface (i : nat) (s : t) : outcome InterfacePortData.t := FixedPositionContainer.get i (interfaces s).
Definition put_interface (i : nat) (p : InterfacePortData.t) (w : World) (s : t) : t :=
  set_pool (PortPool.set_world w (PortPool.set_interfaces (<[i := Some p]> (interfaces s)) (m_portPool s))) s.

(** [for (auto x : list) body] *)
Fixpoint for_each (body : nat -> t -> outcome t) (l : list nat) (s : t) : outcome t :=
  match l with
  | [] => Done s
  | i :: l => let* s := body i s in for_each body l s
  end.

Section ops.
Context (b : Build).
(** [sizeof(ServiceRegistry)] and [alignof(ServiceRegistry)]. *)
Context (sizeof_registry alignof_registry : Z).
(** Whether the application died while it held the lock of the distributor of
    the port with this id. *)
Context (lock_held : Z -> bool).

(** ** Service registry *)

Definition publishServiceRegistry (s : t) : outcome t :=
  match m_serviceRegistryPublisherPortData s with
  | None => Done s
  | Some i =>
      let* p := get_publisher i s in
      let* '(r, p, w) :=
        PublisherPortUser.tryAllocateChunk sizeof_registry alignof_registry CHUNK_NO_USER_HEADER_SIZE
          CHUNK_NO_USER_HEADER_ALIGNMENT p (world s) in
      match r with
      | error _ => Done (put_publisher i p w s)
      | success chunk =>
          let* '(p, w) := PublisherPortUser.sendChunk [] (Some chunk) p w in
          Done (set_samples (<[chunk := m_serviceRegistry s]> (samples s)) (put_publisher i p w s))
      end
  end.

Definition addToServiceRegistry (c : ServiceRegistry.Count) (service : ServiceDescription.t) (s : t) : outcome t :=
  let '(r, registry) := ServiceRegistry.add (SERVICE_REGISTRY_CAPACITY b) service c (m_serviceRegistry s) in
  let s := set_registry registry s in
  let s := if has_error r then report_error POSH__PORT_MANAGER_COULD_NOT_ADD_SERVICE_TO_REGISTRY MODERATE s else s in
  publishServiceRegistry s.
Definition addPublisherToServiceRegistry : ServiceDescription.t -> t -> outcome t :=
  addToServiceRegistry ServiceRegistry.Publisher.
Definition addServerToServiceRegistry : ServiceDescription.t -> t -> outcome t :=
  addToServiceRegistry ServiceRegistry.Server.

Definition removeFromServiceRegistry (c : ServiceRegistry.Count) (service : ServiceDescription.t) (s : t) : outcome t :=
  publishServiceRegistry
    (set_registry (ServiceRegistry.remove (SERVICE_REGISTRY_CAPACITY b) c service (m_serviceRegistry s)) s).
Definition removePublisherFromServiceRegistry : ServiceDescription.t -> t -> outcome t :=
  removeFromServiceRegistry ServiceRegistry.Publisher.
Definition removeServerFromServiceRegistry : ServiceDescription.t -> t -> outcome t :=
  removeFromServiceRegistry ServiceRegistry.Server.

(** ** Publish-subscribe connections *)

Definition isCompatiblePubSub (publisher : PublisherPortData.t) (subscriber : SubscriberPortData.t) : bool :=
  if ServiceDescription.neqb (SubscriberPortData.service subscriber) (PublisherPortData.service publisher) then false
  else
    let pubOpts := PublisherPortData.m_options publisher in
    let subOpts := SubscriberPortData.m_options subscriber in
    let blockingPoliciesAreCompatible :=
      negb (bool_decide (PublisherOptions.subscriberTooSlowPolicy pubOpts = ConsumerTooSlowPolicy.DISCARD_OLDEST_DATA)
            && bool_decide (SubscriberOptions.queueFullPolicy subOpts = QueueFullPolicy.BLOCK_PRODUCER)) in
    let historyRequestIsCompatible :=
      negb (SubscriberOptions.requiresPublisherHistorySupport subOpts) || (0 <? PublisherOptions.historyCapacity pubOpts) in
    blockingPoliciesAreCompatible && historyRequestIsCompatible.

(** The condition of the [break] in the two loops below. *)
Definition same_external_interface (port message : ServiceDescription.t) : bool :=
  negb (bool_decide (ServiceDescription.getSourceInterface port = Interfaces.INTERNAL))
  && bool_decide (ServiceDescription.getSourceInterface port = ServiceDescription.getSourceInterface message).

(** The loop of [sendToAllMatchingPublisherPorts] over the publishers [ps]. *)
Fixpoint to_publishers (message : CaproMessage.t) (j : nat) (ps : list nat) (publisherFound : bool) (s : t)
    : outcome (bool * t) :=
  match ps with
  | [] => Done (publisherFound, s)
  | i :: ps =>
      let* p := get_publisher i s in
      if same_external_interface (PublisherPortData.service p) (CaproMessage.m_serviceDescription message)
      then Done (publisherFound, s)
      else
        let* sub := get_subscriber j s in
        if isCompatiblePubSub p sub then
          let* '(publisherResponse, p, w) :=
            PublisherPortRouDi.dispatchCaProMessageAndGetPossibleResponse message p (world s) in
          let s := put_publisher i p w s in
          match publisherResponse with
          | Some response =>
              let '(returnMessage, sub, w) :=
                SubscriberPortType.dispatchCaProMessageAndGetPossibleResponse b response sub (world s) in
              let s := put_subscriber j sub w s in
              expects (match returnMessage with None => true | Some _ => false end) (to_publishers message j ps true s)
          | None => to_publishers message j ps true s
          end
        else to_publishers message j ps publisherFound s
  end.

Definition sendToAllMatchingPublisherPorts (message : CaproMessage.t) (j : nat) (s : t) : outcome (bool * t) :=
  to_publishers message j (FixedPositionContainer.content (publishers s)) false s.

(** The loop of [sendToAllMatchingSubscriberPorts] over the subscribers [js]. *)
Fixpoint to_subscribers (message : CaproMessage.t) (i : nat) (js : list nat) (s : t) : outcome t :=
  match js with
  | [] => Done s
  | j :: js =>
      let* sub := get_subscriber j s in
      if same_external_interface (SubscriberPortData.service sub) (CaproMessage.m_serviceDescription message)
      then Done s
      else
        let* p := get_publisher i s in
        if isCompatiblePubSub p sub then
          let '(subscriberResponse, sub, w) :=
            SubscriberPortType.dispatchCaProMessageAndGetPossibleResponse b message sub (world s) in
          let s := put_subscriber j sub w s in
          match subscriberResponse with
          | None => to_subscribers message i js s
          | Some subscriberResponse =>
              expects (bool_decide (CaproMessage.m_type message = CaproMessageType.OFFER))
                (let* '(publisherResponse, p, w) :=
                   PublisherPortRouDi.dispatchCaProMessageAndGetPossibleResponse subscriberResponse p (world s) in
                 let s := put_publisher i p w s in
                 match publisherResponse with
                 | None => to_subscribers message i js s
                 | Some publisherResponse =>
                     let '(returnMessage, sub, w) :=
                       SubscriberPortType.dispatchCaProMessageAndGetPossibleResponse b publisherResponse sub (world s) in
                     let s := put_subscriber j sub w s in
                     expects (match returnMessage with None => true | Some _ => false end)
                       (to_subscribers message i js s)
                 end)
          end
        else to_subscribers message i js s
  end.

Definition sendToAllMatchingSubscriberPorts (message : CaproMessage.t) (i : nat) (s : t) : outcome t :=
  to_subscribers message i (FixedPositionContainer.content (subscribers s)) s.

Definition sendToAllMatchingInterfacePorts (message : CaproMessage.t) (s : t) : outcome t :=
  for_each (fun k s =>
    let* i := get_interface k s in
    if negb (bool_decide (ServiceDescription.getSourceInterface (CaproMessage.m_serviceDescription message)
                          = ServiceDescription.getSourceInterface (InterfacePortData.service i)))
    then let '(i, w) := InterfacePort.dispatchCaProMessage b message i (world s) in Done (put_interface k i w s)
    else Done s) (FixedPositionContainer.content (interfaces s)) s.

Definition doDiscoveryForPublisherPort (i : nat) (s : t) : outcome t :=
  let* p := get_publisher i s in
  let '(maybeMessage, p) := PublisherPortRouDi.tryGetCaProMessage p in
  let s := put_publisher i p (world s) s in
  match maybeMessage with
  | None => Done s
  | Some caproMessage =>
      let continue s :=
        let* s := sendToAllMatchingSubscriberPorts caproMessage i s in
        sendToAllMatchingInterfacePorts caproMessage s in
      match CaproMessage.m_type caproMessage with
      | CaproMessageType.OFFER =>
          let* s := addPublisherToServiceRegistry (CaproMessage.m_serviceDescription caproMessage) s in continue s
      | CaproMessageType.STOP_OFFER =>
          let* s := removePublisherFromServiceRegistry (CaproMessage.m_serviceDescription caproMessage) s in continue s
      | _ => Done (report_error PORT_MANAGER__HANDLE_PUBLISHER_PORTS_INVALID_CAPRO_MESSAGE MODERATE s)
      end
  end.

Definition destroyPublisherPort (i : nat) (s : t) : outcome t :=
  let* p := get_publisher i s in
  let p := PublisherPortUser.stopOffer p in
  let '(maybeMessage, p) := PublisherPortRouDi.tryGetCaProMessage p in
  let s := put_publisher i p (world s) s in
  let* s :=
    match maybeMessage with
    | None => Done s
    | Some caproMessage =>
        expects (bool_decide (CaproMessage.m_type caproMessage = CaproMessageType.STOP_OFFER))
          (let* s := removePublisherFromServiceRegistry (CaproMessage.m_serviceDescription caproMessage) s in
           let* s := sendToAllMatchingSubscriberPorts caproMessage i s in
           sendToAllMatchingInterfacePorts caproMessage s)
    end in
  let* p := get_publisher i s in
  let* '(p, w) :=
    PublisherPortRouDi.releaseAllChunks (lock_held (BasePortData.m_uniqueId (PublisherPortData.base p))) p (world s) in
  let s := put_publisher i p w s in
  Done (set_pool (PortPool.removePublisherPort i (m_portPool s)) s).

Definition handlePublisherPorts (s : t) : outcome t :=
  for_each (fun i s =>
    let* s := doDiscoveryForPublisherPort i s in
    let* p := get_publisher i s in
    if BasePortData.m_toBeDestroyed (PublisherPortData.base p) then destroyPublisherPort i s else Done s)
    (FixedPositionContainer.content (publishers s)) s.

Definition doDiscoveryForSubscriberPort (j : nat) (s : t) : outcome t :=
  let* sub := get_subscriber j s in
  let '(maybeMessage, sub) := SubscriberPortType.tryGetCaProMessage b sub in
  let s := put_subscriber j sub (world s) s in
  match maybeMessage with
  | None => Done s
  | Some caproMessage =>
      match CaproMessage.m_type caproMessage with
      | CaproMessageType.SUB | CaproMessageType.UNSUB =>
          let* '(found, s) := sendToAllMatchingPublisherPorts caproMessage j s in
          if found : bool then Done s
          else
            let* sub := get_subscriber j s in
            let nackMessage :=
              CaproMessage.ctor CaproMessageType.NACK (SubscriberPortData.service sub) CaproServiceType.NONE None in
            let '(returnMessage, sub, w) :=
              SubscriberPortType.dispatchCaProMessageAndGetPossibleResponse b nackMessage sub (world s) in
            let s := put_subscriber j sub w s in
            expects (match returnMessage with None => true | Some _ => false end) (Done s)
      | _ => Done (report_error PORT_MANAGER__HANDLE_SUBSCRIBER_PORTS_INVALID_CAPRO_MESSAGE MODERATE s)
      end
  end.

Definition destroySubscriberPort (j : nat) (s : t) : outcome t :=
  let* sub := get_subscriber j s in
  let sub := SubscriberPortUser.unsubscribe sub in
  let '(maybeMessage, sub) := SubscriberPortType.tryGetCaProMessage b sub in
  let s := put_subscriber j sub (world s) s in
  let* s :=
    match maybeMessage with
    | None => Done s
    | Some caproMessage =>
        expects (bool_decide (CaproMessage.m_type caproMessage = CaproMessageType.UNSUB))
          (let* '(_, s) := sendToAllMatchingPublisherPorts caproMessage j s in Done s)
    end in
  let* sub := get_subscriber j s in
  let* '(sub, w) := SubscriberPortType.releaseAllChunks sub (world s) in
  let s := put_subscriber j sub w s in
  Done (set_pool (PortPool.removeSubscriberPort j (m_portPool s)) s).

Definition handleSubscriberPorts (s : t) : outcome t :=
  for_each (fun j s =>
    let* s := doDiscoveryForSubscriberPort j s in
    let* sub := get_subscriber j s in
    if BasePortData.m_toBeDestroyed (SubscriberPortData.base sub) then destroySubscriberPort j s else Done s)
    (FixedPositionContainer.content (subscribers s)) s.

(** ** Client-server connections *)

Definition queue_policy (q : nat) (w : World) : outcome QueueFullPolicy.t :=
  let* d := get_queue q w in Done (ChunkQueueData.m_queueFullPolicy d).

Definition isCompatibleClientServer (server : ServerPortData.t) (client : ClientPortData.t) (w : World) : outcome bool :=
  if ServiceDescription.neqb (ServerPortData.service server) (ClientPortData.service client) then Done false
  else
    let* requestQueueFullPolicy := queue_policy (ServerPortData.queue server) w in
    let* responseQueueFullPolicy := queue_policy (ClientPortData.queue client) w in
    let requestMatch :=
      negb (bool_decide (ClientPortRouDi.getServerTooSlowPolicy client = ConsumerTooSlowPolicy.DISCARD_OLDEST_DATA)
            && bool_decide (requestQueueFullPolicy = QueueFullPolicy.BLOCK_PRODUCER)) in
    let responseMatch :=
      negb (bool_decide (ServerPortRouDi.getClientTooSlowPolicy server = ConsumerTooSlowPolicy.DISCARD_OLDEST_DATA)
            && bool_decide (responseQueueFullPolicy = QueueFullPolicy.BLOCK_PRODUCER)) in
    Done (requestMatch && responseMatch).

(** [sendToAllMatchingClientPorts] *)
Fixpoint to_clients (message : CaproMessage.t) (i : nat) (js : list nat) (s : t) : outcome t :=
  match js with
  | [] => Done s
  | j :: js =>
      let* client := get_client j s in
      let* server := get_server i s in
      let* compatible := isCompatibleClientServer server client (world s) in
      if compatible : bool then
        let* '(clientResponse, client, w) :=
          ClientPortRouDi.dispatchCaProMessageAndGetPossibleResponse message client (world s) in
        let s := put_client j client w s in
        match clientResponse with
        | None => to_clients message i js s
        | Some clientResponse =>
            expects (bool_decide (CaproMessage.m_type clientResponse = CaproMessageType.CONNECT))
              (let* '(serverResponse, server, w) :=
                 ServerPortRouDi.dispatchCaProMessageAndGetPossibleResponse clientResponse server (world s) in
               let s := put_server i server w s in
               match serverResponse with
               | None => to_clients message i js s
               | Some serverResponse =>
                   let* '(returnMessage, client, w) :=
                     ClientPortRouDi.dispatchCaProMessageAndGetPossibleResponse serverResponse client (world s) in
                   let s := put_client j client w s in
                   expects (match returnMessage with None => true | Some _ => false end) (to_clients message i js s)
               end)
        end
      else to_clients message i js s
  end.
Definition sendToAllMatchingClientPorts (message : CaproMessage.t) (i : nat) (s : t) : outcome t :=
  to_clients message i (FixedPositionContainer.content (clients s)) s.

(** [sendToAllMatchingServerPorts] *)
Fixpoint to_servers (message : CaproMessage.t) (j : nat) (ps : list nat) (serverFound : bool) (s : t) : outcome (bool * t) :=
  match ps with
  | [] => Done (serverFound, s)
  | i :: ps =>
      let* server := get_server i s in
      let* client := get_client j s in
      let* compatible := isCompatibleClientServer server client (world s) in
      if compatible : bool then
        let* '(serverResponse, server, w) :=
          ServerPortRouDi.dispatchCaProMessageAndGetPossibleResponse message server (world s) in
        let s := put_server i server w s in
        match serverResponse with
        | Some serverResponse =>
            let* '(returnMessage, client, w) :=
              ClientPortRouDi.dispatchCaProMessageAndGetPossibleResponse serverResponse client (world s) in
            let s := put_client j client w s in
            expects (match returnMessage with None => true | Some _ => false end) (to_servers message j ps true s)
        | None => to_servers message j ps true s
        end
      else to_servers message j ps serverFound s
  end.
Definition sendToAllMatchingServerPorts (message : CaproMessage.t) (j : nat) (s : t) : outcome (bool * t) :=
  to_servers message j (FixedPositionContainer.content (servers s)) false s.

Definition doDiscoveryForClientPort (j : nat) (s : t) : outcome t :=
  let* client := get_client j s in
  let* '(maybeMessage, client, w) := ClientPortRouDi.tryGetCaProMessage client (world s) in
  let s := put_client j client w s in
  match maybeMessage with
  | None => Done s
  | Some caproMessage =>
      match CaproMessage.m_type caproMessage with
      | CaproMessageType.CONNECT | CaproMessageType.DISCONNECT =>
          let* '(found, s) := sendToAllMatchingServerPorts caproMessage j s in
          if found : bool then Done s
          else
            let* client := get_client j s in
            let nackMessage :=
              CaproMessage.ctor CaproMessageType.NACK (ClientPortData.service client) CaproServiceType.NONE None in
            let* '(returnMessage, client, w) :=
              ClientPortRouDi.dispatchCaProMessageAndGetPossibleResponse nackMessage client (world s) in
            let s := put_client j client w s in
            expects (match returnMessage with None => true | Some _ => false end) (Done s)
      | _ => Done (report_error PORT_MANAGER__HANDLE_CLIENT_PORTS_INVALID_CAPRO_MESSAGE MODERATE s)
      end
  end.

Definition destroyClientPort (j : nat) (s : t) : outcome t :=
  let* client := get_client j s in
  let client := ClientPortUser.disconnect client in
  let* '(maybeMessage, client, w) := ClientPortRouDi.tryGetCaProMessage client (world s) in
  let s := put_client j client w s in
  let* s :=
    match maybeMessage with
    | None => Done s
    | Some caproMessage =>
        expects (bool_decide (CaproMessage.m_type caproMessage = CaproMessageType.DISCONNECT))
          (let* '(_, s) := sendToAllMatchingServerPorts caproMessage j s in Done s)
    end in
  let* client := get_client j s in
  let* '(client, w) :=
    ClientPortRouDi.releaseAllChunks (lock_held (BasePortData.m_uniqueId (ClientPortData.base client))) client (world s) in
  let s := put_client j client w s in
  Done (set_pool (PortPool.removeClientPort j (m_portPool s)) s).

Definition handleClientPorts (s : t) : outcome t :=
  for_each (fun j s =>
    let* s := doDiscoveryForClientPort j s in
    let* client := get_client j s in
    if BasePortData.m_toBeDestroyed (ClientPortData.base client) then destroyClientPort j s else Done s)
    (FixedPositionContainer.content (clients s)) s.

Definition doDiscoveryForServerPort (i : nat) (s : t) : outcome t :=
  let* server := get_server i s in
  let* '(maybeMessage, server, w) := ServerPortRouDi.tryGetCaProMessage server (world s) in
  let s := put_server i server w s in
  match maybeMessage with
  | None => Done s
  | Some caproMessage =>
      let continue s :=
        let* s := sendToAllMatchingClientPorts caproMessage i s in
        sendToAllMatchingInterfacePorts caproMessage s in
      match CaproMessage.m_type caproMessage with
      | CaproMessageType.OFFER =>
          let* s := addServerToServiceRegistry (CaproMessage.m_serviceDescription caproMessage) s in continue s
      | CaproMessageType.STOP_OFFER =>
          let* s := removeServerFromServiceRegistry (CaproMessage.m_serviceDescription caproMessage) s in continue s
      | _ => Done (report_error PORT_MANAGER__HANDLE_SERVER_PORTS_INVALID_CAPRO_MESSAGE MODERATE s)
      end
  end.

Definition destroyServerPort (i : nat) (s : t) : outcome t :=
  let* server := get_server i s in
  let server := ServerPortUser.stopOffer server in
  let* '(maybeMessage, server, w) := ServerPortRouDi.tryGetCaProMessage server (world s) in
  let s := put_server i server w s in
  let* s :=
    match maybeMessage with
    | None => Done s
    | Some caproMessage =>
        expects (bool_decide (CaproMessage.m_type caproMessage = CaproMessageType.STOP_OFFER)
                 && bool_decide (CaproMessage.m_serviceType caproMessage = CaproServiceType.SERVER))
          (let* s := removeServerFromServiceRegistry (CaproMessage.m_serviceDescription caproMessage) s in
           let* s := sendToAllMatchingClientPorts caproMessage i s in
           sendToAllMatchingInterfacePorts caproMessage s)
    end in
  let* server := get_server i s in
  let* '(server, w) :=
    ServerPortRouDi.releaseAllChunks (lock_held (BasePortData.m_uniqueId (ServerPortData.base server))) server (world s) in
  let s := put_server i server w s in
  Done (set_pool (PortPool.removeServerPort i (m_portPool s)) s).

Definition handleServerPorts (s : t) : outcome t :=
  for_each (fun i s =>
    let* s := doDiscoveryForServerPort i s in
    let* server := get_server i s in
    if BasePortData.m_toBeDestroyed (ServerPortData.base server) then destroyServerPort i s else Done s)
    (FixedPositionContainer.content (servers s)) s.

(** ** Interfaces, nodes, condition variables *)

(** One offered port, announced to the interfaces [ks] that are new. *)
Definition forward_offer (message : CaproMessage.t) (ks : list nat) (s : t) : outcome t :=
  for_each (fun k s =>
    let* i := get_interface k s in
    if negb (bool_decide (ServiceDescription.getSourceInterface (CaproMessage.m_serviceDescription message)
                          = ServiceDescription.getSourceInterface (InterfacePortData.service i)))
    then let '(i, w) := InterfacePort.dispatchCaProMessage b message i (world s) in Done (put_interface k i w s)
    else Done s) ks s.

(** The first loop of [handleInterfaces]: the interfaces for the initial
    forwarding, which has room for all of them. *)
Fixpoint collect_interfaces (ks : list nat) (forwarding : list nat) (s : t) : outcome (list nat * t) :=
  match ks with
  | [] => Done (forwarding, s)
  | k :: ks =>
      let* i := get_interface k s in
      let '(forwarding, s, i) :=
        if InterfacePortData.m_doInitialOfferForward i
        then (forwarding ++ [k], put_interface k (InterfacePortData.set_forward false i) (world s) s,
              InterfacePortData.set_forward false i)
        else (forwarding, s, i) in
      let s := if BasePortData.m_toBeDestroyed (InterfacePortData.base i)
               then set_pool (PortPool.removeInterfacePort k (m_portPool s)) s else s in
      collect_interfaces ks forwarding s
  end.

Definition handleInterfaces (s : t) : outcome t :=
  let* '(forwarding, s) := collect_interfaces (FixedPositionContainer.content (interfaces s)) [] s in
  if (0 <? Z.of_nat (length forwarding)) then
    let message serviceType service :=
      CaproMessage.ctor CaproMessageType.OFFER service serviceType None in
    let* s :=
      for_each (fun i s =>
        let* p := get_publisher i s in
        if PublisherPortUser.isOffered p
        then forward_offer (message CaproServiceType.PUBLISHER (PublisherPortData.service p)) forwarding s
        else Done s) (FixedPositionContainer.content (publishers s)) s in
    for_each (fun i s =>
      let* p := get_server i s in
      if ServerPortUser.isOffered p
      then forward_offer (message CaproServiceType.SERVER (ServerPortData.service p)) forwarding s
      else Done s) (FixedPositionContainer.content (servers s)) s
  else Done s.

Definition handleNodes (s : t) : outcome t :=
  for_each (fun k s =>
    let* n := FixedPositionContainer.get k (nodes s) in
    Done (if NodeData.m_toBeDestroyed n then set_pool (PortPool.removeNodeData k (m_portPool s)) s else s))
    (FixedPositionContainer.content (nodes s)) s.

Definition handleConditionVariables (s : t) : outcome t :=
  for_each (fun k s =>
    let* c := FixedPositionContainer.get k (condition_variables s) in
    Done (if ConditionVariableInfo.m_toBeDestroyed c
          then set_pool (PortPool.removeConditionVariableData k (m_portPool s)) s else s))
    (FixedPositionContainer.content (condition_variables s)) s.

Definition doDiscovery (s : t) : outcome t :=
  let* s := handlePublisherPorts s in
  let* s := handleSubscriberPorts s in
  let* s := handleServerPorts s in
  let* s := handleClientPorts s in
  let* s := handleInterfaces s in
  let* s := handleNodes s in
  handleConditionVariables s.

(** ** Shutdown *)

(** [port->m_offeringRequested.store(false); doDiscoveryFor...(port);] *)
Definition stop_publisher (i : nat) (s : t) : outcome t :=
  let* p := get_publisher i s in
  doDiscoveryForPublisherPort i (put_publisher i (PublisherPortData.set_requested false p) (world s) s).
Definition stop_server (i : nat) (s : t) : outcome t :=
  let* p := get_server i s in
  doDiscoveryForServerPort i (put_server i (ServerPortData.set_requested false p) (world s) s).

Definition makeAllPublisherPortsToStopOffer (s : t) : outcome t :=
  for_each stop_publisher (FixedPositionContainer.content (publishers s)) s.
Definition makeAllServerPortsToStopOffer (s : t) : outcome t :=
  for_each stop_server (FixedPositionContainer.content (servers s)) s.

Definition unblockProcessShutdown (runtimeName : string) (s : t) : outcome t :=
  let* s :=
    for_each (fun i s =>
      let* p := get_publisher i s in
      if bool_decide (runtimeName = BasePortData.m_runtimeName (PublisherPortData.base p))
      then stop_publisher i s else Done s) (FixedPositionContainer.content (publishers s)) s in
  for_each (fun i s =>
    let* p := get_server i s in
    if bool_decide (runtimeName = BasePortData.m_runtimeName (ServerPortData.base p))
    then stop_server i s else Done s) (FixedPositionContainer.content (servers s)) s.

Definition unblockRouDiShutdown (s : t) : outcome t :=
  let* s := makeAllPublisherPortsToStopOffer s in makeAllServerPortsToStopOffer s.

Definition deletePortsOfProcess (runtimeName : string) (s : t) : outcome t :=
  let s := if bool_decide (runtimeName = IPC_CHANNEL_ROUDI_NAME) then set_registry_port None s else s in
  let mine (base : BasePortData.t) := bool_decide (runtimeName = BasePortData.m_runtimeName base) in
  let* s := for_each (fun i s => let* p := get_publisher i s in
                        if mine (PublisherPortData.base p) then destroyPublisherPort i s else Done s)
              (FixedPositionContainer.content (publishers s)) s in
  let* s := for_each (fun i s => let* p := get_subscriber i s in
                        if mine (SubscriberPortData.base p) then destroySubscriberPort i s else Done s)
              (FixedPositionContainer.content (subscribers s)) s in
  let* s := for_each (fun i s => let* p := get_server i s in
                        if mine (ServerPortData.base p) then destroyServerPort i s else Done s)
              (FixedPositionContainer.content (servers s)) s in
  let* s := for_each (fun i s => let* p := get_client i s in
                        if mine (ClientPortData.base p) then destroyClientPort i s else Done s)
              (FixedPositionContainer.content (clients s)) s in
  let* s := for_each (fun i s => let* p := get_interface i s in
                        Done (if mine (InterfacePortData.base p)
                              then set_pool (PortPool.removeInterfacePort i (m_portPool s)) s else s))
              (FixedPositionContainer.content (interfaces s)) s in
  let* s := for_each (fun i s => let* n := FixedPositionContainer.get i (nodes s) in
                        Done (if bool_decide (runtimeName = NodeData.m_runtimeName n)
                              then set_pool (PortPool.removeNodeData i (m_portPool s)) s else s))
              (FixedPositionContainer.content (nodes s)) s in
  for_each (fun i s => let* c := FixedPositionContainer.get i (condition_variables s) in
              Done (if bool_decide (runtimeName = ConditionVariableInfo.m_runtimeName c)
                    then set_pool (PortPool.removeConditionVariableData i (m_portPool s)) s else s))
    (FixedPositionContainer.content (condition_variables s)) s.

(** ** Creation of ports *)

(** [doesViolateCommunicationPolicy]: the runtime that already publishes the
    service, for the one-to-many policy. *)
Fixpoint violating (service : ServiceDescription.t) (ps : list nat) (s : t) : outcome (option string * t) :=
  match ps with
  | [] => Done (None, s)
  | i :: ps =>
      let* p := get_publisher i s in
      if ServiceDescription.eqb service (PublisherPortData.service p) then
        if BasePortData.m_toBeDestroyed (PublisherPortData.base p)
        then let* s := destroyPublisherPort i s in violating service ps s
        else Done (Some (BasePortData.m_runtimeName (PublisherPortData.base p)), s)
      else violating service ps s
  end.
Definition doesViolateCommunicationPolicy (service : ServiceDescription.t) (s : t) : outcome (option string * t) :=
  match Policy b with
  | OneToManyPolicy => violating service (FixedPositionContainer.content (publishers s)) s
  | ManyToManyPolicy => Done (None, s)
  end.

Definition isInternal (service : ServiceDescription.t) (s : t) : bool :=
  existsb (ServiceDescription.eqb service) (m_internalServices s).

Definition acquirePublisherPortDataWithoutDiscovery (service : ServiceDescription.t) (options : PublisherOptions.t)
    (runtimeName : string) (memoryManager : nat) (s : t) : outcome (expected nat PortPoolError * t) :=
  let* '(usedByProcess, s) := doesViolateCommunicationPolicy service s in
  match usedByProcess with
  | Some _ =>
      Done (error UNIQUE_PUBLISHER_PORT_ALREADY_EXISTS, report_error POSH__PORT_MANAGER_PUBLISHERPORT_NOT_UNIQUE MODERATE s)
  | None =>
      let add s :=
        let* '(r, p) := PortPool.addPublisherPort b service memoryManager runtimeName options (m_portPool s) in
        Done (r, set_pool p s) in
      if bool_decide (runtimeName = IPC_CHANNEL_ROUDI_NAME) then
        add (if Z.of_nat (length (m_internalServices s)) <? NUMBER_OF_INTERNAL_PUBLISHERS
             then set_internal (m_internalServices s ++ [service]) s else s)
      else if isInternal service s then
        Done (error INTERNAL_SERVICE_DESCRIPTION_IS_FORBIDDEN,
              report_error POSH__PORT_MANAGER_INTERNAL_SERVICE_DESCRIPTION_IS_FORBIDDEN MODERATE s)
      else add s
  end.

(** The lambda of [and_then]. *)
Definition and_then (body : nat -> t -> outcome t) (x : outcome (expected nat PortPoolError * t))
    : outcome (expected nat PortPoolError * t) :=
  let* '(r, s) := x in
  match r with
  | success i => let* s := body i s in Done (success i, s)
  | error e => Done (error e, s)
  end.

Definition acquirePublisherPortData (service : ServiceDescription.t) (options : PublisherOptions.t)
    (runtimeName : string) (memoryManager : nat) (s : t) : outcome (expected nat PortPoolError * t) :=
  and_then doDiscoveryForPublisherPort
    (acquirePublisherPortDataWithoutDiscovery service options runtimeName memoryManager s).

Definition acquireInternalPublisherPortDataWithoutDiscovery (service : ServiceDescription.t) (options : PublisherOptions.t)
    (memoryManager : nat) (s : t) : outcome (nat * t) :=
  let* '(r, s) :=
    acquirePublisherPortDataWithoutDiscovery service options IPC_CHANNEL_ROUDI_NAME memoryManager s in
  match r with
  | success i => Done (i, s)
  | error _ => Terminated PORT_MANAGER__NO_PUBLISHER_PORT_FOR_INTERNAL_SERVICE
  end.

Definition acquireInternalPublisherPortData (service : ServiceDescription.t) (options : PublisherOptions.t)
    (memoryManager : nat) (s : t) : outcome (nat * t) :=
  let* '(i, s) := acquireInternalPublisherPortDataWithoutDiscovery service options memoryManager s in
  let* s := doDiscoveryForPublisherPort i s in
  Done (i, s).

Definition acquireSubscriberPortData (service : ServiceDescription.t) (options : SubscriberOptions.t)
    (runtimeName : string) (s : t) : outcome (expected nat PortPoolError * t) :=
  and_then doDiscoveryForSubscriberPort
    (let* '(r, p) := PortPool.addSubscriberPort b service runtimeName options (m_portPool s) in Done (r, set_pool p s)).

Definition acquireClientPortData (service : ServiceDescription.t) (options : ClientOptions.t) (runtimeName : string)
    (memoryManager : nat) (s : t) : outcome (expected nat PortPoolError * t) :=
  and_then doDiscoveryForClientPort
    (let* '(r, p) := PortPool.addClientPort b service memoryManager runtimeName options (m_portPool s) in
     Done (r, set_pool p s)).

(** The loop at the start of [acquireServerPortData]; [true]: there is a
    server for the service. *)
Fixpoint server_exists (service : ServiceDescription.t) (ps : list nat) (s : t) : outcome (bool * t) :=
  match ps with
  | [] => Done (false, s)
  | i :: ps =>
      let* p := get_server i s in
      if ServiceDescription.eqb service (ServerPortData.service p) then
        if BasePortData.m_toBeDestroyed (ServerPortData.base p)
        then let* s := destroyServerPort i s in server_exists service ps s
        else Done (true, s)
      else server_exists service ps s
  end.

Definition acquireServerPortData (service : ServiceDescription.t) (options : ServerOptions.t) (runtimeName : string)
    (memoryManager : nat) (s : t) : outcome (expected nat PortPoolError * t) :=
  let* '(found, s) := server_exists service (FixedPositionContainer.content (servers s)) s in
  if found : bool then
    Done (error UNIQUE_SERVER_PORT_ALREADY_EXISTS, report_error POSH__PORT_MANAGER_SERVERPORT_NOT_UNIQUE MODERATE s)
  else
    and_then doDiscoveryForServerPort
      (let* '(r, p) := PortPool.addServerPort b service memoryManager runtimeName options (m_portPool s) in
       Done (r, set_pool p s)).

(** The null pointer is [None]. *)
Definition acquireInterfacePortData (interface : Interfaces.t) (runtimeName : string) (s : t) : outcome (option nat * t) :=
  let* '(r, p) := PortPool.addInterfacePort b runtimeName interface (m_portPool s) in
  Done (match r with success i => Some i | error _ => None end, set_pool p s).

Definition acquireNodeData (runtimeName nodeName : string) (s : t) : expected nat PortPoolError * t :=
  let '(r, p) := PortPool.addNodeData runtimeName nodeName 0 (m_portPool s) in (r, set_pool p s).

Definition acquireConditionVariableData (runtimeName : string) (s : t) : expected nat PortPoolError * t :=
  let '(r, p) := PortPool.addConditionVariableData b runtimeName (m_portPool s) in (r, set_pool p s).

(** The constructor, up to the introspection: the port that publishes the
    registry and its discovery, then the three ports of the port introspection.
    [memoryManager] is the segment for introspection. *)
Definition internal_options (nodeName : string) : PublisherOptions.t :=
  PublisherOptions.mk 1 nodeName true ConsumerTooSlowPolicy.DISCARD_OLDEST_DATA.

Definition internal_service (service instance event : string) : ServiceDescription.t :=
  ServiceDescription.ctor service instance event [0; 0; 0; 0] Interfaces.INTERNAL.

Definition ctor (introspectionServices : list ServiceDescription.t) (introspectionNode : string) (memoryManager : nat)
    (pool : PortPool.t) : outcome t :=
  let s := mk pool (ServiceRegistry.ctor (SERVICE_REGISTRY_CAPACITY b)) None [] ∅ in
  let* '(i, s) :=
    acquireInternalPublisherPortDataWithoutDiscovery
      (internal_service "ServiceDiscovery" "RouDi_ID" "ServiceRegistry") (internal_options "Service Registry")
      memoryManager s in
  let s := set_registry_port (Some i) s in
  let* s := doDiscoveryForPublisherPort i s in
  foldl (fun x service =>
           let* s := x in
           let* '(_, s) := acquireInternalPublisherPortData service (internal_options introspectionNode) memoryManager s in
           Done s) (Done s) introspectionServices.
End ops.
End PortManager.
