(* ===== verification/Discovery.v ===== *)
(** * Discovery

    What the discovery of [PortManager] guarantees: which queues a publisher
    delivers to, and which ports are connected. *)

From S2P Require Import Prelude ChunkHeader MemoryManager SharedChunk UsedChunkList Queue VariantQueue ConditionVariable.
From S2P Require Import ChunkQueue ChunkDistributor ChunkSender CaPro PubSubPorts ClientServerPorts.
From S2P Require Import ServiceRegistry PortPool PortManager.

(** Splits [H : (let* x := m in k) = Done r] into its steps. *)
Ltac done_inv H :=
  let x := fresh "x" in let E := fresh "E" in
  apply obind_Done_inv in H as (x & E & H);
  repeat match goal with y : (_ * _)%type |- _ => destruct y end; simpl in H.

Ltac done_all H := repeat (done_inv H).

(** Case analysis on the condition of a conditional at the head of [H]. *)
Ltac if_inv H :=
  match type of H with
  | (if ?c then _ else _) = _ => destruct c eqn:?
  | (match ?c with _ => _ end) = _ => destruct c eqn:?
  end.

(** ** The connections of a sender

    Only the operations that connect and disconnect change them. *)

Definition dist_view (d : ChunkDistributor.t) : Z * list nat := (ChunkDistributor.MAX_QUEUES d, ChunkDistributor.m_queues d).
Definition view (s : ChunkSender.t) : Z * list nat := dist_view (ChunkSender.dist s).

Ltac view_done := simplify_eq; first [done | unfold view, dist_view in *; simpl in *; congruence].

Lemma take_used_view s p w found chunk s' w' : ChunkSender.take_used s p w = Done (found, chunk, s', w') -> view s' = view s.
Proof. unfold ChunkSender.take_used. intros H. done_all H. view_done. Qed.

Lemma ready_view p s w r chunk s' w' :
  ChunkSender.getChunkReadyForSend p s w = Done (r, chunk, s', w') -> view s' = view s.
Proof.
  unfold ChunkSender.getChunkReadyForSend. intros H. done_inv H. apply take_used_view in E.
  if_inv H; [done_all H|]; view_done.
Qed.

Lemma addToHistory_view d c w d' w' : ChunkDistributor.addToHistoryWithoutDelivery d c w = Done (d', w') ->
  dist_view d' = dist_view d.
Proof.
  unfold ChunkDistributor.addToHistoryWithoutDelivery. intros H. done_all H. simplify_eq.
  destruct (0 <? _); [|view_done]. done_all E. view_done.
Qed.

Lemma deliver_view d c w n d' w' : ChunkDistributor.deliverToAllStoredQueues [] d c w = Done (n, d', w') ->
  dist_view d' = dist_view d.
Proof.
  unfold ChunkDistributor.deliverToAllStoredQueues. intros H. done_inv H. done_inv H. done_inv H. done_inv H. done_inv H.
  simplify_eq. apply addToHistory_view in E2. destruct l; simpl in E0; view_done.
Qed.

Lemma replace_last_view c s w s' w' : ChunkSender.replace_last c s w = Done (s', w') -> view s' = view s.
Proof. unfold ChunkSender.replace_last. intros H. done_all H. view_done. Qed.

Lemma send_view p s w n s' w' : ChunkSender.send [] p s w = Done (n, s', w') -> view s' = view s.
Proof.
  unfold ChunkSender.send. intros H. done_inv H. apply ready_view in E. if_inv H; [|done_all H; view_done].
  done_inv H. done_inv H. done_inv H. apply deliver_view in E1. apply replace_last_view in E2. simplify_eq.
  view_done.
Qed.

Lemma pushToHistory_view p s w s' w' : ChunkSender.pushToHistory p s w = Done (s', w') -> view s' = view s.
Proof.
  unfold ChunkSender.pushToHistory. intros H. done_inv H. apply ready_view in E. if_inv H; [|done_all H; view_done].
  done_inv H. done_inv H. apply addToHistory_view in E1. apply replace_last_view in H.
  view_done.
Qed.

Lemma insert_copy_view s c w r s' w' : ChunkSender.insert_copy s c w = Done (r, s', w') -> view s' = view s.
Proof. unfold ChunkSender.insert_copy. intros H. done_all H. view_done. Qed.

Lemma tryAllocate_view o ps pa hs ha s w r s' w' :
  ChunkSender.tryAllocate o ps pa hs ha s w = Done (r, s', w') -> view s' = view s.
Proof.
  unfold ChunkSender.tryAllocate. intros H.
  assert (Hnew : forall st, ChunkSender.allocate_new o st s w = Done (r, s', w') -> view s' = view s).
  { clear H. intros st H. unfold ChunkSender.allocate_new in H. done_inv H. if_inv H; [|view_done].
    done_inv H. apply insert_copy_view in E0. if_inv H; done_all H; view_done. }
  destruct (ChunkSettings.create _ _ _ _) as [st|]; [|view_done].
  destruct (ChunkSender.recyclable s w); [|by eapply Hnew]. done_inv H. destruct (_ <=? _); [|by eapply Hnew].
  unfold ChunkSender.recycle in H. done_inv H. done_inv H. apply insert_copy_view in E1.
  if_inv H; done_all H; view_done.
Qed.

Lemma cleanup_view l d w d' w' : ChunkDistributor.cleanup l d w = Done (d', w') -> dist_view d' = dist_view d.
Proof.
  unfold ChunkDistributor.cleanup, ChunkDistributor.clearHistory. destruct l; [done|]. simpl. intros H. done_all H.
  view_done.
Qed.

Lemma releaseAll_view l s w s' w' : ChunkSender.releaseAll l s w = Done (s', w') -> view s' = view s.
Proof.
  unfold ChunkSender.releaseAll. intros H. done_inv H. done_inv H. apply cleanup_view in E0.
  destruct (ShmSafeUnmanagedChunk.releaseToSharedChunk _). done_all H. simplify_eq.
  view_done.
Qed.

(** ** The connections of a publisher *)

Record pub := mkPub {
  pub_service : ServiceDescription.t;
  pub_options : PublisherOptions.t;
  pub_offered : bool;
  pub_max : Z;
  pub_queues : list nat }.

Definition pub_view (p : PublisherPortData.t) : pub :=
  mkPub (PublisherPortData.service p) (PublisherPortData.m_options p) (PublisherPortData.m_offered p)
    (fst (view (PublisherPortData.m_chunkSenderData p))) (PublisherPortData.stored p).

Record sub := mkSub {
  sub_service : ServiceDescription.t;
  sub_options : SubscriberOptions.t;
  sub_state : SubscribeState.t;
  sub_queue : nat }.

Definition sub_view (s : SubscriberPortData.t) : sub :=
  mkSub (SubscriberPortData.service s) (SubscriberPortData.m_options s) (SubscriberPortData.m_subscriptionState s)
    (SubscriberPortData.queue s).

(** The views of a table of ports. *)
Definition views {A B} (f : A -> B) (l : list (option A)) : list (option B) := fmap (M := list) (fmap (M := option) f) l.

Definition pubs (s : PortManager.t) : list (option pub) := views pub_view (PortManager.publishers s).
Definition subs (s : PortManager.t) : list (option sub) := views sub_view (PortManager.subscribers s).

(** The two sides look the same to publish-subscribe discovery. *)
Definition psame (s s' : PortManager.t) : Prop := pubs s' = pubs s /\ subs s' = subs s.

#[global] Instance psame_po : PreOrder psame.
Proof. split; [done|]. intros s1 s2 s3 [H1 H2] [H3 H4]. split; congruence. Qed.

Lemma get_view {A B} (f : A -> B) (l : list (option A)) i x :
  FixedPositionContainer.get i l = Done x -> views f l !! i = Some (Some (f x)).
Proof. unfold views. intros H%FixedPositionContainer.get_Done. by rewrite list_lookup_fmap, H. Qed.

Lemma put_view {A B} (f : A -> B) (l : list (option A)) i x :
  views f (<[i := Some x]> l) = <[i := Some (f x)]> (views f l).
Proof. unfold views. by rewrite list_fmap_insert. Qed.

Lemma put_publisher_pubs i p w s : pubs (PortManager.put_publisher i p w s) = <[i := Some (pub_view p)]> (pubs s).
Proof. apply put_view. Qed.

Lemma put_subscriber_subs j p w s : subs (PortManager.put_subscriber j p w s) = <[j := Some (sub_view p)]> (subs s).
Proof. apply put_view. Qed.

Lemma put_publisher_same i p p0 w s : PortManager.get_publisher i s = Done p0 -> pub_view p = pub_view p0 ->
  psame s (PortManager.put_publisher i p w s).
Proof.
  intros H E. split; [|done]. rewrite put_publisher_pubs, E. apply list_insert_id. by apply get_view.
Qed.

Lemma put_subscriber_same j p p0 w s : PortManager.get_subscriber j s = Done p0 -> sub_view p = sub_view p0 ->
  psame s (PortManager.put_subscriber j p w s).
Proof.
  intros H E. split; [done|]. rewrite put_subscriber_subs, E. apply list_insert_id. by apply get_view.
Qed.

Lemma put_subscriber_twice j v v' w w' s :
  PortManager.put_subscriber j v' w' (PortManager.put_subscriber j v w s) = PortManager.put_subscriber j v' w' s.
Proof.
  unfold PortManager.put_subscriber, PortManager.subscribers, PortManager.set_pool, PortPool.set_world,
    PortPool.set_subscribers. simpl. by rewrite list_insert_insert_eq.
Qed.

Lemma set_sender_view p s : view s = view (PublisherPortData.m_chunkSenderData p) ->
  pub_view (PublisherPortData.set_sender s p) = pub_view p.
Proof.
  intros H. unfold view, dist_view in H. injection H as H1 H2. unfold pub_view, PublisherPortData.stored. simpl.
  by rewrite H1, H2.
Qed.

Lemma for_each_inv (I : PortManager.t -> Prop) body l s s' :
  (forall i s s', I s -> body i s = Done s' -> I s') -> I s -> PortManager.for_each body l s = Done s' -> I s'.
Proof.
  intros Hb. revert s. induction l as [|i l IH]; intros s HI H; simpl in H; [by simplify_eq|].
  done_inv H. eapply IH; [|exact H]. by eapply Hb.
Qed.

Lemma for_each_psame body l s s' : (forall i s s', body i s = Done s' -> psame s s') ->
  PortManager.for_each body l s = Done s' -> psame s s'.
Proof.
  intros Hb H. apply (for_each_inv (psame s) body l s s'); [|done|done].
  intros i s1 s2 H1 H2. etrans; [exact H1|]. by eapply Hb.
Qed.

Section discovery.
Context (b : Build) (sizeof_registry alignof_registry : Z) (lock_held : Z -> bool).
Notation publishServiceRegistry := (PortManager.publishServiceRegistry sizeof_registry alignof_registry).

(** ** Steps that do not touch connections *)

Lemma publishServiceRegistry_psame s s' : publishServiceRegistry s = Done s' -> psame s s'.
Proof.
  unfold PortManager.publishServiceRegistry. intros H.
  destruct (PortManager.m_serviceRegistryPublisherPortData s) as [i|]; [|by simplify_eq].
  apply obind_Done_inv in H as (p & Ep & H). apply obind_Done_inv in H as ([[r p1] w1] & E1 & H).
  assert (V1 : pub_view p1 = pub_view p).
  { unfold PublisherPortUser.tryAllocateChunk in E1. apply obind_Done_inv in E1 as ([[r0 c0] w0] & E0 & E1).
    injection E1 as <- <- <-. apply set_sender_view. by eapply tryAllocate_view. }
  destruct r as [chunk|]; [|injection H as <-; by eapply put_publisher_same].
  apply obind_Done_inv in H as ([p2 w2] & E2 & H). injection H as <-.
  assert (V2 : pub_view p2 = pub_view p1).
  { unfold PublisherPortUser.sendChunk in E2. destruct (PublisherPortData.m_offeringRequested p1).
    - apply obind_Done_inv in E2 as ([[n c0] w0] & E0 & E2). injection E2 as <- <-.
      apply set_sender_view. by eapply send_view.
    - apply obind_Done_inv in E2 as ([c0 w0] & E0 & E2). injection E2 as <- <-.
      apply set_sender_view. by eapply pushToHistory_view. }
  apply (put_publisher_same i p2 p w2 s); [done|congruence].
Qed.

Lemma addToServiceRegistry_psame c d s s' :
  PortManager.addToServiceRegistry b sizeof_registry alignof_registry c d s = Done s' -> psame s s'.
Proof.
  unfold PortManager.addToServiceRegistry. destruct (ServiceRegistry.add _ _ _ _) as [r reg]. intros H.
  apply publishServiceRegistry_psame in H. by destruct (has_error r).
Qed.

Lemma removeFromServiceRegistry_psame c d s s' :
  PortManager.removeFromServiceRegistry b sizeof_registry alignof_registry c d s = Done s' -> psame s s'.
Proof. apply publishServiceRegistry_psame. Qed.

Lemma dispatch_interface_psame k m s s' :
  (let* i := PortManager.get_interface k s in
   if negb (bool_decide (ServiceDescription.getSourceInterface (CaproMessage.m_serviceDescription m)
                         = ServiceDescription.getSourceInterface (InterfacePortData.service i)))
   then let '(i, w) := InterfacePort.dispatchCaProMessage b m i (PortManager.world s) in
        Done (PortManager.put_interface k i w s)
   else Done s) = Done s' -> psame s s'.
Proof. intros H. done_inv H. if_inv H; [|by simplify_eq]. destruct (InterfacePort.dispatchCaProMessage _ _ _ _). by simplify_eq. Qed.

Lemma interfaces_psame m s s' : PortManager.sendToAllMatchingInterfacePorts b m s = Done s' -> psame s s'.
Proof. apply for_each_psame. intros k s1 s2. apply dispatch_interface_psame. Qed.

Lemma handleInterfaces_psame s s' : PortManager.handleInterfaces b s = Done s' -> psame s s'.
Proof.
  unfold PortManager.handleInterfaces. intros H. done_inv H.
  assert (Hc : forall ks fw s1 r s2, PortManager.collect_interfaces ks fw s1 = Done (r, s2) -> psame s1 s2).
  { clear. intros ks. induction ks as [|k ks IH]; intros fw s1 r s2 H; simpl in H; [by simplify_eq|].
    done_inv H. destruct (InterfacePortData.m_doInitialOfferForward x); apply IH in H;
      (etrans; [|exact H]); by destruct (BasePortData.m_toBeDestroyed _). }
  apply Hc in E. etrans; [exact E|]. if_inv H; [|by simplify_eq]. done_inv H.
  assert (Hf : forall m ks s1 s2, PortManager.forward_offer b m ks s1 = Done s2 -> psame s1 s2).
  { intros m ks s1 s2. apply for_each_psame. intros k s3 s4. apply dispatch_interface_psame. }
  transitivity x.
  - eapply for_each_psame; [|exact E0]. intros i s1 s2 H1. done_inv H1. if_inv H1; [by eapply Hf|by simplify_eq].
  - eapply for_each_psame; [|exact H]. intros i s1 s2 H1. done_inv H1. if_inv H1; [by eapply Hf|by simplify_eq].
Qed.

Lemma handleNodes_psame s s' : PortManager.handleNodes s = Done s' -> psame s s'.
Proof. apply for_each_psame. intros k s1 s2 H. done_inv H. simplify_eq. by destruct (NodeData.m_toBeDestroyed _). Qed.

Lemma handleConditionVariables_psame s s' : PortManager.handleConditionVariables s = Done s' -> psame s s'.
Proof.
  apply for_each_psame. intros k s1 s2 H. done_inv H. simplify_eq. by destruct (ConditionVariableInfo.m_toBeDestroyed _).
Qed.

(** ** The invariant of publish-subscribe connections *)

Definition compatible (p : pub) (s : sub) : bool :=
  if ServiceDescription.neqb (sub_service s) (pub_service p) then false
  else
    negb (bool_decide (PublisherOptions.subscriberTooSlowPolicy (pub_options p) = ConsumerTooSlowPolicy.DISCARD_OLDEST_DATA)
          && bool_decide (SubscriberOptions.queueFullPolicy (sub_options s) = QueueFullPolicy.BLOCK_PRODUCER))
    && (negb (SubscriberOptions.requiresPublisherHistorySupport (sub_options s))
        || (0 <? PublisherOptions.historyCapacity (pub_options p))).

Lemma compatible_view p s : PortManager.isCompatiblePubSub p s = compatible (pub_view p) (sub_view s).
Proof. done. Qed.

Definition internal (d : ServiceDescription.t) : Prop := ServiceDescription.getSourceInterface d = Interfaces.INTERNAL.

(** [stale i q]: publisher [i] may still deliver to queue [q] although its
    subscriber is not subscribed; [missing i j]: publisher [i] may not deliver to
    subscriber [j] yet.  Both are empty between the operations. *)
Record CInv (P : list (option pub)) (S : list (option sub)) (stale missing : nat -> nat -> Prop) : Prop := {
  c_pub : forall i p, P !! i = Some (Some p) ->
    NoDup (pub_queues p) /\ pub_max p = MAX_SUBSCRIBERS_PER_PUBLISHER b /\ internal (pub_service p);
  c_sub : forall j s, S !! j = Some (Some s) -> sub_queue s = j /\ internal (sub_service s) /\
    (sub_state s = SubscribeState.NOT_SUBSCRIBED \/ sub_state s = SubscribeState.SUBSCRIBED);
  c_length : Z.of_nat (length S) <= Z.max 0 (MAX_SUBSCRIBERS b);
  c_sound : forall i p q, P !! i = Some (Some p) -> q ∈ pub_queues p -> pub_offered p = true /\
    exists s, S !! q = Some (Some s) /\ compatible p s = true /\
      (sub_state s = SubscribeState.SUBSCRIBED \/ stale i q);
  c_complete : Z.of_nat (length S) <= MAX_SUBSCRIBERS_PER_PUBLISHER b ->
    forall i p j s, P !! i = Some (Some p) -> S !! j = Some (Some s) ->
    pub_offered p = true -> sub_state s = SubscribeState.SUBSCRIBED -> compatible p s = true ->
    j ∈ pub_queues p \/ missing i j }.

Definition none (i j : nat) : Prop := False.
Definition Conn (s : PortManager.t) : Prop := CInv (pubs s) (subs s) none none.

Lemma cinv_weaken P S x x' y y' :
  CInv P S x y -> (forall i j, x i j -> x' i j) -> (forall i j, y i j -> y' i j) -> CInv P S x' y'.
Proof.
  intros [] Hx Hy. constructor; try done.
  - intros i p q Hp Hq. destruct (c_sound0 i p q Hp Hq) as (? & s & ? & ? & [|]); eauto 10.
  - intros Hm i p j s Hp Hs Ho Hsub Hc. destruct (c_complete0 Hm i p j s Hp Hs Ho Hsub Hc); eauto.
Qed.

(** Only holes at existing ports count. *)
Lemma cinv_close P S x y : CInv P S x y ->
  (forall i j p s, P !! i = Some (Some p) -> S !! j = Some (Some s) -> x i j -> False) ->
  (forall i j p s, P !! i = Some (Some p) -> S !! j = Some (Some s) -> y i j -> False) -> CInv P S none none.
Proof.
  intros [] Hx Hy. constructor; try done.
  - intros i p q Hp Hq. destruct (c_sound0 i p q Hp Hq) as (? & s & ? & ? & [|]); [eauto 10|].
    exfalso. by apply (Hx i q p s).
  - intros Hm i p j s Hp Hs Ho Hsub Hc. destruct (c_complete0 Hm i p j s Hp Hs Ho Hsub Hc); [by left|].
    exfalso. by apply (Hy i j p s).
Qed.

(** The queues of a publisher fit. *)
Lemma room P S x y i p j s : CInv P S x y -> P !! i = Some (Some p) -> S !! j = Some (Some s) -> j ∉ pub_queues p ->
  Z.of_nat (length S) <= MAX_SUBSCRIBERS_PER_PUBLISHER b -> Z.of_nat (length (pub_queues p)) < pub_max p.
Proof.
  intros HC Hp Hs Hj Hm. destruct (c_pub _ _ _ _ HC i p Hp) as (Hn & -> & _).
  assert (Hsub : (j :: pub_queues p) ⊆+ seq 0 (length S)).
  { apply NoDup_submseteq; [by apply NoDup_cons|]. intros q Hq. apply elem_of_seq.
    assert (exists s, S !! q = Some (Some s)) as [s' Hs'].
    { apply elem_of_cons in Hq as [->|Hq]; [eauto|]. destruct (c_sound _ _ _ _ HC i p q Hp Hq) as (_ & s' & ? & _). eauto. }
    apply lookup_lt_Some in Hs'. lia. }
  apply submseteq_length in Hsub. rewrite length_seq in Hsub. simpl in Hsub.
  pose proof (c_length _ _ _ _ HC). lia.
Qed.

(** A publisher replaced by one that differs in its queues and its offer. *)
Definition same_port (p p' : pub) : Prop :=
  pub_service p' = pub_service p /\ pub_options p' = pub_options p /\ pub_max p' = pub_max p.

Lemma same_port_compatible p p' s : same_port p p' -> compatible p' s = compatible p s.
Proof. intros (E1 & E2 & _). unfold compatible. by rewrite E1, E2. Qed.

Lemma update_pub P S x y x' y' i p p' :
  CInv P S x y -> P !! i = Some (Some p) -> same_port p p' -> NoDup (pub_queues p') ->
  (forall i' j, i' <> i -> x i' j -> x' i' j) -> (forall i' j, i' <> i -> y i' j -> y' i' j) ->
  (forall q, q ∈ pub_queues p' -> pub_offered p' = true /\ exists s, S !! q = Some (Some s) /\ compatible p s = true /\
     (sub_state s = SubscribeState.SUBSCRIBED \/ x' i q)) ->
  (Z.of_nat (length S) <= MAX_SUBSCRIBERS_PER_PUBLISHER b -> forall j s, S !! j = Some (Some s) -> pub_offered p' = true ->
     sub_state s = SubscribeState.SUBSCRIBED -> compatible p s = true -> j ∈ pub_queues p' \/ y' i j) ->
  CInv (<[i := Some p']> P) S x' y'.
Proof.
  intros HC Hi Hsame Hn Hx Hy Hsound Hcomp. pose proof HC as [].
  assert (Hl : forall i' r, <[i := Some p']> P !! i' = Some (Some r) ->
    (i' = i /\ r = p') \/ (i' <> i /\ P !! i' = Some (Some r))).
  { intros i' r Hr. apply list_lookup_insert_Some in Hr as [(-> & ? & _)|[]]; [left; split; congruence|right; done]. }
  pose proof Hsame as (E1 & E2 & E3). destruct (c_pub0 i p Hi) as (_ & Hmax & Hint). constructor; try done.
  - intros i' r [[-> ->]|[_ Hr]]%Hl; [|by eapply c_pub0]. split; [done|]. rewrite E3, E1. done.
  - intros i' r q [[-> ->]|[Hne Hr]]%Hl Hq.
    + destruct (Hsound q Hq) as (Ho & s & Hs & Hc & Hx'). split; [done|]. exists s.
      by rewrite (same_port_compatible p).
    + destruct (c_sound0 i' r q Hr Hq) as (Ho & s & Hs & Hc & [|]); split; eauto 10.
  - intros Hm i' r j s [[-> ->]|[Hne Hr]]%Hl Hs Ho Hsub Hc.
    + rewrite (same_port_compatible p) in Hc by done. by apply (Hcomp Hm j s).
    + destruct (c_complete0 Hm i' r j s Hr Hs Ho Hsub Hc); eauto.
Qed.

(** ** Messages to a publisher *)

Lemma views_lookup {A B} (f : A -> B) l i v : views f l !! i = Some (Some v) ->
  exists x, l !! i = Some (Some x) /\ v = f x.
Proof.
  unfold views. rewrite list_lookup_fmap. destruct (l !! i) as [[x|]|]; simpl; intros; simplify_eq. eauto.
Qed.

(** SUB from subscriber [j] at an offered publisher [i]. *)
Lemma dispatch_sub m p w r p' w' S P x y i j s :
  CInv P S x y -> P !! i = Some (Some (pub_view p)) -> S !! j = Some (Some s) ->
  sub_state s = SubscribeState.SUBSCRIBED -> compatible (pub_view p) s = true ->
  CaproMessage.m_type m = CaproMessageType.SUB -> CaproMessage.m_chunkQueueData m = Some j ->
  PublisherPortRouDi.dispatchCaProMessageAndGetPossibleResponse m p w = Done (r, p', w') ->
  CInv (<[i := Some (pub_view p')]> P) S x (fun i' j' => y i' j' /\ ~ (i' = i /\ j' = j)) /\
  exists r', r = Some r' /\ (CaproMessage.m_type r' = CaproMessageType.ACK \/ CaproMessage.m_type r' = CaproMessageType.NACK).
Proof.
  intros HC Hp Hs Hsub Hc Hm Hq H. unfold PublisherPortRouDi.dispatchCaProMessageAndGetPossibleResponse in H.
  rewrite Hm, Hq in H. pose proof HC as [Hpub _ _ Hsound Hcomp]. destruct (Hpub i _ Hp) as (Hn & Hmax & _).
  assert (Hsame : forall l, pub_offered (pub_view p) = true -> NoDup l -> pub_queues (pub_view p) ⊆ l ->
    (forall q, q ∈ l -> q ∈ pub_queues (pub_view p) \/ q = j) ->
    (Z.of_nat (length S) <= MAX_SUBSCRIBERS_PER_PUBLISHER b -> j ∈ l) ->
    CInv (<[i := Some (mkPub (pub_service (pub_view p)) (pub_options (pub_view p)) (pub_offered (pub_view p))
                         (pub_max (pub_view p)) l)]> P) S x (fun i' j' => y i' j' /\ ~ (i' = i /\ j' = j))).
  { intros l Ho Hnl Hl1 Hl2 Hjl. apply (update_pub P S x y x _ i (pub_view p)); try done.
    - intros i' j' Hne Hy. split; [done|]. by intros [].
    - intros q Hql. simpl. split; [done|]. destruct (Hl2 q Hql) as [Hq'| ->]; [by apply (Hsound i)|]. eauto 10.
    - intros Hmm j' s' Hs' _ Hsub' Hc'. simpl. destruct (decide (j' = j)) as [->|Hne]; [left; by apply Hjl|].
      destruct (Hcomp Hmm i (pub_view p) j' s' Hp Hs' Ho Hsub' Hc') as [H'|H']; [left; by apply Hl1|right].
      split; [done|]. by intros []. }
  destruct (PublisherPortData.m_offered p) eqn:Ho.
  - apply obind_Done_inv in H as ([[ret c] w1] & E & H). injection H as <- <- <-.
    split; [|destruct (has_error ret); eexists; split; eauto].
    unfold PublisherPortRouDi.add_queue in E. apply obind_Done_inv in E as ([[ret1 d] w2] & E & E').
    injection E' as <- <- <-. unfold ChunkDistributor.tryAddQueue in E. case_bool_decide as Hin.
    + injection E as <- <- <-. apply Hsame; try done. by left.
    + destruct (Z.ltb_spec (Z.of_nat (length (ChunkDistributor.m_queues (ChunkSender.dist (PublisherPortData.m_chunkSenderData p)))))
        (ChunkDistributor.MAX_QUEUES (ChunkSender.dist (PublisherPortData.m_chunkSenderData p)))) as [Hlt|Hge].
      * apply obind_Done_inv in E as (w3 & _ & E). injection E as <- <- <-.
        apply (Hsame (pub_queues (pub_view p) ++ [j])); try done.
        -- apply NoDup_app. split; [done|]. split; [|by apply NoDup_singleton]. intros q Hq1 Hq2%list_elem_of_singleton.
           by subst q.
        -- intros q Hq1. apply elem_of_app. by left.
        -- intros q [|E%list_elem_of_singleton]%elem_of_app; [by left|by right].
        -- intros _. apply elem_of_app. right. by apply list_elem_of_singleton.
      * injection E as <- <- <-. apply Hsame; try done; [by left|]. intros Hmm.
        pose proof (room P S x y i (pub_view p) j s HC Hp Hs Hin Hmm) as Hr. exfalso. simpl in Hr.
        unfold PublisherPortData.stored in Hr. lia.
  - injection H as <- <- <-. split; [|eauto].
    apply (update_pub P S x y x _ i (pub_view p)); try done.
    + intros i' j' Hne Hy. split; [done|]. by intros [].
    + intros q Hq'. by apply (Hsound i).
    + intros _ j' s' _ Ho'. simpl in Ho'. congruence.
Qed.

(** [erase] of a list without duplicates. *)
Lemma erase_spec q l : NoDup l ->
  match ChunkDistributor.erase q l with
  | Some l' => NoDup l' /\ forall x, x ∈ l' <-> x ∈ l /\ x <> q
  | None => q ∉ l
  end.
Proof.
  induction l as [|a l IH]; intros Hn; simpl; [by apply not_elem_of_nil|]. apply NoDup_cons in Hn as [Ha Hn].
  case_bool_decide as E.
  - subst a. split; [done|]. intros x. rewrite elem_of_cons. split; [|tauto]. intros Hx. split; [by right|]. by intros ->.
  - specialize (IH Hn). destruct (ChunkDistributor.erase q l) as [l'|].
    + destruct IH as [Hn' Hx]. split.
      * apply NoDup_cons. split; [|done]. rewrite Hx. tauto.
      * intros x. rewrite !elem_of_cons, Hx. split; [|tauto]. intros [->|[]]; [|by auto]. by split; [left|].
    + by apply not_elem_of_cons.
Qed.

(** UNSUB from subscriber [j], which is not subscribed any more. *)
Lemma dispatch_unsub m p w r p' w' S P x y i j s :
  CInv P S x y -> P !! i = Some (Some (pub_view p)) -> S !! j = Some (Some s) ->
  sub_state s = SubscribeState.NOT_SUBSCRIBED ->
  CaproMessage.m_type m = CaproMessageType.UNSUB -> CaproMessage.m_chunkQueueData m = Some j ->
  PublisherPortRouDi.dispatchCaProMessageAndGetPossibleResponse m p w = Done (r, p', w') ->
  CInv (<[i := Some (pub_view p')]> P) S (fun i' j' => x i' j' /\ ~ (i' = i /\ j' = j)) y /\
  same_port (pub_view p) (pub_view p') /\
  exists r', r = Some r' /\ (CaproMessage.m_type r' = CaproMessageType.ACK \/ CaproMessage.m_type r' = CaproMessageType.NACK).
Proof.
  intros HC Hp Hs Hsub Hm Hq H. unfold PublisherPortRouDi.dispatchCaProMessageAndGetPossibleResponse in H.
  rewrite Hm, Hq in H. pose proof HC as [Hpub _ _ Hsound Hcomp]. destruct (Hpub i _ Hp) as (Hn & Hmax & _).
  assert (Hsame : forall l, NoDup l -> (forall q, q ∈ l <-> q ∈ pub_queues (pub_view p) /\ q <> j) ->
    CInv (<[i := Some (mkPub (pub_service (pub_view p)) (pub_options (pub_view p)) (pub_offered (pub_view p))
                         (pub_max (pub_view p)) l)]> P) S (fun i' j' => x i' j' /\ ~ (i' = i /\ j' = j)) y).
  { intros l Hnl Hl. apply (update_pub P S x y _ y i (pub_view p)); try done.
    - intros i' j' Hne Hx. split; [done|]. by intros [].
    - intros q Hql. simpl. apply Hl in Hql as [Hq1 Hq2].
      destruct (Hsound i _ q Hp Hq1) as (Ho & s' & Hs' & Hc' & [|]); (split; [done|]); exists s'; split_and!; auto.
      right. split; [done|]. by intros [].
    - intros Hmm j' s' Hs' Ho Hsub' Hc'. simpl in *.
      destruct (Hcomp Hmm i (pub_view p) j' s' Hp Hs' Ho Hsub' Hc') as [H'|H']; [left|by right].
      apply Hl. split; [done|]. intros ->. congruence. }
  destruct (PublisherPortData.m_offered p) eqn:Ho.
  - apply obind_Done_inv in H as ([ret c] & E & H). injection H as <- <- <-.
    unfold PublisherPortRouDi.remove_queue in E. unfold ChunkDistributor.tryRemoveQueue in E.
    pose proof (erase_spec j _ Hn) as He. simpl in He. unfold PublisherPortData.stored in He.
    destruct (ChunkDistributor.erase j _) as [l'|]; injection E as <- <-.
    + split; [apply (Hsame l'); apply He|]. split; [done|]. eexists. split; [done|]. by left.
    + split; [|split; [done|eexists; split; [done|by right]]]. apply Hsame; [done|]. intros q.
      split; [|tauto]. intros Hq'. split; [done|]. by intros ->.
  - injection H as <- <- <-. split; [|split; [done|eauto]].
    assert (Hno : forall q, q ∉ pub_queues (pub_view p)).
    { intros q Hq'. destruct (Hsound i _ q Hp Hq') as [Ho' _]. simpl in Ho'. congruence. }
    apply (Hsame (pub_queues (pub_view p))); [done|]. intros q. split; [|tauto]. intros Hq'. by destruct (Hno q).
Qed.

(** ** The loops over the ports, for many-to-many communication *)

Context (HM : Policy b = ManyToManyPolicy).

Lemma internal_no_break d m : internal d -> PortManager.same_external_interface d m = false.
Proof. intros E. unfold PortManager.same_external_interface. rewrite E. done. Qed.

Lemma drop_missing P S x y i p j s : CInv P S x y -> P !! i = Some (Some p) -> S !! j = Some (Some s) ->
  compatible p s = false -> CInv P S x (fun i' j' => y i' j' /\ ~ (i' = i /\ j' = j)).
Proof.
  intros [] Hp Hs Hc. constructor; try done. intros Hm i' p' j' s' Hp' Hs' Ho Hsub Hc'.
  destruct (c_complete0 Hm i' p' j' s' Hp' Hs' Ho Hsub Hc'); [by left|right]. split; [done|]. intros [-> ->]. congruence.
Qed.

Lemma drop_stale P S x y i p j s : CInv P S x y -> P !! i = Some (Some p) -> S !! j = Some (Some s) ->
  compatible p s = false -> CInv P S (fun i' j' => x i' j' /\ ~ (i' = i /\ j' = j)) y.
Proof.
  intros [] Hp Hs Hc. constructor; try done. intros i' p' q Hp' Hq.
  destruct (c_sound0 i' p' q Hp' Hq) as (Ho & s' & Hs' & Hc' & [|]); (split; [done|]); exists s'; split_and!; auto.
  right. split; [done|]. intros [-> ->]. congruence.
Qed.

(** Subscriber ports do not react to the answer of a publisher. *)
Lemma subscriber_answer m v w : CaproMessage.m_type m = CaproMessageType.ACK \/ CaproMessage.m_type m = CaproMessageType.NACK ->
  SubscriberPortType.dispatchCaProMessageAndGetPossibleResponse b m v w = (None, v, w).
Proof.
  unfold SubscriberPortType.dispatchCaProMessageAndGetPossibleResponse. rewrite HM.
  unfold SubscriberPortMultiProducer.dispatchCaProMessageAndGetPossibleResponse. by intros [-> | ->].
Qed.

Definition to_j (j : nat) (ps : list nat) (i' j' : nat) : Prop := j' = j /\ i' ∈ ps.

Lemma to_j_step j i ps i' j' : to_j j (i :: ps) i' j' /\ ~ (i' = i /\ j' = j) -> to_j j ps i' j'.
Proof. intros [[-> [->|]%elem_of_cons] Hne]; [by destruct Hne|by split]. Qed.

Lemma to_publishers_ok m j ps : forall found s found' s' v,
  CaproMessage.m_chunkQueueData m = Some j -> subs s !! j = Some (Some v) ->
  (CaproMessage.m_type m = CaproMessageType.SUB /\ sub_state v = SubscribeState.SUBSCRIBED /\
     CInv (pubs s) (subs s) none (to_j j ps) \/
   CaproMessage.m_type m = CaproMessageType.UNSUB /\ sub_state v = SubscribeState.NOT_SUBSCRIBED /\
     CInv (pubs s) (subs s) (to_j j ps) none) ->
  PortManager.to_publishers b m j ps found s = Done (found', s') -> subs s' = subs s /\ Conn s'.
Proof.
  induction ps as [|i ps IH]; intros found s found' s' v Hq Hv Hcase H; cbn [PortManager.to_publishers] in H.
  - injection H as <- <-. split; [done|]. unfold Conn.
    destruct Hcase as [(_ & _ & HC)|(_ & _ & HC)]; (eapply cinv_weaken; [exact HC| |]); try done;
      intros i' j' [_ Hin]; by apply elem_of_nil in Hin.
  - apply obind_Done_inv in H as (p & Ep & H). pose proof (get_view pub_view _ _ _ Ep) as Hp. fold (pubs s) in Hp.
    assert (Hint : internal (PublisherPortData.service p)).
    { destruct Hcase as [(_ & _ & HC)|(_ & _ & HC)]; by destruct (c_pub _ _ _ _ HC i _ Hp) as (_ & _ & ?). }
    rewrite internal_no_break in H by done. apply obind_Done_inv in H as (sp & Es & H).
    pose proof (get_view sub_view _ _ _ Es) as Hs. fold (subs s) in Hs. rewrite Hv in Hs. injection Hs as ->.
    rewrite compatible_view in H. destruct (compatible (pub_view p) (sub_view sp)) eqn:Hc.
    + apply obind_Done_inv in H as ([[r p'] w] & Ed & H).
      set (s1 := PortManager.put_publisher i p' w s) in *.
      assert (Hstep : exists r', r = Some r' /\
        (CaproMessage.m_type r' = CaproMessageType.ACK \/ CaproMessage.m_type r' = CaproMessageType.NACK) /\
        (CaproMessage.m_type m = CaproMessageType.SUB /\ sub_state (sub_view sp) = SubscribeState.SUBSCRIBED /\
           CInv (pubs s1) (subs s) none (to_j j ps) \/
         CaproMessage.m_type m = CaproMessageType.UNSUB /\ sub_state (sub_view sp) = SubscribeState.NOT_SUBSCRIBED /\
           CInv (pubs s1) (subs s) (to_j j ps) none)).
      { unfold s1. rewrite put_publisher_pubs. destruct Hcase as [(Hm & Hst & HC)|(Hm & Hst & HC)].
        - destruct (dispatch_sub m p _ _ _ _ _ _ _ _ i j _ HC Hp Hv Hst Hc Hm Hq Ed) as [HC' (r' & -> & Hr)].
          exists r'. split; [done|]. split; [done|]. left. split_and!; try done.
          eapply cinv_weaken; [exact HC'|done|]. apply to_j_step.
        - destruct (dispatch_unsub m p _ _ _ _ _ _ _ _ i j _ HC Hp Hv Hst Hm Hq Ed) as [HC' [_ (r' & -> & Hr)]].
          exists r'. split; [done|]. split; [done|]. right. split_and!; try done.
          eapply cinv_weaken; [exact HC'| |done]. apply to_j_step. }
      destruct Hstep as (r' & -> & Hr & Hcase'). rewrite subscriber_answer in H by done. simpl in H.
      set (s2 := PortManager.put_subscriber j sp (PortManager.world s1) s1) in *.
      assert (Hs2 : subs s2 = subs s).
      { unfold s2. rewrite put_subscriber_subs. by apply list_insert_id. }
      destruct (IH true s2 found' s' (sub_view sp) Hq) as [E1 E2]; [by rewrite Hs2|by rewrite Hs2|done|].
      split; [congruence|done].
    + apply (IH found s found' s' (sub_view sp) Hq Hv); [|done].
      destruct Hcase as [(Hm & Hst & HC)|(Hm & Hst & HC)]; [left|right]; split_and!; try done.
      * eapply cinv_weaken; [by eapply drop_missing|done|]. apply to_j_step.
      * eapply cinv_weaken; [by eapply drop_stale| |done]. apply to_j_step.
Qed.

Lemma content_complete {A B} (f : A -> B) l i v : views f l !! i = Some (Some v) -> i ∈ FixedPositionContainer.content l.
Proof. intros (x & Hx & _)%views_lookup. apply FixedPositionContainer.elem_of_content. eauto. Qed.

(** An OFFER of publisher [i] to the subscribers [js]. *)
Lemma to_subscribers_offer m i js : forall s s' p0,
  CaproMessage.m_type m = CaproMessageType.OFFER -> pubs s !! i = Some (Some p0) -> pub_offered p0 = true ->
  CInv (pubs s) (subs s) none (fun i' j' => i' = i /\ j' ∈ js) ->
  PortManager.to_subscribers b m i js s = Done s' -> subs s' = subs s /\ Conn s'.
Proof.
  induction js as [|j js IH]; intros s s' p0 Hm Hp0 Ho HC H; cbn [PortManager.to_subscribers] in H.
  { injection H as <-. split; [done|]. eapply cinv_weaken; [exact HC|done|]. intros i' j' [_ Hin]. by apply elem_of_nil in Hin. }
  apply obind_Done_inv in H as (sp & Es & H). pose proof (get_view sub_view _ _ _ Es) as Hs. fold (subs s) in Hs.
  destruct (c_sub _ _ _ _ HC j _ Hs) as (Hqj & Hint & Hst). rewrite internal_no_break in H by done.
  apply obind_Done_inv in H as (p & Ep & H). pose proof (get_view pub_view _ _ _ Ep) as Hp. fold (pubs s) in Hp.
  rewrite Hp0 in Hp. injection Hp as ->. rewrite compatible_view in H.
  assert (Hweak : forall P', CInv P' (subs s) none (fun i' j' => (i' = i /\ j' ∈ j :: js) /\ ~ (i' = i /\ j' = j)) ->
    CInv P' (subs s) none (fun i' j' => i' = i /\ j' ∈ js)).
  { intros P' HC'. eapply cinv_weaken; [exact HC'|done|].
    intros i' j' [[-> [->|]%elem_of_cons] Hne]; [by destruct Hne|by split]. }
  destruct (compatible (pub_view p) (sub_view sp)) eqn:Hc.
  - unfold SubscriberPortType.dispatchCaProMessageAndGetPossibleResponse in H. rewrite HM in H.
    unfold SubscriberPortMultiProducer.dispatchCaProMessageAndGetPossibleResponse at 1 in H. rewrite Hm in H.
    set (s1 := PortManager.put_subscriber j sp (PortManager.world s) s) in *.
    assert (Hs1 : subs s1 = subs s) by (unfold s1; rewrite put_subscriber_subs; by apply list_insert_id).
    simpl in Hst. destruct Hst as [Hst|Hst]; rewrite Hst in H.
    + apply (IH s1 s' (pub_view p)) in H; try done; [by rewrite <- Hs1|]. rewrite Hs1. apply Hweak.
      constructor; try apply HC. intros Hmm i' p' j' s'' Hp' Hs' Ho' Hsub' Hc'.
      destruct (c_complete _ _ _ _ HC Hmm i' p' j' s'' Hp' Hs' Ho' Hsub' Hc'); [by left|right]. split; [done|].
      intros [-> ->]. rewrite Hs in Hs'. injection Hs' as <-. simpl in Hsub'. congruence.
    + rewrite bool_decide_eq_true_2 in H by done. cbn [expects] in H.
      apply obind_Done_inv in H as ([[r p'] w] & Ed & H).
      assert (Hsame : same_port (pub_view p) (pub_view p') /\ pub_offered (pub_view p') = true).
      { unfold PublisherPortRouDi.dispatchCaProMessageAndGetPossibleResponse in Ed. simpl in Ho. rewrite Ho in Ed.
        cbn [CaproMessage.m_type CaproMessage.set_history CaproMessage.set_queue CaproMessage.ctor sub_message] in Ed.
        apply obind_Done_inv in Ed as ([[ret c] w1] & E & Ed). injection Ed as <- <- <-.
        split; [|done]. unfold PublisherPortRouDi.add_queue in E. simpl in E.
        apply obind_Done_inv in E as ([[ret1 d] w2] & E & E'). injection E' as <- <- <-.
        split; [done|]. split; [done|]. simpl. unfold ChunkDistributor.tryAddQueue in E.
        repeat (case_bool_decide || case_match); try done_inv E; by injection E as <- <- <-. }
      destruct (dispatch_sub (sub_message sp) p _ _ _ _ _ _ _ _ i j _ HC Hp0 Hs Hst Hc eq_refl
        (f_equal Some Hqj) Ed) as [HC' (r' & -> & Hr)].
      assert (Hans : forall w, SubscriberPortMultiProducer.dispatchCaProMessageAndGetPossibleResponse r' sp w = (None, sp, w)).
      { intros w1. unfold SubscriberPortMultiProducer.dispatchCaProMessageAndGetPossibleResponse. by destruct Hr as [-> | ->]. }
      rewrite Hans in H. cbn [expects] in H.
      set (s2 := PortManager.put_publisher i p' w s1).
      set (s3 := PortManager.put_subscriber j sp (PortManager.world s2) s2).
      assert (Hs3 : subs s3 = subs s).
      { unfold s3. rewrite put_subscriber_subs. change (subs s2) with (subs s1). rewrite Hs1. by apply list_insert_id. }
      assert (Hp3 : pubs s3 = <[i := Some (pub_view p')]> (pubs s)) by exact (put_publisher_pubs i p' w s1).
      apply (IH s3 s' (pub_view p')) in H; [rewrite <- Hs3; exact H|done| |apply Hsame|].
      * rewrite Hp3. apply list_lookup_insert_eq. by eapply lookup_lt_Some.
      * rewrite Hs3, Hp3. by apply Hweak.
  - apply (IH s s' (pub_view p)) in H; try done. apply Hweak. by eapply drop_missing.
Qed.

(** Subscribers ignore a STOP_OFFER. *)
Lemma to_subscribers_stop m i js : forall s s', CaproMessage.m_type m = CaproMessageType.STOP_OFFER ->
  PortManager.to_subscribers b m i js s = Done s' -> psame s s'.
Proof.
  induction js as [|j js IH]; intros s s' Hm H; cbn [PortManager.to_subscribers] in H; [by injection H as <-|].
  apply obind_Done_inv in H as (sp & Es & H).
  destruct (PortManager.same_external_interface _ _); [by injection H as <-|].
  apply obind_Done_inv in H as (p & Ep & H). destruct (PortManager.isCompatiblePubSub p sp); [|by apply IH].
  unfold SubscriberPortType.dispatchCaProMessageAndGetPossibleResponse in H. rewrite HM in H.
  unfold SubscriberPortMultiProducer.dispatchCaProMessageAndGetPossibleResponse at 1 in H. rewrite Hm in H.
  apply IH in H; [|done]. etrans; [|exact H]. by eapply put_subscriber_same.
Qed.

(** ** Operations of the port manager *)

Notation doDiscoveryForPublisherPort := (PortManager.doDiscoveryForPublisherPort b sizeof_registry alignof_registry).
Notation destroyPublisherPort := (PortManager.destroyPublisherPort b sizeof_registry alignof_registry lock_held).

Lemma conn_psame s s' : psame s s' -> Conn s -> Conn s'.
Proof. intros [E1 E2]. unfold Conn. by rewrite E1, E2. Qed.

(** The publisher [i] offers now, with no queue yet. *)
Lemma offer_cinv P S i p p' : CInv P S none none -> P !! i = Some (Some p) -> same_port p p' ->
  pub_queues p' = pub_queues p -> pub_offered p = false -> CInv (<[i := Some p']> P) S none (fun i' _ => i' = i).
Proof.
  intros HC Hp Hsame Hq Ho. destruct (c_pub _ _ _ _ HC i p Hp) as (Hn & _).
  apply (update_pub P S none none none _ i p); try done; [by rewrite Hq| |by right].
  intros q. rewrite Hq. intros Hin. destruct (c_sound _ _ _ _ HC i p q Hp Hin). congruence.
Qed.

(** The publisher [i] stops its offer. *)
Lemma stop_cinv P S i p p' : CInv P S none none -> P !! i = Some (Some p) -> same_port p p' ->
  pub_queues p' = [] -> pub_offered p' = false -> CInv (<[i := Some p']> P) S none none.
Proof.
  intros HC Hp Hsame Hq Ho. apply (update_pub P S none none none none i p); try done.
  - rewrite Hq. apply NoDup_nil_2.
  - intros q. rewrite Hq. by intros ?%elem_of_nil.
  - intros _ j s _. congruence.
Qed.

Lemma tryGetCaProMessage_cases p :
  match PublisherPortRouDi.tryGetCaProMessage p with
  | (None, p') => p' = p /\ PublisherPortData.m_offeringRequested p = PublisherPortData.m_offered p
  | (Some m, p') => same_port (pub_view p) (pub_view p') /\
      (CaproMessage.m_type m = CaproMessageType.OFFER /\ pub_queues (pub_view p') = pub_queues (pub_view p) /\
         pub_offered (pub_view p) = false /\ pub_offered (pub_view p') = true /\
         PublisherPortData.m_offeringRequested p = true \/
       CaproMessage.m_type m = CaproMessageType.STOP_OFFER /\ pub_queues (pub_view p') = [] /\
         pub_offered (pub_view p') = false)
  end.
Proof.
  unfold PublisherPortRouDi.tryGetCaProMessage.
  destruct (PublisherPortData.m_offeringRequested p) eqn:Er, (PublisherPortData.m_offered p) eqn:Eo; simpl; try done.
  - split; [done|]. by left.
  - split; [done|]. by right.
Qed.

Lemma conn_offer s i p p' m s1 s2 :
  Conn s -> PortManager.get_publisher i s = Done p -> same_port (pub_view p) (pub_view p') ->
  CaproMessage.m_type m = CaproMessageType.OFFER -> pub_queues (pub_view p') = pub_queues (pub_view p) ->
  pub_offered (pub_view p) = false -> pub_offered (pub_view p') = true ->
  psame (PortManager.put_publisher i p' (PortManager.world s) s) s1 ->
  PortManager.sendToAllMatchingSubscriberPorts b m i s1 = Done s2 -> Conn s2.
Proof.
  intros HC Ep Hsame Hm Hq Ho Ho' [E1 E2] H. pose proof (get_view pub_view _ _ _ Ep) as Hp. fold (pubs s) in Hp.
  rewrite put_publisher_pubs in E1. change (subs s1 = subs s) in E2.
  unfold PortManager.sendToAllMatchingSubscriberPorts in H.
  eapply to_subscribers_offer in H as [_ H]; [exact H|done| |exact Ho'|].
  - rewrite E1. apply list_lookup_insert_eq. by eapply lookup_lt_Some.
  - rewrite E1, E2. pose proof (offer_cinv _ _ _ _ _ HC Hp Hsame Hq Ho) as HC'.
    constructor; try apply HC'. intros Hmm i' r j v Hr Hv Hor Hsub Hc.
    destruct (c_complete _ _ _ _ HC' Hmm i' r j v Hr Hv Hor Hsub Hc) as [|Hi]; [by left|right]. split; [exact Hi|].
    apply (content_complete sub_view _ _ v). change (subs s1 !! j = Some (Some v)). by rewrite E2.
Qed.

Lemma conn_stop s i p p' m s1 s2 :
  Conn s -> PortManager.get_publisher i s = Done p -> same_port (pub_view p) (pub_view p') ->
  CaproMessage.m_type m = CaproMessageType.STOP_OFFER -> pub_queues (pub_view p') = [] ->
  pub_offered (pub_view p') = false ->
  psame (PortManager.put_publisher i p' (PortManager.world s) s) s1 ->
  PortManager.sendToAllMatchingSubscriberPorts b m i s1 = Done s2 -> Conn s2 /\ psame s1 s2.
Proof.
  intros HC Ep Hsame Hm Hq Ho Hs1 H. pose proof (get_view pub_view _ _ _ Ep) as Hp. fold (pubs s) in Hp.
  apply to_subscribers_stop in H; [|done]. split; [|done]. apply (conn_psame _ _ H), (conn_psame _ _ Hs1).
  unfold Conn. rewrite put_publisher_pubs. change (subs (PortManager.put_publisher _ _ _ _)) with (subs s).
  by eapply stop_cinv.
Qed.

Lemma publisher_discovery_conn i s s' : Conn s -> doDiscoveryForPublisherPort i s = Done s' -> Conn s'.
Proof.
  intros HC H. unfold PortManager.doDiscoveryForPublisherPort in H. apply obind_Done_inv in H as (p & Ep & H).
  pose proof (tryGetCaProMessage_cases p) as Hc. destruct (PublisherPortRouDi.tryGetCaProMessage p) as [[m|] p'].
  - destruct Hc as [Hsame [(Hm & Hq & Ho & Ho' & _)|(Hm & Hq & Ho)]]; rewrite Hm in H;
      apply obind_Done_inv in H as (s1 & E1 & H); apply obind_Done_inv in H as (s2 & E2 & H);
      apply interfaces_psame in H; apply (conn_psame _ _ H).
    + apply addToServiceRegistry_psame in E1. by eapply conn_offer.
    + apply removeFromServiceRegistry_psame in E1. by eapply conn_stop.
  - destruct Hc as [-> _]. injection H as <-. eapply conn_psame; [|exact HC]. by eapply put_publisher_same.
Qed.

(** A table entry is removed. *)
Lemma views_erase {A B} (f : A -> B) l i : views f (FixedPositionContainer.erase i l) = <[i := None]> (views f l).
Proof. unfold views, FixedPositionContainer.erase. by rewrite list_fmap_insert. Qed.

Lemma remove_pub P S i : CInv P S none none -> CInv (<[i := None]> P) S none none.
Proof.
  intros []. constructor; try done; intros *;
    (intros [(_ & [=] & _)|[_ Hp]]%list_lookup_insert_Some || intros ? * [(_ & [=] & _)|[_ Hp]]%list_lookup_insert_Some);
    eauto.
Qed.

Lemma remove_sub P S j v : CInv P S none none -> S !! j = Some (Some v) -> sub_state v = SubscribeState.NOT_SUBSCRIBED ->
  CInv P (<[j := None]> S) none none.
Proof.
  intros HC Hj Hv. pose proof HC as []. constructor; try done.
  - intros j' s [(_ & [=] & _)|[_ Hs]]%list_lookup_insert_Some. eauto.
  - by rewrite length_insert.
  - intros i p q Hp Hq. destruct (c_sound0 i p q Hp Hq) as (Ho & s & Hs & Hc & [Hst|[]]). split; [done|].
    exists s. split_and!; auto. rewrite list_lookup_insert_ne; [done|]. intros <-. congruence.
  - rewrite length_insert. intros Hm i p j' s Hp [(_ & [=] & _)|[_ Hs]]%list_lookup_insert_Some. eauto.
Qed.

Lemma destroy_publisher_conn i s s' : Conn s -> destroyPublisherPort i s = Done s' -> Conn s'.
Proof.
  intros HC H. unfold PortManager.destroyPublisherPort in H. apply obind_Done_inv in H as (p & Ep & H).
  pose proof (tryGetCaProMessage_cases (PublisherPortUser.stopOffer p)) as Hc.
  assert (Hstop : pub_view (PublisherPortUser.stopOffer p) = pub_view p /\
                  PublisherPortData.m_offeringRequested (PublisherPortUser.stopOffer p) = false).
  { unfold PublisherPortUser.stopOffer. by destruct (PublisherPortData.m_offeringRequested p) eqn:?. }
  destruct Hstop as [Hview Hreq]. rewrite Hview, Hreq in Hc.
  destruct (PublisherPortRouDi.tryGetCaProMessage (PublisherPortUser.stopOffer p)) as [mm p'].
  apply obind_Done_inv in H as (s1 & E1 & H).
  assert (HC1 : Conn s1).
  { destruct mm as [m|].
    - destruct Hc as [Hsame [(_ & _ & _ & _ & [=])|(Hm & Hq & Ho)]]. rewrite bool_decide_eq_true_2 in E1 by done.
      cbn [expects] in E1. apply obind_Done_inv in E1 as (s2 & E2 & E1). apply obind_Done_inv in E1 as (s3 & E3 & E1).
      apply interfaces_psame in E1. apply (conn_psame _ _ E1). apply removeFromServiceRegistry_psame in E2.
      by eapply conn_stop.
    - destruct Hc as [-> _]. injection E1 as <-. eapply conn_psame; [|exact HC]. by eapply put_publisher_same. }
  apply obind_Done_inv in H as (p1 & Ep1 & H). apply obind_Done_inv in H as ([p2 w] & E2 & H). injection H as <-.
  unfold PublisherPortRouDi.releaseAllChunks in E2. apply obind_Done_inv in E2 as ([c w'] & E2 & E3).
  injection E3 as <- <-. apply releaseAll_view, set_sender_view in E2.
  unfold Conn. change (CInv (views pub_view (FixedPositionContainer.erase i (<[i := Some (PublisherPortData.set_sender c p1)]>
    (PortManager.publishers s1)))) (subs s1) none none).
  rewrite views_erase, put_view, list_insert_insert_eq. by apply remove_pub.
Qed.

Notation doDiscoveryForSubscriberPort := (PortManager.doDiscoveryForSubscriberPort b).
Notation destroySubscriberPort := (PortManager.destroySubscriberPort b).

(** The state of subscriber [j] changes; [v'] is its new view. *)
Lemma update_sub P S stale missing j v v' :
  CInv P S none none -> S !! j = Some (Some v) ->
  sub_service v' = sub_service v -> sub_options v' = sub_options v -> sub_queue v' = sub_queue v ->
  (sub_state v' = SubscribeState.SUBSCRIBED /\ (forall i, missing i j) \/
   sub_state v' = SubscribeState.NOT_SUBSCRIBED /\ (forall i, stale i j)) ->
  CInv P (<[j := Some v']> S) stale missing.
Proof.
  intros HC Hj E1 E2 E3 Hst. pose proof HC as []. destruct (c_sub0 j v Hj) as (Hq & Hint & _).
  assert (Hcomp : forall p, compatible p v' = compatible p v) by (intros p; unfold compatible; by rewrite E1, E2).
  constructor; try done.
  - intros j' s [(-> & [= <-] & _)|[_ Hs]]%list_lookup_insert_Some; [|by eapply c_sub0]. rewrite E1, E3.
    split; [done|]. split; [done|]. destruct Hst as [[-> _]|[-> _]]; auto.
  - by rewrite length_insert.
  - intros i p q Hp Hin. destruct (c_sound0 i p q Hp Hin) as (Ho & s & Hs & Hc & [Hss|[]]). split; [done|].
    destruct (decide (q = j)) as [->|Hne].
    + exists v'. rewrite list_lookup_insert_eq by (by eapply lookup_lt_Some). split; [done|].
      assert (s = v) as -> by congruence. rewrite Hcomp. split; [done|]. destruct Hst as [[-> _]|[_ H]]; auto.
    + exists s. rewrite list_lookup_insert_ne by done. auto.
  - rewrite length_insert. intros Hm i p j' s Hp [(-> & [= <-] & _)|[Hne Hs]]%list_lookup_insert_Some Ho Hss Hc.
    + right. destruct Hst as [[_ H]|[E _]]; [apply H|congruence].
    + destruct (c_complete0 Hm i p j' s Hp Hs Ho Hss Hc) as [|[]]. by left.
Qed.

Lemma tryGet_subscriber_cases v : SubscribeState.NOT_SUBSCRIBED = SubscriberPortData.m_subscriptionState v \/
    SubscribeState.SUBSCRIBED = SubscriberPortData.m_subscriptionState v ->
  match SubscriberPortType.tryGetCaProMessage b v with
  | (None, v') => v' = v /\ (SubscriberPortData.m_subscribeRequested v = false ->
                             SubscriberPortData.m_subscriptionState v = SubscribeState.NOT_SUBSCRIBED)
  | (Some m, v') => CaproMessage.m_chunkQueueData m = Some (SubscriberPortData.queue v) /\
      ((CaproMessage.m_type m = CaproMessageType.SUB /\ v' = SubscriberPortData.set_state SubscribeState.SUBSCRIBED v /\
        SubscriberPortData.m_subscribeRequested v = true) \/
       (CaproMessage.m_type m = CaproMessageType.UNSUB /\ v' = SubscriberPortData.set_state SubscribeState.NOT_SUBSCRIBED v))
  end.
Proof.
  unfold SubscriberPortType.tryGetCaProMessage. rewrite HM. unfold SubscriberPortMultiProducer.tryGetCaProMessage.
  destruct (SubscriberPortData.m_subscribeRequested v) eqn:Er; intros [E|E]; rewrite <- E; simpl; (split; [reflexivity|]);
    first [done|by left|by right].
Qed.

(** The message of subscriber [j] reaches all publishers. *)
Lemma conn_subscriber s j v v' m found s' :
  Conn s -> PortManager.get_subscriber j s = Done v -> CaproMessage.m_chunkQueueData m = Some (SubscriberPortData.queue v) ->
  (CaproMessage.m_type m = CaproMessageType.SUB /\ v' = SubscriberPortData.set_state SubscribeState.SUBSCRIBED v \/
   CaproMessage.m_type m = CaproMessageType.UNSUB /\ v' = SubscriberPortData.set_state SubscribeState.NOT_SUBSCRIBED v) ->
  PortManager.sendToAllMatchingPublisherPorts b m j (PortManager.put_subscriber j v' (PortManager.world s) s) = Done (found, s') ->
  Conn s' /\ subs s' = <[j := Some (sub_view v')]> (subs s).
Proof.
  intros HC Ev Hq Hm H. pose proof (get_view sub_view _ _ _ Ev) as Hv. fold (subs s) in Hv.
  destruct (c_sub _ _ _ _ HC j _ Hv) as (Hqj & _ & _). simpl in Hqj. rewrite Hqj in Hq.
  set (s1 := PortManager.put_subscriber j v' (PortManager.world s) s) in *.
  assert (Hs1 : subs s1 = <[j := Some (sub_view v')]> (subs s)) by apply put_subscriber_subs.
  unfold PortManager.sendToAllMatchingPublisherPorts in H.
  assert (Hin : forall i p, pubs s1 !! i = Some (Some p) -> i ∈ FixedPositionContainer.content (PortManager.publishers s1)).
  { intros i p. apply content_complete. }
  assert (Hlk : subs s1 !! j = Some (Some (sub_view v'))).
  { rewrite Hs1. apply list_lookup_insert_eq. by eapply lookup_lt_Some. }
  rewrite <- Hs1. eapply to_publishers_ok in H; [destruct H as [-> HC']; split; [exact HC'|reflexivity]|done|exact Hlk|].
  rewrite Hs1. change (pubs s1) with (pubs s) in *.
  destruct Hm as [[Hm ->]|[Hm ->]]; [left|right]; split_and!; try done.
  - assert (HC' : CInv (pubs s) (<[j := Some (sub_view (SubscriberPortData.set_state SubscribeState.SUBSCRIBED v))]> (subs s))
      none (fun _ j' => j' = j)) by (eapply update_sub; eauto).
    constructor; try apply HC'. intros Hmm i p j' s0 Hp Hs0 Ho Hss Hc.
    destruct (c_complete _ _ _ _ HC' Hmm i p j' s0 Hp Hs0 Ho Hss Hc) as [|Hj]; [by left|right]. split; [exact Hj|].
    by eapply Hin.
  - assert (HC' : CInv (pubs s) (<[j := Some (sub_view (SubscriberPortData.set_state SubscribeState.NOT_SUBSCRIBED v))]> (subs s))
      (fun _ j' => j' = j) none) by (eapply update_sub; eauto).
    constructor; try apply HC'. intros i p q Hp Hin'.
    destruct (c_sound _ _ _ _ HC' i p q Hp Hin') as (Ho & s0 & Hs0 & Hc & [|Hj]); (split; [done|]); exists s0; split_and!; auto.
    right. split; [exact Hj|]. by eapply Hin.
Qed.

Lemma subscriber_state s j v : Conn s -> PortManager.get_subscriber j s = Done v ->
  SubscribeState.NOT_SUBSCRIBED = SubscriberPortData.m_subscriptionState v \/
  SubscribeState.SUBSCRIBED = SubscriberPortData.m_subscriptionState v.
Proof.
  intros HC Ev. pose proof (get_view sub_view _ _ _ Ev) as Hv. destruct (c_sub _ _ _ _ HC j _ Hv) as (_ & _ & H).
  simpl in H. destruct H as [-> | ->]; auto.
Qed.

Lemma subscriber_discovery_conn j s s' : Conn s -> doDiscoveryForSubscriberPort j s = Done s' -> Conn s'.
Proof.
  intros HC H. unfold PortManager.doDiscoveryForSubscriberPort in H. apply obind_Done_inv in H as (v & Ev & H).
  pose proof (tryGet_subscriber_cases v (subscriber_state s j v HC Ev)) as Hc.
  destruct (SubscriberPortType.tryGetCaProMessage b v) as [[m|] v'].
  - assert (H' : exists found s1,
      PortManager.sendToAllMatchingPublisherPorts b m j (PortManager.put_subscriber j v' (PortManager.world s) s) = Done (found, s1) /\
      psame s1 s').
    { destruct Hc as [_ [(Hm & _)|(Hm & _)]]; rewrite Hm in H; apply obind_Done_inv in H as ([found s1] & E1 & H);
        exists found, s1; (split; [done|]); (destruct found; [by injection H as <-|]);
        apply obind_Done_inv in H as (v1 & Ev1 & H); rewrite subscriber_answer in H by (by right);
        injection H as <-; by eapply put_subscriber_same. }
    destruct H' as (found & s1 & E1 & Hs). apply (conn_psame _ _ Hs). destruct Hc as [Hq Hm].
    eapply conn_subscriber; [exact HC|exact Ev|exact Hq| |exact E1]. destruct Hm as [(? & ? & _)|[]]; auto.
  - destruct Hc as [-> _]. injection H as <-. eapply conn_psame; [|exact HC]. by eapply put_subscriber_same.
Qed.

Lemma destroy_subscriber_conn j s s' : Conn s -> destroySubscriberPort j s = Done s' -> Conn s'.
Proof.
  intros HC H. unfold PortManager.destroySubscriberPort in H. apply obind_Done_inv in H as (v & Ev & H).
  set (v0 := SubscriberPortUser.unsubscribe v) in *.
  assert (Hv0 : sub_view v0 = sub_view v /\ SubscriberPortData.m_subscribeRequested v0 = false).
  { unfold v0, SubscriberPortUser.unsubscribe. by destruct (SubscriberPortData.m_subscribeRequested v) eqn:?. }
  destruct Hv0 as [Hview Hreq]. set (s0 := PortManager.put_subscriber j v0 (PortManager.world s) s).
  assert (HC0 : Conn s0) by (eapply conn_psame; [by eapply put_subscriber_same|exact HC]).
  assert (Ev0 : PortManager.get_subscriber j s0 = Done v0).
  { apply FixedPositionContainer.get_Done. apply list_lookup_insert_eq. apply FixedPositionContainer.get_Done in Ev.
    by eapply lookup_lt_Some. }
  pose proof (tryGet_subscriber_cases v0 (subscriber_state s0 j v0 HC0 Ev0)) as Hc.
  destruct (SubscriberPortType.tryGetCaProMessage b v0) as [mm v'] eqn:Et.
  apply obind_Done_inv in H as (s1 & E1 & H).
  assert (HC1 : Conn s1 /\ exists u, subs s1 !! j = Some (Some u) /\ sub_state u = SubscribeState.NOT_SUBSCRIBED).
  { assert (Hlen : (j < length (subs s0))%nat).
    { pose proof (get_view sub_view _ _ _ Ev0) as Hl. by eapply lookup_lt_Some. }
    destruct mm as [m|].
    - destruct Hc as [Hq [(_ & _ & E)|(Hm & ->)]]; [congruence|]. rewrite bool_decide_eq_true_2 in E1 by done.
      cbn [expects] in E1. apply obind_Done_inv in E1 as ([found s2] & E2 & E1). injection E1 as <-.
      assert (E2' : PortManager.sendToAllMatchingPublisherPorts b m j
        (PortManager.put_subscriber j (SubscriberPortData.set_state SubscribeState.NOT_SUBSCRIBED v0) (PortManager.world s0) s0)
        = Done (found, s2)).
      { rewrite <- E2. f_equal. apply put_subscriber_twice. }
      destruct (conn_subscriber s0 j v0 _ m found s2 HC0 Ev0 Hq (or_intror (conj Hm eq_refl)) E2') as [HC2 Hs2].
      split; [done|]. eexists. rewrite Hs2, list_lookup_insert_eq by done. split; [done|reflexivity].
    - destruct Hc as [-> Hn]. injection E1 as <-. split; [exact HC0|]. exists (sub_view v0).
      split; [by apply (get_view sub_view)|]. simpl. by apply Hn. }
  destruct HC1 as [HC1 (u & Hu & Hst)].
  apply obind_Done_inv in H as (v1 & Ev1 & H). apply obind_Done_inv in H as ([v2 w] & E2 & H). injection H as <-.
  unfold SubscriberPortType.releaseAllChunks in E2. apply obind_Done_inv in E2 as ([c w'] & E2 & E3).
  injection E3 as <- <-.
  unfold Conn. change (CInv (pubs s1) (views sub_view (FixedPositionContainer.erase j (<[j := Some (SubscriberPortData.set_receiver c v1)]>
    (PortManager.subscribers s1)))) none none).
  rewrite views_erase, put_view, list_insert_insert_eq. by eapply remove_sub.
Qed.

(** ** Client-server discovery leaves publishers and subscribers alone *)

Lemma to_clients_psame m i js : forall s s', PortManager.to_clients m i js s = Done s' -> psame s s'.
Proof.
  induction js as [|j js IH]; intros s s' H; cbn [PortManager.to_clients] in H; [by injection H as <-|].
  apply obind_Done_inv in H as (c & _ & H). apply obind_Done_inv in H as (v & _ & H).
  apply obind_Done_inv in H as (k & _ & H). destruct k; [|by apply IH].
  apply obind_Done_inv in H as ([[r c'] w] & _ & H). destruct r as [r|]; [|exact (IH _ _ H)].
  unfold expects in H at 1. if_inv H; [|done]. apply obind_Done_inv in H as ([[r' v'] w'] & _ & H).
  destruct r' as [r'|]; [|exact (IH _ _ H)]. apply obind_Done_inv in H as ([[r2 c2] w2] & _ & H).
  unfold expects in H. if_inv H; [|done]. exact (IH _ _ H).
Qed.

Lemma to_servers_psame m j ps : forall found s r s', PortManager.to_servers m j ps found s = Done (r, s') -> psame s s'.
Proof.
  induction ps as [|i ps IH]; intros found s r0 s' H; cbn [PortManager.to_servers] in H; [by injection H as <- <-|].
  apply obind_Done_inv in H as (v & _ & H). apply obind_Done_inv in H as (c & _ & H).
  apply obind_Done_inv in H as (k & _ & H). destruct k; [|by eapply IH].
  apply obind_Done_inv in H as ([[r v'] w] & _ & H). destruct r as [r|]; [|exact (IH _ _ _ _ H)].
  apply obind_Done_inv in H as ([[r2 c2] w2] & _ & H). unfold expects in H. if_inv H; [|done]. exact (IH _ _ _ _ H).
Qed.

Lemma client_discovery_psame j s s' : PortManager.doDiscoveryForClientPort j s = Done s' -> psame s s'.
Proof.
  unfold PortManager.doDiscoveryForClientPort. intros H. apply obind_Done_inv in H as (c & _ & H).
  apply obind_Done_inv in H as ([[m c'] w] & _ & H). destruct m as [m|]; [|by injection H as <-].
  set (s1 := PortManager.put_client j c' w s) in *. change (psame s1 s').
  assert (Hn : forall s2, (let* '(found, s) := PortManager.sendToAllMatchingServerPorts m j s1 in
          if found : bool then Done s
          else
            let* client := PortManager.get_client j s in
            let nackMessage :=
              CaproMessage.ctor CaproMessageType.NACK (ClientPortData.service client) CaproServiceType.NONE None in
            let* '(returnMessage, client, w) :=
              ClientPortRouDi.dispatchCaProMessageAndGetPossibleResponse nackMessage client (PortManager.world s) in
            let s := PortManager.put_client j client w s in
            expects (match returnMessage with None => true | Some _ => false end) (Done s)) = Done s2 -> psame s1 s2).
  { intros s2 Hs2. apply obind_Done_inv in Hs2 as ([found s3] & E3 & Hs2). apply to_servers_psame in E3.
    etrans; [exact E3|]. destruct found; [by injection Hs2 as <-|]. apply obind_Done_inv in Hs2 as (c1 & _ & Hs2).
    apply obind_Done_inv in Hs2 as ([[m2 c2] w2] & _ & Hs2). unfold expects in Hs2. if_inv Hs2; [|done].
    by injection Hs2 as <-. }
  destruct (CaproMessage.m_type m); first [exact (Hn _ H)|by injection H as <-].
Qed.

Lemma destroy_client_psame j s s' : PortManager.destroyClientPort lock_held j s = Done s' -> psame s s'.
Proof.
  unfold PortManager.destroyClientPort. intros H. apply obind_Done_inv in H as (c & _ & H).
  apply obind_Done_inv in H as ([[m c'] w] & _ & H). apply obind_Done_inv in H as (s1 & E1 & H).
  assert (H1 : psame s s1).
  { destruct m as [m|]; [|by injection E1 as <-]. unfold expects in E1. if_inv E1; [|done].
    apply obind_Done_inv in E1 as ([found s2] & E2 & E1). injection E1 as <-. exact (to_servers_psame _ _ _ _ _ _ _ E2). }
  etrans; [exact H1|]. apply obind_Done_inv in H as (c1 & _ & H). apply obind_Done_inv in H as ([c2 w2] & _ & H).
  by injection H as <-.
Qed.

Lemma server_discovery_psame i s s' :
  PortManager.doDiscoveryForServerPort b sizeof_registry alignof_registry i s = Done s' -> psame s s'.
Proof.
  unfold PortManager.doDiscoveryForServerPort. intros H. apply obind_Done_inv in H as (v & _ & H).
  apply obind_Done_inv in H as ([[m v'] w] & _ & H). destruct m as [m|]; [|by injection H as <-].
  set (s1 := PortManager.put_server i v' w s) in *. change (psame s1 s').
  destruct (CaproMessage.m_type m); try (by injection H as <-);
    apply obind_Done_inv in H as (s2 & E2 & H); apply obind_Done_inv in H as (s3 & E3 & H);
    apply interfaces_psame in H; apply to_clients_psame in E3;
    (apply addToServiceRegistry_psame in E2 || apply removeFromServiceRegistry_psame in E2);
    (etrans; [exact E2|]); (etrans; [exact E3|exact H]).
Qed.

Lemma destroy_server_psame i s s' :
  PortManager.destroyServerPort b sizeof_registry alignof_registry lock_held i s = Done s' -> psame s s'.
Proof.
  unfold PortManager.destroyServerPort. intros H. apply obind_Done_inv in H as (v & _ & H).
  apply obind_Done_inv in H as ([[m v'] w] & _ & H). apply obind_Done_inv in H as (s1 & E1 & H).
  assert (H1 : psame s s1).
  { destruct m as [m|]; [|by injection E1 as <-]. unfold expects in E1. if_inv E1; [|done].
    apply obind_Done_inv in E1 as (s2 & E2 & E1). apply obind_Done_inv in E1 as (s3 & E3 & E1).
    apply interfaces_psame in E1. apply to_clients_psame in E3. apply removeFromServiceRegistry_psame in E2.
    etrans; [exact E2|]. by etrans. }
  etrans; [exact H1|]. apply obind_Done_inv in H as (c1 & _ & H). apply obind_Done_inv in H as ([c2 w2] & _ & H).
  by injection H as <-.
Qed.

(** ** New ports *)

Lemma put_views {A B} (f : A -> B) l i x : l !! i = Some None \/ i = length l ->
  forall j v, views f (FixedPositionContainer.put i (Some x) l) !! j = Some (Some v) <->
    (j = i /\ v = f x) \/ (j <> i /\ views f l !! j = Some (Some v)).
Proof.
  intros H j v. unfold views. rewrite !list_lookup_fmap, FixedPositionContainer.lookup_put by done.
  case_decide as E; simpl; [subst j|].
  - split; [intros [= <-]; by left|]. intros [[_ ->]|[? _]]; done.
  - split; [intros Hj; right; split; [congruence|done]|]. intros [[? _]|[_ ?]]; [congruence|done].
Qed.

Lemma new_pub l S i x : CInv (views pub_view l) S none none -> l !! i = Some None \/ i = length l ->
  pub_queues (pub_view x) = [] -> pub_offered (pub_view x) = false ->
  pub_max (pub_view x) = MAX_SUBSCRIBERS_PER_PUBLISHER b -> internal (pub_service (pub_view x)) ->
  CInv (views pub_view (FixedPositionContainer.put i (Some x) l)) S none none.
Proof.
  intros [] Hi Hq Ho Hm Hint. pose proof (put_views pub_view l i x Hi) as Hl. constructor; try done.
  - intros i' p [[_ ->]|[_ Hp]]%Hl; [|by eapply c_pub0]. rewrite Hq. split; [apply NoDup_nil_2|done].
  - intros i' p q [[_ ->]|[_ Hp]]%Hl; [|by eapply c_sound0]. rewrite Hq. by intros ?%elem_of_nil.
  - intros Hmm i' p j s [[_ ->]|[_ Hp]]%Hl; [congruence|by eapply c_complete0].
Qed.

Lemma new_sub P l j x : CInv P (views sub_view l) none none -> l !! j = Some None \/ j = length l ->
  FixedPositionContainer.hasFreeSpace (MAX_SUBSCRIBERS b) l = true ->
  sub_queue (sub_view x) = j -> sub_state (sub_view x) = SubscribeState.NOT_SUBSCRIBED -> internal (sub_service (sub_view x)) ->
  j = FixedPositionContainer.free_slot l -> CInv P (views sub_view (FixedPositionContainer.put j (Some x) l)) none none.
Proof.
  intros [] Hj Hfree Hq Hst Hint Ej. pose proof (put_views sub_view l j x Hj) as Hl. constructor; try done.
  - intros j' s [[-> ->]|[_ Hs]]%Hl; [|by eapply c_sub0]. auto.
  - unfold views in *. rewrite length_fmap in *. unfold FixedPositionContainer.put. case_bool_decide as Hlt.
    + by rewrite length_insert.
    + rewrite length_app. simpl. destruct Hj as [Hj|Hj]; [apply lookup_lt_Some in Hj; lia|].
      unfold FixedPositionContainer.hasFreeSpace in Hfree. apply orb_true_iff in Hfree as [Hf%Z.ltb_lt|Hf]; [lia|].
      exfalso. apply existsb_exists in Hf as ([y|] & Hin & Hy); [done|]. apply list_elem_of_In in Hin.
      revert Ej Hj Hin. clear. revert j. induction l as [|[y|] l IH]; intros j Ej Hj Hin; simpl in *; subst.
      * by apply elem_of_nil in Hin.
      * injection Hj as Hj. apply elem_of_cons in Hin as [|Hin]; [done|]. by eapply IH.
      * done.
  - intros i p q Hp Hin. destruct (c_sound0 i p q Hp Hin) as (Ho & s & Hs & Hc & [Hss|[]]). split; [done|]. exists s.
    split; [|auto]. apply Hl. right. split; [|done]. intros ->.
    unfold views in Hs. rewrite list_lookup_fmap in Hs. destruct Hj as [Hj| ->]; [by rewrite Hj in Hs|].
    rewrite lookup_ge_None_2 in Hs by done. done.
  - intros Hmm i p j' s Hp [[_ ->]|[_ Hs]]%Hl; [congruence|eapply c_complete0; [|done..]]. etrans; [|exact Hmm].
    unfold views, FixedPositionContainer.put. rewrite !length_fmap. case_bool_decide; [by rewrite length_insert|].
    rewrite length_app. lia.
Qed.

Lemma addPublisherPort_conn service mm rt opts s r p :
  internal service -> Conn s -> PortPool.addPublisherPort b service mm rt opts (PortManager.m_portPool s) = Done (r, p) ->
  Conn (PortManager.set_pool p s).
Proof.
  intros Hint HC H. unfold PortPool.addPublisherPort in H. destruct (FixedPositionContainer.hasFreeSpace _ _); [|by injection H as <- <-].
  apply obind_Done_inv in H as ([[d ids] w] & E & H). injection H as <- <-. unfold PublisherPortData.ctor in E.
  apply obind_Done_inv in E as ([base ids'] & E1 & E). apply obind_Done_inv in E as ([c w'] & E2 & E).
  injection E as <- <- <-. unfold BasePortData.ctor in E1. apply obind_Done_inv in E1 as ([id ids1] & _ & E1).
  injection E1 as <- <-. unfold new_sender in E2. apply obind_Done_inv in E2 as ([u h] & _ & E2). injection E2 as <- <-.
  apply (new_pub (PortManager.publishers s) (subs s)); try done. apply FixedPositionContainer.free_slot_spec.
Qed.

Lemma addSubscriberPort_conn service rt opts s r p :
  internal service -> Conn s -> PortPool.addSubscriberPort b service rt opts (PortManager.m_portPool s) = Done (r, p) ->
  Conn (PortManager.set_pool p s).
Proof.
  intros Hint HC H. unfold PortPool.addSubscriberPort in H.
  destruct (FixedPositionContainer.hasFreeSpace _ _) eqn:Hfree; [|by injection H as <- <-].
  apply obind_Done_inv in H as ([[d ids] w] & E & H). injection H as <- <-. unfold SubscriberPortData.ctor in E.
  apply obind_Done_inv in E as ([base ids'] & E1 & E). apply obind_Done_inv in E as ([[c ids2] w'] & E2 & E).
  injection E as <- <- <-. unfold BasePortData.ctor in E1. apply obind_Done_inv in E1 as ([id ids1] & _ & E1).
  injection E1 as <- <-. unfold new_receiver in E2. apply obind_Done_inv in E2 as ([u h] & _ & E2).
  apply obind_Done_inv in E2 as ([[x y] z] & _ & E2). injection E2 as <- <- <-.
  apply (new_sub (pubs s) (PortManager.subscribers s)); try done. apply FixedPositionContainer.free_slot_spec.
Qed.

Lemma and_then_conn body x r s' : (forall i s s', Conn s -> body i s = Done s' -> Conn s') ->
  (forall r s, x = Done (r, s) -> Conn s) -> PortManager.and_then body x = Done (r, s') -> Conn s'.
Proof.
  intros Hb Hx H. unfold PortManager.and_then in H. apply obind_Done_inv in H as ([r0 s0] & E & H).
  apply Hx in E. destruct r0 as [i|]; [|by injection H as <- <-].
  apply obind_Done_inv in H as (s1 & E1 & H). injection H as <- <-. by eapply Hb.
Qed.

Notation acquireWithoutDiscovery :=
  (PortManager.acquirePublisherPortDataWithoutDiscovery b sizeof_registry alignof_registry lock_held).

Lemma acquire_publisher_conn service opts rt mm s r s' : internal service -> Conn s ->
  acquireWithoutDiscovery service opts rt mm s = Done (r, s') -> Conn s'.
Proof.
  intros Hint HC H. unfold PortManager.acquirePublisherPortDataWithoutDiscovery, PortManager.doesViolateCommunicationPolicy in H.
  rewrite HM in H. cbn [obind] in H.
  assert (Hadd : forall s0, Conn s0 -> (let* '(r, p) := PortPool.addPublisherPort b service mm rt opts (PortManager.m_portPool s0) in
        Done (r, PortManager.set_pool p s0)) = Done (r, s') -> Conn s').
  { intros s0 HC0 H0. apply obind_Done_inv in H0 as ([r0 p] & E & H0). injection H0 as <- <-.
    by eapply addPublisherPort_conn. }
  case_bool_decide; [|destruct (PortManager.isInternal service s); [by injection H as <- <-|by apply (Hadd s)]].
  apply (Hadd _) in H; [done|]. by destruct (_ <? _).
Qed.

(** ** Reachable states

    [step] is one operation of RouDi, of an application on a publisher or
    subscriber port, or whatever an application does with its client, server and
    interface ports.  Services are internal (no gateway is involved); a publisher
    that sends does not have to wait for a full blocking queue. *)

Notation doDiscovery := (PortManager.doDiscovery b sizeof_registry alignof_registry lock_held).

Inductive step (s : PortManager.t) : PortManager.t -> Prop :=
  | step_offer i p : PortManager.get_publisher i s = Done p ->
      step s (PortManager.put_publisher i (PublisherPortUser.offer p) (PortManager.world s) s)
  | step_stopOffer i p : PortManager.get_publisher i s = Done p ->
      step s (PortManager.put_publisher i (PublisherPortUser.stopOffer p) (PortManager.world s) s)
  | step_allocate i p ps pa hs ha r p' w : PortManager.get_publisher i s = Done p ->
      PublisherPortUser.tryAllocateChunk ps pa hs ha p (PortManager.world s) = Done (r, p', w) ->
      step s (PortManager.put_publisher i p' w s)
  | step_send i p c p' w : PortManager.get_publisher i s = Done p ->
      PublisherPortUser.sendChunk [] c p (PortManager.world s) = Done (p', w) -> step s (PortManager.put_publisher i p' w s)
  | step_destroyPublisher i p : PortManager.get_publisher i s = Done p ->
      step s (PortManager.put_publisher i
                (PublisherPortData.set_base (BasePortData.destroy (PublisherPortData.base p)) p) (PortManager.world s) s)
  | step_subscribe j v v' w : PortManager.get_subscriber j s = Done v ->
      SubscriberPortUser.subscribe v (PortManager.world s) = Done (v', w) -> step s (PortManager.put_subscriber j v' w s)
  | step_unsubscribe j v : PortManager.get_subscriber j s = Done v ->
      step s (PortManager.put_subscriber j (SubscriberPortUser.unsubscribe v) (PortManager.world s) s)
  | step_receive j v r v' w : PortManager.get_subscriber j s = Done v ->
      SubscriberPortUser.tryGetChunk v (PortManager.world s) = Done (r, v', w) -> step s (PortManager.put_subscriber j v' w s)
  | step_release j v c v' w : PortManager.get_subscriber j s = Done v ->
      SubscriberPortUser.releaseChunk c v (PortManager.world s) = Done (v', w) -> step s (PortManager.put_subscriber j v' w s)
  | step_destroySubscriber j v : PortManager.get_subscriber j s = Done v ->
      step s (PortManager.put_subscriber j
                (SubscriberPortData.set_base (BasePortData.destroy (SubscriberPortData.base v)) v) (PortManager.world s) s)
  | step_client j c w : step s (PortManager.put_client j c w s)
  | step_server i v w : step s (PortManager.put_server i v w s)
  | step_interface k v w : step s (PortManager.put_interface k v w s)
  | step_discovery s' : doDiscovery s = Done s' -> step s s'
  | step_acquirePublisher service opts rt mm r s' : internal service ->
      PortManager.acquirePublisherPortData b sizeof_registry alignof_registry lock_held service opts rt mm s = Done (r, s') ->
      step s s'
  | step_acquireSubscriber service opts rt r s' : internal service ->
      PortManager.acquireSubscriberPortData b service opts rt s = Done (r, s') -> step s s'
  | step_acquireClient service opts rt mm r s' :
      PortManager.acquireClientPortData b service opts rt mm s = Done (r, s') -> step s s'
  | step_acquireServer service opts rt mm r s' :
      PortManager.acquireServerPortData b sizeof_registry alignof_registry lock_held service opts rt mm s = Done (r, s') ->
      step s s'
  | step_acquireInterface interface rt r s' :
      PortManager.acquireInterfacePortData b interface rt s = Done (r, s') -> step s s'
  | step_acquireNode rt name r s' : PortManager.acquireNodeData rt name s = (r, s') -> step s s'
  | step_acquireCondition rt r s' : PortManager.acquireConditionVariableData b rt s = (r, s') -> step s s'
  | step_delete rt s' :
      PortManager.deletePortsOfProcess b sizeof_registry alignof_registry lock_held rt s = Done s' -> step s s'
  | step_unblock rt s' :
      PortManager.unblockProcessShutdown b sizeof_registry alignof_registry rt s = Done s' -> step s s'
  | step_unblockRouDi s' :
      PortManager.unblockRouDiShutdown b sizeof_registry alignof_registry s = Done s' -> step s s'.

(** RouDi has started with empty tables. *)
Inductive reachable : PortManager.t -> Prop :=
  | reach_start services node mm pool s :
      Forall internal services -> PortPool.m_publisherPortMembers pool = [] -> PortPool.m_subscriberPortMembers pool = [] ->
      PortManager.ctor b sizeof_registry alignof_registry lock_held services node mm pool = Done s -> reachable s
  | reach_step s s' : reachable s -> step s s' -> reachable s'.

Lemma doDiscovery_conn s s' : Conn s -> doDiscovery s = Done s' -> Conn s'.
Proof.
  intros HC H. unfold PortManager.doDiscovery in H.
  apply obind_Done_inv in H as (s1 & E1 & H). apply obind_Done_inv in H as (s2 & E2 & H).
  apply obind_Done_inv in H as (s3 & E3 & H). apply obind_Done_inv in H as (s4 & E4 & H).
  apply obind_Done_inv in H as (s5 & E5 & H). apply obind_Done_inv in H as (s6 & E6 & H).
  apply handleConditionVariables_psame in H. apply handleNodes_psame in E6. apply handleInterfaces_psame in E5.
  apply (conn_psame _ _ H), (conn_psame _ _ E6), (conn_psame _ _ E5).
  assert (P4 : psame s3 s4).
  { eapply for_each_psame; [|exact E4]. intros i t t' Ht. apply obind_Done_inv in Ht as (t1 & Et & Ht).
    apply client_discovery_psame in Et. apply obind_Done_inv in Ht as (c & _ & Ht). etrans; [exact Et|].
    destruct (BasePortData.m_toBeDestroyed _); [by apply destroy_client_psame in Ht|by injection Ht as <-]. }
  assert (P3 : psame s2 s3).
  { eapply for_each_psame; [|exact E3]. intros i t t' Ht. apply obind_Done_inv in Ht as (t1 & Et & Ht).
    apply server_discovery_psame in Et. apply obind_Done_inv in Ht as (c & _ & Ht). etrans; [exact Et|].
    destruct (BasePortData.m_toBeDestroyed _); [by apply destroy_server_psame in Ht|by injection Ht as <-]. }
  apply (conn_psame _ _ P4), (conn_psame _ _ P3).
  eapply (for_each_inv Conn); [|eapply (for_each_inv Conn); [|exact HC|exact E1]|exact E2];
    intros i t t' HCt Ht; apply obind_Done_inv in Ht as (t1 & Et & Ht); apply obind_Done_inv in Ht as (c & _ & Ht).
  - apply subscriber_discovery_conn in Et; [|done].
    destruct (BasePortData.m_toBeDestroyed _); [by eapply destroy_subscriber_conn|by injection Ht as <-].
  - apply publisher_discovery_conn in Et; [|done].
    destruct (BasePortData.m_toBeDestroyed _); [by eapply destroy_publisher_conn|by injection Ht as <-].
Qed.

Lemma stop_publisher_conn i s s' : Conn s ->
  PortManager.stop_publisher b sizeof_registry alignof_registry i s = Done s' -> Conn s'.
Proof.
  intros HC H. unfold PortManager.stop_publisher in H. apply obind_Done_inv in H as (p & Ep & H).
  eapply publisher_discovery_conn; [|exact H]. eapply conn_psame; [|exact HC]. by eapply put_publisher_same.
Qed.

Lemma stop_server_psame i s s' : PortManager.stop_server b sizeof_registry alignof_registry i s = Done s' -> psame s s'.
Proof.
  intros H. unfold PortManager.stop_server in H. apply obind_Done_inv in H as (p & _ & H).
  by apply server_discovery_psame in H.
Qed.

Lemma unblock_conn rt s s' : Conn s ->
  PortManager.unblockProcessShutdown b sizeof_registry alignof_registry rt s = Done s' -> Conn s'.
Proof.
  intros HC H. unfold PortManager.unblockProcessShutdown in H. apply obind_Done_inv in H as (s1 & E1 & H).
  eapply conn_psame.
  - eapply for_each_psame; [|exact H]. intros i t t' Ht. apply obind_Done_inv in Ht as (p & _ & Ht).
    case_bool_decide; [by apply stop_server_psame in Ht|by injection Ht as <-].
  - eapply (for_each_inv Conn); [|exact HC|exact E1]. intros i t t' HCt Ht. apply obind_Done_inv in Ht as (p & _ & Ht).
    case_bool_decide; [by eapply stop_publisher_conn|by injection Ht as <-].
Qed.

Lemma unblockRouDi_conn s s' : Conn s ->
  PortManager.unblockRouDiShutdown b sizeof_registry alignof_registry s = Done s' -> Conn s'.
Proof.
  intros HC H. unfold PortManager.unblockRouDiShutdown in H. apply obind_Done_inv in H as (s1 & E1 & H).
  eapply conn_psame.
  - eapply for_each_psame; [|exact H]. intros i t t'. apply stop_server_psame.
  - eapply (for_each_inv Conn); [|exact HC|exact E1]. intros i t t'. apply stop_publisher_conn.
Qed.

Lemma delete_conn rt s s' : Conn s ->
  PortManager.deletePortsOfProcess b sizeof_registry alignof_registry lock_held rt s = Done s' -> Conn s'.
Proof.
  intros HC H. unfold PortManager.deletePortsOfProcess in H.
  set (s0 := if bool_decide (rt = IPC_CHANNEL_ROUDI_NAME) then PortManager.set_registry_port None s else s) in *.
  assert (HC0 : Conn s0) by (unfold s0; by destruct (bool_decide _)).
  apply obind_Done_inv in H as (s1 & E1 & H). apply obind_Done_inv in H as (s2 & E2 & H).
  apply obind_Done_inv in H as (s3 & E3 & H). apply obind_Done_inv in H as (s4 & E4 & H).
  apply obind_Done_inv in H as (s5 & E5 & H). apply obind_Done_inv in H as (s6 & E6 & H).
  assert (P : psame s2 s').
  { transitivity s3; [|transitivity s4; [|transitivity s5; [|transitivity s6]]].
    - eapply for_each_psame; [|exact E3]. intros i t t' Ht. apply obind_Done_inv in Ht as (p & _ & Ht).
      if_inv Ht; [by apply destroy_server_psame in Ht|by injection Ht as <-].
    - eapply for_each_psame; [|exact E4]. intros i t t' Ht. apply obind_Done_inv in Ht as (p & _ & Ht).
      if_inv Ht; [by apply destroy_client_psame in Ht|by injection Ht as <-].
    - eapply for_each_psame; [|exact E5]. intros i t t' Ht. apply obind_Done_inv in Ht as (p & _ & Ht).
      injection Ht as <-. by match goal with |- psame _ (if ?c then _ else _) => destruct c end.
    - eapply for_each_psame; [|exact E6]. intros i t t' Ht. apply obind_Done_inv in Ht as (p & _ & Ht).
      injection Ht as <-. by match goal with |- psame _ (if ?c then _ else _) => destruct c end.
    - eapply for_each_psame; [|exact H]. intros i t t' Ht. apply obind_Done_inv in Ht as (p & _ & Ht).
      injection Ht as <-. by match goal with |- psame _ (if ?c then _ else _) => destruct c end. }
  apply (conn_psame _ _ P).
  eapply (for_each_inv Conn); [|eapply (for_each_inv Conn); [|exact HC0|exact E1]|exact E2];
    intros i t t' HCt Ht; apply obind_Done_inv in Ht as (c & _ & Ht); if_inv Ht;
    [by eapply destroy_subscriber_conn|by injection Ht as <-|by eapply destroy_publisher_conn|by injection Ht as <-].
Qed.

Lemma server_exists_psame service ps : forall s r s',
  PortManager.server_exists b sizeof_registry alignof_registry lock_held service ps s = Done (r, s') -> psame s s'.
Proof.
  induction ps as [|i ps IH]; intros s r s' H; cbn [PortManager.server_exists] in H; [by injection H as <- <-|].
  apply obind_Done_inv in H as (p & _ & H). destruct (ServiceDescription.eqb _ _); [|by eapply IH].
  destruct (BasePortData.m_toBeDestroyed _); [|by injection H as <- <-].
  apply obind_Done_inv in H as (s1 & E1 & H). apply destroy_server_psame in E1. etrans; [exact E1|by eapply IH].
Qed.

(** The pool operations for the other tables. *)
Lemma and_then_psame body x s r s' : (forall i s s', body i s = Done s' -> psame s s') ->
  (forall r s1, x = Done (r, s1) -> psame s s1) -> PortManager.and_then body x = Done (r, s') -> psame s s'.
Proof.
  intros Hb Hx H. unfold PortManager.and_then in H. apply obind_Done_inv in H as ([r0 s0] & E & H).
  apply Hx in E. destruct r0 as [i|]; [|by injection H as <- <-].
  apply obind_Done_inv in H as (s1 & E1 & H). injection H as <- <-. etrans; [exact E|by eapply Hb].
Qed.

Lemma acquireClient_psame service opts rt mm s r s' :
  PortManager.acquireClientPortData b service opts rt mm s = Done (r, s') -> psame s s'.
Proof.
  apply and_then_psame; [intros i t t'; apply client_discovery_psame|].
  intros r1 s1 H1. apply obind_Done_inv in H1 as ([r2 p] & E & H1). injection H1 as <- <-.
  unfold PortPool.addClientPort in E. if_inv E; [by injection E as <- <-|].
  apply obind_Done_inv in E as ([[d ids] w] & _ & E). by injection E as <- <-.
Qed.

Lemma acquireServer_psame service opts rt mm s r s' :
  PortManager.acquireServerPortData b sizeof_registry alignof_registry lock_held service opts rt mm s = Done (r, s') ->
  psame s s'.
Proof.
  unfold PortManager.acquireServerPortData. intros H. apply obind_Done_inv in H as ([found s1] & E & H).
  apply server_exists_psame in E. etrans; [exact E|]. destruct found; [by injection H as <- <-|].
  revert H. apply and_then_psame; [intros i t t'; apply server_discovery_psame|].
  intros r1 s2 H1. apply obind_Done_inv in H1 as ([r2 p] & E1 & H1). injection H1 as <- <-.
  unfold PortPool.addServerPort in E1. if_inv E1; [by injection E1 as <- <-|].
  apply obind_Done_inv in E1 as ([[d ids] w] & _ & E1). by injection E1 as <- <-.
Qed.

Lemma sendChunk_view c p w p' w' : PublisherPortUser.sendChunk [] c p w = Done (p', w') -> pub_view p' = pub_view p.
Proof.
  unfold PublisherPortUser.sendChunk. destruct (PublisherPortData.m_offeringRequested p); intros H.
  - apply obind_Done_inv in H as ([[n c0] w0] & E0 & H). injection H as <- <-. apply set_sender_view. by eapply send_view.
  - apply obind_Done_inv in H as ([c0 w0] & E0 & H). injection H as <- <-. apply set_sender_view. by eapply pushToHistory_view.
Qed.

Lemma tryGet_queue r w x r' w' : ChunkReceiver.tryGet r w = Done (x, r', w') -> ChunkReceiver.queue r' = ChunkReceiver.queue r.
Proof.
  unfold ChunkReceiver.tryGet. intros H. apply obind_Done_inv in H as ([c w1] & _ & H).
  destruct c; [|by injection H as <- <- <-]. apply obind_Done_inv in H as ([c1 w2] & _ & H).
  apply obind_Done_inv in H as ([c2 w3] & _ & H). apply obind_Done_inv in H as ([[i u] h] & _ & H).
  apply obind_Done_inv in H as (w4 & _ & H). apply obind_Done_inv in H as (w5 & _ & H). by injection H as <- <- <-.
Qed.

Lemma receiver_release_queue c r w r' w' : ChunkReceiver.release c r w = Done (r', w') ->
  ChunkReceiver.queue r' = ChunkReceiver.queue r.
Proof.
  unfold ChunkReceiver.release. intros H. apply obind_Done_inv in H as ([[[f k] u] h] & _ & H).
  apply obind_Done_inv in H as (w1 & _ & H). by injection H as <- <-.
Qed.

Lemma set_receiver_view v c : ChunkReceiver.queue c = SubscriberPortData.queue v ->
  sub_view (SubscriberPortData.set_receiver c v) = sub_view v.
Proof. intros E. unfold sub_view, SubscriberPortData.queue in *. simpl. by rewrite E. Qed.

Lemma step_conn s s' : Conn s -> step s s' -> Conn s'.
Proof.
  intros HC H. destruct H as [i p E|i p E|i p ps pa hs ha r p' w E H|i p c p' w E H|i p E|j v v' w E H|j v E|j v r v' w E H
    |j v c v' w E H|j v E|j c w|i v w|k v w|s' H|service opts rt mm r s' Hint H|service opts rt r s' Hint H
    |service opts rt mm r s' H|service opts rt mm r s' H|interface rt r s' H|rt name r s' H|rt r s' H|rt s' H|rt s' H|s' H];
    try done.
  - eapply conn_psame; [|exact HC]. eapply put_publisher_same; [done|]. unfold PublisherPortUser.offer.
    by destruct (PublisherPortData.m_offeringRequested p).
  - eapply conn_psame; [|exact HC]. eapply put_publisher_same; [done|]. unfold PublisherPortUser.stopOffer.
    by destruct (PublisherPortData.m_offeringRequested p).
  - eapply conn_psame; [|exact HC]. eapply put_publisher_same; [done|]. unfold PublisherPortUser.tryAllocateChunk in H.
    apply obind_Done_inv in H as ([[r0 c0] w0] & E0 & H). injection H as <- <- <-. apply set_sender_view. by eapply tryAllocate_view.
  - eapply conn_psame; [|exact HC]. eapply put_publisher_same; [done|]. by eapply sendChunk_view.
  - eapply conn_psame; [|exact HC]. by eapply put_publisher_same.
  - eapply conn_psame; [|exact HC]. eapply put_subscriber_same; [done|]. unfold SubscriberPortUser.subscribe in H.
    destruct (SubscriberPortData.m_subscribeRequested v); simpl in H; [by injection H as <- <-|].
    apply obind_Done_inv in H as (w0 & _ & H). by injection H as <- <-.
  - eapply conn_psame; [|exact HC]. eapply put_subscriber_same; [done|]. unfold SubscriberPortUser.unsubscribe.
    by destruct (SubscriberPortData.m_subscribeRequested v).
  - eapply conn_psame; [|exact HC]. eapply put_subscriber_same; [done|]. unfold SubscriberPortUser.tryGetChunk in H.
    apply obind_Done_inv in H as ([[r0 c0] w0] & E0 & H). injection H as <- <- <-. apply set_receiver_view. by eapply tryGet_queue.
  - eapply conn_psame; [|exact HC]. eapply put_subscriber_same; [done|]. unfold SubscriberPortUser.releaseChunk in H.
    apply obind_Done_inv in H as ([c0 w0] & E0 & H). injection H as <- <-. apply set_receiver_view. by eapply receiver_release_queue.
  - eapply conn_psame; [|exact HC]. by eapply put_subscriber_same.
  - by eapply doDiscovery_conn.
  - unfold PortManager.acquirePublisherPortData in H. revert H. apply and_then_conn.
    + intros i t t'. apply publisher_discovery_conn.
    + intros r0 s0. by apply acquire_publisher_conn.
  - unfold PortManager.acquireSubscriberPortData in H. revert H. apply and_then_conn.
    + intros i t t'. apply subscriber_discovery_conn.
    + intros r0 s0 H. apply obind_Done_inv in H as ([r1 p] & E & H). injection H as <- <-. by eapply addSubscriberPort_conn.
  - apply acquireClient_psame in H. by eapply conn_psame.
  - apply acquireServer_psame in H. by eapply conn_psame.
  - eapply conn_psame; [|exact HC]. unfold PortManager.acquireInterfacePortData in H.
    apply obind_Done_inv in H as ([r1 p] & E & H). injection H as <- <-. unfold PortPool.addInterfacePort in E.
    if_inv E; [|by injection E as <- <-]. apply obind_Done_inv in E as ([d ids] & _ & E). by injection E as <- <-.
  - eapply conn_psame; [|exact HC]. unfold PortManager.acquireNodeData, PortPool.addNodeData in H.
    destruct (FixedPositionContainer.hasFreeSpace _ _); by injection H as <- <-.
  - eapply conn_psame; [|exact HC]. unfold PortManager.acquireConditionVariableData, PortPool.addConditionVariableData in H.
    destruct (FixedPositionContainer.hasFreeSpace _ _); by injection H as <- <-.
  - by eapply delete_conn.
  - by eapply unblock_conn.
  - by eapply unblockRouDi_conn.
Qed.

Lemma acquireInternal_conn service opts mm s i s' : internal service -> Conn s ->
  PortManager.acquireInternalPublisherPortDataWithoutDiscovery b sizeof_registry alignof_registry lock_held service opts mm s
    = Done (i, s') -> Conn s'.
Proof.
  intros Hint HC H. unfold PortManager.acquireInternalPublisherPortDataWithoutDiscovery in H.
  apply obind_Done_inv in H as ([r s1] & E & H). apply acquire_publisher_conn in E; [|done|done].
  destruct r; [by injection H as <- <-|done].
Qed.

Lemma reachable_conn s : reachable s -> Conn s.
Proof.
  induction 1 as [services node mm pool s Hint Hp Hs H|s s' _ IH Hst]; [|by eapply step_conn].
  unfold PortManager.ctor in H. apply obind_Done_inv in H as ([i s1] & E1 & H). apply obind_Done_inv in H as (s2 & E2 & H).
  assert (HC2 : Conn s2).
  { eapply publisher_discovery_conn; [|exact E2]. change (Conn s1). apply acquireInternal_conn in E1; [done|done|].
    unfold Conn, pubs, subs, PortManager.publishers, PortManager.subscribers. simpl. rewrite Hp, Hs.
    constructor; simpl; try done. lia. }
  clear E1 E2. revert s2 HC2 H. induction services as [|d services IH]; intros s2 HC2 H; simpl in H; [by injection H as <-|].
  apply Forall_cons in Hint as [Hd Hint].
  destruct (PortManager.acquireInternalPublisherPortData b sizeof_registry alignof_registry lock_held d
    (PortManager.internal_options node) mm s2) as [[i' s3]|] eqn:E; cbn [obind] in H.
  - eapply IH; [done| |exact H]. unfold PortManager.acquireInternalPublisherPortData in E.
    apply obind_Done_inv in E as ([i1 s4] & E1 & E). apply obind_Done_inv in E as (s5 & E5 & E). injection E as <- <-.
    eapply publisher_discovery_conn; [|exact E5]. by eapply acquireInternal_conn.
  - exfalso. clear -H. induction services as [|d' services IH]; simpl in H; [done|by apply IH].
Qed.
End discovery.

Lemma view_get {A B} (f : A -> B) l i v : views f l !! i = Some (Some v) ->
  exists x, FixedPositionContainer.get i l = Done x /\ v = f x.
Proof. intros (x & Hx & ->)%views_lookup. exists x. split; [by apply FixedPositionContainer.get_Done|done]. Qed.

(** C1: in every reachable state of a many-to-many RouDi without gateways, a publisher delivers only to queues of
    subscriber ports that exist, at the address of that port, that are subscribed and compatible, and only while it is
    offered; no queue is served twice.  So no publisher ever holds a pointer to the queue of a destroyed subscriber. *)
Theorem connected_queues_alive b sizeof_registry alignof_registry lock_held s :
  Policy b = ManyToManyPolicy -> reachable b sizeof_registry alignof_registry lock_held s ->
  forall i p, PortManager.get_publisher i s = Done p ->
    NoDup (PublisherPortData.stored p) /\
    forall q, q ∈ PublisherPortData.stored p ->
      PublisherPortData.m_offered p = true /\
      exists v, PortManager.get_subscriber q s = Done v /\ SubscriberPortData.queue v = q /\
        SubscriberPortData.m_subscriptionState v = SubscribeState.SUBSCRIBED /\
        PortManager.isCompatiblePubSub p v = true.
Proof.
  intros HM Hr i p Hp. pose proof (reachable_conn b _ _ _ HM s Hr) as HC. apply (get_view pub_view) in Hp.
  split; [by destruct (c_pub _ _ _ _ _ HC i _ Hp)|]. intros q Hq.
  destruct (c_sound _ _ _ _ _ HC i _ q Hp Hq) as (Ho & v & Hv & Hc & [Hst|[]]). split; [done|].
  destruct (c_sub _ _ _ _ _ HC q v Hv) as (Hqq & _). apply view_get in Hv as (x & Hx & ->). by exists x.
Qed.

(** C13: conversely, in every reachable state of a many-to-many RouDi without gateways in which there have never been
    more than [MAX_SUBSCRIBERS_PER_PUBLISHER] subscriber ports at a time, every offered publisher delivers to every
    subscribed compatible subscriber: discovery connects all ports that should be connected, whatever the order in which
    ports are created, offered, subscribed and destroyed.  The table of subscriber ports reuses its free places and never
    shrinks, so its length is the largest number of ports that there were at a time.  (Beyond that number a publisher
    refuses subscriptions, and nothing asks again before its next offer.) *)
Theorem offered_and_subscribed_connected b sizeof_registry alignof_registry lock_held s :
  Policy b = ManyToManyPolicy -> reachable b sizeof_registry alignof_registry lock_held s ->
  Z.of_nat (length (PortManager.subscribers s)) <= MAX_SUBSCRIBERS_PER_PUBLISHER b ->
  forall i j p v, PortManager.get_publisher i s = Done p -> PortManager.get_subscriber j s = Done v ->
    PublisherPortData.m_offered p = true -> SubscriberPortData.m_subscriptionState v = SubscribeState.SUBSCRIBED ->
    PortManager.isCompatiblePubSub p v = true ->
    SubscriberPortData.queue v ∈ PublisherPortData.stored p.
Proof.
  intros HM Hr Hmax i j p v Hp Hv Ho Hst Hc. pose proof (reachable_conn b _ _ _ HM s Hr) as HC.
  apply (get_view pub_view) in Hp. apply (get_view sub_view) in Hv.
  destruct (c_sub _ _ _ _ _ HC j _ Hv) as (Hq & _). simpl in Hq. rewrite Hq.
  destruct (c_complete _ _ _ _ _ HC) with (i := i) (j := j) (2 := Hp) (3 := Hv) as [H|[]]; try done.
  unfold subs, views. by rewrite length_fmap.
Qed.
