(* ===== verification/Scenarios.v ===== *)
(** * Scenarios

    A small system of ports on which the theorems of [Discovery] are applied, and
    the sequences of requests after which the discovery breaks its promises.
    Every closed run is evaluated once, as a boolean test of its final state. *)

From S2P Require Import Prelude ChunkHeader MemPool MemoryManager SharedChunk UsedChunkList Queue VariantQueue ConditionVariable.
From S2P Require Import ChunkQueue ChunkDistributor ChunkSender CaPro PubSubPorts ClientServerPorts.
From S2P Require Import ServiceRegistry PortPool PortManager Discovery.

(** [P] holds of the state a run ends in. *)
Definition ends_in {A} (m : outcome A) (P : A -> bool) : bool := match m with Done s => P s | Terminated _ => false end.

Lemma ends_in_inv {A} (m : outcome A) P : ends_in m P = true -> exists s, m = Done s /\ P s = true.
Proof. destruct m as [s|]; [by exists s|done]. Qed.


(** The conversion unfolds the scenarios below before the bind of their steps. *)
#[local] Strategy 1000 [obind].

Definition sample_build : Build := mkBuild ManyToManyPolicy 4 4 2 4 4 2 2 4.

Definition sample_pool : outcome PortPool.t :=
  let* '(m, _, _) := MemoryManager.configureMemoryManager MemoryManager.ctor [MemPool.MePooConfig.mkEntry 128 8]
                       (MemPool.Allocator.ctor 4096 4096) (MemPool.Allocator.ctor 8192 4096) in
  let no_queue := ChunkQueueData.ctor 0 1 QueueFullPolicy.DISCARD_OLDEST_DATA SoFi_MultiProducerSingleConsumer in
  Done (PortPool.mk [] [] [] [] [] [] []
          (mkWorld (mkHeap [m] []) (replicate 12 no_queue) (replicate 4 (ConditionVariable.ctor 4))) UniqueIds.start).

Definition sample_start : outcome PortManager.t :=
  let* p := sample_pool in PortManager.ctor sample_build 64 8 (fun _ => false) [] "Introspection" 0 p.

Definition sample_service (interface : Interfaces.t) : ServiceDescription.t :=
  ServiceDescription.ctor "Radar" "FrontLeft" "Object" [0; 0; 0; 0] interface.

Definition sample_subscriber_options : SubscriberOptions.t :=
  SubscriberOptions.mk 2 1 "" true QueueFullPolicy.DISCARD_OLDEST_DATA false.

Definition acquire_publisher (interface : Interfaces.t) (runtime : string) (s : PortManager.t) : outcome PortManager.t :=
  let* '(_, s) := PortManager.acquirePublisherPortData sample_build 64 8 (fun _ => false) (sample_service interface)
                    PublisherOptions.default_ctor runtime 0 s in Done s.
Definition acquire_subscriber (interface : Interfaces.t) (runtime : string) (s : PortManager.t) : outcome PortManager.t :=
  let* '(_, s) := PortManager.acquireSubscriberPortData sample_build (sample_service interface)
                    sample_subscriber_options runtime s in Done s.

(** A publisher and a subscriber of the same service. *)
Definition sample_connected : outcome PortManager.t :=
  let* s := sample_start in
  let* s := acquire_publisher Interfaces.INTERNAL "radar" s in
  acquire_subscriber Interfaces.INTERNAL "fusion" s.

Lemma sample_start_reachable s : sample_start = Done s -> reachable sample_build 64 8 (fun _ => false) s.
Proof.
  unfold sample_start. intros E0. apply obind_Done_inv in E0 as (pool & Ep & E0).
  assert (PortPool.m_publisherPortMembers pool = [] /\ PortPool.m_subscriberPortMembers pool = []) as [H1 H2].
  { unfold sample_pool in Ep. apply obind_Done_inv in Ep as ([[m ma] ca] & _ & Ep). injection Ep as <-. split; reflexivity. }
  exact (reach_start _ _ _ _ [] "Introspection" 0 pool s (Forall_nil_2 _) H1 H2 E0).
Qed.

Lemma acquire_publisher_step runtime s s' : acquire_publisher Interfaces.INTERNAL runtime s = Done s' ->
  step sample_build 64 8 (fun _ => false) s s'.
Proof.
  intros E. apply obind_Done_inv in E as ([r t] & E & H). injection H as <-.
  exact (step_acquirePublisher _ _ _ _ _ _ _ _ _ _ _ (eq_refl : internal (sample_service Interfaces.INTERNAL)) E).
Qed.

Lemma acquire_subscriber_step runtime s s' : acquire_subscriber Interfaces.INTERNAL runtime s = Done s' ->
  step sample_build 64 8 (fun _ => false) s s'.
Proof.
  intros E. apply obind_Done_inv in E as ([r t] & E & H). injection H as <-.
  exact (step_acquireSubscriber _ _ _ _ _ _ _ _ _ _ (eq_refl : internal (sample_service Interfaces.INTERNAL)) E).
Qed.

Lemma sample_reachable s : sample_connected = Done s -> reachable sample_build 64 8 (fun _ => false) s.
Proof.
  intros H. apply obind_Done_inv in H as (s0 & E0 & H). apply obind_Done_inv in H as (s1 & E1 & H).
  exact (reach_step _ _ _ _ s1 s (reach_step _ _ _ _ s0 s1 (sample_start_reachable s0 E0) (acquire_publisher_step _ _ _ E1))
           (acquire_subscriber_step _ _ _ H)).
Qed.

(** Publisher 1 and subscriber 0 exist and are connected. *)
Definition connected (s : PortManager.t) : bool :=
  ends_in (PortManager.get_publisher 1 s) (fun p => ends_in (PortManager.get_subscriber 0 s) (fun v =>
    bool_decide (PublisherPortData.stored p = [0%nat]) && PublisherPortData.m_offered p &&
    bool_decide (SubscriberPortData.m_subscriptionState v = SubscribeState.SUBSCRIBED) &&
    PortManager.isCompatiblePubSub p v)).

Lemma connected_inv s : connected s = true ->
  exists p v, PortManager.get_publisher 1 s = Done p /\ PortManager.get_subscriber 0 s = Done v /\
    PublisherPortData.stored p = [0%nat] /\ PublisherPortData.m_offered p = true /\
    SubscriberPortData.m_subscriptionState v = SubscribeState.SUBSCRIBED /\ PortManager.isCompatiblePubSub p v = true.
Proof.
  unfold connected. intros (p & Hp & (v & Hv & H)%ends_in_inv)%ends_in_inv.
  apply andb_true_iff in H as [[[H1 H2]%andb_true_iff H3]%andb_true_iff H4].
  apply bool_decide_eq_true in H1, H3. by exists p, v.
Qed.

Lemma sample_is_connected : ends_in sample_connected connected = true.
Proof. vm_compute. reflexivity. Qed.

Lemma connected_queues_alive_witness :
  exists s p v, reachable sample_build 64 8 (fun _ => false) s /\
    PortManager.get_publisher 1 s = Done p /\ PublisherPortData.stored p = [0%nat] /\
    PortManager.get_subscriber 0 s = Done v /\ SubscriberPortData.m_subscriptionState v = SubscribeState.SUBSCRIBED.
Proof.
  destruct (ends_in_inv _ _ sample_is_connected) as (s & E & (p & _ & Hp & _ & Hq & _)%connected_inv).
  pose proof (sample_reachable s E) as Hr.
  destruct (connected_queues_alive sample_build 64 8 (fun _ => false) s eq_refl Hr 1 p Hp) as [_ H].
  destruct (H 0%nat) as (_ & v & Hv & _ & Hst & _); [rewrite Hq; by left|].
  exact (ex_intro _ s (ex_intro _ p (ex_intro _ v (conj Hr (conj Hp (conj Hq (conj Hv Hst))))))).
Defined.

Lemma offered_and_subscribed_connected_witness :
  exists s p v, reachable sample_build 64 8 (fun _ => false) s /\
    Z.of_nat (length (PortManager.subscribers s)) <= MAX_SUBSCRIBERS_PER_PUBLISHER sample_build /\
    PortManager.get_publisher 1 s = Done p /\ PortManager.get_subscriber 0 s = Done v /\
    SubscriberPortData.queue v ∈ PublisherPortData.stored p.
Proof.
  destruct (ends_in_inv _ _ sample_is_connected) as (s & E & (p & v & Hp & Hv & _ & Ho & Hst & Hc)%connected_inv).
  pose proof (sample_reachable s E) as Hr.
  assert (Hmax : Z.of_nat (length (PortManager.subscribers s)) <= MAX_SUBSCRIBERS_PER_PUBLISHER sample_build).
  { pose proof (c_length _ _ _ _ _ (reachable_conn sample_build _ _ _ eq_refl s Hr)) as H. unfold subs, views in H.
    rewrite length_fmap in H. simpl in *. lia. }
  exists s, p, v. split; [exact Hr|]. split; [exact Hmax|]. split; [exact Hp|]. split; [exact Hv|].
  exact (offered_and_subscribed_connected sample_build 64 8 (fun _ => false) s eq_refl Hr Hmax 1 0 p v Hp Hv Ho Hst Hc).
Defined.

(** ** Where discovery goes wrong *)

(** A publisher of a gateway, a subscriber of the same gateway, then an internal
    publisher of the service.  The process of the subscriber ends. *)
Definition gateway_scenario : outcome PortManager.t :=
  let* s := sample_start in
  let* s := acquire_publisher Interfaces.DDS "gateway" s in
  let* s := acquire_subscriber Interfaces.DDS "client" s in
  let* s := acquire_publisher Interfaces.INTERNAL "radar" s in
  PortManager.deletePortsOfProcess sample_build 64 8 (fun _ => false) "client" s.

(** With a gateway the previous property fails: the loop over the publishers stops at the first publisher of the
    interface the UNSUB comes from, so publishers after it keep the queue of the destroyed subscriber port. *)
Theorem gateway_break_leaves_dangling_queue :
  exists s p, gateway_scenario = Done s /\ PortManager.get_publisher 2 s = Done p /\
    0%nat ∈ PublisherPortData.stored p /\ PortManager.subscribers s = [None].
Proof.
  assert (H : ends_in gateway_scenario (fun s => match PortManager.subscribers s with [None] => true | _ => false end &&
    ends_in (PortManager.get_publisher 2 s) (fun p => bool_decide (0%nat ∈ PublisherPortData.stored p))) = true)
    by (vm_compute; reflexivity).
  apply ends_in_inv in H as (s & E & [H1 (p & Hp & H2)%ends_in_inv]%andb_true_iff).
  apply bool_decide_eq_true in H2. destruct (PortManager.subscribers s) as [|[|] [|]] eqn:Es; try discriminate H1.
  exists s, p. split; [exact E|]. split; [exact Hp|]. split; [exact H2|exact Es].
Qed.

Definition sample_server_options : ServerOptions.t :=
  ServerOptions.mk 2 "" true QueueFullPolicy.DISCARD_OLDEST_DATA ConsumerTooSlowPolicy.DISCARD_OLDEST_DATA.
Definition sample_client_options (connect : bool) : ClientOptions.t :=
  ClientOptions.mk 2 "" connect QueueFullPolicy.DISCARD_OLDEST_DATA ConsumerTooSlowPolicy.DISCARD_OLDEST_DATA.

(** A server that offers, and a client that has not asked for a connection. *)
Definition idle_client_scenario : outcome PortManager.t :=
  let* s := sample_start in
  let* '(_, s) := PortManager.acquireServerPortData sample_build 64 8 (fun _ => false)
                    (sample_service Interfaces.INTERNAL) sample_server_options "server" 0 s in
  let* '(_, s) := PortManager.acquireClientPortData sample_build (sample_service Interfaces.INTERNAL)
                    (sample_client_options false) "client" 0 s in
  PortManager.deletePortsOfProcess sample_build 64 8 (fun _ => false) "server" s.

(** a server that stops its offer while a client port of its service is idle makes RouDi report a SEVERE CaPro
    protocol violation: the state NOT_CONNECTED of the client has no case for the STOP_OFFER that the port manager
    sends to every matching client. *)
Theorem idle_client_stop_offer_violation :
  exists s, idle_client_scenario = Done s /\
    errors (heap (PortManager.world s)) = [(POPO__CAPRO_PROTOCOL_ERROR, SEVERE)].
Proof.
  assert (H : ends_in idle_client_scenario (fun s =>
    match errors (heap (PortManager.world s)) with [(POPO__CAPRO_PROTOCOL_ERROR, SEVERE)] => true | _ => false end) = true)
    by (vm_compute; reflexivity).
  apply ends_in_inv in H as (s & E & H). exists s. split; [exact E|].
  by destruct (errors _) as [|[[] []] [|]].
Qed.

(** A gateway creates its interface port and destroys it before RouDi has run
    the discovery. *)
Definition short_lived_interface_scenario : outcome PortManager.t :=
  let* s := sample_start in
  let* '(_, s) := PortManager.acquireInterfacePortData sample_build Interfaces.DDS "gateway" s in
  let* i := PortManager.get_interface 0 s in
  let i := InterfacePortData.mk (BasePortData.destroy (InterfacePortData.base i)) (InterfacePortData.m_caproMessageFiFo i)
             (InterfacePortData.m_doInitialOfferForward i) in
  PortManager.doDiscovery sample_build 64 8 (fun _ => false) (PortManager.put_interface 0 i (PortManager.world s) s).

(** [handleInterfaces] destroys an interface port that is new and to be destroyed, and then forwards the offers of
    all publishers to it: an access to a destroyed object. *)
Theorem short_lived_interface_use_after_destroy :
  short_lived_interface_scenario = Terminated UNDEFINED_BEHAVIOUR.
Proof. vm_compute. reflexivity. Qed.
