(* ===== verification/Serialization.v ===== *)
(** * Conversion and serialization

    [cxx::convert] and [cxx::Serialization] of the hoofs library: the text format
    in which the runtime of an application sends service descriptions and options
    to RouDi.  A serialization is a sequence of entries [LENGTH:DATA]. *)

From S2P Require Import Prelude VariantQueue ChunkQueue ChunkDistributor CaPro.
From Stdlib Require Import Ascii String.

(** ** [std::string] *)

Fixpoint str_take (n : nat) (s : string) : string :=
  match n, s with
  | S n, String c s => String c (str_take n s)
  | _, _ => EmptyString
  end.

Fixpoint str_drop (n : nat) (s : string) : string :=
  match n, s with
  | S n, String _ s => str_drop n s
  | _, _ => s
  end.

Definition size (s : string) : Z := Z.of_nat (String.length s).

(** [s.substr(pos, len)] throws when [pos] is behind the end. *)
Definition substr (pos len : Z) (s : string) : outcome string :=
  if size s <? pos then Terminated UNCAUGHT_EXCEPTION
  else Done (str_take (Z.to_nat (Z.min len (size s))) (str_drop (Z.to_nat pos) s)).

(** [s.find_first_of(c)] *)
Fixpoint find_first_of (c : ascii) (s : string) : option nat :=
  match s with
  | EmptyString => None
  | String d s => if bool_decide (d = c) then Some O else S <$> find_first_of c s
  end.

(** What a C function sees of [s.c_str()]. *)
Fixpoint c_str (s : string) : string :=
  match s with
  | EmptyString => EmptyString
  | String c s => if bool_decide (c = zero) then EmptyString else String c (c_str s)
  end.

(** ** [cxx::convert] *)

Module convert.

Definition code (c : ascii) : Z := Z.of_nat (nat_of_ascii c).
Definition digit (d : Z) : ascii := ascii_of_nat (Z.to_nat (48 + d)).

(** The decimal digits of a number below [10 ^ (fuel + 1)]. *)
Fixpoint to_digits (fuel : nat) (n : Z) (acc : string) : string :=
  let acc := String (digit (n mod 10)) acc in
  match fuel with
  | O => acc
  | S fuel => if n <? 10 then acc else to_digits fuel (n / 10) acc
  end.

(** [std::stringstream << n] for an integer of at most 64 bits: 20 digits. *)
Definition toString (n : Z) : string :=
  if n <? 0 then String "-" (to_digits 19 (- n) "") else to_digits 19 n "".

Inductive NumberType := FLOAT | INTEGER | UNSIGNED_INTEGER.

#[global] Instance NumberType_eq_dec : EqDecision NumberType.
Proof. solve_decision. Defined.

Definition is_digit (c : ascii) : bool := (48 <=? code c) && (code c <=? 57).

Fixpoint is_number_from (type : NumberType) (first hasDot : bool) (v : string) : bool :=
  match v with
  | EmptyString => true
  | String c v =>
      if is_digit c then is_number_from type false hasDot v
      else if negb (bool_decide (type = UNSIGNED_INTEGER)) && first && ((code c =? 43) || (code c =? 45))
      then is_number_from type false hasDot v
      else if bool_decide (type = FLOAT) && negb hasDot && (code c =? 46) then is_number_from type false true v
      else false
  end.

Definition stringIsNumber (v : string) (type : NumberType) : bool :=
  match v with EmptyString => false | _ => is_number_from type true false v end.

(** [strtoull] and [strtoll] with base 10, on the strings [stringIsNumber] has
    let through: an optional sign and digits. *)
Fixpoint digits_value (acc : Z) (v : string) : Z :=
  match v with
  | EmptyString => acc
  | String c v => digits_value (10 * acc + (code c - 48)) v
  end.

Definition ULLONG_MAX : Z := UINT64_MAX.
Definition LLONG_MAX : Z := 2 ^ 63 - 1.
Definition LLONG_MIN : Z := - 2 ^ 63.

Definition strtoull (v : string) : Z := Z.min (digits_value 0 v) ULLONG_MAX.

Definition strtoll (v : string) : Z :=
  match v with
  | EmptyString => 0
  | String c v' =>
      if code c =? 45 then Z.max (- digits_value 0 v') LLONG_MIN
      else if code c =? 43 then Z.min (digits_value 0 v') LLONG_MAX
      else Z.min (digits_value 0 v) LLONG_MAX
  end.

(** [posixCall(strtoull)(...).failureReturnValue(ULLONG_MAX)] and the range
    check. *)
Definition fromString_unsigned (max : Z) (v : string) : option Z :=
  if negb (stringIsNumber v UNSIGNED_INTEGER) then None
  else
    let call := strtoull v in
    if call =? ULLONG_MAX then None else if max <? call then None else Some call.

Definition fromString_signed (min max : Z) (v : string) : option Z :=
  if negb (stringIsNumber v INTEGER) then None
  else
    let call := strtoll v in
    if (call =? LLONG_MAX) || (call =? LLONG_MIN) then None
    else if (max <? call) || (call <? min) then None else Some call.

Definition fromString_uint64 : string -> option Z := fromString_unsigned UINT64_MAX.
Definition fromString_uint32 : string -> option Z := fromString_unsigned UINT32_MAX.
Definition fromString_uint16 : string -> option Z := fromString_unsigned UINT16_MAX.
Definition fromString_uint8 : string -> option Z := fromString_unsigned (2 ^ 8 - 1).
Definition fromString_int64 : string -> option Z := fromString_signed (- 2 ^ 63) (2 ^ 63 - 1).
Definition fromString_int32 : string -> option Z := fromString_signed (- 2 ^ 31) (2 ^ 31 - 1).
Definition fromString_int16 : string -> option Z := fromString_signed (- 2 ^ 15) (2 ^ 15 - 1).
Definition fromString_int8 : string -> option Z := fromString_signed (- 2 ^ 7) (2 ^ 7 - 1).
Definition fromString_bool (v : string) : option bool := (fun n => negb (n =? 0)) <$> fromString_unsigned ULLONG_MAX v.

(** [fromString<string<100>>] truncates. *)
Definition fromString_string100 (v : string) : string := str_take 100 v.

End convert.

(** ** [cxx::Serialization] *)

Module Serialization.

Inductive Error := DESERIALIZATION_FAILED.

Definition separator : ascii := ":".

(** The arguments of [create] and [extract]. *)
Inductive value :=
  | VString (s : string)
  | VUnsigned (n : Z)
  | VBool (b : bool).

(** The type of a variable that [extract] writes. *)
Inductive kind := KString100 | KUInt64 | KUInt32 | KUInt16 | KUInt8 | KBool.

Definition getString (v : value) : string :=
  match v with
  | VString s => s
  | VUnsigned n => convert.toString n
  | VBool b => convert.toString (if b then 1 else 0)
  end.

Definition fromString (k : kind) (v : string) : option value :=
  match k with
  | KString100 => Some (VString (convert.fromString_string100 v))
  | KUInt64 => VUnsigned <$> convert.fromString_uint64 v
  | KUInt32 => VUnsigned <$> convert.fromString_uint32 v
  | KUInt16 => VUnsigned <$> convert.fromString_uint16 v
  | KUInt8 => VUnsigned <$> convert.fromString_uint8 v
  | KBool => VBool <$> convert.fromString_bool v
  end.

Fixpoint serializer (args : list value) : string :=
  match args with
  | [] => EmptyString
  | t :: args =>
      let serializedString := getString t in
      let serializedStringLength := convert.toString (size serializedString) in
      serializedStringLength +:+ String separator (serializedString +:+ serializer args)
  end.

Definition create (args : list value) : string := serializer args.

(** The first entry and the remainder; [None]: wrong syntax. *)
Definition removeFirstEntry (remainder : string) : outcome (option (string * string)) :=
  match find_first_of separator remainder with
  | None => Done None
  | Some pos =>
      let pos := Z.of_nat pos in
      let* number := substr 0 pos remainder in
      match convert.fromString_uint64 (c_str number) with
      | None => Done None
      | Some length =>
          if size remainder <? u64 (u64 (pos + length) + 1) then Done None
          else
            let* firstEntry := substr (u64 (pos + 1)) length remainder in
            let* remainder := substr (u64 (u64 (pos + 1) + length)) UINT64_MAX remainder in
            Done (Some (firstEntry, remainder))
      end
  end.

(** The result and the values written before the end or the first failure. *)
Fixpoint deserialize (kinds : list kind) (serializedString : string) : outcome (bool * list value) :=
  match kinds with
  | [] => Done (match serializedString with EmptyString => true | _ => false end, [])
  | k :: kinds =>
      let* entry := removeFirstEntry serializedString in
      match entry with
      | None => Done (false, [])
      | Some (entry, remainder) =>
          match fromString k (c_str entry) with
          | None => Done (false, [])
          | Some t => let* '(ok, args) := deserialize kinds remainder in Done (ok, t :: args)
          end
      end
  end.

Definition extract (kinds : list kind) (m_value : string) : outcome (bool * list value) := deserialize kinds m_value.

(** The loop of [getNth]. *)
Fixpoint nth_entry (index : nat) (remainder : string) : outcome (option string) :=
  let* entry := removeFirstEntry remainder in
  match entry with
  | None => Done None
  | Some (entry, remainder) =>
      match index with O => Done (Some entry) | S index => nth_entry index remainder end
  end.

Definition getNth (index : nat) (k : kind) (m_value : string) : outcome (option value) :=
  let* entry := nth_entry index m_value in
  Done (match entry with None => None | Some entry => fromString k (c_str entry) end).
End Serialization.

(** ** Serializable types *)

(** The underlying values of the enumerations. *)
Definition Scope_value (s : Scope) : Z := match s with WORLDWIDE => 0 | LOCAL => 1 | INVALID => 2 end.
Definition Scope_of (z : Z) : option Scope := [WORLDWIDE; LOCAL; INVALID] !! Z.to_nat z.
Definition Interfaces_of (z : Z) : option Interfaces.t :=
  [Interfaces.INTERNAL; Interfaces.ESOC; Interfaces.SOMEIP; Interfaces.AMQP; Interfaces.MQTT; Interfaces.DDS;
   Interfaces.SIGNAL; Interfaces.MTA; Interfaces.ROS1; Interfaces.INTERFACE_END] !! Z.to_nat z.
Definition QueueFullPolicy_value (p : QueueFullPolicy.t) : Z :=
  match p with QueueFullPolicy.BLOCK_PRODUCER => 0 | QueueFullPolicy.DISCARD_OLDEST_DATA => 1 end.
Definition QueueFullPolicy_of (z : Z) : QueueFullPolicy.t :=
  if z =? 0 then QueueFullPolicy.BLOCK_PRODUCER else QueueFullPolicy.DISCARD_OLDEST_DATA.
Definition ConsumerTooSlowPolicy_value (p : ConsumerTooSlowPolicy.t) : Z :=
  match p with ConsumerTooSlowPolicy.WAIT_FOR_CONSUMER => 0 | ConsumerTooSlowPolicy.DISCARD_OLDEST_DATA => 1 end.
Definition ConsumerTooSlowPolicy_of (z : Z) : ConsumerTooSlowPolicy.t :=
  if z =? 0 then ConsumerTooSlowPolicy.WAIT_FOR_CONSUMER else ConsumerTooSlowPolicy.DISCARD_OLDEST_DATA.

Import Serialization.

Definition failed {A} : expected A Error := error DESERIALIZATION_FAILED.

Module ServiceDescriptionText.
Import ServiceDescription.

(** [ServiceDescription::operator cxx::Serialization] *)
Definition serialize (d : t) : string :=
  create [VString (m_serviceString d); VString (m_instanceString d); VString (m_eventString d);
          VUnsigned (aget 0 (m_classHash d) 0); VUnsigned (aget 0 (m_classHash d) 1);
          VUnsigned (aget 0 (m_classHash d) 2); VUnsigned (aget 0 (m_classHash d) 3);
          VUnsigned (Scope_value (m_scope d)); VUnsigned (Interfaces.value (m_interfaceSource d))].

Definition kinds : list kind :=
  [KString100; KString100; KString100; KUInt32; KUInt32; KUInt32; KUInt32; KUInt16; KUInt16].

Definition deserialize (serialized : string) : outcome (expected t Error) :=
  let* '(deserializationSuccessful, args) := extract kinds serialized in
  Done match deserializationSuccessful, args with
  | true, [VString service; VString instance; VString event; VUnsigned h0; VUnsigned h1; VUnsigned h2; VUnsigned h3;
           VUnsigned scope; VUnsigned interfaceSource] =>
      if (Scope_value INVALID <=? scope) || (Interfaces.value Interfaces.INTERFACE_END <=? interfaceSource) then failed
      else
        match Scope_of scope, Interfaces_of interfaceSource with
        | Some scope, Some interfaceSource => success (mk service instance event [h0; h1; h2; h3] scope interfaceSource)
        | _, _ => failed
        end
  | _, _ => failed
  end.
End ServiceDescriptionText.

Module PublisherOptionsText.
Import PublisherOptions.

Definition serialize (o : t) : string :=
  create [VUnsigned (historyCapacity o); VString (nodeName o); VBool (offerOnCreate o);
          VUnsigned (ConsumerTooSlowPolicy_value (subscriberTooSlowPolicy o))].

Definition deserialize (serialized : string) : outcome (expected t Error) :=
  let* '(deserializationSuccessful, args) := extract [KUInt64; KString100; KBool; KUInt8] serialized in
  Done match deserializationSuccessful, args with
  | true, [VUnsigned historyCapacity; VString nodeName; VBool offerOnCreate; VUnsigned subscriberTooSlowPolicy] =>
      if ConsumerTooSlowPolicy_value ConsumerTooSlowPolicy.DISCARD_OLDEST_DATA <? subscriberTooSlowPolicy then failed
      else success (mk historyCapacity nodeName offerOnCreate (ConsumerTooSlowPolicy_of subscriberTooSlowPolicy))
  | _, _ => failed
  end.
End PublisherOptionsText.

Module SubscriberOptionsText.
Import SubscriberOptions.

Definition serialize (o : t) : string :=
  create [VUnsigned (queueCapacity o); VUnsigned (historyRequest o); VString (nodeName o); VBool (subscribeOnCreate o);
          VUnsigned (QueueFullPolicy_value (queueFullPolicy o)); VBool (requiresPublisherHistorySupport o)].

Definition deserialize (serialized : string) : outcome (expected t Error) :=
  let* '(deserializationSuccessful, args) := extract [KUInt64; KUInt64; KString100; KBool; KUInt8; KBool] serialized in
  Done match deserializationSuccessful, args with
  | true, [VUnsigned queueCapacity; VUnsigned historyRequest; VString nodeName; VBool subscribeOnCreate;
           VUnsigned queueFullPolicy; VBool requiresPublisherHistorySupport] =>
      if QueueFullPolicy_value QueueFullPolicy.DISCARD_OLDEST_DATA <? queueFullPolicy then failed
      else success (mk queueCapacity historyRequest nodeName subscribeOnCreate (QueueFullPolicy_of queueFullPolicy)
                      requiresPublisherHistorySupport)
  | _, _ => failed
  end.
End SubscriberOptionsText.

Module ClientOptionsText.
Import ClientOptions.

Definition serialize (o : t) : string :=
  create [VUnsigned (responseQueueCapacity o); VString (nodeName o); VBool (connectOnCreate o);
          VUnsigned (QueueFullPolicy_value (responseQueueFullPolicy o));
          VUnsigned (ConsumerTooSlowPolicy_value (serverTooSlowPolicy o))].

Definition deserialize (serialized : string) : outcome (expected t Error) :=
  let* '(deserializationSuccessful, args) := extract [KUInt64; KString100; KBool; KUInt8; KUInt8] serialized in
  Done match deserializationSuccessful, args with
  | true, [VUnsigned responseQueueCapacity; VString nodeName; VBool connectOnCreate; VUnsigned responseQueueFullPolicy;
           VUnsigned serverTooSlowPolicy] =>
      if (QueueFullPolicy_value QueueFullPolicy.DISCARD_OLDEST_DATA <? responseQueueFullPolicy)
         || (ConsumerTooSlowPolicy_value ConsumerTooSlowPolicy.DISCARD_OLDEST_DATA <? serverTooSlowPolicy) then failed
      else success (mk responseQueueCapacity nodeName connectOnCreate (QueueFullPolicy_of responseQueueFullPolicy)
                      (ConsumerTooSlowPolicy_of serverTooSlowPolicy))
  | _, _ => failed
  end.
End ClientOptionsText.

Module ServerOptionsText.
Import ServerOptions.

Definition serialize (o : t) : string :=
  create [VUnsigned (requestQueueCapacity o); VString (nodeName o); VBool (offerOnCreate o);
          VUnsigned (QueueFullPolicy_value (requestQueueFullPolicy o));
          VUnsigned (ConsumerTooSlowPolicy_value (clientTooSlowPolicy o))].

Definition deserialize (serialized : string) : outcome (expected t Error) :=
  let* '(deserializationSuccessful, args) := extract [KUInt64; KString100; KBool; KUInt8; KUInt8] serialized in
  Done match deserializationSuccessful, args with
  | true, [VUnsigned requestQueueCapacity; VString nodeName; VBool offerOnCreate; VUnsigned requestQueueFullPolicy;
           VUnsigned clientTooSlowPolicy] =>
      if (QueueFullPolicy_value QueueFullPolicy.DISCARD_OLDEST_DATA <? requestQueueFullPolicy)
         || (ConsumerTooSlowPolicy_value ConsumerTooSlowPolicy.DISCARD_OLDEST_DATA <? clientTooSlowPolicy) then failed
      else success (mk requestQueueCapacity nodeName offerOnCreate (QueueFullPolicy_of requestQueueFullPolicy)
                      (ConsumerTooSlowPolicy_of clientTooSlowPolicy))
  | _, _ => failed
  end.
End ServerOptionsText.

(** [PortConfigInfo]: the result of [extract] is ignored, so a variable that was
    not reached keeps its initial value. *)
Module PortConfigInfo.
Record t := mk { portType : Z; deviceId : Z; memoryType : Z }.

Definition default_ctor : t := mk 0 0 0.

Definition serialize (p : t) : string :=
  create [VUnsigned (portType p); VUnsigned (deviceId p); VUnsigned (memoryType p)].

Definition number (args : list value) (i : nat) : Z :=
  match args !! i with Some (VUnsigned n) => n | _ => 0 end.

Definition of_serialization (serialization : string) : outcome t :=
  let* '(_, args) := extract [KUInt32; KUInt32; KUInt32] serialization in
  Done (mk (number args 0) (number args 1) (number args 2)).

Definition eqb (a b : t) : bool :=
  (portType a =? portType b) && ((deviceId a =? deviceId b) && (memoryType a =? memoryType b)).
End PortConfigInfo.

Module NodeProperty.
Record t := mk { m_name : string; m_nodeDeviceIdentifier : Z }.

Definition serialize (p : t) : string := create [VString (m_name p); VUnsigned (m_nodeDeviceIdentifier p)].

Definition of_serialization (serialized : string) : outcome t :=
  let* '(_, args) := extract [KString100; KUInt64] serialized in
  Done (mk (match args !! 0%nat with Some (VString s) => s | _ => EmptyString end) (PortConfigInfo.number args 1)).
End NodeProperty.

(** [version_info.cpp] *)
Module VersionInfo.
Record t := mk {
  m_valid : bool;
  m_versionMajor : Z;
  m_versionMinor : Z;
  m_versionPatch : Z;
  m_versionTweak : Z;
  m_buildDateString : string;
  m_commitIdString : string }.

Inductive CompatibilityCheckLevel := OFF | MAJOR | MINOR | PATCH | COMMIT_ID | BUILD_DATE.

Definition BUILD_DATE_STRING_SIZE : nat := 36.
Definition COMMIT_ID_STRING_SIZE : nat := 12.

Definition ctor (versionMajor versionMinor versionPatch versionTweak : Z) (buildDateString commitIdString : string) : t :=
  mk true versionMajor versionMinor versionPatch versionTweak buildDateString commitIdString.

Definition serialize (v : t) : string :=
  create [VUnsigned (m_versionMajor v); VUnsigned (m_versionMinor v); VUnsigned (m_versionPatch v);
          VUnsigned (m_versionTweak v); VString (m_buildDateString v); VString (m_commitIdString v)].

Definition text (args : list value) (i : nat) : string :=
  match args !! i with Some (VString s) => s | _ => EmptyString end.

Definition of_serialization (serial : string) : outcome t :=
  let* '(m_valid, args) := extract [KUInt16; KUInt16; KUInt16; KUInt16; KString100; KString100] serial in
  Done (mk m_valid (PortConfigInfo.number args 0) (PortConfigInfo.number args 1) (PortConfigInfo.number args 2)
          (PortConfigInfo.number args 3) (str_take BUILD_DATE_STRING_SIZE (text args 4))
          (str_take COMMIT_ID_STRING_SIZE (text args 5))).

Definition eqb (a b : t) : bool :=
  Bool.eqb (m_valid a) (m_valid b) && (m_versionMajor a =? m_versionMajor b) && (m_versionMinor a =? m_versionMinor b)
  && (m_versionPatch a =? m_versionPatch b) && (m_versionTweak a =? m_versionTweak b)
  && bool_decide (m_buildDateString a = m_buildDateString b) && bool_decide (m_commitIdString a = m_commitIdString b).

Definition checkCompatibility (v other : t) (level : CompatibilityCheckLevel) : bool :=
  let valid := Bool.eqb (m_valid v) (m_valid other) in
  let major := m_versionMajor v =? m_versionMajor other in
  let minor := m_versionMinor v =? m_versionMinor other in
  let patch := m_versionPatch v =? m_versionPatch other in
  let tweak := m_versionTweak v =? m_versionTweak other in
  match level with
  | OFF => true
  | MAJOR => valid && major
  | MINOR => valid && major && minor
  | PATCH => valid && major && minor && patch
  | COMMIT_ID =>
      valid && major && minor && patch && tweak && bool_decide (m_commitIdString v = m_commitIdString other)
  | BUILD_DATE => eqb v other
  end.
End VersionInfo.

(** ** Lemmas: strings *)

#[local] Arguments String.append : simpl nomatch.

Lemma size_nonneg s : 0 <= size s.
Proof. unfold size. lia. Qed.

Lemma size_String c s : size (String c s) = 1 + size s.
Proof. unfold size. simpl. lia. Qed.

Lemma size_app a b : size (a +:+ b) = size a + size b.
Proof.
  induction a as [|c a IH]; [done|]. change (String c a +:+ b) with (String c (a +:+ b)). rewrite !size_String, IH. lia.
Qed.

Lemma string_app_assoc a b c : (a +:+ b) +:+ c = a +:+ (b +:+ c).
Proof. induction a as [|x a IH]; [done|]. cbn. f_equal. exact IH. Qed.

Lemma string_app_nil_r a : a +:+ EmptyString = a.
Proof. induction a as [|x a IH]; [done|]. cbn. f_equal. exact IH. Qed.

Lemma str_take_app a b : str_take (String.length a) (a +:+ b) = a.
Proof. induction a as [|x a IH]; [done|]. cbn. f_equal. exact IH. Qed.

Lemma str_drop_app a b : str_drop (String.length a) (a +:+ b) = b.
Proof. induction a as [|x a IH]; [done|]. exact IH. Qed.

Lemma str_take_all n s : (String.length s <= n)%nat -> str_take n s = s.
Proof.
  revert n. induction s as [|c s IH]; intros n H; [by destruct n|]. destruct n as [|n]; simpl in H; [lia|].
  cbn. f_equal. apply IH. lia.
Qed.

Lemma substr_inside a b rest : substr (size a) (size b) (a +:+ (b +:+ rest)) = Done b.
Proof.
  unfold substr. rewrite !size_app. pose proof (size_nonneg a). pose proof (size_nonneg b). pose proof (size_nonneg rest).
  destruct (Z.ltb_spec (size a + (size b + size rest)) (size a)); [lia|].
  rewrite Z.min_l by lia. unfold size. by rewrite !Nat2Z.id, str_drop_app, str_take_app.
Qed.

Lemma substr_rest a rest : size (a +:+ rest) < 2 ^ 64 -> substr (size a) UINT64_MAX (a +:+ rest) = Done rest.
Proof.
  intros Hs. unfold substr. rewrite size_app in *. pose proof (size_nonneg a). pose proof (size_nonneg rest).
  destruct (Z.ltb_spec (size a + size rest) (size a)); [lia|].
  assert (UINT64_MAX = 2 ^ 64 - 1) by reflexivity.
  rewrite Z.min_r by lia. unfold size. rewrite Nat2Z.id, str_drop_app, str_take_all; [done|]. rewrite Z2Nat.inj_add; lia.
Qed.

Definition no_char (c : ascii) (s : string) : Prop := find_first_of c s = None.

Lemma find_first_of_app c a b : no_char c a -> find_first_of c (a +:+ String c b) = Some (String.length a).
Proof.
  unfold no_char. induction a as [|x a IH]; intros H.
  - cbn. by rewrite bool_decide_true.
  - cbn in *. case_bool_decide; [done|]. destruct (find_first_of c a); [done|]. by rewrite IH.
Qed.

Lemma no_char_app c a b : no_char c (a +:+ b) <-> no_char c a /\ no_char c b.
Proof.
  unfold no_char. induction a as [|x a IH]; [cbn; naive_solver|]. cbn. case_bool_decide; [naive_solver|].
  destruct (find_first_of c (a +:+ b)), (find_first_of c a), (find_first_of c b); cbn in *; naive_solver.
Qed.

Lemma no_char_cons c d s : no_char c (String d s) <-> d <> c /\ no_char c s.
Proof.
  unfold no_char. cbn. case_bool_decide; [naive_solver|]. destruct (find_first_of c s); cbn; naive_solver.
Qed.

Lemma c_str_id s : no_char zero s -> c_str s = s.
Proof.
  induction s as [|c s IH]; [done|]. intros [Hc Hs]%no_char_cons. cbn. rewrite bool_decide_false by done. by rewrite IH.
Qed.

(** ** Lemmas: numbers *)

Section numbers.
Import convert.

Lemma code_digit d : 0 <= d < 10 -> code (digit d) = 48 + d.
Proof. intros H. unfold code, digit. rewrite nat_ascii_embedding; lia. Qed.

Lemma is_digit_digit d : 0 <= d < 10 -> is_digit (digit d) = true.
Proof. intros H. unfold is_digit. rewrite code_digit by done. lia. Qed.

(** A string of digits. *)
Fixpoint all_digits (s : string) : Prop :=
  match s with EmptyString => True | String c s => is_digit c = true /\ all_digits s end.

Lemma to_digits_spec fuel n acc : 0 <= n < 10 ^ (Z.of_nat fuel + 1) -> all_digits acc ->
  all_digits (to_digits fuel n acc) /\ digits_value 0 (to_digits fuel n acc) = digits_value n acc /\
  (String.length (to_digits fuel n acc) <= S fuel + String.length acc)%nat /\ to_digits fuel n acc <> EmptyString.
Proof.
  revert n acc. induction fuel as [|fuel IH]; intros n acc Hn Hacc; cbn [to_digits].
  - rewrite Z.pow_1_r in Hn. rewrite Z.mod_small by lia. split_and!; try done.
    + split; [by apply is_digit_digit|done].
    + cbn. rewrite code_digit by lia. f_equal. lia.
  - pose proof (Z.mod_pos_bound n 10 ltac:(lia)) as Hm.
    assert (Hd : all_digits (String (digit (n mod 10)) acc)) by (split; [by apply is_digit_digit|done]).
    destruct (Z.ltb_spec n 10).
    + rewrite Z.mod_small in * by lia. split_and!; try done; [|cbn; lia].
      cbn. rewrite code_digit by lia. f_equal. lia.
    + destruct (IH (n / 10) (String (digit (n mod 10)) acc)) as (H1 & H2 & H3 & H4); [|done|].
      * split; [apply Z.div_pos; lia|]. apply Z.div_lt_upper_bound; [lia|].
        rewrite <- Z.pow_succ_r by lia. replace (Z.succ (Z.of_nat fuel + 1)) with (Z.of_nat (S fuel) + 1) by lia. lia.
      * split_and!; [done| |cbn in *; lia|done]. rewrite H2. cbn. rewrite code_digit by lia. f_equal.
        pose proof (Z.div_mod n 10). lia.
Qed.

Lemma toString_spec n : 0 <= n < 2 ^ 64 ->
  all_digits (toString n) /\ digits_value 0 (toString n) = n /\ size (toString n) <= 20 /\ toString n <> EmptyString.
Proof.
  intros H. unfold toString. destruct (Z.ltb_spec n 0); [lia|].
  destruct (to_digits_spec 19 n EmptyString) as (H1 & H2 & H3 & H4);
    [split; [lia|]; apply Z.lt_trans with (2 ^ 64); [lia|reflexivity]|done|].
  split_and!; [done..| |done]. unfold size. change (String.length EmptyString) with O in H3. lia.
Qed.

Lemma all_digits_number type b d s : all_digits s -> is_number_from type b d s = true.
Proof. revert b. induction s as [|c s IH]; intros b; [done|]. intros [Hc Hs]. cbn. rewrite Hc. by apply IH. Qed.

Lemma all_digits_no_char c s : is_digit c = false -> all_digits s -> no_char c s.
Proof.
  intros Hc. induction s as [|x s IH]; [done|]. intros [Hx Hs]. apply no_char_cons. split; [congruence|by apply IH].
Qed.

Lemma fromString_unsigned_toString max n : 0 <= n <= max -> n < UINT64_MAX ->
  fromString_unsigned max (toString n) = Some n.
Proof.
  intros H1 H2. assert (UINT64_MAX = 2 ^ 64 - 1) by reflexivity.
  destruct (toString_spec n) as (Hd & Hv & _ & Hne); [lia|].
  unfold fromString_unsigned, stringIsNumber. destruct (toString n) as [|c s] eqn:E; [done|]. rewrite <- E in *.
  rewrite all_digits_number by done. cbn [negb]. unfold strtoull. rewrite Hv. unfold ULLONG_MAX. rewrite Z.min_l by lia.
  destruct (Z.eqb_spec n UINT64_MAX); [lia|]. destruct (Z.ltb_spec max n); [lia|done].
Qed.
End numbers.

(** ** Round trip of the entries *)

Definition plain (s : string) : Prop := size s <= 100 /\ no_char zero s.

(** The variable of this kind can hold the value, and the text of the value is
    read back. *)
Definition fits (k : kind) (v : value) : Prop :=
  match k, v with
  | KString100, VString s => plain s
  | KUInt64, VUnsigned n => 0 <= n < UINT64_MAX
  | KUInt32, VUnsigned n => 0 <= n < 2 ^ 32
  | KUInt16, VUnsigned n => 0 <= n < 2 ^ 16
  | KUInt8, VUnsigned n => 0 <= n < 2 ^ 8
  | KBool, VBool _ => True
  | _, _ => False
  end.

Lemma fits_number k v n : fits k v -> v = VUnsigned n -> 0 <= n < 2 ^ 64.
Proof. intros H ->. assert (UINT64_MAX = 2 ^ 64 - 1) by reflexivity. destruct k; cbn in H; try done; lia. Qed.

Lemma digits_plain n : 0 <= n < 2 ^ 64 -> plain (convert.toString n).
Proof.
  intros H. destruct (toString_spec n H) as (Hd & _ & Hs & _). split; [lia|]. by apply all_digits_no_char.
Qed.

Lemma fits_plain k v : fits k v -> plain (getString v).
Proof.
  intros H. destruct v as [s|n|b]; cbn.
  - by destruct k.
  - apply digits_plain. by eapply fits_number.
  - apply digits_plain. by destruct b.
Qed.

Lemma fromString_getString k v : fits k v -> fromString k (getString v) = Some v.
Proof.
  intros H. assert (UINT64_MAX = 2 ^ 64 - 1) by reflexivity.
  destruct k, v as [s|n|b]; cbn in H; try done; cbn [fromString getString].
  - destruct H as [H _]. unfold convert.fromString_string100. rewrite str_take_all; [done|]. unfold size in H. lia.
  - unfold convert.fromString_uint64. rewrite fromString_unsigned_toString by lia. done.
  - unfold convert.fromString_uint32. rewrite fromString_unsigned_toString; [done|unfold UINT32_MAX|]; lia.
  - unfold convert.fromString_uint16. rewrite fromString_unsigned_toString; [done|unfold UINT16_MAX|]; lia.
  - unfold convert.fromString_uint8. rewrite fromString_unsigned_toString; [done|..]; lia.
  - destruct b; reflexivity.
Qed.

Lemma removeFirstEntry_entry e rest : size e <= 100 -> size rest < 2 ^ 63 ->
  removeFirstEntry (convert.toString (size e) +:+ String separator (e +:+ rest)) = Done (Some (e, rest)).
Proof.
  intros He Hr. pose proof (size_nonneg e) as H0. pose proof (size_nonneg rest) as H1.
  destruct (toString_spec (size e)) as (Hd & Hv & Hs & Hne); [lia|]. pose proof (size_nonneg (convert.toString (size e))) as H2.
  set (num := convert.toString (size e)) in *.
  unfold removeFirstEntry. rewrite find_first_of_app by (by apply all_digits_no_char). fold (size num).
  assert (E1 : substr 0 (size num) (num +:+ String separator (e +:+ rest)) = Done num)
    by exact (substr_inside EmptyString num (String separator (e +:+ rest))).
  rewrite E1. cbn [obind]. rewrite c_str_id by (by apply all_digits_no_char).
  assert (UINT64_MAX = 2 ^ 64 - 1) by reflexivity.
  assert (E0 : convert.fromString_uint64 num = Some (size e)) by (apply fromString_unsigned_toString; lia). rewrite E0.
  rewrite size_app, size_String, size_app. rewrite (u64_small (size num + size e)), (u64_small (size num + 1)) by lia.
  rewrite (u64_small (size num + size e + 1)), (u64_small (size num + 1 + size e)) by lia.
  destruct (Z.ltb_spec (size num + (1 + (size e + size rest))) (size num + size e + 1)); [lia|].
  assert (E2 : substr (size num + 1) (size e) (num +:+ String separator (e +:+ rest)) = Done e).
  { rewrite <- (substr_inside (num +:+ String separator EmptyString) e rest), size_app, string_app_assoc. done. }
  rewrite E2. cbn [obind].
  assert (E3 : substr (size num + 1 + size e) UINT64_MAX (num +:+ String separator (e +:+ rest)) = Done rest).
  { replace (num +:+ String separator (e +:+ rest)) with ((num +:+ String separator e) +:+ rest)
      by (by rewrite string_app_assoc).
    replace (size num + 1 + size e) with (size (num +:+ String separator e)) by (rewrite size_app, size_String; lia).
    apply substr_rest. rewrite !size_app, size_String. lia. }
  by rewrite E3.
Qed.

Lemma serializer_size vs : Forall (fun v => plain (getString v)) vs -> size (serializer vs) <= 121 * Z.of_nat (List.length vs).
Proof.
  induction 1 as [|v vs [Hv _] _ IH]; [done|]. cbn [serializer].
  pose proof (size_nonneg (getString v)). destruct (toString_spec (size (getString v))) as (_ & _ & Hs & _); [lia|].
  rewrite size_app, size_String, size_app. cbn [List.length]. lia.
Qed.

(** [extract] reads back what [create] wrote. *)
Lemma extract_create kinds vs : Z.of_nat (List.length vs) < 2 ^ 50 -> Forall2 fits kinds vs ->
  extract kinds (create vs) = Done (true, vs).
Proof.
  unfold extract, create. intros Hlen H. induction H as [|k v kinds vs Hf Hfs IH]; [done|]. cbn [List.length] in Hlen.
  cbn [deserialize serializer]. pose proof (fits_plain k v Hf) as [Hs Hz].
  assert (Hvs : Forall (fun v => plain (getString v)) vs).
  { clear -Hfs. induction Hfs; constructor; [by eapply fits_plain|done]. }
  pose proof (serializer_size vs Hvs).
  rewrite removeFirstEntry_entry by lia. cbn [obind]. rewrite c_str_id by done.
  rewrite fromString_getString by done. rewrite IH by lia. done.
Qed.

(** ** Types that survive the way through a serialization *)

Class Serializable (A : Type) := {
  serialize : A -> string;
  parse : string -> outcome (expected A Error);
  sendable : A -> Prop;
  parse_serialize x : sendable x -> parse (serialize x) = Done (success x) }.

Definition u32_word (z : Z) : Prop := 0 <= z < 2 ^ 32.

Definition description_ok (d : ServiceDescription.t) : Prop :=
  plain (ServiceDescription.m_serviceString d) /\ plain (ServiceDescription.m_instanceString d) /\
  plain (ServiceDescription.m_eventString d) /\
  List.length (ServiceDescription.m_classHash d) = 4%nat /\ Forall u32_word (ServiceDescription.m_classHash d) /\
  ServiceDescription.m_scope d <> INVALID /\ ServiceDescription.m_interfaceSource d <> Interfaces.INTERFACE_END.

(** A capacity below [UINT64_MAX] and a node name that fits. *)
Definition capacity_ok (n : Z) : Prop := 0 <= n < UINT64_MAX.

Lemma Scope_roundtrip s : Scope_of (Scope_value s) = Some s.
Proof. by destruct s. Qed.
Lemma Interfaces_roundtrip i : Interfaces_of (Interfaces.value i) = Some i.
Proof. by destruct i. Qed.
Lemma QueueFullPolicy_roundtrip p : QueueFullPolicy_of (QueueFullPolicy_value p) = p.
Proof. by destruct p. Qed.
Lemma ConsumerTooSlowPolicy_roundtrip p : ConsumerTooSlowPolicy_of (ConsumerTooSlowPolicy_value p) = p.
Proof. by destruct p. Qed.

(** Evaluates the parser on the text of an object whose fields fit. *)
Ltac read_back :=
  rewrite extract_create; [|cbn; lia|repeat (apply Forall2_cons_2; [try (unfold fits, capacity_ok in *; done || lia)|]);
    try apply Forall2_nil_2].

Lemma description_roundtrip d : description_ok d ->
  ServiceDescriptionText.deserialize (ServiceDescriptionText.serialize d) = Done (success d).
Proof.
  unfold ServiceDescriptionText.deserialize, ServiceDescriptionText.serialize, ServiceDescriptionText.kinds.
  destruct d as [service instance event hash scope interface].
  unfold description_ok.
  cbn [ServiceDescription.m_serviceString ServiceDescription.m_instanceString ServiceDescription.m_eventString
       ServiceDescription.m_classHash ServiceDescription.m_scope ServiceDescription.m_interfaceSource].
  intros (H1 & H2 & H3 & Hlen & Hh & Hs & Hi).
  destruct hash as [|h0 [|h1 [|h2 [|h3 [|]]]]]; try done. apply Forall_cons in Hh as [B0 [B1 [B2 [B3 _]%Forall_cons]%Forall_cons]%Forall_cons].
  unfold u32_word in *. change (aget 0 [h0; h1; h2; h3] 0) with h0. change (aget 0 [h0; h1; h2; h3] 1) with h1.
  change (aget 0 [h0; h1; h2; h3] 2) with h2. change (aget 0 [h0; h1; h2; h3] 3) with h3.
  read_back; [|destruct scope; done|destruct interface; done].
  cbn [obind].
  destruct (Z.leb_spec (Scope_value INVALID) (Scope_value scope)); [by destruct scope|].
  destruct (Z.leb_spec (Interfaces.value Interfaces.INTERFACE_END) (Interfaces.value interface)); [by destruct interface|].
  cbn [orb]. by rewrite Scope_roundtrip, Interfaces_roundtrip.
Qed.

Lemma publisher_options_roundtrip o : capacity_ok (PublisherOptions.historyCapacity o) -> plain (PublisherOptions.nodeName o) ->
  PublisherOptionsText.deserialize (PublisherOptionsText.serialize o) = Done (success o).
Proof.
  intros Hc Hn. unfold PublisherOptionsText.deserialize, PublisherOptionsText.serialize. destruct o as [cap node off pol].
  read_back; destruct pol; done.
Qed.

Lemma subscriber_options_roundtrip o : capacity_ok (SubscriberOptions.queueCapacity o) ->
  capacity_ok (SubscriberOptions.historyRequest o) -> plain (SubscriberOptions.nodeName o) ->
  SubscriberOptionsText.deserialize (SubscriberOptionsText.serialize o) = Done (success o).
Proof.
  intros Hc Hh Hn. unfold SubscriberOptionsText.deserialize, SubscriberOptionsText.serialize. destruct o as [cap his node onc pol req].
  read_back; destruct pol; done.
Qed.

Lemma client_options_roundtrip o : capacity_ok (ClientOptions.responseQueueCapacity o) -> plain (ClientOptions.nodeName o) ->
  ClientOptionsText.deserialize (ClientOptionsText.serialize o) = Done (success o).
Proof.
  intros Hc Hn. unfold ClientOptionsText.deserialize, ClientOptionsText.serialize. destruct o as [cap node con pol slow].
  read_back; destruct pol, slow; done.
Qed.

Lemma server_options_roundtrip o : capacity_ok (ServerOptions.requestQueueCapacity o) -> plain (ServerOptions.nodeName o) ->
  ServerOptionsText.deserialize (ServerOptionsText.serialize o) = Done (success o).
Proof.
  intros Hc Hn. unfold ServerOptionsText.deserialize, ServerOptionsText.serialize. destruct o as [cap node off pol slow].
  read_back; destruct pol, slow; done.
Qed.

#[export] Instance description_serializable : Serializable ServiceDescription.t := {|
  serialize := ServiceDescriptionText.serialize;
  parse := ServiceDescriptionText.deserialize;
  sendable := description_ok;
  parse_serialize := description_roundtrip |}.

#[export] Instance publisher_options_serializable : Serializable PublisherOptions.t := {|
  serialize := PublisherOptionsText.serialize;
  parse := PublisherOptionsText.deserialize;
  sendable o := capacity_ok (PublisherOptions.historyCapacity o) /\ plain (PublisherOptions.nodeName o);
  parse_serialize o H := publisher_options_roundtrip o (proj1 H) (proj2 H) |}.

#[export] Instance subscriber_options_serializable : Serializable SubscriberOptions.t := {|
  serialize := SubscriberOptionsText.serialize;
  parse := SubscriberOptionsText.deserialize;
  sendable o := capacity_ok (SubscriberOptions.queueCapacity o) /\ capacity_ok (SubscriberOptions.historyRequest o) /\
                plain (SubscriberOptions.nodeName o);
  parse_serialize o H := subscriber_options_roundtrip o (proj1 H) (proj1 (proj2 H)) (proj2 (proj2 H)) |}.

#[export] Instance client_options_serializable : Serializable ClientOptions.t := {|
  serialize := ClientOptionsText.serialize;
  parse := ClientOptionsText.deserialize;
  sendable o := capacity_ok (ClientOptions.responseQueueCapacity o) /\ plain (ClientOptions.nodeName o);
  parse_serialize o H := client_options_roundtrip o (proj1 H) (proj2 H) |}.

#[export] Instance server_options_serializable : Serializable ServerOptions.t := {|
  serialize := ServerOptionsText.serialize;
  parse := ServerOptionsText.deserialize;
  sendable o := capacity_ok (ServerOptions.requestQueueCapacity o) /\ plain (ServerOptions.nodeName o);
  parse_serialize o H := server_options_roundtrip o (proj1 H) (proj2 H) |}.

Lemma port_config_roundtrip p : u32_word (PortConfigInfo.portType p) -> u32_word (PortConfigInfo.deviceId p) ->
  u32_word (PortConfigInfo.memoryType p) ->
  PortConfigInfo.of_serialization (PortConfigInfo.serialize p) = Done p.
Proof.
  unfold u32_word. intros H1 H2 H3. unfold PortConfigInfo.of_serialization, PortConfigInfo.serialize. destruct p as [a b c].
  read_back. done.
Qed.

Definition version_ok (v : VersionInfo.t) : Prop :=
  VersionInfo.m_valid v = true /\ 0 <= VersionInfo.m_versionMajor v < 2 ^ 16 /\ 0 <= VersionInfo.m_versionMinor v < 2 ^ 16 /\
  0 <= VersionInfo.m_versionPatch v < 2 ^ 16 /\ 0 <= VersionInfo.m_versionTweak v < 2 ^ 16 /\
  size (VersionInfo.m_buildDateString v) <= 36 /\ no_char zero (VersionInfo.m_buildDateString v) /\
  size (VersionInfo.m_commitIdString v) <= 12 /\ no_char zero (VersionInfo.m_commitIdString v).

Lemma version_roundtrip v : version_ok v -> VersionInfo.of_serialization (VersionInfo.serialize v) = Done v.
Proof.
  destruct v as [valid a b c d date commit]. unfold version_ok.
  cbn [VersionInfo.m_valid VersionInfo.m_versionMajor VersionInfo.m_versionMinor VersionInfo.m_versionPatch
       VersionInfo.m_versionTweak VersionInfo.m_buildDateString VersionInfo.m_commitIdString].
  intros (-> & H1 & H2 & H3 & H4 & H5 & H6 & H7 & H8).
  unfold VersionInfo.of_serialization, VersionInfo.serialize.
  assert (plain date) by (split; [lia|done]). assert (plain commit) by (split; [lia|done]). read_back.
  transitivity (Done (VersionInfo.mk true a b c d (str_take 36 date) (str_take 12 commit))); [reflexivity|].
  unfold size in H5, H7. by rewrite !str_take_all by lia.
Qed.

(** ** Totality *)

Lemma str_take_size n s : size (str_take n s) <= size s.
Proof.
  revert s. induction n as [|n IH]; intros [|c s]; [done|apply size_nonneg|done|].
  change (str_take (S n) (String c s)) with (String c (str_take n s)). rewrite !size_String. specialize (IH s). lia.
Qed.

Lemma str_drop_size n s : size (str_drop n s) <= size s.
Proof.
  revert s. induction n as [|n IH]; intros [|c s]; [done..|].
  change (str_drop (S n) (String c s)) with (str_drop n s). rewrite size_String. specialize (IH s). lia.
Qed.

Lemma substr_total pos len s : pos <= size s -> exists r, substr pos len s = Done r /\ size r <= size s.
Proof.
  intros H. unfold substr. destruct (Z.ltb_spec (size s) pos); [lia|]. eexists. split; [done|].
  etransitivity; [apply str_take_size|apply str_drop_size].
Qed.

Lemma find_first_of_bound c s n : find_first_of c s = Some n -> Z.of_nat n + 1 <= size s.
Proof.
  revert n. induction s as [|d s IH]; intros n; [done|]. cbn. rewrite size_String. pose proof (size_nonneg s).
  case_bool_decide; [intros; simplify_eq; lia|].
  destruct (find_first_of c s) as [m|]; [|done]. cbn. intros. simplify_eq. specialize (IH m eq_refl). lia.
Qed.

Lemma removeFirstEntry_total s : size s < 2 ^ 63 ->
  removeFirstEntry s = Done None \/ exists e rest, removeFirstEntry s = Done (Some (e, rest)) /\ size rest <= size s.
Proof.
  intros Hs. unfold removeFirstEntry. destruct (find_first_of separator s) as [n|] eqn:E; [|by left].
  apply find_first_of_bound in E. destruct (substr_total 0 (Z.of_nat n) s) as (num & -> & _); [apply size_nonneg|]. cbn [obind].
  destruct (convert.fromString_uint64 (c_str num)) as [len|]; [|by left].
  destruct (Z.ltb_spec (size s) (u64 (u64 (Z.of_nat n + len) + 1))) as [|H]; [by left|].
  destruct (substr_total (u64 (Z.of_nat n + 1)) len s) as (e & -> & _); [rewrite u64_small; lia|]. cbn [obind].
  destruct (substr_total (u64 (u64 (Z.of_nat n + 1) + len)) UINT64_MAX s) as (rest & -> & Hr).
  { revert H. unfold u64. rewrite !Zplus_mod_idemp_l. by replace (Z.of_nat n + 1 + len) with (Z.of_nat n + len + 1) by lia. }
  right. by exists e, rest.
Qed.

(** ** Properties *)

(** C24: whatever the runtime serializes, RouDi reads back unchanged: service descriptions, the options of the four kinds
    of ports and version infos, for strings of at most 100 characters without NUL and capacities below [UINT64_MAX]. *)
Theorem serialization_roundtrip :
  (forall d, description_ok d -> ServiceDescriptionText.deserialize (ServiceDescriptionText.serialize d) = Done (success d)) /\
  (forall o, sendable (A := PublisherOptions.t) o ->
     PublisherOptionsText.deserialize (PublisherOptionsText.serialize o) = Done (success o)) /\
  (forall o, sendable (A := SubscriberOptions.t) o ->
     SubscriberOptionsText.deserialize (SubscriberOptionsText.serialize o) = Done (success o)) /\
  (forall o, sendable (A := ClientOptions.t) o ->
     ClientOptionsText.deserialize (ClientOptionsText.serialize o) = Done (success o)) /\
  (forall o, sendable (A := ServerOptions.t) o ->
     ServerOptionsText.deserialize (ServerOptionsText.serialize o) = Done (success o)) /\
  (forall v, version_ok v -> VersionInfo.of_serialization (VersionInfo.serialize v) = Done v).
Proof.
  split_and!; [exact description_roundtrip| | | | |exact version_roundtrip]; intros o H.
  - exact (parse_serialize (A := PublisherOptions.t) o H).
  - exact (parse_serialize (A := SubscriberOptions.t) o H).
  - exact (parse_serialize (A := ClientOptions.t) o H).
  - exact (parse_serialize (A := ServerOptions.t) o H).
Qed.

(** C27: the parser is total: for every text, also for one that does not follow the syntax, [extract] ends with a result and
    no [substr] of it throws, although the length that an entry announces may overflow the position arithmetic. *)
Theorem extract_total kinds s : size s < 2 ^ 63 -> exists ok args, extract kinds s = Done (ok, args).
Proof.
  unfold extract. revert s. induction kinds as [|k kinds IH]; intros s Hs; cbn [deserialize]; [by eexists _, _|].
  destruct (removeFirstEntry_total s Hs) as [->|(e & rest & -> & Hr)]; cbn [obind]; [by eexists _, _|].
  destruct (fromString k (c_str e)) as [v|]; [|by eexists _, _].
  destruct (IH rest) as (ok & args & ->); [lia|]. by eexists _, _.
Qed.

Definition malformed : string := "18446744073709551613:ABCDEFGHIJKLM".

Lemma extract_total_witness :
  size malformed < 2 ^ 63 /\ exists ok args, extract [KString100; KString100] malformed = Done (ok, args).
Proof. split; [vm_compute; reflexivity|apply (extract_total [KString100; KString100] malformed); vm_compute; reflexivity]. Defined.

(** An entry whose length makes [pos + length + 1] overflow passes the check of
    the size; the entry is then the rest of the text and the remainder starts
    inside the length field: the text has one malformed entry and two values are
    read from it. *)
Theorem extract_accepts_overflowing_length :
  extract [KString100; KString100] malformed = Done (true, [VString "ABCDEFGHIJKLM"; VString "ABCDEFGHIJKLM"]).
Proof. vm_compute. reflexivity. Qed.

(** [fromString<uint64_t>] takes the largest number for a failure of
    [strtoull]. *)
Theorem largest_capacity_rejected :
  PublisherOptionsText.deserialize
    (PublisherOptionsText.serialize (PublisherOptions.mk UINT64_MAX "node" true ConsumerTooSlowPolicy.DISCARD_OLDEST_DATA))
  = Done failed.
Proof. vm_compute. reflexivity. Qed.
