(* ===== verification/IpcMessage.v ===== *)
(** * IPC messages

    [ipc_message.cpp] and the part of [ipc_interface_base.cpp] that does not talk
    to the operating system: the messages that the runtime of an application and
    RouDi exchange, their types, and what a channel accepts. *)

From S2P Require Import Prelude VariantQueue ChunkQueue ChunkDistributor CaPro Serialization.
From Stdlib Require Import Ascii String.

Module IpcMessage.
Record t := mk {
  m_msg : string;
  m_isValid : bool;
  m_numberOfElements : Z }.

Definition m_separator : ascii := ",".

Definition default_ctor : t := mk EmptyString true 0.

Definition isValidEntry (entry : string) : bool :=
  match find_first_of m_separator entry with Some _ => false | None => true end.

Definition addEntry (entry : string) (m : t) : t :=
  if negb (isValidEntry entry) then mk (m_msg m) false (m_numberOfElements m)
  else mk (m_msg m +:+ (entry +:+ String m_separator EmptyString)) (m_isValid m) (u32 (m_numberOfElements m + 1)).

(** [IpcMessage(std::initializer_list)], and a chain of [operator<<]. *)
Definition ctor (msg : list string) : t := foldl (fun m element => addEntry element m) default_ctor msg.

Definition getNumberOfElements (m : t) : Z := m_numberOfElements m.
Definition isValid (m : t) : bool := m_isValid m.
Definition getMessage (m : t) : string := m_msg m.

(** The loop of [getElementAtIndex] over the rest of the message. *)
Fixpoint element_at (index : nat) (rest : string) : string :=
  match find_first_of m_separator rest with
  | None => EmptyString
  | Some endPos =>
      match index with
      | O => str_take endPos rest
      | S index => element_at index (str_drop (S endPos) rest)
      end
  end.

Definition getElementAtIndex (index : nat) (m : t) : string := element_at index (m_msg m).

Definition clearMessage (m : t) : t := default_ctor.

Fixpoint last_char (s : string) : option ascii :=
  match s with
  | EmptyString => None
  | String c EmptyString => Some c
  | String _ s => last_char s
  end.

Fixpoint count_char (c : ascii) (s : string) : Z :=
  match s with
  | EmptyString => 0
  | String d s => (if bool_decide (d = c) then 1 else 0) + count_char c s
  end.

Definition setMessage (msg : string) (m : t) : t :=
  let m := clearMessage m in
  if match last_char msg with Some c => negb (bool_decide (c = m_separator)) | None => false end
  then mk msg false (m_numberOfElements m)
  else mk msg (m_isValid m) (u32 (count_char m_separator msg)).

Definition eqb (a b : t) : bool := bool_decide (getMessage a = getMessage b).
End IpcMessage.

(** ** Types of messages *)

Module IpcMessageType.
Inductive t :=
  | BEGIN | NOTYPE | REG | REG_ACK | CREATE_PUBLISHER | CREATE_PUBLISHER_ACK | CREATE_SUBSCRIBER | CREATE_SUBSCRIBER_ACK
  | CREATE_CLIENT | CREATE_CLIENT_ACK | CREATE_SERVER | CREATE_SERVER_ACK | CREATE_INTERFACE | CREATE_INTERFACE_ACK
  | CREATE_CONDITION_VARIABLE | CREATE_CONDITION_VARIABLE_ACK | CREATE_NODE | CREATE_NODE_ACK | KEEPALIVE | TERMINATION
  | TERMINATION_ACK | PREPARE_APP_TERMINATION | PREPARE_APP_TERMINATION_ACK | ERROR | APP_WAIT | WAKEUP_TRIGGER | REPLAY
  | MESSAGE_NOT_SUPPORTED | END_.

#[global] Instance eq_dec : EqDecision t.
Proof. solve_decision. Defined.

(** All enumerators but [BEGIN], which is [-1]. *)
Definition enumerators : list t :=
  [NOTYPE; REG; REG_ACK; CREATE_PUBLISHER; CREATE_PUBLISHER_ACK; CREATE_SUBSCRIBER; CREATE_SUBSCRIBER_ACK; CREATE_CLIENT;
   CREATE_CLIENT_ACK; CREATE_SERVER; CREATE_SERVER_ACK; CREATE_INTERFACE; CREATE_INTERFACE_ACK; CREATE_CONDITION_VARIABLE;
   CREATE_CONDITION_VARIABLE_ACK; CREATE_NODE; CREATE_NODE_ACK; KEEPALIVE; TERMINATION; TERMINATION_ACK;
   PREPARE_APP_TERMINATION; PREPARE_APP_TERMINATION_ACK; ERROR; APP_WAIT; WAKEUP_TRIGGER; REPLAY; MESSAGE_NOT_SUPPORTED; END_].

Fixpoint position (x : t) (l : list t) : Z :=
  match l with [] => 0 | y :: l => if bool_decide (x = y) then 0 else 1 + position x l end.

Definition value (x : t) : Z := match x with BEGIN => -1 | _ => position x enumerators end.
End IpcMessageType.

Module IpcMessageErrorType.
Inductive t :=
  | BEGIN | NOTYPE | NO_UNIQUE_CREATED | INTERNAL_SERVICE_DESCRIPTION_IS_FORBIDDEN | REQUEST_PUBLISHER_INVALID_RESPONSE
  | REQUEST_PUBLISHER_WRONG_IPC_MESSAGE_RESPONSE | REQUEST_PUBLISHER_NO_WRITABLE_SHM_SEGMENT
  | REQUEST_SUBSCRIBER_INVALID_RESPONSE | REQUEST_SUBSCRIBER_WRONG_IPC_MESSAGE_RESPONSE | REQUEST_CLIENT_INVALID_RESPONSE
  | REQUEST_CLIENT_WRONG_IPC_MESSAGE_RESPONSE | REQUEST_CLIENT_NO_WRITABLE_SHM_SEGMENT | REQUEST_SERVER_INVALID_RESPONSE
  | REQUEST_SERVER_WRONG_IPC_MESSAGE_RESPONSE | REQUEST_SERVER_NO_WRITABLE_SHM_SEGMENT
  | REQUEST_CONDITION_VARIABLE_INVALID_RESPONSE | REQUEST_CONDITION_VARIABLE_WRONG_IPC_MESSAGE_RESPONSE
  | PUBLISHER_LIST_FULL | SUBSCRIBER_LIST_FULL | CLIENT_LIST_FULL | SERVER_LIST_FULL | CONDITION_VARIABLE_LIST_FULL
  | EVENT_VARIABLE_LIST_FULL | NODE_DATA_LIST_FULL | END_.

#[global] Instance eq_dec : EqDecision t.
Proof. solve_decision. Defined.

Definition enumerators : list t :=
  [BEGIN; NOTYPE; NO_UNIQUE_CREATED; INTERNAL_SERVICE_DESCRIPTION_IS_FORBIDDEN; REQUEST_PUBLISHER_INVALID_RESPONSE;
   REQUEST_PUBLISHER_WRONG_IPC_MESSAGE_RESPONSE; REQUEST_PUBLISHER_NO_WRITABLE_SHM_SEGMENT;
   REQUEST_SUBSCRIBER_INVALID_RESPONSE; REQUEST_SUBSCRIBER_WRONG_IPC_MESSAGE_RESPONSE; REQUEST_CLIENT_INVALID_RESPONSE;
   REQUEST_CLIENT_WRONG_IPC_MESSAGE_RESPONSE; REQUEST_CLIENT_NO_WRITABLE_SHM_SEGMENT; REQUEST_SERVER_INVALID_RESPONSE;
   REQUEST_SERVER_WRONG_IPC_MESSAGE_RESPONSE; REQUEST_SERVER_NO_WRITABLE_SHM_SEGMENT;
   REQUEST_CONDITION_VARIABLE_INVALID_RESPONSE; REQUEST_CONDITION_VARIABLE_WRONG_IPC_MESSAGE_RESPONSE;
   PUBLISHER_LIST_FULL; SUBSCRIBER_LIST_FULL; CLIENT_LIST_FULL; SERVER_LIST_FULL; CONDITION_VARIABLE_LIST_FULL;
   EVENT_VARIABLE_LIST_FULL; NODE_DATA_LIST_FULL; END_].

Fixpoint position (x : t) (l : list t) : Z :=
  match l with [] => 0 | y :: l => if bool_decide (x = y) then 0 else 1 + position x l end.

Definition value (x : t) : Z := position x enumerators.
End IpcMessageErrorType.

Definition stringToIpcMessageType (str : string) : IpcMessageType.t :=
  if negb (convert.stringIsNumber str convert.INTEGER) then IpcMessageType.NOTYPE
  else
    match convert.fromString_int32 str with
    | None => IpcMessageType.NOTYPE
    | Some msg =>
        if (msg <=? IpcMessageType.value IpcMessageType.BEGIN) || (IpcMessageType.value IpcMessageType.END_ <=? msg)
        then IpcMessageType.NOTYPE
        else default IpcMessageType.NOTYPE (IpcMessageType.enumerators !! Z.to_nat msg)
    end.

Definition IpcMessageTypeToString (msg : IpcMessageType.t) : string := convert.toString (IpcMessageType.value msg).

Definition stringToIpcMessageErrorType (str : string) : IpcMessageErrorType.t :=
  if negb (convert.stringIsNumber str convert.INTEGER) then IpcMessageErrorType.NOTYPE
  else
    match convert.fromString_int32 str with
    | None => IpcMessageErrorType.NOTYPE
    | Some msg =>
        if (msg <=? IpcMessageErrorType.value IpcMessageErrorType.BEGIN)
           || (IpcMessageErrorType.value IpcMessageErrorType.END_ <=? msg)
        then IpcMessageErrorType.NOTYPE
        else default IpcMessageErrorType.NOTYPE (IpcMessageErrorType.enumerators !! Z.to_nat msg)
    end.

Definition IpcMessageErrorTypeToString (msg : IpcMessageErrorType.t) : string :=
  convert.toString (IpcMessageErrorType.value msg).

(** ** Channels

    What [IpcInterfaceBase] hands to the socket, and what it makes of a received
    text. *)

Module IpcInterfaceBase.
Definition ROUDI_MESSAGE_SIZE : Z := 512.
Definition APP_MESSAGE_SIZE : Z := 512.

(** [send] and [timedSend]: [None] when the message is not sent; the check of the
    size is [UnixDomainSocket::timedSend]'s. *)
Definition send (m_maxMessageSize : Z) (msg : IpcMessage.t) : option string :=
  if negb (IpcMessage.isValid msg) then None
  else if m_maxMessageSize <? size (IpcMessage.getMessage msg) then None
  else Some (IpcMessage.getMessage msg).

(** [receive] after the socket has delivered a text: the message and whether it
    is valid. *)
Definition setMessageFromString (buffer : string) : bool * IpcMessage.t :=
  let answer := IpcMessage.setMessage (c_str buffer) IpcMessage.default_ctor in (IpcMessage.isValid answer, answer).
End IpcInterfaceBase.

(** ** Lemmas *)

#[local] Arguments String.append : simpl nomatch.

Section lemmas.
Import IpcMessage.

(** The text of a sequence of entries. *)
Fixpoint join (entries : list string) : string :=
  match entries with [] => EmptyString | e :: entries => e +:+ String m_separator (join entries) end.

Definition entry_ok (e : string) : Prop := no_char m_separator e.

Lemma join_snoc entries e : join (entries ++ [e]) = join entries +:+ (e +:+ String m_separator EmptyString).
Proof.
  induction entries as [|x entries IH]; [done|].
  change (join ((x :: entries) ++ [e])) with (x +:+ String m_separator (join (entries ++ [e]))). rewrite IH.
  cbn [join]. by rewrite string_app_assoc.
Qed.

Lemma addEntry_ok e m : entry_ok e ->
  addEntry e m = mk (m_msg m +:+ (e +:+ String m_separator EmptyString)) (m_isValid m) (u32 (m_numberOfElements m + 1)).
Proof. intros H. unfold addEntry, isValidEntry. by rewrite H. Qed.

Lemma message_ctor_ok entries : Forall entry_ok entries -> Z.of_nat (List.length entries) < 2 ^ 32 ->
  ctor entries = mk (join entries) true (Z.of_nat (List.length entries)).
Proof.
  unfold ctor. induction entries as [|e entries IH] using rev_ind; intros H Hl; [done|].
  apply Forall_app in H as [H He]. apply Forall_cons in He as [He _]. rewrite length_app in *. cbn [List.length] in *.
  rewrite foldl_app. cbn [foldl]. rewrite IH; [|exact H|lia]. rewrite addEntry_ok; [|exact He]. cbn [m_msg m_isValid m_numberOfElements].
  rewrite join_snoc, u32_small by lia. f_equal. lia.
Qed.

Lemma element_at_join entries i : Forall entry_ok entries -> element_at i (join entries) = default EmptyString (entries !! i).
Proof.
  revert i. induction entries as [|e entries IH]; intros i H; [by destruct i|]. apply Forall_cons in H as [He H].
  assert (E : find_first_of m_separator (join (e :: entries)) = Some (String.length e)) by by apply find_first_of_app.
  destruct i as [|i]; cbn [element_at]; rewrite E; cbn [join lookup list_lookup default].
  - apply str_take_app.
  - rewrite <- IH by done. f_equal.
    change (e +:+ String m_separator (join entries)) with (e +:+ (String m_separator EmptyString +:+ join entries)).
    rewrite <- string_app_assoc. replace (S (String.length e)) with (String.length (e +:+ String m_separator EmptyString));
      [apply str_drop_app|]. pose proof (size_app e (String m_separator EmptyString)) as Hs. unfold size in Hs. cbn in Hs. lia.
Qed.

Lemma getElement_ctor entries i : Forall entry_ok entries -> Z.of_nat (List.length entries) < 2 ^ 32 ->
  getElementAtIndex i (ctor entries) = default EmptyString (entries !! i).
Proof. intros H Hl. rewrite message_ctor_ok by done. by apply element_at_join. Qed.

Lemma last_char_app s c : last_char (s +:+ String c EmptyString) = Some c.
Proof.
  induction s as [|x s IH]; [done|]. cbn [String.append last_char]. rewrite IH. by destruct s.
Qed.

Lemma count_char_app c a b : count_char c (a +:+ b) = count_char c a + count_char c b.
Proof. induction a as [|x a IH]; [done|]. cbn [String.append count_char]. rewrite IH. lia. Qed.

Lemma count_char_none c s : no_char c s -> count_char c s = 0.
Proof. induction s as [|x s IH]; [done|]. intros [Hx Hs]%no_char_cons. cbn. rewrite bool_decide_false by done. by rewrite IH. Qed.

Lemma count_join entries : Forall entry_ok entries -> count_char m_separator (join entries) = Z.of_nat (List.length entries).
Proof.
  induction 1 as [|e entries He _ IH]; [done|]. cbn [join]. rewrite count_char_app, count_char_none by done.
  cbn [count_char]. rewrite bool_decide_true, IH by done. cbn [List.length]. lia.
Qed.

Lemma last_join entries : entries <> [] -> last_char (join entries) = Some m_separator.
Proof.
  destruct entries as [|e entries _] using rev_ind; [done|]. intros _. by rewrite join_snoc, <- string_app_assoc, last_char_app.
Qed.

Lemma setMessage_join entries m : Forall entry_ok entries -> Z.of_nat (List.length entries) < 2 ^ 32 ->
  setMessage (join entries) m = mk (join entries) true (Z.of_nat (List.length entries)).
Proof.
  intros H Hl. unfold setMessage. rewrite count_join, u32_small by (done || lia). destruct entries as [|e entries]; [done|].
  rewrite last_join by done. by rewrite bool_decide_true by done.
Qed.
End lemmas.

(** ** Properties *)

(** An IPC message made of entries without the separator is valid, and the receiver that is given its text finds the
    same number of entries and the same entry at each index. *)
Theorem ipc_message_roundtrip entries m' :
  Forall entry_ok entries -> Z.of_nat (List.length entries) < 2 ^ 32 ->
  let m := IpcMessage.ctor entries in
  IpcMessage.isValid m = true /\
  IpcMessage.setMessage (IpcMessage.getMessage m) m' = m /\
  IpcMessage.getNumberOfElements m = Z.of_nat (List.length entries) /\
  forall i, IpcMessage.getElementAtIndex i m = default EmptyString (entries !! i).
Proof.
  intros H Hl m. pose proof (message_ctor_ok entries H Hl) as E. split_and!.
  - unfold m. by rewrite E.
  - unfold m. rewrite E. by apply setMessage_join.
  - unfold m. by rewrite E.
  - intros i. by apply getElement_ctor.
Qed.

Lemma ipc_message_roundtrip_witness :
  IpcMessage.getElementAtIndex 1 (IpcMessage.ctor ["17"; "radar"]) = "radar"%string.
Proof.
  destruct (ipc_message_roundtrip ["17"; "radar"]%string IpcMessage.default_ctor) as (_ & _ & _ & H);
    [repeat constructor|vm_compute; reflexivity|]. exact (H 1%nat).
Defined.

Lemma type_roundtrip x : x <> IpcMessageType.BEGIN -> x <> IpcMessageType.END_ ->
  stringToIpcMessageType (IpcMessageTypeToString x) = x.
Proof. destruct x; intros; try done; vm_compute; reflexivity. Qed.

Lemma error_type_roundtrip x : x <> IpcMessageErrorType.BEGIN -> x <> IpcMessageErrorType.END_ ->
  stringToIpcMessageErrorType (IpcMessageErrorTypeToString x) = x.
Proof. destruct x; intros; try done; vm_compute; reflexivity. Qed.
