(* ===== verification/RouDi.v ===== *)
(** * RouDi

    [roudi.cpp], [process_manager.cpp] and [process.cpp]: the daemon that keeps
    the list of the registered applications, executes the requests their runtimes
    send as IPC messages, and removes applications that went away.  The ports
    themselves are kept by [PortManager].  The process introspection, which only
    observes, and the log are left out. *)

From S2P Require Import Prelude ChunkHeader MemoryManager SharedChunk Queue VariantQueue ConditionVariable.
From S2P Require Import ChunkQueue ChunkDistributor ChunkSender CaPro PubSubPorts ClientServerPorts RelativePointer.
From S2P Require Import ServiceRegistry PortPool PortManager Serialization IpcMessage.
From Stdlib Require Import Ascii String.

Definition MAX_PROCESS_NUMBER : Z := 300.

(** Times in nanoseconds. *)
Definition DISCOVERY_INTERVAL : Z := 100 * 10 ^ 6.
Definition PROCESS_KEEP_ALIVE_INTERVAL : Z := 3 * DISCOVERY_INTERVAL.
Definition PROCESS_KEEP_ALIVE_TIMEOUT : Z := 5 * PROCESS_KEEP_ALIVE_INTERVAL.

Definition MAX_NAME_LENGTH : nat := 100.

(** A negative number, which no runtime sends, would give a value that is no
    enumerator: [None], outside of the model. *)
Definition StringToCaProInterface (str : string) : option Interfaces.t :=
  let i := default 0 (convert.fromString_int32 (c_str str)) in
  if Interfaces.value Interfaces.INTERFACE_END <=? i then Some Interfaces.INTERNAL
  else if i <? 0 then None
  else Interfaces_of i.

Module Process.
Record t := mk {
  m_name : string; (* of the IPC channel *)
  m_pid : Z;
  m_user : Z;
  m_isMonitored : bool;
  m_sessionId : Z;
  m_timestamp : Z }.

Definition setTimestamp (v : Z) (p : t) : t :=
  mk (m_name p) (m_pid p) (m_user p) (m_isMonitored p) (m_sessionId p) v.
End Process.

(** The objects that RouDi creates for applications; [Null] is the null
    pointer. *)
Inductive object :=
  | Publisher (i : nat) | Subscriber (i : nat) | Client (i : nat) | Server (i : nat)
  | Interface (i : nat) | Node (i : nat) | ConditionVar (i : nat) | Null.

(** [SegmentManager]: the writer group and the memory manager of each segment. *)
Definition Segments : Type := list (string * nat).

(** The inner loop of [getSegmentInformationWithWriteAccessForUser]. *)
Fixpoint segment_of_group (groupID : string) (segments : Segments) : option nat :=
  match segments with
  | [] => None
  | (writerGroup, memoryManager) :: segments =>
      if bool_decide (writerGroup = groupID) then Some memoryManager else segment_of_group groupID segments
  end.

Fixpoint getSegmentInformationWithWriteAccessForUser (groupContainer : list string) (segments : Segments) : option nat :=
  match groupContainer with
  | [] => None
  | groupID :: groupContainer =>
      match segment_of_group groupID segments with
      | Some memoryManager => Some memoryManager
      | None => getSegmentInformationWithWriteAccessForUser groupContainer segments
      end
  end.

Module RouDi.

(** [outbox]: the texts sent to the channels of applications, oldest first. *)
Record t := mk {
  m_portManager : PortManager.t;
  m_processList : list Process.t;
  outbox : list (string * string);
  sessionId : Z }.

Definition set_port_manager v (s : t) := mk v (m_processList s) (outbox s) (sessionId s).
Definition set_processes v (s : t) := mk (m_portManager s) v (outbox s) (sessionId s).
Definition set_outbox v (s : t) := mk (m_portManager s) (m_processList s) v (sessionId s).

Inductive TerminationFeedback := SEND_ACK_TO_PROCESS | DO_NOT_SEND_ACK_TO_PROCESS.
Inductive ShutdownPolicy := SIG_TERM | SIG_KILL.

Section ops.
Context (b : Build) (sizeof_registry alignof_registry : Z) (lock_held : Z -> bool).
(** The segments that RouDi has mapped, the id and size of the segment for
    management data, and where its objects are. *)
Context (repository : PointerRepository.t) (m_mgmtSegmentId mgmtMemorySize segmentManagerAddress : Z).
Context (address_of : object -> Z).
(** The groups of a user, the configured segments, the version of this RouDi. *)
Context (groups_of : Z -> list string) (segments : Segments).
Context (currentVersion : VersionInfo.t) (m_compatibilityCheckLevel : VersionInfo.CompatibilityCheckLevel).
Context (m_monitoringMode : bool).
(** Whether the channel of an application takes a message, and the error number
    of [kill(pid, signal)], 0 for success. *)
Context (accepts : string -> bool) (kill : Z -> ShutdownPolicy -> Z).

Definition report (e : Error) (l : ErrorLevel) (s : t) : t :=
  set_port_manager (PortManager.report_error e l (m_portManager s)) s.

(** [Process::sendViaIpcChannel] *)
Definition sendViaIpcChannel (name : string) (data : IpcMessage.t) (s : t) : t :=
  match IpcInterfaceBase.send IpcInterfaceBase.APP_MESSAGE_SIZE data with
  | Some text =>
      if accepts name then set_outbox (outbox s ++ [(name, text)]) s
      else report POSH__ROUDI_PROCESS_SEND_VIA_IPC_CHANNEL_FAILED MODERATE s
  | None => report POSH__ROUDI_PROCESS_SEND_VIA_IPC_CHANNEL_FAILED MODERATE s
  end.

Fixpoint find_process (name : string) (l : list Process.t) : option Process.t :=
  match l with
  | [] => None
  | p :: l => if bool_decide (Process.m_name p = name) then Some p else find_process name l
  end.
Definition findProcess (name : string) (s : t) : option Process.t := find_process name (m_processList s).

Definition getOffset (o : object) : Z := BaseRelativePointer.getOffset repository m_mgmtSegmentId (address_of o).

(** The answers of RouDi. *)
Definition ack (type : IpcMessageType.t) (o : object) : IpcMessage.t :=
  IpcMessage.ctor [IpcMessageTypeToString type; convert.toString (getOffset o); convert.toString m_mgmtSegmentId].
Definition failure (error : IpcMessageErrorType.t) : IpcMessage.t :=
  IpcMessage.ctor [IpcMessageTypeToString IpcMessageType.ERROR; IpcMessageErrorTypeToString error].

(** ** The list of processes *)

Definition handleProcessShutdownPreparationRequest (name : string) (s : t) : outcome t :=
  match findProcess name s with
  | None => Done s
  | Some _ =>
      let* pm := PortManager.unblockProcessShutdown b sizeof_registry alignof_registry name (m_portManager s) in
      Done (sendViaIpcChannel name
              (IpcMessage.ctor [IpcMessageTypeToString IpcMessageType.PREPARE_APP_TERMINATION_ACK]) (set_port_manager pm s))
  end.

Definition addProcess (now : Z) (name : string) (pid user : Z) (isMonitored : bool) (transmissionTimestamp sessionId : Z)
    (versionInfo : VersionInfo.t) (s : t) : bool * t :=
  if negb (VersionInfo.checkCompatibility currentVersion versionInfo m_compatibilityCheckLevel) then (false, s)
  else if MAX_PROCESS_NUMBER <=? Z.of_nat (List.length (m_processList s)) then (false, s)
  else
    let s := set_processes (m_processList s ++ [Process.mk name pid user isMonitored sessionId now]) s in
    let offset := BaseRelativePointer.getOffset repository m_mgmtSegmentId segmentManagerAddress in
    (true, sendViaIpcChannel name
             (IpcMessage.ctor [IpcMessageTypeToString IpcMessageType.REG_ACK; convert.toString mgmtMemorySize;
                               convert.toString offset; convert.toString transmissionTimestamp;
                               convert.toString m_mgmtSegmentId]) s).

Fixpoint erase_process (name : string) (l : list Process.t) : list Process.t :=
  match l with
  | [] => []
  | p :: l => if bool_decide (Process.m_name p = name) then l else p :: erase_process name l
  end.

(** [removeProcessAndDeleteRespectiveSharedMemoryObjects] of the first process
    with the name. *)
Definition searchForProcessAndRemoveIt (name : string) (feedback : TerminationFeedback) (s : t) : outcome (bool * t) :=
  match findProcess name s with
  | None => Done (false, s)
  | Some _ =>
      let* pm := PortManager.deletePortsOfProcess b sizeof_registry alignof_registry lock_held name (m_portManager s) in
      let s := set_port_manager pm s in
      let s :=
        match feedback with
        | SEND_ACK_TO_PROCESS =>
            sendViaIpcChannel name (IpcMessage.ctor [IpcMessageTypeToString IpcMessageType.TERMINATION_ACK]) s
        | DO_NOT_SEND_ACK_TO_PROCESS => s
        end in
      Done (true, set_processes (erase_process name (m_processList s)) s)
  end.

Definition registerProcess (now : Z) (name : string) (pid user : Z) (isMonitored : bool)
    (transmissionTimestamp sessionId : Z) (versionInfo : VersionInfo.t) (s : t) : outcome (bool * t) :=
  match findProcess name s with
  | Some _ =>
      let* '(removed, s) := searchForProcessAndRemoveIt name DO_NOT_SEND_ACK_TO_PROCESS s in
      if removed : bool then Done (addProcess now name pid user isMonitored transmissionTimestamp sessionId versionInfo s)
      else Done (false, s)
  | None => Done (addProcess now name pid user isMonitored transmissionTimestamp sessionId versionInfo s)
  end.

Definition unregisterProcess (name : string) (s : t) : outcome (bool * t) :=
  searchForProcessAndRemoveIt name SEND_ACK_TO_PROCESS s.

Fixpoint touch (now : Z) (name : string) (l : list Process.t) : list Process.t :=
  match l with
  | [] => []
  | p :: l => if bool_decide (Process.m_name p = name) then Process.setTimestamp now p :: l else p :: touch now name l
  end.

Definition updateLivelinessOfProcess (now : Z) (name : string) (s : t) : t :=
  set_processes (touch now name (m_processList s)) s.

(** The loop of [monitorProcesses]; [kept] are the processes before the
    iterator. *)
Fixpoint monitor (currentTimestamp : Z) (kept l : list Process.t) (s : t) : outcome t :=
  match l with
  | [] => Done (set_processes kept s)
  | p :: l =>
      let timediff := Z.max 0 (currentTimestamp - Process.m_timestamp p) in
      if Process.m_isMonitored p && (PROCESS_KEEP_ALIVE_TIMEOUT <? timediff) then
        let* pm := PortManager.deletePortsOfProcess b sizeof_registry alignof_registry lock_held (Process.m_name p)
                     (m_portManager s) in
        monitor currentTimestamp kept l (set_port_manager pm s)
      else monitor currentTimestamp (kept ++ [p]) l s
  end.

Definition monitorProcesses (currentTimestamp : Z) (s : t) : outcome t := monitor currentTimestamp [] (m_processList s) s.

Definition discoveryUpdate (s : t) : outcome t :=
  let* pm := PortManager.doDiscovery b sizeof_registry alignof_registry lock_held (m_portManager s) in
  Done (set_port_manager pm s).

Definition run (now : Z) (s : t) : outcome t := let* s := monitorProcesses now s in discoveryUpdate s.

(** ** Shutdown of the processes *)

Definition ESRCH : Z := 3.

(** [evaluateKillError] reports the same error for every error number. *)
Definition requestShutdownOfProcess (p : Process.t) (policy : ShutdownPolicy) (s : t) : bool * t :=
  if kill (Process.m_pid p) policy =? 0 then (true, s)
  else (false, report POSH__ROUDI_PROCESS_SHUTDOWN_FAILED SEVERE s).

Definition requestShutdownOfAllProcesses (s : t) : outcome t :=
  let s := foldl (fun s p => snd (requestShutdownOfProcess p SIG_TERM s)) s (m_processList s) in
  let* pm := PortManager.unblockRouDiShutdown b sizeof_registry alignof_registry (m_portManager s) in
  Done (set_port_manager pm s).

(** The check sends SIGTERM; only [ESRCH] means that the process is gone. *)
Definition isProcessAlive (p : Process.t) (s : t) : bool * t :=
  let errnum := kill (Process.m_pid p) SIG_TERM in
  if errnum =? 0 then (true, s)
  else if errnum =? ESRCH then (false, s)
  else (true, report POSH__ROUDI_PROCESS_SHUTDOWN_FAILED SEVERE s).

Fixpoint any_alive (l : list Process.t) (s : t) : bool * t :=
  match l with
  | [] => (false, s)
  | p :: l => let '(alive, s) := isProcessAlive p s in if alive : bool then (true, s) else any_alive l s
  end.
Definition isAnyRegisteredProcessStillRunning (s : t) : bool * t := any_alive (m_processList s) s.

Definition killAllProcesses (s : t) : t :=
  foldl (fun s p => snd (requestShutdownOfProcess p SIG_KILL s)) s (m_processList s).

Definition printWarningForRegisteredProcessesAndClearProcessList (s : t) : t := set_processes [] s.

(** ** Requests of processes *)

(** The answer to a request that creates an object: [Some o] or the error. *)
Definition answer (name : string) (type : IpcMessageType.t) (mk_object : nat -> object)
    (errors : PortPoolError -> IpcMessage.t) (r : expected nat PortPoolError) (pm : PortManager.t) (s : t) : t :=
  let s := set_port_manager pm s in
  match r with
  | success i => sendViaIpcChannel name (ack type (mk_object i)) s
  | error e => sendViaIpcChannel name (errors e) s
  end.

Definition addInterfaceForProcess (name : string) (interface : Interfaces.t) (s : t) : outcome t :=
  match findProcess name s with
  | None => Done s
  | Some _ =>
      let* '(port, pm) := PortManager.acquireInterfacePortData b interface name (m_portManager s) in
      let o := match port with Some i => Interface i | None => Null end in
      Done (sendViaIpcChannel name (ack IpcMessageType.CREATE_INTERFACE_ACK o) (set_port_manager pm s))
  end.

Definition addNodeForProcess (name nodeName : string) (s : t) : outcome t :=
  match findProcess name s with
  | None => Done s
  | Some _ =>
      let '(r, pm) := PortManager.acquireNodeData name nodeName (m_portManager s) in
      let errors e :=
        match e with
        | NODE_DATA_LIST_FULL => failure IpcMessageErrorType.NODE_DATA_LIST_FULL
        | _ => IpcMessage.ctor [IpcMessageTypeToString IpcMessageType.ERROR]
        end in
      Done (answer name IpcMessageType.CREATE_NODE_ACK Node errors r pm s)
  end.

Definition sendMessageNotSupportedToRuntime (name : string) (s : t) : t :=
  match findProcess name s with
  | None => s
  | Some _ =>
      sendViaIpcChannel name (IpcMessage.ctor [IpcMessageTypeToString IpcMessageType.MESSAGE_NOT_SUPPORTED]) s
  end.

Definition addSubscriberForProcess (name : string) (service : ServiceDescription.t) (options : SubscriberOptions.t) (s : t)
    : outcome t :=
  match findProcess name s with
  | None => Done s
  | Some _ =>
      let* '(r, pm) := PortManager.acquireSubscriberPortData b service options name (m_portManager s) in
      Done (answer name IpcMessageType.CREATE_SUBSCRIBER_ACK Subscriber
              (fun _ => failure IpcMessageErrorType.SUBSCRIBER_LIST_FULL) r pm s)
  end.

Definition addPublisherForProcess (name : string) (service : ServiceDescription.t) (options : PublisherOptions.t) (s : t)
    : outcome t :=
  match findProcess name s with
  | None => Done s
  | Some process =>
      match getSegmentInformationWithWriteAccessForUser (groups_of (Process.m_user process)) segments with
      | None => Done (sendViaIpcChannel name (failure IpcMessageErrorType.REQUEST_PUBLISHER_NO_WRITABLE_SHM_SEGMENT) s)
      | Some memoryManager =>
          let* '(r, pm) := PortManager.acquirePublisherPortData b sizeof_registry alignof_registry lock_held service options
                             name memoryManager (m_portManager s) in
          let errors e :=
            match e with
            | UNIQUE_PUBLISHER_PORT_ALREADY_EXISTS => failure IpcMessageErrorType.NO_UNIQUE_CREATED
            | INTERNAL_SERVICE_DESCRIPTION_IS_FORBIDDEN =>
                failure IpcMessageErrorType.INTERNAL_SERVICE_DESCRIPTION_IS_FORBIDDEN
            | _ => failure IpcMessageErrorType.PUBLISHER_LIST_FULL
            end in
          Done (answer name IpcMessageType.CREATE_PUBLISHER_ACK Publisher errors r pm s)
      end
  end.

Definition addClientForProcess (name : string) (service : ServiceDescription.t) (options : ClientOptions.t) (s : t)
    : outcome t :=
  match findProcess name s with
  | None => Done s
  | Some process =>
      match getSegmentInformationWithWriteAccessForUser (groups_of (Process.m_user process)) segments with
      | None => Done (sendViaIpcChannel name (failure IpcMessageErrorType.REQUEST_CLIENT_NO_WRITABLE_SHM_SEGMENT) s)
      | Some memoryManager =>
          let* '(r, pm) := PortManager.acquireClientPortData b service options name memoryManager (m_portManager s) in
          Done (answer name IpcMessageType.CREATE_CLIENT_ACK Client (fun _ => failure IpcMessageErrorType.CLIENT_LIST_FULL)
                  r pm s)
      end
  end.

Definition addServerForProcess (name : string) (service : ServiceDescription.t) (options : ServerOptions.t) (s : t)
    : outcome t :=
  match findProcess name s with
  | None => Done s
  | Some process =>
      match getSegmentInformationWithWriteAccessForUser (groups_of (Process.m_user process)) segments with
      | None => Done (sendViaIpcChannel name (failure IpcMessageErrorType.REQUEST_SERVER_NO_WRITABLE_SHM_SEGMENT) s)
      | Some memoryManager =>
          let* '(r, pm) := PortManager.acquireServerPortData b sizeof_registry alignof_registry lock_held service options name
                             memoryManager (m_portManager s) in
          Done (answer name IpcMessageType.CREATE_SERVER_ACK Server (fun _ => failure IpcMessageErrorType.SERVER_LIST_FULL)
                  r pm s)
      end
  end.

Definition addConditionVariableForProcess (name : string) (s : t) : outcome t :=
  match findProcess name s with
  | None => Done s
  | Some _ =>
      let '(r, pm) := PortManager.acquireConditionVariableData b name (m_portManager s) in
      let errors e :=
        match e with
        | CONDITION_VARIABLE_LIST_FULL => failure IpcMessageErrorType.CONDITION_VARIABLE_LIST_FULL
        | _ => IpcMessage.ctor [IpcMessageTypeToString IpcMessageType.ERROR]
        end in
      Done (answer name IpcMessageType.CREATE_CONDITION_VARIABLE_ACK ConditionVar errors r pm s)
  end.

(** ** [RouDi::processMessage] *)

Definition getUniqueSessionIdForProcess (s : t) : Z * t :=
  let id := u64 (sessionId s + 1) in (id, mk (m_portManager s) (m_processList s) (outbox s) id).

(** [break] after a failed deserialization: no answer. *)
Definition with_description {O} (message : IpcMessage.t) (parse_options : string -> outcome (expected O Serialization.Error))
    (k : ServiceDescription.t -> O -> t -> outcome t) (s : t) : outcome t :=
  let* service := ServiceDescriptionText.deserialize (IpcMessage.getElementAtIndex 2 message) in
  match service with
  | error _ => Done s
  | success service =>
      let* options := parse_options (IpcMessage.getElementAtIndex 3 message) in
      match options with
      | error _ => Done s
      | success options =>
          let* _ := PortConfigInfo.of_serialization (IpcMessage.getElementAtIndex 4 message) in
          k service options s
      end
  end.

(** [if (message.getNumberOfElements() != n) log; else ...] *)
Definition with_elements (n : Z) (message : IpcMessage.t) (k : t -> outcome t) (s : t) : outcome t :=
  if negb (IpcMessage.getNumberOfElements message =? n) then Done s else k s.

Definition drop_result {A} (x : outcome (A * t)) : outcome t := let* '(_, s) := x in Done s.

Definition register (now : Z) (message : IpcMessage.t) (runtimeName : string) (s : t) : outcome t :=
  let pid := default 0 (convert.fromString_uint32 (c_str (IpcMessage.getElementAtIndex 2 message))) in
  let userId := default 0 (convert.fromString_uint32 (c_str (IpcMessage.getElementAtIndex 3 message))) in
  let transmissionTimestamp := default 0 (convert.fromString_int64 (c_str (IpcMessage.getElementAtIndex 4 message))) in
  let* versionInfo := VersionInfo.of_serialization (IpcMessage.getElementAtIndex 5 message) in
  let '(session, s) := getUniqueSessionIdForProcess s in
  drop_result (registerProcess now runtimeName pid userId m_monitoringMode transmissionTimestamp session versionInfo s).

Definition processMessage (now : Z) (message : IpcMessage.t) (cmd : IpcMessageType.t) (runtimeName : string) (s : t)
    : outcome t :=
  match cmd with
  | IpcMessageType.REG => with_elements 6 message (register now message runtimeName) s
  | IpcMessageType.CREATE_PUBLISHER =>
      with_elements 5 message
        (with_description message PublisherOptionsText.deserialize (addPublisherForProcess runtimeName)) s
  | IpcMessageType.CREATE_SUBSCRIBER =>
      with_elements 5 message
        (with_description message SubscriberOptionsText.deserialize (addSubscriberForProcess runtimeName)) s
  | IpcMessageType.CREATE_CLIENT =>
      with_elements 5 message
        (with_description message ClientOptionsText.deserialize (addClientForProcess runtimeName)) s
  | IpcMessageType.CREATE_SERVER =>
      with_elements 5 message
        (with_description message ServerOptionsText.deserialize (addServerForProcess runtimeName)) s
  | IpcMessageType.CREATE_CONDITION_VARIABLE => with_elements 2 message (addConditionVariableForProcess runtimeName) s
  | IpcMessageType.CREATE_INTERFACE =>
      with_elements 4 message (fun s =>
        match StringToCaProInterface (str_take MAX_NAME_LENGTH (IpcMessage.getElementAtIndex 2 message)) with
        | Some interface => addInterfaceForProcess runtimeName interface s
        | None => Terminated UNDEFINED_BEHAVIOUR
        end) s
  | IpcMessageType.CREATE_NODE =>
      with_elements 3 message (fun s =>
        let* nodeProperty := NodeProperty.of_serialization (IpcMessage.getElementAtIndex 2 message) in
        addNodeForProcess runtimeName (NodeProperty.m_name nodeProperty) s) s
  | IpcMessageType.KEEPALIVE => Done (updateLivelinessOfProcess now runtimeName s)
  | IpcMessageType.PREPARE_APP_TERMINATION =>
      with_elements 2 message (handleProcessShutdownPreparationRequest runtimeName) s
  | IpcMessageType.TERMINATION => with_elements 2 message (fun s => drop_result (unregisterProcess runtimeName s)) s
  | _ => Done (sendMessageNotSupportedToRuntime runtimeName s)
  end.

(** One round of [processRuntimeMessages] with a received text. *)
Definition processRuntimeMessage (now : Z) (text : string) (s : t) : outcome t :=
  let '(valid, message) := IpcInterfaceBase.setMessageFromString text in
  if negb valid then Done s
  else
    let cmd := stringToIpcMessageType (c_str (IpcMessage.getElementAtIndex 0 message)) in
    let runtimeName := str_take MAX_NAME_LENGTH (c_str (IpcMessage.getElementAtIndex 1 message)) in
    processMessage now message cmd runtimeName s.
End ops.
End RouDi.
