(* ===== verification/PoshRuntime.v ===== *)
(** * The runtime of an application

    [ipc_runtime_interface.cpp] and [posh_runtime_impl.cpp]: an application
    registers at RouDi and asks it for ports, nodes and condition variables by
    IPC messages.  RouDi is the state of [RouDi]; a request is executed by one
    round of its message loop before the runtime reads the answer. *)

From S2P Require Import Prelude ChunkHeader MemoryManager SharedChunk Queue VariantQueue ConditionVariable.
From S2P Require Import ChunkQueue ChunkDistributor ChunkSender CaPro PubSubPorts ClientServerPorts RelativePointer.
From S2P Require Import ServiceRegistry PortPool PortManager Serialization IpcMessage RouDi.
From Stdlib Require Import Ascii String.

(** ** Registration *)

Module IpcRuntimeInterface.
Inductive RegState := WAIT_FOR_ROUDI | SEND_REGISTER_REQUEST | WAIT_FOR_REGISTER_ACK | FINISHED.
Inductive RegAckResult := SUCCESS | TIMEOUT.

Record t := mk {
  m_runtimeName : string;
  regState : RegState;
  transmissionTimestamp : Z;
  m_shmTopicSize : Z;
  m_segmentManagerAddressOffset : option Z;
  m_segmentId : Z }.

Definition start (name : string) : t := mk name WAIT_FOR_ROUDI 0 0 None 0.

Definition set_state (v : RegState) (s : t) : t :=
  mk (m_runtimeName s) v (transmissionTimestamp s) (m_shmTopicSize s) (m_segmentManagerAddressOffset s) (m_segmentId s).
Definition set_timestamp (v : Z) (s : t) : t :=
  mk (m_runtimeName s) (regState s) v (m_shmTopicSize s) (m_segmentManagerAddressOffset s) (m_segmentId s).
Definition set_segment (topicSize offset id : Z) (s : t) : t :=
  mk (m_runtimeName s) (regState s) (transmissionTimestamp s) topicSize (Some offset) id.

(** What happens in one round of the loop of the constructor: whether RouDi's
    channel is open at its start, whether it is after [waitForRoudi], the clock,
    whether the request is sent, and the messages received in the three attempts
    to get an answer ([None]: timeout). *)
Record Round := mkRound {
  channelOpen : bool;
  channelFound : bool;
  clock : Z;
  requestSent : bool;
  received : list (option string) }.

Definition register_request (pid user : Z) (version : VersionInfo.t) (s : t) : IpcMessage.t :=
  IpcMessage.ctor [IpcMessageTypeToString IpcMessageType.REG; m_runtimeName s; convert.toString pid; convert.toString user;
                   convert.toString (transmissionTimestamp s); VersionInfo.serialize version].

Definition number_at (i : nat) (m : IpcMessage.t) (old : Z) : Z :=
  default old (convert.fromString_uint64 (c_str (IpcMessage.getElementAtIndex i m))).

(** [waitForRegAck]; [attempts] are what [timedReceive] gives. *)
Fixpoint waitForRegAck (transmissionTimestamp : Z) (attempts : list (option string)) (s : t)
    : outcome (RegAckResult * t) :=
  match attempts with
  | [] => Done (TIMEOUT, s)
  | None :: attempts => waitForRegAck transmissionTimestamp attempts s
  | Some text :: attempts =>
      let '(valid, receiveBuffer) := IpcInterfaceBase.setMessageFromString text in
      if negb valid then waitForRegAck transmissionTimestamp attempts s
      else if bool_decide (stringToIpcMessageType (c_str (IpcMessage.getElementAtIndex 0 receiveBuffer))
                           = IpcMessageType.REG_ACK) then
        if negb (IpcMessage.getNumberOfElements receiveBuffer =? 5)
        then Terminated IPC_INTERFACE__REG_ACK_INVALIG_NUMBER_OF_PARAMS
        else
          let s := set_segment (number_at 1 receiveBuffer (m_shmTopicSize s)) (number_at 2 receiveBuffer 0)
                     (number_at 4 receiveBuffer (m_segmentId s)) s in
          let receivedTimestamp :=
            default 0 (convert.fromString_int64 (c_str (IpcMessage.getElementAtIndex 3 receiveBuffer))) in
          if transmissionTimestamp =? receivedTimestamp then Done (SUCCESS, s)
          else waitForRegAck transmissionTimestamp attempts s
      else waitForRegAck transmissionTimestamp attempts s
  end.

(** One round of the loop. *)
Definition round (r : Round) (s : t) : outcome t :=
  let s := if negb (channelOpen r) then set_state WAIT_FOR_ROUDI s else s in
  match regState s with
  | WAIT_FOR_ROUDI => Done (if channelFound r then set_state SEND_REGISTER_REQUEST s else s)
  | SEND_REGISTER_REQUEST =>
      let s := set_timestamp (clock r) s in
      Done (set_state (if requestSent r then WAIT_FOR_REGISTER_ACK else WAIT_FOR_ROUDI) s)
  | WAIT_FOR_REGISTER_ACK =>
      let* '(result, s) := waitForRegAck (transmissionTimestamp s) (firstn 3 (received r)) s in
      Done (set_state (match result with SUCCESS => FINISHED | TIMEOUT => WAIT_FOR_ROUDI end) s)
  | FINISHED => Done s
  end.

(** The loop, until it has finished or, at the end of the list, the timer has
    expired. *)
Fixpoint rounds (l : list Round) (s : t) : outcome t :=
  match regState s, l with
  | FINISHED, _ | _, [] => Done s
  | _, r :: l => let* s := round r s in rounds l s
  end.

Definition ctor (name : string) (l : list Round) : outcome t :=
  let* s := rounds l (start name) in
  match regState s with
  | WAIT_FOR_ROUDI => Terminated IPC_INTERFACE__REG_ROUDI_NOT_AVAILABLE
  | SEND_REGISTER_REQUEST => Terminated IPC_INTERFACE__REG_UNABLE_TO_WRITE_TO_ROUDI_CHANNEL
  | WAIT_FOR_REGISTER_ACK => Terminated IPC_INTERFACE__REG_ACK_NO_RESPONSE
  | FINISHED => Done s
  end.
End IpcRuntimeInterface.

(** ** Requests *)

Module PoshRuntime.

(** [errors]: what the error handler of the application was called with. *)
Record t := mk {
  m_appName : string;
  repository : PointerRepository.t;
  errors : list (Error * ErrorLevel) }.

Definition report (e : Error) (l : ErrorLevel) (a : t) : t := mk (m_appName a) (repository a) (errors a ++ [(e, l)]).

Section ops.
Context (b : Build).
(** [roudi text s]: RouDi executes the message [text] in state [s]. *)
Context {R : Type} (roudi : string -> R -> outcome R).
(** The oldest message in the channel of an application. *)
Context (inbox : string -> R -> option (string * R)).

Definition sendRequestToRouDi (msg : IpcMessage.t) (a : t) (r : R) : outcome (option IpcMessage.t * R) :=
  match IpcInterfaceBase.send IpcInterfaceBase.ROUDI_MESSAGE_SIZE msg with
  | None => Done (None, r)
  | Some text =>
      let* r := roudi text r in
      match inbox (m_appName a) r with
      | None => Terminated DOES_NOT_RETURN
      | Some (text, r) =>
          let '(valid, answer) := IpcInterfaceBase.setMessageFromString text in
          Done (if valid : bool then Some answer else None, r)
      end
  end.

(** The pointer in an acknowledgement. *)
Definition pointer (receiveBuffer : IpcMessage.t) (a : t) : Z :=
  let segmentId := default 0 (convert.fromString_uint64 (c_str (IpcMessage.getElementAtIndex 2 receiveBuffer))) in
  let offset := default 0 (convert.fromString_uint64 (c_str (IpcMessage.getElementAtIndex 1 receiveBuffer))) in
  BaseRelativePointer.getPtr (repository a) segmentId offset.

Definition has_type (i : IpcMessageType.t) (m : IpcMessage.t) : bool :=
  bool_decide (stringToIpcMessageType (c_str (IpcMessage.getElementAtIndex 0 m)) = i).

(** The body that [requestPublisherFromRoudi] and its variants share; they
    differ in the type of the acknowledgement and in two error values. *)
Definition request (ackType : IpcMessageType.t) (invalid wrong : IpcMessageErrorType.t) (sendBuffer : IpcMessage.t) (a : t)
    (r : R) : outcome (expected Z IpcMessageErrorType.t * R) :=
  let* '(receiveBuffer, r) := sendRequestToRouDi sendBuffer a r in
  Done match receiveBuffer with
  | None => (error invalid, r)
  | Some m =>
      if (IpcMessage.getNumberOfElements m =? 3) && has_type ackType m then (success (pointer m a), r)
      else if (IpcMessage.getNumberOfElements m =? 2) && has_type IpcMessageType.ERROR m
      then (error (stringToIpcMessageErrorType (c_str (IpcMessage.getElementAtIndex 1 m))), r)
      else (error wrong, r)
  end.

Definition requestPublisherFromRoudi :=
  request IpcMessageType.CREATE_PUBLISHER_ACK IpcMessageErrorType.REQUEST_PUBLISHER_INVALID_RESPONSE
    IpcMessageErrorType.REQUEST_PUBLISHER_WRONG_IPC_MESSAGE_RESPONSE.
Definition requestSubscriberFromRoudi :=
  request IpcMessageType.CREATE_SUBSCRIBER_ACK IpcMessageErrorType.REQUEST_SUBSCRIBER_INVALID_RESPONSE
    IpcMessageErrorType.REQUEST_SUBSCRIBER_WRONG_IPC_MESSAGE_RESPONSE.
Definition requestClientFromRoudi :=
  request IpcMessageType.CREATE_CLIENT_ACK IpcMessageErrorType.REQUEST_CLIENT_INVALID_RESPONSE
    IpcMessageErrorType.REQUEST_CLIENT_WRONG_IPC_MESSAGE_RESPONSE.
Definition requestServerFromRoudi :=
  request IpcMessageType.CREATE_SERVER_ACK IpcMessageErrorType.REQUEST_SERVER_INVALID_RESPONSE
    IpcMessageErrorType.REQUEST_SERVER_WRONG_IPC_MESSAGE_RESPONSE.
Definition requestConditionVariableFromRoudi :=
  request IpcMessageType.CREATE_CONDITION_VARIABLE_ACK IpcMessageErrorType.REQUEST_CONDITION_VARIABLE_INVALID_RESPONSE
    IpcMessageErrorType.REQUEST_CONDITION_VARIABLE_WRONG_IPC_MESSAGE_RESPONSE.

(** The end of the [getMiddleware] functions: the error that is reported for an
    error value, and the null pointer. *)
Definition finish (errors : IpcMessageErrorType.t -> Error) (x : outcome (expected Z IpcMessageErrorType.t * R)) (a : t)
    : outcome (Z * t * R) :=
  let* '(maybe, r) := x in
  Done match maybe with
  | error e => (0, report (errors e) SEVERE a, r)
  | success p => (p, a, r)
  end.

Definition create_message (type : IpcMessageType.t) (service options : string) (portConfigInfo : PortConfigInfo.t) (a : t)
    : IpcMessage.t :=
  IpcMessage.ctor [IpcMessageTypeToString type; m_appName a; service; options; PortConfigInfo.serialize portConfigInfo].

Definition publisher_error (e : IpcMessageErrorType.t) : Error :=
  match e with
  | IpcMessageErrorType.NO_UNIQUE_CREATED => POSH__RUNTIME_PUBLISHER_PORT_NOT_UNIQUE
  | IpcMessageErrorType.INTERNAL_SERVICE_DESCRIPTION_IS_FORBIDDEN => POSH__RUNTIME_SERVICE_DESCRIPTION_FORBIDDEN
  | IpcMessageErrorType.PUBLISHER_LIST_FULL => POSH__RUNTIME_ROUDI_PUBLISHER_LIST_FULL
  | IpcMessageErrorType.REQUEST_PUBLISHER_INVALID_RESPONSE => POSH__RUNTIME_ROUDI_REQUEST_PUBLISHER_INVALID_RESPONSE
  | IpcMessageErrorType.REQUEST_PUBLISHER_WRONG_IPC_MESSAGE_RESPONSE =>
      POSH__RUNTIME_ROUDI_REQUEST_PUBLISHER_WRONG_IPC_MESSAGE_RESPONSE
  | IpcMessageErrorType.REQUEST_PUBLISHER_NO_WRITABLE_SHM_SEGMENT => POSH__RUNTIME_NO_WRITABLE_SHM_SEGMENT
  | _ => POSH__RUNTIME_PUBLISHER_PORT_CREATION_UNKNOWN_ERROR
  end.

(** The limited [options] are computed, but [publisherOptions] are sent. *)
Definition getMiddlewarePublisher (service : ServiceDescription.t) (publisherOptions : PublisherOptions.t)
    (portConfigInfo : PortConfigInfo.t) (a : t) (r : R) : outcome (Z * t * R) :=
  let sendBuffer := create_message IpcMessageType.CREATE_PUBLISHER (ServiceDescriptionText.serialize service)
                      (PublisherOptionsText.serialize publisherOptions) portConfigInfo a in
  finish publisher_error (requestPublisherFromRoudi sendBuffer a r) a.

Definition subscriber_error (e : IpcMessageErrorType.t) : Error :=
  match e with
  | IpcMessageErrorType.SUBSCRIBER_LIST_FULL => POSH__RUNTIME_ROUDI_SUBSCRIBER_LIST_FULL
  | IpcMessageErrorType.REQUEST_SUBSCRIBER_INVALID_RESPONSE => POSH__RUNTIME_ROUDI_REQUEST_SUBSCRIBER_INVALID_RESPONSE
  | IpcMessageErrorType.REQUEST_SUBSCRIBER_WRONG_IPC_MESSAGE_RESPONSE =>
      POSH__RUNTIME_ROUDI_REQUEST_SUBSCRIBER_WRONG_IPC_MESSAGE_RESPONSE
  | _ => POSH__RUNTIME_SUBSCRIBER_PORT_CREATION_UNKNOWN_ERROR
  end.

(** The options that are sent. *)
Definition limit_subscriber (o : SubscriberOptions.t) (a : t) : SubscriberOptions.t :=
  let MAX_QUEUE_CAPACITY := MAX_SUBSCRIBER_QUEUE_CAPACITY b in
  let queueCapacity :=
    if MAX_QUEUE_CAPACITY <? SubscriberOptions.queueCapacity o then MAX_QUEUE_CAPACITY
    else if SubscriberOptions.queueCapacity o =? 0 then 1 else SubscriberOptions.queueCapacity o in
  let historyRequest :=
    if SubscriberOptions.queueCapacity o <? SubscriberOptions.historyRequest o then SubscriberOptions.queueCapacity o
    else SubscriberOptions.historyRequest o in
  let nodeName :=
    match SubscriberOptions.nodeName o with EmptyString => m_appName a | n => n end in
  SubscriberOptions.mk queueCapacity historyRequest nodeName (SubscriberOptions.subscribeOnCreate o)
    (SubscriberOptions.queueFullPolicy o) (SubscriberOptions.requiresPublisherHistorySupport o).

Definition getMiddlewareSubscriber (service : ServiceDescription.t) (subscriberOptions : SubscriberOptions.t)
    (portConfigInfo : PortConfigInfo.t) (a : t) (r : R) : outcome (Z * t * R) :=
  let options := limit_subscriber subscriberOptions a in
  let sendBuffer := create_message IpcMessageType.CREATE_SUBSCRIBER (ServiceDescriptionText.serialize service)
                      (SubscriberOptionsText.serialize options) portConfigInfo a in
  finish subscriber_error (requestSubscriberFromRoudi sendBuffer a r) a.

Definition client_error (e : IpcMessageErrorType.t) : Error :=
  match e with
  | IpcMessageErrorType.CLIENT_LIST_FULL => POSH__RUNTIME_ROUDI_OUT_OF_CLIENTS
  | IpcMessageErrorType.REQUEST_CLIENT_INVALID_RESPONSE => POSH__RUNTIME_ROUDI_REQUEST_CLIENT_INVALID_RESPONSE
  | IpcMessageErrorType.REQUEST_CLIENT_WRONG_IPC_MESSAGE_RESPONSE =>
      POSH__RUNTIME_ROUDI_REQUEST_CLIENT_WRONG_IPC_MESSAGE_RESPONSE
  | IpcMessageErrorType.REQUEST_CLIENT_NO_WRITABLE_SHM_SEGMENT => POSH__RUNTIME_NO_WRITABLE_SHM_SEGMENT
  | _ => POSH__RUNTIME_CLIENT_PORT_CREATION_UNKNOWN_ERROR
  end.

Definition limit_capacity (MAX_QUEUE_CAPACITY capacity : Z) : Z :=
  if MAX_QUEUE_CAPACITY <? capacity then MAX_QUEUE_CAPACITY else if capacity =? 0 then 1 else capacity.

Definition limit_client (o : ClientOptions.t) : ClientOptions.t :=
  ClientOptions.mk (limit_capacity MAX_RESPONSE_QUEUE_CAPACITY (ClientOptions.responseQueueCapacity o))
    (ClientOptions.nodeName o) (ClientOptions.connectOnCreate o) (ClientOptions.responseQueueFullPolicy o)
    (ClientOptions.serverTooSlowPolicy o).

Definition getMiddlewareClient (service : ServiceDescription.t) (clientOptions : ClientOptions.t)
    (portConfigInfo : PortConfigInfo.t) (a : t) (r : R) : outcome (Z * t * R) :=
  let options := limit_client clientOptions in
  let sendBuffer := create_message IpcMessageType.CREATE_CLIENT (ServiceDescriptionText.serialize service)
                      (ClientOptionsText.serialize options) portConfigInfo a in
  finish client_error (requestClientFromRoudi sendBuffer a r) a.

Definition server_error (e : IpcMessageErrorType.t) : Error :=
  match e with
  | IpcMessageErrorType.SERVER_LIST_FULL => POSH__RUNTIME_ROUDI_OUT_OF_SERVERS
  | IpcMessageErrorType.REQUEST_SERVER_INVALID_RESPONSE => POSH__RUNTIME_ROUDI_REQUEST_SERVER_INVALID_RESPONSE
  | IpcMessageErrorType.REQUEST_SERVER_WRONG_IPC_MESSAGE_RESPONSE =>
      POSH__RUNTIME_ROUDI_REQUEST_SERVER_WRONG_IPC_MESSAGE_RESPONSE
  | IpcMessageErrorType.REQUEST_SERVER_NO_WRITABLE_SHM_SEGMENT => POSH__RUNTIME_NO_WRITABLE_SHM_SEGMENT
  | _ => POSH__RUNTIME_SERVER_PORT_CREATION_UNKNOWN_ERROR
  end.

Definition limit_server (o : ServerOptions.t) : ServerOptions.t :=
  ServerOptions.mk (limit_capacity MAX_REQUEST_QUEUE_CAPACITY (ServerOptions.requestQueueCapacity o))
    (ServerOptions.nodeName o) (ServerOptions.offerOnCreate o) (ServerOptions.requestQueueFullPolicy o)
    (ServerOptions.clientTooSlowPolicy o).

Definition getMiddlewareServer (service : ServiceDescription.t) (serverOptions : ServerOptions.t)
    (portConfigInfo : PortConfigInfo.t) (a : t) (r : R) : outcome (Z * t * R) :=
  let options := limit_server serverOptions in
  let sendBuffer := create_message IpcMessageType.CREATE_SERVER (ServiceDescriptionText.serialize service)
                      (ServerOptionsText.serialize options) portConfigInfo a in
  finish server_error (requestServerFromRoudi sendBuffer a r) a.

(** [getMiddlewareInterface] and [createNode] take only the acknowledgement. *)
Definition request_object (ackType : IpcMessageType.t) (invalid wrong : Error) (sendBuffer : IpcMessage.t) (a : t) (r : R)
    : outcome (Z * t * R) :=
  let* '(receiveBuffer, r) := sendRequestToRouDi sendBuffer a r in
  Done match receiveBuffer with
  | None => (0, report invalid SEVERE a, r)
  | Some m =>
      if (IpcMessage.getNumberOfElements m =? 3) && has_type ackType m then (pointer m a, a, r)
      else (0, report wrong SEVERE a, r)
  end.

Definition getMiddlewareInterface (interface : Interfaces.t) (nodeName : string) (a : t) (r : R) : outcome (Z * t * R) :=
  let sendBuffer := IpcMessage.ctor [IpcMessageTypeToString IpcMessageType.CREATE_INTERFACE; m_appName a;
                                     convert.toString (Interfaces.value interface); nodeName] in
  request_object IpcMessageType.CREATE_INTERFACE_ACK POSH__RUNTIME_ROUDI_GET_MW_INTERFACE_INVALID_RESPONSE
    POSH__RUNTIME_ROUDI_GET_MW_INTERFACE_WRONG_IPC_MESSAGE_RESPONSE sendBuffer a r.

Definition createNode (nodeProperty : NodeProperty.t) (a : t) (r : R) : outcome (Z * t * R) :=
  let sendBuffer := IpcMessage.ctor [IpcMessageTypeToString IpcMessageType.CREATE_NODE; m_appName a;
                                     NodeProperty.serialize nodeProperty] in
  request_object IpcMessageType.CREATE_NODE_ACK POSH__RUNTIME_ROUDI_CREATE_NODE_INVALID_RESPONSE
    POSH__RUNTIME_ROUDI_CREATE_NODE_WRONG_IPC_MESSAGE_RESPONSE sendBuffer a r.

Definition condition_variable_error (e : IpcMessageErrorType.t) : Error :=
  match e with
  | IpcMessageErrorType.CONDITION_VARIABLE_LIST_FULL => POSH__RUNTIME_ROUDI_CONDITION_VARIABLE_LIST_FULL
  | IpcMessageErrorType.REQUEST_CONDITION_VARIABLE_INVALID_RESPONSE =>
      POSH__RUNTIME_ROUDI_REQUEST_CONDITION_VARIABLE_INVALID_RESPONSE
  | IpcMessageErrorType.REQUEST_CONDITION_VARIABLE_WRONG_IPC_MESSAGE_RESPONSE =>
      POSH__RUNTIME_ROUDI_REQUEST_CONDITION_VARIABLE_WRONG_IPC_MESSAGE_RESPONSE
  | _ => POSH__RUNTIME_ROUDI_CONDITION_VARIABLE_CREATION_UNKNOWN_ERROR
  end.

Definition getMiddlewareConditionVariable (a : t) (r : R) : outcome (Z * t * R) :=
  let sendBuffer := IpcMessage.ctor [IpcMessageTypeToString IpcMessageType.CREATE_CONDITION_VARIABLE; m_appName a] in
  finish condition_variable_error (requestConditionVariableFromRoudi sendBuffer a r) a.

(** The destructor and the shutdown preparation: the answer is only logged. *)
Definition dtor (a : t) (r : R) : outcome R :=
  let* '(_, r) := sendRequestToRouDi
                    (IpcMessage.ctor [IpcMessageTypeToString IpcMessageType.TERMINATION; m_appName a]) a r in
  Done r.

Definition sendKeepAliveAndHandleShutdownPreparation (m_shutdownRequested : bool) (a : t) (r : R) : outcome R :=
  let keepalive := IpcMessage.ctor [IpcMessageTypeToString IpcMessageType.KEEPALIVE; m_appName a] in
  let* r := match IpcInterfaceBase.send IpcInterfaceBase.ROUDI_MESSAGE_SIZE keepalive with
            | Some text => roudi text r
            | None => Done r
            end in
  if m_shutdownRequested then
    let* '(_, r) := sendRequestToRouDi
                      (IpcMessage.ctor [IpcMessageTypeToString IpcMessageType.PREPARE_APP_TERMINATION; m_appName a]) a r in
    Done r
  else Done r.
End ops.
End PoshRuntime.
