(* ===== verification/Ownership.v ===== *)
(** * Ownership

    Every port, node and condition variable belongs to the application it was
    created for.  This file follows the owners through the operations of
    [PortManager] and [RouDi]: an object belongs to RouDi or to a registered
    application, and the objects of an application that terminates, registers
    again or stops to send signs of life are removed, and only those. *)

From S2P Require Import Prelude ChunkHeader MemoryManager SharedChunk UsedChunkList Queue VariantQueue ConditionVariable.
From S2P Require Import ChunkQueue ChunkDistributor ChunkSender CaPro PubSubPorts ClientServerPorts RelativePointer.
From S2P Require Import ServiceRegistry PortPool PortManager Discovery Serialization IpcMessage RouDi.

(** ** The owners of the objects *)

Inductive table := Publishers | Subscribers | Servers | Clients | InterfacePorts | Nodes | ConditionVariables.

#[global] Instance table_eq_dec : EqDecision table.
Proof. solve_decision. Defined.

Definition row {A} (f : A -> string) (l : list (option A)) (i : nat) : option string :=
  match l !! i with Some (Some x) => Some (f x) | _ => None end.

Definition name_of (base : BasePortData.t) : string := BasePortData.m_runtimeName base.

Definition owner (s : PortManager.t) (t : table) (i : nat) : option string :=
  match t with
  | Publishers => row (fun p => name_of (PublisherPortData.base p)) (PortManager.publishers s) i
  | Subscribers => row (fun p => name_of (SubscriberPortData.base p)) (PortManager.subscribers s) i
  | Servers => row (fun p => name_of (ServerPortData.base p)) (PortManager.servers s) i
  | Clients => row (fun p => name_of (ClientPortData.base p)) (PortManager.clients s) i
  | InterfacePorts => row (fun p => name_of (InterfacePortData.base p)) (PortManager.interfaces s) i
  | Nodes => row NodeData.m_runtimeName (PortManager.nodes s) i
  | ConditionVariables => row ConditionVariableInfo.m_runtimeName (PortManager.condition_variables s) i
  end.

(** The same objects with the same owners. *)
Definition same (s s' : PortManager.t) : Prop := forall t i, owner s' t i = owner s t i.
(** No new object, no new owner. *)
Definition shrinks (s s' : PortManager.t) : Prop := forall t i r, owner s' t i = Some r -> owner s t i = Some r.
(** The object [i] of table [t] is gone, and only that. *)
Definition erased (t : table) (i : nat) (s s' : PortManager.t) : Prop :=
  forall t' i', owner s' t' i' = if decide (t' = t /\ i' = i) then None else owner s t' i'.
(** Only objects of [rt] are new. *)
Definition grows (rt : string) (s s' : PortManager.t) : Prop :=
  forall t i r, owner s' t i = Some r -> owner s t i = Some r \/ r = rt.

#[global] Instance same_equiv : Equivalence same.
Proof.
  split.
  - intros s t i. reflexivity.
  - intros s s' H t i. symmetry. apply H.
  - intros s1 s2 s3 H1 H2 t i. etrans; [apply H2|apply H1].
Qed.

#[global] Instance shrinks_po : PreOrder shrinks.
Proof.
  split; [intros s t i r H; exact H|]. intros s1 s2 s3 H1 H2 t i r H. by apply H1, H2.
Qed.

#[global] Instance shrinks_proper : Proper (same ==> same ==> iff) shrinks.
Proof. intros s1 s2 H12 t1 t2 Ht. split; intros H t i r; [rewrite (Ht _ _), (H12 _ _)|rewrite <- (Ht _ _), <- (H12 _ _)]; apply H. Qed.

#[global] Instance grows_proper rt : Proper (same ==> same ==> iff) (grows rt).
Proof. intros s1 s2 H12 t1 t2 Ht. split; intros H t i r; [rewrite (Ht _ _), (H12 _ _)|rewrite <- (Ht _ _), <- (H12 _ _)]; apply H. Qed.

#[global] Instance erased_proper t i : Proper (same ==> same ==> iff) (erased t i).
Proof. intros s1 s2 H12 t1 t2 Ht. split; intros H t' i'; [rewrite (Ht _ _), (H12 _ _)|rewrite <- (Ht _ _), <- (H12 _ _)]; apply H. Qed.

Lemma same_shrinks s s' : same s s' -> shrinks s s'.
Proof. intros H t i r. by rewrite H. Qed.

Lemma erased_shrinks t i s s' : erased t i s s' -> shrinks s s'.
Proof. intros H t' i' r. rewrite H. by case_decide. Qed.

Lemma shrinks_grows rt s s' : shrinks s s' -> grows rt s s'.
Proof. intros H t i r Hr. left. by apply H. Qed.

Lemma grows_trans rt s1 s2 s3 : grows rt s1 s2 -> grows rt s2 s3 -> grows rt s1 s3.
Proof. intros H1 H2 t i r Hr. apply H2 in Hr as [Hr| ->]; [by apply H1|by right]. Qed.

#[export] Hint Resolve same_shrinks erased_shrinks shrinks_grows : owners.

(** ** Access to the tables *)

Lemma row_put {A} (f : A -> string) l i x j : row f l i = Some (f x) -> row f (<[i := Some x]> l) j = row f l j.
Proof.
  unfold row. intros H. destruct (decide (i = j)) as [->|]; [|by rewrite list_lookup_insert_ne].
  rewrite H, list_lookup_insert_eq; [done|]. destruct (l !! j) eqn:E; [by eapply lookup_lt_Some|done].
Qed.

Lemma row_get {A} (f : A -> string) l i x : FixedPositionContainer.get i l = Done x -> row f l i = Some (f x).
Proof. intros H. apply FixedPositionContainer.get_Done in H. unfold row. by rewrite H. Qed.

Lemma row_erase {A} (f : A -> string) l i j :
  row f (FixedPositionContainer.erase i l) j = if decide (j = i) then None else row f l j.
Proof.
  unfold row, FixedPositionContainer.erase. case_decide as E; [subst j|by rewrite list_lookup_insert_ne].
  destruct (decide (i < length l)%nat); [by rewrite list_lookup_insert_eq|].
  by rewrite lookup_ge_None_2 by (rewrite length_insert; lia).
Qed.

Lemma row_new {A} (f : A -> string) l i x : l !! i = Some None \/ i = length l ->
  forall j r, row f (FixedPositionContainer.put i (Some x) l) j = Some r -> row f l j = Some r \/ r = f x.
Proof.
  intros Hi j r. unfold row. rewrite FixedPositionContainer.lookup_put by done. case_decide as Hd; [|by left].
  intros Hr. simplify_eq. by right.
Qed.

(** Reading and writing ports in a state [s] with the owners of [s0]. *)
Section access.
Context (s0 s : PortManager.t) (Hs : same s0 s).

Lemma get_publisher_owner i p : PortManager.get_publisher i s = Done p -> owner s0 Publishers i = Some (name_of (PublisherPortData.base p)).
Proof. intros H. rewrite <- (Hs _ _). exact (row_get _ _ _ _ H). Qed.
Lemma put_publisher_owner i p w : owner s0 Publishers i = Some (name_of (PublisherPortData.base p)) -> same s0 (PortManager.put_publisher i p w s).
Proof. rewrite <- (Hs _ _). intros H [] j; rewrite <- (Hs _ _); try done. by apply (row_put (fun p => name_of (PublisherPortData.base p))). Qed.
Lemma get_subscriber_owner i p : PortManager.get_subscriber i s = Done p -> owner s0 Subscribers i = Some (name_of (SubscriberPortData.base p)).
Proof. intros H. rewrite <- (Hs _ _). exact (row_get _ _ _ _ H). Qed.
Lemma put_subscriber_owner i p w : owner s0 Subscribers i = Some (name_of (SubscriberPortData.base p)) -> same s0 (PortManager.put_subscriber i p w s).
Proof. rewrite <- (Hs _ _). intros H [] j; rewrite <- (Hs _ _); try done. by apply (row_put (fun p => name_of (SubscriberPortData.base p))). Qed.
Lemma get_server_owner i p : PortManager.get_server i s = Done p -> owner s0 Servers i = Some (name_of (ServerPortData.base p)).
Proof. intros H. rewrite <- (Hs _ _). exact (row_get _ _ _ _ H). Qed.
Lemma put_server_owner i p w : owner s0 Servers i = Some (name_of (ServerPortData.base p)) -> same s0 (PortManager.put_server i p w s).
Proof. rewrite <- (Hs _ _). intros H [] j; rewrite <- (Hs _ _); try done. by apply (row_put (fun p => name_of (ServerPortData.base p))). Qed.
Lemma get_client_owner i p : PortManager.get_client i s = Done p -> owner s0 Clients i = Some (name_of (ClientPortData.base p)).
Proof. intros H. rewrite <- (Hs _ _). exact (row_get _ _ _ _ H). Qed.
Lemma put_client_owner i p w : owner s0 Clients i = Some (name_of (ClientPortData.base p)) -> same s0 (PortManager.put_client i p w s).
Proof. rewrite <- (Hs _ _). intros H [] j; rewrite <- (Hs _ _); try done. by apply (row_put (fun p => name_of (ClientPortData.base p))). Qed.
Lemma get_interface_owner i p : PortManager.get_interface i s = Done p -> owner s0 InterfacePorts i = Some (name_of (InterfacePortData.base p)).
Proof. intros H. rewrite <- (Hs _ _). exact (row_get _ _ _ _ H). Qed.
Lemma put_interface_owner i p w : owner s0 InterfacePorts i = Some (name_of (InterfacePortData.base p)) -> same s0 (PortManager.put_interface i p w s).
Proof. rewrite <- (Hs _ _). intros H [] j; rewrite <- (Hs _ _); try done. by apply (row_put (fun p => name_of (InterfacePortData.base p))). Qed.
End access.

(** ** The RouDi sides of the ports keep the base *)

(** Follows [H : code = Done _] through its branches. *)
Ltac branch H := repeat first [progress (unfold expects in H) | done_inv H | if_inv H].
Ltac base_done H := branch H; simplify_eq; try reflexivity.

Lemma publisher_tryGet_base p m p' : PublisherPortRouDi.tryGetCaProMessage p = (m, p') ->
  PublisherPortData.base p' = PublisherPortData.base p.
Proof. unfold PublisherPortRouDi.tryGetCaProMessage. intros H. base_done H. Qed.

Lemma publisher_dispatch_base m p w r p' w' :
  PublisherPortRouDi.dispatchCaProMessageAndGetPossibleResponse m p w = Done (r, p', w') ->
  PublisherPortData.base p' = PublisherPortData.base p.
Proof. unfold PublisherPortRouDi.dispatchCaProMessageAndGetPossibleResponse. intros H. base_done H. Qed.

Lemma publisher_releaseAll_base l p w p' w' : PublisherPortRouDi.releaseAllChunks l p w = Done (p', w') ->
  PublisherPortData.base p' = PublisherPortData.base p.
Proof. unfold PublisherPortRouDi.releaseAllChunks. intros H. base_done H. Qed.

Lemma publisher_allocate_base ps pa hs ha p w r p' w' : PublisherPortUser.tryAllocateChunk ps pa hs ha p w = Done (r, p', w') ->
  PublisherPortData.base p' = PublisherPortData.base p.
Proof. unfold PublisherPortUser.tryAllocateChunk. intros H. base_done H. Qed.

Lemma publisher_send_base rounds c p w p' w' : PublisherPortUser.sendChunk rounds c p w = Done (p', w') ->
  PublisherPortData.base p' = PublisherPortData.base p.
Proof. unfold PublisherPortUser.sendChunk. intros H. base_done H. Qed.

Lemma subscriber_tryGet_base b p m p' : SubscriberPortType.tryGetCaProMessage b p = (m, p') ->
  SubscriberPortData.base p' = SubscriberPortData.base p.
Proof.
  unfold SubscriberPortType.tryGetCaProMessage, SubscriberPortSingleProducer.tryGetCaProMessage,
    SubscriberPortMultiProducer.tryGetCaProMessage.
  destruct (Policy b); intros H; base_done H.
Qed.

Lemma subscriber_dispatch_base b m p w r p' w' :
  SubscriberPortType.dispatchCaProMessageAndGetPossibleResponse b m p w = (r, p', w') ->
  SubscriberPortData.base p' = SubscriberPortData.base p.
Proof.
  unfold SubscriberPortType.dispatchCaProMessageAndGetPossibleResponse,
    SubscriberPortSingleProducer.dispatchCaProMessageAndGetPossibleResponse,
    SubscriberPortMultiProducer.dispatchCaProMessageAndGetPossibleResponse.
  destruct (Policy b); intros H; base_done H.
Qed.

Lemma subscriber_releaseAll_base p w p' w' : SubscriberPortType.releaseAllChunks p w = Done (p', w') ->
  SubscriberPortData.base p' = SubscriberPortData.base p.
Proof. unfold SubscriberPortType.releaseAllChunks. intros H. base_done H. Qed.

Lemma server_dispatch_base m p w r p' w' : ServerPortRouDi.dispatchCaProMessageAndGetPossibleResponse m p w = Done (r, p', w') ->
  ServerPortData.base p' = ServerPortData.base p.
Proof.
  unfold ServerPortRouDi.dispatchCaProMessageAndGetPossibleResponse, ServerPortRouDi.handleCaProMessageForStateOffered,
    ServerPortRouDi.handleCaProMessageForStateNotOffered, ServerPortRouDi.handleCaProProtocolViolation.
  intros H. base_done H.
Qed.

Lemma server_tryGet_base p w m p' w' : ServerPortRouDi.tryGetCaProMessage p w = Done (m, p', w') ->
  ServerPortData.base p' = ServerPortData.base p.
Proof.
  unfold ServerPortRouDi.tryGetCaProMessage. intros H.
  repeat if_inv H; simplify_eq; try done; by eapply server_dispatch_base.
Qed.

Lemma server_releaseAll_base l p w p' w' : ServerPortRouDi.releaseAllChunks l p w = Done (p', w') ->
  ServerPortData.base p' = ServerPortData.base p.
Proof. unfold ServerPortRouDi.releaseAllChunks. intros H. base_done H. Qed.

Lemma client_dispatch_base m p w r p' w' : ClientPortRouDi.dispatchCaProMessageAndGetPossibleResponse m p w = Done (r, p', w') ->
  ClientPortData.base p' = ClientPortData.base p.
Proof.
  unfold ClientPortRouDi.dispatchCaProMessageAndGetPossibleResponse, ClientPortRouDi.handleCaProMessageForStateNotConnected,
    ClientPortRouDi.handleCaProMessageForStateConnectRequested, ClientPortRouDi.handleCaProMessageForStateWaitForOffer,
    ClientPortRouDi.handleCaProMessageForStateConnected, ClientPortRouDi.handleCaProMessageForStateDisconnectRequested,
    ClientPortRouDi.handleCaProProtocolViolation.
  intros H. base_done H.
Qed.

Lemma client_tryGet_base p w m p' w' : ClientPortRouDi.tryGetCaProMessage p w = Done (m, p', w') ->
  ClientPortData.base p' = ClientPortData.base p.
Proof.
  unfold ClientPortRouDi.tryGetCaProMessage. intros H.
  repeat if_inv H; simplify_eq; try done; by eapply client_dispatch_base.
Qed.

Lemma client_releaseAll_base l p w p' w' : ClientPortRouDi.releaseAllChunks l p w = Done (p', w') ->
  ClientPortData.base p' = ClientPortData.base p.
Proof. unfold ClientPortRouDi.releaseAllChunks. intros H. base_done H. Qed.

Lemma interface_dispatch_base b m p w p' w' : InterfacePort.dispatchCaProMessage b m p w = (p', w') ->
  InterfacePortData.base p' = InterfacePortData.base p.
Proof.
  unfold InterfacePort.dispatchCaProMessage. destruct (negb _ && _); [by intros [= <- <-]|].
  destruct (FiFo.push _ _ _). by intros [= <- <-].
Qed.

(** ** [PortManager] *)

Section manager.
Context (b : Build) (sizeof_registry alignof_registry : Z) (lock_held : Z -> bool).

(** Names the next step of [H] and moves on. *)
Tactic Notation "next" hyp(H) "as" simple_intropattern(x) ident(E) := apply obind_Done_inv in H as (x & E & H).

Lemma for_each_rel (R : PortManager.t -> PortManager.t -> Prop) `{PreOrder PortManager.t R} body l : forall s s',
  (forall i s s', body i s = Done s' -> R s s') -> PortManager.for_each body l s = Done s' -> R s s'.
Proof.
  induction l as [|i l IH]; intros s s' Hb H'; cbn [PortManager.for_each] in H'; [by injection H' as <-|].
  next H' as s1 E. etrans; [by eapply Hb|by apply IH].
Qed.

Lemma publishServiceRegistry_same s s' :
  PortManager.publishServiceRegistry sizeof_registry alignof_registry s = Done s' -> same s s'.
Proof.
  unfold PortManager.publishServiceRegistry.
  destruct (PortManager.m_serviceRegistryPublisherPortData s) as [i|]; [|by intros [= <-]]. intros H.
  next H as p Ep. apply (get_publisher_owner s s (reflexivity _)) in Ep.
  next H as [[r p1] w1] E1. apply publisher_allocate_base in E1. destruct r as [chunk|].
  - next H as [p2 w2] E2. apply publisher_send_base in E2. injection H as <-.
    change (same s (PortManager.put_publisher i p2 w2 s)). apply put_publisher_owner; [reflexivity|congruence].
  - injection H as <-. apply put_publisher_owner; [reflexivity|congruence].
Qed.

Lemma addToServiceRegistry_same c d s s' :
  PortManager.addToServiceRegistry b sizeof_registry alignof_registry c d s = Done s' -> same s s'.
Proof.
  unfold PortManager.addToServiceRegistry. destruct (ServiceRegistry.add _ _ _ _) as [r registry]. intros H.
  apply publishServiceRegistry_same in H. by destruct (has_error r).
Qed.

Lemma removeFromServiceRegistry_same c d s s' :
  PortManager.removeFromServiceRegistry b sizeof_registry alignof_registry c d s = Done s' -> same s s'.
Proof. apply (publishServiceRegistry_same (PortManager.set_registry _ s)). Qed.

Lemma dispatch_interface_same m k s s' : (let* i := PortManager.get_interface k s in
    if negb (bool_decide (ServiceDescription.getSourceInterface (CaproMessage.m_serviceDescription m)
                          = ServiceDescription.getSourceInterface (InterfacePortData.service i)))
    then let '(i, w) := InterfacePort.dispatchCaProMessage b m i (PortManager.world s) in Done (PortManager.put_interface k i w s)
    else Done s) = Done s' -> same s s'.
Proof.
  intros H. next H as i Ei. apply (get_interface_owner s s (reflexivity _)) in Ei.
  destruct (negb _); [|by injection H as <-]. destruct (InterfacePort.dispatchCaProMessage _ _ _ _) as [i' w] eqn:E.
  apply interface_dispatch_base in E. injection H as <-. apply put_interface_owner; [reflexivity|congruence].
Qed.

Lemma interfaces_same m s s' : PortManager.sendToAllMatchingInterfacePorts b m s = Done s' -> same s s'.
Proof. apply for_each_rel; [apply _|]. intros. by eapply dispatch_interface_same. Qed.

Lemma to_publishers_same m j ps : forall found s r s',
  PortManager.to_publishers b m j ps found s = Done (r, s') -> same s s'.
Proof.
  induction ps as [|i ps IH]; intros found s r s' H; cbn [PortManager.to_publishers] in H; [by injection H as <- <-|].
  next H as p Ep. apply (get_publisher_owner s s (reflexivity _)) in Ep.
  destruct (PortManager.same_external_interface _ _); [by injection H as <- <-|].
  next H as v Ev. apply (get_subscriber_owner s s (reflexivity _)) in Ev.
  destruct (PortManager.isCompatiblePubSub _ _); [|by eapply IH].
  next H as [[r1 p1] w1] E1. apply publisher_dispatch_base in E1.
  assert (H1 : same s (PortManager.put_publisher i p1 w1 s)) by (apply put_publisher_owner; [reflexivity|congruence]).
  destruct r1 as [m1|]; [|etrans; [exact H1|by eapply IH]].
  destruct (SubscriberPortType.dispatchCaProMessageAndGetPossibleResponse _ _ _ _) as [[r2 v2] w2] eqn:E2.
  apply subscriber_dispatch_base in E2. unfold expects in H. destruct r2; [done|].
  etrans; [|by eapply IH]. apply put_subscriber_owner; [exact H1|congruence].
Qed.

Lemma to_subscribers_same m i js : forall s s', PortManager.to_subscribers b m i js s = Done s' -> same s s'.
Proof.
  induction js as [|j js IH]; intros s s' H; cbn [PortManager.to_subscribers] in H; [by injection H as <-|].
  next H as v Ev. apply (get_subscriber_owner s s (reflexivity _)) in Ev.
  destruct (PortManager.same_external_interface _ _); [by injection H as <-|].
  next H as p Ep. apply (get_publisher_owner s s (reflexivity _)) in Ep.
  destruct (PortManager.isCompatiblePubSub _ _); [|by eapply IH].
  destruct (SubscriberPortType.dispatchCaProMessageAndGetPossibleResponse _ _ v _) as [[r1 v1] w1] eqn:E1.
  apply subscriber_dispatch_base in E1.
  assert (H1 : same s (PortManager.put_subscriber j v1 w1 s)) by (apply put_subscriber_owner; [reflexivity|congruence]).
  destruct r1 as [m1|]; [|etrans; [exact H1|by eapply IH]]. unfold expects in H. destruct (bool_decide _); [|done].
  next H as [[r2 p2] w2] E2. apply publisher_dispatch_base in E2.
  assert (H2 : same s (PortManager.put_publisher i p2 w2 (PortManager.put_subscriber j v1 w1 s)))
    by (apply put_publisher_owner; [exact H1|congruence]).
  destruct r2 as [m2|]; [|etrans; [exact H2|by eapply IH]].
  destruct (SubscriberPortType.dispatchCaProMessageAndGetPossibleResponse _ _ v1 _) as [[r3 v3] w3] eqn:E3.
  apply subscriber_dispatch_base in E3. destruct r3; [done|].
  etrans; [|by eapply IH]. apply put_subscriber_owner; [exact H2|congruence].
Qed.

Lemma publisher_discovery_same i s s' :
  PortManager.doDiscoveryForPublisherPort b sizeof_registry alignof_registry i s = Done s' -> same s s'.
Proof.
  unfold PortManager.doDiscoveryForPublisherPort. intros H. next H as p Ep.
  apply (get_publisher_owner s s (reflexivity _)) in Ep.
  destruct (PublisherPortRouDi.tryGetCaProMessage p) as [m p1] eqn:E1. apply publisher_tryGet_base in E1.
  assert (H1 : same s (PortManager.put_publisher i p1 (PortManager.world s) s))
    by (apply put_publisher_owner; [reflexivity|congruence]).
  etrans; [exact H1|]. destruct m as [m|]; [|by injection H as <-].
  destruct (CaproMessage.m_type m); try (by injection H as <-); next H as s1 E2;
    [apply addToServiceRegistry_same in E2|apply removeFromServiceRegistry_same in E2];
    next H as s2 E3; apply to_subscribers_same in E3; apply interfaces_same in H; etrans; eauto; etrans; eauto.
Qed.

(** Removing an object from its table. *)
Lemma remove_erased t i s s' s'' : same s s' ->
  (forall t' i', owner s'' t' i' = if decide (t' = t /\ i' = i) then None else owner s' t' i') -> erased t i s s''.
Proof. intros Hs H t' i'. rewrite H. by rewrite (Hs _ _). Qed.

Ltac erase_table :=
  let t := fresh in let j := fresh in
  intros t j; destruct t; try reflexivity;
  (etrans; [apply row_erase|]; repeat case_decide; by intuition).

Lemma destroy_publisher_erased i s s' :
  PortManager.destroyPublisherPort b sizeof_registry alignof_registry lock_held i s = Done s' -> erased Publishers i s s'.
Proof.
  unfold PortManager.destroyPublisherPort. intros H. next H as p Ep. apply (get_publisher_owner s s (reflexivity _)) in Ep.
  destruct (PublisherPortRouDi.tryGetCaProMessage (PublisherPortUser.stopOffer p)) as [m p1] eqn:E1.
  apply publisher_tryGet_base in E1.
  assert (E0 : PublisherPortData.base (PublisherPortUser.stopOffer p) = PublisherPortData.base p)
    by (unfold PublisherPortUser.stopOffer; by destruct (PublisherPortData.m_offeringRequested p)).
  assert (H1 : same s (PortManager.put_publisher i p1 (PortManager.world s) s))
    by (apply put_publisher_owner; [reflexivity|congruence]).
  next H as s1 E2.
  assert (H2 : same s s1).
  { etrans; [exact H1|]. destruct m as [m|]; [|by injection E2 as <-]. unfold expects in E2.
    destruct (bool_decide _); [|done]. next E2 as s2 E3. apply removeFromServiceRegistry_same in E3.
    next E2 as s3 E4. apply to_subscribers_same in E4. apply interfaces_same in E2. etrans; eauto; etrans; eauto. }
  next H as p2 Ep2. apply (get_publisher_owner s s1 H2) in Ep2.
  next H as [p3 w3] E4. apply publisher_releaseAll_base in E4. injection H as <-.
  eapply remove_erased; [apply (put_publisher_owner s s1 H2 i p3 w3); congruence|]. erase_table.
Qed.

Lemma subscriber_discovery_same j s s' : PortManager.doDiscoveryForSubscriberPort b j s = Done s' -> same s s'.
Proof.
  unfold PortManager.doDiscoveryForSubscriberPort. intros H. next H as v Ev.
  apply (get_subscriber_owner s s (reflexivity _)) in Ev.
  destruct (SubscriberPortType.tryGetCaProMessage b v) as [m v1] eqn:E1. apply subscriber_tryGet_base in E1.
  assert (H1 : same s (PortManager.put_subscriber j v1 (PortManager.world s) s))
    by (apply put_subscriber_owner; [reflexivity|congruence]).
  destruct m as [m|]; [|by injection H as <-].
  assert (Hcase : forall s', (let* '(found, s) :=
      PortManager.sendToAllMatchingPublisherPorts b m j (PortManager.put_subscriber j v1 (PortManager.world s) s) in
    if found : bool then Done s
    else
      let* sub := PortManager.get_subscriber j s in
      let nackMessage := CaproMessage.ctor CaproMessageType.NACK (SubscriberPortData.service sub) CaproServiceType.NONE None in
      let '(returnMessage, sub, w) :=
        SubscriberPortType.dispatchCaProMessageAndGetPossibleResponse b nackMessage sub (PortManager.world s) in
      expects (match returnMessage with None => true | Some _ => false end) (Done (PortManager.put_subscriber j sub w s)))
    = Done s' -> same s s').
  { clear H s'. intros s' H. next H as [found s2] E2. apply to_publishers_same in E2.
    assert (H2 : same s s2) by (etrans; [exact H1|exact E2]). destruct found; [by injection H as <-|].
    next H as v2 Ev2. apply (get_subscriber_owner s s2 H2) in Ev2. cbv zeta in H.
    destruct (SubscriberPortType.dispatchCaProMessageAndGetPossibleResponse _ _ _ _) as [[r3 v3] w3] eqn:E3.
    apply subscriber_dispatch_base in E3. unfold expects in H. destruct r3; [done|]. injection H as <-.
    apply put_subscriber_owner; [exact H2|congruence]. }
  destruct (CaproMessage.m_type m); try (by injection H as <-); by apply Hcase.
Qed.

Lemma destroy_subscriber_erased j s s' : PortManager.destroySubscriberPort b j s = Done s' -> erased Subscribers j s s'.
Proof.
  unfold PortManager.destroySubscriberPort. intros H. next H as v Ev. apply (get_subscriber_owner s s (reflexivity _)) in Ev.
  destruct (SubscriberPortType.tryGetCaProMessage b _) as [m v1] eqn:E1. apply subscriber_tryGet_base in E1.
  assert (E0 : SubscriberPortData.base (SubscriberPortUser.unsubscribe v) = SubscriberPortData.base v)
    by (unfold SubscriberPortUser.unsubscribe; by destruct (SubscriberPortData.m_subscribeRequested v)).
  assert (H1 : same s (PortManager.put_subscriber j v1 (PortManager.world s) s))
    by (apply put_subscriber_owner; [reflexivity|congruence]).
  next H as s1 E2.
  assert (H2 : same s s1).
  { etrans; [exact H1|]. destruct m as [m|]; [|by injection E2 as <-]. unfold expects in E2.
    destruct (bool_decide _); [|done]. next E2 as [found s2] E3. apply to_publishers_same in E3. by injection E2 as <-. }
  next H as v2 Ev2. apply (get_subscriber_owner s s1 H2) in Ev2.
  next H as [v3 w3] E4. apply subscriber_releaseAll_base in E4. injection H as <-.
  eapply remove_erased; [apply (put_subscriber_owner s s1 H2 j v3 w3); congruence|]. erase_table.
Qed.

Lemma to_clients_same m i js : forall s s', PortManager.to_clients m i js s = Done s' -> same s s'.
Proof.
  induction js as [|j js IH]; intros s s' H; cbn [PortManager.to_clients] in H; [by injection H as <-|].
  next H as c Ec. apply (get_client_owner s s (reflexivity _)) in Ec.
  next H as v Ev. apply (get_server_owner s s (reflexivity _)) in Ev.
  next H as compatible Ecomp. destruct compatible; [|by eapply IH].
  next H as [[r1 c1] w1] E1. apply client_dispatch_base in E1.
  assert (H1 : same s (PortManager.put_client j c1 w1 s)) by (apply put_client_owner; [reflexivity|congruence]).
  destruct r1 as [m1|]; [|etrans; [exact H1|by eapply IH]]. unfold expects in H. destruct (bool_decide _); [|done].
  next H as [[r2 v2] w2] E2. apply server_dispatch_base in E2.
  assert (H2 : same s (PortManager.put_server i v2 w2 (PortManager.put_client j c1 w1 s)))
    by (apply put_server_owner; [exact H1|congruence]).
  destruct r2 as [m2|]; [|etrans; [exact H2|by eapply IH]].
  next H as [[r3 c3] w3] E3. apply client_dispatch_base in E3. destruct r3; [done|].
  etrans; [|by eapply IH]. apply put_client_owner; [exact H2|congruence].
Qed.

Lemma to_servers_same m j ps : forall found s r s', PortManager.to_servers m j ps found s = Done (r, s') -> same s s'.
Proof.
  induction ps as [|i ps IH]; intros found s r s' H; cbn [PortManager.to_servers] in H; [by injection H as <- <-|].
  next H as v Ev. apply (get_server_owner s s (reflexivity _)) in Ev.
  next H as c Ec. apply (get_client_owner s s (reflexivity _)) in Ec.
  next H as compatible Ecomp. destruct compatible; [|by eapply IH].
  next H as [[r1 v1] w1] E1. apply server_dispatch_base in E1.
  assert (H1 : same s (PortManager.put_server i v1 w1 s)) by (apply put_server_owner; [reflexivity|congruence]).
  destruct r1 as [m1|]; [|etrans; [exact H1|by eapply IH]].
  next H as [[r2 c2] w2] E2. apply client_dispatch_base in E2. unfold expects in H. destruct r2; [done|].
  etrans; [|by eapply IH]. apply put_client_owner; [exact H1|congruence].
Qed.

Lemma client_discovery_same j s s' : PortManager.doDiscoveryForClientPort j s = Done s' -> same s s'.
Proof.
  unfold PortManager.doDiscoveryForClientPort. intros H. next H as v Ev.
  apply (get_client_owner s s (reflexivity _)) in Ev. next H as [[m v1] w1] E1. apply client_tryGet_base in E1.
  assert (H1 : same s (PortManager.put_client j v1 w1 s)) by (apply put_client_owner; [reflexivity|congruence]).
  destruct m as [m|]; [|by injection H as <-].
  destruct (CaproMessage.m_type m); try (by injection H as <-);
    next H as [found s2] E2; apply to_servers_same in E2;
    (assert (H2 : same s s2) by (etrans; [exact H1|exact E2])); (destruct found; [by injection H as <-|]);
    next H as v2 Ev2; apply (get_client_owner s s2 H2) in Ev2; next H as [[r3 v3] w3] E3;
    apply client_dispatch_base in E3; unfold expects in H; (destruct r3; [done|]); injection H as <-;
    (apply put_client_owner; [exact H2|congruence]).
Qed.

Lemma destroy_client_erased j s s' : PortManager.destroyClientPort lock_held j s = Done s' -> erased Clients j s s'.
Proof.
  unfold PortManager.destroyClientPort. intros H. next H as v Ev. apply (get_client_owner s s (reflexivity _)) in Ev.
  next H as [[m v1] w1] E1. apply client_tryGet_base in E1.
  assert (E0 : ClientPortData.base (ClientPortUser.disconnect v) = ClientPortData.base v)
    by (unfold ClientPortUser.disconnect; by destruct (ClientPortData.m_connectRequested v)).
  assert (H1 : same s (PortManager.put_client j v1 w1 s)) by (apply put_client_owner; [reflexivity|congruence]).
  next H as s1 E2.
  assert (H2 : same s s1).
  { etrans; [exact H1|]. destruct m as [m|]; [|by injection E2 as <-]. unfold expects in E2.
    destruct (bool_decide _); [|done]. next E2 as [found s2] E3. apply to_servers_same in E3. by injection E2 as <-. }
  next H as v2 Ev2. apply (get_client_owner s s1 H2) in Ev2.
  next H as [v3 w3] E4. apply client_releaseAll_base in E4. injection H as <-.
  eapply remove_erased; [apply (put_client_owner s s1 H2 j v3 w3); congruence|]. erase_table.
Qed.

Lemma server_discovery_same i s s' :
  PortManager.doDiscoveryForServerPort b sizeof_registry alignof_registry i s = Done s' -> same s s'.
Proof.
  unfold PortManager.doDiscoveryForServerPort. intros H. next H as p Ep.
  apply (get_server_owner s s (reflexivity _)) in Ep. next H as [[m p1] w1] E1. apply server_tryGet_base in E1.
  assert (H1 : same s (PortManager.put_server i p1 w1 s)) by (apply put_server_owner; [reflexivity|congruence]).
  etrans; [exact H1|]. destruct m as [m|]; [|by injection H as <-].
  destruct (CaproMessage.m_type m); try (by injection H as <-); next H as s1 E2;
    [apply addToServiceRegistry_same in E2|apply removeFromServiceRegistry_same in E2];
    next H as s2 E3; apply to_clients_same in E3; apply interfaces_same in H; etrans; eauto; etrans; eauto.
Qed.

Lemma destroy_server_erased i s s' :
  PortManager.destroyServerPort b sizeof_registry alignof_registry lock_held i s = Done s' -> erased Servers i s s'.
Proof.
  unfold PortManager.destroyServerPort. intros H. next H as p Ep. apply (get_server_owner s s (reflexivity _)) in Ep.
  next H as [[m p1] w1] E1. apply server_tryGet_base in E1.
  assert (E0 : ServerPortData.base (ServerPortUser.stopOffer p) = ServerPortData.base p)
    by (unfold ServerPortUser.stopOffer; by destruct (ServerPortData.m_offeringRequested p)).
  assert (H1 : same s (PortManager.put_server i p1 w1 s)) by (apply put_server_owner; [reflexivity|congruence]).
  next H as s1 E2.
  assert (H2 : same s s1).
  { etrans; [exact H1|]. destruct m as [m|]; [|by injection E2 as <-]. unfold expects in E2.
    destruct (_ && _); [|done]. next E2 as s2 E3. apply removeFromServiceRegistry_same in E3.
    next E2 as s3 E4. apply to_clients_same in E4. apply interfaces_same in E2. etrans; eauto; etrans; eauto. }
  next H as p2 Ep2. apply (get_server_owner s s1 H2) in Ep2.
  next H as [p3 w3] E4. apply server_releaseAll_base in E4. injection H as <-.
  eapply remove_erased; [apply (put_server_owner s s1 H2 i p3 w3); congruence|]. erase_table.
Qed.

(** *** Discovery removes objects, but neither adds any nor changes an owner *)

Lemma removeInterfacePort_erased i s :
  erased InterfacePorts i s (PortManager.set_pool (PortPool.removeInterfacePort i (PortManager.m_portPool s)) s).
Proof. eapply remove_erased; [reflexivity|]. erase_table. Qed.
Lemma removeNodeData_erased i s : erased Nodes i s (PortManager.set_pool (PortPool.removeNodeData i (PortManager.m_portPool s)) s).
Proof. eapply remove_erased; [reflexivity|]. erase_table. Qed.
Lemma removeConditionVariableData_erased i s :
  erased ConditionVariables i s (PortManager.set_pool (PortPool.removeConditionVariableData i (PortManager.m_portPool s)) s).
Proof. eapply remove_erased; [reflexivity|]. erase_table. Qed.

Lemma handle_shrinks {P} (disc destroy : nat -> PortManager.t -> outcome PortManager.t)
    (get : nat -> PortManager.t -> outcome P) (gone : P -> bool) t l s s' :
  (forall i s s', disc i s = Done s' -> same s s') -> (forall i s s', destroy i s = Done s' -> erased t i s s') ->
  PortManager.for_each (fun i s => let* s := disc i s in let* p := get i s in
                          if gone p then destroy i s else Done s) l s = Done s' -> shrinks s s'.
Proof.
  intros Hd He. apply for_each_rel; [apply _|]. clear s s'. intros i s s' H. next H as s1 E1. next H as p Ep.
  apply Hd in E1. etrans; [by apply same_shrinks|]. destruct (gone p); [|by injection H as <-].
  eapply erased_shrinks. by eapply He.
Qed.

Lemma collect_interfaces_shrinks ks : forall fw s r s',
  PortManager.collect_interfaces ks fw s = Done (r, s') -> shrinks s s'.
Proof.
  induction ks as [|k ks IH]; intros fw s r s' H; cbn [PortManager.collect_interfaces] in H; [by injection H as <- <-|].
  next H as v Ev. apply (get_interface_owner s s (reflexivity _)) in Ev.
  assert (Hr : forall s1 : PortManager.t, same s s1 -> forall c : bool, shrinks s
    (if c then PortManager.set_pool (PortPool.removeInterfacePort k (PortManager.m_portPool s1)) s1 else s1)).
  { intros s1 H1 c. etrans; [by apply same_shrinks|]. destruct c; [|reflexivity].
    eapply erased_shrinks. apply removeInterfacePort_erased. }
  destruct (InterfacePortData.m_doInitialOfferForward v); cbv beta iota zeta in H; (etrans; [|by eapply IH]);
    apply Hr; [|reflexivity]. apply put_interface_owner; [reflexivity|done].
Qed.

Lemma handleInterfaces_shrinks s s' : PortManager.handleInterfaces b s = Done s' -> shrinks s s'.
Proof.
  unfold PortManager.handleInterfaces. intros H. next H as [fw s1] E1. apply collect_interfaces_shrinks in E1.
  etrans; [exact E1|]. destruct (_ <? _); [|by injection H as <-]. apply same_shrinks.
  next H as s2 E2. transitivity s2.
  - revert E2. apply for_each_rel; [apply _|]. intros i t t' Ht. next Ht as p Ep.
    destruct (PublisherPortUser.isOffered p); [|by injection Ht as <-].
    revert Ht. apply for_each_rel; [apply _|]. intros. by eapply dispatch_interface_same.
  - revert H. apply for_each_rel; [apply _|]. intros i t t' Ht. next Ht as p Ep.
    destruct (ServerPortUser.isOffered p); [|by injection Ht as <-].
    revert Ht. apply for_each_rel; [apply _|]. intros. by eapply dispatch_interface_same.
Qed.

Lemma doDiscovery_shrinks s s' :
  PortManager.doDiscovery b sizeof_registry alignof_registry lock_held s = Done s' -> shrinks s s'.
Proof.
  unfold PortManager.doDiscovery. intros H. next H as s1 E1. next H as s2 E2. next H as s3 E3. next H as s4 E4.
  next H as s5 E5. next H as s6 E6.
  apply (handle_shrinks _ _ _ _ Publishers) in E1; [|apply publisher_discovery_same|apply destroy_publisher_erased].
  apply (handle_shrinks _ _ _ _ Subscribers) in E2; [|apply subscriber_discovery_same|apply destroy_subscriber_erased].
  apply (handle_shrinks _ _ _ _ Servers) in E3; [|apply server_discovery_same|apply destroy_server_erased].
  apply (handle_shrinks _ _ _ _ Clients) in E4; [|apply client_discovery_same|apply destroy_client_erased].
  apply handleInterfaces_shrinks in E5.
  assert (Hn : shrinks s5 s6).
  { revert E6. apply for_each_rel; [apply _|]. intros i t t' Ht. next Ht as n En. injection Ht as <-.
    destruct (NodeData.m_toBeDestroyed n); [eapply erased_shrinks, removeNodeData_erased|reflexivity]. }
  assert (Hc : shrinks s6 s').
  { revert H. apply for_each_rel; [apply _|]. intros i t t' Ht. next Ht as n En. injection Ht as <-.
    destruct (ConditionVariableInfo.m_toBeDestroyed n); [eapply erased_shrinks, removeConditionVariableData_erased|reflexivity]. }
  repeat (etrans; [eassumption|]). reflexivity.
Qed.

(** *** Deleting the objects of an application *)

(** The objects of [rt] in the tables [ts] are gone, and only those. *)
Definition cleared (ts : list table) (rt : string) (s s' : PortManager.t) : Prop :=
  forall t i, owner s' t i = if decide (t ∈ ts /\ owner s t i = Some rt) then None else owner s t i.

Lemma cleared_trans ts ts' rt s1 s2 s3 : cleared ts rt s1 s2 -> cleared ts' rt s2 s3 -> cleared (ts ++ ts') rt s1 s3.
Proof.
  intros H1 H2 t i. rewrite H2, H1. repeat case_decide; try done; set_solver.
Qed.

(** One round of a loop that deletes. *)
Definition sweeps (t : table) (rt : string) (body : nat -> PortManager.t -> outcome PortManager.t) : Prop :=
  forall i s s', body i s = Done s' -> if decide (owner s t i = Some rt) then erased t i s s' else same s s'.

Lemma sweeps_all t rt body l : sweeps t rt body -> forall s s',
  (forall i, owner s t i = Some rt -> i ∈ l) -> PortManager.for_each body l s = Done s' -> cleared [t] rt s s'.
Proof.
  intros Hb. induction l as [|i l IH]; intros s s' Hl H; cbn [PortManager.for_each] in H.
  - injection H as <-. intros t' i'. case_decide as Hd; [|done]. destruct Hd as [->%list_elem_of_singleton Ho].
    by apply Hl in Ho as []%not_elem_of_nil.
  - next H as s1 E1. apply Hb in E1.
    assert (Hl1 : forall i, owner s1 t i = Some rt -> i ∈ l).
    { intros k Hk. case_decide as Hi.
      - rewrite (E1 t k) in Hk. case_decide as Hki; [done|]. apply Hl, elem_of_cons in Hk as [->|]; [|done].
        by destruct Hki.
      - rewrite (E1 t k) in Hk. pose proof Hk as Hin. apply Hl, elem_of_cons in Hin as [->|]; done. }
    apply IH in H; [|done]. intros t' i'. rewrite (H t' i'). case_decide as Hi; rewrite (E1 t' i'); [|done].
    repeat case_decide; set_solver.
Qed.

Lemma content_owner {A} (f : A -> string) (l : list (option A)) i rt :
  row f l i = Some rt -> i ∈ FixedPositionContainer.content l.
Proof.
  unfold row. intros H. apply FixedPositionContainer.elem_of_content. destruct (l !! i) as [[x|]|] eqn:E; [by exists x|done..].
Qed.

(** The two shapes of the loops of [deletePortsOfProcess]. *)
Lemma sweep_ports {P} t rt (get : nat -> PortManager.t -> outcome P) (base : P -> BasePortData.t) destroy :
  (forall s i p, get i s = Done p -> owner s t i = Some (name_of (base p))) ->
  (forall i s s', destroy i s = Done s' -> erased t i s s') ->
  sweeps t rt (fun i s => let* p := get i s in
    if bool_decide (rt = BasePortData.m_runtimeName (base p)) then destroy i s else Done s).
Proof.
  intros Hg Hd i s s' H. next H as p Ep. apply Hg in Ep. rewrite Ep. unfold name_of. case_bool_decide as E.
  - rewrite decide_True by congruence. by apply Hd.
  - rewrite decide_False by congruence. by injection H as <-.
Qed.

Lemma sweep_items {P} t rt (get : nat -> PortManager.t -> outcome P) (name : P -> string) remove :
  (forall s i p, get i s = Done p -> owner s t i = Some (name p)) -> (forall i s, erased t i s (remove i s)) ->
  sweeps t rt (fun i s => let* p := get i s in Done (if bool_decide (rt = name p) then remove i s else s)).
Proof.
  intros Hg Hd i s s' H. next H as p Ep. apply Hg in Ep. rewrite Ep. injection H as <-. case_bool_decide as E.
  - rewrite decide_True by congruence. by apply Hd.
  - by rewrite decide_False by congruence.
Qed.

Definition all_tables : list table := [Publishers; Subscribers; Servers; Clients; InterfacePorts; Nodes; ConditionVariables].

Lemma deletePorts_cleared rt s s' :
  PortManager.deletePortsOfProcess b sizeof_registry alignof_registry lock_held rt s = Done s' ->
  forall t i, owner s' t i = if decide (owner s t i = Some rt) then None else owner s t i.
Proof.
  unfold PortManager.deletePortsOfProcess. intros H.
  set (s0 := if bool_decide (rt = IPC_CHANNEL_ROUDI_NAME) then _ else s) in H.
  assert (H0 : same s s0) by (unfold s0; by case_bool_decide). clearbody s0. cbv zeta in H.
  next H as s1 E1. next H as s2 E2. next H as s3 E3. next H as s4 E4. next H as s5 E5. next H as s6 E6.
  apply (sweeps_all Publishers rt) in E1; [|apply sweep_ports; [intros t i p; apply (get_publisher_owner t t (reflexivity _))|apply destroy_publisher_erased]
    |intros i; apply content_owner].
  apply (sweeps_all Subscribers rt) in E2; [|apply sweep_ports; [intros t i p; apply (get_subscriber_owner t t (reflexivity _))|apply destroy_subscriber_erased]
    |intros i; apply content_owner].
  apply (sweeps_all Servers rt) in E3; [|apply sweep_ports; [intros t i p; apply (get_server_owner t t (reflexivity _))|apply destroy_server_erased]
    |intros i; apply content_owner].
  apply (sweeps_all Clients rt) in E4; [|apply sweep_ports; [intros t i p; apply (get_client_owner t t (reflexivity _))|apply destroy_client_erased]
    |intros i; apply content_owner].
  apply (sweeps_all InterfacePorts rt) in E5; [|apply (sweep_items InterfacePorts); [intros t i p; apply (get_interface_owner t t (reflexivity _))|
    intros; apply removeInterfacePort_erased]|intros i; apply content_owner].
  apply (sweeps_all Nodes rt) in E6; [|apply (sweep_items Nodes); [intros; by apply (row_get NodeData.m_runtimeName)|
    intros; apply removeNodeData_erased]|intros i; apply content_owner].
  apply (sweeps_all ConditionVariables rt) in H; [|apply (sweep_items ConditionVariables);
    [intros; by apply (row_get ConditionVariableInfo.m_runtimeName)|
    intros; apply removeConditionVariableData_erased]|intros i; apply content_owner].
  assert (HC : cleared all_tables rt s0 s').
  { apply (cleared_trans [Publishers] _ _ _ _ _ E1), (cleared_trans [Subscribers] _ _ _ _ _ E2),
      (cleared_trans [Servers] _ _ _ _ _ E3), (cleared_trans [Clients] _ _ _ _ _ E4),
      (cleared_trans [InterfacePorts] _ _ _ _ _ E5), (cleared_trans [Nodes] _ _ _ _ _ E6), H. }
  intros t i. rewrite (HC t i), (H0 t i). assert (t ∈ all_tables) by (destruct t; set_solver).
  by repeat case_decide; intuition.
Qed.

(** *** Unblocking *)

Lemma stop_publisher_same i s s' : PortManager.stop_publisher b sizeof_registry alignof_registry i s = Done s' -> same s s'.
Proof.
  unfold PortManager.stop_publisher. intros H. next H as p Ep. apply (get_publisher_owner s s (reflexivity _)) in Ep.
  apply publisher_discovery_same in H. etrans; [|exact H]. apply put_publisher_owner; [reflexivity|done].
Qed.

Lemma stop_server_same i s s' : PortManager.stop_server b sizeof_registry alignof_registry i s = Done s' -> same s s'.
Proof.
  unfold PortManager.stop_server. intros H. next H as p Ep. apply (get_server_owner s s (reflexivity _)) in Ep.
  apply server_discovery_same in H. etrans; [|exact H]. apply put_server_owner; [reflexivity|done].
Qed.

Lemma unblock_same rt s s' :
  PortManager.unblockProcessShutdown b sizeof_registry alignof_registry rt s = Done s' -> same s s'.
Proof.
  unfold PortManager.unblockProcessShutdown. intros H. next H as s1 E1. transitivity s1.
  - revert E1. apply for_each_rel; [apply _|]. intros i t t' Ht. next Ht as p Ep.
    destruct (bool_decide _); [by eapply stop_publisher_same|by injection Ht as <-].
  - revert H. apply for_each_rel; [apply _|]. intros i t t' Ht. next Ht as p Ep.
    destruct (bool_decide _); [by eapply stop_server_same|by injection Ht as <-].
Qed.

Lemma unblockRouDi_same s s' : PortManager.unblockRouDiShutdown b sizeof_registry alignof_registry s = Done s' -> same s s'.
Proof.
  unfold PortManager.unblockRouDiShutdown. intros H. next H as s1 E1. transitivity s1.
  - revert E1. apply for_each_rel; [apply _|]. apply stop_publisher_same.
  - revert H. apply for_each_rel; [apply _|]. apply stop_server_same.
Qed.

(** *** Creating objects *)

Lemma BasePortData_ctor_name d rt node ids base ids' : BasePortData.ctor d rt node ids = Done (base, ids') -> name_of base = rt.
Proof. unfold BasePortData.ctor. intros H. base_done H. Qed.

Lemma publisher_ctor_name d rt mm o ids w p ids' w' : PublisherPortData.ctor b d rt mm o ids w = Done (p, ids', w') ->
  name_of (PublisherPortData.base p) = rt.
Proof.
  unfold PublisherPortData.ctor. intros H. next H as [base ids1] E. apply BasePortData_ctor_name in E. by base_done H.
Qed.
Lemma subscriber_ctor_name q d rt t o ids w p ids' w' : SubscriberPortData.ctor b q d rt t o ids w = Done (p, ids', w') ->
  name_of (SubscriberPortData.base p) = rt.
Proof.
  unfold SubscriberPortData.ctor. intros H. next H as [base ids1] E. apply BasePortData_ctor_name in E. by base_done H.
Qed.
Lemma server_ctor_name q d rt o mm ids w p ids' w' : ServerPortData.ctor q d rt o mm ids w = Done (p, ids', w') ->
  name_of (ServerPortData.base p) = rt.
Proof.
  unfold ServerPortData.ctor. intros H. next H as [base ids1] E. apply BasePortData_ctor_name in E.
  next H as [sender w1] E1. next H as [[receiver ids2] w2] E2. by injection H as <- <- <-.
Qed.
Lemma client_ctor_name q d rt o mm ids w p ids' w' : ClientPortData.ctor q d rt o mm ids w = Done (p, ids', w') ->
  name_of (ClientPortData.base p) = rt.
Proof.
  unfold ClientPortData.ctor. intros H. next H as [base ids1] E. apply BasePortData_ctor_name in E.
  next H as [sender w1] E1. next H as [[receiver ids2] w2] E2. by injection H as <- <- <-.
Qed.
Lemma interface_ctor_name rt i ids p ids' : InterfacePortData.ctor b rt i ids = Done (p, ids') ->
  name_of (InterfacePortData.base p) = rt.
Proof.
  unfold InterfacePortData.ctor. intros H. next H as [base ids1] E. apply BasePortData_ctor_name in E. by base_done H.
Qed.

(** A state that differs by a new object of the table [t]. *)
Lemma grows_new {A} t rt (f : A -> string) (l l' : list (option A)) i x s s' :
  (forall j, owner s t j = row f l j) -> (forall j, owner s' t j = row f l' j) ->
  (forall t' j, t' <> t -> owner s' t' j = owner s t' j) ->
  l' = FixedPositionContainer.put i (Some x) l -> i = FixedPositionContainer.free_slot l -> f x = rt -> grows rt s s'.
Proof.
  intros H1 H2 Hother -> -> <- t' j r Hr. destruct (decide (t' = t)) as [->|Hne].
  - rewrite H2 in Hr. rewrite H1. revert Hr. apply row_new, FixedPositionContainer.free_slot_spec.
  - rewrite Hother in Hr by done. by left.
Qed.

Ltac grow_table T := eapply (grows_new T); [reflexivity|reflexivity|by intros [] ?|reflexivity|reflexivity|].

Lemma and_then_grows rt body x s r s' : (forall i s s', body i s = Done s' -> same s s') ->
  (forall r s1, x = Done (r, s1) -> grows rt s s1) -> PortManager.and_then body x = Done (r, s') -> grows rt s s'.
Proof.
  intros Hb Hx H. unfold PortManager.and_then in H. next H as [r0 s0] E. apply Hx in E.
  destruct r0 as [i|]; [|by injection H as <- <-]. next H as s1 E1. injection H as <- <-. apply Hb in E1. by rewrite <- E1.
Qed.

Lemma violating_shrinks service ps : forall s r s',
  PortManager.violating b sizeof_registry alignof_registry lock_held service ps s = Done (r, s') -> shrinks s s'.
Proof.
  induction ps as [|i ps IH]; intros s r s' H; cbn [PortManager.violating] in H; [by injection H as <- <-|].
  next H as p Ep. destruct (ServiceDescription.eqb _ _); [|by eapply IH].
  destruct (BasePortData.m_toBeDestroyed _); [|by injection H as <- <-].
  next H as s1 E1. apply destroy_publisher_erased in E1. etrans; [by eapply erased_shrinks|by eapply IH].
Qed.

Lemma server_exists_shrinks service ps : forall s r s',
  PortManager.server_exists b sizeof_registry alignof_registry lock_held service ps s = Done (r, s') -> shrinks s s'.
Proof.
  induction ps as [|i ps IH]; intros s r s' H; cbn [PortManager.server_exists] in H; [by injection H as <- <-|].
  next H as p Ep. destruct (ServiceDescription.eqb _ _); [|by eapply IH].
  destruct (BasePortData.m_toBeDestroyed _); [|by injection H as <- <-].
  next H as s1 E1. apply destroy_server_erased in E1. etrans; [by eapply erased_shrinks|by eapply IH].
Qed.

Lemma addPublisher_grows service mm rt o s r p :
  PortPool.addPublisherPort b service mm rt o (PortManager.m_portPool s) = Done (r, p) -> grows rt s (PortManager.set_pool p s).
Proof.
  unfold PortPool.addPublisherPort. intros H. if_inv H; [|injection H as <- <-; by intros [] i rt' ?; left].
  next H as [[d ids] w] E. apply publisher_ctor_name in E. injection H as <- <-. grow_table Publishers. exact E.
Qed.

Lemma acquirePublisherWithoutDiscovery_grows service o rt mm s r s' :
  PortManager.acquirePublisherPortDataWithoutDiscovery b sizeof_registry alignof_registry lock_held service o rt mm s
    = Done (r, s') -> grows rt s s'.
Proof.
  unfold PortManager.acquirePublisherPortDataWithoutDiscovery. intros H. next H as [used s1] E1.
  assert (H1 : shrinks s s1).
  { unfold PortManager.doesViolateCommunicationPolicy in E1. destruct (Policy b); [by eapply violating_shrinks|by injection E1 as <- <-]. }
  eapply grows_trans; [apply shrinks_grows; exact H1|]. clear H1 E1.
  destruct used; [injection H as <- <-; by intros t i rt' ?; left|]. case_bool_decide.
  - next H as [r1 p] E. injection H as <- <-.
    destruct (_ <? _); [apply (addPublisher_grows _ _ _ _ _ _ _ E)|by apply addPublisher_grows in E].
  - destruct (PortManager.isInternal _ _); [injection H as <- <-; by intros t i rt' ?; left|].
    next H as [r1 p] E. injection H as <- <-. by apply addPublisher_grows in E.
Qed.

Lemma acquirePublisher_grows service o rt mm s r s' :
  PortManager.acquirePublisherPortData b sizeof_registry alignof_registry lock_held service o rt mm s = Done (r, s') ->
  grows rt s s'.
Proof.
  apply and_then_grows; [apply publisher_discovery_same|intros r1 s1; apply acquirePublisherWithoutDiscovery_grows].
Qed.

Lemma acquireSubscriber_grows service o rt s r s' :
  PortManager.acquireSubscriberPortData b service o rt s = Done (r, s') -> grows rt s s'.
Proof.
  apply and_then_grows; [apply subscriber_discovery_same|]. intros r1 s1 H. next H as [r2 p] E. injection H as <- <-.
  unfold PortPool.addSubscriberPort in E. if_inv E; [|injection E as <- <-; by intros [] i rt' ?; left].
  next E as [[d ids] w] E1. apply subscriber_ctor_name in E1. injection E as <- <-. grow_table Subscribers. exact E1.
Qed.

Lemma acquireClient_grows service o rt mm s r s' :
  PortManager.acquireClientPortData b service o rt mm s = Done (r, s') -> grows rt s s'.
Proof.
  apply and_then_grows; [apply client_discovery_same|]. intros r1 s1 H. next H as [r2 p] E. injection H as <- <-.
  unfold PortPool.addClientPort in E. if_inv E; [injection E as <- <-; by intros [] i rt' ?; left|].
  next E as [[d ids] w] E1. apply client_ctor_name in E1. injection E as <- <-. grow_table Clients. exact E1.
Qed.

Lemma acquireServer_grows service o rt mm s r s' :
  PortManager.acquireServerPortData b sizeof_registry alignof_registry lock_held service o rt mm s = Done (r, s') ->
  grows rt s s'.
Proof.
  unfold PortManager.acquireServerPortData. intros H. next H as [found s1] E1. apply server_exists_shrinks in E1.
  eapply grows_trans; [apply shrinks_grows; exact E1|]. destruct found; [injection H as <- <-; by intros t i rt' ?; left|].
  revert H. apply and_then_grows; [apply server_discovery_same|]. intros r1 s2 H. next H as [r2 p] E. injection H as <- <-.
  unfold PortPool.addServerPort in E. if_inv E; [injection E as <- <-; by intros [] i rt' ?; left|].
  next E as [[d ids] w] E2. apply server_ctor_name in E2. injection E as <- <-. grow_table Servers. exact E2.
Qed.

Lemma acquireInterface_grows interface rt s r s' :
  PortManager.acquireInterfacePortData b interface rt s = Done (r, s') -> grows rt s s'.
Proof.
  unfold PortManager.acquireInterfacePortData. intros H. next H as [r2 p] E. injection H as <- <-.
  unfold PortPool.addInterfacePort in E. if_inv E; [|injection E as <- <-; by intros [] i rt' ?; left].
  next E as [d ids] E1. apply interface_ctor_name in E1. injection E as <- <-. grow_table InterfacePorts. exact E1.
Qed.

Lemma acquireNode_grows rt name s r s' : PortManager.acquireNodeData rt name s = (r, s') -> grows rt s s'.
Proof.
  unfold PortManager.acquireNodeData, PortPool.addNodeData. destruct (FixedPositionContainer.hasFreeSpace _ _); intros [= <- <-].
  - grow_table Nodes. done.
  - by intros [] i rt' ?; left.
Qed.

Lemma acquireConditionVariable_grows rt s r s' : PortManager.acquireConditionVariableData b rt s = (r, s') -> grows rt s s'.
Proof.
  unfold PortManager.acquireConditionVariableData, PortPool.addConditionVariableData.
  destruct (FixedPositionContainer.hasFreeSpace _ _); intros [= <- <-].
  - grow_table ConditionVariables. done.
  - by intros [] i rt' ?; left.
Qed.
End manager.

(** ** [RouDi] *)

Definition names (l : list Process.t) : list string := Process.m_name <$> l.

Lemma names_app l l' : names (l ++ l') = names l ++ names l'.
Proof. apply fmap_app. Qed.

Record Owned (forgotten : list string) (s : RouDi.t) : Prop := {
  owned_objects : forall t i r, owner (RouDi.m_portManager s) t i = Some r ->
    r ∈ IPC_CHANNEL_ROUDI_NAME :: forgotten \/ r ∈ names (RouDi.m_processList s);
  owned_unique : NoDup (names (RouDi.m_processList s));
  owned_bound : Z.of_nat (length (RouDi.m_processList s)) <= MAX_PROCESS_NUMBER }.

Lemma owned_change f s s' : Owned f s -> RouDi.m_processList s' = RouDi.m_processList s ->
  (forall t i r, owner (RouDi.m_portManager s') t i = Some r ->
     owner (RouDi.m_portManager s) t i = Some r \/ r ∈ names (RouDi.m_processList s)) -> Owned f s'.
Proof.
  intros [H1 H2 H3] Hp Ho. split; rewrite Hp; try done. intros t i r Hr. apply Ho in Hr as [Hr|]; [by eapply H1|by right].
Qed.

Lemma find_process_Some name l p : RouDi.find_process name l = Some p -> name ∈ names l.
Proof.
  induction l as [|q l IH]; [done|]. simpl. unfold names. simpl. rewrite elem_of_cons. case_bool_decide as E.
  - intros _. by left.
  - intros H. right. by apply IH.
Qed.

Lemma find_process_None name l : RouDi.find_process name l = None -> name ∉ names l.
Proof.
  induction l as [|q l IH]; simpl; [intros _ []%not_elem_of_nil|]. case_bool_decide as E; [done|]. intros H.
  unfold names. simpl. rewrite elem_of_cons. intros [Hq|Hq]; [by symmetry in Hq|by apply IH].
Qed.

Lemma erase_process_names name l : NoDup (names l) ->
  (forall x, x ∈ names (RouDi.erase_process name l) <-> x ∈ names l /\ x <> name) /\ NoDup (names (RouDi.erase_process name l))
  /\ (length (RouDi.erase_process name l) <= length l)%nat.
Proof.
  induction l as [|p l IH]; [set_solver|]. unfold names in *. rewrite fmap_cons. intros [Hp Hl]%NoDup_cons. simpl.
  destruct (IH Hl) as (IH1 & IH2 & IH3). case_bool_decide as E.
  - split; [|split; [done|lia]]. intros x. rewrite elem_of_cons. split; [|naive_solver].
    intros Hx. split; [by right|]. intros ->. by rewrite E in Hp.
  - rewrite fmap_cons. split; [|split; [|simpl; lia]].
    + intros x. rewrite !elem_of_cons, IH1. split; [intros [->|[? ?]]; auto|intros [[->|?] ?]; auto].
    + apply NoDup_cons. split; [|done]. by intros [? ?]%IH1.
Qed.

Lemma touch_names now name l : names (RouDi.touch now name l) = names l /\ length (RouDi.touch now name l) = length l.
Proof.
  induction l as [|p l [IH1 IH2]]; [done|]. simpl. case_bool_decide; simpl; [done|]. by rewrite IH1, IH2.
Qed.

Definition timed_out (now : Z) (p : Process.t) : bool :=
  Process.m_isMonitored p && (PROCESS_KEEP_ALIVE_TIMEOUT <? Z.max 0 (now - Process.m_timestamp p)).

(** The applications that are removed, and those that stay. *)
Definition dead (now : Z) (l : list Process.t) : list Process.t := List.filter (timed_out now) l.
Definition alive (now : Z) (l : list Process.t) : list Process.t := List.filter (fun p => negb (timed_out now p)) l.

Lemma monitor_spec b sizeof_registry alignof_registry lock_held now l : forall kept s s',
  RouDi.monitor b sizeof_registry alignof_registry lock_held now kept l s = Done s' ->
  RouDi.m_processList s' = kept ++ alive now l /\
  forall t i r, owner (RouDi.m_portManager s') t i = Some r <->
    owner (RouDi.m_portManager s) t i = Some r /\ r ∉ names (dead now l).
Proof.
  induction l as [|p l IH]; intros kept s s' H; cbn [RouDi.monitor] in H.
  - injection H as <-. simpl. rewrite app_nil_r. split; [done|]. intros t i r. pose proof (not_elem_of_nil r). intuition.
  - unfold alive, dead, names. simpl. fold (timed_out now p) in H. destruct (timed_out now p) eqn:Ht; simpl.
    + apply obind_Done_inv in H as (pm & E & H). pose proof (deletePorts_cleared _ _ _ _ _ _ _ E) as Ec.
      apply IH in H as [H1 H2]. split; [exact H1|]. intros t i r. rewrite H2. simpl. rewrite Ec, not_elem_of_cons.
      case_decide as Hd; [|naive_solver]. split; [by intros []|]. intros [Hr [Hn _]]. congruence.
    + apply IH in H as [H1 H2]. split; [rewrite H1; by rewrite <- app_assoc|exact H2].
Qed.

Lemma names_alive now l x : x ∈ names l -> x ∈ names (dead now l) \/ x ∈ names (alive now l).
Proof.
  unfold names, dead, alive. rewrite !list_elem_of_fmap. intros (p & -> & Hp).
  destruct (timed_out now p) eqn:E; [left|right]; exists p; (split; [done|]); apply list_elem_of_In, filter_In;
    rewrite E; (split; [by apply list_elem_of_In|done]).
Qed.

Lemma alive_sublist now l : sublist (alive now l) l.
Proof.
  induction l as [|p l IH]; [constructor|]. unfold alive in *. simpl. destruct (timed_out now p); simpl; by constructor.
Qed.

Section roudi.
Context (b : Build) (sizeof_registry alignof_registry : Z) (lock_held : Z -> bool).
Context (repository : PointerRepository.t) (m_mgmtSegmentId mgmtMemorySize segmentManagerAddress : Z).
Context (address_of : object -> Z) (groups_of : Z -> list string) (segments : Segments).
Context (currentVersion : VersionInfo.t) (m_compatibilityCheckLevel : VersionInfo.CompatibilityCheckLevel).
Context (m_monitoringMode : bool) (accepts : string -> bool) (kill : Z -> RouDi.ShutdownPolicy -> Z).

(** Neither objects nor processes are changed. *)
Definition quiet (s s' : RouDi.t) : Prop :=
  same (RouDi.m_portManager s) (RouDi.m_portManager s') /\ RouDi.m_processList s' = RouDi.m_processList s.

#[local] Instance quiet_po : PreOrder quiet.
Proof.
  split; [by split|]. intros s1 s2 s3 [H1 H2] [H3 H4]. split; [by etrans|congruence].
Qed.

Lemma quiet_owned f s s' : quiet s s' -> Owned f s -> Owned f s'.
Proof. intros [H1 H2] HO. eapply owned_change; [exact HO|done|]. intros t i r. rewrite (H1 t i). by left. Qed.

Lemma send_quiet name m s : quiet s (RouDi.sendViaIpcChannel accepts name m s).
Proof.
  unfold RouDi.sendViaIpcChannel. destruct (IpcInterfaceBase.send _ _); [destruct (accepts name)|]; by split.
Qed.

Lemma set_pm_owned f pm s : Owned f s -> (forall t i r, owner pm t i = Some r ->
    owner (RouDi.m_portManager s) t i = Some r \/ r ∈ names (RouDi.m_processList s)) -> Owned f (RouDi.set_port_manager pm s).
Proof. intros HO H. by eapply owned_change. Qed.

Lemma grows_owned f rt pm s : Owned f s -> rt ∈ names (RouDi.m_processList s) -> grows rt (RouDi.m_portManager s) pm ->
  Owned f (RouDi.set_port_manager pm s).
Proof. intros HO Hrt H. apply set_pm_owned; [done|]. intros t i r Hr. apply H in Hr as [Hr| ->]; auto. Qed.

Lemma shrinks_owned f pm s : Owned f s -> shrinks (RouDi.m_portManager s) pm -> Owned f (RouDi.set_port_manager pm s).
Proof. intros HO H. apply set_pm_owned; [done|]. intros t i r Hr. left. by apply H. Qed.

(** *** Removal and registration *)

Lemma removed_owned f pm name s : Owned f s ->
  (forall t i, owner pm t i = if decide (owner (RouDi.m_portManager s) t i = Some name) then None
                              else owner (RouDi.m_portManager s) t i) ->
  Owned f (RouDi.set_processes (RouDi.erase_process name (RouDi.m_processList s)) (RouDi.set_port_manager pm s)).
Proof.
  intros [H1 H2 H3] Hc. destruct (erase_process_names name _ H2) as (He1 & He2 & He3). split; simpl; [|done|lia].
  intros t i r Hr. rewrite Hc in Hr. case_decide as Hd; [done|]. destruct (H1 _ _ _ Hr) as [|Hin]; [by left|right].
  apply He1. split; [done|]. by intros ->.
Qed.

Lemma remove_owned f name feedback s r s' : Owned f s ->
  RouDi.searchForProcessAndRemoveIt b sizeof_registry alignof_registry lock_held accepts name feedback s = Done (r, s') ->
  Owned f s' /\ (forall x, x ∈ names (RouDi.m_processList s') <-> x ∈ names (RouDi.m_processList s) /\ x <> name).
Proof.
  intros HO. unfold RouDi.searchForProcessAndRemoveIt. destruct (RouDi.findProcess name s) as [p|] eqn:Ef; intros H.
  - apply obind_Done_inv in H as (pm & E & H). pose proof (deletePorts_cleared _ _ _ _ _ _ _ E) as Ec.
    injection H as <- <-. pose proof (removed_owned f pm name s HO Ec) as HR.
    destruct (erase_process_names name _ (owned_unique _ _ HO)) as (He & _).
    set (s1 := RouDi.set_port_manager pm s) in *.
    assert (Hq : quiet s1 (match feedback with
      | RouDi.SEND_ACK_TO_PROCESS =>
          RouDi.sendViaIpcChannel accepts name (IpcMessage.ctor [IpcMessageTypeToString IpcMessageType.TERMINATION_ACK]) s1
      | RouDi.DO_NOT_SEND_ACK_TO_PROCESS => s1 end)) by (destruct feedback; [apply send_quiet|reflexivity]).
    destruct Hq as [Hq1 Hq2]. split; [|simpl; rewrite Hq2; exact He].
    eapply owned_change; [exact HR|simpl; by rewrite Hq2|]. intros t i r Hr. left. etrans; [symmetry; apply (Hq1 t i)|exact Hr].
  - injection H as <- <-. split; [done|]. intros x. split; [|naive_solver]. intros Hx. split; [done|].
    intros ->. by apply find_process_None in Ef.
Qed.

Lemma addProcess_owned f now name pid user mon ts sid v s r s' : Owned f s -> name ∉ names (RouDi.m_processList s) ->
  RouDi.addProcess repository m_mgmtSegmentId mgmtMemorySize segmentManagerAddress currentVersion m_compatibilityCheckLevel
    accepts now name pid user mon ts sid v s = (r, s') -> Owned f s'.
Proof.
  intros [H1 H2 H3] Hn. unfold RouDi.addProcess. destruct (negb _); [by intros [= <- <-]|].
  destruct (MAX_PROCESS_NUMBER <=? _) eqn:Hm; intros [= <- <-]; [done|]. apply Z.leb_gt in Hm.
  eapply quiet_owned; [apply send_quiet|]. split; simpl.
  - intros t i x Hx. apply H1 in Hx as [|Hx]; [by left|right]. rewrite names_app. apply elem_of_app. by left.
  - rewrite names_app. apply NoDup_app. repeat split; [done| |apply NoDup_singleton].
    intros x Hx ->%list_elem_of_singleton. done.
  - rewrite length_app. simpl. lia.
Qed.

Lemma register_owned f now name pid user mon ts sid v s r s' : Owned f s ->
  RouDi.registerProcess b sizeof_registry alignof_registry lock_held repository m_mgmtSegmentId mgmtMemorySize
    segmentManagerAddress currentVersion m_compatibilityCheckLevel accepts now name pid user mon ts sid v s = Done (r, s') ->
  Owned f s'.
Proof.
  intros HO. unfold RouDi.registerProcess. destruct (RouDi.findProcess name s) as [p|] eqn:Ef; intros H.
  - apply obind_Done_inv in H as ([removed s1] & E & H). apply (remove_owned f) in E as [HO1 Hn]; [|done].
    destruct removed; injection H; [|by intros <- <-]. intros Ha. eapply addProcess_owned; [exact HO1| |exact Ha].
    by rewrite Hn; intros [].
  - injection H as H. eapply addProcess_owned; [exact HO|by apply find_process_None|exact H].
Qed.

(** *** Monitoring *)

Lemma monitor_owned f now s s' : Owned f s ->
  RouDi.monitorProcesses b sizeof_registry alignof_registry lock_held now s = Done s' -> Owned f s'.
Proof.
  intros [H1 H2 H3] H. unfold RouDi.monitorProcesses in H. apply monitor_spec in H as [Hp Ho]. simpl in Hp. pose proof (alive_sublist now (RouDi.m_processList s)) as Hs.
  split; rewrite Hp.
  - intros t i r Hr. apply Ho in Hr as [Hr Hd]. destruct (H1 _ _ _ Hr) as [|Hin]; [by left|right].
    by apply (names_alive now) in Hin as [Hin|].
  - eapply sublist_NoDup; [exact H2|by apply (fmap_sublist Process.m_name)].
  - apply sublist_length in Hs. lia.
Qed.

Lemma run_owned f now s s' : Owned f s ->
  RouDi.run b sizeof_registry alignof_registry lock_held now s = Done s' -> Owned f s'.
Proof.
  intros HO H. unfold RouDi.run in H. apply obind_Done_inv in H as (s1 & E & H). apply (monitor_owned f) in E; [|done].
  unfold RouDi.discoveryUpdate in H. apply obind_Done_inv in H as (pm & Ed & H). injection H as <-.
  apply shrinks_owned; [done|]. by eapply doDiscovery_shrinks.
Qed.

(** *** Requests *)

Lemma answer_owned f name type mk errors r pm s : Owned f (RouDi.set_port_manager pm s) ->
  Owned f (RouDi.answer repository m_mgmtSegmentId address_of accepts name type mk errors r pm s).
Proof. intros H. unfold RouDi.answer. destruct r; (eapply quiet_owned; [apply send_quiet|exact H]). Qed.

Ltac with_process :=
  match goal with
  | |- context [RouDi.findProcess ?n ?s] =>
      let E := fresh "Ef" in destruct (RouDi.findProcess n s) as [?|] eqn:E; [apply find_process_Some in E|by intros [= <-]]
  end.

Lemma shutdownPreparation_owned f name s s' : Owned f s ->
  RouDi.handleProcessShutdownPreparationRequest b sizeof_registry alignof_registry accepts name s = Done s' -> Owned f s'.
Proof.
  intros HO. unfold RouDi.handleProcessShutdownPreparationRequest. with_process. intros H.
  apply obind_Done_inv in H as (pm & E & H). apply unblock_same in E. injection H as <-.
  eapply quiet_owned; [apply send_quiet|]. apply shrinks_owned; [done|by apply same_shrinks].
Qed.

Lemma addInterface_owned f name interface s s' : Owned f s ->
  RouDi.addInterfaceForProcess b repository m_mgmtSegmentId address_of accepts name interface s = Done s' -> Owned f s'.
Proof.
  intros HO. unfold RouDi.addInterfaceForProcess. with_process. intros H.
  apply obind_Done_inv in H as ([port pm] & E & H). apply acquireInterface_grows in E. injection H as <-.
  eapply quiet_owned; [apply send_quiet|]. by eapply grows_owned.
Qed.

Lemma addNode_owned f name node s s' : Owned f s ->
  RouDi.addNodeForProcess repository m_mgmtSegmentId address_of accepts name node s = Done s' -> Owned f s'.
Proof.
  intros HO. unfold RouDi.addNodeForProcess. with_process.
  destruct (PortManager.acquireNodeData _ _ _) as [r pm] eqn:E. apply acquireNode_grows in E. intros [= <-].
  apply answer_owned. by eapply grows_owned.
Qed.

Lemma addConditionVariable_owned f name s s' : Owned f s ->
  RouDi.addConditionVariableForProcess b repository m_mgmtSegmentId address_of accepts name s = Done s' -> Owned f s'.
Proof.
  intros HO. unfold RouDi.addConditionVariableForProcess. with_process.
  destruct (PortManager.acquireConditionVariableData _ _ _) as [r pm] eqn:E. apply acquireConditionVariable_grows in E.
  intros [= <-]. apply answer_owned. by eapply grows_owned.
Qed.

Lemma addSubscriber_owned f name service o s s' : Owned f s ->
  RouDi.addSubscriberForProcess b repository m_mgmtSegmentId address_of accepts name service o s = Done s' -> Owned f s'.
Proof.
  intros HO. unfold RouDi.addSubscriberForProcess. with_process. intros H.
  apply obind_Done_inv in H as ([r pm] & E & H). apply acquireSubscriber_grows in E. injection H as <-.
  apply answer_owned. by eapply grows_owned.
Qed.

Ltac with_segment :=
  match goal with
  | |- context [getSegmentInformationWithWriteAccessForUser ?g ?l] =>
      destruct (getSegmentInformationWithWriteAccessForUser g l) as [?|];
      [|intros [= <-]; by eapply quiet_owned; [apply send_quiet|]]
  end.

Lemma addPublisher_owned f name service o s s' : Owned f s ->
  RouDi.addPublisherForProcess b sizeof_registry alignof_registry lock_held repository m_mgmtSegmentId address_of groups_of
    segments accepts name service o s = Done s' -> Owned f s'.
Proof.
  intros HO. unfold RouDi.addPublisherForProcess. with_process. with_segment. intros H.
  apply obind_Done_inv in H as ([r pm] & E & H). apply acquirePublisher_grows in E. injection H as <-.
  apply answer_owned. by eapply grows_owned.
Qed.

Lemma addClient_owned f name service o s s' : Owned f s ->
  RouDi.addClientForProcess b repository m_mgmtSegmentId address_of groups_of segments accepts name service o s = Done s' ->
  Owned f s'.
Proof.
  intros HO. unfold RouDi.addClientForProcess. with_process. with_segment. intros H.
  apply obind_Done_inv in H as ([r pm] & E & H). apply acquireClient_grows in E. injection H as <-.
  apply answer_owned. by eapply grows_owned.
Qed.

Lemma addServer_owned f name service o s s' : Owned f s ->
  RouDi.addServerForProcess b sizeof_registry alignof_registry lock_held repository m_mgmtSegmentId address_of groups_of
    segments accepts name service o s = Done s' -> Owned f s'.
Proof.
  intros HO. unfold RouDi.addServerForProcess. with_process. with_segment. intros H.
  apply obind_Done_inv in H as ([r pm] & E & H). apply acquireServer_grows in E. injection H as <-.
  apply answer_owned. by eapply grows_owned.
Qed.

(** *** Messages *)

Lemma with_elements_owned f n m k s s' : Owned f s -> (forall s s', Owned f s -> k s = Done s' -> Owned f s') ->
  RouDi.with_elements n m k s = Done s' -> Owned f s'.
Proof. intros HO Hk. unfold RouDi.with_elements. destruct (negb _); [by intros [= <-]|by apply Hk]. Qed.

Lemma with_description_owned f {O} m parse (k : ServiceDescription.t -> O -> RouDi.t -> outcome RouDi.t) s s' : Owned f s ->
  (forall d o s s', Owned f s -> k d o s = Done s' -> Owned f s') -> RouDi.with_description m parse k s = Done s' -> Owned f s'.
Proof.
  intros HO Hk H. unfold RouDi.with_description in H. apply obind_Done_inv in H as (d & _ & H).
  destruct d as [d|]; [|by injection H as <-]. apply obind_Done_inv in H as (o & _ & H).
  destruct o as [o|]; [|by injection H as <-]. apply obind_Done_inv in H as (c & _ & H). by eapply Hk.
Qed.

Lemma drop_result_owned f {A} (x : outcome (A * RouDi.t)) s' : (forall r s, x = Done (r, s) -> Owned f s) ->
  RouDi.drop_result x = Done s' -> Owned f s'.
Proof.
  intros Hx H. unfold RouDi.drop_result in H. apply obind_Done_inv in H as ([r s] & E & H). injection H as <-. by eapply Hx.
Qed.

Notation processRuntimeMessage := (RouDi.processRuntimeMessage b sizeof_registry alignof_registry lock_held repository
  m_mgmtSegmentId mgmtMemorySize segmentManagerAddress address_of groups_of segments currentVersion
  m_compatibilityCheckLevel m_monitoringMode accepts).

Lemma register_message_owned f now m name s s' : Owned f s ->
  RouDi.register b sizeof_registry alignof_registry lock_held repository m_mgmtSegmentId mgmtMemorySize
    segmentManagerAddress currentVersion m_compatibilityCheckLevel m_monitoringMode accepts now m name s = Done s' -> Owned f s'.
Proof.
  intros HO H. unfold RouDi.register in H. cbv zeta in H. apply obind_Done_inv in H as (v & _ & H). revert H.
  apply drop_result_owned. intros r s1. apply register_owned. destruct HO. by split.
Qed.

Lemma message_owned f now text s s' : Owned f s -> processRuntimeMessage now text s = Done s' -> Owned f s'.
Proof.
  intros HO H. unfold RouDi.processRuntimeMessage in H.
  destruct (IpcInterfaceBase.setMessageFromString text) as [valid m]. destruct (negb valid); [by injection H as <-|].
  cbv zeta in H. revert H. generalize (stringToIpcMessageType (c_str (IpcMessage.getElementAtIndex 0 m))).
  generalize (str_take MAX_NAME_LENGTH (c_str (IpcMessage.getElementAtIndex 1 m))). intros name cmd H.
  assert (Hdefault : forall s', Done (RouDi.sendMessageNotSupportedToRuntime accepts name s) = Done s' -> Owned f s').
  { intros s1 [= <-]. unfold RouDi.sendMessageNotSupportedToRuntime. destruct (RouDi.findProcess _ _); [|done].
    by eapply quiet_owned; [apply send_quiet|]. }
  unfold RouDi.processMessage in H. destruct cmd; try (by apply Hdefault); clear Hdefault;
    try (revert H; apply with_elements_owned; [exact HO|]; clear s s' HO; intros s s' HO H).
  all: try (revert H; apply with_description_owned; [exact HO|]; clear s s' HO; intros d o s s' HO H).
  all: try (first [by eapply register_message_owned|by eapply addPublisher_owned|by eapply addSubscriber_owned
    |by eapply addClient_owned|by eapply addServer_owned|by eapply addConditionVariable_owned
    |by eapply shutdownPreparation_owned]).
  - destruct (StringToCaProInterface _); [by eapply addInterface_owned|done].
  - apply obind_Done_inv in H as (n & _ & H). by eapply addNode_owned.
  - injection H as <-. unfold RouDi.updateLivelinessOfProcess. destruct (touch_names now name (RouDi.m_processList s)) as [Hn Hl].
    destruct HO as [H1 H2 H3]. split; simpl; [by rewrite Hn|by rewrite Hn|by rewrite Hl].
  - revert H. apply drop_result_owned. intros r s1 H. by eapply remove_owned in H as [H _].
Qed.

(** *** The shutdown of RouDi *)

Lemma requestShutdown_quiet p policy s : quiet s (snd (RouDi.requestShutdownOfProcess kill p policy s)).
Proof. unfold RouDi.requestShutdownOfProcess. destruct (_ =? _); by split. Qed.

Lemma requestShutdowns_quiet policy l : forall s,
  quiet s (foldl (fun s p => snd (RouDi.requestShutdownOfProcess kill p policy s)) s l).
Proof. induction l as [|p l IH]; intros s; [reflexivity|]. simpl. etrans; [apply requestShutdown_quiet|apply IH]. Qed.

Lemma any_alive_quiet l : forall s, quiet s (snd (RouDi.any_alive kill l s)).
Proof.
  induction l as [|p l IH]; intros s; [reflexivity|]. simpl. unfold RouDi.isProcessAlive.
  destruct (_ =? 0); [reflexivity|]. destruct (_ =? _); [apply IH|by split].
Qed.

Lemma requestShutdownOfAll_owned f s s' : Owned f s ->
  RouDi.requestShutdownOfAllProcesses b sizeof_registry alignof_registry kill s = Done s' -> Owned f s'.
Proof.
  intros HO H. unfold RouDi.requestShutdownOfAllProcesses in H. cbv zeta in H.
  apply obind_Done_inv in H as (pm & E & H). apply unblockRouDi_same in E. injection H as <-.
  apply shrinks_owned; [|by apply same_shrinks]. eapply quiet_owned; [apply requestShutdowns_quiet|exact HO].
Qed.

(** *** Reachable states

    RouDi starts with empty tables.  While it runs, one thread executes messages and
    one monitors the applications and connects their ports.  [RouDi::shutdown] joins
    the monitoring thread, asks the applications to stop, forces them to, and at last
    forgets the ones that are still there; the message thread runs on.  In between
    the applications read their channels and work with their ports; all they can do
    leaves the objects and their owners. *)

Definition no_objects (pool : PortPool.t) : Prop :=
  PortPool.m_publisherPortMembers pool = [] /\ PortPool.m_subscriberPortMembers pool = [] /\
  PortPool.m_serverPortMembers pool = [] /\ PortPool.m_clientPortMembers pool = [] /\
  PortPool.m_interfacePortMembers pool = [] /\ PortPool.m_nodeMembers pool = [] /\
  PortPool.m_conditionVariableMembers pool = [].

Inductive phase := Running | ShuttingDown | Forgotten (l : list Process.t).

(** The applications that were in the list when it was cleared. *)
Definition forgotten (ph : phase) : list Process.t :=
  match ph with Running | ShuttingDown => [] | Forgotten l => l end.

Inductive reachable : phase -> RouDi.t -> Prop :=
  | reach_start services node mm pool pm : no_objects pool ->
      PortManager.ctor b sizeof_registry alignof_registry lock_held services node mm pool = Done pm ->
      reachable Running (RouDi.mk pm [] [] 0)
  | reach_message ph now text s s' : reachable ph s -> processRuntimeMessage now text s = Done s' -> reachable ph s'
  | reach_run now s s' : reachable Running s ->
      RouDi.run b sizeof_registry alignof_registry lock_held now s = Done s' -> reachable Running s'
  | reach_application ph pm s : reachable ph s -> same (RouDi.m_portManager s) pm ->
      reachable ph (RouDi.set_port_manager pm s)
  | reach_receive ph l s : reachable ph s -> reachable ph (RouDi.set_outbox l s)
  | reach_join s : reachable Running s -> reachable ShuttingDown s
  | reach_shutdown s s' : reachable ShuttingDown s ->
      RouDi.requestShutdownOfAllProcesses b sizeof_registry alignof_registry kill s = Done s' -> reachable ShuttingDown s'
  | reach_running s : reachable ShuttingDown s ->
      reachable ShuttingDown (snd (RouDi.isAnyRegisteredProcessStillRunning kill s))
  | reach_kill s : reachable ShuttingDown s -> reachable ShuttingDown (RouDi.killAllProcesses kill s)
  | reach_clear s : reachable ShuttingDown s ->
      reachable (Forgotten (RouDi.m_processList s)) (RouDi.printWarningForRegisteredProcessesAndClearProcessList s).

Lemma acquireInternal_grows service o mm s i s' :
  PortManager.acquireInternalPublisherPortDataWithoutDiscovery b sizeof_registry alignof_registry lock_held service o mm s
    = Done (i, s') -> grows IPC_CHANNEL_ROUDI_NAME s s'.
Proof.
  intros H. apply obind_Done_inv in H as ([r s1] & E & H). apply acquirePublisherWithoutDiscovery_grows in E.
  destruct r; [by injection H as <- <-|done].
Qed.

Lemma ctor_owner services node mm pool s t i r : no_objects pool ->
  PortManager.ctor b sizeof_registry alignof_registry lock_held services node mm pool = Done s ->
  owner s t i = Some r -> r = IPC_CHANNEL_ROUDI_NAME.
Proof.
  intros Hpool H Hr. unfold PortManager.ctor in H. set (s0 := PortManager.mk _ _ _ _ _) in H.
  assert (H0 : forall t i, owner s0 t i = None).
  { destruct Hpool as (? & ? & ? & ? & ? & ? & ?). intros t' i'. destruct t'; unfold owner, row, s0, PortManager.publishers,
      PortManager.subscribers, PortManager.servers, PortManager.clients, PortManager.interfaces, PortManager.nodes,
      PortManager.condition_variables; simpl; match goal with E : ?x = [] |- context [?x] => by rewrite E end. }
  apply obind_Done_inv in H as ([j s1] & E1 & H). apply acquireInternal_grows in E1.
  apply obind_Done_inv in H as (s2 & E2 & H). apply publisher_discovery_same in E2.
  assert (HG : grows IPC_CHANNEL_ROUDI_NAME s0 s2).
  { intros t' i' r' Hr'. apply E1. rewrite (E2 t' i') in Hr'. exact Hr'. }
  clear E1 E2.
  assert (HS : grows IPC_CHANNEL_ROUDI_NAME s0 s).
  { revert s2 HG H. induction services as [|d services IH]; intros s2 HG H; simpl in H; [by injection H as <-|].
    destruct (PortManager.acquireInternalPublisherPortData b sizeof_registry alignof_registry lock_held d
      (PortManager.internal_options node) mm s2) as [[i' s3]|] eqn:E; cbn [obind] in H.
    - eapply IH; [|exact H]. apply obind_Done_inv in E as ([i1 s4] & E1 & E). apply acquireInternal_grows in E1.
      apply obind_Done_inv in E as (s5 & E5 & E). apply publisher_discovery_same in E5. injection E as <- <-.
      eapply grows_trans; [exact HG|]. by rewrite <- E5.
    - exfalso. clear -H. induction services as [|d' services IH]; simpl in H; [done|by apply IH]. }
  destruct (HS _ _ _ Hr) as [Hn|]; [by rewrite H0 in Hn|done].
Qed.

Lemma clear_owned s : Owned [] s ->
  Owned (names (RouDi.m_processList s)) (RouDi.printWarningForRegisteredProcessesAndClearProcessList s).
Proof.
  intros [H1 H2 H3]. split; simpl; [|constructor|done]. intros t i r Hr. left.
  apply H1 in Hr as [->%list_elem_of_singleton|Hr]; [by left|by right].
Qed.

Lemma reachable_owned ph s : reachable ph s -> Owned (names (forgotten ph)) s.
Proof.
  induction 1 as [services node mm pool pm Hp H|ph now text s s' _ IH H|now s s' _ IH H|ph pm s _ IH H|ph l s _ IH
                 |s _ IH|s s' _ IH H|s _ IH|s _ IH|s _ IH].
  - split; simpl; [|constructor|done]. intros t i r Hr. left. eapply ctor_owner in Hr as ->; [by left|done..].
  - by eapply message_owned.
  - by eapply run_owned.
  - apply shrinks_owned; [done|by apply same_shrinks].
  - destruct IH. by split.
  - done.
  - by eapply requestShutdownOfAll_owned.
  - eapply quiet_owned; [apply any_alive_quiet|done].
  - eapply quiet_owned; [apply requestShutdowns_quiet|done].
  - by apply clear_owned.
Qed.
End roudi.

(** ** Theorems *)

(** C6: in every reachable state of RouDi, from its start to the end of its shutdown,
    each port, node and condition variable belongs to RouDi itself or to an application
    in the list of processes, or to one that was in the list when the shutdown cleared
    it, which happens only after the monitoring has ended; the list has no two entries
    with the same name and at most [MAX_PROCESS_NUMBER] entries. *)
Theorem objects_have_owner b sizeof_registry alignof_registry lock_held repository m_mgmtSegmentId mgmtMemorySize
    segmentManagerAddress address_of groups_of segments currentVersion m_compatibilityCheckLevel m_monitoringMode accepts kill ph s :
  reachable b sizeof_registry alignof_registry lock_held repository m_mgmtSegmentId mgmtMemorySize segmentManagerAddress
    address_of groups_of segments currentVersion m_compatibilityCheckLevel m_monitoringMode accepts kill ph s ->
  (forall t i r, owner (RouDi.m_portManager s) t i = Some r ->
     r = IPC_CHANNEL_ROUDI_NAME \/
     (exists p, p ∈ RouDi.m_processList s /\ Process.m_name p = r) \/
     (exists l p, ph = Forgotten l /\ p ∈ l /\ Process.m_name p = r)) /\
  NoDup (Process.m_name <$> RouDi.m_processList s) /\
  Z.of_nat (length (RouDi.m_processList s)) <= MAX_PROCESS_NUMBER.
Proof.
  intros [H1 H2 H3]%reachable_owned. split; [|done]. intros t i r Hr.
  apply H1 in Hr as [[->|(p & -> & Hp)%list_elem_of_fmap]%elem_of_cons|(p & -> & Hp)%list_elem_of_fmap]; [by left|..].
  - do 2 right. destruct ph as [| |l]; [by apply not_elem_of_nil in Hp..|]. by exists l, p.
  - right. left. by exists p.
Qed.

(** C18: a round of the monitoring removes exactly the applications that are
    monitored and gave no sign of life for longer than the timeout, and with them
    exactly the ports, nodes and condition variables that belong to them. *)
Theorem monitoring_removes_exactly b sizeof_registry alignof_registry lock_held now s s' :
  RouDi.monitorProcesses b sizeof_registry alignof_registry lock_held now s = Done s' ->
  (forall p, p ∈ RouDi.m_processList s' <->
     p ∈ RouDi.m_processList s /\
     ~ (Process.m_isMonitored p = true /\ PROCESS_KEEP_ALIVE_TIMEOUT < now - Process.m_timestamp p)) /\
  (forall t i r, owner (RouDi.m_portManager s') t i = Some r <->
     owner (RouDi.m_portManager s) t i = Some r /\
     ~ (exists p, p ∈ RouDi.m_processList s /\ Process.m_name p = r /\ Process.m_isMonitored p = true /\
                  PROCESS_KEEP_ALIVE_TIMEOUT < now - Process.m_timestamp p)).
Proof.
  assert (Ht : forall p, timed_out now p = true <->
    Process.m_isMonitored p = true /\ PROCESS_KEEP_ALIVE_TIMEOUT < now - Process.m_timestamp p).
  { intros p. unfold timed_out. rewrite andb_true_iff, Z.ltb_lt.
    assert (0 < PROCESS_KEEP_ALIVE_TIMEOUT) by reflexivity. intuition lia. }
  unfold RouDi.monitorProcesses. intros [Hp Ho]%monitor_spec. split.
  - intros p. rewrite Hp. unfold alive. simpl. rewrite list_elem_of_In, filter_In, <- list_elem_of_In, negb_true_iff, <- Ht.
    by rewrite not_true_iff_false.
  - intros t i r. rewrite Ho. unfold names, dead. rewrite list_elem_of_fmap. setoid_rewrite list_elem_of_In.
    setoid_rewrite filter_In. setoid_rewrite Ht. naive_solver.
Qed.
