(* ===== verification/Requests.v ===== *)
(** * Requests

    The way of a request of an application through the IPC channels: the runtime
    writes it as text, RouDi parses it, executes it and writes the answer, and the
    runtime parses the answer.  The theorem is that the way is transparent: the
    result and the effect are those of a direct call of [PortManager]. *)

From S2P Require Import Prelude ChunkHeader MemoryManager SharedChunk Queue VariantQueue ConditionVariable.
From S2P Require Import ChunkQueue ChunkDistributor ChunkSender CaPro PubSubPorts ClientServerPorts RelativePointer.
From S2P Require Import ServiceRegistry PortPool PortManager Serialization IpcMessage RouDi PoshRuntime.
From Stdlib Require Import Ascii String.

(** ** Texts that can be an entry of a message *)

Definition clean (s : string) : Prop := entry_ok s /\ no_char zero s.

Definition value_clean (v : Serialization.value) : Prop :=
  match v with
  | Serialization.VString s => clean s /\ size s <= 100
  | Serialization.VUnsigned n => 0 <= n < 2 ^ 64
  | Serialization.VBool _ => True
  end.

Lemma digits_clean n : 0 <= n < 2 ^ 64 -> clean (convert.toString n).
Proof. intros H. destruct (toString_spec n H) as (Hd & _). split; by apply all_digits_no_char. Qed.

Lemma value_text_clean v : value_clean v -> clean (Serialization.getString v) /\ 0 <= size (Serialization.getString v) < 2 ^ 64.
Proof.
  destruct v as [s|n|x]; cbn [value_clean Serialization.getString].
  - intros [H1 H2]. split; [done|]. pose proof (size_nonneg s). lia.
  - intros H. split; [by apply digits_clean|]. destruct (toString_spec n H) as (_ & _ & Hs & _).
    pose proof (size_nonneg (convert.toString n)). lia.
  - intros _. destruct x; (split; [apply digits_clean; lia|vm_compute; split; congruence]).
Qed.

Lemma clean_app a b : clean (a +:+ b) <-> clean a /\ clean b.
Proof. unfold clean, entry_ok. rewrite !no_char_app. tauto. Qed.

Lemma clean_cons c s : c <> IpcMessage.m_separator -> c <> zero -> clean s -> clean (String c s).
Proof. intros H1 H2 [H3 H4]. split; by apply no_char_cons. Qed.

Lemma create_clean vs : Forall value_clean vs -> clean (Serialization.create vs).
Proof.
  unfold Serialization.create. induction 1 as [|v vs Hv _ IH]; [done|]. apply value_text_clean in Hv as [Hc Hs].
  cbn [Serialization.serializer]. apply clean_app. split; [by apply digits_clean|]. apply clean_cons; [done..|].
  by apply clean_app.
Qed.

(** Case by case: the serialized types. *)

Definition name_clean (s : string) : Prop := plain s /\ entry_ok s.

Lemma name_value s : name_clean s -> value_clean (Serialization.VString s).
Proof. intros [[H1 H2] H3]. by split. Qed.

Definition description_clean (d : ServiceDescription.t) : Prop :=
  description_ok d /\ entry_ok (ServiceDescription.m_serviceString d) /\ entry_ok (ServiceDescription.m_instanceString d) /\
  entry_ok (ServiceDescription.m_eventString d).

Lemma capacity_word n : capacity_ok n -> 0 <= n < 2 ^ 64.
Proof. unfold capacity_ok, UINT64_MAX. lia. Qed.

Ltac texts := repeat (apply Forall_cons; split); try apply Forall_nil_2.

Lemma description_text d : description_clean d -> clean (ServiceDescriptionText.serialize d).
Proof.
  intros ((H1 & H2 & H3 & Hl & Hh & Hs & Hi) & E1 & E2 & E3). unfold ServiceDescriptionText.serialize. apply create_clean.
  destruct (ServiceDescription.m_classHash d) as [|h0 [|h1 [|h2 [|h3 [|]]]]]; try done.
  apply Forall_cons in Hh as [B0 [B1 [B2 [B3 _]%Forall_cons]%Forall_cons]%Forall_cons]. unfold u32_word in *.
  texts; try (by apply name_value).
  - change (0 <= h0 < 2 ^ 64). lia.
  - change (0 <= h1 < 2 ^ 64). lia.
  - change (0 <= h2 < 2 ^ 64). lia.
  - change (0 <= h3 < 2 ^ 64). lia.
  - by destruct (ServiceDescription.m_scope d).
  - by destruct (ServiceDescription.m_interfaceSource d).
Qed.

Lemma publisher_options_text o : sendable o -> entry_ok (PublisherOptions.nodeName o) ->
  clean (PublisherOptionsText.serialize o).
Proof.
  intros [Hc Hn] He. apply create_clean. texts; [by apply capacity_word|by apply name_value|done|].
  by destruct (PublisherOptions.subscriberTooSlowPolicy o).
Qed.

Lemma subscriber_options_text o : sendable o -> entry_ok (SubscriberOptions.nodeName o) ->
  clean (SubscriberOptionsText.serialize o).
Proof.
  intros (Hc & Hh & Hn) He. apply create_clean.
  texts; [by apply capacity_word|by apply capacity_word|by apply name_value|done| |done].
  by destruct (SubscriberOptions.queueFullPolicy o).
Qed.

Lemma client_options_text o : sendable o -> entry_ok (ClientOptions.nodeName o) -> clean (ClientOptionsText.serialize o).
Proof.
  intros [Hc Hn] He. apply create_clean. texts; [by apply capacity_word|by apply name_value|done|..].
  - by destruct (ClientOptions.responseQueueFullPolicy o).
  - by destruct (ClientOptions.serverTooSlowPolicy o).
Qed.

Lemma server_options_text o : sendable o -> entry_ok (ServerOptions.nodeName o) -> clean (ServerOptionsText.serialize o).
Proof.
  intros [Hc Hn] He. apply create_clean. texts; [by apply capacity_word|by apply name_value|done|..].
  - by destruct (ServerOptions.requestQueueFullPolicy o).
  - by destruct (ServerOptions.clientTooSlowPolicy o).
Qed.

Definition config_ok (p : PortConfigInfo.t) : Prop :=
  u32_word (PortConfigInfo.portType p) /\ u32_word (PortConfigInfo.deviceId p) /\ u32_word (PortConfigInfo.memoryType p).

Lemma config_text p : config_ok p -> clean (PortConfigInfo.serialize p).
Proof. unfold config_ok, u32_word. intros (H1 & H2 & H3). apply create_clean. texts; simpl; lia. Qed.

Lemma type_text x : x <> IpcMessageType.BEGIN -> clean (IpcMessageTypeToString x).
Proof. intros Hx. apply digits_clean. by destruct x. Qed.

Lemma error_text x : clean (IpcMessageErrorTypeToString x).
Proof. apply digits_clean. by destruct x. Qed.

(** ** Messages on the channels *)

(** An application reads the oldest message in its channel. *)
Fixpoint take_from (name : string) (l : list (string * string)) : option (string * list (string * string)) :=
  match l with
  | [] => None
  | (n, text) :: l =>
      if bool_decide (n = name) then Some (text, l)
      else match take_from name l with Some (t, l) => Some (t, (n, text) :: l) | None => None end
  end.

Definition inbox (name : string) (s : RouDi.t) : option (string * RouDi.t) :=
  match take_from name (RouDi.outbox s) with
  | Some (text, l) => Some (text, RouDi.set_outbox l s)
  | None => None
  end.

(** The application has read all of its messages. *)
Definition nothing_pending (name : string) (s : RouDi.t) : Prop := Forall (fun m => fst m <> name) (RouDi.outbox s).

Lemma take_from_last name text l : Forall (fun m => fst m <> name) l -> take_from name (l ++ [(name, text)]) = Some (text, l).
Proof.
  induction 1 as [|[n t] l Hn _ IH]; simpl.
  - by rewrite bool_decide_true.
  - rewrite bool_decide_false by done. by rewrite IH.
Qed.

Definition message_ok (entries : list string) : Prop :=
  Forall clean entries /\ Z.of_nat (List.length entries) < 2 ^ 32 /\ size (join entries) <= 512.

Lemma message_entries entries : message_ok entries -> Forall entry_ok entries.
Proof. intros (H & _). eapply Forall_impl; [exact H|]. by intros e []. Qed.

Lemma join_clean entries : Forall clean entries -> no_char zero (join entries).
Proof.
  induction 1 as [|e entries [_ He] _ IH]; [done|]. cbn [join]. apply no_char_app. split; [done|].
  by apply no_char_cons.
Qed.

Lemma message_sent entries : message_ok entries ->
  IpcInterfaceBase.send 512 (IpcMessage.ctor entries) = Some (join entries) /\
  IpcInterfaceBase.setMessageFromString (join entries) = (true, IpcMessage.ctor entries).
Proof.
  intros H. pose proof (message_entries _ H) as He. destruct H as (Hc & Hl & Hs).
  unfold IpcInterfaceBase.send, IpcInterfaceBase.setMessageFromString. rewrite c_str_id by by apply join_clean.
  rewrite setMessage_join, message_ctor_ok by done. unfold IpcMessage.isValid, IpcMessage.getMessage. simpl.
  destruct (Z.ltb_spec 512 (size (join entries))); [lia|done].
Qed.

Lemma message_element entries i : message_ok entries ->
  IpcMessage.getElementAtIndex i (IpcMessage.ctor entries) = default EmptyString (entries !! i).
Proof. intros H. pose proof (message_entries _ H). destruct H as (_ & Hl & _). by apply getElement_ctor. Qed.

Lemma message_count entries : message_ok entries ->
  IpcMessage.getNumberOfElements (IpcMessage.ctor entries) = Z.of_nat (List.length entries).
Proof. intros H. pose proof (message_entries _ H). destruct H as (_ & Hl & _). by rewrite message_ctor_ok. Qed.

(** A message of few short entries. *)
Lemma short_message entries : Forall (fun e => clean e /\ size e <= 20) entries -> Z.of_nat (List.length entries) <= 20 ->
  message_ok entries.
Proof.
  intros H Hl. split_and!; [eapply Forall_impl; [exact H|by intros e []]|lia|].
  assert (Hs : size (join entries) <= 21 * Z.of_nat (List.length entries)); [|lia]. clear Hl.
  induction H as [|e entries [_ He] _ IH]; [done|]. cbn [join]. rewrite size_app, size_String. cbn [List.length]. lia.
Qed.

Lemma number_entry n : 0 <= n < 2 ^ 64 -> clean (convert.toString n) /\ size (convert.toString n) <= 20.
Proof. intros H. split; [by apply digits_clean|by destruct (toString_spec n H) as (_ & _ & Hs & _)]. Qed.

(** ** Requests and answers *)

Section requests.
Context (b : Build) (sizeof_registry alignof_registry : Z) (lock_held : Z -> bool).
Context (roudi_repository : PointerRepository.t) (m_mgmtSegmentId mgmtMemorySize segmentManagerAddress : Z).
Context (address_of : object -> Z) (groups_of : Z -> list string) (segments : Segments).
Context (currentVersion : VersionInfo.t) (m_compatibilityCheckLevel : VersionInfo.CompatibilityCheckLevel).
Context (m_monitoringMode : bool) (accepts : string -> bool) (now : Z).

Notation processMessage := (RouDi.processMessage b sizeof_registry alignof_registry lock_held roudi_repository
  m_mgmtSegmentId mgmtMemorySize segmentManagerAddress address_of groups_of segments currentVersion
  m_compatibilityCheckLevel m_monitoringMode accepts).
Notation getOffset := (RouDi.getOffset roudi_repository m_mgmtSegmentId address_of).
Notation ack := (RouDi.ack roudi_repository m_mgmtSegmentId address_of).

(** RouDi executes one message. *)
Definition roudi (text : string) (s : RouDi.t) : outcome RouDi.t :=
  RouDi.processRuntimeMessage b sizeof_registry alignof_registry lock_held roudi_repository m_mgmtSegmentId mgmtMemorySize
    segmentManagerAddress address_of groups_of segments currentVersion m_compatibilityCheckLevel m_monitoringMode accepts
    now text s.

(** The objects of RouDi are in its segment for management data, below the
    offset that means null. *)
Context (Hsegment : 0 <= m_mgmtSegmentId < UINT64_MAX) (Hoffset : forall o, 0 <= getOffset o < UINT64_MAX).

(** The application and its state at RouDi. *)
Context (a : PoshRuntime.t) (r : RouDi.t) (p : Process.t).
Notation name := (PoshRuntime.m_appName a).
Context (Hname : name_clean name) (Hregistered : RouDi.findProcess name r = Some p).
Context (Haccepts : accepts name = true) (Hpending : nothing_pending name r).

Notation sendRequestToRouDi := (PoshRuntime.sendRequestToRouDi roudi inbox).

(** What the application gets of the state RouDi is in after the request. *)
Definition receive (s : RouDi.t) : outcome (option IpcMessage.t * RouDi.t) :=
  match inbox name s with
  | None => Terminated DOES_NOT_RETURN
  | Some (text, s) =>
      let '(valid, m) := IpcInterfaceBase.setMessageFromString text in Done (if valid : bool then Some m else None, s)
  end.

Lemma request_sent x rest s : x <> IpcMessageType.BEGIN -> x <> IpcMessageType.END_ ->
  message_ok (IpcMessageTypeToString x :: name :: rest) ->
  sendRequestToRouDi (IpcMessage.ctor (IpcMessageTypeToString x :: name :: rest)) a s =
  let* s := processMessage now (IpcMessage.ctor (IpcMessageTypeToString x :: name :: rest)) x name s in receive s.
Proof.
  intros Hx1 Hx2 Hm. unfold PoshRuntime.sendRequestToRouDi, IpcInterfaceBase.ROUDI_MESSAGE_SIZE.
  destruct (message_sent _ Hm) as [-> E]. unfold roudi, RouDi.processRuntimeMessage. rewrite E. cbn [negb].
  assert (E0 := message_element _ 0 Hm). assert (E1 := message_element _ 1 Hm).
  change (default EmptyString _) with (IpcMessageTypeToString x) in E0. change (default EmptyString _) with name in E1.
  rewrite E0, E1. destruct Hname as [[Hn Hz] _]. rewrite (c_str_id name) by done.
  rewrite str_take_all by (unfold size in Hn; unfold MAX_NAME_LENGTH; lia).
  rewrite c_str_id by by apply type_text. rewrite type_roundtrip by done. reflexivity.
Qed.

Lemma answer_received entries s : message_ok entries -> nothing_pending name s ->
  receive (RouDi.sendViaIpcChannel accepts name (IpcMessage.ctor entries) s) = Done (Some (IpcMessage.ctor entries), s).
Proof.
  intros Hm Hp. unfold receive, RouDi.sendViaIpcChannel, IpcInterfaceBase.APP_MESSAGE_SIZE.
  destruct (message_sent _ Hm) as [-> E]. rewrite Haccepts. unfold inbox. cbn [RouDi.outbox RouDi.set_outbox].
  rewrite take_from_last by exact Hp. rewrite E. by destruct s.
Qed.

Lemma word_max n : 0 <= n < UINT64_MAX -> 0 <= n < 2 ^ 64.
Proof. unfold UINT64_MAX. lia. Qed.

Definition ack_entries (type : IpcMessageType.t) (o : object) : list string :=
  [IpcMessageTypeToString type; convert.toString (getOffset o); convert.toString m_mgmtSegmentId].
Definition failure_entries (e : IpcMessageErrorType.t) : list string :=
  [IpcMessageTypeToString IpcMessageType.ERROR; IpcMessageErrorTypeToString e].

Lemma type_entry x : x <> IpcMessageType.BEGIN -> clean (IpcMessageTypeToString x) /\ size (IpcMessageTypeToString x) <= 20.
Proof. intros Hx. apply number_entry. by destruct x. Qed.

Lemma ack_ok type o : type <> IpcMessageType.BEGIN -> message_ok (ack_entries type o).
Proof.
  intros Ht. apply short_message; [|done]. texts; [by apply type_entry|apply number_entry, word_max, Hoffset|].
  by apply number_entry, word_max.
Qed.

Lemma failure_ok e : message_ok (failure_entries e).
Proof. apply short_message; [|done]. texts; [by apply type_entry|]. apply number_entry. by destruct e. Qed.

Lemma entry_number i n m : 0 <= n < UINT64_MAX -> IpcMessage.getElementAtIndex i m = convert.toString n ->
  default 0 (convert.fromString_uint64 (c_str (IpcMessage.getElementAtIndex i m))) = n.
Proof.
  intros Hn ->. destruct (number_entry n (word_max n Hn)) as [[_ Hz] _]. rewrite c_str_id by done.
  unfold convert.fromString_uint64. by rewrite fromString_unsigned_toString by (unfold UINT64_MAX in *; lia).
Qed.

Lemma ack_type type o : type <> IpcMessageType.BEGIN -> type <> IpcMessageType.END_ ->
  PoshRuntime.has_type type (ack type o) = true.
Proof.
  intros H1 H2. unfold PoshRuntime.has_type. assert (E := message_element _ 0 (ack_ok type o H1)).
  change (default EmptyString _) with (IpcMessageTypeToString type) in E. unfold RouDi.ack. unfold ack_entries in E. rewrite E.
  rewrite c_str_id by by apply type_text. by rewrite type_roundtrip, bool_decide_true.
Qed.

Lemma ack_pointer type o : type <> IpcMessageType.BEGIN ->
  PoshRuntime.pointer (ack type o) a = BaseRelativePointer.getPtr (PoshRuntime.repository a) m_mgmtSegmentId (getOffset o).
Proof.
  intros H1. unfold PoshRuntime.pointer.
  assert (E1 := message_element _ 1 (ack_ok type o H1)). assert (E2 := message_element _ 2 (ack_ok type o H1)).
  by rewrite (entry_number 1 (getOffset o)), (entry_number 2 m_mgmtSegmentId).
Qed.

Lemma failure_value e : e <> IpcMessageErrorType.BEGIN -> e <> IpcMessageErrorType.END_ ->
  stringToIpcMessageErrorType (c_str (IpcMessage.getElementAtIndex 1 (RouDi.failure e))) = e.
Proof.
  intros H1 H2. assert (E := message_element _ 1 (failure_ok e)).
  change (default EmptyString _) with (IpcMessageErrorTypeToString e) in E. unfold RouDi.failure. unfold failure_entries in E.
  rewrite E, c_str_id by apply error_text. by apply error_type_roundtrip.
Qed.

Lemma failure_type e : PoshRuntime.has_type IpcMessageType.ERROR (RouDi.failure e) = true.
Proof.
  unfold PoshRuntime.has_type. assert (E := message_element _ 0 (failure_ok e)).
  change (default EmptyString _) with (IpcMessageTypeToString IpcMessageType.ERROR) in E. unfold RouDi.failure.
  unfold failure_entries in E. by rewrite E.
Qed.

(** A type of messages that are sent. *)
Definition real (x : IpcMessageType.t) : Prop := x <> IpcMessageType.BEGIN /\ x <> IpcMessageType.END_.
Definition real_error (e : IpcMessageErrorType.t) : Prop := e <> IpcMessageErrorType.BEGIN /\ e <> IpcMessageErrorType.END_.

(** The result of a request, given what the port manager answered. *)
Definition granted (mk_object : nat -> object) (errors : PortPoolError -> IpcMessageErrorType.t)
    (res : expected nat PortPoolError) : expected Z IpcMessageErrorType.t :=
  match res with
  | success i => success (BaseRelativePointer.getPtr (PoshRuntime.repository a) m_mgmtSegmentId (getOffset (mk_object i)))
  | error e => error (errors e)
  end.

Lemma request_refused ackType invalid wrong x rest e : real x -> real ackType -> real_error e ->
  message_ok (IpcMessageTypeToString x :: name :: rest) ->
  processMessage now (IpcMessage.ctor (IpcMessageTypeToString x :: name :: rest)) x name r =
    Done (RouDi.sendViaIpcChannel accepts name (RouDi.failure e) r) ->
  PoshRuntime.request roudi inbox ackType invalid wrong (IpcMessage.ctor (IpcMessageTypeToString x :: name :: rest)) a r =
    Done (error e, r).
Proof.
  intros [Hx1 Hx2] [Ht1 Ht2] [He1 He2] Hm E. unfold PoshRuntime.request. rewrite request_sent, E by done. cbn [obind].
  rewrite (answer_received (failure_entries e)) by (done || apply failure_ok). cbn [obind].
  change (IpcMessage.ctor (failure_entries e)) with (RouDi.failure e).
  assert (Hn : IpcMessage.getNumberOfElements (RouDi.failure e) = 2) by exact (message_count _ (failure_ok e)).
  rewrite Hn, failure_type, failure_value by done. reflexivity.
Qed.

Lemma request_executed ackType invalid wrong x rest mk_object errors (k : outcome (expected nat PortPoolError * PortManager.t)) :
  real x -> real ackType -> (forall e, real_error (errors e)) ->
  message_ok (IpcMessageTypeToString x :: name :: rest) ->
  processMessage now (IpcMessage.ctor (IpcMessageTypeToString x :: name :: rest)) x name r =
    (let* '(res, pm) := k in
     Done (RouDi.answer roudi_repository m_mgmtSegmentId address_of accepts name ackType mk_object
             (fun e => RouDi.failure (errors e)) res pm r)) ->
  PoshRuntime.request roudi inbox ackType invalid wrong (IpcMessage.ctor (IpcMessageTypeToString x :: name :: rest)) a r =
    let* '(res, pm) := k in Done (granted mk_object errors res, RouDi.set_port_manager pm r).
Proof.
  intros [Hx1 Hx2] [Ht1 Ht2] Herr Hm E. unfold PoshRuntime.request. rewrite request_sent, E by done.
  destruct k as [[res pm]|]; [|done]. cbn [obind]. unfold RouDi.answer. destruct res as [i|e].
  - rewrite (answer_received (ack_entries ackType (mk_object i))) by (done || by apply ack_ok). cbn [obind].
    change (IpcMessage.ctor (ack_entries ackType (mk_object i))) with (ack ackType (mk_object i)).
    assert (Hn : IpcMessage.getNumberOfElements (ack ackType (mk_object i)) = 3)
      by exact (message_count _ (ack_ok ackType (mk_object i) Ht1)).
    rewrite Hn, ack_type, ack_pointer by done. reflexivity.
  - destruct (Herr e) as [He1 He2].
    rewrite (answer_received (failure_entries (errors e))) by (done || apply failure_ok). cbn [obind].
    change (IpcMessage.ctor (failure_entries (errors e))) with (RouDi.failure (errors e)).
    assert (Hn : IpcMessage.getNumberOfElements (RouDi.failure (errors e)) = 2) by exact (message_count _ (failure_ok (errors e))).
    rewrite Hn, failure_type, failure_value by done. reflexivity.
Qed.

(** *** Requests for ports *)

Section ports.
Context (service : ServiceDescription.t) (portConfigInfo : PortConfigInfo.t).
Context (Hservice : description_clean service) (Hconfig : config_ok portConfigInfo).

(** The entries of the message. *)
Definition create_entries (type : IpcMessageType.t) (options : string) : list string :=
  [IpcMessageTypeToString type; name; ServiceDescriptionText.serialize service; options;
   PortConfigInfo.serialize portConfigInfo].

(** The text of the request is not longer than a channel takes. *)
Definition fits_channel (type : IpcMessageType.t) (options : string) : Prop := size (join (create_entries type options)) <= 512.

Lemma create_ok type options : real type -> clean options -> fits_channel type options -> message_ok (create_entries type options).
Proof.
  intros [Ht _] Ho Hf. destruct Hname as [[Hs Hz] He]. split_and!; [|done|exact Hf].
  texts; [by apply type_text|done|by apply description_text|done|by apply config_text].
Qed.

Lemma create_parsed {O} type options (o : O) parse_options (k : ServiceDescription.t -> O -> RouDi.t -> outcome RouDi.t) s :
  message_ok (create_entries type options) -> parse_options options = Done (success o) ->
  RouDi.with_elements 5 (IpcMessage.ctor (create_entries type options))
    (RouDi.with_description (IpcMessage.ctor (create_entries type options)) parse_options k) s = k service o s.
Proof.
  intros Hm Ho. unfold RouDi.with_elements. rewrite message_count by done. cbn [List.length create_entries].
  change (negb (Z.of_nat 5 =? 5)) with false. cbv iota. unfold RouDi.with_description.
  assert (E2 := message_element _ 2 Hm). assert (E3 := message_element _ 3 Hm). assert (E4 := message_element _ 4 Hm).
  change (default EmptyString _) with (ServiceDescriptionText.serialize service) in E2.
  change (default EmptyString _) with options in E3.
  change (default EmptyString _) with (PortConfigInfo.serialize portConfigInfo) in E4.
  rewrite E2, E3, E4. destruct Hservice as [Hs _]. rewrite description_roundtrip by done. cbn [obind]. rewrite Ho. cbn [obind].
  destruct Hconfig as (Hc1 & Hc2 & Hc3). rewrite port_config_roundtrip by done. reflexivity.
Qed.

(** What the application gets when the port manager answers [res] in state [pm]. *)
Definition result (mk_object : nat -> object) (errors : PortPoolError -> Error) (res : expected nat PortPoolError)
    (pm : PortManager.t) : Z * PoshRuntime.t * RouDi.t :=
  match res with
  | success i =>
      (BaseRelativePointer.getPtr (PoshRuntime.repository a) m_mgmtSegmentId (getOffset (mk_object i)), a,
       RouDi.set_port_manager pm r)
  | error e => (0, PoshRuntime.report (errors e) SEVERE a, RouDi.set_port_manager pm r)
  end.

Definition no_segment : Z * PoshRuntime.t * RouDi.t :=
  (0, PoshRuntime.report POSH__RUNTIME_NO_WRITABLE_SHM_SEGMENT SEVERE a, r).

Definition segment : option nat := getSegmentInformationWithWriteAccessForUser (groups_of (Process.m_user p)) segments.

Lemma finish_executed errors mk_object refusal (k : outcome (expected nat PortPoolError * PortManager.t)) :
  PoshRuntime.finish errors (let* '(res, pm) := k in Done (granted mk_object refusal res, RouDi.set_port_manager pm r)) a =
  let* '(res, pm) := k in Done (result mk_object (fun e => errors (refusal e)) res pm).
Proof. destruct k as [[res pm]|]; [|done]. by destruct res. Qed.

Lemma subscriber_executed options :
  sendable (PoshRuntime.limit_subscriber b options a) ->
  entry_ok (SubscriberOptions.nodeName (PoshRuntime.limit_subscriber b options a)) ->
  fits_channel IpcMessageType.CREATE_SUBSCRIBER (SubscriberOptionsText.serialize (PoshRuntime.limit_subscriber b options a)) ->
  PoshRuntime.getMiddlewareSubscriber b roudi inbox service options portConfigInfo a r =
  let* '(res, pm) := PortManager.acquireSubscriberPortData b service (PoshRuntime.limit_subscriber b options a) name
                       (RouDi.m_portManager r) in
  Done (result Subscriber (fun _ => POSH__RUNTIME_ROUDI_SUBSCRIBER_LIST_FULL) res pm).
Proof.
  intros Hs He Hf. set (o := PoshRuntime.limit_subscriber b options a) in *.
  assert (Hm : message_ok (create_entries IpcMessageType.CREATE_SUBSCRIBER (SubscriberOptionsText.serialize o)))
    by (apply create_ok; [done|by apply subscriber_options_text|done]).
  unfold PoshRuntime.getMiddlewareSubscriber, PoshRuntime.create_message, PoshRuntime.requestSubscriberFromRoudi. fold o.
  rewrite (request_executed _ _ _ _ _ Subscriber (fun _ => IpcMessageErrorType.SUBSCRIBER_LIST_FULL)
    (PortManager.acquireSubscriberPortData b service o name (RouDi.m_portManager r))); [|done..|exact Hm|].
  - apply (finish_executed PoshRuntime.subscriber_error).
  - unfold RouDi.processMessage.
    rewrite (create_parsed IpcMessageType.CREATE_SUBSCRIBER (SubscriberOptionsText.serialize o) o); [|exact Hm|exact (parse_serialize o Hs)].
    unfold RouDi.addSubscriberForProcess. by rewrite Hregistered.
Qed.

Definition publisher_refusal (e : PortPoolError) : IpcMessageErrorType.t :=
  match e with
  | UNIQUE_PUBLISHER_PORT_ALREADY_EXISTS => IpcMessageErrorType.NO_UNIQUE_CREATED
  | INTERNAL_SERVICE_DESCRIPTION_IS_FORBIDDEN => IpcMessageErrorType.INTERNAL_SERVICE_DESCRIPTION_IS_FORBIDDEN
  | _ => IpcMessageErrorType.PUBLISHER_LIST_FULL
  end.

Lemma publisher_executed options : sendable options -> entry_ok (PublisherOptions.nodeName options) ->
  fits_channel IpcMessageType.CREATE_PUBLISHER (PublisherOptionsText.serialize options) ->
  PoshRuntime.getMiddlewarePublisher roudi inbox service options portConfigInfo a r =
  match segment with
  | None => Done no_segment
  | Some memoryManager =>
      let* '(res, pm) := PortManager.acquirePublisherPortData b sizeof_registry alignof_registry lock_held service options name
                           memoryManager (RouDi.m_portManager r) in
      Done (result Publisher (fun e => PoshRuntime.publisher_error (publisher_refusal e)) res pm)
  end.
Proof.
  intros Hs He Hf.
  assert (Hm : message_ok (create_entries IpcMessageType.CREATE_PUBLISHER (PublisherOptionsText.serialize options)))
    by (apply create_ok; [done|by apply publisher_options_text|done]).
  unfold PoshRuntime.getMiddlewarePublisher, PoshRuntime.create_message, PoshRuntime.requestPublisherFromRoudi.
  assert (Hp := create_parsed IpcMessageType.CREATE_PUBLISHER (PublisherOptionsText.serialize options) options
    PublisherOptionsText.deserialize (RouDi.addPublisherForProcess b sizeof_registry alignof_registry lock_held roudi_repository
      m_mgmtSegmentId address_of groups_of segments accepts name) r Hm (parse_serialize options Hs)).
  unfold RouDi.addPublisherForProcess in Hp at 2. rewrite Hregistered in Hp. unfold segment.
  destruct (getSegmentInformationWithWriteAccessForUser _ _) as [mm|].
  - rewrite (request_executed _ _ _ _ _ Publisher publisher_refusal
      (PortManager.acquirePublisherPortData b sizeof_registry alignof_registry lock_held service options name mm
         (RouDi.m_portManager r))); [apply finish_executed|done|done|by intros []|exact Hm|].
    etrans; [exact Hp|]. destruct (PortManager.acquirePublisherPortData _ _ _ _ _ _ _ _ _) as [[res pm]|]; [|done].
    by destruct res as [|[]].
  - by rewrite (request_refused _ _ _ _ _ IpcMessageErrorType.REQUEST_PUBLISHER_NO_WRITABLE_SHM_SEGMENT) by done.
Qed.

Lemma client_executed options :
  sendable (PoshRuntime.limit_client options) -> entry_ok (ClientOptions.nodeName (PoshRuntime.limit_client options)) ->
  fits_channel IpcMessageType.CREATE_CLIENT (ClientOptionsText.serialize (PoshRuntime.limit_client options)) ->
  PoshRuntime.getMiddlewareClient roudi inbox service options portConfigInfo a r =
  match segment with
  | None => Done no_segment
  | Some memoryManager =>
      let* '(res, pm) := PortManager.acquireClientPortData b service (PoshRuntime.limit_client options) name memoryManager
                           (RouDi.m_portManager r) in
      Done (result Client (fun _ => POSH__RUNTIME_ROUDI_OUT_OF_CLIENTS) res pm)
  end.
Proof.
  intros Hs He Hf. set (o := PoshRuntime.limit_client options) in *.
  assert (Hm : message_ok (create_entries IpcMessageType.CREATE_CLIENT (ClientOptionsText.serialize o)))
    by (apply create_ok; [done|by apply client_options_text|done]).
  unfold PoshRuntime.getMiddlewareClient, PoshRuntime.create_message, PoshRuntime.requestClientFromRoudi. fold o.
  assert (Hp := create_parsed IpcMessageType.CREATE_CLIENT (ClientOptionsText.serialize o) o
    ClientOptionsText.deserialize (RouDi.addClientForProcess b roudi_repository
      m_mgmtSegmentId address_of groups_of segments accepts name) r Hm (parse_serialize o Hs)).
  unfold RouDi.addClientForProcess in Hp at 2. rewrite Hregistered in Hp. unfold segment.
  destruct (getSegmentInformationWithWriteAccessForUser _ _) as [mm|].
  - rewrite (request_executed _ _ _ _ _ Client (fun _ => IpcMessageErrorType.CLIENT_LIST_FULL)
      (PortManager.acquireClientPortData b service o name mm (RouDi.m_portManager r)));
      [apply (finish_executed PoshRuntime.client_error)|done|done|done|exact Hm|exact Hp].
  - by rewrite (request_refused _ _ _ _ _ IpcMessageErrorType.REQUEST_CLIENT_NO_WRITABLE_SHM_SEGMENT) by done.
Qed.

Lemma server_executed options :
  sendable (PoshRuntime.limit_server options) -> entry_ok (ServerOptions.nodeName (PoshRuntime.limit_server options)) ->
  fits_channel IpcMessageType.CREATE_SERVER (ServerOptionsText.serialize (PoshRuntime.limit_server options)) ->
  PoshRuntime.getMiddlewareServer roudi inbox service options portConfigInfo a r =
  match segment with
  | None => Done no_segment
  | Some memoryManager =>
      let* '(res, pm) := PortManager.acquireServerPortData b sizeof_registry alignof_registry lock_held service
                           (PoshRuntime.limit_server options) name memoryManager (RouDi.m_portManager r) in
      Done (result Server (fun _ => POSH__RUNTIME_ROUDI_OUT_OF_SERVERS) res pm)
  end.
Proof.
  intros Hs He Hf. set (o := PoshRuntime.limit_server options) in *.
  assert (Hm : message_ok (create_entries IpcMessageType.CREATE_SERVER (ServerOptionsText.serialize o)))
    by (apply create_ok; [done|by apply server_options_text|done]).
  unfold PoshRuntime.getMiddlewareServer, PoshRuntime.create_message, PoshRuntime.requestServerFromRoudi. fold o.
  assert (Hp := create_parsed IpcMessageType.CREATE_SERVER (ServerOptionsText.serialize o) o
    ServerOptionsText.deserialize (RouDi.addServerForProcess b sizeof_registry alignof_registry lock_held roudi_repository
      m_mgmtSegmentId address_of groups_of segments accepts name) r Hm (parse_serialize o Hs)).
  unfold RouDi.addServerForProcess in Hp at 2. rewrite Hregistered in Hp. unfold segment.
  destruct (getSegmentInformationWithWriteAccessForUser _ _) as [mm|].
  - rewrite (request_executed _ _ _ _ _ Server (fun _ => IpcMessageErrorType.SERVER_LIST_FULL)
      (PortManager.acquireServerPortData b sizeof_registry alignof_registry lock_held service o name mm (RouDi.m_portManager r)));
      [apply (finish_executed PoshRuntime.server_error)|done|done|done|exact Hm|exact Hp].
  - by rewrite (request_refused _ _ _ _ _ IpcMessageErrorType.REQUEST_SERVER_NO_WRITABLE_SHM_SEGMENT) by done.
Qed.
End ports.
End requests.

(** ** Properties *)

(** The state of a registered application that can send a request: its name fits
    into a message, RouDi knows it, its channel takes messages and is empty. *)
Record ready (accepts : string -> bool) (a : PoshRuntime.t) (r : RouDi.t) (p : Process.t) : Prop := {
  ready_name : name_clean (PoshRuntime.m_appName a);
  ready_registered : RouDi.findProcess (PoshRuntime.m_appName a) r = Some p;
  ready_accepts : accepts (PoshRuntime.m_appName a) = true;
  ready_pending : nothing_pending (PoshRuntime.m_appName a) r }.

(** The request can be written as text: RouDi reads the options back, and the message is not too long. *)
Definition writable {O} `{Serializable O} (a : PoshRuntime.t) (service : ServiceDescription.t) (cfg : PortConfigInfo.t)
    (type : IpcMessageType.t) (options : O) (nodeName : string) : Prop :=
  sendable options /\ entry_ok nodeName /\ fits_channel a service cfg type (serialize options).

(** C5: requesting a port through the IPC channels is transparent: when the names contain no separator and the message
    is not too long, the runtime of a registered application returns exactly when RouDi's port manager does, with
    the object that the port manager created (the same offset in the segment as the application has mapped it) or the
    error that the refusal maps to, and the port manager was called once with the service and the limited options. *)
Theorem runtime_requests_transparent b sizeof_registry alignof_registry lock_held roudi_repository m_mgmtSegmentId
    mgmtMemorySize segmentManagerAddress address_of groups_of segments currentVersion m_compatibilityCheckLevel
    m_monitoringMode accepts now a r p service cfg :
  0 <= m_mgmtSegmentId < UINT64_MAX ->
  (forall o, 0 <= RouDi.getOffset roudi_repository m_mgmtSegmentId address_of o < UINT64_MAX) ->
  ready accepts a r p -> description_clean service -> config_ok cfg ->
  let roudi := roudi b sizeof_registry alignof_registry lock_held roudi_repository m_mgmtSegmentId mgmtMemorySize
                 segmentManagerAddress address_of groups_of segments currentVersion m_compatibilityCheckLevel
                 m_monitoringMode accepts now in
  let result := result roudi_repository m_mgmtSegmentId address_of a r in
  let segment := segment groups_of segments p in
  let name := PoshRuntime.m_appName a in
  (forall options, let o := PoshRuntime.limit_subscriber b options a in
     writable a service cfg IpcMessageType.CREATE_SUBSCRIBER o (SubscriberOptions.nodeName o) ->
     PoshRuntime.getMiddlewareSubscriber b roudi inbox service options cfg a r =
     let* '(res, pm) := PortManager.acquireSubscriberPortData b service o name (RouDi.m_portManager r) in
     Done (result Subscriber (fun _ => POSH__RUNTIME_ROUDI_SUBSCRIBER_LIST_FULL) res pm)) /\
  (forall o, writable a service cfg IpcMessageType.CREATE_PUBLISHER o (PublisherOptions.nodeName o) ->
     PoshRuntime.getMiddlewarePublisher roudi inbox service o cfg a r =
     match segment with
     | None => Done (no_segment a r)
     | Some mm =>
         let* '(res, pm) := PortManager.acquirePublisherPortData b sizeof_registry alignof_registry lock_held service o name mm
                              (RouDi.m_portManager r) in
         Done (result Publisher (fun e => PoshRuntime.publisher_error (publisher_refusal e)) res pm)
     end) /\
  (forall options, let o := PoshRuntime.limit_client options in
     writable a service cfg IpcMessageType.CREATE_CLIENT o (ClientOptions.nodeName o) ->
     PoshRuntime.getMiddlewareClient roudi inbox service options cfg a r =
     match segment with
     | None => Done (no_segment a r)
     | Some mm =>
         let* '(res, pm) := PortManager.acquireClientPortData b service o name mm (RouDi.m_portManager r) in
         Done (result Client (fun _ => POSH__RUNTIME_ROUDI_OUT_OF_CLIENTS) res pm)
     end) /\
  (forall options, let o := PoshRuntime.limit_server options in
     writable a service cfg IpcMessageType.CREATE_SERVER o (ServerOptions.nodeName o) ->
     PoshRuntime.getMiddlewareServer roudi inbox service options cfg a r =
     match segment with
     | None => Done (no_segment a r)
     | Some mm =>
         let* '(res, pm) := PortManager.acquireServerPortData b sizeof_registry alignof_registry lock_held service o name mm
                              (RouDi.m_portManager r) in
         Done (result Server (fun _ => POSH__RUNTIME_ROUDI_OUT_OF_SERVERS) res pm)
     end).
Proof.
  intros Hseg Hoff [H1 H2 H3 H4] Hs Hc. cbv zeta. split_and!.
  - intros options (Ho & He & Hf). by eapply subscriber_executed.
  - intros options (Ho & He & Hf). by eapply publisher_executed.
  - intros options (Ho & He & Hf). by eapply client_executed.
  - intros options (Ho & He & Hf). by eapply server_executed.
Qed.
