(* ===== verification/RuntimeScenarios.v ===== *)
(** * Runs of an application with RouDi

    A small RouDi and an application that talk over their IPC channels.  The
    theorems of [Ownership] and [Requests] are applied to it, and requests are
    shown that go wrong. *)

From S2P Require Import Prelude ChunkHeader MemPool MemoryManager SharedChunk UsedChunkList Queue VariantQueue ConditionVariable.
From S2P Require Import ChunkQueue ChunkDistributor ChunkSender CaPro PubSubPorts ClientServerPorts RelativePointer.
From S2P Require Import ServiceRegistry PortPool PortManager Serialization IpcMessage RouDi PoshRuntime.
From S2P Require Import Scenarios Ownership Requests.
From Stdlib Require Import Ascii String.

#[local] Strategy 1000 [obind].

(** RouDi has mapped segment 1 at 0x10000, the application at 0x70000. *)
Definition mapped_at (base : Z) : PointerRepository.t := snd (PointerRepository.registerPtr_id PointerRepository.ctor 1 base 65536).
Definition roudi_maps : PointerRepository.t := mapped_at 65536.

Definition place (o : object) : Z :=
  match o with
  | Publisher i => 65536 + 1000 + 8 * Z.of_nat (i mod 16) | Subscriber i => 65536 + 2000 + 8 * Z.of_nat (i mod 16)
  | Client i => 65536 + 3000 + 8 * Z.of_nat (i mod 16) | Server i => 65536 + 4000 + 8 * Z.of_nat (i mod 16)
  | Interface i => 65536 + 5000 + 8 * Z.of_nat (i mod 16) | Node i => 65536 + 6000 + 8 * Z.of_nat (i mod 16)
  | ConditionVar i => 65536 + 7000 + 8 * Z.of_nat (i mod 16) | Null => 0
  end.

Definition version : VersionInfo.t := VersionInfo.ctor 2 0 3 0 "2023-01-01T00:00:00Z" "0123456789ab".
Definition one_segment : Segments := [("radargroup"%string, 0%nat)].

(** RouDi executes a message at time [now]. *)
Definition sample_message (now : Z) (text : string) (s : RouDi.t) : outcome RouDi.t :=
  RouDi.processRuntimeMessage sample_build 64 8 (fun _ => false) roudi_maps 1 65536 65600 place
    (fun _ => ["users"; "radargroup"]%string) one_segment version VersionInfo.PATCH true (fun _ => true) now text s.

Definition sample_roudi : outcome RouDi.t := let* pm := sample_start in Done (RouDi.mk pm [] [] 0).

Definition app (name : string) : PoshRuntime.t := PoshRuntime.mk name (mapped_at 458752) [].

(** The texts that the runtime sends. *)
Definition registration (name : string) : string :=
  IpcMessage.getMessage
    (IpcRuntimeInterface.register_request 4711 1000 version
       (IpcRuntimeInterface.set_timestamp 99 (IpcRuntimeInterface.start name))).

(** The application "radar" has registered and read the answer. *)
Definition registered : outcome RouDi.t :=
  let* s := sample_roudi in
  let* s := sample_message 5 (registration "radar") s in
  Done (RouDi.set_outbox [] s).

Definition sample_reachable_roudi := Ownership.reachable sample_build 64 8 (fun _ => false) roudi_maps 1 65536 65600 place
  (fun _ => ["users"; "radargroup"]%string) one_segment version VersionInfo.PATCH true (fun _ => true) (fun _ _ => 0).

Lemma sample_roudi_reachable s : sample_roudi = Done s -> sample_reachable_roudi Running s.
Proof.
  intros H. apply obind_Done_inv in H as (pm & E & H). injection H as <-. unfold sample_start in E.
  apply obind_Done_inv in E as (pool & Ep & E).
  assert (Hn : no_objects pool).
  { unfold sample_pool in Ep. apply obind_Done_inv in Ep as ([[m ma] ca] & _ & Ep). injection Ep as <-. repeat split. }
  exact (Ownership.reach_start _ _ _ _ _ _ _ _ _ _ _ _ _ _ _ _ [] "Introspection" 0 pool pm Hn E).
Qed.

Lemma registered_reachable s : registered = Done s -> sample_reachable_roudi Running s.
Proof.
  intros H. apply obind_Done_inv in H as (s0 & E0 & H). apply obind_Done_inv in H as (s1 & E1 & H). injection H as <-.
  apply Ownership.reach_receive. exact (Ownership.reach_message _ _ _ _ _ _ _ _ _ _ _ _ _ _ _ _ _ 5 _ s0 s1 (sample_roudi_reachable s0 E0) E1).
Qed.

(** The application then asks for a subscriber. *)
Definition subscriber_text : string :=
  IpcMessage.getMessage
    (PoshRuntime.create_message IpcMessageType.CREATE_SUBSCRIBER
       (ServiceDescriptionText.serialize (sample_service Interfaces.INTERNAL))
       (SubscriberOptionsText.serialize sample_subscriber_options) PortConfigInfo.default_ctor (app "radar")).

Definition with_subscriber : outcome RouDi.t := let* s := registered in sample_message 6 subscriber_text s.

Definition owns_subscriber (s : RouDi.t) : bool :=
  bool_decide (owner (RouDi.m_portManager s) Subscribers 0 = Some "radar"%string).

Lemma with_subscriber_owned : ends_in with_subscriber owns_subscriber = true.
Proof. vm_compute. reflexivity. Qed.

(** While RouDi runs the subscriber belongs to the application in the list; after a
    shutdown that had to clear the list it belongs to the application that was there. *)
Lemma objects_have_owner_witness :
  exists s, with_subscriber = Done s /\ owner (RouDi.m_portManager s) Subscribers 0 = Some "radar"%string /\
    (exists p, p ∈ RouDi.m_processList s /\ Process.m_name p = "radar"%string) /\
    (let s' := RouDi.printWarningForRegisteredProcessesAndClearProcessList s in
     RouDi.m_processList s' = [] /\ owner (RouDi.m_portManager s') Subscribers 0 = Some "radar"%string /\
     exists l p, Forgotten (RouDi.m_processList s) = Forgotten l /\ p ∈ l /\ Process.m_name p = "radar"%string).
Proof.
  destruct (ends_in_inv _ _ with_subscriber_owned) as (s & E & Ho). apply bool_decide_eq_true in Ho.
  pose proof E as E'. apply obind_Done_inv in E' as (s0 & E0 & E1).
  pose proof (Ownership.reach_message _ _ _ _ _ _ _ _ _ _ _ _ _ _ _ _ _ 6 _ s0 s (registered_reachable s0 E0) E1) as Hr.
  pose proof (Ownership.reach_clear _ _ _ _ _ _ _ _ _ _ _ _ _ _ _ _ s (Ownership.reach_join _ _ _ _ _ _ _ _ _ _ _ _ _ _ _ _ s Hr)) as Hc.
  destruct (objects_have_owner _ _ _ _ _ _ _ _ _ _ _ _ _ _ _ _ _ s Hr) as [H _].
  destruct (objects_have_owner _ _ _ _ _ _ _ _ _ _ _ _ _ _ _ _ _ _ Hc) as [H' _].
  exists s. split; [exact E|]. split; [exact Ho|]. split.
  - destruct (H Subscribers 0%nat "radar"%string Ho) as [Hn|[Hp|(l & p & Hl & _)]]; [discriminate Hn|exact Hp|discriminate Hl].
  - split; [reflexivity|]. split; [exact Ho|].
    destruct (H' Subscribers 0%nat "radar"%string Ho) as [Hn|[(p & Hp & _)|Hl]]; [discriminate Hn|inversion Hp|exact Hl].
Defined.

(** Nothing is heard of the application for two seconds: its subscriber port is
    removed, the ports of RouDi stay. *)
Definition silent : outcome RouDi.t :=
  let* s := with_subscriber in RouDi.monitorProcesses sample_build 64 8 (fun _ => false) (5 + 2 * 10 ^ 9) s.

Definition one_process (s : RouDi.t) : bool :=
  match RouDi.m_processList s with
  | [p] => bool_decide (Process.m_name p = "radar"%string) && Process.m_isMonitored p && (Process.m_timestamp p =? 5)
  | _ => false
  end.

Lemma silent_ends : ends_in with_subscriber one_process && ends_in silent (fun _ => true) = true.
Proof. vm_compute. reflexivity. Qed.

Lemma monitoring_removes_exactly_witness :
  exists s', silent = Done s' /\ RouDi.m_processList s' = [] /\
    forall t i, owner (RouDi.m_portManager s') t i <> Some "radar"%string.
Proof.
  destruct (andb_prop _ _ silent_ends) as [H1 H2]. apply ends_in_inv in H1 as (s & E & H1). apply ends_in_inv in H2 as (s' & E' & _).
  exists s'. split; [exact E'|]. unfold silent in E'. rewrite E in E'. cbn [obind] in E'.
  destruct (monitoring_removes_exactly _ _ _ _ _ _ _ E') as [Hp Ho]. unfold one_process in H1.
  destruct (RouDi.m_processList s) as [|p [|]]; try discriminate H1.
  apply andb_prop in H1 as [[Hn Hm]%andb_prop Ht]. apply bool_decide_eq_true in Hn. apply Z.eqb_eq in Ht.
  assert (Hd : Process.m_isMonitored p = true /\ PROCESS_KEEP_ALIVE_TIMEOUT < 5 + 2 * 10 ^ 9 - Process.m_timestamp p)
    by (split; [exact Hm|rewrite Ht; reflexivity]). split.
  - destruct (RouDi.m_processList s') as [|q l]; [reflexivity|exfalso].
    destruct (proj1 (Hp q)) as [Hq Hnot]; [left|]. apply list_elem_of_singleton in Hq as ->. exact (Hnot Hd).
  - intros t i [_ Hnot]%Ho. apply Hnot. exists p. split; [left|]. split; [exact Hn|exact Hd].
Defined.

(** ** A request of the application *)

Definition is_ready (s : RouDi.t) : bool :=
  match RouDi.findProcess "radar" s, RouDi.outbox s with Some _, [] => true | _, _ => false end.

Lemma registered_ready : ends_in registered is_ready = true.
Proof. vm_compute. reflexivity. Qed.

Lemma place_offsets o : 0 <= RouDi.getOffset roudi_maps 1 place o < UINT64_MAX.
Proof.
  unfold RouDi.getOffset, BaseRelativePointer.getOffset. change (1 =? BaseRelativePointer.NULL_POINTER_ID) with false. cbv iota.
  change (PointerRepository.getBasePtr roudi_maps 1) with 65536.
  assert (Hm : forall i : nat, 0 <= Z.of_nat (i mod 16) < 16).
  { intros i. pose proof (Nat.mod_upper_bound i 16). lia. }
  destruct o as [i|i|i|i|i|i|i|]; cbn [place]; try (specialize (Hm i); rewrite u64_small; unfold UINT64_MAX; lia).
  vm_compute. split; congruence.
Qed.

Definition sample_execute := roudi sample_build 64 8 (fun _ => false) roudi_maps 1 65536 65600 place
  (fun _ => ["users"; "radargroup"]%string) one_segment version VersionInfo.PATCH true (fun _ => true) 6.

(** The options as the runtime sends them, with the application as node. *)
Definition sent_options : SubscriberOptions.t :=
  SubscriberOptions.mk 2 1 "radar" true QueueFullPolicy.DISCARD_OLDEST_DATA false.

Lemma first_subscriber :
  ends_in (let* s := registered in
           PortManager.acquireSubscriberPortData sample_build (sample_service Interfaces.INTERNAL) sent_options "radar"
             (RouDi.m_portManager s))
    (fun '(res, _) => match res with success O => true | _ => false end) = true.
Proof. vm_compute. reflexivity. Qed.

Lemma sample_name_clean (s : string) : size s <=? 100 = true -> find_first_of zero s = None ->
  find_first_of IpcMessage.m_separator s = None -> name_clean s.
Proof. intros H1 H2 H3. apply Z.leb_le in H1. repeat split; assumption. Qed.

Lemma runtime_requests_transparent_witness :
  exists s s', registered = Done s /\
    PoshRuntime.getMiddlewareSubscriber sample_build sample_execute inbox (sample_service Interfaces.INTERNAL)
      sample_subscriber_options PortConfigInfo.default_ctor (app "radar") s = Done (458752 + 2000, app "radar", s').
Proof.
  destruct (ends_in_inv _ _ registered_ready) as (s & E & Hr). unfold is_ready in Hr.
  destruct (RouDi.findProcess "radar" s) as [p|] eqn:Ef; [|discriminate Hr].
  destruct (RouDi.outbox s) as [|m l] eqn:Eo; [|discriminate Hr].
  assert (Hready : ready (fun _ => true) (app "radar") s p).
  { split; [by apply sample_name_clean|exact Ef|reflexivity|]. unfold nothing_pending. rewrite Eo. constructor. }
  assert (Hservice : description_clean (sample_service Interfaces.INTERNAL)).
  { split; [|by repeat split]. assert (plain "Radar" /\ plain "FrontLeft" /\ plain "Object") as (H1 & H2 & H3)
      by (split_and!; split; vm_compute; congruence).
    split_and!; [exact H1|exact H2|exact H3|reflexivity| |discriminate|discriminate]. repeat constructor; unfold u32_word; lia. }
  assert (Hconfig : config_ok PortConfigInfo.default_ctor) by (repeat split; vm_compute; congruence).
  destruct (runtime_requests_transparent sample_build 64 8 (fun _ => false) roudi_maps 1 65536 65600 place
    (fun _ => ["users"; "radargroup"]%string) one_segment version VersionInfo.PATCH true (fun _ => true) 6 (app "radar") s p
    (sample_service Interfaces.INTERNAL) PortConfigInfo.default_ctor ltac:(unfold UINT64_MAX; lia) place_offsets Hready Hservice
    Hconfig) as [Hsub _].
  assert (Hw : writable (app "radar") (sample_service Interfaces.INTERNAL) PortConfigInfo.default_ctor
    IpcMessageType.CREATE_SUBSCRIBER sent_options "radar").
  { split_and!; [|reflexivity|vm_compute; congruence]. split_and!; [unfold capacity_ok, UINT64_MAX; simpl; lia..|].
    split; vm_compute; congruence. }
  specialize (Hsub sample_subscriber_options Hw).
  pose proof first_subscriber as H. apply ends_in_inv in H as ([res pm] & Ha & H). rewrite E in Ha. cbn [obind] in Ha.
  destruct res as [[|]|]; try discriminate H. exists s, (RouDi.set_port_manager pm s). split; [exact E|].
  etrans; [exact Hsub|]. etrans; [apply (f_equal (fun x => obind x _) Ha)|]. reflexivity.
Defined.

(** ** Where requests go wrong *)

Definition largest_history : PublisherOptions.t :=
  PublisherOptions.mk UINT64_MAX "" true ConsumerTooSlowPolicy.DISCARD_OLDEST_DATA.

(** The history capacity is limited in a copy of the options, but the original
    options are sent.  RouDi cannot read the largest capacity, drops the message
    without an answer, and the application waits for one forever. *)
Theorem largest_history_never_returns :
  (let* s := registered in
   let* _ := PoshRuntime.getMiddlewarePublisher sample_execute inbox (sample_service Interfaces.INTERNAL) largest_history
               PortConfigInfo.default_ctor (app "radar") s in Done tt) = Terminated DOES_NOT_RETURN.
Proof. vm_compute. reflexivity. Qed.

(** Three interface ports, one more than there is room for. *)
Definition three_interfaces : outcome (Z * Z * Z) :=
  let* s := registered in
  let* '(p1, a, s) := PoshRuntime.getMiddlewareInterface sample_execute inbox Interfaces.DDS "n" (app "radar") s in
  let* '(p2, a, s) := PoshRuntime.getMiddlewareInterface sample_execute inbox Interfaces.DDS "n" a s in
  let* '(p3, a, s) := PoshRuntime.getMiddlewareInterface sample_execute inbox Interfaces.DDS "n" a s in
  Done (p1, p2, p3).

(** RouDi acknowledges the request for an interface port also when it could not
    create one, with the offset of the null pointer to its own segment; the
    application turns that into an address in front of its mapping and reports no
    error. *)
Theorem full_interface_list_acknowledged :
  three_interfaces = Done (458752 + 5000, 458752 + 5008, 458752 - 65536).
Proof. vm_compute. reflexivity. Qed.

(** The history request of a subscriber is compared with the queue capacity the
    user asked for, not with the limited one: more chunks are requested than the
    queue of the port can hold. *)
Theorem history_request_exceeds_queue :
  let o := PoshRuntime.limit_subscriber sample_build
             (SubscriberOptions.mk 100 50 "" true QueueFullPolicy.DISCARD_OLDEST_DATA false) (app "radar") in
  SubscriberOptions.queueCapacity o = 2 /\ SubscriberOptions.historyRequest o = 50.
Proof. vm_compute. split; reflexivity. Qed.
