(* ===== verification/Notifications.v ===== *)
(** * Wait set, listener and their triggers

    [popo/wait_set], [popo/listener], [popo/trigger], [popo/trigger_handle],
    [popo/user_trigger], [popo/notification_info] and the trigger part of
    [base_subscriber], [base_client] and [base_server].  An origin (a user
    trigger, subscriber, client or server) holds a [TriggerHandle] that points to
    the wait set or listener it is attached to; the wait set holds a [Trigger],
    the listener an [Event_t], that points back to the origin.  Either side may
    be destroyed first and tells the other.  All objects are kept in one [System]
    and pointers are indices into it, so that a use of a destroyed object shows. *)

From S2P Require Import Prelude Loffli ChunkHeader MemoryManager SharedChunk Queue VariantQueue.
From S2P Require Import ConditionVariable ChunkQueue.

(** [typeid(..)] of the enums that name events and states; all of them have one
    enumerator, of value 0. *)
Inductive EnumType :=
  | SubscriberEvent | SubscriberState | ClientEvent | ClientState | ServerEvent | ServerState
  | NoEventEnumUsed | NoEnumUsed.

#[global] Instance EnumType_eq_dec : EqDecision EnumType.
Proof. solve_decision. Defined.

(** The object of a [MethodCallback] of a trigger handle: the method is
    [removeTrigger]. *)
Inductive Target := ToWaitSet (w : nat) | ToListener (l : nat).

#[global] Instance Target_eq_dec : EqDecision Target.
Proof. solve_decision. Defined.

Definition INVALID_TRIGGER_ID : Z := UINT64_MAX.

(** [NotificationCallback]: the function, the context and whether the function
    takes one; [translation] is the [TranslateAndCallTypelessCallback] instance. *)
Inductive Translation := WithContext | NoType.

Module NotificationCallback.
Record t := mk { m_callback : option nat; m_contextData : option nat; translation : Translation }.
End NotificationCallback.

(** [m_notificationOriginTypeHash] is left out: only [getOrigin] compares it. *)
Module NotificationInfo.
Definition INVALID_ID : Z := UINT64_MAX.

Record t := mk {
  m_notificationOrigin : option nat;
  m_userValue : option nat;
  m_notificationId : Z;
  m_callbackPtr : option nat;
  m_callback : Translation }.

Definition ctor (notificationOrigin : nat) (notificationId : Z) (callback : NotificationCallback.t) : t :=
  mk (Some notificationOrigin) (NotificationCallback.m_contextData callback) notificationId
    (NotificationCallback.m_callback callback) (NotificationCallback.translation callback).

Definition doesOriginateFrom (notificationOrigin : nat) (i : t) : bool :=
  bool_decide (m_notificationOrigin i = Some notificationOrigin).
End NotificationInfo.

Module TriggerHandle.
Record t := mk {
  m_conditionVariableDataPtr : option nat;
  m_resetCallback : option Target;
  m_uniqueTriggerId : Z }.

(** [TriggerHandle()], also the state after [invalidate]. *)
Definition invalid : t := mk None None INVALID_TRIGGER_ID.

Definition ctor (conditionVariableData : nat) (resetCallback : Target) (uniqueTriggerId : Z) : t :=
  mk (Some conditionVariableData) (Some resetCallback) uniqueTriggerId.

Definition isValid (h : t) : bool := bool_decide (m_conditionVariableDataPtr h <> None).
End TriggerHandle.

Module Trigger.
Inductive TriggerType := STATE_BASED | EVENT_BASED | INVALID.

#[global] Instance TriggerType_eq_dec : EqDecision TriggerType.
Proof. solve_decision. Defined.

(** [m_hasTriggeredCallback] is the origin whose [hasData], [hasResponses] or
    [hasRequests] is called, [m_resetCallback] the one whose
    [invalidateTrigger] is. *)
Record t := mk {
  m_notificationInfo : NotificationInfo.t;
  m_hasTriggeredCallback : option nat;
  m_resetCallback : option nat;
  m_uniqueId : Z;
  m_triggerType : TriggerType;
  m_originTriggerType : Z;
  m_originTriggerTypeHash : Z }.

Definition isValid (t : t) : bool := negb (m_uniqueId t =? INVALID_TRIGGER_ID).

Definition invalidate (t : t) : Trigger.t :=
  mk (m_notificationInfo t) None None INVALID_TRIGGER_ID INVALID INVALID_TRIGGER_ID INVALID_TRIGGER_ID.

(** The constructors: an empty callback is reported with level fatal. *)
Definition ctor (notificationOrigin : nat) (hasTriggeredCallback resetCallback : option nat) (notificationId : Z)
    (callback : NotificationCallback.t) (uniqueId : Z) (triggerType : TriggerType)
    (originTriggerType originTriggerTypeHash : Z) : outcome t :=
  if bool_decide (resetCallback = None) then Terminated POPO__TRIGGER_INVALID_RESET_CALLBACK
  else Done (mk (NotificationInfo.ctor notificationOrigin notificationId callback) hasTriggeredCallback resetCallback
               uniqueId triggerType originTriggerType originTriggerTypeHash).

Definition ctor_state (stateOrigin : nat) (hasTriggeredCallback resetCallback : option nat) (notificationId : Z)
    (callback : NotificationCallback.t) (uniqueId stateType stateTypeHash : Z) : outcome t :=
  let* t := ctor stateOrigin hasTriggeredCallback resetCallback notificationId callback uniqueId STATE_BASED
              stateType stateTypeHash in
  if bool_decide (hasTriggeredCallback = None) then Terminated POPO__TRIGGER_INVALID_HAS_TRIGGERED_CALLBACK
  else Done t.

Definition ctor_event (notificationOrigin : nat) (resetCallback : option nat) (notificationId : Z)
    (callback : NotificationCallback.t) (uniqueId notificationType notificationTypeHash : Z) : outcome t :=
  ctor notificationOrigin None resetCallback notificationId callback uniqueId EVENT_BASED
    notificationType notificationTypeHash.

Definition isLogicalEqualTo (notificationOrigin : nat) (originTriggerType originTriggerTypeHash : Z) (t : t) : bool :=
  isValid t && bool_decide (NotificationInfo.m_notificationOrigin (m_notificationInfo t) = Some notificationOrigin)
  && (m_originTriggerType t =? originTriggerType) && (m_originTriggerTypeHash t =? originTriggerTypeHash).
End Trigger.

(** [cxx::stack], its elements from the top. *)
Module Stack.
Definition pop (l : list Z) : option Z * list Z :=
  match l with [] => (None, []) | x :: l => (Some x, l) end.

Definition push (capacity : nat) (x : Z) (l : list Z) : bool * list Z :=
  if (length l <? capacity)%nat then (true, x :: l) else (false, l).
End Stack.

(** [cxx::vector::emplace_back] and [push_back] of a vector of this capacity. *)
Definition emplace_back {A} (capacity : nat) (l : list A) (x : A) : bool * list A :=
  if (length l <? capacity)%nat then (true, l ++ [x]) else (false, l).

(** [algorithm::uniqueMergeSortedContainers] *)
Definition append (capacity : nat) (merged : list Z) (x : Z) : list Z := snd (emplace_back capacity merged x).

Fixpoint merge_loop (capacity : nat) (v1 : list Z) : list Z -> list Z -> list Z :=
  fix inner (v2 : list Z) (merged : list Z) : list Z :=
    match v1, v2 with
    | x :: r1, y :: r2 =>
        if x =? y then merge_loop capacity r1 r2 (append capacity merged x)
        else if x <? y then merge_loop capacity r1 v2 (append capacity merged x)
        else inner r2 (append capacity merged y)
    | _, _ => foldl (append capacity) (foldl (append capacity) merged v2) v1
    end.

Definition uniqueMergeSortedContainers (capacity : nat) (v1 v2 : list Z) : list Z := merge_loop capacity v1 v2 [].

Module WaitSet.
Inductive WaitSetError := WAIT_SET_FULL | ALREADY_ATTACHED.

Record t := mk {
  m_triggerArray : list (option Trigger.t);
  m_conditionVariableDataPtr : nat;
  m_listenerToBeDestroyed : bool; (* m_conditionListener.m_toBeDestroyed *)
  m_indexRepository : list Z;
  m_activeNotifications : list Z }.

Definition capacity (s : t) : nat := length (m_triggerArray s).

Definition set_slots (a : list (option Trigger.t)) (r : list Z) (s : t) : t :=
  mk a (m_conditionVariableDataPtr s) (m_listenerToBeDestroyed s) r (m_activeNotifications s).
Definition set_active (a : list Z) (s : t) : t :=
  mk (m_triggerArray s) (m_conditionVariableDataPtr s) (m_listenerToBeDestroyed s) (m_indexRepository s) a.
Definition set_listenerToBeDestroyed (s : t) : t :=
  mk (m_triggerArray s) (m_conditionVariableDataPtr s) true (m_indexRepository s) (m_activeNotifications s).

Definition ctor (Capacity condVarData : nat) : t :=
  mk (replicate Capacity None) condVarData false
     (foldl (fun r i => snd (Stack.push Capacity (Z.of_nat i) r)) [] (seq 0 Capacity)) [].

Definition size (s : t) : Z := Z.of_nat (capacity s) - Z.of_nat (length (m_indexRepository s)).

Definition removeTrigger (uniqueTriggerId : Z) (s : t) : outcome t :=
  match list_find (fun e : option Trigger.t =>
                     Is_true (match e with Some x => Trigger.m_uniqueId x =? uniqueTriggerId | None => false end))
                  (m_triggerArray s) with
  | Some (i, _) =>
      let '(pushed, r) := Stack.push (capacity s) uniqueTriggerId (m_indexRepository s) in
      expects pushed (Done (set_slots (<[i := None]> (m_triggerArray s)) r s))
  | None => Done s
  end.

Definition attachImpl (eventOrigin : nat) (hasTriggeredCallback : option nat) (eventId : Z)
    (eventCallback : NotificationCallback.t) (originType originTypeHash : Z) (s : t)
    : outcome (expected Z WaitSetError * t) :=
  if existsb (fun e => match e with
                       | Some x => Trigger.isLogicalEqualTo eventOrigin originType originTypeHash x
                       | None => false end) (m_triggerArray s)
  then Done (error ALREADY_ATTACHED, s)
  else
    let invalidationCallback := Some eventOrigin in
    let '(index, r) := Stack.pop (m_indexRepository s) in
    match index with
    | None => Done (error WAIT_SET_FULL, s)
    | Some index =>
        let* x := match hasTriggeredCallback with
                  | Some _ => Trigger.ctor_state eventOrigin hasTriggeredCallback invalidationCallback eventId
                                eventCallback index originType originTypeHash
                  | None => Trigger.ctor_event eventOrigin invalidationCallback eventId eventCallback index
                              originType originTypeHash
                  end in
        Done (success index, set_slots (aset (m_triggerArray s) index (Some x)) r s)
    end.
End WaitSet.

(** [internal::Event_t] *)
Module Event_t.
Definition INVALID_ID : Z := UINT64_MAX.

Record t := mk {
  m_origin : option nat;
  m_eventType : Z;
  m_eventTypeHash : Z;
  m_callback : option nat;
  m_translationCallback : option Translation;
  m_userType : option nat;
  m_eventId : Z;
  m_invalidationCallback : option nat }.

Definition ctor : t := mk None INVALID_ID INVALID_ID None None None INVALID_ID None.

Definition isInitialized (e : t) : bool :=
  bool_decide (m_origin e <> None) && negb (m_eventId e =? INVALID_ID) && negb (m_eventType e =? INVALID_ID)
  && negb (m_eventTypeHash e =? INVALID_ID) && bool_decide (m_callback e <> None)
  && bool_decide (m_translationCallback e <> None) && bool_decide (m_invalidationCallback e <> None).

Definition init (eventId : Z) (origin : nat) (userType : option nat) (eventType eventTypeHash : Z) (callback : nat)
    (translationCallback : Translation) (invalidationCallback : option nat) (e : t) : bool * t :=
  if bool_decide (invalidationCallback <> None)
  then (true, mk (Some origin) eventType eventTypeHash (Some callback) (Some translationCallback) userType eventId
                invalidationCallback)
  else (false, e).

Definition isEqualTo (origin : nat) (eventType eventTypeHash : Z) (e : t) : bool :=
  bool_decide (m_origin e = Some origin) && (m_eventType e =? eventType) && (m_eventTypeHash e =? eventTypeHash).

(** The members after [reset]; [m_userType] is left as it is. *)
Definition cleared (e : t) : t := mk None INVALID_ID INVALID_ID None None (m_userType e) INVALID_ID None.
End Event_t.

(** [IndexManager_t] *)
Module IndexManager.
Record t := mk { m_loffli : LoFFLi.t; m_indicesInUse : Z }.

Definition ctor (lock_free : bool) (Capacity : nat) : outcome t :=
  let* l := LoFFLi.init lock_free LoFFLi.ctor (replicate (S Capacity) 0) (Z.of_nat Capacity) in Done (mk l 0).

Definition pop (m : t) : option Z * t :=
  match LoFFLi.pop (m_loffli m) with
  | (Some i, l) => (Some i, mk l (u64 (m_indicesInUse m + 1)))
  | (None, l) => (None, mk l (m_indicesInUse m))
  end.

Definition push (index : Z) (m : t) : outcome t :=
  let '(pushed, l) := LoFFLi.push (m_loffli m) index in
  expects pushed (Done (mk l (u64 (m_indicesInUse m - 1)))).
End IndexManager.

Module Listener.
Inductive ListenerError := LISTENER_FULL | EVENT_ALREADY_ATTACHED | EMPTY_EVENT_CALLBACK | EMPTY_INVALIDATION_CALLBACK.

Record t := mk {
  m_indexManager : IndexManager.t;
  m_events : list Event_t.t;
  m_wasDtorCalled : bool;
  m_conditionVariableData : nat;
  m_listenerToBeDestroyed : bool }.

Definition set_events (m : IndexManager.t) (es : list Event_t.t) (s : t) : t :=
  mk m es (m_wasDtorCalled s) (m_conditionVariableData s) (m_listenerToBeDestroyed s).

Definition capacity (s : t) : nat := length (m_events s).

Definition ctor (lock_free : bool) (Capacity conditionVariable : nat) : outcome t :=
  let* m := IndexManager.ctor lock_free Capacity in
  Done (mk m (replicate Capacity Event_t.ctor) false conditionVariable false).

Definition size (s : t) : Z := IndexManager.m_indicesInUse (m_indexManager s).

Definition addEvent (origin : nat) (userType : option nat) (eventType eventTypeHash : Z) (callback : nat)
    (translationCallback : Translation) (invalidationCallback : option nat) (s : t)
    : outcome (expected Z ListenerError * t) :=
  if existsb (Event_t.isEqualTo origin eventType eventTypeHash) (m_events s)
  then Done (error EVENT_ALREADY_ATTACHED, s)
  else
    match IndexManager.pop (m_indexManager s) with
    | (None, m) => Done (error LISTENER_FULL, set_events m (m_events s) s)
    | (Some index, m) =>
        match m_events s !! Z.to_nat index with
        | None => Terminated UNDEFINED_BEHAVIOUR
        | Some e =>
            let '(ok, e) := Event_t.init index origin userType eventType eventTypeHash callback translationCallback
                              invalidationCallback e in
            let s := set_events m (<[Z.to_nat index := e]> (m_events s)) s in
            Done (if ok then success index else error EMPTY_INVALIDATION_CALLBACK, s)
        end
    end.
End Listener.

(** ** Origins *)

(** The classes that can be attached; the ports by the queue they receive from. *)
Inductive Kind := UserTrigger | Subscriber (queue : nat) | Client (queue : nat) | Server (queue : nat).

#[global] Instance Kind_eq_dec : EqDecision Kind.
Proof. solve_decision. Defined.

Definition queue_of (k : Kind) : option nat :=
  match k with UserTrigger => None | Subscriber q | Client q | Server q => Some q end.

Module Origin.
Record t := mk { kind : Kind; m_trigger : TriggerHandle.t }.

Definition set_trigger (h : TriggerHandle.t) (o : t) : t := mk (kind o) h.
End Origin.

(** The program: the shared memory, the objects of the process ([None] when
    destroyed), [m_toBeDestroyed] of every condition variable and the queues of
    the ports with [m_toBeDestroyed] set. *)
Module System.
Record t := mk {
  world : World;
  waitSets : list (option WaitSet.t);
  listeners : list (option Listener.t);
  origins : list (option Origin.t);
  condvars_toBeDestroyed : list bool;
  ports_toBeDestroyed : list nat }.

Definition set_world (v : World) (s : t) : t :=
  mk v (waitSets s) (listeners s) (origins s) (condvars_toBeDestroyed s) (ports_toBeDestroyed s).
Definition put_waitSet (w : nat) (v : option WaitSet.t) (s : t) : t :=
  mk (world s) (<[w := v]> (waitSets s)) (listeners s) (origins s) (condvars_toBeDestroyed s) (ports_toBeDestroyed s).
Definition put_listener (l : nat) (v : option Listener.t) (s : t) : t :=
  mk (world s) (waitSets s) (<[l := v]> (listeners s)) (origins s) (condvars_toBeDestroyed s) (ports_toBeDestroyed s).
Definition put_origin (o : nat) (v : option Origin.t) (s : t) : t :=
  mk (world s) (waitSets s) (listeners s) (<[o := v]> (origins s)) (condvars_toBeDestroyed s) (ports_toBeDestroyed s).
Definition mark_condvar (c : nat) (s : t) : t :=
  mk (world s) (waitSets s) (listeners s) (origins s) (<[c := true]> (condvars_toBeDestroyed s)) (ports_toBeDestroyed s).
Definition mark_port (q : nat) (s : t) : t :=
  mk (world s) (waitSets s) (listeners s) (origins s) (condvars_toBeDestroyed s) (q :: ports_toBeDestroyed s).

(** Using an object through a pointer. *)
Definition get {A} (i : nat) (l : list (option A)) : outcome A :=
  match l !! i with Some (Some a) => Done a | _ => Terminated UNDEFINED_BEHAVIOUR end.

Definition set_handle (o : nat) (h : TriggerHandle.t) (s : t) : outcome t :=
  let* x := get o (origins s) in Done (put_origin o (Some (Origin.set_trigger h x)) s).

Definition report (e : Error) (s : t) : t := set_world (report_world e MODERATE (world s)) s.
End System.
Import System.

(** *** What the other side calls *)

Definition unset_condition (k : Kind) (s : System.t) : outcome System.t :=
  match queue_of k with
  | None => Done s
  | Some q => let* w := ChunkQueuePopper.unsetConditionVariable q (world s) in Done (set_world w s)
  end.

(** [invalidateTrigger] of [UserTrigger], [BaseSubscriber], [BaseClient] and
    [BaseServer]. *)
Definition invalidateTrigger (o : nat) (uniqueTriggerId : Z) (s : System.t) : outcome System.t :=
  let* x := get o (origins s) in
  if TriggerHandle.m_uniqueTriggerId (Origin.m_trigger x) =? uniqueTriggerId
  then
    let* s := unset_condition (Origin.kind x) s in
    set_handle o TriggerHandle.invalid s
  else Done s.

(** [hasData], [hasResponses] and [hasRequests]; a user trigger has no states. *)
Definition isStateSatisfied (o : nat) (s : System.t) : outcome bool :=
  let* x := get o (origins s) in
  match queue_of (Origin.kind x) with
  | Some q => let* e := ChunkQueuePopper.empty q (world s) in Done (negb e)
  | None => Terminated UNDEFINED_BEHAVIOUR
  end.

(** [Event_t::reset] of event [i] of listener [l]. *)
Definition event_reset (l i : nat) (s : System.t) : outcome (bool * System.t) :=
  let* x := get l (listeners s) in
  match Listener.m_events x !! i with
  | None => Terminated UNDEFINED_BEHAVIOUR
  | Some e =>
      if Event_t.isInitialized e then
        let* s := match Event_t.m_invalidationCallback e with
                  | Some o => invalidateTrigger o (Event_t.m_eventId e) s
                  | None => Done s
                  end in
        let* x := get l (listeners s) in
        Done (true, put_listener l (Some (Listener.set_events (Listener.m_indexManager x)
                                            (<[i := Event_t.cleared e]> (Listener.m_events x)) x)) s)
      else Done (false, s)
  end.

(** [ListenerImpl::removeTrigger] *)
Definition listener_removeTrigger (l : nat) (index : Z) (s : System.t) : outcome System.t :=
  let* x := get l (listeners s) in
  if Z.of_nat (Listener.capacity x) <=? index then Done s
  else
    let* '(removed, s) := event_reset l (Z.to_nat index) s in
    if removed : bool then
      let* x := get l (listeners s) in
      let* m := IndexManager.push (u32 index) (Listener.m_indexManager x) in
      Done (put_listener l (Some (Listener.set_events m (Listener.m_events x) x)) s)
    else Done s.

(** [m_resetCallback(m_uniqueTriggerId)] of a handle. *)
Definition removeTrigger (t : Target) (uniqueTriggerId : Z) (s : System.t) : outcome System.t :=
  match t with
  | ToWaitSet w =>
      let* x := get w (waitSets s) in
      let* x := WaitSet.removeTrigger uniqueTriggerId x in
      Done (put_waitSet w (Some x) s)
  | ToListener l => listener_removeTrigger l uniqueTriggerId s
  end.

(** *** [TriggerHandle] as the member [m_trigger] of origin [o] *)

Definition handle_reset (o : nat) (s : System.t) : outcome System.t :=
  let* x := get o (origins s) in
  let h := Origin.m_trigger x in
  if TriggerHandle.isValid h then
    let* s := match TriggerHandle.m_resetCallback h with
              | Some t => removeTrigger t (TriggerHandle.m_uniqueTriggerId h) s
              | None => Done s
              end in
    set_handle o TriggerHandle.invalid s
  else Done s.

(** [m_trigger = std::move(h)] *)
Definition handle_assign (o : nat) (h : TriggerHandle.t) (s : System.t) : outcome System.t :=
  let* s := handle_reset o s in
  set_handle o h s.

(** [TriggerHandle::trigger], called by [UserTrigger::trigger]. *)
Definition handle_trigger (h : TriggerHandle.t) (s : System.t) : outcome System.t :=
  match TriggerHandle.m_conditionVariableDataPtr h with
  | None => Done s
  | Some c =>
      match condvars (world s) !! c with
      | None => Terminated UNDEFINED_BEHAVIOUR
      | Some cv =>
          let* _ := ConditionVariable.ConditionNotifier cv (TriggerHandle.m_uniqueTriggerId h) in
          let* cv := ConditionVariable.notify (TriggerHandle.m_uniqueTriggerId h) cv in
          Done (set_world (set_condvar c cv (world s)) s)
      end
  end.

Definition trigger (o : nat) (s : System.t) : outcome System.t :=
  let* x := get o (origins s) in handle_trigger (Origin.m_trigger x) s.

(** *** Enabling and disabling *)

Definition already_attached (state : bool) (k : Kind) : option Error :=
  match k, state with
  | UserTrigger, _ => None
  | Subscriber _, false =>
      Some POPO__BASE_SUBSCRIBER_OVERRIDING_WITH_EVENT_SINCE_HAS_DATA_OR_DATA_RECEIVED_ALREADY_ATTACHED
  | Subscriber _, true =>
      Some POPO__BASE_SUBSCRIBER_OVERRIDING_WITH_STATE_SINCE_HAS_DATA_OR_DATA_RECEIVED_ALREADY_ATTACHED
  | Client _, false =>
      Some POPO__BASE_CLIENT_OVERRIDING_WITH_EVENT_SINCE_HAS_RESPONSE_OR_RESPONSE_RECEIVED_ALREADY_ATTACHED
  | Client _, true =>
      Some POPO__BASE_CLIENT_OVERRIDING_WITH_STATE_SINCE_HAS_RESPONSE_OR_RESPONSE_RECEIVED_ALREADY_ATTACHED
  | Server _, false =>
      Some POPO__BASE_SERVER_OVERRIDING_WITH_EVENT_SINCE_HAS_REQUEST_OR_REQUEST_RECEIVED_ALREADY_ATTACHED
  | Server _, true =>
      Some POPO__BASE_SERVER_OVERRIDING_WITH_STATE_SINCE_HAS_REQUEST_OR_REQUEST_RECEIVED_ALREADY_ATTACHED
  end.

(** [enableEvent] and, for [state], [enableState] of an origin. *)
Definition enable (state : bool) (o : nat) (triggerHandle : TriggerHandle.t) (s : System.t) : outcome System.t :=
  let* x := get o (origins s) in
  let s := match already_attached state (Origin.kind x) with
           | Some e => if TriggerHandle.isValid (Origin.m_trigger x) then report e s else s
           | None => s
           end in
  let* s := handle_assign o triggerHandle s in
  match queue_of (Origin.kind x) with
  | None => Done s
  | Some q =>
      let* x := get o (origins s) in
      match TriggerHandle.m_conditionVariableDataPtr (Origin.m_trigger x) with
      | None => Terminated UNDEFINED_BEHAVIOUR
      | Some c =>
          let* w := ChunkQueuePopper.setConditionVariable q c (TriggerHandle.m_uniqueTriggerId (Origin.m_trigger x))
                      (world s) in
          Done (set_world w s)
      end
  end.

(** [disableEvent] and [disableState]; [detachEvent] and [detachState] of the
    wait set and the listener only call them. *)
Definition disable (o : nat) (s : System.t) : outcome System.t :=
  let* s := handle_reset o s in
  let* x := get o (origins s) in
  unset_condition (Origin.kind x) s.

(** The destructors: the handle resets itself, the port is marked. *)
Definition origin_dtor (o : nat) (s : System.t) : outcome System.t :=
  let* s := handle_reset o s in
  let* x := get o (origins s) in
  let s := match queue_of (Origin.kind x) with Some q => mark_port q s | None => s end in
  Done (put_origin o None s).

(** ** Attaching *)

Section attach.
(** [std::type_info::hash_code] *)
Context (hash_code : EnumType -> Z).

Definition event_enum (none : EnumType) (k : Kind) : EnumType :=
  match k with
  | UserTrigger => none | Subscriber _ => SubscriberEvent | Client _ => ClientEvent | Server _ => ServerEvent
  end.

Definition state_enum (k : Kind) : option EnumType :=
  match k with
  | UserTrigger => None | Subscriber _ => Some SubscriberState | Client _ => Some ClientState
  | Server _ => Some ServerState
  end.

(** The common part of [WaitSet::attachEvent] and [attachState]. *)
Definition waitset_attach (w o : nat) (state : bool) (hasTriggeredCallback : option nat) (eventId : Z)
    (eventCallback : NotificationCallback.t) (e : EnumType) (s : System.t)
    : outcome (expected unit WaitSet.WaitSetError * System.t) :=
  let* x := get w (waitSets s) in
  let* '(r, x) := WaitSet.attachImpl o hasTriggeredCallback eventId eventCallback 0 (hash_code e) x in
  let s := put_waitSet w (Some x) s in
  match r with
  | error err => Done (error err, s)
  | success uniqueId =>
      let* s := enable state o (TriggerHandle.ctor (WaitSet.m_conditionVariableDataPtr x) (ToWaitSet w) uniqueId) s in
      Done (success tt, s)
  end.

Definition waitset_attachEvent (w o : nat) (eventId : Z) (eventCallback : NotificationCallback.t) (s : System.t) :=
  let* x := get o (origins s) in
  waitset_attach w o false None eventId eventCallback (event_enum NoEventEnumUsed (Origin.kind x)) s.

(** [attachState]; a user trigger has none. *)
Definition waitset_attachState (w o : nat) (id : Z) (stateCallback : NotificationCallback.t) (s : System.t) :=
  let* x := get o (origins s) in
  match state_enum (Origin.kind x) with
  | Some e => waitset_attach w o true (Some o) id stateCallback e s
  | None => Terminated UNDEFINED_BEHAVIOUR
  end.

(** [ListenerImpl::attachEvent] *)
Definition listener_attachEvent (l o : nat) (eventCallback : NotificationCallback.t) (s : System.t)
    : outcome (expected unit Listener.ListenerError * System.t) :=
  match NotificationCallback.m_callback eventCallback with
  | None => Done (error Listener.EMPTY_EVENT_CALLBACK, s)
  | Some callback =>
      let* x := get o (origins s) in
      let* y := get l (listeners s) in
      let* '(r, y) := Listener.addEvent o (NotificationCallback.m_contextData eventCallback) 0
                        (hash_code (event_enum NoEnumUsed (Origin.kind x))) callback
                        (NotificationCallback.translation eventCallback) (Some o) y in
      let s := put_listener l (Some y) s in
      match r with
      | error err => Done (error err, s)
      | success eventId =>
          let* s := enable false o (TriggerHandle.ctor (Listener.m_conditionVariableData y) (ToListener l) eventId) s in
          Done (success tt, s)
      end
  end.
End attach.

(** ** Waiting *)

(** [Trigger::isStateConditionSatisfied] *)
Definition isStateConditionSatisfied (t : Trigger.t) (s : System.t) : outcome bool :=
  match Trigger.m_triggerType t with
  | Trigger.STATE_BASED =>
      if Trigger.isValid t
      then match Trigger.m_hasTriggeredCallback t with
           | Some o => isStateSatisfied o s
           | None => Terminated UNDEFINED_BEHAVIOUR
           end
      else Done false
  | Trigger.EVENT_BASED => Done (Trigger.isValid t)
  | Trigger.INVALID => Done false
  end.

(** One round of the loop in [createVectorWithTriggeredTriggers]; a pointer to
    the [NotificationInfo] of a trigger is the index of its slot. *)
Definition scan_round (s : System.t) (ws : WaitSet.t) (i : nat) (acc : list Z * list Z) : outcome (list Z * list Z) :=
  let '(triggers, active) := acc in
  match active !! i with
  | None => Terminated UNDEFINED_BEHAVIOUR
  | Some index =>
      match WaitSet.m_triggerArray ws !! Z.to_nat index with
      | None => Terminated UNDEFINED_BEHAVIOUR
      | Some None => Done (triggers, delete i active)
      | Some (Some t) =>
          let* satisfied := isStateConditionSatisfied t s in
          if satisfied : bool then
            let '(pushed, triggers) := emplace_back (WaitSet.capacity ws) triggers index in
            expects pushed
              (Done (triggers, if bool_decide (Trigger.m_triggerType t = Trigger.EVENT_BASED)
                               then delete i active else active))
          else Done (triggers, active)
      end
  end.

(** The loop from [i - 1] down to 0. *)
Fixpoint scan (s : System.t) (ws : WaitSet.t) (i : nat) (acc : list Z * list Z) : outcome (list Z * list Z) :=
  match i with
  | O => Done acc
  | S i => let* acc := scan_round s ws i acc in scan s ws i acc
  end.

Definition createVectorWithTriggeredTriggers (w : nat) (s : System.t) : outcome (list Z * System.t) :=
  let* x := get w (waitSets s) in
  let* '(triggers, active) :=
    scan s x (length (WaitSet.m_activeNotifications x)) ([], WaitSet.m_activeNotifications x) in
  Done (triggers, put_waitSet w (Some (WaitSet.set_active active x)) s).

Section wait.
(** [m_conditionListener.wait()] or [timedWait(..)]: the flags it collected. *)
Context (wait : System.t -> outcome (list Z * System.t)).
(** The capacity of [ConditionListener::NotificationVector_t]. *)
Context (MAX_NUMBER_OF_NOTIFIERS : nat).

Definition acquireNotifications (w : nat) (s : System.t) : outcome System.t :=
  let* '(notificationVector, s) := wait s in
  let* x := get w (waitSets s) in
  let active := WaitSet.m_activeNotifications x in
  Done (match active, notificationVector with
        | [], _ => put_waitSet w (Some (WaitSet.set_active notificationVector x)) s
        | _, [] => s
        | _, _ => put_waitSet w (Some (WaitSet.set_active
                    (uniqueMergeSortedContainers MAX_NUMBER_OF_NOTIFIERS notificationVector active) x)) s
        end).

Definition wasNotified (w : nat) (s : System.t) : outcome bool :=
  let* x := get w (waitSets s) in
  match condvars (world s) !! WaitSet.m_conditionVariableDataPtr x with
  | Some cv => Done (ConditionVariable.wasNotified cv)
  | None => Terminated UNDEFINED_BEHAVIOUR
  end.

Definition waitAndReturnTriggeredTriggers (w : nat) (s : System.t) : outcome (list Z * System.t) :=
  let* notified := wasNotified w s in
  let* s := if notified : bool then acquireNotifications w s else Done s in
  let* '(triggers, s) := createVectorWithTriggeredTriggers w s in
  match triggers with
  | _ :: _ => Done (triggers, s)
  | [] => let* s := acquireNotifications w s in createVectorWithTriggeredTriggers w s
  end.
End wait.

(** [NotificationInfo::operator()] of slot [i]: what it calls. *)
Definition notification_call (i : NotificationInfo.t) : option (nat * nat * option nat) :=
  match NotificationInfo.m_notificationOrigin i, NotificationInfo.m_callbackPtr i with
  | Some o, Some f =>
      Some (f, o, match NotificationInfo.m_callback i with
                  | WithContext => NotificationInfo.m_userValue i | NoType => None end)
  | _, _ => None
  end.

(** [ConditionListener::timedWait] of condition variable [c] when no notifier
    interferes: the semaphore is emptied and the flags are collected; without
    any it blocks until the timeout. *)
Fixpoint collect_all (n : nat) (i : Z) (active : list Z) (cv : ConditionVariable.t) : list Z * ConditionVariable.t :=
  match n with
  | O => (active, cv)
  | S n => let '(active, cv) := ConditionVariable.collect i active cv in collect_all n (i + 1) active cv
  end.

Definition timedWait_alone (c : nat) (s : System.t) : outcome (list Z * System.t) :=
  match condvars (world s) !! c with
  | None => Terminated UNDEFINED_BEHAVIOUR
  | Some cv =>
      let cv := ConditionVariable.set_semaphore 0 cv in
      let '(active, cv) := collect_all (length (ConditionVariable.m_activeNotifications cv)) 0 [] cv in
      Done (active, set_world (set_condvar c cv (world s)) s)
  end.

(** One round of [ListenerImpl::threadLoop] with the ids [wait] returned:
    [Event_t::executeCallback] for each; [run] is the user's function. *)
Section thread.
Context (run : nat -> nat -> option nat -> System.t -> outcome System.t).

Definition executeCallback (l : nat) (id : Z) (s : System.t) : outcome System.t :=
  let* x := get l (listeners s) in
  match Listener.m_events x !! Z.to_nat id with
  | None => Terminated UNDEFINED_BEHAVIOUR
  | Some e =>
      if Event_t.isInitialized e then
        match Event_t.m_origin e, Event_t.m_callback e, Event_t.m_translationCallback e with
        | Some o, Some f, Some tr =>
            run f o (match tr with WithContext => Event_t.m_userType e | NoType => None end) s
        | _, _, _ => Terminated UNDEFINED_BEHAVIOUR
        end
      else Done s
  end.

Fixpoint execute_callbacks (l : nat) (ids : list Z) (s : System.t) : outcome System.t :=
  match ids with
  | [] => Done s
  | id :: ids => let* s := executeCallback l id s in execute_callbacks l ids s
  end.
End thread.

(** ** Construction and destruction *)

(** [Trigger::reset], called by the destructor of the trigger in slot [i]. *)
Definition trigger_reset (t : Trigger.t) (s : System.t) : outcome System.t :=
  if Trigger.isValid t then
    match Trigger.m_resetCallback t with
    | Some o => invalidateTrigger o (Trigger.m_uniqueId t) s
    | None => Done s
    end
  else Done s.

(** [removeAllTriggers]: [optional::reset] of every slot; the next one is [i]. *)
Fixpoint removeAllTriggers (n : nat) (w i : nat) (s : System.t) : outcome System.t :=
  match n with
  | O => Done s
  | S n =>
      let* x := get w (waitSets s) in
      let* s := match WaitSet.m_triggerArray x !! i with
                | Some (Some t) =>
                    let* s := trigger_reset t s in
                    let* x := get w (waitSets s) in
                    Done (put_waitSet w (Some (WaitSet.set_slots (<[i := None]> (WaitSet.m_triggerArray x))
                                                 (WaitSet.m_indexRepository x) x)) s)
                | _ => Done s
                end in
      removeAllTriggers n w (S i) s
  end.

Definition waitset_dtor (w : nat) (s : System.t) : outcome System.t :=
  let* x := get w (waitSets s) in
  let* s := removeAllTriggers (WaitSet.capacity x) w 0 s in
  Done (put_waitSet w None (mark_condvar (WaitSet.m_conditionVariableDataPtr x) s)).

(** [ConditionListener::destroy] without its flag *)
Definition destroy_post (c : nat) (s : System.t) : outcome System.t :=
  match condvars (world s) !! c with
  | None => Terminated UNDEFINED_BEHAVIOUR
  | Some cv =>
      match ConditionVariable.post cv with
      | Done cv => Done (set_world (set_condvar c cv (world s)) s)
      | Terminated _ => Terminated POPO__CONDITION_LISTENER_SEMAPHORE_CORRUPTED_IN_DESTROY
      end
  end.

Definition markForDestruction (w : nat) (s : System.t) : outcome System.t :=
  let* x := get w (waitSets s) in
  destroy_post (WaitSet.m_conditionVariableDataPtr x) (put_waitSet w (Some (WaitSet.set_listenerToBeDestroyed x)) s).

(** The body of [~ListenerImpl]; joining the thread has no effect here. *)
Definition listener_dtor_body (l : nat) (s : System.t) : outcome System.t :=
  let* x := get l (listeners s) in
  let s := put_listener l (Some (Listener.mk (Listener.m_indexManager x) (Listener.m_events x) true
                                   (Listener.m_conditionVariableData x) true)) s in
  let* s := destroy_post (Listener.m_conditionVariableData x) s in
  Done (mark_condvar (Listener.m_conditionVariableData x) s).

(** The array [m_events] is destroyed, last element first. *)
Fixpoint destroy_events (n : nat) (l : nat) (s : System.t) : outcome System.t :=
  match n with
  | O => Done s
  | S n => let* '(_, s) := event_reset l n s in destroy_events n l s
  end.

Definition listener_dtor (l : nat) (s : System.t) : outcome System.t :=
  let* s := listener_dtor_body l s in
  let* x := get l (listeners s) in
  let* s := destroy_events (Listener.capacity x) l s in
  Done (put_listener l None s).

(** A new object is put at a fresh address. *)
Definition waitset_new (Capacity c : nat) (s : System.t) : System.t :=
  System.mk (world s) (waitSets s ++ [Some (WaitSet.ctor Capacity c)]) (listeners s) (origins s)
    (condvars_toBeDestroyed s) (ports_toBeDestroyed s).

Definition listener_new (lock_free : bool) (Capacity c : nat) (s : System.t) : outcome System.t :=
  let* x := Listener.ctor lock_free Capacity c in
  Done (System.mk (world s) (waitSets s) (listeners s ++ [Some x]) (origins s) (condvars_toBeDestroyed s)
          (ports_toBeDestroyed s)).

Definition origin_new (k : Kind) (s : System.t) : System.t :=
  System.mk (world s) (waitSets s) (listeners s) (origins s ++ [Some (Origin.mk k TriggerHandle.invalid)])
    (condvars_toBeDestroyed s) (ports_toBeDestroyed s).
