(* ===== verification/Attachments.v ===== *)
(** * The invariant of attachments

    What holds between wait sets, listeners and the origins attached to them:
    every handle of a living origin points to a slot of a living wait set or
    listener that points back to it, the queue of an attached port notifies the
    condition variable of that object with the index of that slot, and the free
    indices of a wait set or listener are those of its empty slots. *)

From stdpp Require Import sorting.
From S2P Require Import Prelude Loffli ChunkHeader MemoryManager SharedChunk Queue VariantQueue.
From S2P Require Import ConditionVariable ChunkQueue Notifications.
Import System.

(** ** Slots of a wait set *)

Definition trigger_ok (i : nat) (t : Trigger.t) : Prop :=
  Trigger.m_uniqueId t = Z.of_nat i /\
  exists o, Trigger.m_resetCallback t = Some o /\
    NotificationInfo.m_notificationOrigin (Trigger.m_notificationInfo t) = Some o /\
    ((Trigger.m_triggerType t = Trigger.EVENT_BASED /\ Trigger.m_hasTriggeredCallback t = None) \/
     (Trigger.m_triggerType t = Trigger.STATE_BASED /\ Trigger.m_hasTriggeredCallback t = Some o)).

(** The slots hold triggers with their own index; [m_activeNotifications] is
    sorted. *)
Record slots_ok (x : WaitSet.t) : Prop := {
  so_capacity : Z.of_nat (WaitSet.capacity x) < 2 ^ 32;
  so_triggers : forall i t, WaitSet.m_triggerArray x !! i = Some (Some t) -> trigger_ok i t;
  so_active : ConditionVariable.ascending (WaitSet.m_activeNotifications x) (Z.of_nat (WaitSet.capacity x)) }.

(** The repository holds the indices of the empty slots. *)
Record free_ok (x : WaitSet.t) : Prop := {
  fo_nodup : NoDup (WaitSet.m_indexRepository x);
  fo_free : forall i, i ∈ WaitSet.m_indexRepository x <->
              exists n, i = Z.of_nat n /\ WaitSet.m_triggerArray x !! n = Some None }.

(** The origin the slot points to. *)
Definition waitset_slot (x : WaitSet.t) (i : Z) : option nat :=
  t ← aget None (WaitSet.m_triggerArray x) i; Trigger.m_resetCallback t.

(** The origin whose state the trigger in the slot asks for. *)
Definition waitset_state (x : WaitSet.t) (i : Z) : option nat :=
  t ← aget None (WaitSet.m_triggerArray x) i; Trigger.m_hasTriggeredCallback t.

Lemma aget_nonneg {A} (d : A) l (n : nat) : aget d l (Z.of_nat n) = default d (l !! n).
Proof. unfold aget. destruct (Z.ltb_spec (Z.of_nat n) 0); [lia|]. by rewrite Nat2Z.id. Qed.

Lemma aget_lookup {A} (d : A) l i x : aget d l i = x -> x <> d -> exists n, i = Z.of_nat n /\ l !! n = Some x.
Proof.
  unfold aget. destruct (Z.ltb_spec i 0); simpl; [congruence|]. intros <- Hd. exists (Z.to_nat i).
  rewrite Z2Nat.id by lia. destruct (l !! Z.to_nat i); [done|]. by contradict Hd.
Qed.

Lemma waitset_slot_lookup x i o : waitset_slot x i = Some o ->
  exists n t, i = Z.of_nat n /\ WaitSet.m_triggerArray x !! n = Some (Some t) /\ Trigger.m_resetCallback t = Some o.
Proof.
  unfold waitset_slot. intros H. destruct (aget _ _ _) as [t|] eqn:E; [|done].
  apply aget_lookup in E as (n & -> & E); [|done]. eauto.
Qed.

Lemma slot_insert x n v r i : (n < WaitSet.capacity x)%nat ->
  waitset_slot (WaitSet.set_slots (<[n := v]> (WaitSet.m_triggerArray x)) r x) i =
  if decide (i = Z.of_nat n) then v ≫= Trigger.m_resetCallback else waitset_slot x i.
Proof.
  intros Hn. unfold waitset_slot. simpl. case_decide as Hi.
  - subst. rewrite aget_nonneg, list_lookup_insert_eq by done. by destruct v.
  - unfold aget. destruct (Z.ltb_spec i 0); [done|]. rewrite list_lookup_insert_ne by lia. done.
Qed.

Lemma state_insert x n v r i : (n < WaitSet.capacity x)%nat ->
  waitset_state (WaitSet.set_slots (<[n := v]> (WaitSet.m_triggerArray x)) r x) i =
  if decide (i = Z.of_nat n) then v ≫= Trigger.m_hasTriggeredCallback else waitset_state x i.
Proof.
  intros Hn. unfold waitset_state. simpl. case_decide as Hi.
  - subst. rewrite aget_nonneg, list_lookup_insert_eq by done. by destruct v.
  - unfold aget. destruct (Z.ltb_spec i 0); [done|]. rewrite list_lookup_insert_ne by lia. done.
Qed.

Lemma state_slot_agree x i o : slots_ok x -> waitset_state x i = Some o -> waitset_slot x i = Some o.
Proof.
  unfold waitset_state, waitset_slot. intros Hs H. destruct (aget _ _ _) as [t|] eqn:E; [|done].
  apply aget_lookup in E as (n & -> & E); [|done]. destruct (so_triggers _ Hs _ _ E) as (_ & o' & Hr & _ & [[_ Hh]|[_ Hh]]);
    simpl in *; congruence.
Qed.

Lemma slots_ok_insert x n v r : slots_ok x ->
  (forall t, v = Some t -> trigger_ok n t) -> slots_ok (WaitSet.set_slots (<[n := v]> (WaitSet.m_triggerArray x)) r x).
Proof.
  intros [Hc Ht Ha] Hv. split; unfold WaitSet.capacity in *; simpl; rewrite ?length_insert; [done| |done].
  intros i t H. apply list_lookup_insert_Some in H as [(-> & -> & _)|(_ & H)]; eauto.
Qed.

(** Pigeonhole: with an occupied slot there is room in the repository. *)
Lemma free_length x n t : free_ok x -> WaitSet.m_triggerArray x !! n = Some (Some t) ->
  (length (WaitSet.m_indexRepository x) < WaitSet.capacity x)%nat.
Proof.
  intros [Hnd Hf] Hn.
  assert (Hsub : Z.of_nat n :: WaitSet.m_indexRepository x ⊆+ Z.of_nat <$> seq 0 (WaitSet.capacity x)).
  { apply NoDup_submseteq.
    - constructor; [|done]. rewrite Hf. intros (m & Hm & E). apply Nat2Z.inj in Hm as <-. congruence.
    - intros i Hi. apply list_elem_of_fmap. apply elem_of_cons in Hi as [->|Hi].
      + apply lookup_lt_Some in Hn. exists n. split; [done|]. apply elem_of_seq. unfold WaitSet.capacity. lia.
      + apply Hf in Hi as (m & -> & Hm). apply lookup_lt_Some in Hm. exists m. split; [done|].
        apply elem_of_seq. unfold WaitSet.capacity. lia. }
  apply submseteq_length in Hsub. rewrite length_fmap, length_seq in Hsub. simpl in Hsub. lia.
Qed.

Lemma free_insert_none x n t : free_ok x -> WaitSet.m_triggerArray x !! n = Some (Some t) ->
  free_ok (WaitSet.set_slots (<[n := None]> (WaitSet.m_triggerArray x))
             (Z.of_nat n :: WaitSet.m_indexRepository x) x).
Proof.
  intros [Hnd Hf] Hn. pose proof (lookup_lt_Some _ _ _ Hn) as Hl. split; simpl.
  - constructor; [|done]. rewrite Hf. intros (m & Hm & E). apply Nat2Z.inj in Hm as <-. congruence.
  - intros i. rewrite elem_of_cons, Hf. split.
    + intros [->|(m & -> & Hm)]; [exists n; by rewrite list_lookup_insert_eq|].
      exists m. split; [done|]. rewrite list_lookup_insert_ne; [done|congruence].
    + intros (m & -> & Hm). apply list_lookup_insert_Some in Hm as [(-> & _ & _)|(_ & Hm)]; eauto.
Qed.

Lemma free_insert_some x n t r : free_ok x -> WaitSet.m_indexRepository x = Z.of_nat n :: r ->
  free_ok (WaitSet.set_slots (<[n := Some t]> (WaitSet.m_triggerArray x)) r x).
Proof.
  intros [Hnd Hf] Hr. rewrite Hr in *. apply NoDup_cons in Hnd as [Hni Hnd]. split; simpl; [done|].
  intros i. split.
  - intros Hi. destruct (proj1 (Hf i)) as (m & -> & Hm); [by right|]. exists m. split; [done|].
    rewrite list_lookup_insert_ne; [done|]. intros ->. done.
  - intros (m & -> & Hm). apply list_lookup_insert_Some in Hm as [(_ & ? & _)|(Hne & Hm)]; [done|].
    assert (Hin : Z.of_nat m ∈ Z.of_nat n :: r) by (apply Hf; eauto).
    apply elem_of_cons in Hin as [E|E]; [lia|done].
Qed.

(** *** [removeTrigger] and [attachImpl] *)

Lemma find_trigger x n t : slots_ok x -> WaitSet.m_triggerArray x !! n = Some (Some t) ->
  list_find (fun e : option Trigger.t =>
               Is_true (match e with Some y => Trigger.m_uniqueId y =? Z.of_nat n | None => false end))
            (WaitSet.m_triggerArray x) = Some (n, Some t).
Proof.
  intros Hs Hn. apply list_find_Some. split_and!; [done| |].
  - destruct (so_triggers _ Hs _ _ Hn) as [-> _]. apply Is_true_true. lia.
  - intros j y Hj Hlt. destruct y as [y|]; [|by intros []]. destruct (so_triggers _ Hs _ _ Hj) as [-> _].
    rewrite Is_true_true. lia.
Qed.

Lemma waitset_removeTrigger_ok x i o : slots_ok x -> free_ok x -> waitset_slot x i = Some o ->
  exists x', WaitSet.removeTrigger i x = Done x' /\ slots_ok x' /\ free_ok x' /\
    WaitSet.m_conditionVariableDataPtr x' = WaitSet.m_conditionVariableDataPtr x /\
    WaitSet.capacity x' = WaitSet.capacity x /\
    (forall j, waitset_slot x' j = if decide (j = i) then None else waitset_slot x j) /\
    forall j, waitset_state x' j = if decide (j = i) then None else waitset_state x j.
Proof.
  intros Hs Hf (n & t & -> & Hn & Ho)%waitset_slot_lookup.
  unfold WaitSet.removeTrigger. rewrite (find_trigger _ _ _ Hs Hn). unfold Stack.push.
  rewrite (proj2 (Nat.ltb_lt _ _)) by (eapply free_length; eauto). simpl.
  eexists; split; [done|]. split_and!; [by apply slots_ok_insert| by eapply free_insert_none | done
    | apply length_insert | |]; intros j; [rewrite slot_insert|rewrite state_insert]; try done;
    by apply lookup_lt_Some in Hn.
Qed.

Definition attached_as (x : WaitSet.t) (o : nat) (ty hash : Z) : Prop :=
  exists n t, WaitSet.m_triggerArray x !! n = Some (Some t) /\ Trigger.isLogicalEqualTo o ty hash t = true.

Lemma attached_as_existsb x o ty hash :
  existsb (fun e => match e with Some t => Trigger.isLogicalEqualTo o ty hash t | None => false end)
    (WaitSet.m_triggerArray x) = true <-> attached_as x o ty hash.
Proof.
  rewrite existsb_exists. unfold attached_as. split.
  - intros ([t|] & Hin & Ht); [|done]. apply list_elem_of_In, list_elem_of_lookup in Hin as [n Hn]. eauto.
  - intros (n & t & Hn & Ht). exists (Some t). split; [|done]. apply list_elem_of_In. by eapply list_elem_of_lookup_2.
Qed.

(** The outcomes of [attachImpl]. *)
Definition attach_outcome (x : WaitSet.t) (o : nat) (cb : option nat) (ty hash : Z) (r : expected Z WaitSet.WaitSetError)
    (x' : WaitSet.t) : Prop :=
  match r with
  | error WaitSet.ALREADY_ATTACHED => x' = x /\ attached_as x o ty hash
  | error WaitSet.WAIT_SET_FULL => x' = x /\ ~ attached_as x o ty hash /\
      WaitSet.size x = Z.of_nat (WaitSet.capacity x)
  | success i => ~ attached_as x o ty hash /\ slots_ok x' /\ free_ok x' /\
      WaitSet.m_conditionVariableDataPtr x' = WaitSet.m_conditionVariableDataPtr x /\
      WaitSet.capacity x' = WaitSet.capacity x /\ 0 <= i < Z.of_nat (WaitSet.capacity x) /\
      waitset_slot x i = None /\
      (forall j, waitset_slot x' j = if decide (j = i) then Some o else waitset_slot x j) /\
      forall j, waitset_state x' j = if decide (j = i) then cb else waitset_state x j
  end.

Lemma attachImpl_ok x o cb eid ecb ty hash : slots_ok x -> free_ok x -> cb = None \/ cb = Some o ->
  exists r x', WaitSet.attachImpl o cb eid ecb ty hash x = Done (r, x') /\ attach_outcome x o cb ty hash r x'.
Proof.
  intros Hs Hf Hcb. unfold WaitSet.attachImpl.
  pose proof (attached_as_existsb x o ty hash) as Hex.
  destruct (existsb _ _); [eexists _, _; split; [done|]; split; [done|by apply Hex]|].
  assert (Hno : ~ attached_as x o ty hash) by (rewrite <- Hex; done).
  destruct (WaitSet.m_indexRepository x) as [|i r] eqn:Hr; simpl.
  { eexists _, _. split; [done|]. split_and!; [done..|]. unfold WaitSet.size. rewrite Hr. simpl. lia. }
  destruct (proj1 (fo_free _ Hf i)) as (n & -> & Hn); [rewrite Hr; left|].
  pose proof (lookup_lt_Some _ _ _ Hn) as Hl.
  assert (Hx : exists t, match cb with
                  | Some _ => Trigger.ctor_state o cb (Some o) eid ecb (Z.of_nat n) ty hash
                  | None => Trigger.ctor_event o (Some o) eid ecb (Z.of_nat n) ty hash
                  end = Done t /\ trigger_ok n t /\ Trigger.m_resetCallback t = Some o /\
                  Trigger.m_hasTriggeredCallback t = cb).
  { destruct Hcb as [-> | ->]; (eexists; split_and!; [reflexivity| |done|done]); (split; [done|]); exists o; naive_solver. }
  destruct Hx as (t & -> & Ht & Ho & Hcb'). cbn [obind]. eexists _, _. split; [done|].
  unfold aset. destruct (Z.ltb_spec (Z.of_nat n) 0); [lia|]. rewrite Nat2Z.id. unfold attach_outcome.
  split_and!; try done.
  - apply slots_ok_insert; [done|]. by intros ? [= <-].
  - by eapply free_insert_some.
  - apply length_insert.
  - unfold WaitSet.capacity. lia.
  - unfold waitset_slot. by rewrite aget_nonneg, Hn.
  - intros j. rewrite slot_insert by done. simpl. by rewrite Ho.
  - intros j. rewrite state_insert by done. simpl. by rewrite Hcb'.
Qed.

(** ** Slots of a listener *)

Definition event_ok (i : nat) (e : Event_t.t) : Prop :=
  if Event_t.isInitialized e
  then Event_t.m_eventId e = Z.of_nat i /\
       exists o, Event_t.m_origin e = Some o /\ Event_t.m_invalidationCallback e = Some o
  else Event_t.m_origin e = None.

Record events_ok (x : Listener.t) : Prop := {
  eo_capacity : Z.of_nat (Listener.capacity x) < UINT32_MAX - 1;
  eo_events : forall i e, Listener.m_events x !! i = Some e -> event_ok i e }.

(** The index manager holds the indices of the unused events. *)
Definition indices_ok (x : Listener.t) : Prop :=
  exists fl, LoFFLi.Rep (IndexManager.m_loffli (Listener.m_indexManager x)) fl /\
    LoFFLi.m_size (IndexManager.m_loffli (Listener.m_indexManager x)) = Z.of_nat (Listener.capacity x) /\
    Listener.size x + Z.of_nat (length fl) = Z.of_nat (Listener.capacity x) /\
    forall i, i ∈ fl <-> exists n e, i = Z.of_nat n /\ Listener.m_events x !! n = Some e /\
                                     Event_t.isInitialized e = false.

Definition listener_slot (x : Listener.t) (i : Z) : option nat :=
  let e := aget Event_t.ctor (Listener.m_events x) i in
  if Event_t.isInitialized e then Event_t.m_invalidationCallback e else None.

Lemma listener_slot_lookup x i o : events_ok x -> listener_slot x i = Some o ->
  exists n e, i = Z.of_nat n /\ Listener.m_events x !! n = Some e /\ Event_t.isInitialized e = true /\
    Event_t.m_eventId e = Z.of_nat n /\ Event_t.m_origin e = Some o /\ Event_t.m_invalidationCallback e = Some o.
Proof.
  unfold listener_slot. intros Hx H. destruct (Event_t.isInitialized (aget _ _ _)) eqn:Ei; [|done].
  destruct (aget_lookup Event_t.ctor (Listener.m_events x) i _ eq_refl) as (n & -> & Hn); [by intros E; rewrite E in Ei|].
  pose proof (eo_events _ Hx _ _ Hn) as He. unfold event_ok in He. rewrite Ei in He.
  destruct He as (Hid & o' & Ho & Hinv). assert (o' = o) as -> by congruence. eauto 10.
Qed.

Lemma listener_slot_insert x m n e i : (n < Listener.capacity x)%nat ->
  listener_slot (Listener.set_events m (<[n := e]> (Listener.m_events x)) x) i =
  if decide (i = Z.of_nat n)
  then (if Event_t.isInitialized e then Event_t.m_invalidationCallback e else None) else listener_slot x i.
Proof.
  intros Hn. unfold listener_slot. simpl. case_decide as Hi.
  - subst. by rewrite aget_nonneg, list_lookup_insert_eq by done.
  - unfold aget. destruct (Z.ltb_spec i 0); [done|]. by rewrite list_lookup_insert_ne by lia.
Qed.

Lemma cleared_uninitialized e : Event_t.isInitialized (Event_t.cleared e) = false.
Proof. done. Qed.

Lemma events_ok_insert x m n e : events_ok x -> event_ok n e ->
  events_ok (Listener.set_events m (<[n := e]> (Listener.m_events x)) x).
Proof.
  intros [Hc He] Hn. split; unfold Listener.capacity in *; simpl; rewrite ?length_insert; [done|].
  intros i e' H. apply list_lookup_insert_Some in H as [(-> & -> & _)|(_ & H)]; eauto.
Qed.

Lemma indices_clear x n e : indices_ok x -> events_ok x -> Listener.m_events x !! n = Some e -> Event_t.isInitialized e = true ->
  exists m, IndexManager.push (u32 (Z.of_nat n)) (Listener.m_indexManager x) = Done m /\
    indices_ok (Listener.set_events m (<[n := Event_t.cleared e]> (Listener.m_events x)) x).
Proof.
  intros (fl & Hr & Hsz & Hu & Hf) Hx Hn Hi. pose proof (lookup_lt_Some _ _ _ Hn) as Hl.
  pose proof (eo_capacity _ Hx) as Hcap. unfold UINT32_MAX, Listener.capacity in *.
  unfold IndexManager.push. rewrite u32_small by lia.
  destruct (LoFFLi.push_taken _ (Z.of_nat n) _ Hr) as (l' & -> & Hr' & Hs'); [lia| |].
  { rewrite Hf. intros (n' & e' & E & Hn' & Hi'). apply Nat2Z.inj in E as <-. congruence. }
  eexists. split; [done|]. exists (Z.of_nat n :: fl). simpl.
  unfold Listener.size in *. simpl. unfold Listener.capacity. simpl. rewrite length_insert.
  pose proof (LoFFLi.rep_free_length _ _ Hr').
  rewrite u64_small by (simpl length in *; lia).
  split_and!; [done|lia|simpl; lia|].
  intros i. rewrite elem_of_cons, Hf. split.
  - intros [->|(m & e' & -> & Hm & Hi')]; [exists n, (Event_t.cleared e); by rewrite list_lookup_insert_eq|].
    exists m, e'. split_and!; [done| |done]. rewrite list_lookup_insert_ne; [done|congruence].
  - intros (m & e' & -> & Hm & Hi'). apply list_lookup_insert_Some in Hm as [(-> & _ & _)|(_ & Hm)]; eauto 10.
Qed.

Definition listens_as (x : Listener.t) (o : nat) (ty hash : Z) : Prop :=
  exists n e, Listener.m_events x !! n = Some e /\ Event_t.isEqualTo o ty hash e = true.

Lemma listens_as_existsb x o ty hash :
  existsb (Event_t.isEqualTo o ty hash) (Listener.m_events x) = true <-> listens_as x o ty hash.
Proof.
  rewrite existsb_exists. unfold listens_as. split.
  - intros (e & Hin & He). apply list_elem_of_In, list_elem_of_lookup in Hin as [n Hn]. eauto.
  - intros (n & e & Hn & He). exists e. split; [|done]. apply list_elem_of_In. by eapply list_elem_of_lookup_2.
Qed.

(** The outcomes of [addEvent]. *)
Definition add_outcome (x : Listener.t) (o : nat) (ty hash : Z) (r : expected Z Listener.ListenerError)
    (x' : Listener.t) : Prop :=
  match r with
  | error Listener.EVENT_ALREADY_ATTACHED => x' = x /\ listens_as x o ty hash
  | error Listener.LISTENER_FULL => x' = x /\ ~ listens_as x o ty hash /\
      Listener.size x = Z.of_nat (Listener.capacity x)
  | error _ => False
  | success i => ~ listens_as x o ty hash /\ events_ok x' /\ indices_ok x' /\
      Listener.m_conditionVariableData x' = Listener.m_conditionVariableData x /\
      Listener.capacity x' = Listener.capacity x /\ 0 <= i < Z.of_nat (Listener.capacity x) /\
      listener_slot x i = None /\
      forall j, listener_slot x' j = if decide (j = i) then Some o else listener_slot x j
  end.

Lemma indices_add x n r e m : indices_ok x -> events_ok x -> Event_t.isInitialized e = true ->
  IndexManager.pop (Listener.m_indexManager x) = (r, m) -> r = Some (Z.of_nat n) ->
  indices_ok (Listener.set_events m (<[n := e]> (Listener.m_events x)) x).
Proof.
  intros (fl & Hr & Hsz & Hu & Hf) Hx Hi Hp ->. unfold IndexManager.pop in Hp.
  pose proof (eo_capacity _ Hx) as Hcap. unfold UINT32_MAX in Hcap.
  destruct fl as [|i fl]; [by rewrite (LoFFLi.pop_nil _ Hr) in Hp|].
  destruct (LoFFLi.pop_cons _ _ _ Hr) as (l' & E & Hr' & Hs'). rewrite E in Hp. injection Hp as -> <-.
  pose proof (LoFFLi.rep_nodup _ _ Hr) as [Hni _]%NoDup_cons.
  exists fl. unfold Listener.size, Listener.capacity in *. simpl in *. rewrite length_insert.
  pose proof (LoFFLi.rep_free_length _ _ Hr). simpl in *.
  rewrite u64_small by lia. split_and!; [done|lia|lia|].
  intros i. split.
  - intros Hin. destruct (proj1 (Hf i)) as (n' & e' & -> & Hn' & Hi'); [by right|].
    exists n', e'. split_and!; [done| |done]. rewrite list_lookup_insert_ne; [done|]. by intros ->.
  - intros (n' & e' & -> & Hn' & Hi'). apply list_lookup_insert_Some in Hn' as [(_ & -> & _)|(Hne & Hn')]; [congruence|].
    assert (Hin : Z.of_nat n' ∈ Z.of_nat n :: fl) by (apply Hf; eauto).
    apply elem_of_cons in Hin as [E'|?]; [lia|done].
Qed.

Lemma addEvent_ok x o ut ty hash cb tr : events_ok x -> indices_ok x -> ty <> Event_t.INVALID_ID -> hash <> Event_t.INVALID_ID ->
  exists r x', Listener.addEvent o ut ty hash cb tr (Some o) x = Done (r, x') /\ add_outcome x o ty hash r x'.
Proof.
  intros He Hi Hty Hh. unfold Listener.addEvent.
  pose proof (listens_as_existsb x o ty hash) as Hex.
  destruct (existsb _ _); [eexists _, _; split; [done|]; split; [done|by apply Hex]|].
  assert (Hno : ~ listens_as x o ty hash) by (rewrite <- Hex; done).
  pose proof Hi as (fl & Hr & Hsz & Hu & Hf).
  destruct (IndexManager.pop (Listener.m_indexManager x)) as [r m] eqn:Hp.
  pose proof Hp as Hp'. unfold IndexManager.pop in Hp'. destruct fl as [|i fl].
  { rewrite (LoFFLi.pop_nil _ Hr) in Hp'. injection Hp' as <- <-. eexists _, _. split; [done|].
    split_and!; [by destruct x as [[] ? ? ? ?]|done|]. simpl in Hu. lia. }
  destruct (LoFFLi.pop_cons _ _ _ Hr) as (l' & E & _ & _). rewrite E in Hp'. injection Hp' as <- _.
  destruct (proj1 (Hf i)) as (n & e & -> & Hn & Hne); [by left|]. rewrite Nat2Z.id, Hn.
  pose proof (lookup_lt_Some _ _ _ Hn) as Hl. pose proof (eo_capacity _ He) as Hcap.
  unfold Listener.capacity, UINT32_MAX in Hcap. cbn -[Event_t.isInitialized listener_slot].
  set (e' := Event_t.mk _ _ _ _ _ _ _ _).
  assert (Hi' : Event_t.isInitialized e' = true).
  { unfold Event_t.isInitialized. simpl. unfold Event_t.INVALID_ID, UINT64_MAX in *.
    rewrite !(proj2 (Z.eqb_neq _ _)) by lia. done. }
  eexists _, _. split; [done|]. unfold add_outcome. split_and!; try done.
  - apply events_ok_insert; [done|]. unfold event_ok. rewrite Hi'. split; [done|]. exists o. done.
  - by eapply indices_add.
  - apply length_insert.
  - lia.
  - unfold Listener.capacity. lia.
  - unfold listener_slot. cbv zeta. rewrite aget_nonneg, Hn. simpl. by rewrite Hne.
  - intros j. rewrite listener_slot_insert by done. by rewrite Hi'.
Qed.

(** ** The system *)

(** The origin that slot [i] of wait set or listener [t] points to, and the slot
    that the handle of origin [o] points to. *)
Definition slot (s : System.t) (t : Target) (i : Z) : option nat :=
  match t with
  | ToWaitSet w => match waitSets s !! w with Some (Some x) => waitset_slot x i | _ => None end
  | ToListener l => match listeners s !! l with Some (Some x) => listener_slot x i | _ => None end
  end.

Definition state_slot (s : System.t) (w : nat) (i : Z) : option nat :=
  match waitSets s !! w with Some (Some x) => waitset_state x i | _ => None end.

Definition handle_link (h : TriggerHandle.t) : option (Target * Z) :=
  match TriggerHandle.m_conditionVariableDataPtr h, TriggerHandle.m_resetCallback h with
  | Some _, Some t => Some (t, TriggerHandle.m_uniqueTriggerId h)
  | _, _ => None
  end.

Definition link (s : System.t) (o : nat) : option (Target * Z) :=
  match origins s !! o with Some (Some x) => handle_link (Origin.m_trigger x) | _ => None end.

Definition condvar_of (s : System.t) (t : Target) : option nat :=
  match t with
  | ToWaitSet w => match waitSets s !! w with Some (Some x) => Some (WaitSet.m_conditionVariableDataPtr x) | _ => None end
  | ToListener l => match listeners s !! l with Some (Some x) => Some (Listener.m_conditionVariableData x) | _ => None end
  end.

Definition capacity_of (s : System.t) (t : Target) : nat :=
  match t with
  | ToWaitSet w => match waitSets s !! w with Some (Some x) => WaitSet.capacity x | _ => 0%nat end
  | ToListener l => match listeners s !! l with Some (Some x) => Listener.capacity x | _ => 0%nat end
  end.

(** [X] is a wait set or listener that is being destroyed: its free indices are
    not kept. *)
Definition targets_ok (X : option Target) (s : System.t) : Prop :=
  (forall w x, waitSets s !! w = Some (Some x) -> slots_ok x /\ (X <> Some (ToWaitSet w) -> free_ok x)) /\
  (forall l x, listeners s !! l = Some (Some x) -> events_ok x /\ (X <> Some (ToListener l) -> indices_ok x)).

Definition handle_ok (s : System.t) (h : TriggerHandle.t) : Prop :=
  h = TriggerHandle.invalid \/ exists c t i, h = TriggerHandle.ctor c t i /\ condvar_of s t = Some c.

(** What the queue of a port notifies, and what it should according to the
    handle. *)
Definition condition_of (d : ChunkQueueData.t) : option nat * option Z :=
  (ChunkQueueData.m_conditionVariableDataPtr d, ChunkQueueData.m_conditionVariableNotificationIndex d).

Definition handle_condition (h : TriggerHandle.t) : option nat * option Z :=
  match TriggerHandle.m_conditionVariableDataPtr h with
  | Some c => (Some c, Some (TriggerHandle.m_uniqueTriggerId h))
  | None => (None, None)
  end.

Definition queue_notifies (s : System.t) (q : nat) (h : TriggerHandle.t) : Prop :=
  exists d, queues (world s) !! q = Some d /\ condition_of d = handle_condition h.

Record Inv (X : option Target) (s : System.t) : Prop := {
  inv_targets : targets_ok X s;
  inv_handles : forall o x, origins s !! o = Some (Some x) -> handle_ok s (Origin.m_trigger x);
  inv_coherent : forall t i o, slot s t i = Some o <-> link s o = Some (t, i);
  inv_queues : forall o x q, origins s !! o = Some (Some x) -> queue_of (Origin.kind x) = Some q ->
      queue_notifies s q (Origin.m_trigger x);
  inv_states : forall w i o x, state_slot s w i = Some o -> origins s !! o = Some (Some x) ->
      queue_of (Origin.kind x) <> None;
  inv_distinct : forall o o' x x' q, origins s !! o = Some (Some x) -> origins s !! o' = Some (Some x') ->
      queue_of (Origin.kind x) = Some q -> queue_of (Origin.kind x') = Some q -> o = o';
  inv_condvars : forall t t' c, condvar_of s t = Some c -> condvar_of s t' = Some c -> t = t';
  inv_notifiers : forall t c, condvar_of s t = Some c -> exists cv, condvars (world s) !! c = Some cv /\
      Z.of_nat (capacity_of s t) <= ConditionVariable.MAX_NUMBER_OF_NOTIFIERS cv;
  inv_marks : forall t c, condvar_of s t = Some c -> X <> Some t -> condvars_toBeDestroyed s !! c = Some false }.

(** *** Replacing the attachment of an origin *)

(** From [s] to [s'] the entry of origin [o] becomes [v]; its slot is emptied
    and the slot [L], if any, is taken for it. *)
Record relinked (X : option Target) (s s' : System.t) (o : nat) (v : option Origin.t) (L : option (Target * Z)) : Prop := {
  rl_targets : targets_ok X s';
  rl_origins : origins s' = <[o := v]> (origins s);
  rl_slot : forall t i, slot s' t i = if decide (L = Some (t, i)) then Some o
                                      else if decide (link s o = Some (t, i)) then None else slot s t i;
  rl_states : forall w i o', state_slot s' w i = Some o' ->
      state_slot s w i = Some o' \/ (L = Some (ToWaitSet w, i) /\ o' = o);
  rl_condvar : forall t, condvar_of s' t = condvar_of s t;
  rl_capacity : forall t, capacity_of s' t = capacity_of s t;
  rl_notifiers : condvars (world s') = condvars (world s);
  rl_marks : condvars_toBeDestroyed s' = condvars_toBeDestroyed s;
  rl_queues : forall q, (forall x, origins s !! o = Some (Some x) -> queue_of (Origin.kind x) <> Some q) ->
      queues (world s') !! q = queues (world s) !! q }.

(** The new entry: the same object with a handle to [L], or none. *)
Definition entry_ok (s s' : System.t) (x : Origin.t) (v : option Origin.t) (L : option (Target * Z)) : Prop :=
  match v with
  | Some x' => Origin.kind x' = Origin.kind x /\ handle_ok s (Origin.m_trigger x') /\
      handle_link (Origin.m_trigger x') = L /\
      (forall w i, L = Some (ToWaitSet w, i) -> state_slot s' w i <> None -> queue_of (Origin.kind x) <> None) /\
      forall q, queue_of (Origin.kind x) = Some q -> queue_notifies s' q (Origin.m_trigger x')
  | None => L = None
  end.

Lemma link_insert s s' o x v L : origins s !! o = Some (Some x) -> origins s' = <[o := v]> (origins s) ->
  entry_ok s s' x v L -> forall o', link s' o' = if decide (o' = o) then L else link s o'.
Proof.
  intros Ho Hs Hv o'. unfold link. rewrite Hs. case_decide as E.
  - subst. rewrite list_lookup_insert_eq by (by eapply lookup_lt_Some). destruct v; simpl in Hv; [tauto|done].
  - by rewrite list_lookup_insert_ne.
Qed.

Lemma relink_coherent (sl : option nat) (lk : nat -> option (Target * Z)) o L (p : Target * Z) o' :
  (forall o', sl = Some o' <-> lk o' = Some p) -> (L = Some p -> sl = None) ->
  (if decide (L = Some p) then Some o else if decide (lk o = Some p) then None else sl) = Some o' <->
  (if decide (o' = o) then L else lk o') = Some p.
Proof.
  intros Hc HL. destruct (decide (L = Some p)) as [E1|E1].
  - destruct (decide (o' = o)) as [->|Hne]; [done|]. rewrite <- Hc, HL by done. split; congruence.
  - destruct (decide (lk o = Some p)) as [E2|E2].
    + destruct (decide (o' = o)) as [->|Hne]; [done|]. apply Hc in E2. rewrite <- Hc. split; congruence.
    + rewrite Hc. destruct (decide (o' = o)) as [->|Hne]; [|done]. split; congruence.
Qed.

Lemma Inv_relink X s s' o x v L : Inv X s -> origins s !! o = Some (Some x) -> relinked X s s' o v L ->
  entry_ok s s' x v L -> (forall t i, L = Some (t, i) -> slot s t i = None) -> Inv X s'.
Proof.
  intros H Ho R Hv HL. pose proof (link_insert _ _ _ _ _ _ Ho (rl_origins _ _ _ _ _ _ R) Hv) as Hlink.
  assert (Hcase : forall o' x', origins s' !! o' = Some (Some x') ->
    (o' = o /\ v = Some x') \/ (o' <> o /\ origins s !! o' = Some (Some x'))).
  { intros o' x' E. rewrite (rl_origins _ _ _ _ _ _ R) in E.
    apply list_lookup_insert_Some in E as [(-> & E & _)|(? & ?)]; [left|right]; done. }
  assert (Hh : forall h, handle_ok s h -> handle_ok s' h).
  { intros h [->|(c & t & i & -> & E)]; [by left|right]. exists c, t, i. by rewrite (rl_condvar _ _ _ _ _ _ R). }
  split.
  - apply (rl_targets _ _ _ _ _ _ R).
  - intros o' x' E. apply Hh. destruct (Hcase _ _ E) as [[-> ->]|[_ E']]; [by apply Hv|]. by eapply inv_handles.
  - intros t i o'. rewrite (rl_slot _ _ _ _ _ _ R), Hlink. apply relink_coherent; [|by apply HL].
    intros o''. apply (inv_coherent _ _ H).
  - intros o' x' q E Hq. destruct (Hcase _ _ E) as [[-> ->]|[Hne E']]; [apply Hv; destruct Hv; congruence|].
    destruct (inv_queues _ _ H _ _ _ E' Hq) as (d & Hd & Hcd). exists d. split; [|done].
    rewrite (rl_queues _ _ _ _ _ _ R); [done|]. intros x0 E0 Hq0. apply Hne. by eapply (inv_distinct _ _ H).
  - intros w i o' x' Hst E. destruct (Hcase _ _ E) as [[-> ->]|[Hne E']].
    + destruct Hv as (-> & _ & _ & Hst' & _).
      destruct (rl_states _ _ _ _ _ _ R _ _ _ Hst) as [Hst0|[HL' _]]; [by eapply (inv_states _ _ H)|].
      apply (Hst' w i HL'). by rewrite Hst.
    + destruct (rl_states _ _ _ _ _ _ R _ _ _ Hst) as [Hst0|[_ ->]]; [by eapply (inv_states _ _ H)|done].
  - intros o1 o2 x1 x2 q E1 E2 Hq1 Hq2. pose proof (inv_distinct _ _ H) as Hd.
    destruct (Hcase _ _ E1) as [[-> ->]|[N1 E1']], (Hcase _ _ E2) as [[-> E]|[N2 E2']]; try done.
    + destruct Hv as (Hk & _). rewrite Hk in Hq1. by eapply Hd.
    + subst v. destruct Hv as (Hk & _). rewrite Hk in Hq2. by eapply Hd.
    + by eapply Hd.
  - intros t t' c. rewrite !(rl_condvar _ _ _ _ _ _ R). apply (inv_condvars _ _ H).
  - intros t c. rewrite (rl_condvar _ _ _ _ _ _ R), (rl_notifiers _ _ _ _ _ _ R), (rl_capacity _ _ _ _ _ _ R).
    apply (inv_notifiers _ _ H).
  - intros t c. rewrite (rl_condvar _ _ _ _ _ _ R), (rl_marks _ _ _ _ _ _ R). apply (inv_marks _ _ H).
Qed.

(** *** The single steps *)

Lemma get_eq {A} i (l : list (option A)) a : l !! i = Some (Some a) -> get i l = Done a.
Proof. unfold get. by intros ->. Qed.

Lemma lookup_replaced {A} i (l : list A) a v : l !! i = Some a -> <[i := v]> l !! i = Some v.
Proof. intros H. apply list_lookup_insert_eq. by eapply lookup_lt_Some. Qed.

(** The queue of an origin after [setConditionVariable] or
    [unsetConditionVariable] according to handle [h]. *)
Definition recondition (k : Kind) (h : TriggerHandle.t) (w : World) : World :=
  match queue_of k with
  | None => w
  | Some q => match queues w !! q with
              | Some d => set_queue_data q (ChunkQueueData.set_condition (fst (handle_condition h))
                                              (snd (handle_condition h)) d) w
              | None => w
              end
  end.

Definition queue_exists (k : Kind) (w : World) : Prop :=
  forall q, queue_of k = Some q -> is_Some (queues w !! q).

Lemma recondition_condvars k h w : condvars (recondition k h w) = condvars w.
Proof. unfold recondition. destruct (queue_of k); [|done]. by destruct (_ !! _). Qed.

Lemma recondition_others k h w q : queue_of k <> Some q -> queues (recondition k h w) !! q = queues w !! q.
Proof.
  unfold recondition. destruct (queue_of k) as [q'|]; [|done]. intros Hne. destruct (queues w !! q'); [|done].
  simpl. rewrite list_lookup_insert_ne; [done|congruence].
Qed.

Lemma recondition_own k h s w q : queue_exists k w -> queue_of k = Some q ->
  queue_notifies (set_world (recondition k h w) s) q h.
Proof.
  intros Hex Hq. destruct (Hex q Hq) as [d Hd]. unfold recondition, queue_notifies. rewrite Hq, Hd. simpl.
  eexists. split; [by eapply lookup_replaced|]. unfold condition_of. simpl. by destruct (handle_condition h).
Qed.

Lemma recondition_exists k h w k' : queue_exists k' w -> queue_exists k' (recondition k h w).
Proof.
  intros Hex q Hq. destruct (decide (queue_of k = Some q)) as [E|E]; [|by rewrite recondition_others; auto].
  destruct (Hex q Hq) as [d Hd]. unfold recondition. rewrite E, Hd. simpl. erewrite lookup_replaced by done. eauto.
Qed.

Lemma unset_condition_eq k s : queue_exists k (world s) ->
  unset_condition k s = Done (set_world (recondition k TriggerHandle.invalid (world s)) s).
Proof.
  intros Hex. unfold unset_condition, recondition. destruct (queue_of k) as [q|] eqn:Hq; [|by destruct s].
  destruct (Hex q Hq) as [d Hd]. unfold ChunkQueuePopper.unsetConditionVariable, get_queue. by rewrite Hd.
Qed.

Definition invalidated (x : Origin.t) : Origin.t := Origin.mk (Origin.kind x) TriggerHandle.invalid.

Lemma invalidateTrigger_eq s o x i : origins s !! o = Some (Some x) ->
  TriggerHandle.m_uniqueTriggerId (Origin.m_trigger x) = i -> queue_exists (Origin.kind x) (world s) ->
  invalidateTrigger o i s =
  Done (put_origin o (Some (invalidated x))
          (set_world (recondition (Origin.kind x) TriggerHandle.invalid (world s)) s)).
Proof.
  intros Ho Hi Hex. unfold invalidateTrigger. rewrite (get_eq _ _ _ Ho). cbn [obind]. rewrite Hi, Z.eqb_refl.
  rewrite unset_condition_eq by done. cbn [obind]. unfold set_handle. simpl. by rewrite (get_eq _ _ _ Ho).
Qed.

Lemma set_handle_eq s o x h : origins s !! o = Some (Some x) ->
  set_handle o h s = Done (put_origin o (Some (Origin.mk (Origin.kind x) h)) s).
Proof. intros Ho. unfold set_handle. by rewrite (get_eq _ _ _ Ho). Qed.

(** A wait set or listener is replaced by one that differs in slot [i]. *)
Record slot_set (X : option Target) (s s' : System.t) (t : Target) (i : Z) (v : option nat) : Prop := {
  ss_targets : targets_ok X s';
  ss_slot : forall t' i', slot s' t' i' = if decide ((t', i') = (t, i)) then v else slot s t' i';
  ss_states : forall w' i' o, state_slot s' w' i' = Some o ->
      state_slot s w' i' = Some o \/ (v = Some o /\ (t, i) = (ToWaitSet w', i'));
  ss_condvar : forall t', condvar_of s' t' = condvar_of s t';
  ss_capacity : forall t', capacity_of s' t' = capacity_of s t' }.

Lemma slot_set_waitSet X s w x x' i v : targets_ok X s -> waitSets s !! w = Some (Some x) ->
  slots_ok x' -> (X <> Some (ToWaitSet w) -> free_ok x') ->
  WaitSet.m_conditionVariableDataPtr x' = WaitSet.m_conditionVariableDataPtr x ->
  WaitSet.capacity x' = WaitSet.capacity x ->
  (forall j, waitset_slot x' j = if decide (j = i) then v else waitset_slot x j) ->
  (forall j o, waitset_state x' j = Some o -> waitset_state x j = Some o \/ (v = Some o /\ j = i)) ->
  slot_set X s (put_waitSet w (Some x') s) (ToWaitSet w) i v.
Proof.
  intros [Hw Hl] Hx Hs Hf Hc Hcap Hsl Hst. split.
  - split; [|done]. intros w' y Hy. simpl in Hy.
    apply list_lookup_insert_Some in Hy as [(<- & [= <-] & _)|(_ & Hy)]; eauto.
  - intros [w'|l] i'; cbn [slot put_waitSet waitSets listeners]; [|by rewrite decide_False by congruence].
    destruct (decide (w' = w)) as [->|Hne].
    + rewrite (lookup_replaced _ _ _ _ Hx), Hx, Hsl. by repeat case_decide; simplify_eq.
    + rewrite list_lookup_insert_ne by done. by rewrite decide_False by congruence.
  - intros w' i' o. unfold state_slot. cbn [put_waitSet waitSets]. destruct (decide (w' = w)) as [->|Hne].
    + rewrite (lookup_replaced _ _ _ _ Hx), Hx. intros E. destruct (Hst _ _ E) as [|[? ->]]; auto.
    + rewrite list_lookup_insert_ne by done. auto.
  - intros [w'|l]; simpl; [|done]. destruct (decide (w' = w)) as [->|Hne].
    + rewrite (lookup_replaced _ _ _ _ Hx), Hx. congruence.
    + by rewrite list_lookup_insert_ne by done.
  - intros [w'|l]; simpl; [|done]. destruct (decide (w' = w)) as [->|Hne].
    + by rewrite (lookup_replaced _ _ _ _ Hx), Hx.
    + by rewrite list_lookup_insert_ne by done.
Qed.

Lemma slot_set_listener X s l x x' i v : targets_ok X s -> listeners s !! l = Some (Some x) ->
  events_ok x' -> (X <> Some (ToListener l) -> indices_ok x') ->
  Listener.m_conditionVariableData x' = Listener.m_conditionVariableData x ->
  Listener.capacity x' = Listener.capacity x ->
  (forall j, listener_slot x' j = if decide (j = i) then v else listener_slot x j) ->
  slot_set X s (put_listener l (Some x') s) (ToListener l) i v.
Proof.
  intros [Hw Hl] Hx Hs Hf Hc Hcap Hsl. split.
  - split; [done|]. intros l' y Hy. simpl in Hy.
    apply list_lookup_insert_Some in Hy as [(<- & [= <-] & _)|(_ & Hy)]; eauto.
  - intros [w|l'] i'; cbn [slot put_listener waitSets listeners]; [by rewrite decide_False by congruence|].
    destruct (decide (l' = l)) as [->|Hne].
    + rewrite (lookup_replaced _ _ _ _ Hx), Hx, Hsl. by repeat case_decide; simplify_eq.
    + rewrite list_lookup_insert_ne by done. by rewrite decide_False by congruence.
  - by left.
  - intros [w|l']; simpl; [done|]. destruct (decide (l' = l)) as [->|Hne].
    + rewrite (lookup_replaced _ _ _ _ Hx), Hx. congruence.
    + by rewrite list_lookup_insert_ne by done.
  - intros [w|l']; simpl; [done|]. destruct (decide (l' = l)) as [->|Hne].
    + by rewrite (lookup_replaced _ _ _ _ Hx), Hx.
    + by rewrite list_lookup_insert_ne by done.
Qed.

(** *** [TriggerHandle::reset] *)

Lemma relinked_slot_set X s s' s'' o x t i : origins s !! o = Some (Some x) -> link s o = Some (t, i) ->
  slot_set X s s' t i None ->
  origins s'' = <[o := Some (invalidated x)]> (origins s) ->
  waitSets s'' = waitSets s' -> listeners s'' = listeners s' ->
  condvars_toBeDestroyed s'' = condvars_toBeDestroyed s ->
  world s'' = world s \/ world s'' = recondition (Origin.kind x) TriggerHandle.invalid (world s) ->
  relinked X s s'' o (Some (invalidated x)) None.
Proof.
  intros Ho Hlk [Ht Hsl Hst Hcv Hcap] Hor Hws Hls Hm Hw.
  assert (Hslot : forall t i, slot s'' t i = slot s' t i) by (intros [] ?; simpl; by rewrite ?Hws, ?Hls).
  assert (Hcvs : forall t, condvar_of s'' t = condvar_of s' t) by (intros []; simpl; by rewrite ?Hws, ?Hls).
  assert (Hcaps : forall t, capacity_of s'' t = capacity_of s' t) by (intros []; simpl; by rewrite ?Hws, ?Hls).
  split; try done.
  - unfold targets_ok. by rewrite Hws, Hls.
  - intros t' i'. rewrite Hslot, Hsl, Hlk, (decide_False (P := None = Some _)) by done.
    destruct (decide ((t', i') = (t, i))), (decide (Some (t, i) = Some (t', i'))); congruence.
  - intros w i' o'. unfold state_slot. rewrite Hws. intros E. destruct (Hst _ _ _ E) as [|[? _]]; [by left|done].
  - intros t'. by rewrite Hcvs.
  - intros t'. by rewrite Hcaps.
  - destruct Hw as [-> | ->]; [done|]. apply recondition_condvars.
  - intros q Hq. destruct Hw as [-> | ->]; [done|]. apply recondition_others. eauto.
Qed.

Lemma removeTrigger_waitSet s w i o : targets_ok None s -> slot s (ToWaitSet w) i = Some o ->
  exists s', removeTrigger (ToWaitSet w) i s = Done s' /\ slot_set None s s' (ToWaitSet w) i None /\
    origins s' = origins s /\ world s' = world s /\ condvars_toBeDestroyed s' = condvars_toBeDestroyed s.
Proof.
  intros Hok Hs. simpl in Hs. destruct (waitSets s !! w) as [[x|]|] eqn:Hw; try done.
  destruct (proj1 Hok _ _ Hw) as [Hso Hfo].
  destruct (waitset_removeTrigger_ok x i o Hso (Hfo ltac:(done)) Hs) as (x' & E & Hso' & Hfo' & Hc & Hcap & Hsl & Hst).
  unfold removeTrigger. rewrite (get_eq _ _ _ Hw). cbn [obind]. rewrite E. cbn [obind].
  eexists. split; [done|]. split_and!; [|done..]. apply (slot_set_waitSet None s w x); try done.
  intros j o'. rewrite Hst. case_decide; auto.
Qed.

(** [Event_t::reset] of the event that origin [o] is attached to. *)
Lemma event_reset_eq s l x n o y e : listeners s !! l = Some (Some x) -> Listener.m_events x !! n = Some e ->
  Event_t.isInitialized e = true -> Event_t.m_eventId e = Z.of_nat n -> Event_t.m_invalidationCallback e = Some o ->
  origins s !! o = Some (Some y) -> TriggerHandle.m_uniqueTriggerId (Origin.m_trigger y) = Z.of_nat n ->
  queue_exists (Origin.kind y) (world s) ->
  event_reset l n s =
  Done (true, put_listener l (Some (Listener.set_events (Listener.m_indexManager x)
                                      (<[n := Event_t.cleared e]> (Listener.m_events x)) x))
                (put_origin o (Some (invalidated y))
                   (set_world (recondition (Origin.kind y) TriggerHandle.invalid (world s)) s))).
Proof.
  intros Hl He Hi Hid Hinv Ho Hoid Hex. unfold event_reset. rewrite (get_eq _ _ _ Hl). cbn [obind].
  rewrite He, Hi, Hinv, Hid, (invalidateTrigger_eq _ _ _ _ Ho Hoid Hex). cbn [obind].
  rewrite (get_eq l _ x) by done. done.
Qed.

Lemma listener_removeTrigger_eq s l x n o y e : events_ok x -> indices_ok x ->
  listeners s !! l = Some (Some x) -> Listener.m_events x !! n = Some e ->
  Event_t.isInitialized e = true -> Event_t.m_eventId e = Z.of_nat n -> Event_t.m_invalidationCallback e = Some o ->
  origins s !! o = Some (Some y) -> TriggerHandle.m_uniqueTriggerId (Origin.m_trigger y) = Z.of_nat n ->
  queue_exists (Origin.kind y) (world s) ->
  exists m x', x' = Listener.set_events m (<[n := Event_t.cleared e]> (Listener.m_events x)) x /\ indices_ok x' /\
  listener_removeTrigger l (Z.of_nat n) s =
  Done (System.mk (recondition (Origin.kind y) TriggerHandle.invalid (world s)) (waitSets s)
          (<[l := Some x']> (listeners s)) (<[o := Some (invalidated y)]> (origins s))
          (condvars_toBeDestroyed s) (ports_toBeDestroyed s)).
Proof.
  intros Hev Hix Hl He Hi Hid Hinv Ho Hoid Hex.
  destruct (indices_clear x n e Hix Hev He Hi) as (m & Hm & Hix'). eexists m, _. split; [done|]. split; [done|].
  unfold listener_removeTrigger. rewrite (get_eq _ _ _ Hl). cbn [obind].
  pose proof (lookup_lt_Some _ _ _ He) as Hlt. unfold Listener.capacity.
  rewrite (proj2 (Z.leb_gt _ _)) by lia. rewrite Nat2Z.id.
  rewrite (event_reset_eq s l x n o y e) by done. cbn [obind].
  erewrite get_eq by (simpl; eapply lookup_replaced, Hl). cbn [obind].
  change (Listener.m_indexManager (Listener.set_events ?a ?b ?c)) with a. rewrite Hm. cbn [obind]. f_equal.
  unfold put_listener. simpl. by rewrite list_insert_insert_eq.
Qed.

Lemma removeTrigger_listener s l i o y : targets_ok None s -> slot s (ToListener l) i = Some o ->
  origins s !! o = Some (Some y) -> TriggerHandle.m_uniqueTriggerId (Origin.m_trigger y) = i ->
  queue_exists (Origin.kind y) (world s) ->
  exists s' s'', removeTrigger (ToListener l) i s = Done s'' /\ slot_set None s s' (ToListener l) i None /\
    origins s'' = <[o := Some (invalidated y)]> (origins s) /\ waitSets s'' = waitSets s' /\
    listeners s'' = listeners s' /\ condvars_toBeDestroyed s'' = condvars_toBeDestroyed s /\
    world s'' = recondition (Origin.kind y) TriggerHandle.invalid (world s).
Proof.
  intros Hok Hs Ho Hid Hex. simpl in Hs. destruct (listeners s !! l) as [[x|]|] eqn:Hl; try done.
  destruct (proj2 Hok _ _ Hl) as [Hev Hix]. specialize (Hix ltac:(done)).
  destruct (listener_slot_lookup _ _ _ Hev Hs) as (n & e & -> & He & Hi & Heid & Hor & Hinv).
  destruct (listener_removeTrigger_eq s l x n o y e) as (m & x' & Hx' & Hix' & E); try done.
  exists (put_listener l (Some x') s). eexists. split; [exact E|]. split; [|done].
  pose proof (lookup_lt_Some _ _ _ He) as Hlt. subst x'.
  apply (slot_set_listener None s l x); [done|done| |done|done|apply length_insert|].
  - by apply events_ok_insert.
  - intros j. by rewrite listener_slot_insert, cleared_uninitialized by done.
Qed.

Lemma handle_reset_ok s o x : targets_ok None s -> origins s !! o = Some (Some x) ->
  handle_ok s (Origin.m_trigger x) -> queue_exists (Origin.kind x) (world s) ->
  (forall t i, link s o = Some (t, i) -> slot s t i = Some o) ->
  exists s', handle_reset o s = Done s' /\ relinked None s s' o (Some (invalidated x)) None /\
    (world s' = world s \/ world s' = recondition (Origin.kind x) TriggerHandle.invalid (world s)).
Proof.
  intros Hok Ho Hh Hex Hco. unfold handle_reset. rewrite (get_eq _ _ _ Ho). cbn [obind].
  assert (Hlk : link s o = handle_link (Origin.m_trigger x)) by (unfold link; by rewrite Ho).
  destruct Hh as [Hinv|(c & t & i & Hh & Hc)].
  - rewrite Hinv. simpl. exists s. split; [done|]. split; [|by left]. rewrite Hinv in Hlk.
    split; try done; [|intros t i; by rewrite Hlk|by left].
    rewrite list_insert_id; [done|]. rewrite Ho. destruct x; simpl in *. by subst.
  - rewrite Hh in *. simpl in Hlk. specialize (Hco _ _ Hlk).
    change (TriggerHandle.isValid (TriggerHandle.ctor c t i)) with true.
    cbn [TriggerHandle.ctor TriggerHandle.m_resetCallback TriggerHandle.m_uniqueTriggerId]. destruct t as [w|l].
    + destruct (removeTrigger_waitSet s w i o Hok Hco) as (s' & E & Hss & Hor & Hw & Hm).
      rewrite E. cbn [obind].
      rewrite (set_handle_eq _ _ x) by (by rewrite Hor). eexists. split; [done|]. simpl.
      split; [|by left]. apply (relinked_slot_set None s s' _ o x (ToWaitSet w) i); simpl; rewrite ?Hor; auto.
    + destruct (removeTrigger_listener s l i o x Hok Hco Ho) as (s' & s'' & E & Hss & Hor & Hws & Hls & Hm & Hw);
        [by rewrite Hh|done|]. rewrite E. cbn [obind].
      rewrite (set_handle_eq _ _ (invalidated x)) by (rewrite Hor; by eapply lookup_replaced).
      eexists. split; [done|]. simpl. split; [|by right].
      apply (relinked_slot_set None s s' _ o x (ToListener l) i); simpl; rewrite ?Hor, ?list_insert_insert_eq; auto.
Qed.

(** *** Attaching and detaching preserve the invariant *)

Lemma inv_queue_exists X s o x : Inv X s -> origins s !! o = Some (Some x) -> queue_exists (Origin.kind x) (world s).
Proof. intros H Ho q Hq. destruct (inv_queues _ _ H _ _ _ Ho Hq) as (d & Hd & _). eauto. Qed.

Lemma inv_link_slot X s o t i : Inv X s -> link s o = Some (t, i) -> slot s t i = Some o.
Proof. intros H. apply (inv_coherent _ _ H). Qed.

Lemma relinked_world X s s' o x v L w : origins s !! o = Some (Some x) -> relinked X s s' o v L ->
  condvars w = condvars (world s') ->
  (forall q, queue_of (Origin.kind x) <> Some q -> queues w !! q = queues (world s') !! q) ->
  relinked X s (set_world w s') o v L.
Proof.
  intros Ho R Hc Hq. destruct R as [Ht Hor Hsl Hst Hcv Hcap Hn Hm Hqs]. split; try done; [by rewrite <- Hn|].
  intros q Hne. simpl. rewrite Hq by (by apply Hne). by apply Hqs.
Qed.

Lemma queue_exists_insert k w w' : queue_exists k w ->
  w' = w \/ (exists k' h, w' = recondition k' h w) -> queue_exists k w'.
Proof. intros H [->|(k' & h & ->)]; [done|]. by apply recondition_exists. Qed.

Lemma disable_ok s o x : Inv None s -> origins s !! o = Some (Some x) ->
  exists s', disable o s = Done s' /\ Inv None s' /\ relinked None s s' o (Some (invalidated x)) None.
Proof.
  intros H Ho. pose proof (inv_queue_exists _ _ _ _ H Ho) as Hex.
  destruct (handle_reset_ok s o x) as (s1 & E & R & Hw); eauto using inv_targets, inv_handles, inv_link_slot.
  unfold disable. rewrite E. cbn [obind].
  rewrite (get_eq o _ (invalidated x)) by (rewrite (rl_origins _ _ _ _ _ _ R); by eapply lookup_replaced). cbn [obind].
  assert (Hex1 : queue_exists (Origin.kind x) (world s1)) by (eapply queue_exists_insert; naive_solver).
  rewrite unset_condition_eq by done. simpl. eexists. split; [done|].
  assert (R' : relinked None s (set_world (recondition (Origin.kind x) TriggerHandle.invalid (world s1)) s1)
                 o (Some (invalidated x)) None).
  { eapply relinked_world; [done|done|apply recondition_condvars|]. intros q. apply recondition_others. }
  split; [|done]. eapply (Inv_relink None s); [done|done|done| |done].
  split_and!; [done|by left|done|done|]. intros q Hq. by apply recondition_own.
Qed.

Lemma origin_dtor_ok s o x : Inv None s -> origins s !! o = Some (Some x) ->
  exists s', origin_dtor o s = Done s' /\ Inv None s' /\ relinked None s s' o None None.
Proof.
  intros H Ho. pose proof (inv_queue_exists _ _ _ _ H Ho) as Hex.
  destruct (handle_reset_ok s o x) as (s1 & E & R & Hw); eauto using inv_targets, inv_handles, inv_link_slot.
  unfold origin_dtor. rewrite E. cbn [obind].
  rewrite (get_eq o _ (invalidated x)) by (rewrite (rl_origins _ _ _ _ _ _ R); by eapply lookup_replaced). cbn [obind].
  eexists. split; [done|]. match goal with |- Inv None ?s' /\ _ => set (s2 := s') end.
  assert (R' : relinked None s s2 o None None).
  { destruct R as [Ht Hor Hsl Hst Hcv Hcap Hn Hm Hqs]. subst s2. destruct (queue_of (Origin.kind (invalidated x)));
      (split; try done; simpl; by rewrite Hor, list_insert_insert_eq). }
  split; [|done]. by eapply (Inv_relink None s).
Qed.

(** The state in which [enableEvent] and [enableState] are called: slot [i] of
    [t] was taken for [o], and the handle of [o] is still the old one. *)
Record reserved (s s1 : System.t) (o : nat) (t : Target) (i : Z) (c : nat) : Prop := {
  rs_slot : slot_set None s s1 t i (Some o);
  rs_state : forall w x, t = ToWaitSet w -> state_slot s1 w i <> None -> origins s !! o = Some (Some x) ->
      queue_of (Origin.kind x) <> None;
  rs_free : slot s t i = None;
  rs_condvar : condvar_of s t = Some c;
  rs_origins : origins s1 = origins s;
  rs_queues : queues (world s1) = queues (world s);
  rs_condvars : condvars (world s1) = condvars (world s);
  rs_marks : condvars_toBeDestroyed s1 = condvars_toBeDestroyed s }.

Lemma reserved_report s s1 o t i c e : reserved s s1 o t i c -> reserved s (report e s1) o t i c.
Proof. by intros [[Ht Hsl Hst Hcv Hcap] Hs Hf Hc Ho Hq Hcs Hm]. Qed.

Lemma reserved_reset s s1 o x t i c : Inv None s -> origins s !! o = Some (Some x) -> reserved s s1 o t i c ->
  exists s2, handle_assign o (TriggerHandle.ctor c t i) s1 = Done s2 /\
    relinked None s s2 o (Some (Origin.mk (Origin.kind x) (TriggerHandle.ctor c t i))) (Some (t, i)) /\
    (forall w, t = ToWaitSet w -> state_slot s2 w i <> None -> queue_of (Origin.kind x) <> None) /\
    queue_exists (Origin.kind x) (world s2).
Proof.
  intros H Ho [[Ht Hsl Hst Hcv Hcap] Hstate Hf Hc Hor Hq Hcs Hm].
  assert (Hlk : link s1 o = link s o) by (unfold link; by rewrite Hor).
  assert (Hne : link s o <> Some (t, i)) by (rewrite <- (inv_coherent _ _ H), Hf; done).
  assert (Ho1 : origins s1 !! o = Some (Some x)) by (by rewrite Hor).
  destruct (handle_reset_ok s1 o x) as (s2 & E & R & Hw); [done|done| | | |].
  { destruct (inv_handles _ _ H _ _ Ho) as [|(c' & t' & i' & E & E')]; [by left|right].
    exists c', t', i'. by rewrite Hcv. }
  { intros q Hqk. rewrite Hq. by eapply inv_queue_exists. }
  { intros t' i' E. rewrite Hlk in E. rewrite Hsl, decide_False by congruence. by eapply inv_link_slot. }
  unfold handle_assign. rewrite E. cbn [obind].
  rewrite (set_handle_eq _ _ (invalidated x)) by (rewrite (rl_origins _ _ _ _ _ _ R); by eapply lookup_replaced).
  eexists. split; [done|]. split; [|split].
  2:{ intros w Hw' Hs2. apply (Hstate w x Hw'); [|done]. change (state_slot s2 w i <> None) in Hs2.
      destruct (state_slot s2 w i) as [o'|] eqn:E2; [|done].
      destruct (rl_states _ _ _ _ _ _ R _ _ _ E2) as [->|[? _]]; done. }
  2:{ simpl. eapply queue_exists_insert; [|destruct Hw; eauto]. intros q Hqk. rewrite Hq. by eapply inv_queue_exists. }
  destruct R as [Ht2 Hor2 Hsl2 Hst2 Hcv2 Hcap2 Hn2 Hm2 Hqs2]. split; simpl.
  - done.
  - by rewrite Hor2, list_insert_insert_eq, Hor.
  - intros t' i'. change (slot (put_origin ?a ?b s2) t' i') with (slot s2 t' i').
    rewrite Hsl2, Hlk, Hsl, (decide_False (P := None = Some _)) by done.
    destruct (decide (link s o = Some (t', i'))), (decide (Some (t, i) = Some (t', i'))),
      (decide ((t', i') = (t, i))); congruence.
  - intros w j o' E'. destruct (Hst2 _ _ _ E') as [E1|[? _]]; [|done].
    destruct (Hst _ _ _ E1) as [|[[= ->] [= -> ->]]]; auto.
  - intros t'. by rewrite <- Hcv, <- Hcv2.
  - intros t'. by rewrite <- Hcap, <- Hcap2.
  - congruence.
  - congruence.
  - intros q Hqk. rewrite Hqs2, Hq; [done|]. intros y Hy. rewrite Hor in Hy. by apply Hqk.
Qed.

Lemma setCondition_eq k c t i s : queue_exists k (world s) ->
  match queue_of k with
  | None => Done s
  | Some q =>
      let* w := ChunkQueuePopper.setConditionVariable q c i (world s) in Done (set_world w s)
  end = Done (set_world (recondition k (TriggerHandle.ctor c t i) (world s)) s).
Proof.
  intros Hex. unfold recondition. destruct (queue_of k) as [q|] eqn:Hq; [|by destruct s].
  destruct (Hex q Hq) as [d Hd]. unfold ChunkQueuePopper.setConditionVariable, get_queue. by rewrite Hd.
Qed.

Lemma enable_ok b s s1 o x t i c : Inv None s -> origins s !! o = Some (Some x) -> reserved s s1 o t i c ->
  exists s', enable b o (TriggerHandle.ctor c t i) s1 = Done s' /\ Inv None s' /\
    relinked None s s' o (Some (Origin.mk (Origin.kind x) (TriggerHandle.ctor c t i))) (Some (t, i)).
Proof.
  intros H Ho Hr. unfold enable. rewrite (get_eq o _ x) by (by rewrite (rs_origins _ _ _ _ _ _ Hr)). cbn [obind].
  match goal with |- context [handle_assign o _ ?s'] => set (s1' := s') end.
  assert (Hr' : reserved s s1' o t i c).
  { subst s1'. destruct (already_attached b (Origin.kind x)); [|done].
    destruct (TriggerHandle.isValid _); [|done]. by apply reserved_report. }
  destruct (reserved_reset s s1' o x t i c H Ho Hr') as (s2 & E & R & Hst & Hex). rewrite E. cbn [obind].
  pose proof (setCondition_eq (Origin.kind x) c t i s2 Hex) as Es. revert Es.
  assert (Hg : get o (origins s2) = Done (Origin.mk (Origin.kind x) (TriggerHandle.ctor c t i))).
  { apply get_eq. rewrite (rl_origins _ _ _ _ _ _ R). by eapply lookup_replaced. }
  destruct (queue_of (Origin.kind x)) as [q|] eqn:Hq; intros Es.
  - rewrite Hg. eexists. split; [exact Es|].
    assert (R' : relinked None s (set_world (recondition (Origin.kind x) (TriggerHandle.ctor c t i) (world s2)) s2) o
       (Some (Origin.mk (Origin.kind x) (TriggerHandle.ctor c t i))) (Some (t, i))).
    { eapply relinked_world; [done|done|apply recondition_condvars|]. intros q'. apply recondition_others. }
    split; [|done]. eapply (Inv_relink None s); [done|done|done| |].
    + split_and!; [done| |done| |]; [right; exists c, t, i; split; [done|apply Hr]| |].
      * intros w j _ _. by rewrite Hq.
      * intros q' Hq'. by apply recondition_own.
    + intros t' i' [= <- <-]. apply Hr.
  - eexists. split; [reflexivity|]. split; [|exact R]. eapply (Inv_relink None s); [done|done|exact R| |].
    + split_and!; [done| |done| |]; [right; exists c, t, i; split; [done|apply Hr]| |].
      * intros w j [= -> ->] Hs. by apply (Hst w eq_refl) in Hs.
      * intros q' Hq'. congruence.
    + intros t' i' [= <- <-]. apply Hr.
Qed.

Lemma put_waitSet_same w x s : waitSets s !! w = Some (Some x) -> put_waitSet w (Some x) s = s.
Proof. intros H. destruct s. unfold put_waitSet. simpl in *. by rewrite list_insert_id. Qed.

Lemma put_listener_same l x s : listeners s !! l = Some (Some x) -> put_listener l (Some x) s = s.
Proof. intros H. destruct s. unfold put_listener. simpl in *. by rewrite list_insert_id. Qed.

(** The outcomes of the attach methods of a wait set. *)
Definition waitset_attach_outcome (s : System.t) (w : nat) (xw : WaitSet.t) (o : nat) (hash : Z)
    (r : expected unit WaitSet.WaitSetError) (s' : System.t) : Prop :=
  match r with
  | error WaitSet.ALREADY_ATTACHED => s' = s /\ attached_as xw o 0 hash
  | error WaitSet.WAIT_SET_FULL => s' = s /\ ~ attached_as xw o 0 hash /\
      WaitSet.size xw = Z.of_nat (WaitSet.capacity xw)
  | success _ => ~ attached_as xw o 0 hash /\ exists i, 0 <= i < Z.of_nat (WaitSet.capacity xw) /\
      slot s (ToWaitSet w) i = None /\ slot s' (ToWaitSet w) i = Some o /\ link s' o = Some (ToWaitSet w, i) /\
      forall o', o' <> o -> link s' o' = link s o'
  end.

Lemma relinked_link s s' o x v L : origins s !! o = Some (Some x) -> relinked None s s' o (Some v) L ->
  handle_link (Origin.m_trigger v) = L -> link s' o = L /\ forall o', o' <> o -> link s' o' = link s o'.
Proof.
  intros Ho R Hv. unfold link. rewrite (rl_origins _ _ _ _ _ _ R). split; [by erewrite lookup_replaced by done|].
  intros o' Hne. by rewrite list_lookup_insert_ne.
Qed.

Lemma waitset_attach_ok hash_code s w xw o x b cb eid ecb e : Inv None s ->
  waitSets s !! w = Some (Some xw) -> origins s !! o = Some (Some x) -> cb = None \/ (cb = Some o /\ queue_of (Origin.kind x) <> None) ->
  exists r s', waitset_attach hash_code w o b cb eid ecb e s = Done (r, s') /\ Inv None s' /\
    waitset_attach_outcome s w xw o (hash_code e) r s'.
Proof.
  intros H Hw Ho Hcb. unfold waitset_attach. rewrite (get_eq _ _ _ Hw). cbn [obind].
  destruct (proj1 (inv_targets _ _ H) _ _ Hw) as [Hso Hfo].
  destruct (attachImpl_ok xw o cb eid ecb 0 (hash_code e) Hso (Hfo ltac:(done))) as (r & x' & E & Hr); [tauto|].
  rewrite E. cbn [obind]. destruct r as [i|[]]; unfold attach_outcome in Hr.
  - destruct Hr as (Hno & Hso' & Hfo' & Hc & Hcap & Hi & Hf & Hsl & Hst).
    assert (Hres : reserved s (put_waitSet w (Some x') s) o (ToWaitSet w) i (WaitSet.m_conditionVariableDataPtr x')).
    { split; try done; [| |simpl; by rewrite Hw|simpl; rewrite Hw; congruence].
      - apply (slot_set_waitSet None s w xw); try done; [apply H|].
        intros j o'. rewrite Hst. destruct (decide (j = i)); [destruct Hcb as [->|[-> _]]|]; [done|..]; auto.
      - intros w' y [= <-] Hs Hy. unfold state_slot in Hs. simpl in Hs. rewrite (lookup_replaced _ _ _ _ Hw), Hst, decide_True in Hs by done.
        destruct Hcb as [->|[_ Hk]]; [done|]. congruence. }
    destruct (enable_ok b _ _ _ _ _ _ _ H Ho Hres) as (s' & E' & H' & R). rewrite E'. cbn [obind].
    eexists _, _. split; [done|]. split; [done|]. split; [done|]. exists i.
    destruct (relinked_link _ _ _ _ _ _ Ho R eq_refl) as [Hl1 Hl2].
    split_and!; [lia|lia|simpl; by rewrite Hw| |done|done].
    by apply (inv_coherent _ _ H').
  - destruct Hr as (-> & Hr). rewrite put_waitSet_same by done. eexists _, _. done.
  - destruct Hr as (-> & Hr). rewrite put_waitSet_same by done. eexists _, _. done.
Qed.

Definition listener_attach_outcome (s : System.t) (l : nat) (xl : Listener.t) (o : nat) (hash : Z)
    (callback : option nat) (r : expected unit Listener.ListenerError) (s' : System.t) : Prop :=
  match r with
  | error Listener.EMPTY_EVENT_CALLBACK => s' = s /\ callback = None
  | error Listener.EVENT_ALREADY_ATTACHED => s' = s /\ callback <> None /\ listens_as xl o 0 hash
  | error Listener.LISTENER_FULL => s' = s /\ callback <> None /\ ~ listens_as xl o 0 hash /\
      Listener.size xl = Z.of_nat (Listener.capacity xl)
  | error Listener.EMPTY_INVALIDATION_CALLBACK => False
  | success _ => callback <> None /\ ~ listens_as xl o 0 hash /\
      exists i, 0 <= i < Z.of_nat (Listener.capacity xl) /\
      slot s (ToListener l) i = None /\ slot s' (ToListener l) i = Some o /\ link s' o = Some (ToListener l, i) /\
      forall o', o' <> o -> link s' o' = link s o'
  end.

Lemma listener_attachEvent_ok hash_code s l xl o x ecb : Inv None s ->
  listeners s !! l = Some (Some xl) -> origins s !! o = Some (Some x) ->
  (forall e, hash_code e <> Event_t.INVALID_ID) ->
  exists r s', listener_attachEvent hash_code l o ecb s = Done (r, s') /\ Inv None s' /\
    listener_attach_outcome s l xl o (hash_code (event_enum NoEnumUsed (Origin.kind x)))
      (NotificationCallback.m_callback ecb) r s'.
Proof.
  intros H Hl Ho Hh. unfold listener_attachEvent.
  destruct (NotificationCallback.m_callback ecb) as [cb|]; [|by eexists _, _].
  rewrite (get_eq _ _ _ Hl), (get_eq _ _ _ Ho). cbn [obind].
  destruct (proj2 (inv_targets _ _ H) _ _ Hl) as [Hev Hix].
  destruct (addEvent_ok xl o (NotificationCallback.m_contextData ecb) 0
              (hash_code (event_enum NoEnumUsed (Origin.kind x))) cb (NotificationCallback.translation ecb)
              Hev (Hix ltac:(done))) as (r & x' & E & Hr); [done|apply Hh|].
  rewrite E. cbn [obind]. destruct r as [i|[]]; unfold add_outcome in Hr; try done.
  - destruct Hr as (Hno & Hev' & Hix' & Hc & Hcap & Hi & Hf & Hsl).
    assert (Hres : reserved s (put_listener l (Some x') s) o (ToListener l) i (Listener.m_conditionVariableData x')).
    { split; try done; [|simpl; by rewrite Hl|simpl; rewrite Hl; congruence].
      by apply (slot_set_listener None s l xl); [apply H| | | | | |]. }
    destruct (enable_ok false _ _ _ _ _ _ _ H Ho Hres) as (s' & E' & H' & R). rewrite E'. cbn [obind].
    eexists _, _. split; [done|]. split; [done|]. split_and!; [done|done|]. exists i.
    destruct (relinked_link _ _ _ _ _ _ Ho R eq_refl) as [Hl1 Hl2].
    split_and!; [lia|lia|simpl; by rewrite Hl| |done|done].
    by apply (inv_coherent _ _ H').
  - destruct Hr as (-> & Hr). rewrite put_listener_same by done. by eexists _, _.
  - destruct Hr as (-> & Hr). rewrite put_listener_same by done. by eexists _, _.
Qed.
