(* ===== verification/Lifetimes.v ===== *)
(** * Lifetimes of wait sets, listeners and origins

    The destructors keep the invariant of Attachments, in whatever order the
    objects are destroyed; every sequence of operations does.  Hence no operation
    uses a destroyed object, and RouDi is told to remove a condition variable only
    when no port of a living origin notifies it, except for one moment in the
    destructor of the listener. *)

From S2P Require Import Prelude Loffli ChunkHeader MemoryManager SharedChunk Queue VariantQueue.
From S2P Require Import ConditionVariable ChunkQueue Notifications Attachments.
Import System.

(** ** Weakening, environment, removal *)

Lemma Inv_weaken X s : Inv None s -> Inv X s.
Proof.
  intros H. destruct (inv_targets _ _ H) as [Hw Hl]. split; try apply H.
  - split; [intros w x Hx; destruct (Hw w x Hx)|intros l x Hx; destruct (Hl l x Hx)]; auto.
  - intros t c Hc _. by eapply (inv_marks _ _ H).
Qed.

(** Other activity in the shared memory: chunks are pushed and popped, condition
    variables are notified and waited for. *)
Definition same_conditions (w w' : World) : Prop :=
  (forall q d, queues w !! q = Some d -> exists d', queues w' !! q = Some d' /\ condition_of d' = condition_of d) /\
  (forall c cv, condvars w !! c = Some cv -> exists cv', condvars w' !! c = Some cv' /\
     ConditionVariable.MAX_NUMBER_OF_NOTIFIERS cv' = ConditionVariable.MAX_NUMBER_OF_NOTIFIERS cv).

Lemma Inv_world X s w : Inv X s -> same_conditions (world s) w -> Inv X (set_world w s).
Proof.
  intros H [Hq Hc]. split; try apply H.
  - intros o x q Ho Hk. destruct (inv_queues _ _ H _ _ _ Ho Hk) as (d & Hd & Hcd).
    destruct (Hq _ _ Hd) as (d' & Hd' & E). exists d'. split; [done|congruence].
  - intros t c Ht. destruct (inv_notifiers _ _ H _ _ Ht) as (cv & Hcv & Hn).
    destruct (Hc _ _ Hcv) as (cv' & Hcv' & E). exists cv'. split; [done|]. by rewrite E.
Qed.

Lemma same_conditions_condvar w c cv cv' : condvars w !! c = Some cv ->
  ConditionVariable.MAX_NUMBER_OF_NOTIFIERS cv' = ConditionVariable.MAX_NUMBER_OF_NOTIFIERS cv ->
  same_conditions w (set_condvar c cv' w).
Proof.
  intros Hc Hn. split; [by eauto|]. intros c0 cv0 H0. simpl. destruct (decide (c0 = c)) as [->|Hne].
  - erewrite lookup_replaced by done. exists cv'. split; [done|congruence].
  - rewrite list_lookup_insert_ne by done. eauto.
Qed.

(** Members other than the slots change. *)
Lemma Inv_same X s s' : Inv X s -> targets_ok X s' -> origins s' = origins s -> world s' = world s ->
  condvars_toBeDestroyed s' = condvars_toBeDestroyed s -> (forall t i, slot s' t i = slot s t i) ->
  (forall w i, state_slot s' w i = state_slot s w i) -> (forall t, condvar_of s' t = condvar_of s t) ->
  (forall t, capacity_of s' t = capacity_of s t) -> Inv X s'.
Proof.
  intros H Ht Hor Hw Hm Hsl Hst Hcv Hcap. split.
  - done.
  - intros o x. rewrite Hor. intros Ho. destruct (inv_handles _ _ H _ _ Ho) as [|(c & t & i & E & Hc)]; [by left|right].
    exists c, t, i. by rewrite Hcv.
  - intros t i o. unfold link. rewrite Hsl, Hor. apply (inv_coherent _ _ H).
  - intros o x q. unfold queue_notifies. rewrite Hor, Hw. apply (inv_queues _ _ H).
  - intros w i o x. rewrite Hst, Hor. apply (inv_states _ _ H).
  - rewrite Hor. apply (inv_distinct _ _ H).
  - intros t t' c. rewrite !Hcv. apply (inv_condvars _ _ H).
  - intros t c. rewrite Hcv, Hcap, Hw. apply (inv_notifiers _ _ H).
  - intros t c. rewrite Hcv, Hm. apply (inv_marks _ _ H).
Qed.

(** A wait set or listener with empty slots is removed. *)
Lemma Inv_remove X s s' T : Inv X s -> (X = None \/ X = Some T) -> (forall i, slot s T i = None) ->
  targets_ok None s' -> origins s' = origins s -> world s' = world s ->
  (forall t i, slot s' t i = slot s t i) ->
  (forall w i o, state_slot s' w i = Some o -> state_slot s w i = Some o) ->
  (forall t, condvar_of s' t = if decide (t = T) then None else condvar_of s t) ->
  (forall t, t <> T -> capacity_of s' t = capacity_of s t) ->
  (forall c, condvar_of s T <> Some c -> condvars_toBeDestroyed s' !! c = condvars_toBeDestroyed s !! c) ->
  Inv None s'.
Proof.
  intros H HX Hempty Ht Hor Hw Hsl Hst Hcv Hcap Hm.
  assert (Hlk : forall o, link s' o = link s o) by (intros o; unfold link; by rewrite Hor).
  split.
  - done.
  - intros o x Ho. rewrite Hor in Ho. destruct (inv_handles _ _ H _ _ Ho) as [|(c & t & i & E & Hc)]; [by left|right].
    exists c, t, i. split; [done|]. rewrite Hcv. case_decide as Et; [|done]. subst t.
    assert (Hl : link s o = Some (T, i)) by (unfold link; rewrite Ho, E; done).
    apply (inv_coherent _ _ H) in Hl. congruence.
  - intros t i o. rewrite Hsl, Hlk. apply (inv_coherent _ _ H).
  - intros o x q. rewrite Hor. unfold queue_notifies. rewrite Hw. apply (inv_queues _ _ H).
  - intros w i o x Hs. rewrite Hor. by apply (inv_states _ _ H w i), Hst.
  - rewrite Hor. apply (inv_distinct _ _ H).
  - intros t t' c. rewrite !Hcv. repeat case_decide; try done. apply (inv_condvars _ _ H).
  - intros t c. rewrite Hcv. case_decide; [done|]. intros Hc. rewrite Hw, Hcap by done. by apply (inv_notifiers _ _ H).
  - intros t c. rewrite Hcv. case_decide as Ht'; [done|]. intros Hc _. rewrite Hm.
    + apply (inv_marks _ _ H t); [done|]. destruct HX; congruence.
    + intros E. apply Ht'. by eapply (inv_condvars _ _ H).
Qed.

(** ** The destructor of the wait set *)

Lemma slot_origin X s o t i : Inv X s -> slot s t i = Some o ->
  exists x c, origins s !! o = Some (Some x) /\ Origin.m_trigger x = TriggerHandle.ctor c t i.
Proof.
  intros H Hs. apply (inv_coherent _ _ H) in Hs. unfold link in Hs.
  destruct (origins s !! o) as [[x|]|] eqn:Ho; try done.
  destruct (inv_handles _ _ H _ _ Ho) as [E|(c & t' & i' & E & _)]; rewrite E in Hs; [done|].
  injection Hs as -> ->. by exists x, c.
Qed.

(** One slot of the wait set that is being destroyed. *)
Lemma remove_slot s w x n t : Inv (Some (ToWaitSet w)) s -> waitSets s !! w = Some (Some x) ->
  WaitSet.m_triggerArray x !! n = Some (Some t) ->
  exists s1, trigger_reset t s = Done s1 /\ waitSets s1 !! w = Some (Some x) /\
    condvars_toBeDestroyed s1 = condvars_toBeDestroyed s /\
    Inv (Some (ToWaitSet w))
      (put_waitSet w (Some (WaitSet.set_slots (<[n := None]> (WaitSet.m_triggerArray x)) (WaitSet.m_indexRepository x) x)) s1).
Proof.
  intros H Hw Hn. destruct (proj1 (inv_targets _ _ H) _ _ Hw) as [Hso _].
  destruct (so_triggers _ Hso _ _ Hn) as (Hid & o & Hro & _).
  pose proof (lookup_lt_Some _ _ _ Hn) as Hlt. pose proof (so_capacity _ Hso) as Hcap. unfold WaitSet.capacity in Hcap.
  assert (Hsl : slot s (ToWaitSet w) (Z.of_nat n) = Some o).
  { simpl. rewrite Hw. unfold waitset_slot. rewrite aget_nonneg, Hn. simpl. done. }
  destruct (slot_origin _ _ _ _ _ H Hsl) as (y & c & Ho & Hy).
  pose proof (inv_queue_exists _ _ _ _ H Ho) as Hex.
  unfold trigger_reset, Trigger.isValid. rewrite Hid, Hro. unfold INVALID_TRIGGER_ID, UINT64_MAX.
  rewrite (proj2 (Z.eqb_neq _ _)) by lia. simpl negb. cbv iota.
  rewrite (invalidateTrigger_eq s o y) by (rewrite ?Hy; done).
  eexists. split; [done|]. split; [done|]. split; [done|].
  match goal with |- Inv _ ?s' => set (s2 := s') end.
  set (x' := WaitSet.set_slots _ _ x) in s2.
  assert (Hss : slot_set (Some (ToWaitSet w)) s (put_waitSet w (Some x') s) (ToWaitSet w) (Z.of_nat n) None).
  { apply (slot_set_waitSet _ s w x); try done; [apply H|by apply slots_ok_insert|apply length_insert| |];
      intros j; unfold x'; [by rewrite slot_insert|]. intros o'. rewrite state_insert by done. case_decide; auto. }
  assert (R : relinked (Some (ToWaitSet w)) s s2 o (Some (invalidated y)) None).
  { eapply (relinked_slot_set _ s (put_waitSet w (Some x') s) s2 o y (ToWaitSet w) (Z.of_nat n)); try done.
    - by apply (inv_coherent _ _ H).
    - by right. }
  eapply (Inv_relink _ s); [done|done|done| |done].
  split_and!; [done|by left|done|done|]. intros q Hq. by apply (recondition_own (Origin.kind y) _ s).
Qed.

Lemma removeAllTriggers_ok n w i s x : Inv (Some (ToWaitSet w)) s -> waitSets s !! w = Some (Some x) ->
  (i + n = WaitSet.capacity x)%nat -> (forall j, (j < i)%nat -> WaitSet.m_triggerArray x !! j = Some None) ->
  exists s' x', removeAllTriggers n w i s = Done s' /\ Inv (Some (ToWaitSet w)) s' /\
    waitSets s' !! w = Some (Some x') /\
    WaitSet.m_conditionVariableDataPtr x' = WaitSet.m_conditionVariableDataPtr x /\
    condvars_toBeDestroyed s' = condvars_toBeDestroyed s /\
    forall j t, WaitSet.m_triggerArray x' !! j <> Some (Some t).
Proof.
  revert i s x. induction n as [|n IH]; intros i s x H Hw Hc Hnone; simpl.
  { exists s, x. split_and!; try done. intros j t Hj. rewrite Hnone in Hj; [done|].
    apply lookup_lt_Some in Hj. unfold WaitSet.capacity in Hc. lia. }
  rewrite (get_eq _ _ _ Hw). cbn [obind]. destruct (WaitSet.m_triggerArray x !! i) as [[t|]|] eqn:Hi.
  - destruct (remove_slot s w x i t H Hw Hi) as (s1 & E & Hw1 & Hm1 & H1). rewrite E. cbn [obind].
    rewrite (get_eq _ _ _ Hw1). cbn [obind].
    destruct (IH (S i) _ _ H1 (lookup_replaced _ _ _ _ Hw1)) as (s' & x' & E' & H' & Hx' & Hcv & Hm' & Hn').
    + unfold WaitSet.capacity in *. simpl. rewrite length_insert. lia.
    + intros j Hj. simpl. destruct (decide (j = i)) as [->|Hne]; [by eapply lookup_replaced|].
      rewrite list_lookup_insert_ne by done. apply Hnone. lia.
    + exists s', x'. split_and!; try done. by rewrite Hm'.
  - cbn [obind]. apply (IH (S i) s x H Hw); [lia|]. intros j Hj.
    destruct (decide (j = i)) as [->|Hne]; [done|]. apply Hnone. lia.
  - apply lookup_ge_None in Hi. unfold WaitSet.capacity in Hc. lia.
Qed.

Lemma waitset_dtor_ok s w x : Inv None s -> waitSets s !! w = Some (Some x) ->
  exists s', waitset_dtor w s = Done s' /\ Inv None s' /\ waitSets s' !! w = Some None /\
    condvars_toBeDestroyed s' !! WaitSet.m_conditionVariableDataPtr x = Some true.
Proof.
  intros H Hw. unfold waitset_dtor. rewrite (get_eq _ _ _ Hw). cbn [obind].
  destruct (removeAllTriggers_ok (WaitSet.capacity x) w 0 s x) as (s1 & x' & E & H1 & Hx' & Hcv & Hm1 & Hn);
    [by apply Inv_weaken|done|done|intros ?; lia|].
  rewrite E. cbn [obind]. eexists. split; [done|]. split; [|split].
  - assert (Hempty : forall i, slot s1 (ToWaitSet w) i = None).
    { intros i. simpl. rewrite Hx'. destruct (waitset_slot x' i) as [o|] eqn:Hs; [|done].
      apply waitset_slot_lookup in Hs as (n & t & _ & Hnt & _). by apply Hn in Hnt. }
    eapply (Inv_remove (Some (ToWaitSet w)) s1 _ (ToWaitSet w)); try done; [by right| | | | | |].
    + destruct (inv_targets _ _ H1) as [HW HL]. split; simpl.
      * intros w' y Hy. apply list_lookup_insert_Some in Hy as [(_ & ? & _)|(Hne & Hy)]; [done|].
        destruct (HW _ _ Hy) as [? Hf]. split; [done|]. intros _. apply Hf. congruence.
      * intros l y Hy. destruct (HL _ _ Hy) as [? Hf]. split; [done|]. intros _. by apply Hf.
    + intros [w'|l] i; simpl; [|done]. destruct (decide (w' = w)) as [->|Hne].
      * rewrite (lookup_replaced _ _ _ _ Hx'). symmetry. apply Hempty.
      * by rewrite list_lookup_insert_ne by done.
    + intros w' i o. unfold state_slot. simpl. destruct (decide (w' = w)) as [->|Hne].
      * by rewrite (lookup_replaced _ _ _ _ Hx').
      * by rewrite list_lookup_insert_ne by done.
    + intros [w'|l]; cbn [condvar_of put_waitSet mark_condvar waitSets listeners].
      * destruct (decide (w' = w)) as [->|Hne]; [by rewrite (lookup_replaced _ _ _ _ Hx'), decide_True|].
        rewrite list_lookup_insert_ne by done. by rewrite decide_False by congruence.
      * by rewrite decide_False.
    + intros [w'|l] Hne; simpl; [|done]. by rewrite list_lookup_insert_ne by congruence.
    + intros c Hc. simpl in Hc. rewrite Hx' in Hc. simpl. rewrite list_lookup_insert_ne; [done|]. congruence.
  - simpl. by eapply lookup_replaced.
  - simpl. rewrite Hm1. eapply lookup_replaced, (inv_marks _ _ H (ToWaitSet w)); [simpl; by rewrite Hw|done].
Qed.

(** ** The destructor of the listener *)

Lemma destroy_event s l x n e : Inv (Some (ToListener l)) s -> listeners s !! l = Some (Some x) ->
  Listener.m_events x !! n = Some e ->
  exists b s1 e', event_reset l n s = Done (b, s1) /\ Inv (Some (ToListener l)) s1 /\
    Event_t.isInitialized e' = false /\
    listeners s1 !! l = Some (Some (Listener.set_events (Listener.m_indexManager x) (<[n := e']> (Listener.m_events x)) x)).
Proof.
  intros H Hl Hn. destruct (proj2 (inv_targets _ _ H) _ _ Hl) as [Hev _].
  pose proof (eo_events _ Hev _ _ Hn) as He. unfold event_ok in He. pose proof (lookup_lt_Some _ _ _ Hn) as Hlt.
  destruct (Event_t.isInitialized e) eqn:Hi.
  - destruct He as (Hid & o & Hoo & Hinv).
    assert (Hsl : slot s (ToListener l) (Z.of_nat n) = Some o).
    { simpl. rewrite Hl. unfold listener_slot. cbv zeta. rewrite aget_nonneg, Hn. simpl. by rewrite Hi. }
    destruct (slot_origin _ _ _ _ _ H Hsl) as (y & c & Ho & Hy).
    pose proof (inv_queue_exists _ _ _ _ H Ho) as Hex.
    rewrite (event_reset_eq s l x n o y e) by (rewrite ?Hy; done).
    eexists _, _, (Event_t.cleared e). split; [done|]. split; [|split; [done|simpl; by eapply lookup_replaced]].
    match goal with |- Inv _ ?s' => set (s2 := s') end. set (x' := Listener.set_events _ _ x) in s2.
    assert (Hss : slot_set (Some (ToListener l)) s (put_listener l (Some x') s) (ToListener l) (Z.of_nat n) None).
    { apply (slot_set_listener _ s l x); try done; [apply H|by apply events_ok_insert|apply length_insert|].
      intros j. unfold x'. by rewrite listener_slot_insert, cleared_uninitialized. }
    assert (R : relinked (Some (ToListener l)) s s2 o (Some (invalidated y)) None).
    { eapply (relinked_slot_set _ s (put_listener l (Some x') s) s2 o y (ToListener l) (Z.of_nat n)); try done.
      - by apply (inv_coherent _ _ H).
      - by right. }
    eapply (Inv_relink _ s); [done|done|done| |done].
    split_and!; [done|by left|done|done|]. intros q Hq. by apply (recondition_own (Origin.kind y) _ s).
  - unfold event_reset. rewrite (get_eq _ _ _ Hl). cbn [obind]. rewrite Hn, Hi.
    exists false, s, e. split_and!; try done. rewrite list_insert_id by done. by destruct x.
Qed.

Lemma destroy_events_ok n l s x : Inv (Some (ToListener l)) s -> listeners s !! l = Some (Some x) ->
  (n <= Listener.capacity x)%nat ->
  (forall j e, (n <= j)%nat -> Listener.m_events x !! j = Some e -> Event_t.isInitialized e = false) ->
  exists s' x', destroy_events n l s = Done s' /\ Inv (Some (ToListener l)) s' /\
    listeners s' !! l = Some (Some x') /\
    Listener.m_conditionVariableData x' = Listener.m_conditionVariableData x /\
    forall j e, Listener.m_events x' !! j = Some e -> Event_t.isInitialized e = false.
Proof.
  revert s x. induction n as [|n IH]; intros s x H Hl Hc Hnone; simpl.
  { exists s, x. split_and!; try done. intros j e. apply Hnone. lia. }
  destruct (lookup_lt_is_Some_2 (Listener.m_events x) n) as [e He]; [unfold Listener.capacity in Hc; lia|].
  destruct (destroy_event s l x n e H Hl He) as (b & s1 & e' & E & H1 & He' & Hl1). rewrite E. cbn [obind].
  destruct (IH s1 _ H1 Hl1) as (s' & x' & E' & H' & Hx' & Hcv & Hn').
  - unfold Listener.capacity in *. simpl. rewrite length_insert. lia.
  - intros j e0 Hj. simpl. intros He0. apply list_lookup_insert_Some in He0 as [(_ & <- & _)|(Hne & He0)]; [done|].
    apply (Hnone j); [lia|done].
  - by exists s', x'.
Qed.

Lemma destroy_post_eq c s cv : condvars (world s) !! c = Some cv ->
  ConditionVariable.m_semaphore cv < ConditionVariable.SEM_VALUE_MAX ->
  destroy_post c s = Done (set_world (set_condvar c (ConditionVariable.set_semaphore
                                                       (ConditionVariable.m_semaphore cv + 1) cv) (world s)) s).
Proof.
  intros Hc Hs. unfold destroy_post, ConditionVariable.post. rewrite Hc.
  by rewrite (proj2 (Z.ltb_lt _ _)).
Qed.

Lemma Inv_listener_flags s l x d1 d2 : Inv None s -> listeners s !! l = Some (Some x) ->
  Inv None (put_listener l (Some (Listener.mk (Listener.m_indexManager x) (Listener.m_events x) d1
                                    (Listener.m_conditionVariableData x) d2)) s).
Proof.
  intros H Hl. set (x' := Listener.mk _ _ _ _ _). destruct (proj2 (inv_targets _ _ H) _ _ Hl) as [Hev Hix].
  assert (Hss : slot_set None s (put_listener l (Some x') s) (ToListener l) (-1) None).
  { apply (slot_set_listener None s l x); try done; [apply H|by destruct Hev|].
    intros j. case_decide as Hj; [|done]. by rewrite Hj. }
  destruct Hss as [Ht Hsl _ Hcv Hcap]. eapply (Inv_same None s); try done.
  intros t i. rewrite Hsl. case_decide as E; [|done]. simplify_eq. simpl. by rewrite Hl.
Qed.

Lemma Inv_mark s T c : Inv None s -> condvar_of s T = Some c -> Inv (Some T) (mark_condvar c s).
Proof.
  intros H Hc. pose proof (Inv_weaken (Some T) s H) as [Ht Hh Hco Hq Hst Hd Hcv Hn Hm]. split; try done.
  intros t c' Hc' Hne. simpl. rewrite list_lookup_insert_ne; [by eapply Hm|].
  intros ->. apply Hne. f_equal. by eapply Hcv.
Qed.

(** The body of the destructor: the condition variable is marked, its queues
    still notify it. *)
Lemma listener_dtor_body_ok s l x cv : Inv None s -> listeners s !! l = Some (Some x) ->
  condvars (world s) !! Listener.m_conditionVariableData x = Some cv ->
  ConditionVariable.m_semaphore cv < ConditionVariable.SEM_VALUE_MAX ->
  exists s1 x1, listener_dtor_body l s = Done s1 /\ Inv (Some (ToListener l)) s1 /\
    listeners s1 !! l = Some (Some x1) /\ Listener.m_events x1 = Listener.m_events x /\
    Listener.m_conditionVariableData x1 = Listener.m_conditionVariableData x /\
    condvars_toBeDestroyed s1 = <[Listener.m_conditionVariableData x := true]> (condvars_toBeDestroyed s).
Proof.
  intros H Hl Hcv Hsem. unfold listener_dtor_body. rewrite (get_eq _ _ _ Hl). cbn [obind].
  set (x' := Listener.mk _ _ _ _ _). rewrite (destroy_post_eq _ _ cv) by done. cbn [obind].
  eexists _, x'. split; [done|]. split; [|split_and!; try done; simpl; by eapply lookup_replaced].
  apply Inv_mark; [|simpl; by erewrite lookup_replaced by done].
  apply Inv_world; [by apply Inv_listener_flags|]. by eapply same_conditions_condvar.
Qed.

Lemma listener_dtor_ok s l x cv : Inv None s -> listeners s !! l = Some (Some x) ->
  condvars (world s) !! Listener.m_conditionVariableData x = Some cv ->
  ConditionVariable.m_semaphore cv < ConditionVariable.SEM_VALUE_MAX ->
  exists s', listener_dtor l s = Done s' /\ Inv None s' /\ listeners s' !! l = Some None.
Proof.
  intros H Hl Hcv Hsem. unfold listener_dtor.
  destruct (listener_dtor_body_ok s l x cv H Hl Hcv Hsem) as (s1 & x1 & E & H1 & Hl1 & _ & _ & _).
  rewrite E. cbn [obind]. rewrite (get_eq _ _ _ Hl1). cbn [obind].
  destruct (destroy_events_ok (Listener.capacity x1) l s1 x1 H1 Hl1) as (s2 & x2 & E2 & H2 & Hl2 & _ & Hn); [done| |].
  { intros j e Hj He. apply lookup_lt_Some in He. unfold Listener.capacity in Hj. lia. }
  rewrite E2. cbn [obind]. eexists. split; [done|]. split; [|simpl; by eapply lookup_replaced].
  assert (Hempty : forall i, slot s2 (ToListener l) i = None).
  { intros i. simpl. rewrite Hl2. destruct (listener_slot x2 i) as [o|] eqn:Hs; [|done].
    apply listener_slot_lookup in Hs as (n & e & _ & He & Hi & _); [|by apply (proj2 (inv_targets _ _ H2) _ _ Hl2)].
    by rewrite (Hn _ _ He) in Hi. }
  eapply (Inv_remove (Some (ToListener l)) s2 _ (ToListener l)); try done; [by right| | | |].
  - destruct (inv_targets _ _ H2) as [HW HL]. split; simpl.
    + intros w y Hy. destruct (HW _ _ Hy) as [? Hf]. split; [done|]. intros _. by apply Hf.
    + intros l' y Hy. apply list_lookup_insert_Some in Hy as [(_ & ? & _)|(Hne & Hy)]; [done|].
      destruct (HL _ _ Hy) as [? Hf]. split; [done|]. intros _. apply Hf. congruence.
  - intros [w|l'] i; simpl; [done|]. destruct (decide (l' = l)) as [->|Hne].
    + rewrite (lookup_replaced _ _ _ _ Hl2). symmetry. apply Hempty.
    + by rewrite list_lookup_insert_ne by done.
  - intros [w|l']; cbn [condvar_of put_listener waitSets listeners]; [by rewrite decide_False|].
    destruct (decide (l' = l)) as [->|Hne]; [by rewrite (lookup_replaced _ _ _ _ Hl2), decide_True|].
    rewrite list_lookup_insert_ne by done. by rewrite decide_False by congruence.
  - intros [w|l'] Hne; simpl; [done|]. by rewrite list_lookup_insert_ne by congruence.
Qed.
