(* ===== verification/Waiting.v ===== *)
(** * Waiting for attachments

    [WaitSet::wait] and [timedWait]: the ids the condition variable was notified
    with are merged into [m_activeNotifications], and the triggers of these ids
    that are satisfied are returned.  Ids of events are consumed, ids of states
    stay until they are detached, so that a state is reported again while it
    lasts. *)

From stdpp Require Import sorting.
From S2P Require Import Prelude Loffli ChunkHeader MemoryManager SharedChunk Queue VariantQueue.
From S2P Require Import ConditionVariable ChunkQueue Notifications Attachments Lifetimes.
Import System.

(** ** [uniqueMergeSortedContainers] *)

Fixpoint merge_union (v1 : list Z) : list Z -> list Z :=
  fix inner (v2 : list Z) : list Z :=
    match v1, v2 with
    | x :: r1, y :: r2 =>
        if x =? y then x :: merge_union r1 r2 else if x <? y then x :: merge_union r1 v2 else y :: inner r2
    | _, _ => v2 ++ v1
    end.

Lemma foldl_append cap l merged : (length merged + length l <= cap)%nat ->
  foldl (append cap) merged l = merged ++ l.
Proof.
  revert merged. induction l as [|x l IH]; intros merged H; simpl in *; [by rewrite app_nil_r|].
  unfold append at 2, emplace_back. rewrite (proj2 (Nat.ltb_lt _ _)) by lia. simpl.
  rewrite IH by (rewrite length_app; simpl; lia). by rewrite <- app_assoc.
Qed.

Lemma append_room cap merged x : (length merged < cap)%nat -> append cap merged x = merged ++ [x].
Proof. intros H. unfold append, emplace_back. by rewrite (proj2 (Nat.ltb_lt _ _)) by lia. Qed.

(** While the result fits, nothing is dropped. *)
Lemma merge_loop_union cap v1 v2 merged : (length merged + length (merge_union v1 v2) <= cap)%nat ->
  merge_loop cap v1 v2 merged = merged ++ merge_union v1 v2.
Proof.
  revert v2 merged. induction v1 as [|x r1 IH1]; intros v2.
  - intros merged H. destruct v2; simpl in *; rewrite ?app_nil_r in *; [done|].
    change (foldl (append cap) (append cap merged z) v2) with (foldl (append cap) merged (z :: v2)).
    by apply foldl_append.
  - induction v2 as [|y r2 IH2]; intros merged H; cbn [merge_loop merge_union] in *.
    { simpl in *. change (foldl (append cap) (append cap merged x) r1) with (foldl (append cap) merged (x :: r1)).
      by apply foldl_append. }
    destruct (x =? y); [|destruct (x <? y)]; simpl in H; rewrite append_room by lia.
    + rewrite IH1 by (rewrite length_app; simpl; lia). by rewrite <- app_assoc.
    + rewrite IH1 by (rewrite length_app; simpl; lia). by rewrite <- app_assoc.
    + rewrite IH2 by (rewrite length_app; simpl; lia). by rewrite <- app_assoc.
Qed.

Lemma elem_of_merge_union i v1 v2 : i ∈ merge_union v1 v2 <-> i ∈ v1 \/ i ∈ v2.
Proof.
  revert v2. induction v1 as [|x r1 IH1]; intros v2.
  - destruct v2; simpl; rewrite ?app_nil_r; set_solver.
  - induction v2 as [|y r2 IH2]; cbn [merge_union]; [set_solver|].
    destruct (Z.eqb_spec x y); [|destruct (x <? y)]; rewrite !elem_of_cons, ?IH1, ?IH2, ?elem_of_cons; [|tauto..].
    subst. tauto.
Qed.

Lemma merge_union_sorted v1 v2 : StronglySorted Z.lt v1 -> StronglySorted Z.lt v2 ->
  StronglySorted Z.lt (merge_union v1 v2).
Proof.
  revert v2. induction v1 as [|x r1 IH1]; intros v2 H1.
  - intros H2. destruct v2; simpl; by rewrite ?app_nil_r.
  - inversion_clear H1 as [|? ? S1 F1]. pose proof (proj1 (Forall_forall _ _) F1) as G1. simpl in G1.
    induction v2 as [|y r2 IH2]; intros H2; cbn [merge_union]; [by constructor|].
    inversion_clear H2 as [|? ? S2 F2]. pose proof (proj1 (Forall_forall _ _) F2) as G2. simpl in G2.
    destruct (Z.eqb_spec x y) as [->|Hne]; [|destruct (Z.ltb_spec x y)].
    + constructor; [by apply IH1|]. apply Forall_forall. intros i [Hi|Hi]%elem_of_merge_union; auto.
    + constructor; [apply IH1; [done|by constructor]|]. apply Forall_forall.
      intros i [Hi|Hi]%elem_of_merge_union; [auto|]. apply elem_of_cons in Hi as [->|Hi]; [done|].
      specialize (G2 i Hi). lia.
    + constructor; [by apply IH2|]. apply Forall_forall.
      intros i Hi. change (i ∈ merge_union (x :: r1) r2) in Hi.
      apply elem_of_merge_union in Hi as [Hi|Hi]; [|auto]. apply elem_of_cons in Hi as [->|Hi]; [lia|].
      specialize (G1 i Hi). lia.
Qed.

Lemma ascending_nodup l : StronglySorted Z.lt l -> NoDup l.
Proof.
  induction 1 as [|x l Hs IH Hf]; constructor; [|done]. intros Hin.
  apply (proj1 (Forall_forall _ _) Hf) in Hin. lia.
Qed.

Lemma ascending_length l n : ConditionVariable.ascending l (Z.of_nat n) -> (length l <= n)%nat.
Proof.
  intros [Hs Hf]. assert (Hsub : l ⊆+ Z.of_nat <$> seq 0 n).
  { apply NoDup_submseteq; [by apply ascending_nodup|]. intros i Hi. apply (proj1 (Forall_forall _ _) Hf) in Hi.
    apply list_elem_of_fmap. exists (Z.to_nat i). split; [lia|]. apply elem_of_seq. lia. }
  apply submseteq_length in Hsub. by rewrite length_fmap, length_seq in Hsub.
Qed.

(** The merge of two sorted vectors is the sorted vector of their union. *)
Lemma merge_sorted cap n v1 v2 : (n <= cap)%nat ->
  ConditionVariable.ascending v1 (Z.of_nat n) -> ConditionVariable.ascending v2 (Z.of_nat n) ->
  ConditionVariable.ascending (uniqueMergeSortedContainers cap v1 v2) (Z.of_nat n) /\
  forall i, i ∈ uniqueMergeSortedContainers cap v1 v2 <-> i ∈ v1 \/ i ∈ v2.
Proof.
  intros Hn [S1 F1] [S2 F2].
  assert (Ha : ConditionVariable.ascending (merge_union v1 v2) (Z.of_nat n)).
  { split; [by apply merge_union_sorted|]. apply Forall_forall.
    intros i [Hi|Hi]%elem_of_merge_union;
      [exact (proj1 (Forall_forall _ _) F1 i Hi)|exact (proj1 (Forall_forall _ _) F2 i Hi)]. }
  unfold uniqueMergeSortedContainers. pose proof (ascending_length _ _ Ha).
  rewrite merge_loop_union by (simpl; lia). simpl. split; [done|]. intros i. apply elem_of_merge_union.
Qed.

(** ** [createVectorWithTriggeredTriggers] *)

(** The queue of origin [o] has data. *)
Definition has_data (s : System.t) (o : nat) : bool :=
  match origins s !! o with
  | Some (Some x) =>
      match q ← queue_of (Origin.kind x); queues (world s) !! q with
      | Some d => negb (VariantQueue.empty (ChunkQueueData.MAX_CAPACITY d) (ChunkQueueData.m_queue d))
      | None => false
      end
  | _ => false
  end.

(** Slot [i] holds an event, or a state that persists. *)
Definition reports (s : System.t) (x : WaitSet.t) (i : Z) : Prop :=
  exists o, waitset_slot x i = Some o /\ (waitset_state x i = None \/ has_data s o = true).

#[global] Instance reports_dec s x i : Decision (reports s x i).
Proof.
  destruct (waitset_slot x i) as [o|] eqn:E.
  - destruct (decide (waitset_state x i = None \/ has_data s o = true)) as [H|H];
      [left; by exists o|right; intros (o' & E' & H'); congruence].
  - right. intros (o & ? & _). congruence.
Defined.

Lemma satisfied_ok s w x n t : Inv None s -> waitSets s !! w = Some (Some x) ->
  WaitSet.m_triggerArray x !! n = Some (Some t) ->
  isStateConditionSatisfied t s = Done (bool_decide (reports s x (Z.of_nat n))) /\
  waitset_state x (Z.of_nat n) = Trigger.m_hasTriggeredCallback t /\
  (Trigger.m_triggerType t = Trigger.EVENT_BASED <-> Trigger.m_hasTriggeredCallback t = None).
Proof.
  intros H Hw Hn. destruct (proj1 (inv_targets _ _ H) _ _ Hw) as [Hso _].
  destruct (so_triggers _ Hso _ _ Hn) as (Hid & o & Hr & _ & Hty).
  pose proof (lookup_lt_Some _ _ _ Hn) as Hlt. pose proof (so_capacity _ Hso) as Hcap. unfold WaitSet.capacity in Hcap.
  assert (Hv : Trigger.isValid t = true).
  { unfold Trigger.isValid, INVALID_TRIGGER_ID, UINT64_MAX. rewrite Hid, (proj2 (Z.eqb_neq _ _)) by lia. done. }
  assert (Hsl : waitset_slot x (Z.of_nat n) = Some o) by (unfold waitset_slot; by rewrite aget_nonneg, Hn).
  assert (Hst : waitset_state x (Z.of_nat n) = Trigger.m_hasTriggeredCallback t)
    by (unfold waitset_state; by rewrite aget_nonneg, Hn).
  split; [|split; [done|destruct Hty as [[-> ->]|[-> ->]]; naive_solver]].
  unfold isStateConditionSatisfied. destruct Hty as [[Ht Hh]|[Ht Hh]]; rewrite Ht, Hv.
  - rewrite bool_decide_eq_true_2; [done|]. exists o. split; [done|]. left. congruence.
  - rewrite Hh. assert (Hs : slot s (ToWaitSet w) (Z.of_nat n) = Some o) by (simpl; by rewrite Hw).
    destruct (slot_origin _ _ _ _ _ H Hs) as (y & c & Ho & _).
    assert (Hq : queue_of (Origin.kind y) <> None).
    { apply (inv_states _ _ H w (Z.of_nat n) o y); [|done]. unfold state_slot. rewrite Hw. congruence. }
    unfold isStateSatisfied. rewrite (get_eq _ _ _ Ho). cbn [obind].
    destruct (queue_of (Origin.kind y)) as [q|] eqn:Hk; [|done].
    destruct (inv_queues _ _ H _ _ _ Ho Hk) as (d & Hd & _).
    unfold ChunkQueuePopper.empty, get_queue. rewrite Hd. cbn [obind]. f_equal.
    assert (Hhd : has_data s o = negb (VariantQueue.empty (ChunkQueueData.MAX_CAPACITY d) (ChunkQueueData.m_queue d))).
    { unfold has_data. rewrite Ho, Hk. simpl. by rewrite Hd. }
    rewrite <- Hhd. destruct (has_data s o) eqn:E; symmetry.
    + apply bool_decide_eq_true_2. exists o. split; [done|by right].
    + apply bool_decide_eq_false_2. intros (o' & Hsl' & [Hn'|Hd']); congruence.
Qed.

(** The loop over the ids [l], the last first; [r] are the ids kept so far. *)
Lemma scan_ok s w x l r tr : Inv None s -> waitSets s !! w = Some (Some x) ->
  Forall (fun i => 0 <= i < Z.of_nat (WaitSet.capacity x)) l -> (length tr + length l <= WaitSet.capacity x)%nat ->
  scan s x (length l) (tr, l ++ r) =
  Done (tr ++ filter (reports s x) (reverse l), filter (fun i => waitset_state x i <> None) l ++ r).
Proof.
  intros H Hw. revert r tr. induction l as [|a l IH] using rev_ind; intros r tr Hf Hlen; simpl.
  { by rewrite app_nil_r. }
  apply Forall_app in Hf as [Hf [Ha _]%Forall_cons]. rewrite length_app in *. simpl in Hlen.
  rewrite Nat.add_1_r. cbn [scan scan_round]. rewrite <- app_assoc. cbn [app].
  rewrite list_lookup_middle by done.
  destruct (lookup_lt_is_Some_2 (WaitSet.m_triggerArray x) (Z.to_nat a)) as [e He].
  { unfold WaitSet.capacity in Ha. lia. }
  assert (Ea : a = Z.of_nat (Z.to_nat a)) by lia. rewrite He.
  rewrite reverse_app, filter_app. cbn [reverse rev_append filter list_filter].
  change (reverse [a]) with [a]. rewrite filter_app.
  assert (Hdel : delete (length l) (l ++ a :: r) = l ++ r).
  { rewrite delete_middle. done. }
  destruct e as [t|].
  - destruct (satisfied_ok s w x _ t H Hw He) as (-> & Hst & Hty). rewrite <- Ea in *. cbn [obind].
    destruct (decide (reports s x a)) as [Hr|Hr].
    + rewrite bool_decide_eq_true_2 by done. unfold emplace_back. rewrite (proj2 (Nat.ltb_lt _ _)) by lia.
      cbn [expects obind].
      destruct (decide (waitset_state x a = None)) as [Hs|Hs].
      * rewrite bool_decide_eq_true_2 by (apply Hty; congruence). rewrite Hdel.
        rewrite (filter_cons_False _ a []), filter_nil, app_nil_r by naive_solver.
        rewrite IH; [|done|rewrite length_app; simpl; lia]. by rewrite <- app_assoc.
      * rewrite bool_decide_eq_false_2 by (rewrite Hty; congruence).
        rewrite (filter_cons_True _ a []), filter_nil by done.
        rewrite IH; [|done|rewrite length_app; simpl; lia]. by rewrite <- !app_assoc.
    + rewrite bool_decide_eq_false_2 by done. cbn [obind].
      assert (Hs : waitset_state x a <> None).
      { intros Hs. apply Hr. destruct (proj1 (inv_targets _ _ H) _ _ Hw) as [Hso _].
        destruct (so_triggers _ Hso _ _ He) as (_ & o & Hro & _). exists o. split; [|by left].
        unfold waitset_slot. rewrite Ea, aget_nonneg, He. done. }
      rewrite (filter_cons_True _ a []), filter_nil by done.
      rewrite IH by (done || lia). simpl. by rewrite <- app_assoc.
  - assert (Hn : waitset_slot x a = None /\ waitset_state x a = None).
    { unfold waitset_slot, waitset_state. by rewrite Ea, aget_nonneg, He. }
    cbn [obind]. rewrite Hdel, IH by (done || lia).
    rewrite decide_False by (intros (o & ? & _); destruct Hn; congruence).
    rewrite (filter_cons_False _ a []), filter_nil, app_nil_r by naive_solver. done.
Qed.

Lemma targets_ok_put_waitSet s w x x' : targets_ok None s -> waitSets s !! w = Some (Some x) -> slots_ok x' ->
  free_ok x' -> targets_ok None (put_waitSet w (Some x') s).
Proof.
  intros [HW HL] Hw Hs Hf. split; [|done]. intros w' y Hy. simpl in Hy.
  apply list_lookup_insert_Some in Hy as [(_ & [= <-] & _)|(_ & Hy)]; eauto.
Qed.

Lemma Inv_set_active s w x a : Inv None s -> waitSets s !! w = Some (Some x) ->
  ConditionVariable.ascending a (Z.of_nat (WaitSet.capacity x)) ->
  Inv None (put_waitSet w (Some (WaitSet.set_active a x)) s).
Proof.
  intros H Hw Ha. destruct (proj1 (inv_targets _ _ H) _ _ Hw) as [[Hc Ht _] Hfo].
  assert (Hput : forall {B} (f : WaitSet.t -> B) (d : B) w', f (WaitSet.set_active a x) = f x ->
    match <[w := Some (WaitSet.set_active a x)]> (waitSets s) !! w' with Some (Some y) => f y | _ => d end =
    match waitSets s !! w' with Some (Some y) => f y | _ => d end).
  { intros B f d w' Hf. destruct (decide (w' = w)) as [->|Hne]; [|by rewrite list_lookup_insert_ne].
    by rewrite (lookup_replaced _ _ _ _ Hw), Hw. }
  eapply (Inv_same None s); try done.
  - eapply targets_ok_put_waitSet; [apply H|done|by split|]. destruct (Hfo ltac:(done)) as [Hn Hf]. by split.
  - intros [w'|l] i; [|done]. apply (Hput _ (fun y => waitset_slot y i)). done.
  - intros w' i. apply (Hput _ (fun y => waitset_state y i)). done.
  - intros [w'|l]; [|done]. by apply (Hput _ (fun y => Some (WaitSet.m_conditionVariableDataPtr y))).
  - intros [w'|l]; [|done]. by apply (Hput _ WaitSet.capacity).
Qed.

Lemma Forall_filtered (P Q : Z -> Prop) `{forall i, Decision (P i)} l : Forall Q l -> Forall Q (filter P l).
Proof. rewrite !Forall_forall. intros HQ i [_ Hi]%list_elem_of_filter. auto. Qed.

Lemma ascending_filter (P : Z -> Prop) `{forall i, Decision (P i)} l b :
  ConditionVariable.ascending l b -> ConditionVariable.ascending (filter P l) b.
Proof.
  intros [Hs Hf]. split; [|by apply Forall_filtered].
  induction Hs as [|x l Hs IH Hx]; [constructor|]. inversion_clear Hf. rewrite filter_cons. case_decide; [|by apply IH].
  constructor; [by apply IH|]. by apply Forall_filtered.
Qed.

Lemma create_vector_ok s w x : Inv None s -> waitSets s !! w = Some (Some x) ->
  let kept := filter (fun i => waitset_state x i <> None) (WaitSet.m_activeNotifications x) in
  createVectorWithTriggeredTriggers w s =
    Done (filter (reports s x) (reverse (WaitSet.m_activeNotifications x)),
          put_waitSet w (Some (WaitSet.set_active kept x)) s) /\
  Inv None (put_waitSet w (Some (WaitSet.set_active kept x)) s).
Proof.
  intros H Hw kept. destruct (proj1 (inv_targets _ _ H) _ _ Hw) as [[Hc Ht Ha] Hfo].
  split; [|apply Inv_set_active; [done|done|by apply ascending_filter]].
  unfold createVectorWithTriggeredTriggers. rewrite (get_eq _ _ _ Hw). cbn [obind].
  pose proof (ascending_length _ _ Ha).
  rewrite <- (app_nil_r (WaitSet.m_activeNotifications x)) at 2.
  rewrite (scan_ok s w x) by (done || apply Ha || (simpl; lia)). cbn [obind]. by rewrite app_nil_r.
Qed.

(** ** [wait] *)

(** What [m_conditionListener.wait()] does for wait set [w]: it returns sorted
    ids of slots and changes only the shared memory. *)
Definition collects (wait : System.t -> outcome (list Z * System.t)) (w : nat) (s : System.t) : Prop :=
  exists ids world', wait s = Done (ids, set_world world' s) /\ same_conditions (world s) world' /\
    ConditionVariable.ascending ids (Z.of_nat (capacity_of s (ToWaitSet w))).

Lemma acquire_ok wait max w s x ids world' : Inv None s -> waitSets s !! w = Some (Some x) ->
  (WaitSet.capacity x <= max)%nat ->
  wait s = Done (ids, set_world world' s) -> same_conditions (world s) world' ->
  ConditionVariable.ascending ids (Z.of_nat (WaitSet.capacity x)) ->
  exists s' x', acquireNotifications wait max w s = Done s' /\ Inv None s' /\ waitSets s' !! w = Some (Some x') /\
    x' = WaitSet.set_active (WaitSet.m_activeNotifications x') x /\ origins s' = origins s /\ world s' = world' /\
    forall i, i ∈ WaitSet.m_activeNotifications x' <-> i ∈ WaitSet.m_activeNotifications x \/ i ∈ ids.
Proof.
  intros H Hw Hmax Hwait Hsame Hids. unfold acquireNotifications. rewrite Hwait. cbn [obind].
  pose proof (Inv_world _ _ _ H Hsame) as H1.
  rewrite (get_eq w _ x) by done. cbn [obind].
  assert (Ha : ConditionVariable.ascending (WaitSet.m_activeNotifications x) (Z.of_nat (WaitSet.capacity x))).
  { destruct (proj1 (inv_targets _ _ H) _ _ Hw) as [[_ _ Ha] _]. done. }
  assert (Hput : forall a, ConditionVariable.ascending a (Z.of_nat (WaitSet.capacity x)) ->
    (forall i, i ∈ a <-> i ∈ WaitSet.m_activeNotifications x \/ i ∈ ids) ->
    exists s' x', Done (put_waitSet w (Some (WaitSet.set_active a x)) (set_world world' s)) = Done s' /\
      Inv None s' /\ waitSets s' !! w = Some (Some x') /\
      x' = WaitSet.set_active (WaitSet.m_activeNotifications x') x /\ origins s' = origins s /\ world s' = world' /\
      forall i, i ∈ WaitSet.m_activeNotifications x' <-> i ∈ WaitSet.m_activeNotifications x \/ i ∈ ids).
  { intros a Haa Hel. eexists _, (WaitSet.set_active a x). split; [done|]. split; [by apply Inv_set_active|].
    split; [simpl; by eapply lookup_replaced|]. done. }
  destruct (WaitSet.m_activeNotifications x) as [|a1 al] eqn:Ea; [apply Hput; [done|set_solver]|].
  destruct ids as [|i1 il].
  - eexists _, x. split; [done|]. split; [done|]. split; [done|]. rewrite Ea. split_and!; [|done|done|set_solver].
    destruct x; simpl in *; by subst.
  - destruct (merge_sorted max (WaitSet.capacity x) (i1 :: il) (a1 :: al) Hmax Hids Ha) as [Hm Hel].
    apply Hput; [done|]. intros i. rewrite Hel. tauto.
Qed.

Lemma reports_set_active s x a i : reports s (WaitSet.set_active a x) i <-> reports s x i.
Proof. done. Qed.

Lemma acquire_create_ok wait max w s x ids world' : Inv None s -> waitSets s !! w = Some (Some x) ->
  (WaitSet.capacity x <= max)%nat ->
  wait s = Done (ids, set_world world' s) -> same_conditions (world s) world' ->
  ConditionVariable.ascending ids (Z.of_nat (WaitSet.capacity x)) ->
  exists s1 triggers s2 x2, acquireNotifications wait max w s = Done s1 /\
    createVectorWithTriggeredTriggers w s1 = Done (triggers, s2) /\ Inv None s2 /\ NoDup triggers /\
    (forall i, i ∈ triggers <-> (i ∈ WaitSet.m_activeNotifications x \/ i ∈ ids) /\ reports s1 x i) /\
    waitSets s2 !! w = Some (Some x2) /\
    (forall i, i ∈ WaitSet.m_activeNotifications x2 <->
       (i ∈ WaitSet.m_activeNotifications x \/ i ∈ ids) /\ waitset_state x i <> None).
Proof.
  intros H Hw Hmax Hwait Hsame Hids.
  destruct (acquire_ok wait max w s x ids world' H Hw Hmax Hwait Hsame Hids) as (s1 & x1 & E1 & H1 & Hx1 & Hr1 & _ & _ & Hel).
  destruct (create_vector_ok s1 w x1 H1 Hx1) as [E2 H2].
  assert (Hnd : NoDup (WaitSet.m_activeNotifications x1)).
  { apply ascending_nodup. destruct (proj1 (inv_targets _ _ H1) _ _ Hx1) as [[_ _ [Hs _]] _]. done. }
  eexists s1, _, _, _. split; [done|]. split; [exact E2|]. split; [done|]. split_and!.
  - apply NoDup_filter. by rewrite reverse_Permutation.
  - intros i. rewrite list_elem_of_filter, elem_of_reverse, Hel, Hr1, reports_set_active. tauto.
  - simpl. by eapply lookup_replaced.
  - intros i. simpl. rewrite list_elem_of_filter, Hel, Hr1. simpl. tauto.
Qed.

Lemma acquire_total wait max w s x : Inv None s -> waitSets s !! w = Some (Some x) ->
  (WaitSet.capacity x <= max)%nat -> collects wait w s ->
  exists s' x', acquireNotifications wait max w s = Done s' /\ Inv None s' /\ waitSets s' !! w = Some (Some x') /\
    WaitSet.capacity x' = WaitSet.capacity x.
Proof.
  intros H Hw Hmax (ids & world' & Hwait & Hsame & Hids). simpl in Hids. rewrite Hw in Hids.
  destruct (acquire_ok wait max w s x ids world') as (s' & x' & E & H' & Hx' & Hr & _); try done.
  exists s', x'. split_and!; try done. by rewrite Hr.
Qed.

(** The whole wait returns when the condition variable does. *)
Lemma wait_total wait max w s x : Inv None s -> waitSets s !! w = Some (Some x) ->
  (WaitSet.capacity x <= max)%nat ->
  (forall s', Inv None s' -> condvar_of s' (ToWaitSet w) <> None -> collects wait w s') ->
  exists triggers s', waitAndReturnTriggeredTriggers wait max w s = Done (triggers, s') /\ Inv None s'.
Proof.
  intros H Hw Hmax Hc.
  assert (Hcoll : forall s' x', Inv None s' -> waitSets s' !! w = Some (Some x') -> collects wait w s').
  { intros s' x' H' Hx'. apply Hc; [done|]. simpl. by rewrite Hx'. }
  unfold waitAndReturnTriggeredTriggers, wasNotified. rewrite (get_eq _ _ _ Hw). cbn [obind].
  destruct (inv_notifiers _ _ H (ToWaitSet w) (WaitSet.m_conditionVariableDataPtr x)) as (cv & Hcv & _);
    [simpl; by rewrite Hw|]. rewrite Hcv. cbn [obind].
  assert (H1 : exists s1 x1, (if ConditionVariable.wasNotified cv then acquireNotifications wait max w s else Done s) = Done s1 /\
     Inv None s1 /\ waitSets s1 !! w = Some (Some x1) /\ WaitSet.capacity x1 = WaitSet.capacity x).
  { destruct (ConditionVariable.wasNotified cv); [|by exists s, x]. apply acquire_total; try done. by eapply Hcoll. }
  destruct H1 as (s1 & x1 & -> & H1 & Hx1 & Hcap1). cbn [obind].
  destruct (create_vector_ok s1 w x1 H1 Hx1) as [-> H2]. cbn [obind].
  destruct (filter (reports s1 x1) _); [|eexists _, _; split; [reflexivity|exact H2]].
  match type of H2 with Inv None ?s' => set (s2 := s') in * end.
  assert (Hx2 : exists x2, waitSets s2 !! w = Some (Some x2) /\ WaitSet.capacity x2 = WaitSet.capacity x).
  { eexists. split; [simpl; by eapply lookup_replaced|]. simpl. done. }
  destruct Hx2 as (x2 & Hx2 & Hcap2).
  destruct (acquire_total wait max w s2 x2 H2 Hx2) as (s3 & x3 & -> & H3 & Hx3 & _); [lia|by eapply Hcoll|].
  cbn [obind]. destruct (create_vector_ok s3 w x3 H3 Hx3) as [-> H4]. eexists _, _. split; [reflexivity|exact H4].
Qed.

(** The end of a wait that finds a persisting state among the active ids. *)
Lemma state_found s w x i o : Inv None s -> waitSets s !! w = Some (Some x) ->
  i ∈ WaitSet.m_activeNotifications x -> waitset_state x i = Some o -> has_data s o = true ->
  exists triggers s' x', createVectorWithTriggeredTriggers w s = Done (triggers, s') /\ i ∈ triggers /\ Inv None s' /\
    waitSets s' !! w = Some (Some x') /\ WaitSet.capacity x' = WaitSet.capacity x /\
    i ∈ WaitSet.m_activeNotifications x' /\ waitset_state x' i = Some o /\ has_data s' o = true.
Proof.
  intros H Hw Hi Hst Hd. destruct (create_vector_ok s w x H Hw) as [-> H'].
  destruct (proj1 (inv_targets _ _ H) _ _ Hw) as [Hso _]. eexists _, _, _. split; [done|].
  split; [|split; [exact H'|split; [simpl; by eapply lookup_replaced|]]].
  - apply list_elem_of_filter. rewrite elem_of_reverse. split; [|done]. exists o. split; [by apply state_slot_agree|by right].
  - split; [done|]. split; [|done]. simpl. apply list_elem_of_filter. split; [congruence|done].
Qed.

(** A state that persists is reported without blocking, and stays active; if there are
    new notifications they are collected first. *)
Lemma state_again wait max w s x i o : Inv None s -> waitSets s !! w = Some (Some x) ->
  (WaitSet.capacity x <= max)%nat ->
  (wasNotified w s = Done true -> exists ids world', wait s = Done (ids, set_world world' s) /\
     same_conditions (world s) world' /\ ConditionVariable.ascending ids (Z.of_nat (WaitSet.capacity x)) /\
     has_data (set_world world' s) o = true) ->
  i ∈ WaitSet.m_activeNotifications x -> waitset_state x i = Some o -> has_data s o = true ->
  exists triggers s' x', waitAndReturnTriggeredTriggers wait max w s = Done (triggers, s') /\ i ∈ triggers /\ Inv None s' /\
    waitSets s' !! w = Some (Some x') /\ WaitSet.capacity x' = WaitSet.capacity x /\
    i ∈ WaitSet.m_activeNotifications x' /\ waitset_state x' i = Some o /\ has_data s' o = true.
Proof.
  intros H Hw Hmax Hwait Hi Hst Hd. unfold waitAndReturnTriggeredTriggers.
  assert (Hn : exists b, wasNotified w s = Done b).
  { unfold wasNotified. rewrite (get_eq _ _ _ Hw). cbn [obind].
    destruct (inv_notifiers _ _ H (ToWaitSet w) (WaitSet.m_conditionVariableDataPtr x)) as (cv & Hcv & _);
      [simpl; by rewrite Hw|]. rewrite Hcv. by eexists. }
  destruct Hn as [b Hn]. rewrite Hn in *. cbn [obind].
  assert (H1 : exists s1 x1, (if b then acquireNotifications wait max w s else Done s) = Done s1 /\ Inv None s1 /\
    waitSets s1 !! w = Some (Some x1) /\ WaitSet.capacity x1 = WaitSet.capacity x /\
    i ∈ WaitSet.m_activeNotifications x1 /\ waitset_state x1 i = Some o /\ has_data s1 o = true).
  { destruct b; [|exists s, x; by split_and!]. destruct (Hwait eq_refl) as (ids & world' & E & Hsame & Hids & Hd').
    destruct (acquire_ok wait max w s x ids world' H Hw Hmax E Hsame Hids) as (s1 & x1 & E1 & H1 & Hx1 & Hr1 & Ho1 & Hw1 & Hel).
    exists s1, x1. split; [done|]. split; [done|]. split; [done|]. split; [by rewrite Hr1|].
    split; [apply Hel; by left|]. split; [by rewrite Hr1|]. unfold has_data in *. by rewrite Ho1, Hw1. }
  destruct H1 as (s1 & x1 & -> & H1 & Hx1 & Hcap1 & Hi1 & Hst1 & Hd1). cbn [obind].
  destruct (state_found s1 w x1 i o H1 Hx1 Hi1 Hst1 Hd1) as (tr & s' & x' & -> & Hin & Hrest). cbn [obind].
  destruct tr as [|a tr]; [by apply elem_of_nil in Hin|]. exists (a :: tr), s', x'. rewrite <- Hcap1. by split_and!; try apply Hrest.
Qed.
