(* ===== verification/NotificationSteps.v ===== *)
(** * Every sequence of operations on wait sets, listeners and origins

    The operations of Notifications as a step relation, between them any activity
    in the shared memory; the invariant of Attachments in every reachable state,
    and what follows for the user of the interface. *)

From S2P Require Import Prelude Loffli ChunkHeader MemoryManager SharedChunk Queue VariantQueue.
From S2P Require Import ConditionVariable ChunkQueue Notifications Attachments Lifetimes Waiting.
Import System.

Definition living_origin (s : System.t) (o : nat) : Prop := exists x, origins s !! o = Some (Some x).
Definition living (s : System.t) (t : Target) : Prop := condvar_of s t <> None.

(** RouDi hands out condition variable [c], which no living object has. *)
Definition acquire_condvar (c notifiers : nat) (s : System.t) : System.t :=
  System.mk (set_condvar c (ConditionVariable.ctor notifiers) (world s)) (waitSets s) (listeners s) (origins s)
    (<[c := false]> (condvars_toBeDestroyed s)) (ports_toBeDestroyed s).

Definition condvar_free (c : nat) (s : System.t) : Prop :=
  (c < length (condvars (world s)))%nat /\ (c < length (condvars_toBeDestroyed s))%nat /\
  forall t, condvar_of s t <> Some c.

(** No living origin receives from queue [q]. *)
Definition queue_free (q : nat) (s : System.t) : Prop :=
  forall o x, origins s !! o = Some (Some x) -> queue_of (Origin.kind x) <> Some q.

Section steps.
Context (hash_code : EnumType -> Z) (MAX_NUMBER_OF_NOTIFIERS : nat).

Inductive step (s : System.t) : System.t -> Prop :=
  | step_memory w : same_conditions (world s) w -> step s (set_world w s)
  | step_new_queue q d : queue_free q s -> step s (set_world (set_queue_data q d (world s)) s)
  | step_new_origin k : (forall q, queue_of k = Some q -> queue_free q s /\ queue_notifies s q TriggerHandle.invalid) ->
      step s (origin_new k s)
  | step_new_waitset Capacity c : condvar_free c s -> (Capacity <= MAX_NUMBER_OF_NOTIFIERS)%nat ->
      Z.of_nat Capacity < 2 ^ 32 ->
      step s (waitset_new Capacity c (acquire_condvar c MAX_NUMBER_OF_NOTIFIERS s))
  | step_new_listener c s' : condvar_free c s -> Z.of_nat MAX_NUMBER_OF_NOTIFIERS < UINT32_MAX - 1 ->
      listener_new true MAX_NUMBER_OF_NOTIFIERS c (acquire_condvar c MAX_NUMBER_OF_NOTIFIERS s) = Done s' -> step s s'
  | step_attachEvent w o id cb r s' : living s (ToWaitSet w) -> living_origin s o ->
      waitset_attachEvent hash_code w o id cb s = Done (r, s') -> step s s'
  | step_attachState w o id cb r s' : living s (ToWaitSet w) -> living_origin s o ->
      waitset_attachState hash_code w o id cb s = Done (r, s') -> step s s'
  | step_listen l o cb r s' : living s (ToListener l) -> living_origin s o ->
      listener_attachEvent hash_code l o cb s = Done (r, s') -> step s s'
  | step_detach o s' : living_origin s o -> disable o s = Done s' -> step s s'
  | step_origin_dtor o s' : living_origin s o -> origin_dtor o s = Done s' -> step s s'
  | step_waitset_dtor w s' : living s (ToWaitSet w) -> waitset_dtor w s = Done s' -> step s s'
  | step_listener_dtor l s' : living s (ToListener l) -> listener_dtor l s = Done s' -> step s s'
  | step_acquire wait w s' : living s (ToWaitSet w) -> (capacity_of s (ToWaitSet w) <= MAX_NUMBER_OF_NOTIFIERS)%nat ->
      collects wait w s -> acquireNotifications wait MAX_NUMBER_OF_NOTIFIERS w s = Done s' -> step s s'
  | step_create w triggers s' : living s (ToWaitSet w) ->
      createVectorWithTriggeredTriggers w s = Done (triggers, s') -> step s s'.

(** At the beginning there is only the shared memory. *)
Definition initial (s : System.t) : Prop := waitSets s = [] /\ listeners s = [] /\ origins s = [].

Inductive reachable : System.t -> Prop :=
  | reachable_initial s : initial s -> reachable s
  | reachable_step s s' : reachable s -> step s s' -> reachable s'.

(** ** New objects *)

Lemma living_waitSet s w : living s (ToWaitSet w) -> exists x, waitSets s !! w = Some (Some x).
Proof. unfold living. simpl. destruct (waitSets s !! w) as [[x|]|]; [eauto|done..]. Qed.

Lemma living_listener s l : living s (ToListener l) -> exists x, listeners s !! l = Some (Some x).
Proof. unfold living. simpl. destruct (listeners s !! l) as [[x|]|]; [eauto|done..]. Qed.

Lemma Inv_initial s : initial s -> Inv None s.
Proof.
  intros (Hw & Hl & Ho). assert (Hc : forall t, condvar_of s t = None) by (intros []; simpl; by rewrite ?Hw, ?Hl).
  split.
  - by split; intros ? ?; rewrite ?Hw, ?Hl.
  - intros o x. by rewrite Ho.
  - intros t i o. unfold link. rewrite Ho. destruct t; simpl; by rewrite ?Hw, ?Hl.
  - intros o x q. by rewrite Ho.
  - intros w i o x. by rewrite Ho.
  - intros o o' x x' q. by rewrite Ho.
  - intros t t' c. by rewrite Hc.
  - intros t c. by rewrite Hc.
  - intros t c. by rewrite Hc.
Qed.

Lemma Inv_acquire c n s : Inv None s -> condvar_free c s -> Inv None (acquire_condvar c n s).
Proof.
  intros H (Hc1 & Hc2 & Hc). destruct H as [Ht Hh Hco Hq Hst Hd Hcv Hn Hm]. split; try done.
  - intros t c' Ht'. simpl. rewrite list_lookup_insert_ne; [by apply Hn|]. intros <-. by apply (Hc t).
  - intros t c' Ht' _. simpl. rewrite list_lookup_insert_ne; [by apply (Hm t)|]. intros <-. by apply (Hc t).
Qed.

Lemma Inv_new_queue q d s : Inv None s -> queue_free q s -> Inv None (set_world (set_queue_data q d (world s)) s).
Proof.
  intros H Hf. destruct H as [Ht Hh Hco Hq Hst Hd Hcv Hn Hm]. split; try done.
  intros o x q' Ho Hk. destruct (Hq _ _ _ Ho Hk) as (d' & Hd' & E). exists d'. split; [|done]. simpl.
  rewrite list_lookup_insert_ne; [done|]. intros <-. by apply (Hf _ _ Ho).
Qed.

Lemma Inv_new_origin k s : Inv None s ->
  (forall q, queue_of k = Some q -> queue_free q s /\ queue_notifies s q TriggerHandle.invalid) ->
  Inv None (origin_new k s).
Proof.
  intros H Hk. destruct H as [Ht Hh Hco Hq Hst Hd Hcv Hn Hm].
  assert (Hcase : forall o x, origins (origin_new k s) !! o = Some (Some x) ->
    origins s !! o = Some (Some x) \/ (o = length (origins s) /\ x = Origin.mk k TriggerHandle.invalid)).
  { intros o x E. simpl in E. apply lookup_snoc_Some in E as [[_ E]|[-> [= <-]]]; auto. }
  assert (Hlk : forall o, link (origin_new k s) o = link s o).
  { intros o. unfold link. simpl. destruct (decide (o < length (origins s))%nat) as [Hlt|Hge].
    - by rewrite lookup_app_l.
    - rewrite (proj2 (lookup_ge_None (origins s) o)) by lia. destruct (decide (o = length (origins s))) as [->|].
      + by rewrite list_lookup_middle.
      + rewrite lookup_ge_None_2; [done|]. rewrite length_app. simpl. lia. }
  split; try done.
  - intros o x E. destruct (Hcase _ _ E) as [E'|[_ ->]]; [by eapply Hh|by left].
  - intros t i o. rewrite Hlk. apply Hco.
  - intros o x q E Hkx. destruct (Hcase _ _ E) as [E'|[_ ->]]; [by eapply Hq|]. by apply Hk.
  - intros w i o x Hs E. destruct (Hcase _ _ E) as [E'|[-> ->]]; [by eapply Hst|].
    exfalso. unfold state_slot in Hs. simpl in Hs. destruct (waitSets s !! w) as [[xw|]|] eqn:Hw; try done.
    destruct (proj1 Ht _ _ Hw) as [Hso _]. apply state_slot_agree in Hs; [|done].
    assert (Hl : link s (length (origins s)) = Some (ToWaitSet w, i)) by (apply Hco; simpl; by rewrite Hw).
    unfold link in Hl. by rewrite lookup_ge_None_2 in Hl.
  - intros o o' x x' q E E' Hkx Hkx'. destruct (Hcase _ _ E) as [E1|[-> ->]], (Hcase _ _ E') as [E2|[-> ->]]; [by eapply Hd| | |done].
    + exfalso. by apply (proj1 (Hk q Hkx') _ _ E1).
    + exfalso. by apply (proj1 (Hk q Hkx) _ _ E2).
Qed.

(** A wait set or listener with empty slots and condition variable [c] is added. *)
Lemma Inv_add s s' T c cv : Inv None s -> targets_ok None s' -> origins s' = origins s -> world s' = world s ->
  condvars_toBeDestroyed s' = condvars_toBeDestroyed s -> (forall t i, slot s' t i = slot s t i) ->
  (forall w i, state_slot s' w i = state_slot s w i) -> condvar_of s T = None -> (forall t, condvar_of s t <> Some c) ->
  (forall t, condvar_of s' t = if decide (t = T) then Some c else condvar_of s t) ->
  (forall t, t <> T -> capacity_of s' t = capacity_of s t) ->
  condvars (world s) !! c = Some cv ->
  Z.of_nat (capacity_of s' T) <= ConditionVariable.MAX_NUMBER_OF_NOTIFIERS cv ->
  condvars_toBeDestroyed s !! c = Some false -> Inv None s'.
Proof.
  intros H Ht Hor Hw Hm Hsl Hst HT Hc Hcv Hcap Hcvs Hn Hmark. split.
  - done.
  - intros o x. rewrite Hor. intros Ho. destruct (inv_handles _ _ H _ _ Ho) as [|(c' & t & i & E & Hc')]; [by left|right].
    exists c', t, i. split; [done|]. rewrite Hcv, decide_False; [done|]. congruence.
  - intros t i o. unfold link. rewrite Hsl, Hor. apply (inv_coherent _ _ H).
  - intros o x q. unfold queue_notifies. rewrite Hor, Hw. apply (inv_queues _ _ H).
  - intros w i o x. rewrite Hst, Hor. apply (inv_states _ _ H).
  - rewrite Hor. apply (inv_distinct _ _ H).
  - intros t t' c'. rewrite !Hcv. destruct (decide (t = T)) as [->|], (decide (t' = T)) as [->|]; intros E1 E2.
    + done.
    + injection E1 as <-. by apply Hc in E2.
    + injection E2 as <-. by apply Hc in E1.
    + by eapply (inv_condvars _ _ H).
  - intros t c'. rewrite Hcv, Hw. case_decide as E; [|rewrite Hcap by done; apply (inv_notifiers _ _ H)].
    subst. intros [= <-]. eauto.
  - intros t c'. rewrite Hcv, Hm. case_decide as E; [|apply (inv_marks _ _ H)]. by intros [= <-] _.
Qed.

Lemma repository_ctor Capacity k : (k <= Capacity)%nat ->
  foldl (fun r i => snd (Stack.push Capacity (Z.of_nat i) r)) [] (seq 0 k) = reverse (Z.of_nat <$> seq 0 k).
Proof.
  induction k as [|k IH]; intros Hk; [done|]. rewrite seq_S, foldl_app, IH, fmap_app, reverse_app by lia. simpl.
  unfold Stack.push. rewrite length_reverse, length_fmap, length_seq, (proj2 (Nat.ltb_lt _ _)) by lia. done.
Qed.

Lemma waitset_ctor_ok Capacity c : Z.of_nat Capacity < 2 ^ 32 ->
  slots_ok (WaitSet.ctor Capacity c) /\ free_ok (WaitSet.ctor Capacity c) /\
  WaitSet.capacity (WaitSet.ctor Capacity c) = Capacity.
Proof.
  intros Hc. assert (Hcap : WaitSet.capacity (WaitSet.ctor Capacity c) = Capacity) by apply length_replicate.
  split; [|split; [|done]].
  - split; [by rewrite Hcap| |by split; [constructor|]]. intros i t E. simpl in E.
    apply lookup_replicate in E as [? _]. done.
  - split; simpl; rewrite repository_ctor by done.
    + rewrite reverse_Permutation. apply NoDup_fmap; [apply _|apply NoDup_seq].
    + intros i. rewrite elem_of_reverse, list_elem_of_fmap. split.
      * intros (n & -> & Hn). exists n. split; [done|]. apply lookup_replicate. apply elem_of_seq in Hn. split; [done|lia].
      * intros (n & -> & Hn). exists n. split; [done|]. apply elem_of_seq. apply lookup_replicate in Hn as [_ ?]. lia.
Qed.

Lemma acquired c n s : condvar_free c s -> condvars (world (acquire_condvar c n s)) !! c = Some (ConditionVariable.ctor n) /\
  condvars_toBeDestroyed (acquire_condvar c n s) !! c = Some false.
Proof. intros (Hc1 & Hc2 & _). simpl. by rewrite !list_lookup_insert_eq. Qed.

(** An element appended to a list of objects. *)
Lemma lookup_new {A B} (l : list (option A)) (a : A) (f : A -> B) (d : B) i :
  match (l ++ [Some a]) !! i with Some (Some x) => f x | _ => d end =
  if decide (i = length l) then f a else match l !! i with Some (Some x) => f x | _ => d end.
Proof.
  case_decide as Hi; [subst; by rewrite list_lookup_middle|].
  destruct (decide (i < length l)%nat); [by rewrite lookup_app_l|].
  rewrite (lookup_ge_None_2 l) by lia. rewrite lookup_ge_None_2; [done|]. rewrite length_app. simpl. lia.
Qed.

Lemma Inv_new_waitset Capacity c n s : Inv None s -> condvar_free c s -> (Capacity <= n)%nat -> Z.of_nat Capacity < 2 ^ 32 ->
  Inv None (waitset_new Capacity c (acquire_condvar c n s)).
Proof.
  intros H0 Hf Hn Hc. pose proof (Inv_acquire c n s H0 Hf) as H. destruct (acquired c n s Hf) as [Hcv Hm].
  assert (Hfree : forall t, condvar_of (acquire_condvar c n s) t <> Some c) by apply Hf.
  set (s1 := acquire_condvar c n s) in *. clearbody s1. destruct (waitset_ctor_ok Capacity c Hc) as (Hso & Hfo & Hcap).
  assert (Hnew : waitSets s1 !! length (waitSets s1) = None) by (by apply lookup_ge_None).
  assert (Hempty : forall i, waitset_slot (WaitSet.ctor Capacity c) i = None /\ waitset_state (WaitSet.ctor Capacity c) i = None).
  { intros i. destruct (waitset_slot (WaitSet.ctor Capacity c) i) as [o|] eqn:E.
    { apply waitset_slot_lookup in E as (m & t & _ & E & _). simpl in E. by apply lookup_replicate in E as [? _]. }
    split; [done|]. destruct (waitset_state _ _) eqn:E'; [|done]. apply state_slot_agree in E'; [congruence|done]. }
  eapply (Inv_add s1 _ (ToWaitSet (length (waitSets s1))) c); try done.
  - destruct (inv_targets _ _ H) as [HW HL]. split; [|done]. intros w y Hy. simpl in Hy.
    apply lookup_snoc_Some in Hy as [[_ Hy]|[-> [= <-]]]; eauto.
  - intros [w|l] i; [|done]. simpl. rewrite (lookup_new _ _ (fun y => waitset_slot y i)). case_decide as E; [|done].
    subst. rewrite Hnew. apply Hempty.
  - intros w i. unfold state_slot. simpl. rewrite (lookup_new _ _ (fun y => waitset_state y i)). case_decide as E; [|done].
    subst. rewrite Hnew. apply Hempty.
  - simpl. by rewrite Hnew.
  - intros [w|l]; [|by rewrite decide_False]. cbn [condvar_of waitset_new waitSets].
    rewrite (lookup_new _ _ (fun y => Some (WaitSet.m_conditionVariableDataPtr y))).
    destruct (decide (w = _)); [subst; by rewrite decide_True|]. by rewrite decide_False by congruence.
  - intros [w|l] Hne; [|done]. simpl. rewrite (lookup_new _ _ WaitSet.capacity). by rewrite decide_False by congruence.
  - cbn [capacity_of waitset_new waitSets]. rewrite (lookup_new _ _ WaitSet.capacity), decide_True, Hcap by done.
    unfold ConditionVariable.MAX_NUMBER_OF_NOTIFIERS. simpl. rewrite length_replicate. lia.
Qed.

Lemma listener_ctor_ok Capacity c x : Z.of_nat Capacity < UINT32_MAX - 1 -> Listener.ctor true Capacity c = Done x ->
  events_ok x /\ indices_ok x /\ Listener.capacity x = Capacity /\ Listener.m_conditionVariableData x = c /\
  forall i, listener_slot x i = None.
Proof.
  intros Hc E. unfold Listener.ctor, IndexManager.ctor in E.
  apply obind_Done_inv in E as (m & E & E'). apply obind_Done_inv in E as (l & El & E). injection E as <-. injection E' as <-.
  assert (Hpos : 0 < Z.of_nat Capacity).
  { unfold LoFFLi.init, expects in El. destruct (Z.ltb_spec 0 (Z.of_nat Capacity)); [done|]. done. }
  assert (Hev : forall n e, replicate Capacity Event_t.ctor !! n = Some e -> e = Event_t.ctor)
    by (intros n e Hn; by apply lookup_replicate in Hn as [-> _]).
  assert (Hcap : Listener.capacity (Listener.mk (IndexManager.mk l 0) (replicate Capacity Event_t.ctor) false c false) = Capacity)
    by apply length_replicate.
  split_and!; [split; [by rewrite Hcap|]| |done|done|].
  - intros i e He. apply Hev in He as ->. done.
  - destruct (LoFFLi.init_rep (replicate (S Capacity) 0) (Z.of_nat Capacity)) as (l' & El' & HR & Hsz);
      [lia|rewrite length_replicate; lia|]. assert (l' = l) as -> by congruence.
    exists (seqZ 0 (Z.of_nat Capacity)). rewrite Hcap. split_and!; [done|done| |].
    + rewrite length_seqZ. unfold Listener.size. simpl. lia.
    + intros i. rewrite elem_of_seqZ. split.
      * intros Hi. exists (Z.to_nat i), Event_t.ctor. split_and!; [lia| |done]. apply lookup_replicate. split; [done|lia].
      * intros (n & e & -> & Hn & _). apply lookup_replicate in Hn as [_ ?]. lia.
  - intros i. unfold listener_slot. cbv zeta. simpl. unfold aget. destruct (i <? 0); [done|].
    destruct (replicate Capacity Event_t.ctor !! Z.to_nat i) as [e|] eqn:E; [|done]. by apply Hev in E as ->.
Qed.

Lemma Inv_new_listener c n s s' : Inv None s -> condvar_free c s -> Z.of_nat n < UINT32_MAX - 1 ->
  listener_new true n c (acquire_condvar c n s) = Done s' -> Inv None s'.
Proof.
  intros H0 Hf Hc E. unfold listener_new in E. apply obind_Done_inv in E as (x & Ex & E).
  pose proof (Inv_acquire c n s H0 Hf) as H. destruct (acquired c n s Hf) as [Hcv Hm].
  assert (Hfree : forall t, condvar_of (acquire_condvar c n s) t <> Some c) by apply Hf.
  set (s1 := acquire_condvar c n s) in *. clearbody s1. injection E as <-.
  destruct (listener_ctor_ok n c x Hc Ex) as (Hev & Hix & Hcap & Hcx & Hempty).
  assert (Hnew : listeners s1 !! length (listeners s1) = None) by (by apply lookup_ge_None).
  eapply (Inv_add s1 _ (ToListener (length (listeners s1))) c); try done.
  - destruct (inv_targets _ _ H) as [HW HL]. split; [done|]. intros w y Hy. simpl in Hy.
    apply lookup_snoc_Some in Hy as [[_ Hy]|[-> [= <-]]]; eauto.
  - intros [w|l] i; [done|]. simpl. rewrite (lookup_new _ _ (fun y => listener_slot y i)). case_decide as E; [|done].
    subst. rewrite Hnew. apply Hempty.
  - simpl. by rewrite Hnew.
  - intros [w|l]; [by rewrite decide_False|]. cbn [condvar_of listeners].
    rewrite (lookup_new _ _ (fun y => Some (Listener.m_conditionVariableData y))).
    destruct (decide (l = _)); [subst; rewrite decide_True by done; congruence|]. by rewrite decide_False by congruence.
  - intros [w|l] Hne; [done|]. simpl. rewrite (lookup_new _ _ Listener.capacity). by rewrite decide_False by congruence.
  - cbn [capacity_of listeners]. rewrite (lookup_new _ _ Listener.capacity), decide_True, Hcap by done.
    unfold ConditionVariable.MAX_NUMBER_OF_NOTIFIERS. simpl. rewrite length_replicate. lia.
Qed.

(** ** Every step keeps the invariant *)

Context (hash_ok : forall e, hash_code e <> Event_t.INVALID_ID).

Lemma attachEvent_ok s w xw o x id cb : Inv None s -> waitSets s !! w = Some (Some xw) -> origins s !! o = Some (Some x) ->
  exists r s', waitset_attachEvent hash_code w o id cb s = Done (r, s') /\ Inv None s' /\
    waitset_attach_outcome s w xw o (hash_code (event_enum NoEventEnumUsed (Origin.kind x))) r s'.
Proof.
  intros H Hw Ho. unfold waitset_attachEvent. rewrite (get_eq _ _ _ Ho). cbn [obind].
  eapply waitset_attach_ok; try done. by left.
Qed.

Lemma attachState_ok s w xw o x id cb e : Inv None s -> waitSets s !! w = Some (Some xw) ->
  origins s !! o = Some (Some x) -> state_enum (Origin.kind x) = Some e ->
  exists r s', waitset_attachState hash_code w o id cb s = Done (r, s') /\ Inv None s' /\
    waitset_attach_outcome s w xw o (hash_code e) r s'.
Proof.
  intros H Hw Ho He. unfold waitset_attachState. rewrite (get_eq _ _ _ Ho). cbn [obind]. rewrite He.
  eapply waitset_attach_ok; try done. right. split; [done|]. by destruct (Origin.kind x).
Qed.

Lemma listener_condvar s l x : Inv None s -> listeners s !! l = Some (Some x) ->
  exists cv, condvars (world s) !! Listener.m_conditionVariableData x = Some cv.
Proof.
  intros H Hl. destruct (inv_notifiers _ _ H (ToListener l) (Listener.m_conditionVariableData x)) as (cv & Hcv & _);
    [simpl; by rewrite Hl|eauto].
Qed.

(** The destructor of the listener ends the program when the semaphore is at its
    maximum, and only then. *)
Lemma listener_dtor_keeps s l s' : Inv None s -> living s (ToListener l) -> listener_dtor l s = Done s' -> Inv None s'.
Proof.
  intros H (x & Hl)%living_listener E. destruct (listener_condvar s l x H Hl) as [cv Hcv].
  destruct (Z.ltb_spec (ConditionVariable.m_semaphore cv) ConditionVariable.SEM_VALUE_MAX) as [Hs|Hs].
  - destruct (listener_dtor_ok s l x cv H Hl Hcv Hs) as (s1 & E1 & H1 & _). congruence.
  - exfalso. unfold listener_dtor, listener_dtor_body in E. rewrite (get_eq _ _ _ Hl) in E. cbn [obind] in E.
    unfold destroy_post, ConditionVariable.post in E. simpl in E. rewrite Hcv in E.
    by rewrite (proj2 (Z.ltb_ge _ _)) in E by done.
Qed.

Lemma api_step_inv s s' : Inv None s -> step s s' -> Inv None s'.
Proof.
  intros H Hs. destruct Hs as [w Hw|q d Hf|k Hk|cap c Hf Hn Hc|c s' Hf Hc E|w o id cb r s' Hw [x Ho] E|w o id cb r s' Hw [x Ho] E
    |l o cb r s' Hl [x Ho] E|o s' [x Ho] E|o s' [x Ho] E|w s' Hw E|l s' Hl E|wait w s' Hw Hmax Hc E|w tr s' Hw E].
  - by apply Inv_world.
  - by apply Inv_new_queue.
  - by apply Inv_new_origin.
  - by apply Inv_new_waitset.
  - by eapply Inv_new_listener.
  - apply living_waitSet in Hw as [xw Hw]. destruct (attachEvent_ok s w xw o x id cb) as (r1 & s1 & E1 & H1 & _); congruence.
  - apply living_waitSet in Hw as [xw Hw]. destruct (state_enum (Origin.kind x)) as [e|] eqn:He.
    + destruct (attachState_ok s w xw o x id cb e) as (r1 & s1 & E1 & H1 & _); congruence.
    + unfold waitset_attachState in E. rewrite (get_eq _ _ _ Ho) in E. cbn [obind] in E. by rewrite He in E.
  - apply living_listener in Hl as [xl Hl].
    destruct (listener_attachEvent_ok hash_code s l xl o x cb) as (r1 & s1 & E1 & H1 & _); congruence || eauto.
  - destruct (disable_ok s o x) as (s1 & E1 & H1 & _); congruence.
  - destruct (origin_dtor_ok s o x) as (s1 & E1 & H1 & _); congruence.
  - apply living_waitSet in Hw as [xw Hw]. destruct (waitset_dtor_ok s w xw) as (s1 & E1 & H1 & _); congruence.
  - by eapply listener_dtor_keeps.
  - apply living_waitSet in Hw as [x Hw]. simpl in Hmax. rewrite Hw in Hmax.
    destruct (acquire_total wait MAX_NUMBER_OF_NOTIFIERS w s x H Hw Hmax Hc) as (s1 & x1 & E1 & H1 & _). congruence.
  - apply living_waitSet in Hw as [x Hw]. destruct (create_vector_ok s w x H Hw) as [E1 H1]. congruence.
Qed.

Lemma api_reachable_inv s : reachable s -> Inv None s.
Proof. induction 1; [by apply Inv_initial|by eapply api_step_inv]. Qed.

(** A callback of a listener is called with the origin of its slot. *)
Lemma executeCallback_ok run s l x id : Inv None s -> listeners s !! l = Some (Some x) ->
  0 <= id < Z.of_nat (Listener.capacity x) ->
  match slot s (ToListener l) id with
  | None => executeCallback run l id s = Done s
  | Some o => exists f c, executeCallback run l id s = run f o c s
  end.
Proof.
  intros H Hl Hid. destruct (proj2 (inv_targets _ _ H) _ _ Hl) as [Hev _].
  destruct (lookup_lt_is_Some_2 (Listener.m_events x) (Z.to_nat id)) as [e He]; [unfold Listener.capacity in Hid; lia|].
  pose proof (eo_events _ Hev _ _ He) as Hok. unfold event_ok in Hok.
  unfold executeCallback. rewrite (get_eq _ _ _ Hl). cbn [obind]. rewrite He. cbn [slot]. rewrite Hl.
  assert (Ha : aget Event_t.ctor (Listener.m_events x) id = e).
  { rewrite <- (Z2Nat.id id) by lia. by rewrite aget_nonneg, He. }
  unfold listener_slot. rewrite Ha. cbv zeta.
  destruct (Event_t.isInitialized e) eqn:Hi; [|done]. destruct Hok as (_ & o & Ho & ->). rewrite Ho.
  unfold Event_t.isInitialized in Hi. destruct (Event_t.m_callback e) as [f|]; [|by rewrite !andb_false_r in Hi].
  destruct (Event_t.m_translationCallback e) as [tr|]; [|by rewrite !andb_false_r in Hi]. eauto.
Qed.

(** ** Properties *)

(** C7: in every reachable state attachments are consistent on both sides: slot
    [i] of a living wait set or listener holds origin [o] exactly when the handle
    of [o] points to that slot; an origin is attached to at most one of them; and
    the queue of a living port notifies the condition variable of the object it is
    attached to, with the index of its slot, or none when it is detached. *)
Theorem attachments_consistent s : reachable s ->
  (forall t i o, slot s t i = Some o <-> link s o = Some (t, i)) /\
  (forall o t i, link s o = Some (t, i) -> living s t /\ living_origin s o) /\
  (forall o x q d, origins s !! o = Some (Some x) -> queue_of (Origin.kind x) = Some q ->
     queues (world s) !! q = Some d ->
     condition_of d = match link s o with
                      | Some (t, i) => (condvar_of s t, Some i)
                      | None => (None, None)
                      end).
Proof.
  intros H%api_reachable_inv. split_and!.
  - apply (inv_coherent _ _ H).
  - intros o t i Hl. pose proof Hl as Hs. apply (inv_coherent _ _ H) in Hs.
    destruct (slot_origin _ _ _ _ _ H Hs) as (x & c & Ho & Hx). split; [|by exists x].
    destruct (inv_handles _ _ H _ _ Ho) as [E|(c' & t' & i' & E & Hc)]; rewrite Hx in E; [done|].
    injection E as <- <- <-. unfold living. congruence.
  - intros o x q d Ho Hq Hd. destruct (inv_queues _ _ H _ _ _ Ho Hq) as (d' & Hd' & E).
    assert (d' = d) as -> by congruence. rewrite E. unfold link. rewrite Ho.
    destruct (inv_handles _ _ H _ _ Ho) as [->|(c & t & i & -> & Hc)]; [done|]. simpl. by rewrite Hc.
Qed.

(** The result of [WaitSet::attachEvent] in every reachable state, for a living
    wait set and origin: the call returns; the origin is already attached with this
    event, or else the wait set has no free slot, and then nothing changes; otherwise
    a free slot is taken for the origin, which is detached from where it was attached
    before, and no other origin is affected. *)
Theorem waitset_attachEvent_spec s w xw o x id cb : reachable s ->
  waitSets s !! w = Some (Some xw) -> origins s !! o = Some (Some x) ->
  exists r s', waitset_attachEvent hash_code w o id cb s = Done (r, s') /\ reachable s' /\
    let hash := hash_code (event_enum NoEventEnumUsed (Origin.kind x)) in
    match r with
    | error WaitSet.ALREADY_ATTACHED => s' = s /\ attached_as xw o 0 hash
    | error WaitSet.WAIT_SET_FULL => s' = s /\ ~ attached_as xw o 0 hash /\
        WaitSet.size xw = Z.of_nat (WaitSet.capacity xw)
    | success _ => ~ attached_as xw o 0 hash /\ exists i, 0 <= i < Z.of_nat (WaitSet.capacity xw) /\
        slot s (ToWaitSet w) i = None /\ slot s' (ToWaitSet w) i = Some o /\
        link s' o = Some (ToWaitSet w, i) /\ forall o', o' <> o -> link s' o' = link s o'
    end.
Proof.
  intros Hr Hw Ho. pose proof (api_reachable_inv s Hr) as H.
  destruct (attachEvent_ok s w xw o x id cb H Hw Ho) as (r & s' & E & H' & Hout). exists r, s'. split; [done|].
  split; [|exact Hout]. eapply reachable_step; [done|].
  eapply step_attachEvent; [|by exists x|done]. unfold living. simpl. by rewrite Hw.
Qed.

(** C16: no operation on living objects uses a destroyed one, in whatever order wait
    sets, listeners and origins are destroyed: in every reachable state detaching and
    all destructors return (the destructor of the listener when its semaphore can
    still be posted), nothing points to the destroyed object afterwards, and a
    listener calls back only with the living origin of the slot that was notified. *)
Theorem notification_lifetimes s : reachable s ->
  (forall o, living_origin s o -> exists s', disable o s = Done s' /\ reachable s' /\ link s' o = None) /\
  (forall o, living_origin s o -> exists s', origin_dtor o s = Done s' /\ reachable s' /\
     forall t i, slot s' t i <> Some o) /\
  (forall w, living s (ToWaitSet w) -> exists s', waitset_dtor w s = Done s' /\ reachable s' /\
     forall o i, link s' o <> Some (ToWaitSet w, i)) /\
  (forall l x cv, listeners s !! l = Some (Some x) ->
     condvars (world s) !! Listener.m_conditionVariableData x = Some cv ->
     ConditionVariable.m_semaphore cv < ConditionVariable.SEM_VALUE_MAX ->
     exists s', listener_dtor l s = Done s' /\ reachable s' /\ forall o i, link s' o <> Some (ToListener l, i)) /\
  (forall run l x id, listeners s !! l = Some (Some x) -> 0 <= id < Z.of_nat (Listener.capacity x) ->
     match slot s (ToListener l) id with
     | None => executeCallback run l id s = Done s
     | Some o => living_origin s o /\ exists f c, executeCallback run l id s = run f o c s
     end).
Proof.
  intros Hr. pose proof (api_reachable_inv s Hr) as H. split_and!.
  - intros o [x Ho]. destruct (disable_ok s o x H Ho) as (s' & E & H' & R). exists s'. split; [done|]. split.
    + eapply reachable_step; [done|]. eapply step_detach; [by exists x|done].
    + by destruct (relinked_link _ _ _ _ _ _ Ho R eq_refl) as [-> _].
  - intros o [x Ho]. destruct (origin_dtor_ok s o x H Ho) as (s' & E & H' & R). exists s'. split; [done|]. split.
    + eapply reachable_step; [done|]. eapply step_origin_dtor; [by exists x|done].
    + intros t i Hs. apply (inv_coherent _ _ H') in Hs. unfold link in Hs.
      by rewrite (rl_origins _ _ _ _ _ _ R), (lookup_replaced _ _ _ _ Ho) in Hs.
  - intros w Hl. pose proof Hl as Hl'. apply living_waitSet in Hl' as [x Hw].
    destruct (waitset_dtor_ok s w x H Hw) as (s' & E & H' & Hw' & _). exists s'. split; [done|]. split.
    + eapply reachable_step; [done|]. by eapply step_waitset_dtor.
    + intros o i Hlk. apply (inv_coherent _ _ H') in Hlk. simpl in Hlk. by rewrite Hw' in Hlk.
  - intros l x cv Hl Hcv Hs. destruct (listener_dtor_ok s l x cv H Hl Hcv Hs) as (s' & E & H' & Hl'). exists s'.
    split; [done|]. split.
    + eapply reachable_step; [done|]. eapply step_listener_dtor; [|done]. unfold living. simpl. by rewrite Hl.
    + intros o i Hlk. apply (inv_coherent _ _ H') in Hlk. simpl in Hlk. by rewrite Hl' in Hlk.
  - intros run l x id Hl Hid. pose proof (executeCallback_ok run s l x id H Hl Hid) as Hcall.
    destruct (slot s (ToListener l) id) as [o|] eqn:Hs; [|done]. split; [|done].
    destruct (slot_origin _ _ _ _ _ H Hs) as (y & c & Ho & _). by exists y.
Qed.

(** When the destructor of a wait set has marked its condition variable for
    RouDi, no queue of a living port points to it, so RouDi may reuse its memory. *)
Theorem waitset_condvar_released s w x : reachable s -> waitSets s !! w = Some (Some x) ->
  exists s', waitset_dtor w s = Done s' /\
    condvars_toBeDestroyed s' !! WaitSet.m_conditionVariableDataPtr x = Some true /\
    forall o y q d, origins s' !! o = Some (Some y) -> queue_of (Origin.kind y) = Some q ->
      queues (world s') !! q = Some d ->
      ChunkQueueData.m_conditionVariableDataPtr d <> Some (WaitSet.m_conditionVariableDataPtr x).
Proof.
  intros Hr Hw. pose proof (api_reachable_inv s Hr) as H.
  destruct (waitset_dtor_ok s w x H Hw) as (s' & E & H' & Hw' & Hm). exists s'. split; [done|]. split; [done|].
  intros o y q d Ho Hq Hd Hc. destruct (inv_queues _ _ H' _ _ _ Ho Hq) as (d' & Hd' & Hcd).
  assert (d' = d) as -> by congruence. unfold condition_of in Hcd. rewrite Hc in Hcd.
  destruct (inv_handles _ _ H' _ _ Ho) as [E'|(c & t & i & E' & Ht)]; rewrite E' in Hcd; [done|].
  simpl in Hcd. injection Hcd as <- _. pose proof (inv_marks _ _ H' _ _ Ht ltac:(done)). congruence.
Qed.

(** C15: what a wait returns in every reachable state: once the condition variable
    has been asked, it returns each trigger whose id was notified (now or before)
    exactly once if it is an event, or a state that persists, and no other; the ids
    of events are then consumed and the ids of states kept. *)
Theorem waitset_reports_satisfied wait s w x ids world' : reachable s -> waitSets s !! w = Some (Some x) ->
  (WaitSet.capacity x <= MAX_NUMBER_OF_NOTIFIERS)%nat ->
  wait s = Done (ids, set_world world' s) -> same_conditions (world s) world' ->
  ConditionVariable.ascending ids (Z.of_nat (WaitSet.capacity x)) ->
  exists s1 triggers s2 x2, acquireNotifications wait MAX_NUMBER_OF_NOTIFIERS w s = Done s1 /\
    createVectorWithTriggeredTriggers w s1 = Done (triggers, s2) /\ NoDup triggers /\
    (forall i, i ∈ triggers <-> (i ∈ WaitSet.m_activeNotifications x \/ i ∈ ids) /\
       exists o, slot s (ToWaitSet w) i = Some o /\ (state_slot s w i = None \/ has_data s1 o = true)) /\
    waitSets s2 !! w = Some (Some x2) /\
    (forall i, i ∈ WaitSet.m_activeNotifications x2 <->
       (i ∈ WaitSet.m_activeNotifications x \/ i ∈ ids) /\ state_slot s w i <> None).
Proof.
  intros H%api_reachable_inv Hw Hmax Hwait Hsame Hids.
  destruct (acquire_create_ok wait MAX_NUMBER_OF_NOTIFIERS w s x ids world' H Hw Hmax Hwait Hsame Hids)
    as (s1 & tr & s2 & x2 & E1 & E2 & _ & Hnd & Htr & Hx2 & Hact).
  exists s1, tr, s2, x2. unfold reports in Htr. simpl. unfold state_slot. rewrite Hw. by split_and!.
Qed.

(** *** Repeated waiting

    One wait after the other; before each the other threads may have changed the
    shared memory.  A round is what the memory is then and what
    [m_conditionListener.wait()] does. *)

Definition wait_round : Type := World * (System.t -> outcome (list Z * System.t)).

Fixpoint wait_all (rounds : list wait_round) (w : nat) (s : System.t) : outcome (list (list Z) * System.t) :=
  match rounds with
  | [] => Done ([], s)
  | (m, wait) :: rounds =>
      let* '(triggers, s) := waitAndReturnTriggeredTriggers wait MAX_NUMBER_OF_NOTIFIERS w (set_world m s) in
      let* '(results, s) := wait_all rounds w s in
      Done (triggers :: results, s)
  end.

(** The state of origin [o] persists: its queue has data whenever a wait looks at it.
    If the condition variable was notified its wait returns with sorted ids. *)
Fixpoint persists (o : nat) (rounds : list wait_round) (w : nat) (s : System.t) : Prop :=
  match rounds with
  | [] => True
  | (m, wait) :: rounds =>
      let s1 := set_world m s in
      same_conditions (world s) m /\ has_data s1 o = true /\
      (wasNotified w s1 = Done true -> exists ids world', wait s1 = Done (ids, set_world world' s1) /\
         same_conditions m world' /\ ConditionVariable.ascending ids (Z.of_nat (capacity_of s1 (ToWaitSet w))) /\
         has_data (set_world world' s1) o = true) /\
      forall triggers s', waitAndReturnTriggeredTriggers wait MAX_NUMBER_OF_NOTIFIERS w s1 = Done (triggers, s') ->
        persists o rounds w s'
  end.

Lemma waits_report i o w : forall rounds s x, Inv None s -> waitSets s !! w = Some (Some x) ->
  (WaitSet.capacity x <= MAX_NUMBER_OF_NOTIFIERS)%nat ->
  i ∈ WaitSet.m_activeNotifications x -> waitset_state x i = Some o -> persists o rounds w s ->
  exists results s', wait_all rounds w s = Done (results, s') /\ length results = length rounds /\
    Forall (fun triggers => i ∈ triggers) results.
Proof.
  induction rounds as [|[m wait] rounds IH]; intros s x H Hw Hmax Hi Hst Hp; simpl.
  { eexists _, _. by split; [|split]. }
  destruct Hp as (Hsame & Hd & Hwait & Hrest). pose proof (Inv_world _ _ _ H Hsame) as H1.
  destruct (state_again wait MAX_NUMBER_OF_NOTIFIERS w (set_world m s) x i o) as (tr & s1 & x1 & E & Htr & H2 & Hx1 & Hcap & Hi1 & Hst1 & Hd1);
    try done.
  { intros Hn. destruct (Hwait Hn) as (ids & world' & E & Hsm & Hids & Hd'). exists ids, world'. split_and!; try done.
    simpl in Hids. by rewrite Hw in Hids. }
  rewrite E. cbn [obind]. destruct (IH s1 x1) as (results & s' & -> & Hl & HF); try done; [by rewrite Hcap|by eapply Hrest|].
  cbn [obind]. eexists _, _. split; [done|]. simpl. split; [by rewrite Hl|]. by constructor.
Qed.

(** C21: a state is reported as long as it persists: once its id is active, every
    further wait returns it, whether or not other notifications arrived in between,
    which are collected without losing it; without new notifications the wait does not
    even ask the condition variable. *)
Theorem state_reported_while_it_persists rounds s w x i o : reachable s -> waitSets s !! w = Some (Some x) ->
  (WaitSet.capacity x <= MAX_NUMBER_OF_NOTIFIERS)%nat ->
  i ∈ WaitSet.m_activeNotifications x -> state_slot s w i = Some o -> persists o rounds w s ->
  exists results s', wait_all rounds w s = Done (results, s') /\ length results = length rounds /\
    Forall (fun triggers => i ∈ triggers) results.
Proof.
  intros H%api_reachable_inv Hw Hmax Hi Hst Hp. unfold state_slot in Hst. rewrite Hw in Hst. by eapply waits_report.
Qed.
End steps.
