(* ===== verification/NotificationScenarios.v ===== *)
(** * Scenarios with wait sets and listeners

    Small systems on which the theorems of NotificationSteps are applied, and the
    runs in which a wait set misses a state, reports an event that did not happen,
    and a listener gives up its condition variable too early. *)

From S2P Require Import Prelude Loffli ChunkHeader MemoryManager SharedChunk Queue VariantQueue.
From S2P Require Import ConditionVariable ChunkQueue Notifications Attachments Lifetimes Waiting NotificationSteps.
Import System.

Definition sample_hash (e : EnumType) : Z :=
  match e with
  | SubscriberEvent => 11 | SubscriberState => 12 | ClientEvent => 13 | ClientState => 14
  | ServerEvent => 15 | ServerState => 16 | NoEventEnumUsed => 17 | NoEnumUsed => 18
  end.

Lemma sample_hash_ok e : sample_hash e <> Event_t.INVALID_ID.
Proof. by destruct e. Qed.

Definition sample_callback : NotificationCallback.t := NotificationCallback.mk (Some 7%nat) None NoType.

(** A queue of four entries and two condition variables with two notifiers each. *)
Definition sample_queue : ChunkQueueData.t :=
  ChunkQueueData.ctor 1 4 QueueFullPolicy.DISCARD_OLDEST_DATA SoFi_SingleProducerSingleConsumer.

Definition sample_system : System.t :=
  System.mk (mkWorld (mkHeap [] []) [sample_queue] (replicate 2 (ConditionVariable.ctor 2))) [] [] [] [false; false] [].

Definition state_of {A} (m : outcome (A * System.t)) (s : System.t) : System.t :=
  match m with Done (_, s) => s | Terminated _ => s end.
Definition state_after (m : outcome System.t) (s : System.t) : System.t :=
  match m with Done s => s | Terminated _ => s end.

(** An entry is put into the queue and the condition variable, if any, is
    notified; the chunk itself does not matter here. *)
Definition receive (q : nat) (s : System.t) : outcome System.t :=
  let* d := get_queue q (world s) in
  let* '(_, m_queue) := returns (VariantQueue.push ShmSafeUnmanagedChunk.null (ChunkQueueData.MAX_CAPACITY d)
                                   (ChunkQueueData.m_queue d) ShmSafeUnmanagedChunk.null) in
  let* w := ChunkQueuePusher.notify q (set_queue_data q (ChunkQueueData.set_queue m_queue d) (world s)) in
  Done (set_world w s).

(** A subscriber, origin 0, and a wait set for two triggers. *)
Definition with_waitset : System.t := waitset_new 2 0 (acquire_condvar 0 2 (origin_new (Subscriber 0) sample_system)).

(** The state [HAS_DATA] of the subscriber is attached, in slot 1. *)
Definition with_state : System.t :=
  Eval vm_compute in state_of (waitset_attachState sample_hash 0 0 5 sample_callback with_waitset) with_waitset.

(** A chunk arrives. *)
Definition with_data : System.t := Eval vm_compute in state_after (receive 0 with_state) with_state.

Notation sample_reachable := (reachable sample_hash 2).

Lemma sample_system_reachable : sample_reachable sample_system.
Proof. by apply reachable_initial. Qed.

Lemma with_subscriber_reachable : sample_reachable (origin_new (Subscriber 0) sample_system).
Proof.
  eapply reachable_step; [apply sample_system_reachable|]. apply step_new_origin.
  intros q [= <-]. split; [intros o x E; by destruct o|]. by eexists.
Qed.

Lemma with_waitset_reachable : sample_reachable with_waitset.
Proof.
  eapply reachable_step; [apply with_subscriber_reachable|]. apply step_new_waitset; [|done..].
  split; [|split]; [simpl; lia..|]. intros [[|w]|[|l]]; by vm_compute.
Qed.

Lemma with_state_reachable : sample_reachable with_state.
Proof.
  eapply reachable_step; [apply with_waitset_reachable|].
  eapply (step_attachState _ _ _ 0 0 5 sample_callback (success ())); [done|by eexists|]. by vm_compute.
Qed.

Lemma with_data_reachable : sample_reachable with_data.
Proof.
  eapply reachable_step; [apply with_state_reachable|].
  change with_data with (set_world (world with_data) with_state). apply step_memory. split.
  - intros [|q] d [= <-]. by eexists.
  - intros [|[|c]] cv [= <-]; by eexists.
Qed.

Lemma attachments_consistent_witness :
  sample_reachable with_state /\ link with_state 0 = Some (ToWaitSet 0, 1) /\
  slot with_state (ToWaitSet 0) 1 = Some 0%nat.
Proof.
  split; [apply with_state_reachable|]. split; [reflexivity|].
  apply (proj1 (attachments_consistent sample_hash 2 sample_hash_ok with_state with_state_reachable)). reflexivity.
Defined.

Lemma waitset_attachEvent_spec_witness :
  sample_reachable with_state /\
  exists r s', waitset_attachEvent sample_hash 0 0 6 sample_callback with_state = Done (r, s') /\ sample_reachable s'.
Proof.
  split; [apply with_state_reachable|].
  destruct (waitset_attachEvent_spec sample_hash 2 sample_hash_ok with_state 0 _ 0 _ 6 sample_callback
              with_state_reachable eq_refl eq_refl) as (r & s' & E & Hr & _).
  exact (ex_intro _ r (ex_intro _ s' (conj E Hr))).
Defined.

Lemma notification_lifetimes_witness :
  sample_reachable with_state /\
  exists s', waitset_dtor 0 with_state = Done s' /\ sample_reachable s' /\ forall o i, link s' o <> Some (ToWaitSet 0, i).
Proof.
  split; [apply with_state_reachable|].
  destruct (notification_lifetimes sample_hash 2 sample_hash_ok with_state with_state_reachable) as (_ & _ & Hw & _).
  apply Hw. done.
Defined.

Lemma waitset_condvar_released_witness :
  sample_reachable with_state /\ exists s', waitset_dtor 0 with_state = Done s' /\
    condvars_toBeDestroyed s' !! 0%nat = Some true.
Proof.
  split; [apply with_state_reachable|].
  destruct (waitset_condvar_released sample_hash 2 sample_hash_ok with_state 0 _ with_state_reachable eq_refl)
    as (s' & E & Hm & _).
  exact (ex_intro _ s' (conj E Hm)).
Defined.

(** The wait set collected id 1 and found the state satisfied. *)
Definition with_active : System.t :=
  Eval vm_compute in state_of (waitAndReturnTriggeredTriggers (timedWait_alone 0) 2 0 with_data) with_data.

Definition sample_world_after_wait : World :=
  Eval vm_compute in world (state_of (timedWait_alone 0 with_data) with_data).

Lemma sample_wait : timedWait_alone 0 with_data = Done ([1], set_world sample_world_after_wait with_data) /\
  same_conditions (world with_data) sample_world_after_wait.
Proof.
  split; [by vm_compute|]. split.
  - intros [|q] d [= <-]. by eexists.
  - intros [|[|c]] cv [= <-]; by eexists.
Qed.

Lemma waitset_reports_satisfied_witness :
  exists s1 triggers s2, acquireNotifications (timedWait_alone 0) 2 0 with_data = Done s1 /\
    createVectorWithTriggeredTriggers 0 s1 = Done (triggers, s2) /\ NoDup triggers.
Proof.
  destruct (waitset_reports_satisfied sample_hash 2 sample_hash_ok (timedWait_alone 0) with_data 0 _ [1]
              sample_world_after_wait with_data_reachable eq_refl (le_n 2) (proj1 sample_wait)
              (proj2 sample_wait))
    as (s1 & tr & s2 & x2 & E1 & E2 & Hn & _).
  - split; [repeat constructor|]. apply Forall_singleton. split; by vm_compute.
  - exact (ex_intro _ s1 (ex_intro _ tr (ex_intro _ s2 (conj E1 (conj E2 Hn))))).
Defined.

Definition with_acquired : System.t :=
  Eval vm_compute in state_after (acquireNotifications (timedWait_alone 0) 2 0 with_data) with_data.

Lemma with_active_reachable : sample_reachable with_active.
Proof.
  eapply reachable_step; [eapply (reachable_step _ _ _ with_acquired); [apply with_data_reachable|]|].
  - eapply (step_acquire _ _ _ (timedWait_alone 0) 0); [done|apply (le_n 2)| |by vm_compute].
    exists [1], sample_world_after_wait. split_and!; try apply sample_wait.
    split; [repeat constructor|]. apply Forall_singleton. split; by vm_compute.
  - apply (step_create _ _ _ 0 [1]); [done|by vm_compute].
Qed.

(** Then id 0 is notified, of which the wait set knows nothing. *)
Definition disturbed_world : World :=
  Eval vm_compute in
    match condvars (world with_active) !! 0%nat with
    | Some cv => match ConditionVariable.notify 0 cv with
                 | Done cv => set_condvar 0 cv (world with_active)
                 | Terminated _ => world with_active
                 end
    | None => world with_active
    end.

Definition with_disturbed : System.t := set_world disturbed_world with_active.

Definition quiet_world : World := Eval vm_compute in world (state_of (timedWait_alone 0 with_disturbed) with_disturbed).

(** The first wait finds the new notification, the second finds none and must not ask
    the condition variable, which would not return. *)
Definition sample_rounds : list wait_round :=
  [(disturbed_world, timedWait_alone 0); (quiet_world, fun _ => Terminated DOES_NOT_RETURN)].

Lemma sample_same_conditions w : w = disturbed_world \/ w = quiet_world ->
  same_conditions (world with_active) w /\ same_conditions disturbed_world w /\ same_conditions quiet_world w.
Proof.
  intros [->| ->]; split_and!; (split; [intros [|q] d [= <-]; by eexists|intros [|[|c]] cv [= <-]; by eexists]).
Qed.

Lemma sample_persists : persists 2 0 sample_rounds 0 with_active.
Proof.
  split; [by apply sample_same_conditions; left|]. split; [reflexivity|]. split.
  - intros _. exists [0], quiet_world. split; [vm_compute; reflexivity|].
    split; [apply sample_same_conditions; by right|]. split; [|reflexivity].
    split; [repeat constructor|]. apply Forall_singleton. split; by vm_compute.
  - intros triggers s' E. vm_compute in E. injection E as _ <-.
    split; [apply (sample_same_conditions quiet_world); by right|]. split; [reflexivity|]. split; [|done].
    intros Hn. exfalso. vm_compute in Hn. discriminate Hn.
Qed.

Lemma state_reported_while_it_persists_witness :
  exists results s', wait_all 2 sample_rounds 0 with_active = Done (results, s') /\ length results = 2%nat /\
    Forall (fun triggers => 1 ∈ triggers) results.
Proof.
  apply (state_reported_while_it_persists sample_hash 2 sample_hash_ok sample_rounds with_active 0 _ 1 0
           with_active_reachable eq_refl (le_n 2)).
  - vm_compute. left.
  - reflexivity.
  - exact sample_persists.
Defined.

(** ** Where the code does something else *)

(** A chunk arrives before the state is attached: the state holds, but the wait
    set returns nothing. *)
Definition late_state : outcome (list Z * System.t) :=
  let* s := receive 0 with_waitset in
  let* '(_, s) := waitset_attachState sample_hash 0 0 5 sample_callback s in
  waitAndReturnTriggeredTriggers (timedWait_alone 0) 2 0 s.

(** A state that already holds when it is attached is not reported: no notification
    of it is pending, and [attachState] does not create one. *)
Theorem late_state_not_reported :
  exists s, late_state = Done ([], s) /\ has_data s 0 = true /\ state_slot s 0 1 = Some 0%nat.
Proof. eexists. split; [vm_compute; reflexivity|]. split; vm_compute; reflexivity. Qed.

(** User trigger 1 fires, is detached, and user trigger 2 is attached. *)
Definition stale_event : outcome (list Z * System.t) :=
  let s := origin_new UserTrigger (origin_new UserTrigger with_waitset) in
  let* '(_, s) := waitset_attachEvent sample_hash 0 1 5 sample_callback s in
  let* s := trigger 1 s in
  let* s := disable 1 s in
  let* '(_, s) := waitset_attachEvent sample_hash 0 2 6 sample_callback s in
  waitAndReturnTriggeredTriggers (timedWait_alone 0) 2 0 s.

(** The notification of a detached event is reported as one of the event that took
    its slot: trigger 2 is reported and was never triggered. *)
Theorem detached_event_reported_for_another :
  exists s, stale_event = Done ([1], s) /\ slot s (ToWaitSet 0) 1 = Some 2%nat.
Proof. eexists. split; vm_compute; reflexivity. Qed.

(** A subscriber attached to a listener whose destructor has run its body. *)
Definition listener_leaving : outcome System.t :=
  let* s := listener_new true 2 1 (acquire_condvar 1 2 (origin_new (Subscriber 0) sample_system)) in
  let* '(_, s) := listener_attachEvent sample_hash 0 0 sample_callback s in
  listener_dtor_body 0 s.

(** The destructor of the listener marks its condition variable for RouDi while the
    queue of an attached port still points to it; the wait set detaches first. *)
Theorem listener_condvar_released_early :
  exists s d, listener_leaving = Done s /\ condvars_toBeDestroyed s !! 1%nat = Some true /\
    queues (world s) !! 0%nat = Some d /\ ChunkQueueData.m_conditionVariableDataPtr d = Some 1%nat.
Proof. eexists _, _. split; [vm_compute; reflexivity|]. split_and!; reflexivity. Qed.
