(* ===== verification/Duration.v ===== *)
(** * [units::Duration] and [cxx::DeadlineTimer]

    hoofs [internal/units/duration.hpp], [duration.inl], [units/duration.cpp] and
    [cxx/deadline_timer.cpp].  A duration is a number of seconds (64 bit) and of
    nanoseconds (32 bit).  The specification is a natural number of nanoseconds
    that saturates at both ends: [clamp].  Multiplication with floating point
    numbers is not modelled. *)

From S2P Require Import Prelude.

(** ** Data and operations *)

Module Duration.

Definition SECS_PER_MINUTE : Z := 60.
Definition SECS_PER_HOUR : Z := 3600.
Definition HOURS_PER_DAY : Z := 24.
Definition MILLISECS_PER_SEC : Z := 1000.
Definition MICROSECS_PER_SEC : Z := u32 (MILLISECS_PER_SEC * 1000).
Definition NANOSECS_PER_MICROSEC : Z := 1000.
Definition NANOSECS_PER_MILLISEC : Z := u32 (NANOSECS_PER_MICROSEC * 1000).
Definition NANOSECS_PER_SEC : Z := u32 (NANOSECS_PER_MILLISEC * 1000).

Record t := mk { m_seconds : Z; m_nanoseconds : Z }.

Definition create (seconds nanoseconds : Z) : t :=
  if NANOSECS_PER_SEC <=? nanoseconds then
    let additionalSeconds := nanoseconds / NANOSECS_PER_SEC in
    if UINT64_MAX - additionalSeconds <? seconds then
      mk UINT64_MAX (u32 (NANOSECS_PER_SEC - 1))
    else mk (u64 (seconds + additionalSeconds)) (nanoseconds mod NANOSECS_PER_SEC)
  else mk seconds nanoseconds.

Definition createDuration (seconds nanoseconds : Z) : t := create seconds nanoseconds.

Definition max : t := create UINT64_MAX (u32 (NANOSECS_PER_SEC - 1)).
Definition zero : t := create 0 0.

(** The values of integers [T] are between [-2^63] and [2^64 - 1]. *)
Definition positiveValueOrClampToZero (value : Z) : Z :=
  if value <? 0 then 0 else u64 value.

Definition fromNanoseconds (value : Z) : t :=
  let clampedValue := positiveValueOrClampToZero value in
  let seconds := u64 (clampedValue / NANOSECS_PER_SEC) in
  let nanoseconds := u32 (clampedValue mod NANOSECS_PER_SEC) in
  create seconds nanoseconds.

Definition fromMicroseconds (value : Z) : t :=
  let clampedValue := positiveValueOrClampToZero value in
  let seconds := u64 (clampedValue / MICROSECS_PER_SEC) in
  let nanoseconds :=
    u32 (u64 (clampedValue mod MICROSECS_PER_SEC * NANOSECS_PER_MICROSEC)) in
  create seconds nanoseconds.

Definition fromMilliseconds (value : Z) : t :=
  let clampedValue := positiveValueOrClampToZero value in
  let seconds := u64 (clampedValue / MILLISECS_PER_SEC) in
  let nanoseconds :=
    u32 (u64 (clampedValue mod MILLISECS_PER_SEC * NANOSECS_PER_MILLISEC)) in
  create seconds nanoseconds.

Definition fromSeconds (value : Z) : t :=
  let clampedValue := positiveValueOrClampToZero value in
  let MAX_SECONDS_BEFORE_OVERFLOW := UINT64_MAX in
  if MAX_SECONDS_BEFORE_OVERFLOW <? clampedValue then max
  else create (u64 clampedValue) 0.

Definition fromMinutes (value : Z) : t :=
  let clampedValue := positiveValueOrClampToZero value in
  let MAX_MINUTES_BEFORE_OVERFLOW := UINT64_MAX / SECS_PER_MINUTE in
  if MAX_MINUTES_BEFORE_OVERFLOW <? clampedValue then max
  else create (u64 (clampedValue * SECS_PER_MINUTE)) 0.

Definition fromHours (value : Z) : t :=
  let clampedValue := positiveValueOrClampToZero value in
  let MAX_HOURS_BEFORE_OVERFLOW := UINT64_MAX / SECS_PER_HOUR in
  if MAX_HOURS_BEFORE_OVERFLOW <? clampedValue then max
  else create (u64 (clampedValue * SECS_PER_HOUR)) 0.

Definition fromDays (value : Z) : t :=
  let clampedValue := positiveValueOrClampToZero value in
  let SECS_PER_DAY := u32 (HOURS_PER_DAY * SECS_PER_HOUR) in
  let MAX_DAYS_BEFORE_OVERFLOW := UINT64_MAX / SECS_PER_DAY in
  if MAX_DAYS_BEFORE_OVERFLOW <? clampedValue then max
  else create (u64 (clampedValue * SECS_PER_DAY)) 0.

(** [struct timeval], [struct timespec] and [struct itimerspec]: all members are
    signed 64 bit integers. *)
Record timeval := { tv_sec : Z; tv_usec : Z }.
Record timespec := { ts_sec : Z; ts_nsec : Z }.
Record itimerspec := { it_interval : timespec; it_value : timespec }.

Definition of_timeval (value : timeval) : t :=
  create (u64 (tv_sec value)) (u32 (u32 (tv_usec value) * NANOSECS_PER_MICROSEC)).

Definition of_timespec (value : timespec) : t :=
  create (u64 (ts_sec value)) (u32 (ts_nsec value)).

Definition of_itimerspec (value : itimerspec) : t := of_timespec (it_interval value).

(** [std::chrono::milliseconds] and [nanoseconds] are their [count()]. *)
Definition of_chrono_milliseconds (value : Z) : t := fromMilliseconds value.
Definition of_chrono_nanoseconds (value : Z) : t := fromNanoseconds value.
Definition assign_chrono_milliseconds (self : t) (rhs : Z) : t := of_chrono_milliseconds rhs.

(** *** Comparisons *)

Definition eqb (a b : t) : bool :=
  (m_seconds a =? m_seconds b) && (m_nanoseconds a =? m_nanoseconds b).
Definition neb (a b : t) : bool := negb (eqb a b).
Definition ltb (a b : t) : bool :=
  (m_seconds a <? m_seconds b)
  || (m_seconds a =? m_seconds b) && (m_nanoseconds a <? m_nanoseconds b).
Definition gtb (a b : t) : bool :=
  (m_seconds b <? m_seconds a)
  || (m_seconds a =? m_seconds b) && (m_nanoseconds b <? m_nanoseconds a).
Definition leb (a b : t) : bool := negb (gtb a b).
Definition geb (a b : t) : bool := negb (ltb a b).

(** *** Conversions *)

Definition toNanoseconds (d : t) : Z :=
  let MAX_SECONDS_BEFORE_OVERFLOW := UINT64_MAX / NANOSECS_PER_SEC in
  let MAX_NANOSECONDS_BEFORE_OVERFLOW := UINT64_MAX mod NANOSECS_PER_SEC in
  let MAX_DURATION_BEFORE_OVERFLOW :=
    createDuration MAX_SECONDS_BEFORE_OVERFLOW MAX_NANOSECONDS_BEFORE_OVERFLOW in
  if gtb d MAX_DURATION_BEFORE_OVERFLOW then UINT64_MAX
  else u64 (u64 (m_seconds d * NANOSECS_PER_SEC) + m_nanoseconds d).

Definition toMicroseconds (d : t) : Z :=
  let MAX_SECONDS_BEFORE_OVERFLOW := UINT64_MAX / MICROSECS_PER_SEC in
  let MAX_NANOSECONDS_BEFORE_OVERFLOW :=
    UINT64_MAX mod MICROSECS_PER_SEC * NANOSECS_PER_MICROSEC in
  let MAX_DURATION_BEFORE_OVERFLOW :=
    createDuration MAX_SECONDS_BEFORE_OVERFLOW MAX_NANOSECONDS_BEFORE_OVERFLOW in
  if gtb d MAX_DURATION_BEFORE_OVERFLOW then UINT64_MAX
  else u64 (u64 (m_seconds d * MICROSECS_PER_SEC) + m_nanoseconds d / NANOSECS_PER_MICROSEC).

Definition toMilliseconds (d : t) : Z :=
  let MAX_SECONDS_BEFORE_OVERFLOW := UINT64_MAX / MILLISECS_PER_SEC in
  let MAX_NANOSECONDS_BEFORE_OVERFLOW :=
    UINT64_MAX mod MILLISECS_PER_SEC * NANOSECS_PER_MILLISEC in
  let MAX_DURATION_BEFORE_OVERFLOW :=
    createDuration MAX_SECONDS_BEFORE_OVERFLOW MAX_NANOSECONDS_BEFORE_OVERFLOW in
  if gtb d MAX_DURATION_BEFORE_OVERFLOW then UINT64_MAX
  else u64 (u64 (m_seconds d * MILLISECS_PER_SEC) + m_nanoseconds d / NANOSECS_PER_MILLISEC).

Definition toSeconds (d : t) : Z := m_seconds d.
Definition toMinutes (d : t) : Z := m_seconds d / SECS_PER_MINUTE.
Definition toHours (d : t) : Z := m_seconds d / SECS_PER_HOUR.
Definition toDays (d : t) : Z := m_seconds d / u32 (HOURS_PER_DAY * SECS_PER_HOUR).

(** [std::numeric_limits<time_t>::max()]. *)
Definition TIME_T_MAX : Z := 2 ^ 63 - 1.

Definition to_timeval (d : t) : timeval :=
  if TIME_T_MAX <? m_seconds d then
    {| tv_sec := TIME_T_MAX; tv_usec := u32 (MICROSECS_PER_SEC - 1) |}
  else {| tv_sec := i64 (m_seconds d); tv_usec := m_nanoseconds d / NANOSECS_PER_MICROSEC |}.

(** *** Arithmetic *)

Definition add (self rhs : t) : t :=
  let seconds := u64 (m_seconds self + m_seconds rhs) in
  let nanoseconds := u32 (m_nanoseconds self + m_nanoseconds rhs) in
  let '(seconds, nanoseconds) :=
    if NANOSECS_PER_SEC <=? nanoseconds
    then (u64 (seconds + 1), u32 (nanoseconds - NANOSECS_PER_SEC))
    else (seconds, nanoseconds) in
  let sum := create seconds nanoseconds in
  if ltb sum self then max else sum.

Definition sub (self rhs : t) : t :=
  if ltb self rhs then zero
  else
    let seconds := u64 (m_seconds self - m_seconds rhs) in
    if m_nanoseconds rhs <=? m_nanoseconds self
    then create seconds (u32 (m_nanoseconds self - m_nanoseconds rhs))
    else
      let nanoseconds :=
        u32 (u32 (NANOSECS_PER_SEC - m_nanoseconds rhs) + m_nanoseconds self) in
      create (u64 (seconds - 1)) nanoseconds.

Definition multiplyWith (self : t) (rhs : Z) : t :=
  let multiplicator := u64 rhs in
  let maxBeforeOverflow := UINT64_MAX / multiplicator in
  if maxBeforeOverflow <? m_seconds self then max
  else
    let durationFromSeconds := create (u64 (m_seconds self * multiplicator)) 0 in
    if m_nanoseconds self <=? maxBeforeOverflow then
      add durationFromSeconds (fromNanoseconds (u64 (m_nanoseconds self * multiplicator)))
    else
      let multiplicatorLow := u32 multiplicator in
      let durationFromNanosecondsLow :=
        fromNanoseconds (u64 (m_nanoseconds self * multiplicatorLow)) in
      let LEAST_COMMON_MULTIPLE := 8388608000000000 in
      let ONE_FULL_BLOCK_OF_SECONDS_ONLY := Z.shiftr LEAST_COMMON_MULTIPLE 32 in
      let SECONDS_PER_FULL_BLOCK := LEAST_COMMON_MULTIPLE / NANOSECS_PER_SEC in
      let multiplicatorHigh := u32 (Z.shiftr multiplicator 32) in
      let nanosecondsFromHigh := u64 (m_nanoseconds self * multiplicatorHigh) in
      let fullBlocksOfSecondsOnly := nanosecondsFromHigh / ONE_FULL_BLOCK_OF_SECONDS_ONLY in
      let remainingBlockWithFullAndFractionalSeconds :=
        nanosecondsFromHigh mod ONE_FULL_BLOCK_OF_SECONDS_ONLY in
      let durationFromNanosecondsHigh :=
        add (create (u64 (fullBlocksOfSecondsOnly * SECONDS_PER_FULL_BLOCK)) 0)
            (fromNanoseconds (u64 (Z.shiftl remainingBlockWithFullAndFractionalSeconds 32))) in
      add (add durationFromSeconds durationFromNanosecondsLow) durationFromNanosecondsHigh.

Definition mul (self : t) (rhs : Z) : t :=
  if (rhs <=? 0) || eqb self zero then zero else multiplyWith self rhs.

(** [operator*(lhs, rhs)] with the number on the left. *)
Definition mul_l (lhs : Z) (rhs : t) : t := mul rhs lhs.

(** *** Absolute times

    [clock] is the result of [clock_gettime] for the two clocks, [None] where the
    call fails. *)

Inductive TimeSpecReference := TSR_None | Epoch | Monotonic.

Definition to_timespec_sec (d : t) : timespec :=
  if TIME_T_MAX <? m_seconds d then
    {| ts_sec := TIME_T_MAX; ts_nsec := u32 (NANOSECS_PER_SEC - 1) |}
  else {| ts_sec := i64 (m_seconds d); ts_nsec := m_nanoseconds d |}.

Definition to_timespec (clock : TimeSpecReference -> option timespec) (d : t)
    (reference : TimeSpecReference) : timespec :=
  match reference with
  | TSR_None => to_timespec_sec d
  | _ =>
    match clock reference with
    | None => {| ts_sec := 0; ts_nsec := 0 |}
    | Some referenceTime => to_timespec_sec (add (of_timespec referenceTime) d)
    end
  end.

End Duration.

(** ** The deadline timer

    [now] is [steady_clock::now().time_since_epoch()] in nanoseconds. *)

Module DeadlineTimer.
Import Duration.

Record t := mk { m_timeToWait : Duration.t; m_endTime : Duration.t }.

Definition getCurrentMonotonicTime (now : Z) : Duration.t := of_chrono_nanoseconds now.

Definition create (now : Z) (timeToWait : Duration.t) : t :=
  mk timeToWait (add (getCurrentMonotonicTime now) timeToWait).

Definition hasExpired (now : Z) (self : t) : bool :=
  geb (getCurrentMonotonicTime now) (m_endTime self).

Definition reset (now : Z) (self : t) : t :=
  mk (m_timeToWait self) (add (getCurrentMonotonicTime now) (m_timeToWait self)).

Definition reset_to (now : Z) (self : t) (timeToWait : Duration.t) : t :=
  reset now (mk timeToWait (m_endTime self)).

Definition remainingTime (now : Z) (self : t) : Duration.t :=
  let currentTime := getCurrentMonotonicTime now in
  if gtb (m_endTime self) currentTime then sub (m_endTime self) currentTime
  else of_chrono_milliseconds 0.

End DeadlineTimer.

(** ** Specification: saturating numbers of nanoseconds *)

Module DurationSpec.
Import Duration.

Definition ns (d : t) : Z := m_seconds d * 1000000000 + m_nanoseconds d.

Definition MAX_NS : Z := 2 ^ 64 * 1000000000 - 1.

(** What the type promises: the nanoseconds are less than a second. *)
Definition wf (d : t) : Prop :=
  0 <= m_seconds d <= UINT64_MAX /\ 0 <= m_nanoseconds d < 1000000000.

(** The duration that stands for [n] nanoseconds, with saturation. *)
Definition clamp (n : Z) : t :=
  let n := Z.max 0 (Z.min n MAX_NS) in mk (n / 1000000000) (n mod 1000000000).

(** [d] is the normalised representation of [n], which is in range. *)
Definition denotes (d : t) (n : Z) : Prop := wf d /\ ns d = n.

Ltac consts :=
  change NANOSECS_PER_SEC with 1000000000 in *;
  change MICROSECS_PER_SEC with 1000000 in *;
  change MILLISECS_PER_SEC with 1000 in *;
  change NANOSECS_PER_MICROSEC with 1000 in *;
  change NANOSECS_PER_MILLISEC with 1000000 in *;
  change SECS_PER_MINUTE with 60 in *;
  change SECS_PER_HOUR with 3600 in *;
  change (u32 (HOURS_PER_DAY * 3600)) with 86400 in *;
  change (u32 (1000000000 - 1)) with 999999999 in *;
  change (u32 (1000000 - 1)) with 999999 in *;
  change UINT64_MAX with (2 ^ 64 - 1) in *;
  change TIME_T_MAX with (2 ^ 63 - 1) in *;
  change MAX_NS with (2 ^ 64 * 1000000000 - 1) in *.

Ltac arith := Z.div_mod_to_equations; lia.

Lemma denotes_range d n : denotes d n -> 0 <= n <= MAX_NS.
Proof. destruct d as [s n']. unfold denotes, wf, ns. cbn. consts. lia. Qed.

Lemma denotes_ns d : wf d -> denotes d (ns d).
Proof. done. Qed.

(** The representation is unique. *)
Lemma denotes_inj d d' n : denotes d n -> denotes d' n -> d = d'.
Proof.
  destruct d as [s a], d' as [s' a']. unfold denotes, wf, ns. cbn. intros [? ?] [? ?].
  f_equal; lia.
Qed.

Lemma clamp_denotes n : denotes (clamp n) (Z.max 0 (Z.min n MAX_NS)).
Proof.
  unfold clamp, denotes, wf, ns. cbn [m_seconds m_nanoseconds]. consts.
  set (k := Z.max 0 _). assert (0 <= k <= 2 ^ 64 * 1000000000 - 1) by (unfold k; lia).
  clearbody k. split; [split|]; arith.
Qed.

Lemma denotes_clamp d n : denotes d (Z.max 0 (Z.min n MAX_NS)) -> d = clamp n.
Proof. intros H. eapply denotes_inj; [exact H | apply clamp_denotes]. Qed.

Lemma denotes_clamp_small d n : denotes d n -> d = clamp n.
Proof.
  intros H. apply denotes_clamp. pose proof (denotes_range _ _ H).
  by replace (Z.max 0 (Z.min n MAX_NS)) with n by lia.
Qed.

Lemma clamp_wf n : wf (clamp n).
Proof. apply clamp_denotes. Qed.

Lemma denotes_mk s n : 0 <= s <= UINT64_MAX -> 0 <= n < 1000000000 ->
  denotes (mk s n) (s * 1000000000 + n).
Proof. done. Qed.

(** The constructor carries full seconds over, and saturates. *)
Lemma create_denotes s n : 0 <= s <= UINT64_MAX -> 0 <= n <= UINT32_MAX ->
  denotes (create s n) (Z.min (s * 1000000000 + n) MAX_NS).
Proof.
  intros Hs Hn. unfold create. consts. change UINT32_MAX with (2 ^ 32 - 1) in Hn.
  unfold denotes, wf, ns.
  case_match eqn:E; [case_match eqn:E'|]; cbn [m_seconds m_nanoseconds];
    rewrite ?Z.leb_le, ?Z.leb_gt, ?Z.ltb_lt, ?Z.ltb_ge in *;
    rewrite ?u64_small by arith; consts; (split; [split|]); arith.
Qed.

Lemma create_small s n : 0 <= s <= UINT64_MAX -> 0 <= n < 1000000000 -> create s n = mk s n.
Proof.
  intros. unfold create. consts.
  destruct (Z.leb_spec 1000000000 n); [lia|done].
Qed.

Lemma max_denotes : denotes max MAX_NS.
Proof. done. Qed.

Lemma zero_denotes : denotes zero 0.
Proof. done. Qed.

Lemma max_clamp n : MAX_NS <= n -> max = clamp n.
Proof.
  intros. apply denotes_clamp. replace (Z.max 0 _) with MAX_NS; [apply max_denotes|].
  revert H. consts. lia.
Qed.

Lemma clamped_range v : v < 2 ^ 64 -> positiveValueOrClampToZero v = Z.max 0 v.
Proof.
  intros. unfold positiveValueOrClampToZero.
  destruct (Z.ltb_spec v 0); [lia|]. rewrite u64_small; lia.
Qed.

(** Creation from nanoseconds, micro- and milliseconds is exact. *)
Lemma fromNanoseconds_denotes v : v < 2 ^ 64 -> denotes (fromNanoseconds v) (Z.max 0 v).
Proof.
  intros. unfold fromNanoseconds. rewrite clamped_range by done. set (w := Z.max 0 v).
  assert (0 <= w < 2 ^ 64) by (unfold w; lia). clearbody w. consts.
  rewrite u64_small, u32_small by arith.
  rewrite create_small by (consts; arith). unfold denotes, wf, ns. cbn. consts.
  repeat split; arith.
Qed.

Ltac exact_ctor :=
  consts; rewrite ?u64_small by arith; rewrite ?u32_small by arith;
  rewrite create_small by (consts; arith); unfold denotes, wf, ns; cbn; consts;
  repeat split; arith.

Lemma fromMicroseconds_denotes v : v < 2 ^ 64 ->
  denotes (fromMicroseconds v) (Z.max 0 v * 1000).
Proof.
  intros. unfold fromMicroseconds. rewrite clamped_range by done. set (w := Z.max 0 v).
  assert (0 <= w < 2 ^ 64) by (unfold w; lia). clearbody w. exact_ctor.
Qed.

Lemma fromMilliseconds_denotes v : v < 2 ^ 64 ->
  denotes (fromMilliseconds v) (Z.max 0 v * 1000000).
Proof.
  intros. unfold fromMilliseconds. rewrite clamped_range by done. set (w := Z.max 0 v).
  assert (0 <= w < 2 ^ 64) by (unfold w; lia). clearbody w. exact_ctor.
Qed.

(** Larger units saturate: [k] seconds per unit. *)
Lemma from_units v k : 0 < k < 2 ^ 32 -> v < 2 ^ 64 ->
  (if UINT64_MAX / k <? Z.max 0 v then max else create (u64 (Z.max 0 v * k)) 0)
  = clamp (v * k * 1000000000).
Proof.
  intros Hk Hv. consts. destruct (Z.ltb_spec ((2 ^ 64 - 1) / k) (Z.max 0 v)) as [H|H].
  - apply max_clamp. consts.
    assert (2 ^ 64 - 1 < v * k); [|lia].
    assert (0 < v) by (pose proof (Z.div_pos (2 ^ 64 - 1) k); lia).
    assert ((2 ^ 64 - 1) / k < v) as H' by lia.
    pose proof (Z.mul_succ_div_gt (2 ^ 64 - 1) k). nia.
  - assert (0 <= Z.max 0 v * k <= 2 ^ 64 - 1) as Hr.
    { pose proof (Z.mul_div_le (2 ^ 64 - 1) k). nia. }
    rewrite u64_small, create_small by (consts; lia). apply denotes_clamp.
    replace (Z.max 0 (Z.min _ _)) with (Z.max 0 v * k * 1000000000 + 0) by (consts; nia).
    apply denotes_mk; consts; lia.
Qed.

Lemma fromSeconds_clamp v : v < 2 ^ 64 -> fromSeconds v = clamp (v * 1000000000).
Proof.
  intros. unfold fromSeconds. rewrite clamped_range by done.
  destruct (Z.ltb_spec UINT64_MAX (Z.max 0 v)); [consts; lia|].
  rewrite u64_small, create_small by (consts; lia). apply denotes_clamp.
  replace (Z.max 0 (Z.min _ _)) with (Z.max 0 v * 1000000000 + 0) by (consts; lia).
  apply denotes_mk; consts; lia.
Qed.

Lemma fromMinutes_clamp v : v < 2 ^ 64 -> fromMinutes v = clamp (v * 60 * 1000000000).
Proof.
  intros. unfold fromMinutes. rewrite clamped_range by done. by apply from_units.
Qed.

Lemma fromHours_clamp v : v < 2 ^ 64 -> fromHours v = clamp (v * 3600 * 1000000000).
Proof.
  intros. unfold fromHours. rewrite clamped_range by done. by apply from_units.
Qed.

Lemma fromDays_clamp v : v < 2 ^ 64 -> fromDays v = clamp (v * 86400 * 1000000000).
Proof.
  intros. unfold fromDays. rewrite clamped_range by done. by apply from_units.
Qed.

(** Comparisons compare the numbers of nanoseconds. *)
Lemma ltb_spec a b : wf a -> wf b -> ltb a b = (ns a <? ns b).
Proof.
  destruct a as [s n], b as [s' n']. unfold wf, ltb, ns. cbn. intros.
  repeat case_zb; cbn; try done; lia.
Qed.

Lemma gtb_ltb a b : gtb a b = ltb b a.
Proof. unfold gtb, ltb. by rewrite Z.eqb_sym. Qed.

Lemma gtb_spec a b : wf a -> wf b -> gtb a b = (ns b <? ns a).
Proof. rewrite gtb_ltb. eauto using ltb_spec. Qed.

Lemma eqb_spec a b : wf a -> wf b -> eqb a b = (ns a =? ns b).
Proof.
  destruct a as [s n], b as [s' n']. unfold wf, eqb, ns. cbn. intros.
  repeat case_zb; cbn; try done; lia.
Qed.

Lemma leb_spec a b : wf a -> wf b -> leb a b = (ns a <=? ns b).
Proof. intros. unfold leb. rewrite gtb_spec by done. symmetry. apply Z.leb_antisym. Qed.

Lemma geb_spec a b : wf a -> wf b -> geb a b = (ns b <=? ns a).
Proof. intros. unfold geb. rewrite ltb_spec by done. symmetry. apply Z.leb_antisym. Qed.

(** Addition: the wrap around of the seconds is noticed in every case. *)
Lemma add_denotes a b x y : denotes a x -> denotes b y ->
  denotes (add a b) (Z.min (x + y) MAX_NS).
Proof.
  destruct a as [s n], b as [s' n']. unfold denotes, wf, ns. cbn. consts.
  intros [[? ?] <-] [[? ?] <-].
  assert (forall seconds nanoseconds, 0 <= seconds < 2 ^ 64 -> 0 <= nanoseconds < 1000000000 ->
     (seconds * 1000000000 + nanoseconds = s * 1000000000 + n + (s' * 1000000000 + n') \/
      seconds * 1000000000 + nanoseconds = s * 1000000000 + n + (s' * 1000000000 + n')
         - 2 ^ 64 * 1000000000) ->
     let sum := create seconds nanoseconds in
     denotes (if ltb sum (mk s n) then max else sum)
        (Z.min (s * 1000000000 + n + (s' * 1000000000 + n')) MAX_NS)) as Hsum.
  { intros sec nan Hsec Hnan Hor. cbn zeta. rewrite create_small by (consts; lia).
    rewrite ltb_spec by (unfold wf; cbn; consts; lia). unfold ns. cbn.
    case_zb; [|unfold denotes, wf, ns; cbn; consts; lia].
    replace (Z.min _ _) with MAX_NS by (consts; lia). apply max_denotes. }
  unfold add. cbn [m_seconds m_nanoseconds]. consts. rewrite (u32_small (n + n')) by lia.
  case_zb; apply Hsum; rewrite ?u32_small; try apply u64_range; try lia;
    unfold u64; Z.div_mod_to_equations; lia.
Qed.

Lemma add_clamp a b : wf a -> wf b -> add a b = clamp (ns a + ns b).
Proof.
  intros Ha Hb. apply denotes_clamp.
  pose proof (denotes_range _ _ (denotes_ns a Ha)). pose proof (denotes_range _ _ (denotes_ns b Hb)).
  replace (Z.max 0 _) with (Z.min (ns a + ns b) MAX_NS) by (consts; lia).
  by apply add_denotes.
Qed.

Lemma sub_clamp a b : wf a -> wf b -> sub a b = clamp (ns a - ns b).
Proof.
  intros Ha Hb. apply denotes_clamp. unfold sub. rewrite ltb_spec by done.
  destruct (Z.ltb_spec (ns a) (ns b)).
  { replace (Z.max 0 _) with 0 by (consts; lia). done. }
  destruct a as [s n], b as [s' n']. unfold wf, ns in *. cbn in *. consts.
  replace (Z.max 0 _) with (s * 1000000000 + n - (s' * 1000000000 + n')) by lia.
  rewrite (u64_small (s - s')) by lia.
  case_zb; [rewrite u32_small by lia
           |rewrite (u32_small (1000000000 - n')), u32_small, u64_small by lia];
    rewrite create_small by (consts; lia); unfold denotes, wf, ns; cbn; consts; lia.
Qed.

(** The three branches of the multiplication, on numbers. *)

Lemma max_before_overflow s m : 0 < m -> 0 <= s ->
  (UINT64_MAX / m < s <-> UINT64_MAX < s * m).
Proof.
  intros Hm Hs. consts. split; intros H.
  - pose proof (Z.mul_succ_div_gt (2 ^ 64 - 1) m Hm). nia.
  - apply Z.div_lt_upper_bound; lia.
Qed.

(** Splitting the multiplicator: [LEAST_COMMON_MULTIPLE] is [1953125 * 2^32] and
    [8388608 * 10^9]. *)
Lemma high_part_denotes n hi : 0 <= n < 1000000000 -> 0 <= hi < 2 ^ 32 ->
  denotes (add (create (u64 (n * hi / 1953125 * 8388608)) 0)
               (fromNanoseconds (u64 (Z.shiftl (n * hi mod 1953125) 32))))
          (n * hi * 2 ^ 32).
Proof.
  intros Hn Hhi. set (p := n * hi). assert (0 <= p <= 999999999 * (2 ^ 32 - 1)) by (unfold p; nia).
  clearbody p. rewrite Z.shiftl_mul_pow2 by lia. rewrite !u64_small by arith.
  rewrite create_small by (consts; arith).
  assert (p * 2 ^ 32 = p / 1953125 * 8388608 * 1000000000 + p mod 1953125 * 2 ^ 32) as E by arith.
  assert (denotes (mk (p / 1953125 * 8388608) 0) (p / 1953125 * 8388608 * 1000000000)) as H1.
  { unfold denotes, wf, ns. cbn. consts. repeat split; arith. }
  assert (denotes (fromNanoseconds (p mod 1953125 * 2 ^ 32)) (p mod 1953125 * 2 ^ 32)) as H2.
  { replace (p mod 1953125 * 2 ^ 32) with (Z.max 0 (p mod 1953125 * 2 ^ 32)) at 2 by arith.
    apply fromNanoseconds_denotes. arith. }
  pose proof (add_denotes _ _ _ _ H1 H2) as H3. rewrite <- E in H3.
  rewrite Z.min_l in H3 by (consts; lia). done.
Qed.

Lemma fromNanoseconds_exact v : 0 <= v < 2 ^ 64 -> denotes (fromNanoseconds v) v.
Proof.
  intros. replace v with (Z.max 0 v) at 2 by lia. apply fromNanoseconds_denotes. lia.
Qed.

Lemma multiplyWith_denotes d x m : denotes d x -> 0 < m < 2 ^ 64 ->
  denotes (multiplyWith d m) (Z.min (x * m) MAX_NS).
Proof.
  destruct d as [s n]. intros [[Hs Hn] <-] Hm. cbn [m_seconds m_nanoseconds] in *.
  unfold multiplyWith, ns. cbn [m_seconds m_nanoseconds]. rewrite (u64_small m) by lia.
  destruct (Z.ltb_spec (UINT64_MAX / m) s) as [H|H].
  { apply max_before_overflow in H; [|lia|lia]. rewrite Z.min_r; [apply max_denotes|].
    consts. nia. }
  assert (s * m <= UINT64_MAX) as Hsm.
  { destruct (Z.le_gt_cases (s * m) UINT64_MAX) as [|H']; [done|]. exfalso.
    assert (UINT64_MAX < s * m) as H2 by lia. apply max_before_overflow in H2; lia. }
  assert (0 <= s * m) by nia.
  rewrite (u64_small (s * m)) by (consts; lia). rewrite (create_small (s * m)) by lia.
  assert (denotes (mk (s * m) 0) (s * m * 1000000000)) as Hsec.
  { unfold denotes, wf, ns. cbn. lia. }
  destruct (Z.leb_spec n (UINT64_MAX / m)) as [Hle|Hgt].
  - assert (n * m < 2 ^ 64).
    { consts. pose proof (Z.mul_div_le (2 ^ 64 - 1) m). nia. }
    rewrite (u64_small (n * m)) by nia.
    replace ((s * 1000000000 + n) * m) with (s * m * 1000000000 + n * m) by lia.
    apply add_denotes; [done|]. apply fromNanoseconds_exact. nia.
  - set (lo := u32 m). set (hi := u32 (Z.shiftr m 32)).
    assert (0 <= lo < 2 ^ 32) as Hlo by apply u32_range.
    assert (0 <= hi < 2 ^ 32) as Hhi by apply u32_range.
    assert (m = lo + hi * 2 ^ 32) as E.
    { unfold lo, hi, u32. rewrite Z.shiftr_div_pow2 by lia. arith. }
    clearbody lo hi. rewrite (u64_small (n * hi)), (u64_small (n * lo)) by nia.
    replace (Z.min ((s * 1000000000 + n) * m) MAX_NS)
      with (Z.min (Z.min (s * m * 1000000000 + n * lo) MAX_NS + n * hi * 2 ^ 32) MAX_NS)
      by (subst m; nia).
    apply add_denotes; [apply add_denotes; [done|apply fromNanoseconds_exact; nia]|].
    by apply high_part_denotes.
Qed.

Lemma mul_clamp d m : wf d -> m < 2 ^ 64 -> mul d m = clamp (ns d * m).
Proof.
  intros Hd Hm. pose proof (denotes_range _ _ (denotes_ns d Hd)).
  apply denotes_clamp. unfold mul. rewrite eqb_spec by done. change (ns zero) with 0.
  destruct (Z.leb_spec m 0); cbn [orb]; [|destruct (Z.eqb_spec (ns d) 0) as [E|]].
  - replace (Z.max 0 _) with 0 by (consts; nia). done.
  - rewrite E. done.
  - rewrite Z.max_r by (consts; nia). by apply multiplyWith_denotes.
Qed.

(** The conversions to integers truncate, and saturate at 64 bit. *)

Lemma toNanoseconds_spec d : wf d -> toNanoseconds d = Z.min (ns d) UINT64_MAX.
Proof.
  intros Hd. unfold toNanoseconds.
  rewrite gtb_spec by first [exact Hd | apply create_denotes; vm_compute; split; congruence].
  change (ns (createDuration _ _)) with UINT64_MAX.
  destruct d as [s n]. unfold wf, ns in *. cbn in *. consts.
  case_zb; [lia|]. rewrite !u64_small; try rewrite u64_small; lia.
Qed.

Lemma toMicroseconds_spec d : wf d -> toMicroseconds d = Z.min (ns d / 1000) UINT64_MAX.
Proof.
  intros Hd. unfold toMicroseconds.
  rewrite gtb_spec by first [exact Hd | apply create_denotes; vm_compute; split; congruence].
  change (ns (createDuration _ _)) with (UINT64_MAX * 1000).
  destruct d as [s n]. unfold wf, ns in *. cbn in *. consts.
  case_zb; [arith|]. rewrite (u64_small (s * _)) by lia. rewrite u64_small by arith. arith.
Qed.

Lemma toMilliseconds_spec d : wf d -> toMilliseconds d = Z.min (ns d / 1000000) UINT64_MAX.
Proof.
  intros Hd. unfold toMilliseconds.
  rewrite gtb_spec by first [exact Hd | apply create_denotes; vm_compute; split; congruence].
  change (ns (createDuration _ _)) with (UINT64_MAX * 1000000).
  destruct d as [s n]. unfold wf, ns in *. cbn in *. consts.
  case_zb; [arith|]. rewrite (u64_small (s * _)) by lia. rewrite u64_small by arith. arith.
Qed.

(** *** C structures and absolute times *)

Lemma of_timespec_denotes ts : 0 <= ts_sec ts <= TIME_T_MAX -> 0 <= ts_nsec ts < 1000000000 ->
  denotes (of_timespec ts) (ts_sec ts * 1000000000 + ts_nsec ts).
Proof.
  intros. unfold of_timespec. consts. rewrite u64_small, u32_small by lia.
  rewrite create_small by (consts; lia). apply denotes_mk; consts; lia.
Qed.

(** The value of a normalised [timespec] or [timeval] in nanoseconds. *)
Definition timespec_ns (ts : timespec) : Z := ts_sec ts * 1000000000 + ts_nsec ts.
Definition timeval_us (tv : timeval) : Z := tv_sec tv * 1000000 + tv_usec tv.

Definition MAX_TIMESPEC_NS : Z := 2 ^ 63 * 1000000000 - 1.

Lemma to_timespec_sec_spec d : wf d ->
  timespec_ns (to_timespec_sec d) = Z.min (ns d) MAX_TIMESPEC_NS /\
  0 <= ts_sec (to_timespec_sec d) <= TIME_T_MAX /\
  0 <= ts_nsec (to_timespec_sec d) < 1000000000.
Proof.
  destruct d as [s n]. unfold wf, to_timespec_sec, timespec_ns, ns. cbn. consts.
  intros [? ?]. unfold MAX_TIMESPEC_NS.
  case_zb; cbn; [lia|]. rewrite i64_small by lia. lia.
Qed.

Lemma of_timeval_denotes tv : 0 <= tv_sec tv <= TIME_T_MAX -> 0 <= tv_usec tv < 1000000 ->
  denotes (of_timeval tv) (timeval_us tv * 1000).
Proof.
  intros. unfold of_timeval, timeval_us. consts. rewrite u64_small by lia.
  rewrite (u32_small (tv_usec tv)), u32_small by lia.
  rewrite create_small by (consts; lia).
  replace ((tv_sec tv * 1000000 + tv_usec tv) * 1000)
    with (tv_sec tv * 1000000000 + tv_usec tv * 1000) by lia.
  apply denotes_mk; consts; lia.
Qed.

Lemma to_timeval_spec d : wf d ->
  timeval_us (to_timeval d) = Z.min (ns d / 1000) (2 ^ 63 * 1000000 - 1) /\
  0 <= tv_sec (to_timeval d) <= TIME_T_MAX /\ 0 <= tv_usec (to_timeval d) < 1000000.
Proof.
  destruct d as [s n]. unfold wf, to_timeval, timeval_us, ns. cbn. consts. intros [? ?].
  case_zb; cbn; [split; [arith|lia]|]. rewrite i64_small by lia. split; [arith|split; arith].
Qed.

(** *** Expressions

    Everything that can be computed from numbers and C structures without floating
    point numbers, and what it means. *)

(** Values of the integer types that the templates take. *)
Definition int_value (v : Z) : Prop := - 2 ^ 63 <= v < 2 ^ 64.

Inductive expr :=
  | Max | Zero
  | Create (seconds nanoseconds : Z)
  | Nanoseconds (v : Z) | Microseconds (v : Z) | Milliseconds (v : Z) | Seconds (v : Z)
  | Minutes (v : Z) | Hours (v : Z) | Days (v : Z)
  | Timeval (v : timeval) | Timespec (v : timespec) | Itimerspec (v : itimerspec)
  | ChronoMilliseconds (v : Z) | ChronoNanoseconds (v : Z)
  | Add (a b : expr) | Sub (a b : expr) | Mul (a : expr) (m : Z) | MulL (m : Z) (a : expr).

(** What the code computes. *)
Fixpoint eval (e : expr) : t :=
  match e with
  | Max => max
  | Zero => zero
  | Create s n => createDuration s n
  | Nanoseconds v => fromNanoseconds v
  | Microseconds v => fromMicroseconds v
  | Milliseconds v => fromMilliseconds v
  | Seconds v => fromSeconds v
  | Minutes v => fromMinutes v
  | Hours v => fromHours v
  | Days v => fromDays v
  | Timeval v => of_timeval v
  | Timespec v => of_timespec v
  | Itimerspec v => of_itimerspec v
  | ChronoMilliseconds v => assign_chrono_milliseconds zero v
  | ChronoNanoseconds v => of_chrono_nanoseconds v
  | Add a b => add (eval a) (eval b)
  | Sub a b => sub (eval a) (eval b)
  | Mul a m => mul (eval a) m
  | MulL m a => mul_l m (eval a)
  end.

(** Its number of nanoseconds, by arithmetic that saturates at both ends. *)
Definition sat (n : Z) : Z := Z.max 0 (Z.min n MAX_NS).

Fixpoint value (e : expr) : Z :=
  match e with
  | Max => MAX_NS
  | Zero => 0
  | Create s n => sat (s * 1000000000 + n)
  | Nanoseconds v | ChronoNanoseconds v => sat v
  | Microseconds v => sat (v * 1000)
  | Milliseconds v | ChronoMilliseconds v => sat (v * 1000000)
  | Seconds v => sat (v * 1000000000)
  | Minutes v => sat (v * 60 * 1000000000)
  | Hours v => sat (v * 3600 * 1000000000)
  | Days v => sat (v * 86400 * 1000000000)
  | Timeval v => timeval_us v * 1000
  | Timespec v => timespec_ns v
  | Itimerspec v => timespec_ns (it_interval v)
  | Add a b => sat (value a + value b)
  | Sub a b => sat (value a - value b)
  | Mul a m | MulL m a => sat (value a * m)
  end.

Definition timespec_ok (ts : timespec) : Prop := 0 <= ts_sec ts <= TIME_T_MAX /\ 0 <= ts_nsec ts < 1000000000.
Definition timeval_ok (tv : timeval) : Prop := 0 <= tv_sec tv <= TIME_T_MAX /\ 0 <= tv_usec tv < 1000000.

(** The arguments are values of their types, and the C structures are normalised and
    not negative. *)
Fixpoint expr_ok (e : expr) : Prop :=
  match e with
  | Max | Zero => True
  | Create s n => 0 <= s <= UINT64_MAX /\ 0 <= n <= UINT32_MAX
  | Nanoseconds v | Microseconds v | Milliseconds v | Seconds v | Minutes v | Hours v | Days v
  | ChronoMilliseconds v | ChronoNanoseconds v => int_value v
  | Timeval v => timeval_ok v
  | Timespec v => timespec_ok v
  | Itimerspec v => timespec_ok (it_interval v)
  | Add a b | Sub a b => expr_ok a /\ expr_ok b
  | Mul a m | MulL m a => expr_ok a /\ int_value m
  end.

Lemma clamp_sat n : denotes (clamp n) (sat n).
Proof. apply clamp_denotes. Qed.

Lemma sat_unit v k : v < 2 ^ 64 -> 0 < k <= 1000000 -> sat (v * k) = Z.max 0 v * k.
Proof. intros. unfold sat. consts. nia. Qed.

Lemma eval_denotes e : expr_ok e -> denotes (eval e) (value e).
Proof.
  induction e as [| |s n|v|v|v|v|v|v|v|v|v|v|v|v|a IHa b IHb|a IHa b IHb|a IHa m|m a IHa]; cbn [expr_ok eval value];
    unfold createDuration, assign_chrono_milliseconds, of_chrono_milliseconds, of_chrono_nanoseconds, mul_l, of_itimerspec.
  - intros _. apply max_denotes.
  - intros _. apply zero_denotes.
  - intros [Hs Hn]. unfold sat. rewrite Z.max_r by (consts; lia). by apply create_denotes.
  - intros [_ H]. replace v with (v * 1) at 2 by lia. rewrite sat_unit, Z.mul_1_r by lia. by apply fromNanoseconds_denotes.
  - intros [_ H]. rewrite sat_unit by lia. by apply fromMicroseconds_denotes.
  - intros [_ H]. rewrite sat_unit by lia. by apply fromMilliseconds_denotes.
  - intros [_ H]. rewrite fromSeconds_clamp by done. apply clamp_sat.
  - intros [_ H]. rewrite fromMinutes_clamp by done. apply clamp_sat.
  - intros [_ H]. rewrite fromHours_clamp by done. apply clamp_sat.
  - intros [_ H]. rewrite fromDays_clamp by done. apply clamp_sat.
  - intros [Hs Hn]. by apply of_timeval_denotes.
  - intros [Hs Hn]. by apply of_timespec_denotes.
  - intros [Hs Hn]. by apply of_timespec_denotes.
  - intros [_ H]. rewrite sat_unit by lia. by apply fromMilliseconds_denotes.
  - intros [_ H]. replace v with (v * 1) at 2 by lia. rewrite sat_unit, Z.mul_1_r by lia. by apply fromNanoseconds_denotes.
  - intros [[Ha Ea]%IHa [Hb Eb]%IHb]. rewrite add_clamp, Ea, Eb by done. apply clamp_sat.
  - intros [[Ha Ea]%IHa [Hb Eb]%IHb]. rewrite sub_clamp, Ea, Eb by done. apply clamp_sat.
  - intros [[Ha Ea]%IHa [_ Hm]]. rewrite mul_clamp, Ea by done. apply clamp_sat.
  - intros [[Ha Ea]%IHa [_ Hm]]. rewrite mul_clamp, Ea by done. apply clamp_sat.
Qed.

(** C28: computing with durations is computing with numbers of nanoseconds that saturate
    at zero and at the largest duration.  Every expression of constants, creations from
    units and from normalised C structures, additions (with their detection of the wrap
    around), subtractions (with their borrow) and multiplications with integers (which
    for large factors are done in two halves and in blocks of common multiples of a
    second and of 2^32 nanoseconds) gives the normalised duration of exactly its
    saturated value; comparisons compare these values, and conversions give them,
    rounded down to the unit and saturated at the largest number of the result type.
    Multiplication with floating point numbers is not covered. *)
Theorem duration_expressions_exact a b : expr_ok a -> expr_ok b ->
  eval a = clamp (value a) /\ wf (eval a) /\ ns (eval a) = value a /\
  eqb (eval a) (eval b) = (value a =? value b) /\ neb (eval a) (eval b) = negb (value a =? value b) /\
  ltb (eval a) (eval b) = (value a <? value b) /\ leb (eval a) (eval b) = (value a <=? value b) /\
  gtb (eval a) (eval b) = (value b <? value a) /\ geb (eval a) (eval b) = (value b <=? value a) /\
  toNanoseconds (eval a) = Z.min (value a) UINT64_MAX /\
  toMicroseconds (eval a) = Z.min (value a / 1000) UINT64_MAX /\
  toMilliseconds (eval a) = Z.min (value a / 1000000) UINT64_MAX /\
  toSeconds (eval a) = value a / 1000000000 /\ toMinutes (eval a) = value a / 1000000000 / 60 /\
  toHours (eval a) = value a / 1000000000 / 3600 /\ toDays (eval a) = value a / 1000000000 / 86400 /\
  timeval_us (to_timeval (eval a)) = Z.min (value a / 1000) (2 ^ 63 * 1000000 - 1) /\
  timespec_ns (to_timespec_sec (eval a)) = Z.min (value a) MAX_TIMESPEC_NS.
Proof.
  intros Ha Hb. pose proof (eval_denotes a Ha) as Da. pose proof (eval_denotes b Hb) as Db.
  split; [by apply denotes_clamp_small|]. destruct Da as [Wa Ea], Db as [Wb Eb]. unfold neb.
  rewrite eqb_spec, ltb_spec, leb_spec, gtb_spec, geb_spec, toNanoseconds_spec, toMicroseconds_spec, toMilliseconds_spec by done.
  rewrite (proj1 (to_timeval_spec _ Wa)), (proj1 (to_timespec_sec_spec _ Wa)), Eb, <- Ea.
  assert (m_seconds (eval a) = ns (eval a) / 1000000000) as Es.
  { destruct (eval a) as [s n]. unfold wf, ns in *. cbn in *. arith. }
  unfold toSeconds, toMinutes, toHours, toDays. rewrite Es. done.
Qed.

(** A factor of more than 2^32, and a sum that saturates. *)
Lemma duration_expressions_exact_witness :
  eval (Mul (Add (Seconds 3) (Nanoseconds 999999999)) 4294967299) = clamp (3999999999 * 4294967299) /\
  eval (Mul (Add (Seconds 3) (Nanoseconds 999999999)) 4294967299) = mk 17179869191 705032701 /\
  eval (Add (Days (2 ^ 63)) (Nanoseconds 5)) = clamp (2 ^ 63 * 86400 * 1000000000 + 5) /\
  eval (Sub (Nanoseconds 5) (Microseconds 1)) = zero.
Proof.
  assert (forall v, - 2 ^ 63 <= v < 2 ^ 64 -> int_value v) as Hv by done.
  pose proof (proj1 (duration_expressions_exact (Mul (Add (Seconds 3) (Nanoseconds 999999999)) 4294967299) Zero
    ltac:(cbn; repeat split; lia) I)) as H1.
  pose proof (proj1 (duration_expressions_exact (Add (Days (2 ^ 63)) (Nanoseconds 5)) Zero ltac:(cbn; repeat split; lia) I)) as H2.
  pose proof (proj1 (duration_expressions_exact (Sub (Nanoseconds 5) (Microseconds 1)) Zero ltac:(cbn; repeat split; lia) I)) as H3.
  split; [exact H1|]. split; [rewrite H1; vm_compute; reflexivity|]. split; [rewrite H2; vm_compute; reflexivity|].
  rewrite H3. vm_compute. reflexivity.
Defined.

(** What is created from a number of some unit is converted back to that number:
    negative numbers give zero, and only minutes, hours and days beyond the largest
    duration saturate.  Conversion to a coarser unit rounds down. *)
Theorem duration_conversions v : int_value v ->
  toNanoseconds (fromNanoseconds v) = Z.max 0 v /\
  toMicroseconds (fromMicroseconds v) = Z.max 0 v /\
  toMilliseconds (fromMilliseconds v) = Z.max 0 v /\
  toSeconds (fromSeconds v) = Z.max 0 v /\
  toMinutes (fromMinutes v) = Z.min (Z.max 0 v) (UINT64_MAX / 60) /\
  toHours (fromHours v) = Z.min (Z.max 0 v) (UINT64_MAX / 3600) /\
  toDays (fromDays v) = Z.min (Z.max 0 v) (UINT64_MAX / 86400) /\
  forall d, wf d ->
    toNanoseconds d = Z.min (ns d) UINT64_MAX /\
    toMicroseconds d = Z.min (ns d / 1000) UINT64_MAX /\
    toMilliseconds d = Z.min (ns d / 1000000) UINT64_MAX /\
    toSeconds d = ns d / 1000000000 /\ toMinutes d = ns d / 1000000000 / 60.
Proof.
  intros [_ Hv].
  destruct (fromNanoseconds_denotes v Hv) as [W1 E1].
  destruct (fromMicroseconds_denotes v Hv) as [W2 E2].
  destruct (fromMilliseconds_denotes v Hv) as [W3 E3].
  rewrite toNanoseconds_spec, toMicroseconds_spec, toMilliseconds_spec by done.
  rewrite E1, E2, E3, !Z.div_mul by lia.
  rewrite fromSeconds_clamp, fromMinutes_clamp, fromHours_clamp, fromDays_clamp by done.
  unfold toSeconds, toMinutes, toHours, toDays, clamp. cbn [m_seconds]. consts.
  do 7 (split; [arith|]). intros d Hd.
  rewrite toNanoseconds_spec, toMicroseconds_spec, toMilliseconds_spec by done. do 3 (split; [done|]).
  destruct d as [s n]. unfold wf, ns in *. cbn in *. split; arith.
Qed.

Lemma duration_conversions_witness :
  toDays (fromDays UINT64_MAX) = Z.min (Z.max 0 UINT64_MAX) (UINT64_MAX / 86400) /\
  toMicroseconds (fromMicroseconds (-5)) = 0.
Proof.
  split.
  - apply (proj1 (proj2 (proj2 (proj2 (proj2 (proj2 (proj2
      (duration_conversions UINT64_MAX ltac:(unfold int_value; consts; lia))))))))).
  - apply (proj1 (proj2 (duration_conversions (-5) ltac:(unfold int_value; lia)))).
Defined.

(** Absolute times.  A duration that is converted to a [timespec] relative to a
    clock is the sum of the time of the clock and the duration, limited to the largest
    [timespec]; without reference it is the duration itself, and reading it back gives
    the duration; where the clock cannot be read the result is the time zero. *)
Theorem duration_to_timespec clock d reference :
  wf d ->
  (forall r ts, clock r = Some ts -> 0 <= ts_sec ts <= TIME_T_MAX /\ 0 <= ts_nsec ts < 1000000000) ->
  let result := to_timespec clock d reference in
  let expected :=
    match reference with
    | TSR_None => ns d
    | _ => match clock reference with
           | None => 0
           | Some now => timespec_ns now + ns d
           end
    end in
  timespec_ns result = Z.min expected MAX_TIMESPEC_NS /\
  of_timespec result = clamp (Z.min expected MAX_TIMESPEC_NS) /\
  0 <= ts_sec result <= TIME_T_MAX /\ 0 <= ts_nsec result < 1000000000.
Proof.
  intros Hd Hc. cbn zeta.
  set (result := to_timespec clock d reference). set (e := match reference with TSR_None => _ | _ => _ end).
  assert (timespec_ns result = Z.min e MAX_TIMESPEC_NS /\
    0 <= ts_sec result <= TIME_T_MAX /\ 0 <= ts_nsec result < 1000000000) as (H1 & H2 & H3).
  { subst result e. pose proof (denotes_range _ _ (denotes_ns d Hd)).
    assert (forall r, r <> TSR_None -> match clock r with
        | None => True
        | Some now => let ts := to_timespec_sec (add (of_timespec now) d) in
          timespec_ns ts = Z.min (timespec_ns now + ns d) MAX_TIMESPEC_NS /\
          0 <= ts_sec ts <= TIME_T_MAX /\ 0 <= ts_nsec ts < 1000000000 end) as Habs.
    { intros r _. destruct (clock r) as [now|] eqn:E; [|done].
      destruct (Hc _ _ E) as [Hs Hn].
      destruct (add_denotes _ _ _ _ (of_timespec_denotes now Hs Hn) (denotes_ns d Hd)) as [W E'].
      destruct (to_timespec_sec_spec _ W) as (E2 & ? & ?). cbn zeta. split; [|done].
      rewrite E2, E'.
      unfold timespec_ns, MAX_TIMESPEC_NS. consts. lia. }
    destruct reference; cbn [to_timespec].
    - by apply to_timespec_sec_spec.
    - specialize (Habs Epoch ltac:(done)). destruct (clock Epoch); [done|].
      unfold timespec_ns, MAX_TIMESPEC_NS. cbn. consts. lia.
    - specialize (Habs Monotonic ltac:(done)). destruct (clock Monotonic); [done|].
      unfold timespec_ns, MAX_TIMESPEC_NS. cbn. consts. lia. }
  split; [done|]. split; [|done]. rewrite <- H1. apply denotes_clamp_small. by apply of_timespec_denotes.
Qed.

Lemma duration_to_timespec_witness :
  timespec_ns (to_timespec (fun _ => Some {| ts_sec := 1; ts_nsec := 999999999 |})
                 (mk 2 1) Monotonic) = Z.min (1999999999 + 2000000001) MAX_TIMESPEC_NS.
Proof.
  apply (duration_to_timespec (fun _ => Some {| ts_sec := 1; ts_nsec := 999999999 |}) (mk 2 1) Monotonic).
  - vm_compute; split; split; congruence.
  - intros r ts [= <-]. vm_compute; split; split; congruence.
Defined.

(** A deadline timer that is started, or started again, at [t0] has expired at [t1]
    exactly when the time to wait has passed; until then the remaining time is the rest,
    and afterwards zero.  A time to wait beyond the largest duration never expires. *)
Theorem deadline_timer_correct timer w t0 t1 :
  wf w -> 0 <= t0 < 2 ^ 63 -> 0 <= t1 < 2 ^ 63 ->
  (timer = DeadlineTimer.create t0 w \/
   (exists timer', timer = DeadlineTimer.reset t0 timer' /\ DeadlineTimer.m_timeToWait timer' = w) \/
   exists timer', timer = DeadlineTimer.reset_to t0 timer' w) ->
  DeadlineTimer.hasExpired t1 timer = (t0 + ns w <=? t1) /\
  DeadlineTimer.remainingTime t1 timer = clamp (Z.min (t0 + ns w) MAX_NS - t1) /\
  (DeadlineTimer.hasExpired t1 timer = true <-> DeadlineTimer.remainingTime t1 timer = zero).
Proof.
  intros Hw H0 H1 Hor.
  assert (DeadlineTimer.m_endTime timer = add (fromNanoseconds t0) w) as Hend.
  { by destruct Hor as [->|[(timer' & -> & <-)|(timer' & ->)]]. }
  pose proof (add_denotes _ _ _ _ (fromNanoseconds_exact t0 ltac:(lia)) (denotes_ns w Hw)) as He.
  destruct (fromNanoseconds_exact t1 ltac:(lia)) as [Wt Et].
  pose proof (denotes_range _ _ (denotes_ns w Hw)).
  unfold DeadlineTimer.hasExpired, DeadlineTimer.remainingTime, DeadlineTimer.getCurrentMonotonicTime,
    of_chrono_nanoseconds. rewrite Hend. clear Hend Hor. destruct He as [We Ee].
  set (e := add _ _) in *. clearbody e.
  rewrite geb_spec, gtb_spec, sub_clamp by done. rewrite Et, Ee.
  assert (forall n, clamp n = zero <-> n <= 0) as Hz.
  { intros n. pose proof (clamp_denotes n) as [_ E]. split.
    - intros E0. rewrite E0 in E. change (ns zero) with 0 in E. consts. lia.
    - intros. symmetry. apply denotes_clamp. by replace (Z.max 0 _) with 0 by (consts; lia). }
  assert (of_chrono_milliseconds 0 = zero) as -> by done.
  assert (of_chrono_milliseconds 0 = clamp 0) as Hc0 by done.
  split; [|split].
  - destruct (Z.leb_spec (t0 + ns w) t1), (Z.leb_spec (Z.min (t0 + ns w) MAX_NS) t1); try done; consts; lia.
  - case_zb; [done|]. symmetry. apply Hz. lia.
  - rewrite Z.leb_le. case_zb; [rewrite Hz; lia|]. split; [done|lia].
Qed.

Lemma deadline_timer_correct_witness :
  DeadlineTimer.hasExpired 5 (DeadlineTimer.create 1 (mk 0 4)) = true /\
  DeadlineTimer.remainingTime 4 (DeadlineTimer.create 1 (mk 0 4)) = clamp (Z.min (1 + 4) MAX_NS - 4).
Proof.
  assert (wf (mk 0 4)) as W by (vm_compute; split; split; congruence).
  split.
  - exact (proj1 (deadline_timer_correct (DeadlineTimer.create 1 (mk 0 4)) (mk 0 4) 1 5
      W ltac:(lia) ltac:(lia) (or_introl eq_refl))).
  - exact (proj1 (proj2 (deadline_timer_correct (DeadlineTimer.create 1 (mk 0 4)) (mk 0 4) 1 4
      W ltac:(lia) ltac:(lia) (or_introl eq_refl)))).
Defined.

End DurationSpec.
