(* ===== verification/CxxList.v ===== *)
(** * [cxx::list]

    hoofs [cxx/list.hpp] and [internal/cxx/list.inl]: a doubly linked list in an array
    of fixed capacity.  Links are indices; the entry after the last element holds the
    links to the first and the last one.  Unused entries form a second, singly linked
    list, and are marked by an invalid index as their predecessor.

    The first section has the paths that links describe, which [CxxForwardList] uses,
    too. *)

From S2P Require Import Prelude.

(** ** Paths of links *)

Module Path.

(** Following [f] from [a] visits [l] and then [b]. *)
Fixpoint path (f : Z -> Z) (a : Z) (l : list Z) (b : Z) : Prop :=
  match l with
  | [] => f a = b
  | i :: l' => f a = i /\ path f i l' b
  end.

(** The last node before the end of a path. *)
Definition tail_of (a : Z) (l : list Z) : Z := default a (last l).
Definition head_or (b : Z) (l : list Z) : Z := default b (head l).

Definition upd (f : Z -> Z) (i v : Z) : Z -> Z := fun j => if decide (i = j) then v else f j.

Lemma upd_eq f i v : upd f i v i = v.
Proof. unfold upd. by case_decide. Qed.

Lemma upd_ne f i j v : i <> j -> upd f i v j = f j.
Proof. unfold upd. by case_decide. Qed.

Lemma tail_of_cons a i l : tail_of a (i :: l) = tail_of i l.
Proof. destruct l; [done|]. unfold tail_of. rewrite last_cons_cons.
  destruct (last (z :: l)) eqn:E; [done|]. by apply last_None in E.
Qed.

Lemma tail_of_elem a l : tail_of a l ∈ a :: l.
Proof.
  revert a. induction l as [|i l IH]; intros a; [unfold tail_of; cbn; set_solver|].
  rewrite tail_of_cons. apply elem_of_cons. right. apply IH.
Qed.

Lemma tail_of_app a l k : tail_of a (l ++ [k]) = k.
Proof. unfold tail_of. by rewrite last_snoc. Qed.

Lemma tail_of_reverse a l : tail_of a (reverse l) = head_or a l.
Proof. destruct l; [done|]. rewrite reverse_cons, tail_of_app. done. Qed.

Lemma head_or_reverse a l : head_or a (reverse l) = tail_of a l.
Proof. rewrite <- (reverse_involutive l) at 2. by rewrite tail_of_reverse. Qed.

Lemma path_head f a l b : path f a l b -> f a = head_or b l.
Proof. destruct l; cbn; intuition. Qed.

Lemma path_app f a l1 l2 b :
  path f a (l1 ++ l2) b <-> path f a l1 (head_or b l2) /\ path f (tail_of a l1) l2 b.
Proof.
  revert a. induction l1 as [|i l1 IH]; intros a; cbn [app path].
  - unfold tail_of. cbn. split; [|tauto]. intros H. by apply path_head in H as ?.
  - rewrite IH, tail_of_cons. tauto.
Qed.

Lemma path_tail f a l b : path f a l b -> f (tail_of a l) = b.
Proof.
  revert a. induction l as [|i l IH]; intros a; cbn [path]; [done|].
  rewrite tail_of_cons. intros [_ H]. auto.
Qed.

Lemma path_ext f g a l b : (forall j, j ∈ a :: l -> f j = g j) -> path f a l b -> path g a l b.
Proof.
  revert a. induction l as [|i l IH]; intros a He; cbn [path].
  - intros <-. symmetry. apply He. set_solver.
  - intros [<- H]. split; [symmetry; apply He; set_solver|]. apply IH; [|done]. set_solver.
Qed.

Lemma path_upd_out f a l b i v : i ∉ a :: l -> path f a l b -> path (upd f i v) a l b.
Proof.
  intros Hi. apply path_ext. intros j Hj. rewrite upd_ne; [done|]. intros ->. done.
Qed.

(** Setting the link of the last node changes the end of the path. *)
Lemma path_upd_tail f a l b c : NoDup (a :: l) -> path f a l b ->
  path (upd f (tail_of a l) c) a l c.
Proof.
  revert a. induction l as [|i l IH]; intros a Hnd; cbn [path].
  - intros _. apply upd_eq.
  - rewrite tail_of_cons. intros [<- H]. apply NoDup_cons in Hnd as [Ha Hnd].
    split; [|by apply IH].
    apply upd_ne. intros E. apply Ha. pose proof (tail_of_elem (f a) l) as Ht. by rewrite E in Ht.
Qed.

(** Linking a new node [k] in, and a node out. *)
Lemma path_insert f a l1 l2 b k :
  NoDup (a :: l1 ++ l2) -> k ∉ a :: l1 ++ l2 -> path f a (l1 ++ l2) b ->
  path (upd (upd f k (head_or b l2)) (tail_of a l1) k) a (l1 ++ k :: l2) b.
Proof.
  intros Hnd Hk [H1 H2]%path_app. apply path_app.
  pose proof (tail_of_elem a l1) as Ht.
  assert (tail_of a l1 <> k) by (intros E; apply Hk; rewrite <- E; set_solver).
  assert (NoDup (a :: l1)) as Hnd1.
  { apply (NoDup_app (a :: l1) l2). done. }
  assert (forall j, j ∈ a :: l1 -> j ∉ l2) as Hdis.
  { apply (NoDup_app (a :: l1) l2). done. }
  split.
  - cbn. eapply path_upd_tail; [done|]. apply path_upd_out; [set_solver|done].
  - cbn [path]. split; [apply upd_eq|].
    destruct l2 as [|i l2]; cbn [path head_or] in *.
    + rewrite upd_ne by done. apply upd_eq.
    + destruct H2 as [_ H2]. split; [rewrite upd_ne by done; apply upd_eq|].
      apply path_upd_out; [by apply Hdis|]. apply path_upd_out; [set_solver|done].
Qed.

Lemma path_erase f a l1 e l2 b :
  NoDup (a :: l1 ++ e :: l2) -> path f a (l1 ++ e :: l2) b ->
  path (upd f (tail_of a l1) (f e)) a (l1 ++ l2) b.
Proof.
  intros Hnd [H1 H2]%path_app. cbn [path] in H2. destruct H2 as [_ H2].
  assert (NoDup (a :: l1)) as Hnd1.
  { apply (NoDup_app (a :: l1) (e :: l2)). done. }
  assert (forall j, j ∈ a :: l1 -> j ∉ e :: l2) as Hdis.
  { apply (NoDup_app (a :: l1) (e :: l2)). done. }
  apply path_app. rewrite (path_head _ _ _ _ H2). split; [by eapply path_upd_tail|].
  destruct l2 as [|i l2]; [apply upd_eq|]. destruct H2 as [_ H2]. split; [apply upd_eq|].
  apply path_upd_out; [|done]. intros Hin. apply (Hdis (tail_of a l1)); [apply tail_of_elem|].
  set_solver.
Qed.

(** The free list: a chain from [h] to [e]. *)
Fixpoint chain (f : Z -> Z) (h : Z) (fl : list Z) (e : Z) : Prop :=
  match fl with
  | [] => h = e
  | i :: fl' => h = i /\ chain f (f i) fl' e
  end.

Lemma chain_ext f g h fl e : (forall j, j ∈ fl -> f j = g j) -> chain f h fl e -> chain g h fl e.
Proof.
  revert h. induction fl as [|i fl IH]; intros h He; cbn [chain]; [done|].
  intros [-> H]. split; [done|]. rewrite <- He by set_solver. apply IH; [|done]. set_solver.
Qed.

Lemma chain_upd f h fl e i v : i ∉ fl -> chain f h fl e -> chain (upd f i v) h fl e.
Proof. intros Hi. apply chain_ext. intros j Hj. rewrite upd_ne; [done|]. by intros ->. Qed.

(** [n] entries from [i] on, each linked to the next. *)
Lemma chain_seqZ f i n e :
  (forall j, i <= j < i + Z.of_nat n -> f j = if decide (j = i + Z.of_nat n - 1) then e else j + 1) ->
  (n = O -> i = e) ->
  chain f i (seqZ i (Z.of_nat n)) e.
Proof.
  revert i. induction n as [|n IH]; intros i Hf H0; [by apply H0|].
  rewrite seqZ_cons by lia. cbn [chain]. split; [done|].
  replace (Z.pred (Z.of_nat (S n))) with (Z.of_nat n) by lia.
  assert (f i = if decide (i = i + Z.of_nat (S n) - 1) then e else i + 1) as Ei by (apply Hf; lia).
  destruct n as [|n].
  - cbn. rewrite Ei. case_decide; [done|lia].
  - case_decide; [lia|]. rewrite Ei. replace (Z.succ i) with (i + 1) by lia. apply IH; [|done].
    intros j Hj. rewrite Hf by lia. repeat case_decide; lia.
Qed.

End Path.

(** ** The class

    [this] is the address of the list, which iterators carry to find out whether they
    belong to it.  A cell of [m_data] is [None] where no object lives.  The values of
    moved-from objects are given by [moved]. *)

Module CxxList.

Record NodeLink := mkLink { prevIdx : Z; nextIdx : Z }.

Record t (T : Type) := mk {
  m_freeListHeadIdx : Z;
  m_links : list NodeLink;
  m_data : list (option T);
  m_size : Z }.
Arguments mk {T}.
Arguments m_freeListHeadIdx {T}.
Arguments m_links {T}.
Arguments m_data {T}.
Arguments m_size {T}.

Record iterator := iter { m_list : Z; m_iterListNodeIdx : Z }.

Section ops.
Context {T : Type} (Capacity : Z).

Definition BEGIN_END_LINK_INDEX : Z := Capacity.
Definition NODE_LINK_COUNT : Z := Capacity + 1.
Definition INVALID_INDEX : Z := NODE_LINK_COUNT.

Definition getLink (l : t T) (i : Z) : NodeLink := aget (mkLink 0 0) (m_links l) i.
Definition getPrevIdx (l : t T) (i : Z) : Z := prevIdx (getLink l i).
Definition getNextIdx (l : t T) (i : Z) : Z := nextIdx (getLink l i).

Definition setPrevIdx (l : t T) (i v : Z) : t T :=
  mk (m_freeListHeadIdx l) (aset (m_links l) i (mkLink v (getNextIdx l i))) (m_data l) (m_size l).
Definition setNextIdx (l : t T) (i v : Z) : t T :=
  mk (m_freeListHeadIdx l) (aset (m_links l) i (mkLink (getPrevIdx l i) v)) (m_data l) (m_size l).
Definition set_free (l : t T) (i : Z) : t T := mk i (m_links l) (m_data l) (m_size l).
Definition set_size (l : t T) (n : Z) : t T := mk (m_freeListHeadIdx l) (m_links l) (m_data l) n.
Definition set_cell (l : t T) (i : Z) (x : option T) : t T :=
  mk (m_freeListHeadIdx l) (m_links l) (aset (m_data l) i x) (m_size l).

(** *** Checks *)

Definition isValidElementIdx (l : t T) (idx : Z) : bool :=
  (idx <? Capacity) && (getPrevIdx l idx <? INVALID_INDEX).

Definition isInvalidIterator (l : t T) (it : iterator) : outcome bool :=
  expects (getPrevIdx l (m_iterListNodeIdx it) <? INVALID_INDEX) (Done false).

Definition isInvalidIterOrDifferentLists (this : Z) (l : t T) (it : iterator) : outcome bool :=
  expects (this =? m_list it) (isInvalidIterator l it).

(** The object of an entry: the access is checked, and ends in undefined behaviour
    where no object lives. *)
Definition getDataPtrFromIdx (l : t T) (idx : Z) : outcome T :=
  expects (isValidElementIdx l idx)
    match aget None (m_data l) idx with
    | Some x => Done x
    | None => Terminated UNDEFINED_BEHAVIOUR
    end.

(** *** Construction *)

Definition init_entry (l : t T) (i : Z) : t T := setNextIdx (setPrevIdx l i INVALID_INDEX) i (i + 1).

Definition init (l : t T) : t T :=
  let l := setNextIdx (setPrevIdx l 0 INVALID_INDEX) 0 1 in
  let l := foldl init_entry l (seqZ 1 (BEGIN_END_LINK_INDEX - 1 - 1)) in
  let l := setPrevIdx l (Capacity - 1) INVALID_INDEX in
  let l := setNextIdx l (Capacity - 1) BEGIN_END_LINK_INDEX in
  let l := setPrevIdx l Capacity BEGIN_END_LINK_INDEX in
  let l := setNextIdx l Capacity BEGIN_END_LINK_INDEX in
  set_size (set_free l 0) 0.

(** The members before [init], with arbitrary links. *)
Definition uninitialized (links : list NodeLink) : t T :=
  mk 0 links (replicate (Z.to_nat Capacity) None) 0.

Definition ctor (links : list NodeLink) : t T := init (uninitialized links).

(** *** Iterators *)

Definition begin_ (this : Z) (l : t T) : iterator := iter this (getNextIdx l BEGIN_END_LINK_INDEX).
Definition end_ (this : Z) (l : t T) : iterator := iter this BEGIN_END_LINK_INDEX.

Definition increment (l : t T) (it : iterator) : outcome iterator :=
  let* invalid := isInvalidIterator l it in
  if negb invalid && isValidElementIdx l (m_iterListNodeIdx it)
  then Done (iter (m_list it) (getNextIdx l (m_iterListNodeIdx it)))
  else Done it.

Definition decrement (l : t T) (it : iterator) : outcome iterator :=
  let* invalid := isInvalidIterator l it in
  if negb invalid && isValidElementIdx l (getPrevIdx l (m_iterListNodeIdx it))
  then Done (iter (m_list it) (getPrevIdx l (m_iterListNodeIdx it)))
  else Done it.

(** [l] is the list of the left hand side. *)
Definition iterator_eqb (l : t T) (lhs rhs : iterator) : outcome bool :=
  let* a := isInvalidIterOrDifferentLists (m_list lhs) l rhs in
  let* b := if a then Done true else isInvalidIterator l lhs in
  if b then Done false else Done (m_iterListNodeIdx lhs =? m_iterListNodeIdx rhs).

Definition deref (l : t T) (it : iterator) : outcome T := getDataPtrFromIdx l (m_iterListNodeIdx it).

(** [*it = x] *)
Definition assign_at (l : t T) (it : iterator) (x : T) : outcome (t T) :=
  let* _ := deref l it in Done (set_cell l (m_iterListNodeIdx it) (Some x)).

(** *** Size *)

Definition empty (l : t T) : bool := m_size l =? 0.
Definition full (l : t T) : bool := Capacity <=? m_size l.
Definition size (l : t T) : Z := m_size l.

(** *** Insertion and removal *)

Definition emplace (this : Z) (l : t T) (it : iterator) (x : T) : outcome (t T * iterator) :=
  let* invalid := isInvalidIterOrDifferentLists this l it in
  if invalid then Done (l, end_ this l)
  else if Capacity <=? m_size l then Done (l, end_ this l)
  else
    let toBeAddedIdx := m_freeListHeadIdx l in
    let l := set_free l (getNextIdx l (m_freeListHeadIdx l)) in
    let l := setPrevIdx l toBeAddedIdx (getPrevIdx l (m_iterListNodeIdx it)) in
    let l := setNextIdx l toBeAddedIdx (m_iterListNodeIdx it) in
    expects (isValidElementIdx l toBeAddedIdx)
    (let l := set_cell l toBeAddedIdx (Some x) in
     let l := setNextIdx l (getPrevIdx l (m_iterListNodeIdx it)) toBeAddedIdx in
     let l := setPrevIdx l (m_iterListNodeIdx it) toBeAddedIdx in
     let l := set_size l (u64 (m_size l + 1)) in
     Done (l, iter this toBeAddedIdx)).

Definition erase (this : Z) (l : t T) (it : iterator) : outcome (t T * iterator) :=
  let* invalid := isInvalidIterOrDifferentLists this l it in
  if invalid then Done (l, end_ this l)
  else
    let eraseIdx := m_iterListNodeIdx it in
    if negb (isValidElementIdx l eraseIdx) || empty l then Done (l, end_ this l)
    else
      let retIdx := getNextIdx l eraseIdx in
      let l := setPrevIdx l retIdx (getPrevIdx l eraseIdx) in
      let l := setNextIdx l (getPrevIdx l eraseIdx) retIdx in
      let* _ := deref l it in
      let l := set_cell l eraseIdx None in
      let l := setPrevIdx l eraseIdx INVALID_INDEX in
      let l := setNextIdx l eraseIdx (m_freeListHeadIdx l) in
      let l := set_free l eraseIdx in
      let l := set_size l (u64 (m_size l - 1)) in
      Done (l, iter this retIdx).

Definition insert (this : Z) (l : t T) (it : iterator) (x : T) := emplace this l it x.

(** The functions that return a reference return the object. *)
Definition emplace_front (this : Z) (l : t T) (x : T) : outcome (t T * T) :=
  let* '(l, it) := emplace this l (begin_ this l) x in
  let* y := deref l it in Done (l, y).

Definition emplace_back (this : Z) (l : t T) (x : T) : outcome (t T * T) :=
  let* '(l, it) := emplace this l (end_ this l) x in
  let* y := deref l it in Done (l, y).

Definition push_front (this : Z) (l : t T) (x : T) : outcome (t T * bool) :=
  let sizeBeforePush := m_size l in
  let* l := if m_size l <? Capacity
            then (let* '(l, _) := emplace this l (begin_ this l) x in Done l) else Done l in
  Done (l, m_size l =? u64 (sizeBeforePush + 1)).

Definition push_back (this : Z) (l : t T) (x : T) : outcome (t T * bool) :=
  let sizeBeforePush := m_size l in
  let* l := if m_size l <? Capacity
            then (let* '(l, _) := emplace this l (end_ this l) x in Done l) else Done l in
  Done (l, m_size l =? u64 (sizeBeforePush + 1)).

Definition pop_front (this : Z) (l : t T) : outcome (t T * bool) :=
  let sizeBeforeErase := m_size l in
  let* '(l, _) := erase this l (begin_ this l) in
  Done (l, u64 (m_size l + 1) =? sizeBeforeErase).

Definition pop_back (this : Z) (l : t T) : outcome (t T * bool) :=
  let sizeBeforeErase := m_size l in
  let* last := decrement l (end_ this l) in
  let* '(l, _) := erase this l last in
  Done (l, u64 (m_size l + 1) =? sizeBeforeErase).

Definition front (this : Z) (l : t T) : outcome T :=
  let it := begin_ this l in
  expects (isValidElementIdx l (m_iterListNodeIdx it)) (deref l it).

Definition back (this : Z) (l : t T) : outcome T :=
  let* it := decrement l (end_ this l) in
  expects (isValidElementIdx l (m_iterListNodeIdx it)) (deref l it).

(** *** Loops: [fuel] bounds the number of rounds, [None] when it is used up *)

Fixpoint remove_if_loop (fuel : nat) (this : Z) (pred : T -> bool) (l : t T) (it : iterator)
    (removedCount : Z) : option (outcome (t T * Z)) :=
  match fuel with
  | O => None
  | S fuel =>
    match iterator_eqb l it (end_ this l) with
    | Terminated e => Some (Terminated e)
    | Done true => Some (Done (l, removedCount))
    | Done false =>
      match deref l it with
      | Terminated e => Some (Terminated e)
      | Done x =>
        if pred x then
          match erase this l it with
          | Terminated e => Some (Terminated e)
          | Done (l, it) => remove_if_loop fuel this pred l it (u64 (removedCount + 1))
          end
        else
          match increment l it with
          | Terminated e => Some (Terminated e)
          | Done it => remove_if_loop fuel this pred l it removedCount
          end
      end
    end
  end.

Definition remove_if (fuel : nat) (this : Z) (pred : T -> bool) (l : t T) :=
  remove_if_loop fuel this pred l (begin_ this l) 0.

Definition remove `{EqDecision T} (fuel : nat) (this : Z) (data : T) (l : t T) :=
  remove_if fuel this (fun each => bool_decide (each = data)) l.

Fixpoint clear (fuel : nat) (this : Z) (l : t T) : option (outcome (t T)) :=
  match fuel with
  | O => None
  | S fuel =>
    if m_size l =? 0 then Some (Done l)
    else match erase this l (begin_ this l) with
         | Terminated e => Some (Terminated e)
         | Done (l, _) => clear fuel this l
         end
  end.

Definition dtor (fuel : nat) (this : Z) (l : t T) := clear fuel this l.

(** *** Copy and move *)

(** The three loops of the assignments; [move] tells whether the elements of [rhs]
    are moved from. *)
Fixpoint assign_loop (move : option (T -> T)) (n : nat) (l rhs : t T) (iterThis citerRhs : iterator) :
    outcome (t T * t T * iterator * iterator) :=
  match n with
  | O => Done (l, rhs, iterThis, citerRhs)
  | S n =>
    let* x := deref rhs citerRhs in
    let* l := assign_at l iterThis x in
    let* rhs := match move with Some moved => assign_at rhs citerRhs (moved x) | None => Done rhs end in
    let* iterThis := increment l iterThis in
    let* citerRhs := increment rhs citerRhs in
    assign_loop move n l rhs iterThis citerRhs
  end.

Fixpoint append_loop (move : option (T -> T)) (n : nat) (this : Z) (l rhs : t T) (citerRhs : iterator) :
    outcome (t T * t T) :=
  match n with
  | O => Done (l, rhs)
  | S n =>
    let* x := deref rhs citerRhs in
    let* '(l, _) := emplace this l (end_ this l) x in
    let* rhs := match move with Some moved => assign_at rhs citerRhs (moved x) | None => Done rhs end in
    let* citerRhs := increment rhs citerRhs in
    append_loop move n this l rhs citerRhs
  end.

Fixpoint erase_loop (n : nat) (this : Z) (l : t T) (iterThis : iterator) : outcome (t T) :=
  match n with
  | O => Done l
  | S n => let* '(l, iterThis) := erase this l iterThis in erase_loop n this l iterThis
  end.

Definition assign (move : option (T -> T)) (this : Z) (l : t T) (that : Z) (rhs : t T) :
    outcome (t T * t T) :=
  let startSize := size l in
  let minOfLhsRhsSize := Z.min (size rhs) startSize in
  let* '(l, rhs, iterThis, citerRhs) :=
    assign_loop move (Z.to_nat minOfLhsRhsSize) l rhs (begin_ this l) (begin_ that rhs) in
  let i := Z.max minOfLhsRhsSize (size rhs) in (* after the second loop *)
  let* '(l, rhs) :=
    append_loop move (Z.to_nat (size rhs - minOfLhsRhsSize)) this l rhs citerRhs in
  let* l := erase_loop (Z.to_nat (startSize - i)) this l iterThis in
  Done (l, rhs).

Definition copy_assign (this : Z) (l : t T) (that : Z) (rhs : t T) : outcome (t T) :=
  if this =? that then Done l
  else let* '(l, _) := assign None this l that rhs in Done l.

Definition move_assign (moved : T -> T) (this : Z) (l : t T) (that : Z) (rhs : t T) :
    outcome (t T * t T) :=
  if this =? that then Done (l, l)
  else
    let* '(l, rhs) := assign (Some moved) this l that rhs in
    let* rhs := default (Terminated DOES_NOT_RETURN) (clear (S (Z.to_nat (m_size rhs))) that rhs) in
    Done (l, rhs).

Definition copy_ctor (this : Z) (links : list NodeLink) (that : Z) (rhs : t T) : outcome (t T) :=
  copy_assign this (ctor links) that rhs.

(** The move constructor appends before the position that was the end of the empty
    list. *)
Fixpoint move_loop (moved : T -> T) (fuel : nat) (this : Z) (l rhs : t T) (it element : iterator)
    (that : Z) : option (outcome (t T * t T)) :=
  match fuel with
  | O => None
  | S fuel =>
    match iterator_eqb rhs element (end_ that rhs) with
    | Terminated e => Some (Terminated e)
    | Done true => Some (Done (l, rhs))
    | Done false =>
      match (let* x := deref rhs element in
             let* '(l, _) := emplace this l it x in
             let* rhs := assign_at rhs element (moved x) in
             let* element := increment rhs element in Done (l, rhs, element)) with
      | Terminated e => Some (Terminated e)
      | Done (l, rhs, element) => move_loop moved fuel this l rhs it element that
      end
    end
  end.

Definition move_ctor (moved : T -> T) (fuel : nat) (this : Z) (links : list NodeLink) (that : Z) (rhs : t T) :
    outcome (t T * t T) :=
  let l := ctor links in
  let* '(l, rhs) :=
    default (Terminated DOES_NOT_RETURN)
      (move_loop moved fuel this l rhs (begin_ this l) (begin_ that rhs) that) in
  let* rhs := default (Terminated DOES_NOT_RETURN) (clear fuel that rhs) in
  Done (l, rhs).

End ops.
End CxxList.

(** ** Representation

    The abstract state is the list of the cells in use with their values, in the order
    of iteration.  An iterator is a cell; it stays with its element. *)

Module CxxListSpec.
Import Path CxxList.

Section spec.
Context {T : Type} (Capacity : Z).
Hypothesis Hcap : 0 < Capacity < UINT64_MAX.
Implicit Types (l : t T) (cs : list (Z * T)) (fl : list Z).

Notation END := (BEGIN_END_LINK_INDEX Capacity).
Notation INVALID := (INVALID_INDEX Capacity).

Record Rep l cs fl : Prop := {
  rep_links : Z.of_nat (length (m_links l)) = Capacity + 1;
  rep_length : Z.of_nat (length (m_data l)) = Capacity;
  rep_next : path (getNextIdx l) END cs.*1 END;
  rep_prev : path (getPrevIdx l) END (reverse cs.*1) END;
  rep_free : chain (getNextIdx l) (m_freeListHeadIdx l) fl END;
  rep_marked : forall i, i ∈ fl -> getPrevIdx l i = INVALID;
  rep_cells : cs.*1 ++ fl ≡ₚ seqZ 0 Capacity;
  rep_values : forall i x, (i, x) ∈ cs -> aget None (m_data l) i = Some x;
  rep_empty : forall i, i ∈ fl -> aget None (m_data l) i = None;
  rep_size : m_size l = Z.of_nat (length cs) }.

(** *** Reading and writing links *)

Definition links_ok l : Prop := Z.of_nat (length (m_links l)) = Capacity + 1.

Lemma links_range l i : links_ok l -> 0 <= i <= Capacity -> in_range (m_links l) i.
Proof. unfold links_ok, in_range. lia. Qed.

Lemma next_setNext l i v j : links_ok l -> 0 <= i <= Capacity ->
  getNextIdx (setNextIdx l i v) j = upd (getNextIdx l) i v j.
Proof.
  intros. unfold getNextIdx at 1, setNextIdx, getLink, upd; cbn [m_links].
  rewrite aget_aset by by apply links_range. by case_decide.
Qed.

Lemma prev_setPrev l i v j : links_ok l -> 0 <= i <= Capacity ->
  getPrevIdx (setPrevIdx l i v) j = upd (getPrevIdx l) i v j.
Proof.
  intros. unfold getPrevIdx at 1, setPrevIdx, getLink, upd; cbn [m_links].
  rewrite aget_aset by by apply links_range. by case_decide.
Qed.

Lemma prev_setNext l i v j : links_ok l -> 0 <= i <= Capacity ->
  getPrevIdx (setNextIdx l i v) j = getPrevIdx l j.
Proof.
  intros. unfold getPrevIdx at 1, setNextIdx, getLink; cbn [m_links].
  rewrite aget_aset by by apply links_range. case_decide; by subst.
Qed.

Lemma next_setPrev l i v j : links_ok l -> 0 <= i <= Capacity ->
  getNextIdx (setPrevIdx l i v) j = getNextIdx l j.
Proof.
  intros. unfold getNextIdx at 1, setPrevIdx, getLink; cbn [m_links].
  rewrite aget_aset by by apply links_range. case_decide; by subst.
Qed.

Lemma links_ok_setNext l i v : links_ok (setNextIdx l i v) <-> links_ok l.
Proof. unfold links_ok, setNextIdx. cbn. by rewrite length_aset. Qed.

Lemma links_ok_setPrev l i v : links_ok (setPrevIdx l i v) <-> links_ok l.
Proof. unfold links_ok, setPrevIdx. cbn. by rewrite length_aset. Qed.

(** The other setters do not touch the links. *)
Lemma getNext_set_free l i j : getNextIdx (set_free l i) j = getNextIdx l j. Proof. done. Qed.
Lemma getPrev_set_free l i j : getPrevIdx (set_free l i) j = getPrevIdx l j. Proof. done. Qed.
Lemma getNext_set_size l i j : getNextIdx (set_size l i) j = getNextIdx l j. Proof. done. Qed.
Lemma getPrev_set_size l i j : getPrevIdx (set_size l i) j = getPrevIdx l j. Proof. done. Qed.
Lemma getNext_set_cell l i x j : getNextIdx (set_cell l i x) j = getNextIdx l j. Proof. done. Qed.
Lemma getPrev_set_cell l i x j : getPrevIdx (set_cell l i x) j = getPrevIdx l j. Proof. done. Qed.
Lemma links_ok_set_free l i : links_ok (set_free l i) <-> links_ok l. Proof. done. Qed.
Lemma links_ok_set_size l i : links_ok (set_size l i) <-> links_ok l. Proof. done. Qed.
Lemma links_ok_set_cell l i x : links_ok (set_cell l i x) <-> links_ok l. Proof. done. Qed.

Ltac links_ok_tac :=
  repeat first [rewrite links_ok_setNext | rewrite links_ok_setPrev | rewrite links_ok_set_free
    | rewrite links_ok_set_size | rewrite links_ok_set_cell]; assumption.

Ltac links :=
  repeat first
    [ rewrite getNext_set_free | rewrite getPrev_set_free | rewrite getNext_set_size
    | rewrite getPrev_set_size | rewrite getNext_set_cell | rewrite getPrev_set_cell
    | rewrite next_setNext by first [links_ok_tac | lia]
    | rewrite prev_setPrev by first [links_ok_tac | lia]
    | rewrite prev_setNext by first [links_ok_tac | lia]
    | rewrite next_setPrev by first [links_ok_tac | lia] ].

(** *** What the representation gives *)

Lemma rep_cell_range l cs fl i : Rep l cs fl -> i ∈ cs.*1 ++ fl <-> 0 <= i < Capacity.
Proof. intros H. rewrite (rep_cells _ _ _ H), elem_of_seqZ. lia. Qed.

Lemma rep_NoDup l cs fl : Rep l cs fl -> NoDup (cs.*1 ++ fl).
Proof. intros H. rewrite (rep_cells _ _ _ H). apply NoDup_seqZ. Qed.

Lemma rep_used_range l cs fl i : Rep l cs fl -> i ∈ cs.*1 -> 0 <= i < Capacity.
Proof. intros H Hi. apply (rep_cell_range _ _ _ i H). set_solver. Qed.

Lemma list_rep_free_range l cs fl i : Rep l cs fl -> i ∈ fl -> 0 <= i < Capacity.
Proof. intros H Hi. apply (rep_cell_range _ _ _ i H). set_solver. Qed.

Lemma rep_END_fresh l cs fl : Rep l cs fl -> END ∉ cs.*1 ++ fl.
Proof. intros H Hi. apply (rep_cell_range _ _ _ _ H) in Hi. unfold BEGIN_END_LINK_INDEX in Hi. lia. Qed.

Lemma list_rep_count l cs fl : Rep l cs fl -> Z.of_nat (length cs) + Z.of_nat (length fl) = Capacity.
Proof.
  intros H. pose proof (Permutation_length (rep_cells _ _ _ H)) as E.
  rewrite length_app, length_fmap, length_seqZ in E. lia.
Qed.

Lemma rep_NoDup_END l cs fl : Rep l cs fl -> NoDup (END :: cs.*1).
Proof.
  intros H. pose proof (rep_NoDup _ _ _ H) as Hn. pose proof (rep_END_fresh _ _ _ H).
  apply NoDup_app in Hn as (? & _ & _). apply NoDup_cons. split; [set_solver|done].
Qed.

Lemma rep_head_free l cs fl : Rep l cs fl -> head_or END fl = m_freeListHeadIdx l.
Proof. intros H. pose proof (rep_free _ _ _ H). destruct fl; cbn in *; intuition. Qed.

(** The neighbours of a position. *)
Lemma rep_prev_of l c1 c2 fl : Rep l (c1 ++ c2) fl ->
  getPrevIdx l (head_or END c2.*1) = tail_of END c1.*1.
Proof.
  intros H. pose proof (rep_prev _ _ _ H) as Hp. rewrite fmap_app, reverse_app in Hp.
  apply path_app in Hp as [_ Hp]. rewrite tail_of_reverse in Hp.
  by rewrite (path_head _ _ _ _ Hp), head_or_reverse.
Qed.

Lemma rep_next_of l c1 c2 fl : Rep l (c1 ++ c2) fl ->
  getNextIdx l (tail_of END c1.*1) = head_or END c2.*1.
Proof.
  intros H. pose proof (rep_next _ _ _ H) as Hp. rewrite fmap_app in Hp.
  apply path_app in Hp as [_ Hp]. by apply path_head in Hp.
Qed.

Lemma head_or_range l c1 c2 fl : Rep l (c1 ++ c2) fl -> 0 <= head_or END c2.*1 <= Capacity.
Proof.
  intros H. destruct c2 as [|[i x] c2]; cbn; [unfold BEGIN_END_LINK_INDEX; lia|].
  assert (0 <= i < Capacity); [|lia]. eapply rep_used_range; [exact H|]. rewrite fmap_app. set_solver.
Qed.

Lemma tail_of_range l c1 c2 fl : Rep l (c1 ++ c2) fl -> 0 <= tail_of END c1.*1 <= Capacity.
Proof.
  intros H. pose proof (tail_of_elem END c1.*1) as Hi. apply elem_of_cons in Hi as [->|Hi].
  { unfold BEGIN_END_LINK_INDEX; lia. }
  assert (0 <= tail_of END c1.*1 < Capacity); [|lia].
  eapply rep_used_range; [exact H|]. rewrite fmap_app. set_solver.
Qed.

(** A position: a cell in use, or the end. *)
Lemma rep_valid l c1 c2 fl : Rep l (c1 ++ c2) fl ->
  (getPrevIdx l (head_or END c2.*1) <? INVALID) = true.
Proof.
  intros H. rewrite (rep_prev_of _ _ _ _ H). pose proof (tail_of_range _ _ _ _ H).
  unfold INVALID_INDEX, NODE_LINK_COUNT. apply Z.ltb_lt. lia.
Qed.

Lemma rep_valid_iter this l c1 c2 fl : Rep l (c1 ++ c2) fl ->
  isInvalidIterOrDifferentLists Capacity this l (iter this (head_or END c2.*1)) = Done false.
Proof.
  intros H. unfold isInvalidIterOrDifferentLists, isInvalidIterator. cbn [m_list m_iterListNodeIdx].
  rewrite Z.eqb_refl. cbn [expects]. rewrite (rep_valid _ _ _ _ H). done.
Qed.

Lemma rep_valid_idx l c1 i x c2 fl : Rep l (c1 ++ (i, x) :: c2) fl ->
  isValidElementIdx Capacity l i = true.
Proof.
  intros H. unfold isValidElementIdx. pose proof (rep_valid _ _ _ _ H) as Hv. cbn in Hv. rewrite Hv.
  assert (0 <= i < Capacity).
  { eapply rep_used_range; [exact H|]. rewrite fmap_app. set_solver. }
  apply andb_true_iff. split; [apply Z.ltb_lt; lia|done].
Qed.

Lemma END_not_element l : isValidElementIdx Capacity l END = false.
Proof. unfold isValidElementIdx, BEGIN_END_LINK_INDEX. by rewrite Z.ltb_irrefl. Qed.

Lemma rep_deref l c1 i x c2 fl this : Rep l (c1 ++ (i, x) :: c2) fl ->
  deref Capacity l (iter this i) = Done x.
Proof.
  intros H. unfold deref, getDataPtrFromIdx. cbn [m_iterListNodeIdx].
  rewrite (rep_valid_idx _ _ _ _ _ _ H). cbn [expects].
  by rewrite (rep_values _ _ _ H i x) by set_solver.
Qed.

Lemma fl_in_links l cs k fl' : Rep l cs (k :: fl') -> 0 <= k < Capacity.
Proof. intros H. eapply list_rep_free_range; [exact H|set_solver]. Qed.

(** *** Insertion *)

Lemma free_not_neighbour l c1 c2 fl j : Rep l (c1 ++ c2) fl -> j ∈ fl ->
  j <> head_or END c2.*1 /\ j <> tail_of END c1.*1 /\ j ∉ END :: (c1 ++ c2).*1.
Proof.
  intros H Hj. assert (j ∉ END :: (c1 ++ c2).*1) as Hn.
  { pose proof (rep_NoDup _ _ _ H) as Hnd. pose proof (rep_END_fresh _ _ _ H) as HE.
    apply NoDup_app in Hnd as (_ & Hd & _).
    intros [->|Hin]%elem_of_cons; [set_solver|]. by apply (Hd j Hin). }
  split_and!; [| |done]; intros E; apply Hn; rewrite fmap_app, E.
  - destruct c2 as [|[i y] c2]; cbn; set_solver.
  - pose proof (tail_of_elem END c1.*1). set_solver.
Qed.

Lemma free_NoDup l cs k fl j : Rep l cs (k :: fl) -> j ∈ fl -> j <> k.
Proof.
  intros H Hj ->. pose proof (rep_NoDup _ _ _ H) as Hnd.
  apply NoDup_app in Hnd as (_ & _ & Hnd). by apply NoDup_cons in Hnd as [? ?].
Qed.

Lemma data_range l cs fl i : Rep l cs fl -> 0 <= i < Capacity -> in_range (m_data l) i.
Proof. intros H ?. unfold in_range. by rewrite (rep_length _ _ _ H). Qed.

(** The links after linking the free entry [k] in between its neighbours. *)
Lemma insert_paths l c1 c2 k fl (nx pv : Z -> Z) x :
  Rep l (c1 ++ c2) (k :: fl) ->
  let c := head_or END c2.*1 in let p := tail_of END c1.*1 in
  (forall j, nx j = upd (upd (getNextIdx l) k c) p k j) ->
  (forall j, pv j = upd (upd (getPrevIdx l) k p) c k j) ->
  path nx END (c1 ++ (k, x) :: c2).*1 END /\
  path pv END (reverse (c1 ++ (k, x) :: c2).*1) END /\
  chain nx (getNextIdx l k) fl END /\
  (forall i, i ∈ fl -> pv i = INVALID).
Proof.
  intros H c p Hnx Hpv.
  destruct (free_not_neighbour l c1 c2 (k :: fl) k H) as (Hkc & Hkp & Hkf); [set_solver|].
  pose proof (rep_NoDup_END _ _ _ H) as HndE.
  pose proof (rep_free _ _ _ H) as Hfree. cbn [chain] in Hfree. destruct Hfree as [_ Hfree].
  rewrite fmap_app in *. cbn [fmap list_fmap fst]. split_and!.
  - eapply path_ext; [intros j _; symmetry; apply Hnx|]. apply path_insert; [done|done|].
    rewrite <- fmap_app. apply H.
  - rewrite reverse_app, reverse_cons, <- app_assoc. cbn [app].
    eapply path_ext; [|apply (path_insert (getPrevIdx l) END (reverse c2.*1) (reverse c1.*1) END k)].
    + intros j _. by rewrite Hpv, tail_of_reverse, head_or_reverse.
    + rewrite <- reverse_app. apply NoDup_cons in HndE as [? ?].
      apply NoDup_cons. rewrite elem_of_reverse, reverse_Permutation. done.
    + rewrite <- reverse_app, elem_of_cons, elem_of_reverse. set_solver.
    + rewrite <- reverse_app, <- fmap_app. apply H.
  - eapply chain_ext; [|exact Hfree]. intros j Hj. rewrite Hnx.
    destruct (free_not_neighbour l c1 c2 (k :: fl) j H) as (? & ? & _); [set_solver|].
    pose proof (free_NoDup _ _ _ _ _ H Hj). rewrite !upd_ne by done. done.
  - intros j Hj. rewrite Hpv.
    destruct (free_not_neighbour l c1 c2 (k :: fl) j H) as (? & ? & _); [set_solver|].
    pose proof (free_NoDup _ _ _ _ _ H Hj). rewrite !upd_ne by done. apply H. set_solver.
Qed.

(** The values after constructing [x] in the entry [k]. *)
Lemma insert_values l c1 c2 k fl x :
  Rep l (c1 ++ c2) (k :: fl) ->
  (forall i y, (i, y) ∈ c1 ++ (k, x) :: c2 -> aget None (aset (m_data l) k (Some x)) i = Some y) /\
  (forall i, i ∈ fl -> aget None (aset (m_data l) k (Some x)) i = None).
Proof.
  intros H. pose proof (fl_in_links _ _ _ _ H) as Hk. pose proof (data_range _ _ _ _ H Hk) as Hr.
  destruct (free_not_neighbour l c1 c2 (k :: fl) k H) as (_ & _ & Hkf); [set_solver|]. split.
  - intros i y Hi. rewrite aget_aset by done. case_decide as Eik.
    + subst i. assert ((k, y) ∉ c1 ++ c2) as Hn.
      { intros Hin. apply Hkf, elem_of_cons. right. apply list_elem_of_fmap. by exists (k, y). }
      assert ((k, y) = (k, x)) as [= ->] by set_solver. done.
    + apply H. apply elem_of_app in Hi. rewrite elem_of_cons in Hi. apply elem_of_app.
      destruct Hi as [?|[[= ? ?]|?]]; [by left|congruence|by right].
  - intros i Hi. rewrite aget_aset_ne; [apply H; set_solver|].
    intros ->. by apply (free_NoDup _ _ _ _ _ H Hi).
Qed.

Lemma emplace_Rep this l c1 c2 k fl x :
  Rep l (c1 ++ c2) (k :: fl) ->
  exists l', emplace Capacity this l (iter this (head_or END c2.*1)) x = Done (l', iter this k) /\
             Rep l' (c1 ++ (k, x) :: c2) fl.
Proof.
  intros H. unfold emplace. rewrite (rep_valid_iter _ _ _ _ _ H). cbn [obind].
  pose proof (list_rep_count _ _ _ H) as Hc. cbn [length] in Hc. rewrite (rep_size _ _ _ H).
  destruct (Z.leb_spec Capacity (Z.of_nat (length (c1 ++ c2)))); [lia|].
  rewrite <- (rep_head_free _ _ _ H). change (head_or END (k :: fl)) with k. cbn [m_iterListNodeIdx].
  pose proof (insert_paths l c1 c2 k fl) as Hpaths. pose proof (insert_values _ _ _ _ _ x H) as Hvals.
  assert (links_ok l) as Hl by apply H. pose proof (fl_in_links _ _ _ _ H) as Hk.
  destruct (free_not_neighbour l c1 c2 (k :: fl) k H) as (Hkc & Hkp & Hkf); [set_solver|].
  pose proof (head_or_range _ _ _ _ H) as Hcr. pose proof (tail_of_range _ _ _ _ H) as Hpr.
  pose proof (rep_prev_of _ _ _ _ H) as Hpc. rewrite getPrev_set_free, Hpc.
  specialize (fun nx pv => Hpaths nx pv x H). cbn zeta in Hpaths.
  set (c := head_or END c2.*1) in *. set (p := tail_of END c1.*1) in *. clearbody c p.
  set (l1 := setNextIdx _ k c).
  assert (forall j, getPrevIdx l1 j = upd (getPrevIdx l) k p j) as Hp1 by (intros j; subst l1; links; unfold upd; links; done).
  assert (isValidElementIdx Capacity l1 k = true) as ->.
  { unfold isValidElementIdx, INVALID_INDEX, NODE_LINK_COUNT. rewrite Hp1, upd_eq.
    apply andb_true_iff. split; apply Z.ltb_lt; lia. }
  cbn [expects]. eexists. split; [reflexivity|].
  rewrite getPrev_set_cell, Hp1, upd_ne, Hpc by done.
  assert (links_ok l1) as Hl1 by (subst l1; links_ok_tac).
  assert (forall j, getNextIdx l1 j = upd (getNextIdx l) k c j) as Hn1 by (intros j; subst l1; links; unfold upd; links; done).
  edestruct Hpaths as (P1 & P2 & P3 & P4); cycle 2.
  - split; [..|exact P1|exact P2|exact P3|exact P4| | | |].
    + unfold set_size, setPrevIdx, setNextIdx, set_cell. cbn [m_links]. by rewrite !length_aset.
    + cbn. rewrite length_aset. apply H.
    + rewrite fmap_app, <- (rep_cells _ _ _ H), fmap_app. cbn. solve_Permutation.
    + apply Hvals.
    + apply Hvals.
    + cbn [m_size set_size setPrevIdx setNextIdx set_cell set_free]. subst l1. cbn [m_size set_size setPrevIdx setNextIdx set_cell set_free].
      rewrite (rep_size _ _ _ H), !length_app in *. cbn [length].
      rewrite u64_small; [lia|]. unfold UINT64_MAX in Hcap. lia.
  - intros j. links. unfold upd. links. by rewrite Hn1.
  - intros j. links. unfold upd. links. by rewrite Hp1.
Qed.

(** *** Removal *)

Lemma used_facts l c1 e x c2 fl : Rep l (c1 ++ (e, x) :: c2) fl ->
  0 <= e < Capacity /\ e ∉ END :: c1.*1 ++ c2.*1 /\ e ∉ fl /\
  e <> head_or END c2.*1 /\ e <> tail_of END c1.*1.
Proof.
  intros H. pose proof (rep_NoDup _ _ _ H) as Hnd. pose proof (rep_NoDup_END _ _ _ H) as HE.
  assert (0 <= e < Capacity) by (eapply rep_used_range; [exact H|rewrite fmap_app; set_solver]).
  rewrite fmap_app in *. cbn [fmap list_fmap fst] in *.
  assert (e ∉ END :: c1.*1 ++ c2.*1) as He.
  { rewrite app_comm_cons in HE. apply (NoDup_app (END :: c1.*1) (e :: c2.*1)) in HE as (_ & Hd & He).
    apply NoDup_cons in He as [He _]. intros Hin. rewrite app_comm_cons, elem_of_app in Hin.
    destruct Hin as [Hin|Hin]; [|done]. apply (Hd e Hin). set_solver. }
  split; [done|]. split_and!; [done| | |].
  - apply NoDup_app in Hnd as (_ & Hd & _). apply Hd. set_solver.
  - intros E. apply He. rewrite E. destruct c2 as [|[i y] c2]; cbn; set_solver.
  - intros E. apply He. rewrite E. pose proof (tail_of_elem END c1.*1). set_solver.
Qed.

Lemma rep_next_elem l c1 e x c2 fl : Rep l (c1 ++ (e, x) :: c2) fl ->
  getNextIdx l e = head_or END c2.*1.
Proof.
  intros H. rewrite cons_middle, app_assoc in H. rewrite <- (rep_next_of _ _ _ _ H).
  rewrite fmap_app. cbn [fmap list_fmap fst]. by rewrite tail_of_app.
Qed.

Lemma erase_paths l c1 e x c2 fl (nx pv : Z -> Z) :
  Rep l (c1 ++ (e, x) :: c2) fl ->
  let r := head_or END c2.*1 in let p := tail_of END c1.*1 in
  (forall j, nx j = upd (upd (getNextIdx l) p r) e (m_freeListHeadIdx l) j) ->
  (forall j, pv j = upd (upd (getPrevIdx l) r p) e INVALID j) ->
  path nx END (c1 ++ c2).*1 END /\ path pv END (reverse (c1 ++ c2).*1) END /\
  chain nx e (e :: fl) END /\ (forall i, i ∈ e :: fl -> pv i = INVALID).
Proof.
  intros H r p Hnx Hpv. destruct (used_facts _ _ _ _ _ _ H) as (He & Hout & Hfl & Her & Hep).
  pose proof (rep_NoDup_END _ _ _ H) as HndE.
  pose proof (rep_next_elem _ _ _ _ _ _ H) as Hne. pose proof (rep_prev_of _ _ _ _ H) as Hpe.
  cbn in Hpe. fold r in Hne. fold p in Hpe.
  assert (forall j, j ∈ fl -> j <> r /\ j <> p) as Hfree.
  { intros j Hj. rewrite cons_middle, app_assoc in H.
    destruct (free_not_neighbour _ _ _ _ j H Hj) as (? & _ & Hn). split; [done|].
    intros ->. apply Hn. rewrite fmap_app, fmap_app.
    pose proof (tail_of_elem END c1.*1). subst p. set_solver. }
  split_and!.
  - rewrite fmap_app. eapply path_ext; [intros j _; symmetry; apply Hnx|].
    apply path_upd_out; [done|]. rewrite <- Hne. apply path_erase.
    + by rewrite fmap_app in HndE.
    + pose proof (rep_next _ _ _ H) as Hp. by rewrite fmap_app in Hp.
  - rewrite fmap_app, reverse_app. eapply path_ext; [intros j _; symmetry; apply Hpv|].
    apply path_upd_out; [rewrite <- reverse_app, elem_of_cons, elem_of_reverse; set_solver|].
    unfold r. rewrite <- Hpe, <- tail_of_reverse.
    assert (reverse (c1 ++ (e, x) :: c2).*1 = reverse c2.*1 ++ e :: reverse c1.*1) as E.
    { rewrite fmap_app. cbn. by rewrite reverse_app, reverse_cons, <- app_assoc. }
    apply path_erase; [|rewrite <- E; apply H]. rewrite <- E. apply NoDup_cons in HndE as [? ?].
    apply NoDup_cons. rewrite elem_of_reverse, reverse_Permutation. done.
  - cbn [chain]. split; [done|]. rewrite Hnx, upd_eq.
    eapply chain_ext; [|apply H]. intros j Hj. destruct (Hfree j Hj). rewrite Hnx.
    assert (e <> j) by (intros ->; done). by rewrite !upd_ne by done.
  - intros i Hi. rewrite Hpv. apply elem_of_cons in Hi as [->|Hi]; [apply upd_eq|].
    destruct (Hfree i Hi). assert (e <> i) by (intros ->; done). rewrite !upd_ne by done. by apply H.
Qed.

Lemma erase_values l c1 e x c2 fl :
  Rep l (c1 ++ (e, x) :: c2) fl ->
  (forall i y, (i, y) ∈ c1 ++ c2 -> aget None (aset (m_data l) e None) i = Some y) /\
  (forall i, i ∈ e :: fl -> aget None (aset (m_data l) e None) i = None).
Proof.
  intros H. destruct (used_facts _ _ _ _ _ _ H) as (He & Hout & Hfl & _ & _).
  pose proof (data_range _ _ _ _ H He) as Hr. split.
  - intros i y Hi. rewrite aget_aset_ne; [apply H; set_solver|].
    intros ->. apply Hout, elem_of_cons. right. rewrite <- fmap_app. apply list_elem_of_fmap. by exists (i, y).
  - intros i [->|Hi]%elem_of_cons; [by rewrite aget_aset_eq|].
    rewrite aget_aset_ne; [by apply H|]. by intros ->.
Qed.

Lemma erase_Rep this l c1 e x c2 fl :
  Rep l (c1 ++ (e, x) :: c2) fl ->
  exists l', erase Capacity this l (iter this e) = Done (l', iter this (head_or END c2.*1)) /\
             Rep l' (c1 ++ c2) (e :: fl).
Proof.
  intros H. unfold erase.
  pose proof (rep_valid_iter this _ _ _ _ H) as Hv. cbn in Hv. rewrite Hv. cbn [obind m_iterListNodeIdx].
  rewrite (rep_valid_idx _ _ _ _ _ _ H). unfold empty. rewrite (rep_size _ _ _ H).
  destruct (Z.eqb_spec (Z.of_nat (length (c1 ++ (e, x) :: c2))) 0) as [E|_];
    [rewrite length_app in E; cbn in E; lia|]. cbn [negb orb].
  rewrite (rep_next_elem _ _ _ _ _ _ H). pose proof (rep_prev_of _ _ _ _ H) as Hpe. cbn in Hpe. rewrite Hpe.
  pose proof (fun nx pv => erase_paths l c1 e x c2 fl nx pv H) as Hpaths. cbn zeta in Hpaths.
  pose proof (erase_values _ _ _ _ _ _ H) as Hvals.
  destruct (used_facts _ _ _ _ _ _ H) as (He & _ & _ & Her & Hep).
  assert (links_ok l) as Hl by apply H.
  assert (0 <= head_or END c2.*1 <= Capacity) as Hr.
  { rewrite cons_middle, app_assoc in H. by apply (head_or_range _ _ _ _ H). }
  pose proof (tail_of_range _ _ _ _ H) as Hp.
  set (r := head_or END c2.*1) in *. set (p := tail_of END c1.*1) in *. clearbody r p.
  rewrite prev_setPrev by (try assumption; lia). rewrite upd_ne, Hpe by done.
  set (l1 := setNextIdx _ p r). assert (links_ok l1) as Hl1 by (subst l1; links_ok_tac).
  assert (forall j, getNextIdx l1 j = upd (getNextIdx l) p r j) as Hn1
    by (intros j; subst l1; links; unfold upd; links; done).
  assert (forall j, getPrevIdx l1 j = upd (getPrevIdx l) r p j) as Hp1
    by (intros j; subst l1; links; unfold upd; links; done).
  assert (deref Capacity l1 (iter this e) = Done x) as ->.
  { unfold deref, getDataPtrFromIdx, isValidElementIdx. cbn [m_iterListNodeIdx].
    rewrite Hp1, upd_ne, Hpe by done. unfold INVALID_INDEX, NODE_LINK_COUNT.
    rewrite (proj2 (Z.ltb_lt _ _)), (proj2 (Z.ltb_lt _ _)) by lia. cbn [andb expects].
    subst l1. cbn [m_data setNextIdx setPrevIdx]. by rewrite (rep_values _ _ _ H e x) by set_solver. }
  cbn [obind]. eexists. split; [reflexivity|].
  edestruct Hpaths as (P1 & P2 & P3 & P4); cycle 2.
  - split; [..|exact P1|exact P2|exact P3|exact P4| | | |].
    + unfold set_size, set_free, setPrevIdx, setNextIdx, set_cell. cbn [m_links]. by rewrite !length_aset.
    + cbn. rewrite length_aset. apply H.
    + rewrite fmap_app, <- (rep_cells _ _ _ H), fmap_app. cbn. solve_Permutation.
    + apply Hvals.
    + apply Hvals.
    + cbn. rewrite (rep_size _ _ _ H). pose proof (list_rep_count _ _ _ H) as Hc.
      rewrite !length_app in *. cbn [length] in *. rewrite u64_small; [lia|]. unfold UINT64_MAX in Hcap. lia.
  - intros j. links. unfold upd. links. by rewrite Hn1.
  - intros j. links. unfold upd. links. by rewrite Hp1.
Qed.

(** *** Construction *)

Lemma init_entries_spec js l : links_ok l -> (forall i, i ∈ js -> 0 <= i <= Capacity) ->
  let l' := foldl (init_entry Capacity) l js in
  links_ok l' /\ m_data l' = m_data l /\
  (forall j, getNextIdx l' j = if decide (j ∈ js) then j + 1 else getNextIdx l j) /\
  (forall j, getPrevIdx l' j = if decide (j ∈ js) then INVALID else getPrevIdx l j).
Proof.
  revert l. induction js as [|i js IH]; intros l Hl Hr; cbn [foldl].
  { split_and!; [done|done| |]; intros j; case_decide as Hin; set_solver. }
  assert (0 <= i <= Capacity) by set_solver.
  destruct (IH (init_entry Capacity l i)) as (Hl' & Hd & Hn & Hp).
  { unfold init_entry. by links_ok_tac. }
  { set_solver. }
  split_and!; [done|by rewrite Hd| |]; intros j.
  - rewrite Hn. unfold init_entry. links. unfold upd. links. repeat case_decide; set_solver by lia.
  - rewrite Hp. unfold init_entry. links. unfold upd. links. repeat case_decide; set_solver by lia.
Qed.

Lemma ctor_Rep links : Z.of_nat (length links) = Capacity + 1 ->
  Rep (ctor Capacity links) [] (seqZ 0 Capacity).
Proof.
  intros Hlen. unfold ctor, init.
  set (l0 := setNextIdx (setPrevIdx (uninitialized Capacity links) 0 INVALID) 0 1).
  assert (links_ok (uninitialized (T := T) Capacity links)) as Hu by done.
  assert (links_ok l0) as Hl0 by (subst l0; by links_ok_tac).
  destruct (init_entries_spec (seqZ 1 (END - 1 - 1)) l0 Hl0) as (Hl & Hd & Hn & Hp).
  { intros i. rewrite elem_of_seqZ. unfold BEGIN_END_LINK_INDEX. lia. }
  set (l1 := foldl _ _ _) in *. clearbody l1.
  assert (forall j, getNextIdx l0 j = upd (getNextIdx (uninitialized (T := T) Capacity links)) 0 1 j) as Hn0
    by (intros j; subst l0; links; unfold upd; links; done).
  assert (forall j, getPrevIdx l0 j = upd (getPrevIdx (uninitialized (T := T) Capacity links)) 0 INVALID j) as Hp0
    by (intros j; subst l0; links; unfold upd; links; done).
  unfold BEGIN_END_LINK_INDEX in *.
  split; unfold BEGIN_END_LINK_INDEX in *;
    cbn [m_size m_data m_freeListHeadIdx set_size set_free fmap list_fmap app path length].
  - unfold set_size, set_free, setPrevIdx, setNextIdx. cbn [m_links]. by rewrite !length_aset.
  - cbn. rewrite Hd. cbn. rewrite length_replicate. lia.
  - links. by rewrite upd_eq.
  - change (reverse []) with (@nil Z). cbn [path]. links. by rewrite upd_eq.
  - assert (Capacity = Z.of_nat (Z.to_nat Capacity)) as HC by lia.
    replace (seqZ 0 Capacity) with (seqZ 0 (Z.of_nat (Z.to_nat Capacity))) by (f_equal; lia).
    apply chain_seqZ; [|lia]. intros j Hj. links. unfold upd. links. unfold upd. links.
    rewrite Hn, Hn0. unfold upd.
    repeat case_decide; rewrite ?elem_of_seqZ in *; lia.
  - intros j Hj%elem_of_seqZ. links. unfold upd. links. unfold upd. links. rewrite Hp, Hp0.
    unfold upd. repeat case_decide; rewrite ?elem_of_seqZ in *; try lia; done.
  - done.
  - intros i x Hi. by apply elem_of_nil in Hi.
  - intros i Hi%elem_of_seqZ. cbn. rewrite Hd. cbn. unfold aget.
    destruct (Z.ltb_spec i 0); [done|]. by rewrite lookup_replicate_2 by lia.
  - done.
Qed.

(** *** Iterators *)

Lemma begin_spec this l cs fl : Rep l cs fl -> begin_ Capacity this l = iter this (head_or END cs.*1).
Proof. intros H. unfold begin_. f_equal. exact (rep_next_of l [] cs fl H). Qed.

Lemma increment_spec this l c1 e x c2 fl : Rep l (c1 ++ (e, x) :: c2) fl ->
  increment Capacity l (iter this e) = Done (iter this (head_or END c2.*1)).
Proof.
  intros H. unfold increment, isInvalidIterator. cbn [m_iterListNodeIdx m_list].
  pose proof (rep_valid _ _ _ _ H) as Hv. cbn in Hv. rewrite Hv. cbn [expects obind negb andb].
  by rewrite (rep_valid_idx _ _ _ _ _ _ H), (rep_next_elem _ _ _ _ _ _ H).
Qed.

Lemma increment_end this l cs fl : Rep l cs fl ->
  increment Capacity l (iter this END) = Done (iter this END).
Proof.
  intros H. unfold increment, isInvalidIterator. cbn [m_iterListNodeIdx m_list].
  rewrite <- (app_nil_r cs) in H. pose proof (rep_valid _ _ _ _ H) as Hv. cbn in Hv. rewrite Hv.
  cbn [expects obind negb andb]. by rewrite END_not_element.
Qed.

Lemma decrement_spec this l c1 c2 fl : Rep l (c1 ++ c2) fl ->
  decrement Capacity l (iter this (head_or END c2.*1)) =
  Done (iter this (if decide (c1 = []) then head_or END c2.*1 else tail_of END c1.*1)).
Proof.
  intros H. unfold decrement, isInvalidIterator. cbn [m_iterListNodeIdx m_list].
  rewrite (rep_valid _ _ _ _ H). cbn [expects obind negb andb]. rewrite (rep_prev_of _ _ _ _ H).
  destruct c1 as [|[e x] c1 _] using rev_ind.
  - cbn [fmap list_fmap]. unfold tail_of at 1. cbn. by rewrite END_not_element.
  - rewrite fmap_app. cbn [fmap list_fmap fst]. rewrite tail_of_app. rewrite <- app_assoc in H.
    rewrite (rep_valid_idx _ _ _ _ _ _ H). case_decide as E; [by destruct c1|done].
Qed.

Lemma iterator_eqb_spec this l c1 c2 d1 d2 fl : Rep l (c1 ++ c2) fl -> Rep l (d1 ++ d2) fl ->
  iterator_eqb Capacity l (iter this (head_or END c2.*1)) (iter this (head_or END d2.*1))
  = Done (head_or END c2.*1 =? head_or END d2.*1).
Proof.
  intros H H'. unfold iterator_eqb. cbn [m_list]. rewrite (rep_valid_iter _ _ _ _ _ H'). cbn [obind].
  unfold isInvalidIterator. cbn [m_iterListNodeIdx]. by rewrite (rep_valid _ _ _ _ H).
Qed.

Lemma at_end this l c1 c2 fl : Rep l (c1 ++ c2) fl ->
  iterator_eqb Capacity l (iter this (head_or END c2.*1)) (end_ Capacity this l)
  = Done (bool_decide (c2 = [])).
Proof.
  intros H. pose proof (iterator_eqb_spec this l c1 c2 (c1 ++ c2) [] fl H) as E.
  rewrite app_nil_r in E. specialize (E H). cbn in E. unfold end_. rewrite E. f_equal.
  destruct c2 as [|[e x] c2]; cbn; [by rewrite Z.eqb_refl|].
  destruct (used_facts _ _ _ _ _ _ H) as (? & _). unfold BEGIN_END_LINK_INDEX.
  destruct (Z.eqb_spec e Capacity); [lia|done].
Qed.

(** *** Errors: a full list, the end, and invalidated iterators *)

Lemma emplace_full this l c1 c2 x : Rep l (c1 ++ c2) [] ->
  emplace Capacity this l (iter this (head_or END c2.*1)) x = Done (l, end_ Capacity this l).
Proof.
  intros H. unfold emplace. rewrite (rep_valid_iter _ _ _ _ _ H). cbn [obind].
  pose proof (list_rep_count _ _ _ H) as Hc. cbn [length] in Hc. rewrite (rep_size _ _ _ H).
  destruct (Z.leb_spec Capacity (Z.of_nat (length (c1 ++ c2)))); [done|lia].
Qed.

Lemma erase_end this l cs fl : Rep l cs fl ->
  erase Capacity this l (iter this END) = Done (l, end_ Capacity this l).
Proof.
  intros H. unfold erase. rewrite <- (app_nil_r cs) in H.
  pose proof (rep_valid_iter this _ _ _ _ H) as Hv. cbn in Hv. rewrite Hv. cbn [obind m_iterListNodeIdx].
  by rewrite END_not_element.
Qed.

(** An iterator to an erased entry, or of another list, ends the process. *)
Lemma invalid_iterator_Expects this l cs fl i : Rep l cs fl -> i ∈ fl ->
  isInvalidIterator Capacity l (iter this i) = Terminated EXPECTS_ENSURES_FAILED.
Proof.
  intros H Hi. unfold isInvalidIterator. cbn [m_iterListNodeIdx].
  by rewrite (rep_marked _ _ _ H i Hi), Z.ltb_irrefl.
Qed.

Lemma deref_invalid_Expects this l cs fl i : Rep l cs fl -> i ∈ fl \/ i = END ->
  deref Capacity l (iter this i) = Terminated EXPECTS_ENSURES_FAILED.
Proof.
  intros H Hi. unfold deref, getDataPtrFromIdx. cbn [m_iterListNodeIdx].
  assert (isValidElementIdx Capacity l i = false) as ->; [|done].
  destruct Hi as [Hi| ->]; [|apply END_not_element].
  unfold isValidElementIdx. by rewrite (rep_marked _ _ _ H i Hi), Z.ltb_irrefl, andb_false_r.
Qed.

(** *** Operations at both ends *)

Lemma fl_cases l cs fl : Rep l cs fl ->
  (fl = [] /\ Z.of_nat (length cs) = Capacity) \/
  (exists k fl', fl = k :: fl' /\ Z.of_nat (length cs) < Capacity).
Proof.
  intros H. pose proof (list_rep_count _ _ _ H) as Hc. destruct fl as [|k fl']; cbn in Hc; [left; split; [done|lia]|].
  right. exists k, fl'. split; [done|lia].
Qed.

Definition full_values (xs : list T) : bool := Capacity <=? Z.of_nat (length xs).

Lemma push_at this l c1 c2 fl x : Rep l (c1 ++ c2) fl ->
  exists l' cs' fl',
    (let* l2 := if m_size l <? Capacity
                then (let* '(l2, _) := emplace Capacity this l (iter this (head_or END c2.*1)) x in Done l2)
                else Done l in
     Done (l2, m_size l2 =? u64 (m_size l + 1))) = Done (l', negb (full_values (c1 ++ c2).*2)) /\
    Rep l' cs' fl' /\
    cs'.*2 = if full_values (c1 ++ c2).*2 then (c1 ++ c2).*2 else c1.*2 ++ x :: c2.*2.
Proof.
  intros H. pose proof (rep_size _ _ _ H) as Hs. unfold full_values. rewrite length_fmap.
  destruct (fl_cases _ _ _ H) as [[-> Hc]|(k & fl' & -> & Hc)].
  - rewrite Hs. destruct (Z.ltb_spec (Z.of_nat (length (c1 ++ c2))) Capacity); [lia|].
    cbn [obind]. exists l, (c1 ++ c2), []. rewrite Hs.
    destruct (Z.leb_spec Capacity (Z.of_nat (length (c1 ++ c2)))); [|lia].
    split; [|done]. rewrite u64_small by (unfold UINT64_MAX in Hcap; lia).
    destruct (Z.eqb_spec (Z.of_nat (length (c1 ++ c2))) (Z.of_nat (length (c1 ++ c2)) + 1)); [lia|done].
  - destruct (emplace_Rep this l c1 c2 k fl' x H) as (l' & E & H').
    destruct (Z.ltb_spec (m_size l) Capacity); [|lia]. rewrite E. cbn [obind].
    exists l', (c1 ++ (k, x) :: c2), fl'.
    destruct (Z.leb_spec Capacity (Z.of_nat (length (c1 ++ c2)))); [lia|].
    split; [|split; [done|by rewrite fmap_app]].
    rewrite (rep_size _ _ _ H'), Hs. rewrite !length_app in *. cbn [length negb].
    rewrite u64_small by (unfold UINT64_MAX in Hcap; lia).
    destruct (Z.eqb_spec (Z.of_nat (length c1 + S (length c2))) (Z.of_nat (length c1 + length c2) + 1)); [done|lia].
Qed.

Lemma pop_at this l c1 e x c2 fl : Rep l (c1 ++ (e, x) :: c2) fl ->
  exists l', (let* '(l2, _) := erase Capacity this l (iter this e) in
              Done (l2, u64 (m_size l2 + 1) =? m_size l)) = Done (l', true) /\
             Rep l' (c1 ++ c2) (e :: fl).
Proof.
  intros H. destruct (erase_Rep this l c1 e x c2 fl H) as (l' & E & H'). rewrite E. cbn [obind].
  exists l'. split; [|done]. rewrite (rep_size _ _ _ H'), (rep_size _ _ _ H).
  pose proof (list_rep_count _ _ _ H) as Hc. rewrite !length_app in *. cbn [length] in *.
  rewrite u64_small by (unfold UINT64_MAX in Hcap; lia). do 2 f_equal. apply Z.eqb_eq. lia.
Qed.

Lemma list_pop_empty this l fl : Rep l [] fl ->
  (let* '(l2, _) := erase Capacity this l (iter this END) in
   Done (l2, u64 (m_size l2 + 1) =? m_size l)) = Done (l, false).
Proof.
  intros H. rewrite (erase_end _ _ _ _ H). cbn [obind]. by rewrite (rep_size _ _ _ H).
Qed.

(** *** Loops *)

Lemma remove_if_loop_Rep fuel this pred l c1 c2 fl n :
  (length c2 < fuel)%nat -> 0 <= n -> n + Z.of_nat (length c2) <= Capacity -> Rep l (c1 ++ c2) fl ->
  exists l' fl',
    remove_if_loop Capacity fuel this pred l (iter this (head_or END c2.*1)) n
    = Some (Done (l', n + Z.of_nat (length (filter (fun p => pred p.2 = true) c2)))) /\
    Rep l' (c1 ++ filter (fun p => pred p.2 = false) c2) fl'.
Proof.
  revert l c1 c2 fl n. induction fuel as [|fuel IH]; intros l c1 c2 fl n Hf Hn0 Hn H; [lia|].
  cbn [remove_if_loop]. rewrite (at_end _ _ _ _ _ H).
  destruct c2 as [|[e x] c2].
  { exists l, fl. cbn. rewrite Z.add_0_r. by rewrite app_nil_r in *. }
  rewrite bool_decide_false by done. change (head_or END ((e, x) :: c2).*1) with e.
  rewrite (rep_deref _ _ _ _ _ _ _ H). rewrite !filter_cons. cbn [snd length] in *.
  destruct (pred x) eqn:Ep.
  - destruct (erase_Rep this _ _ _ _ _ _ H) as (l1 & E & H1). rewrite E.
    rewrite u64_small by (unfold UINT64_MAX in Hcap; lia).
    destruct (IH l1 c1 c2 _ (n + 1) ltac:(lia) ltac:(lia) ltac:(lia) H1) as (l' & fl' & E' & H').
    exists l', fl'. rewrite E'. rewrite decide_True, decide_False by done. cbn [length].
    split; [|done]. do 3 f_equal. lia.
  - rewrite (increment_spec _ _ _ _ _ _ _ H). rewrite cons_middle, app_assoc in H.
    destruct (IH l (c1 ++ [(e, x)]) c2 fl n ltac:(lia) ltac:(lia) ltac:(lia) H) as (l' & fl' & E' & H').
    exists l', fl'. rewrite E'. rewrite decide_False, decide_True by done. split; [done|].
    by rewrite <- app_assoc in H'.
Qed.

Lemma clear_Rep fuel this l cs fl : (length cs < fuel)%nat -> Rep l cs fl ->
  exists l' fl', clear Capacity fuel this l = Some (Done l') /\ Rep l' [] fl'.
Proof.
  revert l cs fl. induction fuel as [|fuel IH]; intros l cs fl Hf H; [lia|].
  cbn [clear]. rewrite (rep_size _ _ _ H). destruct cs as [|[e x] cs]; cbn [length] in *; [eauto|].
  destruct (Z.eqb_spec (Z.of_nat (S (length cs))) 0); [lia|].
  rewrite (begin_spec _ _ _ _ H). change (head_or END ((e, x) :: cs).*1) with e.
  destruct (erase_Rep this l [] e x cs fl H) as (l1 & -> & H1). apply (IH l1 cs _ ltac:(lia) H1).
Qed.

Lemma clear_all this l cs fl : Rep l cs fl ->
  exists l' fl', clear Capacity (S (Z.to_nat (m_size l))) this l = Some (Done l') /\ Rep l' [] fl'.
Proof. intros H. eapply clear_Rep; [|exact H]. rewrite (rep_size _ _ _ H). lia. Qed.

(** *** Copy and move *)

Lemma set_cell_Rep l c1 e x y c2 fl : Rep l (c1 ++ (e, x) :: c2) fl ->
  Rep (set_cell l e (Some y)) (c1 ++ (e, y) :: c2) fl.
Proof.
  intros H. destruct (used_facts _ _ _ _ _ _ H) as (He & Hout & Hfl & _ & _).
  pose proof (data_range _ _ _ _ H He) as Hr.
  assert ((c1 ++ (e, y) :: c2).*1 = (c1 ++ (e, x) :: c2).*1) as E by by rewrite !fmap_app.
  destruct H. split; rewrite ?E; try done; cbn [m_data set_cell].
  - by rewrite length_aset.
  - intros i z Hi. rewrite aget_aset by done. case_decide as Ei.
    + subst i. assert ((e, z) ∉ c1 ++ c2) as Hn.
      { intros Hin. apply Hout, elem_of_cons. right. rewrite <- fmap_app. apply list_elem_of_fmap. by exists (e, z). }
      assert ((e, z) = (e, y)) as [= ->] by set_solver. done.
    + apply rep_values0. apply elem_of_app in Hi. rewrite elem_of_cons in Hi.
      apply elem_of_app. rewrite elem_of_cons.
      destruct Hi as [?|[[= ? ?]|?]]; [by left|congruence|by do 2 right].
  - intros i Hi. rewrite aget_aset_ne; [auto|]. by intros ->.
  - cbn [m_size set_cell]. rewrite rep_size0, !length_app. done.
Qed.

Lemma assign_at_Rep this l c1 e x y c2 fl : Rep l (c1 ++ (e, x) :: c2) fl ->
  assign_at Capacity l (iter this e) y = Done (set_cell l e (Some y)).
Proof. intros H. unfold assign_at. by rewrite (rep_deref _ _ _ _ _ _ _ H). Qed.

(** The elements of the source after they were copied or moved from. *)
Definition left_behind (move : option (T -> T)) (x : T) : T :=
  match move with Some moved => moved x | None => x end.

Lemma leave_Rep that move l c1 e x c2 fl : Rep l (c1 ++ (e, x) :: c2) fl ->
  exists l', match move with Some moved => assign_at Capacity l (iter that e) (moved x) | None => Done l end
             = Done l' /\ Rep l' (c1 ++ (e, left_behind move x) :: c2) fl.
Proof.
  intros H. destruct move as [moved|]; [|eauto].
  rewrite (assign_at_Rep _ _ _ _ _ _ _ _ H). eauto using set_cell_Rep.
Qed.

Lemma assign_loop_Rep move this that n l rhs c1 a b fl d1 a' b' gl :
  length a = n -> length a' = n -> Rep l (c1 ++ a ++ b) fl -> Rep rhs (d1 ++ a' ++ b') gl ->
  exists l' rhs',
    assign_loop Capacity move n l rhs (iter this (head_or END (a ++ b).*1)) (iter that (head_or END (a' ++ b').*1))
    = Done (l', rhs', iter this (head_or END b.*1), iter that (head_or END b'.*1)) /\
    Rep l' (c1 ++ zip a.*1 a'.*2 ++ b) fl /\
    Rep rhs' (d1 ++ (prod_map id (left_behind move) <$> a') ++ b') gl.
Proof.
  revert l rhs c1 a d1 a'. induction n as [|n IH]; intros l rhs c1 a d1 a' Ha Ha' H H'.
  { destruct a, a'; try discriminate. cbn. eauto. }
  destruct a as [|[e x] a], a' as [|[e' x'] a']; try discriminate. cbn [app] in *.
  change (head_or END ((e, x) :: a ++ b).*1) with e.
  change (head_or END ((e', x') :: a' ++ b').*1) with e'.
  cbn [assign_loop]. rewrite (rep_deref _ _ _ _ _ _ _ H'). cbn [obind].
  rewrite (assign_at_Rep _ _ _ _ _ _ _ _ H). cbn [obind].
  destruct (leave_Rep that move _ _ _ _ _ _ H') as (rhs1 & -> & H1'). cbn [obind].
  pose proof (set_cell_Rep _ _ _ _ x' _ _ H) as H1.
  rewrite (increment_spec _ _ _ _ _ _ _ H1). cbn [obind].
  rewrite (increment_spec _ _ _ _ _ _ _ H1'). cbn [obind].
  rewrite cons_middle, (app_assoc c1) in H1. rewrite cons_middle, (app_assoc d1) in H1'.
  destruct (IH _ _ _ _ _ _ ltac:(by injection Ha) ltac:(by injection Ha') H1 H1') as (l' & rhs' & E & R & R').
  exists l', rhs'. split; [done|]. cbn. by rewrite <- app_assoc in R, R'.
Qed.

Lemma append_loop_Rep move this that d2 l rhs cs fl d1 gl :
  (length d2 <= length fl)%nat -> Rep l cs fl -> Rep rhs (d1 ++ d2) gl ->
  exists l' rhs' cs' fl',
    append_loop Capacity move (length d2) this l rhs (iter that (head_or END d2.*1)) = Done (l', rhs') /\
    Rep l' cs' fl' /\ cs'.*2 = cs.*2 ++ d2.*2 /\
    Rep rhs' (d1 ++ (prod_map id (left_behind move) <$> d2)) gl.
Proof.
  revert l rhs cs fl d1. induction d2 as [|[e x] d2 IH]; intros l rhs cs fl d1 Hlen H H'.
  { exists l, rhs, cs, fl. cbn. rewrite !app_nil_r in *. done. }
  destruct fl as [|k fl]; [cbn in Hlen; lia|]. cbn [length append_loop].
  change (head_or END ((e, x) :: d2).*1) with e. rewrite (rep_deref _ _ _ _ _ _ _ H'). cbn [obind].
  pose proof H as H0. rewrite <- (app_nil_r cs) in H0.
  destruct (emplace_Rep this _ _ _ _ _ x H0) as (l1 & E1 & H1).
  change (head_or END (@nil (Z * T)).*1) with END in E1. unfold end_. rewrite E1. cbn [obind].
  destruct (leave_Rep that move _ _ _ _ _ _ H') as (rhs1 & -> & H1'). cbn [obind].
  rewrite (increment_spec _ _ _ _ _ _ _ H1'). cbn [obind]. rewrite cons_middle, app_assoc in H1'.
  assert (length d2 <= length fl)%nat as Hlen' by (cbn in Hlen; lia).
  destruct (IH l1 rhs1 _ _ _ Hlen' H1 H1') as (l' & rhs' & cs' & fl' & E & R & Ev & R').
  exists l', rhs', cs', fl'. split; [done|]. split; [done|]. cbn. split.
  - rewrite Ev, fmap_app. cbn. by rewrite <- app_assoc.
  - by rewrite <- app_assoc in R'.
Qed.

Lemma erase_loop_Rep this c2 l c1 fl : Rep l (c1 ++ c2) fl ->
  exists l' fl', erase_loop Capacity (length c2) this l (iter this (head_or END c2.*1)) = Done l' /\
                 Rep l' c1 fl'.
Proof.
  revert l fl. induction c2 as [|[e x] c2 IH]; intros l fl H; cbn [length erase_loop].
  { rewrite app_nil_r in H. eauto. }
  change (head_or END ((e, x) :: c2).*1) with e.
  destruct (erase_Rep this _ _ _ _ _ _ H) as (l1 & -> & H1). cbn [obind]. eauto.
Qed.

Lemma assign_Rep move this that l cs fl rhs ds gl : Rep l cs fl -> Rep rhs ds gl ->
  exists l' cs' fl' rhs',
    assign Capacity move this l that rhs = Done (l', rhs') /\ Rep l' cs' fl' /\ cs'.*2 = ds.*2 /\
    Rep rhs' (prod_map id (left_behind move) <$> ds) gl.
Proof.
  intros H H'. unfold assign, size. rewrite (rep_size _ _ _ H), (rep_size _ _ _ H').
  rewrite (begin_spec _ _ _ _ H), (begin_spec _ _ _ _ H').
  remember (Nat.min (length ds) (length cs)) as n eqn:En.
  replace (Z.to_nat (Z.min _ _)) with n by lia.
  assert (length (take n cs) = n) as Hn by (rewrite length_take; lia).
  assert (length (take n ds) = n) as Hn' by (rewrite length_take; lia).
  rewrite <- (take_drop n cs) in H at 1. rewrite <- (take_drop n ds) in H' at 1.
  destruct (assign_loop_Rep move this that n l rhs [] (take n cs) (drop n cs) fl [] (take n ds) (drop n ds) gl
    Hn Hn' H H') as (l1 & rhs1 & E & R & R').
  rewrite !take_drop in E. rewrite E. cbn [obind app] in *. clear E.
  rewrite (rep_size _ _ _ R').
  assert (length ((prod_map id (left_behind move) <$> take n ds) ++ drop n ds) = length ds) as Hl
    by (rewrite length_app, length_fmap, length_take, length_drop; lia).
  rewrite Hl.
  replace (Z.to_nat (Z.of_nat (length ds) - _)) with (length (drop n ds)) by (rewrite length_drop; lia).
  replace (Z.to_nat (Z.of_nat (length cs) - _)) with (length (drop n cs)) by (rewrite length_drop; lia).
  assert (forall m : list (Z * T), (prod_map id (left_behind move) <$> take n m) ++
    (prod_map id (left_behind move) <$> drop n m) = prod_map id (left_behind move) <$> m) as Hm
    by (intros m; by rewrite <- fmap_app, take_drop).
  destruct (decide (length cs <= length ds)%nat) as [Hle|Hgt].
  - pose proof (list_rep_count _ _ _ R) as Hc. pose proof (list_rep_count _ _ _ R') as Hc'. rewrite Hl in Hc'.
    assert (drop n cs = []) as Hd by (apply drop_ge; lia). rewrite Hd, app_nil_r in *.
    assert (length (drop n ds) <= length fl)%nat as Hfl
      by (rewrite length_zip, !length_fmap in Hc; rewrite length_drop; lia).
    destruct (append_loop_Rep move this that _ _ _ _ _ _ _ Hfl R R')
      as (l2 & rhs2 & cs2 & fl2 & E & R2 & Ev & R2').
    rewrite E. cbn [obind length erase_loop]. exists l2, cs2, fl2, rhs2. split; [done|]. split; [done|].
    rewrite Hm in R2'. split; [|done]. rewrite Ev, snd_zip, <- fmap_app, take_drop; [done|].
    rewrite !length_fmap. lia.
  - assert (drop n ds = []) as Hd by (apply drop_ge; lia). rewrite Hd in *. cbn [length append_loop obind].
    destruct (erase_loop_Rep this _ _ _ _ R) as (l2 & fl2 & -> & R2). cbn [obind].
    exists l2, (zip (take n cs).*1 (take n ds).*2), fl2, rhs1. split; [done|]. split; [done|].
    rewrite app_nil_r in R'. rewrite (take_ge ds) in * by lia. split; [|done].
    apply snd_zip. rewrite !length_fmap. lia.
Qed.

Lemma move_loop_Rep moved this that d2 fuel l rhs cs fl d1 gl :
  (length d2 < fuel)%nat -> (length d2 <= length fl)%nat -> Rep l cs fl -> Rep rhs (d1 ++ d2) gl ->
  exists l' rhs' cs' fl',
    move_loop Capacity moved fuel this l rhs (iter this END) (iter that (head_or END d2.*1)) that
    = Some (Done (l', rhs')) /\
    Rep l' cs' fl' /\ cs'.*2 = cs.*2 ++ d2.*2 /\ Rep rhs' (d1 ++ (prod_map id moved <$> d2)) gl.
Proof.
  revert fuel l rhs cs fl d1. induction d2 as [|[e x] d2 IH]; intros fuel l rhs cs fl d1 Hf Hlen H H';
    (destruct fuel as [|fuel]; [cbn in Hf; lia|]); cbn [move_loop]; rewrite (at_end _ _ _ _ _ H').
  { rewrite bool_decide_true by done. exists l, rhs, cs, fl. cbn. by rewrite !app_nil_r in *. }
  rewrite bool_decide_false by done. change (head_or END ((e, x) :: d2).*1) with e.
  destruct fl as [|k fl]; [cbn in Hlen; lia|]. rewrite (rep_deref _ _ _ _ _ _ _ H'). cbn [obind].
  pose proof H as H0. rewrite <- (app_nil_r cs) in H0.
  destruct (emplace_Rep this _ _ _ _ _ x H0) as (l1 & E1 & H1).
  change (head_or END (@nil (Z * T)).*1) with END in E1. rewrite E1. cbn [obind].
  destruct (leave_Rep that (Some moved) _ _ _ _ _ _ H') as (rhs1 & -> & H1'). cbn [obind].
  rewrite (increment_spec _ _ _ _ _ _ _ H1'). cbn [obind]. rewrite cons_middle, app_assoc in H1'.
  assert (length d2 < fuel)%nat as Hf' by (cbn in Hf; lia).
  assert (length d2 <= length fl)%nat as Hlen' by (cbn in Hlen; lia).
  destruct (IH fuel l1 rhs1 _ _ _ Hf' Hlen' H1 H1') as (l' & rhs' & cs' & fl' & E & R & Ev & R').
  exists l', rhs', cs', fl'. split; [done|]. split; [done|]. cbn. split.
  - rewrite Ev, fmap_app. cbn. by rewrite <- app_assoc.
  - by rewrite <- app_assoc in R'.
Qed.

(** ** Theorems *)

(** The list [l] holds the elements [cs], each with the entry that iterators to it
    hold, in this order. *)
Definition holds l cs : Prop := exists fl, Rep l cs fl.

(** The elements without their entries. *)
Definition has_values l xs : Prop := exists cs, holds l cs /\ cs.*2 = xs.

Lemma Rep_has_values l cs fl : Rep l cs fl -> has_values l cs.*2.
Proof. intros H. exists cs. split; [by exists fl|done]. Qed.

(** C29: The list in an array of links is a bounded sequence with stable positions.
    Inserting before an iterator puts the new element there, under an entry that was
    unused; erasing takes exactly that element out and returns the iterator to the
    next one; all other elements keep entry, value and order, so that iterators to them
    stay valid.  A full list refuses, and erasing the end does nothing.  Stepping an
    iterator goes to the neighbour and stops at the ends, and dereferencing gives the
    value. *)
Theorem cxx_list_refines this l c1 c2 x :
  holds l (c1 ++ c2) ->
  let position := iter this (head_or END c2.*1) in
  (if full_values (c1 ++ c2).*2
   then emplace Capacity this l position x = Done (l, end_ Capacity this l)
   else exists l' k, emplace Capacity this l position x = Done (l', iter this k) /\
          k ∉ (c1 ++ c2).*1 /\ 0 <= k < Capacity /\ holds l' (c1 ++ (k, x) :: c2)) /\
  (match c2 with
   | [] => erase Capacity this l position = Done (l, end_ Capacity this l) /\
           increment Capacity l position = Done position
   | (e, y) :: c2' =>
     deref Capacity l position = Done y /\
     increment Capacity l position = Done (iter this (head_or END c2'.*1)) /\
     exists l', erase Capacity this l position = Done (l', iter this (head_or END c2'.*1)) /\
       holds l' (c1 ++ c2')
   end) /\
  decrement Capacity l position
  = Done (if decide (c1 = []) then position else iter this (tail_of END c1.*1)).
Proof.
  intros [fl H]. cbn zeta. split; [|split].
  - unfold full_values. rewrite length_fmap.
    destruct (fl_cases _ _ _ H) as [[-> Hc]|(k & fl' & -> & Hc)];
      destruct (Z.leb_spec Capacity (Z.of_nat (length (c1 ++ c2)))); try lia.
    + exact (emplace_full _ _ _ _ _ H).
    + destruct (emplace_Rep this _ _ _ _ _ x H) as (l' & E & H'). exists l', k.
      split; [done|]. destruct (free_not_neighbour _ _ _ _ k H) as (_ & _ & Hk); [set_solver|].
      split; [set_solver|]. split; [exact (fl_in_links _ _ _ _ H)|by exists fl'].
  - destruct c2 as [|[e y] c2'].
    + split; [exact (erase_end _ _ _ _ H)|exact (increment_end _ _ _ _ H)].
    + split; [exact (rep_deref _ _ _ _ _ _ _ H)|].
      split; [exact (increment_spec _ _ _ _ _ _ _ H)|].
      destruct (erase_Rep this _ _ _ _ _ _ H) as (l' & E & H'). exists l'. split; [done|by exists (e :: fl)].
  - rewrite (decrement_spec _ _ _ _ _ H). by case_decide.
Qed.

(** An iterator whose element was erased is noticed: every use of it (inserting,
    erasing, stepping, comparing or dereferencing) ends the process instead of touching
    the entry; so does dereferencing the end, an iterator of another list, and the front
    or the back of an empty list. *)
Theorem cxx_list_stale_iterators this that l cs i x :
  holds l cs -> 0 <= i < Capacity -> i ∉ cs.*1 -> this <> that ->
  let stale := iter this i in
  emplace Capacity this l stale x = Terminated EXPECTS_ENSURES_FAILED /\
  erase Capacity this l stale = Terminated EXPECTS_ENSURES_FAILED /\
  increment Capacity l stale = Terminated EXPECTS_ENSURES_FAILED /\
  decrement Capacity l stale = Terminated EXPECTS_ENSURES_FAILED /\
  deref Capacity l stale = Terminated EXPECTS_ENSURES_FAILED /\
  iterator_eqb Capacity l (end_ Capacity this l) stale = Terminated EXPECTS_ENSURES_FAILED /\
  deref Capacity l (end_ Capacity this l) = Terminated EXPECTS_ENSURES_FAILED /\
  emplace Capacity that l stale x = Terminated EXPECTS_ENSURES_FAILED /\
  (cs = [] -> front Capacity this l = Terminated EXPECTS_ENSURES_FAILED /\
              back Capacity this l = Terminated EXPECTS_ENSURES_FAILED).
Proof.
  intros [fl H] Hi Hn Hne. cbn zeta.
  assert (i ∈ fl) as Hfl.
  { assert (i ∈ cs.*1 ++ fl) as Hin by by apply (rep_cell_range _ _ _ _ H). set_solver. }
  pose proof (invalid_iterator_Expects this _ _ _ _ H Hfl) as Hinv.
  pose proof (invalid_iterator_Expects that _ _ _ _ H Hfl) as Hinv'.
  assert (isInvalidIterOrDifferentLists Capacity this l (iter this i) = Terminated EXPECTS_ENSURES_FAILED) as Hd.
  { unfold isInvalidIterOrDifferentLists. cbn [m_list]. by rewrite Z.eqb_refl. }
  split_and!.
  - unfold emplace. by rewrite Hd.
  - unfold erase. by rewrite Hd.
  - unfold increment. by rewrite Hinv.
  - unfold decrement. by rewrite Hinv.
  - eapply deref_invalid_Expects; [exact H|by auto].
  - unfold iterator_eqb, end_. cbn [m_list]. by rewrite Hd.
  - eapply deref_invalid_Expects; [exact H|by auto].
  - unfold emplace, isInvalidIterOrDifferentLists. cbn [m_list].
    by rewrite (proj2 (Z.eqb_neq _ _)).
  - intros ->. unfold front, back. rewrite (begin_spec _ _ _ _ H).
    pose proof (decrement_spec this l [] [] fl H) as E. unfold end_.
    change (head_or END (@nil (Z * T)).*1) with END in *. rewrite E, decide_True by done.
    cbn [obind m_iterListNodeIdx]. by rewrite END_not_element.
Qed.

Lemma push_front_spec this l xs x : has_values l xs ->
  exists l', push_front Capacity this l x = Done (l', negb (full_values xs)) /\
             has_values l' (if full_values xs then xs else x :: xs).
Proof.
  intros (cs & [fl H] & <-). unfold push_front. rewrite (begin_spec _ _ _ _ H).
  destruct (push_at this l [] cs fl x H) as (l' & cs' & fl' & E & H' & Ev).
  exists l'. split; [exact E|]. exists cs'. split; [by exists fl'|exact Ev].
Qed.

Lemma push_back_spec this l xs x : has_values l xs ->
  exists l', push_back Capacity this l x = Done (l', negb (full_values xs)) /\
             has_values l' (if full_values xs then xs else xs ++ [x]).
Proof.
  intros (cs & [fl H] & <-). unfold push_back. rewrite <- (app_nil_r cs) in H.
  destruct (push_at this l cs [] fl x H) as (l' & cs' & fl' & E & H' & Ev).
  rewrite app_nil_r in E, Ev. exists l'. split; [exact E|]. exists cs'. split; [by exists fl'|exact Ev].
Qed.

Lemma pop_front_spec this l xs : has_values l xs ->
  exists l', pop_front Capacity this l = Done (l', negb (bool_decide (xs = []))) /\ has_values l' (tail xs).
Proof.
  intros (cs & [fl H] & <-). unfold pop_front. rewrite (begin_spec _ _ _ _ H).
  destruct cs as [|[e x] cs].
  - exists l. split; [exact (list_pop_empty _ _ _ H)|]. exact (Rep_has_values _ _ _ H).
  - destruct (pop_at this l [] e x cs fl H) as (l' & E & H'). exists l'.
    split; [exact E|]. exact (Rep_has_values _ _ _ H').
Qed.

Lemma pop_back_spec this l xs : has_values l xs ->
  exists l', pop_back Capacity this l = Done (l', negb (bool_decide (xs = []))) /\ has_values l' (removelast xs).
Proof.
  intros (cs & [fl H] & <-). unfold pop_back.
  rewrite <- (app_nil_r cs) in H. pose proof (decrement_spec this _ _ _ _ H) as E.
  change (head_or END (@nil (Z * T)).*1) with END in E. unfold end_. rewrite E. cbn [obind].
  destruct cs as [|[e x] cs _] using rev_ind.
  - exists l. rewrite decide_True by done. split; [exact (list_pop_empty _ _ _ H)|]. exact (Rep_has_values _ _ _ H).
  - rewrite decide_False by (by destruct cs). rewrite <- app_assoc in H. rewrite fmap_app.
    cbn [app fmap list_fmap fst]. rewrite tail_of_app.
    destruct (pop_at this l cs e x [] fl H) as (l' & E' & H'). exists l'. rewrite fmap_app.
    split.
    + rewrite E'. by rewrite bool_decide_false by (by destruct cs).
    + cbn [fmap list_fmap snd]. rewrite removelast_last. rewrite app_nil_r in H'. exact (Rep_has_values _ _ _ H').
Qed.

Lemma front_spec this l xs : has_values l xs ->
  front Capacity this l = match xs with [] => Terminated EXPECTS_ENSURES_FAILED | x :: _ => Done x end.
Proof.
  intros (cs & [fl H] & <-). unfold front. rewrite (begin_spec _ _ _ _ H). destruct cs as [|[e x] cs].
  - change (head_or END (@nil (Z * T)).*1) with END. cbn [m_iterListNodeIdx]. by rewrite END_not_element.
  - change (head_or END ((e, x) :: cs).*1) with e. cbn [m_iterListNodeIdx].
    rewrite (rep_valid_idx _ [] _ _ _ _ H). exact (rep_deref _ [] _ _ _ _ _ H).
Qed.

Lemma back_spec this l xs : has_values l xs ->
  back Capacity this l = match last xs with None => Terminated EXPECTS_ENSURES_FAILED | Some x => Done x end.
Proof.
  intros (cs & [fl H] & <-). unfold back. rewrite <- (app_nil_r cs) in H.
  pose proof (decrement_spec this _ _ _ _ H) as E.
  change (head_or END (@nil (Z * T)).*1) with END in E. unfold end_. rewrite E. cbn [obind m_iterListNodeIdx].
  destruct cs as [|[e x] cs _] using rev_ind.
  - rewrite decide_True by done. by rewrite END_not_element.
  - rewrite decide_False by (by destruct cs). rewrite <- app_assoc in H. rewrite !fmap_app.
    cbn [app fmap list_fmap fst snd]. rewrite tail_of_app, last_snoc.
    rewrite (rep_valid_idx _ _ _ _ _ _ H). exact (rep_deref _ _ _ _ _ _ _ H).
Qed.

(** On values the list behaves like a sequence of bounded length: pushing and popping
    at both ends, access to both ends, removal of all elements that satisfy a
    predicate, and [clear], which the destructor calls; the loops end. *)
Theorem cxx_list_sequence this l xs x pred fuel :
  has_values l xs -> (length xs < fuel)%nat ->
  (exists l', push_front Capacity this l x = Done (l', negb (full_values xs)) /\
              has_values l' (if full_values xs then xs else x :: xs)) /\
  (exists l', push_back Capacity this l x = Done (l', negb (full_values xs)) /\
              has_values l' (if full_values xs then xs else xs ++ [x])) /\
  (exists l', pop_front Capacity this l = Done (l', negb (bool_decide (xs = []))) /\ has_values l' (tail xs)) /\
  (exists l', pop_back Capacity this l = Done (l', negb (bool_decide (xs = []))) /\
              has_values l' (removelast xs)) /\
  front Capacity this l = match xs with [] => Terminated EXPECTS_ENSURES_FAILED | y :: _ => Done y end /\
  back Capacity this l = match last xs with None => Terminated EXPECTS_ENSURES_FAILED | Some y => Done y end /\
  (exists l', remove_if Capacity fuel this pred l
              = Some (Done (l', Z.of_nat (length (filter (fun y => pred y = true) xs)))) /\
              has_values l' (filter (fun y => pred y = false) xs)) /\
  (exists l', clear Capacity fuel this l = Some (Done l') /\ has_values l' []) /\
  size l = Z.of_nat (length xs) /\ empty l = bool_decide (xs = []) /\ full Capacity l = full_values xs.
Proof.
  intros H Hf.
  do 6 (split; [first [apply push_front_spec | apply push_back_spec | apply pop_front_spec
    | apply pop_back_spec | apply front_spec | apply back_spec]; done|]).
  destruct H as (cs & [fl H] & <-). rewrite length_fmap in Hf.
  assert (forall b, filter (fun y => pred y = b) cs.*2 = (filter (fun p => pred p.2 = b) cs).*2) as Hfilter.
  { intros b. clear. induction cs as [|[e y] cs IH]; [done|].
    cbn [fmap list_fmap snd]. rewrite !filter_cons. cbn [snd]. case_decide; cbn; [by f_equal|done]. }
  split; [|split].
  - unfold remove_if. rewrite (begin_spec _ _ _ _ H). pose proof (list_rep_count _ _ _ H).
    destruct (remove_if_loop_Rep fuel this pred l [] cs fl 0) as (l' & fl' & E & H'); [done|lia|lia|done|].
    exists l'. rewrite E, !Hfilter, length_fmap. split; [done|]. exact (Rep_has_values _ _ _ H').
  - destruct (clear_Rep fuel this l cs fl Hf H) as (l' & fl' & E & H'). exists l'.
    split; [done|]. exact (Rep_has_values _ _ _ H').
  - unfold size, empty, full, full_values. rewrite (rep_size _ _ _ H), length_fmap.
    split; [done|]. split; [|done]. by destruct cs.
Qed.

(** Copying and moving: the target has the elements of the source in order,
    whatever it held before; a moved-from source is empty.  All loops end, and no
    element is constructed over a living one or destroyed twice. *)
Theorem cxx_list_copy_move moved this that l xs rhs ys links fuel :
  has_values l xs -> has_values rhs ys -> this <> that ->
  Z.of_nat (length links) = Capacity + 1 -> (length ys < fuel)%nat ->
  (exists l', copy_assign Capacity this l that rhs = Done l' /\ has_values l' ys) /\
  (exists l' rhs', move_assign Capacity moved this l that rhs = Done (l', rhs') /\
     has_values l' ys /\ has_values rhs' []) /\
  (exists l', copy_ctor Capacity this links that rhs = Done l' /\ has_values l' ys) /\
  (exists l' rhs', move_ctor Capacity moved fuel this links that rhs = Done (l', rhs') /\
     has_values l' ys /\ has_values rhs' []) /\
  copy_assign Capacity this l this l = Done l.
Proof.
  intros (cs & [fl H] & <-) (ds & [gl H'] & <-) Hne Hlinks Hf. rewrite length_fmap in Hf.
  assert (forall l2 cs2 fl2, Rep l2 cs2 fl2 ->
    exists l', copy_assign Capacity this l2 that rhs = Done l' /\ has_values l' ds.*2) as Hcopy.
  { intros l2 cs2 fl2 H2. unfold copy_assign. rewrite (proj2 (Z.eqb_neq _ _) Hne).
    destruct (assign_Rep None this that _ _ _ _ _ _ H2 H') as (l' & cs' & fl' & rhs' & -> & R & <- & _).
    exists l'. split; [done|]. exact (Rep_has_values _ _ _ R). }
  pose proof (ctor_Rep links Hlinks) as Hctor. split_and!.
  - exact (Hcopy _ _ _ H).
  - unfold move_assign. rewrite (proj2 (Z.eqb_neq _ _) Hne).
    destruct (assign_Rep (Some moved) this that _ _ _ _ _ _ H H') as (l' & cs' & fl' & rhs' & -> & R & <- & R').
    cbn [obind]. destruct (clear_all that _ _ _ R') as (rhs2 & gl2 & -> & R2).
    cbn [default from_option id obind].
    exists l', rhs2. split; [done|]. split; [exact (Rep_has_values _ _ _ R)|exact (Rep_has_values _ _ _ R2)].
  - exact (Hcopy _ _ _ Hctor).
  - unfold move_ctor. rewrite (begin_spec _ _ _ _ Hctor), (begin_spec _ _ _ _ H').
    change (head_or END (@nil (Z * T)).*1) with END.
    assert (length ds <= length (seqZ 0 Capacity))%nat as Hlen.
    { pose proof (list_rep_count _ _ _ H'). rewrite length_seqZ. lia. }
    destruct (move_loop_Rep moved this that ds fuel _ _ _ _ [] _ Hf Hlen Hctor H')
      as (l' & rhs' & cs' & fl' & E & R & Ev & R').
    rewrite E. cbn [default from_option id obind].
    assert (length ([] ++ (prod_map id moved <$> ds)) < fuel)%nat as Hf' by (cbn; by rewrite length_fmap).
    destruct (clear_Rep fuel that _ _ _ Hf' R') as (rhs2 & gl2 & -> & R2). cbn [default from_option id obind].
    exists l', rhs2. split; [done|]. cbn in Ev. rewrite <- Ev.
    split; [exact (Rep_has_values _ _ _ R)|exact (Rep_has_values _ _ _ R2)].
  - unfold copy_assign. by rewrite Z.eqb_refl.
Qed.

End spec.

(** *** A list of two elements with one entry in use *)

Definition sample_links : list NodeLink := replicate 3 (mkLink 0 0).
Definition sample : t Z :=
  Eval vm_compute in
    match emplace 2 100 (ctor 2 sample_links) (iter 100 2) 7 with Done (l, _) => l | _ => ctor 2 [] end.

Lemma sample_cap : 0 < 2 < UINT64_MAX.
Proof. done. Qed.

Lemma sample_holds : holds 2 sample [(0, 7)].
Proof.
  destruct (emplace_Rep 2 sample_cap 100 (ctor 2 sample_links) [] [] 0 [1] 7) as (l' & E & H).
  { by apply (ctor_Rep 2 sample_cap sample_links). }
  vm_compute in E. injection E as <-. exists [1]. exact H.
Qed.

Lemma sample_values : has_values 2 sample [7].
Proof. exists [(0, 7)]. split; [apply sample_holds|done]. Qed.

Lemma cxx_list_refines_witness :
  exists l' k, emplace 2 100 sample (iter 100 0) 8 = Done (l', iter 100 k) /\ k ∉ [0] /\
    0 <= k < 2 /\ holds 2 l' [(k, 8); (0, 7)].
Proof. exact (proj1 (cxx_list_refines 2 sample_cap 100 sample [] [(0, 7)] 8 sample_holds)). Defined.

Lemma cxx_list_stale_iterators_witness :
  erase 2 100 sample (iter 100 1) = Terminated EXPECTS_ENSURES_FAILED.
Proof.
  refine (proj1 (proj2 (cxx_list_stale_iterators 2 sample_cap 100 200 sample [(0, 7)] 1 8 sample_holds _ _ _))).
  - lia.
  - cbn. by intros ?%list_elem_of_singleton.
  - lia.
Defined.

Lemma cxx_list_sequence_witness :
  exists l', push_back 2 100 sample 8 = Done (l', true) /\ has_values 2 l' [7; 8].
Proof.
  exact (proj1 (proj2 (cxx_list_sequence 2 sample_cap 100 sample [7] 8 (fun _ => true) 2 sample_values
    ltac:(cbn; lia)))).
Defined.

Lemma cxx_list_copy_move_witness :
  exists l' rhs', move_ctor 2 (fun _ => 0) 2 100 sample_links 200 sample = Done (l', rhs') /\
    has_values 2 l' [7] /\ has_values 2 rhs' [].
Proof.
  refine (proj1 (proj2 (proj2 (proj2 (cxx_list_copy_move 2 sample_cap (fun _ => 0) 100 200 sample [7] sample [7]
    sample_links 2 sample_values sample_values _ _ _))))); [lia|done|cbn; lia].
Defined.

End CxxListSpec.
