(* ===== verification/CxxForwardList.v ===== *)
(** * [cxx::forward_list]

    hoofs [cxx/forward_list.hpp] and [internal/cxx/forward_list.inl]: a singly linked
    list in an array of fixed capacity.  Two entries behind the elements stand for the
    position before the first element and for the end; unused entries are linked in a
    second list and carry a flag.  Addresses, cells and moved-from values are as in
    [CxxList]. *)

From S2P Require Import Prelude CxxList.
Import Path.

Module ForwardList.

Record NodeLink := mkLink { nextIdx : Z; invalidElement : bool }.

Record t (T : Type) := mk {
  m_freeListHeadIdx : Z;
  m_links : list NodeLink;
  m_data : list (option T);
  m_size : Z }.
Arguments mk {T}.
Arguments m_freeListHeadIdx {T}.
Arguments m_links {T}.
Arguments m_data {T}.
Arguments m_size {T}.

Record iterator := iter { m_list : Z; m_iterListNodeIdx : Z }.

Section ops.
Context {T : Type} (Capacity : Z).

Definition BEFORE_BEGIN_INDEX : Z := Capacity.
Definition END_INDEX : Z := Capacity + 1.

Definition getLink (l : t T) (i : Z) : NodeLink := aget (mkLink 0 true) (m_links l) i.
Definition getNextIdx (l : t T) (i : Z) : Z := nextIdx (getLink l i).
Definition isInvalidElement (l : t T) (i : Z) : bool := invalidElement (getLink l i).

Definition setNextIdx (l : t T) (i v : Z) : t T :=
  mk (m_freeListHeadIdx l) (aset (m_links l) i (mkLink v (isInvalidElement l i))) (m_data l) (m_size l).
Definition setInvalidElement (l : t T) (i : Z) (v : bool) : t T :=
  mk (m_freeListHeadIdx l) (aset (m_links l) i (mkLink (getNextIdx l i) v)) (m_data l) (m_size l).
Definition set_free (l : t T) (i : Z) : t T := mk i (m_links l) (m_data l) (m_size l).
Definition set_size (l : t T) (n : Z) : t T := mk (m_freeListHeadIdx l) (m_links l) (m_data l) n.
Definition set_cell (l : t T) (i : Z) (x : option T) : t T :=
  mk (m_freeListHeadIdx l) (m_links l) (aset (m_data l) i x) (m_size l).

Definition isValidElementIdx (l : t T) (idx : Z) : bool :=
  (idx <? Capacity) && negb (isInvalidElement l idx).

Definition isInvalidIterator (l : t T) (it : iterator) : outcome bool :=
  expects (negb (isInvalidElement l (m_iterListNodeIdx it))) (Done false).

Definition isInvalidIterOrDifferentLists (this : Z) (l : t T) (it : iterator) : outcome bool :=
  expects (this =? m_list it) (isInvalidIterator l it).

Definition getDataPtrFromIdx (l : t T) (idx : Z) : outcome T :=
  expects (isValidElementIdx l idx)
    match aget None (m_data l) idx with
    | Some x => Done x
    | None => Terminated UNDEFINED_BEHAVIOUR
    end.

(** *** Construction *)

Definition init_entry (l : t T) (i : Z) : t T := setNextIdx (setInvalidElement l i true) i (i + 1).

Definition init (l : t T) : t T :=
  let l := foldl init_entry l (seqZ (m_freeListHeadIdx l) (Capacity - 1 - m_freeListHeadIdx l)) in
  let l := setNextIdx (setInvalidElement l (Capacity - 1) true) (Capacity - 1) END_INDEX in
  let l := setNextIdx (setInvalidElement l Capacity false) Capacity END_INDEX in
  let l := setNextIdx (setInvalidElement l (Capacity + 1) false) (Capacity + 1) END_INDEX in
  set_size (set_free l 0) 0.

Definition uninitialized (links : list NodeLink) : t T :=
  mk 0 links (replicate (Z.to_nat Capacity) None) 0.

Definition ctor (links : list NodeLink) : t T := init (uninitialized links).

(** *** Iterators *)

Definition before_begin (this : Z) (l : t T) : iterator := iter this BEFORE_BEGIN_INDEX.
Definition begin_ (this : Z) (l : t T) : iterator := iter this (getNextIdx l BEFORE_BEGIN_INDEX).
Definition end_ (this : Z) (l : t T) : iterator := iter this END_INDEX.

Definition increment (l : t T) (it : iterator) : outcome iterator :=
  let* invalid := isInvalidIterator l it in
  if negb invalid then Done (iter (m_list it) (getNextIdx l (m_iterListNodeIdx it))) else Done it.

Definition iterator_eqb (l : t T) (lhs rhs : iterator) : outcome bool :=
  let* a := isInvalidIterOrDifferentLists (m_list lhs) l rhs in
  let* b := if a then Done true else isInvalidIterator l lhs in
  if b then Done false else Done (m_iterListNodeIdx lhs =? m_iterListNodeIdx rhs).

Definition deref (l : t T) (it : iterator) : outcome T := getDataPtrFromIdx l (m_iterListNodeIdx it).

Definition assign_at (l : t T) (it : iterator) (x : T) : outcome (t T) :=
  let* _ := deref l it in Done (set_cell l (m_iterListNodeIdx it) (Some x)).

Definition empty (l : t T) : bool := m_size l =? 0.
Definition full (l : t T) : bool := Capacity <=? m_size l.
Definition size (l : t T) : Z := m_size l.

(** *** Insertion and removal *)

Definition emplace_after (this : Z) (l : t T) (it : iterator) (x : T) : outcome (t T * iterator) :=
  let* invalid := isInvalidIterOrDifferentLists this l it in
  if invalid then Done (l, end_ this l)
  else if Capacity <=? m_size l then Done (l, end_ this l)
  else
    let toBeAddedIdx := m_freeListHeadIdx l in
    let l := set_free l (getNextIdx l (m_freeListHeadIdx l)) in
    let l := setInvalidElement l toBeAddedIdx false in
    expects (isValidElementIdx l toBeAddedIdx)
    (let l := set_cell l toBeAddedIdx (Some x) in
     let l := setNextIdx l toBeAddedIdx (getNextIdx l (m_iterListNodeIdx it)) in
     let l := setNextIdx l (m_iterListNodeIdx it) toBeAddedIdx in
     let l := set_size l (u64 (m_size l + 1)) in
     Done (l, iter this toBeAddedIdx)).

Definition erase_after (this : Z) (l : t T) (it : iterator) : outcome (t T * iterator) :=
  let* invalid := isInvalidIterOrDifferentLists this l it in
  if invalid then Done (l, end_ this l)
  else
    let eraseIdx := getNextIdx l (m_iterListNodeIdx it) in
    if negb (isValidElementIdx l eraseIdx) || empty l then Done (l, end_ this l)
    else
      let retIdx := getNextIdx l eraseIdx in
      let l := setNextIdx l (m_iterListNodeIdx it) retIdx in
      let* _ := getDataPtrFromIdx l eraseIdx in
      let l := set_cell l eraseIdx None in
      let l := setInvalidElement l eraseIdx true in
      let l := setNextIdx l eraseIdx (m_freeListHeadIdx l) in
      let l := set_free l eraseIdx in
      let l := set_size l (u64 (m_size l - 1)) in
      Done (l, iter this retIdx).

Definition insert_after (this : Z) (l : t T) (it : iterator) (x : T) := emplace_after this l it x.

Definition emplace_front (this : Z) (l : t T) (x : T) : outcome (t T * T) :=
  let* '(l, it) := emplace_after this l (before_begin this l) x in
  let* y := deref l it in Done (l, y).

Definition push_front (this : Z) (l : t T) (x : T) : outcome (t T * bool) :=
  let sizeBeforePush := m_size l in
  let* l := if m_size l <? Capacity
            then (let* '(l, _) := emplace_front this l x in Done l) else Done l in
  Done (l, m_size l =? u64 (sizeBeforePush + 1)).

Definition pop_front (this : Z) (l : t T) : outcome (t T * bool) :=
  let sizeBeforeErase := m_size l in
  let* '(l, _) := erase_after this l (before_begin this l) in
  Done (l, u64 (m_size l + 1) =? sizeBeforeErase).

Definition front (this : Z) (l : t T) : outcome T :=
  let it := begin_ this l in
  expects (isValidElementIdx l (m_iterListNodeIdx it)) (deref l it).

(** *** Loops: [fuel] bounds the number of rounds, [None] when it is used up *)

Fixpoint remove_if_loop (fuel : nat) (this : Z) (pred : T -> bool) (l : t T) (it next_it : iterator)
    (removedCount : Z) : option (outcome (t T * Z)) :=
  match fuel with
  | O => None
  | S fuel =>
    match iterator_eqb l next_it (end_ this l) with
    | Terminated e => Some (Terminated e)
    | Done true => Some (Done (l, removedCount))
    | Done false =>
      match deref l next_it with
      | Terminated e => Some (Terminated e)
      | Done x =>
        if pred x then
          match erase_after this l it with
          | Terminated e => Some (Terminated e)
          | Done (l, next_it) => remove_if_loop fuel this pred l it next_it (u64 (removedCount + 1))
          end
        else
          let it := next_it in
          match increment l next_it with
          | Terminated e => Some (Terminated e)
          | Done next_it => remove_if_loop fuel this pred l it next_it removedCount
          end
      end
    end
  end.

Definition remove_if (fuel : nat) (this : Z) (pred : T -> bool) (l : t T) :=
  remove_if_loop fuel this pred l (before_begin this l) (begin_ this l) 0.

Definition remove `{EqDecision T} (fuel : nat) (this : Z) (data : T) (l : t T) :=
  remove_if fuel this (fun each => bool_decide (each = data)) l.

Fixpoint clear (fuel : nat) (this : Z) (l : t T) : option (outcome (t T)) :=
  match fuel with
  | O => None
  | S fuel =>
    if m_size l =? 0 then Some (Done l)
    else match erase_after this l (before_begin this l) with
         | Terminated e => Some (Terminated e)
         | Done (l, _) => clear fuel this l
         end
  end.

Definition dtor (fuel : nat) (this : Z) (l : t T) := clear fuel this l.

(** *** Copy and move *)

Fixpoint assign_loop (move : option (T -> T)) (n : nat) (l rhs : t T) (iterThis iterRhs : iterator) :
    outcome (t T * t T * iterator * iterator) :=
  match n with
  | O => Done (l, rhs, iterThis, iterRhs)
  | S n =>
    let* iterThis := increment l iterThis in
    let* iterRhs := increment rhs iterRhs in
    let* x := deref rhs iterRhs in
    let* l := assign_at l iterThis x in
    let* rhs := match move with Some moved => assign_at rhs iterRhs (moved x) | None => Done rhs end in
    assign_loop move n l rhs iterThis iterRhs
  end.

Fixpoint append_loop (move : option (T -> T)) (n : nat) (this : Z) (l rhs : t T)
    (iterThis iterRhs : iterator) : outcome (t T * t T * iterator) :=
  match n with
  | O => Done (l, rhs, iterThis)
  | S n =>
    let* iterRhs := increment rhs iterRhs in
    let* x := deref rhs iterRhs in
    let* '(l, iterThis) := emplace_after this l iterThis x in
    let* rhs := match move with Some moved => assign_at rhs iterRhs (moved x) | None => Done rhs end in
    append_loop move n this l rhs iterThis iterRhs
  end.

Fixpoint erase_loop (n : nat) (this : Z) (l : t T) (iterThis : iterator) : outcome (t T) :=
  match n with
  | O => Done l
  | S n => let* '(l, _) := erase_after this l iterThis in erase_loop n this l iterThis
  end.

Definition assign (move : option (T -> T)) (this : Z) (l : t T) (that : Z) (rhs : t T) :
    outcome (t T * t T) :=
  let startSize := size l in
  let minOfLhsRhsSize := Z.min (size rhs) startSize in
  let* '(l, rhs, iterThis, iterRhs) :=
    assign_loop move (Z.to_nat minOfLhsRhsSize) l rhs (before_begin this l) (before_begin that rhs) in
  let i := Z.max minOfLhsRhsSize (size rhs) in (* after the second loop *)
  let* '(l, rhs, iterThis) :=
    append_loop move (Z.to_nat (size rhs - minOfLhsRhsSize)) this l rhs iterThis iterRhs in
  let* l := erase_loop (Z.to_nat (startSize - i)) this l iterThis in
  Done (l, rhs).

Definition copy_assign (this : Z) (l : t T) (that : Z) (rhs : t T) : outcome (t T) :=
  if this =? that then Done l
  else let* '(l, _) := assign None this l that rhs in Done l.

Definition move_assign (moved : T -> T) (this : Z) (l : t T) (that : Z) (rhs : t T) :
    outcome (t T * t T) :=
  if this =? that then Done (l, l)
  else
    let* '(l, rhs) := assign (Some moved) this l that rhs in
    let* rhs := default (Terminated DOES_NOT_RETURN) (clear (S (Z.to_nat (m_size rhs))) that rhs) in
    Done (l, rhs).

Definition copy_ctor (this : Z) (links : list NodeLink) (that : Z) (rhs : t T) : outcome (t T) :=
  copy_assign this (ctor links) that rhs.

Definition move_ctor (moved : T -> T) (this : Z) (links : list NodeLink) (that : Z) (rhs : t T) :
    outcome (t T * t T) :=
  move_assign moved this (ctor links) that rhs.

End ops.
End ForwardList.

(** ** Representation *)

Module ForwardListSpec.
Import ForwardList.

Section spec.
Context {T : Type} (Capacity : Z).
Hypothesis Hcap : 0 < Capacity < UINT64_MAX.
Implicit Types (l : t T) (cs : list (Z * T)) (fl : list Z).

Notation BEFORE := (BEFORE_BEGIN_INDEX Capacity).
Notation END := (END_INDEX Capacity).

Record Rep l cs fl : Prop := {
  rep_links : Z.of_nat (length (m_links l)) = Capacity + 2;
  rep_length : Z.of_nat (length (m_data l)) = Capacity;
  rep_next : path (getNextIdx l) BEFORE cs.*1 END;
  rep_end : getNextIdx l END = END;
  rep_free : chain (getNextIdx l) (m_freeListHeadIdx l) fl END;
  rep_flags : forall i, 0 <= i <= END -> isInvalidElement l i = bool_decide (i ∈ fl);
  rep_cells : cs.*1 ++ fl ≡ₚ seqZ 0 Capacity;
  rep_values : forall i x, (i, x) ∈ cs -> aget None (m_data l) i = Some x;
  rep_empty : forall i, i ∈ fl -> aget None (m_data l) i = None;
  rep_size : m_size l = Z.of_nat (length cs) }.

Definition links_ok l : Prop := Z.of_nat (length (m_links l)) = Capacity + 2.

Lemma fwd_links_range l i : links_ok l -> 0 <= i <= Capacity + 1 -> in_range (m_links l) i.
Proof. unfold links_ok, in_range. lia. Qed.

Definition updb (f : Z -> bool) (i : Z) (v : bool) : Z -> bool :=
  fun j => if decide (i = j) then v else f j.

Lemma fwd_next_setNext l i v j : links_ok l -> 0 <= i <= Capacity + 1 ->
  getNextIdx (setNextIdx l i v) j = upd (getNextIdx l) i v j.
Proof.
  intros. unfold getNextIdx at 1, setNextIdx, getLink, upd; cbn [m_links].
  rewrite aget_aset by by apply fwd_links_range. by case_decide.
Qed.

Lemma flag_setNext l i v j : links_ok l -> 0 <= i <= Capacity + 1 ->
  isInvalidElement (setNextIdx l i v) j = isInvalidElement l j.
Proof.
  intros. unfold isInvalidElement at 1, setNextIdx, getLink; cbn [m_links].
  rewrite aget_aset by by apply fwd_links_range. case_decide; by subst.
Qed.

Lemma next_setFlag l i v j : links_ok l -> 0 <= i <= Capacity + 1 ->
  getNextIdx (setInvalidElement l i v) j = getNextIdx l j.
Proof.
  intros. unfold getNextIdx at 1, setInvalidElement, getLink; cbn [m_links].
  rewrite aget_aset by by apply fwd_links_range. case_decide; by subst.
Qed.

Lemma flag_setFlag l i v j : links_ok l -> 0 <= i <= Capacity + 1 ->
  isInvalidElement (setInvalidElement l i v) j = updb (isInvalidElement l) i v j.
Proof.
  intros. unfold isInvalidElement at 1, setInvalidElement, getLink, updb; cbn [m_links].
  rewrite aget_aset by by apply fwd_links_range. by case_decide.
Qed.

Lemma fwd_links_ok_setNext l i v : links_ok (setNextIdx l i v) <-> links_ok l.
Proof. unfold links_ok, setNextIdx. cbn. by rewrite length_aset. Qed.

Lemma links_ok_setFlag l i v : links_ok (setInvalidElement l i v) <-> links_ok l.
Proof. unfold links_ok, setInvalidElement. cbn. by rewrite length_aset. Qed.

Lemma fwd_getNext_set_free l i j : getNextIdx (set_free l i) j = getNextIdx l j. Proof. done. Qed.
Lemma flag_set_free l i j : isInvalidElement (set_free l i) j = isInvalidElement l j. Proof. done. Qed.
Lemma fwd_getNext_set_size l i j : getNextIdx (set_size l i) j = getNextIdx l j. Proof. done. Qed.
Lemma flag_set_size l i j : isInvalidElement (set_size l i) j = isInvalidElement l j. Proof. done. Qed.
Lemma fwd_getNext_set_cell l i x j : getNextIdx (set_cell l i x) j = getNextIdx l j. Proof. done. Qed.
Lemma flag_set_cell l i x j : isInvalidElement (set_cell l i x) j = isInvalidElement l j. Proof. done. Qed.
Lemma fwd_links_ok_set_free l i : links_ok (set_free l i) <-> links_ok l. Proof. done. Qed.
Lemma fwd_links_ok_set_size l i : links_ok (set_size l i) <-> links_ok l. Proof. done. Qed.
Lemma fwd_links_ok_set_cell l i x : links_ok (set_cell l i x) <-> links_ok l. Proof. done. Qed.

Ltac links_ok_tac :=
  repeat first [rewrite fwd_links_ok_setNext | rewrite links_ok_setFlag | rewrite fwd_links_ok_set_free
    | rewrite fwd_links_ok_set_size | rewrite fwd_links_ok_set_cell]; assumption.

Ltac links :=
  repeat first
    [ rewrite fwd_getNext_set_free | rewrite flag_set_free | rewrite fwd_getNext_set_size
    | rewrite flag_set_size | rewrite fwd_getNext_set_cell | rewrite flag_set_cell
    | rewrite fwd_next_setNext by first [links_ok_tac | lia]
    | rewrite flag_setNext by first [links_ok_tac | lia]
    | rewrite next_setFlag by first [links_ok_tac | lia]
    | rewrite flag_setFlag by first [links_ok_tac | lia] ].

Ltac idx := unfold BEFORE_BEGIN_INDEX, END_INDEX in *.

Lemma fwd_rep_cell_range l cs fl i : Rep l cs fl -> i ∈ cs.*1 ++ fl <-> 0 <= i < Capacity.
Proof. intros H. rewrite (rep_cells _ _ _ H), elem_of_seqZ. lia. Qed.

Lemma fwd_rep_NoDup l cs fl : Rep l cs fl -> NoDup (cs.*1 ++ fl).
Proof. intros H. rewrite (rep_cells _ _ _ H). apply NoDup_seqZ. Qed.

Lemma fwd_rep_used_range l cs fl i : Rep l cs fl -> i ∈ cs.*1 -> 0 <= i < Capacity.
Proof. intros H Hi. apply (fwd_rep_cell_range _ _ _ i H). set_solver. Qed.

Lemma fwd_rep_free_range l cs fl i : Rep l cs fl -> i ∈ fl -> 0 <= i < Capacity.
Proof. intros H Hi. apply (fwd_rep_cell_range _ _ _ i H). set_solver. Qed.

Lemma fwd_rep_count l cs fl : Rep l cs fl -> Z.of_nat (length cs) + Z.of_nat (length fl) = Capacity.
Proof.
  intros H. pose proof (Permutation_length (rep_cells _ _ _ H)) as E.
  rewrite length_app, length_fmap, length_seqZ in E. lia.
Qed.

Lemma rep_NoDup_BEFORE l cs fl : Rep l cs fl -> NoDup (BEFORE :: cs.*1).
Proof.
  intros H. pose proof (fwd_rep_NoDup _ _ _ H) as Hn.
  apply NoDup_app in Hn as (? & _ & _). apply NoDup_cons. split; [|done].
  intros Hi. apply (fwd_rep_used_range _ _ _ _ H) in Hi. idx. lia.
Qed.

Lemma fwd_rep_head_free l cs fl : Rep l cs fl -> head_or END fl = m_freeListHeadIdx l.
Proof. intros H. pose proof (rep_free _ _ _ H). destruct fl; cbn in *; intuition. Qed.

Lemma rep_not_free l cs fl i : Rep l cs fl -> i ∈ BEFORE :: END :: cs.*1 ->
  isInvalidElement l i = false /\ 0 <= i <= END.
Proof.
  intros H Hi. assert (i ∉ fl /\ 0 <= i <= END) as [Hn Hr].
  { apply elem_of_cons in Hi as [->|Hi].
    - split; [|idx; lia]. intros Hin%(fwd_rep_free_range _ _ _ _ H). idx. lia.
    - apply elem_of_cons in Hi as [->|Hi].
      + split; [|idx; lia]. intros Hin%(fwd_rep_free_range _ _ _ _ H). idx. lia.
      + pose proof (fwd_rep_used_range _ _ _ _ H Hi). split; [|idx; lia].
        pose proof (fwd_rep_NoDup _ _ _ H) as Hnd. apply NoDup_app in Hnd as (_ & Hd & _). by apply Hd. }
  rewrite (rep_flags _ _ _ H) by done. by rewrite bool_decide_false.
Qed.

Lemma tail_in c1 c2 : tail_of BEFORE c1.*1 ∈ BEFORE :: END :: (c1 ++ c2 : list (Z * T)).*1.
Proof. pose proof (tail_of_elem BEFORE c1.*1). rewrite fmap_app. set_solver. Qed.

Lemma fwd_rep_valid_iter this l cs fl i : Rep l cs fl -> i ∈ BEFORE :: END :: cs.*1 ->
  isInvalidIterOrDifferentLists this l (iter this i) = Done false.
Proof.
  intros H Hi. unfold isInvalidIterOrDifferentLists, isInvalidIterator. cbn [m_list m_iterListNodeIdx].
  rewrite Z.eqb_refl. cbn [expects]. destruct (rep_not_free _ _ _ _ H Hi) as [-> _]. done.
Qed.

Lemma fwd_rep_next_of l c1 c2 fl : Rep l (c1 ++ c2) fl ->
  getNextIdx l (tail_of BEFORE c1.*1) = head_or END c2.*1.
Proof.
  intros H. pose proof (rep_next _ _ _ H) as Hp. rewrite fmap_app in Hp.
  apply path_app in Hp as [_ Hp]. by apply path_head in Hp.
Qed.

Lemma fwd_rep_valid_idx l cs fl i : Rep l cs fl -> i ∈ cs.*1 -> isValidElementIdx Capacity l i = true.
Proof.
  intros H Hi. unfold isValidElementIdx. destruct (rep_not_free _ _ _ i H) as [-> _]; [set_solver|].
  pose proof (fwd_rep_used_range _ _ _ _ H Hi). apply andb_true_iff. split; [apply Z.ltb_lt; lia|done].
Qed.

Lemma fwd_END_not_element l : isValidElementIdx Capacity l END = false.
Proof. unfold isValidElementIdx. idx. by rewrite (proj2 (Z.ltb_ge _ _)) by lia. Qed.

Lemma fwd_rep_deref l c1 i x c2 fl this : Rep l (c1 ++ (i, x) :: c2) fl ->
  deref Capacity l (iter this i) = Done x.
Proof.
  intros H. unfold deref, getDataPtrFromIdx. cbn [m_iterListNodeIdx].
  rewrite (fwd_rep_valid_idx _ _ _ _ H) by (rewrite fmap_app; set_solver). cbn [expects].
  by rewrite (rep_values _ _ _ H i x) by set_solver.
Qed.

Lemma fwd_data_range l cs fl i : Rep l cs fl -> 0 <= i < Capacity -> in_range (m_data l) i.
Proof. intros H ?. unfold in_range. by rewrite (rep_length _ _ _ H). Qed.

Lemma free_facts l cs k fl : Rep l cs (k :: fl) ->
  0 <= k < Capacity /\ k ∉ fl /\ k ∉ BEFORE :: END :: cs.*1 /\
  (forall j, j ∈ fl -> j ∉ BEFORE :: END :: cs.*1).
Proof.
  intros H. pose proof (fwd_rep_free_range _ _ _ k H) as Hk. pose proof (fwd_rep_NoDup _ _ _ H) as Hnd.
  apply NoDup_app in Hnd as (_ & Hd & Hnd). apply NoDup_cons in Hnd as [Hkf _].
  assert (forall j, j ∈ k :: fl -> j ∉ BEFORE :: END :: cs.*1) as Hall.
  { intros j Hj Hin. pose proof (fwd_rep_free_range _ _ _ j H Hj).
    apply elem_of_cons in Hin as [->|Hin]; [idx; lia|].
    apply elem_of_cons in Hin as [->|Hin]; [idx; lia|]. by apply (Hd j Hin). }
  split; [apply Hk; set_solver|]. split; [done|]. split; [apply Hall; set_solver|].
  intros j Hj. apply Hall. set_solver.
Qed.

(** *** Insertion *)

Lemma fwd_insert_values l c1 c2 k fl x :
  Rep l (c1 ++ c2) (k :: fl) ->
  (forall i y, (i, y) ∈ c1 ++ (k, x) :: c2 -> aget None (aset (m_data l) k (Some x)) i = Some y) /\
  (forall i, i ∈ fl -> aget None (aset (m_data l) k (Some x)) i = None).
Proof.
  intros H. destruct (free_facts _ _ _ _ H) as (Hk & Hkf & Hku & _).
  pose proof (fwd_data_range _ _ _ _ H Hk) as Hr. split.
  - intros i y Hi. rewrite aget_aset by done. case_decide as Eik.
    + subst i. assert ((k, y) ∉ c1 ++ c2) as Hn.
      { intros Hin. apply Hku, elem_of_cons. right. apply elem_of_cons. right.
        apply list_elem_of_fmap. by exists (k, y). }
      assert ((k, y) = (k, x)) as [= ->] by set_solver. done.
    + apply H. apply elem_of_app in Hi. rewrite elem_of_cons in Hi. apply elem_of_app.
      destruct Hi as [?|[[= ? ?]|?]]; [by left|congruence|by right].
  - intros i Hi. rewrite aget_aset_ne; [apply H; set_solver|]. by intros ->.
Qed.

(** The representation after the free entry [k] was linked in behind [c1]. *)
Lemma insert_Rep l l' c1 c2 k fl x :
  Rep l (c1 ++ c2) (k :: fl) ->
  let p := tail_of BEFORE c1.*1 in
  links_ok l' -> m_data l' = aset (m_data l) k (Some x) ->
  (forall j, getNextIdx l' j = upd (upd (getNextIdx l) k (head_or END c2.*1)) p k j) ->
  (forall j, isInvalidElement l' j = updb (isInvalidElement l) k false j) ->
  m_freeListHeadIdx l' = getNextIdx l k -> m_size l' = m_size l + 1 ->
  Rep l' (c1 ++ (k, x) :: c2) fl.
Proof.
  intros H p Hl Hd Hn Hf Hh Hs. destruct (free_facts _ _ _ _ H) as (Hk & Hkf & Hku & Hdis).
  pose proof (tail_in c1 c2) as Hin. fold p in Hin.
  assert (p <> END) as HpE.
  { intros E. pose proof (tail_of_elem BEFORE c1.*1) as Ht. fold p in Ht. rewrite E in Ht.
    apply elem_of_cons in Ht as [Ht|Ht]; [idx; lia|].
    assert (0 <= END < Capacity); [|idx; lia]. eapply fwd_rep_used_range; [exact H|rewrite fmap_app; set_solver]. }
  pose proof (rep_free _ _ _ H) as Hfree. cbn [chain] in Hfree. destruct Hfree as [_ Hfree].
  split; [done|..].
  - rewrite Hd, length_aset. apply H.
  - rewrite fmap_app. eapply path_ext; [intros j _; symmetry; apply Hn|].
    apply path_insert; rewrite <- fmap_app; [by apply (rep_NoDup_BEFORE _ _ _ H)|set_solver|apply H].
  - rewrite Hn, !upd_ne; [apply H|idx; lia|done].
  - rewrite Hh. eapply chain_ext; [|exact Hfree].
    intros j Hj. rewrite Hn, !upd_ne; [done| |]; [by intros ->|]. intros <-. by apply (Hdis p Hj).
  - intros i Hi. rewrite Hf. unfold updb. case_decide as Ei.
    + subst i. by rewrite bool_decide_false.
    + rewrite (rep_flags _ _ _ H) by done. apply bool_decide_ext. rewrite elem_of_cons. intuition congruence.
  - rewrite fmap_app, <- (rep_cells _ _ _ H), fmap_app. cbn. solve_Permutation.
  - rewrite Hd. apply (fwd_insert_values _ _ _ _ _ x H).
  - rewrite Hd. apply (fwd_insert_values _ _ _ _ _ x H).
  - rewrite Hs, (rep_size _ _ _ H), !length_app. cbn [length]. lia.
Qed.

Lemma emplace_after_Rep this l c1 c2 k fl x :
  Rep l (c1 ++ c2) (k :: fl) ->
  exists l', emplace_after Capacity this l (iter this (tail_of BEFORE c1.*1)) x = Done (l', iter this k) /\
             Rep l' (c1 ++ (k, x) :: c2) fl.
Proof.
  intros H. unfold emplace_after. pose proof (tail_in c1 c2) as Hin.
  rewrite (fwd_rep_valid_iter _ _ _ _ _ H Hin). cbn [obind].
  pose proof (fwd_rep_count _ _ _ H) as Hc. cbn [length] in Hc. rewrite (rep_size _ _ _ H).
  destruct (Z.leb_spec Capacity (Z.of_nat (length (c1 ++ c2)))); [lia|].
  rewrite <- (fwd_rep_head_free _ _ _ H). change (head_or END (k :: fl)) with k. cbn [m_iterListNodeIdx].
  destruct (free_facts _ _ _ _ H) as (Hk & _).
  assert (links_ok l) as Hl by apply H.
  destruct (rep_not_free _ _ _ _ H Hin) as [_ Hpr]. unfold END_INDEX in Hpr.
  set (l1 := setInvalidElement _ k false).
  assert (links_ok l1) as Hl1 by (subst l1; links_ok_tac).
  assert (forall j, getNextIdx l1 j = getNextIdx l j) as Hn1 by (intros j; subst l1; by links).
  assert (forall j, isInvalidElement l1 j = updb (isInvalidElement l) k false j) as Hf1
    by (intros j; subst l1; links; unfold updb; links; done).
  assert (isValidElementIdx Capacity l1 k = true) as ->.
  { unfold isValidElementIdx. rewrite Hf1. unfold updb. rewrite decide_True by done.
    apply andb_true_iff. split; [apply Z.ltb_lt; lia|done]. }
  cbn [expects]. eexists. split; [reflexivity|].
  rewrite fwd_getNext_set_cell, Hn1, (fwd_rep_next_of _ _ _ _ H). eapply insert_Rep; [exact H|..].
  - links_ok_tac.
  - done.
  - intros j. links. unfold upd. links. unfold upd. links. by rewrite Hn1.
  - intros j. links. apply Hf1.
  - done.
  - cbn. rewrite (rep_size _ _ _ H), u64_small; [done|]. unfold UINT64_MAX in Hcap. lia.
Qed.

(** *** Removal *)

Lemma fwd_used_facts l c1 e x c2 fl : Rep l (c1 ++ (e, x) :: c2) fl ->
  0 <= e < Capacity /\ e ∉ BEFORE :: c1.*1 ++ c2.*1 /\ e ∉ fl.
Proof.
  intros H. pose proof (fwd_rep_NoDup _ _ _ H) as Hnd. pose proof (rep_NoDup_BEFORE _ _ _ H) as HE.
  assert (0 <= e < Capacity) by (eapply fwd_rep_used_range; [exact H|rewrite fmap_app; set_solver]).
  rewrite fmap_app in *. cbn [fmap list_fmap fst] in *. split_and!; [lia|lia| |].
  - rewrite app_comm_cons in HE. apply (NoDup_app (BEFORE :: c1.*1) (e :: c2.*1)) in HE as (_ & Hd & He).
    apply NoDup_cons in He as [He _]. intros Hin. rewrite app_comm_cons, elem_of_app in Hin.
    destruct Hin as [Hin|Hin]; [|done]. apply (Hd e Hin). set_solver.
  - apply NoDup_app in Hnd as (_ & Hd & _). apply Hd. set_solver.
Qed.

Lemma fwd_rep_next_elem l c1 e x c2 fl : Rep l (c1 ++ (e, x) :: c2) fl ->
  getNextIdx l e = head_or END c2.*1.
Proof.
  intros H. rewrite cons_middle, app_assoc in H. rewrite <- (fwd_rep_next_of _ _ _ _ H).
  rewrite fmap_app. cbn [fmap list_fmap fst]. by rewrite tail_of_app.
Qed.

Lemma fwd_erase_Rep l l' c1 e x c2 fl :
  Rep l (c1 ++ (e, x) :: c2) fl ->
  let p := tail_of BEFORE c1.*1 in
  links_ok l' -> m_data l' = aset (m_data l) e None ->
  (forall j, getNextIdx l' j = upd (upd (getNextIdx l) p (getNextIdx l e)) e (m_freeListHeadIdx l) j) ->
  (forall j, isInvalidElement l' j = updb (isInvalidElement l) e true j) ->
  m_freeListHeadIdx l' = e -> m_size l' = m_size l - 1 ->
  Rep l' (c1 ++ c2) (e :: fl).
Proof.
  intros H p Hl Hd Hn Hf Hh Hs. destruct (fwd_used_facts _ _ _ _ _ _ H) as (He & Hout & Hfl).
  pose proof (fwd_data_range _ _ _ _ H He) as Hr.
  pose proof (tail_of_elem BEFORE c1.*1) as Ht. fold p in Ht.
  assert (p ∈ BEFORE :: (c1 ++ (e, x) :: c2).*1) as Hp by (rewrite fmap_app; set_solver).
  assert (p <> END) as HpE.
  { intros E. rewrite E in Hp. apply elem_of_cons in Hp as [Hp|Hp]; [idx; lia|].
    apply (fwd_rep_used_range _ _ _ _ H) in Hp. idx. lia. }
  assert (p ∉ fl) as Hpf.
  { intros Hin. destruct (rep_not_free _ _ _ p H) as [Hb Hpr]; [set_solver|].
    rewrite (rep_flags _ _ _ H), bool_decide_true in Hb; done. }
  split; [done|..].
  - rewrite Hd, length_aset. apply H.
  - rewrite fmap_app. eapply path_ext; [intros j _; symmetry; apply Hn|].
    apply path_upd_out; [done|]. apply path_erase.
    + pose proof (rep_NoDup_BEFORE _ _ _ H) as HB. by rewrite fmap_app in HB.
    + pose proof (rep_next _ _ _ H) as HB. by rewrite fmap_app in HB.
  - rewrite Hn, !upd_ne; [apply H|done|idx; lia].
  - cbn [chain]. split; [done|]. rewrite Hn, upd_eq. eapply chain_ext; [|apply H].
    intros j Hj. rewrite Hn, !upd_ne; [done|by intros <-|by intros ->].
  - intros i Hi. rewrite Hf. unfold updb. case_decide as Ei.
    + subst i. rewrite bool_decide_true by set_solver. done.
    + rewrite (rep_flags _ _ _ H) by done. apply bool_decide_ext. rewrite elem_of_cons. intuition congruence.
  - rewrite fmap_app, <- (rep_cells _ _ _ H), fmap_app. cbn. solve_Permutation.
  - rewrite Hd. intros i y Hi. rewrite aget_aset_ne; [apply H; set_solver|].
    intros ->. apply Hout, elem_of_cons. right. rewrite <- fmap_app. apply list_elem_of_fmap. by exists (i, y).
  - rewrite Hd. intros i [->|Hi]%elem_of_cons; [by rewrite aget_aset_eq|].
    rewrite aget_aset_ne; [by apply H|]. by intros ->.
  - rewrite Hs, (rep_size _ _ _ H), !length_app. cbn [length]. lia.
Qed.

Lemma erase_after_Rep this l c1 e x c2 fl :
  Rep l (c1 ++ (e, x) :: c2) fl ->
  exists l', erase_after Capacity this l (iter this (tail_of BEFORE c1.*1))
             = Done (l', iter this (head_or END c2.*1)) /\
             Rep l' (c1 ++ c2) (e :: fl).
Proof.
  intros H. unfold erase_after. pose proof (tail_in c1 ((e, x) :: c2)) as Hin.
  rewrite (fwd_rep_valid_iter _ _ _ _ _ H Hin). cbn [obind m_iterListNodeIdx].
  rewrite (fwd_rep_next_of _ _ _ _ H). change (head_or END ((e, x) :: c2).*1) with e.
  assert (e ∈ (c1 ++ (e, x) :: c2).*1) as Hein by (rewrite fmap_app; set_solver).
  rewrite (fwd_rep_valid_idx _ _ _ _ H Hein). unfold empty. rewrite (rep_size _ _ _ H).
  destruct (Z.eqb_spec (Z.of_nat (length (c1 ++ (e, x) :: c2))) 0) as [E|_];
    [rewrite length_app in E; cbn in E; lia|]. cbn [negb orb].
  destruct (fwd_used_facts _ _ _ _ _ _ H) as (He & Hout & Hfl).
  assert (links_ok l) as Hl by apply H.
  destruct (rep_not_free _ _ _ _ H Hin) as [_ Hpr]. unfold END_INDEX in Hpr.
  set (l1 := setNextIdx l _ _). assert (links_ok l1) as Hl1 by (subst l1; links_ok_tac).
  assert (getDataPtrFromIdx Capacity l1 e = Done x) as ->.
  { unfold getDataPtrFromIdx. assert (isValidElementIdx Capacity l1 e = true) as ->.
    { unfold isValidElementIdx. subst l1. links. apply (fwd_rep_valid_idx _ _ _ _ H Hein). }
    cbn [expects]. subst l1. cbn [m_data setNextIdx]. by rewrite (rep_values _ _ _ H e x) by set_solver. }
  cbn [obind]. rewrite (fwd_rep_next_elem _ _ _ _ _ _ H). eexists. split; [reflexivity|].
  eapply fwd_erase_Rep; [exact H|..].
  - links_ok_tac.
  - done.
  - intros j. subst l1. links. unfold upd. links. unfold upd. links. done.
  - intros j. links. unfold updb. links. subst l1. by links.
  - done.
  - cbn. rewrite (rep_size _ _ _ H). pose proof (fwd_rep_count _ _ _ H) as Hc.
    rewrite !length_app in *. cbn [length] in *. rewrite u64_small; [lia|]. unfold UINT64_MAX in Hcap. lia.
Qed.

(** *** Construction *)

Lemma fwd_init_entries_spec js l : links_ok l -> (forall i, i ∈ js -> 0 <= i <= Capacity + 1) ->
  let l' := foldl init_entry l js in
  links_ok l' /\ m_data l' = m_data l /\
  (forall j, getNextIdx l' j = if decide (j ∈ js) then j + 1 else getNextIdx l j) /\
  (forall j, isInvalidElement l' j = if decide (j ∈ js) then true else isInvalidElement l j).
Proof.
  revert l. induction js as [|i js IH]; intros l Hl Hr; cbn [foldl].
  { split_and!; [done|done| |]; intros j; case_decide as Hin; set_solver. }
  assert (0 <= i <= Capacity + 1) by set_solver.
  destruct (IH (init_entry l i)) as (Hl' & Hd & Hn & Hp).
  { unfold init_entry. by links_ok_tac. }
  { set_solver. }
  split_and!; [done|by rewrite Hd| |]; intros j.
  - rewrite Hn. unfold init_entry. links. unfold upd. links. repeat case_decide; set_solver by lia.
  - rewrite Hp. unfold init_entry. links. unfold updb. links. repeat case_decide; set_solver by lia.
Qed.

Lemma fwd_ctor_Rep links : Z.of_nat (length links) = Capacity + 2 ->
  Rep (ctor Capacity links) [] (seqZ 0 Capacity).
Proof.
  intros Hlen. unfold ctor, init.
  assert (links_ok (uninitialized (T := T) Capacity links)) as Hu by done.
  cbn [m_freeListHeadIdx uninitialized]. rewrite Z.sub_0_r.
  destruct (fwd_init_entries_spec (seqZ 0 (Capacity - 1)) _ Hu) as (Hl & Hd & Hn & Hf).
  { intros i. rewrite elem_of_seqZ. lia. }
  set (l1 := foldl _ _ _) in *. clearbody l1. idx.
  split; idx; cbn [m_size m_data m_freeListHeadIdx set_size set_free fmap list_fmap app path length].
  - unfold set_size, set_free, setInvalidElement, setNextIdx. cbn [m_links]. by rewrite !length_aset.
  - cbn. rewrite Hd. cbn. rewrite length_replicate. lia.
  - links. rewrite upd_ne by lia. links. by rewrite upd_eq.
  - links. by rewrite upd_eq.
  - replace (seqZ 0 Capacity) with (seqZ 0 (Z.of_nat (Z.to_nat Capacity))) by (f_equal; lia).
    apply chain_seqZ; [|lia]. intros j Hj. links. unfold upd. links. unfold upd. links. unfold upd. links.
    rewrite Hn. repeat case_decide; rewrite ?elem_of_seqZ in *; lia.
  - intros i Hi. links. unfold updb. links. unfold updb. links. unfold updb. links.
    rewrite Hf. repeat case_decide; symmetry; rewrite ?elem_of_seqZ in *;
      first [lia | apply bool_decide_eq_true_2; rewrite elem_of_seqZ; lia
            | apply bool_decide_eq_false_2; rewrite elem_of_seqZ; lia].
  - done.
  - intros i x Hi. by apply elem_of_nil in Hi.
  - intros i Hi%elem_of_seqZ. cbn. rewrite Hd. cbn. unfold aget.
    destruct (Z.ltb_spec i 0); [done|]. by rewrite lookup_replicate_2 by lia.
  - done.
Qed.

(** *** Iterators *)

Lemma fwd_begin_spec this l cs fl : Rep l cs fl -> begin_ Capacity this l = iter this (head_or END cs.*1).
Proof. intros H. unfold begin_. f_equal. exact (fwd_rep_next_of l [] cs fl H). Qed.

Lemma fwd_increment_spec this l c1 c2 fl : Rep l (c1 ++ c2) fl ->
  increment l (iter this (tail_of BEFORE c1.*1)) = Done (iter this (head_or END c2.*1)).
Proof.
  intros H. unfold increment, isInvalidIterator. cbn [m_iterListNodeIdx m_list].
  destruct (rep_not_free _ _ _ _ H (tail_in c1 c2)) as [-> _]. cbn [negb expects obind].
  by rewrite (fwd_rep_next_of _ _ _ _ H).
Qed.

(** Stepping from an element. *)
Lemma increment_elem this l c1 e x c2 fl : Rep l (c1 ++ (e, x) :: c2) fl ->
  increment l (iter this e) = Done (iter this (head_or END c2.*1)).
Proof.
  intros H. rewrite cons_middle, app_assoc in H. rewrite <- (fwd_increment_spec this _ _ _ _ H).
  rewrite fmap_app. cbn [fmap list_fmap fst]. by rewrite tail_of_app.
Qed.

Lemma fwd_increment_end this l cs fl : Rep l cs fl -> increment l (iter this END) = Done (iter this END).
Proof.
  intros H. unfold increment, isInvalidIterator. cbn [m_iterListNodeIdx m_list].
  destruct (rep_not_free _ _ _ END H) as [-> _]; [set_solver|]. cbn [negb expects obind].
  by rewrite (rep_end _ _ _ H).
Qed.

Lemma fwd_at_end this l c1 c2 fl : Rep l (c1 ++ c2) fl ->
  iterator_eqb l (iter this (head_or END c2.*1)) (end_ Capacity this l) = Done (bool_decide (c2 = [])).
Proof.
  intros H. unfold iterator_eqb, end_. cbn [m_list].
  rewrite (fwd_rep_valid_iter _ _ _ _ _ H) by set_solver. cbn [obind].
  assert (head_or END c2.*1 ∈ BEFORE :: END :: (c1 ++ c2).*1) as Hin.
  { destruct c2 as [|[e x] c2]; [set_solver|]. rewrite fmap_app. cbn. set_solver. }
  unfold isInvalidIterator. cbn [m_iterListNodeIdx].
  destruct (rep_not_free _ _ _ _ H Hin) as [-> _]. cbn [negb expects obind]. f_equal.
  destruct c2 as [|[e x] c2]; [cbn; by rewrite Z.eqb_refl|].
  destruct (fwd_used_facts _ _ _ _ _ _ H) as (? & _). cbn. idx. destruct (Z.eqb_spec e (Capacity + 1)); [lia|done].
Qed.

(** *** Errors *)

Lemma emplace_after_full this l cs i x : Rep l cs [] -> i ∈ BEFORE :: END :: cs.*1 ->
  emplace_after Capacity this l (iter this i) x = Done (l, end_ Capacity this l).
Proof.
  intros H Hi. unfold emplace_after. rewrite (fwd_rep_valid_iter _ _ _ _ _ H Hi). cbn [obind].
  pose proof (fwd_rep_count _ _ _ H) as Hc. cbn [length] in Hc. rewrite (rep_size _ _ _ H).
  destruct (Z.leb_spec Capacity (Z.of_nat (length cs))); [done|lia].
Qed.

Lemma erase_after_last this l cs fl : Rep l cs fl ->
  erase_after Capacity this l (iter this (tail_of BEFORE cs.*1)) = Done (l, end_ Capacity this l).
Proof.
  intros H. unfold erase_after. rewrite <- (app_nil_r cs) in H.
  rewrite (fwd_rep_valid_iter _ _ _ _ _ H (tail_in cs [])). cbn [obind m_iterListNodeIdx].
  rewrite (fwd_rep_next_of _ _ _ _ H). change (head_or END (@nil (Z * T)).*1) with END.
  by rewrite fwd_END_not_element.
Qed.

Lemma fwd_invalid_iterator_Expects this l cs fl i : Rep l cs fl -> i ∈ fl ->
  isInvalidIterator l (iter this i) = Terminated EXPECTS_ENSURES_FAILED.
Proof.
  intros H Hi. unfold isInvalidIterator. cbn [m_iterListNodeIdx].
  pose proof (fwd_rep_free_range _ _ _ _ H Hi).
  by rewrite (rep_flags _ _ _ H), bool_decide_true by (try done; idx; lia).
Qed.

Lemma fwd_fl_cases l cs fl : Rep l cs fl ->
  (fl = [] /\ Z.of_nat (length cs) = Capacity) \/
  (exists k fl', fl = k :: fl' /\ Z.of_nat (length cs) < Capacity).
Proof.
  intros H. pose proof (fwd_rep_count _ _ _ H) as Hc.
  destruct fl as [|k fl']; cbn in Hc; [left; split; [done|lia]|]. right. exists k, fl'. split; [done|lia].
Qed.

Definition full_values (xs : list T) : bool := Capacity <=? Z.of_nat (length xs).

Definition holds l cs : Prop := exists fl, Rep l cs fl.
Definition has_values l xs : Prop := exists cs, holds l cs /\ cs.*2 = xs.

Lemma fwd_Rep_has_values l cs fl : Rep l cs fl -> has_values l cs.*2.
Proof. intros H. exists cs. split; [by exists fl|done]. Qed.

Lemma fwd_push_front_spec this l xs x : has_values l xs ->
  exists l', push_front Capacity this l x = Done (l', negb (full_values xs)) /\
             has_values l' (if full_values xs then xs else x :: xs).
Proof.
  intros (cs & [fl H] & <-). unfold push_front, emplace_front, full_values. rewrite length_fmap.
  pose proof (rep_size _ _ _ H) as Hs.
  destruct (fwd_fl_cases _ _ _ H) as [[-> Hc]|(k & fl' & -> & Hc)];
    destruct (Z.leb_spec Capacity (Z.of_nat (length cs))), (Z.ltb_spec (m_size l) Capacity); try lia.
  - exists l. cbn [obind]. split; [|exact (fwd_Rep_has_values _ _ _ H)].
    rewrite Hs, u64_small by (unfold UINT64_MAX in Hcap; lia). do 2 f_equal. apply Z.eqb_neq. lia.
  - destruct (emplace_after_Rep this l [] cs k fl' x H) as (l' & E & H').
    change (tail_of BEFORE (@nil (Z * T)).*1) with BEFORE in E.
    unfold before_begin. rewrite E. cbn [obind]. rewrite (fwd_rep_deref _ [] _ _ _ _ _ H'). cbn [obind].
    exists l'. split; [|exact (fwd_Rep_has_values _ _ _ H')].
    rewrite (rep_size _ _ _ H'), Hs, u64_small by (unfold UINT64_MAX in Hcap; lia).
    cbn [app length negb]. do 2 f_equal. apply Z.eqb_eq. lia.
Qed.

Lemma fwd_pop_front_spec this l xs : has_values l xs ->
  exists l', pop_front Capacity this l = Done (l', negb (bool_decide (xs = []))) /\ has_values l' (tail xs).
Proof.
  intros (cs & [fl H] & <-). unfold pop_front, before_begin. destruct cs as [|[e x] cs].
  - exists l. pose proof (erase_after_last this _ _ _ H) as E.
    change (tail_of BEFORE (@nil (Z * T)).*1) with BEFORE in E. rewrite E. cbn [obind]. rewrite (rep_size _ _ _ H).
    split; [done|]. exact (fwd_Rep_has_values _ _ _ H).
  - destruct (erase_after_Rep this l [] e x cs fl H) as (l' & E & H').
    change (tail_of BEFORE (@nil (Z * T)).*1) with BEFORE in E. rewrite E. cbn [obind].
    exists l'. split; [|exact (fwd_Rep_has_values _ _ _ H')].
    rewrite (rep_size _ _ _ H'), (rep_size _ _ _ H). pose proof (fwd_rep_count _ _ _ H) as Hc.
    cbn [app length] in *. rewrite u64_small by (unfold UINT64_MAX in Hcap; lia).
    do 2 f_equal. apply Z.eqb_eq. lia.
Qed.

Lemma fwd_front_spec this l xs : has_values l xs ->
  front Capacity this l = match xs with [] => Terminated EXPECTS_ENSURES_FAILED | x :: _ => Done x end.
Proof.
  intros (cs & [fl H] & <-). unfold front. rewrite (fwd_begin_spec _ _ _ _ H). destruct cs as [|[e x] cs].
  - change (head_or END (@nil (Z * T)).*1) with END. cbn [m_iterListNodeIdx]. by rewrite fwd_END_not_element.
  - change (head_or END ((e, x) :: cs).*1) with e. cbn [m_iterListNodeIdx].
    rewrite (fwd_rep_valid_idx _ _ _ _ H) by set_solver. exact (fwd_rep_deref _ [] _ _ _ _ _ H).
Qed.

(** *** Loops *)

Lemma fwd_remove_if_loop_Rep fuel this pred l c1 c2 fl n :
  (length c2 < fuel)%nat -> 0 <= n -> n + Z.of_nat (length c2) <= Capacity -> Rep l (c1 ++ c2) fl ->
  exists l' fl',
    remove_if_loop Capacity fuel this pred l (iter this (tail_of BEFORE c1.*1)) (iter this (head_or END c2.*1)) n
    = Some (Done (l', n + Z.of_nat (length (filter (fun p => pred p.2 = true) c2)))) /\
    Rep l' (c1 ++ filter (fun p => pred p.2 = false) c2) fl'.
Proof.
  revert l c1 c2 fl n. induction fuel as [|fuel IH]; intros l c1 c2 fl n Hf Hn0 Hn H; [lia|].
  cbn [remove_if_loop]. rewrite (fwd_at_end _ _ _ _ _ H).
  destruct c2 as [|[e x] c2].
  { exists l, fl. cbn. rewrite Z.add_0_r. by rewrite app_nil_r in *. }
  rewrite bool_decide_false by done. change (head_or END ((e, x) :: c2).*1) with e.
  rewrite (fwd_rep_deref _ _ _ _ _ _ _ H). rewrite !filter_cons. cbn [snd length] in *.
  destruct (pred x) eqn:Ep.
  - destruct (erase_after_Rep this _ _ _ _ _ _ H) as (l1 & E & H1). rewrite E.
    rewrite u64_small by (unfold UINT64_MAX in Hcap; lia).
    destruct (IH l1 c1 c2 _ (n + 1) ltac:(lia) ltac:(lia) ltac:(lia) H1) as (l' & fl' & E' & H').
    exists l', fl'. rewrite E'. rewrite decide_True, decide_False by done. cbn [length].
    split; [|done]. do 3 f_equal. lia.
  - rewrite (increment_elem _ _ _ _ _ _ _ H). rewrite cons_middle, app_assoc in H.
    destruct (IH l (c1 ++ [(e, x)]) c2 fl n ltac:(lia) ltac:(lia) ltac:(lia) H) as (l' & fl' & E' & H').
    rewrite fmap_app in E'. cbn [fmap list_fmap fst] in E'. rewrite tail_of_app in E'.
    exists l', fl'. rewrite E'. rewrite decide_False, decide_True by done. split; [done|].
    by rewrite <- app_assoc in H'.
Qed.

Lemma fwd_clear_Rep fuel this l cs fl : (length cs < fuel)%nat -> Rep l cs fl ->
  exists l' fl', clear Capacity fuel this l = Some (Done l') /\ Rep l' [] fl'.
Proof.
  revert l cs fl. induction fuel as [|fuel IH]; intros l cs fl Hf H; [lia|].
  cbn [clear]. rewrite (rep_size _ _ _ H). destruct cs as [|[e x] cs]; cbn [length] in *; [eauto|].
  destruct (Z.eqb_spec (Z.of_nat (S (length cs))) 0); [lia|].
  destruct (erase_after_Rep this l [] e x cs fl H) as (l1 & E & H1).
  change (tail_of BEFORE (@nil (Z * T)).*1) with BEFORE in E. unfold before_begin. rewrite E.
  apply (IH l1 cs _ ltac:(lia) H1).
Qed.

Lemma fwd_clear_all this l cs fl : Rep l cs fl ->
  exists l' fl', clear Capacity (S (Z.to_nat (m_size l))) this l = Some (Done l') /\ Rep l' [] fl'.
Proof. intros H. eapply fwd_clear_Rep; [|exact H]. rewrite (rep_size _ _ _ H). lia. Qed.

(** *** Copy and move *)

Lemma fwd_set_cell_Rep l c1 e x y c2 fl : Rep l (c1 ++ (e, x) :: c2) fl ->
  Rep (set_cell l e (Some y)) (c1 ++ (e, y) :: c2) fl.
Proof.
  intros H. destruct (fwd_used_facts _ _ _ _ _ _ H) as (He & Hout & Hfl).
  pose proof (fwd_data_range _ _ _ _ H He) as Hr.
  assert ((c1 ++ (e, y) :: c2).*1 = (c1 ++ (e, x) :: c2).*1) as E by by rewrite !fmap_app.
  destruct H. split; rewrite ?E; try done; cbn [m_data set_cell].
  - by rewrite length_aset.
  - intros i z Hi. rewrite aget_aset by done. case_decide as Ei.
    + subst i. assert ((e, z) ∉ c1 ++ c2) as Hn.
      { intros Hin. apply Hout, elem_of_cons. right. rewrite <- fmap_app. apply list_elem_of_fmap. by exists (e, z). }
      assert ((e, z) = (e, y)) as [= ->] by set_solver. done.
    + apply rep_values0. apply elem_of_app in Hi. rewrite elem_of_cons in Hi.
      apply elem_of_app. rewrite elem_of_cons.
      destruct Hi as [?|[[= ? ?]|?]]; [by left|congruence|by do 2 right].
  - intros i Hi. rewrite aget_aset_ne; [auto|]. by intros ->.
  - cbn [m_size set_cell]. rewrite rep_size0, !length_app. done.
Qed.

Lemma fwd_assign_at_Rep this l c1 e x y c2 fl : Rep l (c1 ++ (e, x) :: c2) fl ->
  assign_at Capacity l (iter this e) y = Done (set_cell l e (Some y)).
Proof. intros H. unfold assign_at. by rewrite (fwd_rep_deref _ _ _ _ _ _ _ H). Qed.

Definition left_behind (move : option (T -> T)) (x : T) : T :=
  match move with Some moved => moved x | None => x end.

Lemma fwd_leave_Rep that move l c1 e x c2 fl : Rep l (c1 ++ (e, x) :: c2) fl ->
  exists l', match move with Some moved => assign_at Capacity l (iter that e) (moved x) | None => Done l end
             = Done l' /\ Rep l' (c1 ++ (e, left_behind move x) :: c2) fl.
Proof.
  intros H. destruct move as [moved|]; [|eauto].
  rewrite (fwd_assign_at_Rep _ _ _ _ _ _ _ _ H). eauto using fwd_set_cell_Rep.
Qed.

Lemma fwd_assign_loop_Rep move this that n l rhs c1 a b fl d1 a' b' gl :
  length a = n -> length a' = n -> Rep l (c1 ++ a ++ b) fl -> Rep rhs (d1 ++ a' ++ b') gl ->
  exists l' rhs',
    assign_loop Capacity move n l rhs (iter this (tail_of BEFORE c1.*1)) (iter that (tail_of BEFORE d1.*1))
    = Done (l', rhs', iter this (tail_of BEFORE (c1 ++ a).*1), iter that (tail_of BEFORE (d1 ++ a').*1)) /\
    Rep l' (c1 ++ zip a.*1 a'.*2 ++ b) fl /\
    Rep rhs' (d1 ++ (prod_map id (left_behind move) <$> a') ++ b') gl.
Proof.
  revert l rhs c1 a d1 a'. induction n as [|n IH]; intros l rhs c1 a d1 a' Ha Ha' H H'.
  { destruct a, a'; try discriminate. cbn. rewrite !app_nil_r. eauto. }
  destruct a as [|[e x] a], a' as [|[e' x'] a']; try discriminate. cbn [app] in *.
  cbn [assign_loop]. rewrite (fwd_increment_spec _ _ _ _ _ H). cbn [obind].
  rewrite (fwd_increment_spec _ _ _ _ _ H'). cbn [obind].
  change (head_or END ((e, x) :: a ++ b).*1) with e.
  change (head_or END ((e', x') :: a' ++ b').*1) with e'.
  rewrite (fwd_rep_deref _ _ _ _ _ _ _ H'). cbn [obind].
  rewrite (fwd_assign_at_Rep _ _ _ _ _ _ _ _ H). cbn [obind].
  destruct (fwd_leave_Rep that move _ _ _ _ _ _ H') as (rhs1 & -> & H1'). cbn [obind].
  pose proof (fwd_set_cell_Rep _ _ _ _ x' _ _ H) as H1.
  rewrite cons_middle, (app_assoc c1) in H1. rewrite cons_middle, (app_assoc d1) in H1'.
  destruct (IH _ _ _ _ _ _ ltac:(by injection Ha) ltac:(by injection Ha') H1 H1') as (l' & rhs' & E & R & R').
  rewrite !fmap_app in E. cbn [fmap list_fmap fst] in E. rewrite !tail_of_app, <- !app_assoc in E.
  exists l', rhs'. rewrite !fmap_app. split; [exact E|]. cbn. by rewrite <- app_assoc in R, R'.
Qed.

Lemma fwd_append_loop_Rep move this that d2 l rhs cs fl d1 gl :
  (length d2 <= length fl)%nat -> Rep l cs fl -> Rep rhs (d1 ++ d2) gl ->
  exists l' rhs' cs' fl' it,
    append_loop Capacity move (length d2) this l rhs (iter this (tail_of BEFORE cs.*1))
      (iter that (tail_of BEFORE d1.*1)) = Done (l', rhs', it) /\
    Rep l' cs' fl' /\ cs'.*2 = cs.*2 ++ d2.*2 /\
    Rep rhs' (d1 ++ (prod_map id (left_behind move) <$> d2)) gl.
Proof.
  revert l rhs cs fl d1. induction d2 as [|[e x] d2 IH]; intros l rhs cs fl d1 Hlen H H'.
  { exists l, rhs, cs, fl, (iter this (tail_of BEFORE cs.*1)). cbn. rewrite !app_nil_r in *. done. }
  destruct fl as [|k fl]; [cbn in Hlen; lia|]. cbn [length append_loop].
  rewrite (fwd_increment_spec _ _ _ _ _ H'). cbn [obind].
  change (head_or END ((e, x) :: d2).*1) with e. rewrite (fwd_rep_deref _ _ _ _ _ _ _ H'). cbn [obind].
  pose proof H as H0. rewrite <- (app_nil_r cs) in H0.
  destruct (emplace_after_Rep this _ _ _ _ _ x H0) as (l1 & E1 & H1). rewrite E1. cbn [obind].
  destruct (fwd_leave_Rep that move _ _ _ _ _ _ H') as (rhs1 & -> & H1'). cbn [obind].
  rewrite cons_middle, app_assoc in H1'.
  assert (length d2 <= length fl)%nat as Hlen' by (cbn in Hlen; lia).
  destruct (IH l1 rhs1 _ _ _ Hlen' H1 H1') as (l' & rhs' & cs' & fl' & it & E & R & Ev & R').
  rewrite !fmap_app in E. cbn [fmap list_fmap fst] in E. rewrite !tail_of_app in E.
  exists l', rhs', cs', fl', it. split; [exact E|]. split; [done|]. cbn. split.
  - rewrite Ev, fmap_app. cbn. by rewrite <- app_assoc.
  - by rewrite <- app_assoc in R'.
Qed.

Lemma fwd_erase_loop_Rep this c2 l c1 fl : Rep l (c1 ++ c2) fl ->
  exists l' fl', erase_loop Capacity (length c2) this l (iter this (tail_of BEFORE c1.*1)) = Done l' /\
                 Rep l' c1 fl'.
Proof.
  revert l fl. induction c2 as [|[e x] c2 IH]; intros l fl H; cbn [length erase_loop].
  { rewrite app_nil_r in H. eauto. }
  destruct (erase_after_Rep this _ _ _ _ _ _ H) as (l1 & -> & H1). cbn [obind]. eauto.
Qed.

Lemma fwd_assign_Rep move this that l cs fl rhs ds gl : Rep l cs fl -> Rep rhs ds gl ->
  exists l' cs' fl' rhs',
    assign Capacity move this l that rhs = Done (l', rhs') /\ Rep l' cs' fl' /\ cs'.*2 = ds.*2 /\
    Rep rhs' (prod_map id (left_behind move) <$> ds) gl.
Proof.
  intros H H'. unfold assign, size, before_begin. rewrite (rep_size _ _ _ H), (rep_size _ _ _ H').
  remember (Nat.min (length ds) (length cs)) as n eqn:En.
  replace (Z.to_nat (Z.min _ _)) with n by lia.
  assert (length (take n cs) = n) as Hn by (rewrite length_take; lia).
  assert (length (take n ds) = n) as Hn' by (rewrite length_take; lia).
  rewrite <- (take_drop n cs) in H at 1. rewrite <- (take_drop n ds) in H' at 1.
  destruct (fwd_assign_loop_Rep move this that n l rhs [] (take n cs) (drop n cs) fl [] (take n ds) (drop n ds) gl
    Hn Hn' H H') as (l1 & rhs1 & E & R & R').
  change (tail_of BEFORE (@nil (Z * T)).*1) with BEFORE in E. rewrite E. cbn [obind app] in *. clear E.
  rewrite (rep_size _ _ _ R').
  assert (length ((prod_map id (left_behind move) <$> take n ds) ++ drop n ds) = length ds) as Hl
    by (rewrite length_app, length_fmap, length_take, length_drop; lia).
  rewrite Hl.
  replace (Z.to_nat (Z.of_nat (length ds) - _)) with (length (drop n ds)) by (rewrite length_drop; lia).
  replace (Z.to_nat (Z.of_nat (length cs) - _)) with (length (drop n cs)) by (rewrite length_drop; lia).
  assert (forall m : list (Z * T), (prod_map id (left_behind move) <$> take n m) ++
    (prod_map id (left_behind move) <$> drop n m) = prod_map id (left_behind move) <$> m) as Hm
    by (intros m; by rewrite <- fmap_app, take_drop).
  set (z := zip (take n cs).*1 (take n ds).*2) in *.
  assert (z.*1 = (take n cs).*1 /\ z.*2 = (take n ds).*2) as [Hz1 Hz2].
  { unfold z. rewrite fst_zip, snd_zip; rewrite ?length_fmap; auto with lia. }
  clearbody z.
  assert ((prod_map id (left_behind move) <$> take n ds).*1 = (take n ds).*1) as Hd1
    by (rewrite <- list_fmap_compose; by apply list_fmap_ext).
  destruct (decide (length cs <= length ds)%nat) as [Hle|Hgt].
  - pose proof (fwd_rep_count _ _ _ R) as Hc. pose proof (fwd_rep_count _ _ _ R') as Hc'. rewrite Hl in Hc'.
    assert (drop n cs = []) as Hd by (apply drop_ge; lia). rewrite Hd, app_nil_r in *.
    assert (length z = n) as Hz by (rewrite <- (length_fmap snd), Hz2, length_fmap; done).
    assert (length (drop n ds) <= length fl)%nat as Hfl by (rewrite length_drop; lia).
    destruct (fwd_append_loop_Rep move this that _ _ _ _ _ _ _ Hfl R R')
      as (l2 & rhs2 & cs2 & fl2 & it & E & R2 & Ev & R2').
    rewrite Hz1, Hd1 in E. rewrite E. cbn [obind length erase_loop].
    exists l2, cs2, fl2, rhs2. split; [done|]. split; [done|].
    rewrite Hm in R2'. split; [|done]. by rewrite Ev, Hz2, <- fmap_app, take_drop.
  - assert (drop n ds = []) as Hd by (apply drop_ge; lia). rewrite Hd in *. cbn [length append_loop obind].
    destruct (fwd_erase_loop_Rep this _ _ _ _ R) as (l2 & fl2 & E & R2). rewrite Hz1 in E. rewrite E. cbn [obind].
    exists l2, z, fl2, rhs1. split; [done|]. split; [done|].
    rewrite app_nil_r in R'. rewrite (take_ge ds) in * by lia. done.
Qed.

(** ** Theorems *)

(** The singly linked list is a bounded sequence with stable positions: inserting and
    erasing behind an element or the position before the first one changes exactly that
    place, all other elements keep entry, value and order.  A full list refuses, and
    behind the last element there is nothing to erase. *)
Theorem forward_list_refines this l c1 c2 x :
  holds l (c1 ++ c2) ->
  let position := iter this (tail_of BEFORE c1.*1) in
  (if full_values (c1 ++ c2).*2
   then emplace_after Capacity this l position x = Done (l, end_ Capacity this l)
   else exists l' k, emplace_after Capacity this l position x = Done (l', iter this k) /\
          k ∉ (c1 ++ c2).*1 /\ 0 <= k < Capacity /\ holds l' (c1 ++ (k, x) :: c2)) /\
  increment l position = Done (iter this (head_or END c2.*1)) /\
  match c2 with
  | [] => erase_after Capacity this l position = Done (l, end_ Capacity this l)
  | (e, y) :: c2' =>
    deref Capacity l (iter this e) = Done y /\
    exists l', erase_after Capacity this l position = Done (l', iter this (head_or END c2'.*1)) /\
      holds l' (c1 ++ c2')
  end.
Proof.
  intros [fl H]. cbn zeta. split; [|split; [exact (fwd_increment_spec _ _ _ _ _ H)|]].
  - unfold full_values. rewrite length_fmap.
    destruct (fwd_fl_cases _ _ _ H) as [[-> Hc]|(k & fl' & -> & Hc)];
      destruct (Z.leb_spec Capacity (Z.of_nat (length (c1 ++ c2)))); try lia.
    + exact (emplace_after_full _ _ _ _ _ H (tail_in c1 c2)).
    + destruct (emplace_after_Rep this _ _ _ _ _ x H) as (l' & E & H'). exists l', k.
      split; [done|]. destruct (free_facts _ _ _ _ H) as (Hk & _ & Hku & _).
      split; [set_solver|]. split; [done|by exists fl'].
  - destruct c2 as [|[e y] c2'].
    + rewrite app_nil_r in H. exact (erase_after_last _ _ _ _ H).
    + split; [exact (fwd_rep_deref _ _ _ _ _ _ _ H)|].
      destruct (erase_after_Rep this _ _ _ _ _ _ H) as (l' & E & H'). exists l'.
      split; [done|by exists (e :: fl)].
Qed.

Lemma forward_list_stale_iterators this l cs i x :
  holds l cs -> 0 <= i < Capacity -> i ∉ cs.*1 ->
  emplace_after Capacity this l (iter this i) x = Terminated EXPECTS_ENSURES_FAILED /\
  erase_after Capacity this l (iter this i) = Terminated EXPECTS_ENSURES_FAILED /\
  increment l (iter this i) = Terminated EXPECTS_ENSURES_FAILED /\
  deref Capacity l (iter this i) = Terminated EXPECTS_ENSURES_FAILED.
Proof.
  intros [fl H] Hi Hn. assert (i ∈ fl) as Hfl.
  { assert (i ∈ cs.*1 ++ fl) as Hin by by apply (fwd_rep_cell_range _ _ _ _ H). set_solver. }
  pose proof (fwd_invalid_iterator_Expects this _ _ _ _ H Hfl) as Hinv.
  unfold emplace_after, erase_after, increment, isInvalidIterOrDifferentLists. cbn [m_list].
  rewrite Z.eqb_refl. cbn [expects]. rewrite Hinv. split_and!; [done..|].
  unfold deref, getDataPtrFromIdx, isValidElementIdx. cbn [m_iterListNodeIdx].
  rewrite (rep_flags _ _ _ H), bool_decide_true by (try done; idx; lia).
  by rewrite andb_false_r.
Qed.

(** C30: On values the singly linked list is a sequence of bounded length: pushing and
    popping at the front, removal of all elements that satisfy a predicate, [clear],
    copy and move; a moved-from list is empty.  All loops end. *)
Theorem forward_list_sequence moved this that l xs rhs ys x pred fuel :
  has_values l xs -> has_values rhs ys -> this <> that -> (length xs < fuel)%nat ->
  (exists l', push_front Capacity this l x = Done (l', negb (full_values xs)) /\
              has_values l' (if full_values xs then xs else x :: xs)) /\
  (exists l', pop_front Capacity this l = Done (l', negb (bool_decide (xs = []))) /\ has_values l' (tail xs)) /\
  front Capacity this l = match xs with [] => Terminated EXPECTS_ENSURES_FAILED | y :: _ => Done y end /\
  (exists l', remove_if Capacity fuel this pred l
              = Some (Done (l', Z.of_nat (length (filter (fun y => pred y = true) xs)))) /\
              has_values l' (filter (fun y => pred y = false) xs)) /\
  (exists l', clear Capacity fuel this l = Some (Done l') /\ has_values l' []) /\
  (exists l', copy_assign Capacity this l that rhs = Done l' /\ has_values l' ys) /\
  (exists l' rhs', move_assign Capacity moved this l that rhs = Done (l', rhs') /\
     has_values l' ys /\ has_values rhs' []) /\
  size l = Z.of_nat (length xs) /\ empty l = bool_decide (xs = []) /\ full Capacity l = full_values xs.
Proof.
  intros H H' Hne Hf.
  do 3 (split; [first [apply fwd_push_front_spec | apply fwd_pop_front_spec | apply fwd_front_spec]; done|]).
  destruct H as (cs & [fl H] & <-), H' as (ds & [gl H'] & <-). rewrite length_fmap in Hf.
  assert (forall b, filter (fun y => pred y = b) cs.*2 = (filter (fun p => pred p.2 = b) cs).*2) as Hfilter.
  { intros b. clear. induction cs as [|[e y] cs IH]; [done|].
    cbn [fmap list_fmap snd]. rewrite !filter_cons. cbn [snd]. case_decide; cbn; [by f_equal|done]. }
  split; [|split; [|split; [|split]]].
  - unfold remove_if. rewrite (fwd_begin_spec _ _ _ _ H). pose proof (fwd_rep_count _ _ _ H).
    destruct (fwd_remove_if_loop_Rep fuel this pred l [] cs fl 0) as (l' & fl' & E & R); [done|lia|lia|done|].
    change (tail_of BEFORE (@nil (Z * T)).*1) with BEFORE in E.
    exists l'. unfold before_begin. rewrite E, !Hfilter, length_fmap. split; [done|]. exact (fwd_Rep_has_values _ _ _ R).
  - destruct (fwd_clear_Rep fuel this l cs fl Hf H) as (l' & fl' & E & R). exists l'.
    split; [done|]. exact (fwd_Rep_has_values _ _ _ R).
  - unfold copy_assign. rewrite (proj2 (Z.eqb_neq _ _) Hne).
    destruct (fwd_assign_Rep None this that _ _ _ _ _ _ H H') as (l' & cs' & fl' & rhs' & -> & R & <- & _).
    exists l'. split; [done|]. exact (fwd_Rep_has_values _ _ _ R).
  - unfold move_assign. rewrite (proj2 (Z.eqb_neq _ _) Hne).
    destruct (fwd_assign_Rep (Some moved) this that _ _ _ _ _ _ H H') as (l' & cs' & fl' & rhs' & -> & R & <- & R').
    cbn [obind]. destruct (fwd_clear_all that _ _ _ R') as (rhs2 & gl2 & -> & R2).
    cbn [default from_option id obind]. exists l', rhs2. split; [done|].
    split; [exact (fwd_Rep_has_values _ _ _ R)|exact (fwd_Rep_has_values _ _ _ R2)].
  - unfold size, empty, full, full_values. rewrite (rep_size _ _ _ H), length_fmap.
    split; [done|]. split; [|done]. by destruct cs.
Qed.

(** Inserting behind the end is not refused: in an empty list the new element is
    linked behind the end, where no iteration reaches it, the size becomes one, and then
    [clear] and with it the destructor never return, because they erase behind the
    first position until the size is zero. *)
Theorem forward_list_insert_after_end this l x :
  holds l [] ->
  exists l' k, emplace_after Capacity this l (end_ Capacity this l) x = Done (l', iter this k) /\
    size l' = 1 /\ begin_ Capacity this l' = end_ Capacity this l' /\
    forall fuel, dtor Capacity fuel this l' = None.
Proof.
  intros [fl H]. unfold emplace_after, end_. rewrite (fwd_rep_valid_iter _ _ _ _ _ H) by set_solver. cbn [obind].
  rewrite (rep_size _ _ _ H). cbn [length m_iterListNodeIdx].
  destruct (Z.leb_spec Capacity (Z.of_nat 0)); [lia|].
  destruct fl as [|k fl]; [pose proof (fwd_rep_count _ _ _ H); cbn in *; lia|].
  rewrite <- (fwd_rep_head_free _ _ _ H). change (head_or END (k :: fl)) with k.
  destruct (free_facts _ _ _ _ H) as (Hk & _). assert (links_ok l) as Hl by apply H.
  set (l1 := setInvalidElement _ k false). assert (links_ok l1) as Hl1 by (subst l1; links_ok_tac).
  assert (forall j, isInvalidElement l1 j = updb (isInvalidElement l) k false j) as Hf1
    by (intros j; subst l1; links; unfold updb; links; done).
  assert (isValidElementIdx Capacity l1 k = true) as ->.
  { unfold isValidElementIdx. rewrite Hf1. unfold updb. rewrite decide_True by done.
    apply andb_true_iff. split; [apply Z.ltb_lt; lia|done]. }
  cbn [expects]. eexists _, k. split; [reflexivity|]. set (l2 := set_size _ _).
  assert (m_size l2 = 1) as Hs by (subst l2 l1; cbn; by rewrite (rep_size _ _ _ H)).
  assert (getNextIdx l2 BEFORE = END) as Hb.
  { pose proof (fwd_rep_next_of l [] [] _ H) as Hn. cbn in Hn. unfold tail_of in Hn. cbn in Hn.
    subst l2. idx. links. rewrite upd_ne by lia. links. rewrite upd_ne by lia. links. subst l1. by links. }
  assert (isInvalidElement l2 BEFORE = false) as Hi.
  { subst l2. idx. links. rewrite Hf1. unfold updb. case_decide; [done|]. apply (rep_not_free _ _ _ BEFORE H). set_solver. }
  clearbody l2. split; [done|]. split; [unfold begin_; by rewrite Hb|].
  intros fuel. unfold dtor. induction fuel as [|fuel IH]; [done|]. cbn [clear]. rewrite Hs. cbn [Z.eqb].
  unfold erase_after, before_begin, isInvalidIterOrDifferentLists, isInvalidIterator.
  cbn [m_list m_iterListNodeIdx]. rewrite Z.eqb_refl, Hi. cbn [negb expects obind].
  rewrite Hb, fwd_END_not_element. cbn [negb orb]. exact IH.
Qed.

End spec.

(** *** An empty list for two elements *)

Definition empty2 : t Z := Eval vm_compute in ctor 2 (replicate 4 (mkLink 0 true)).

Lemma empty2_cap : 0 < 2 < UINT64_MAX.
Proof. done. Qed.

Lemma empty2_holds : holds 2 empty2 [].
Proof. exists [0; 1]. exact (fwd_ctor_Rep 2 empty2_cap (replicate 4 (mkLink 0 true)) eq_refl). Qed.

Lemma empty2_values : has_values 2 empty2 [].
Proof. exists []. split; [apply empty2_holds|done]. Qed.

Lemma forward_list_refines_witness :
  exists l' k, emplace_after 2 100 empty2 (iter 100 2) 8 = Done (l', iter 100 k) /\ k ∉ [] /\
    0 <= k < 2 /\ holds 2 l' [(k, 8)].
Proof. exact (proj1 (forward_list_refines 2 empty2_cap 100 empty2 [] [] 8 empty2_holds)). Defined.

Lemma forward_list_sequence_witness :
  exists l', push_front 2 100 empty2 8 = Done (l', true) /\ has_values 2 l' [8].
Proof.
  refine (proj1 (forward_list_sequence 2 empty2_cap (fun _ => 0) 100 200 empty2 [] empty2 [] 8 (fun _ => true) 1
    empty2_values empty2_values _ _)); [lia|cbn; lia].
Defined.

Lemma forward_list_insert_after_end_witness :
  exists l' k, emplace_after 2 100 empty2 (end_ 2 100 empty2) 8 = Done (l', iter 100 k) /\
    size l' = 1 /\ begin_ 2 100 l' = end_ 2 100 l' /\ forall fuel, dtor 2 fuel 100 l' = None.
Proof. exact (forward_list_insert_after_end 2 empty2_cap 100 empty2 8 empty2_holds). Defined.

End ForwardListSpec.
