(* ===== verification/CxxVector.v ===== *)
(** * [cxx::vector]

    hoofs [cxx/vector.hpp] and [internal/cxx/vector.inl]: an array of fixed capacity of
    which the first [m_size] cells hold objects.  A cell is [None] where no object
    lives; reading or destroying such a cell is undefined behaviour.  [moved x] is the
    value that an object has after it was moved from.  Placement new does not look at
    the cell: the object that lived there is gone without its destructor having run,
    and the ghost member [m_lost] keeps it. *)

From S2P Require Import Prelude.

Module Vector.

Record t (T : Type) := mk { m_data : list (option T); m_size : Z; m_lost : list T }.
Arguments mk {T}.
Arguments m_data {T}.
Arguments m_size {T}.
Arguments m_lost {T}.

Section ops.
Context {T : Type} (Capacity : Z).

(** The members before any constructor body. *)
Definition default_ctor : t T := mk (replicate (Z.to_nat Capacity) None) 0 [].

(** [reinterpret_cast<T*>(m_data)[i]] *)
Definition cell (v : t T) (i : Z) : outcome T :=
  match aget None (m_data v) i with
  | Some x => Done x
  | None => Terminated UNDEFINED_BEHAVIOUR
  end.

(** Placement new: an object that lives in the cell is lost. *)
Definition construct (v : t T) (i : Z) (x : T) : t T :=
  mk (aset (m_data v) i (Some x)) (m_size v) (m_lost v ++ option_list (aget None (m_data v) i)).

(** Assignment to the object in a cell, and the destructor call: both need an object. *)
Definition put (v : t T) (i : Z) (x : T) : outcome (t T) :=
  let* _ := cell v i in Done (mk (aset (m_data v) i (Some x)) (m_size v) (m_lost v)).
Definition destroy (v : t T) (i : Z) : outcome (t T) :=
  let* _ := cell v i in Done (mk (aset (m_data v) i None) (m_size v) (m_lost v)).
Definition set_size (v : t T) (n : Z) : t T := mk (m_data v) n (m_lost v).

Definition size (v : t T) : Z := m_size v.
Definition empty (v : t T) : bool := m_size v =? 0.
Definition capacity (v : t T) : Z := Capacity.

(** [at], and assignment through the reference it returns. *)
Definition at_ (v : t T) (index : Z) : outcome T := expects (index <? m_size v) (cell v index).
Definition assign_at (v : t T) (index : Z) (x : T) : outcome (t T) :=
  expects (index <? m_size v) (put v index x).

Definition front (v : t T) : outcome T := expects (negb (empty v)) (at_ v 0).
Definition back (v : t T) : outcome T := expects (negb (empty v)) (at_ v (u64 (size v - 1))).

(** [new (&at(m_size++)) T(...)]: [at] checks against the new size. *)
Definition emplace_back (v : t T) (x : T) : outcome (t T * bool) :=
  if m_size v <? Capacity then
    let i := m_size v in
    let v := set_size v (u64 (m_size v + 1)) in
    expects (i <? m_size v) (Done (construct v i x, true))
  else Done (v, false).

Definition push_back (v : t T) (x : T) : outcome (t T * bool) := emplace_back v x.

Definition pop_back (v : t T) : outcome (t T * bool) :=
  if 0 <? m_size v then
    let v := set_size v (u64 (m_size v - 1)) in
    let* v := destroy v (m_size v) in Done (v, true)
  else Done (v, false).

(** [while (pop_back()) {}] *)
Fixpoint clear (fuel : nat) (v : t T) : option (outcome (t T)) :=
  match fuel with
  | O => None
  | S fuel =>
    match pop_back v with
    | Terminated e => Some (Terminated e)
    | Done (v, true) => clear fuel v
    | Done (v, false) => Some (Done v)
    end
  end.

Definition dtor (fuel : nat) (v : t T) := clear fuel v.

(** [m_data[i] = std::move(m_data[j])] *)
Definition move_cell (moved : T -> T) (v : t T) (i j : Z) : outcome (t T) :=
  let* x := cell v j in
  let* v := put v j (moved x) in
  put v i x.

(** The loop of [emplace], [n] rounds from [i] downwards. *)
Fixpoint shift_right (moved : T -> T) (n : nat) (v : t T) (i : Z) : outcome (t T) :=
  match n with
  | O => Done v
  | S n => let* v := move_cell moved v i (i - 1) in shift_right moved n v (i - 1)
  end.

Definition emplace (moved : T -> T) (v : t T) (position : Z) (x : T) : outcome (t T * bool) :=
  if (Capacity <=? m_size v) || (Capacity <=? position) || (m_size v <? position) then Done (v, false)
  else if position =? m_size v then emplace_back v x
  else
    let last := u64 (m_size v - 1) in
    let* y := cell v last in
    let* v := put v last (moved y) in
    let* '(v, _) := emplace_back v y in
    let i := u64 (m_size v - 1) in
    let* v := shift_right moved (Z.to_nat (i - position)) v i in
    expects (position <? m_size v) (Done (construct v position x, true)).

(** [resize]: the loops pop or append until the size is [count]. *)
Fixpoint pop_until (n : nat) (v : t T) (count : Z) : option (outcome (t T)) :=
  match n with
  | O => None
  | S n =>
    if count =? m_size v then Some (Done v)
    else match pop_back v with
         | Terminated e => Some (Terminated e)
         | Done (v, _) => pop_until n v count
         end
  end.

Fixpoint append_until (n : nat) (v : t T) (count : Z) (x : T) : option (outcome (t T)) :=
  match n with
  | O => None
  | S n =>
    if count =? m_size v then Some (Done v)
    else match emplace_back v x with
         | Terminated e => Some (Terminated e)
         | Done (v, _) => append_until n v count x
         end
  end.

Definition resize (fuel : nat) (v : t T) (count : Z) (x : T) : option (outcome (t T * bool)) :=
  if Capacity <? count then Some (Done (v, false))
  else
    let r := if count <? m_size v then pop_until fuel v count
             else if m_size v <? count then append_until fuel v count x
             else Some (Done v) in
    (fun m => let* v := m in Done (v, true)) <$> r.

(** [vector(count, value)]: the loop stops at the capacity. *)
Fixpoint emplace_n (n : nat) (v : t T) (x : T) : outcome (t T) :=
  match n with
  | O => Done v
  | S n => let* '(v, _) := emplace_back v x in emplace_n n v x
  end.

Definition ctor_value (count : Z) (value : T) : outcome (t T) :=
  emplace_n (Z.to_nat (Z.min count Capacity)) default_ctor value.

(** [vector(count)]: the size is set first, [dflt] is [T()]. *)
Fixpoint construct_n (n : nat) (v : t T) (i : Z) (dflt : T) : outcome (t T) :=
  match n with
  | O => Done v
  | S n => expects (i <? m_size v) (construct_n n (construct v i dflt) (i + 1) dflt)
  end.

Definition ctor_count (dflt : T) (count : Z) : outcome (t T) :=
  let v := set_size default_ctor (Z.min count Capacity) in
  construct_n (Z.to_nat (m_size v)) v 0 dflt.

(** *** Copy and move: [n] rounds from [i] *)

Fixpoint assign_loop (move : option (T -> T)) (n : nat) (v rhs : t T) (i : Z) : outcome (t T * t T) :=
  match n with
  | O => Done (v, rhs)
  | S n =>
    let* x := at_ rhs i in
    let* v := assign_at v i x in
    let* rhs := match move with Some moved => assign_at rhs i (moved x) | None => Done rhs end in
    assign_loop move n v rhs (i + 1)
  end.

Fixpoint append_loop (move : option (T -> T)) (n : nat) (v rhs : t T) (i : Z) : outcome (t T * t T) :=
  match n with
  | O => Done (v, rhs)
  | S n =>
    let* x := at_ rhs i in
    let* '(v, _) := emplace_back v x in
    let* rhs := match move with Some moved => assign_at rhs i (moved x) | None => Done rhs end in
    append_loop move n v rhs (i + 1)
  end.

Fixpoint destroy_loop (n : nat) (v : t T) (i : Z) : outcome (t T) :=
  match n with
  | O => Done v
  | S n => expects (i <? m_size v) (let* v := destroy v i in destroy_loop n v (i + 1))
  end.

Definition assign (move : option (T -> T)) (v rhs : t T) : outcome (t T * t T) :=
  let i := Z.min (size rhs) (size v) in
  let* '(v, rhs) := assign_loop move (Z.to_nat i) v rhs 0 in
  let* '(v, rhs) := append_loop move (Z.to_nat (size rhs - i)) v rhs i in
  let i := Z.max i (size rhs) in
  let* v := destroy_loop (Z.to_nat (size v - i)) v i in
  Done (set_size v (m_size rhs), rhs).

(** [this] and [that] are the addresses of the two vectors. *)
Definition copy_assign (this : Z) (v : t T) (that : Z) (rhs : t T) : outcome (t T) :=
  if this =? that then Done v
  else let* '(v, _) := assign None v rhs in Done v.

Definition move_assign (moved : T -> T) (this : Z) (v : t T) (that : Z) (rhs : t T) :
    outcome (t T * t T) :=
  if this =? that then Done (v, v)
  else
    let* '(v, rhs) := assign (Some moved) v rhs in
    let* rhs := default (Terminated DOES_NOT_RETURN) (clear (S (Z.to_nat (m_size rhs))) rhs) in
    Done (v, rhs).

Definition copy_ctor (this that : Z) (rhs : t T) : outcome (t T) := copy_assign this default_ctor that rhs.
Definition move_ctor (moved : T -> T) (this that : Z) (rhs : t T) : outcome (t T * t T) :=
  move_assign moved this default_ctor that rhs.

(** *** [erase]: [position] is the distance of the iterator from [begin()], which is
    less than the capacity, so that the modulo of the source does nothing *)

Fixpoint shift_left (moved : T -> T) (n : nat) (v : t T) (i : Z) : outcome (t T) :=
  match n with
  | O => Done v
  | S n =>
    let* x := at_ v (i + 1) in
    let* v := assign_at v (i + 1) (moved x) in
    let* v := assign_at v i x in
    shift_left moved n v (i + 1)
  end.

Definition erase (moved : T -> T) (v : t T) (position : Z) : outcome (t T) :=
  if (0 <=? position) && (position <? m_size v) then
    let n := Z.to_nat (m_size v - 1 - position) in
    let* v := shift_left moved n v position in
    let i := position + Z.of_nat n in
    expects (i <? m_size v)
      (let* v := destroy v i in Done (set_size v (u64 (m_size v - 1))))
  else Done v.

End ops.

Section equality.
Context {T : Type} `{EqDecision T}.

(** [operator==], for vectors of any two capacities. *)
Fixpoint equal_loop (n : nat) (lhs rhs : t T) (i : Z) : outcome bool :=
  match n with
  | O => Done true
  | S n =>
    let* x := at_ lhs i in
    let* y := at_ rhs i in
    if decide (x = y) then equal_loop n lhs rhs (i + 1) else Done false
  end.

Definition eqb (lhs rhs : t T) : outcome bool :=
  if negb (size lhs =? size rhs) then Done false
  else equal_loop (Z.to_nat (size lhs)) lhs rhs 0.

Definition neb (lhs rhs : t T) : outcome bool := let* b := eqb lhs rhs in Done (negb b).

End equality.
End Vector.

(** ** Representation: the first cells hold the elements, the others are empty *)

Module VectorSpec.
Import Vector.

(** Access to the middle of a list. *)
Lemma aget_mid {A} (d : A) pre x post i : Z.of_nat (length pre) = i -> aget d (pre ++ x :: post) i = x.
Proof.
  intros <-. unfold aget. rewrite (proj2 (Z.ltb_ge _ _)) by lia. rewrite Nat2Z.id.
  by rewrite list_lookup_middle.
Qed.

Lemma aset_mid {A} (pre : list A) x y post i : Z.of_nat (length pre) = i ->
  aset (pre ++ x :: post) i y = pre ++ y :: post.
Proof.
  intros <-. unfold aset. rewrite (proj2 (Z.ltb_ge _ _)) by lia. rewrite Nat2Z.id.
  by rewrite insert_app_r_alt, Nat.sub_diag by lia.
Qed.

Lemma aget_app_l {A} (d : A) l1 l2 i : 0 <= i < Z.of_nat (length l1) -> aget d (l1 ++ l2) i = aget d l1 i.
Proof.
  intros H. unfold aget. rewrite (proj2 (Z.ltb_ge _ _)) by lia. rewrite lookup_app_l by lia. done.
Qed.

Section spec.
Context {T : Type} (Capacity : Z).
Hypothesis Hcap : 0 < Capacity < UINT64_MAX.
Implicit Types (v : t T) (xs : list T).

Definition layout xs (r : nat) : list (option T) := (Some <$> xs) ++ replicate r None.

Definition vec (l : list T) v xs : Prop :=
  exists r, m_data v = layout xs r /\ m_size v = Z.of_nat (length xs) /\
            Z.of_nat (length xs) + Z.of_nat r = Capacity /\ m_lost v = l.

Definition full_values xs : bool := Capacity <=? Z.of_nat (length xs).

(** Whether elements live in cell [i] can be read off the layout. *)
Lemma layout_mid xs x ys r : layout (xs ++ x :: ys) r = (Some <$> xs) ++ Some x :: layout ys r.
Proof. unfold layout. rewrite fmap_app. cbn. by rewrite <- app_assoc. Qed.

Lemma length_Some xs : length (Some <$> xs) = length xs.
Proof. apply length_fmap. Qed.

Lemma vec_cell {l} v xs x ys : vec l v (xs ++ x :: ys) -> cell v (Z.of_nat (length xs)) = Done x.
Proof.
  intros (r & E & _ & _ & Lr). unfold cell. rewrite E, layout_mid.
  by rewrite (aget_mid None (Some <$> xs)) by by rewrite length_Some.
Qed.

Lemma vec_put {l} v xs x y ys : vec l v (xs ++ x :: ys) ->
  exists v', put v (Z.of_nat (length xs)) y = Done v' /\ vec l v' (xs ++ y :: ys).
Proof.
  intros H. unfold put. rewrite (vec_cell _ _ _ _ H). cbn [obind]. eexists. split; [reflexivity|].
  destruct H as (r & E & Es & Hc & Lr). exists r. cbn. rewrite E, !layout_mid.
  rewrite (aset_mid (Some <$> xs)) by by rewrite length_Some.
  rewrite Es, !length_app in *. done.
Qed.

(** Construction over an object loses it. *)
Lemma vec_construct_over {l} v xs x y ys : vec l v (xs ++ x :: ys) ->
  vec (l ++ [x]) (construct v (Z.of_nat (length xs)) y) (xs ++ y :: ys).
Proof.
  intros (r & E & Es & Hc & <-). exists r. unfold construct. cbn. rewrite E, !layout_mid.
  rewrite (aset_mid (Some <$> xs)), (aget_mid None (Some <$> xs)) by by rewrite length_Some.
  rewrite Es, !length_app in *. done.
Qed.

Lemma vec_at {l} v xs x ys : vec l v (xs ++ x :: ys) -> at_ v (Z.of_nat (length xs)) = Done x.
Proof.
  intros H. unfold at_. rewrite (vec_cell _ _ _ _ H). destruct H as (r & _ & -> & _ & Lr).
  rewrite length_app. cbn [length]. by rewrite (proj2 (Z.ltb_lt _ _)) by lia.
Qed.

Lemma vec_at_out {l} v xs i : vec l v xs -> Z.of_nat (length xs) <= i ->
  at_ v i = Terminated EXPECTS_ENSURES_FAILED.
Proof. intros (r & _ & Es & _ & Lr) Hi. unfold at_. rewrite Es. by rewrite (proj2 (Z.ltb_ge _ _)). Qed.

Lemma vec_assign_at {l} v xs x y ys : vec l v (xs ++ x :: ys) ->
  exists v', assign_at v (Z.of_nat (length xs)) y = Done v' /\ vec l v' (xs ++ y :: ys).
Proof.
  intros H. unfold assign_at. pose proof H as (r & _ & -> & _ & _).
  rewrite length_app. cbn [length]. rewrite (proj2 (Z.ltb_lt _ _)) by lia. by eapply vec_put.
Qed.

Lemma default_vec : vec [] (default_ctor Capacity) [].
Proof. exists (Z.to_nat Capacity). cbn. split_and!; [done|done|lia|done]. Qed.

Lemma emplace_back_vec {l} v xs x : vec l v xs ->
  if full_values xs then emplace_back Capacity v x = Done (v, false)
  else exists v', emplace_back Capacity v x = Done (v', true) /\ vec l v' (xs ++ [x]).
Proof.
  intros (r & E & Es & Hc & Lr). unfold emplace_back, full_values. rewrite Es.
  destruct (Z.leb_spec Capacity (Z.of_nat (length xs))), (Z.ltb_spec (Z.of_nat (length xs)) Capacity); try lia; [done|].
  rewrite u64_small by (unfold UINT64_MAX in Hcap; lia). cbn [set_size m_size].
  rewrite (proj2 (Z.ltb_lt _ _)) by lia. cbn [expects]. eexists. split; [reflexivity|].
  destruct r as [|r]; [lia|]. exists r. unfold construct. cbn [m_data m_size m_lost set_size]. rewrite E.
  unfold layout. change (replicate (S r) (@None T)) with (None :: replicate r (@None T)).
  rewrite (aset_mid (Some <$> xs)), (aget_mid None (Some <$> xs)) by by rewrite length_Some.
  rewrite Lr, fmap_app, length_app, <- app_assoc. cbn. rewrite app_nil_r. split_and!; [done|lia..|done].
Qed.

Lemma pop_back_vec {l} v xs : vec l v xs ->
  exists v', pop_back v = Done (v', negb (bool_decide (xs = []))) /\ vec l v' (removelast xs).
Proof.
  intros H. destruct xs as [|x xs _] using rev_ind.
  - exists v. unfold pop_back. destruct H as (r & E & Es & Hc & Lr). rewrite Es. cbn.
    split; [done|]. by exists r.
  - pose proof (vec_cell _ _ _ _ H) as Hcell. destruct H as (r & E & Es & Hc & Lr).
    rewrite removelast_last. unfold pop_back. rewrite Es, length_app in *. cbn [length] in *.
    rewrite (proj2 (Z.ltb_lt _ _)) by lia.
    rewrite u64_small by (unfold UINT64_MAX in Hcap; lia).
    replace (Z.of_nat (length xs + 1) - 1) with (Z.of_nat (length xs)) by lia.
    unfold destroy. cbn [set_size m_size]. change (cell (set_size v ?n)) with (cell v).
    rewrite Hcell. cbn [obind m_data]. rewrite bool_decide_false by (by destruct xs). eexists. split; [reflexivity|].
    exists (S r). cbn. split_and!; [|done|lia|done]. rewrite E. unfold layout. rewrite fmap_app, <- app_assoc.
    cbn. by rewrite (aset_mid (Some <$> xs)) by by rewrite length_Some.
Qed.

Lemma clear_vec {l} fuel v xs : (length xs < fuel)%nat -> vec l v xs ->
  exists v', clear fuel v = Some (Done v') /\ vec l v' [].
Proof.
  revert v xs. induction fuel as [|fuel IH]; intros v xs Hf H; [lia|]. cbn [clear].
  destruct (pop_back_vec _ _ H) as (v1 & E & H1). rewrite E.
  destruct xs as [|x xs _] using rev_ind; [cbn; eauto|].
  rewrite bool_decide_false by (by destruct xs). rewrite removelast_last in H1.
  eapply IH; [|exact H1]. rewrite length_app in Hf. cbn in Hf. lia.
Qed.

(** *** Insertion and removal in the middle *)

Lemma move_cell_vec {l} moved v xs x y ys : vec l v (xs ++ x :: y :: ys) ->
  exists v', move_cell moved v (Z.of_nat (length xs) + 1) (Z.of_nat (length xs)) = Done v' /\
             vec l v' (xs ++ moved x :: x :: ys).
Proof.
  intros H. unfold move_cell. rewrite (vec_cell _ _ _ _ H). cbn [obind].
  destruct (vec_put _ _ _ (moved x) _ H) as (v1 & -> & H1). cbn [obind].
  rewrite cons_middle, app_assoc in H1. destruct (vec_put _ _ _ x _ H1) as (v2 & E & H2).
  rewrite length_app in E. cbn [length] in E.
  replace (Z.of_nat (length xs + 1)) with (Z.of_nat (length xs) + 1) in E by lia.
  exists v2. by rewrite <- app_assoc in H2.
Qed.

(** Shifting [ys] by one place overwrites the element behind it; the first place
    keeps what moving from it left. *)
Lemma shift_right_vec {l} moved v xs y ys z zs : vec l v (xs ++ (y :: ys) ++ z :: zs) ->
  exists v', shift_right moved (length (y :: ys)) v (Z.of_nat (length xs + length (y :: ys))) = Done v' /\
             vec l v' (xs ++ moved y :: (y :: ys) ++ zs).
Proof.
  revert v z zs. induction ys as [|w ys IH] using rev_ind; intros v z zs H.
  - destruct (move_cell_vec moved _ _ _ _ _ H) as (v' & E & H').
    cbn [length shift_right app] in *. replace (Z.of_nat (length xs + 1) - 1) with (Z.of_nat (length xs)) by lia.
    replace (Z.of_nat (length xs + 1)) with (Z.of_nat (length xs) + 1) by lia. rewrite E. cbn [obind]. eauto.
  - assert (xs ++ (y :: ys ++ [w]) ++ z :: zs = (xs ++ y :: ys) ++ w :: z :: zs) as E0
      by (cbn; rewrite <- !app_assoc; cbn; done).
    rewrite E0 in H. destruct (move_cell_vec moved _ _ _ _ _ H) as (v1 & E & H1).
    rewrite length_app in E.
    replace (length (y :: ys ++ [w])) with (S (length (y :: ys))) by (cbn; rewrite length_app; cbn; lia).
    cbn [shift_right]. replace (Z.of_nat (length xs + S (length (y :: ys))) - 1)
      with (Z.of_nat (length xs + length (y :: ys))) by lia.
    replace (Z.of_nat (length xs + S (length (y :: ys))))
      with (Z.of_nat (length xs + length (y :: ys)) + 1) by lia.
    rewrite E. cbn [obind]. rewrite <- (app_assoc xs) in H1.
    destruct (IH v1 (moved w) (w :: zs) H1) as (v' & E' & H'). exists v'. rewrite E'. split; [done|].
    cbn in *. rewrite <- app_assoc. exact H'.
Qed.

(** Inserting before the last element or earlier: the element that was last ends up as
    what a move from it leaves. *)
Lemma emplace_middle {l} moved v xs ys y x : vec l v (xs ++ ys ++ [y]) -> full_values (xs ++ ys ++ [y]) = false ->
  exists v', emplace Capacity moved v (Z.of_nat (length xs)) x = Done (v', true) /\
             vec (l ++ [moved (List.hd (moved y) ys)]) v' (xs ++ x :: ys ++ [moved y]).
Proof.
  intros H Hf. pose proof H as (r & _ & Es & Hc & Lr). unfold full_values in Hf. apply Z.leb_gt in Hf.
  unfold emplace. rewrite Es. rewrite !length_app in *. cbn [length] in *.
  rewrite (proj2 (Z.leb_gt _ _)), (proj2 (Z.leb_gt _ _)), (proj2 (Z.ltb_ge _ _)) by lia. cbn [orb].
  rewrite (proj2 (Z.eqb_neq _ _)) by lia. rewrite u64_small by (unfold UINT64_MAX in Hcap; lia).
  rewrite app_assoc in H. pose proof (vec_cell _ _ _ _ H) as Hcell. rewrite length_app in Hcell.
  replace (Z.of_nat (length xs + (length ys + 1)) - 1) with (Z.of_nat (length xs + length ys)) by lia.
  rewrite Hcell. cbn [obind]. destruct (vec_put _ _ _ (moved y) _ H) as (v1 & E1 & H1).
  rewrite length_app in E1. rewrite E1. cbn [obind].
  pose proof (emplace_back_vec _ _ y H1) as H2. unfold full_values in H2.
  rewrite (proj2 (Z.leb_gt _ _)) in H2 by (rewrite !length_app; cbn; lia).
  destruct H2 as (v2 & E2 & H2). rewrite E2. cbn [obind].
  pose proof H2 as (r2 & _ & Es2 & _ & Lr2). rewrite Es2, !length_app. cbn [length].
  rewrite u64_small by (unfold UINT64_MAX in Hcap; lia).
  assert (exists z zs, ys ++ [moved y] = z :: zs /\ length zs = length ys /\ List.hd (moved y) ys = z)
    as (z & zs & Ez & Hl & ->).
  { destruct ys as [|z zs]; cbn; [eauto|]. exists z, (zs ++ [moved y]). split; [done|].
    rewrite length_app. cbn. split; [lia|done]. }
  rewrite <- !app_assoc in H2. rewrite (app_assoc ys), Ez in H2.
  destruct (shift_right_vec moved _ _ _ _ _ _ H2) as (v3 & E3 & H3).
  replace (Z.to_nat (Z.of_nat (length xs + length ys + 1 + 1) - 1 - Z.of_nat (length xs)))
    with (length (z :: zs)) by (cbn; lia).
  replace (Z.of_nat (length xs + length ys + 1 + 1) - 1)
    with (Z.of_nat (length xs + length (z :: zs))) by (cbn; lia).
  rewrite E3. cbn [obind]. pose proof H3 as (r3 & _ & Es3 & _ & Lr3).
  rewrite Es3. rewrite (proj2 (Z.ltb_lt _ _)) by (rewrite length_app; cbn; lia). cbn [expects].
  eexists. split; [reflexivity|]. apply (vec_construct_over _ _ _ x) in H3.
  rewrite app_nil_r, <- Ez in H3. exact H3.
Qed.

Lemma shift_left_vec {l} moved v xs y ys : vec l v (xs ++ y :: ys) ->
  exists v', shift_left moved (length ys) v (Z.of_nat (length xs)) = Done v' /\
             exists z, vec l v' (xs ++ ys ++ [z]).
Proof.
  revert v xs y. induction ys as [|w ys IH]; intros v xs y H; cbn [length shift_left]; [by eauto|].
  pose proof H as H1. rewrite cons_middle, app_assoc in H1. pose proof (vec_at _ _ _ _ H1) as E1.
  rewrite length_app in E1. cbn [length] in E1.
  replace (Z.of_nat (length xs + 1)) with (Z.of_nat (length xs) + 1) in E1 by lia. rewrite E1. cbn [obind].
  destruct (vec_assign_at _ _ _ (moved w) _ H1) as (v1 & E2 & H2). rewrite length_app in E2. cbn [length] in E2.
  replace (Z.of_nat (length xs + 1)) with (Z.of_nat (length xs) + 1) in E2 by lia. rewrite E2. cbn [obind].
  rewrite <- app_assoc in H2. cbn [app] in H2. destruct (vec_assign_at _ _ _ w _ H2) as (v2 & -> & H3). cbn [obind].
  rewrite cons_middle, app_assoc in H3. destruct (IH _ _ _ H3) as (v' & E' & z & H').
  rewrite length_app in E'. cbn [length] in E'.
  replace (Z.of_nat (length xs + 1)) with (Z.of_nat (length xs) + 1) in E' by lia.
  exists v'. split; [done|]. exists z. by rewrite <- app_assoc in H'.
Qed.

Lemma erase_vec {l} moved v xs y ys : vec l v (xs ++ y :: ys) ->
  exists v', erase moved v (Z.of_nat (length xs)) = Done v' /\ vec l v' (xs ++ ys).
Proof.
  intros H. pose proof H as (r & _ & Es & Hc & Lr). rewrite length_app in *. cbn [length] in *.
  unfold erase. rewrite Es. rewrite (proj2 (Z.leb_le _ _)), (proj2 (Z.ltb_lt _ _)) by lia. cbn [andb].
  replace (Z.to_nat (Z.of_nat (length xs + S (length ys)) - 1 - Z.of_nat (length xs))) with (length ys) by lia.
  destruct (shift_left_vec moved _ _ _ _ H) as (v1 & E1 & z & H1). rewrite E1. cbn [obind].
  rewrite app_assoc in H1. pose proof (vec_cell _ _ _ _ H1) as Hcell.
  destruct H1 as (r1 & E & Es1 & Hc1 & Lr1). rewrite !length_app in *. cbn [length] in *. rewrite Es1.
  rewrite (proj2 (Z.ltb_lt _ _)) by lia. cbn [expects]. unfold destroy.
  replace (Z.of_nat (length xs) + Z.of_nat (length ys)) with (Z.of_nat (length xs + length ys)) by lia.
  rewrite Hcell. cbn [obind]. eexists. split; [reflexivity|]. exists (S r1). cbn [m_data m_size m_lost set_size].
  rewrite E, Es1, layout_mid. rewrite (aset_mid (Some <$> xs ++ ys)) by by rewrite length_Some, length_app.
  rewrite length_app. split_and!; [done| |lia|done]. rewrite u64_small; [lia|]. unfold UINT64_MAX in Hcap. lia.
Qed.

Lemma erase_out {l} moved v xs i : vec l v xs -> ~ (0 <= i < Z.of_nat (length xs)) -> erase moved v i = Done v.
Proof.
  intros (r & _ & Es & _ & Lr) Hi. unfold erase. rewrite Es.
  destruct (Z.leb_spec 0 i), (Z.ltb_spec i (Z.of_nat (length xs))); try done. lia.
Qed.

(** *** Loops *)

Lemma pop_until_vec {l} fuel v xs ys : (length ys < fuel)%nat -> vec l v (xs ++ ys) ->
  exists v', pop_until fuel v (Z.of_nat (length xs)) = Some (Done v') /\ vec l v' xs.
Proof.
  revert v ys. induction fuel as [|fuel IH]; intros v ys Hf H; [lia|]. cbn [pop_until].
  pose proof H as (r & _ & Es & _ & Lr). rewrite Es, length_app.
  destruct ys as [|y ys _] using rev_ind.
  - rewrite app_nil_r in H. rewrite (proj2 (Z.eqb_eq _ _)) by (cbn; lia). eauto.
  - rewrite length_app in *. cbn [length] in *. rewrite (proj2 (Z.eqb_neq _ _)) by lia.
    destruct (pop_back_vec _ _ H) as (v1 & -> & H1). rewrite app_assoc, removelast_last in H1.
    eapply IH; [|exact H1]. lia.
Qed.

Lemma append_until_vec {l} fuel v xs x n : (n < fuel)%nat -> Z.of_nat (length xs + n) <= Capacity -> vec l v xs ->
  exists v', append_until Capacity fuel v (Z.of_nat (length xs + n)) x = Some (Done v') /\
             vec l v' (xs ++ replicate n x).
Proof.
  revert v xs n. induction fuel as [|fuel IH]; intros v xs n Hf Hc H; [lia|]. cbn [append_until].
  pose proof H as (r & _ & Es & _ & Lr). rewrite Es. destruct n as [|n].
  - rewrite (proj2 (Z.eqb_eq _ _)) by lia. cbn. rewrite app_nil_r. eauto.
  - rewrite (proj2 (Z.eqb_neq _ _)) by lia. pose proof (emplace_back_vec _ _ x H) as E. unfold full_values in E.
    rewrite (proj2 (Z.leb_gt _ _)) in E by lia. destruct E as (v1 & -> & H1).
    destruct (IH v1 (xs ++ [x]) n) as (v' & E' & H'); [lia|rewrite length_app; cbn; lia|done|].
    rewrite length_app in E'. cbn [length] in E'. replace (length xs + 1 + n)%nat with (length xs + S n)%nat in E' by lia.
    exists v'. split; [done|]. by rewrite <- app_assoc in H'.
Qed.

Lemma resize_vec {l} fuel v xs count x : (Z.to_nat Capacity < fuel)%nat -> 0 <= count -> vec l v xs ->
  if Capacity <? count then resize Capacity fuel v count x = Some (Done (v, false))
  else exists v', resize Capacity fuel v count x = Some (Done (v', true)) /\
         vec l v' (take (Z.to_nat count) xs ++ replicate (Z.to_nat count - length xs) x).
Proof.
  intros Hf H0 H. unfold resize. destruct (Z.ltb_spec Capacity count); [done|].
  pose proof H as (r & _ & Es & Hc & Lr). rewrite Es.
  destruct (Z.ltb_spec count (Z.of_nat (length xs))); [|destruct (Z.ltb_spec (Z.of_nat (length xs)) count)].
  - pose proof H as Hs. rewrite <- (take_drop (Z.to_nat count) xs) in Hs.
    assert (length (take (Z.to_nat count) xs) = Z.to_nat count) as Hl by (rewrite length_take; lia).
    assert (length (drop (Z.to_nat count) xs) < fuel)%nat as Hd by (rewrite length_drop; lia).
    destruct (pop_until_vec fuel v _ _ Hd Hs) as (v' & E & H').
    rewrite Hl, Z2Nat.id in E by lia. exists v'. rewrite E. cbn. split; [done|].
    replace (Z.to_nat count - length xs)%nat with O by lia. cbn. by rewrite app_nil_r.
  - destruct (append_until_vec (l:=l) fuel v xs x (Z.to_nat count - length xs)) as (v' & E & H'); [lia|lia|done|].
    replace (Z.of_nat (length xs + (Z.to_nat count - length xs))) with count in E by lia.
    exists v'. rewrite E. cbn. split; [done|]. by rewrite take_ge by lia.
  - exists v. cbn. split; [done|]. replace (Z.to_nat count - length xs)%nat with O by lia. cbn.
    by rewrite app_nil_r, take_ge by lia.
Qed.

Lemma emplace_n_vec {l} n v xs x : Z.of_nat (length xs + n) <= Capacity -> vec l v xs ->
  exists v', emplace_n Capacity n v x = Done v' /\ vec l v' (xs ++ replicate n x).
Proof.
  revert v xs. induction n as [|n IH]; intros v xs Hc H; cbn [emplace_n].
  { exists v. cbn. by rewrite app_nil_r. }
  pose proof (emplace_back_vec _ _ x H) as E. unfold full_values in E.
  rewrite (proj2 (Z.leb_gt _ _)) in E by lia. destruct E as (v1 & -> & H1). cbn [obind].
  destruct (IH v1 (xs ++ [x])) as (v' & E' & H'); [rewrite length_app; cbn; lia|done|].
  exists v'. split; [done|]. by rewrite <- app_assoc in H'.
Qed.

(** The elements that a vector leaves behind when it is copied or moved from. *)
Definition left_behind (move : option (T -> T)) (x : T) : T :=
  match move with Some moved => moved x | None => x end.

Lemma leave_vec {l} move v xs x ys : vec l v (xs ++ x :: ys) ->
  exists v', match move with
             | Some moved => assign_at v (Z.of_nat (length xs)) (moved x)
             | None => Done v
             end = Done v' /\ vec l v' (xs ++ left_behind move x :: ys).
Proof. intros H. destruct move as [moved|]; [|eauto]. by eapply vec_assign_at. Qed.

Lemma assign_loop_vec {l l'} move n v rhs (xs a b xs' a' b' : list T) :
  length a = n -> length a' = n -> length xs = length xs' -> vec l v (xs ++ a ++ b) -> vec l' rhs (xs' ++ a' ++ b') ->
  exists v' rhs', assign_loop move n v rhs (Z.of_nat (length xs)) = Done (v', rhs') /\
    vec l v' (xs ++ a' ++ b) /\ vec l' rhs' (xs' ++ (left_behind move <$> a') ++ b').
Proof.
  revert v rhs xs a xs' a'. induction n as [|n IH]; intros v rhs xs a xs' a' Ha Ha' Hl H H'.
  { destruct a, a'; try discriminate. cbn. eauto. }
  destruct a as [|x a], a' as [|x' a']; try discriminate. cbn [app] in *. cbn [assign_loop].
  rewrite Hl, (vec_at _ _ _ _ H'). cbn [obind]. rewrite <- Hl.
  destruct (vec_assign_at _ _ _ x' _ H) as (v1 & -> & H1). cbn [obind].
  rewrite Hl. destruct (leave_vec move _ _ _ _ H') as (rhs1 & -> & H1'). cbn [obind].
  rewrite cons_middle, (app_assoc xs) in H1. rewrite cons_middle, (app_assoc xs') in H1'.
  destruct (IH v1 rhs1 (xs ++ [x']) a (xs' ++ [left_behind move x']) a') as (v' & rhs' & E & R & R');
    [by injection Ha|by injection Ha'|rewrite !length_app; cbn; lia|done|done|].
  rewrite length_app in E. cbn [length] in E.
  replace (Z.of_nat (length xs + 1)) with (Z.of_nat (length xs') + 1) in E by lia.
  exists v', rhs'. split; [done|]. cbn. by rewrite <- app_assoc in R, R'.
Qed.

Lemma append_loop_vec {l l'} move v rhs xs xs' ys : length xs = length xs' ->
  vec l v xs -> vec l' rhs (xs' ++ ys) ->
  exists v' rhs', append_loop Capacity move (length ys) v rhs (Z.of_nat (length xs)) = Done (v', rhs') /\
    vec l v' (xs ++ ys) /\ vec l' rhs' (xs' ++ (left_behind move <$> ys)).
Proof.
  revert v rhs xs xs'. induction ys as [|y ys IH]; intros v rhs xs xs' Hl H H'; cbn [length append_loop].
  { exists v, rhs. cbn. by rewrite !app_nil_r in *. }
  rewrite Hl, (vec_at _ _ _ _ H'). cbn [obind].
  pose proof (emplace_back_vec _ _ y H) as E. unfold full_values in E.
  rewrite (proj2 (Z.leb_gt _ _)) in E
    by (destruct H' as (r & _ & _ & Hc & Lr); rewrite length_app in Hc; cbn in Hc; lia).
  destruct E as (v1 & -> & H1). cbn [obind].
  destruct (leave_vec move _ _ _ _ H') as (rhs1 & -> & H1'). cbn [obind].
  rewrite cons_middle, app_assoc in H1'.
  destruct (IH v1 rhs1 (xs ++ [y]) (xs' ++ [left_behind move y])) as (v' & rhs' & E & R & R');
    [rewrite !length_app; cbn; lia|done|done|].
  rewrite length_app in E. cbn [length] in E.
  replace (Z.of_nat (length xs + 1)) with (Z.of_nat (length xs') + 1) in E by lia.
  exists v', rhs'. split; [done|]. cbn. by rewrite <- app_assoc in R, R'.
Qed.

(** Destroying elements one by one while the size still counts them. *)
Lemma destroy_loop_data pre ys post n l :
  Z.of_nat (length pre + length ys) <= n ->
  destroy_loop (length ys) (mk (pre ++ (Some <$> ys) ++ post) n l) (Z.of_nat (length pre))
  = Done (mk (pre ++ replicate (length ys) None ++ post : list (option T)) n l).
Proof.
  revert pre. induction ys as [|y ys IH]; intros pre Hn; cbn [length destroy_loop]; [done|].
  cbn [m_size length] in *. rewrite (proj2 (Z.ltb_lt _ _)) by lia. cbn [expects].
  unfold destroy, cell. cbn [m_data m_size m_lost fmap list_fmap app].
  rewrite aget_mid by done. cbn [obind]. rewrite aset_mid by done.
  rewrite cons_middle, app_assoc. specialize (IH (pre ++ [None])). rewrite length_app in IH. cbn [length] in IH.
  replace (Z.of_nat (length pre + 1)) with (Z.of_nat (length pre) + 1) in IH by lia.
  rewrite IH by lia. by rewrite <- app_assoc.
Qed.

Lemma assign_vec {l l'} move v xs rhs ys : vec l v xs -> vec l' rhs ys ->
  exists v' rhs', assign Capacity move v rhs = Done (v', rhs') /\ vec l v' ys /\
    vec l' rhs' (left_behind move <$> ys).
Proof.
  intros H H'. unfold assign, size. pose proof H as (r & _ & Es & Hc & Lr). pose proof H' as (r' & _ & Es' & Hc' & Lr').
  rewrite Es, Es'. remember (Nat.min (length ys) (length xs)) as n eqn:En.
  replace (Z.min (Z.of_nat (length ys)) (Z.of_nat (length xs))) with (Z.of_nat n) by lia. rewrite Nat2Z.id.
  destruct (assign_loop_vec (l:=l) (l':=l') move n v rhs [] (take n xs) (drop n xs) [] (take n ys) (drop n ys))
    as (v1 & rhs1 & E & R & R'); cbn [app]; rewrite ?length_take, ?take_drop; try done; try lia.
  cbn [app length] in *. change (Z.of_nat 0) with 0 in E. rewrite E. cbn [obind]. clear E.
  pose proof R' as (r1' & _ & Es1' & _ & Lr1'). rewrite Es1', length_app, length_fmap, length_take, length_drop.
  replace (n `min` length ys + (length ys - n))%nat with (length ys) by lia.
  destruct (decide (length xs <= length ys)%nat).
  - rewrite (drop_ge xs), app_nil_r in R by lia.
    assert (length (take n ys) = length (left_behind move <$> take n ys)) as Hl by by rewrite length_fmap.
    destruct (append_loop_vec move v1 rhs1 _ _ _ Hl R R') as (v2 & rhs2 & E & R2 & R2').
    rewrite length_drop, length_take in E.
    replace (Z.to_nat (Z.of_nat (length ys) - Z.of_nat n)) with (length ys - n)%nat by lia.
    replace (n `min` length ys)%nat with n in E by lia. rewrite E. cbn [obind].
    rewrite take_drop in R2. rewrite <- fmap_app, take_drop in R2'.
    pose proof R2 as (r2 & _ & Es2 & _ & Lr2). pose proof R2' as (r2' & _ & Es2' & _ & Lr2').
    rewrite Es2, Es2', length_fmap.
    replace (Z.to_nat (Z.of_nat (length ys) - _)) with O by lia. cbn [destroy_loop obind].
    exists (set_size v2 (Z.of_nat (length ys))), rhs2. split; [done|]. split; [|done].
    destruct R2 as (r3 & ? & ? & ?). by exists r3.
  - rewrite (drop_ge ys), app_nil_r in R' by lia.
    replace (Z.to_nat (Z.of_nat (length ys) - Z.of_nat n)) with O by lia. cbn [append_loop obind].
    rewrite (take_ge ys) in R, R' by lia.
    pose proof R' as (r2' & _ & Es2' & _ & Lr2'). rewrite Es2', length_fmap.
    destruct R as (r2 & Ed & Es2 & Hc2 & Lr2). rewrite Es2, length_app, length_drop in *.
    assert (n = length ys) as -> by lia.
    replace (Z.of_nat (length ys) `max` Z.of_nat (length ys)) with (Z.of_nat (length ys)) by lia.
    replace (Z.to_nat (_ - _)) with (length (drop (length ys) xs)) by (rewrite length_drop; lia).
    destruct v1 as [d1 s1 l1]. cbn [m_data m_size m_lost] in *. subst d1 s1 l1.
    unfold layout. rewrite fmap_app, <- app_assoc.
    pose proof (destroy_loop_data (Some <$> ys) (drop (length ys) xs) (replicate r2 None)
      (Z.of_nat (length ys + (length xs - length ys))) l) as E. rewrite length_Some in E.
    rewrite E by (rewrite length_drop; lia). cbn [obind].
    eexists _, _. split; [reflexivity|]. split; [|done].
    exists (length xs - length ys + r2)%nat. cbn. unfold layout. rewrite length_drop, replicate_add. split_and!; [done..|lia|done].
Qed.

Lemma construct_n_data pre m n (dflt : T) l :
  Z.of_nat (length pre + m) <= n ->
  construct_n m (mk ((Some <$> pre) ++ replicate m None) n l) (Z.of_nat (length pre)) dflt
  = Done (mk (Some <$> (pre ++ replicate m dflt)) n l).
Proof.
  revert pre. induction m as [|m IH]; intros pre Hn; cbn [construct_n replicate].
  { by rewrite !app_nil_r. }
  cbn [m_size]. rewrite (proj2 (Z.ltb_lt _ _)) by lia. cbn [expects]. unfold construct. cbn [m_data m_size m_lost].
  rewrite (aset_mid (Some <$> pre)), (aget_mid None (Some <$> pre)) by by rewrite length_Some.
  cbn [option_list]. rewrite app_nil_r.
  specialize (IH (pre ++ [dflt])). rewrite length_app in IH. cbn [length] in IH.
  replace (Z.of_nat (length pre + 1)) with (Z.of_nat (length pre) + 1) in IH by lia.
  rewrite fmap_app, <- !app_assoc in IH. cbn in IH. rewrite IH by lia. done.
Qed.

(** The members behind the constructed ones are not touched. *)
Lemma construct_n_frame m (d1 e : list (option T)) n l i dflt d' l' :
  0 <= i -> i + Z.of_nat m <= Z.of_nat (length d1) ->
  construct_n m (mk d1 n l) i dflt = Done (mk d' n l') ->
  construct_n m (mk (d1 ++ e) n l) i dflt = Done (mk (d' ++ e) n l').
Proof.
  revert d1 l i. induction m as [|m IH]; intros d1 l i H0 Hl; cbn [construct_n]; [by intros [= -> ->]|].
  cbn [m_size]. destruct (i <? n) eqn:E; cbn [expects]; [|done]. unfold construct. cbn [m_data m_size m_lost].
  intros H. assert (aset (d1 ++ e) i (Some dflt) = aset d1 i (Some dflt) ++ e) as ->.
  { unfold aset. rewrite (proj2 (Z.ltb_ge _ _)) by lia. rewrite insert_app_l by lia. done. }
  rewrite aget_app_l by lia.
  apply IH; [lia|rewrite length_aset; lia|done].
Qed.

Lemma ctor_count_vec dflt count : 0 <= count ->
  exists v, ctor_count Capacity dflt count = Done v /\ vec [] v (replicate (Z.to_nat (Z.min count Capacity)) dflt).
Proof.
  intros H0. unfold ctor_count, default_ctor. cbn [set_size m_size m_data].
  set (m := Z.to_nat (Z.min count Capacity)).
  pose proof (construct_n_data [] m (Z.min count Capacity) dflt []) as E. cbn [length app fmap list_fmap] in E.
  specialize (E ltac:(lia)).
  replace (Z.to_nat Capacity) with (m + (Z.to_nat Capacity - m))%nat by lia. rewrite replicate_add.
  eexists. split.
  - eapply construct_n_frame; [lia|rewrite length_replicate; lia|exact E].
  - exists (Z.to_nat Capacity - m)%nat. cbn. unfold layout. rewrite length_replicate. split_and!; [done|lia..|done].
Qed.

(** *** Operations on any vector *)

Lemma vec_size {l} v xs : vec l v xs -> size v = Z.of_nat (length xs).
Proof. by intros (r & _ & Es & _). Qed.

Lemma vec_empty {l} v xs : vec l v xs -> empty v = bool_decide (xs = []).
Proof. intros (r & _ & Es & _). unfold empty. rewrite Es. by destruct xs. Qed.

Lemma at_vec {l} v xs i : vec l v xs -> 0 <= i ->
  at_ v i = match xs !! Z.to_nat i with Some y => Done y | None => Terminated EXPECTS_ENSURES_FAILED end.
Proof.
  intros H Hi. destruct (xs !! Z.to_nat i) as [y|] eqn:Hy.
  - assert (Z.to_nat i < length xs)%nat by by eapply lookup_lt_Some.
    apply take_drop_middle in Hy. rewrite <- Hy in H. apply vec_at in H.
    rewrite length_take in H. by replace (Z.of_nat (Z.to_nat i `min` length xs)) with i in H by lia.
  - apply lookup_ge_None in Hy. eapply vec_at_out; [exact H|lia].
Qed.

Lemma assign_at_vec {l} v xs i x : vec l v xs -> 0 <= i ->
  if i <? Z.of_nat (length xs) then exists v', assign_at v i x = Done v' /\ vec l v' (<[Z.to_nat i := x]> xs)
  else assign_at v i x = Terminated EXPECTS_ENSURES_FAILED.
Proof.
  intros H Hi. destruct (Z.ltb_spec i (Z.of_nat (length xs))).
  - destruct (lookup_lt_is_Some_2 xs (Z.to_nat i)) as [y Hy]; [lia|].
    rewrite insert_take_drop by lia. apply take_drop_middle in Hy. rewrite <- Hy in H.
    destruct (vec_assign_at _ _ _ x _ H) as (v' & E & Hv). exists v'. split; [|done].
    rewrite length_take in E. by replace (Z.of_nat (Z.to_nat i `min` length xs)) with i in E by lia.
  - destruct H as (r & _ & Es & _). unfold assign_at. rewrite Es. by rewrite (proj2 (Z.ltb_ge _ _)).
Qed.

Lemma front_vec {l} v xs : vec l v xs ->
  front v = match xs with y :: _ => Done y | [] => Terminated EXPECTS_ENSURES_FAILED end.
Proof.
  intros H. unfold front. rewrite (vec_empty _ _ H), (at_vec _ _ 0 H) by lia. by destruct xs.
Qed.

Lemma back_vec {l} v xs : vec l v xs ->
  back v = match list.last xs with Some y => Done y | None => Terminated EXPECTS_ENSURES_FAILED end.
Proof.
  intros H. unfold back. rewrite (vec_empty _ _ H), (vec_size _ _ H).
  destruct xs as [|y xs _] using rev_ind; [done|]. rewrite last_snoc, bool_decide_false by (by destruct xs).
  pose proof H as (r & _ & _ & Hc & _). rewrite length_app in *. cbn [length] in *.
  rewrite u64_small by (unfold UINT64_MAX in Hcap; lia). cbn [negb expects].
  replace (Z.of_nat (length xs + 1) - 1) with (Z.of_nat (length xs)) by lia. by apply vec_at in H.
Qed.

Lemma erase_any {l} moved v xs i : vec l v xs ->
  exists v', erase moved v i = Done v' /\
    vec l v' (if (0 <=? i) && (i <? Z.of_nat (length xs)) then delete (Z.to_nat i) xs else xs).
Proof.
  intros H. destruct (Z.leb_spec 0 i), (Z.ltb_spec i (Z.of_nat (length xs))); cbn [andb];
    try (exists v; split; [eapply erase_out; [exact H|lia]|done]).
  destruct (lookup_lt_is_Some_2 xs (Z.to_nat i)) as [y Hy]; [lia|].
  rewrite delete_take_drop. apply take_drop_middle in Hy. rewrite <- Hy in H.
  destruct (erase_vec moved _ _ _ _ H) as (v' & E & Hv). exists v'. split; [|done].
  rewrite length_take in E. by replace (Z.of_nat (Z.to_nat i `min` length xs)) with i in E by lia.
Qed.

(** Insertion out of range or into a full vector is refused; at the end it appends. *)
Lemma emplace_refused moved v xs i x {l} : vec l v xs ->
  full_values xs || (Z.of_nat (length xs) <? i) = true -> emplace Capacity moved v i x = Done (v, false).
Proof.
  intros (r & _ & Es & Hc & _) Hb. unfold emplace, full_values in *. rewrite Es.
  destruct (Z.leb_spec Capacity (Z.of_nat (length xs))), (Z.leb_spec Capacity i),
    (Z.ltb_spec (Z.of_nat (length xs)) i); try done.
Qed.

Lemma emplace_end moved v xs x {l} : vec l v xs ->
  emplace Capacity moved v (Z.of_nat (length xs)) x = emplace_back Capacity v x.
Proof.
  intros H. pose proof (emplace_back_vec _ _ x H) as E. destruct H as (r & _ & Es & Hc & _).
  unfold emplace, full_values in *. rewrite Es, Z.ltb_irrefl, Z.eqb_refl, orb_false_r.
  destruct (Z.leb_spec Capacity (Z.of_nat (length xs))); [by rewrite E|done].
Qed.

(** Copying from another vector, and from the vector itself. *)
Lemma copy_assign_vec {l l'} this v xs that rhs ys : vec l v xs -> vec l' rhs ys ->
  if this =? that then copy_assign Capacity this v that rhs = Done v
  else exists v', copy_assign Capacity this v that rhs = Done v' /\ vec l v' ys.
Proof.
  intros H H'. unfold copy_assign. destruct (this =? that); [done|].
  destruct (assign_vec None _ _ _ _ H H') as (v' & rhs' & -> & R & _). eauto.
Qed.

Lemma move_assign_vec {l l'} moved this v xs that rhs ys : vec l v xs -> vec l' rhs ys ->
  if this =? that then move_assign Capacity moved this v that rhs = Done (v, v)
  else exists v' rhs', move_assign Capacity moved this v that rhs = Done (v', rhs') /\
         vec l v' ys /\ vec l' rhs' [].
Proof.
  intros H H'. unfold move_assign. destruct (this =? that); [done|].
  destruct (assign_vec (Some moved) _ _ _ _ H H') as (v' & rhs' & -> & R & R'). cbn [obind].
  pose proof R' as (r' & _ & Es' & _).
  assert (length (left_behind (Some moved) <$> ys) < S (Z.to_nat (m_size rhs')))%nat as Hl by (rewrite Es'; lia).
  destruct (clear_vec _ rhs' _ Hl R') as (rhs2 & -> & R2).
  cbn [default from_option id obind]. eauto.
Qed.

End spec.

(** Comparison looks at sizes and then at the elements; the capacities may differ. *)
Lemma equal_loop_vec {T} `{EqDecision T} c1 c2 {l l'} (v w : t T) xs a ys b :
  length xs = length ys -> length a = length b ->
  vec c1 l v (xs ++ a) -> vec c2 l' w (ys ++ b) ->
  equal_loop (length a) v w (Z.of_nat (length xs)) = Done (bool_decide (a = b)).
Proof.
  revert xs ys b. induction a as [|x a IH]; intros xs ys b Hl Hab H H'; destruct b as [|y b]; try discriminate; [done|].
  cbn [length equal_loop]. rewrite (vec_at _ _ _ _ _ H). cbn [obind].
  rewrite Hl, (vec_at _ _ _ _ _ H'). cbn [obind].
  destruct (decide (x = y)) as [->|Hne]; [|rewrite bool_decide_false; [done|congruence]].
  rewrite cons_middle, app_assoc in H, H'.
  assert (length (xs ++ [y]) = length (ys ++ [y])) as Hl' by (rewrite !length_app; lia).
  injection Hab as Hab. pose proof (IH _ _ _ Hl' Hab H H') as E. rewrite length_app in E. cbn [length] in E.
  replace (Z.of_nat (length xs + 1)) with (Z.of_nat (length ys) + 1) in E by lia. rewrite E. f_equal.
  apply bool_decide_ext. split; [by intros ->|by intros [= ->]].
Qed.

Lemma eqb_vec {T} `{EqDecision T} c1 c2 {l l'} (v w : t T) xs ys :
  vec c1 l v xs -> vec c2 l' w ys -> eqb v w = Done (bool_decide (xs = ys)).
Proof.
  intros H H'. unfold eqb. rewrite (vec_size _ _ _ H), (vec_size _ _ _ H').
  destruct (Z.eqb_spec (Z.of_nat (length xs)) (Z.of_nat (length ys))) as [E|E]; cbn [negb].
  - rewrite Nat2Z.id. apply (equal_loop_vec c1 c2 (l:=l) (l':=l') v w [] xs [] ys); [done|lia|done|done].
  - rewrite bool_decide_false; [done|]. intros ->. done.
Qed.

(** ** Theorems *)

(** C31: The vector is a sequence of bounded length: appending, removal at the end and
    by position, resizing, all constructors, element access and assignment with the
    bounds check, the first and the last element, size, comparison with a vector of any
    capacity, copy and move also onto itself, [clear] and the destructor.  No operation
    reads, assigns or destroys a cell without an object, and none of them constructs
    over an object: the objects lost so far stay [l].  Insertion out of range or into a
    full vector is refused and at the end it appends; before an element it constructs
    over the moved-from object at the position, which is lost, and the element that was
    last ends as the value that a move leaves behind.  The loops end. *)
Theorem vector_refines {T} `{EqDecision T} Capacity c moved (v : t T) xs l rhs ys l' w zs l'' x this that fuel count :
  0 < Capacity < UINT64_MAX ->
  vec Capacity l v xs -> vec Capacity l' rhs ys -> vec c l'' w zs ->
  (Z.to_nat Capacity < fuel)%nat -> 0 <= count ->
  (* size, access and comparison *)
  (size v = Z.of_nat (length xs) /\ empty v = bool_decide (xs = []) /\
   (forall i, 0 <= i -> at_ v i = match xs !! Z.to_nat i with
      | Some y => Done y | None => Terminated EXPECTS_ENSURES_FAILED end) /\
   (forall i, 0 <= i ->
      if i <? Z.of_nat (length xs) then exists v', assign_at v i x = Done v' /\ vec Capacity l v' (<[Z.to_nat i := x]> xs)
      else assign_at v i x = Terminated EXPECTS_ENSURES_FAILED) /\
   front v = match xs with y :: _ => Done y | [] => Terminated EXPECTS_ENSURES_FAILED end /\
   back v = match list.last xs with Some y => Done y | None => Terminated EXPECTS_ENSURES_FAILED end /\
   eqb v w = Done (bool_decide (xs = zs)) /\ neb v w = Done (negb (bool_decide (xs = zs)))) /\
  (* appending, removal and resizing *)
  (push_back Capacity v x = emplace_back Capacity v x /\
   (if full_values Capacity xs then emplace_back Capacity v x = Done (v, false)
    else exists v', emplace_back Capacity v x = Done (v', true) /\ vec Capacity l v' (xs ++ [x])) /\
   (exists v', pop_back v = Done (v', negb (bool_decide (xs = []))) /\ vec Capacity l v' (removelast xs)) /\
   (forall i, exists v', erase moved v i = Done v' /\
      vec Capacity l v' (if (0 <=? i) && (i <? Z.of_nat (length xs)) then delete (Z.to_nat i) xs else xs)) /\
   (if Capacity <? count then resize Capacity fuel v count x = Some (Done (v, false))
    else exists v', resize Capacity fuel v count x = Some (Done (v', true)) /\
           vec Capacity l v' (take (Z.to_nat count) xs ++ replicate (Z.to_nat count - length xs) x)) /\
   (exists v', clear fuel v = Some (Done v') /\ vec Capacity l v' []) /\
   (exists v', dtor fuel v = Some (Done v') /\ vec Capacity l v' [])) /\
  (* insertion *)
  ((forall i, full_values Capacity xs || (Z.of_nat (length xs) <? i) = true ->
      emplace Capacity moved v i x = Done (v, false)) /\
   emplace Capacity moved v (Z.of_nat (length xs)) x = emplace_back Capacity v x /\
   (forall a b y, xs = a ++ b ++ [y] -> full_values Capacity xs = false ->
      exists v', emplace Capacity moved v (Z.of_nat (length a)) x = Done (v', true) /\
        vec Capacity (l ++ [moved (List.hd (moved y) b)]) v' (a ++ x :: b ++ [moved y]))) /\
  (* constructors, copy and move *)
  (vec Capacity [] (default_ctor Capacity : t T) [] /\
   (exists v', ctor_value Capacity count x = Done v' /\
      vec Capacity [] v' (replicate (Z.to_nat (Z.min count Capacity)) x)) /\
   (exists v', ctor_count Capacity x count = Done v' /\
      vec Capacity [] v' (replicate (Z.to_nat (Z.min count Capacity)) x)) /\
   (if this =? that then copy_assign Capacity this v that rhs = Done v
    else exists v', copy_assign Capacity this v that rhs = Done v' /\ vec Capacity l v' ys) /\
   (if this =? that then move_assign Capacity moved this v that rhs = Done (v, v)
    else exists v' rhs', move_assign Capacity moved this v that rhs = Done (v', rhs') /\
           vec Capacity l v' ys /\ vec Capacity l' rhs' []) /\
   (this <> that -> exists v', copy_ctor Capacity this that rhs = Done v' /\ vec Capacity [] v' ys) /\
   (this <> that -> exists v' rhs', move_ctor Capacity moved this that rhs = Done (v', rhs') /\
      vec Capacity [] v' ys /\ vec Capacity l' rhs' [])).
Proof.
  intros Hcap H H' Hw Hf H0. pose proof H as (r & _ & _ & Hc & _).
  assert (length xs < fuel)%nat as Hl by lia. pose proof (default_vec (T:=T) Capacity Hcap) as Hd.
  split_and!; eauto using vec_size, vec_empty, at_vec, front_vec, back_vec, eqb_vec, pop_back_vec, erase_any,
    clear_vec, ctor_count_vec, emplace_refused, emplace_end.
  - intros i Hi. by apply (assign_at_vec Capacity).
  - unfold neb. by rewrite (eqb_vec _ _ _ _ _ _ H Hw).
  - by apply emplace_back_vec.
  - by apply resize_vec.
  - intros a b y -> Hn. by apply emplace_middle.
  - unfold ctor_value. apply (emplace_n_vec _ Hcap _ _ [] x); [cbn; lia|done].
  - exact (copy_assign_vec _ Hcap this _ _ that _ _ H H').
  - exact (move_assign_vec _ Hcap moved this _ _ that _ _ H H').
  - intros Hne%Z.eqb_neq. pose proof (copy_assign_vec _ Hcap this _ _ that _ _ Hd H') as E. by rewrite Hne in E.
  - intros Hne%Z.eqb_neq. pose proof (move_assign_vec _ Hcap moved this _ _ that _ _ Hd H') as E. by rewrite Hne in E.
Qed.

(** Insertion before an element gives the expected sequence exactly for values that a
    move does not change. *)
Theorem vector_emplace_loses_last {T} Capacity moved (v : t T) l xs ys y x :
  0 < Capacity < UINT64_MAX -> vec Capacity l v (xs ++ ys ++ [y]) -> full_values Capacity (xs ++ ys ++ [y]) = false ->
  exists v', emplace Capacity moved v (Z.of_nat (length xs)) x = Done (v', true) /\
    ((exists l', vec Capacity l' v' (xs ++ x :: ys ++ [y])) <-> moved y = y).
Proof.
  intros Hcap H Hf. destruct (emplace_middle _ Hcap moved _ _ _ _ x H Hf) as (v' & E & H'). exists v'. split; [done|].
  split; [|intros Hm; rewrite Hm in H'; eauto].
  intros [l' H2]. destruct H' as (r1 & E1 & Es1 & Hc1 & _), H2 as (r2 & E2 & Es2 & Hc2 & _).
  rewrite E1 in E2. assert (r1 = r2) as <- by (rewrite Es1 in Es2; lia).
  unfold layout in E2. apply app_inv_tail in E2. apply (inj (fmap Some)) in E2.
  rewrite !app_comm_cons, !app_assoc in E2. by apply app_inj_tail in E2 as [_ ?].
Qed.

(** *** A vector with two of three cells in use; a move leaves zero behind *)

Definition sample : t Z := mk [Some 7; Some 8; None] 2 [].

Lemma sample_vec : vec 3 [] sample [7; 8].
Proof. by exists 1%nat. Qed.

Lemma vector_refines_witness :
  emplace_back 3 sample 9 = Done (mk [Some 7; Some 8; Some 9] 3 [], true) /\
  emplace 3 (fun _ => 0) sample 0 9 = Done (mk [Some 9; Some 7; Some 0] 3 [0], true) /\
  exists v', emplace 3 (fun _ => 0) sample 0 9 = Done (v', true) /\ vec 3 [0] v' [9; 7; 0].
Proof.
  split; [reflexivity|]. split; [reflexivity|].
  refine (proj2 (proj2 (proj1 (proj2 (proj2 (vector_refines 3 3 (fun _ => 0) sample [7; 8] [] sample [7; 8] []
    sample [7; 8] [] 9 1 2 4 0 _ sample_vec sample_vec sample_vec _ _)))) ) [] [7] 8 eq_refl eq_refl); done || lia.
Defined.

End VectorSpec.
