(* ===== verification/CxxString.v ===== *)
(** * [cxx::string]

    hoofs [cxx/string.hpp], [internal/cxx/string.inl] and [string_internal.hpp]: a
    character array of [Capacity + 1] bytes that is terminated by zero, and a size.
    Characters are bytes, numbers from 0 to 255.  The functions of the C library that
    the code uses are defined here; an access beyond the array or the operand, the
    messages to the error stream included, is undefined behaviour and ends in an error
    value. *)

From S2P Require Import Prelude.

(** ** Memory functions of the C library *)

Module CString.

Definition len {A} (l : list A) : Z := Z.of_nat (length l).

(** [memcpy] and [memmove] of [n] bytes from [src] to [dst + off]. *)
Definition memcpy (dst : list Z) (off : Z) (src : list Z) (n : Z) : outcome (list Z) :=
  if (0 <=? off) && (0 <=? n) && (n <=? len src) && (off + n <=? len dst) then
    Done (take (Z.to_nat off) dst ++ take (Z.to_nat n) src ++ drop (Z.to_nat (off + n)) dst)
  else Terminated UNDEFINED_BEHAVIOUR.

(** [dst[i] = c] *)
Definition put (dst : list Z) (i c : Z) : outcome (list Z) :=
  if (0 <=? i) && (i <? len dst) then Done (aset dst i c) else Terminated UNDEFINED_BEHAVIOUR.

(** [src[i]] *)
Definition get (src : list Z) (i : Z) : outcome Z :=
  if (0 <=? i) && (i <? len src) then Done (aget 0 src i) else Terminated UNDEFINED_BEHAVIOUR.

(** The sign of the result, which is all that is specified. *)
Fixpoint memcmp_sign (n : nat) (a b : list Z) : Z :=
  match n, a, b with
  | S n, x :: a, y :: b => if x =? y then memcmp_sign n a b else if x <? y then -1 else 1
  | _, _, _ => 0
  end.

Definition memcmp (a b : list Z) (n : Z) : outcome Z :=
  if (n <=? len a) && (n <=? len b) then Done (memcmp_sign (Z.to_nat n) a b)
  else Terminated UNDEFINED_BEHAVIOUR.

(** The characters before the first zero. *)
Fixpoint cstr (l : list Z) : list Z :=
  match l with
  | [] => []
  | c :: l => if c =? 0 then [] else c :: cstr l
  end.

Definition terminated (l : list Z) : bool := bool_decide (0 ∈ l).

(** Reading a C string up to its zero. *)
Definition read_cstring (l : list Z) : outcome (list Z) :=
  if terminated l then Done (cstr l) else Terminated UNDEFINED_BEHAVIOUR.

(** [strnlen] stops at a zero or after [n] characters. *)
Definition strnlen (l : list Z) (n : Z) : outcome Z :=
  if terminated l || (n <=? len l) then Done (len (cstr (take (Z.to_nat n) l)))
  else Terminated UNDEFINED_BEHAVIOUR.

(** [strchr(data, c) != nullptr]: the terminating zero is found, too. *)
Definition strchr (data : list Z) (c : Z) : outcome bool :=
  let* chars := read_cstring data in Done (bool_decide (c ∈ chars) || (c =? 0)).

(** [strstr]: the offset of the first occurrence. *)
Fixpoint strstr_from (hay needle : list Z) (i : Z) : option Z :=
  if bool_decide (needle `prefix_of` hay) then Some i
  else match hay with
       | [] => None
       | _ :: hay => strstr_from hay needle (i + 1)
       end.

Definition strstr (hay needle : list Z) : outcome (option Z) :=
  let* h := read_cstring hay in
  let* n := read_cstring needle in
  Done (strstr_from h n 0).

End CString.

(** ** The class *)

Module CxxString.
Import CString.

Record t := mk { m_rawstring : list Z; m_rawstringSize : Z }.

(** The types that the templates accept: a fixed string of any capacity, a character
    array, a [std::string] and a character. *)
Inductive operand :=
  | Fixed (s : t)
  | CharArray (a : list Z)
  | StdString (xs : list Z)
  | Char (c : Z).

Definition GetSize (o : operand) : outcome Z :=
  match o with
  | Fixed s => Done (m_rawstringSize s)
  | CharArray a => strnlen a (len a)
  | StdString xs => Done (len xs)
  | Char _ => Done 1
  end.

(** The memory behind the pointer. *)
Definition GetData (o : operand) : list Z :=
  match o with
  | Fixed s => m_rawstring s
  | CharArray a => a
  | StdString xs => xs ++ [0]
  | Char c => [c]
  end.

(** [GetCapa]; [cap] is the capacity of a fixed string. *)
Definition GetCapa (cap : Z) (o : operand) : Z :=
  match o with
  | Fixed _ => cap
  | CharArray a => len a - 1
  | StdString _ => 0
  | Char _ => 1
  end.

Section ops.
Context (Capacity : Z).

Definition default_ctor : t := mk (replicate (Z.to_nat (Capacity + 1)) 0) 0.

Definition clear (s : t) : outcome t :=
  let* raw := put (m_rawstring s) 0 0 in Done (mk raw 0).

Definition size (s : t) : Z := m_rawstringSize s.
Definition empty (s : t) : bool := m_rawstringSize s =? 0.
Definition c_str (s : t) : list Z := m_rawstring s.

(** The common end of assignments: [count] bytes of [src], then a zero. *)
Definition copy_bytes (s : t) (src : list Z) (count : Z) : outcome t :=
  let* raw := memcpy (m_rawstring s) 0 src count in
  let* raw := put raw count 0 in
  Done (mk raw count).

Definition copy (s rhs : t) : outcome t := copy_bytes s (c_str rhs) (size rhs).

Definition move (s rhs : t) : outcome (t * t) :=
  let* s := copy_bytes s (c_str rhs) (size rhs) in
  let* rhs := clear rhs in
  Done (s, rhs).

(** [this] and [that] are the addresses of the two strings. *)
Definition copy_assign (this : Z) (s : t) (that : Z) (rhs : t) : outcome t :=
  if this =? that then Done s else copy s rhs.
Definition move_assign (this : Z) (s : t) (that : Z) (rhs : t) : outcome (t * t) :=
  if this =? that then Done (s, rhs) else move s rhs.

Definition copy_ctor (rhs : t) : outcome t := copy default_ctor rhs.
Definition move_ctor (rhs : t) : outcome (t * t) := move default_ctor rhs.

(** Construction with truncation; [None] is the null pointer.  The message about the
    truncation prints the operand as a C string. *)
Definition ctor_count (other : option (list Z)) (count : Z) : outcome t :=
  match other with
  | None => clear default_ctor
  | Some other =>
    if Capacity <? count then
      let* raw := memcpy (m_rawstring default_ctor) 0 other Capacity in
      let* raw := put raw Capacity 0 in
      let* _ := read_cstring other in
      Done (mk raw Capacity)
    else copy_bytes default_ctor other count
  end.

Definition ctor_cstring (other : option (list Z)) : outcome t :=
  let* count := match other with Some o => strnlen o Capacity | None => Done 0 end in
  ctor_count other count.

Definition ctor_std_string (xs : list Z) : outcome t := ctor_count (Some (xs ++ [0])) (len xs).

(** Assignment of an array of [N] characters with [N <= Capacity + 1]; [alias] tells
    whether it is the array of the string itself.  The last read looks for the zero. *)
Definition assign_array (alias : bool) (s : t) (rhs : list Z) : outcome t :=
  if alias then Done s
  else
    let* raw := memcpy (m_rawstring s) 0 rhs (len rhs) in
    let* rhsSize := strnlen rhs (len rhs) in
    let n := Z.min Capacity rhsSize in
    let* raw := put raw n 0 in
    let* _ := get rhs n in
    Done (mk raw n).

Definition ctor_array (rhs : list Z) : outcome t := assign_array false default_ctor rhs.

Definition unsafe_assign_cstring (alias : bool) (s : t) (str : option (list Z)) : outcome (t * bool) :=
  match str with
  | None => Done (s, false)
  | Some str =>
    if alias then Done (s, false)
    else
      let* strSize := strnlen str (u64 (Capacity + 1)) in
      if Capacity <? strSize then Done (s, false)
      else let* s := copy_bytes s str strSize in Done (s, true)
  end.

Definition unsafe_assign_std (s : t) (str : list Z) : outcome (t * bool) :=
  let strSize := len str in
  if Capacity <? strSize then Done (s, false)
  else let* s := copy_bytes s (str ++ [0]) strSize in Done (s, true).

(** *** Comparison *)

Definition compare (s : t) (other : operand) : outcome Z :=
  let* otherSize := GetSize other in
  let* result := memcmp (c_str s) (GetData other) (Z.min (m_rawstringSize s) otherSize) in
  Done (if result =? 0 then
          if m_rawstringSize s <? otherSize then -1
          else if otherSize <? m_rawstringSize s then 1
          else 0
        else result).

Definition compare_char (s : t) (other : Z) : outcome Z :=
  let* result := memcmp (c_str s) [other] 1 in
  Done (if result =? 0 then
          if empty s then -1 else if 1 <? m_rawstringSize s then 1 else 0
        else result).

(** Overload resolution takes [compare(char)] for a character. *)
Definition compare_with (s : t) (rhs : operand) : outcome Z :=
  match rhs with Char c => compare_char s c | _ => compare s rhs end.

Definition eqb (s : t) (rhs : operand) : outcome bool := let* r := compare_with s rhs in Done (r =? 0).
Definition neb (s : t) (rhs : operand) : outcome bool := let* r := compare_with s rhs in Done (negb (r =? 0)).
Definition ltb (s : t) (rhs : operand) : outcome bool := let* r := compare_with s rhs in Done (r <? 0).
Definition leb (s : t) (rhs : operand) : outcome bool := let* r := compare_with s rhs in Done (r <=? 0).
Definition gtb (s : t) (rhs : operand) : outcome bool := let* r := compare_with s rhs in Done (0 <? r).
Definition geb (s : t) (rhs : operand) : outcome bool := let* r := compare_with s rhs in Done (0 <=? r).

(** [operator<(lhs, rhs)] and the like with the fixed string on the right. *)
Definition ltb_l (lhs : operand) (rhs : t) : outcome bool := let* r := compare_with rhs lhs in Done (0 <? r).
Definition leb_l (lhs : operand) (rhs : t) : outcome bool := let* r := compare_with rhs lhs in Done (0 <=? r).
Definition gtb_l (lhs : operand) (rhs : t) : outcome bool := let* r := compare_with rhs lhs in Done (r <? 0).
Definition geb_l (lhs : operand) (rhs : t) : outcome bool := let* r := compare_with rhs lhs in Done (r <=? 0).

(** *** Appending, inserting, parts *)

Definition unsafe_append (s : t) (o : operand) : outcome (t * bool) :=
  let* tSize := GetSize o in
  let tData := GetData o in
  let clampedTSize := Z.min (u64 (Capacity - m_rawstringSize s)) tSize in
  if clampedTSize <? tSize then Done (s, false)
  else
    let* raw := memcpy (m_rawstring s) (m_rawstringSize s) tData clampedTSize in
    let n := u64 (m_rawstringSize s + clampedTSize) in
    let* raw := put raw n 0 in
    Done (mk raw n, true).

(** The message about the truncation prints the operand as a C string. *)
Definition append (s : t) (o : operand) : outcome t :=
  let* tSize := GetSize o in
  let tData := GetData o in
  let clampedTSize := Z.min (u64 (Capacity - m_rawstringSize s)) tSize in
  let* raw := memcpy (m_rawstring s) (m_rawstringSize s) tData clampedTSize in
  let* _ := if clampedTSize <? tSize then read_cstring tData else Done [] in
  let n := u64 (m_rawstringSize s + clampedTSize) in
  let* raw := put raw n 0 in
  Done (mk raw n).

Definition append_char (s : t) (c : Z) : outcome t :=
  if m_rawstringSize s =? Capacity then Done s
  else
    let* raw := put (m_rawstring s) (m_rawstringSize s) c in
    let n := u64 (m_rawstringSize s + 1) in
    let* raw := put raw n 0 in
    Done (mk raw n).

Definition insert (s : t) (pos : Z) (str : operand) (count : Z) : outcome (t * bool) :=
  let* strSize := GetSize str in
  if strSize <? count then Done (s, false)
  else
    let new_size := u64 (m_rawstringSize s + count) in
    if (Capacity <? new_size) || (new_size <? m_rawstringSize s) then Done (s, false)
    else if m_rawstringSize s <? pos then Done (s, false)
    else
      let* raw := memcpy (m_rawstring s) (u64 (pos + count)) (drop (Z.to_nat pos) (m_rawstring s))
                    (m_rawstringSize s - pos) in
      let* raw := memcpy raw pos (GetData str) count in
      let* raw := put raw new_size 0 in
      Done (mk raw new_size, true).

Definition substr (s : t) (pos count : Z) : outcome (option t) :=
  if m_rawstringSize s <? pos then Done None
  else
    let length := Z.min count (m_rawstringSize s - pos) in
    let* sub := copy_bytes default_ctor (drop (Z.to_nat pos) (m_rawstring s)) length in
    Done (Some sub).

Definition substr_from (s : t) (pos : Z) : outcome (option t) := substr s pos (m_rawstringSize s).

(** [concatenate(t1, t2)]: [Capacity] is the sum of the capacities of the operands. *)
Definition concatenate (t1 t2 : operand) : outcome t :=
  let* size1 := GetSize t1 in
  let* size2 := GetSize t2 in
  let* raw := memcpy (m_rawstring default_ctor) 0 (GetData t1) size1 in
  let* raw := memcpy raw size1 (GetData t2) size2 in
  let* raw := put raw (u64 (size1 + size2)) 0 in
  Done (mk raw (u64 (size1 + size2))).

(** *** Search *)

Definition find (s : t) (o : operand) (pos : Z) : outcome (option Z) :=
  if m_rawstringSize s <? pos then Done None
  else
    let* found := strstr (drop (Z.to_nat pos) (c_str s)) (GetData o) in
    Done (match found with None => None | Some found => Some (pos + found) end).

(** The loop of [find_first_of], [n] rounds from [p]. *)
Fixpoint first_of_loop (n : nat) (s : t) (data : list Z) (p : Z) : outcome (option Z) :=
  match n with
  | O => Done None
  | S n =>
    let* c := get (m_rawstring s) p in
    let* found := strchr data c in
    if found then Done (Some p) else first_of_loop n s data (p + 1)
  end.

Definition find_first_of (s : t) (o : operand) (pos : Z) : outcome (option Z) :=
  if m_rawstringSize s <? pos then Done None
  else first_of_loop (Z.to_nat (m_rawstringSize s - pos)) s (GetData o) pos.

(** The loop of [find_last_of] and the test of the first character behind it. *)
Fixpoint last_of_loop (p : nat) (s : t) (data : list Z) : outcome (option Z) :=
  let* c := get (m_rawstring s) (Z.of_nat p) in
  let* found := strchr data c in
  if found then Done (Some (Z.of_nat p))
  else match p with
       | O => Done None
       | S p => last_of_loop p s data
       end.

Definition find_last_of (s : t) (o : operand) (pos : Z) : outcome (option Z) :=
  if m_rawstringSize s =? 0 then Done None
  else
    let p := if m_rawstringSize s - 1 <? pos then m_rawstringSize s - 1 else pos in
    last_of_loop (Z.to_nat p) s (GetData o).

Definition at_ (s : t) (pos : Z) : outcome Z := expects (pos <? size s) (get (m_rawstring s) pos).

(** Writing through the reference. *)
Definition set_at (s : t) (pos c : Z) : outcome t :=
  expects (pos <? size s) (let* raw := put (m_rawstring s) pos c in Done (mk raw (m_rawstringSize s))).

(** [operator std::string()]: [std::string(c_str())]. *)
Definition to_std_string (s : t) : outcome (list Z) := read_cstring (c_str s).

End ops.
End CxxString.

(** ** Representation: the characters, a zero, and bytes that do not matter *)

Module CxxStringSpec.
Import CString CxxString.

Lemma len_app {A} (a b : list A) : len (a ++ b) = len a + len b.
Proof. unfold len. rewrite length_app. lia. Qed.

Lemma len_cons {A} (x : A) a : len (x :: a) = 1 + len a.
Proof. unfold len. cbn. lia. Qed.

Lemma len_nonneg {A} (a : list A) : 0 <= len a.
Proof. unfold len. lia. Qed.

Lemma len_take {A} n (a : list A) : 0 <= n -> len (take (Z.to_nat n) a) = Z.min n (len a).
Proof. intros. unfold len. rewrite length_take. lia. Qed.

Lemma len_drop {A} n (a : list A) : 0 <= n -> len (drop (Z.to_nat n) a) = Z.max 0 (len a - n).
Proof. intros. unfold len. rewrite length_drop. lia. Qed.

Lemma to_nat_len {A} (a : list A) : Z.to_nat (len a) = length a.
Proof. unfold len. lia. Qed.

Lemma memcpy_mid a b c src n :
  len b = n -> n <= len src -> memcpy (a ++ b ++ c) (len a) src n = Done (a ++ take (Z.to_nat n) src ++ c).
Proof.
  intros <- Hn. unfold memcpy. pose proof (len_nonneg a). pose proof (len_nonneg b). pose proof (len_nonneg c).
  rewrite !len_app. rewrite !(proj2 (Z.leb_le _ _)) by lia. cbn [andb].
  rewrite to_nat_len, take_app_length.
  replace (Z.to_nat (len a + len b)) with (length (a ++ b)) by (rewrite length_app; unfold len; lia).
  rewrite (app_assoc a b c), drop_app_length. done.
Qed.

Lemma put_mid a x c y : put (a ++ x :: c) (len a) y = Done (a ++ y :: c).
Proof.
  unfold put. pose proof (len_nonneg a). pose proof (len_nonneg c). rewrite len_app, len_cons.
  rewrite (proj2 (Z.leb_le _ _)), (proj2 (Z.ltb_lt _ _)) by lia. cbn [andb].
  unfold aset. rewrite (proj2 (Z.ltb_ge _ _)) by lia. rewrite to_nat_len.
  by rewrite insert_app_r_alt, Nat.sub_diag by lia.
Qed.

(** Splitting an array at two places. *)
Lemma split_at {A} (l : list A) n m : 0 <= n -> 0 <= m -> n + m <= len l ->
  exists a b c, l = a ++ b ++ c /\ len a = n /\ len b = m.
Proof.
  intros. exists (take (Z.to_nat n) l), (take (Z.to_nat m) (drop (Z.to_nat n) l)), (drop (Z.to_nat m) (drop (Z.to_nat n) l)).
  rewrite !take_drop, !len_take, len_drop by lia. split; [done|]. lia.
Qed.

Section spec.
Context (Capacity : Z).
Hypothesis Hcap : 0 < Capacity < UINT64_MAX.
Implicit Types (s : t) (xs ys : list Z).

Definition str (cap : Z) s xs : Prop :=
  exists rest, m_rawstring s = xs ++ 0 :: rest /\ m_rawstringSize s = len xs /\ len xs + len rest = cap.

Lemma str_length s xs : str Capacity s xs -> len (m_rawstring s) = Capacity + 1 /\ 0 <= len xs <= Capacity.
Proof.
  intros (rest & -> & _ & H). pose proof (len_nonneg xs). pose proof (len_nonneg rest).
  rewrite len_app, len_cons. lia.
Qed.

Lemma default_str : str Capacity (default_ctor Capacity) [].
Proof.
  exists (replicate (Z.to_nat Capacity) 0). cbn. replace (Z.to_nat (Capacity + 1)) with (S (Z.to_nat Capacity)) by lia.
  split; [done|]. split; [done|]. unfold len. rewrite length_replicate. cbn. lia.
Qed.

(** Writing [count] bytes and the zero behind them. *)
Lemma write_str raw pre src count :
  len raw = Capacity + 1 -> 0 <= count <= len src -> len pre + count <= Capacity ->
  (exists c, raw = pre ++ c) ->
  exists raw1 raw2, memcpy raw (len pre) src count = Done raw1 /\ put raw1 (len pre + count) 0 = Done raw2 /\
    str Capacity (mk raw2 (len pre + count)) (pre ++ take (Z.to_nat count) src).
Proof.
  intros Hl Hc Hp [c ->]. rewrite len_app in Hl. pose proof (len_nonneg pre).
  destruct (split_at c 0 count) as (a & b & c' & -> & Ha & Hb); [lia|lia|lia|].
  destruct a; [|rewrite len_cons in Ha; pose proof (len_nonneg a); lia]. cbn [app] in *.
  rewrite len_app in Hl. rewrite (memcpy_mid pre b c' src count Hb ltac:(lia)).
  destruct c' as [|z c']; [change (len (@nil Z)) with 0 in Hl; lia|].
  assert (len (pre ++ take (Z.to_nat count) src) = len pre + count) as E.
  { rewrite len_app, len_take by lia. lia. }
  eexists _, _. split; [reflexivity|]. rewrite app_assoc, <- E, put_mid. split; [reflexivity|].
  exists c'. cbn [m_rawstring m_rawstringSize]. split; [done|]. split; [done|].
  rewrite E. rewrite len_cons in Hl. lia.
Qed.

Lemma copy_bytes_str s src count :
  len (m_rawstring s) = Capacity + 1 -> 0 <= count <= len src -> count <= Capacity ->
  exists s', copy_bytes s src count = Done s' /\ str Capacity s' (take (Z.to_nat count) src).
Proof.
  intros Hl Hc Hm. unfold copy_bytes.
  destruct (write_str (m_rawstring s) [] src count Hl Hc ltac:(change (len (@nil Z)) with 0; lia)) as (r1 & r2 & E1 & E2 & H); [by eexists|].
  change (len (@nil Z)) with 0 in *. rewrite Z.add_0_l in *. rewrite E1. cbn [obind]. rewrite E2. cbn [obind]. eauto.
Qed.

Lemma take_len_app {A} (a b : list A) : take (Z.to_nat (len a)) (a ++ b) = a.
Proof. by rewrite to_nat_len, take_app_length. Qed.

Lemma drop_len_app {A} (a b : list A) : drop (Z.to_nat (len a)) (a ++ b) = b.
Proof. by rewrite to_nat_len, drop_app_length. Qed.

Lemma clear_str cap s xs : str cap s xs -> exists s', clear s = Done s' /\ str cap s' [].
Proof.
  intros (rest & E & Es & Hl). unfold clear. rewrite E. pose proof (len_nonneg xs). pose proof (len_nonneg rest).
  assert (exists z rest', xs ++ 0 :: rest = z :: rest' /\ len rest' = cap) as (z & rest' & -> & Hr).
  { destruct xs as [|z xs]; cbn [app]; eexists _, _; (split; [reflexivity|]).
    - by change (len (@nil Z)) with 0 in Hl.
    - rewrite len_app, !len_cons in *. lia. }
  pose proof (put_mid [] z rest' 0) as Ep. cbn [app] in Ep. change (len (@nil Z)) with 0 in Ep. rewrite Ep. cbn [obind].
  eexists. split; [reflexivity|]. exists rest'. cbn. split; [done|]. split; [done|]. unfold len in *. cbn. lia.
Qed.

(** *** Operands *)

(** [o] stands for the characters [ys]. *)
Definition op_is (o : operand) ys : Prop :=
  match o with
  | Fixed s => exists cap, str cap s ys
  | CharArray a => ys = cstr a
  | StdString xs => ys = xs
  | Char c => ys = [c] /\ 0 <= c
  end.

Lemma cstr_prefix l : exists tl, l = cstr l ++ tl.
Proof.
  induction l as [|c l [tl IH]]; [by exists []|]. cbn. destruct (c =? 0); [by eexists|].
  exists tl. cbn. by rewrite <- IH.
Qed.

(** [strnlen] of a whole array is defined, terminated or not. *)
Lemma strnlen_array a : strnlen a (len a) = Done (len (cstr a)).
Proof. unfold strnlen. by rewrite Z.leb_refl, orb_true_r, to_nat_len, firstn_all. Qed.

Lemma op_is_spec o ys : op_is o ys -> GetSize o = Done (len ys) /\ exists tl, GetData o = ys ++ tl.
Proof.
  destruct o as [s|a|xs|c]; cbn [op_is GetSize GetData].
  - intros (cap & rest & E & Es & _). rewrite Es. split; [done|]. by exists (0 :: rest).
  - intros ->. split; [apply strnlen_array|apply cstr_prefix].
  - intros ->. split; [done|]. by exists [0].
  - intros [-> _]. split; [done|]. by exists [].
Qed.

Lemma take_op n ys tl : 0 <= n <= len ys -> take (Z.to_nat n) (ys ++ tl) = take (Z.to_nat n) ys.
Proof. intros. apply take_app_le. unfold len in *. lia. Qed.

Lemma take_min n (l : list Z) : 0 <= n -> take (Z.to_nat (Z.min n (len l))) l = take (Z.to_nat n) l.
Proof.
  intros Hn. destruct (Z.min_spec n (len l)) as [[? ->]|[? ->]]; [done|].
  rewrite to_nat_len, firstn_all, take_ge; [done|]. unfold len in *. lia.
Qed.

(** *** Appending and inserting *)

Lemma append_bytes s xs src n : str Capacity s xs -> 0 <= n <= len src -> len xs + n <= Capacity ->
  exists raw1 raw2, memcpy (m_rawstring s) (m_rawstringSize s) src n = Done raw1 /\
    put raw1 (u64 (m_rawstringSize s + n)) 0 = Done raw2 /\
    str Capacity (mk raw2 (u64 (m_rawstringSize s + n))) (xs ++ take (Z.to_nat n) src).
Proof.
  intros H Hn Hc. pose proof (str_length _ _ H) as [Hl Hx]. destruct H as (rest & E & Es & Hr). rewrite Es.
  rewrite u64_small by (unfold UINT64_MAX in Hcap; lia). apply write_str; [done|lia|lia|]. by eexists.
Qed.

Lemma clamped s xs n : str Capacity s xs -> 0 <= n ->
  Z.min (u64 (Capacity - m_rawstringSize s)) n = Z.min (Capacity - len xs) n.
Proof.
  intros H Hn. pose proof (str_length _ _ H) as [_ Hx]. destruct H as (_ & _ & -> & _).
  by rewrite u64_small by (unfold UINT64_MAX in Hcap; lia).
Qed.

(** The characters that do not fit are cut off; for this an operand without a zero is
    read beyond its end. *)
Lemma append_str s xs o ys : str Capacity s xs -> op_is o ys ->
  if (len xs + len ys <=? Capacity) || terminated (GetData o)
  then exists s', append Capacity s o = Done s' /\
         str Capacity s' (xs ++ take (Z.to_nat (Capacity - len xs)) ys)
  else append Capacity s o = Terminated UNDEFINED_BEHAVIOUR.
Proof.
  intros H Ho. destruct (op_is_spec _ _ Ho) as [Hs [tl Hd]]. unfold append. rewrite Hs, Hd. cbn [obind].
  pose proof (len_nonneg ys). pose proof (len_nonneg tl). pose proof (str_length _ _ H) as [_ Hx].
  rewrite (clamped _ _ _ H) by done. set (n := Z.min _ _).
  destruct (append_bytes s xs (ys ++ tl) n H) as (r1 & r2 & E1 & E2 & R); [rewrite len_app; lia|lia|].
  rewrite E1. cbn [obind].
  replace (n <? len ys) with (negb (len xs + len ys <=? Capacity))
    by (unfold n; destruct (Z.leb_spec (len xs + len ys) Capacity), (Z.ltb_spec (Z.min (Capacity - len xs) (len ys)) (len ys)); lia).
  unfold read_cstring. destruct (len xs + len ys <=? Capacity), (terminated (ys ++ tl)); cbn [negb orb obind]; try done;
    rewrite E2; cbn [obind]; (eexists; split; [reflexivity|]).
  all: rewrite take_op in R by lia; replace (take (Z.to_nat (Capacity - len xs)) ys) with (take (Z.to_nat n) ys); [done|].
  all: unfold n; by rewrite take_min by lia.
Qed.

Lemma unsafe_append_str s xs o ys : str Capacity s xs -> op_is o ys ->
  if len xs + len ys <=? Capacity
  then exists s', unsafe_append Capacity s o = Done (s', true) /\ str Capacity s' (xs ++ ys)
  else unsafe_append Capacity s o = Done (s, false).
Proof.
  intros H Ho. destruct (op_is_spec _ _ Ho) as [Hs [tl Hd]]. unfold unsafe_append. rewrite Hs, Hd. cbn [obind].
  pose proof (len_nonneg ys). pose proof (len_nonneg tl). pose proof (str_length _ _ H) as [_ Hx].
  rewrite (clamped _ _ _ H) by done. destruct (Z.leb_spec (len xs + len ys) Capacity).
  - rewrite Z.min_r, Z.ltb_irrefl by lia.
    destruct (append_bytes s xs (ys ++ tl) (len ys) H) as (r1 & r2 & E1 & E2 & R); [rewrite len_app; lia|lia|].
    rewrite E1. cbn [obind]. rewrite E2. cbn [obind]. eexists. split; [reflexivity|]. by rewrite take_len_app in R.
  - by rewrite (proj2 (Z.ltb_lt _ _)) by lia.
Qed.

Lemma append_char_str s xs c : str Capacity s xs ->
  exists s', append_char Capacity s c = Done s' /\
             str Capacity s' (if len xs =? Capacity then xs else xs ++ [c]).
Proof.
  intros H. pose proof (str_length _ _ H) as [_ Hx]. pose proof H as (rest & E & Es & Hr). unfold append_char.
  rewrite Es. destruct (Z.eqb_spec (len xs) Capacity); [eauto|].
  rewrite E, put_mid. cbn [obind]. rewrite u64_small by (unfold UINT64_MAX in Hcap; lia).
  destruct rest as [|z rest]; [change (len (@nil Z)) with 0 in Hr; lia|].
  rewrite (cons_middle c), app_assoc. replace (len xs + 1) with (len (xs ++ [c])) by (rewrite len_app; done).
  rewrite put_mid. cbn [obind]. eexists. split; [reflexivity|]. exists rest. cbn [m_rawstring m_rawstringSize].
  split; [done|]. split; [done|]. rewrite len_app. change (len [c]) with 1. rewrite len_cons in Hr. lia.
Qed.

(** The two copies of an insertion: the characters behind the position move by
    [count], then the new ones are written. *)
Lemma insert_bytes x1 x2 rest data count :
  0 <= count <= len data -> count <= len rest ->
  exists r1 r2 rest',
    memcpy (x1 ++ x2 ++ 0 :: rest) (len x1 + count) (x2 ++ 0 :: rest) (len x2) = Done r1 /\
    memcpy r1 (len x1) data count = Done r2 /\
    put r2 (len x1 + len x2 + count) 0 = Done ((x1 ++ take (Z.to_nat count) data ++ x2) ++ 0 :: rest') /\
    len rest' = len rest - count.
Proof.
  intros Hd Hr. pose proof (len_nonneg x2). pose proof (len_nonneg rest).
  destruct (split_at (x2 ++ 0 :: rest) count (len x2)) as (b1 & b2 & c & E & Hb1 & Hb2);
    [lia|lia|rewrite len_app, len_cons; lia|].
  assert (len b1 + len b2 + len c = len x2 + 1 + len rest) as Hl.
  { apply (f_equal len) in E. rewrite !len_app, len_cons in E. lia. }
  destruct c as [|z c]; [change (len (@nil Z)) with 0 in Hl; lia|]. rewrite len_cons in Hl.
  pose proof (memcpy_mid (x1 ++ b1) b2 (z :: c) (x2 ++ 0 :: rest) (len x2) Hb2) as M1.
  rewrite take_len_app, (len_app x1 b1), Hb1, <- !app_assoc, <- E in M1.
  specialize (M1 ltac:(rewrite len_app, len_cons; lia)).
  pose proof (memcpy_mid x1 b1 (x2 ++ z :: c) data count Hb1 ltac:(lia)) as M2.
  eexists _, _, c. split; [exact M1|]. split; [exact M2|]. split; [|lia].
  rewrite <- (put_mid (x1 ++ take (Z.to_nat count) data ++ x2) z c 0). f_equal.
  - by rewrite <- !app_assoc.
  - rewrite !len_app, len_take by lia. lia.
Qed.

Lemma insert_str s xs pos o ys count : str Capacity s xs -> op_is o ys ->
  0 <= pos < 2 ^ 64 -> 0 <= count < 2 ^ 64 ->
  if (count <=? len ys) && (len xs + count <=? Capacity) && (pos <=? len xs)
  then exists s', insert Capacity s pos o count = Done (s', true) /\
         str Capacity s' (take (Z.to_nat pos) xs ++ take (Z.to_nat count) ys ++ drop (Z.to_nat pos) xs)
  else insert Capacity s pos o count = Done (s, false).
Proof.
  intros H Ho Hpos Hcount. destruct (op_is_spec _ _ Ho) as [Hs [tl Hd]]. unfold insert. rewrite Hs, Hd. cbn [obind].
  pose proof (str_length _ _ H) as [Hraw Hx]. destruct H as (rest & E & Es & Hr). rewrite Es.
  destruct (Z.leb_spec count (len ys)); [|by rewrite (proj2 (Z.ltb_lt _ _)) by lia].
  rewrite (proj2 (Z.ltb_ge _ _)) by lia. cbn [andb].
  assert ((Capacity <? u64 (len xs + count)) || (u64 (len xs + count) <? len xs)
          = negb (len xs + count <=? Capacity)) as ->.
  { unfold u64. unfold UINT64_MAX in Hcap. destruct (Z.leb_spec (len xs + count) Capacity); cbn [negb].
    - rewrite Z.mod_small by lia. rewrite !(proj2 (Z.ltb_ge _ _)) by lia. done.
    - apply orb_true_iff. rewrite !Z.ltb_lt. destruct (decide (len xs + count < 2 ^ 64)).
      + rewrite Z.mod_small; lia.
      + right. rewrite <- (Z_mod_plus_full _ (-1)), Z.mod_small; lia. }
  destruct (Z.leb_spec (len xs + count) Capacity); cbn [negb andb]; [|done].
  destruct (Z.leb_spec pos (len xs)); [|by rewrite (proj2 (Z.ltb_lt _ _)) by lia].
  rewrite (proj2 (Z.ltb_ge _ _)) by lia. rewrite !u64_small by (unfold UINT64_MAX in Hcap; lia).
  pose proof (len_nonneg rest). pose proof (len_nonneg tl).
  set (x1 := take (Z.to_nat pos) xs). set (x2 := drop (Z.to_nat pos) xs).
  assert (len x1 = pos) as Hx1 by (unfold x1; rewrite len_take; lia).
  assert (len x2 = len xs - pos) as Hx2 by (unfold x2; rewrite len_drop; lia).
  assert (xs = x1 ++ x2) as Exs by (unfold x1, x2; by rewrite take_drop). clearbody x1 x2.
  destruct (insert_bytes x1 x2 rest (ys ++ tl) count) as (r1 & r2 & rest' & M1 & M2 & M3 & Hr');
    [rewrite len_app; lia|lia|].
  assert (drop (Z.to_nat pos) (m_rawstring s) = x2 ++ 0 :: rest) as Edrop.
  { rewrite E, Exs, <- app_assoc, <- Hx1. apply drop_len_app. }
  rewrite Edrop, E, Exs, <- app_assoc, len_app, <- Hx1.
  replace (len x1 + len x2 - len x1) with (len x2) by lia.
  rewrite M1. cbn [obind]. rewrite M2. cbn [obind]. rewrite M3. cbn [obind].
  eexists. split; [reflexivity|]. exists rest'. cbn [m_rawstring m_rawstringSize].
  rewrite take_op by lia. split; [done|]. rewrite !len_app, len_take by lia. lia.
Qed.

(** *** Construction, assignment and parts *)

Lemma copy_str s xs rhs ys cap : str Capacity s xs -> str cap rhs ys -> cap <= Capacity ->
  exists s', copy s rhs = Done s' /\ str Capacity s' ys.
Proof.
  intros H (rest & E & Es & Hc) Hcap'. pose proof (str_length _ _ H) as [Hl _].
  pose proof (len_nonneg ys). pose proof (len_nonneg rest). unfold copy, size, c_str. rewrite E, Es.
  destruct (copy_bytes_str s (ys ++ 0 :: rest) (len ys) Hl) as (s' & E' & H'); [rewrite len_app, len_cons; lia|lia|].
  rewrite take_len_app in H'. eauto.
Qed.

(** Truncation reads an operand without a zero beyond its end. *)
Lemma ctor_count_str other count : 0 <= count <= len other ->
  if (count <=? Capacity) || terminated other
  then exists s, ctor_count Capacity (Some other) count = Done s /\
         str Capacity s (take (Z.to_nat (Z.min count Capacity)) other)
  else ctor_count Capacity (Some other) count = Terminated UNDEFINED_BEHAVIOUR.
Proof.
  intros Hc. pose proof (str_length _ _ default_str) as [Hl _]. unfold ctor_count.
  destruct (Z.ltb_spec Capacity count), (Z.leb_spec count Capacity); try lia; cbn [orb].
  - rewrite Z.min_r by lia.
    destruct (copy_bytes_str (default_ctor Capacity) other Capacity Hl) as (s & E & Hs); [lia|lia|].
    unfold copy_bytes in E. apply obind_Done_inv in E as (raw & -> & E). cbn [obind].
    apply obind_Done_inv in E as (raw' & -> & [= <-]). cbn [obind]. unfold read_cstring.
    destruct (terminated other); cbn [obind]; eauto.
  - rewrite Z.min_l by lia. apply copy_bytes_str; [done|lia|lia].
Qed.

Lemma cstr_range l n : 0 <= n -> 0 <= len (cstr (take (Z.to_nat n) l)) <= Z.min n (len l).
Proof.
  intros Hn. destruct (cstr_prefix (take (Z.to_nat n) l)) as [tl E].
  pose proof (len_nonneg (cstr (take (Z.to_nat n) l))). pose proof (len_nonneg tl).
  apply (f_equal len) in E. rewrite len_app, len_take in E by done. lia.
Qed.

Lemma take_cstr_n n l : 0 <= n <= len (cstr l) -> take (Z.to_nat n) l = take (Z.to_nat n) (cstr l).
Proof.
  intros Hn. destruct (cstr_prefix l) as [tl E].
  transitivity (take (Z.to_nat n) (cstr l ++ tl)); [by f_equal|by apply take_op].
Qed.

Lemma take_cstr l : take (Z.to_nat (len (cstr l))) l = cstr l.
Proof. rewrite take_cstr_n, to_nat_len, firstn_all; [done|]. pose proof (len_nonneg (cstr l)). lia. Qed.

(** [strnlen] within a bound that is not too small finds the first zero. *)
Lemma cstr_take n l : cstr (take n l) = take n (cstr l).
Proof.
  revert n. induction l as [|c l IH]; intros n; [by destruct n|].
  destruct n as [|n]; [done|]. cbn. destruct (c =? 0); [done|]. by rewrite IH.
Qed.

(** A zero before the end of the array. *)
Lemma terminated_cstr l : terminated l = (len (cstr l) <? len l).
Proof.
  unfold terminated. induction l as [|c l IH]; [done|]. cbn. destruct (Z.eqb_spec c 0) as [->|Hne].
  - rewrite bool_decide_true by set_solver. pose proof (len_nonneg l). rewrite len_cons.
    by rewrite (proj2 (Z.ltb_lt _ _)) by (unfold len in *; cbn; lia).
  - rewrite !len_cons. replace (bool_decide (0 ∈ c :: l)) with (bool_decide (0 ∈ l))
      by (apply bool_decide_ext; set_solver).
    rewrite IH. destruct (Z.ltb_spec (len (cstr l)) (len l)), (Z.ltb_spec (1 + len (cstr l)) (1 + len l)); lia.
Qed.

Lemma ctor_cstring_str other :
  if terminated other || (Capacity <=? len other)
  then exists s, ctor_cstring Capacity (Some other) = Done s /\
         str Capacity s (take (Z.to_nat Capacity) (cstr other))
  else ctor_cstring Capacity (Some other) = Terminated UNDEFINED_BEHAVIOUR.
Proof.
  unfold ctor_cstring, strnlen. destruct (terminated other || (Capacity <=? len other)); [|done]. cbn [obind].
  pose proof (cstr_range other Capacity ltac:(lia)) as Hr.
  pose proof (ctor_count_str other (len (cstr (take (Z.to_nat Capacity) other)))) as H.
  rewrite (proj2 (Z.leb_le _ Capacity)) in H by lia. destruct H as (s & E & H); [lia|].
  exists s. split; [done|]. rewrite Z.min_l in H by lia.
  rewrite cstr_take in H. rewrite len_take in H by lia.
  pose proof (len_nonneg (cstr other)). rewrite take_cstr_n, take_min in H by lia. done.
Qed.

Lemma substr_str s xs pos count : str Capacity s xs -> 0 <= pos -> 0 <= count ->
  if pos <=? len xs
  then exists s', substr Capacity s pos count = Done (Some s') /\
         str Capacity s' (take (Z.to_nat count) (drop (Z.to_nat pos) xs))
  else substr Capacity s pos count = Done None.
Proof.
  intros H Hp Hc. pose proof (str_length _ _ default_str) as [Hl _]. pose proof (str_length _ _ H) as [_ Hx].
  destruct H as (rest & E & Es & Hr). unfold substr. rewrite Es, E.
  destruct (Z.leb_spec pos (len xs)); [|by rewrite (proj2 (Z.ltb_lt _ _)) by lia].
  rewrite (proj2 (Z.ltb_ge _ _)) by lia. rewrite drop_app_le by (unfold len in *; lia).
  set (x2 := drop (Z.to_nat pos) xs). assert (len x2 = len xs - pos) as Hx2 by (unfold x2; rewrite len_drop; lia).
  pose proof (len_nonneg rest).
  destruct (copy_bytes_str (default_ctor Capacity) (x2 ++ 0 :: rest) (Z.min count (len xs - pos)) Hl)
    as (s' & E' & H'); [rewrite len_app, len_cons; lia|lia|].
  rewrite E'. cbn [obind]. eexists. split; [reflexivity|]. rewrite take_op in H' by lia.
  by rewrite <- Hx2, take_min in H' by lia.
Qed.

Lemma unsafe_assign_str s xs str' : str Capacity s xs ->
  if terminated str' || (Capacity + 1 <=? len str')
  then if len (cstr str') <=? Capacity
       then exists s', unsafe_assign_cstring Capacity false s (Some str') = Done (s', true) /\ str Capacity s' (cstr str')
       else unsafe_assign_cstring Capacity false s (Some str') = Done (s, false)
  else unsafe_assign_cstring Capacity false s (Some str') = Terminated UNDEFINED_BEHAVIOUR.
Proof.
  intros H. pose proof (str_length _ _ H) as [Hl _]. unfold unsafe_assign_cstring.
  rewrite u64_small by (unfold UINT64_MAX in Hcap; lia). unfold strnlen.
  destruct (terminated str' || (Capacity + 1 <=? len str')); [|done]. cbn [obind]. rewrite cstr_take, len_take by lia.
  pose proof (len_nonneg (cstr str')). destruct (Z.leb_spec (len (cstr str')) Capacity).
  - rewrite Z.min_r by lia. rewrite (proj2 (Z.ltb_ge _ _)) by lia.
    destruct (cstr_prefix str') as [tl Et]. pose proof (len_nonneg tl).
    destruct (copy_bytes_str s str' (len (cstr str')) Hl) as (s' & E' & H');
      [apply (f_equal len) in Et; rewrite len_app in Et; lia|lia|].
    rewrite E'. cbn [obind]. rewrite take_cstr in H'. eauto.
  - by rewrite (proj2 (Z.ltb_lt _ _)) by lia.
Qed.

(** An array without a zero is accepted when it has one character more than the
    capacity; a shorter one is read beyond its end. *)
Lemma assign_array_str s xs rhs : str Capacity s xs -> len rhs <= Capacity + 1 ->
  if terminated rhs || (Capacity + 1 <=? len rhs)
  then exists s', assign_array Capacity false s rhs = Done s' /\
         str Capacity s' (take (Z.to_nat Capacity) (cstr rhs))
  else assign_array Capacity false s rhs = Terminated UNDEFINED_BEHAVIOUR.
Proof.
  intros H Hr. pose proof (str_length _ _ H) as [Hl _]. unfold assign_array. rewrite strnlen_array.
  pose proof (len_nonneg rhs).
  destruct (split_at (m_rawstring s) 0 (len rhs)) as (a & b & c & E & Ha & Hb); [lia|lia|lia|].
  destruct a; [|rewrite len_cons in Ha; pose proof (len_nonneg a); lia]. cbn [app] in E. rewrite E.
  pose proof (memcpy_mid [] b c rhs (len rhs) Hb ltac:(lia)) as M. change (len (@nil Z)) with 0 in M.
  cbn [app] in M. rewrite M, to_nat_len, firstn_all. cbn [obind].
  set (n := Z.min Capacity (len (cstr rhs))).
  assert (len (rhs ++ c) = Capacity + 1) as Hl'.
  { rewrite E, len_app, Hb in Hl. rewrite len_app. lia. }
  pose proof (len_nonneg (cstr rhs)).
  destruct (split_at (rhs ++ c) n 1) as (x & y & z & E2 & Hx & Hy); [lia|lia|lia|].
  destruct y as [|w [|w' y]]; [done| |rewrite !len_cons in Hy; pose proof (len_nonneg y); lia].
  rewrite E2. cbn [app]. rewrite <- Hx, put_mid. cbn [obind]. rewrite Hx.
  assert (terminated rhs || (Capacity + 1 <=? len rhs) = (0 <=? n) && (n <? len rhs)) as ->.
  { rewrite terminated_cstr. pose proof (cstr_range rhs (len rhs) ltac:(lia)) as Hn.
    rewrite to_nat_len, firstn_all in Hn. unfold n.
    destruct (Z.ltb_spec (len (cstr rhs)) (len rhs)), (Z.leb_spec (Capacity + 1) (len rhs)),
      (Z.leb_spec 0 (Capacity `min` len (cstr rhs))), (Z.ltb_spec (Capacity `min` len (cstr rhs)) (len rhs)); lia. }
  unfold get. destruct ((0 <=? n) && (n <? len rhs)); cbn [obind]; [|done]. eexists. split; [reflexivity|].
  exists z. cbn [m_rawstring m_rawstringSize].
  assert (x = take (Z.to_nat Capacity) (cstr rhs)) as ->.
  { rewrite <- (take_len_app x ([w] ++ z)), <- E2, Hx. unfold n.
    destruct (cstr_prefix rhs) as [tl Et]. pose proof (len_nonneg tl).
    apply (f_equal len) in Et. rewrite len_app in Et.
    rewrite take_op by lia. by rewrite take_cstr_n, take_min by lia. }
  split; [done|]. split; [lia|]. rewrite E2, !len_app in Hl'. change (len [w]) with 1 in Hl'. lia.
Qed.

(** *** Comparison: the lexicographic order *)

Fixpoint lex xs ys : comparison :=
  match xs, ys with
  | [], [] => Eq
  | [], _ :: _ => Lt
  | _ :: _, [] => Gt
  | x :: xs, y :: ys => match x ?= y with Eq => lex xs ys | c => c end
  end.

Definition sign (c : comparison) : Z := match c with Lt => -1 | Eq => 0 | Gt => 1 end.

Lemma lex_eq xs ys : lex xs ys = Eq <-> xs = ys.
Proof.
  revert ys. induction xs as [|x xs IH]; intros [|y ys]; cbn; try done.
  destruct (Z.compare_spec x y) as [->|H|H].
  - rewrite IH. split; [by intros ->|by intros [= ->]].
  - split; [done|]. intros [= -> _]. lia.
  - split; [done|]. intros [= -> _]. lia.
Qed.

Lemma lex_antisym xs ys : lex ys xs = CompOpp (lex xs ys).
Proof.
  revert ys. induction xs as [|x xs IH]; intros [|y ys]; cbn; try done.
  rewrite (Z.compare_antisym x y). destruct (x ?= y); cbn; [apply IH|done|done].
Qed.

Lemma lex_trans xs ys zs : lex xs ys = Lt -> lex ys zs = Lt -> lex xs zs = Lt.
Proof.
  revert ys zs. induction xs as [|x xs IH]; intros [|y ys] [|z zs]; cbn; try done.
  destruct (Z.compare_spec x y), (Z.compare_spec y z), (Z.compare_spec x z); subst; try done; try lia.
  apply IH.
Qed.

Lemma memcmp_lex xs ys t1 t2 :
  (let r := memcmp_sign (Nat.min (length xs) (length ys)) (xs ++ t1) (ys ++ t2) in
   if r =? 0 then if len xs <? len ys then -1 else if len ys <? len xs then 1 else 0 else r)
  = sign (lex xs ys).
Proof.
  revert ys. induction xs as [|x xs IH]; intros [|y ys]; cbn zeta.
  - done.
  - cbn [length Nat.min memcmp_sign Z.eqb]. pose proof (len_nonneg ys). change (len (@nil Z)) with 0.
    rewrite len_cons. by rewrite (proj2 (Z.ltb_lt _ _)) by lia.
  - cbn [length Nat.min memcmp_sign Z.eqb]. pose proof (len_nonneg xs). change (len (@nil Z)) with 0.
    rewrite len_cons. by rewrite (proj2 (Z.ltb_ge _ _)), (proj2 (Z.ltb_lt _ _)) by lia.
  - specialize (IH ys). cbn zeta in IH. cbn [length Nat.min memcmp_sign app lex].
    rewrite !len_cons.
    replace (1 + len xs <? 1 + len ys) with (len xs <? len ys) by (destruct (Z.ltb_spec (len xs) (len ys)),
      (Z.ltb_spec (1 + len xs) (1 + len ys)); lia).
    replace (1 + len ys <? 1 + len xs) with (len ys <? len xs) by (destruct (Z.ltb_spec (len ys) (len xs)),
      (Z.ltb_spec (1 + len ys) (1 + len xs)); lia).
    destruct (Z.eqb_spec x y) as [->|Hne]; [rewrite Z.compare_refl; exact IH|].
    destruct (Z.ltb_spec x y); cbn [Z.eqb]; destruct (Z.compare_spec x y); try done; lia.
Qed.

Lemma compare_with_lex s xs o ys cap : str cap s xs -> op_is o ys -> compare_with s o = Done (sign (lex xs ys)).
Proof.
  intros (rest & E & Es & _) Ho. destruct (op_is_spec _ _ Ho) as [Hs [tl Hd]].
  assert (forall o, GetSize o = Done (len ys) -> GetData o = ys ++ tl -> compare s o = Done (sign (lex xs ys))) as Hc.
  { intros o' Hs' Hd'. unfold compare, c_str. rewrite Hs', Hd', E, Es. cbn [obind]. unfold memcmp.
    pose proof (len_nonneg xs). pose proof (len_nonneg ys). pose proof (len_nonneg rest). pose proof (len_nonneg tl).
    rewrite !len_app, len_cons, !(proj2 (Z.leb_le _ _)) by lia. cbn [andb obind]. f_equal.
    replace (Z.to_nat (Z.min (len xs) (len ys))) with (Nat.min (length xs) (length ys)) by (unfold len; lia).
    apply memcmp_lex. }
  destruct o as [s'|a|zs|c]; cbn [compare_with]; try by apply Hc. destruct Ho as [-> Hc0].
  unfold compare_char, empty, c_str, memcmp. rewrite E, Es. pose proof (len_nonneg rest).
  rewrite !(proj2 (Z.leb_le 1 _)) by (try rewrite len_app, len_cons; pose proof (len_nonneg xs); unfold len in *; cbn; lia).
  cbn [andb obind]. f_equal. change (Z.to_nat 1) with 1%nat. destruct xs as [|x xs].
  - cbn [app memcmp_sign]. destruct (Z.eqb_spec 0 c); [done|]. by rewrite (proj2 (Z.ltb_lt _ _)) by lia.
  - cbn [app memcmp_sign lex]. pose proof (len_nonneg xs). rewrite len_cons.
    destruct (Z.eqb_spec x c) as [->|Hne].
    + cbn [Z.eqb]. rewrite (proj2 (Z.eqb_neq _ _)) by lia. rewrite Z.compare_refl.
      destruct xs as [|x' xs]; [done|]. rewrite len_cons. pose proof (len_nonneg xs).
      by rewrite (proj2 (Z.ltb_lt _ _)) by lia.
    + destruct (Z.ltb_spec x c); cbn [Z.eqb]; destruct (Z.compare_spec x c); try done; lia.
Qed.

(** *** Search, in texts without zeros *)

Definition no_zero xs : Prop := 0 ∉ xs.

Lemma cstr_no_zero xs tl : no_zero xs -> cstr (xs ++ 0 :: tl) = xs.
Proof.
  unfold no_zero. induction xs as [|x xs IH]; intros H; [done|]. cbn.
  destruct (Z.eqb_spec x 0) as [->|_]; [set_solver|]. rewrite IH; [done|set_solver].
Qed.

(** A text with its terminating zero. *)
Definition is_text (o : operand) ys : Prop :=
  op_is o ys /\ no_zero ys /\
  match o with Char _ => False | CharArray a => terminated a = true | _ => True end.

Lemma read_terminated xs tl : no_zero xs -> read_cstring (xs ++ 0 :: tl) = Done xs.
Proof.
  intros H. unfold read_cstring, terminated. rewrite bool_decide_true by set_solver. by rewrite cstr_no_zero.
Qed.

Lemma text_cstr o ys : is_text o ys -> read_cstring (GetData o) = Done ys.
Proof.
  intros (Ho & Hz & Hn). destruct o as [s|a|zs|c]; cbn [GetData op_is] in *.
  - destruct Ho as (cap & rest & -> & _). by apply read_terminated.
  - subst. unfold read_cstring. by rewrite Hn.
  - subst. by apply read_terminated.
  - done.
Qed.

Lemma strstr_from_spec hay needle i :
  match strstr_from hay needle i with
  | Some j => exists k, j = i + Z.of_nat k /\ (k <= length hay)%nat /\ needle `prefix_of` drop k hay /\
                (forall k', (k' < k)%nat -> ~ needle `prefix_of` drop k' hay)
  | None => forall k, ~ needle `prefix_of` drop k hay
  end.
Proof.
  revert i. induction hay as [|c hay IH]; intros i; cbn [strstr_from].
  - case_bool_decide as Hp.
    + exists O. split; [lia|]. split; [done|]. split; [done|]. intros k' Hk. lia.
    + intros k. by destruct k.
  - case_bool_decide as Hp.
    + exists O. split; [lia|]. split; [lia|]. split; [done|]. intros k' Hk. lia.
    + specialize (IH (i + 1)). destruct (strstr_from hay needle (i + 1)) as [j|].
      * destruct IH as (k & -> & Hk & Hpre & Hmin). exists (S k). split; [lia|]. split; [cbn; lia|].
        split; [done|]. intros [|k'] Hk'; [done|]. apply Hmin. lia.
      * intros [|k]; [done|apply IH].
Qed.

(** [j] is the first position from [pos] on where [P] holds. *)
Definition first_from (pos : Z) (P : Z -> Prop) (r : option Z) : Prop :=
  match r with
  | Some j => pos <= j /\ P j /\ forall k, pos <= k < j -> ~ P k
  | None => forall k, pos <= k -> ~ P k
  end.

Definition occurs_at xs ys (j : Z) : Prop := ys `prefix_of` drop (Z.to_nat j) xs /\ j <= len xs.

Lemma string_find_spec s xs o ys pos cap : str cap s xs -> no_zero xs -> is_text o ys -> 0 <= pos ->
  exists r, find s o pos = Done r /\ first_from pos (occurs_at xs ys) r.
Proof.
  intros (rest & E & Es & _) Hz Ho Hp. unfold find. rewrite Es.
  destruct (Z.ltb_spec (len xs) pos).
  { eexists. split; [done|]. intros k Hk [_ Hl]. lia. }
  unfold strstr, c_str. rewrite (text_cstr _ _ Ho), E, drop_app_le by (unfold len in *; lia).
  rewrite read_terminated
    by (unfold no_zero in *; rewrite <- (take_drop (Z.to_nat pos) xs) in Hz; set_solver).
  cbn [obind]. eexists. split; [done|].
  pose proof (strstr_from_spec (drop (Z.to_nat pos) xs) ys 0) as Hs.
  assert (forall k, pos <= k -> drop (Z.to_nat (k - pos)) (drop (Z.to_nat pos) xs) = drop (Z.to_nat k) xs) as Hd.
  { intros k Hk. rewrite drop_drop. f_equal. lia. }
  destruct (strstr_from _ ys 0) as [j|].
  - destruct Hs as (k & -> & Hk & Hpre & Hmin). rewrite length_drop in Hk. cbn [first_from]. split; [lia|]. split.
    + split; [|unfold len in *; lia]. rewrite <- Hd by lia.
      by replace (Z.to_nat (pos + (0 + Z.of_nat k) - pos)) with k by lia.
    + intros k' Hk' [Hpre' _]. apply (Hmin (Z.to_nat (k' - pos))); [lia|]. by rewrite Hd by lia.
  - cbn. intros k Hk [Hpre _]. apply (Hs (Z.to_nat (k - pos))). by rewrite Hd by lia.
Qed.

(** The character at [j] is one of [ys]. *)
Definition in_set xs ys (j : Z) : Prop := exists c, 0 <= j /\ xs !! Z.to_nat j = Some c /\ c ∈ ys.

Lemma strchr_spec s xs o ys j cap : str cap s xs -> no_zero xs -> is_text o ys -> 0 <= j < len xs ->
  exists c b, get (m_rawstring s) j = Done c /\ strchr (GetData o) c = Done b /\ (b = true <-> in_set xs ys j).
Proof.
  intros (rest & E & _ & _) Hz Ho Hj. pose proof (len_nonneg rest).
  destruct (lookup_lt_is_Some_2 xs (Z.to_nat j)) as [c Hc]; [unfold len in *; lia|].
  assert (get (m_rawstring s) j = Done c) as ->.
  { rewrite E. unfold get, aget. rewrite len_app, len_cons. rewrite (proj2 (Z.leb_le _ _)), (proj2 (Z.ltb_lt _ _)) by lia.
    cbn [andb]. rewrite (proj2 (Z.ltb_ge _ _)) by lia. rewrite lookup_app_l by (unfold len in *; lia). by rewrite Hc. }
  assert (c <> 0) by (intros ->; apply Hz; by eapply list_elem_of_lookup_2).
  unfold strchr. rewrite (text_cstr _ _ Ho). cbn [obind]. eexists _, _. split; [done|]. split; [done|].
  rewrite (proj2 (Z.eqb_neq c 0)), orb_false_r, bool_decide_eq_true by done.
  split; [intros Hin; exists c; split; [lia|done]|]. intros (c' & _ & Hc' & Hin). congruence.
Qed.

Lemma first_of_loop_spec n s xs o ys p cap : str cap s xs -> no_zero xs -> is_text o ys ->
  0 <= p -> p + Z.of_nat n = len xs ->
  exists r, first_of_loop n s (GetData o) p = Done r /\ first_from p (in_set xs ys) r.
Proof.
  intros H Hz Ho. revert p. induction n as [|n IH]; intros p Hp Hl; cbn [first_of_loop].
  { eexists. split; [done|]. intros k Hk (c & _ & Hc & _). apply lookup_lt_Some in Hc. unfold len in Hl. lia. }
  destruct (strchr_spec _ _ _ _ p _ H Hz Ho ltac:(lia)) as (c & b & -> & Hch & Hs). cbn [obind].
  rewrite Hch. cbn [obind]. destruct b.
  - eexists. split; [done|]. cbn. split; [lia|]. split; [by apply Hs|]. intros k Hk. lia.
  - destruct (IH (p + 1) ltac:(lia) ltac:(lia)) as (r & -> & IHr). clear IH. rename IHr into IH.
    assert (~ in_set xs ys p) as Hnp by (intros Hin; by apply Hs in Hin).
    eexists. split; [done|]. destruct r as [j|]; cbn in *.
    + destruct IH as (? & ? & Hmin). split; [lia|]. split; [done|]. intros k Hk.
      destruct (decide (k = p)) as [->|]; [done|]. apply Hmin. lia.
    + intros k Hk. destruct (decide (k = p)) as [->|]; [done|]. apply IH. lia.
Qed.

(** [j] is the last position up to [pos] where [P] holds. *)
Definition last_to (pos : Z) (P : Z -> Prop) (r : option Z) : Prop :=
  match r with
  | Some j => j <= pos /\ P j /\ forall k, j < k <= pos -> ~ P k
  | None => forall k, k <= pos -> ~ P k
  end.

Lemma last_of_loop_spec p s xs o ys cap : str cap s xs -> no_zero xs -> is_text o ys ->
  Z.of_nat p < len xs ->
  exists r, last_of_loop p s (GetData o) = Done r /\ last_to (Z.of_nat p) (in_set xs ys) r.
Proof.
  intros H Hz Ho. induction p as [|p IH]; intros Hl; cbn [last_of_loop];
    destruct (strchr_spec _ _ _ _ _ _ H Hz Ho (conj (Zle_0_nat _) Hl)) as (c & b & -> & Hch & Hs); cbn [obind];
    rewrite Hch; cbn [obind]; destruct b.
  - eexists. split; [done|]. cbn. split; [lia|]. split; [by apply Hs|]. intros k Hk. lia.
  - eexists. split; [done|]. cbn. intros k Hk Hin. assert (k = 0) as -> by (destruct Hin as (? & ? & _); lia).
    by apply Hs in Hin.
  - eexists. split; [done|]. cbn. split; [lia|]. split; [by apply Hs|]. intros k Hk. lia.
  - destruct (IH ltac:(lia)) as (r & -> & IHr). clear IH. rename IHr into IH.
    assert (~ in_set xs ys (Z.of_nat (S p))) as Hnp by (intros Hin; by apply Hs in Hin).
    eexists. split; [done|]. destruct r as [j|]; unfold last_to in *.
    + destruct IH as (? & ? & Hmax). split; [lia|]. split; [done|]. intros k Hk.
      destruct (decide (k = Z.of_nat (S p))) as [->|]; [done|]. apply Hmax. lia.
    + intros k Hk. destruct (decide (k = Z.of_nat (S p))) as [->|]; [done|]. apply IH. lia.
Qed.

Lemma concatenate_str o1 xs o2 ys : op_is o1 xs -> op_is o2 ys -> len xs + len ys <= Capacity ->
  exists s, concatenate Capacity o1 o2 = Done s /\ str Capacity s (xs ++ ys).
Proof.
  intros H1 H2 Hc. destruct (op_is_spec _ _ H1) as [Hs1 [t1 Hd1]], (op_is_spec _ _ H2) as [Hs2 [t2 Hd2]].
  unfold concatenate. rewrite Hs1, Hs2, Hd1, Hd2. cbn [obind]. pose proof (str_length _ _ default_str) as [Hl _].
  pose proof (len_nonneg xs). pose proof (len_nonneg ys). pose proof (len_nonneg t1). pose proof (len_nonneg t2).
  set (raw := m_rawstring (default_ctor Capacity)) in *. clearbody raw.
  destruct (split_at raw 0 (len xs)) as (a & b & c & -> & Ha & Hb); [lia|lia|lia|].
  destruct a; [|rewrite len_cons in Ha; pose proof (len_nonneg a); lia]. cbn [app] in *.
  pose proof (memcpy_mid [] b c (xs ++ t1) (len xs) Hb ltac:(rewrite len_app; lia)) as M.
  change (len (@nil Z)) with 0 in M. cbn [app] in M. rewrite M, take_len_app. cbn [obind].
  destruct (write_str (xs ++ c) xs (ys ++ t2) (len ys)) as (r1 & r2 & E1 & E2 & R);
    [rewrite len_app in *; lia|rewrite len_app; lia|lia|by eexists|].
  rewrite E1. cbn [obind]. rewrite u64_small by (unfold UINT64_MAX in Hcap; lia). rewrite E2. cbn [obind].
  rewrite take_len_app in R. eauto.
Qed.

(** *** Access, and operands of type [std::string] *)

Lemma at_spec s xs i : str Capacity s xs -> 0 <= i ->
  at_ s i = match xs !! Z.to_nat i with Some c => Done c | None => Terminated EXPECTS_ENSURES_FAILED end.
Proof.
  intros (rest & E & Es & _) Hi. unfold at_, size, get. rewrite E, Es, len_app, len_cons.
  pose proof (len_nonneg rest). destruct (xs !! Z.to_nat i) as [c|] eqn:Hc.
  - pose proof (lookup_lt_Some _ _ _ Hc).
    rewrite (proj2 (Z.leb_le _ _)), !(proj2 (Z.ltb_lt _ _)) by (unfold len in *; lia). cbn [expects andb].
    unfold aget. rewrite (proj2 (Z.ltb_ge _ _)) by lia. by rewrite lookup_app_l, Hc by done.
  - apply lookup_ge_None in Hc. by rewrite (proj2 (Z.ltb_ge _ _)) by (unfold len; lia).
Qed.

Lemma set_at_spec s xs i c : str Capacity s xs -> 0 <= i ->
  if i <? len xs then exists s', set_at s i c = Done s' /\ str Capacity s' (<[Z.to_nat i := c]> xs)
  else set_at s i c = Terminated EXPECTS_ENSURES_FAILED.
Proof.
  intros (rest & E & Es & Hl) Hi. unfold set_at, size. rewrite E, Es. pose proof (len_nonneg rest).
  destruct (Z.ltb_spec i (len xs)); [|done]. cbn [expects]. unfold put. rewrite len_app, len_cons.
  rewrite (proj2 (Z.leb_le _ _)), (proj2 (Z.ltb_lt _ _)) by lia. cbn [andb obind]. eexists. split; [reflexivity|].
  exists rest. cbn. unfold aset, len in *. rewrite (proj2 (Z.ltb_ge _ _)) by lia.
  rewrite insert_app_l, length_insert by lia. split; [done|lia].
Qed.

Lemma terminated_std xs : terminated (xs ++ [0]) = true.
Proof. apply bool_decide_eq_true_2. set_solver. Qed.

Lemma ctor_std_string_str xs :
  exists s, ctor_std_string Capacity xs = Done s /\ str Capacity s (take (Z.to_nat Capacity) xs).
Proof.
  unfold ctor_std_string. pose proof (len_nonneg xs). pose proof (ctor_count_str (xs ++ [0]) (len xs)) as H'.
  rewrite terminated_std, orb_true_r in H'. destruct H' as (s & E & Hs); [rewrite len_app; change (len [0]) with 1; lia|].
  exists s. split; [done|]. rewrite take_op in Hs by lia. by rewrite Z.min_comm, take_min in Hs by lia.
Qed.

Lemma unsafe_assign_std_str s xs ys : str Capacity s xs ->
  if len ys <=? Capacity then exists s', unsafe_assign_std Capacity s ys = Done (s', true) /\ str Capacity s' ys
  else unsafe_assign_std Capacity s ys = Done (s, false).
Proof.
  intros H. pose proof (str_length _ _ H) as [Hl _]. unfold unsafe_assign_std. pose proof (len_nonneg ys).
  destruct (Z.leb_spec (len ys) Capacity), (Z.ltb_spec Capacity (len ys)); try lia; [|done].
  destruct (copy_bytes_str s (ys ++ [0]) (len ys) Hl) as (s' & -> & H');
    [rewrite len_app; change (len [0]) with 1; lia|lia|].
  rewrite take_len_app in H'. cbn [obind]. eauto.
Qed.

Lemma move_str s xs rhs ys cap : str Capacity s xs -> str cap rhs ys -> cap <= Capacity ->
  exists s' rhs', move s rhs = Done (s', rhs') /\ str Capacity s' ys /\ str cap rhs' [].
Proof.
  intros H Hr Hc. destruct (copy_str _ _ _ _ _ H Hr Hc) as (s' & E & H'). unfold move. unfold copy in E.
  rewrite E. cbn [obind]. destruct (clear_str _ _ _ Hr) as (rhs' & -> & R). cbn [obind]. eauto.
Qed.

(** ** Theorems *)

(** C32: The fixed string is a text of bounded length: appending with and without
    truncation, insertion, parts, concatenation, access to a character, construction
    with truncation, assignment, copy and move are those of texts.  What does not fit is
    refused or cut off as documented, the array stays terminated by zero and is never
    left.  The operand is left exactly where it has no zero and the code looks for one:
    in the message about a truncation, in [strnlen] for a pointer to fewer characters
    than the limit, and when an array of at most [Capacity] characters is assigned. *)
Theorem string_refines s xs o ys o2 ws rhs zs cap pos count c other :
  str Capacity s xs -> op_is o ys -> op_is o2 ws -> str cap rhs zs -> cap <= Capacity ->
  0 <= pos < 2 ^ 64 -> 0 <= count < 2 ^ 64 ->
  (* appending, insertion, parts, access *)
  (if (len xs + len ys <=? Capacity) || terminated (GetData o)
   then exists s', append Capacity s o = Done s' /\
          str Capacity s' (xs ++ take (Z.to_nat (Capacity - len xs)) ys)
   else append Capacity s o = Terminated UNDEFINED_BEHAVIOUR) /\
  (if len xs + len ys <=? Capacity
   then exists s', unsafe_append Capacity s o = Done (s', true) /\ str Capacity s' (xs ++ ys)
   else unsafe_append Capacity s o = Done (s, false)) /\
  (exists s', append_char Capacity s c = Done s' /\
              str Capacity s' (if len xs =? Capacity then xs else xs ++ [c])) /\
  (if (count <=? len ys) && (len xs + count <=? Capacity) && (pos <=? len xs)
   then exists s', insert Capacity s pos o count = Done (s', true) /\
          str Capacity s' (take (Z.to_nat pos) xs ++ take (Z.to_nat count) ys ++ drop (Z.to_nat pos) xs)
   else insert Capacity s pos o count = Done (s, false)) /\
  (if pos <=? len xs
   then exists s', substr Capacity s pos count = Done (Some s') /\
          str Capacity s' (take (Z.to_nat count) (drop (Z.to_nat pos) xs))
   else substr Capacity s pos count = Done None) /\
  (len ys + len ws <= Capacity ->
   exists s', concatenate Capacity o o2 = Done s' /\ str Capacity s' (ys ++ ws)) /\
  at_ s pos = match xs !! Z.to_nat pos with Some x => Done x | None => Terminated EXPECTS_ENSURES_FAILED end /\
  (if pos <? len xs then exists s', set_at s pos c = Done s' /\ str Capacity s' (<[Z.to_nat pos := c]> xs)
   else set_at s pos c = Terminated EXPECTS_ENSURES_FAILED) /\
  (* construction with truncation *)
  (if terminated other || (Capacity <=? len other)
   then exists s', ctor_cstring Capacity (Some other) = Done s' /\
          str Capacity s' (take (Z.to_nat Capacity) (cstr other))
   else ctor_cstring Capacity (Some other) = Terminated UNDEFINED_BEHAVIOUR) /\
  (count <= len other ->
   if (count <=? Capacity) || terminated other
   then exists s', ctor_count Capacity (Some other) count = Done s' /\
          str Capacity s' (take (Z.to_nat (Z.min count Capacity)) other)
   else ctor_count Capacity (Some other) count = Terminated UNDEFINED_BEHAVIOUR) /\
  (exists s', ctor_std_string Capacity other = Done s' /\ str Capacity s' (take (Z.to_nat Capacity) other)) /\
  (* assignment *)
  (if terminated other || (Capacity + 1 <=? len other)
   then if len (cstr other) <=? Capacity
        then exists s', unsafe_assign_cstring Capacity false s (Some other) = Done (s', true) /\
               str Capacity s' (cstr other)
        else unsafe_assign_cstring Capacity false s (Some other) = Done (s, false)
   else unsafe_assign_cstring Capacity false s (Some other) = Terminated UNDEFINED_BEHAVIOUR) /\
  (if len other <=? Capacity
   then exists s', unsafe_assign_std Capacity s other = Done (s', true) /\ str Capacity s' other
   else unsafe_assign_std Capacity s other = Done (s, false)) /\
  (len other <= Capacity + 1 ->
   if terminated other || (Capacity + 1 <=? len other)
   then exists s', assign_array Capacity false s other = Done s' /\
          str Capacity s' (take (Z.to_nat Capacity) (cstr other))
   else assign_array Capacity false s other = Terminated UNDEFINED_BEHAVIOUR) /\
  (exists s', copy s rhs = Done s' /\ str Capacity s' zs) /\
  (exists s' rhs', move s rhs = Done (s', rhs') /\ str Capacity s' zs /\ str cap rhs' []).
Proof.
  intros H Ho Ho2 Hr Hc Hp Hn. split_and!.
  - by apply append_str.
  - by apply unsafe_append_str.
  - by apply append_char_str.
  - by apply insert_str.
  - apply substr_str; [done|lia|lia].
  - by apply concatenate_str.
  - apply at_spec; [done|lia].
  - apply set_at_spec; [done|lia].
  - apply ctor_cstring_str.
  - intros Hl. apply ctor_count_str. lia.
  - apply ctor_std_string_str.
  - by eapply unsafe_assign_str.
  - by eapply unsafe_assign_std_str.
  - intros Hl. by eapply assign_array_str.
  - by eapply copy_str.
  - by eapply move_str.
Qed.

(** Comparing fixed strings, character arrays, [std::string]s and single characters
    in any combination is the lexicographic order of the bytes, also with zeros in the
    texts: equality is that of the texts, and smaller is a strict total order. *)
Theorem string_compare_lexicographic s xs o ys :
  str Capacity s xs -> op_is o ys ->
  compare_with s o = Done (sign (lex xs ys)) /\
  eqb s o = Done (bool_decide (xs = ys)) /\ neb s o = Done (negb (bool_decide (xs = ys))) /\
  ltb s o = Done (bool_decide (lex xs ys = Lt)) /\ gtb s o = Done (bool_decide (lex ys xs = Lt)) /\
  leb s o = Done (negb (bool_decide (lex ys xs = Lt))) /\ geb s o = Done (negb (bool_decide (lex xs ys = Lt))) /\
  ltb_l o s = gtb s o /\ gtb_l o s = ltb s o /\ leb_l o s = geb s o /\ geb_l o s = leb s o /\
  (forall zs, lex xs ys = Lt -> lex ys zs = Lt -> lex xs zs = Lt) /\
  (lex xs ys = Lt \/ xs = ys \/ lex ys xs = Lt).
Proof.
  intros H Ho. pose proof (compare_with_lex _ _ _ _ _ H Ho) as E.
  unfold eqb, neb, ltb, leb, gtb, geb, ltb_l, gtb_l, leb_l, geb_l. rewrite E. cbn [obind].
  pose proof (lex_eq xs ys) as He. pose proof (lex_antisym xs ys) as Ha.
  assert (bool_decide (xs = ys) = match lex xs ys with Eq => true | _ => false end) as ->.
  { destruct (lex xs ys); [by apply bool_decide_eq_true_2, He|..]; apply bool_decide_eq_false_2;
      intros Heq; apply He in Heq; done. }
  split; [done|]. rewrite Ha.
  destruct (lex xs ys) eqn:El; cbn; split_and!; try done; try tauto; intros; try done.
  - by eapply lex_trans.
Qed.

(** Search in texts without zeros.  [find] returns the first position from the
    given one on where the other text occurs, [find_first_of] and [find_last_of] the
    first and the last position of a character of the other text, and none of them
    returns a position when there is none. *)
Theorem string_find_correct s xs o ys pos :
  str Capacity s xs -> no_zero xs -> is_text o ys -> 0 <= pos ->
  (exists r, find s o pos = Done r /\ first_from pos (occurs_at xs ys) r) /\
  (exists r, find_first_of s o pos = Done r /\ first_from pos (in_set xs ys) r) /\
  (exists r, find_last_of s o pos = Done r /\ last_to pos (in_set xs ys) r).
Proof.
  intros H Hz Ho Hp. split; [by eapply string_find_spec|]. pose proof H as (rest & E & Es & _).
  pose proof (len_nonneg xs). split.
  - unfold find_first_of. rewrite Es. destruct (Z.ltb_spec (len xs) pos).
    + eexists. split; [done|]. intros k Hk (c & _ & Hc & _). apply lookup_lt_Some in Hc. unfold len in *. lia.
    + eapply first_of_loop_spec; [exact H|done|done|lia|lia].
  - assert (forall k, len xs - 1 < k -> ~ in_set xs ys k) as Hout.
    { intros k Hk (c & _ & Hc & _). apply lookup_lt_Some in Hc. unfold len in *. lia. }
    unfold find_last_of. rewrite Es. destruct (Z.eqb_spec (len xs) 0) as [E0|E0].
    + eexists. split; [done|]. intros k Hk Hin. apply (Hout k); [|done]. destruct Hin as (c & ? & _). lia.
    + set (p := if len xs - 1 <? pos then len xs - 1 else pos).
      assert (p = Z.min (len xs - 1) pos) as Ep by (unfold p; destruct (Z.ltb_spec (len xs - 1) pos); lia).
      destruct (last_of_loop_spec (Z.to_nat p) s xs o ys _ H Hz Ho ltac:(lia)) as (r & -> & Hs).
      rewrite Z2Nat.id in Hs by lia. eexists. split; [done|]. destruct r as [j|]; unfold last_to in *.
      * destruct Hs as (Hj & Hin & Hmax). split; [lia|]. split; [done|]. intros k Hk.
        destruct (decide (k <= p)); [apply Hmax; lia|apply Hout; lia].
      * intros k Hk. destruct (decide (k <= p)); [apply Hs; lia|apply Hout; lia].
Qed.

(** Conversion to [std::string] and back is the identity on texts without zeros; a
    zero in the text ends the converted one. *)
Theorem string_std_string_roundtrip s xs : str Capacity s xs ->
  to_std_string s = Done (cstr (xs ++ [0])) /\
  (no_zero xs -> exists s', ctor_std_string Capacity (cstr (xs ++ [0])) = Done s' /\ str Capacity s' xs).
Proof.
  intros H. pose proof (str_length _ _ H) as [_ Hx]. pose proof H as (rest & E & Es & _).
  unfold to_std_string, c_str, read_cstring, terminated. rewrite E. rewrite bool_decide_true by set_solver. split.
  - f_equal. clear. induction xs as [|x xs IH]; [done|]. cbn. destruct (x =? 0); [done|]. by rewrite IH.
  - intros Hz. rewrite cstr_no_zero by done. destruct (ctor_std_string_str xs) as (s' & E' & H').
    rewrite take_ge in H' by (unfold len in *; lia). eauto.
Qed.

End spec.

(** *** The text "ab" in a string of capacity four *)

Definition sample : t := mk [97; 98; 0; 0; 0] 2.

Lemma string_sample_cap : 0 < 4 < UINT64_MAX.
Proof. done. Qed.

Lemma sample_str : str 4 sample [97; 98].
Proof. exists [0; 0]. done. Qed.

Lemma sample_op : op_is (CharArray [98; 99; 100; 0]) [98; 99; 100].
Proof. done. Qed.

(** Assignment of two characters without a zero reads a third one. *)
Lemma string_refines_witness :
  (exists s', append 4 sample (CharArray [98; 99; 100; 0]) = Done s' /\ str 4 s' [97; 98; 98; 99]) /\
  assign_array 4 false sample [98; 99] = Terminated UNDEFINED_BEHAVIOUR.
Proof.
  pose proof (string_refines 4 string_sample_cap sample [97; 98] (CharArray [98; 99; 100; 0]) [98; 99; 100]
    (CharArray [98; 99; 100; 0]) [98; 99; 100] sample [97; 98] 4 0 0 0 [98; 99] sample_str sample_op sample_op sample_str
    ltac:(lia) ltac:(lia) ltac:(lia)) as R.
  split; [exact (proj1 R)|].
  refine (proj1 (proj2 (proj2 (proj2 (proj2 (proj2 (proj2 (proj2 (proj2 (proj2 (proj2 (proj2 (proj2 (proj2 R))))))))))))) _).
  by vm_compute.
Defined.

Lemma string_compare_lexicographic_witness :
  compare_with sample (CharArray [98; 99; 100; 0]) = Done (sign (lex [97; 98] [98; 99; 100])) /\
  sign (lex [97; 98] [98; 99; 100]) = -1.
Proof.
  split; [|reflexivity].
  exact (proj1 (string_compare_lexicographic 4 string_sample_cap sample [97; 98] (CharArray [98; 99; 100; 0]) [98; 99; 100]
    sample_str sample_op)).
Defined.

Lemma string_find_correct_witness :
  (exists r, find_first_of sample (CharArray [98; 99; 100; 0]) 0 = Done r /\
     first_from 0 (in_set [97; 98] [98; 99; 100]) r) /\
  find_first_of sample (CharArray [98; 99; 100; 0]) 0 = Done (Some 1).
Proof.
  split; [|reflexivity].
  refine (proj1 (proj2 (string_find_correct 4 string_sample_cap sample [97; 98] (CharArray [98; 99; 100; 0]) [98; 99; 100] 0
    sample_str _ _ _))).
  - unfold no_zero. set_solver by lia.
  - split; [done|]. split; [|done]. unfold no_zero. set_solver by lia.
  - lia.
Defined.

End CxxStringSpec.
