(* ===== verification/UserApi.v ===== *)
(** * The user API of publish-subscribe

    [cxx::unique_ptr], [SmartChunk], [Sample], the typed and untyped publishers
    and subscribers ([smart_chunk.inl], [sample.inl], [publisher_impl.inl],
    [untyped_publisher_impl.inl], [subscriber_impl.inl],
    [untyped_subscriber_impl.inl], [base_publisher.inl]) on top of the user sides
    of the ports.  A sample owns a chunk by a pointer to its payload; everything
    that goes back to the port finds the chunk header from that pointer. *)

From S2P Require Import Prelude ChunkHeader MemoryManager SharedChunk UsedChunkList ChunkQueue ChunkDistributor ChunkSender.
From S2P Require Import CaPro PubSubPorts.

(** ** [cxx::unique_ptr]

    [call] runs a deleter; [m_deleter] is [None] for an empty [cxx::function],
    which is what a move leaves behind. *)

Module UniquePtr.
Record t (Deleter : Type) := mk { m_ptr : option handle; m_deleter : option Deleter }.
Arguments mk {_} _ _.
Arguments m_ptr {_} _.
Arguments m_deleter {_} _.

Section unique_ptr.
Context {Deleter State : Type} (call : Deleter -> handle -> State -> outcome State).

Definition get (u : t Deleter) : option handle := m_ptr u.
Definition operator_bool (u : t Deleter) : bool := bool_decide (m_ptr u <> None).
Definition release (u : t Deleter) : option handle * t Deleter := (m_ptr u, mk None (m_deleter u)).

Definition reset (ptr : option handle) (u : t Deleter) (st : State) : outcome (t Deleter * State) :=
  let* st := match m_ptr u, m_deleter u with Some p, Some d => call d p st | _, _ => Done st end in
  Done (mk ptr (m_deleter u), st).

Definition dtor (u : t Deleter) (st : State) : outcome State := let* '(_, st) := reset None u st in Done st.

(** [operator=(unique_ptr&&)] for two different objects: the object, the
    moved-from one. *)
Definition assign_move (u rhs : t Deleter) (st : State) : outcome (t Deleter * t Deleter * State) :=
  let '(p, rhs) := release rhs in
  let* '(u, st) := reset p u st in
  Done (mk (m_ptr u) (m_deleter rhs), mk (m_ptr rhs) None, st).

(** The move constructor assigns to an object without pointer and deleter. *)
Definition move (rhs : t Deleter) (st : State) : outcome (t Deleter * t Deleter * State) :=
  assign_move (mk None None) rhs st.

Definition swap (u other : t Deleter) (st : State) : outcome (t Deleter * t Deleter * State) :=
  let '(thisPtr, u) := release u in
  let '(otherPtr, other) := release other in
  let* '(u, st) := reset otherPtr u st in
  let* '(other, st) := reset thisPtr other st in
  Done (mk (m_ptr u) (m_deleter other), mk (m_ptr other) (m_deleter u), st).
End unique_ptr.
End UniquePtr.

(** ** The ports and the payloads of an application

    A publisher or subscriber object is the index of its port.  [objects] holds
    the values constructed in payloads, by their address. *)

Module Application.
Record t (V : Type) := mk {
  publishers : list PublisherPortData.t;
  subscribers : list SubscriberPortData.t;
  objects : gmap handle V;
  world : World }.
Arguments mk {_} _ _ _ _.
Arguments publishers {_} _.
Arguments subscribers {_} _.
Arguments objects {_} _.
Arguments world {_} _.

Section application.
Context {V : Type}.

Definition set_publisher (i : nat) (p : PublisherPortData.t) (st : t V) : t V :=
  mk (<[i := p]> (publishers st)) (subscribers st) (objects st) (world st).
Definition set_subscriber (i : nat) (s : SubscriberPortData.t) (st : t V) : t V :=
  mk (publishers st) (<[i := s]> (subscribers st)) (objects st) (world st).
Definition set_world (w : World) (st : t V) : t V := mk (publishers st) (subscribers st) (objects st) w.
Definition store (p : handle) (v : V) (st : t V) : t V :=
  mk (publishers st) (subscribers st) (<[p := v]> (objects st)) (world st).

(** [port()] *)
Definition publisher (i : nat) (st : t V) : outcome PublisherPortData.t :=
  match publishers st !! i with Some p => Done p | None => Terminated UNDEFINED_BEHAVIOUR end.
Definition subscriber (i : nat) (st : t V) : outcome SubscriberPortData.t :=
  match subscribers st !! i with Some s => Done s | None => Terminated UNDEFINED_BEHAVIOUR end.
End application.
End Application.
Import Application.

(** [ChunkHeader::fromUserPayload] and [userPayload()] of a pointer into a segment. *)
Definition fromUserPayload (userPayload : option handle) (w : World) : outcome (option handle) :=
  match userPayload with
  | None => Done None
  | Some p =>
      match segs (heap w) !! fst p with
      | Some m => Done (pair (fst p) <$> ChunkHeader.fromUserPayload (MemoryManager.words m) (Some (snd p)))
      | None => Terminated UNDEFINED_BEHAVIOUR
      end
  end.

Definition userPayload (chunkHeader : handle) (w : World) : outcome handle :=
  let* hd := read_header chunkHeader (heap w) in
  Done (fst chunkHeader, ChunkHeader.userPayload (snd chunkHeader) hd).

(** ** Samples *)

(** The lambdas that [PublisherImpl] and [SubscriberImpl] pass as deleters, with
    the object they capture. *)
Inductive Deleter := ReleaseLoaned (publisher : nat) | ReleaseTaken (subscriber : nat).

#[global] Instance Deleter_eq_dec : EqDecision Deleter.
Proof. solve_decision. Defined.

Definition call_deleter {V} (d : Deleter) (userPayload : handle) (st : Application.t V) : outcome (Application.t V) :=
  let* chunkHeader := fromUserPayload (Some userPayload) (world st) in
  match d with
  | ReleaseLoaned i =>
      let* p := publisher i st in
      let* '(p, w) := PublisherPortUser.releaseChunk chunkHeader p (world st) in
      Done (set_publisher i p (set_world w st))
  | ReleaseTaken i =>
      let* s := subscriber i st in
      let* '(s, w) := SubscriberPortUser.releaseChunk chunkHeader s (world st) in
      Done (set_subscriber i s (set_world w st))
  end.

(** [SmartChunkPrivateData]; a sample of a subscriber has no producer. *)
Module SmartChunk.
Record t := mk { smartChunkUniquePtr : UniquePtr.t Deleter; producerRef : option nat }.

Definition get (s : t) : option handle := UniquePtr.get (smartChunkUniquePtr s).
Definition operator_bool (s : t) : bool := bool_decide (get s <> None).

Definition release (s : t) : option handle * t :=
  let '(p, u) := UniquePtr.release (smartChunkUniquePtr s) in (p, mk u (producerRef s)).

Definition getChunkHeader {V} (s : t) (st : Application.t V) : outcome (option handle) :=
  fromUserPayload (get s) (world st).

(** [getUserHeader]: a reference, so that no pointer may be null. *)
Definition getUserHeader {V} (s : t) (st : Application.t V) : outcome handle :=
  let* chunkHeader := getChunkHeader s st in
  match chunkHeader with
  | None => Terminated UNDEFINED_BEHAVIOUR
  | Some p =>
      let* hd := read_header p (heap (world st)) in
      match ChunkHeader.userHeader (snd p) hd with
      | Some u => Done (fst p, u)
      | None => Terminated UNDEFINED_BEHAVIOUR
      end
  end.

(** The defaulted operations work on the members one after the other. *)
Definition assign_move {V} (s rhs : t) (st : Application.t V) : outcome (t * t * Application.t V) :=
  let* '(u, v, st) :=
    UniquePtr.assign_move call_deleter (smartChunkUniquePtr s) (smartChunkUniquePtr rhs) st in
  Done (mk u (producerRef rhs), mk v (producerRef rhs), st).

Definition dtor {V} (s : t) (st : Application.t V) : outcome (t * Application.t V) :=
  let* '(u, st) := UniquePtr.reset call_deleter None (smartChunkUniquePtr s) st in
  Done (mk u (producerRef s), st).
End SmartChunk.

(** The types [T] and [H] of a publisher: [H] is [NoUserHeader] if there is none. *)
Module PayloadType.
Record t := mk { sizeof_T : Z; alignof_T : Z; is_NoUserHeader : bool; sizeof_H : Z; alignof_H : Z }.

(** The sizes and alignments of C++ types. *)
Record ok (ty : t) : Prop := {
  ok_sizeof_T : 0 <= sizeof_T ty < 2 ^ 32; ok_alignof_T : 0 <= alignof_T ty < 2 ^ 32;
  ok_sizeof_H : 0 <= sizeof_H ty < 2 ^ 32; ok_alignof_H : 0 <= alignof_H ty < 2 ^ 32 }.
End PayloadType.

(** ** Publishers *)

Module PublisherImpl.
Section publisher.
Context {V : Type}.
Implicit Types (st : Application.t V) (ty : PayloadType.t).

Definition convertChunkHeaderToSample (i : nat) (header : handle) st : outcome SmartChunk.t :=
  let* p := userPayload header (world st) in
  Done (SmartChunk.mk (UniquePtr.mk (Some p) (Some (ReleaseLoaned i))) (Some i)).

Definition loanSample (i : nat) ty st : outcome (expected SmartChunk.t AllocationError * Application.t V) :=
  let USER_HEADER_SIZE := if PayloadType.is_NoUserHeader ty then 0 else PayloadType.sizeof_H ty in
  let* p := publisher i st in
  let* '(result, p, w) :=
    PublisherPortUser.tryAllocateChunk (PayloadType.sizeof_T ty) (PayloadType.alignof_T ty) USER_HEADER_SIZE
      (PayloadType.alignof_H ty) p (world st) in
  let st := set_publisher i p (set_world w st) in
  match result with
  | error e => Done (error e, st)
  | success header => let* sample := convertChunkHeaderToSample i header st in Done (success sample, st)
  end.

(** [new (sample.get()) T(args...)] *)
Definition construct (sample : SmartChunk.t) (v : V) st : outcome (Application.t V) :=
  match SmartChunk.get sample with
  | Some p => Done (store p v st)
  | None => Terminated UNDEFINED_BEHAVIOUR
  end.

(** [v] is the value that the constructor makes of the arguments. *)
Definition loan (i : nat) ty (v : V) st : outcome (expected SmartChunk.t AllocationError * Application.t V) :=
  let* '(result, st) := loanSample i ty st in
  match result with
  | error e => Done (error e, st)
  | success sample => let* st := construct sample v st in Done (success sample, st)
  end.

(** [publish(Sample&&)]: [rounds] is what other threads do while a blocking
    publisher waits. *)
Definition publish (rounds : list ChunkDistributor.interference) (i : nat) (sample : SmartChunk.t) st
    : outcome (SmartChunk.t * Application.t V) :=
  let '(p, sample) := SmartChunk.release sample in
  let* chunkHeader := fromUserPayload p (world st) in
  let* port := publisher i st in
  let* '(port, w) := PublisherPortUser.sendChunk rounds chunkHeader port (world st) in
  Done (sample, set_publisher i port (set_world w st)).

(** [Sample::publish] *)
Definition sample_publish (rounds : list ChunkDistributor.interference) (sample : SmartChunk.t) st
    : outcome (SmartChunk.t * Application.t V) :=
  if UniquePtr.operator_bool (SmartChunk.smartChunkUniquePtr sample) then
    match SmartChunk.producerRef sample with
    | Some i => publish rounds i sample st
    | None => Terminated UNDEFINED_BEHAVIOUR
    end
  else Done (sample, set_world (report_world POSH__PUBLISHING_EMPTY_SAMPLE MODERATE (world st)) st).

(** [c] maps what is in the payload to what the callable leaves there.  The sample
    inside the [expected] is destroyed at the end. *)
Definition publishResultOf (rounds : list ChunkDistributor.interference) (i : nat) ty (c : option V -> V) st
    : outcome (expected unit AllocationError * Application.t V) :=
  let* '(result, st) := loanSample i ty st in
  match result with
  | error e => Done (error e, st)
  | success sample =>
      let* st := construct sample (c (SmartChunk.get sample ≫= fun p => objects st !! p)) st in
      let* '(sample, st) := sample_publish rounds sample st in
      let* '(_, st) := SmartChunk.dtor sample st in
      Done (success (), st)
  end.

Definition publishCopyOf (rounds : list ChunkDistributor.interference) (i : nat) ty (val : V) st
    : outcome (expected unit AllocationError * Application.t V) :=
  let* '(result, st) := loanSample i ty st in
  match result with
  | error e => Done (error e, st)
  | success sample =>
      let* st := construct sample val st in
      let* '(sample, st) := sample_publish rounds sample st in
      let* '(_, st) := SmartChunk.dtor sample st in
      Done (success (), st)
  end.

Definition offer (i : nat) st : outcome (Application.t V) :=
  let* p := publisher i st in Done (set_publisher i (PublisherPortUser.offer p) st).
Definition stopOffer (i : nat) st : outcome (Application.t V) :=
  let* p := publisher i st in Done (set_publisher i (PublisherPortUser.stopOffer p) st).
Definition isOffered (i : nat) st : outcome bool :=
  let* p := publisher i st in Done (PublisherPortUser.isOffered p).
Definition hasSubscribers (i : nat) st : outcome bool :=
  let* p := publisher i st in Done (PublisherPortUser.hasSubscribers p).

(** [~BasePublisher]: the port is left to RouDi. *)
Definition dtor (i : nat) st : outcome (Application.t V) :=
  let* p := publisher i st in
  Done (set_publisher i (PublisherPortData.set_base (BasePortData.destroy (PublisherPortData.base p)) p) st).
End publisher.
End PublisherImpl.

Module UntypedPublisherImpl.
Section publisher.
Context {V : Type}.
Implicit Types (st : Application.t V).

Definition loan (i : nat) (userPayloadSize userPayloadAlignment userHeaderSize userHeaderAlignment : Z) st
    : outcome (expected handle AllocationError * Application.t V) :=
  let* p := publisher i st in
  let* '(result, p, w) :=
    PublisherPortUser.tryAllocateChunk userPayloadSize userPayloadAlignment userHeaderSize userHeaderAlignment p
      (world st) in
  let st := set_publisher i p (set_world w st) in
  match result with
  | error e => Done (error e, st)
  | success header => let* p := userPayload header (world st) in Done (success p, st)
  end.

Definition publish (rounds : list ChunkDistributor.interference) (i : nat) (userPayload : option handle) st
    : outcome (Application.t V) :=
  let* chunkHeader := fromUserPayload userPayload (world st) in
  let* p := publisher i st in
  let* '(p, w) := PublisherPortUser.sendChunk rounds chunkHeader p (world st) in
  Done (set_publisher i p (set_world w st)).

Definition release (i : nat) (userPayload : option handle) st : outcome (Application.t V) :=
  let* chunkHeader := fromUserPayload userPayload (world st) in
  let* p := publisher i st in
  let* '(p, w) := PublisherPortUser.releaseChunk chunkHeader p (world st) in
  Done (set_publisher i p (set_world w st)).
End publisher.
End UntypedPublisherImpl.

(** ** Subscribers *)

(** [BaseSubscriber::takeChunk]: the header of the chunk. *)
Definition takeChunk {V} (i : nat) (st : Application.t V)
    : outcome (expected (option handle) ChunkReceiveResult * Application.t V) :=
  let* s := subscriber i st in
  let* '(result, s, w) := SubscriberPortUser.tryGetChunk s (world st) in
  Done (result, set_subscriber i s (set_world w st)).

Module SubscriberImpl.
Definition take {V} (i : nat) (st : Application.t V) : outcome (expected SmartChunk.t ChunkReceiveResult * Application.t V) :=
  let* '(result, st) := takeChunk i st in
  match result with
  | error e => Done (error e, st)
  | success None => Terminated UNDEFINED_BEHAVIOUR
  | success (Some header) =>
      let* userPayloadPtr := userPayload header (world st) in
      let samplePtr := UniquePtr.mk (Some userPayloadPtr) (Some (ReleaseTaken i)) in
      Done (success (SmartChunk.mk samplePtr None), st)
  end.
End SubscriberImpl.

Module UntypedSubscriberImpl.
Definition take {V} (i : nat) (st : Application.t V) : outcome (expected handle ChunkReceiveResult * Application.t V) :=
  let* '(result, st) := takeChunk i st in
  match result with
  | error e => Done (error e, st)
  | success None => Terminated UNDEFINED_BEHAVIOUR
  | success (Some header) => let* p := userPayload header (world st) in Done (success p, st)
  end.

Definition release {V} (i : nat) (userPayload : option handle) (st : Application.t V) : outcome (Application.t V) :=
  let* chunkHeader := fromUserPayload userPayload (world st) in
  let* s := subscriber i st in
  let* '(s, w) := SubscriberPortUser.releaseChunk chunkHeader s (world st) in
  Done (set_subscriber i s (set_world w st)).
End UntypedSubscriberImpl.
