(* ===== verification/Samples.v ===== *)
(** * What samples guarantee

    Programs over the sample variables of an application: they loan, write, move,
    publish, take, read and destroy samples.  Two things are shown of all of them.
    A chunk belongs to exactly one non-empty sample from [loan] or [take] on until
    it is published or the sample is destroyed, so that nothing leaks and nothing
    is given back twice.  And passing chunks by reference is passing values: what
    a program reads are the published values, in the order of the queues. *)

From S2P Require Import Prelude ChunkHeader MemPool MemoryManager SharedChunk UsedChunkList Queue VariantQueue ChunkQueue.
From S2P Require Import ChunkDistributor ChunkSender CaPro PubSubPorts UserApi.
Import Application.

(** ** Payload pointers *)

Section payload.

Lemma getUserPayload_view h x a hd : chunk_view h x = Some (a, hd) ->
  SharedChunk.getUserPayload (Some x) h = Some (fst x, ChunkHeader.userPayload a hd).
Proof.
  destruct x as [s b]. unfold chunk_view, SharedChunk.getUserPayload. simpl.
  destruct (segs h !! s) as [m|]; [|done]. simpl.
  destruct (MemoryManager.header_address m b) as [x|]; [|done]. simpl.
  destruct (MemoryManager.header_of m b); [|done]. by intros [= <- <-].
Qed.

Lemma getUserPayload_same h h' x : chunk_view h' x = chunk_view h x ->
  SharedChunk.getUserPayload (Some x) h' = SharedChunk.getUserPayload (Some x) h.
Proof.
  intros E. destruct (chunk_view h x) as [[a hd]|] eqn:Ev.
  - by rewrite (getUserPayload_view _ _ _ _ Ev), (getUserPayload_view _ _ _ _ E).
  - destruct x as [s b]. unfold chunk_view, SharedChunk.getUserPayload in *. simpl in *.
    assert (F : forall k : option MemoryManager.t, (m ← k; a ← MemoryManager.header_address m b;
              hd ← MemoryManager.header_of m b; Some (a, hd)) = None ->
              (m ← k; a ← MemoryManager.header_address m b; hd ← MemoryManager.header_of m b;
               Some (s, ChunkHeader.userPayload a hd)) = None).
    { intros [m|]; [|done]. simpl. destruct (MemoryManager.header_address m b); [|done]. simpl.
      by destruct (MemoryManager.header_of m b). }
    by rewrite (F _ E), (F _ Ev).
Qed.

(** The payload of an owned chunk leads back to its header. *)
Lemma fromUserPayload_owned w o x a hd : Balanced (heap w) o -> x ∈ o -> chunk_view (heap w) x = Some (a, hd) ->
  fromUserPayload (SharedChunk.getUserPayload (Some x) (heap w)) w = Done (Some (fst x, a)).
Proof.
  intros Hb Hx Hv. rewrite (getUserPayload_view _ _ _ _ Hv). destruct (bal_owned _ _ Hb x Hx) as [m Hm].
  unfold fromUserPayload. cbn [fst snd]. rewrite Hm.
  by rewrite (ChunkHeader.pl_back _ _ _ (owned_placed _ _ _ _ _ _ Hb Hx Hv Hm)).
Qed.

(** Different chunks have different payloads. *)
Lemma payload_inj w o x y : Balanced (heap w) o -> x ∈ o -> y ∈ o ->
  SharedChunk.getUserPayload (Some x) (heap w) = SharedChunk.getUserPayload (Some y) (heap w) -> x = y.
Proof.
  intros Hb Hx Hy E. destruct (chunk_view_owned _ _ _ Hb Hx) as [[a hd] Hv], (chunk_view_owned _ _ _ Hb Hy) as [[a' hd'] Hv'].
  pose proof (fromUserPayload_owned _ _ _ _ _ Hb Hx Hv) as F. rewrite E, (fromUserPayload_owned _ _ _ _ _ Hb Hy Hv') in F.
  apply (header_inj _ _ _ _ Hb Hx Hy). rewrite (getChunkHeader_view _ _ _ _ Hv), (getChunkHeader_view _ _ _ _ Hv'). congruence.
Qed.

Lemma userPayload_ok w x a hd : chunk_view (heap w) x = Some (a, hd) ->
  userPayload (fst x, a) w = Done (fst x, ChunkHeader.userPayload a hd).
Proof. intros Hv. unfold userPayload. by rewrite (read_header_ok _ _ _ _ Hv). Qed.
End payload.

(** ** Programs *)

Section program.
Context {V : Type}.

(** [Loan] and [Take] add a variable if they succeed.  Variables are tested before
    they are used, as in [if (sample)]. *)
Inductive op :=
  | Loan (i : nat) (ty : PayloadType.t) (v : V)
  | Write (j : nat) (f : V -> V)
  | Publish (j : nat)
  | PublishCopyOf (i : nat) (ty : PayloadType.t) (v : V)
  | PublishResultOf (i : nat) (ty : PayloadType.t) (c : option V -> V)
  | Take (i : nat)
  | Read (j : nat)
  | Move (j k : nat)
  | Destroy (j : nat)
  | Offer (i : nat)
  | StopOffer (i : nat).

(** What the program observes. *)
Inductive event := Quiet | NoLoan (e : AllocationError) | NoData (e : ChunkReceiveResult) | Value (v : option V).

Definition config : Type := list SmartChunk.t * Application.t V.

Definition payload_of (s : SmartChunk.t) (st : Application.t V) : option V := SmartChunk.get s ≫= fun p => objects st !! p.

(** Only samples of publishers can be written and published: the others are
    samples of a constant type. *)
Definition step (o : op) (c : config) : outcome (event * config) :=
  let '(vars, st) := c in
  match o with
  | Loan i ty v =>
      let* '(r, st) := PublisherImpl.loan i ty v st in
      match r with
      | success s => Done (Quiet, (vars ++ [s], st))
      | error e => Done (NoLoan e, (vars, st))
      end
  | Write j f =>
      match vars !! j with
      | Some (SmartChunk.mk u (Some i)) =>
          match UniquePtr.get u, payload_of (SmartChunk.mk u (Some i)) st with
          | Some p, Some v => Done (Quiet, (vars, store p (f v) st))
          | _, _ => Done (Quiet, c)
          end
      | _ => Done (Quiet, c)
      end
  | Publish j =>
      match vars !! j with
      | Some (SmartChunk.mk u (Some i)) =>
          let* '(s, st) := PublisherImpl.sample_publish [] (SmartChunk.mk u (Some i)) st in
          Done (Quiet, (<[j := s]> vars, st))
      | _ => Done (Quiet, c)
      end
  | PublishCopyOf i ty v =>
      let* '(r, st) := PublisherImpl.publishCopyOf [] i ty v st in
      Done (match r with success _ => Quiet | error e => NoLoan e end, (vars, st))
  | PublishResultOf i ty f =>
      let* '(r, st) := PublisherImpl.publishResultOf [] i ty f st in
      Done (match r with success _ => Quiet | error e => NoLoan e end, (vars, st))
  | Take i =>
      let* '(r, st) := SubscriberImpl.take i st in
      match r with
      | success s => Done (Value (payload_of s st), (vars ++ [s], st))
      | error e => Done (NoData e, (vars, st))
      end
  | Read j => Done (Value (vars !! j ≫= fun s => payload_of s st), c)
  | Move j k =>
      match vars !! j, vars !! k with
      | Some s, Some r =>
          if bool_decide (j = k) then Done (Quiet, c)
          else let* '(s, r, st) := SmartChunk.assign_move s r st in Done (Quiet, (<[j := s]> (<[k := r]> vars), st))
      | _, _ => Done (Quiet, c)
      end
  | Destroy j =>
      match vars !! j with
      | Some s => let* '(s, st) := SmartChunk.dtor s st in Done (Quiet, (<[j := s]> vars, st))
      | None => Done (Quiet, c)
      end
  | Offer i => let* st := PublisherImpl.offer i st in Done (Quiet, (vars, st))
  | StopOffer i => let* st := PublisherImpl.stopOffer i st in Done (Quiet, (vars, st))
  end.

Fixpoint exec (ops : list op) (c : config) : outcome (list event * config) :=
  match ops with
  | [] => Done ([], c)
  | o :: ops => let* '(e, c) := step o c in let* '(es, c) := exec ops c in Done (e :: es, c)
  end.

(** The publishers and subscribers that the program names exist. *)
Definition op_ok (st : Application.t V) (o : op) : Prop :=
  match o with
  | Loan i ty _ | PublishCopyOf i ty _ | PublishResultOf i ty _ => (i < length (publishers st))%nat /\ PayloadType.ok ty
  | Take i => (i < length (subscribers st))%nat
  | Offer i | StopOffer i => (i < length (publishers st))%nat
  | _ => True
  end.

(** ** The specification: values are passed

    A variable holds nothing, or a value together with the object it came from;
    the queues hold values. *)

Record vstate := mkV { v_queues : list (list V); v_vars : list (option (Deleter * V)); v_offered : list bool }.

(** What connects the objects: the queues of each publisher, the queue of each
    subscriber, and for each queue whether it evicts and its capacity. *)
Record wiring := mkWiring { connected : list (list nat); source : list nat; limits : list (bool * Z) }.

Definition v_deliver (c : wiring) (qs : list nat) (v : V) (l : list (list V)) : list (list V) :=
  imap (fun q vs => if bool_decide (q ∈ qs)
                    then match limits c !! q with Some (e, cap) => snd (spec_push e cap vs v) | None => vs end
                    else vs) l.

Definition v_publish (c : wiring) (i : nat) (v : V) (s : vstate) : vstate :=
  if default false (v_offered s !! i)
  then mkV (v_deliver c (default [] (connected c !! i)) v (v_queues s)) (v_vars s) (v_offered s) else s.

Definition set_var (j : nat) (x : option (Deleter * V)) (s : vstate) : vstate :=
  mkV (v_queues s) (<[j := x]> (v_vars s)) (v_offered s).
Definition add_var (x : option (Deleter * V)) (s : vstate) : vstate :=
  mkV (v_queues s) (v_vars s ++ [x]) (v_offered s).
Definition set_offered (i : nat) (b : bool) (s : vstate) : vstate :=
  mkV (v_queues s) (v_vars s) (<[i := b]> (v_offered s)).

Definition spec_step (c : wiring) (s : vstate) (o : op) (e : event) (s' : vstate) : Prop :=
  match o with
  | Loan i _ v => (e = Quiet /\ s' = add_var (Some (ReleaseLoaned i, v)) s) \/ ((exists x, e = NoLoan x) /\ s' = s)
  | Write j f =>
      e = Quiet /\ s' = match v_vars s !! j with
                        | Some (Some (ReleaseLoaned i, v)) => set_var j (Some (ReleaseLoaned i, f v)) s
                        | _ => s
                        end
  | Publish j =>
      e = Quiet /\ s' = match v_vars s !! j with
                        | Some (Some (ReleaseLoaned i, v)) => v_publish c i v (set_var j None s)
                        | _ => s
                        end
  | PublishCopyOf i _ v => (e = Quiet /\ s' = v_publish c i v s) \/ ((exists x, e = NoLoan x) /\ s' = s)
  | PublishResultOf i _ f =>
      (e = Quiet /\ exists old, s' = v_publish c i (f old) s) \/ ((exists x, e = NoLoan x) /\ s' = s)
  | Take i =>
      match source c !! i with
      | None => False
      | Some q =>
          match v_queues s !! q with
          | Some (v :: vs) =>
              let rest := mkV (<[q := vs]> (v_queues s)) (v_vars s) (v_offered s) in
              (e = Value (Some v) /\ s' = add_var (Some (ReleaseTaken i, v)) rest) \/
              (e = NoData TOO_MANY_CHUNKS_HELD_IN_PARALLEL /\ s' = rest)
          | _ => e = NoData NO_CHUNK_AVAILABLE /\ s' = s
          end
      end
  | Read j => e = Value (v_vars s !! j ≫= fmap snd) /\ s' = s
  | Move j k =>
      e = Quiet /\ s' = match v_vars s !! j, v_vars s !! k with
                        | Some _, Some x => if bool_decide (j = k) then s else set_var j x (set_var k None s)
                        | _, _ => s
                        end
  | Destroy j => e = Quiet /\ s' = set_var j None s
  | Offer i => e = Quiet /\ s' = set_offered i true s
  | StopOffer i => e = Quiet /\ s' = set_offered i false s
  end.

Fixpoint spec_exec (c : wiring) (s : vstate) (ops : list op) (es : list event) (s' : vstate) : Prop :=
  match ops, es with
  | [], [] => s' = s
  | o :: ops, e :: es => exists s1, spec_step c s o e s1 /\ spec_exec c s1 ops es s'
  | _, _ => False
  end.
End program.
Arguments op : clear implicits.
Arguments event : clear implicits.
Arguments vstate : clear implicits.

(** ** The invariant *)

#[local] Arguments SharedChunk.getUserPayload : simpl never.
#[local] Arguments SharedChunk.getChunkHeader : simpl never.

Section invariant.
Context {V : Type}.
Implicit Types (st : Application.t V) (c : wiring) (w : World).

Definition sender (p : PublisherPortData.t) : ChunkSender.t := PublisherPortData.m_chunkSenderData p.
Definition receiver (s : SubscriberPortData.t) : ChunkReceiver.t := SubscriberPortData.m_chunkReceiverData s.

(** What each port owns. *)
Definition shares st (hists : list (list handle)) : list (list handle) :=
  zip_with (fun p h => sender_owned (sender p) h) (publishers st) hists ++
  ((fun s => received (receiver s)) <$> subscribers st).

(** The chunks that the user of a port holds, from the view of the port. *)
Definition holder st (d : Deleter) : list handle :=
  match d with
  | ReleaseLoaned i => from_option (fun p => user_chunks (sender p)) [] (publishers st !! i)
  | ReleaseTaken i => from_option (fun s => received (receiver s)) [] (subscribers st !! i)
  end.

(** What a variable owns: nothing, or a chunk of a port. *)
Notation ghost := (option (Deleter * handle)).

(** The chunks that the variables hold. *)
Definition held (d : Deleter) (g : list ghost) : list handle :=
  omap (fun e : ghost => match e with Some (d', x) => if decide (d' = d) then Some x else None | None => None end) g.

Definition refers w (s : SmartChunk.t) (e : ghost) : Prop :=
  match e with
  | None => SmartChunk.get s = None
  | Some (d, x) =>
      SmartChunk.get s = SharedChunk.getUserPayload (Some x) (heap w) /\
      UniquePtr.m_deleter (SmartChunk.smartChunkUniquePtr s) = Some d /\
      SmartChunk.producerRef s = match d with ReleaseLoaned i => Some i | ReleaseTaken _ => None end
  end.

Definition limit (d : ChunkQueueData.t) : bool * Z := (evicts (ChunkQueueData.kind d), ChunkQueueData.capacity d).

(** The ports are wired as [c] says, and no publisher waits for its subscribers. *)
Record wired c st : Prop := {
  wd_connected : connected c = (fun p => ChunkDistributor.m_queues (ChunkSender.dist (sender p))) <$> publishers st;
  wd_source : source c = (fun s => ChunkReceiver.queue (receiver s)) <$> subscribers st;
  wd_limits : limits c = limit <$> queues (world st);
  wd_waits : Forall (fun p => ChunkDistributor.waits (ChunkSender.dist (sender p)) = false) (publishers st) }.

(** A loaned chunk is in one variable only, and not yet in a queue. *)
Definition Excl (g : list ghost) (contents : list (list handle)) : Prop := forall i,
  NoDup (held (ReleaseLoaned i) g) /\
  forall y, y ∈ held (ReleaseLoaned i) g -> y ∉ owned contents /\ forall d, d <> ReleaseLoaned i -> y ∉ held d g.

Record Inv c st (vars : list SmartChunk.t) (g : list ghost) (hists contents : list (list handle)) (n : Z) : Prop := {
  inv_world : WorldInv (world st) contents n;
  inv_senders : Forall2 (fun p h => SenderInv (sender p) h (world st)) (publishers st) hists;
  inv_receivers : Forall (fun s => ReceiverInv (receiver s) (world st)) (subscribers st);
  inv_bal : Balanced (heap (world st)) (owned contents ++ owned (shares st hists));
  inv_holder : forall d, holder st d ≡ₚ held d g;
  inv_vars : Forall2 (refers (world st)) vars g;
  inv_wired : wired c st;
  inv_excl : Excl g contents }.

(** The value behind a chunk. *)
Definition value st (x : handle) : option V :=
  SharedChunk.getUserPayload (Some x) (heap (world st)) ≫= fun p => objects st !! p.

Definition has st (x : handle) (v : V) : Prop := value st x = Some v.
Definition var_has st (e : ghost) (u : option (Deleter * V)) : Prop :=
  match e, u with
  | None, None => True
  | Some (d, x), Some (d', v) => d' = d /\ has st x v
  | _, _ => False
  end.

Record Abs st (g : list ghost) (contents : list (list handle)) (s : vstate V) : Prop := {
  abs_queues : Forall2 (Forall2 (has st)) contents (v_queues s);
  abs_vars : Forall2 (var_has st) g (v_vars s);
  abs_offered : v_offered s = PublisherPortData.m_offeringRequested <$> publishers st }.

(** *** Variables *)

Lemma held_drop g j d x : g !! j = Some (Some (d, x)) ->
  held d g ≡ₚ x :: held d (<[j := None]> g) /\ forall d', d' <> d -> held d' (<[j := None]> g) = held d' g.
Proof.
  unfold held. revert j. induction g as [|e g IH]; intros [|j] H; simplify_eq/=.
  - rewrite decide_True by done. split; [done|]. intros d' Hd. by rewrite decide_False by congruence.
  - destruct (IH j H) as [P Q]. split.
    + destruct e as [[d0 y]|]; [|done]. destruct (decide (d0 = d)); [|done]. rewrite P. apply Permutation_swap.
    + intros d' Hd. by rewrite (Q d' Hd).
Qed.

Lemma held_put g j d x : g !! j = Some None ->
  held d (<[j := Some (d, x)]> g) ≡ₚ x :: held d g /\ forall d', d' <> d -> held d' (<[j := Some (d, x)]> g) = held d' g.
Proof.
  unfold held. revert j. induction g as [|e g IH]; intros [|j] H; simplify_eq/=.
  - rewrite decide_True by done. split; [done|]. intros d' Hd. by rewrite decide_False by congruence.
  - destruct (IH j H) as [P Q]. split.
    + destruct e as [[d0 y]|]; [|done]. destruct (decide (d0 = d)); [|done]. rewrite P. apply Permutation_swap.
    + intros d' Hd. by rewrite (Q d' Hd).
Qed.

Lemma held_snoc d g d' x : held d (g ++ [Some (d', x)]) = held d g ++ if decide (d' = d) then [x] else [].
Proof. unfold held. rewrite omap_app. simpl. by destruct (decide (d' = d)). Qed.

Lemma elem_of_held d x g : x ∈ held d g <-> exists j, g !! j = Some (Some (d, x)).
Proof.
  unfold held. rewrite list_elem_of_omap. split.
  - intros ([[d' y]|] & He & E); [|done]. case_decide; [|done]. simplify_eq. by apply list_elem_of_lookup.
  - intros (j & Hj). exists (Some (d, x)). split; [by eapply list_elem_of_lookup_2|]. by rewrite decide_True.
Qed.

Lemma excl_perm g g' contents contents' : (forall d, held d g' ≡ₚ held d g) -> owned contents' ⊆ owned contents ->
  Excl g contents -> Excl g' contents'.
Proof.
  intros P Hc H i. destruct (H i) as [Hn Hy]. split; [by rewrite P|]. intros y Hin. rewrite P in Hin.
  destruct (Hy y Hin) as [H1 H2]. split; [by intros ?%Hc|]. intros d Hd. rewrite P. by apply H2.
Qed.

Lemma excl_drop g j d x contents contents' : g !! j = Some (Some (d, x)) ->
  (forall u, u ∈ owned contents' -> u ∈ owned contents \/ u = x /\ exists i, d = ReleaseLoaned i) ->
  Excl g contents -> Excl (<[j := None]> g) contents'.
Proof.
  intros Hj Hc H i. destruct (held_drop g j d x Hj) as [P Q]. destruct (H i) as [Hn Hy].
  assert (Hsub : forall e y, y ∈ held e (<[j := None]> g) -> y ∈ held e g).
  { intros e y He. destruct (decide (e = d)) as [->|Hne]; [rewrite P; by right|by rewrite <- Q]. }
  assert (Hx : forall i', d = ReleaseLoaned i' -> x ∉ held (ReleaseLoaned i) (<[j := None]> g)).
  { intros i' -> Hin. destruct (decide (i' = i)) as [->|Hne].
    - rewrite P in Hn. by apply NoDup_cons in Hn as [? _].
    - destruct (H i') as [_ Hy']. destruct (Hy' x) as [_ Hx']; [rewrite P; by left|].
      apply (Hx' (ReleaseLoaned i)); [congruence|by apply Hsub]. }
  split.
  - destruct (decide (ReleaseLoaned i = d)) as [<-|Hne]; [|by rewrite Q]. rewrite P in Hn. by apply NoDup_cons in Hn as [_ ?].
  - intros y Hin. destruct (Hy y (Hsub _ _ Hin)) as [H1 H2]. split.
    + intros [?|(-> & i' & Hd)]%Hc; [done|]. by eapply Hx.
    + intros e He Hin'. by apply (H2 e He), Hsub.
Qed.

Lemma excl_loan g i x contents : x ∉ owned contents -> (forall d, x ∉ held d g) -> Excl g contents ->
  Excl (g ++ [Some (ReleaseLoaned i, x)]) contents.
Proof.
  intros Hc Hx H k. destruct (H k) as [Hn Hy]. rewrite held_snoc. case_decide as E.
  - split.
    + apply NoDup_app. split; [done|]. split; [|apply NoDup_singleton]. intros y Hin ->%list_elem_of_singleton. by apply (Hx (ReleaseLoaned k)).
    + intros y [Hin| ->%list_elem_of_singleton]%elem_of_app.
      * destruct (Hy y Hin) as [H1 H2]. split; [done|]. intros d Hd. rewrite held_snoc.
        rewrite decide_False by congruence. rewrite app_nil_r. by apply H2.
      * split; [done|]. intros d Hd. rewrite held_snoc. rewrite decide_False by congruence. rewrite app_nil_r. apply Hx.
  - rewrite app_nil_r. split; [done|]. intros y Hin. destruct (Hy y Hin) as [H1 H2]. split; [done|]. intros d Hd.
    rewrite held_snoc. case_decide; [|rewrite app_nil_r; by apply H2].
    intros [?| ->%list_elem_of_singleton]%elem_of_app; [by apply (H2 d)|by apply (Hx (ReleaseLoaned k))].
Qed.

Lemma excl_take g i x contents contents' : x ∈ owned contents -> owned contents' ⊆ owned contents -> Excl g contents ->
  Excl (g ++ [Some (ReleaseTaken i, x)]) contents'.
Proof.
  intros Hx Hc H k. destruct (H k) as [Hn Hy]. rewrite held_snoc. rewrite decide_False by done. rewrite app_nil_r.
  split; [done|]. intros y Hin. destruct (Hy y Hin) as [H1 H2]. split; [by intros ?%Hc|]. intros d Hd. rewrite held_snoc.
  case_decide; [|rewrite app_nil_r; by apply H2]. intros [?| ->%list_elem_of_singleton]%elem_of_app; [by apply (H2 d)|done].
Qed.

(** Two variables never refer to the same loaned chunk. *)
Lemma excl_vars g contents j k i d y z : Excl g contents -> g !! j = Some (Some (ReleaseLoaned i, y)) ->
  g !! k = Some (Some (d, z)) -> k <> j -> z <> y.
Proof.
  intros H Hj Hk Hne ->. destruct (H i) as [Hn Hy]. destruct (held_drop g j _ y Hj) as [P _].
  destruct (decide (d = ReleaseLoaned i)) as [->|Hd].
  - rewrite P in Hn. apply NoDup_cons in Hn as [Hn _]. apply Hn, elem_of_held. exists k. by rewrite list_lookup_insert_ne.
  - destruct (Hy y) as [_ H2]; [apply elem_of_held; eauto|]. apply (H2 d Hd), elem_of_held. eauto.
Qed.

(** *** What ports own *)

Lemma shares_publisher st hists i p h : (i < length (publishers st))%nat -> (i < length hists)%nat ->
  shares (set_publisher i p st) (<[i := h]> hists) = <[i := sender_owned (sender p) h]> (shares st hists).
Proof.
  intros H1 H2. unfold shares. simpl. rewrite insert_app_l by (rewrite length_zip_with; lia).
  f_equal. symmetry. apply (insert_zip_with (fun p h => sender_owned (sender p) h)).
Qed.

Lemma shares_subscriber st hists i s : length hists = length (publishers st) ->
  shares (set_subscriber i s st) hists = <[(length (publishers st) + i)%nat := received (receiver s)]> (shares st hists).
Proof.
  intros H. unfold shares. simpl. rewrite list_fmap_insert. rewrite insert_app_r_alt by (rewrite length_zip_with; lia).
  f_equal. f_equal. rewrite length_zip_with. lia.
Qed.

Lemma shares_lookup_publisher st hists i p h : publishers st !! i = Some p -> hists !! i = Some h ->
  shares st hists !! i = Some (sender_owned (sender p) h).
Proof.
  intros Hp Hh. unfold shares. apply lookup_app_l_Some. rewrite lookup_zip_with, Hp. simpl. by rewrite Hh.
Qed.

Lemma shares_lookup_subscriber st hists i s : length hists = length (publishers st) -> subscribers st !! i = Some s ->
  shares st hists !! (length (publishers st) + i)%nat = Some (received (receiver s)).
Proof.
  intros H Hs. unfold shares. rewrite lookup_app_r by (rewrite length_zip_with; lia).
  rewrite list_lookup_fmap, length_zip_with. replace (_ - _)%nat with i by lia. by rewrite Hs.
Qed.

(** *** One port acts, the others stay *)

Lemma senders_world w w' ps hists : Forall2 (fun p h => SenderInv (sender p) h w) ps hists ->
  length (queues w') = length (queues w) -> length (segs (heap w')) = length (segs (heap w)) ->
  Forall2 (fun p h => SenderInv (sender p) h w') ps hists.
Proof.
  intros H Hq Hs. eapply Forall2_impl; [exact H|]. intros p h HS.
  eapply senderinv_same; [exact HS|by split_and!|apply HS|done|done].
Qed.

Lemma receivers_world w w' (ss : list SubscriberPortData.t) : Forall (fun s => ReceiverInv (receiver s) w) ss ->
  length (queues w') = length (queues w) -> Forall (fun s => ReceiverInv (receiver s) w') ss.
Proof. intros H Hq. eapply Forall_impl; [exact H|]. intros s []. constructor; [done|by rewrite Hq]. Qed.

Lemma limits_same w w' : same_queues w w' -> limit <$> queues w' = limit <$> queues w.
Proof.
  unfold same_queues. generalize (queues w) (queues w'). induction 1 as [|d d' l l' H _ IH]; [done|].
  rewrite !fmap_cons, IH. f_equal. unfold limit. by destruct H as (_ & _ & -> & -> & _).
Qed.

(** Payload pointers that stay. *)
Definition same_payloads (o : list handle) (w w' : World) : Prop := forall y, y ∈ o ->
  SharedChunk.getUserPayload (Some y) (heap w') = SharedChunk.getUserPayload (Some y) (heap w).

Lemma refers_same w w' vars g : Forall2 (refers w) vars g ->
  (forall j d x, g !! j = Some (Some (d, x)) ->
     SharedChunk.getUserPayload (Some x) (heap w') = SharedChunk.getUserPayload (Some x) (heap w)) ->
  Forall2 (refers w') vars g.
Proof.
  induction 1 as [|s e vars g H _ IH]; intros Hp; constructor.
  - destruct e as [[d x]|]; [|done]. unfold refers in *. by rewrite (Hp 0%nat d x).
  - apply IH. intros j. apply (Hp (S j)).
Qed.

Lemma holder_owned st hists d x : length hists = length (publishers st) -> x ∈ holder st d -> x ∈ owned (shares st hists).
Proof.
  intros Hl Hx. unfold owned. apply list_elem_of_bind. destruct d as [i|i]; simpl in Hx.
  - destruct (publishers st !! i) as [p|] eqn:Hp; [|by apply elem_of_nil in Hx].
    destruct (lookup_lt_is_Some_2 hists i) as [h Hh]; [rewrite Hl; by eapply lookup_lt_Some|].
    exists (sender_owned (sender p) h). split; [unfold id, sender_owned; rewrite !elem_of_app; simpl in Hx; tauto|].
    by eapply list_elem_of_lookup_2, shares_lookup_publisher.
  - destruct (subscribers st !! i) as [s|] eqn:Hs; [|by apply elem_of_nil in Hx].
    exists (received (receiver s)). split; [done|]. by eapply list_elem_of_lookup_2, shares_lookup_subscriber.
Qed.

Section steps.
Context (c : wiring) (st : Application.t V) (vars : list SmartChunk.t) (g : list ghost).
Context (hists contents : list (list handle)) (n : Z) (HI : Inv c st vars g hists contents n).

Lemma hists_length : length hists = length (publishers st).
Proof. symmetry. eapply Forall2_length, HI. Qed.

(** A publisher acts. *)
Lemma publisher_step i p h p' h' w' contents' n' vars' g' rest :
  publishers st !! i = Some p -> hists !! i = Some h ->
  (forall l, owned (<[i := l]> (shares st hists)) ≡ₚ l ++ rest) ->
  SenderInv (sender p') h' w' -> WorldInv w' contents' n' ->
  Balanced (heap w') (owned contents' ++ sender_owned (sender p') h' ++ rest) ->
  same_queues (world st) w' -> length (segs (heap w')) = length (segs (heap (world st))) ->
  ChunkDistributor.same_config (ChunkSender.dist (sender p)) (ChunkSender.dist (sender p')) ->
  user_chunks (sender p') ≡ₚ held (ReleaseLoaned i) g' -> (forall d, d <> ReleaseLoaned i -> held d g' = held d g) ->
  ((forall d y, y ∈ held d g' -> y ∈ sender_owned (sender p') h' ++ rest) -> Forall2 (refers w') vars' g') ->
  Excl g' contents' ->
  let st' := set_publisher i p' (set_world w' st) in
  Inv c st' vars' g' (<[i := h']> hists) contents' n' /\
  owned (shares st' (<[i := h']> hists)) ≡ₚ sender_owned (sender p') h' ++ rest.
Proof.
  intros Hp Hh I HS HW Hb Hq Hseg (C1 & C2 & _) Hheld Hother Hvars Hex st'. pose proof (lookup_lt_Some _ _ _ Hp) as Hlt.
  assert (P : owned (shares st' (<[i := h']> hists)) ≡ₚ sender_owned (sender p') h' ++ rest).
  { unfold st'. rewrite (shares_publisher (set_world w' st)) by (simpl; rewrite ?hists_length; done).
    change (shares (set_world w' st) hists) with (shares st hists). by rewrite I. }
  assert (Hhold : forall d, holder st' d ≡ₚ held d g').
  { intros d. destruct (decide (d = ReleaseLoaned i)) as [->|Hd].
    + simpl. by rewrite list_lookup_insert_eq.
    + rewrite (Hother d Hd), <- (inv_holder _ _ _ _ _ _ _ HI). destruct d as [k|k]; [|done]. simpl.
      by rewrite list_lookup_insert_ne by congruence. }
  split; [|exact P].
  pose proof (Forall2_length _ _ _ Hq) as Lq. pose proof HI as []. constructor; simpl.
  - done.
  - apply Forall2_insert; [|done]. by apply senders_world with (world st).
  - by apply receivers_world with (world st).
  - by rewrite P.
  - done.
  - apply Hvars. intros d y Hy. rewrite <- P. eapply holder_owned; [|by rewrite Hhold].
    simpl. rewrite !length_insert. apply hists_length.
  - destruct inv_wired0. constructor; simpl; try done.
    + rewrite list_fmap_insert, C1, wd_connected0. rewrite list_insert_id; [done|]. by rewrite list_lookup_fmap, Hp.
    + by rewrite wd_limits0, (limits_same _ _ Hq).
    + apply Forall_insert; [done|]. unfold ChunkDistributor.waits. rewrite C2.
      by apply (Forall_lookup_1 _ _ _ _ wd_waits0 Hp).
  - done.
Qed.

(** A subscriber acts. *)
Lemma subscriber_step i s s' w' contents' n' vars' g' rest :
  subscribers st !! i = Some s ->
  (forall l, owned (<[(length (publishers st) + i)%nat := l]> (shares st hists)) ≡ₚ l ++ rest) ->
  ReceiverInv (receiver s') w' -> ChunkReceiver.queue (receiver s') = ChunkReceiver.queue (receiver s) ->
  WorldInv w' contents' n' -> Balanced (heap w') (owned contents' ++ received (receiver s') ++ rest) ->
  same_queues (world st) w' -> length (segs (heap w')) = length (segs (heap (world st))) ->
  received (receiver s') ≡ₚ held (ReleaseTaken i) g' -> (forall d, d <> ReleaseTaken i -> held d g' = held d g) ->
  ((forall d y, y ∈ held d g' -> y ∈ received (receiver s') ++ rest) -> Forall2 (refers w') vars' g') ->
  Excl g' contents' ->
  let st' := set_subscriber i s' (set_world w' st) in
  Inv c st' vars' g' hists contents' n' /\ owned (shares st' hists) ≡ₚ received (receiver s') ++ rest.
Proof.
  intros Hs I HR HQ HW Hb Hq Hseg Hheld Hother Hvars Hex st'. pose proof (lookup_lt_Some _ _ _ Hs) as Hlt.
  pose proof hists_length as Hl.
  assert (P : owned (shares st' hists) ≡ₚ received (receiver s') ++ rest).
  { unfold st'. rewrite (shares_subscriber (set_world w' st)) by done.
    change (shares (set_world w' st) hists) with (shares st hists). simpl. by rewrite I. }
  assert (Hhold : forall d, holder st' d ≡ₚ held d g').
  { intros d. destruct (decide (d = ReleaseTaken i)) as [->|Hd].
    + simpl. by rewrite list_lookup_insert_eq.
    + rewrite (Hother d Hd), <- (inv_holder _ _ _ _ _ _ _ HI). destruct d as [k|k]; [done|]. simpl.
      by rewrite list_lookup_insert_ne by congruence. }
  split; [|exact P].
  pose proof (Forall2_length _ _ _ Hq) as Lq. pose proof HI as []. constructor; simpl.
  - done.
  - by apply senders_world with (world st).
  - apply Forall_insert; [|done]. by apply receivers_world with (world st).
  - by rewrite P.
  - done.
  - apply Hvars. intros d y Hy. rewrite <- P. by eapply holder_owned; [|rewrite Hhold].
  - destruct inv_wired0. constructor; simpl; try done.
    + rewrite list_fmap_insert, HQ, wd_source0. rewrite list_insert_id; [done|]. by rewrite list_lookup_fmap, Hs.
    + by rewrite wd_limits0, (limits_same _ _ Hq).
  - done.
Qed.

(** Only variables change. *)
Lemma variables_step vars' g' : (forall d, held d g' ≡ₚ held d g) -> Forall2 (refers (world st)) vars' g' ->
  Inv c st vars' g' hists contents n.
Proof.
  intros H1 H2. destruct HI. constructor; try done; [intros d; by rewrite H1|]. by eapply excl_perm.
Qed.

(** Writing a payload changes no port. *)
Lemma inv_store p v : Inv c (store p v st) vars g hists contents n.
Proof. destruct HI as [? ? ? ? ? ? [] ?]. by constructor. Qed.

Lemma focus_publisher i p : publishers st !! i = Some p -> exists h rest, hists !! i = Some h /\
  SenderInv (sender p) h (world st) /\ owned (shares st hists) ≡ₚ sender_owned (sender p) h ++ rest /\
  (forall l, owned (<[i := l]> (shares st hists)) ≡ₚ l ++ rest).
Proof.
  intros Hp. destruct (Forall2_lookup_l _ _ _ _ _ (inv_senders _ _ _ _ _ _ _ HI) Hp) as (h & Hh & HS).
  destruct (owned_focus (shares st hists) i (sender_owned (sender p) h)) as (rest & P & I);
    [by apply shares_lookup_publisher|]. eauto 10.
Qed.

Lemma focus_subscriber i s : subscribers st !! i = Some s -> exists rest, ReceiverInv (receiver s) (world st) /\
  owned (shares st hists) ≡ₚ received (receiver s) ++ rest /\
  (forall l, owned (<[(length (publishers st) + i)%nat := l]> (shares st hists)) ≡ₚ l ++ rest).
Proof.
  intros Hs. pose proof (Forall_lookup_1 _ _ _ _ (inv_receivers _ _ _ _ _ _ _ HI) Hs) as HR.
  destruct (owned_focus (shares st hists) (length (publishers st) + i) (received (receiver s))) as (rest & P & I);
    [by apply shares_lookup_subscriber; [apply hists_length|]|]. eauto 10.
Qed.

(** The chunk of a variable is in use. *)
Lemma ghost_owned j d x : g !! j = Some (Some (d, x)) ->
  x ∈ holder st d /\ exists a hd, chunk_view (heap (world st)) x = Some (a, hd) /\
    fromUserPayload (SharedChunk.getUserPayload (Some x) (heap (world st))) (world st) = Done (Some (fst x, a)).
Proof.
  intros Hj. assert (Hx : x ∈ holder st d) by (rewrite (inv_holder _ _ _ _ _ _ _ HI); apply elem_of_held; eauto).
  split; [done|]. pose proof (inv_bal _ _ _ _ _ _ _ HI) as Hb.
  assert (Hin : x ∈ owned contents ++ owned (shares st hists)).
  { apply elem_of_app. right. eapply holder_owned; [apply hists_length|exact Hx]. }
  destruct (chunk_view_owned _ _ x Hb Hin) as [[a hd] Hv]. exists a, hd. split; [done|]. by eapply fromUserPayload_owned.
Qed.

(** What an operation leaves as it is. *)
Record keeps (st' : Application.t V) (o : list handle) : Prop := {
  kp_objects : objects st' = objects st;
  kp_payloads : same_payloads o (world st) (world st');
  kp_offered : PublisherPortData.m_offeringRequested <$> publishers st' = PublisherPortData.m_offeringRequested <$> publishers st;
  kp_length : length (publishers st') = length (publishers st) /\ length (subscribers st') = length (subscribers st) }.

Lemma same_view_payloads o w w' : same_view o (heap w) (heap w') -> same_payloads o w w'.
Proof. intros V' y Hy. apply getUserPayload_same, V', Hy. Qed.

(** The deleter of a variable gives its chunk back. *)
Lemma call_deleter_ok j d x p s' : g !! j = Some (Some (d, x)) ->
  SharedChunk.getUserPayload (Some x) (heap (world st)) = Some p -> SmartChunk.get s' = None ->
  exists st', call_deleter d p st = Done st' /\ Inv c st' (<[j := s']> vars) (<[j := None]> g) hists contents n /\
    keeps st' (owned contents ++ owned (shares st' hists)) /\
    (length (owned (shares st' hists)) <= length (owned (shares st hists)))%nat.
Proof.
  intros Hj Hp Hs'. destruct (ghost_owned j d x Hj) as (Hx & a & hd & Hv & Hf). destruct (held_drop g j d x Hj) as [Hd Ho].
  pose proof (inv_holder _ _ _ _ _ _ _ HI d) as Hhold. rewrite Hp in Hf. unfold call_deleter. rewrite Hf. cbn [obind].
  pose proof (getChunkHeader_view _ _ _ _ Hv) as Hg. pose proof (inv_bal _ _ _ _ _ _ _ HI) as Hb.
  assert (Hrefers : forall w' o, same_payloads o (world st) w' -> (forall e y, y ∈ held e (<[j := None]> g) -> y ∈ o) ->
    Forall2 (refers w') (<[j := s']> vars) (<[j := None]> g)).
  { intros w' o Hsame Hin. eapply refers_same; [apply Forall2_insert; [apply HI|exact Hs']|].
    intros k e y Hk. apply Hsame, (Hin e). apply elem_of_held. eauto. }
  destruct d as [i|i]; simpl in Hx, Hhold.
  - unfold publisher. destruct (publishers st !! i) as [q|] eqn:Hq; [|by apply elem_of_nil in Hx]. cbn [obind].
    destruct (focus_publisher i q Hq) as (h & rest & Hh & HS & P & I).
    destruct (release_ok (Some (fst x, a)) (sender q) h (world st) contents n rest HS (inv_world _ _ _ _ _ _ _ HI))
      as (s1 & w1 & E & HS1 & Hs1 & HW1 & Hb1 & V1 & Q1 & Hr); [by rewrite <- P|].
    unfold PublisherPortUser.releaseChunk. fold (sender q). rewrite E. cbn [obind].
    destruct Hr as [(y & Hy & Hyp & Hu & _)|(Hno & _)]; [|by destruct (Hno x)].
    assert (y = x) as ->.
    { apply (header_inj _ _ _ _ Hb); [| |congruence]; rewrite !elem_of_app, P; unfold sender_owned; rewrite !elem_of_app; tauto. }
    simpl in Hx, Hhold. rewrite Hd, Hu in Hhold. apply (inj (cons x)) in Hhold.
    destruct (publisher_step i q h (PublisherPortData.set_sender s1 q) h w1 contents n (<[j := s']> vars) (<[j := None]> g) rest
      Hq Hh I HS1 HW1 Hb1 Q1 (proj1 V1)) as [HI' P']; [|exact Hhold|done| |by eapply excl_drop, HI; [|left]|].
    { simpl. destruct Hs1 as (-> & _). by split_and!. }
    { intros Hin. eapply Hrefers; [apply same_view_payloads, V1|]. intros e y Hy'. apply elem_of_app. right. by eapply Hin. }
    rewrite (list_insert_id hists i h Hh) in HI', P'. eexists. split; [done|]. split; [exact HI'|]. split.
    + constructor; simpl; try done; [intros y Hy'; rewrite P' in Hy'; exact (same_view_payloads _ _ _ V1 y Hy')| |].
      * rewrite list_fmap_insert, list_insert_id; [done|]. by rewrite list_lookup_fmap, Hq.
      * by rewrite length_insert.
    + rewrite P, P', !length_app. simpl. unfold sender_owned. rewrite !length_app, Hu. simpl.
      unfold last_chunk. destruct Hs1 as (_ & _ & _ & _ & ->). lia.
  - unfold subscriber. destruct (subscribers st !! i) as [q|] eqn:Hq; [|by apply elem_of_nil in Hx]. cbn [obind].
    destruct (focus_subscriber i q Hq) as (rest & HR & P & I).
    destruct (receiver_release_ok (Some (fst x, a)) (receiver q) (world st) contents n rest HR (inv_world _ _ _ _ _ _ _ HI))
      as (r1 & w1 & E & HR1 & Q1 & HW1 & Hb1 & V1 & Sq1 & Hr); [by rewrite <- P|].
    unfold SubscriberPortUser.releaseChunk. fold (receiver q). rewrite E. cbn [obind].
    destruct Hr as [(y & Hy & Hyp & Hu & _)|(Hno & _)]; [|by destruct (Hno x)].
    assert (y = x) as ->.
    { apply (header_inj _ _ _ _ Hb); [| |congruence]; rewrite !elem_of_app, P, !elem_of_app; simpl in Hx; tauto. }
    simpl in Hx, Hhold. rewrite Hd, Hu in Hhold. apply (inj (cons x)) in Hhold.
    destruct (subscriber_step i q (SubscriberPortData.set_receiver r1 q) w1 contents n (<[j := s']> vars) (<[j := None]> g) rest
      Hq I HR1 Q1 HW1 Hb1 Sq1 (proj1 V1) Hhold) as [HI' P']; [done| |by eapply excl_drop, HI; [|left]|].
    { intros Hin. eapply Hrefers; [apply same_view_payloads, V1|]. intros e y Hy'. apply elem_of_app. right. by eapply Hin. }
    eexists. split; [done|]. split; [exact HI'|]. split.
    + constructor; simpl; try done; [intros y Hy'; rewrite P' in Hy'; exact (same_view_payloads _ _ _ V1 y Hy')|].
      by rewrite length_insert.
    + rewrite P, P', !length_app, Hu. simpl. lia.
Qed.


Lemma ghost_in j d x : g !! j = Some (Some (d, x)) -> x ∈ owned contents ++ owned (shares st hists).
Proof.
  intros Hj. apply elem_of_app. right. eapply holder_owned; [apply hists_length|apply (ghost_owned j d x Hj)].
Qed.
End steps.

(** *** Values *)

Lemma keeps_value st st' o y : keeps st st' o -> y ∈ o -> value st' y = value st y.
Proof. intros K Hy. unfold value. by rewrite (kp_payloads _ _ _ K), (kp_objects _ _ _ K). Qed.

Lemma has_same st st' (l : list (list handle)) (vs : list (list V)) :
  (forall y, y ∈ owned l -> value st' y = value st y) -> Forall2 (Forall2 (has st)) l vs -> Forall2 (Forall2 (has st')) l vs.
Proof.
  intros Hval H. induction H as [|xs ws l vs H _ IH]; constructor.
  - assert (Hx : forall y, y ∈ xs -> value st' y = value st y) by (intros y Hy; apply Hval, elem_of_app; by left).
    clear -Hx H. induction H as [|y v xs ws Hy _ IH]; constructor; [|apply IH; set_solver].
    unfold has. rewrite Hx; [exact Hy|by left].
  - apply IH. intros y Hy. apply Hval, elem_of_app. by right.
Qed.

Lemma var_has_same st st' g us : (forall j d x, g !! j = Some (Some (d, x)) -> value st' x = value st x) ->
  Forall2 (var_has st) g us -> Forall2 (var_has st') g us.
Proof.
  intros Hval H. induction H as [|e u g us H _ IH]; constructor; [|apply IH; intros j; apply (Hval (S j))].
  destruct e as [[d x]|], u as [[d' v]|]; try done. destruct H as [-> Hv]. split; [done|].
  unfold has. by rewrite (Hval 0%nat d x).
Qed.

(** Values survive an operation that keeps them. *)
Lemma abs_after c st st' vars' g' hists' contents' n' vq vv off :
  Inv c st' vars' g' hists' contents' n' -> keeps st st' (owned contents' ++ owned (shares st' hists')) ->
  Forall2 (Forall2 (has st)) contents' vq -> Forall2 (var_has st) g' vv ->
  off = PublisherPortData.m_offeringRequested <$> publishers st -> Abs st' g' contents' (mkV vq vv off).
Proof.
  intros HI' K Hq Hv ->. constructor; simpl.
  - eapply has_same; [|exact Hq]. intros y Hy. apply (keeps_value _ _ _ _ K), elem_of_app. by left.
  - eapply var_has_same; [|exact Hv]. intros j d x Hj. apply (keeps_value _ _ _ _ K). by eapply ghost_in.
  - by rewrite (kp_offered _ _ _ K).
Qed.

(** ** The operations *)

Section operations.
Context (c : wiring) (st : Application.t V) (vars : list SmartChunk.t) (g : list ghost).
Context (hists contents : list (list handle)) (n : Z) (HI : Inv c st vars g hists contents n).
Context (s : vstate V) (HA : Abs st g contents s).

(** The references to chunks, and what an operation may use of the space for
    references and notifications. *)
Definition size (st0 : Application.t V) (hists0 contents0 : list (list handle)) : Z :=
  Z.of_nat (length (owned contents0 ++ owned (shares st0 hists0))).

Lemma var_ghost j x : vars !! j = Some x -> exists e u, g !! j = Some e /\ v_vars s !! j = Some u /\
  refers (world st) x e /\ var_has st e u.
Proof.
  intros Hj. destruct (Forall2_lookup_l _ _ _ _ _ (inv_vars _ _ _ _ _ _ _ HI) Hj) as (e & He & Hr).
  destruct (Forall2_lookup_l _ _ _ _ _ (abs_vars _ _ _ _ HA) He) as (u & Hu & Hv). eauto 10.
Qed.

(** Emptying a variable: its deleter runs. *)
Lemma reset_ok j x y : vars !! j = Some x -> SmartChunk.get y = None ->
  exists u st', UniquePtr.reset call_deleter None (SmartChunk.smartChunkUniquePtr x) st = Done (u, st') /\
    UniquePtr.m_ptr u = None /\ UniquePtr.m_deleter u = UniquePtr.m_deleter (SmartChunk.smartChunkUniquePtr x) /\
    Inv c st' (<[j := y]> vars) (<[j := None]> g) hists contents n /\
    Abs st' (<[j := None]> g) contents (set_var j None s) /\ size st' hists contents <= size st hists contents /\
    length (publishers st') = length (publishers st) /\ length (subscribers st') = length (subscribers st).
Proof.
  intros Hj Hy. destruct (var_ghost j x Hj) as (e & u & He & Hu & Hr & Hv). unfold UniquePtr.reset.
  destruct HA as [A1 A2 A3].
  destruct e as [[d z]|].
  - destruct Hr as (Hp & Hdel & _). destruct (ghost_owned _ _ _ _ _ _ _ HI j d z He) as (_ & a & hd & Hview & _).
    pose proof (getUserPayload_view _ _ _ _ Hview) as Hpay. unfold SmartChunk.get, UniquePtr.get in Hp.
    rewrite Hp, Hpay, Hdel.
    destruct (call_deleter_ok _ _ _ _ _ _ _ HI j d z _ y He Hpay Hy) as (st' & -> & HI' & K & L). cbn [obind].
    eexists _, _. split; [done|]. split; [done|]. split; [done|]. split; [exact HI'|]. split.
    + eapply abs_after; try done. by apply Forall2_insert.
    + split; [unfold size; rewrite !length_app; lia|]. apply K.
  - simpl in Hr. unfold SmartChunk.get, UniquePtr.get in Hr. rewrite Hr. cbn [obind]. eexists _, st. split; [done|].
    assert (Hg : <[j := None]> g = g) by (by apply list_insert_id). rewrite Hg. split; [done|]. split; [done|]. split.
    + eapply variables_step; [exact HI|done|]. rewrite <- Hg. by apply Forall2_insert; [apply HI|].
    + destruct u; [done|]. split; [|done]. constructor; simpl; try done. by rewrite list_insert_id.
Qed.

Lemma reset_any p u u' st' : UniquePtr.reset call_deleter None u st = Done (u', st') ->
  UniquePtr.reset call_deleter p u st = Done (UniquePtr.mk p (UniquePtr.m_deleter u), st').
Proof.
  unfold UniquePtr.reset. intros (st1 & -> & E)%obind_Done_inv. cbn [obind]. by injection E as _ ->.
Qed.

Lemma insert_shuffle {A} (l : list A) j k a b d : j <> k ->
  <[j := a]> (<[k := b]> (<[j := d]> l)) = <[j := a]> (<[k := b]> l).
Proof. intros Hn. rewrite (list_insert_insert_ne _ k j) by done. by rewrite list_insert_insert_eq. Qed.

Lemma move_held j k e : j <> k -> g !! k = Some e -> is_Some (g !! j) -> forall d,
  held d (<[j := e]> (<[k := None]> (<[j := None]> g))) ≡ₚ held d (<[j := None]> g).
Proof.
  intros Hn Hk [ej Hj] d. assert (Hjlt : (j < length g)%nat) by (by eapply lookup_lt_Some).
  assert (Hk' : <[j := None]> g !! k = Some e) by (by rewrite list_lookup_insert_ne).
  assert (Hj' : <[k := None]> (<[j := None]> g) !! j = Some None)
    by (rewrite list_lookup_insert_ne, list_lookup_insert_eq; done).
  destruct e as [[d' x]|].
  - destruct (held_drop _ k d' x Hk') as [P1 Q1]. destruct (held_put _ j d' x Hj') as [P2 Q2].
    destruct (decide (d = d')) as [->|Hd]; [by rewrite P2, P1|]. by rewrite Q2, Q1.
  - rewrite (list_insert_id _ k) by done. by rewrite (list_insert_id _ j) by (by rewrite list_lookup_insert_eq).
Qed.

(** [vars[j] = std::move(vars[k])] *)
Lemma assign_move_ok j k x y : j <> k -> vars !! j = Some x -> vars !! k = Some y ->
  exists x' y' st' g' u, SmartChunk.assign_move x y st = Done (x', y', st') /\ v_vars s !! k = Some u /\
    Inv c st' (<[j := x']> (<[k := y']> vars)) g' hists contents n /\
    Abs st' g' contents (set_var j u (set_var k None s)) /\ size st' hists contents <= size st hists contents /\
    length (publishers st') = length (publishers st) /\ length (subscribers st') = length (subscribers st).
Proof.
  intros Hn Hj Hk. set (z := SmartChunk.mk (UniquePtr.mk None None) None).
  destruct (reset_ok j x z Hj eq_refl) as (u0 & st' & E & _ & _ & HI' & HA' & Hsz & Hlen).
  destruct (var_ghost k y Hk) as (e & u & He & Hu & _). destruct (var_ghost j x Hj) as (ej & _ & Hej & _).
  assert (Hr' : refers (world st') y e).
  { apply (Forall2_lookup_lr _ _ _ k _ _ (inv_vars _ _ _ _ _ _ _ HI')); by rewrite list_lookup_insert_ne. }
  assert (Hu' : var_has st' e u).
  { apply (Forall2_lookup_lr _ _ _ k _ _ (abs_vars _ _ _ _ HA')); simpl; by rewrite list_lookup_insert_ne. }
  unfold SmartChunk.assign_move, UniquePtr.assign_move. cbn [UniquePtr.release].
  rewrite (reset_any _ _ _ _ E). cbn [obind UniquePtr.m_ptr UniquePtr.m_deleter].
  set (x' := SmartChunk.mk _ _). set (y' := SmartChunk.mk (UniquePtr.mk None None) _).
  exists x', y', st', (<[j := e]> (<[k := None]> (<[j := None]> g))), u.
  assert (Hx' : refers (world st') x' e) by (destruct e as [[]|]; exact Hr').
  split; [done|]. split; [done|]. split; [|split; [|done]].
  - eapply variables_step; [exact HI'|by apply move_held; eauto|].
    rewrite <- (insert_shuffle vars j k x' y' z Hn).
    apply Forall2_insert; [|exact Hx']. apply Forall2_insert; [apply HI'|done].
  - destruct HA' as [B1 B2 B3]. constructor; simpl in *; try done.
    rewrite <- (insert_shuffle (v_vars s) j k u None None Hn).
    apply Forall2_insert; [|exact Hu']. by apply Forall2_insert.
Qed.

(** What other users hold belongs to other ports. *)
Lemma holder_rest i d y rest : d <> ReleaseLoaned i ->
  (forall l, owned (<[i := l]> (shares st hists)) ≡ₚ l ++ rest) -> (i < length (publishers st))%nat ->
  y ∈ holder st d -> y ∈ rest.
Proof.
  intros Hd I Hi Hy. change (y ∈ [] ++ rest). rewrite <- (I []). apply list_elem_of_bind.
  pose proof (hists_length _ _ _ _ _ _ _ HI) as Hl. destruct d as [k|k]; simpl in Hy.
  - destruct (publishers st !! k) as [p|] eqn:Hp; [|by apply elem_of_nil in Hy].
    destruct (lookup_lt_is_Some_2 hists k) as [h Hh]; [rewrite Hl; by eapply lookup_lt_Some|].
    exists (sender_owned (sender p) h). split; [unfold id, sender_owned; rewrite !elem_of_app; simpl in Hy; tauto|].
    apply (list_elem_of_lookup_2 _ k). rewrite list_lookup_insert_ne by congruence. by apply shares_lookup_publisher.
  - destruct (subscribers st !! k) as [q|] eqn:Hq; [|by apply elem_of_nil in Hy].
    exists (received (receiver q)). split; [done|]. apply (list_elem_of_lookup_2 _ (length (publishers st) + k)).
    rewrite list_lookup_insert_ne by lia. by apply shares_lookup_subscriber.
Qed.

(** [loanSample], and the constructor or the callable that fills the payload. *)
Lemma loanSample_ok i ty : (i < length (publishers st))%nat -> PayloadType.ok ty -> size st hists contents + 4 < 2 ^ 64 ->
  exists r st', PublisherImpl.loanSample i ty st = Done (r, st') /\ size st' hists contents <= size st hists contents + 1 /\
    length (publishers st') = length (publishers st) /\ length (subscribers st') = length (subscribers st) /\
    match r with
    | error e => Inv c st' vars g hists contents n /\ Abs st' g contents s
    | success sm => exists p x, SmartChunk.get sm = Some p /\ forall v,
        Inv c (store p v st') (vars ++ [sm]) (g ++ [Some (ReleaseLoaned i, x)]) hists contents n /\
        Abs (store p v st') (g ++ [Some (ReleaseLoaned i, x)]) contents (add_var (Some (ReleaseLoaned i, v)) s)
    end.
Proof.
  intros Hi [] Hsz. destruct (lookup_lt_is_Some_2 _ _ Hi) as [q Hq]. unfold PublisherImpl.loanSample, publisher. rewrite Hq.
  cbn [obind]. set (hs := if PayloadType.is_NoUserHeader ty then _ else _).
  assert (Hhs : 0 <= hs < 2 ^ 32) by (unfold hs; destruct (PayloadType.is_NoUserHeader ty); lia).
  destruct (focus_publisher _ _ _ _ _ _ _ HI i q Hq) as (h & rest & Hh & HS & P & I).
  assert (Hsz' : Z.of_nat (length (owned contents ++ sender_owned (sender q) h ++ rest)) = size st hists contents)
    by (unfold size; by rewrite P).
  destruct (tryAllocate_ok (BasePortData.m_uniqueId (PublisherPortData.base q)) (PayloadType.sizeof_T ty)
    (PayloadType.alignof_T ty) hs (PayloadType.alignof_H ty) (sender q) h (world st) contents n rest HS
    (inv_world _ _ _ _ _ _ _ HI)) as (r & s1 & w1 & E & HS1 & Hs1 & Hr).
  { rewrite <- P. apply HI. } { unfold headroom. lia. } 1-4: done.
  unfold PublisherPortUser.tryAllocateChunk. fold (sender q). rewrite E. cbn [obind].
  assert (Hcfg : ChunkDistributor.same_config (ChunkSender.dist (sender q)) (ChunkSender.dist s1))
    by (destruct Hs1 as (-> & _); by split_and!).
  assert (Hoff : PublisherPortData.m_offeringRequested <$> <[i := PublisherPortData.set_sender s1 q]> (publishers st) =
    PublisherPortData.m_offeringRequested <$> publishers st)
    by (rewrite list_fmap_insert, list_insert_id; [done|]; by rewrite list_lookup_fmap, Hq).
  pose proof (inv_holder _ _ _ _ _ _ _ HI (ReleaseLoaned i)) as Hhold. simpl in Hhold. rewrite Hq in Hhold. simpl in Hhold.
  assert (Hlast : last_chunk s1 = last_chunk (sender q)) by (unfold last_chunk; by destruct Hs1 as (_ & _ & _ & _ & ->)).
  destruct r as [p|e].
  - destruct Hr as (settings & _ & origin & (x & a & hd & -> & Hu1 & Hv1 & _ & _ & _ & Hx & C) & _).
    assert (Hconv : PublisherImpl.convertChunkHeaderToSample i (fst x, a)
      (set_publisher i (PublisherPortData.set_sender s1 q) (set_world w1 st)) =
      Done (SmartChunk.mk (UniquePtr.mk (Some (fst x, ChunkHeader.userPayload a hd)) (Some (ReleaseLoaned i))) (Some i))).
    { unfold PublisherImpl.convertChunkHeaderToSample. simpl. by rewrite (userPayload_ok _ _ _ _ Hv1). }
    rewrite Hconv. cbn [obind]. set (pp := (fst x, ChunkHeader.userPayload a hd)) in *. set (sm := SmartChunk.mk _ _).
    pose proof (getUserPayload_view _ _ _ _ Hv1) as Hpay. fold pp in Hpay.
    assert (Hold : forall d y, y ∈ held d g -> y <> x).
    { intros d y Hy ->. rewrite <- (inv_holder _ _ _ _ _ _ _ HI d) in Hy. apply Hx. rewrite !elem_of_app.
      destruct (decide (d = ReleaseLoaned i)) as [->|Hd]; [|right; right; right; by eapply holder_rest].
      simpl in Hy. rewrite Hq in Hy. simpl in Hy. tauto. }
    destruct (publisher_step _ _ _ _ _ _ _ HI i q h (PublisherPortData.set_sender s1 q) h w1 contents n (vars ++ [sm])
      (g ++ [Some (ReleaseLoaned i, x)]) rest Hq Hh I HS1 (ch_inv _ _ _ _ _ _ C) (ch_bal _ _ _ _ _ _ C)
      (ch_queues _ _ _ _ _ _ C) (ch_segs _ _ _ _ _ _ C) Hcfg) as [HI' P'].
    { rewrite held_snoc. rewrite decide_True by done. cbn [sender PublisherPortData.m_chunkSenderData PublisherPortData.set_sender].
      rewrite Hu1, Hhold. solve_Permutation. }
    { intros d Hd. rewrite held_snoc. rewrite decide_False by congruence. by rewrite app_nil_r. }
    { intros Hin. apply Forall2_app; [|constructor; [|constructor]; by split_and!]. eapply refers_same; [apply HI|]. intros j d y Hj.
      assert (Hy : y ∈ held d g) by (apply elem_of_held; eauto). apply getUserPayload_same, (ch_view _ _ _ _ _ _ C); [|by eapply Hold].
      apply elem_of_app. right. apply (Hin d). rewrite held_snoc. apply elem_of_app. by left. }
    { apply excl_loan; [|intros d Hd; by eapply Hold|apply HI]. intros Hc. apply Hx, elem_of_app. by left. }
    rewrite (list_insert_id hists i h Hh) in HI', P'.
    eexists _, _. split; [done|]. split.
    { rewrite <- Hsz'. unfold size. rewrite length_app, P'. unfold sender_owned.
      cbn [sender PublisherPortData.m_chunkSenderData PublisherPortData.set_sender].
      rewrite Hlast, !length_app, Hu1. simpl. lia. }
    split; [simpl; by rewrite length_insert|]. split; [done|]. exists pp, x. split; [done|]. intros v.
    split; [by apply inv_store|].
    assert (Hval : forall y, y ∈ owned contents ++ sender_owned s1 h ++ rest -> y <> x ->
      value (store pp v (set_publisher i (PublisherPortData.set_sender s1 q) (set_world w1 st))) y = value st y).
    { intros y Hy Hne. unfold value. simpl.
      rewrite (getUserPayload_same _ _ _ (ch_view _ _ _ _ _ _ C y Hy Hne)).
      destruct (SharedChunk.getUserPayload (Some y) (heap (world st))) as [py|] eqn:Epy; [|done]. simpl.
      rewrite lookup_insert_ne; [done|]. intros <-. apply Hne. eapply (payload_inj w1); [apply C|exact Hy| |].
      - rewrite !elem_of_app. right. left. unfold sender_owned. rewrite !elem_of_app, Hu1. right. left. by left.
      - by rewrite (getUserPayload_same _ _ _ (ch_view _ _ _ _ _ _ C y Hy Hne)), Epy. }
    destruct HA as [A1 A2 A3]. constructor; simpl; [| |by rewrite Hoff].
    + eapply has_same; [|exact A1]. intros y Hy. apply Hval; [apply elem_of_app; by left|].
      intros ->. apply Hx, elem_of_app. by left.
    + apply Forall2_app.
      * eapply var_has_same; [|exact A2]. intros j d y Hj. assert (Hy : y ∈ held d g) by (apply elem_of_held; eauto).
        apply Hval; [|by eapply Hold]. apply elem_of_app. right. rewrite <- P'.
        eapply holder_owned; [by eapply hists_length|]. rewrite (inv_holder _ _ _ _ _ _ _ HI'), held_snoc.
        apply elem_of_app. by left.
      * constructor; [|constructor]. split; [done|]. unfold has, value. simpl. rewrite Hpay. simpl. apply lookup_insert_eq.
  - destruct Hr as (HW1 & Hu1 & Hb1 & V1 & Sq1).
    destruct (publisher_step _ _ _ _ _ _ _ HI i q h (PublisherPortData.set_sender s1 q) h w1 contents n vars g rest
      Hq Hh I HS1 HW1 Hb1 Sq1 (proj1 V1) Hcfg) as [HI' P']; [simpl; by rewrite Hu1|done| |apply HI|].
    { intros Hin. eapply refers_same; [apply HI|]. intros j d x Hj. apply (same_view_payloads _ _ _ V1).
      apply elem_of_app. right. apply (Hin d), elem_of_held. eauto. }
    rewrite (list_insert_id hists i h Hh) in HI', P'.
    eexists _, _. split; [done|]. split.
    { rewrite <- Hsz'. unfold size. rewrite length_app, P'. unfold sender_owned. cbn [sender PublisherPortData.m_chunkSenderData
        PublisherPortData.set_sender]. rewrite Hlast, !length_app, Hu1. lia. }
    split; [simpl; by rewrite length_insert|]. split; [done|]. split; [exact HI'|].
    destruct s as [vq vv off]. destruct HA as [A1 A2 A3]. simpl in *. eapply (abs_after c st); try done.
    constructor; simpl; try done; [|by rewrite length_insert].
    intros y Hy. rewrite P' in Hy. exact (same_view_payloads _ _ _ V1 y Hy).
Qed.

(** *** Publishing *)

Lemma empty_publish_ok e l : Inv c (set_world (report_world e l (world st)) st) vars g hists contents n /\
  Abs (set_world (report_world e l (world st)) st) g contents s.
Proof.
  split.
  - destruct HI as [? ? ? ? ? ? [] ?]. constructor; try done; simpl.
    + by apply worldinv_heap.
    + by eapply senders_world.
    + by eapply receivers_world.
    + by apply report_balanced.
  - destruct HA as [A1 A2 A3]. by constructor.
Qed.
End operations.

Lemma inv_less c st vars g hists contents n m : Inv c st vars g hists contents n -> 0 <= m <= n ->
  Inv c st vars g hists contents m.
Proof. intros [] Hm. constructor; try done. by eapply worldinv_less. Qed.

Lemma nodup_below (l : list nat) m : NoDup l -> Forall (fun q => q < m)%nat l -> (length l <= m)%nat.
Proof.
  intros Hn Hf. rewrite <- (length_seq m 0). apply submseteq_length, NoDup_submseteq; [done|].
  intros q Hq. apply elem_of_seq. rewrite Forall_forall in Hf. specialize (Hf q Hq). lia.
Qed.

Lemma deliver_values (R : handle -> V -> Prop) c ds qs x v l vs : limits c = limit <$> ds -> R x v ->
  Forall2 (Forall2 R) l vs -> Forall2 (Forall2 R) (ChunkDistributor.after_delivery ds qs x l) (v_deliver c qs v vs).
Proof.
  intros Hc Hx H. apply Forall2_same_length_lookup_2.
  { unfold ChunkDistributor.after_delivery, v_deliver. rewrite !length_imap. by eapply Forall2_length. }
  intros q xs ws. unfold ChunkDistributor.after_delivery, v_deliver. rewrite !list_lookup_imap, Hc, list_lookup_fmap.
  destruct (l !! q) as [hs|] eqn:Eh; [|done]. destruct (vs !! q) as [us|] eqn:Eu; [|done]. simpl. intros [= <-] [= <-].
  pose proof (Forall2_lookup_lr _ _ _ _ _ _ H Eh Eu) as Hq. case_bool_decide; [|done].
  destruct (ds !! q) as [d|]; [|done]. simpl. by apply (spec_push_Forall2 R).
Qed.

(** [sendChunk] of a publisher that does not wait. *)
Lemma sendChunk_ok q h w contents n rest x a hd : SenderInv (sender q) h w -> WorldInv w contents n ->
  Balanced (heap w) (owned contents ++ sender_owned (sender q) h ++ rest) ->
  Z.of_nat (length (owned contents ++ sender_owned (sender q) h ++ rest)) + 6 + Z.of_nat (length (queues w)) < 2 ^ 64 ->
  2 * Z.of_nat (length (queues w)) <= n -> ChunkDistributor.waits (ChunkSender.dist (sender q)) = false ->
  x ∈ user_chunks (sender q) -> chunk_view (heap w) x = Some (a, hd) ->
  let qs := ChunkDistributor.m_queues (ChunkSender.dist (sender q)) in
  let contents' := if PublisherPortData.m_offeringRequested q then ChunkDistributor.after_delivery (queues w) qs x contents
                   else contents in
  exists s1 w1 h', PublisherPortUser.sendChunk [] (Some (fst x, a)) q w = Done (PublisherPortData.set_sender s1 q, w1) /\
    SenderInv s1 h' w1 /\ changes x w w1 contents' (n - 2 * Z.of_nat (length (queues w))) (sender_owned s1 h' ++ rest) /\
    ChunkDistributor.same_config (ChunkSender.dist (sender q)) (ChunkSender.dist s1) /\
    user_chunks (sender q) ≡ₚ x :: user_chunks s1 /\
    same_payloads [x] w w1 /\
    (length (owned contents' ++ sender_owned s1 h') <= length (owned contents ++ sender_owned (sender q) h) + length (queues w) + 1)%nat.
Proof.
  intros HS HW Hb Hsz Hn Hwt Hx Hv qs contents'. pose proof (si_dist _ _ _ HS) as HD.
  assert (Hqs : (length qs <= length (queues w))%nat) by (apply nodup_below; apply HD).
  assert (Hless : forall m x' w' l' o', changes x' w w' l' m o' -> n - 2 * Z.of_nat (length (queues w)) <= m ->
    changes x' w w' l' (n - 2 * Z.of_nat (length (queues w))) o').
  { intros m x' w' l' o' [] Hm. constructor; try done. eapply worldinv_less; [done|lia]. }
  assert (Hpay : forall w' hd', chunk_view (heap w') x = Some (a, hd') -> ChunkHeader.userPayloadOffset hd' = ChunkHeader.userPayloadOffset hd ->
    same_payloads [x] w w').
  { intros w' hd' Hv' Ho y ->%list_elem_of_singleton. rewrite (getUserPayload_view _ _ _ _ Hv), (getUserPayload_view _ _ _ _ Hv').
    unfold ChunkHeader.userPayload. by rewrite Ho. }
  set (hist' := ChunkDistributor.history_push (ChunkDistributor.m_historyCapacity (ChunkSender.dist (sender q))) h x).
  pose proof (ChunkDistributor.length_history_push (ChunkDistributor.m_historyCapacity (ChunkSender.dist (sender q))) h x) as Hlh.
  fold hist' in Hlh. unfold PublisherPortUser.sendChunk. fold (sender q). unfold contents'. clear contents'.
  destruct (PublisherPortData.m_offeringRequested q).
  - destruct (send_ok [] (sender q) h w contents n rest x a hd HS HW Hb) as (s1 & w1 & E & HS1 & HW1 & _ & _ & Hl1 & Hu1 & Hv1 & _ & C & Hcfg);
      [unfold headroom; fold qs; lia|fold qs; lia|done|done|intros p _; unfold ChunkDistributor.stays, ChunkDistributor.blocking; rewrite Hwt;
       destruct (queues w !! p); simpl; by rewrite andb_false_r|].
    rewrite E. cbn [obind]. fold qs hist' in HS1, C. exists s1, w1, hist'. split; [done|]. split; [done|].
    split; [eapply Hless; [exact C|lia]|]. split; [done|]. split; [done|]. split; [by eapply Hpay|].
    pose proof (ChunkDistributor.length_after_delivery (queues w) qs x contents (ChunkDistributor.worldinv_caps _ _ _ HW)
      (ChunkDistributor.di_nodup _ _ _ HD) (ChunkDistributor.di_range _ _ _ HD)) as Hl.
    unfold sender_owned. rewrite Hl1, !length_app, Hu1. simpl. lia.
  - destruct (pushToHistory_ok (sender q) h w contents n rest x a hd HS HW Hb) as (s1 & w1 & E & HS1 & _ & Hl1 & Hu1 & Hv1 & _ & C & Hcfg);
      [unfold headroom; lia|done|done|].
    rewrite E. cbn [obind]. fold hist' in HS1, C. exists s1, w1, hist'. split; [done|]. split; [done|].
    split; [eapply Hless; [exact C|lia]|]. split; [done|]. split; [done|]. split; [by eapply Hpay|].
    unfold sender_owned. rewrite Hl1, !length_app, Hu1. simpl. lia.
Qed.

Section operations.
Context (c : wiring) (st : Application.t V) (vars : list SmartChunk.t) (g : list ghost).
Context (hists contents : list (list handle)) (n : Z) (HI : Inv c st vars g hists contents n).
Context (s : vstate V) (HA : Abs st g contents s).
Let nq := Z.of_nat (length (queues (world st))).

Lemma publish_variable_ok j i x y z : vars !! j = Some x -> g !! j = Some (Some (ReleaseLoaned i, y)) -> has st y z ->
  size st hists contents + 6 + nq < 2 ^ 64 -> 2 * nq <= n ->
  exists x' st' hists' contents', PublisherImpl.publish [] i x st = Done (x', st') /\
    Inv c st' (<[j := x']> vars) (<[j := None]> g) hists' contents' (n - 2 * nq) /\
    Abs st' (<[j := None]> g) contents' (v_publish c i z (set_var j None s)) /\
    size st' hists' contents' <= size st hists contents + nq + 1 /\ SmartChunk.get x' = None /\
    length (publishers st') = length (publishers st) /\ length (subscribers st') = length (subscribers st) /\
    Z.of_nat (length (queues (world st'))) = nq.
Proof.
  intros Hj Hg Hz Hsz Hn. destruct (ghost_owned _ _ _ _ _ _ _ HI j _ y Hg) as (Hy & a & hd & Hv & Hf).
  destruct (Forall2_lookup_lr _ _ _ _ _ _ (inv_vars _ _ _ _ _ _ _ HI) Hj Hg) as (Hget & Hdel & Hprod).
  simpl in Hy. destruct (publishers st !! i) as [q|] eqn:Hq; [|by apply elem_of_nil in Hy]. simpl in Hy.
  destruct (focus_publisher _ _ _ _ _ _ _ HI i q Hq) as (h & rest & Hh & HS & P & I).
  pose proof (inv_wired _ _ _ _ _ _ _ HI) as [W1 W2 W3 W4].
  destruct (sendChunk_ok q h (world st) contents n rest y a hd HS (inv_world _ _ _ _ _ _ _ HI))
    as (s1 & w1 & h' & E & HS1 & C & Hcfg & Hu1 & Hpay & Hlen); try done.
  { rewrite <- P. apply HI. } { unfold size in Hsz. rewrite P in Hsz. exact Hsz. }
  { by apply (Forall_lookup_1 _ _ _ _ W4 Hq). }
  fold nq in C. set (contents' := if PublisherPortData.m_offeringRequested q then _ else contents) in *.
  unfold PublisherImpl.publish. cbn [SmartChunk.release UniquePtr.release].
  unfold SmartChunk.get, UniquePtr.get in Hget. rewrite Hget, Hf. unfold publisher. rewrite Hq. cbn [obind]. rewrite E. cbn [obind].
  set (x' := SmartChunk.mk _ _). destruct (held_drop g j _ y Hg) as [Hd Ho].
  pose proof (inv_holder _ _ _ _ _ _ _ HI (ReleaseLoaned i)) as Hhold. simpl in Hhold. rewrite Hq in Hhold. simpl in Hhold.
  rewrite Hd, Hu1 in Hhold. apply (inj (cons y)) in Hhold.
  assert (Hsame : same_payloads (owned contents' ++ sender_owned s1 h' ++ rest) (world st) w1).
  { intros u Hu. destruct (decide (u = y)) as [->|Hne]; [apply Hpay; by left|].
    by apply getUserPayload_same, (ch_view _ _ _ _ _ _ C). }
  destruct (publisher_step _ _ _ _ _ _ _ HI i q h (PublisherPortData.set_sender s1 q) h' w1 contents' (n - 2 * nq)
    (<[j := x']> vars) (<[j := None]> g) rest Hq Hh I HS1 (ch_inv _ _ _ _ _ _ C) (ch_bal _ _ _ _ _ _ C)
    (ch_queues _ _ _ _ _ _ C) (ch_segs _ _ _ _ _ _ C) Hcfg Hhold Ho) as [HI' P'].
  { intros Hin. eapply refers_same; [apply Forall2_insert; [apply HI|done]|]. intros k d u Hk. apply Hsame.
    apply elem_of_app. right. apply (Hin d), elem_of_held. eauto. }
  { eapply excl_drop; [exact Hg| |apply HI]. intros u Hu. unfold contents' in Hu.
    destruct (PublisherPortData.m_offeringRequested q); [|by left].
    pose proof (ChunkDistributor.after_delivery_subset (queues (world st))
      (ChunkDistributor.m_queues (ChunkSender.dist (sender q))) y contents []
      (ChunkDistributor.worldinv_caps _ _ _ (inv_world _ _ _ _ _ _ _ HI)) u) as Hsub.
    rewrite elem_of_app, !elem_of_cons, elem_of_app, elem_of_nil in Hsub. naive_solver. }
  assert (K : keeps st (set_publisher i (PublisherPortData.set_sender s1 q) (set_world w1 st))
    (owned contents' ++ owned (shares (set_publisher i (PublisherPortData.set_sender s1 q) (set_world w1 st)) (<[i := h']> hists)))).
  { constructor; simpl; try done; [intros u Hu; rewrite P' in Hu; by apply Hsame| |by rewrite length_insert].
    rewrite list_fmap_insert, list_insert_id; [done|]. by rewrite list_lookup_fmap, Hq. }
  eexists _, _, _, _. split; [done|]. split; [exact HI'|]. split; [|split; [|split; [done|split; [simpl; by rewrite length_insert|split; [done|]]]]].
  - unfold v_publish. simpl. destruct HA as [A1 A2 A3]. rewrite A3, list_lookup_fmap, Hq, W1, list_lookup_fmap, Hq. simpl.
    unfold contents' in *. destruct (PublisherPortData.m_offeringRequested q); eapply abs_after; try done;
      try (by apply Forall2_insert); simpl. by apply deliver_values.
  - unfold size, nq. rewrite (Permutation_length (Permutation_app_head (owned contents') P')).
    rewrite (Permutation_length (Permutation_app_head (owned contents) P)). rewrite !length_app in *. simpl. lia.
  - unfold nq. f_equal. symmetry. eapply Forall2_length, C.
Qed.

Lemma sample_publish_ok j x : vars !! j = Some x -> SmartChunk.producerRef x <> None ->
  size st hists contents + 6 + nq < 2 ^ 64 -> 2 * nq <= n ->
  exists x' st' hists' contents', PublisherImpl.sample_publish [] x st = Done (x', st') /\
    Inv c st' (<[j := x']> vars) (<[j := None]> g) hists' contents' (n - 2 * nq) /\
    Abs st' (<[j := None]> g) contents' (match v_vars s !! j with
                                         | Some (Some (ReleaseLoaned i, v)) => v_publish c i v (set_var j None s)
                                         | _ => s
                                         end) /\
    size st' hists' contents' <= size st hists contents + nq + 1 /\ SmartChunk.get x' = None /\
    length (publishers st') = length (publishers st) /\ length (subscribers st') = length (subscribers st) /\
    Z.of_nat (length (queues (world st'))) = nq.
Proof.
  intros Hj Hp Hsz Hn. destruct (var_ghost _ _ _ _ _ _ _ HI s HA j x Hj) as (e & u & He & Hu & Hr & Hv). rewrite Hu.
  unfold PublisherImpl.sample_publish, UniquePtr.operator_bool. destruct e as [[d y]|].
  - destruct u as [[d' v]|]; [|done]. destruct Hv as [-> Hv]. pose proof Hr as (Hget & _ & Hprod).
    destruct d as [i|i]; [|by rewrite Hprod in Hp].
    destruct (ghost_owned _ _ _ _ _ _ _ HI j _ y He) as (_ & a & hd & Hview & _).
    unfold SmartChunk.get, UniquePtr.get in Hget. rewrite Hget, (getUserPayload_view _ _ _ _ Hview), bool_decide_true, Hprod by done.
    by apply publish_variable_ok with y.
  - destruct u; [done|]. simpl in Hr. unfold SmartChunk.get, UniquePtr.get in Hr. rewrite Hr, bool_decide_false by naive_solver.
    destruct (empty_publish_ok _ _ _ _ _ _ _ HI s HA POSH__PUBLISHING_EMPTY_SAMPLE MODERATE) as [HI' HA'].
    eexists x, _, hists, contents. split; [done|]. rewrite !list_insert_id by done.
    split; [eapply inv_less; [exact HI'|unfold nq in *; lia]|]. split; [exact HA'|]. split.
    { change (size (set_world _ st) hists contents) with (size st hists contents). unfold nq. lia. }
    split; [exact Hr|done].
Qed.

(** *** Taking *)

Lemma take_ok i : (i < length (subscribers st))%nat -> size st hists contents + 4 < 2 ^ 64 -> 0 < n ->
  exists r st' contents', SubscriberImpl.take i st = Done (r, st') /\
    size st' hists contents' <= size st hists contents /\
    length (publishers st') = length (publishers st) /\ length (subscribers st') = length (subscribers st) /\
    Z.of_nat (length (queues (world st'))) = nq /\
    exists e s' vars' g', Inv c st' vars' g' hists contents' (n - 1) /\ Abs st' g' contents' s' /\
      spec_step c s (Take i) e s' /\
      match r with
      | success sm => vars' = vars ++ [sm] /\ e = Value (payload_of sm st')
      | error x => vars' = vars /\ e = NoData x
      end.
Proof.
  intros Hi Hsz Hn. destruct (lookup_lt_is_Some_2 _ _ Hi) as [q Hq].
  destruct (focus_subscriber _ _ _ _ _ _ _ HI i q Hq) as (rest & HR & P & I).
  pose proof (inv_wired _ _ _ _ _ _ _ HI) as [W1 W2 W3 W4]. pose proof (inv_world _ _ _ _ _ _ _ HI) as HW.
  assert (Hb : Balanced (heap (world st)) (owned contents ++ received (receiver q) ++ rest)) by (rewrite <- P; apply HI).
  assert (Hsz' : Z.of_nat (length (owned contents ++ received (receiver q) ++ rest)) = size st hists contents)
    by (unfold size; by rewrite P).
  destruct (tryGet_ok (receiver q) (world st) contents n rest HR HW Hn Hb) as (res & r1 & w1 & contents' & E & HR1 & Q1 & Ev & _ & Hr);
    [unfold headroom; lia|].
  pose proof (inv_holder _ _ _ _ _ _ _ HI (ReleaseTaken i)) as Hhold. simpl in Hhold. rewrite Hq in Hhold. simpl in Hhold.
  set (q' := SubscriberPortData.set_receiver r1 q). set (st' := set_subscriber i q' (set_world w1 st)).
  assert (Hget : SubscriberPortUser.tryGetChunk q (world st) = Done (res, q', w1)).
  { unfold SubscriberPortUser.tryGetChunk. fold (receiver q). by rewrite E. }
  assert (Hstep : forall vars' g', received r1 ≡ₚ held (ReleaseTaken i) g' -> (forall d, d <> ReleaseTaken i -> held d g' = held d g) ->
    ((forall d y, y ∈ held d g' -> y ∈ received (receiver q') ++ rest) -> Forall2 (refers w1) vars' g') -> Excl g' contents' ->
    Inv c st' vars' g' hists contents' (n - 1) /\ owned (shares st' hists) ≡ₚ received r1 ++ rest).
  { intros vars' g' H1 H2 H3 H4. eapply (subscriber_step _ _ _ _ _ _ _ HI i q q'); try done; apply Ev. }
  assert (Hrefers : forall o, (forall d y, y ∈ held d g -> y ∈ o) -> o ⊆ owned contents' ++ received r1 ++ rest -> Forall2 (refers w1) vars g).
  { intros o Hin Ho. eapply refers_same; [apply HI|]. intros j d y Hj. apply getUserPayload_same, (ev_view _ _ _ _ _ Ev), Ho, (Hin d), elem_of_held. eauto. }
  assert (K : forall o, o ⊆ owned contents' ++ received r1 ++ rest -> keeps st st' o).
  { intros o Ho. constructor; simpl; try done; [|by rewrite length_insert].
    intros y Hy. by apply getUserPayload_same, (ev_view _ _ _ _ _ Ev), Ho. }
  assert (Hlq : Z.of_nat (length (queues (world st'))) = nq) by (unfold nq; f_equal; symmetry; eapply Forall2_length, Ev).
  assert (Hls : length (subscribers st') = length (subscribers st)) by (simpl; by rewrite length_insert).
  unfold SubscriberImpl.take, takeChunk, subscriber. rewrite Hq. cbn [obind]. rewrite Hget. cbn [obind]. fold st'.
  unfold spec_step. rewrite W2, list_lookup_fmap, Hq. simpl. destruct s as [vq vv off]. destruct HA as [A1 A2 A3]. simpl in *.
  set (qi := ChunkReceiver.queue (receiver q)) in *.
  assert (Herr : forall e vq', res = error e -> received r1 ≡ₚ received (receiver q) ->
    (length (owned contents') <= length (owned contents))%nat -> owned contents' ⊆ owned contents ->
    Forall2 (Forall2 (has st)) contents' vq' ->
    size st' hists contents' <= size st hists contents /\ Inv c st' vars g hists contents' (n - 1) /\
    Abs st' g contents' (mkV vq' vv off)).
  { intros e vq' -> Hrec Hc Hsub Hvq. destruct (Hstep vars g) as [HI' P']; [by rewrite Hrec|done| | |].
    { intros Hin. eapply (Hrefers (received r1 ++ rest)); [done|]. intros y Hy. apply elem_of_app. by right. }
    { eapply excl_perm; [done|exact Hsub|apply HI]. }
    split; [|split; [done|]].
    - rewrite <- Hsz'. unfold size. rewrite length_app, P', !length_app, Hrec. lia.
    - eapply (abs_after c st); try done. apply K. by rewrite P'. }
  destruct (contents !! qi) as [[|x hs]|] eqn:Hc.
  - destruct Hr as (-> & -> & ->). destruct (Forall2_lookup_l _ _ _ _ _ A1 Hc) as (vs & Hvs & Hnil). apply Forall2_nil_inv_l in Hnil as ->.
    rewrite Hvs. destruct (Herr NO_CHUNK_AVAILABLE vq eq_refl) as (S' & HI' & HA'); [done|done|done|done|].
    eexists _, st', contents. split; [done|]. split; [done|]. split; [done|]. split; [done|]. split; [done|].
    eexists _, _, vars, g. split; [exact HI'|]. split; [exact HA'|]. done.
  - destruct Hr as (-> & Hr). destruct (Forall2_lookup_l _ _ _ _ _ A1 Hc) as (vs & Hvs & Hcons).
    apply Forall2_cons_inv_l in Hcons as (v & vs' & Hxv & Hhs & ->). rewrite Hvs.
    pose proof (pop_owned contents qi x hs Hc) as Pc.
    assert (Hcsub : owned (<[qi := hs]> contents) ⊆ owned contents) by (intros y Hy; rewrite Pc; by right).
    assert (Hvq : Forall2 (Forall2 (has st)) (<[qi := hs]> contents) (<[qi := vs']> vq)) by (by apply Forall2_insert).
    destruct Hr as [(-> & Hrec)|(-> & Hrec)].
    + destruct (chunk_view_owned _ _ x Hb) as [[a hd] Hv]; [rewrite !elem_of_app, Pc, elem_of_cons; tauto|].
      rewrite (getChunkHeader_view _ _ _ _ Hv).
      assert (Hv1 : chunk_view (heap w1) x = Some (a, hd)).
      { rewrite (proj2 (ev_view _ _ _ _ _ Ev)); [done|]. rewrite !elem_of_app, Hrec, elem_of_cons. tauto. }
      change (world st') with w1. rewrite (userPayload_ok _ _ _ _ Hv1). cbn [obind].
      set (sm := SmartChunk.mk _ _). pose proof (getUserPayload_view _ _ _ _ Hv1) as Hpay.
      destruct (Hstep (vars ++ [sm]) (g ++ [Some (ReleaseTaken i, x)])) as [HI' P'].
      { rewrite held_snoc. rewrite decide_True by done. rewrite Hrec, Hhold. solve_Permutation. }
      { intros d Hd. rewrite held_snoc. rewrite decide_False by congruence. by rewrite app_nil_r. }
      { intros Hin. apply Forall2_app; [|constructor; [|constructor]; by split_and!].
        eapply (Hrefers (received r1 ++ rest)); [|intros y Hy; apply elem_of_app; by right].
        intros d y Hy. apply (Hin d). rewrite held_snoc. apply elem_of_app. by left. }
      { eapply excl_take; [|exact Hcsub|apply HI]. rewrite Pc. by left. }
      assert (HA' : Abs st' (g ++ [Some (ReleaseTaken i, x)]) (<[qi := hs]> contents)
        (mkV (<[qi := vs']> vq) (vv ++ [Some (ReleaseTaken i, v)]) off)).
      { eapply (abs_after c st); try done; [apply K; by rewrite P'|]. apply Forall2_app; [done|]. by repeat constructor. }
      eexists _, st', (<[qi := hs]> contents). split; [done|]. split; [|split; [done|split; [done|split; [done|]]]].
      { rewrite <- Hsz'. unfold size. rewrite length_app, P', !length_app, Hrec, Pc. simpl. lia. }
      eexists _, _, _, _. split; [exact HI'|]. split; [exact HA'|]. split; [left; split; [reflexivity|done]|]. split; [done|].
      unfold payload_of. simpl. pose proof (abs_vars _ _ _ _ HA') as B. apply Forall2_app_inv in B as [_ B]; [|by eapply Forall2_length].
      apply Forall2_cons_1 in B as [[_ B] _]. unfold has, value in B. change (world st') with w1 in B. rewrite Hpay in B. by rewrite <- B.
    + destruct (Herr TOO_MANY_CHUNKS_HELD_IN_PARALLEL (<[qi := vs']> vq) eq_refl Hrec) as (S' & HI' & HA'); [rewrite Pc; simpl; lia|done|done|].
      eexists _, st', (<[qi := hs]> contents). split; [done|]. split; [done|]. split; [done|]. split; [done|]. split; [done|].
      eexists _, _, vars, g. split; [exact HI'|]. split; [exact HA'|]. split; [by right|done].
  - exfalso. apply lookup_ge_None in Hc. pose proof (Forall2_length _ _ _ (wi_queues _ _ _ HW)). pose proof (ri_queue _ _ HR).
    unfold qi in *. lia.
Qed.

(** *** Writing and offering *)

Lemma write_ok j i y p v : g !! j = Some (Some (ReleaseLoaned i, y)) ->
  SharedChunk.getUserPayload (Some y) (heap (world st)) = Some p ->
  Abs (store p v st) g contents (set_var j (Some (ReleaseLoaned i, v)) s).
Proof.
  intros Hj Hp. destruct HA as [A1 A2 A3]. pose proof (inv_bal _ _ _ _ _ _ _ HI) as Hb.
  assert (Hval : forall z, z ∈ owned contents ++ owned (shares st hists) -> z <> y -> value (store p v st) z = value st z).
  { intros z Hz Hne. unfold value. simpl. destruct (SharedChunk.getUserPayload (Some z) (heap (world st))) as [pz|] eqn:E; [|done]. simpl.
    rewrite lookup_insert_ne; [done|]. intros <-. apply Hne. eapply (payload_inj (world st)); [done|done| |congruence].
    by eapply ghost_in. }
  constructor; simpl; [| |done].
  - eapply has_same; [|exact A1]. intros z Hz. apply Hval; [apply elem_of_app; by left|]. intros ->.
    destruct (inv_excl _ _ _ _ _ _ _ HI i) as [_ He]. apply (He y); [|done]. apply elem_of_held. eauto.
  - apply Forall2_same_length_lookup_2; [rewrite length_insert; by eapply Forall2_length|]. intros k e u Hk Hu.
    pose proof (Forall2_length _ _ _ A2) as Hl.
    destruct (decide (k = j)) as [->|Hne].
    + rewrite list_lookup_insert_eq in Hu by (rewrite <- Hl; by eapply lookup_lt_Some). rewrite Hj in Hk. simplify_eq.
      split; [done|]. unfold has, value. simpl. rewrite Hp. simpl. apply lookup_insert_eq.
    + rewrite list_lookup_insert_ne in Hu by done. pose proof (Forall2_lookup_lr _ _ _ _ _ _ A2 Hk Hu) as Hv.
      destruct e as [[d z]|], u as [[d' v']|]; try done. destruct Hv as [-> Hv]. split; [done|]. unfold has.
      rewrite Hval; [done|by eapply ghost_in|]. by eapply excl_vars; [apply HI|..].
Qed.

Lemma offering_ok i p q b : publishers st !! i = Some p -> sender q = sender p -> PublisherPortData.m_offeringRequested q = b ->
  Inv c (set_publisher i q st) vars g hists contents n /\ Abs (set_publisher i q st) g contents (set_offered i b s) /\
  size (set_publisher i q st) hists contents = size st hists contents.
Proof.
  intros Hp Hq <-. pose proof (lookup_lt_Some _ _ _ Hp) as Hlt.
  assert (Hsh : shares (set_publisher i q st) hists = shares st hists).
  { destruct (focus_publisher _ _ _ _ _ _ _ HI i p Hp) as (h & rest & Hh & _).
    rewrite <- (list_insert_id hists i h Hh) at 1. rewrite shares_publisher by (rewrite ?(hists_length _ _ _ _ _ _ _ HI); done).
    rewrite Hq. apply list_insert_id. by apply shares_lookup_publisher. }
  split; [|split].
  - destruct HI as [? ? ? ? ? ? [] ?]. constructor; try done; simpl.
    + destruct (Forall2_lookup_l _ _ _ _ _ inv_senders0 Hp) as (h & Hh & HS). rewrite <- (list_insert_id hists i h Hh).
      apply Forall2_insert; [done|]. by rewrite Hq.
    + by rewrite Hsh.
    + intros d. rewrite <- inv_holder0. destruct d as [k|k]; [|done]. simpl.
      destruct (decide (k = i)) as [->|Hne]; [|by rewrite list_lookup_insert_ne].
      rewrite list_lookup_insert_eq by done. simpl. by rewrite Hp, Hq.
    + constructor; simpl; try done.
      * rewrite list_fmap_insert, Hq, wd_connected0. rewrite list_insert_id; [done|]. by rewrite list_lookup_fmap, Hp.
      * apply Forall_insert; [done|]. rewrite Hq. by apply (Forall_lookup_1 _ _ _ _ wd_waits0 Hp).
  - destruct HA as [A1 A2 A3]. constructor; simpl; try done. by rewrite A3, list_fmap_insert.
  - unfold size. by rewrite Hsh.
Qed.
End operations.

Lemma Forall2_snoc_inv {A B} (P : A -> B -> Prop) l k a b : Forall2 P (l ++ [a]) (k ++ [b]) -> Forall2 P l k.
Proof.
  intros H. pose proof (Forall2_length _ _ _ H) as Hl. rewrite !length_app in Hl. simpl in Hl.
  by apply Forall2_app_inv in H as [? _]; [|lia].
Qed.

(** A temporary that is empty goes out of scope. *)
Lemma temporary_gone c st vars g hists contents n x vq vv off :
  Inv c st (vars ++ [x]) (g ++ [None]) hists contents n -> Abs st (g ++ [None]) contents (mkV vq (vv ++ [None]) off) ->
  Inv c st vars g hists contents n /\ Abs st g contents (mkV vq vv off).
Proof.
  intros HI HA. assert (Hg : forall d, held d (g ++ [None]) = held d g).
  { intros d. unfold held. rewrite omap_app. apply app_nil_r. }
  split.
  - destruct HI. constructor; try done; [intros d; by rewrite <- Hg| |].
    + by eapply Forall2_snoc_inv.
    + eapply excl_perm; [|done|exact inv_excl0]. intros d. by rewrite Hg.
  - destruct HA as [A1 A2 A3]. constructor; try done. by eapply Forall2_snoc_inv.
Qed.

(** The part of [publishCopyOf] and [publishResultOf] after the loan. *)
Lemma publish_temporary c st vars g hists contents n i p v sm x s :
  Inv c (store p v st) (vars ++ [sm]) (g ++ [Some (ReleaseLoaned i, x)]) hists contents n ->
  Abs (store p v st) (g ++ [Some (ReleaseLoaned i, x)]) contents (add_var (Some (ReleaseLoaned i, v)) s) ->
  let nq := Z.of_nat (length (queues (world st))) in
  size st hists contents + 6 + nq < 2 ^ 64 -> 2 * nq <= n ->
  exists x' st' hists' contents', PublisherImpl.sample_publish [] sm (store p v st) = Done (x', st') /\
    SmartChunk.dtor x' st' = Done (x', st') /\
    Inv c st' vars g hists' contents' (n - 2 * nq) /\ Abs st' g contents' (v_publish c i v s) /\
    size st' hists' contents' <= size st hists contents + nq + 1 /\
    length (publishers st') = length (publishers st) /\ length (subscribers st') = length (subscribers st) /\
    Z.of_nat (length (queues (world st'))) = nq.
Proof.
  intros HI HA nq Hsz Hn. assert (Hj : (vars ++ [sm]) !! length vars = Some sm) by (by apply list_lookup_middle).
  assert (Hlg : length g = length vars).
  { pose proof (Forall2_length _ _ _ (inv_vars _ _ _ _ _ _ _ HI)) as H. rewrite !length_app in H. simpl in H. lia. }
  assert (Hlv : length (v_vars s) = length vars).
  { pose proof (Forall2_length _ _ _ (abs_vars _ _ _ _ HA)) as H. simpl in H. rewrite !length_app in H. simpl in H. lia. }
  destruct (sample_publish_ok _ _ _ _ _ _ _ HI _ HA (length vars) sm Hj) as (x' & st' & hists' & contents' & E & HI' & HA' & Hsz' & Hx' & L);
    [|exact Hsz|exact Hn|].
  { destruct (Forall2_lookup_l _ _ _ _ _ (inv_vars _ _ _ _ _ _ _ HI) Hj) as (e & He & Hr).
    rewrite <- Hlg, list_lookup_middle in He by done. injection He as <-. destruct Hr as (_ & _ & ->). done. }
  simpl in HA'. rewrite list_lookup_middle in HA' by done.
  assert (Hins : forall A (l : list A) a b, length l = length vars -> <[length vars := b]> (l ++ [a]) = l ++ [b]).
  { intros A l a b Hl. rewrite <- Hl. rewrite insert_app_r_alt by done. by rewrite Nat.sub_diag. }
  unfold set_var, add_var in HA'. simpl in HA'. rewrite !Hins in HA' by done.
  rewrite !Hins in HI' by done.
  exists x', st', hists', contents'. split; [exact E|]. split.
  { unfold SmartChunk.dtor, UniquePtr.reset. unfold SmartChunk.get, UniquePtr.get in Hx'. rewrite Hx'. cbn [obind].
    destruct x' as [[q d] pr]. simpl in Hx'. by subst q. }
  destruct s as [vq vv off]. unfold v_publish in *. simpl in *.
  destruct (default false (off !! i)); simpl in *; destruct (temporary_gone _ _ _ _ _ _ _ _ _ _ _ HI' HA') as [H1 H2];
    split; try exact H1; split; try exact H2; done.
Qed.

(** ** Steps and programs *)

(** The number of references and notifications one operation can need. *)
Definition cost st : Z := 2 * Z.of_nat (length (queues (world st))) + 16.

(** The result of an operation: it follows the specification and keeps everything. *)
Definition step_result c s (o : op V) st hists contents n (r : outcome (event V * config)) : Prop :=
  exists e vars' st' g' hists' contents' s', r = Done (e, (vars', st')) /\ spec_step c s o e s' /\
    Inv c st' vars' g' hists' contents' (n - cost st) /\ Abs st' g' contents' s' /\
    size st' hists' contents' <= size st hists contents + cost st /\
    length (publishers st') = length (publishers st) /\ length (subscribers st') = length (subscribers st) /\
    cost st' = cost st.

Section step.
Context (c : wiring) (st : Application.t V) (vars : list SmartChunk.t) (g : list ghost).
Context (hists contents : list (list handle)) (n : Z) (HI : Inv c st vars g hists contents n).
Context (s : vstate V) (HA : Abs st g contents s).
Context (Hsz : size st hists contents + cost st < 2 ^ 64) (Hn : cost st <= n).

Lemma unchanged_result o e : step o (vars, st) = Done (e, (vars, st)) -> spec_step c s o e s ->
  step_result c s o st hists contents n (step o (vars, st)).
Proof.
  intros E Hs. exists e, vars, st, g, hists, contents, s. split; [done|]. split; [done|].
  split; [eapply inv_less; [exact HI|]; unfold cost in *; lia|]. split; [done|]. split; [unfold cost; lia|done].
Qed.

Lemma finish_result o e vars' st' g' hists' contents' n' s' :
  step o (vars, st) = Done (e, (vars', st')) -> spec_step c s o e s' ->
  Inv c st' vars' g' hists' contents' n' -> n - cost st <= n' -> Abs st' g' contents' s' ->
  size st' hists' contents' <= size st hists contents + cost st ->
  length (publishers st') = length (publishers st) -> length (subscribers st') = length (subscribers st) ->
  length (queues (world st')) = length (queues (world st)) ->
  step_result c s o st hists contents n (step o (vars, st)).
Proof.
  intros E Hs HI' Hn' HA' Hsz' Hp Hq Hw. exists e, vars', st', g', hists', contents', s'. split; [done|]. split; [done|].
  split; [eapply inv_less; [exact HI'|lia]|]. split; [done|]. split; [done|]. split; [done|]. split; [done|]. unfold cost. by rewrite Hw.
Qed.

(** The queues stay as many as the wiring says. *)
Lemma queues_length st' vars' g' hists' contents' n' : Inv c st' vars' g' hists' contents' n' ->
  length (queues (world st')) = length (queues (world st)).
Proof.
  intros HI'. pose proof (wd_limits _ _ (inv_wired _ _ _ _ _ _ _ HI)) as E1.
  pose proof (wd_limits _ _ (inv_wired _ _ _ _ _ _ _ HI')) as E2. rewrite E1 in E2.
  apply (f_equal length) in E2. by rewrite !length_fmap in E2.
Qed.

Lemma loan_step i ty v : op_ok st (Loan i ty v) -> step_result c s (Loan i ty v) st hists contents n (step (Loan i ty v) (vars, st)).
Proof.
  intros [Hi Hty]. destruct (loanSample_ok _ _ _ _ _ _ _ HI s HA i ty Hi Hty) as (r & st' & E & Hs' & Hp & Hq & Hr);
    [unfold cost in Hsz; lia|].
  destruct r as [sm|e].
  - destruct Hr as (p & x & Hget & Hv). destruct (Hv v) as [HI' HA'].
    eapply finish_result; [| |exact HI'| |exact HA'| | | |by eapply queues_length]; simpl; try done; try (unfold cost; lia).
    + unfold PublisherImpl.loan, PublisherImpl.construct. rewrite E. cbn [obind]. by rewrite Hget.
    + by left.
    + change (size (store p v st') hists contents) with (size st' hists contents). unfold cost. lia.
  - destruct Hr as [HI' HA'].
    eapply finish_result; [| |exact HI'| |exact HA'| | | |by eapply queues_length]; simpl; try done; try (unfold cost; lia).
    + unfold PublisherImpl.loan. rewrite E. by cbn [obind].
    + right. eauto.
Qed.

(** [publishCopyOf] and [publishResultOf] differ in the value. *)
Lemma publish_new_step i ty (f : option V -> V) : (i < length (publishers st))%nat -> PayloadType.ok ty ->
  exists r st' hists' contents' s' old, PublisherImpl.publishResultOf [] i ty f st = Done (r, st') /\
    (forall v, (forall o, f o = v) -> PublisherImpl.publishCopyOf [] i ty v st = Done (r, st')) /\
    s' = match r with success _ => v_publish c i (f old) s | error _ => s end /\
    Inv c st' vars g hists' contents' (n - cost st) /\ Abs st' g contents' s' /\
    size st' hists' contents' <= size st hists contents + cost st /\
    length (publishers st') = length (publishers st) /\ length (subscribers st') = length (subscribers st).
Proof.
  intros Hi Hty. destruct (loanSample_ok _ _ _ _ _ _ _ HI s HA i ty Hi Hty) as (r & st' & E & Hs' & Hp & Hq & Hr);
    [unfold cost in Hsz; lia|].
  unfold PublisherImpl.publishResultOf, PublisherImpl.publishCopyOf. rewrite E. cbn [obind]. destruct r as [sm|e].
  - destruct Hr as (p & x & Hget & Hv). unfold PublisherImpl.construct. rewrite Hget. simpl. set (old := objects st' !! p).
    destruct (Hv (f old)) as [HI' HA']. pose proof (queues_length _ _ _ _ _ _ HI') as Hw. simpl in Hw.
    destruct (publish_temporary _ _ _ _ _ _ _ _ _ _ _ _ _ HI' HA') as (x' & st2 & hists2 & contents2 & E2 & E3 & HI2 & HA2 & Hs2 & Hp2 & Hq2 & _);
      [rewrite Hw; unfold cost in *; lia|rewrite Hw; unfold cost in *; lia|].
    exists (success ()), st2, hists2, contents2, (v_publish c i (f old) s), old.
    split; [rewrite E2; cbn [obind]; by rewrite E3|]. split.
    { intros v Hv'. rewrite <- (Hv' old), E2. cbn [obind]. by rewrite E3. }
    split; [done|]. rewrite Hw in HI2, Hs2. split; [eapply inv_less; [exact HI2|unfold cost in *; lia]|].
    split; [done|]. split; [unfold cost; lia|]. split; congruence.
  - destruct Hr as [HI' HA']. exists (error e), st', hists, contents, s, None. split; [done|]. split; [done|]. split; [done|].
    split; [eapply inv_less; [exact HI'|unfold cost in *; lia]|]. split; [done|]. split; [unfold cost; lia|done].
Qed.

Lemma no_var j : vars !! j = None -> v_vars s !! j = None.
Proof.
  rewrite !lookup_ge_None. rewrite (Forall2_length _ _ _ (inv_vars _ _ _ _ _ _ _ HI)).
  by rewrite (Forall2_length _ _ _ (abs_vars _ _ _ _ HA)).
Qed.

Lemma write_step j f : step_result c s (Write j f) st hists contents n (step (Write j f) (vars, st)).
Proof.
  destruct (vars !! j) as [[u pr]|] eqn:Hj.
  2:{ eapply unchanged_result; simpl; [by rewrite Hj|]. split; [done|].
      by rewrite (no_var j Hj). }
  destruct (var_ghost _ _ _ _ _ _ _ HI s HA j _ Hj) as (e & w & He & Hw & Hr & Hv).
  destruct e as [[[i|i] y]|].
  - destruct w as [[d' v]|]; [|done]. destruct Hv as [-> Hv]. destruct Hr as (Hget & _ & Hprod).
    unfold SmartChunk.get in Hget. simpl in Hget, Hprod. subst pr.
    destruct (ghost_owned _ _ _ _ _ _ _ HI j _ y He) as (_ & a & hd & Hview & _).
    pose proof (getUserPayload_view _ _ _ _ Hview) as Hpay. rewrite Hpay in Hget.
    assert (Hval : payload_of (SmartChunk.mk u (Some i)) st = Some v).
    { unfold payload_of, SmartChunk.get. simpl. rewrite Hget. unfold has, value in Hv. by rewrite Hpay in Hv. }
    eapply finish_result; [| |apply inv_store, HI| |by eapply write_ok| | | |done]; simpl; try done; try (unfold cost in *; lia).
    + by rewrite Hj, Hget, Hval.
    + by rewrite Hw.
    + change (size (store _ _ st) hists contents) with (size st hists contents). unfold cost. lia.
  - destruct w as [[d' v]|]; [|done]. destruct Hv as [-> Hv]. destruct Hr as (_ & _ & Hprod). simpl in Hprod. subst pr.
    eapply unchanged_result; simpl; [by rewrite Hj|]. by rewrite Hw.
  - destruct w; [done|]. simpl in Hr. unfold SmartChunk.get in Hr. simpl in Hr.
    eapply unchanged_result; simpl; [|by rewrite Hw]. rewrite Hj. destruct pr; [|done]. by rewrite Hr.
Qed.

Lemma publish_step j : step_result c s (Publish j) st hists contents n (step (Publish j) (vars, st)).
Proof.
  destruct (vars !! j) as [[u [i|]]|] eqn:Hj.
  - destruct (sample_publish_ok _ _ _ _ _ _ _ HI s HA j _ Hj) as (x' & st' & hists' & contents' & E & HI' & HA' & Hz & _ & Hp & Hq & _);
      [done|unfold cost in *; lia|unfold cost in *; lia|].
    eapply finish_result; [| |exact HI'| |exact HA'| | | |by eapply queues_length]; simpl; try done; try (unfold cost; lia).
    rewrite Hj, E. by cbn [obind].
  - eapply unchanged_result; simpl; [by rewrite Hj|]. split; [done|].
    destruct (var_ghost _ _ _ _ _ _ _ HI s HA j _ Hj) as (e & w & He & Hw & Hr & Hv). rewrite Hw.
    destruct e as [[[i|i] y]|], w as [[d' v]|]; try done; [by destruct Hr as (_ & _ & ?)|]. by destruct Hv as [-> _].
  - eapply unchanged_result; simpl; [by rewrite Hj|]. split; [done|].
    by rewrite (no_var j Hj).
Qed.

Lemma take_step i : op_ok st (Take i) -> step_result c s (Take i) st hists contents n (step (Take i) (vars, st)).
Proof.
  intros Hi. destruct (take_ok _ _ _ _ _ _ _ HI s HA i Hi) as (r & st' & contents' & E & Hz & Hp & Hq & _ & e & s' & vars' & g' & HI' & HA' & Hs & Hr);
    [unfold cost in *; lia|unfold cost in *; lia|].
  eapply finish_result; [|exact Hs|exact HI'| |exact HA'| | | |by eapply queues_length]; simpl; try done; try (unfold cost; lia).
  rewrite E. cbn [obind]. destruct r as [sm|x]; by destruct Hr as [-> ->].
Qed.

Lemma read_step j : step_result c s (Read j) st hists contents n (step (Read j) (vars, st)).
Proof.
  eapply unchanged_result; [reflexivity|]. simpl. split; [|done]. f_equal.
  destruct (vars !! j) as [x|] eqn:Hj; [|by rewrite (no_var j Hj)].
  destruct (var_ghost _ _ _ _ _ _ _ HI s HA j _ Hj) as (e & w & He & Hw & Hr & Hv). rewrite Hw. simpl. unfold payload_of.
  destruct e as [[d y]|], w as [[d' v]|]; try done; simpl.
  - destruct Hr as (-> & _). by destruct Hv as [_ ->].
  - by rewrite Hr.
Qed.

Lemma move_step j k : step_result c s (Move j k) st hists contents n (step (Move j k) (vars, st)).
Proof.
  destruct (vars !! j) as [x|] eqn:Hj; [destruct (vars !! k) as [y|] eqn:Hk|].
  - destruct (decide (j = k)) as [->|Hne].
    + eapply unchanged_result; simpl; [by rewrite Hj, bool_decide_true|]. split; [done|].
      destruct (v_vars s !! k); [by rewrite bool_decide_true|done].
    + destruct (assign_move_ok _ _ _ _ _ _ _ HI s HA j k x y Hne Hj Hk) as (x' & y' & st' & g' & u & E & Hu & HI' & HA' & Hz & Hp & Hq).
      eapply finish_result; [| |exact HI'| |exact HA'| | | |by eapply queues_length]; simpl; try done; try (unfold cost in *; lia).
      * rewrite Hj, Hk, bool_decide_false, E by done. by cbn [obind].
      * destruct (var_ghost _ _ _ _ _ _ _ HI s HA j _ Hj) as (_ & w & _ & -> & _). by rewrite Hu, bool_decide_false.
  - eapply unchanged_result; simpl; [by rewrite Hj, Hk|]. rewrite (no_var k Hk). by destruct (v_vars s !! j).
  - eapply unchanged_result; simpl; [by rewrite Hj|]. by rewrite (no_var j Hj).
Qed.

Lemma destroy_step j : step_result c s (Destroy j) st hists contents n (step (Destroy j) (vars, st)).
Proof.
  destruct (vars !! j) as [x|] eqn:Hj.
  - destruct (reset_ok _ _ _ _ _ _ _ HI s HA j x (SmartChunk.mk (UniquePtr.mk None (UniquePtr.m_deleter (SmartChunk.smartChunkUniquePtr x)))
      (SmartChunk.producerRef x)) Hj eq_refl) as (u & st' & E & Hu1 & Hu2 & HI' & HA' & Hz & Hp & Hq).
    eapply finish_result; [| |exact HI'| |exact HA'| | | |by eapply queues_length]; simpl; try done; try (unfold cost in *; lia).
    rewrite Hj. unfold SmartChunk.dtor. rewrite E. cbn [obind]. destruct u. simpl in *. by subst.
  - eapply unchanged_result; simpl; [by rewrite Hj|]. split; [done|]. pose proof (no_var j Hj) as Hv.
    unfold set_var. rewrite list_insert_ge by (by apply lookup_ge_None). by destruct s.
Qed.

Lemma offer_step i b : (i < length (publishers st))%nat ->
  let o := if b : bool then Offer i else StopOffer i in
  step_result c s o st hists contents n (step o (vars, st)).
Proof.
  intros Hi o. destruct (lookup_lt_is_Some_2 _ _ Hi) as [p Hp].
  set (q := if b then PublisherPortUser.offer p else PublisherPortUser.stopOffer p).
  destruct (offering_ok _ _ _ _ _ _ _ HI s HA i p q b Hp) as (HI' & HA' & Hz).
  { unfold q, PublisherPortUser.offer, PublisherPortUser.stopOffer. destruct b, (PublisherPortData.m_offeringRequested p); done. }
  { unfold q, PublisherPortUser.offer, PublisherPortUser.stopOffer. destruct b, (PublisherPortData.m_offeringRequested p) eqn:E; simpl; done. }
  eapply finish_result with (e := Quiet); [| |exact HI'| |exact HA'| | | |by eapply queues_length]; simpl; try done;
    try (unfold cost in *; lia); [| |by rewrite length_insert].
  - unfold o, q. destruct b; simpl; unfold PublisherImpl.offer, PublisherImpl.stopOffer, publisher; rewrite Hp; by cbn [obind].
  - unfold o. by destruct b.
Qed.

Lemma step_ok o : op_ok st o -> step_result c s o st hists contents n (step o (vars, st)).
Proof.
  intros Ho. destruct o as [i ty v|j f|j|i ty v|i ty f|i|j|j k|j|i|i].
  - by apply loan_step.
  - apply write_step.
  - apply publish_step.
  - destruct Ho as [Hi Hty]. destruct (publish_new_step i ty (fun _ => v) Hi Hty)
      as (r & st' & hists' & contents' & s' & old & _ & E & -> & HI' & HA' & Hz & Hp & Hq).
    eapply finish_result with (e := match r with success _ => Quiet | error x => NoLoan x end);
      [| |exact HI'|lia|exact HA'|done|done|done|by eapply queues_length].
    + simpl. rewrite (E v) by done. by cbn [obind].
    + simpl. destruct r as [[]|x]; [by left|right; eauto].
  - destruct Ho as [Hi Hty]. destruct (publish_new_step i ty f Hi Hty)
      as (r & st' & hists' & contents' & s' & old & E & _ & -> & HI' & HA' & Hz & Hp & Hq).
    eapply finish_result with (e := match r with success _ => Quiet | error x => NoLoan x end);
      [| |exact HI'|lia|exact HA'|done|done|done|by eapply queues_length].
    + simpl. rewrite E. by cbn [obind].
    + simpl. destruct r as [[]|x]; [left; eauto|right; eauto].
  - by apply take_step.
  - apply read_step.
  - apply move_step.
  - apply destroy_step.
  - by apply (offer_step i true).
  - by apply (offer_step i false).
Qed.
End step.

Lemma op_ok_same st st' (o : op V) : length (publishers st') = length (publishers st) ->
  length (subscribers st') = length (subscribers st) -> op_ok st o -> op_ok st' o.
Proof. intros Hp Hq. destruct o; simpl; rewrite ?Hp, ?Hq; done. Qed.

Lemma exec_ok c ops : forall st vars g hists contents n s,
  Inv c st vars g hists contents n -> Abs st g contents s -> Forall (op_ok st) ops ->
  size st hists contents + Z.of_nat (length ops) * cost st < 2 ^ 64 -> Z.of_nat (length ops) * cost st <= n ->
  exists es vars' st' g' hists' contents' s', exec ops (vars, st) = Done (es, (vars', st')) /\
    spec_exec c s ops es s' /\ Inv c st' vars' g' hists' contents' (n - Z.of_nat (length ops) * cost st) /\
    Abs st' g' contents' s' /\ size st' hists' contents' <= size st hists contents + Z.of_nat (length ops) * cost st /\
    cost st' = cost st.
Proof.
  induction ops as [|o ops IH]; intros st vars g hists contents n s HI HA Hops Hsz Hn.
  - exists [], vars, st, g, hists, contents, s. simpl. rewrite Z.sub_0_r, Z.add_0_r. done.
  - apply Forall_cons in Hops as [Ho Hops]. cbn [length] in Hsz, Hn. rewrite Nat2Z.inj_succ in Hsz, Hn.
    assert (Hc : 0 <= cost st) by (unfold cost; lia).
    destruct (step_ok _ _ _ _ _ _ _ HI s HA ltac:(nia) ltac:(nia) o Ho)
      as (e & vars1 & st1 & g1 & hists1 & contents1 & s1 & E & Hs & HI1 & HA1 & Hz & Hp & Hq & Hcost).
    destruct (IH st1 vars1 g1 hists1 contents1 (n - cost st) s1 HI1 HA1) as (es & vars2 & st2 & g2 & hists2 & contents2 & s2 & E2 & Hs2 & HI2 & HA2 & Hz2 & Hc2).
    { eapply Forall_impl; [exact Hops|]. intros o'. by apply op_ok_same. }
    { rewrite Hcost. lia. } { rewrite Hcost. lia. }
    exists (e :: es), vars2, st2, g2, hists2, contents2, s2. split; [|split; [|split; [|split; [done|split; [|congruence]]]]].
    + cbn [exec]. rewrite E. cbn [obind]. rewrite E2. by cbn [obind].
    + exists s1. done.
    + cbn [length]. rewrite Nat2Z.inj_succ. rewrite Hcost in HI2. replace (n - _) with (n - cost st - Z.of_nat (length ops) * cost st) by lia. done.
    + cbn [length]. rewrite Nat2Z.inj_succ. rewrite Hcost in Hz2. lia.
Qed.
End invariant.

(** ** Properties *)

Section properties.
Context {V : Type}.

(** C2: passing samples is passing values.  Any program that loans, writes, moves,
    publishes, takes, reads and destroys samples of publishers that do not wait runs
    without termination, and what it observes is what a system shows that copies
    values into bounded queues: [take] gives the oldest published value, later
    writes, loans and publications never change a value that is in a queue or that
    a sample refers to, and a loan that fails changes nothing.  The program may use
    any number of publishers and subscribers that exist; the number of operations
    is bounded by the number of references and notifications that can be counted. *)
Theorem samples_pass_values c (ops : list (op V)) st vars g hists contents n s :
  Inv c st vars g hists contents n -> Abs st g contents s -> Forall (op_ok st) ops ->
  size st hists contents + Z.of_nat (length ops) * cost st < 2 ^ 64 -> Z.of_nat (length ops) * cost st <= n ->
  exists es vars' st' g' hists' contents' s', exec ops (vars, st) = Done (es, (vars', st')) /\
    spec_exec c s ops es s' /\ Inv c st' vars' g' hists' contents' (n - Z.of_nat (length ops) * cost st) /\
    Abs st' g' contents' s'.
Proof.
  intros HI HA Ho Hsz Hn. destruct (exec_ok c ops st vars g hists contents n s HI HA Ho Hsz Hn)
    as (es & vars' & st' & g' & hists' & contents' & s' & E & Hs & HI' & HA' & _). by exists es, vars', st', g', hists', contents', s'.
Qed.

Lemma step_vars (o : op V) vars st e vars' st' : step o (vars, st) = Done (e, (vars', st')) ->
  (length vars' <= S (length vars))%nat.
Proof.
  intros H. destruct o; simpl in H; repeat (case_match || (apply obind_Done_inv in H as ([] & _ & H))); simplify_eq;
    rewrite ?length_insert, ?length_app; simpl; lia.
Qed.

Lemma exec_vars (ops : list (op V)) : forall vars st es vars' st', exec ops (vars, st) = Done (es, (vars', st')) ->
  (length vars' <= length vars + length ops)%nat.
Proof.
  induction ops as [|o ops IH]; intros vars st es vars' st' H; simpl in H; [simplify_eq; lia|].
  apply obind_Done_inv in H as ([e [vars1 st1]] & E1 & H). apply obind_Done_inv in H as ([es2 [vars2 st2]] & E2 & H).
  simplify_eq. apply step_vars in E1. apply IH in E2. simpl. lia.
Qed.

(** Destroying all variables empties them in the specification. *)
Lemma destroy_all c k : forall (s s' : vstate V) es, spec_exec c s (Destroy <$> seq k (length (v_vars s) - k)) es s' ->
  (forall j, (j < k)%nat -> (j < length (v_vars s))%nat -> v_vars s !! j = Some None) -> Forall (fun u => u = None) (v_vars s').
Proof.
  intros s. remember (length (v_vars s) - k)%nat as m eqn:Em. revert k s Em.
  induction m as [|m IH]; intros k s Em s' es H Hk; simpl in H; destruct es as [|e es]; try done.
  - subst s'. apply Forall_lookup. intros j u Hu. pose proof (lookup_lt_Some _ _ _ Hu). rewrite Hk in Hu by lia. congruence.
  - destruct H as (s1 & [_ ->] & H). eapply (IH (S k)); [|exact H|].
    + simpl. rewrite length_insert. lia.
    + intros j Hj Hl. simpl in *. rewrite length_insert in Hl. destruct (decide (j = k)) as [->|Hne].
      * by rewrite list_lookup_insert_eq.
      * rewrite list_lookup_insert_ne by done. apply Hk; lia.
Qed.

Lemma held_none (st : Application.t V) d g us : Forall2 (var_has st) g us -> Forall (fun u => u = None) us -> held d g = [].
Proof.
  induction 1 as [|e u g us H _ IH]; [done|]. intros [-> Hn]%Forall_cons. destruct e as [[]|]; [done|]. by apply IH.
Qed.

(** What the ports own besides the chunks of their users: the history and the last
    chunk of each publisher. *)
Definition kept (st : Application.t V) (hists : list (list handle)) : list (list handle) :=
  zip_with (fun p h => h ++ last_chunk (sender p)) (publishers st) hists.

Lemma owned_nil l : Forall (fun h => h = []) l -> owned l = [].
Proof. induction 1 as [|h l -> _ IH]; [done|]. exact IH. Qed.

Lemma shares_kept (st : Application.t V) hists : (forall d, holder st d = []) -> owned (shares st hists) = owned (kept st hists).
Proof.
  intros H. unfold owned, shares, kept. rewrite bind_app.
  assert (Hs : ((fun s => received (receiver s)) <$> subscribers st) ≫= id = []).
  { apply (owned_nil ((fun s => received (receiver s)) <$> subscribers st)), Forall_fmap, Forall_lookup.
    intros i s Hi. specialize (H (ReleaseTaken i)). simpl in H. by rewrite Hi in H. }
  rewrite Hs, app_nil_r. f_equal. apply list_eq. intros i. rewrite !lookup_zip_with.
  destruct (publishers st !! i) as [p|] eqn:Hp; [|done]. simpl. destruct (hists !! i) as [h|]; [|done]. simpl.
  specialize (H (ReleaseLoaned i)). simpl in H. rewrite Hp in H. simpl in H. unfold sender_owned. by rewrite H.
Qed.

(** The contents of the queues and the histories of the publishers of a state. *)
Definition stored (st : Application.t V) (hists contents : list (list handle)) : Prop :=
  (exists n, Forall2 (queue_rep n) (queues (world st)) contents) /\
  Forall2 (fun p h => Forall2 encodes (ChunkDistributor.m_history (ChunkSender.dist (sender p))) h) (publishers st) hists.

Lemma inv_stored c (st : Application.t V) vars g hists contents n : Inv c st vars g hists contents n -> stored st hists contents.
Proof.
  intros HI. split; [exists n; apply HI|]. eapply Forall2_impl; [apply HI|]. intros p h Hs. apply Hs.
Qed.

(** C9: samples never leak and never give a chunk back twice, and every reference
    counter is exact.  After any program of sample operations each port holds, for its
    user, exactly the chunks of the non-empty variables, each once, and the counter of
    every chunk is the number of its places in the queues, in the histories, in the last
    chunks and with the users.  When the variables are then destroyed, no publisher and
    no subscriber holds a chunk for its user any more, and the counters are the numbers
    of the places in queues, histories and last chunks alone: everything else is free
    again. *)
Theorem samples_never_leak c (ops : list (op V)) st vars g hists contents n s :
  Inv c st vars g hists contents n -> Abs st g contents s -> Forall (op_ok st) ops ->
  size st hists contents + Z.of_nat (2 * length ops + length vars) * cost st < 2 ^ 64 ->
  Z.of_nat (2 * length ops + length vars) * cost st <= n ->
  exists es vars' st' g' hists' contents', exec ops (vars, st) = Done (es, (vars', st')) /\
    Forall2 (refers (world st')) vars' g' /\ (forall d, holder st' d ≡ₚ held d g') /\
    stored st' hists' contents' /\ Balanced (heap (world st')) (owned contents' ++ owned (shares st' hists')) /\
  exists es2 vars2 st2 hists2 contents2, exec (Destroy <$> seq 0 (length vars')) (vars', st') = Done (es2, (vars2, st2)) /\
    (forall d, holder st2 d = []) /\
    stored st2 hists2 contents2 /\ Balanced (heap (world st2)) (owned contents2 ++ owned (kept st2 hists2)).
Proof.
  intros HI HA Hops Hsz Hn. assert (Hc : 0 <= cost st) by (unfold cost; lia).
  destruct (exec_ok c ops st vars g hists contents n s HI HA Hops) as (es & vars' & st' & g' & hists' & contents' & s' & E & Hs & HI' & HA' & Hz & Hcost);
    [nia|nia|].
  pose proof (exec_vars _ _ _ _ _ _ E) as Hl. exists es, vars', st', g', hists', contents'. split; [done|].
  split; [apply HI'|]. split; [apply HI'|]. split; [by eapply inv_stored|]. split; [apply HI'|].
  destruct (exec_ok c (Destroy <$> seq 0 (length vars')) st' vars' g' hists' contents' _ s' HI' HA')
    as (es2 & vars2 & st2 & g2 & hists2 & contents2 & s2 & E2 & Hs2 & HI2 & HA2 & _).
  { apply Forall_fmap, Forall_true. done. }
  { rewrite length_fmap, length_seq, Hcost. nia. } { rewrite length_fmap, length_seq, Hcost. nia. }
  assert (Hlen : length vars' = length (v_vars s')).
  { rewrite (Forall2_length _ _ _ (inv_vars _ _ _ _ _ _ _ HI')). by apply Forall2_length with (1 := abs_vars _ _ _ _ HA'). }
  assert (Hnone : Forall (fun u => u = None) (v_vars s2)).
  { eapply (destroy_all c 0 s'); [rewrite Nat.sub_0_r, <- Hlen; exact Hs2|]. intros j Hj. lia. }
  assert (Hno : forall d, holder st2 d = []).
  { intros d. apply Permutation_nil_r. rewrite (inv_holder _ _ _ _ _ _ _ HI2). by rewrite (held_none st2 d g2 (v_vars s2)); [|apply HA2|]. }
  exists es2, vars2, st2, hists2, contents2. split; [done|]. split; [done|]. split; [by eapply inv_stored|].
  rewrite <- shares_kept by done. apply HI2.
Qed.

(** The payload pointer that a user gets is as good as the chunk.  For every
    chunk in use, whoever owns it, there is a payload pointer; [fromUserPayload] of
    that pointer gives the header of the chunk, and no other chunk in use has the
    same pointer. *)
Theorem payload_pointer_roundtrip w o x : Balanced (heap w) o -> x ∈ o ->
  exists p, SharedChunk.getUserPayload (Some x) (heap w) = Some p /\
    fromUserPayload (Some p) w = Done (SharedChunk.getChunkHeader (Some x) (heap w)) /\
    forall y, y ∈ o -> SharedChunk.getUserPayload (Some y) (heap w) = Some p -> y = x.
Proof.
  intros Hb Hx. destruct (chunk_view_owned _ _ _ Hb Hx) as [[a hd] Hv]. pose proof (getUserPayload_view _ _ _ _ Hv) as Hp.
  eexists. split; [exact Hp|]. rewrite (getChunkHeader_view _ _ _ _ Hv). split.
  - rewrite <- Hp. by eapply fromUserPayload_owned.
  - intros y Hy E. eapply payload_inj; [done|done|done|congruence].
Qed.

(** *** The same programs with the untyped API

    The program keeps plain pointers and the object each came from, tests them for
    null, and has to release by hand what the samples release by themselves: when a
    variable is overwritten and when it is destroyed. *)

#[local] Notation pointer := (Deleter * option handle)%type.

Definition give_back (x : pointer) (st : Application.t V) : outcome (Application.t V) :=
  match x with
  | (_, None) => Done st
  | (ReleaseLoaned i, Some p) => UntypedPublisherImpl.release i (Some p) st
  | (ReleaseTaken i, Some p) => UntypedSubscriberImpl.release i (Some p) st
  end.

Definition untyped_loan (i : nat) (ty : PayloadType.t) (st : Application.t V) :=
  UntypedPublisherImpl.loan i (PayloadType.sizeof_T ty) (PayloadType.alignof_T ty)
    (if PayloadType.is_NoUserHeader ty then 0 else PayloadType.sizeof_H ty) (PayloadType.alignof_H ty) st.

Definition read_pointer (x : pointer) (st : Application.t V) : option V := snd x ≫= fun p => objects st !! p.

Definition untyped_step (o : op V) (c : list pointer * Application.t V)
    : outcome (event V * (list pointer * Application.t V)) :=
  let '(ptrs, st) := c in
  match o with
  | Loan i ty v =>
      let* '(r, st) := untyped_loan i ty st in
      match r with
      | success p => Done (Quiet, (ptrs ++ [(ReleaseLoaned i, Some p)], store p v st))
      | error e => Done (NoLoan e, (ptrs, st))
      end
  | Write j f =>
      match ptrs !! j with
      | Some (ReleaseLoaned i, Some p) =>
          match objects st !! p with Some v => Done (Quiet, (ptrs, store p (f v) st)) | None => Done (Quiet, c) end
      | _ => Done (Quiet, c)
      end
  | Publish j =>
      match ptrs !! j with
      | Some (ReleaseLoaned i, Some p) =>
          let* st := UntypedPublisherImpl.publish [] i (Some p) st in
          Done (Quiet, (<[j := (ReleaseLoaned i, None)]> ptrs, st))
      | Some (ReleaseLoaned i, None) =>
          Done (Quiet, (ptrs, set_world (report_world POSH__PUBLISHING_EMPTY_SAMPLE MODERATE (world st)) st))
      | _ => Done (Quiet, c)
      end
  | PublishCopyOf i ty v =>
      let* '(r, st) := untyped_loan i ty st in
      match r with
      | success p => let* st := UntypedPublisherImpl.publish [] i (Some p) (store p v st) in Done (Quiet, (ptrs, st))
      | error e => Done (NoLoan e, (ptrs, st))
      end
  | PublishResultOf i ty f =>
      let* '(r, st) := untyped_loan i ty st in
      match r with
      | success p =>
          let* st := UntypedPublisherImpl.publish [] i (Some p) (store p (f (objects st !! p)) st) in
          Done (Quiet, (ptrs, st))
      | error e => Done (NoLoan e, (ptrs, st))
      end
  | Take i =>
      let* '(r, st) := UntypedSubscriberImpl.take i st in
      match r with
      | success p => Done (Value (objects st !! p), (ptrs ++ [(ReleaseTaken i, Some p)], st))
      | error e => Done (NoData e, (ptrs, st))
      end
  | Read j => Done (Value (ptrs !! j ≫= fun x => read_pointer x st), c)
  | Move j k =>
      match ptrs !! j, ptrs !! k with
      | Some x, Some y =>
          if bool_decide (j = k) then Done (Quiet, c)
          else let* st := give_back x st in Done (Quiet, (<[j := y]> (<[k := (fst y, None)]> ptrs), st))
      | _, _ => Done (Quiet, c)
      end
  | Destroy j =>
      match ptrs !! j with
      | Some x => let* st := give_back x st in Done (Quiet, (<[j := (fst x, None)]> ptrs, st))
      | None => Done (Quiet, c)
      end
  | Offer i => let* st := PublisherImpl.offer i st in Done (Quiet, (ptrs, st))
  | StopOffer i => let* st := PublisherImpl.stopOffer i st in Done (Quiet, (ptrs, st))
  end.

Fixpoint untyped_exec (ops : list (op V)) (c : list pointer * Application.t V)
    : outcome (list (event V) * (list pointer * Application.t V)) :=
  match ops with
  | [] => Done ([], c)
  | o :: ops => let* '(e, c) := untyped_step o c in let* '(es, c) := untyped_exec ops c in Done (e :: es, c)
  end.

(** A sample and the pointer it stands for. *)
Definition stands_for (sm : SmartChunk.t) (x : pointer) : Prop :=
  SmartChunk.get sm = snd x /\
  SmartChunk.producerRef sm = match fst x with ReleaseLoaned i => Some i | ReleaseTaken _ => None end /\
  (snd x <> None -> UniquePtr.m_deleter (SmartChunk.smartChunkUniquePtr sm) = Some (fst x)).

(** Two outcomes are the same: both end with the same observations in the same state
    of ports, memory and payloads, or both stop in the same way. *)
Definition agree {E} (x : outcome (E * (list SmartChunk.t * Application.t V))) (y : outcome (E * (list pointer * Application.t V))) : Prop :=
  match x, y with
  | Done (e, (vars, st)), Done (e', (ptrs, st')) => e = e' /\ st = st' /\ Forall2 stands_for vars ptrs
  | Terminated t, Terminated t' => t = t'
  | _, _ => False
  end.

Lemma Forall2_none {A B} (P : A -> B -> Prop) l k i : Forall2 P l k -> l !! i = None <-> k !! i = None.
Proof. intros H%Forall2_length. by rewrite !lookup_ge_None, H. Qed.

Lemma loanSample_pointer i ty (st : Application.t V) :
  PublisherImpl.loanSample i ty st =
    (let* '(r, st') := untyped_loan i ty st in
     Done (match r with
           | success p => success (SmartChunk.mk (UniquePtr.mk (Some p) (Some (ReleaseLoaned i))) (Some i))
           | error e => error e
           end, st')).
Proof.
  unfold PublisherImpl.loanSample, untyped_loan, UntypedPublisherImpl.loan, PublisherImpl.convertChunkHeaderToSample.
  destruct (publisher i st) as [q|]; [|done]. cbn [obind].
  destruct (PublisherPortUser.tryAllocateChunk _ _ _ _ q _) as [[[[h|e] q'] w]|]; try done.
  cbn [obind]. by destruct (userPayload h _).
Qed.

Lemma sample_publish_pointer i p d (st : Application.t V) :
  PublisherImpl.sample_publish [] (SmartChunk.mk (UniquePtr.mk (Some p) d) (Some i)) st =
    (let* st' := UntypedPublisherImpl.publish [] i (Some p) st in
     Done (SmartChunk.mk (UniquePtr.mk None d) (Some i), st')).
Proof.
  unfold PublisherImpl.sample_publish, PublisherImpl.publish, UntypedPublisherImpl.publish.
  cbn -[fromUserPayload obind]. destruct (fromUserPayload (Some p) (world st)) as [h|]; [|done]. cbn [obind].
  destruct (publisher i st) as [q|]; [|done]. cbn [obind]. by destruct (PublisherPortUser.sendChunk _ _ q _) as [[q' w]|].
Qed.

Lemma take_pointer i (st : Application.t V) :
  SubscriberImpl.take i st =
    (let* '(r, st') := UntypedSubscriberImpl.take i st in
     Done (match r with
           | success p => success (SmartChunk.mk (UniquePtr.mk (Some p) (Some (ReleaseTaken i))) None)
           | error e => error e
           end, st')).
Proof.
  unfold SubscriberImpl.take, UntypedSubscriberImpl.take. destruct (takeChunk i st) as [[[[h|]|e] st']|]; try done.
  cbn [obind]. by destruct (userPayload h _).
Qed.

Lemma reset_pointer ptr u x (st : Application.t V) :
  UniquePtr.m_ptr u = snd x -> (snd x <> None -> UniquePtr.m_deleter u = Some (fst x)) ->
  UniquePtr.reset call_deleter ptr u st =
    (let* st' := give_back x st in Done (UniquePtr.mk ptr (UniquePtr.m_deleter u), st')).
Proof.
  destruct u as [q d], x as [o q']. simpl. intros -> Hd. unfold UniquePtr.reset. simpl.
  destruct q' as [q'|]; [|by destruct o]. rewrite Hd by done. by destruct o.
Qed.

Lemma stands_for_get sm x (st : Application.t V) : stands_for sm x -> payload_of sm st = read_pointer x st.
Proof. intros [H _]. unfold payload_of, read_pointer. by rewrite H. Qed.

Lemma step_agree o vars ptrs (st : Application.t V) : Forall2 stands_for vars ptrs ->
  agree (step o (vars, st)) (untyped_step o (ptrs, st)).
Proof.
  intros HR. destruct o as [i ty v|j f|j|i ty v|i ty f|i|j|j k|j|i|i]; simpl.
  - unfold PublisherImpl.loan. rewrite loanSample_pointer. destruct (untyped_loan i ty st) as [[[p|e] st']|]; simpl; try done.
    split; [done|]. split; [done|]. apply Forall2_app; [done|]. by constructor.
  - destruct (vars !! j) as [[u m]|] eqn:Hv.
    + destruct (Forall2_lookup_l _ _ _ _ _ HR Hv) as ([d q] & Hp & Hg & Hm & Hd). rewrite Hp. simpl in *. subst m.
      destruct d as [i|i]; [|done]. unfold payload_of. rewrite Hg. unfold SmartChunk.get in Hg. simpl in Hg. rewrite Hg.
      destruct q as [q|]; [|done]. simpl. by destruct (objects st !! q).
    + by rewrite (proj1 (Forall2_none _ _ _ _ HR) Hv).
  - destruct (vars !! j) as [[u m]|] eqn:Hv.
    + destruct (Forall2_lookup_l _ _ _ _ _ HR Hv) as ([d q] & Hp & Hg & Hm & Hd). rewrite Hp. simpl in *. subst m.
      destruct d as [i|i]; [|done]. destruct u as [q' d]. unfold SmartChunk.get in Hg. simpl in Hg. subst q'.
      destruct q as [q|].
      * rewrite sample_publish_pointer. destruct (UntypedPublisherImpl.publish _ _ _ _) as [st'|]; simpl; [|done].
        split; [done|]. split; [done|]. by apply Forall2_insert.
      * simpl. split; [done|]. split; [done|]. rewrite list_insert_id; done.
    + by rewrite (proj1 (Forall2_none _ _ _ _ HR) Hv).
  - unfold PublisherImpl.publishCopyOf. rewrite loanSample_pointer. destruct (untyped_loan i ty st) as [[[p|e] st']|]; simpl; try done.
    rewrite sample_publish_pointer. by destruct (UntypedPublisherImpl.publish _ _ _ _) as [st2|].
  - unfold PublisherImpl.publishResultOf. rewrite loanSample_pointer. destruct (untyped_loan i ty st) as [[[p|e] st']|]; simpl; try done.
    rewrite sample_publish_pointer. by destruct (UntypedPublisherImpl.publish _ _ _ _) as [st2|].
  - rewrite take_pointer. destruct (UntypedSubscriberImpl.take i st) as [[[p|e] st']|]; simpl; try done.
    split; [done|]. split; [done|]. apply Forall2_app; [done|]. by constructor.
  - split; [|done]. destruct (vars !! j) as [sm|] eqn:Hv.
    + destruct (Forall2_lookup_l _ _ _ _ _ HR Hv) as (x & Hp & Hx). rewrite Hp. simpl. f_equal. by apply stands_for_get.
    + by rewrite (proj1 (Forall2_none _ _ _ _ HR) Hv).
  - destruct (vars !! j) as [sm|] eqn:Hv; [|by rewrite (proj1 (Forall2_none _ _ _ _ HR) Hv)].
    destruct (Forall2_lookup_l _ _ _ _ _ HR Hv) as (x & Hp & Hx & Hm & Hd). rewrite Hp.
    destruct (vars !! k) as [sr|] eqn:Hw; [|by rewrite (proj1 (Forall2_none _ _ _ _ HR) Hw)].
    destruct (Forall2_lookup_l _ _ _ _ _ HR Hw) as (y & Hq & Hy & Hn & He). rewrite Hq.
    case_bool_decide; [done|]. unfold SmartChunk.assign_move, UniquePtr.assign_move. cbn [UniquePtr.release].
    rewrite (reset_pointer _ _ x) by done. destruct (give_back x st) as [st'|]; simpl; [|done].
    split; [done|]. split; [done|]. by repeat apply Forall2_insert.
  - destruct (vars !! j) as [sm|] eqn:Hv; [|by rewrite (proj1 (Forall2_none _ _ _ _ HR) Hv)].
    destruct (Forall2_lookup_l _ _ _ _ _ HR Hv) as (x & Hp & Hx & Hm & Hd). rewrite Hp. unfold SmartChunk.dtor.
    rewrite (reset_pointer _ _ x) by done. destruct (give_back x st) as [st'|]; simpl; [|done].
    split; [done|]. split; [done|]. by apply Forall2_insert.
  - destruct (PublisherImpl.offer i st); done.
  - destruct (PublisherImpl.stopOffer i st); done.
Qed.

Lemma exec_agree ops : forall vars ptrs (st : Application.t V), Forall2 stands_for vars ptrs ->
  agree (exec ops (vars, st)) (untyped_exec ops (ptrs, st)).
Proof.
  induction ops as [|o ops IH]; intros vars ptrs st HR; cbn [exec untyped_exec]; [done|].
  pose proof (step_agree o vars ptrs st HR) as Hs.
  destruct (step o (vars, st)) as [[e [vars' st']]|], (untyped_step o (ptrs, st)) as [[e' [ptrs' st2]]|]; try done.
  destruct Hs as (-> & -> & HR'). cbn [obind]. specialize (IH vars' ptrs' st2 HR').
  destruct (exec ops (vars', st2)) as [[es [vars2 st3]]|], (untyped_exec ops (ptrs', st2)) as [[es' [ptrs2 st4]]|]; try done.
  by destruct IH as (-> & -> & HR2).
Qed.

(** C33: samples are the pointers of the untyped API with the releases written by the
    compiler.  Any program of sample operations, started in any state, makes the same
    observations and leaves the same ports, memory and payloads as the program that uses
    the untyped API and releases by hand every pointer that it overwrites or destroys;
    if one of them stops with an error the other stops with the same one. *)
Theorem typed_untyped_equivalent (ops : list (op V)) (st : Application.t V) :
  match exec ops ([], st), untyped_exec ops ([], st) with
  | Done (es, (vars, st1)), Done (es', (ptrs, st2)) => es = es' /\ st1 = st2 /\ Forall2 stands_for vars ptrs
  | Terminated t, Terminated t' => t = t'
  | _, _ => False
  end.
Proof. exact (exec_agree ops [] [] st (proj2 (Forall2_nil _) I)). Qed.

(** An empty sample, one that was published or moved away, cannot be published:
    [Sample::publish] reports an error of level MODERATE and changes nothing else,
    and destroying it does nothing. *)
Lemma empty_sample_inert (st : Application.t V) rounds sm : SmartChunk.get sm = None ->
  PublisherImpl.sample_publish rounds sm st =
    Done (sm, set_world (report_world POSH__PUBLISHING_EMPTY_SAMPLE MODERATE (world st)) st) /\
  SmartChunk.dtor sm st = Done (sm, st).
Proof.
  destruct sm as [[p d] r]. unfold SmartChunk.get. simpl. intros ->. split; [done|].
  unfold SmartChunk.dtor, UniquePtr.reset. by destruct d.
Qed.
End properties.

(** ** A publisher and a subscriber *)

Definition sample_publisher (u : UsedChunkList.t) : PublisherPortData.t :=
  PublisherPortData.mk (BasePortData.mk (ServiceDescription.ctor "Radar" "FrontLeft" "Object" [] Interfaces.INTERNAL) "app" "" 1 false)
    (sample_sender [0%nat] u ShmSafeUnmanagedChunk.null) PublisherOptions.default_ctor true true.

Definition sample_subscriber (u : UsedChunkList.t) : SubscriberPortData.t :=
  SubscriberPortData.mk (BasePortData.mk (ServiceDescription.ctor "Radar" "FrontLeft" "Object" [] Interfaces.INTERNAL) "app" "" 2 false)
    (ChunkReceiver.mk 0 4 u) (SubscriberOptions.mk 2 0 "" true QueueFullPolicy.DISCARD_OLDEST_DATA false) true SubscribeState.SUBSCRIBED.

Definition sample_wiring : wiring := mkWiring [[0%nat]] [0%nat] [(true, 2)].

Lemma sample_application : exists st : Application.t Z, Inv sample_wiring st [] [] [[]] [[]] 1000 /\
  Abs st [] [[]] (mkV [[]] [] [true]) /\ length (publishers st) = 1%nat /\ length (subscribers st) = 1%nat /\
  size st [[]] [[]] = 0 /\ cost st = 18.
Proof.
  destruct sample_heap as (h & x & Hb & Hseg & _). destruct (dtor_ok h [] (Some x) Hb) as (h' & _ & Hb' & [Hl _] & _).
  destruct sample_used as (u & Hu & Hheld & _).
  set (d0 := ChunkQueueData.ctor 7 2 QueueFullPolicy.DISCARD_OLDEST_DATA SoFi_MultiProducerSingleConsumer).
  pose proof (queue_ctor_rep 7 2 QueueFullPolicy.DISCARD_OLDEST_DATA SoFi_MultiProducerSingleConsumer ltac:(lia)) as Hq. fold d0 in Hq.
  set (w := mkWorld h' [d0] []).
  assert (HW : WorldInv w [[]] 1000).
  { apply worldinv_less with (2 ^ 61); [|lia]. constructor; simpl; try lia; repeat constructor; apply Hq. }
  set (st := Application.mk [sample_publisher u] [sample_subscriber u] (∅ : gmap handle Z) w).
  assert (Hsh : owned (shares st [[]]) = []).
  { unfold shares, owned, sender_owned, user_chunks, last_chunk, received. simpl. by rewrite Hheld. }
  exists st. split; [|split; [|split; [done|split; [done|split; [unfold size; by rewrite Hsh|done]]]]].
  - constructor; try done.
    + constructor; [|constructor]. apply sample_senderinv; [apply NoDup_singleton|apply Forall_singleton; simpl; lia|simpl; lia|done|].
      simpl. lia.
    + apply Forall_singleton. constructor; [done|simpl; lia].
    + rewrite Hsh. exact Hb'.
    + intros [[|i]|[|i]]; try done; simpl; unfold user_chunks, received; simpl; by rewrite Hheld.
    + constructor; try done. by apply Forall_singleton.
    + intros i. split; [constructor|]. intros y Hy. by apply elem_of_nil in Hy.
  - constructor; try done. by repeat constructor.
Qed.

(** A program: two values are published, one of them through a sample that is
    moved and written before; both are taken and read. *)
Definition sample_type : PayloadType.t := PayloadType.mk 8 8 true 1 1.
Definition sample_program : list (op Z) :=
  [PublishCopyOf 0 sample_type 7; Loan 0 sample_type 8; Write 0 Z.succ; Loan 0 sample_type 9; Move 1 0; Publish 1;
   Take 0; Take 0; Read 2; Publish 1; Destroy 2].

Lemma sample_program_ok (st : Application.t Z) : length (publishers st) = 1%nat -> length (subscribers st) = 1%nat ->
  Forall (op_ok st) sample_program.
Proof. intros Hp Hs. repeat constructor; simpl; rewrite ?Hp, ?Hs; lia. Qed.

Lemma samples_pass_values_witness : exists (st : Application.t Z) es vars' st' s',
  exec sample_program ([], st) = Done (es, (vars', st')) /\
  spec_exec sample_wiring (mkV [[]] [] [true]) sample_program es s'.
Proof.
  destruct sample_application as (st & HI & HA & Hp & Hs & Hz & Hc).
  destruct (samples_pass_values sample_wiring sample_program st [] [] [[]] [[]] 1000 (mkV [[]] [] [true]) HI HA)
    as (es & vars' & st' & _ & _ & _ & s' & E & Hsp & _).
  - by apply sample_program_ok.
  - rewrite Hz, Hc. simpl. lia.
  - rewrite Hc. simpl. lia.
  - by exists st, es, vars', st', s'.
Defined.

Lemma samples_never_leak_witness : exists (st : Application.t Z) es vars' st' es2 vars2 st2 hists2 contents2,
  exec sample_program ([], st) = Done (es, (vars', st')) /\
  exec (Destroy <$> seq 0 (length vars')) (vars', st') = Done (es2, (vars2, st2)) /\ (forall d, holder st2 d = []) /\
  stored st2 hists2 contents2 /\ Balanced (heap (world st2)) (owned contents2 ++ owned (kept st2 hists2)).
Proof.
  destruct sample_application as (st & HI & HA & Hp & Hs & Hz & Hc).
  destruct (samples_never_leak sample_wiring sample_program st [] [] [[]] [[]] 1000 (mkV [[]] [] [true]) HI HA)
    as (es & vars' & st' & _ & _ & _ & E & _ & _ & _ & _ & es2 & vars2 & st2 & hists2 & contents2 & E2 & Hno & Hst & Hb).
  - by apply sample_program_ok.
  - rewrite Hz, Hc. simpl. lia.
  - rewrite Hc. simpl. lia.
  - by exists st, es, vars', st', es2, vars2, st2, hists2, contents2.
Defined.

(** The sample program runs to its end with samples, and so it does with pointers. *)
Lemma typed_untyped_equivalent_witness : exists (st : Application.t Z) es vars ptrs st',
  exec sample_program ([], st) = Done (es, (vars, st')) /\ untyped_exec sample_program ([], st) = Done (es, (ptrs, st')) /\
  Forall2 stands_for vars ptrs.
Proof.
  destruct sample_application as (st & HI & HA & Hp & Hs & Hz & Hc).
  destruct (exec_ok sample_wiring sample_program st [] [] [[]] [[]] 1000 (mkV [[]] [] [true]) HI HA)
    as (es & vars & st' & _ & _ & _ & _ & E & _).
  - by apply sample_program_ok.
  - rewrite Hz, Hc. simpl. lia.
  - rewrite Hc. simpl. lia.
  - pose proof (typed_untyped_equivalent sample_program st) as H. rewrite E in H.
    destruct (untyped_exec sample_program ([], st)) as [[es' [ptrs st2]]|] eqn:E2; [|destruct H].
    destruct H as (-> & -> & HR). exists st, es', vars, ptrs, st2. split; [exact E|]. split; [exact E2|exact HR].
Defined.

Lemma payload_pointer_roundtrip_witness : exists w x p, SharedChunk.getUserPayload (Some x) (heap w) = Some p /\
  fromUserPayload (Some p) w = Done (SharedChunk.getChunkHeader (Some x) (heap w)).
Proof.
  destruct sample_heap as (h & x & Hb & _).
  destruct (payload_pointer_roundtrip (mkWorld h [] []) [x] x Hb (list_elem_of_here x [])) as (p & E & F & _).
  by exists (mkWorld h [] []), x, p.
Defined.

(** A run of the program with four chunks of 64 bytes: the values come out in the
    order of their publication, the sample that was published is empty. *)
Example sample_run :
  (let* '(m, _, _) := MemoryManager.configureMemoryManager MemoryManager.ctor [MePooConfig.mkEntry 64 4]
                        (Allocator.ctor 4096 2000) (Allocator.ctor 8192 4000) in
   let* '(u, h) := UsedChunkList.ctor 4 (mkHeap [m] []) in
   let d := ChunkQueueData.ctor 7 2 QueueFullPolicy.DISCARD_OLDEST_DATA SoFi_MultiProducerSingleConsumer in
   let st := Application.mk [sample_publisher u] [sample_subscriber u] (∅ : gmap handle Z) (mkWorld h [d] []) in
   let* '(es, (vars, st)) := exec sample_program ([], st) in
   Done (es, SmartChunk.operator_bool <$> vars, errors (heap (world st)))) =
  Done ([Quiet; Quiet; Quiet; Quiet; Quiet; Quiet; Value (Some 7); Value (Some 9); Value (Some 7); Quiet; Quiet],
        [false; false; false; true], [(POSH__PUBLISHING_EMPTY_SAMPLE, MODERATE)]).
Proof. vm_compute. reflexivity. Qed.
