(* ===== verification/ResponseRouting.v ===== *)
(** * Routing of requests and responses

    A request carries the id of the response queue of its client; the server
    finds the queue with that id among the connected ones and pushes the response
    there ([ChunkDistributor::getQueueIndex], [deliverToQueue],
    [ChunkSender::sendToQueue], [ServerPortUser::sendResponse],
    [ClientPortUser::sendRequest]). *)

From S2P Require Import Prelude ChunkHeader MemoryManager SharedChunk UsedChunkList Queue VariantQueue ChunkQueue.
From S2P Require Import ChunkDistributor ChunkSender CaPro PubSubPorts ClientServerPorts.

(** ** Finding a queue by its id *)

Section distributor.
Import ChunkDistributor.

(** [q] is connected and its queue has the id [id]. *)
Definition has_id (w : World) (id : Z) (q : nat) : Prop :=
  exists d, queues w !! q = Some d /\ ChunkQueueData.m_uniqueId d = id.

(** What a search for [id] tells: the index of a queue with that id, or that no
    connected queue has it. *)
Definition search_result (qs : list nat) (id : Z) (w : World) (r : option Z) : Prop :=
  match r with
  | Some i => 0 <= i /\ exists q, qs !! Z.to_nat i = Some q /\ has_id w id q
  | None => forall q, q ∈ qs -> ~ has_id w id q
  end.

Lemma find_id_ok id w qs : forall pre, Forall (fun q => q < length (queues w))%nat qs ->
  Z.of_nat (length (pre ++ qs)) < 2 ^ 32 -> (forall q, q ∈ pre -> ~ has_id w id q) ->
  exists r, find_id id qs (Z.of_nat (length pre)) w = Done r /\ search_result (pre ++ qs) id w r.
Proof.
  induction qs as [|q qs IH]; intros pre Hr Hl Hpre; simpl.
  - exists None. split; [done|]. simpl. by rewrite app_nil_r.
  - apply Forall_cons in Hr as [Hq Hr]. destruct (lookup_lt_is_Some_2 _ _ Hq) as [d Hd]. unfold get_queue. rewrite Hd. cbn [obind].
    rewrite length_app in Hl. simpl in Hl. case_zb.
    + eexists. split; [done|]. simpl. split; [lia|]. exists q. rewrite Nat2Z.id. split; [by apply list_lookup_middle|]. by exists d.
    + replace (u32 (Z.of_nat (length pre) + 1)) with (Z.of_nat (length (pre ++ [q])))
        by (rewrite length_app, u32_small; simpl; lia).
      destruct (IH (pre ++ [q]) Hr) as (r & E & Hres).
      * rewrite <- app_assoc, length_app. simpl. lia.
      * intros y [Hy| ->%list_elem_of_singleton]%elem_of_app; [by apply Hpre|]. intros (d' & Hd' & Hid). rewrite Hd in Hd'. by simplify_eq.
      * exists r. split; [exact E|]. by rewrite <- app_assoc in Hres.
Qed.

(** The search is right whatever the last known index is. *)
Lemma getQueueIndex_ok d hist w id last : DistInv d hist w -> 0 <= last ->
  exists r, getQueueIndex d id last w = Done r /\ search_result (m_queues d) id w r.
Proof.
  intros HD Hlast. pose proof HD as []. unfold getQueueIndex.
  assert (Hfind : exists r, find_id id (m_queues d) 0 w = Done r /\ search_result (m_queues d) id w r).
  { destruct (find_id_ok id w (m_queues d) [] di_range0) as (r & E & Hr); [simpl; lia|intros q Hq; by apply elem_of_nil in Hq|].
    by exists r. }
  case_zb; cbn [obind]; [|done].
  destruct (lookup_lt_is_Some_2 (m_queues d) (Z.to_nat last)) as [q Hq]; [lia|]. rewrite Hq.
  destruct (lookup_lt_is_Some_2 (queues w) q) as [dq Hdq]; [by apply (Forall_lookup_1 _ _ _ _ di_range0 Hq)|].
  unfold get_queue. rewrite Hdq. cbn [obind]. case_zb; [|done]. eexists. split; [done|]. split; [done|].
  exists q. split; [done|]. by exists dq.
Qed.

(** Ids of connected queues are unique. *)
Definition unique_ids (qs : list nat) (w : World) : Prop :=
  forall id q1 q2, q1 ∈ qs -> q2 ∈ qs -> has_id w id q1 -> has_id w id q2 -> q1 = q2.

Lemma has_id_same w w' id q : same_queues w w' -> has_id w id q -> has_id w' id q.
Proof. intros H (d & Hd & E). destruct (Forall2_lookup_l _ _ _ _ _ H Hd) as (d' & Hd' & S). exists d'. split; [done|]. by rewrite (proj1 S). Qed.

Lemma has_id_back w w' id q : same_queues w w' -> has_id w' id q -> has_id w id q.
Proof.
  intros S (d' & Hd' & E). destruct (Forall2_lookup_r _ _ _ _ _ S Hd') as (d & Hd & Sd). exists d. split; [done|].
  by rewrite <- E, (proj1 Sd).
Qed.

Lemma unique_ids_same w w' qs : same_queues w w' -> unique_ids qs w -> unique_ids qs w'.
Proof. intros S Hu id q1 q2 H1 H2 I1 I2. by eapply Hu; [| |eapply has_id_back|eapply has_id_back]. Qed.


(** A delivery to one queue that does not make the sender wait. *)
Lemma deliverToQueue_ok rounds d hist w contents n x o id last q dq hs : DistInv d hist w -> WorldInv w contents n -> 0 <= last ->
  unique_ids (m_queues d) w -> q ∈ m_queues d -> has_id w id q -> queues w !! q = Some dq -> contents !! q = Some hs ->
  stays (waits d) (queues w) contents x q = false -> 2 <= n ->
  Balanced (heap w) (x :: owned contents ++ o) -> headroom (x :: owned contents ++ o) 3 ->
  exists w', deliverToQueue rounds d id last (Some x) w = Done (success (), d, w') /\
    evolves w w' (<[q := snd (queue_push dq hs x)]> contents) (n - 2) o.
Proof.
  intros HD HW Hlast Hu Hq Hid Hdq Hhs Hst Hn Hb Hh.
  assert (Hr : deliverToQueue rounds d id last (Some x) w =
    (let* queueIndex := getQueueIndex d id last w in
     match queueIndex with
     | None => let* w := drop (Some x) w in Done (error QUEUE_NOT_IN_CONTAINER, d, w)
     | Some i =>
         match m_queues d !! Z.to_nat i with
         | None => Terminated EXPECTS_ENSURES_FAILED
         | Some queue =>
             let* q := get_queue queue w in
             let isBlockingQueue := waits d && bool_decide (ChunkQueueData.m_queueFullPolicy q = QueueFullPolicy.BLOCK_PRODUCER) in
             let* '(pushed, w) := (let* '(c, w) := copy (Some x) w in pushToQueue queue c w) in
             if negb pushed && isBlockingQueue then
               match rounds with
               | [] => Terminated DOES_NOT_RETURN
               | others :: rounds => let '(d, w) := others d w in deliverToQueue rounds d id last (Some x) w
               end
             else
               let* w := if pushed : bool then Done w else ChunkQueuePusher.lostAChunk queue w in
               let* w := drop (Some x) w in
               Done (success (), d, w)
         end
     end)).
  { destruct rounds as [|others rest]; simpl; (destruct (getQueueIndex d id last w) as [[i|]|]; [|done|done]); cbn [obind];
      (destruct (m_queues d !! Z.to_nat i) as [q'|]; [|done]); (destruct (get_queue q' w); [|done]); cbn [obind];
      by destruct (copy (Some x) w) as [[c w1]|]. }
  rewrite Hr. clear Hr. destruct (getQueueIndex_ok d hist w id last HD Hlast) as (r & -> & Hres). cbn [obind].
  destruct r as [i|]; [|by destruct (Hres q Hq)]. destruct Hres as (_ & q' & Hq' & Hid').
  assert (q' = q) as -> by (eapply Hu; [by eapply list_elem_of_lookup_2|done|done|done]). rewrite Hq'.
  unfold get_queue. rewrite Hdq. cbn [obind].
  destruct (deliver_one w contents n q dq hs x o HW) as (w1 & -> & E1 & _); [lia|done|done|done|unfold headroom in *; lia|].
  cbn [obind]. set (r := queue_push dq hs x) in *.
  assert (Hblock : negb (bool_decide (fst r = None)) && (waits d && bool_decide (ChunkQueueData.m_queueFullPolicy dq = QueueFullPolicy.BLOCK_PRODUCER)) = false).
  { unfold stays, overflows, blocking in Hst. rewrite Hdq, Hhs in Hst. fold r in Hst. by rewrite <- bool_decide_not. }
  rewrite Hblock.
  assert (E2 : exists w2, (if bool_decide (fst r = None) then Done w1 else ChunkQueuePusher.lostAChunk q w1) = Done w2 /\
    evolves w w2 (<[q := snd r]> contents) (n - 2) (x :: o)).
  { case_bool_decide; [by exists w1|]. destruct (Forall2_lookup_l _ _ _ _ _ (ev_queues _ _ _ _ _ E1) Hdq) as (d1 & Hd1 & _).
    destruct (lostAChunk_ok w1 (<[q := snd r]> contents) (n - 2) q d1 (x :: o) (ev_inv _ _ _ _ _ E1) Hd1 (ev_bal _ _ _ _ _ E1)) as (w2 & -> & E2 & _).
    exists w2. split; [done|]. eapply evolves_trans; [exact E1|exact E2|done]. }
  destruct E2 as (w2 & -> & E2). cbn [obind].
  destruct (drop_evolves w2 (<[q := snd r]> contents) (n - 2) x o (ev_inv _ _ _ _ _ E2)) as (w3 & -> & E3 & _).
  { eapply Balanced_proper; [|apply E2]. solve_Permutation. }
  cbn [obind]. eexists. split; [done|]. eapply evolves_trans; [exact E2|exact E3|]. intros y. rewrite !elem_of_app, elem_of_cons. tauto.
Qed.
End distributor.

(** ** Sending to one queue *)

Section sender.
Import ChunkSender.

Lemma sendToQueue_ok rounds s hist w contents n o x a hd id last q dq hs :
  SenderInv s hist w -> WorldInv w contents n -> Balanced (heap w) (owned contents ++ sender_owned s hist ++ o) ->
  headroom (owned contents ++ sender_owned s hist ++ o) 6 -> 2 <= n -> 0 <= last ->
  x ∈ user_chunks s -> chunk_view (heap w) x = Some (a, hd) ->
  unique_ids (ChunkDistributor.m_queues (dist s)) w -> q ∈ ChunkDistributor.m_queues (dist s) -> has_id w id q ->
  queues w !! q = Some dq -> contents !! q = Some hs ->
  ChunkDistributor.stays (ChunkDistributor.waits (dist s)) (queues w) contents x q = false ->
  let contents' := <[q := snd (queue_push dq hs x)]> contents in
  exists s' w', sendToQueue rounds (Some (fst x, a)) id last s w = Done (true, s', w') /\ SenderInv s' hist w' /\
    dist s' = dist s /\ last_chunk s' = [x] /\ user_chunks s ≡ₚ x :: user_chunks s' /\
    chunk_view (heap w') x = Some (a, ChunkHeader.setSequenceNumber (m_sequenceNumber s) hd) /\
    changes x w w' contents' (n - 2) (sender_owned s' hist ++ o).
Proof.
  intros HS HW Hb Hh Hn Hlast Hx Hv Hu Hq Hid Hdq Hhs Hst contents'. unfold sendToQueue.
  destruct (getChunkReadyForSend_ok s hist w contents n o x a hd HS HW Hb Hx Hv)
    as (s1 & w1 & -> & D1 & L1 & Q1 & HS1 & Hu1 & C1 & Hv1 & Eq1). cbn [obind].
  assert (Hlen : length (user_chunks s) = S (length (user_chunks s1))) by (by rewrite Hu1).
  assert (Hlast1 : last_chunk s1 = last_chunk s) by (unfold last_chunk; by rewrite L1).
  destruct (copy_evolves w1 contents n x (sender_owned s1 hist ++ o) (ch_inv _ _ _ _ _ _ C1)) as (w2 & -> & E2 & _).
  { eapply Balanced_proper; [|apply C1]. solve_Permutation. }
  { unfold headroom, sender_owned in *. rewrite Hlast1. repeat (rewrite !length_app in *; simpl in * ). lia. }
  cbn [obind]. assert (S2 : same_queues w w2) by (transitivity w1; [apply C1|apply E2]).
  destruct (Forall2_lookup_l _ _ _ _ _ S2 Hdq) as (d2 & Hd2 & Sd2).
  assert (Hcap : 0 < ChunkQueueData.capacity dq).
  { destruct (Forall2_lookup_lr _ _ _ _ _ _ (wi_queues _ _ _ HW) Hdq Hhs). lia. }
  destruct (deliverToQueue_ok rounds (dist s1) hist w2 contents n x (x :: sender_owned s1 hist ++ o) id last q d2 hs) as (w3 & -> & E3); try done.
  { apply (ChunkDistributor.distinv_world _ _ w1); [|apply HS1]. symmetry. eapply Forall2_length, E2. }
  { apply E2. }
  { rewrite D1. by eapply unique_ids_same. }
  { by rewrite D1. }
  { by eapply has_id_same. }
  { rewrite D1. unfold ChunkDistributor.stays, ChunkDistributor.overflows, ChunkDistributor.blocking in *.
    rewrite Hd2, Hhs, (ChunkDistributor.same_push _ _ _ _ Sd2). rewrite Hdq, Hhs in Hst. by destruct Sd2 as (_ & _ & _ & _ & _ & _ & ->). }
  { eapply Balanced_proper; [|apply E2]. solve_Permutation. }
  { unfold headroom, sender_owned in *. rewrite Hlast1. repeat (rewrite !length_app in *; simpl in * ). lia. }
  rewrite (ChunkDistributor.same_push _ _ _ _ Sd2) in E3. fold contents' in E3. cbn [obind].
  pose proof (ChunkDistributor.owned_push_length contents q dq hs x Hhs Hcap) as Hl. fold contents' in Hl.
  destruct (replace_last_ok (set_dist (dist s1) s1) w3 contents' (n - 2) (hist ++ user_chunks s1 ++ o) x (ev_inv _ _ _ _ _ E3))
    as (e & w4 & -> & He & E4 & _).
  { eapply Balanced_proper; [|apply E3]. unfold sender_owned, last_chunk. simpl. solve_Permutation. }
  { change (last_chunk (set_dist (dist s1) s1)) with (last_chunk s1). unfold headroom, sender_owned in *. rewrite Hlast1.
    repeat (rewrite !length_app in *; simpl in * ). lia. }
  cbn [obind]. destruct (evolves_length _ _ _ _ _ E3), (evolves_length _ _ _ _ _ E4), (evolves_length _ _ _ _ _ E2).
  eexists _, _. split; [done|]. split.
  { destruct HS1. constructor; simpl; try done; [|congruence]. by apply (ChunkDistributor.distinv_world _ _ w1); [congruence|]. }
  split; [done|]. split; [done|]. split; [done|]. split.
  { rewrite (proj2 (ev_view _ _ _ _ _ E4)) by set_solver. rewrite (proj2 (ev_view _ _ _ _ _ E3)) by set_solver.
    by rewrite (proj2 (ev_view _ _ _ _ _ E2)) by set_solver. }
  eapply changes_perm with (o := x :: hist ++ user_chunks s1 ++ o).
  { unfold sender_owned, user_chunks, last_chunk. simpl. rewrite He. solve_Permutation. }
  pose proof (ChunkDistributor.owned_push_subset contents q dq hs x (x :: hist ++ user_chunks s1 ++ o) Hhs Hcap) as Hsub.
  fold contents' in Hsub.
  assert (Hall : owned contents' ++ x :: hist ++ user_chunks s1 ++ o ⊆ owned contents ++ x :: sender_owned s1 hist ++ o).
  { intros y Hy%Hsub. revert Hy. unfold sender_owned. rewrite !elem_of_cons, !elem_of_app, !elem_of_cons, !elem_of_app. tauto. }
  eapply changes_trans; [exact C1| |exact Hall]. apply evolves_changes. eapply evolves_trans; [exact E2| |].
  - eapply evolves_trans; [exact E3|exact E4|]. intros y. unfold sender_owned. rewrite !elem_of_app, !elem_of_cons, !elem_of_app. tauto.
  - intros y Hy%Hall. revert Hy. rewrite !elem_of_app, !elem_of_cons. tauto.
Qed.
End sender.

(** ** Ports *)

(** Where the header of a request or response lies. *)
Definition rpc_pointer (x : handle) (a : Z) : handle := (fst x, a + SIZEOF_CHUNK_HEADER).

Lemma chunk_header_pointer h o x a hd : Balanced h o -> x ∈ o -> chunk_view h x = Some (a, hd) ->
  chunk_header (rpc_pointer x a) = Some (fst x, a).
Proof.
  intros Hb Hx Hv. destruct (owned_extent _ _ _ _ _ Hb Hx Hv) as (H1 & _ & H2 & H3 & _).
  pose proof (bal_owned _ _ Hb x Hx) as [m Hm]. destruct (owned_placed _ _ _ _ _ _ Hb Hx Hv Hm) as [P1 P2 _].
  unfold chunk_header, rpc_pointer, ChunkHeader.fromUserHeader. cbn [fst snd fmap option_fmap option_map].
  replace (a + SIZEOF_CHUNK_HEADER - SIZEOF_CHUNK_HEADER) with a by lia. rewrite u64_small; [done|].
  unfold SIZEOF_CHUNK_HEADER in *. lia.
Qed.

(** A chunk that its user gives back is released. *)
Lemma release_held s hist w contents n o x a hd : SenderInv s hist w -> WorldInv w contents n ->
  Balanced (heap w) (owned contents ++ sender_owned s hist ++ o) -> x ∈ user_chunks s -> chunk_view (heap w) x = Some (a, hd) ->
  exists s' w', ChunkSender.release (Some (fst x, a)) s w = Done (s', w') /\ SenderInv s' hist w' /\ same_sender s s' /\
    WorldInv w' contents n /\ Balanced (heap w') (owned contents ++ sender_owned s' hist ++ o) /\
    user_chunks s ≡ₚ x :: user_chunks s' /\ errors (heap w') = errors (heap w).
Proof.
  intros HS HW Hb Hx Hv. destruct (release_ok (Some (fst x, a)) s hist w contents n o HS HW Hb)
    as (s1 & w1 & -> & HS1 & Hs1 & HW1 & Hb1 & _ & _ & Hr).
  pose proof (getChunkHeader_view _ _ _ _ Hv) as Hg. destruct Hr as [(y & Hy & Hp & Hu & E)|(Hno & _)]; [|by destruct (Hno x)].
  assert (y = x) as -> by (apply (user_chunk_unique _ _ _ _ _ _ _ Hb Hy Hx); congruence).
  by exists s1, w1.
Qed.

Section properties.
Import ServerPortData.

(** What sending a response comes to. *)
Definition routed (s : t) (w : World) (contents : list (list handle)) (x : handle) (id : Z)
    (res : expected unit ServerSendError) (contents' : list (list handle)) : Prop :=
  if negb (m_offeringRequested s) then res = error NOT_OFFERED /\ contents' = contents
  else (forall q d hs, q ∈ stored s -> has_id w id q -> queues w !! q = Some d -> contents !! q = Some hs ->
          res = success () /\ contents' = <[q := snd (queue_push d hs x)]> contents) /\
       ((forall q, q ∈ stored s -> ~ has_id w id q) -> res = error CLIENT_NOT_AVAILABLE /\ contents' = contents).

Lemma sendResponse_ok rounds s hist rpc w contents n o x a hd header :
  let id := RpcHeader.m_uniqueClientQueueId header in
  SenderInv (m_chunkSenderData s) hist w -> WorldInv w contents n ->
  Balanced (heap w) (owned contents ++ sender_owned (m_chunkSenderData s) hist ++ o) ->
  headroom (owned contents ++ sender_owned (m_chunkSenderData s) hist ++ o) 6 -> 2 <= n ->
  x ∈ user_chunks (m_chunkSenderData s) -> chunk_view (heap w) x = Some (a, hd) ->
  rpc !! rpc_pointer x a = Some header -> 0 <= RpcHeader.m_lastKnownClientQueueIndex header -> unique_ids (stored s) w ->
  (forall q, q ∈ stored s -> ChunkDistributor.stays (ChunkDistributor.waits (ChunkSender.dist (m_chunkSenderData s))) (queues w) contents x q = false) ->
  exists res s' rpc' w' contents',
    ServerPortUser.sendResponse rounds (Some (rpc_pointer x a)) s rpc w = Done (res, s', rpc', w') /\
    SenderInv (m_chunkSenderData s') hist w' /\ WorldInv w' contents' (n - 2) /\
    Balanced (heap w') (owned contents' ++ sender_owned (m_chunkSenderData s') hist ++ o) /\
    user_chunks (m_chunkSenderData s) ≡ₚ x :: user_chunks (m_chunkSenderData s') /\
    routed s w contents x id res contents' /\
    (res = success () -> (exists i, rpc' = <[rpc_pointer x a := RpcHeader.set_index i header]> rpc) /\
       chunk_view (heap w') x = Some (a, ChunkHeader.setSequenceNumber (ChunkSender.m_sequenceNumber (m_chunkSenderData s)) hd)).
Proof.
  intros id HS HW Hb Hh Hn Hx Hv Hrpc Hlast Hu Hst.
  assert (Hin : x ∈ owned contents ++ sender_owned (m_chunkSenderData s) hist ++ o) by (unfold sender_owned; rewrite !elem_of_app; tauto).
  pose proof (chunk_header_pointer _ _ _ _ _ Hb Hin Hv) as Hch.
  destruct (release_held _ _ _ _ _ _ _ _ _ HS HW Hb Hx Hv) as (s1 & w1 & Erel & HS1 & _ & HW1 & Hb1 & Hu1 & _).
  assert (Hrelease : ServerPortUser.releaseResponse (Some (rpc_pointer x a)) s w = Done (set_sender s1 s, w1)).
  { unfold ServerPortUser.releaseResponse. rewrite Hch, Erel. done. }
  assert (HW1' : WorldInv w1 contents (n - 2)) by (eapply worldinv_less; [exact HW1|lia]).
  unfold ServerPortUser.sendResponse. rewrite Hrelease. unfold routed. destruct (m_offeringRequested s); simpl negb; cbn iota beta.
  2:{ cbn [obind]. eexists _, _, _, _, contents. split; [done|]. by split_and!. }
  unfold read_rpc. rewrite Hrpc. cbn [obind]. fold id.
  destruct (getQueueIndex_ok _ hist w id _ (si_dist _ _ _ HS) Hlast) as (r & -> & Hr). cbn [obind]. destruct r as [i|].
  - destruct Hr as (Hi & q & Hq & Hid). assert (Hqin : q ∈ stored s) by (by eapply list_elem_of_lookup_2). pose proof Hid as (d & Hd & _).
    destruct (Forall2_lookup_l _ _ _ _ _ (wi_queues _ _ _ HW) Hd) as (hs & Hhs & _).
    destruct (sendToQueue_ok rounds _ hist w contents n o x a hd id i q d hs HS HW Hb Hh Hn Hi Hx Hv Hu Hqin Hid Hd Hhs (Hst q Hqin))
      as (s2 & w2 & E & HS2 & _ & _ & Hu2 & Hv2 & C).
    rewrite Hch, E. cbn [obind]. eexists _, _, _, _, _. split; [done|]. split; [done|]. split; [apply C|]. split; [apply C|].
    split; [done|]. split; [|split; [by exists i|done]]. split.
    + intros q' d' hs' Hq' Hid' Hd' Hhs'. assert (q' = q) as -> by (by eapply Hu). by simplify_eq.
    + intros Hno. by destruct (Hno q Hqin).
  - cbn [obind]. eexists _, _, _, _, contents. split; [done|]. split; [done|]. split; [done|]. split; [done|]. split; [done|].
    split; [|done]. split; [|done]. intros q d hs Hq Hid. by destruct (Hr q Hq).
Qed.

(** A response goes to the client that asked, and to no other.  When the server
    sends a response that it holds, and no full response queue makes it wait, the
    response is pushed to the queue whose id the response header carries, wherever
    that queue is among the connected ones and whatever index is remembered; all
    other queues keep their contents.  If no connected queue has the id the caller
    gets CLIENT_NOT_AVAILABLE, and if the service is not offered NOT_OFFERED.  In
    every case the chunk leaves the list of the user and no reference is lost. *)
Theorem response_routed rounds s hist rpc w contents n o x a hd header :
  let qs := ChunkDistributor.m_queues (ChunkSender.dist (m_chunkSenderData s)) in
  let id := RpcHeader.m_uniqueClientQueueId header in
  SenderInv (m_chunkSenderData s) hist w -> WorldInv w contents n ->
  Balanced (heap w) (owned contents ++ sender_owned (m_chunkSenderData s) hist ++ o) ->
  headroom (owned contents ++ sender_owned (m_chunkSenderData s) hist ++ o) 6 -> 2 <= n ->
  x ∈ user_chunks (m_chunkSenderData s) -> chunk_view (heap w) x = Some (a, hd) ->
  rpc !! rpc_pointer x a = Some header -> 0 <= RpcHeader.m_lastKnownClientQueueIndex header -> unique_ids qs w ->
  (forall q, q ∈ qs -> ChunkDistributor.stays (ChunkDistributor.waits (ChunkSender.dist (m_chunkSenderData s))) (queues w) contents x q = false) ->
  exists res s' rpc' w' contents',
    ServerPortUser.sendResponse rounds (Some (rpc_pointer x a)) s rpc w = Done (res, s', rpc', w') /\
    SenderInv (m_chunkSenderData s') hist w' /\ WorldInv w' contents' (n - 2) /\
    Balanced (heap w') (owned contents' ++ sender_owned (m_chunkSenderData s') hist ++ o) /\
    user_chunks (m_chunkSenderData s) ≡ₚ x :: user_chunks (m_chunkSenderData s') /\
    if negb (m_offeringRequested s) then res = error NOT_OFFERED /\ contents' = contents
    else (forall q d hs, q ∈ qs -> has_id w id q -> queues w !! q = Some d -> contents !! q = Some hs ->
            res = success () /\ contents' = <[q := snd (queue_push d hs x)]> contents) /\
         ((forall q, q ∈ qs -> ~ has_id w id q) -> res = error CLIENT_NOT_AVAILABLE /\ contents' = contents).
Proof.
  intros qs id HS HW Hb Hh Hn Hx Hv Hrpc Hlast Hu Hst.
  destruct (sendResponse_ok rounds s hist rpc w contents n o x a hd header HS HW Hb Hh Hn Hx Hv Hrpc Hlast Hu Hst)
    as (res & s' & rpc' & w' & contents' & E & HS' & HW' & Hb' & Hu' & Hr & _).
  by exists res, s', rpc', w', contents'.
Qed.

(** One client is connected; the remembered index 5 is stale. *)
Lemma response_routed_witness :
  exists s rpc w p s' rpc' w', ServerPortUser.sendResponse [] (Some p) s rpc w = Done (success (), s', rpc', w').
Proof.
  destruct (sample_world 2 QueueFullPolicy.DISCARD_OLDEST_DATA SoFi_MultiProducerSingleConsumer ltac:(lia))
    as (w0 & d & x & Eq & _ & _ & _ & HW & Hb & _).
  destruct (sample_holding w0 x [[x]] 1000 HW Hb) as (u & h & Hu & Hheld & E); [unfold headroom; simpl; lia|].
  set (w := set_heap h w0) in *. set (v := sample_sender [0%nat] u ShmSafeUnmanagedChunk.null).
  pose proof (ev_bal _ _ _ _ _ E) as Hb1.
  destruct (chunk_view_owned (heap w) _ x Hb1) as [[a hd] Hv]; [apply elem_of_app; right; by rewrite Hheld; left|].
  set (b := BasePortData.mk (ServiceDescription.ctor "Math" "Add" "Sum" [0; 0; 0; 0] Interfaces.INTERNAL) "server" "node" 1 false).
  set (s := mk b v (ChunkReceiver.mk 0 4 u) true true).
  set (header := RpcHeader.ResponseHeader (ChunkQueueData.m_uniqueId d) 5 0).
  set (rpc := <[rpc_pointer x a := header]> (∅ : RpcMemory)).
  destruct (response_routed [] s [] rpc w [[x]] 1000 [] x a hd header) as (res & s' & rpc' & w' & c' & Es & _ & _ & _ & _ & Hr & _).
  - apply sample_senderinv; [apply NoDup_singleton|simpl; rewrite Eq; apply Forall_singleton; simpl; lia|simpl; lia|done|].
    eapply owned_segs; [exact Hb1|by left].
  - apply E.
  - unfold sender_owned, user_chunks, last_chunk. simpl. rewrite !app_nil_r. exact Hb1.
  - unfold sender_owned, user_chunks, last_chunk, headroom. simpl. rewrite !app_nil_r. rewrite (Permutation_length Hheld). simpl. lia.
  - lia.
  - unfold user_chunks. simpl. rewrite Hheld. by left.
  - done.
  - apply lookup_insert_eq.
  - simpl. lia.
  - intros id q1 q2 ->%list_elem_of_singleton ->%list_elem_of_singleton. done.
  - intros q _. unfold ChunkDistributor.stays, ChunkDistributor.blocking. simpl. destruct (queues w0 !! q); by rewrite andb_false_r.
  - destruct (Hr 0%nat d [x]) as [-> _]; [by left|exists d; simpl; by rewrite Eq|simpl; by rewrite Eq|done|].
    by exists s, rpc, w, (rpc_pointer x a), s', rpc', w'.
Defined.
End properties.
