(* ===== verification/RpcApi.v ===== *)
(** * The user API of request-response

    [Request], [Response], the typed and untyped clients and servers
    ([request.inl], [response.inl], [client_impl.inl], [server_impl.inl],
    [untyped_client_impl.inl], [untyped_server_impl.inl], [base_client.inl],
    [base_server.inl]) on top of the user sides of the ports.  A request or
    response owns a chunk by a pointer to its payload; the header that says who
    asked lies before the payload as the user-header of the chunk. *)

From S2P Require Import Prelude ChunkHeader MemPool MemoryManager SharedChunk UsedChunkList VariantQueue ChunkQueue ChunkDistributor ChunkSender.
From S2P Require Import CaPro PubSubPorts ClientServerPorts UserApi Samples ResponseRouting.

(** ** The ports, headers and payloads of the applications

    A client or server object is the index of its port. *)

Module RpcApplication.
Record t (V : Type) := mk {
  clients : list ClientPortData.t;
  servers : list ServerPortData.t;
  headers : RpcMemory;
  objects : gmap handle V;
  world : World }.
Arguments mk {_} _ _ _ _ _.
Arguments clients {_} _.
Arguments servers {_} _.
Arguments headers {_} _.
Arguments objects {_} _.
Arguments world {_} _.

Section application.
Context {V : Type}.

Definition set_client (i : nat) (c : ClientPortData.t) (st : t V) : t V :=
  mk (<[i := c]> (clients st)) (servers st) (headers st) (objects st) (world st).
Definition set_server (i : nat) (s : ServerPortData.t) (st : t V) : t V :=
  mk (clients st) (<[i := s]> (servers st)) (headers st) (objects st) (world st).
Definition set_headers (m : RpcMemory) (st : t V) : t V :=
  mk (clients st) (servers st) m (objects st) (world st).
Definition set_world (w : World) (st : t V) : t V :=
  mk (clients st) (servers st) (headers st) (objects st) w.
Definition store (p : handle) (v : V) (st : t V) : t V :=
  mk (clients st) (servers st) (headers st) (<[p := v]> (objects st)) (world st).

(** [port()] *)
Definition client (i : nat) (st : t V) : outcome ClientPortData.t :=
  match clients st !! i with Some c => Done c | None => Terminated UNDEFINED_BEHAVIOUR end.
Definition server (i : nat) (st : t V) : outcome ServerPortData.t :=
  match servers st !! i with Some s => Done s | None => Terminated UNDEFINED_BEHAVIOUR end.
End application.
End RpcApplication.
Import RpcApplication.

(** [RequestHeader::fromPayload] and [ResponseHeader::fromPayload]. *)
Definition fromPayload (payload : option handle) (w : World) : outcome (option handle) :=
  let* chunkHeader := fromUserPayload payload w in
  match chunkHeader with Some p => user_header p w | None => Done None end.

(** [ChunkHeader::fromUserPayload(payload)->userHeader()]: a null pointer is
    dereferenced. *)
Definition header_of_payload (payload : option handle) (w : World) : outcome (option handle) :=
  let* chunkHeader := fromUserPayload payload w in
  match chunkHeader with Some p => user_header p w | None => Terminated UNDEFINED_BEHAVIOUR end.

(** [ChunkHeader::fromUserHeader(header)->userPayload()] *)
Definition payload_of_header (header : option handle) (w : World) : outcome handle :=
  match header ≫= chunk_header with
  | Some p => userPayload p w
  | None => Terminated UNDEFINED_BEHAVIOUR
  end.

(** ** Requests and responses *)

(** The lambdas that clients and servers pass as deleters, with the object they
    capture. *)
Inductive RpcDeleter :=
  | ReleaseLoanedRequest (client : nat)
  | ReleaseTakenResponse (client : nat)
  | ReleaseTakenRequest (server : nat)
  | ReleaseLoanedResponse (server : nat).

Definition call_rpc_deleter {V} (d : RpcDeleter) (payload : handle) (st : RpcApplication.t V)
    : outcome (RpcApplication.t V) :=
  let* header := fromPayload (Some payload) (world st) in
  match d with
  | ReleaseLoanedRequest i =>
      let* c := client i st in
      let* '(c, w) := ClientPortUser.releaseRequest header c (world st) in
      Done (set_client i c (set_world w st))
  | ReleaseTakenResponse i =>
      let* c := client i st in
      let* '(c, w) := ClientPortUser.releaseResponse header c (world st) in
      Done (set_client i c (set_world w st))
  | ReleaseTakenRequest i =>
      let* s := server i st in
      let* '(s, w) := ServerPortUser.releaseRequest header s (world st) in
      Done (set_server i s (set_world w st))
  | ReleaseLoanedResponse i =>
      let* s := server i st in
      let* '(s, w) := ServerPortUser.releaseResponse header s (world st) in
      Done (set_server i s (set_world w st))
  end.

(** [Request] and [Response] with the members of [SmartChunk]; one that was taken
    has no producer. *)
Module RpcChunk.
Record t := mk { smartChunkUniquePtr : UniquePtr.t RpcDeleter; producerRef : option nat }.

Definition get (r : t) : option handle := UniquePtr.get (smartChunkUniquePtr r).
Definition release (r : t) : option handle * t :=
  let '(p, u) := UniquePtr.release (smartChunkUniquePtr r) in (p, mk u (producerRef r)).
Definition dtor {V} (r : t) (st : RpcApplication.t V) : outcome (t * RpcApplication.t V) :=
  let* '(u, st) := UniquePtr.reset call_rpc_deleter None (smartChunkUniquePtr r) st in
  Done (mk u (producerRef r), st).

(** [getRequestHeader] and [getResponseHeader]: references, so that no pointer may
    be null. *)
Definition getHeader {V} (r : t) (st : RpcApplication.t V) : outcome handle :=
  let* header := header_of_payload (get r) (world st) in
  match header with Some p => Done p | None => Terminated UNDEFINED_BEHAVIOUR end.
End RpcChunk.

(** [new (chunk.get()) T(args...)]: [v] is the value that the constructor makes. *)
Definition construct {V} (r : RpcChunk.t) (v : V) (st : RpcApplication.t V) : outcome (RpcApplication.t V) :=
  match RpcChunk.get r with
  | Some p => Done (store p v st)
  | None => Terminated UNDEFINED_BEHAVIOUR
  end.

(** ** Clients *)

Module ClientImpl.
Section client.
Context {V : Type}.
Implicit Types (st : RpcApplication.t V).

Definition loanUninitialized (i : nat) (sizeof_Req alignof_Req : Z) st
    : outcome (expected RpcChunk.t AllocationError * RpcApplication.t V) :=
  let* c := client i st in
  let* '(result, c, rpc, w) := ClientPortUser.allocateRequest sizeof_Req alignof_Req c (headers st) (world st) in
  let st := set_client i c (set_headers rpc (set_world w st)) in
  match result with
  | error e => Done (error e, st)
  | success requestHeader =>
      let* payload := payload_of_header requestHeader (world st) in
      Done (success (RpcChunk.mk (UniquePtr.mk (Some payload) (Some (ReleaseLoanedRequest i))) (Some i)), st)
  end.

Definition loan (i : nat) (sizeof_Req alignof_Req : Z) (v : V) st
    : outcome (expected RpcChunk.t AllocationError * RpcApplication.t V) :=
  let* '(result, st) := loanUninitialized i sizeof_Req alignof_Req st in
  match result with
  | error e => Done (error e, st)
  | success request => let* st := construct request v st in Done (success request, st)
  end.

Definition send (rounds : list ChunkDistributor.interference) (i : nat) (request : RpcChunk.t) st
    : outcome (expected unit ClientSendError * RpcChunk.t * RpcApplication.t V) :=
  let '(payload, request) := RpcChunk.release request in
  let* requestHeader := header_of_payload payload (world st) in
  let* c := client i st in
  let* '(result, c, w) := ClientPortUser.sendRequest rounds requestHeader c (world st) in
  Done (result, request, set_client i c (set_world w st)).

Definition take (i : nat) st : outcome (expected RpcChunk.t ChunkReceiveResult * RpcApplication.t V) :=
  let* c := client i st in
  let* '(result, c, w) := ClientPortUser.getResponse c (world st) in
  let st := set_client i c (set_world w st) in
  match result with
  | error e => Done (error e, st)
  | success responseHeader =>
      let* payload := payload_of_header responseHeader (world st) in
      Done (success (RpcChunk.mk (UniquePtr.mk (Some payload) (Some (ReleaseTakenResponse i))) None), st)
  end.

(** [BaseClient] *)
Definition connect (i : nat) st : outcome (RpcApplication.t V) :=
  let* c := client i st in Done (set_client i (ClientPortUser.connect c) st).
Definition disconnect (i : nat) st : outcome (RpcApplication.t V) :=
  let* c := client i st in Done (set_client i (ClientPortUser.disconnect c) st).
Definition getConnectionState (i : nat) st : outcome ConnectionState.t :=
  let* c := client i st in Done (ClientPortUser.getConnectionState c).
Definition hasResponses (i : nat) st : outcome bool :=
  let* c := client i st in ClientPortUser.hasNewResponses c (world st).
Definition hasMissedResponses (i : nat) st : outcome (bool * RpcApplication.t V) :=
  let* c := client i st in
  let* '(b, w) := ClientPortUser.hasLostResponsesSinceLastCall c (world st) in
  Done (b, set_world w st).
Definition releaseQueuedResponses (i : nat) st : outcome (RpcApplication.t V) :=
  let* c := client i st in
  let* w := ClientPortUser.releaseQueuedResponses c (world st) in
  Done (set_world w st).
Definition dtor (i : nat) st : outcome (RpcApplication.t V) :=
  let* c := client i st in
  Done (set_client i (ClientPortData.set_base (BasePortData.destroy (ClientPortData.base c)) c) st).
End client.
End ClientImpl.

(** [Request::send] *)
Definition request_send {V} (rounds : list ChunkDistributor.interference) (request : RpcChunk.t) (st : RpcApplication.t V)
    : outcome (expected unit ClientSendError * RpcChunk.t * RpcApplication.t V) :=
  if UniquePtr.operator_bool (RpcChunk.smartChunkUniquePtr request) then
    match RpcChunk.producerRef request with
    | Some i => ClientImpl.send rounds i request st
    | None => Terminated UNDEFINED_BEHAVIOUR
    end
  else Done (error INVALID_REQUEST, request,
             set_world (report_world POSH__SENDING_EMPTY_REQUEST MODERATE (world st)) st).

Module UntypedClientImpl.
Section client.
Context {V : Type}.
Implicit Types (st : RpcApplication.t V).

Definition loan (i : nat) (payloadSize payloadAlignment : Z) st
    : outcome (expected handle AllocationError * RpcApplication.t V) :=
  let* c := client i st in
  let* '(result, c, rpc, w) := ClientPortUser.allocateRequest payloadSize payloadAlignment c (headers st) (world st) in
  let st := set_client i c (set_headers rpc (set_world w st)) in
  match result with
  | error e => Done (error e, st)
  | success requestHeader => let* payload := payload_of_header requestHeader (world st) in Done (success payload, st)
  end.

Definition releaseRequest (i : nat) (requestPayload : option handle) st : outcome (RpcApplication.t V) :=
  let* chunkHeader := fromUserPayload requestPayload (world st) in
  match chunkHeader with
  | None => Done st
  | Some p =>
      let* header := user_header p (world st) in
      let* c := client i st in
      let* '(c, w) := ClientPortUser.releaseRequest header c (world st) in
      Done (set_client i c (set_world w st))
  end.

Definition send (rounds : list ChunkDistributor.interference) (i : nat) (requestPayload : option handle) st
    : outcome (expected unit ClientSendError * RpcApplication.t V) :=
  let* chunkHeader := fromUserPayload requestPayload (world st) in
  match chunkHeader with
  | None => Done (error INVALID_REQUEST, st)
  | Some p =>
      let* header := user_header p (world st) in
      let* c := client i st in
      let* '(result, c, w) := ClientPortUser.sendRequest rounds header c (world st) in
      Done (result, set_client i c (set_world w st))
  end.

Definition take (i : nat) st : outcome (expected handle ChunkReceiveResult * RpcApplication.t V) :=
  let* c := client i st in
  let* '(result, c, w) := ClientPortUser.getResponse c (world st) in
  let st := set_client i c (set_world w st) in
  match result with
  | error e => Done (error e, st)
  | success responseHeader => let* payload := payload_of_header responseHeader (world st) in Done (success payload, st)
  end.

Definition releaseResponse (i : nat) (responsePayload : option handle) st : outcome (RpcApplication.t V) :=
  let* chunkHeader := fromUserPayload responsePayload (world st) in
  match chunkHeader with
  | None => Done st
  | Some p =>
      let* header := user_header p (world st) in
      let* c := client i st in
      let* '(c, w) := ClientPortUser.releaseResponse header c (world st) in
      Done (set_client i c (set_world w st))
  end.
End client.
End UntypedClientImpl.

(** ** Servers *)

Module ServerImpl.
Section server.
Context {V : Type}.
Implicit Types (st : RpcApplication.t V).

Definition take (i : nat) st : outcome (expected RpcChunk.t ServerRequestResult * RpcApplication.t V) :=
  let* s := server i st in
  let* '(result, s, w) := ServerPortUser.getRequest s (world st) in
  let st := set_server i s (set_world w st) in
  match result with
  | error e => Done (error e, st)
  | success requestHeader =>
      let* payload := payload_of_header requestHeader (world st) in
      Done (success (RpcChunk.mk (UniquePtr.mk (Some payload) (Some (ReleaseTakenRequest i))) None), st)
  end.

Definition loanUninitialized (i : nat) (request : RpcChunk.t) (sizeof_Res alignof_Res : Z) st
    : outcome (expected RpcChunk.t AllocationError * RpcApplication.t V) :=
  let* requestHeader := RpcChunk.getHeader request st in
  let* s := server i st in
  let* '(result, s, rpc, w) :=
    ServerPortUser.allocateResponse (Some requestHeader) sizeof_Res alignof_Res s (headers st) (world st) in
  let st := set_server i s (set_headers rpc (set_world w st)) in
  match result with
  | error e => Done (error e, st)
  | success responseHeader =>
      let* payload := payload_of_header responseHeader (world st) in
      Done (success (RpcChunk.mk (UniquePtr.mk (Some payload) (Some (ReleaseLoanedResponse i))) (Some i)), st)
  end.

Definition loan (i : nat) (request : RpcChunk.t) (sizeof_Res alignof_Res : Z) (v : V) st
    : outcome (expected RpcChunk.t AllocationError * RpcApplication.t V) :=
  let* '(result, st) := loanUninitialized i request sizeof_Res alignof_Res st in
  match result with
  | error e => Done (error e, st)
  | success response => let* st := construct response v st in Done (success response, st)
  end.

Definition send (rounds : list ChunkDistributor.interference) (i : nat) (response : RpcChunk.t) st
    : outcome (expected unit ServerSendError * RpcChunk.t * RpcApplication.t V) :=
  let '(payload, response) := RpcChunk.release response in
  let* responseHeader := header_of_payload payload (world st) in
  let* s := server i st in
  let* '(result, s, rpc, w) := ServerPortUser.sendResponse rounds responseHeader s (headers st) (world st) in
  Done (result, response, set_server i s (set_headers rpc (set_world w st))).

(** [BaseServer] *)
Definition offer (i : nat) st : outcome (RpcApplication.t V) :=
  let* s := server i st in Done (set_server i (ServerPortUser.offer s) st).
Definition stopOffer (i : nat) st : outcome (RpcApplication.t V) :=
  let* s := server i st in Done (set_server i (ServerPortUser.stopOffer s) st).
Definition isOffered (i : nat) st : outcome bool :=
  let* s := server i st in Done (ServerPortUser.isOffered s).
Definition hasClients (i : nat) st : outcome bool :=
  let* s := server i st in Done (ServerPortUser.hasClients s).
Definition hasRequests (i : nat) st : outcome bool :=
  let* s := server i st in ServerPortUser.hasNewRequests s (world st).
Definition hasMissedRequests (i : nat) st : outcome (bool * RpcApplication.t V) :=
  let* s := server i st in
  let* '(b, w) := ServerPortUser.hasLostRequestsSinceLastCall s (world st) in
  Done (b, set_world w st).
Definition releaseQueuedRequests (i : nat) st : outcome (RpcApplication.t V) :=
  let* s := server i st in
  let* w := ServerPortUser.releaseQueuedRequests s (world st) in
  Done (set_world w st).
Definition dtor (i : nat) st : outcome (RpcApplication.t V) :=
  let* s := server i st in
  Done (set_server i (ServerPortData.set_base (BasePortData.destroy (ServerPortData.base s)) s) st).
End server.
End ServerImpl.

(** [Response::send] *)
Definition response_send {V} (rounds : list ChunkDistributor.interference) (response : RpcChunk.t) (st : RpcApplication.t V)
    : outcome (expected unit ServerSendError * RpcChunk.t * RpcApplication.t V) :=
  if UniquePtr.operator_bool (RpcChunk.smartChunkUniquePtr response) then
    match RpcChunk.producerRef response with
    | Some i => ServerImpl.send rounds i response st
    | None => Terminated UNDEFINED_BEHAVIOUR
    end
  else Done (error INVALID_RESPONSE, response,
             set_world (report_world POSH__SENDING_EMPTY_RESPONSE MODERATE (world st)) st).

Module UntypedServerImpl.
Section server.
Context {V : Type}.
Implicit Types (st : RpcApplication.t V).

Definition take (i : nat) st : outcome (expected handle ServerRequestResult * RpcApplication.t V) :=
  let* s := server i st in
  let* '(result, s, w) := ServerPortUser.getRequest s (world st) in
  let st := set_server i s (set_world w st) in
  match result with
  | error e => Done (error e, st)
  | success requestHeader => let* payload := payload_of_header requestHeader (world st) in Done (success payload, st)
  end.

Definition releaseRequest (i : nat) (requestPayload : option handle) st : outcome (RpcApplication.t V) :=
  let* chunkHeader := fromUserPayload requestPayload (world st) in
  match chunkHeader with
  | None => Done st
  | Some p =>
      let* header := user_header p (world st) in
      let* s := server i st in
      let* '(s, w) := ServerPortUser.releaseRequest header s (world st) in
      Done (set_server i s (set_world w st))
  end.

Definition loan (i : nat) (requestHeader : option handle) (payloadSize payloadAlignment : Z) st
    : outcome (expected handle AllocationError * RpcApplication.t V) :=
  let* s := server i st in
  let* '(result, s, rpc, w) :=
    ServerPortUser.allocateResponse requestHeader payloadSize payloadAlignment s (headers st) (world st) in
  let st := set_server i s (set_headers rpc (set_world w st)) in
  match result with
  | error e => Done (error e, st)
  | success responseHeader => let* payload := payload_of_header responseHeader (world st) in Done (success payload, st)
  end.

Definition send (rounds : list ChunkDistributor.interference) (i : nat) (responsePayload : option handle) st
    : outcome (expected unit ServerSendError * RpcApplication.t V) :=
  let* chunkHeader := fromUserPayload responsePayload (world st) in
  match chunkHeader with
  | None => Done (error INVALID_RESPONSE, st)
  | Some p =>
      let* header := user_header p (world st) in
      let* s := server i st in
      let* '(result, s, rpc, w) := ServerPortUser.sendResponse rounds header s (headers st) (world st) in
      Done (result, set_server i s (set_headers rpc (set_world w st)))
  end.

Definition releaseResponse (i : nat) (responsePayload : option handle) st : outcome (RpcApplication.t V) :=
  let* chunkHeader := fromUserPayload responsePayload (world st) in
  match chunkHeader with
  | None => Done st
  | Some p =>
      let* header := user_header p (world st) in
      let* s := server i st in
      let* '(s, w) := ServerPortUser.releaseResponse header s (world st) in
      Done (set_server i s (set_world w st))
  end.
End server.
End UntypedServerImpl.

(** ** Headers and payloads *)

Section headers.

(** The request or response [r] holds the chunk [x], whose header is at [a] and
    which has room for the header of a request or response. *)
Definition carries (w : World) (r : RpcChunk.t) (x : handle) (a : Z) : Prop :=
  exists hd, chunk_view (heap w) x = Some (a, hd) /\ ChunkHeader.userHeader a hd = Some (a + SIZEOF_CHUNK_HEADER) /\
    RpcChunk.get r = Some (fst x, ChunkHeader.userPayload a hd).

Lemma user_header_ok w x a hd : chunk_view (heap w) x = Some (a, hd) ->
  ChunkHeader.userHeader a hd = Some (a + SIZEOF_CHUNK_HEADER) -> user_header (fst x, a) w = Done (Some (rpc_pointer x a)).
Proof. intros Hv Hu. unfold user_header. rewrite (read_header_ok _ _ _ _ Hv). cbn [obind snd]. by rewrite Hu. Qed.

(** The way from the payload to the header of a request or response... *)
Lemma header_of_payload_ok w o r x a : Balanced (heap w) o -> x ∈ o -> carries w r x a ->
  header_of_payload (RpcChunk.get r) w = Done (Some (rpc_pointer x a)).
Proof.
  intros Hb Hx (hd & Hv & Hu & ->). unfold header_of_payload. rewrite <- (getUserPayload_view _ _ _ _ Hv).
  rewrite (fromUserPayload_owned _ _ _ _ _ Hb Hx Hv). cbn [obind]. by eapply user_header_ok.
Qed.

(** ... and back. *)
Lemma payload_of_header_ok w o x a hd : Balanced (heap w) o -> x ∈ o -> chunk_view (heap w) x = Some (a, hd) ->
  payload_of_header (Some (rpc_pointer x a)) w = Done (fst x, ChunkHeader.userPayload a hd).
Proof.
  intros Hb Hx Hv. unfold payload_of_header. cbn [mbind option_bind]. rewrite (chunk_header_pointer _ _ _ _ _ Hb Hx Hv). by apply userPayload_ok.
Qed.

Lemma getHeader_ok {V} (st : RpcApplication.t V) o r x a : Balanced (heap (world st)) o -> x ∈ o -> carries (world st) r x a ->
  RpcChunk.getHeader r st = Done (rpc_pointer x a).
Proof. intros Hb Hx Hc. unfold RpcChunk.getHeader. by rewrite (header_of_payload_ok _ _ _ _ _ Hb Hx Hc). Qed.

Lemma create_header_size ps pa hs ha settings : ChunkSettings.create ps pa hs ha = success settings ->
  ChunkSettings.userHeaderSize settings = hs.
Proof. unfold ChunkSettings.create. repeat case_match; by intros [= <-]. Qed.
End headers.

(** ** Answering a request *)

Section answer.
Import ServerPortData.
Context {V : Type}.
Implicit Types (st : RpcApplication.t V) (contents : list (list handle)) (hist o : list handle).

(** The header of a response is made from the header of its request. *)
Definition answer_header (request : RpcHeader.t) : RpcHeader.t :=
  RpcHeader.ResponseHeader (RpcHeader.m_uniqueClientQueueId request) (RpcHeader.m_lastKnownClientQueueIndex request)
    (RpcHeader.m_sequenceId request).

Lemma allocateResponse_ok r ps pa s hist rpc w contents n o header :
  SenderInv (m_chunkSenderData s) hist w -> WorldInv w contents n ->
  Balanced (heap w) (owned contents ++ sender_owned (m_chunkSenderData s) hist ++ o) ->
  headroom (owned contents ++ sender_owned (m_chunkSenderData s) hist ++ o) 4 -> 0 <= ps < 2 ^ 32 -> 0 <= pa < 2 ^ 32 ->
  rpc !! r = Some header ->
  exists res v rpc' w', ServerPortUser.allocateResponse (Some r) ps pa s rpc w = Done (res, set_sender v s, rpc', w') /\
    SenderInv v hist w' /\ same_sender (m_chunkSenderData s) v /\
    match res with
    | success u => exists x a hd, u = Some (rpc_pointer x a) /\ rpc' = <[rpc_pointer x a := answer_header header]> rpc /\
        chunk_view (heap w') x = Some (a, hd) /\ ChunkHeader.userHeader a hd = Some (a + SIZEOF_CHUNK_HEADER) /\
        user_chunks v ≡ₚ x :: user_chunks (m_chunkSenderData s) /\
        x ∉ owned contents ++ hist ++ user_chunks (m_chunkSenderData s) ++ o /\
        changes x w w' contents n (sender_owned v hist ++ o)
    | error _ => rpc' = rpc /\ unchanged (m_chunkSenderData s) v hist w w' contents n o
    end.
Proof.
  intros HS HW Hb Hh H1 H2 Hr. unfold ServerPortUser.allocateResponse.
  destruct (tryAllocate_ok (BasePortData.m_uniqueId (base s)) ps pa RpcHeader.SIZEOF_RESPONSE_HEADER RpcHeader.ALIGNOF_RPC_HEADER
    (m_chunkSenderData s) hist w contents n o HS HW Hb Hh H1 H2) as (res & v & w' & -> & HS' & Hsame & Hres); [done|done|].
  cbn [obind]. destruct res as [p|e].
  - destruct Hres as (settings & Ec & origin & (x & a & hd & -> & Hu & Hv & _ & _ & (_ & _ & _ & Hf) & Hx & C) & _).
    rewrite (create_header_size _ _ _ _ _ Ec), decide_False in Hf by done. rewrite (user_header_ok _ _ _ _ Hv Hf). cbn [obind].
    unfold read_rpc. rewrite Hr. cbn [obind]. eexists _, _, _, _. split; [done|]. split; [done|]. split; [done|]. by exists x, a, hd.
  - eexists _, _, _, _. by split_and!.
Qed.

(** Loaning a response for the request in [y]. *)
Lemma response_loan_ok i request sz al v st s hist contents n o y b header :
  servers st !! i = Some s -> SenderInv (m_chunkSenderData s) hist (world st) -> WorldInv (world st) contents n ->
  Balanced (heap (world st)) (owned contents ++ sender_owned (m_chunkSenderData s) hist ++ o) ->
  headroom (owned contents ++ sender_owned (m_chunkSenderData s) hist ++ o) 4 -> 0 <= sz < 2 ^ 32 -> 0 <= al < 2 ^ 32 ->
  y ∈ o -> carries (world st) request y b -> headers st !! rpc_pointer y b = Some header ->
  exists r st' u, ServerImpl.loan i request sz al v st = Done (r, st') /\ servers st' = <[i := set_sender u s]> (servers st) /\
    SenderInv u hist (world st') /\ same_sender (m_chunkSenderData s) u /\
    match r with
    | success response => exists x a p, carries (world st') response x a /\ RpcChunk.producerRef response = Some i /\
        RpcChunk.get response = Some p /\ objects st' = <[p := v]> (objects st) /\
        headers st' = <[rpc_pointer x a := answer_header header]> (headers st) /\
        user_chunks u ≡ₚ x :: user_chunks (m_chunkSenderData s) /\
        x ∉ owned contents ++ hist ++ user_chunks (m_chunkSenderData s) ++ o /\
        changes x (world st) (world st') contents n (sender_owned u hist ++ o)
    | error _ => headers st' = headers st /\ objects st' = objects st /\
        unchanged (m_chunkSenderData s) u hist (world st) (world st') contents n o
    end.
Proof.
  intros Hs HS HW Hb Hh H1 H2 Hy Hc Hhd. unfold ServerImpl.loan, ServerImpl.loanUninitialized.
  rewrite (getHeader_ok st _ request y b Hb); [|rewrite !elem_of_app; tauto|done]. cbn [obind].
  unfold server. rewrite Hs. cbn [obind].
  destruct (allocateResponse_ok (rpc_pointer y b) sz al s hist (headers st) (world st) contents n o header HS HW Hb Hh H1 H2 Hhd)
    as (res & u & rpc' & w' & -> & HS' & Hsame & Hres). cbn [obind].
  destruct res as [p|e].
  - destruct Hres as (x & a & hd & -> & -> & Hv & Hu & Hus & Hx & C).
    assert (Hin : x ∈ owned contents ++ sender_owned u hist ++ o).
    { unfold sender_owned. rewrite !elem_of_app, Hus, elem_of_cons. tauto. }
    cbn [world set_server set_headers set_world]. rewrite (payload_of_header_ok _ _ _ _ _ (ch_bal _ _ _ _ _ _ C) Hin Hv). cbn [obind].
    eexists _, _, u. split; [done|]. split; [done|]. split; [done|]. split; [done|].
    exists x, a, (fst x, ChunkHeader.userPayload a hd). split; [by exists hd|]. by split_and!.
  - destruct Hres as [-> Hun]. eexists _, _, u. by split_and!.
Qed.

(** Sending it. *)
Lemma response_send_ok rounds i response st s hist contents n o x a header :
  servers st !! i = Some s -> SenderInv (m_chunkSenderData s) hist (world st) -> WorldInv (world st) contents n ->
  Balanced (heap (world st)) (owned contents ++ sender_owned (m_chunkSenderData s) hist ++ o) ->
  headroom (owned contents ++ sender_owned (m_chunkSenderData s) hist ++ o) 6 -> 2 <= n ->
  x ∈ user_chunks (m_chunkSenderData s) -> carries (world st) response x a -> RpcChunk.producerRef response = Some i ->
  headers st !! rpc_pointer x a = Some header -> 0 <= RpcHeader.m_lastKnownClientQueueIndex header ->
  unique_ids (stored s) (world st) ->
  (forall q, q ∈ stored s -> ChunkDistributor.stays (ChunkDistributor.waits (ChunkSender.dist (m_chunkSenderData s)))
     (queues (world st)) contents x q = false) ->
  exists res response' st' s' contents', response_send rounds response st = Done (res, response', st') /\
    RpcChunk.get response' = None /\ servers st' = <[i := s']> (servers st) /\ objects st' = objects st /\
    SenderInv (m_chunkSenderData s') hist (world st') /\ WorldInv (world st') contents' (n - 2) /\
    Balanced (heap (world st')) (owned contents' ++ sender_owned (m_chunkSenderData s') hist ++ o) /\
    user_chunks (m_chunkSenderData s) ≡ₚ x :: user_chunks (m_chunkSenderData s') /\
    routed s (world st) contents x (RpcHeader.m_uniqueClientQueueId header) res contents' /\
    (res = success () -> carries (world st') response x a /\
       exists k, headers st' !! rpc_pointer x a = Some (RpcHeader.set_index k header)).
Proof.
  intros Hs HS HW Hb Hh Hn Hx Hc Hi Hhd Hlast Hu Hst. pose proof Hc as (hd & Hv & Huh & Hget).
  assert (Hin : x ∈ owned contents ++ sender_owned (m_chunkSenderData s) hist ++ o) by (unfold sender_owned; rewrite !elem_of_app; tauto).
  unfold response_send. unfold UniquePtr.operator_bool. change (UniquePtr.m_ptr (RpcChunk.smartChunkUniquePtr response)) with (RpcChunk.get response).
  rewrite bool_decide_true by (by rewrite Hget). rewrite Hi. unfold ServerImpl.send, RpcChunk.release, UniquePtr.release.
  change (UniquePtr.m_ptr (RpcChunk.smartChunkUniquePtr response)) with (RpcChunk.get response).
  rewrite (header_of_payload_ok _ _ _ _ _ Hb Hin Hc). cbn [obind]. unfold server. rewrite Hs. cbn [obind].
  destruct (sendResponse_ok rounds s hist (headers st) (world st) contents n o x a hd header HS HW Hb Hh Hn Hx Hv Hhd Hlast Hu Hst)
    as (res & s' & rpc' & w' & contents' & -> & HS' & HW' & Hb' & Hu' & Hr & Hsucc).
  cbn [obind]. eexists _, _, _, _, _. split; [done|]. split; [done|]. split; [done|]. split; [done|].
  split; [done|]. split; [done|]. split; [done|]. split; [done|]. split; [done|]. intros Hres.
  destruct (Hsucc Hres) as [[k ->] Hv']. split; [by exists (ChunkHeader.setSequenceNumber (ChunkSender.m_sequenceNumber (m_chunkSenderData s)) hd)|].
  exists k. apply lookup_insert_eq.
Qed.
End answer.

(** ** Properties *)

Section properties.
Import ServerPortData.
Context {V : Type}.
Implicit Types (st : RpcApplication.t V).

(** C8: an answer reaches the client that asked.  A server that offers its service
    holds a request whose header names a connected response queue.  It loans a
    response for it, which either fails and leaves everything as it was, or gives a
    response with the header made from that of the request and the value in its
    payload; sending this response succeeds whatever the server remembers about
    the position of the queue, empties the response object, gives the chunk back
    from the server's list, and the only queue that changes is that of the asking
    client, where the chunk is now the newest element: its payload pointer still
    leads to the value and to a header with the sequence id of the request. *)
Theorem answer_reaches_asker rounds i request sz al v st s hist contents n o y b header q d hs :
  servers st !! i = Some s -> m_offeringRequested s = true ->
  SenderInv (m_chunkSenderData s) hist (world st) -> WorldInv (world st) contents n ->
  Balanced (heap (world st)) (owned contents ++ sender_owned (m_chunkSenderData s) hist ++ o) ->
  headroom (owned contents ++ sender_owned (m_chunkSenderData s) hist ++ o) 7 -> 2 <= n ->
  0 <= sz < 2 ^ 32 -> 0 <= al < 2 ^ 32 ->
  y ∈ o -> carries (world st) request y b -> headers st !! rpc_pointer y b = Some header ->
  0 <= RpcHeader.m_lastKnownClientQueueIndex header -> unique_ids (stored s) (world st) ->
  q ∈ stored s -> has_id (world st) (RpcHeader.m_uniqueClientQueueId header) q ->
  queues (world st) !! q = Some d -> contents !! q = Some hs ->
  (forall x q', q' ∈ stored s ->
     ChunkDistributor.stays (ChunkDistributor.waits (ChunkSender.dist (m_chunkSenderData s))) (queues (world st)) contents x q' = false) ->
  exists r st1, ServerImpl.loan i request sz al v st = Done (r, st1) /\
    match r with
    | error _ => exists u, servers st1 = <[i := set_sender u s]> (servers st) /\ headers st1 = headers st /\
        objects st1 = objects st /\ WorldInv (world st1) contents n /\
        Balanced (heap (world st1)) (owned contents ++ sender_owned u hist ++ o) /\
        user_chunks u ≡ₚ user_chunks (m_chunkSenderData s)
    | success response => exists x a p response' st2 s2,
        let contents' := <[q := snd (queue_push d hs x)]> contents in
        response_send rounds response st1 = Done (success (), response', st2) /\
        RpcChunk.get response = Some p /\ RpcChunk.get response' = None /\ servers st2 = <[i := s2]> (servers st) /\
        user_chunks (m_chunkSenderData s2) ≡ₚ user_chunks (m_chunkSenderData s) /\
        SenderInv (m_chunkSenderData s2) hist (world st2) /\ WorldInv (world st2) contents' (n - 2) /\
        Balanced (heap (world st2)) (owned contents' ++ sender_owned (m_chunkSenderData s2) hist ++ o) /\
        carries (world st2) response x a /\ objects st2 !! p = Some v /\
        exists k, headers st2 !! rpc_pointer x a = Some (RpcHeader.set_index k (answer_header header))
    end.
Proof.
  intros Hs Hoff HS HW Hb Hh Hn H1 H2 Hy Hc Hhd Hlast Huniq Hq Hid Hd Hhs Hst.
  destruct (response_loan_ok i request sz al v st s hist contents n o y b header Hs HS HW Hb) as (r & st1 & u & -> & Es & HS1 & Hsame & Hr);
    try done; [unfold headroom in *; lia|].
  eexists _, _. split; [done|]. destruct r as [response|e].
  2:{ destruct Hr as (E1 & E2 & HW1 & Hu1 & Hb1 & _). by exists u. }
  destruct Hr as (x & a & p & Hcar & Hprod & Hget & Hobj & Hhdr & Hus & Hx & C).
  pose proof (ch_queues _ _ _ _ _ _ C) as Sq. destruct Hsame as (Ed & _ & _ & _ & El).
  assert (Hstored : stored (set_sender u s) = stored s) by (unfold stored; simpl; by rewrite Ed).
  destruct (response_send_ok rounds i response st1 (set_sender u s) hist contents n o x a (answer_header header))
    as (res & response' & st2 & s2 & contents' & Esend & Hget' & Es2 & Hobj2 & HS2 & HW2 & Hb2 & Hus2 & Hrt & Hsucc); try done.
  { rewrite Es. apply list_lookup_insert_eq. by eapply lookup_lt_Some. }
  { apply C. } { apply C. }
  { unfold headroom, sender_owned, last_chunk in *. simpl. rewrite El. rewrite !length_app in *. rewrite Hus. simpl. lia. }
  { simpl. rewrite Hus. by left. }
  { rewrite Hhdr. apply lookup_insert_eq. }
  { rewrite Hstored. by eapply unique_ids_same. }
  { rewrite Hstored. intros q' Hq'. simpl. rewrite Ed, (ChunkDistributor.stays_same _ _ Sq). by apply Hst. }
  destruct (Forall2_lookup_l _ _ _ _ _ Sq Hd) as (d' & Hd' & Sd).
  unfold routed in Hrt. cbn [m_offeringRequested set_sender] in Hrt. rewrite Hoff in Hrt. simpl negb in Hrt. destruct Hrt as [Hrt _].
  destruct (Hrt q d' hs) as [-> ->]; [by rewrite Hstored|by eapply has_id_same|done|done|].
  rewrite (ChunkDistributor.same_push _ _ _ _ Sd) in *. destruct (Hsucc eq_refl) as [Hcar2 Hk].
  exists x, a, p, response', st2, s2. split; [done|]. split; [done|]. split; [done|].
  split; [by rewrite Es2, Es, list_insert_insert_eq|].
  split. { apply (Permutation_cons_inv (a := x)). rewrite <- Hus2. simpl. by rewrite Hus. }
  split; [done|]. split; [done|]. split; [done|]. split; [done|]. split; [|done].
  rewrite Hobj2, Hobj. apply lookup_insert_eq.
Qed.

(** Sending an empty request or response, one that was sent or moved before.
    [Request::send] and [Response::send] report it and return INVALID_REQUEST or
    INVALID_RESPONSE, the untyped [send] of a null pointer returns the same error,
    but [ClientImpl::send] and [ServerImpl::send], which are public as well,
    dereference a null pointer, and so does [ServerImpl::loan] for an empty
    request. *)
Theorem empty_send rounds i r sz al v st : RpcChunk.get r = None ->
  request_send rounds r st =
    Done (error INVALID_REQUEST, r, set_world (report_world POSH__SENDING_EMPTY_REQUEST MODERATE (world st)) st) /\
  response_send rounds r st =
    Done (error INVALID_RESPONSE, r, set_world (report_world POSH__SENDING_EMPTY_RESPONSE MODERATE (world st)) st) /\
  UntypedClientImpl.send rounds i (RpcChunk.get r) st = Done (error INVALID_REQUEST, st) /\
  UntypedServerImpl.send rounds i (RpcChunk.get r) st = Done (error INVALID_RESPONSE, st) /\
  ClientImpl.send rounds i r st = Terminated UNDEFINED_BEHAVIOUR /\
  ServerImpl.send rounds i r st = Terminated UNDEFINED_BEHAVIOUR /\
  ServerImpl.loan i r sz al v st = Terminated UNDEFINED_BEHAVIOUR.
Proof. destruct r as [[p del] c]. simpl. intros E. unfold RpcChunk.get, UniquePtr.get in E. simpl in E. by subst. Qed.

End properties.

(** ** Examples *)

(** A segment with one request in use. *)
Definition request_settings : ChunkSettings.t :=
  match ChunkSettings.create 8 8 RpcHeader.SIZEOF_REQUEST_HEADER RpcHeader.ALIGNOF_RPC_HEADER with
  | success s => s
  | error _ => ChunkSettings.mk 0 0 0 0 0
  end.

Lemma sample_request : exists h x a hd, Balanced h [x] /\ length (segs h) = 1%nat /\ chunk_view h x = Some (a, hd) /\
  ChunkHeader.userHeader a hd = Some (a + SIZEOF_CHUNK_HEADER).
Proof.
  destruct (MemoryManager.configure_valid MemoryManager.small_config 4096 224 8192 376 376)
    as (m & ma & ca & E & H & _); [exact MemoryManager.small_config_ok|reflexivity|lia|by exists 512|lia|lia|
      by exists 1024|lia|vm_compute; congruence|lia|].
  assert (Hb : Balanced (mkHeap [m] []) []).
  { constructor; simpl; [|intros x Hx; by apply elem_of_nil in Hx|unfold MAX_SHM_SEGMENTS; lia].
    intros [|s] m0 Hm0; simplify_eq/=. exact H. }
  destruct (getChunk_ok (mkHeap [m] []) [] 0 request_settings Hb) as (r & h & Eg & [L _] & Hr); [simpl; lia| |].
  { apply (ChunkSettings.create_valid 8 8 RpcHeader.SIZEOF_REQUEST_HEADER RpcHeader.ALIGNOF_RPC_HEADER); done. }
  destruct r as [c|e].
  - destruct Hr as (x & hd & a & _ & _ & Hb' & Hv & (_ & _ & _ & _ & _ & _ & Hf) & _). exists h, x, a, hd. by split_and!.
  - exfalso. vm_compute in E. injection E as <- _ _. vm_compute in Eg. discriminate.
Qed.

Definition sample_base (name : string) : BasePortData.t :=
  BasePortData.mk (ServiceDescription.ctor "Math" "Add" "Sum" [0; 0; 0; 0] Interfaces.INTERNAL) name "node" 1 false.

(** A server that is connected to the queue 0, which has the id 7, holds a request
    that names this queue. *)
Lemma answer_reaches_asker_witness : exists (st : RpcApplication.t Z) request r st1, ServerImpl.loan 0 request 8 8 42 st = Done (r, st1).
Proof.
  destruct sample_request as (h & y & b & hd & Hb & Hseg & Hv & Hu). destruct sample_used as (u & Hused & Hheld & _).
  set (d := ChunkQueueData.ctor 7 2 QueueFullPolicy.DISCARD_OLDEST_DATA SoFi_MultiProducerSingleConsumer).
  pose proof (queue_ctor_rep 7 2 QueueFullPolicy.DISCARD_OLDEST_DATA SoFi_MultiProducerSingleConsumer ltac:(lia)) as Hq. fold d in Hq.
  set (w := mkWorld h [d] []).
  assert (HW : WorldInv w [[]] 1000).
  { apply worldinv_less with (2 ^ 61); [|lia]. constructor; simpl; try lia; repeat constructor; apply Hq. }
  set (s := ServerPortData.mk (sample_base "server") (sample_sender [0%nat] u ShmSafeUnmanagedChunk.null) (ChunkReceiver.mk 1 4 u) true true).
  set (header := RpcHeader.RequestHeader 7 RpcHeader.UNKNOWN_CLIENT_QUEUE_INDEX).
  set (st := RpcApplication.mk [] [s] (<[rpc_pointer y b := header]> (∅ : RpcMemory)) (∅ : gmap handle Z) w).
  set (request := RpcChunk.mk (UniquePtr.mk (Some (fst y, ChunkHeader.userPayload b hd)) (Some (ReleaseTakenRequest 0))) None).
  destruct (answer_reaches_asker [] 0 request 8 8 42 st s [] [[]] 1000 [y] y b header 0%nat d []) as (r & st1 & E & _); try done; try lia.
  - apply sample_senderinv; [apply NoDup_singleton|apply Forall_singleton; simpl; lia|simpl; lia|done|simpl; lia].
  - unfold sender_owned, user_chunks, last_chunk, owned. simpl. by rewrite Hheld.
  - unfold headroom, sender_owned, user_chunks, last_chunk, owned. simpl. rewrite Hheld. simpl. lia.
  - by left.
  - by exists hd.
  - apply lookup_insert_eq.
  - intros id q1 q2 ->%list_elem_of_singleton ->%list_elem_of_singleton. done.
  - by left.
  - by exists d.
  - intros x q' _. unfold ChunkDistributor.stays, ChunkDistributor.blocking. simpl. destruct q' as [|[|q']]; by rewrite andb_false_r.
  - by exists st, request, r, st1.
Defined.

Lemma empty_send_witness : exists (st : RpcApplication.t Z) r, ClientImpl.send [] 0 r st = Terminated UNDEFINED_BEHAVIOUR.
Proof.
  set (st := RpcApplication.mk [] [] (∅ : RpcMemory) (∅ : gmap handle Z) (mkWorld (mkHeap [] []) [] [])).
  set (r := RpcChunk.mk (UniquePtr.mk None (Some (ReleaseLoanedRequest 0))) (Some 0%nat)).
  exists st, r. apply (empty_send [] 0 r 8 8 0 st eq_refl).
Defined.

(** A conversation: two clients ask the same server, which answers the second
    request first.  The response queues are 0 and 1, the request queue is 2. *)
Definition ask (i : nat) (v : Z) (st : RpcApplication.t Z) : outcome (RpcApplication.t Z) :=
  let* '(r, st) := ClientImpl.loan i 8 8 v st in
  match r with
  | error _ => Done st
  | success request => let* '(_, _, st) := request_send [] request st in Done st
  end.

Definition accept (st : RpcApplication.t Z) : outcome (option RpcChunk.t * RpcApplication.t Z) :=
  let* '(r, st) := ServerImpl.take 0 st in
  match r with error _ => Done (None, st) | success request => Done (Some request, st) end.

(** The answer is ten times the request; the request is destroyed afterwards. *)
Definition answer (request : option RpcChunk.t) (st : RpcApplication.t Z) : outcome (RpcApplication.t Z) :=
  match request with
  | None => Done st
  | Some request =>
      let v := default 0 (RpcChunk.get request ≫= fun p => objects st !! p) in
      let* '(r, st) := ServerImpl.loan 0 request 8 8 (10 * v) st in
      let* st := match r with
                 | error _ => Done st
                 | success response => let* '(_, _, st) := response_send [] response st in Done st
                 end in
      let* '(_, st) := RpcChunk.dtor request st in Done st
  end.

Definition listen (i : nat) (st : RpcApplication.t Z) : outcome (option Z * RpcApplication.t Z) :=
  let* '(r, st) := ClientImpl.take i st in
  match r with
  | error _ => Done (None, st)
  | success response =>
      let v := RpcChunk.get response ≫= fun p => objects st !! p in
      let* '(_, st) := RpcChunk.dtor response st in Done (v, st)
  end.

Example sample_conversation :
  (let* '(m, _, _) := MemoryManager.configureMemoryManager MemoryManager.ctor [MePooConfig.mkEntry 128 8]
                        (Allocator.ctor 4096 4000) (Allocator.ctor 8192 4000) in
   let* '(u, h) := UsedChunkList.ctor 4 (mkHeap [m] []) in
   let d id := ChunkQueueData.ctor id 4 QueueFullPolicy.DISCARD_OLDEST_DATA SoFi_MultiProducerSingleConsumer in
   let sender qs := sample_sender qs u ShmSafeUnmanagedChunk.null in
   let c q := ClientPortData.mk (sample_base "client") (sender [2%nat]) (ChunkReceiver.mk q 4 u) true ConnectionState.CONNECTED in
   let s := ServerPortData.mk (sample_base "server") (sender [0%nat; 1%nat]) (ChunkReceiver.mk 2 4 u) true true in
   let st := RpcApplication.mk [c 0%nat; c 1%nat] [s] (∅ : RpcMemory) (∅ : gmap handle Z) (mkWorld h [d 7; d 8; d 9] []) in
   let* st := ask 0 4 st in
   let* st := ask 1 5 st in
   let* '(request0, st) := accept st in
   let* '(request1, st) := accept st in
   let* st := answer request1 st in
   let* st := answer request0 st in
   let* '(a, st) := listen 0 st in
   let* '(b, st) := listen 1 st in
   let* '(e, st) := listen 1 st in
   Done (a, b, e, errors (heap (world st)))) = Done (Some 40, Some 50, None, []).
Proof. vm_compute. reflexivity. Qed.
