(* ===== verification/SegmentManager.v ===== *)
(** * The segments for user data

    Groups and users of the system ([posix_access_rights.cpp]), the configuration
    of segments ([segment_config.cpp]), a segment with its memory manager
    ([mepoo_segment.inl]) and the segment manager ([segment_manager.inl]) that
    creates all segments and tells a user which ones to map. *)

From S2P Require Import Prelude Helplets ChunkHeader MemPool MemoryManager RelativePointer SharedChunk.

(** ** Groups and users *)

(** The user database of the system: [getgrnam], [getgrgid], [getpwnam] (with the
    default group), [getpwuid] and [getgrouplist]; [None] is a failed call. *)
Record UserDatabase := mkDatabase {
  getgrnam : string -> option Z;
  getgrgid : Z -> option string;
  getpwnam : string -> option (Z * Z);
  getpwuid : Z -> option string;
  getgrouplist : string -> Z -> option (list Z) }.

Module PosixGroup.
Record t := mk { m_id : Z; m_doesExist : bool }.

Definition getGroupID (db : UserDatabase) (name : string) : option Z := getgrnam db name.
Definition getGroupName (db : UserDatabase) (id : Z) : option string := getgrgid db id.

Definition of_id (db : UserDatabase) (id : Z) : t := mk id (bool_decide (is_Some (getGroupName db id))).
Definition of_name (db : UserDatabase) (name : string) : t :=
  match getGroupID db name with Some id => mk id false | None => mk UINT32_MAX false end.

Definition eqb (x y : t) : bool := m_id x =? m_id y.
Definition getName (db : UserDatabase) (g : t) : string := default EmptyString (getGroupName db (m_id g)).
Definition doesExist (g : t) : bool := m_doesExist g.
End PosixGroup.

Module PosixUser.
Record t := mk { m_id : Z; m_doesExist : bool }.

Definition MaxNumberOfGroups : Z := 888.

Definition of_id (db : UserDatabase) (id : Z) : t := mk id (bool_decide (is_Some (getpwuid db id))).
Definition of_name (db : UserDatabase) (name : string) : t :=
  match getpwnam db name with Some (id, _) => mk id false | None => mk UINT32_MAX false end.
Definition getName (db : UserDatabase) (u : t) : string := default EmptyString (getpwuid db (m_id u)).
Definition doesExist (u : t) : bool := m_doesExist u.

(** [getgrouplist] fails if the user has more than [MaxNumberOfGroups] groups. *)
Definition getGroups (db : UserDatabase) (u : t) : list PosixGroup.t :=
  match getpwuid db (m_id u) with
  | None => []
  | Some userName =>
      match getpwnam db userName with
      | None => []
      | Some (_, userDefaultGroup) =>
          match getgrouplist db userName userDefaultGroup with
          | None => []
          | Some groups =>
              if MaxNumberOfGroups <? Z.of_nat (length groups) then [] else PosixGroup.of_id db <$> groups
          end
      end
  end.
End PosixUser.

(** ** Configuration *)

Record MemoryInfo := mkMemoryInfo { deviceId : Z; memoryType : Z }.
Definition MemoryInfo_default : MemoryInfo := mkMemoryInfo 0 0.

Module SegmentConfig.
Record SegmentEntry := mkEntry {
  m_readerGroup : string;
  m_writerGroup : string;
  m_mempoolConfig : MePooConfig.t;
  m_memoryInfo : MemoryInfo }.

(** [m_sharedMemorySegments] *)
Definition t : Type := list SegmentEntry.

Definition push_back (c : t) (e : SegmentEntry) : t :=
  if Z.of_nat (length c) <? MAX_SHM_SEGMENTS then c ++ [e] else c.

(** [groupName]: the group of the current process. *)
Definition setDefaults (groupName : string) (c : t) : t :=
  push_back c (mkEntry groupName groupName (MePooConfig.setDefaults []) MemoryInfo_default).

Definition optimize (c : t) : t := c.
End SegmentConfig.

(** ** One segment *)

Module AccessController.
Inductive Category := USER | SPECIFIC_USER | GROUP | SPECIFIC_GROUP | OTHERS.
Inductive Permission := READ | WRITE | READWRITE | NONE.
Record PermissionEntry := mkEntry { m_category : Category; m_permission : Permission; m_name : string }.
End AccessController.

Module MePooSegment.
Record t := mk {
  m_baseAddress : Z;
  m_sizeInBytes : Z;
  m_allocator : Allocator.t;
  m_memoryManager : MemoryManager.t;
  m_readerGroup : PosixGroup.t;
  m_writerGroup : PosixGroup.t;
  m_segmentId : Z;
  m_memoryInfo : MemoryInfo }.

Section segment.
(** The address of a new shared memory object with a name and a size, given what
    is mapped already, and whether the access rights can be set. *)
Context (db : UserDatabase) (create_shm : PointerRepository.t -> string -> Z -> option Z).
Context (writePermissionsToFile : list AccessController.PermissionEntry -> bool).

(** The base address, the size and the id of the new segment. *)
Definition createSharedMemoryObject (mempoolConfig : MePooConfig.t) (writerGroup : PosixGroup.t)
    (r : PointerRepository.t) : outcome (Z * Z * Z * PointerRepository.t) :=
  let* size := MemoryManager.requiredChunkMemorySize mempoolConfig in
  match create_shm r (PosixGroup.getName db writerGroup) size with
  | None => Terminated MEPOO__SEGMENT_UNABLE_TO_CREATE_SHARED_MEMORY_OBJECT
  | Some base =>
      let '(id, r) := PointerRepository.registerPtr r base size in
      Done (base, size, id, r)
  end.

Definition permissions (readerGroup writerGroup : PosixGroup.t) : list AccessController.PermissionEntry :=
  (if PosixGroup.eqb readerGroup writerGroup then []
   else [AccessController.mkEntry AccessController.SPECIFIC_GROUP AccessController.READ (PosixGroup.getName db readerGroup)]) ++
  [AccessController.mkEntry AccessController.SPECIFIC_GROUP AccessController.READWRITE (PosixGroup.getName db writerGroup);
   AccessController.mkEntry AccessController.USER AccessController.READWRITE EmptyString;
   AccessController.mkEntry AccessController.GROUP AccessController.READWRITE EmptyString;
   AccessController.mkEntry AccessController.OTHERS AccessController.NONE EmptyString].

Definition ctor (mempoolConfig : MePooConfig.t) (managementAllocator : Allocator.t) (readerGroup writerGroup : PosixGroup.t)
    (memoryInfo : MemoryInfo) (r : PointerRepository.t) : outcome (t * Allocator.t * PointerRepository.t) :=
  let* '(base, size, id, r) := createSharedMemoryObject mempoolConfig writerGroup r in
  if negb (writePermissionsToFile (permissions readerGroup writerGroup))
  then Terminated MEPOO__SEGMENT_COULD_NOT_APPLY_POSIX_RIGHTS_TO_SHARED_MEMORY
  else
    let* '(m, managementAllocator, allocator) :=
      MemoryManager.configureMemoryManager MemoryManager.ctor mempoolConfig managementAllocator (Allocator.ctor base size) in
    Done (mk base size (Allocator.finalizeAllocation allocator) m readerGroup writerGroup id memoryInfo,
          managementAllocator, r).
End segment.
End MePooSegment.

(** ** The segment manager *)

Module SegmentManager.
(** [m_segmentContainer] *)
Definition t : Type := list MePooSegment.t.

Record SegmentMapping := mkMapping {
  m_sharedMemoryName : string;
  m_startAddress : Z;
  m_size : Z;
  m_isWritable : bool;
  m_segmentId : Z;
  m_memoryInfo : MemoryInfo }.

Section manager.
Context (db : UserDatabase) (create_shm : PointerRepository.t -> string -> Z -> option Z).
Context (writePermissionsToFile : list AccessController.PermissionEntry -> bool).

Definition createSegment (segmentEntry : SegmentConfig.SegmentEntry) (s : t) (managementAllocator : Allocator.t)
    (r : PointerRepository.t) : outcome (t * Allocator.t * PointerRepository.t) :=
  let readerGroup := PosixGroup.of_name db (SegmentConfig.m_readerGroup segmentEntry) in
  let writerGroup := PosixGroup.of_name db (SegmentConfig.m_writerGroup segmentEntry) in
  if Z.of_nat (length s) <? MAX_SHM_SEGMENTS then
    let* '(segment, managementAllocator, r) :=
      MePooSegment.ctor db create_shm writePermissionsToFile (SegmentConfig.m_mempoolConfig segmentEntry)
        managementAllocator readerGroup writerGroup (SegmentConfig.m_memoryInfo segmentEntry) r in
    Done (s ++ [segment], managementAllocator, r)
  else Done (s, managementAllocator, r).

Fixpoint createSegments (segmentConfig : SegmentConfig.t) (s : t) (managementAllocator : Allocator.t)
    (r : PointerRepository.t) : outcome (t * Allocator.t * PointerRepository.t) :=
  match segmentConfig with
  | [] => Done (s, managementAllocator, r)
  | segmentEntry :: segmentConfig =>
      let* '(s, managementAllocator, r) := createSegment segmentEntry s managementAllocator r in
      createSegments segmentConfig s managementAllocator r
  end.

(** The capacities of the configuration and of the container are the same, as
    [Expects] demands. *)
Definition ctor (segmentConfig : SegmentConfig.t) (managementAllocator : Allocator.t) (r : PointerRepository.t)
    : outcome (t * Allocator.t * PointerRepository.t) :=
  createSegments segmentConfig [] managementAllocator r.

(** *** Mappings of a user *)

Definition mapping (isWritable : bool) (segment : MePooSegment.t) : SegmentMapping :=
  mkMapping (PosixGroup.getName db (MePooSegment.m_writerGroup segment)) (MePooSegment.m_baseAddress segment)
    (MePooSegment.m_sizeInBytes segment) isWritable (MePooSegment.m_segmentId segment) MemoryInfo_default.

Definition emplace_back (c : list SegmentMapping) (m : SegmentMapping) : list SegmentMapping :=
  if Z.of_nat (length c) <? MAX_SHM_SEGMENTS then c ++ [m] else c.

(** The inner loop over the segments for one group: the container and
    [foundInWriterGroup]. *)
Fixpoint writer_segments (groupID : PosixGroup.t) (s : t) (st : list SegmentMapping * bool)
    : outcome (list SegmentMapping * bool) :=
  match s with
  | [] => Done st
  | segment :: s =>
      let '(mappingContainer, foundInWriterGroup) := st in
      if PosixGroup.eqb (MePooSegment.m_writerGroup segment) groupID then
        if foundInWriterGroup then Terminated MEPOO__USER_WITH_MORE_THAN_ONE_WRITE_SEGMENT
        else writer_segments groupID s (emplace_back mappingContainer (mapping true segment), true)
      else writer_segments groupID s st
  end.

Fixpoint writer_groups (groupContainer : list PosixGroup.t) (s : t) (st : list SegmentMapping * bool)
    : outcome (list SegmentMapping * bool) :=
  match groupContainer with
  | [] => Done st
  | groupID :: groupContainer =>
      let* st := writer_segments groupID s st in
      writer_groups groupContainer s st
  end.

(** Only segments that were not added as writer. *)
Definition add_reader (groupID : PosixGroup.t) (c : list SegmentMapping) (segment : MePooSegment.t) : list SegmentMapping :=
  if PosixGroup.eqb (MePooSegment.m_readerGroup segment) groupID &&
     negb (existsb (fun m => m_startAddress m =? MePooSegment.m_baseAddress segment) c)
  then emplace_back c (mapping false segment) else c.

Definition getSegmentMappings (groupContainer : list PosixGroup.t) (s : t) : outcome (list SegmentMapping) :=
  let* '(mappingContainer, _) := writer_groups groupContainer s ([], false) in
  Done (foldl (fun c groupID => foldl (add_reader groupID) c s) mappingContainer groupContainer).

(** The segment whose memory manager and id are returned. *)
Fixpoint getSegmentInformationWithWriteAccessForUser (groupContainer : list PosixGroup.t) (s : t) : option MePooSegment.t :=
  match groupContainer with
  | [] => None
  | groupID :: groupContainer =>
      match List.find (fun segment => PosixGroup.eqb (MePooSegment.m_writerGroup segment) groupID) s with
      | Some segment => Some segment
      | None => getSegmentInformationWithWriteAccessForUser groupContainer s
      end
  end.
End manager.

(** *** Sizes *)

Definition requiredManagementMemorySize (config : SegmentConfig.t) : Z :=
  foldl (fun memorySize segment =>
           u64 (memorySize + MemoryManager.requiredManagementMemorySize (SegmentConfig.m_mempoolConfig segment))) 0 config.

Fixpoint requiredChunkMemorySize_from (memorySize : Z) (config : SegmentConfig.t) : outcome Z :=
  match config with
  | [] => Done memorySize
  | segment :: config =>
      let* size := MemoryManager.requiredChunkMemorySize (SegmentConfig.m_mempoolConfig segment) in
      requiredChunkMemorySize_from (u64 (memorySize + size)) config
  end.
Definition requiredChunkMemorySize (config : SegmentConfig.t) : outcome Z := requiredChunkMemorySize_from 0 config.

Definition requiredFullMemorySize (config : SegmentConfig.t) : outcome Z :=
  let* size := requiredChunkMemorySize config in Done (u64 (requiredManagementMemorySize config + size)).
End SegmentManager.

(** ** Which segments a user maps *)

Section mappings.
Import SegmentManager.
Context (db : UserDatabase).
Implicit Types (groups : list PosixGroup.t) (s l : list MePooSegment.t) (c : list SegmentMapping).

(** The user is in the writer or reader group of a segment. *)
Definition in_writer_group groups (segment : MePooSegment.t) : Prop :=
  exists g, g ∈ groups /\ PosixGroup.eqb (MePooSegment.m_writerGroup segment) g = true.
Definition in_reader_group groups (segment : MePooSegment.t) : Prop :=
  exists g, g ∈ groups /\ PosixGroup.eqb (MePooSegment.m_readerGroup segment) g = true.

(** The segments that the two loops meet, in their order. *)
Definition meets (group_of : MePooSegment.t -> PosixGroup.t) groups s : list MePooSegment.t :=
  groups ≫= fun g => List.filter (fun segment => PosixGroup.eqb (group_of segment) g) s.

Lemma elem_of_meets group_of groups s x :
  x ∈ meets group_of groups s <-> x ∈ s /\ exists g, g ∈ groups /\ PosixGroup.eqb (group_of x) g = true.
Proof.
  unfold meets. rewrite list_elem_of_bind. split.
  - intros (g & Hx & Hg). apply list_elem_of_In, filter_In in Hx as [Hx E]. apply list_elem_of_In in Hx. eauto.
  - intros (Hx & g & Hg & E). exists g. split; [|done]. apply list_elem_of_In, filter_In. by rewrite <- list_elem_of_In.
Qed.

(** The loops over groups and segments as one loop over what they meet. *)
Fixpoint writers l (st : list SegmentMapping * bool) : outcome (list SegmentMapping * bool) :=
  match l with
  | [] => Done st
  | x :: l => if snd st then Terminated MEPOO__USER_WITH_MORE_THAN_ONE_WRITE_SEGMENT
              else writers l (emplace_back (fst st) (mapping db true x), true)
  end.

Lemma writers_app l1 l2 st : writers (l1 ++ l2) st = obind (writers l1 st) (writers l2).
Proof. revert st. induction l1 as [|x l1 IH]; intros st; simpl; [done|]. destruct (snd st); [done|]. apply IH. Qed.

Lemma writer_segments_meets g s st :
  writer_segments db g s st = writers (List.filter (fun x => PosixGroup.eqb (MePooSegment.m_writerGroup x) g) s) st.
Proof.
  revert st. induction s as [|x s IH]; intros [c b]; simpl; [done|].
  destruct (PosixGroup.eqb _ g); simpl; [|by rewrite IH]. destruct b; [done|]. by rewrite IH.
Qed.

Lemma writer_groups_meets groups s st : writer_groups db groups s st = writers (meets MePooSegment.m_writerGroup groups s) st.
Proof.
  revert st. induction groups as [|g groups IH]; intros st; simpl; [done|].
  change (meets MePooSegment.m_writerGroup (g :: groups) s) with
    (List.filter (fun x => PosixGroup.eqb (MePooSegment.m_writerGroup x) g) s ++ meets MePooSegment.m_writerGroup groups s).
  rewrite writers_app, writer_segments_meets. destruct (writers _ st); simpl; [apply IH|done].
Qed.

Definition add_absent c (x : MePooSegment.t) : list SegmentMapping :=
  if existsb (fun m => m_startAddress m =? MePooSegment.m_baseAddress x) c then c else emplace_back c (mapping db false x).

Lemma readers_meets groups s c :
  foldl (fun c g => foldl (add_reader db g) c s) c groups = foldl add_absent c (meets MePooSegment.m_readerGroup groups s).
Proof.
  revert c. induction groups as [|g groups IH]; intros c; simpl; [done|].
  change (meets MePooSegment.m_readerGroup (g :: groups) s) with
    (List.filter (fun x => PosixGroup.eqb (MePooSegment.m_readerGroup x) g) s ++ meets MePooSegment.m_readerGroup groups s).
  rewrite foldl_app, <- IH. f_equal. clear IH. revert c. induction s as [|x s IH]; intros c; simpl; [done|].
  unfold add_reader at 2. destruct (PosixGroup.eqb _ g); simpl; [|apply IH]. rewrite <- IH. f_equal.
  unfold add_absent. by destruct (existsb _ c).
Qed.

(** A container of mappings of the segments [s]. *)
Record maps s c : Prop := {
  mp_from : Forall (fun m => exists b x, x ∈ s /\ m = mapping db b x) c;
  mp_nodup : NoDup (m_startAddress <$> c) }.

Lemma existsb_address c a : existsb (fun m => m_startAddress m =? a) c = true <-> a ∈ m_startAddress <$> c.
Proof.
  rewrite existsb_exists, list_elem_of_fmap. split.
  - intros (m & Hm & E%Z.eqb_eq). exists m. by rewrite list_elem_of_In.
  - intros (m & -> & Hm). exists m. by rewrite <- list_elem_of_In, Z.eqb_refl.
Qed.

(** A container that misses a segment has room for it. *)
Lemma maps_room s c x : maps s c -> Z.of_nat (length s) <= MAX_SHM_SEGMENTS -> x ∈ s ->
  MePooSegment.m_baseAddress x ∉ m_startAddress <$> c -> Z.of_nat (length c) < MAX_SHM_SEGMENTS.
Proof.
  intros [Hf Hn] Hl Hx Hno.
  assert (Hlen : (length (MePooSegment.m_baseAddress x :: (m_startAddress <$> c)) <= length (MePooSegment.m_baseAddress <$> s))%nat).
  { apply submseteq_length, NoDup_submseteq; [by constructor|]. intros a [->|Ha]%elem_of_cons.
    - apply list_elem_of_fmap. by exists x.
    - apply list_elem_of_fmap in Ha as (m & -> & Hm). rewrite Forall_forall in Hf. destruct (Hf m Hm) as (b & y & Hy & ->).
      apply list_elem_of_fmap. by exists y. }
  simpl in Hlen. rewrite !length_fmap in Hlen. lia.
Qed.

Lemma add_absent_ok s c x : maps s c -> Z.of_nat (length s) <= MAX_SHM_SEGMENTS -> x ∈ s ->
  let c' := add_absent c x in
  maps s c' /\ c ⊆ c' /\ MePooSegment.m_baseAddress x ∈ m_startAddress <$> c' /\
  (forall m, m ∈ c' -> m ∈ c \/ m = mapping db false x).
Proof.
  intros Hm Hl Hx. unfold add_absent. destruct (existsb _ c) eqn:E; simpl.
  { apply existsb_address in E. split_and!; try done. intros m H. by left. }
  assert (Hno : MePooSegment.m_baseAddress x ∉ m_startAddress <$> c) by (intros H%existsb_address; congruence).
  unfold emplace_back. rewrite (proj2 (Z.ltb_lt _ _)) by (by eapply maps_room). destruct Hm. split_and!.
  - constructor; [apply Forall_app_2; [done|apply Forall_singleton; eauto]|]. rewrite fmap_app. apply NoDup_app. split; [done|].
    split; [|apply NoDup_singleton]. intros a Ha ->%list_elem_of_singleton. done.
  - intros m H. apply elem_of_app. by left.
  - rewrite fmap_app. apply elem_of_app. right. by left.
  - intros m [H| ->%list_elem_of_singleton]%elem_of_app; [by left|by right].
Qed.

Lemma readers_ok s l c : maps s c -> Z.of_nat (length s) <= MAX_SHM_SEGMENTS -> l ⊆ s ->
  let c' := foldl add_absent c l in
  maps s c' /\ c ⊆ c' /\ (forall x, x ∈ l -> MePooSegment.m_baseAddress x ∈ m_startAddress <$> c') /\
  (forall m, m ∈ c' -> m ∈ c \/ exists x, x ∈ l /\ m = mapping db false x).
Proof.
  revert c. induction l as [|x l IH]; intros c Hm Hl Hs; simpl.
  { split_and!; try done; [|by left]. intros x Hx. by apply elem_of_nil in Hx. }
  destruct (add_absent_ok s c x Hm Hl) as (H1 & H2 & H3 & H4); [apply Hs; by left|].
  destruct (IH (add_absent c x) H1 Hl) as (I1 & I2 & I3 & I4); [intros y Hy; apply Hs; by right|].
  split; [done|]. split; [intros y Hy; by apply I2, H2|]. split.
  - intros y [->|Hy]%elem_of_cons; [|by apply I3]. apply list_elem_of_fmap in H3 as (m & E & Hmem).
    apply list_elem_of_fmap. exists m. split; [done|]. by apply I2.
  - intros m [Hmem|(y & Hy & ->)]%I4; [|right; exists y; split; [by right|done]].
    destruct (H4 m Hmem) as [?| ->]; [by left|right; exists x; split; [by left|done]].
Qed.

Lemma writers_cases l : writers l ([], false) =
  match l with
  | [] => Done ([], false)
  | [x] => Done ([mapping db true x], true)
  | _ => Terminated MEPOO__USER_WITH_MORE_THAN_ONE_WRITE_SEGMENT
  end.
Proof. destruct l as [|x [|y l]]; done. Qed.

(** Where nothing is mapped twice, the address tells the segment. *)
Lemma address_inj s x y : NoDup (MePooSegment.m_baseAddress <$> s) -> x ∈ s -> y ∈ s ->
  MePooSegment.m_baseAddress x = MePooSegment.m_baseAddress y -> x = y.
Proof.
  intros Hn [i Hi]%list_elem_of_lookup [j Hj]%list_elem_of_lookup E.
  assert (i = j) as -> by (apply (NoDup_lookup _ i j (MePooSegment.m_baseAddress x) Hn); rewrite list_lookup_fmap; [by rewrite Hi|rewrite Hj; simpl; by f_equal]).
  congruence.
Qed.

(** What a user gets: each mapping is one of a segment whose groups the user is in,
    none twice, and it is writable exactly for the writer group. *)
Definition mappings_spec groups s c : Prop :=
  NoDup (m_startAddress <$> c) /\
  (forall x, x ∈ s -> in_writer_group groups x -> mapping db true x ∈ c) /\
  (forall x, x ∈ s -> in_reader_group groups x -> ~ in_writer_group groups x -> mapping db false x ∈ c) /\
  (forall m, m ∈ c -> exists x, x ∈ s /\
     ((m = mapping db true x /\ in_writer_group groups x) \/
      (m = mapping db false x /\ in_reader_group groups x /\ ~ in_writer_group groups x))).

Lemma getSegmentMappings_ok groups s : Z.of_nat (length s) <= MAX_SHM_SEGMENTS ->
  NoDup (MePooSegment.m_baseAddress <$> s) ->
  match meets MePooSegment.m_writerGroup groups s with
  | _ :: _ :: _ => getSegmentMappings db groups s = Terminated MEPOO__USER_WITH_MORE_THAN_ONE_WRITE_SEGMENT
  | _ => exists c, getSegmentMappings db groups s = Done c /\ mappings_spec groups s c
  end.
Proof.
  intros Hl Hn. unfold getSegmentMappings. rewrite writer_groups_meets, writers_cases.
  set (ws := meets MePooSegment.m_writerGroup groups s). set (rs := meets MePooSegment.m_readerGroup groups s).
  assert (Hw : forall x, x ∈ ws <-> x ∈ s /\ in_writer_group groups x) by (intros x; apply elem_of_meets).
  assert (Hr : forall x, x ∈ rs <-> x ∈ s /\ in_reader_group groups x) by (intros x; apply elem_of_meets).
  assert (Hgen : forall c, c = mapping db true <$> ws -> maps s c ->
    exists c', foldl (fun c g => foldl (add_reader db g) c s) c groups = c' /\ mappings_spec groups s c').
  { intros c -> Hm. eexists. split; [done|]. rewrite readers_meets. fold rs.
    destruct (readers_ok s rs _ Hm Hl) as ([H1 H1'] & H2 & H3 & H4); [intros x Hx; by apply Hr|].
    split; [done|]. split; [|split].
    - intros x Hx Hg. apply H2, list_elem_of_fmap. exists x. split; [done|]. by apply Hw.
    - intros x Hx Hg Hnw. destruct (proj1 (list_elem_of_fmap _ _ _) (H3 x (proj2 (Hr x) (conj Hx Hg)))) as (m & E & Hmem).
      destruct (H4 m Hmem) as [(y & -> & Hy)%list_elem_of_fmap|(y & Hy & ->)].
      + destruct Hnw. apply Hw. by rewrite (address_inj s x y Hn Hx (proj1 (proj1 (Hw y) Hy)) E).
      + by rewrite (address_inj s x y Hn Hx (proj1 (proj1 (Hr y) Hy)) E).
    - intros m Hmem. destruct (H4 m Hmem) as [(x & -> & Hx)%list_elem_of_fmap|(x & Hx & ->)].
      + exists x. apply Hw in Hx as [Hx Hg]. split; [done|]. by left.
      + apply Hr in Hx as [Hx Hg]. exists x. split; [done|]. right. split; [done|]. split; [done|]. intros Hwg.
        assert (Hin : mapping db true x ∈ foldl add_absent (mapping db true <$> ws) rs).
        { apply H2, list_elem_of_fmap. exists x. split; [done|]. by apply Hw. }
        apply list_elem_of_lookup in Hin as [i Hi]. apply list_elem_of_lookup in Hmem as [j Hj].
        assert (i = j) as -> by (apply (NoDup_lookup _ i j (MePooSegment.m_baseAddress x) H1'); rewrite list_lookup_fmap; [by rewrite Hi|by rewrite Hj]).
        rewrite Hi in Hj. discriminate Hj. }
  destruct ws as [|x [|y l]] eqn:Ews; simpl; [| |done].
  - destruct (Hgen [] eq_refl) as (c & E & Hc); [constructor; [constructor|apply NoDup_nil_2]|]. exists c. by rewrite E.
  - destruct (Hgen [mapping db true x] eq_refl) as (c & E & Hc); [|exists c; by rewrite E].
    constructor; [|apply NoDup_singleton]. apply Forall_singleton. exists true, x. split; [|done]. by apply Hw; left.
Qed.

Lemma find_head {A} (f : A -> bool) (k : list A) : List.find f k = head (List.filter f k).
Proof. induction k as [|x k IH]; simpl; [done|]. by destruct (f x). Qed.

(** The segment for a publisher of the user is the first one that the loops meet. *)
Lemma information_meets groups s :
  getSegmentInformationWithWriteAccessForUser groups s = head (meets MePooSegment.m_writerGroup groups s).
Proof.
  induction groups as [|g groups IH]; simpl; [done|].
  change (meets MePooSegment.m_writerGroup (g :: groups) s) with
    (List.filter (fun x => PosixGroup.eqb (MePooSegment.m_writerGroup x) g) s ++ meets MePooSegment.m_writerGroup groups s).
  rewrite IH, find_head. by destruct (List.filter _ s).
Qed.
End mappings.

(** ** Creating the segments *)

Section repository.
Import PointerRepository.

(** As long as ids are left the new segment gets one that is not used. *)
Lemma registerPtr_fresh r ptr size : wf r -> free_range r ptr size -> m_maxRegistered r < MAX_ID ->
  exists i, registerPtr r ptr size = (i, store r i ptr size) /\ wf (store r i ptr size) /\ m_info r !! i = None /\
    m_info (store r i ptr size) !! i = Some (mkInfo ptr (ptr + size - 1)) /\
    m_maxRegistered (store r i ptr size) <= m_maxRegistered r + 1.
Proof.
  intros Hw Hf Hmax. pose proof Hw as []. unfold registerPtr.
  assert (Hnone : forall k, m_maxRegistered r < k -> m_info r !! k = None).
  { intros k Hk. destruct (m_info r !! k) as [x|] eqn:E; [|done]. specialize (wf_ids0 k (mk_is_Some _ _ E)). lia. }
  destruct (list_find _ _) as [[n i]|] eqn:E.
  - apply list_find_Some in E as (Hi & Hb & Hfirst). apply lookup_seqZ in Hi as [-> Hi].
    assert (Hi2 : 1 + Z.of_nat n <= m_maxRegistered r + 1).
    { destruct (decide (1 + Z.of_nat n <= m_maxRegistered r + 1)) as [|Hgt]; [done|]. exfalso.
      apply (Hfirst (Z.to_nat (m_maxRegistered r)) (m_maxRegistered r + 1)); [apply lookup_seqZ; lia|lia|].
      unfold info. by rewrite Hnone by lia. }
    eexists. split; [done|]. split; [apply store_wf; try done; [unfold MIN_ID; lia|by apply wf_unused]|].
    split; [by apply wf_unused|]. unfold store. simpl. split; [|case_zb; lia].
    destruct Hf as (F1 & F2 & F3 & _). rewrite lookup_insert_eq, u64_small by lia. done.
  - exfalso. rewrite list_find_None, Forall_forall in E. apply (E (m_maxRegistered r + 1)); [apply elem_of_seqZ; lia|].
    unfold info. by rewrite Hnone by lia.
Qed.

Lemma free_range_base r ptr size i x : free_range r ptr size -> wf r -> m_info r !! i = Some x -> basePtr x <> ptr.
Proof. intros (_ & Hs & _ & Hd) Hw Hi E. destruct (wf_info _ Hw i x Hi), (Hd i x Hi); lia. Qed.
End repository.

Section creation.
Import SegmentManager.
Context (db : UserDatabase) (create_shm : PointerRepository.t -> string -> Z -> option Z).
Context (writePermissionsToFile : list AccessController.PermissionEntry -> bool).

(** If the system gives memory, then of the asked size, at the begin of a page and
    where nothing is mapped yet. *)
Definition maps_free_pages : Prop := forall r name size base,
  create_shm r name size = Some base -> 0 < size ->
  (4096 | base) /\ base + size <= 2 ^ 47 /\ PointerRepository.free_range r base size.

Context (Hsys : maps_free_pages).

(** The system refuses to create shared memory or to set access rights. *)
Inductive refusal : Error -> Prop :=
  | no_memory r name size : create_shm r name size = None -> refusal MEPOO__SEGMENT_UNABLE_TO_CREATE_SHARED_MEMORY_OBJECT
  | no_rights l : writePermissionsToFile l = false -> refusal MEPOO__SEGMENT_COULD_NOT_APPLY_POSIX_RIGHTS_TO_SHARED_MEMORY.

Definition refused {A} (o : outcome A) : Prop := exists e, refusal e /\ o = Terminated e.

(** A segment as the entry of the configuration asks for it. *)
Record segment_ok (r : PointerRepository.t) (e : SegmentConfig.SegmentEntry) (x : MePooSegment.t) : Prop := {
  so_reader : MePooSegment.m_readerGroup x = PosixGroup.of_name db (SegmentConfig.m_readerGroup e);
  so_writer : MePooSegment.m_writerGroup x = PosixGroup.of_name db (SegmentConfig.m_writerGroup e);
  so_valid : MemoryManager.Valid (MePooSegment.m_memoryManager x) [];
  so_sizes : MemPool.m_chunkSize <$> MemoryManager.m_memPoolVector (MePooSegment.m_memoryManager x) =
             (fun e => MePooConfig.m_size e + SIZEOF_CHUNK_HEADER) <$> SegmentConfig.m_mempoolConfig e;
  so_counts : MemPool.m_numberOfChunks <$> MemoryManager.m_memPoolVector (MePooSegment.m_memoryManager x) =
              MePooConfig.m_chunkCount <$> SegmentConfig.m_mempoolConfig e;
  so_registered : PointerRepository.m_info r !! MePooSegment.m_segmentId x =
    Some (PointerRepository.mkInfo (MePooSegment.m_baseAddress x)
            (MePooSegment.m_baseAddress x + MePooSegment.m_sizeInBytes x - 1)) }.

(** The bytes for management data that a configuration needs. *)
Definition management_bytes (c : SegmentConfig.t) : Z :=
  foldr (fun e acc => MemoryManager.requiredManagementMemorySize (SegmentConfig.m_mempoolConfig e) + acc) 0 c.

Notation pos a := (align (Allocator.m_currentPosition a) MemPool.CHUNK_MEMORY_ALIGNMENT).

Lemma segment_ok_mono r r' e x : segment_ok r e x ->
  PointerRepository.m_info r ⊆ PointerRepository.m_info r' -> segment_ok r' e x.
Proof. intros [] Hs. constructor; try done. by eapply lookup_weaken. Qed.

Lemma segment_ctor_ok e a r :
  MemoryManager.cfg_ok (SegmentConfig.m_mempoolConfig e) -> Allocator.wf a ->
  (MemPool.CHUNK_MEMORY_ALIGNMENT | Allocator.m_startAddress a) ->
  pos a + MemoryManager.requiredManagementMemorySize (SegmentConfig.m_mempoolConfig e) <= Allocator.m_length a ->
  PointerRepository.wf r -> PointerRepository.m_maxRegistered r < PointerRepository.MAX_ID ->
  let o := MePooSegment.ctor db create_shm writePermissionsToFile (SegmentConfig.m_mempoolConfig e) a
      (PosixGroup.of_name db (SegmentConfig.m_readerGroup e)) (PosixGroup.of_name db (SegmentConfig.m_writerGroup e))
      (SegmentConfig.m_memoryInfo e) r in
  refused o \/ exists x a' r', o = Done (x, a', r') /\
    segment_ok r' e x /\ Allocator.wf a' /\ Allocator.m_startAddress a' = Allocator.m_startAddress a /\
    Allocator.m_length a' = Allocator.m_length a /\
    pos a' = pos a + MemoryManager.requiredManagementMemorySize (SegmentConfig.m_mempoolConfig e) /\
    PointerRepository.wf r' /\ PointerRepository.m_info r ⊆ PointerRepository.m_info r' /\
    PointerRepository.m_maxRegistered r' <= PointerRepository.m_maxRegistered r + 1 /\
    (forall i y, PointerRepository.m_info r !! i = Some y -> PointerRepository.basePtr y <> MePooSegment.m_baseAddress x).
Proof.
  intros Hok Wa Al Hl Wr Hmax o. subst o. set (cfg := SegmentConfig.m_mempoolConfig e) in *.
  destruct (MemoryManager.requiredManagementMemorySize_bounds cfg Hok) as (_ & _ & B3 & _ & _ & B6 & _).
  assert (HR : MemoryManager.requiredChunkMemorySize cfg = Done (MemoryManager.csum MemoryManager.bytes_of cfg)).
  { apply MemoryManager.requiredChunkMemorySize_ok; [apply Hok|].
    pose proof (MemoryManager.co_length _ Hok). unfold MePooConfig.MAX_NUMBER_OF_MEMPOOLS in *. lia. }
  assert (Hpos : 0 < MemoryManager.csum MemoryManager.bytes_of cfg).
  { pose proof (MemoryManager.co_length _ Hok). pose proof (MemoryManager.co_entries _ Hok) as He.
    destruct cfg as [|x cfg']; [simpl in *; lia|]. inversion He as [|? ? Hx Hc]; subst.
    destruct (MemoryManager.entry_bounds x Hx) as (_ & Hb & _).
    destruct (MemoryManager.csum_le MemoryManager.bytes_of cfg' []); rewrite ?app_nil_r; [done|apply MemoryManager.entry_nonneg|].
    cbn [MemoryManager.csum foldr]. unfold MemoryManager.csum in *. lia. }
  unfold MePooSegment.ctor, MePooSegment.createSharedMemoryObject. rewrite HR. cbn [obind].
  set (name := PosixGroup.getName db _). set (size := MemoryManager.csum MemoryManager.bytes_of cfg) in *.
  destruct (create_shm r name size) as [base|] eqn:Eb; [|left; eexists; split; [by econstructor|done]].
  destruct (Hsys r name size base Eb Hpos) as (M1 & M2 & M3).
  destruct (registerPtr_fresh r base size Wr M3 Hmax) as (i & -> & Wr' & Hn & Hi & Hm). cbn [obind].
  destruct (writePermissionsToFile _) eqn:Er; cbn [negb]; [|left; eexists; split; [by econstructor|done]]. right.
  pose proof M3 as (M4 & _).
  destruct (MemoryManager.configure_from cfg a base size size) as (m & a' & ca & -> & Hv & Z1 & Z2 & Wa' & S & L & P); try done; try lia.
  { unfold MemPool.CHUNK_MEMORY_ALIGNMENT. destruct M1 as [k ->]. exists (k * 512). lia. }
  cbn [obind]. eexists _, a', _. split; [done|]. split; [by constructor|]. split; [done|]. split; [done|]. split; [done|].
  split; [done|]. split; [done|]. split; [by apply insert_subseteq|]. split; [done|].
  intros j y Hj. by eapply free_range_base.
Qed.

Lemma management_bytes_bounds c : Forall (fun e => MemoryManager.cfg_ok (SegmentConfig.m_mempoolConfig e)) c ->
  0 <= management_bytes c <= 2 ^ 38 * Z.of_nat (length c) /\ (8 | management_bytes c).
Proof.
  induction 1 as [|e c He Hc [IH1 IH2]]; cbn [management_bytes foldr length]; [split; [lia|by exists 0]|].
  destruct (MemoryManager.requiredManagementMemorySize_bounds _ He) as (_ & _ & _ & _ & _ & B6 & B7).
  unfold management_bytes in *. rewrite Nat2Z.inj_succ. split; [lia|]. by apply Z.divide_add_r.
Qed.

Lemma createSegments_ok c : forall s a r cs,
  Forall (fun e => MemoryManager.cfg_ok (SegmentConfig.m_mempoolConfig e)) c -> Allocator.wf a ->
  (MemPool.CHUNK_MEMORY_ALIGNMENT | Allocator.m_startAddress a) ->
  pos a + management_bytes c <= Allocator.m_length a ->
  PointerRepository.wf r ->
  PointerRepository.m_maxRegistered r + Z.of_nat (length c) <= PointerRepository.MAX_ID ->
  Z.of_nat (length s + length c) <= MAX_SHM_SEGMENTS ->
  Forall2 (segment_ok r) cs s -> NoDup (MePooSegment.m_baseAddress <$> s) ->
  let o := createSegments db create_shm writePermissionsToFile c s a r in
  refused o \/ exists s' a' r', o = Done (s', a', r') /\
    Forall2 (segment_ok r') (cs ++ c) s' /\ NoDup (MePooSegment.m_baseAddress <$> s') /\
    PointerRepository.wf r' /\ PointerRepository.m_info r ⊆ PointerRepository.m_info r'.
Proof.
  induction c as [|e c IH]; intros s a r cs Hc Wa Al Hl Wr Hmax Hlen Hs Hn; simpl.
  { right. exists s, a, r. by rewrite app_nil_r. }
  apply Forall_cons in Hc as [He Hc]. cbn [management_bytes foldr] in Hl. cbn [length] in Hmax, Hlen.
  pose proof (proj1 (management_bytes_bounds c Hc)) as Hrest.
  unfold createSegment. rewrite (proj2 (Z.ltb_lt _ _)) by lia.
  destruct (segment_ctor_ok e a r) as [(err & Hr & ->)|(x & a1 & r1 & -> & Hx & Wa1 & S1 & L1 & P1 & Wr1 & I1 & M1 & F1)]; try done; try lia.
  { unfold management_bytes in *. lia. }
  { left. by exists err. }
  cbn [obind].
  assert (Hs1 : Forall2 (segment_ok r1) (cs ++ [e]) (s ++ [x])).
  { apply Forall2_app; [|by constructor]. eapply Forall2_impl; [exact Hs|]. intros y z Hyz. by eapply segment_ok_mono. }
  destruct (IH (s ++ [x]) a1 r1 (cs ++ [e])) as [?|(s' & a' & r' & -> & H1 & H2 & H3 & H4)]; try done.
  - by rewrite S1.
  - rewrite P1, L1. unfold management_bytes in *. lia.
  - lia.
  - rewrite length_app. simpl. lia.
  - rewrite fmap_app. apply NoDup_app. split; [done|]. split; [|apply NoDup_singleton].
    intros b Hb ->%list_elem_of_singleton. apply list_elem_of_fmap in Hb as (y & E & Hy).
    destruct (proj1 (list_elem_of_lookup _ _) Hy) as [k Hk]. destruct (Forall2_lookup_r _ _ _ _ _ Hs Hk) as (ey & _ & Hey).
    apply (F1 _ _ (so_registered _ _ _ Hey)). simpl. congruence.
  - by left.
  - right. exists s', a', r'. split; [done|]. split; [by rewrite <- app_assoc in H1|]. split; [done|]. split; [done|]. by transitivity (PointerRepository.m_info r1).
Qed.

Lemma requiredManagement_ok c : Forall (fun e => MemoryManager.cfg_ok (SegmentConfig.m_mempoolConfig e)) c ->
  Z.of_nat (length c) <= MAX_SHM_SEGMENTS -> SegmentManager.requiredManagementMemorySize c = management_bytes c.
Proof.
  intros Hc Hl. unfold SegmentManager.requiredManagementMemorySize.
  assert (Hgen : forall c n, 0 <= n -> Forall (fun e => MemoryManager.cfg_ok (SegmentConfig.m_mempoolConfig e)) c ->
    n + 2 ^ 38 * Z.of_nat (length c) <= 2 ^ 50 ->
    foldl (fun memorySize segment =>
      u64 (memorySize + MemoryManager.requiredManagementMemorySize (SegmentConfig.m_mempoolConfig segment))) n c
    = n + management_bytes c).
  { clear. induction c as [|e c IH]; intros n Hn Hc Hb; cbn [foldl management_bytes foldr length] in *; [lia|].
    apply Forall_cons in Hc as [He Hc]. rewrite Nat2Z.inj_succ in Hb.
    destruct (MemoryManager.requiredManagementMemorySize_bounds _ He) as (_ & _ & _ & _ & _ & B6 & _).
    rewrite u64_small by lia. rewrite IH by (done || lia). unfold management_bytes. lia. }
  rewrite Hgen; [done|done|done|]. unfold MAX_SHM_SEGMENTS in Hl. lia.
Qed.
End creation.

(** ** Properties *)

Section properties.
Import SegmentManager.

(** C35: the segments are created as configured and each user maps exactly those it
    has access to.  If memory for management data is left as computed by
    [requiredManagementMemorySize], creating the segments of a valid configuration
    succeeds unless the system refuses shared memory or access rights, which ends
    the process with the corresponding error; there is one segment per entry with
    a valid memory manager and its pools, registered under an id of its own.  A
    user that meets more than one writable segment is rejected; any other gets
    each segment of its groups once, writable exactly for the writer group, and
    its publishers use the writable one. *)
Theorem segments_created_and_mapped db create_shm rights c a r groups :
  maps_free_pages create_shm ->
  Forall (fun e => MemoryManager.cfg_ok (SegmentConfig.m_mempoolConfig e)) c ->
  Z.of_nat (length c) <= MAX_SHM_SEGMENTS -> Allocator.wf a ->
  (MemPool.CHUNK_MEMORY_ALIGNMENT | Allocator.m_startAddress a) ->
  align (Allocator.m_currentPosition a) MemPool.CHUNK_MEMORY_ALIGNMENT + requiredManagementMemorySize c <= Allocator.m_length a ->
  PointerRepository.wf r -> PointerRepository.m_maxRegistered r + Z.of_nat (length c) <= PointerRepository.MAX_ID ->
  let o := ctor db create_shm rights c a r in
  refused create_shm rights o \/
  exists s a' r', o = Done (s, a', r') /\ PointerRepository.wf r' /\ Forall2 (segment_ok db r') c s /\
    match meets MePooSegment.m_writerGroup groups s with
    | _ :: _ :: _ => getSegmentMappings db groups s = Terminated MEPOO__USER_WITH_MORE_THAN_ONE_WRITE_SEGMENT
    | _ => exists ms, getSegmentMappings db groups s = Done ms /\ mappings_spec db groups s ms
    end /\
    match getSegmentInformationWithWriteAccessForUser groups s with
    | Some x => x ∈ s /\ in_writer_group groups x
    | None => forall x, x ∈ s -> ~ in_writer_group groups x
    end.
Proof.
  intros Hsys Hc Hl Wa Al Hm Wr Hmax o. rewrite requiredManagement_ok in Hm by done.
  destruct (createSegments_ok db create_shm rights Hsys c [] a r []) as [?|(s & a' & r' & E & H1 & H2 & H3 & _)]; try done; [apply NoDup_nil_2|by left|].
  right. exists s, a', r'. split; [exact E|]. split; [done|]. split; [done|].
  assert (Hlen : length s = length c) by (symmetry; by eapply Forall2_length).
  split; [apply getSegmentMappings_ok; [by rewrite Hlen|done]|]. rewrite information_meets.
  pose proof (elem_of_meets MePooSegment.m_writerGroup groups s) as Hw.
  destruct (meets _ groups s) as [|x l]; simpl.
  - intros x Hx Hg. by apply (not_elem_of_nil x), Hw.
  - apply Hw. by left.
Qed.

(** A system that maps each segment behind all others. *)
Definition top (r : PointerRepository.t) : Z :=
  foldr Z.max 0 ((fun p => PointerRepository.endPtr (snd p)) <$> map_to_list (PointerRepository.m_info r)).
Definition next_page (r : PointerRepository.t) (name : string) (size : Z) : option Z :=
  let base := (top r / 4096 + 1) * 4096 in if base + size <=? 2 ^ 47 then Some base else None.

Lemma top_ge r i x : PointerRepository.m_info r !! i = Some x -> PointerRepository.endPtr x <= top r.
Proof.
  intros Hx%elem_of_map_to_list. unfold top. induction (map_to_list _) as [|p l IH]; [by apply elem_of_nil in Hx|].
  rewrite fmap_cons. cbn [foldr]. apply elem_of_cons in Hx as [<-|Hx]; [simpl; lia|]. specialize (IH Hx). lia.
Qed.

Lemma top_nonneg r : 0 <= top r.
Proof. unfold top. generalize (map_to_list (PointerRepository.m_info r)). intros l. induction l as [|p l IH]; [done|]. rewrite fmap_cons. cbn [foldr]. lia. Qed.

Lemma next_page_ok : maps_free_pages next_page.
Proof.
  intros r name size base. unfold next_page. set (b := (top r / 4096 + 1) * 4096). case_zb; intros [= <-] Hs.
  pose proof (top_nonneg r) as Ht.
  assert (Hb : top r < b) by (unfold b; pose proof (Z.mul_succ_div_gt (top r) 4096); lia).
  split; [by exists (top r / 4096 + 1)|]. split; [done|]. split; [lia|]. split; [done|]. split; [lia|].
  intros i x Hx%top_ge. right. lia.
Qed.

(** Two groups: [admin] writes, [users] may also read. *)
Definition sample_database : UserDatabase :=
  mkDatabase (fun n => if String.eqb n "admin" then Some 1 else if String.eqb n "users" then Some 2 else None)
    (fun i => if i =? 1 then Some "admin" else if i =? 2 then Some "users" else None)
    (fun n => if String.eqb n "alice" then Some (10, 1) else if String.eqb n "bob" then Some (11, 2) else None)
    (fun i => if i =? 10 then Some "alice" else if i =? 11 then Some "bob" else None)
    (fun n g => if String.eqb n "alice" then Some [1; 2] else Some [2]).
Definition sample_segments : SegmentConfig.t :=
  [SegmentConfig.mkEntry "users" "admin" MemoryManager.small_config MemoryInfo_default;
   SegmentConfig.mkEntry "users" "users" MemoryManager.small_config MemoryInfo_default].

Lemma segments_created_and_mapped_witness :
  let o := ctor sample_database next_page (fun _ => true) sample_segments (Allocator.ctor 4096 1000) PointerRepository.ctor in
  refused next_page (fun _ => true) o \/ exists s a' r', o = Done (s, a', r') /\ PointerRepository.wf r'.
Proof.
  destruct (segments_created_and_mapped sample_database next_page (fun _ => true) sample_segments (Allocator.ctor 4096 1000)
    PointerRepository.ctor []) as [?|(s & a' & r' & E & W & _)].
  - exact next_page_ok.
  - apply Forall_cons_2; [exact MemoryManager.small_config_ok|]. apply Forall_singleton. exact MemoryManager.small_config_ok.
  - unfold MAX_SHM_SEGMENTS. simpl. lia.
  - constructor; simpl; done || lia.
  - by exists 512.
  - vm_compute. congruence.
  - exact BaseRelativePointer.ctor_wf.
  - unfold PointerRepository.MAX_ID, PointerRepository.CAPACITY. simpl. lia.
  - left. assumption.
  - right. exists s, a', r'. split; [exact E|exact W].
Defined.

(** [bob] reads both segments and writes the second; [alice] would write both. *)
Example sample_mappings :
  (let* '(s, _, _) := ctor sample_database next_page (fun _ => true) sample_segments (Allocator.ctor 4096 1000) PointerRepository.ctor in
   let groups user := PosixUser.getGroups sample_database (PosixUser.of_name sample_database user) in
   let* bob := getSegmentMappings sample_database (groups "bob") s in
   Done ((fun m => (m_sharedMemoryName m, m_isWritable m, m_segmentId m)) <$> bob,
         getSegmentMappings sample_database (groups "alice") s)) =
  Done ([("users", true, 2); ("admin", false, 1)], Terminated MEPOO__USER_WITH_MORE_THAN_ONE_WRITE_SEGMENT).
Proof. vm_compute. reflexivity. Qed.

(** A group that is looked up by its name never exists according to [doesExist],
    although the same group looked up by its id does; users are the same. *)
Lemma named_group_never_exists db name id : getgrnam db name = Some id -> getgrgid db id = Some name ->
  PosixGroup.eqb (PosixGroup.of_name db name) (PosixGroup.of_id db id) = true /\
  PosixGroup.doesExist (PosixGroup.of_name db name) = false /\ PosixGroup.doesExist (PosixGroup.of_id db id) = true.
Proof.
  intros H1 H2. unfold PosixGroup.of_name, PosixGroup.of_id, PosixGroup.getGroupID, PosixGroup.getGroupName. rewrite H1, H2.
  unfold PosixGroup.eqb. simpl. by rewrite Z.eqb_refl.
Qed.
End properties.
