(* ===== verification/RouDiMemory.v ===== *)
(** * The memory of RouDi

    RouDi keeps its management data in shared memory.  Memory blocks
    ([memory_block.cpp], [generic_memory_block.inl], [port_pool_memory_block.cpp],
    [mempool_collection_memory_block.cpp],
    [mempool_segment_manager_memory_block.cpp]) say how much memory they need; a
    memory provider ([memory_provider.cpp], [posix_shm_memory_provider.cpp]) gets
    one piece of memory for all of its blocks and places them; the memory managers
    ([roudi_memory_manager.cpp], [iceoryx_roudi_memory_manager.cpp],
    [default_roudi_memory.cpp]) create, announce and destroy the memory of their
    providers.  Blocks and providers are referred to by pointers: here the indices
    of two tables. *)

From S2P Require Import Prelude Helplets ChunkHeader MemPool MemoryManager RelativePointer SharedChunk SegmentManager.

(** ** Memory blocks *)

(** Sizes and alignments of the types that are placed. *)
Record Layout := mkLayout {
  sizeof_MemoryManager : Z; alignof_MemoryManager : Z;
  sizeof_SegmentManager : Z; alignof_SegmentManager : Z;
  sizeof_PortPoolData : Z; alignof_PortPoolData : Z }.

Module MemoryBlock.

(** The derived classes with their configuration; [Generic] is a
    [GenericMemoryBlock<T>]. *)
Inductive Kind :=
  | MemPoolCollection (m_memPoolConfig : MePooConfig.t)
  | MemPoolSegmentManager (m_segmentConfig : SegmentConfig.t)
  | PortPool
  | Generic (sizeof_T alignof_T : Z).

(** The objects that the blocks construct. *)
Inductive Object :=
  | TheMemoryManager (m : MemoryManager.t)
  | TheSegmentManager (s : SegmentManager.t)
  | ThePortPoolData
  | TheValue (v : Z).

(** [m_object] is [m_memoryManager], [m_segmentManager], [m_portPoolData] or
    [m_value]: the pointer with the object it points to. *)
Record t := mk { kind : Kind; m_memory : option Z; m_object : option (Z * Object) }.

Definition new (k : Kind) : t := mk k None None.
Definition set_memory (p : Z) (b : t) : t := mk (kind b) (Some p) (m_object b).
Definition set_object (o : option (Z * Object)) (b : t) : t := mk (kind b) (m_memory b) o.

Definition memory (b : t) : option Z := m_memory b.

Section block.
Context (L : Layout).

Definition MemPoolCollection_size (memPoolConfig : MePooConfig.t) : outcome Z :=
  let* full := MemoryManager.requiredFullMemorySize memPoolConfig in
  Done (u64 (align (sizeof_MemoryManager L) MemPool.CHUNK_MEMORY_ALIGNMENT + full)).
Definition MemPoolSegmentManager_size (segmentConfig : SegmentConfig.t) : Z :=
  u64 (align (sizeof_SegmentManager L) MemPool.CHUNK_MEMORY_ALIGNMENT + SegmentManager.requiredManagementMemorySize segmentConfig).
Definition PortPool_size : Z := sizeof_PortPoolData L.
Definition Generic_size (sizeof_T : Z) : Z := sizeof_T.

Definition size_of (k : Kind) : outcome Z :=
  match k with
  | MemPoolCollection cfg => MemPoolCollection_size cfg
  | MemPoolSegmentManager cfg => Done (MemPoolSegmentManager_size cfg)
  | PortPool => Done PortPool_size
  | Generic sizeof_T _ => Done (Generic_size sizeof_T)
  end.
Definition size (b : t) : outcome Z := size_of (kind b).

Definition MemPoolCollection_alignment : Z := Z.max (alignof_MemoryManager L) MemPool.CHUNK_MEMORY_ALIGNMENT.
Definition MemPoolSegmentManager_alignment : Z := Z.max (alignof_SegmentManager L) MemPool.CHUNK_MEMORY_ALIGNMENT.
Definition PortPool_alignment : Z := alignof_PortPoolData L.
Definition Generic_alignment (alignof_T : Z) : Z := alignof_T.

Definition alignment_of (k : Kind) : Z :=
  match k with
  | MemPoolCollection _ => MemPoolCollection_alignment
  | MemPoolSegmentManager _ => MemPoolSegmentManager_alignment
  | PortPool => PortPool_alignment
  | Generic _ alignof_T => Generic_alignment alignof_T
  end.
Definition alignment (b : t) : Z := alignment_of (kind b).

(** The destructor of the object and the reset of the pointer, in all classes. *)
Definition destroy (b : t) : t := set_object None b.

Context (db : UserDatabase) (create_shm : PointerRepository.t -> string -> Z -> option Z).
Context (rights : list AccessController.PermissionEntry -> bool).

Definition MemPoolCollection_onMemoryAvailable (memPoolConfig : MePooConfig.t) (memory : Z) (b : t) : outcome t :=
  let* s := size b in
  let* '(memoryManager, allocator) :=
    Allocator.allocate (Allocator.ctor memory s) (sizeof_MemoryManager L) (alignof_MemoryManager L) in
  let* '(m, _) := MemoryManager.configureMemoryManager_one MemoryManager.ctor memPoolConfig allocator in
  Done (set_object (Some (memoryManager, TheMemoryManager m)) b).

Definition MemPoolSegmentManager_onMemoryAvailable (segmentConfig : SegmentConfig.t) (memory : Z) (b : t)
    (r : PointerRepository.t) : outcome (t * PointerRepository.t) :=
  let* s := size b in
  let* '(segmentManager, allocator) :=
    Allocator.allocate (Allocator.ctor memory s) (sizeof_SegmentManager L) (alignof_SegmentManager L) in
  let* '(m, _, r) := SegmentManager.ctor db create_shm rights segmentConfig allocator r in
  Done (set_object (Some (segmentManager, TheSegmentManager m)) b, r).

Definition PortPool_onMemoryAvailable (memory : Z) (b : t) : t := set_object (Some (memory, ThePortPoolData)) b.

(** The virtual function, whose parameter is a [not_null]; the base class does
    nothing. *)
Definition onMemoryAvailable (memory : option Z) (b : t) (r : PointerRepository.t) : outcome (t * PointerRepository.t) :=
  match memory with
  | None => Terminated EXPECTS_ENSURES_FAILED
  | Some p =>
      match kind b with
      | MemPoolCollection cfg => let* b := MemPoolCollection_onMemoryAvailable cfg p b in Done (b, r)
      | MemPoolSegmentManager cfg => MemPoolSegmentManager_onMemoryAvailable cfg p b r
      | PortPool => Done (PortPool_onMemoryAvailable p b, r)
      | Generic _ _ => Done (b, r)
      end
  end.

(** [GenericMemoryBlock::emplace] and [value]. *)
Definition value (b : t) : option Z := fst <$> m_object b.
Definition emplace (v : Z) (b : t) : option Z * t :=
  let b := destroy b in
  let b := match memory b with Some p => set_object (Some (p, TheValue v)) b | None => b end in
  (value b, b).
End block.
End MemoryBlock.

(** ** Memory providers *)

Inductive MemoryProviderError :=
  | MEMORY_BLOCKS_EXHAUSTED
  | NO_MEMORY_BLOCKS_PRESENT
  | MEMORY_ALREADY_CREATED
  | MEMORY_CREATION_FAILED
  | MEMORY_ALIGNMENT_EXCEEDS_PAGE_SIZE
  | MEMORY_ALLOCATION_FAILED
  | MEMORY_MAPPING_FAILED
  | MEMORY_NOT_AVAILABLE
  | MEMORY_DESTRUCTION_FAILED
  | MEMORY_DEALLOCATION_FAILED
  | MEMORY_UNMAPPING_FAILED
  | SIGACTION_CALL_FAILED.

#[global] Instance MemoryProviderError_eq_dec : EqDecision MemoryProviderError.
Proof. solve_decision. Defined.

Definition getErrorString (e : MemoryProviderError) : string :=
  match e with
  | MEMORY_BLOCKS_EXHAUSTED => "MEMORY_BLOCKS_EXHAUSTED"
  | NO_MEMORY_BLOCKS_PRESENT => "NO_MEMORY_BLOCKS_PRESENT"
  | MEMORY_ALREADY_CREATED => "MEMORY_ALREADY_CREATED"
  | MEMORY_CREATION_FAILED => "MEMORY_CREATION_FAILED"
  | MEMORY_ALIGNMENT_EXCEEDS_PAGE_SIZE => "MEMORY_ALIGNMENT_EXCEEDS_PAGE_SIZE"
  | MEMORY_ALLOCATION_FAILED => "MEMORY_ALLOCATION_FAILED"
  | MEMORY_MAPPING_FAILED => "MEMORY_MAPPING_FAILED"
  | MEMORY_NOT_AVAILABLE => "MEMORY_NOT_AVAILABLE"
  | MEMORY_DESTRUCTION_FAILED => "MEMORY_DESTRUCTION_FAILED"
  | MEMORY_DEALLOCATION_FAILED => "MEMORY_DEALLOCATION_FAILED"
  | MEMORY_UNMAPPING_FAILED => "MEMORY_UNMAPPING_FAILED"
  | SIGACTION_CALL_FAILED => "SIGACTION_CALL_FAILED"
  end.

(** The pure virtual functions of [MemoryProvider]; [S] is the state of the
    derived class. *)
Class MemorySupply (S : Type) := {
  createMemory : Z -> Z -> PointerRepository.t -> S -> expected Z MemoryProviderError * S;
  destroyMemory : S -> expected unit MemoryProviderError * S }.

(** [PosixShmMemoryProvider]: a shared memory object with a name. *)
Module PosixShmMemoryProvider.
Record t := mk { m_shmName : string; m_shmObject : option Z }.

Section posix.
Context (pageSize : Z) (create_shm : PointerRepository.t -> string -> Z -> option Z).

Definition createMemory (size alignment : Z) (r : PointerRepository.t) (s : t) : expected Z MemoryProviderError * t :=
  if pageSize <? alignment then (error MEMORY_ALIGNMENT_EXCEEDS_PAGE_SIZE, s)
  else
    match create_shm r (m_shmName s) size with
    | None => (error MEMORY_CREATION_FAILED, s)
    | Some baseAddress =>
        let s := mk (m_shmName s) (Some baseAddress) in
        if baseAddress =? 0 then (error MEMORY_CREATION_FAILED, s) else (success baseAddress, s)
    end.

Definition destroyMemory (s : t) : expected unit MemoryProviderError * t := (success (), mk (m_shmName s) None).

Definition posix_supply : MemorySupply t := Build_MemorySupply t createMemory destroyMemory.
End posix.
End PosixShmMemoryProvider.

Definition MAX_NUMBER_OF_MEMORY_BLOCKS_PER_MEMORY_PROVIDER : Z := 64.
Definition MAX_NUMBER_OF_MEMORY_PROVIDER : Z := 8.

Module MemoryProvider.
Record t (S : Type) := mk {
  m_memory : option Z;
  m_size : Z;
  m_segmentId : Z;
  m_memoryAvailableAnnounced : bool;
  m_memoryBlocks : list nat;
  supply : S }.
Arguments mk {_} _ _ _ _ _ _.
Arguments m_memory {_} _.
Arguments m_size {_} _.
Arguments m_segmentId {_} _.
Arguments m_memoryAvailableAnnounced {_} _.
Arguments m_memoryBlocks {_} _.
Arguments supply {_} _.

Definition new {S} (s : S) : t S := mk None 0 0 false [] s.
End MemoryProvider.

(** The blocks, the providers and what the process has mapped. *)
Record Memory (S : Type) := mkMemory {
  blocks : list MemoryBlock.t;
  providers : list (MemoryProvider.t S);
  repository : PointerRepository.t }.
Arguments mkMemory {_} _ _ _.
Arguments blocks {_} _.
Arguments providers {_} _.
Arguments repository {_} _.

Section providers.
Context (L : Layout) (db : UserDatabase) (create_shm : PointerRepository.t -> string -> Z -> option Z).
Context (rights : list AccessController.PermissionEntry -> bool).
Context {S : Type} `{!MemorySupply S}.
Implicit Types (m : Memory S) (p : MemoryProvider.t S).

Definition set_blocks (v : list MemoryBlock.t) m : Memory S := mkMemory v (providers m) (repository m).
Definition set_provider (i : nat) p m : Memory S := mkMemory (blocks m) (<[i := p]> (providers m)) (repository m).
Definition set_repository (v : PointerRepository.t) m : Memory S := mkMemory (blocks m) (providers m) v.

Definition provider (i : nat) m : outcome (MemoryProvider.t S) :=
  match providers m !! i with Some p => Done p | None => Terminated UNDEFINED_BEHAVIOUR end.
Definition block (k : nat) (bs : list MemoryBlock.t) : outcome MemoryBlock.t :=
  match bs !! k with Some b => Done b | None => Terminated UNDEFINED_BEHAVIOUR end.

Definition isAvailable p : bool := bool_decide (MemoryProvider.m_memory p <> None).
Definition isAvailableAnnounced p : bool := MemoryProvider.m_memoryAvailableAnnounced p.
Definition baseAddress p : option Z := if isAvailable p then MemoryProvider.m_memory p else None.
Definition segmentId p : option Z := if isAvailable p then Some (MemoryProvider.m_segmentId p) else None.

Definition addMemoryBlock (i : nat) (memoryBlock : nat) m : outcome (expected unit MemoryProviderError * Memory S) :=
  let* p := provider i m in
  if isAvailable p then Done (error MEMORY_ALREADY_CREATED, m)
  else if Z.of_nat (length (MemoryProvider.m_memoryBlocks p)) <? MAX_NUMBER_OF_MEMORY_BLOCKS_PER_MEMORY_PROVIDER then
    let p := MemoryProvider.mk (MemoryProvider.m_memory p) (MemoryProvider.m_size p) (MemoryProvider.m_segmentId p)
               (MemoryProvider.m_memoryAvailableAnnounced p) (MemoryProvider.m_memoryBlocks p ++ [memoryBlock])
               (MemoryProvider.supply p) in
    Done (success (), set_provider i p m)
  else Done (error MEMORY_BLOCKS_EXHAUSTED, m).

(** The loop of [create] that adds up the sizes: [totalSize] and [maxAlignment]. *)
Fixpoint required (ks : list nat) (bs : list MemoryBlock.t) (totalSize maxAlignment : Z) : outcome (Z * Z) :=
  match ks with
  | [] => Done (totalSize, maxAlignment)
  | k :: ks =>
      let* b := block k bs in
      let alignment := MemoryBlock.alignment L b in
      let maxAlignment := if maxAlignment <? alignment then alignment else maxAlignment in
      let* s := MemoryBlock.size L b in
      let size := align s alignment in
      required ks bs (u64 (align totalSize alignment + size)) maxAlignment
  end.

(** The loop that places the blocks. *)
Fixpoint place (ks : list nat) (bs : list MemoryBlock.t) (allocator : Allocator.t) : outcome (list MemoryBlock.t) :=
  match ks with
  | [] => Done bs
  | k :: ks =>
      let* b := block k bs in
      let* s := MemoryBlock.size L b in
      let* '(address, allocator) := Allocator.allocate allocator s (MemoryBlock.alignment L b) in
      place ks (<[k := MemoryBlock.set_memory address b]> bs) allocator
  end.

Definition create (i : nat) m : outcome (expected unit MemoryProviderError * Memory S) :=
  let* p := provider i m in
  match MemoryProvider.m_memoryBlocks p with
  | [] => Done (error NO_MEMORY_BLOCKS_PRESENT, m)
  | ks =>
      if isAvailable p then Done (error MEMORY_ALREADY_CREATED, m)
      else
        let* '(totalSize, maxAlignment) := required ks (blocks m) 0 1 in
        let '(memoryResult, supply) := createMemory totalSize maxAlignment (repository m) (MemoryProvider.supply p) in
        match memoryResult with
        | error e =>
            Done (error e, set_provider i (MemoryProvider.mk (MemoryProvider.m_memory p) (MemoryProvider.m_size p)
                                             (MemoryProvider.m_segmentId p) (MemoryProvider.m_memoryAvailableAnnounced p) ks supply) m)
        | success memory =>
            let '(id, r) := PointerRepository.registerPtr (repository m) memory totalSize in
            let p := MemoryProvider.mk (Some memory) totalSize id (MemoryProvider.m_memoryAvailableAnnounced p) ks supply in
            let* bs := place ks (blocks m) (Allocator.ctor memory totalSize) in
            Done (success (), set_blocks bs (set_provider i p (set_repository r m)))
        end
  end.

Definition destroy_blocks (ks : list nat) (bs : list MemoryBlock.t) : list MemoryBlock.t :=
  foldl (fun bs k => alter MemoryBlock.destroy k bs) bs ks.

Definition destroy (i : nat) m : outcome (expected unit MemoryProviderError * Memory S) :=
  let* p := provider i m in
  if negb (isAvailable p) then Done (error MEMORY_NOT_AVAILABLE, m)
  else
    let m := set_blocks (destroy_blocks (MemoryProvider.m_memoryBlocks p) (blocks m)) m in
    let '(destructionResult, supply) := destroyMemory (MemoryProvider.supply p) in
    if negb (has_error destructionResult) then
      let r := snd (PointerRepository.unregisterPtr (repository m) (MemoryProvider.m_segmentId p)) in
      let p := MemoryProvider.mk None 0 (MemoryProvider.m_segmentId p) (MemoryProvider.m_memoryAvailableAnnounced p)
                 (MemoryProvider.m_memoryBlocks p) supply in
      Done (destructionResult, set_provider i p (set_repository r m))
    else
      let p := MemoryProvider.mk (MemoryProvider.m_memory p) (MemoryProvider.m_size p) (MemoryProvider.m_segmentId p)
                 (MemoryProvider.m_memoryAvailableAnnounced p) (MemoryProvider.m_memoryBlocks p) supply in
      Done (destructionResult, set_provider i p m).

(** The loop of [announceMemoryAvailable]. *)
Fixpoint announce (ks : list nat) (bs : list MemoryBlock.t) (r : PointerRepository.t)
    : outcome (list MemoryBlock.t * PointerRepository.t) :=
  match ks with
  | [] => Done (bs, r)
  | k :: ks =>
      let* b := block k bs in
      let* '(b, r) := MemoryBlock.onMemoryAvailable L db create_shm rights (MemoryBlock.m_memory b) b r in
      announce ks (<[k := b]> bs) r
  end.

Definition announceMemoryAvailable (i : nat) m : outcome (Memory S) :=
  let* p := provider i m in
  if negb (MemoryProvider.m_memoryAvailableAnnounced p) then
    let* '(bs, r) := announce (MemoryProvider.m_memoryBlocks p) (blocks m) (repository m) in
    let p := MemoryProvider.mk (MemoryProvider.m_memory p) (MemoryProvider.m_size p) (MemoryProvider.m_segmentId p) true
               (MemoryProvider.m_memoryBlocks p) (MemoryProvider.supply p) in
    Done (set_blocks bs (set_provider i p (set_repository r m)))
  else Done m.
End providers.

(** ** The memory manager of RouDi *)

Inductive RouDiMemoryManagerError :=
  | MEMORY_PROVIDER_EXHAUSTED
  | NO_MEMORY_PROVIDER_PRESENT
  | PROVIDER_CREATION_FAILED (* [RouDiMemoryManagerError::MEMORY_CREATION_FAILED] *)
  | PROVIDER_DESTRUCTION_FAILED (* [RouDiMemoryManagerError::MEMORY_DESTRUCTION_FAILED] *).

Module RouDiMemoryManager.
(** [m_memoryProvider] *)
Definition t : Type := list nat.

Definition addMemoryProvider (memoryProvider : nat) (ps : t) : expected unit RouDiMemoryManagerError * t :=
  if Z.of_nat (length ps) <? MAX_NUMBER_OF_MEMORY_PROVIDER then (success (), ps ++ [memoryProvider])
  else (error MEMORY_PROVIDER_EXHAUSTED, ps).

Section manager.
Context (L : Layout) (db : UserDatabase) (create_shm : PointerRepository.t -> string -> Z -> option Z).
Context (rights : list AccessController.PermissionEntry -> bool).
Context {S : Type} `{!MemorySupply S}.

(** The loop over [create], which stops at the first error. *)
Fixpoint create_all (ps : t) (m : Memory S) : outcome (bool * Memory S) :=
  match ps with
  | [] => Done (true, m)
  | i :: ps =>
      let* '(result, m) := create L i m in
      if has_error result then Done (false, m) else create_all ps m
  end.

Fixpoint announce_all (ps : t) (m : Memory S) : outcome (Memory S) :=
  match ps with
  | [] => Done m
  | i :: ps => let* m := announceMemoryAvailable L db create_shm rights i m in announce_all ps m
  end.

Definition createAndAnnounceMemory (ps : t) (m : Memory S) : outcome (expected unit RouDiMemoryManagerError * Memory S) :=
  match ps with
  | [] => Done (error NO_MEMORY_PROVIDER_PRESENT, m)
  | _ =>
      let* '(created, m) := create_all ps m in
      if negb created then Done (error PROVIDER_CREATION_FAILED, m)
      else let* m := announce_all ps m in Done (success (), m)
  end.

Fixpoint destroy_all (ps : t) (result : expected unit RouDiMemoryManagerError) (m : Memory S)
    : outcome (expected unit RouDiMemoryManagerError * Memory S) :=
  match ps with
  | [] => Done (result, m)
  | i :: ps =>
      let* '(destructionResult, m) := destroy i m in
      let result :=
        match destructionResult with
        | error e => if negb (bool_decide (e = MEMORY_NOT_AVAILABLE)) && negb (has_error result)
                     then error PROVIDER_DESTRUCTION_FAILED else result
        | success _ => result
        end in
      destroy_all ps result m
  end.

Definition destroyMemory (ps : t) (m : Memory S) : outcome (expected unit RouDiMemoryManagerError * Memory S) :=
  destroy_all ps (success ()) m.
End manager.
End RouDiMemoryManager.

(** ** The memory of the default RouDi *)

(** [sizeof] of the topics of the introspection. *)
Record Topics := mkTopics {
  sizeof_MemPoolIntrospectionInfoContainer : Z;
  sizeof_ProcessIntrospectionFieldTopic : Z;
  sizeof_PortIntrospectionFieldTopic : Z;
  sizeof_PortThroughputIntrospectionFieldTopic : Z;
  sizeof_SubscriberPortChangingIntrospectionFieldTopic : Z }.

Definition SHM_NAME : string := "iceoryx_mgmt".

Module DefaultRouDiMemory.
(** The members, which lie in the tables of blocks and providers. *)
Record t := mk { m_introspectionMemPoolBlock : nat; m_segmentManagerBlock : nat; m_managementShm : nat }.

Definition introspectionMemPoolConfig (T : Topics) : MePooConfig.t :=
  let ALIGNMENT := MemPool.CHUNK_MEMORY_ALIGNMENT in
  let CHUNK_COUNT := 10 in
  let push_back c size := MePooConfig.push_back c (MePooConfig.mkEntry (u32 (align (u32 size) ALIGNMENT)) CHUNK_COUNT) in
  MePooConfig.optimize
    (foldl push_back []
      [sizeof_MemPoolIntrospectionInfoContainer T; sizeof_ProcessIntrospectionFieldTopic T; sizeof_PortIntrospectionFieldTopic T;
       sizeof_PortThroughputIntrospectionFieldTopic T; sizeof_SubscriberPortChangingIntrospectionFieldTopic T]).

(** [or_else] with a handler that ends the process. *)
Definition or_fatal {A E M} (e : Error) (o : outcome (expected A E * M)) : outcome M :=
  let* '(result, m) := o in if has_error result then Terminated e else Done m.

Definition ctor (T : Topics) (roudiConfig : SegmentConfig.t) (m : Memory PosixShmMemoryProvider.t)
    : outcome (t * Memory PosixShmMemoryProvider.t) :=
  let n := length (blocks m) in
  let d := mk n (S n) (length (providers m)) in
  let m := mkMemory (blocks m ++ [MemoryBlock.new (MemoryBlock.MemPoolCollection (introspectionMemPoolConfig T));
                                  MemoryBlock.new (MemoryBlock.MemPoolSegmentManager roudiConfig)])
             (providers m ++ [MemoryProvider.new (PosixShmMemoryProvider.mk SHM_NAME None)]) (repository m) in
  let* m := or_fatal ROUDI__DEFAULT_ROUDI_MEMORY_FAILED_TO_ADD_INTROSPECTION_MEMORY_BLOCK
              (addMemoryBlock (m_managementShm d) (m_introspectionMemPoolBlock d) m) in
  let* m := or_fatal ROUDI__DEFAULT_ROUDI_MEMORY_FAILED_TO_ADD_SEGMENT_MANAGER_MEMORY_BLOCK
              (addMemoryBlock (m_managementShm d) (m_segmentManagerBlock d) m) in
  Done (d, m).
End DefaultRouDiMemory.

Module IceOryxRouDiMemoryManager.
(** [m_portPool] is the port pool that works on the [PortPoolData] at an address. *)
Record t := mk {
  m_portPoolBlock : nat;
  m_portPool : option Z;
  m_defaultMemory : DefaultRouDiMemory.t;
  m_memoryManager : RouDiMemoryManager.t }.

(** The file lock that keeps a second RouDi away has been acquired. *)
Definition ctor (T : Topics) (roudiConfig : SegmentConfig.t) (m : Memory PosixShmMemoryProvider.t)
    : outcome (t * Memory PosixShmMemoryProvider.t) :=
  let portPoolBlock := length (blocks m) in
  let m := mkMemory (blocks m ++ [MemoryBlock.new MemoryBlock.PortPool]) (providers m) (repository m) in
  let* '(d, m) := DefaultRouDiMemory.ctor T roudiConfig m in
  let* m := DefaultRouDiMemory.or_fatal ICEORYX_ROUDI_MEMORY_MANAGER__FAILED_TO_ADD_PORTPOOL_MEMORY_BLOCK
              (addMemoryBlock (DefaultRouDiMemory.m_managementShm d) portPoolBlock m) in
  let '(result, ps) := RouDiMemoryManager.addMemoryProvider (DefaultRouDiMemory.m_managementShm d) [] in
  if has_error result then Terminated ICEORYX_ROUDI_MEMORY_MANAGER__FAILED_TO_ADD_MANAGEMENT_MEMORY_BLOCK
  else Done (mk portPoolBlock None d ps, m).

(** [m_portPoolBlock.portPool()], [memoryManager()] and [segmentManager()] of the
    blocks. *)
Definition object (k : nat) (m : Memory PosixShmMemoryProvider.t) : option (Z * MemoryBlock.Object) :=
  b ← blocks m !! k; MemoryBlock.m_object b.

Definition portPool (g : t) : option Z := m_portPool g.
Definition introspectionMemoryManager (g : t) (m : Memory PosixShmMemoryProvider.t) : option (Z * MemoryBlock.Object) :=
  object (DefaultRouDiMemory.m_introspectionMemPoolBlock (m_defaultMemory g)) m.
Definition segmentManager (g : t) (m : Memory PosixShmMemoryProvider.t) : option (Z * MemoryBlock.Object) :=
  object (DefaultRouDiMemory.m_segmentManagerBlock (m_defaultMemory g)) m.

Section manager.
Context (L : Layout) (db : UserDatabase) (create_shm : PointerRepository.t -> string -> Z -> option Z).
Context (rights : list AccessController.PermissionEntry -> bool) (pageSize : Z).
#[local] Instance mgmt_supply : MemorySupply PosixShmMemoryProvider.t := PosixShmMemoryProvider.posix_supply pageSize create_shm.

Definition createAndAnnounceMemory (g : t) (m : Memory PosixShmMemoryProvider.t)
    : outcome (expected unit RouDiMemoryManagerError * t * Memory PosixShmMemoryProvider.t) :=
  let* '(result, m) := RouDiMemoryManager.createAndAnnounceMemory L db create_shm rights (m_memoryManager g) m in
  let g :=
    match object (m_portPoolBlock g) m with
    | Some (p, _) => if negb (has_error result) then mk (m_portPoolBlock g) (Some p) (m_defaultMemory g) (m_memoryManager g) else g
    | None => g
    end in
  Done (result, g, m).

Definition destroyMemory (g : t) (m : Memory PosixShmMemoryProvider.t)
    : outcome (expected unit RouDiMemoryManagerError * Memory PosixShmMemoryProvider.t) :=
  RouDiMemoryManager.destroyMemory (m_memoryManager g) m.
End manager.
End IceOryxRouDiMemoryManager.

(** ** Placing the blocks *)

(** What the clients of the pure virtual functions rely on: memory that is
    granted has the size and the alignment that were asked for and lies where
    nothing is registered. *)
Class LawfulSupply (S : Type) `{!MemorySupply S} : Prop :=
  createMemory_law size alignment r s base s' :
    createMemory size alignment r s = (success base, s') -> 0 < size -> 0 < alignment -> isPowerOfTwo alignment = true ->
    0 < base /\ (alignment | base) /\ base + size <= 2 ^ 47 /\ PointerRepository.free_range r base size.

(** The POSIX provider keeps it on a system that maps pages: larger alignments are
    refused. *)
Lemma posix_lawful create_shm : maps_free_pages create_shm ->
  @LawfulSupply _ (PosixShmMemoryProvider.posix_supply 4096 create_shm).
Proof.
  intros Hsys size al r s base s' E Hs Ha Hp. cbn in E. unfold PosixShmMemoryProvider.createMemory in E.
  revert E. case_zb; [done|]. destruct (create_shm _ _ _) as [b|] eqn:Eb; [|done]. case_zb; [done|]. intros [= <- _].
  destruct (Hsys _ _ _ _ Eb Hs) as (H1 & H2 & H3). pose proof H3 as (H4 & _).
  split; [lia|]. split; [|done]. transitivity 4096; [|done]. by apply pow2_divide; [lia|..].
Qed.

Lemma posix_refusal create_shm size alignment r s e s' :
  PosixShmMemoryProvider.createMemory 4096 create_shm size alignment r s = (error e, s') ->
  maps_free_pages create_shm -> 0 < size -> alignment <= 4096 -> create_shm r (PosixShmMemoryProvider.m_shmName s) size = None.
Proof.
  intros E Hsys Hs Ha. revert E. unfold PosixShmMemoryProvider.createMemory. rewrite (proj2 (Z.ltb_ge _ _)) by done.
  destruct (create_shm _ _ _) as [b|] eqn:Eb; [|done]. destruct (Hsys _ _ _ _ Eb Hs) as (_ & _ & Hf & _).
  case_zb; [lia|done].
Qed.

Lemma align_mono v w a : 0 <= v <= w -> 0 < a -> w + a <= 2 ^ 64 -> align v a <= align w a.
Proof.
  intros Hv Ha Hb. destruct (align_spec v a) as [R1 [q1 E1]]; [lia..|]. destruct (align_spec w a) as [R2 [q2 E2]]; [lia..|].
  rewrite E1, E2 in *. assert (q1 <= q2) by nia. nia.
Qed.

Section placing.
Context (L : Layout).
Implicit Types (b : MemoryBlock.t) (bs : list MemoryBlock.t).

(** A block with a size and an alignment that types can have. *)
Record fits b (s : Z) : Prop := {
  f_size : MemoryBlock.size L b = Done s;
  f_range : 0 < s <= 2 ^ 46;
  f_alignment : 0 < MemoryBlock.alignment L b <= 2 ^ 20;
  f_pow2 : isPowerOfTwo (MemoryBlock.alignment L b) = true }.

Definition fit bs (k : nat) : Prop := exists b s, bs !! k = Some b /\ fits b s.

(** The blocks of [bs] have got memory one behind the other, between [lo] and
    [hi], aligned as they need it. *)
Fixpoint placed (lo : Z) (ks : list nat) bs bs' (hi : Z) : Prop :=
  match ks with
  | [] => lo <= hi
  | k :: ks => exists b s p, bs !! k = Some b /\ MemoryBlock.size L b = Done s /\ lo <= p /\
      (MemoryBlock.alignment L b | p) /\ bs' !! k = Some (MemoryBlock.set_memory p b) /\ placed (p + s) ks bs bs' hi
  end.

Lemma larger_alignment mx al : 0 < mx -> isPowerOfTwo mx = true -> isPowerOfTwo al = true ->
  let mx' := if mx <? al then al else mx in mx <= mx' /\ al <= mx' /\ isPowerOfTwo mx' = true.
Proof. intros. unfold mx'. case_zb; split; done || lia. Qed.

Lemma required_ok ks : forall bs t mx,
  Forall (fit bs) ks -> 0 <= t -> t + 2 ^ 50 * Z.of_nat (length ks) <= 2 ^ 60 -> 0 < mx -> isPowerOfTwo mx = true ->
  exists t' mx', required L ks bs t mx = Done (t', mx') /\ t <= t' <= t + 2 ^ 50 * Z.of_nat (length ks) /\
    (ks <> [] -> 0 < t') /\ mx <= mx' /\ isPowerOfTwo mx' = true /\
    Forall (fun k => exists b, bs !! k = Some b /\ MemoryBlock.alignment L b <= mx') ks.
Proof.
  induction ks as [|k ks IH]; intros bs t mx Hf Ht Hb Hmx Hp; cbn [length] in *.
  { exists t, mx. split; [done|]. split; [lia|]. split; [done|]. split; [lia|]. by split. }
  apply Forall_cons in Hf as [(b & s & Hk & [F1 F2 F3 F4]) Hf]. simpl. unfold block. rewrite Hk. cbn [obind]. rewrite F1. cbn [obind].
  set (al := MemoryBlock.alignment L b) in *.
  destruct (align_spec t al) as [R1 _]; [lia..|]. destruct (align_spec s al) as [R2 _]; [lia..|].
  rewrite (u64_small (align t al + align s al)) by lia.
  destruct (larger_alignment mx al) as (H1 & H2 & H3); [done..|]. set (mx1 := if mx <? al then al else mx) in *.
  destruct (IH bs (align t al + align s al) mx1) as (t' & mx' & E & I1 & I2 & I3 & I4 & I5); try done; try lia.
  exists t', mx'. split; [done|]. split; [lia|]. split; [lia|]. split; [lia|]. split; [done|].
  apply Forall_cons_2; [|done]. exists b. split; [done|]. fold al. lia.
Qed.

Lemma required_alignment ks bs B : forall t mx t' mx',
  required L ks bs t mx = Done (t', mx') -> mx <= B ->
  Forall (fun k => forall b, bs !! k = Some b -> MemoryBlock.alignment L b <= B) ks -> mx' <= B.
Proof.
  induction ks as [|k ks IH]; intros t mx t' mx' E Hmx HB; [by injection E as _ <-|].
  apply Forall_cons in HB as [Hk HB]. simpl in E. unfold block in E. destruct (bs !! k) as [b|]; [|done].
  apply obind_Done_inv in E as (? & [= <-] & E). apply obind_Done_inv in E as (s & _ & E).
  eapply IH; [exact E| |exact HB]. specialize (Hk b eq_refl). case_zb; lia.
Qed.

Lemma place_ok ks : forall bs0 bs a t mx t' mx',
  required L ks bs0 t mx = Done (t', mx') -> 0 < mx -> isPowerOfTwo mx = true -> Forall (fit bs0) ks -> NoDup ks ->
  (forall k, k ∈ ks -> bs !! k = bs0 !! k) ->
  Allocator.wf a -> Allocator.m_currentPosition a <= t -> t' <= Allocator.m_length a -> t + 2 ^ 50 * Z.of_nat (length ks) <= 2 ^ 60 ->
  Forall (fun k => exists b, bs0 !! k = Some b /\ (MemoryBlock.alignment L b | Allocator.m_startAddress a)) ks ->
  exists bs', place L ks bs a = Done bs' /\ length bs' = length bs /\ (forall k, k ∉ ks -> bs' !! k = bs !! k) /\
    placed (Allocator.m_startAddress a + Allocator.m_currentPosition a) ks bs0 bs' (Allocator.m_startAddress a + t').
Proof.
  induction ks as [|k ks IH]; intros bs0 bs a t mx t' mx' E Hmx Hpow Hf Hn Hag Wa Hp Hl Hb Hd; cbn [length] in *.
  { injection E as <- <-. exists bs. split; [done|]. split; [done|]. split; [done|]. simpl. lia. }
  apply Forall_cons in Hf as [(b & s & Hk & [F1 F2 F3 F4]) Hf]. apply Forall_cons in Hd as [(b' & Hk' & Hdk) Hd].
  assert (b' = b) as -> by congruence. apply NoDup_cons in Hn as [Hnk Hn]. pose proof Wa as [W1 W2 W3 W4].
  assert (Hbk : bs !! k = Some b) by (rewrite Hag; [done|by left]).
  simpl in E. unfold block in E. rewrite Hk in E. cbn [obind] in E. rewrite F1 in E. cbn [obind] in E.
  set (al := MemoryBlock.alignment L b) in *. set (pos := Allocator.m_currentPosition a) in *.
  destruct (align_spec t al) as [R1 _]; [lia..|]. destruct (align_spec s al) as [R2 _]; [lia..|].
  rewrite (u64_small (align t al + align s al)) in E by lia. pose proof (align_mono pos t al) as Hmono.
  destruct (larger_alignment mx al) as (M1 & M2 & M3); [done..|]. set (mx1 := if mx <? al then al else mx) in *.
  destruct (required_ok ks bs0 (align t al + align s al) mx1) as (t2 & mx2 & E2 & Hend & _); try done; try lia.
  rewrite E in E2. injection E2 as <- <-.
  destruct (Allocator.allocate_spec a s al) as (a' & Ea & Wa' & S1 & L1 & P1); fold pos; try done; try lia.
  fold pos in Ea, P1. simpl. unfold block. rewrite Hbk. cbn [obind]. rewrite F1. cbn [obind]. fold al. rewrite Ea. cbn [obind].
  set (p := Allocator.m_startAddress a + align pos al) in *.
  destruct (IH bs0 (<[k := MemoryBlock.set_memory p b]> bs) a' _ _ _ _ E) as (bs' & E' & Hlen & Hout & Hpl); try done; try lia.
  { intros j Hj. rewrite list_lookup_insert_ne by congruence. apply Hag. by right. }
  { by rewrite S1. }
  exists bs'. split; [done|]. split; [by rewrite Hlen, length_insert|]. split.
  { intros j Hj. apply not_elem_of_cons in Hj as [Hj1 Hj2]. rewrite Hout by done. by apply list_lookup_insert_ne. }
  exists b, s, p. destruct (align_spec pos al) as [R3 R4]; [lia..|].
  split; [done|]. split; [done|]. split; [unfold p; lia|]. split; [by apply Z.divide_add_r|]. split.
  - rewrite Hout by done. apply list_lookup_insert_eq. by eapply lookup_lt_Some.
  - replace (p + s) with (Allocator.m_startAddress a' + Allocator.m_currentPosition a') by (unfold p; lia). by rewrite <- S1.
Qed.
End placing.

Section creating.
Context (L : Layout) {S : Type} `{!MemorySupply S}.
Implicit Types (m : Memory S) (p : MemoryProvider.t S).

(** A provider whose memory can be created. *)
Record creatable m p : Prop := {
  c_unavailable : MemoryProvider.m_memory p = None;
  c_blocks : MemoryProvider.m_memoryBlocks p <> [];
  c_fit : Forall (fit L (blocks m)) (MemoryProvider.m_memoryBlocks p);
  c_distinct : NoDup (MemoryProvider.m_memoryBlocks p);
  c_number : Z.of_nat (length (MemoryProvider.m_memoryBlocks p)) <= MAX_NUMBER_OF_MEMORY_BLOCKS_PER_MEMORY_PROVIDER;
  c_repository : PointerRepository.wf (repository m);
  c_id : PointerRepository.m_maxRegistered (repository m) < PointerRepository.MAX_ID }.

(** What [create] leaves: the memory is registered and the blocks are placed in it. *)
Record created_as i m p (base total : Z) (s : S) m' : Prop := {
  ca_provider : exists id, providers m' = <[i := MemoryProvider.mk (Some base) total id (MemoryProvider.m_memoryAvailableAnnounced p)
                                               (MemoryProvider.m_memoryBlocks p) s]> (providers m) /\
    PointerRepository.m_info (repository m) !! id = None /\
    PointerRepository.m_info (repository m') = <[id := PointerRepository.mkInfo base (base + total - 1)]> (PointerRepository.m_info (repository m));
  ca_wf : PointerRepository.wf (repository m');
  ca_max : PointerRepository.m_maxRegistered (repository m') <= PointerRepository.m_maxRegistered (repository m) + 1;
  ca_base : 0 < base /\ base + total <= 2 ^ 47;
  ca_placed : placed L base (MemoryProvider.m_memoryBlocks p) (blocks m) (blocks m') (base + total);
  ca_length : length (blocks m') = length (blocks m);
  ca_others : forall k, k ∉ MemoryProvider.m_memoryBlocks p -> blocks m' !! k = blocks m !! k }.

Definition with_supply (s : S) p : MemoryProvider.t S :=
  MemoryProvider.mk (MemoryProvider.m_memory p) (MemoryProvider.m_size p) (MemoryProvider.m_segmentId p)
    (MemoryProvider.m_memoryAvailableAnnounced p) (MemoryProvider.m_memoryBlocks p) s.

Lemma create_places_blocks `{!LawfulSupply S} i m p : providers m !! i = Some p -> creatable m p ->
  exists total alignment, required L (MemoryProvider.m_memoryBlocks p) (blocks m) 0 1 = Done (total, alignment) /\ 0 < total /\
    match createMemory total alignment (repository m) (MemoryProvider.supply p) with
    | (error e, s) => create L i m = Done (error e, set_provider i (with_supply s p) m)
    | (success base, s) => exists m', create L i m = Done (success (), m') /\ created_as i m p base total s m'
    end.
Proof.
  intros Hp [C1 C2 C3 C4 C5 C6 C7]. unfold MAX_NUMBER_OF_MEMORY_BLOCKS_PER_MEMORY_PROVIDER in C5.
  destruct (required_ok L (MemoryProvider.m_memoryBlocks p) (blocks m) 0 1) as (t & mx & E & B1 & B2 & B3 & B4 & B5); try done; try lia.
  specialize (B2 C2). exists t, mx. split; [done|]. split; [done|].
  assert (Hc : create L i m =
    let '(memoryResult, supply) := createMemory t mx (repository m) (MemoryProvider.supply p) in
    match memoryResult with
    | error e => Done (error e, set_provider i (with_supply supply p) m)
    | success memory =>
        let '(id, r) := PointerRepository.registerPtr (repository m) memory t in
        let p := MemoryProvider.mk (Some memory) t id (MemoryProvider.m_memoryAvailableAnnounced p) (MemoryProvider.m_memoryBlocks p) supply in
        let* bs := place L (MemoryProvider.m_memoryBlocks p) (blocks m) (Allocator.ctor memory t) in
        Done (success (), set_blocks bs (set_provider i p (set_repository r m)))
    end).
  { unfold create, provider, isAvailable. rewrite Hp. cbn [obind]. rewrite C1, bool_decide_false by congruence.
    unfold with_supply. rewrite C1. destruct (MemoryProvider.m_memoryBlocks p) as [|k ks]; [done|]. by rewrite E. }
  rewrite Hc. clear Hc. destruct (createMemory _ _ _ _) as [[base|e] s] eqn:Em; [|done].
  destruct (createMemory_law _ _ _ _ _ _ Em) as (M1 & M2 & M3 & M4); [lia|lia|done|].
  destruct (registerPtr_fresh _ base t C6 M4 C7) as (id & -> & W & Hid & Hinfo & Hmax). cbn zeta. cbn [MemoryProvider.m_memoryBlocks].
  destruct (place_ok L _ (blocks m) (blocks m) (Allocator.ctor base t) 0 1 t mx E) as (bs' & -> & Hl & Ho & Hpl); simpl; try done; try lia.
  { constructor; simpl; done || lia. }
  { eapply Forall_impl; [exact (proj2 (Forall_and _ _) (conj B5 C3))|]. intros k [(b & Hk & Hle) (b' & s' & Hk' & [F1 F2 F3 F4])].
    assert (b' = b) as -> by congruence. exists b. split; [done|]. transitivity mx; [|done]. by apply pow2_divide; [lia|..]. }
  eexists. split; [done|]. constructor; simpl; try done; [|simpl in Hpl; by rewrite Z.add_0_r in Hpl].
  exists id. split; [done|]. split; [done|]. f_equal. destruct M4 as (M4 & M5 & M6 & _). by rewrite u64_small by lia.
Qed.
End creating.

(** ** Constructing the objects *)

Section announcing.
Context (L : Layout) (db : UserDatabase) (create_shm : PointerRepository.t -> string -> Z -> option Z).
Context (rights : list AccessController.PermissionEntry -> bool).

Definition type_ok (size alignment : Z) : Prop :=
  0 < size <= 2 ^ 30 /\ 0 < alignment <= 4096 /\ isPowerOfTwo alignment = true.

Record layout_ok : Prop := {
  lo_manager : type_ok (sizeof_MemoryManager L) (alignof_MemoryManager L);
  lo_segments : type_ok (sizeof_SegmentManager L) (alignof_SegmentManager L);
  lo_ports : type_ok (sizeof_PortPoolData L) (alignof_PortPoolData L) }.

Definition segments_ok (c : SegmentConfig.t) : Prop :=
  Forall (fun e => MemoryManager.cfg_ok (SegmentConfig.m_mempoolConfig e)) c /\ Z.of_nat (length c) <= MAX_SHM_SEGMENTS.

Context (HL : layout_ok).

(** The alignment of blocks that hold memory pools is the larger of two powers of
    two, thus a multiple of both. *)
Lemma max_alignment al : 0 < al <= 4096 -> isPowerOfTwo al = true ->
  let mx := Z.max al MemPool.CHUNK_MEMORY_ALIGNMENT in
  0 < mx <= 4096 /\ isPowerOfTwo mx = true /\ (al | mx) /\ (MemPool.CHUNK_MEMORY_ALIGNMENT | mx).
Proof.
  intros Hal Hp mx. unfold MemPool.CHUNK_MEMORY_ALIGNMENT in *.
  assert (Hm : isPowerOfTwo mx = true) by (unfold mx; destruct (Z.max_spec al 8) as [[_ ->]|[_ ->]]; done).
  split; [lia|]. split; [done|]. split; by apply pow2_divide; [lia|..].
Qed.

Lemma full_bytes cfg : MemoryManager.cfg_ok cfg ->
  exists F, MemoryManager.requiredFullMemorySize cfg = Done F /\ 0 <= F <= 2 ^ 39.
Proof.
  intros Hok. destruct (MemoryManager.requiredManagementMemorySize_bounds _ Hok) as (_ & _ & B3 & _ & _ & B6 & _).
  unfold MemoryManager.requiredFullMemorySize. rewrite MemoryManager.requiredChunkMemorySize_ok.
  - simpl. rewrite u64_small by lia. eexists. split; [done|]. lia.
  - apply Hok.
  - pose proof (MemoryManager.co_length _ Hok). unfold MePooConfig.MAX_NUMBER_OF_MEMPOOLS in *. lia.
Qed.

Lemma segments_bytes c : segments_ok c -> 0 <= SegmentManager.requiredManagementMemorySize c <= 2 ^ 45.
Proof.
  intros [H1 H2]. rewrite requiredManagement_ok by done. destruct (management_bytes_bounds c H1) as [H _].
  unfold MAX_SHM_SEGMENTS in H2. lia.
Qed.

(** A block with an object of [size] bytes in front of [rest] bytes. *)
Lemma header_room p size alignment rest : type_ok size alignment -> 0 <= rest <= 2 ^ 45 -> 0 < p ->
  (Z.max alignment MemPool.CHUNK_MEMORY_ALIGNMENT | p) ->
  let s := u64 (align size MemPool.CHUNK_MEMORY_ALIGNMENT + rest) in
  p + s <= 2 ^ 47 ->
  exists a, Allocator.allocate (Allocator.ctor p s) size alignment = Done (p, a) /\ Allocator.wf a /\
    Allocator.m_startAddress a = p /\ (MemPool.CHUNK_MEMORY_ALIGNMENT | p) /\
    align (Allocator.m_currentPosition a) MemPool.CHUNK_MEMORY_ALIGNMENT + rest <= Allocator.m_length a.
Proof.
  intros ([H1 H2] & H3 & H4) Hr Hp Hd s Hs. destruct (max_alignment alignment H3 H4) as (_ & _ & D1 & D2).
  assert (D3 : (MemPool.CHUNK_MEMORY_ALIGNMENT | p)) by (by etransitivity).
  unfold MemPool.CHUNK_MEMORY_ALIGNMENT in *. destruct (align_spec size 8) as [R _]; [lia..|].
  assert (Es : s = align size 8 + rest) by (unfold s; apply u64_small; lia).
  assert (Hz : align 0 alignment = 0) by (apply align_id; [lia|lia|by exists 0]).
  destruct (Allocator.allocate_spec (Allocator.ctor p s) size alignment) as (a & E & W & S1 & L1 & P1);
    [constructor; simpl; done || lia|done|lia|simpl; by etransitivity|simpl; lia|lia|].
  simpl in E, S1, L1, P1. rewrite Hz, Z.add_0_r in *. exists a. rewrite P1, L1, Es. split; [by rewrite <- Es|].
  split; [done|]. split; [done|]. split; [done|]. rewrite Z.add_0_l. lia.
Qed.

Lemma header_fits b size alignment rest : type_ok size alignment -> 0 <= rest <= 2 ^ 45 ->
  MemoryBlock.size L b = Done (u64 (align size MemPool.CHUNK_MEMORY_ALIGNMENT + rest)) ->
  MemoryBlock.alignment L b = Z.max alignment MemPool.CHUNK_MEMORY_ALIGNMENT ->
  fits L b (u64 (align size MemPool.CHUNK_MEMORY_ALIGNMENT + rest)).
Proof.
  intros ([H1 H2] & H3 & H4) Hr Es Ea. destruct (max_alignment alignment H3 H4) as (M1 & M2 & _).
  destruct (align_spec size MemPool.CHUNK_MEMORY_ALIGNMENT) as [R _]; [unfold MemPool.CHUNK_MEMORY_ALIGNMENT; lia..|].
  unfold MemPool.CHUNK_MEMORY_ALIGNMENT in *. constructor; rewrite ?Ea; try done; [rewrite u64_small by lia|]; lia.
Qed.

Lemma collection_fits cfg b : MemoryBlock.kind b = MemoryBlock.MemPoolCollection cfg -> MemoryManager.cfg_ok cfg -> exists s, fits L b s.
Proof.
  intros Hk Hok. destruct (full_bytes cfg Hok) as (F & EF & BF).
  eexists. eapply header_fits; [exact (lo_manager HL)|split; [apply BF|lia]|..].
  - unfold MemoryBlock.size. rewrite Hk. cbn. unfold MemoryBlock.MemPoolCollection_size. by rewrite EF.
  - unfold MemoryBlock.alignment. by rewrite Hk.
Qed.

Lemma collection_available cfg b p s r : MemoryBlock.kind b = MemoryBlock.MemPoolCollection cfg -> MemoryManager.cfg_ok cfg ->
  MemoryBlock.size L b = Done s -> 0 < p -> (MemoryBlock.alignment L b | p) -> p + s <= 2 ^ 47 ->
  exists mm, MemoryBlock.onMemoryAvailable L db create_shm rights (Some p) b r =
    Done (MemoryBlock.set_object (Some (p, MemoryBlock.TheMemoryManager mm)) b, r) /\ MemoryManager.Valid mm [] /\
    MemPool.m_chunkSize <$> MemoryManager.m_memPoolVector mm = (fun e => MePooConfig.m_size e + SIZEOF_CHUNK_HEADER) <$> cfg /\
    MemPool.m_numberOfChunks <$> MemoryManager.m_memPoolVector mm = MePooConfig.m_chunkCount <$> cfg.
Proof.
  intros Hk Hok Es Hp Hal Hs. destruct (full_bytes cfg Hok) as (F & EF & BF).
  unfold MemoryBlock.onMemoryAvailable. rewrite Hk. unfold MemoryBlock.MemPoolCollection_onMemoryAvailable. rewrite Es. cbn [obind].
  unfold MemoryBlock.size, MemoryBlock.alignment in Es, Hal. rewrite Hk in Es, Hal.
  cbn in Es, Hal. unfold MemoryBlock.MemPoolCollection_size in Es. rewrite EF in Es. injection Es as <-. cbn [obind].
  destruct (header_room p _ _ F (lo_manager HL)) as (a & -> & W & S1 & D & Hl); [lia|done|done|done|]. cbn [obind].
  destruct (MemoryManager.configure_one_valid cfg a F) as (mm & a' & -> & Hv); [done|done|done|by rewrite S1|done|].
  cbn [obind]. by exists mm.
Qed.

Lemma segments_fits c b : MemoryBlock.kind b = MemoryBlock.MemPoolSegmentManager c -> segments_ok c -> exists s, fits L b s.
Proof.
  intros Hk Hok. eexists. eapply header_fits; [exact (lo_segments HL)|exact (segments_bytes c Hok)|..].
  - unfold MemoryBlock.size. by rewrite Hk.
  - unfold MemoryBlock.alignment. by rewrite Hk.
Qed.

Lemma segments_available c b p s r : maps_free_pages create_shm ->
  MemoryBlock.kind b = MemoryBlock.MemPoolSegmentManager c -> segments_ok c ->
  MemoryBlock.size L b = Done s -> 0 < p -> (MemoryBlock.alignment L b | p) -> p + s <= 2 ^ 47 ->
  PointerRepository.wf r -> PointerRepository.m_maxRegistered r + Z.of_nat (length c) <= PointerRepository.MAX_ID ->
  let o := MemoryBlock.onMemoryAvailable L db create_shm rights (Some p) b r in
  refused create_shm rights o \/ exists sm r', o = Done (MemoryBlock.set_object (Some (p, MemoryBlock.TheSegmentManager sm)) b, r') /\
    Forall2 (segment_ok db r') c sm /\ PointerRepository.wf r' /\ PointerRepository.m_info r ⊆ PointerRepository.m_info r'.
Proof.
  intros Hsys Hk Hok Es Hp Hal Hs Wr Hmax. pose proof (segments_bytes c Hok) as BF. destruct Hok as [H1 H2].
  unfold MemoryBlock.onMemoryAvailable. rewrite Hk. unfold MemoryBlock.MemPoolSegmentManager_onMemoryAvailable. rewrite Es. cbn [obind].
  unfold MemoryBlock.size, MemoryBlock.alignment in Es, Hal. rewrite Hk in Es, Hal. injection Es as <-.
  unfold MemoryBlock.MemPoolSegmentManager_size in *.
  destruct (header_room p _ _ _ (lo_segments HL) BF Hp Hal Hs) as (a & -> & W & S1 & D & Hl). cbn [obind].
  rewrite requiredManagement_ok in Hl by done. unfold SegmentManager.ctor.
  destruct (createSegments_ok db create_shm rights Hsys c [] a r []) as [(e & He & ->)|(sm & a' & r' & -> & I1 & I2 & I3 & I4)];
    [done|done|by rewrite S1|done|done|done|done|by constructor|apply NoDup_nil_2|left; by exists e|].
  right. by exists sm, r'.
Qed.
End announcing.

(** ** Properties *)

Section properties.
Import IceOryxRouDiMemoryManager.
Context (L : Layout) (db : UserDatabase) (create_shm : PointerRepository.t -> string -> Z -> option Z).
Context (rights : list AccessController.PermissionEntry -> bool) (T : Topics) (c : SegmentConfig.t).
Notation pools := (DefaultRouDiMemory.introspectionMemPoolConfig T).

(** RouDi as it is constructed. *)
Definition fresh_manager : t := mk 0 None (DefaultRouDiMemory.mk 1 2 0) [0%nat].
Definition fresh_memory (r : PointerRepository.t) : Memory PosixShmMemoryProvider.t :=
  mkMemory [MemoryBlock.new MemoryBlock.PortPool; MemoryBlock.new (MemoryBlock.MemPoolCollection pools);
            MemoryBlock.new (MemoryBlock.MemPoolSegmentManager c)]
    [MemoryProvider.mk None 0 0 false [1%nat; 2%nat; 0%nat] (PosixShmMemoryProvider.mk SHM_NAME None)] r.

Lemma ctor_fresh r : ctor T c (mkMemory [] [] r) = Done (fresh_manager, fresh_memory r).
Proof. reflexivity. Qed.

(** The memory has been created at [base] and holds the objects, one behind the
    other: the memory manager of the introspection with its pools, the segment
    manager and the data of the port pool. *)
Definition ready (base : Z) (g : t) (m : Memory PosixShmMemoryProvider.t) : Prop :=
  exists total id a1 a2 a3 s1 s2 mm sm,
    providers m = [MemoryProvider.mk (Some base) total id true [1%nat; 2%nat; 0%nat] (PosixShmMemoryProvider.mk SHM_NAME (Some base))] /\
    blocks m = [MemoryBlock.mk MemoryBlock.PortPool (Some a3) (Some (a3, MemoryBlock.ThePortPoolData));
                MemoryBlock.mk (MemoryBlock.MemPoolCollection pools) (Some a1) (Some (a1, MemoryBlock.TheMemoryManager mm));
                MemoryBlock.mk (MemoryBlock.MemPoolSegmentManager c) (Some a2) (Some (a2, MemoryBlock.TheSegmentManager sm))] /\
    PointerRepository.wf (repository m) /\
    PointerRepository.m_info (repository m) !! id = Some (PointerRepository.mkInfo base (base + total - 1)) /\
    MemoryBlock.size_of L (MemoryBlock.MemPoolCollection pools) = Done s1 /\
    MemoryBlock.size_of L (MemoryBlock.MemPoolSegmentManager c) = Done s2 /\
    base <= a1 /\ a1 + s1 <= a2 /\ a2 + s2 <= a3 /\ a3 + sizeof_PortPoolData L <= base + total /\ 0 < s1 /\ 0 < s2 /\
    (alignof_MemoryManager L | a1) /\ (alignof_SegmentManager L | a2) /\ (alignof_PortPoolData L | a3) /\
    MemoryManager.Valid mm [] /\
    MemPool.m_chunkSize <$> MemoryManager.m_memPoolVector mm = (fun e => MePooConfig.m_size e + SIZEOF_CHUNK_HEADER) <$> pools /\
    MemPool.m_numberOfChunks <$> MemoryManager.m_memPoolVector mm = MePooConfig.m_chunkCount <$> pools /\
    Forall2 (segment_ok db (repository m)) c sm /\
    introspectionMemoryManager g m = Some (a1, MemoryBlock.TheMemoryManager mm) /\
    segmentManager g m = Some (a2, MemoryBlock.TheSegmentManager sm) /\
    portPool g = Some a3.

(** What is left when the memory [m] has been destroyed: no block has an object and
    no provider memory, the shared memory object is gone and its registration removed.
    The blocks keep their addresses and the provider that it has announced the memory. *)
Definition destroyed (m m' : Memory PosixShmMemoryProvider.t) : Prop :=
  exists base total id,
    providers m = [MemoryProvider.mk (Some base) total id true [1%nat; 2%nat; 0%nat] (PosixShmMemoryProvider.mk SHM_NAME (Some base))] /\
    providers m' = [MemoryProvider.mk None 0 id true [1%nat; 2%nat; 0%nat] (PosixShmMemoryProvider.mk SHM_NAME None)] /\
    blocks m' = MemoryBlock.set_object None <$> blocks m /\
    repository m' = snd (PointerRepository.unregisterPtr (repository m) id).

Context (Hsys : maps_free_pages create_shm) (HL : layout_ok L) (Hpools : MemoryManager.cfg_ok pools) (Hc : segments_ok c).

Lemma fresh_creatable r : PointerRepository.wf r -> PointerRepository.m_maxRegistered r < PointerRepository.MAX_ID ->
  forall p, providers (fresh_memory r) !! 0%nat = Some p -> creatable L (fresh_memory r) p.
Proof.
  intros Wr Hmax p [= <-]. constructor; simpl; try done.
  - destruct (collection_fits L HL pools _ (eq_refl : MemoryBlock.kind (MemoryBlock.new _) = _) Hpools) as [s1 F1].
    destruct (segments_fits L HL c _ (eq_refl : MemoryBlock.kind (MemoryBlock.new _) = _) Hc) as [s2 F2].
    apply Forall_cons_2; [by exists (MemoryBlock.new (MemoryBlock.MemPoolCollection pools)), s1|].
    apply Forall_cons_2; [by exists (MemoryBlock.new (MemoryBlock.MemPoolSegmentManager c)), s2|]. apply Forall_singleton.
    exists (MemoryBlock.new MemoryBlock.PortPool), (sizeof_PortPoolData L). split; [done|].
    destruct (lo_ports L HL) as ([? ?] & ? & ?). constructor; try done; cbn; unfold MemoryBlock.PortPool_size, MemoryBlock.PortPool_alignment; lia.
  - repeat (apply NoDup_cons; split; [set_solver|]). apply NoDup_nil_2.
Qed.

#[local] Existing Instance mgmt_supply.
#[local] Existing Instance posix_lawful.

(** Where [create] has placed the three blocks. *)
Record places (base total id a1 a2 a3 s1 s2 : Z) (s : PosixShmMemoryProvider.t) (m : Memory PosixShmMemoryProvider.t) : Prop := {
  pl_provider : providers m = [MemoryProvider.mk (Some base) total id false [1%nat; 2%nat; 0%nat] s];
  pl_info : PointerRepository.m_info (repository m) !! id = Some (PointerRepository.mkInfo base (base + total - 1));
  pl_wf : PointerRepository.wf (repository m);
  pl_ids : PointerRepository.m_maxRegistered (repository m) + Z.of_nat (length c) <= PointerRepository.MAX_ID;
  pl_base : 0 < base /\ base + total <= 2 ^ 47;
  pl_size1 : MemoryBlock.size_of L (MemoryBlock.MemPoolCollection pools) = Done s1 /\ 0 < s1;
  pl_size2 : MemoryBlock.size_of L (MemoryBlock.MemPoolSegmentManager c) = Done s2 /\ 0 < s2;
  pl_order : base <= a1 /\ a1 + s1 <= a2 /\ a2 + s2 <= a3 /\ a3 + sizeof_PortPoolData L <= base + total;
  pl_align : (MemoryBlock.alignment_of L (MemoryBlock.MemPoolCollection pools) | a1) /\
             (MemoryBlock.alignment_of L (MemoryBlock.MemPoolSegmentManager c) | a2) /\ (alignof_PortPoolData L | a3);
  pl_blocks : blocks m = [MemoryBlock.mk MemoryBlock.PortPool (Some a3) None;
                          MemoryBlock.mk (MemoryBlock.MemPoolCollection pools) (Some a1) None;
                          MemoryBlock.mk (MemoryBlock.MemPoolSegmentManager c) (Some a2) None] }.

Lemma created_places r base total s m p :
  providers (fresh_memory r) !! 0%nat = Some p -> created_as L 0 (fresh_memory r) p base total s m ->
  PointerRepository.m_maxRegistered r + Z.of_nat (length c) < PointerRepository.MAX_ID ->
  exists id a1 a2 a3 s1 s2, places base total id a1 a2 a3 s1 s2 s m.
Proof.
  intros [= <-] [(id & Ep & Hid & Hinfo) Wr Hmax HB Hpl Hlen _] Hids. cbn in Ep, Hmax, Hinfo.
  destruct Hpl as (b1 & s1 & a1 & [= <-] & Z1 & P1 & D1 & K1 & b2 & s2 & a2 & [= <-] & Z2 & P2 & D2 & K2
                   & b3 & s3 & a3 & [= <-] & [= <-] & P3 & D3 & K3 & P4).
  cbn [placed] in P4.
  destruct (collection_fits L HL pools _ (eq_refl : MemoryBlock.kind (MemoryBlock.new _) = _) Hpools) as [s1' [F1 F1' _ _]].
  destruct (segments_fits L HL c _ (eq_refl : MemoryBlock.kind (MemoryBlock.new _) = _) Hc) as [s2' [F2 F2' _ _]].
  assert (s1' = s1) as -> by congruence. assert (s2' = s2) as -> by congruence.
  exists id, a1, a2, a3, s1, s2. constructor; try done; [by rewrite Hinfo, lookup_insert_eq|lia|split; [done|lia]..|].
  destruct (blocks m) as [|x0 [|x1 [|x2 [|]]]]; try discriminate. injection K1 as ->. injection K2 as ->. by injection K3 as ->.
Qed.

(** Announcing created memory constructs the three objects. *)
Lemma announce_places base total id a1 a2 a3 s1 s2 m :
  places base total id a1 a2 a3 s1 s2 (PosixShmMemoryProvider.mk SHM_NAME (Some base)) m ->
  let o := announceMemoryAvailable L db create_shm rights 0 m in
  refused create_shm rights o \/
  exists m', o = Done m' /\ object 0 m' = Some (a3, MemoryBlock.ThePortPoolData) /\
    ready base (mk 0 (Some a3) (m_defaultMemory fresh_manager) [0%nat]) m'.
Proof.
  intros [Ep Hinfo Wr Hids [B1 B2] [Z1 Z1'] [Z2 Z2'] (P1 & P2 & P3 & P4) (D1 & D2 & D3) K].
  pose proof (lo_ports L HL) as ([? ?] & _).
  unfold announceMemoryAvailable, provider. rewrite Ep, K.
  cbn [lookup list_lookup obind MemoryProvider.m_memoryAvailableAnnounced negb MemoryProvider.m_memoryBlocks announce block].
  unfold block. cbn [lookup list_lookup obind MemoryBlock.m_memory].
  destruct (collection_available L db create_shm rights HL pools _ a1 s1 (repository m) (eq_refl : MemoryBlock.kind (MemoryBlock.mk _ (Some a1) None) = _)
    Hpools Z1) as (mm & -> & Hv & Hsz & Hcnt); [lia|done|lia|]. cbn [obind].
  unfold block. cbn [insert list_insert lookup list_lookup obind MemoryBlock.m_memory].
  destruct (segments_available L db create_shm rights HL c _ a2 s2 (repository m) Hsys
    (eq_refl : MemoryBlock.kind (MemoryBlock.mk _ (Some a2) None) = _) Hc Z2) as [(e & He & ->)|(sm & r' & -> & Hsm & Wr' & Hsub)]; try done; try lia.
  { left. by exists e. }
  right. eexists. split; [reflexivity|]. split; [done|].
  exists total, id, a1, a2, a3, s1, s2, mm, sm. cbn. rewrite Ep. split; [done|]. split; [done|]. split; [done|].
  split; [by eapply lookup_weaken|].
  destruct (max_alignment (alignof_MemoryManager L)) as (_ & _ & M1 & _); [apply HL..|].
  destruct (max_alignment (alignof_SegmentManager L)) as (_ & _ & M2 & _); [apply HL..|].
  split_and!; try done; by etransitivity.
Qed.

(** Destroying the memory destroys the objects and unregisters the memory. *)
Lemma destroy_ready base g m : m_memoryManager g = [0%nat] -> ready base g m ->
  exists m', destroyMemory create_shm 4096 g m = Done (success (), m') /\ destroyed m m'.
Proof.
  intros Hm (total & id & a1 & a2 & a3 & s1 & s2 & mm & sm & Ep & Eb & _).
  unfold destroyMemory, RouDiMemoryManager.destroyMemory. rewrite Hm. cbn [RouDiMemoryManager.destroy_all].
  unfold destroy, provider. rewrite Ep, Eb. eexists. split; [reflexivity|].
  exists base, total, id. rewrite Eb. cbn. by rewrite Ep.
Qed.
End properties.

Section theorem.
Import IceOryxRouDiMemoryManager.

(** C34: RouDi gets its memory completely or not at all.  For a valid configuration
    [createAndAnnounceMemory] ends the process only if the system refuses a segment
    or its access rights; if the system refuses the management memory the call
    fails, nothing has been constructed and nothing is registered; otherwise the
    provider has computed enough memory for all blocks: the memory manager of the
    introspection, the segment manager and the port pool lie aligned, without
    overlap and within the registered memory, the managers are valid and the pools
    have the chunk sizes and numbers of the configuration.  Destroying the memory then
    destroys all three objects and gives up and unregisters the memory.  It does not
    restore the state before: the blocks keep their addresses, the provider the mark that
    it has announced the memory, and [portPool] of the manager the old address. *)
Theorem roudi_memory_ready L db create_shm rights T c r :
  maps_free_pages create_shm -> layout_ok L ->
  MemoryManager.cfg_ok (DefaultRouDiMemory.introspectionMemPoolConfig T) -> segments_ok c ->
  PointerRepository.wf r -> PointerRepository.m_maxRegistered r + Z.of_nat (length c) < PointerRepository.MAX_ID ->
  exists g m, ctor T c (mkMemory [] [] r) = Done (g, m) /\
    let o := createAndAnnounceMemory L db create_shm rights 4096 g m in
    refused create_shm rights o \/
    (exists m' size, create_shm r SHM_NAME size = None /\ o = Done (error PROVIDER_CREATION_FAILED, g, m') /\
      blocks m' = blocks m /\ repository m' = r /\ portPool g = None) \/
    exists base g' m', o = Done (success (), g', m') /\ ready L db T c base g' m' /\
      exists m'', destroyMemory create_shm 4096 g' m' = Done (success (), m'') /\ destroyed m' m'' /\
        introspectionMemoryManager g' m'' = None /\ segmentManager g' m'' = None /\ object (m_portPoolBlock g') m'' = None.
Proof.
  intros Hsys HL Hp Hc Wr Hmax. exists fresh_manager, (fresh_memory T c r). split; [apply ctor_fresh|].
  pose proof (posix_lawful create_shm Hsys) as Hlaw.
  destruct (@create_places_blocks L _ _ Hlaw 0 (fresh_memory T c r) _ eq_refl (fresh_creatable L create_shm T c Hsys HL Hp Hc r Wr ltac:(lia) _ eq_refl)) as (total & al & Er & Htot & Hcr).
  unfold createAndAnnounceMemory, RouDiMemoryManager.createAndAnnounceMemory. cbn [m_memoryManager fresh_manager RouDiMemoryManager.create_all].
  unfold mgmt_supply. cbn [createMemory PosixShmMemoryProvider.posix_supply MemoryProvider.supply] in Hcr.
  destruct (PosixShmMemoryProvider.createMemory _ _ _ _ _ _) as [[base|e] s] eqn:Em.
  - destruct Hcr as (m & -> & Hca). cbn [obind has_error negb RouDiMemoryManager.announce_all].
    assert (s = PosixShmMemoryProvider.mk SHM_NAME (Some base)) as ->.
    { revert Em. unfold PosixShmMemoryProvider.createMemory. case_zb; [done|]. destruct (create_shm _ _ _); [|done].
      case_zb; [done|]. by intros [= <- <-]. }
    destruct (created_places L T c HL Hp Hc _ _ _ _ _ _ eq_refl Hca) as (id & a1 & a2 & a3 & s1 & s2 & Hpl); [done|].
    destruct (announce_places L db create_shm rights T c Hsys HL Hp Hc _ _ _ _ _ _ _ _ _ Hpl) as [(err & He & ->)|(m' & -> & Hobj & Hrd)].
    { left. by exists err. }
    right. right. cbn [obind]. unfold m_portPoolBlock at 1, fresh_manager. rewrite Hobj. cbn.
    eexists base, _, m'. split; [done|]. split; [exact Hrd|].
    destruct (destroy_ready L db create_shm T c _ (mk 0 (Some a3) _ [0%nat]) _ eq_refl Hrd) as (m'' & E & Hd). exists m''. split; [exact E|].
    split; [exact Hd|]. destruct Hd as (? & ? & ? & _ & _ & Eb & _).
    destruct Hrd as (? & ? & ? & ? & ? & ? & ? & ? & ? & _ & Eb' & _). rewrite Eb' in Eb.
    unfold introspectionMemoryManager, segmentManager, object. by rewrite Eb.
  - rewrite Hcr. cbn [obind has_error negb]. right. left. eexists _, total. split; [|by repeat split].
    apply (posix_refusal _ _ _ _ _ _ _ Em Hsys Htot).
    eapply required_alignment; [exact Er|lia|]. destruct HL as [(_ & [_ A1] & _) (_ & [_ A2] & _) (_ & [_ A3] & _)].
    repeat (apply Forall_cons_2; [intros b [= <-]; cbn; unfold MemoryBlock.MemPoolCollection_alignment, MemoryBlock.MemPoolSegmentManager_alignment, MemoryBlock.PortPool_alignment, MemPool.CHUNK_MEMORY_ALIGNMENT; lia|]). by apply Forall_nil_2.
Qed.

(** Sizes as on a 64 bit system and the segments of the sample configuration. *)
Definition sample_layout : Layout := mkLayout 2000 8 30000 8 500000 8.
Definition sample_topics : Topics := mkTopics 20000 3000 100000 60000 70000.

Lemma sample_layout_ok : layout_ok sample_layout.
Proof. constructor; (split; [cbn; lia|split; [cbn; lia|done]]). Qed.

Lemma sample_pools_ok : MemoryManager.cfg_ok (DefaultRouDiMemory.introspectionMemPoolConfig sample_topics).
Proof.
  replace (DefaultRouDiMemory.introspectionMemPoolConfig sample_topics) with
    [MePooConfig.mkEntry 3000 10; MePooConfig.mkEntry 20000 10; MePooConfig.mkEntry 60000 10; MePooConfig.mkEntry 70000 10; MePooConfig.mkEntry 100000 10]
    by (vm_compute; reflexivity).
  constructor.
  - rewrite !Forall_cons.
    split; [|split; [|split; [|split; [|split; [|done]]]]]; constructor;
      unfold MemPool.CHUNK_MEMORY_ALIGNMENT, UINT32_MAX, SIZEOF_CHUNK_HEADER, MemoryManager.bytes_of;
      cbn [MePooConfig.m_size MePooConfig.m_chunkCount]; try lia; try (vm_compute; congruence);
      [by exists 375|by exists 2500|by exists 7500|by exists 8750|by exists 12500].
  - simpl. by repeat constructor.
  - simpl. unfold MePooConfig.MAX_NUMBER_OF_MEMPOOLS. lia.
  - vm_compute. congruence.
Qed.

Definition is_success {A B C} (o : outcome (expected unit A * B * C)) : bool :=
  match o with Done (success _, _, _) => true | _ => false end.

Lemma sample_memory_created :
  (let* '(g, m) := ctor sample_topics sample_segments (mkMemory [] [] PointerRepository.ctor) in
   Done (is_success (createAndAnnounceMemory sample_layout sample_database next_page (fun _ => true) 4096 g m))) = Done true.
Proof. vm_compute. reflexivity. Qed.

Lemma roudi_memory_ready_witness :
  exists g m, ctor sample_topics sample_segments (mkMemory [] [] PointerRepository.ctor) = Done (g, m) /\
    exists base g' m' m'',
      createAndAnnounceMemory sample_layout sample_database next_page (fun _ => true) 4096 g m = Done (success (), g', m') /\
      ready sample_layout sample_database sample_topics sample_segments base g' m' /\
      destroyMemory next_page 4096 g' m' = Done (success (), m'') /\ destroyed m' m''.
Proof.
  destruct (roudi_memory_ready sample_layout sample_database next_page (fun _ => true) sample_topics sample_segments PointerRepository.ctor)
    as (g & m & E & H).
  - exact next_page_ok.
  - exact sample_layout_ok.
  - exact sample_pools_ok.
  - split; [|unfold MAX_SHM_SEGMENTS; simpl; lia].
    apply Forall_cons_2; [exact MemoryManager.small_config_ok|]. apply Forall_singleton. exact MemoryManager.small_config_ok.
  - exact BaseRelativePointer.ctor_wf.
  - unfold PointerRepository.MAX_ID, PointerRepository.CAPACITY. simpl. lia.
  - exists g, m. split; [exact E|]. pose proof sample_memory_created as Hs. rewrite E in Hs. cbn [obind] in Hs. injection Hs as Hs.
    destruct H as [(e & _ & E')|[(m' & size & _ & E' & _)|(base & g' & m' & E' & Hr & m'' & Ed & Hd & _)]].
    + rewrite E' in Hs. discriminate.
    + rewrite E' in Hs. discriminate.
    + exists base, g', m', m''. split; [exact E'|]. split; [exact Hr|]. split; [exact Ed|exact Hd].
Defined.

(** Memory is announced only once: when the memory has been destroyed and is
    created again, the call succeeds, but the blocks construct nothing, and
    [portPool] still leads to the data in the old memory.  In between [memory] of
    a block returns an address although no memory is available. *)
Example memory_announced_once :
  let created {A} (o : option A) := match o with Some _ => true | None => false end in
  (let* '(g, m) := ctor sample_topics sample_segments (mkMemory [] [] PointerRepository.ctor) in
   let run := createAndAnnounceMemory sample_layout sample_database next_page (fun _ => true) 4096 in
   let* '(first, g, m) := run g m in
   let state m := (created (introspectionMemoryManager g m), created (segmentManager g m), created (portPool g)) in
   let* '(_, m') := destroyMemory next_page 4096 g m in
   let* b := block 1 (blocks m') in
   let* '(second, _, m'') := run g m' in
   Done (first, state m, existsb isAvailable (providers m'), created (MemoryBlock.memory b), second, state m'')) =
  Done (success (), (true, true, true), false, true, success (), (false, false, true)).
Proof. vm_compute. reflexivity. Qed.
End theorem.
