(* ===== verification/ObjectPool.v ===== *)
(** * Object pools and shared pointers into them

    [cxx::ObjectPool] ([objectpool.hpp]) is an array of cells in which objects are
    constructed.  The channels of a gateway hold [std::shared_ptr]s whose deleter
    frees a cell; [SharedPool] is a pool with the control blocks of such
    pointers. *)

From S2P Require Import Prelude.

Module ObjectPool.

(** [object] is what lives in the memory of the cell; [data] the pointer to it.
    Pointers are offsets from [m_first] in bytes. *)
Record Cell (T : Type) := mkCell { isValid : bool; wasConstructed : bool; data : option Z; object : option T }.
Arguments mkCell {_} _ _ _ _.
Arguments isValid {_} _.
Arguments wasConstructed {_} _.
Arguments data {_} _.
Arguments object {_} _.

Record t (T : Type) := mk { m_freeIndex : nat; m_size : Z; m_cellInfo : list (Cell T) }.
Arguments mk {_} _ _ _.
Arguments m_freeIndex {_} _.
Arguments m_size {_} _.
Arguments m_cellInfo {_} _.

Section pool.
Context (CAPACITY : nat) (sizeof_T : Z) {T : Type}.
Implicit Types (p : t T).

Definition ctor : t T := mk 0 0 (replicate CAPACITY (mkCell false false None None)).

(** [&m_values[index]] *)
Definition address (index : nat) : Z := Z.of_nat index * sizeof_T.

(** The loop of [nextFree]. *)
Definition search (fuel : nat) (index : nat) (cells : list (Cell T)) : option nat :=
  cyclic_search isValid CAPACITY fuel index cells.

Definition nextFree p : outcome (option nat * t T) :=
  if Z.of_nat CAPACITY <=? m_size p then Done (None, p)
  else
    let* index := returns (search (S CAPACITY) (m_freeIndex p) (m_cellInfo p)) in
    Done (Some index, mk index (m_size p) (m_cellInfo p)).

Definition set_cell (index : nat) (c : Cell T) (size : Z) p : t T := mk (m_freeIndex p) size (<[index := c]> (m_cellInfo p)).

Definition reserve p : outcome (option nat * t T) :=
  let* '(index, p) := nextFree p in
  match index with
  | Some i =>
      match m_cellInfo p !! i with
      | Some c => Done (Some i, set_cell i (mkCell true false (data c) (object c)) (u64 (m_size p + 1)) p)
      | None => Terminated UNDEFINED_BEHAVIOUR
      end
  | None => Done (None, p)
  end.

(** [construct(args...)] and [add(element)]: [v] is the object that is made. *)
Definition construct (v : T) p : outcome (option nat * t T) :=
  let* '(index, p) := nextFree p in
  match index with
  | Some i => Done (Some i, set_cell i (mkCell true true (Some (address i)) (Some v)) (u64 (m_size p + 1)) p)
  | None => Done (None, p)
  end.

Definition remove (index : nat) (destruct : bool) p : t T :=
  match m_cellInfo p !! index with
  | Some c =>
      if isValid c then
        set_cell index (mkCell false (wasConstructed c) (data c) (if destruct then None else object c)) (u64 (m_size p - 1)) p
      else p
  | None => p
  end.

Definition size p : Z := m_size p.
Definition capacity : Z := Z.of_nat CAPACITY.

Definition get (index : nat) p : option Z :=
  match m_cellInfo p !! index with Some c => if isValid c then data c else None | None => None end.

Definition pointerToIndex (ptr : Z) p : option nat :=
  if (ptr <? 0) || (address (CAPACITY - 1) <? ptr) then None
  else if negb (ptr mod sizeof_T =? 0) then None
  else
    let index := Z.to_nat (ptr / sizeof_T) in
    match m_cellInfo p !! index with
    | Some c =>
        match data c with
        | Some d => if isValid c then if d =? ptr then Some index else None else Some index
        | None => Some index
        end
    | None => None
    end.

Definition allocate p : outcome (option Z * t T) :=
  let* '(index, p) := reserve p in
  Done (match index with Some i => Some (address i) | None => None end, p).

Definition create (v : T) p : outcome (option Z * t T) :=
  let* '(index, p) := construct v p in
  Done (match index with Some i => get i p | None => None end, p).

Definition free (ptr : Z) p : t T :=
  match pointerToIndex ptr p with
  | Some i => match m_cellInfo p !! i with Some c => remove i (wasConstructed c) p | None => p end
  | None => p
  end.

Definition insert (v : T) p : outcome (option Z * t T) := create v p.

(** The object behind a pointer, and a call of one of its methods. *)
Definition deref (ptr : Z) p : option T :=
  i ← pointerToIndex ptr p; c ← m_cellInfo p !! i; if isValid c then object c else None.
Definition call (f : T -> T) (ptr : Z) p : t T :=
  match pointerToIndex ptr p with
  | Some i => mk (m_freeIndex p) (m_size p)
                (alter (fun c => mkCell (isValid c) (wasConstructed c) (data c) (f <$> object c)) i (m_cellInfo p))
  | None => p
  end.

(** The iteration with [begin], [++] and [end]: the valid cells in order. *)
Fixpoint next_valid (n : nat) (i : nat) p : nat :=
  match n with
  | O => CAPACITY
  | S n =>
      match m_cellInfo p !! i with
      | Some c => if isValid c then i else next_valid n (S i) p
      | None => CAPACITY
      end
  end.
Definition begin p : nat := next_valid CAPACITY 0 p.
Definition increment (index : nat) p : nat := next_valid (CAPACITY - S index) (S index) p.
Definition end_ : nat := CAPACITY.

(** ** The invariant *)

Definition valid_cells (cells : list (Cell T)) : nat := used_cells isValid cells.

(** [data] points to the memory of the cell; a cell that is used and that the pool
    has constructed holds an object. *)
Definition cell_ok (i : nat) (c : Cell T) : Prop :=
  (forall d, data c = Some d -> d = address i) /\
  (isValid c = true -> wasConstructed c = true -> data c = Some (address i) /\ is_Some (object c)).

Record wf p : Prop := {
  w_length : length (m_cellInfo p) = CAPACITY;
  w_free : (m_freeIndex p < CAPACITY)%nat;
  w_size : m_size p = Z.of_nat (valid_cells (m_cellInfo p));
  w_cells : forall i c, m_cellInfo p !! i = Some c -> cell_ok i c }.

(** The object of each cell, as the users of the pool see it. *)
Definition object_of (c : Cell T) : option T := if isValid c && wasConstructed c then object c else None.
Definition objects p : list (option T) := object_of <$> m_cellInfo p.

Context (Hcap : Z.of_nat CAPACITY < 2 ^ 32) (Hsize : 0 < sizeof_T) (Hpos : (0 < CAPACITY)%nat).

Lemma valid_cells_insert cells i c d : cells !! i = Some c ->
  Z.of_nat (valid_cells (<[i := d]> cells)) =
  Z.of_nat (valid_cells cells) - (if isValid c then 1 else 0) + (if isValid d then 1 else 0).
Proof. apply used_cells_insert. Qed.

Lemma valid_cells_le cells : (valid_cells cells <= length cells)%nat.
Proof. apply used_cells_le. Qed.

Lemma nextFree_spec p : wf p ->
  (m_size p = Z.of_nat CAPACITY /\ nextFree p = Done (None, p)) \/
  (m_size p < Z.of_nat CAPACITY /\ exists i c, nextFree p = Done (Some i, mk i (m_size p) (m_cellInfo p)) /\
    m_cellInfo p !! i = Some c /\ isValid c = false).
Proof.
  intros [W1 W2 W3 W4]. pose proof (valid_cells_le (m_cellInfo p)) as Hle. unfold nextFree.
  destruct (Z.leb_spec (Z.of_nat CAPACITY) (m_size p)) as [H|H]; [left; split; [lia|done]|]. right. split; [done|].
  destruct (cyclic_search_finds isValid CAPACITY (m_cellInfo p) (m_freeIndex p) W1 W2) as (i & c & E & Hi & Hc); [unfold valid_cells in *; lia|].
  exists i, c. unfold search. by rewrite E.
Qed.

Lemma pool_address_inj i j : address i = address j -> i = j.
Proof. unfold address. intros E. apply Z.mul_reg_r in E; lia. Qed.

Lemma pointerToIndex_address p i : wf p -> (i < CAPACITY)%nat -> pointerToIndex (address i) p = Some i.
Proof.
  intros W Hi. unfold pointerToIndex.
  assert (H : 0 <= address i <= address (CAPACITY - 1)) by (unfold address; nia).
  rewrite (proj2 (Z.ltb_ge _ _)) by lia. rewrite (proj2 (Z.ltb_ge _ _)) by lia. simpl.
  assert (Hm : address i mod sizeof_T = 0) by (unfold address; apply Z.mod_mul; lia).
  assert (Hd : address i / sizeof_T = Z.of_nat i) by (unfold address; apply Z.div_mul; lia).
  rewrite Hm, Hd, Nat2Z.id. simpl.
  destruct (lookup_lt_is_Some_2 (m_cellInfo p) i) as [c Hc]; [by rewrite (w_length _ W)|]. rewrite Hc.
  destruct (data c) as [d|] eqn:Ed; [|done]. destruct (w_cells _ W i c Hc) as [H1 _]. rewrite (H1 d Ed), Z.eqb_refl. by destruct (isValid c).
Qed.

Lemma set_cell_wf p i c d n : wf p -> m_cellInfo p !! i = Some c -> cell_ok i d ->
  n = m_size p - (if isValid c then 1 else 0) + (if isValid d then 1 else 0) -> wf (set_cell i d n p).
Proof.
  intros [W1 W2 W3 W4] Hi Hd ->. constructor; simpl; [by rewrite length_insert|done|by rewrite (valid_cells_insert _ _ _ _ Hi), W3|].
  intros j x Hj. apply list_lookup_insert_Some in Hj as [(-> & -> & _)|[_ Hj]]; [done|by apply W4].
Qed.

Lemma valid_pos p i c : wf p -> m_cellInfo p !! i = Some c -> isValid c = true -> 0 < m_size p.
Proof.
  intros W Hi Hv. rewrite (w_size _ W). pose proof (valid_cells_insert (m_cellInfo p) i c (mkCell false false None None) Hi) as H.
  rewrite Hv in H. simpl in H. lia.
Qed.

Lemma pool_ctor_wf : wf ctor.
Proof.
  constructor; simpl; [apply length_replicate|done| |].
  - unfold valid_cells. generalize CAPACITY. intros n. by induction n.
  - by intros i c [-> _]%lookup_replicate.
Qed.

Lemma alter_insert {A} (f : A -> A) (l : list A) i x : l !! i = Some x -> alter f i l = <[i := f x]> l.
Proof.
  revert i. induction l as [|y l IH]; intros [|i] H; try done; simpl in *; [by injection H as <-|].
  f_equal. by apply IH.
Qed.

(** [create] constructs the object in a free cell, or fails because the pool is
    full. *)
Lemma create_spec v p : wf p ->
  (m_size p = Z.of_nat CAPACITY /\ create v p = Done (None, p)) \/
  (m_size p < Z.of_nat CAPACITY /\ exists i p', create v p = Done (Some (address i), p') /\ wf p' /\ (i < CAPACITY)%nat /\
    objects p !! i = Some None /\ objects p' = <[i := Some v]> (objects p) /\ m_size p' = m_size p + 1).
Proof.
  intros W. unfold create, construct. destruct (nextFree_spec p W) as [[E ->]|(E & i & c & -> & Hi & Hc)]; cbn [obind]; [by left|].
  right. split; [done|]. pose proof (lookup_lt_Some _ _ _ Hi) as Hlt. pose proof (w_size _ W) as Hs.
  cbn [m_size]. rewrite u64_small by lia. eexists i, _. unfold get. simpl. rewrite list_lookup_insert_eq by done. simpl. split; [done|].
  assert (Hw : wf (mk i (m_size p) (m_cellInfo p))) by (destruct W; constructor; simpl; try done; lia).
  split; [|split; [by rewrite <- (w_length _ W)|split; [|split; [|done]]]].
  - apply (set_cell_wf (mk i (m_size p) (m_cellInfo p)) i c); [done|done| |rewrite Hc; simpl; lia].
    split; [by intros d [= <-]|]. intros _ _. split; [done|by eexists].
  - unfold objects. rewrite list_lookup_fmap, Hi. simpl. unfold object_of. by rewrite Hc.
  - unfold objects. simpl. by rewrite list_fmap_insert.
Qed.

(** [free] destroys the object and releases its cell; all others stay. *)
Lemma free_spec p i v : wf p -> objects p !! i = Some (Some v) ->
  wf (free (address i) p) /\ objects (free (address i) p) = <[i := None]> (objects p) /\ m_size (free (address i) p) = m_size p - 1.
Proof.
  intros W Ho. unfold objects in Ho. rewrite list_lookup_fmap in Ho. destruct (m_cellInfo p !! i) as [c|] eqn:Hi; [|done].
  simpl in Ho. injection Ho as Ho. unfold object_of in Ho. destruct (isValid c) eqn:Hv; [|done]. destruct (wasConstructed c) eqn:Hw; [|done]. simpl in Ho.
  pose proof (lookup_lt_Some _ _ _ Hi) as Hlt. rewrite (w_length _ W) in Hlt. pose proof (w_size _ W) as Hs. pose proof (valid_pos p i c W Hi Hv).
  pose proof (valid_cells_le (m_cellInfo p)) as Hle. rewrite (w_length _ W) in Hle.
  unfold free. rewrite pointerToIndex_address, Hi, Hw by done. unfold remove. rewrite Hi, Hv. rewrite u64_small by lia.
  split; [|split; [|done]].
  - apply (set_cell_wf p i c); [done|done| |rewrite Hv; simpl; lia]. split; [|done]. simpl. apply (proj1 (w_cells _ W i c Hi)).
  - unfold objects. simpl. rewrite list_fmap_insert. done.
Qed.

Lemma deref_spec p i v : wf p -> objects p !! i = Some (Some v) -> deref (address i) p = Some v.
Proof.
  intros W Ho. unfold objects in Ho. rewrite list_lookup_fmap in Ho. destruct (m_cellInfo p !! i) as [c|] eqn:Hi; [|done].
  simpl in Ho. injection Ho as Ho. unfold object_of in Ho. pose proof (lookup_lt_Some _ _ _ Hi) as Hlt. rewrite (w_length _ W) in Hlt.
  unfold deref. rewrite pointerToIndex_address by done. simpl. rewrite Hi. simpl. by destruct (isValid c), (wasConstructed c).
Qed.

Lemma call_spec f p i v : wf p -> objects p !! i = Some (Some v) ->
  wf (call f (address i) p) /\ objects (call f (address i) p) = <[i := Some (f v)]> (objects p) /\ m_size (call f (address i) p) = m_size p.
Proof.
  intros W Ho. unfold objects in Ho. rewrite list_lookup_fmap in Ho. destruct (m_cellInfo p !! i) as [c|] eqn:Hi; [|done].
  simpl in Ho. injection Ho as Ho. unfold object_of in Ho. destruct (isValid c) eqn:Hv; [|done]. destruct (wasConstructed c) eqn:Hw; [|done]. simpl in Ho.
  pose proof (lookup_lt_Some _ _ _ Hi) as Hlt. rewrite (w_length _ W) in Hlt.
  unfold call. rewrite pointerToIndex_address by done. rewrite (alter_insert _ _ i c) by done.
  destruct (proj2 (w_cells _ W i c Hi) Hv Hw) as [Hd _].
  split; [|split; [|done]].
  - apply (set_cell_wf p i c _ (m_size p)); [done|done| |simpl; lia]. split; simpl.
    + apply (w_cells _ W i c Hi).
    + intros _ _. rewrite Ho. split; [done|]. by eexists.
  - unfold objects. simpl. rewrite list_fmap_insert. unfold object_of. simpl. by rewrite Hv, Hw, Ho.
Qed.
End pool.
End ObjectPool.

(** ** Shared pointers whose deleter frees a cell *)

Module SharedPool.
Import ObjectPool.

(** A control block; a shared pointer is the number of one. *)
Record Block := mkBlock { use_count : Z; pointer : Z }.
Record t (T : Type) := mk { pool : ObjectPool.t T; control : list Block }.
Arguments mk {_} _ _.
Arguments pool {_} _.
Arguments control {_} _.

Section shared.
Context (CAPACITY : nat) (sizeof_T : Z) {T : Type}.
Implicit Types (sp : t T).
Notation address := (address sizeof_T).
Notation wf := (wf CAPACITY sizeof_T).

Definition ctor : t T := mk (ObjectPool.ctor CAPACITY) [].

(** The constructor from a raw pointer and a deleter that calls [free]. *)
Definition wrap (ptr : Z) sp : nat * t T := (length (control sp), mk (pool sp) (control sp ++ [mkBlock 1 ptr])).

Definition copy (id : nat) sp : t T := mk (pool sp) (alter (fun b => mkBlock (use_count b + 1) (pointer b)) id (control sp)).

Definition drop (id : nat) sp : t T :=
  match control sp !! id with
  | Some b =>
      let control := <[id := mkBlock (use_count b - 1) (pointer b)]> (control sp) in
      mk (if use_count b - 1 =? 0 then free CAPACITY sizeof_T (pointer b) (pool sp) else pool sp) control
  | None => sp
  end.

(** [ptr->method()] and [*ptr] *)
Definition invoke (f : T -> T) (id : nat) sp : t T :=
  match control sp !! id with Some b => mk (call CAPACITY sizeof_T f (pointer b) (pool sp)) (control sp) | None => sp end.
Definition value (id : nat) sp : option T := b ← control sp !! id; deref CAPACITY sizeof_T (pointer b) (pool sp).

(** The counters count the shared pointers [refs], and the objects in the pool are
    exactly those that a shared pointer refers to. *)
Record owned sp (refs : list nat) : Prop := {
  o_wf : wf (pool sp);
  o_known id : id ∈ refs -> is_Some (control sp !! id);
  o_count id b : control sp !! id = Some b -> use_count b = count id refs;
  o_live id b : control sp !! id = Some b -> id ∈ refs ->
    exists i v, pointer b = address i /\ objects (pool sp) !! i = Some (Some v);
  o_distinct id1 id2 b1 b2 : control sp !! id1 = Some b1 -> control sp !! id2 = Some b2 -> id1 ∈ refs -> id2 ∈ refs ->
    pointer b1 = pointer b2 -> id1 = id2;
  o_referenced i v : objects (pool sp) !! i = Some (Some v) ->
    exists id b, control sp !! id = Some b /\ id ∈ refs /\ pointer b = address i }.

Context (Hcap : Z.of_nat CAPACITY < 2 ^ 32) (Hsize : 0 < sizeof_T) (Hpos : (0 < CAPACITY)%nat).

Lemma owned_perm sp refs refs' : owned sp refs -> refs ≡ₚ refs' -> owned sp refs'.
Proof.
  intros [] Hp. assert (He : forall id, id ∈ refs <-> id ∈ refs') by (intros; by rewrite Hp).
  constructor; try done.
  - intros id ?%He. auto.
  - intros id b Hb. rewrite <- (count_Permutation id _ _ Hp). auto.
  - intros id b Hb ?%He. eauto.
  - intros id1 id2 b1 b2 H1 H2 ?%He ?%He. eauto.
  - intros i v Hv. destruct (o_referenced0 i v Hv) as (id & b & ? & ?%He & ?). eauto.
Qed.

Lemma ctor_owned : owned ctor [].
Proof.
  constructor; simpl; try (intros; set_solver); [by apply pool_ctor_wf|].
  intros i v Hv. unfold objects in Hv. rewrite list_lookup_fmap in Hv. simpl in Hv.
  destruct (replicate _ _ !! i) as [c|] eqn:E; [|done]. by apply lookup_replicate in E as [-> _].
Qed.

(** A new object in the pool with a first shared pointer to it. *)
Lemma create_owned v sp refs : owned sp refs ->
  (m_size (pool sp) = Z.of_nat CAPACITY /\ create CAPACITY sizeof_T v (pool sp) = Done (None, pool sp)) \/
  (m_size (pool sp) < Z.of_nat CAPACITY /\ exists ptr p', create CAPACITY sizeof_T v (pool sp) = Done (Some ptr, p') /\
    m_size p' = m_size (pool sp) + 1 /\
    let sp' := snd (wrap ptr (mk p' (control sp))) in
    owned sp' (length (control sp) :: refs) /\ value (length (control sp)) sp' = Some v /\
    forall id, id ∈ refs -> value id sp' = value id sp).
Proof.
  intros O. destruct (create_spec CAPACITY sizeof_T Hcap Hpos v (pool sp) (o_wf _ _ O)) as [|(Hlt & i & p' & E & W & Hi & Hn & Ho & Hs)]; [by left|].
  right. split; [done|]. exists (address i), p'. split; [done|]. split; [done|]. simpl. pose proof O as [].
  assert (Hnew : (control sp ++ [mkBlock 1 (address i)]) !! length (control sp) = Some (mkBlock 1 (address i))) by by apply list_lookup_middle.
  assert (Hold : forall id b, id ∈ refs -> control sp !! id = Some b -> (control sp ++ [mkBlock 1 (address i)]) !! id = Some b)
    by (intros; by apply lookup_app_l_Some).
  assert (Hob : objects p' !! i = Some (Some v)).
  { rewrite Ho. apply list_lookup_insert_eq. by eapply lookup_lt_Some. }
  assert (Hfresh : length (control sp) ∉ refs).
  { intros [b Hb]%o_known0. apply lookup_lt_Some in Hb. lia. }
  assert (Hcell : forall id b, id ∈ refs -> control sp !! id = Some b -> exists j w, pointer b = address j /\ j <> i /\
    objects (pool sp) !! j = Some (Some w) /\ objects p' !! j = Some (Some w)).
  { intros id b Hid Hb. destruct (o_live0 id b Hb Hid) as (j & w & Hp & Hw). exists j, w. split; [done|].
    assert (j <> i) by congruence. split; [done|]. split; [done|]. rewrite Ho. by rewrite list_lookup_insert_ne. }
  assert (Hcase : forall id b, id ∈ length (control sp) :: refs -> (control sp ++ [mkBlock 1 (address i)]) !! id = Some b ->
    (id = length (control sp) /\ pointer b = address i) \/ (id ∈ refs /\ control sp !! id = Some b)).
  { intros id b [->|Hid]%elem_of_cons Hb; [left; rewrite Hnew in Hb; by injection Hb as <-|right].
    destruct (o_known0 id Hid) as [b' Hb']. rewrite (Hold id b' Hid Hb') in Hb. by injection Hb as <-. }
  split; [|split].
  - constructor; simpl; [done| | | | |].
    + intros id [->|Hid]%elem_of_cons; [by rewrite Hnew|]. destruct (o_known0 id Hid) as [b Hb]. by rewrite (Hold id b).
    + intros id b Hb. rewrite count_cons. apply lookup_app_Some in Hb as [Hb|[Hge Hb]].
      * apply lookup_lt_Some in Hb as Hlt'. rewrite decide_False by lia. simpl. by apply o_count0.
      * apply list_lookup_singleton_Some in Hb as [Hz <-]. assert (id = length (control sp)) as -> by lia.
        rewrite decide_True by done. simpl. by rewrite count_zero.
    + intros id b Hb Hid. destruct (Hcase id b Hid Hb) as [[-> Hp]|[Hin Hb']]; [by exists i, v|].
      destruct (Hcell id b Hin Hb') as (j & w & ? & _ & _ & ?). by exists j, w.
    + intros id1 id2 b1 b2 H1 H2 I1 I2 E'. destruct (Hcase id1 b1 I1 H1) as [[-> P1]|[J1 K1]], (Hcase id2 b2 I2 H2) as [[-> P2]|[J2 K2]]; [done| | |by eapply o_distinct0].
      * destruct (Hcell id2 b2 J2 K2) as (j & w & Hj & Hne & _). rewrite P1, Hj in E'. by apply (pool_address_inj CAPACITY sizeof_T Hsize Hpos) in E' as ->.
      * destruct (Hcell id1 b1 J1 K1) as (j & w & Hj & Hne & _). rewrite P2, Hj in E'. by apply (pool_address_inj CAPACITY sizeof_T Hsize Hpos) in E' as ->.
    + intros k w Hk. destruct (decide (k = i)) as [->|Hne].
      * eexists _, _. split; [exact Hnew|]. split; [by left|done].
      * rewrite Ho, list_lookup_insert_ne in Hk by done. destruct (o_referenced0 k w Hk) as (id & b & Hb & Hid & Hp).
        exists id, b. split; [by apply Hold|]. split; [by right|done].
  - unfold value. simpl. rewrite Hnew. simpl. by apply deref_spec.
  - intros id Hid. destruct (o_known0 id Hid) as [b Hb]. unfold value. simpl. rewrite (Hold id b Hid Hb), Hb. simpl.
    destruct (Hcell id b Hid Hb) as (j & w & -> & _ & H1 & H2). by rewrite !(deref_spec CAPACITY sizeof_T Hsize Hpos _ j w).
Qed.

Lemma alter_control_case (f : Block -> Block) id sp id' b : alter f id (control sp) !! id' = Some b ->
  exists b0, control sp !! id' = Some b0 /\ b = if decide (id = id') then f b0 else b0.
Proof.
  case_decide as E; [subst|]; [rewrite list_lookup_alter_eq|rewrite list_lookup_alter_ne by done]; [|eauto].
  destruct (control sp !! id') as [b0|]; simpl; intros E; [|discriminate]. injection E as <-. eauto.
Qed.

Lemma copy_owned id sp refs : owned sp refs -> id ∈ refs -> owned (copy id sp) (id :: refs) /\ forall id', value id' (copy id sp) = value id' sp.
Proof.
  intros O Hin. pose proof O as []. assert (He : forall id', id' ∈ id :: refs <-> id' ∈ refs) by (intros; rewrite elem_of_cons; naive_solver).
  split; [constructor; simpl; [done| | | | |]|].
  - intros id' Hid%He. destruct (o_known0 id' Hid) as [b Hb]. destruct (decide (id = id')) as [->|];
      [rewrite list_lookup_alter_eq, Hb|rewrite list_lookup_alter_ne, Hb by done]; by eexists.
  - intros id' b (b0 & Hb & ->)%alter_control_case. rewrite count_cons. pose proof (o_count0 id' b0 Hb). repeat case_decide; simpl; congruence || lia.
  - intros id' b (b0 & Hb & ->)%alter_control_case Hid%He. destruct (o_live0 id' b0 Hb Hid) as (i & v & ? & ?). exists i, v. by case_decide.
  - intros id1 id2 b1 b2 (c1 & H1 & ->)%alter_control_case (c2 & H2 & ->)%alter_control_case I1%He I2%He E.
    apply (o_distinct0 id1 id2 c1 c2); try done. revert E. by repeat case_decide.
  - intros i v Hv. destruct (o_referenced0 i v Hv) as (id' & b & Hb & Hid & Hp).
    destruct (decide (id = id')) as [->|]; [eexists id', (mkBlock (use_count b + 1) (pointer b))|exists id', b].
    + rewrite list_lookup_alter_eq, Hb. split; [done|]. by rewrite He.
    + rewrite list_lookup_alter_ne by done. by rewrite He.
  - intros id'. unfold value. simpl. destruct (decide (id = id')) as [->|]; [rewrite list_lookup_alter_eq|by rewrite list_lookup_alter_ne].
    by destruct (control sp !! id').
Qed.

(** The last pointer to an object destroys it and frees its cell; with any other
    nothing happens to the pool. *)
Lemma drop_owned id sp refs : owned sp (id :: refs) ->
  owned (drop id sp) refs /\ (forall id', id' ∈ refs -> value id' (drop id sp) = value id' sp) /\
  m_size (pool (drop id sp)) = m_size (pool sp) - (if decide (id ∈ refs) then 0 else 1) /\ length (control (drop id sp)) = length (control sp).
Proof.
  intros O. pose proof O as []. destruct (o_known0 id) as [b Hb]; [by left|]. unfold drop. rewrite Hb.
  pose proof (o_count0 id b Hb) as Hc. rewrite count_cons, decide_True in Hc by done.
  destruct (o_live0 id b Hb) as (i & v & Hp & Hv); [by left|].
  assert (Hcontrol : forall id' b', <[id := mkBlock (use_count b - 1) (pointer b)]> (control sp) !! id' = Some b' ->
    exists b0, control sp !! id' = Some b0 /\ pointer b' = pointer b0 /\ use_count b' = use_count b0 - (if decide (id' = id) then 1 else 0)).
  { intros id' b' Hb'. apply list_lookup_insert_Some in Hb' as [(<- & <- & _)|[Hne Hb']].
    - exists b. rewrite decide_True by done. done.
    - exists b'. rewrite decide_False by done. split; [done|]. split; [done|lia]. }
  assert (Hknown : forall id', id' ∈ refs -> is_Some (<[id := mkBlock (use_count b - 1) (pointer b)]> (control sp) !! id')).
  { intros id' Hid. apply lookup_lt_is_Some. rewrite length_insert. apply lookup_lt_is_Some, o_known0. by right. }
  assert (Hcount : forall id' b', <[id := mkBlock (use_count b - 1) (pointer b)]> (control sp) !! id' = Some b' -> use_count b' = count id' refs).
  { intros id' b' (b0 & H0 & _ & ->)%Hcontrol. rewrite (o_count0 id' b0 H0), count_cons. lia. }
  assert (Hdist : forall id1 id2 b1 b2, <[id := mkBlock (use_count b - 1) (pointer b)]> (control sp) !! id1 = Some b1 ->
    <[id := mkBlock (use_count b - 1) (pointer b)]> (control sp) !! id2 = Some b2 -> id1 ∈ refs -> id2 ∈ refs -> pointer b1 = pointer b2 -> id1 = id2).
  { intros id1 id2 b1 b2 (c1 & H1 & P1 & _)%Hcontrol (c2 & H2 & P2 & _)%Hcontrol I1 I2 E.
    apply (o_distinct0 id1 id2 c1 c2); [done|done|by right|by right|congruence]. }
  destruct (decide (id ∈ refs)) as [Hin|Hnot].
  - pose proof (count_pos id refs Hin). rewrite (proj2 (Z.eqb_neq _ _)) by lia.
    split; [constructor; simpl; try done| split; [|split; [simpl; lia|simpl; by rewrite length_insert]]].
    + intros id' b' (b0 & H0 & -> & _)%Hcontrol Hid. eapply o_live0; [exact H0|by right].
    + intros j w Hw. destruct (o_referenced0 j w Hw) as (id' & b' & Hb' & Hid & Hp').
      destruct (decide (id' = id)) as [->|Hne].
      * eexists id, _. rewrite list_lookup_insert_eq by (by eapply lookup_lt_Some). split; [done|]. split; [done|]. simpl. congruence.
      * exists id', b'. rewrite list_lookup_insert_ne by done. apply elem_of_cons in Hid as [|Hid]; done.
    + intros id' Hid. unfold value. simpl. destruct (o_known0 id') as [b' Hb']; [by right|].
      destruct (decide (id' = id)) as [->|Hne]; [rewrite list_lookup_insert_eq by (by eapply lookup_lt_Some); by rewrite Hb|by rewrite list_lookup_insert_ne].
  - rewrite (count_zero id refs Hnot) in Hc. rewrite (proj2 (Z.eqb_eq _ _)) by lia. rewrite Hp in Hcontrol, Hknown, Hcount, Hdist |- *.
    destruct (free_spec CAPACITY sizeof_T Hcap Hsize Hpos (pool sp) i v o_wf0 Hv) as (W & Ho & Hs).
    assert (Hother : forall id' b0, id' ∈ refs -> control sp !! id' = Some b0 -> exists j w, pointer b0 = address j /\ j <> i /\
      objects (pool sp) !! j = Some (Some w) /\ objects (free CAPACITY sizeof_T (address i) (pool sp)) !! j = Some (Some w)).
    { intros id' b0 Hid H0. destruct (o_live0 id' b0 H0) as (j & w & Hj & Hw); [by right|]. exists j, w. split; [done|].
      assert (j <> i). { intros ->. apply Hnot. replace id with id'; [done|]. apply (o_distinct0 id' id b0 b); try done; [by right|by left|congruence]. }
      split; [done|]. split; [done|]. by rewrite Ho, list_lookup_insert_ne. }
    split; [constructor; simpl; try done| split; [|split; [simpl; lia|simpl; by rewrite length_insert]]].
    + intros id' b' (b0 & H0 & -> & _)%Hcontrol Hid. destruct (Hother id' b0 Hid H0) as (j & w & ? & _ & _ & ?). by exists j, w.
    + intros j w Hw. rewrite Ho in Hw. apply list_lookup_insert_Some in Hw as [(_ & ? & _)|[Hne Hw]]; [done|].
      destruct (o_referenced0 j w Hw) as (id' & b' & Hb' & Hid & Hp').
      assert (Hid' : id' <> id) by (intros ->; apply Hne, (pool_address_inj CAPACITY sizeof_T Hsize Hpos); congruence).
      exists id', b'. rewrite list_lookup_insert_ne by done. by apply elem_of_cons in Hid as [|Hid].
    + intros id' Hid. destruct (o_known0 id') as [b' Hb']; [by right|]. assert (id' <> id) by congruence.
      unfold value. simpl. rewrite list_lookup_insert_ne, Hb' by done. simpl.
      destruct (Hother id' b' Hid Hb') as (j & w & -> & _ & H1 & H2). by rewrite !(deref_spec CAPACITY sizeof_T Hsize Hpos _ j w).
Qed.

(** A call of a method changes the object and nothing else. *)
Lemma invoke_owned f id sp refs : owned sp refs -> id ∈ refs ->
  owned (invoke f id sp) refs /\ value id (invoke f id sp) = f <$> value id sp /\
  (forall id', id' ∈ refs -> id' <> id -> value id' (invoke f id sp) = value id' sp) /\
  m_size (pool (invoke f id sp)) = m_size (pool sp) /\ control (invoke f id sp) = control sp.
Proof.
  intros O Hin. pose proof O as []. destruct (o_known0 id Hin) as [b Hb]. destruct (o_live0 id b Hb Hin) as (i & v & Hp & Hv).
  destruct (call_spec CAPACITY sizeof_T Hsize Hpos f (pool sp) i v o_wf0 Hv) as (W & Ho & Hs).
  unfold invoke. rewrite Hb, Hp.
  assert (Hnew : objects (call CAPACITY sizeof_T f (address i) (pool sp)) !! i = Some (Some (f v)))
    by (rewrite Ho; apply list_lookup_insert_eq; by eapply lookup_lt_Some).
  assert (Hdom : forall j, (exists w, objects (call CAPACITY sizeof_T f (address i) (pool sp)) !! j = Some (Some w)) <->
    exists w, objects (pool sp) !! j = Some (Some w)).
  { intros j. destruct (decide (i = j)) as [<-|]; [split; intros _; eauto|]. by rewrite Ho, list_lookup_insert_ne. }
  split; [constructor; simpl; try done|split; [|split; [|by split]]].
  - intros id' b' H1 H2. destruct (o_live0 id' b' H1 H2) as (j & w & Hj & Hw). destruct (proj2 (Hdom j)) as [w' ?]; [eauto|]. by exists j, w'.
  - intros j w Hw. destruct (proj1 (Hdom j)) as [w' ?]; eauto.
  - unfold value. simpl. rewrite Hb. simpl. rewrite Hp.
    by rewrite (deref_spec CAPACITY sizeof_T Hsize Hpos _ i (f v)), (deref_spec CAPACITY sizeof_T Hsize Hpos _ i v).
  - intros id' Hid Hne. destruct (o_known0 id' Hid) as [b' Hb']. destruct (o_live0 id' b' Hb' Hid) as (j & w & Hj & Hw).
    assert (i <> j). { intros ->. apply Hne. apply (o_distinct0 id' id b' b); try done. congruence. }
    unfold value. simpl. rewrite Hb'. simpl. rewrite Hj.
    rewrite (deref_spec CAPACITY sizeof_T Hsize Hpos (pool sp) j w) by done. apply deref_spec; try done.
    by rewrite Ho, list_lookup_insert_ne.
Qed.
End shared.
End SharedPool.
