(* ===== verification/Gateway.v ===== *)
(** * Gateways

    A gateway connects services of iceoryx with another middleware
    ([gateway_generic.inl], [gateway_base.cpp]).  For each service it has a channel
    ([channel.inl]) of two terminals, which live in object pools and are shared by
    the copies of the channel.  The gateway to DDS ([iox_to_dds.inl]) adds and
    discards channels as publishers offer their services; how it forwards data is
    in [DdsGateway]. *)

From S2P Require Import Prelude CaPro ObjectPool.

(** ** Channels *)

(** A terminal on the side of iceoryx (a publisher or a subscriber) and one on the
    other side, as they are constructed, and whether they have been told to offer,
    subscribe or connect. *)
Record IceoryxTerminal := mkIceoryx { t_service : ServiceDescription.t; t_queueCapacity : Z; t_active : bool }.
Record ExternalTerminal := mkExternal { x_service : string; x_instance : string; x_event : string; x_connected : bool }.

Inductive ChannelError := OBJECT_POOL_FULL.
Inductive GatewayError := UNSUPPORTED_SERVICE_TYPE | UNSUCCESSFUL_CHANNEL_CREATION | NONEXISTANT_CHANNEL.

Module Channel.
(** The terminals are shared pointers. *)
Record t := mk { m_service : ServiceDescription.t; m_iceoryxTerminal : nat; m_externalTerminal : nat }.

Definition eqb (a b : t) : bool := ServiceDescription.eqb (m_service a) (m_service b).
Definition getServiceDescription (c : t) : ServiceDescription.t := m_service c.
End Channel.

(** The static pools of terminals with the shared pointers into them. *)
Record Terminals := mkTerminals {
  s_iceoryxTerminals : SharedPool.t IceoryxTerminal;
  s_externalTerminals : SharedPool.t ExternalTerminal }.

Section gateway.
(** [MAX_CHANNEL_NUMBER], the capacity of the pools and of the channels. *)
Context (MAX_CHANNEL_NUMBER : nat) (sizeof_I sizeof_E : Z).

Definition Terminals_ctor : Terminals := mkTerminals (SharedPool.ctor MAX_CHANNEL_NUMBER) (SharedPool.ctor MAX_CHANNEL_NUMBER).

(** [Channel::create] *)
Definition create_channel (service : ServiceDescription.t) (queueCapacity : Z) (s : Terminals)
    : outcome (expected Channel.t ChannelError * Terminals) :=
  let i := s_iceoryxTerminals s in
  let* '(rawIceoryxTerminalPtr, pi) :=
    ObjectPool.create MAX_CHANNEL_NUMBER sizeof_I (mkIceoryx service queueCapacity false) (SharedPool.pool i) in
  let i := SharedPool.mk pi (SharedPool.control i) in
  match rawIceoryxTerminalPtr with
  | None => Done (error OBJECT_POOL_FULL, mkTerminals i (s_externalTerminals s))
  | Some rawIceoryxTerminalPtr =>
      let e := s_externalTerminals s in
      let* '(rawExternalTerminalPtr, pe) :=
        ObjectPool.create MAX_CHANNEL_NUMBER sizeof_E
          (mkExternal (ServiceDescription.m_serviceString service) (ServiceDescription.m_instanceString service)
             (ServiceDescription.m_eventString service) false) (SharedPool.pool e) in
      let e := SharedPool.mk pe (SharedPool.control e) in
      match rawExternalTerminalPtr with
      | None => Done (error OBJECT_POOL_FULL, mkTerminals i e)
      | Some rawExternalTerminalPtr =>
          let '(iceoryxTerminalPtr, i) := SharedPool.wrap rawIceoryxTerminalPtr i in
          let '(externalTerminalPtr, e) := SharedPool.wrap rawExternalTerminalPtr e in
          Done (success (Channel.mk service iceoryxTerminalPtr externalTerminalPtr), mkTerminals i e)
      end
  end.

(** The copy constructor and the destructor of a channel. *)
Definition copy_channel (c : Channel.t) (s : Terminals) : Terminals :=
  mkTerminals (SharedPool.copy (Channel.m_iceoryxTerminal c) (s_iceoryxTerminals s))
    (SharedPool.copy (Channel.m_externalTerminal c) (s_externalTerminals s)).
Definition drop_channel (c : Channel.t) (s : Terminals) : Terminals :=
  mkTerminals (SharedPool.drop MAX_CHANNEL_NUMBER sizeof_I (Channel.m_iceoryxTerminal c) (s_iceoryxTerminals s))
    (SharedPool.drop MAX_CHANNEL_NUMBER sizeof_E (Channel.m_externalTerminal c) (s_externalTerminals s)).

(** ** [GatewayGeneric] *)

Record Gateway := mkGateway { m_interface : Interfaces.t; m_channels : list Channel.t; terminals : Terminals }.

Definition set_terminals (s : Terminals) (g : Gateway) : Gateway := mkGateway (m_interface g) (m_channels g) s.
Definition Gateway_ctor (interface : Interfaces.t) : Gateway := mkGateway interface [] Terminals_ctor.

Definition getNumberOfChannels (g : Gateway) : Z := Z.of_nat (length (m_channels g)).

(** [std::find_if] over the channels. *)
Definition position (service : ServiceDescription.t) (g : Gateway) : option (nat * Channel.t) :=
  list_find (fun c => ServiceDescription.eqb (Channel.getServiceDescription c) service = true) (m_channels g).

(** The returned optional holds a copy of the channel. *)
Definition findChannel (service : ServiceDescription.t) (g : Gateway) : option Channel.t * Gateway :=
  match position service g with
  | Some (_, c) => (Some c, set_terminals (copy_channel c (terminals g)) g)
  | None => (None, g)
  end.

(** [findChannel(service).has_value()], which destroys the optional. *)
Definition hasChannel (service : ServiceDescription.t) (g : Gateway) : bool * Gateway :=
  match findChannel service g with
  | (Some c, g) => (true, set_terminals (drop_channel c (terminals g)) g)
  | (None, g) => (false, g)
  end.

Definition is_wildcard (service : ServiceDescription.t) : bool :=
  bool_decide (ServiceDescription.m_serviceString service = "*") || bool_decide (ServiceDescription.m_instanceString service = "*")
  || bool_decide (ServiceDescription.m_eventString service = "*").

(** [m_channels->push_back(channel)] *)
Definition push_channel (c : Channel.t) (g : Gateway) : Gateway :=
  if bool_decide (length (m_channels g) < MAX_CHANNEL_NUMBER)%nat
  then mkGateway (m_interface g) (m_channels g ++ [c]) (copy_channel c (terminals g)) else g.

Definition addChannel (service : ServiceDescription.t) (queueCapacity : Z) (g : Gateway)
    : outcome (expected Channel.t GatewayError * Gateway) :=
  if is_wildcard service then Done (error UNSUPPORTED_SERVICE_TYPE, g)
  else
    let '(existingChannel, g) := findChannel service g in
    match existingChannel with
    | Some c =>
        (* the returned copy; [existingChannel] is destroyed *)
        Done (success c, set_terminals (drop_channel c (copy_channel c (terminals g))) g)
    | None =>
        let* '(result, s) :=
          create_channel (ServiceDescription.ctor (ServiceDescription.m_serviceString service)
                            (ServiceDescription.m_instanceString service) (ServiceDescription.m_eventString service)
                            [0; 0; 0; 0] (m_interface g)) queueCapacity (terminals g) in
        let g := set_terminals s g in
        match result with
        | error _ => Done (error UNSUCCESSFUL_CHANNEL_CREATION, g)
        | success c =>
            let g := set_terminals (copy_channel c (terminals g)) g in (* [channel] *)
            let g := push_channel c g in
            let g := set_terminals (copy_channel c (terminals g)) g in (* the returned copy *)
            let g := set_terminals (drop_channel c (terminals g)) g in (* [channel] *)
            let g := set_terminals (drop_channel c (terminals g)) g in (* [result] *)
            Done (success c, g)
        end
    end.

(** [erase] moves the later channels one place to the front and destroys the copy
    in the vector. *)
Definition discardChannel (service : ServiceDescription.t) (g : Gateway) : expected unit GatewayError * Gateway :=
  match position service g with
  | Some (i, c) => (success (), mkGateway (m_interface g) (delete i (m_channels g)) (drop_channel c (terminals g)))
  | None => (error NONEXISTANT_CHANNEL, g)
  end.

(** [f] is what is done with a channel to the state [A] of the caller. *)
Definition forEachChannel {A} (f : Channel.t -> A -> outcome A) (g : Gateway) (a : A) : outcome A :=
  foldl (fun o c => obind o (f c)) (Done a) (m_channels g).

(** ** The gateway from iceoryx to DDS *)

Definition SUBSCRIBER_CACHE_SIZE : Z := 128.
Definition INTROSPECTION_SERVICE_ID : string := "Introspection".

Definition subscribe (t : IceoryxTerminal) : IceoryxTerminal := mkIceoryx (t_service t) (t_queueCapacity t) true.
Definition connect (x : ExternalTerminal) : ExternalTerminal := mkExternal (x_service x) (x_instance x) (x_event x) true.

(** [setupChannel]; the result is discarded by its callers. *)
Definition setupChannel (service : ServiceDescription.t) (queueCapacity : Z) (g : Gateway) : outcome Gateway :=
  let* '(result, g) := addChannel service queueCapacity g in
  match result with
  | error _ => Done g
  | success c =>
      let s := terminals g in
      let s := mkTerminals (SharedPool.invoke MAX_CHANNEL_NUMBER sizeof_I subscribe (Channel.m_iceoryxTerminal c) (s_iceoryxTerminals s))
                 (SharedPool.invoke MAX_CHANNEL_NUMBER sizeof_E connect (Channel.m_externalTerminal c) (s_externalTerminals s)) in
      Done (set_terminals (drop_channel c s) g)
  end.

Fixpoint loadConfiguration (configuredServices : list ServiceDescription.t) (g : Gateway) : outcome Gateway :=
  match configuredServices with
  | [] => Done g
  | service :: configuredServices =>
      let '(found, g) := hasChannel service g in
      let* g := if negb found then setupChannel service SUBSCRIBER_CACHE_SIZE g else Done g in
      loadConfiguration configuredServices g
  end.

Definition discover (msg : CaproMessage.t) (g : Gateway) : outcome Gateway :=
  let service := CaproMessage.m_serviceDescription msg in
  if bool_decide (ServiceDescription.m_serviceString service = INTROSPECTION_SERVICE_ID) then Done g
  else if negb (bool_decide (CaproMessage.m_serviceType msg = CaproServiceType.PUBLISHER)) then Done g
  else
    match CaproMessage.m_type msg with
    | CaproMessageType.OFFER =>
        let '(found, g) := hasChannel service g in
        if negb found then setupChannel service SUBSCRIBER_CACHE_SIZE g else Done g
    | CaproMessageType.STOP_OFFER =>
        let '(found, g) := hasChannel service g in
        if found then Done (snd (discardChannel service g)) else Done g
    | _ => Done g
    end.

(** The inner loop of [discoveryLoop] over the messages that have arrived. *)
Fixpoint discover_all (msgs : list CaproMessage.t) (g : Gateway) : outcome Gateway :=
  match msgs with
  | [] => Done g
  | msg :: msgs => let* g := discover msg g in discover_all msgs g
  end.

(** ** Terminals live as long as the copies of their channel *)

Context (Hcap : Z.of_nat MAX_CHANNEL_NUMBER < 2 ^ 32) (Hpos : (0 < MAX_CHANNEL_NUMBER)%nat).
Context (HI : 0 < sizeof_I) (HE : 0 < sizeof_E).
Notation owned_i := (SharedPool.owned MAX_CHANNEL_NUMBER sizeof_I).
Notation owned_e := (SharedPool.owned MAX_CHANNEL_NUMBER sizeof_E).
Implicit Types (s : Terminals) (c : Channel.t) (cs : list Channel.t).

Definition ids cs : list nat := Channel.m_iceoryxTerminal <$> cs.
Definition distinct_ids cs : Z := Z.of_nat (size (list_to_set (ids cs) : gset nat)).

(** The terminals that a channel refers to. *)
Definition sees s c (t : IceoryxTerminal) (x : ExternalTerminal) : Prop :=
  SharedPool.value MAX_CHANNEL_NUMBER sizeof_I (Channel.m_iceoryxTerminal c) (s_iceoryxTerminals s) = Some t /\
  SharedPool.value MAX_CHANNEL_NUMBER sizeof_E (Channel.m_externalTerminal c) (s_externalTerminals s) = Some x.

(** [cs] are all copies of channels. *)
Record live s cs : Prop := {
  l_iceoryx : owned_i (s_iceoryxTerminals s) (ids cs);
  l_external : owned_e (s_externalTerminals s) (ids cs);
  l_same c : c ∈ cs -> Channel.m_externalTerminal c = Channel.m_iceoryxTerminal c;
  l_length : length (SharedPool.control (s_iceoryxTerminals s)) = length (SharedPool.control (s_externalTerminals s));
  l_size : ObjectPool.m_size (SharedPool.pool (s_iceoryxTerminals s)) = distinct_ids cs /\
           ObjectPool.m_size (SharedPool.pool (s_externalTerminals s)) = distinct_ids cs }.

(** Nothing happens to the terminals of [cs]. *)
Definition keeps s s' cs : Prop := forall c t x, c ∈ cs -> sees s c t x -> sees s' c t x.

Lemma live_perm s cs cs' : live s cs -> cs ≡ₚ cs' -> live s cs'.
Proof.
  intros [] Hp. assert (Hi : ids cs ≡ₚ ids cs') by (unfold ids; by rewrite Hp).
  assert (Hd : distinct_ids cs = distinct_ids cs') by (unfold distinct_ids; do 2 f_equal; by rewrite Hi).
  constructor; [by eapply SharedPool.owned_perm|by eapply SharedPool.owned_perm| |done|by rewrite <- Hd].
  intros c Hc. apply l_same0. by rewrite Hp.
Qed.

Lemma distinct_ids_cons c cs : distinct_ids (c :: cs) =
  distinct_ids cs + (if decide (Channel.m_iceoryxTerminal c ∈ ids cs) then 0 else 1).
Proof.
  unfold distinct_ids. unfold ids at 1. rewrite fmap_cons, list_to_set_cons. fold (ids cs). case_decide as H.
  - rewrite (subseteq_union_1_L {[ _ ]} (list_to_set (ids cs))) by set_solver. lia.
  - rewrite size_union by set_solver. rewrite size_singleton. lia.
Qed.

Lemma live_ctor : live Terminals_ctor [].
Proof. constructor; simpl; try done; [by apply SharedPool.ctor_owned..|set_solver]. Qed.

Lemma live_create service q s cs : live s cs ->
  (distinct_ids cs = Z.of_nat MAX_CHANNEL_NUMBER /\ create_channel service q s = Done (error OBJECT_POOL_FULL, s)) \/
  (distinct_ids cs < Z.of_nat MAX_CHANNEL_NUMBER /\ exists c s', create_channel service q s = Done (success c, s') /\
    Channel.m_service c = service /\ Channel.m_iceoryxTerminal c ∉ ids cs /\ live s' (c :: cs) /\ keeps s s' cs /\
    sees s' c (mkIceoryx service q false) (mkExternal (ServiceDescription.m_serviceString service)
      (ServiceDescription.m_instanceString service) (ServiceDescription.m_eventString service) false)).
Proof.
  intros [Oi Oe Hsame Hlen [Si Se]]. unfold create_channel.
  destruct (SharedPool.create_owned MAX_CHANNEL_NUMBER sizeof_I Hcap HI Hpos (mkIceoryx service q false) _ _ Oi)
    as [[E ->]|(E & pi & qi & -> & Mi & Oi' & Vi & Ki)].
  { left. rewrite <- Si. split; [done|]. cbn [obind]. by destruct s as [[? ?] [? ?]]. }
  right. rewrite <- Si. split; [done|]. cbn [obind].
  destruct (SharedPool.create_owned MAX_CHANNEL_NUMBER sizeof_E Hcap HE Hpos (mkExternal (ServiceDescription.m_serviceString service)
    (ServiceDescription.m_instanceString service) (ServiceDescription.m_eventString service) false) _ _ Oe)
    as [[E' _]|(_ & pe & qe & -> & Me & Oe' & Ve & Ke)]; [exfalso; lia|]. cbn [obind SharedPool.wrap].
  cbn [SharedPool.wrap snd SharedPool.control SharedPool.pool] in Oi', Oe', Vi, Ve, Ki, Ke. cbn [SharedPool.control SharedPool.pool].
  assert (Hnew : length (SharedPool.control (s_iceoryxTerminals s)) ∉ ids cs).
  { intros [b Hb]%(SharedPool.o_known _ _ _ _ Oi). apply lookup_lt_Some in Hb. lia. }
  eexists _, _. split; [done|]. split; [done|]. split; [done|]. split.
  - constructor; simpl.
    + exact Oi'.
    + rewrite Hlen. exact Oe'.
    + intros c [->|Hc]%elem_of_cons; [by simpl|by apply Hsame].
    + rewrite !length_app. simpl. lia.
    + rewrite distinct_ids_cons. simpl. rewrite decide_False by done. lia.
  - split; [|by split]. intros c t x Hc [H1 H2].
    assert (Hin : Channel.m_iceoryxTerminal c ∈ ids cs) by (apply list_elem_of_fmap; by exists c).
    split; simpl; [by rewrite Ki|]. rewrite Ke; [done|]. by rewrite Hsame.
Qed.

Lemma in_ids c cs : c ∈ cs -> Channel.m_iceoryxTerminal c ∈ ids cs.
Proof. intros Hc. apply list_elem_of_fmap. by exists c. Qed.

Lemma live_copy c s cs : live s cs -> c ∈ cs -> live (copy_channel c s) (c :: cs) /\ keeps s (copy_channel c s) cs.
Proof.
  intros [Oi Oe Hsame Hlen [Si Se]] Hc. pose proof (in_ids c cs Hc) as Hin. pose proof (Hsame c Hc) as Hs.
  destruct (SharedPool.copy_owned _ _ Hpos _ _ _ Oi Hin) as [Oi' Vi]. destruct (SharedPool.copy_owned _ _ Hpos _ _ _ Oe Hin) as [Oe' Ve].
  unfold copy_channel. rewrite Hs. split.
  - constructor; simpl; [done|done| |by rewrite !length_alter|].
    + intros c' [->|Hc']%elem_of_cons; auto.
    + rewrite distinct_ids_cons, decide_True by done. lia.
  - intros c' t x Hc' [H1 H2]. split; simpl; [by rewrite Vi|by rewrite Ve].
Qed.

Lemma live_drop c s cs : live s (c :: cs) -> live (drop_channel c s) cs /\ keeps s (drop_channel c s) cs.
Proof.
  intros [Oi Oe Hsame Hlen [Si Se]]. pose proof (Hsame c ltac:(by left)) as Hs.
  destruct (SharedPool.drop_owned _ _ Hcap HI Hpos _ _ _ Oi) as (Oi' & Vi & Mi & Li).
  destruct (SharedPool.drop_owned _ _ Hcap HE Hpos _ _ _ Oe) as (Oe' & Ve & Me & Le).
  unfold drop_channel. rewrite Hs. rewrite distinct_ids_cons in Si, Se. split.
  - constructor; simpl; [done|done| |congruence|].
    + intros c' Hc'. apply Hsame. by right.
    + rewrite Mi, Me, Si, Se. destruct (decide _); lia.
  - intros c' t x Hc' [H1 H2]. split; simpl; [by rewrite Vi by by apply in_ids|].
    rewrite Ve; [done|]. rewrite (Hsame c') by (by right). by apply in_ids.
Qed.

(** [subscriber->subscribe()] and [dataWriter->connect()] for a channel. *)
Definition activate c s : Terminals :=
  mkTerminals (SharedPool.invoke MAX_CHANNEL_NUMBER sizeof_I subscribe (Channel.m_iceoryxTerminal c) (s_iceoryxTerminals s))
    (SharedPool.invoke MAX_CHANNEL_NUMBER sizeof_E connect (Channel.m_externalTerminal c) (s_externalTerminals s)).

Lemma live_activate c s cs : live s cs -> c ∈ cs -> live (activate c s) cs /\
  (forall c' t x, c' ∈ cs -> sees s c' t x ->
     if decide (Channel.m_iceoryxTerminal c' = Channel.m_iceoryxTerminal c) then sees (activate c s) c' (subscribe t) (connect x)
     else sees (activate c s) c' t x).
Proof.
  intros [Oi Oe Hsame Hlen [Si Se]] Hc. pose proof (in_ids c cs Hc) as Hin. pose proof (Hsame c Hc) as Hs.
  destruct (SharedPool.invoke_owned _ _ HI Hpos subscribe _ _ _ Oi Hin) as (Oi' & Vi & Ki & Mi & Ci).
  destruct (SharedPool.invoke_owned _ _ HE Hpos connect _ _ _ Oe Hin) as (Oe' & Ve & Ke & Me & Ce).
  unfold activate. rewrite Hs. split.
  - constructor; simpl; [done|done|done|by rewrite Ci, Ce|by rewrite Mi, Me].
  - intros c' t x Hc' [H1 H2]. rewrite (Hsame c' Hc') in H2. unfold sees. rewrite (Hsame c' Hc'). simpl. case_decide as E.
    + rewrite E in *. by rewrite Vi, Ve, H1, H2.
    + by rewrite Ki, Ke by (try done; by apply in_ids).
Qed.

(** ** The channels of a gateway *)

Definition key (d : ServiceDescription.t) : string * string * string :=
  (ServiceDescription.m_serviceString d, ServiceDescription.m_instanceString d, ServiceDescription.m_eventString d).

Lemma service_eqb_key a b : ServiceDescription.eqb a b = true <-> key a = key b.
Proof.
  unfold ServiceDescription.eqb, key. repeat case_bool_decide; simpl; split; congruence.
Qed.

Definition keys cs : list (string * string * string) := (fun c => key (Channel.m_service c)) <$> cs.

(** The terminals have been made for the service of the channel. *)
Definition made_for c (t : IceoryxTerminal) (x : ExternalTerminal) : Prop :=
  key (t_service t) = key (Channel.m_service c) /\ (x_service x, x_instance x, x_event x) = key (Channel.m_service c).

(** The invariant of a gateway; [out] are the copies of channels that its callers
    hold. *)
Record gateway_ok (g : Gateway) (out : list Channel.t) : Prop := {
  k_live : live (terminals g) (m_channels g ++ out);
  k_keys : NoDup (keys (m_channels g));
  k_ids : NoDup (ids (m_channels g));
  k_room : (length (m_channels g) <= MAX_CHANNEL_NUMBER)%nat;
  k_wildcards c : c ∈ m_channels g -> is_wildcard (Channel.m_service c) = false;
  k_terminals c : c ∈ m_channels g ++ out -> exists t x, sees (terminals g) c t x /\ made_for c t x }.

Lemma position_spec service g :
  match position service g with
  | Some (i, c) => m_channels g !! i = Some c /\ key (Channel.m_service c) = key service
  | None => key service ∉ keys (m_channels g)
  end.
Proof.
  unfold position. destruct (list_find _ _) as [[i c]|] eqn:E.
  - apply list_find_Some in E as (H1 & H2%service_eqb_key & _). done.
  - apply list_find_None in E. rewrite Forall_forall in E. intros (c & Hk & Hc)%list_elem_of_fmap.
    apply (E c Hc). by apply service_eqb_key.
Qed.

Lemma keeps_terminals s s' cs : keeps s s' cs -> (forall c, c ∈ cs -> exists t x, sees s c t x /\ made_for c t x) ->
  forall c, c ∈ cs -> exists t x, sees s' c t x /\ made_for c t x.
Proof. intros Hk H c Hc. destruct (H c Hc) as (t & x & Hs & Hm). exists t, x. split; [by apply Hk|done]. Qed.

(** A caller gets a copy of a channel, or gives one back. *)
Lemma gateway_copy c g out : gateway_ok g out -> c ∈ m_channels g ++ out ->
  gateway_ok (set_terminals (copy_channel c (terminals g)) g) (c :: out) /\ keeps (terminals g) (copy_channel c (terminals g)) (m_channels g ++ out).
Proof.
  intros [] Hc. destruct (live_copy c _ _ k_live0 Hc) as [Hl Hk]. split; [|done]. constructor; simpl; try done.
  - eapply live_perm; [exact Hl|]. by rewrite Permutation_middle.
  - intros c' Hc'. apply (keeps_terminals (terminals g) _ (m_channels g ++ out)); try done.
    revert Hc'. rewrite !elem_of_app, elem_of_cons. intros [|[->|]]; [by left| |by right]. by apply elem_of_app.
Qed.

Lemma gateway_drop c g out : gateway_ok g (c :: out) ->
  gateway_ok (set_terminals (drop_channel c (terminals g)) g) out /\ keeps (terminals g) (drop_channel c (terminals g)) (m_channels g ++ out).
Proof.
  intros []. destruct (live_drop c (terminals g) (m_channels g ++ out)) as [Hl Hk].
  { eapply live_perm; [exact k_live0|]. by rewrite Permutation_middle. }
  split; [|done]. constructor; simpl; try done. intros c' Hc'. eapply keeps_terminals; [exact Hk| |done].
  intros d Hd. apply k_terminals0. revert Hd. rewrite !elem_of_app, elem_of_cons. tauto.
Qed.

Lemma channels_few g out : gateway_ok g out -> Z.of_nat (length (m_channels g)) <= distinct_ids (m_channels g ++ out).
Proof.
  intros []. unfold distinct_ids. apply Nat2Z.inj_le.
  rewrite <- (length_fmap Channel.m_iceoryxTerminal (m_channels g)). fold (ids (m_channels g)).
  rewrite <- (size_list_to_set (C := gset nat) (ids (m_channels g)) k_ids0). apply subseteq_size.
  unfold ids. rewrite fmap_app, list_to_set_app. set_solver.
Qed.

(** A new channel is stored and a copy of it returned. *)
Lemma push_new c s g out : gateway_ok g out -> live s (c :: c :: m_channels g ++ out) -> keeps (terminals g) s (m_channels g ++ out) ->
  Channel.m_iceoryxTerminal c ∉ ids (m_channels g ++ out) -> key (Channel.m_service c) ∉ keys (m_channels g) ->
  is_wildcard (Channel.m_service c) = false -> (length (m_channels g) < MAX_CHANNEL_NUMBER)%nat ->
  (exists t x, sees s c t x /\ made_for c t x) ->
  gateway_ok (mkGateway (m_interface g) (m_channels g ++ [c]) s) (c :: out).
Proof.
  intros [] Hl Hk Hid Hkey Hw Hroom Ht. constructor; simpl.
  - eapply live_perm; [exact Hl|]. rewrite <- app_assoc. simpl. by rewrite <- !Permutation_middle.
  - unfold keys. rewrite fmap_app. apply NoDup_app. split; [done|]. split; [|apply NoDup_singleton].
    intros k Hin ->%list_elem_of_singleton. by apply Hkey.
  - unfold ids. rewrite fmap_app. apply NoDup_app. split; [done|]. split; [|apply NoDup_singleton].
    intros i Hin ->%list_elem_of_singleton. apply Hid. unfold ids. rewrite fmap_app. apply elem_of_app. by left.
  - rewrite length_app. simpl. lia.
  - intros c' [Hc'| ->%list_elem_of_singleton]%elem_of_app; auto.
  - intros c' Hc'. assert (Hcase : c' = c \/ c' ∈ m_channels g ++ out).
    { revert Hc'. rewrite !elem_of_app, !elem_of_cons, elem_of_nil. tauto. }
    destruct Hcase as [->|Hin]; [done|]. by apply (keeps_terminals (terminals g) s (m_channels g ++ out)).
Qed.

(** Copies are made and destroyed again. *)
Lemma live_copies c s A : live s (c :: A) ->
  let s' := drop_channel c (drop_channel c (copy_channel c (copy_channel c (copy_channel c s)))) in
  live s' (c :: c :: A) /\ keeps s s' (c :: A).
Proof.
  intros Hl s'. destruct (live_copy c s _ Hl) as [L1 K1]; [by left|]. destruct (live_copy c _ _ L1) as [L2 K2]; [by left|].
  destruct (live_copy c _ _ L2) as [L3 K3]; [by left|]. destruct (live_drop c _ _ L3) as [L4 K4]. destruct (live_drop c _ _ L4) as [L5 K5].
  split; [exact L5|]. intros d t x Hd Hs.
  apply K5; [by right|]. apply K4; [by do 2 right|]. apply K3; [by do 2 right|]. apply K2; [by right|]. by apply K1.
Qed.

(** [addChannel] on every branch. *)
Lemma addChannel_ok service q g out : gateway_ok g out ->
  (is_wildcard service = true /\ addChannel service q g = Done (error UNSUPPORTED_SERVICE_TYPE, g)) \/
  (is_wildcard service = false /\ key service ∉ keys (m_channels g) /\ distinct_ids (m_channels g ++ out) = Z.of_nat MAX_CHANNEL_NUMBER /\
    addChannel service q g = Done (error UNSUCCESSFUL_CHANNEL_CREATION, g)) \/
  (is_wildcard service = false /\ exists c g', addChannel service q g = Done (success c, g') /\ gateway_ok g' (c :: out) /\
    c ∈ m_channels g' /\ key (Channel.m_service c) = key service /\ keeps (terminals g) (terminals g') (m_channels g ++ out) /\
    (c ∈ m_channels g /\ m_channels g' = m_channels g \/
     key service ∉ keys (m_channels g) /\ distinct_ids (m_channels g ++ out) < Z.of_nat MAX_CHANNEL_NUMBER /\
     Channel.m_iceoryxTerminal c ∉ ids (m_channels g ++ out) /\ m_channels g' = m_channels g ++ [c])).
Proof.
  intros Hok. unfold addChannel. destruct (is_wildcard service) eqn:Hw; [by left|]. right.
  pose proof (position_spec service g) as Hp. unfold findChannel. destruct (position service g) as [[i c]|].
  - right. split; [done|]. destruct Hp as [Hi Hkey]. assert (Hc : c ∈ m_channels g) by (by eapply list_elem_of_lookup_2).
    assert (Hin : forall o, c ∈ m_channels g ++ o) by (intros; apply elem_of_app; by left).
    destruct (gateway_copy c g out Hok (Hin _)) as [G1 K1].
    destruct (gateway_copy c _ (c :: out) G1 (Hin _)) as [G2 K2]. destruct (gateway_drop c _ (c :: out) G2) as [G3 K3]. simpl in *.
    eexists c, _. split; [done|]. split; [exact G3|]. split; [done|]. split; [done|]. split; [|by left].
    intros c' t x Hc' Hs. apply K3; [|apply K2; [|by apply K1]]; revert Hc'; rewrite !elem_of_app, ?elem_of_cons; tauto.
  - set (sd := ServiceDescription.ctor _ _ _ _ _). assert (Hsd : key sd = key service) by done.
    destruct (live_create sd q _ _ (k_live _ _ Hok)) as [[Hfull ->]|(Hroom & c & s & -> & Hserv & Hid & Hl & Hk & Hsees)]; cbn [obind].
    { left. split; [done|]. split; [done|]. split; [done|]. by destruct g. }
    right. split; [done|]. pose proof (channels_few g out Hok) as Hfew.
    destruct (live_copies c s _ Hl) as [Hl1 Hk1].
    unfold push_channel. cbn [m_channels set_terminals]. rewrite bool_decide_true by lia. unfold set_terminals. cbn [terminals m_interface m_channels].
    eexists c, _. split; [done|]. split; [|split; [|split; [|split]]].
    + apply push_new; try done; try lia.
      * intros d t x Hd Hs. apply Hk1; [by right|]. by apply Hk.
      * by rewrite Hserv, Hsd.
      * by rewrite Hserv.
      * eexists _, _. split; [apply Hk1; [by left|exact Hsees]|]. by rewrite <- Hserv.
    + simpl. apply elem_of_app. right. by left.
    + by rewrite Hserv.
    + intros d t x Hd Hs. simpl. apply Hk1; [by right|]. by apply Hk.
    + by right.
Qed.

Lemma discardChannel_ok service g out : gateway_ok g out ->
  match discardChannel service g with
  | (success _, g') => gateway_ok g' out /\ keeps (terminals g) (terminals g') (m_channels g' ++ out) /\
      exists i c, m_channels g !! i = Some c /\ key (Channel.m_service c) = key service /\ m_channels g' = delete i (m_channels g)
  | (error e, g') => e = NONEXISTANT_CHANNEL /\ g' = g /\ key service ∉ keys (m_channels g)
  end.
Proof.
  intros []. unfold discardChannel. pose proof (position_spec service g) as Hp. destruct (position service g) as [[i c]|]; [|done].
  destruct Hp as [Hi Hkey]. pose proof (delete_Permutation _ _ _ Hi) as Hperm.
  assert (Hlen : (length (delete i (m_channels g)) <= MAX_CHANNEL_NUMBER)%nat) by (rewrite length_delete by (by eexists); lia).
  assert (Hex : exists i' c', m_channels g !! i' = Some c' /\ key (Channel.m_service c') = key service /\ delete i (m_channels g) = delete i' (m_channels g)) by by exists i, c.
  revert Hex Hlen Hperm. generalize (delete i (m_channels g)). intros rest Hex Hlen Hperm.
  destruct (live_drop c (terminals g) (rest ++ out)) as [Hl Hk].
  { eapply live_perm; [exact k_live0|]. by rewrite Hperm. }
  assert (Hsub : forall d, d ∈ rest -> d ∈ m_channels g) by (intros d Hd; rewrite Hperm; by right).
  split; [constructor; simpl|by split].
  - done.
  - unfold keys in *. rewrite Hperm in k_keys0. by apply NoDup_cons in k_keys0 as [_ ?].
  - unfold ids in *. rewrite Hperm in k_ids0. by apply NoDup_cons in k_ids0 as [_ ?].
  - done.
  - auto.
  - eapply keeps_terminals; [exact Hk|]. intros d Hd. apply k_terminals0. revert Hd. rewrite !elem_of_app. intros [?|?]; auto.
Qed.

Lemma findChannel_ok service g out : gateway_ok g out ->
  (key service ∉ keys (m_channels g) /\ findChannel service g = (None, g)) \/
  exists c g', findChannel service g = (Some c, g') /\ c ∈ m_channels g /\ key (Channel.m_service c) = key service /\
    gateway_ok g' (c :: out) /\ m_channels g' = m_channels g /\ keeps (terminals g) (terminals g') (m_channels g ++ out).
Proof.
  intros Hok. unfold findChannel. pose proof (position_spec service g) as Hp. destruct (position service g) as [[i c]|]; [right|by left].
  destruct Hp as [Hi Hkey]. assert (Hc : c ∈ m_channels g) by (by eapply list_elem_of_lookup_2).
  destruct (gateway_copy c g out Hok) as [G K]; [apply elem_of_app; by left|]. eexists c, _. split; [done|]. split; [done|]. split; [done|]. by split.
Qed.

Lemma hasChannel_ok service g out : gateway_ok g out ->
  exists g', hasChannel service g = (bool_decide (key service ∈ keys (m_channels g)), g') /\ gateway_ok g' out /\
    m_channels g' = m_channels g /\ keeps (terminals g) (terminals g') (m_channels g ++ out).
Proof.
  intros Hok. unfold hasChannel. destruct (findChannel_ok service g out Hok) as [[Hn ->]|(c & g1 & -> & Hc & Hkey & G1 & E1 & K1)].
  - exists g. rewrite bool_decide_false by done. split; [done|]. split; [done|]. split; [done|]. by intros c t x.
  - destruct (gateway_drop c g1 out G1) as [G2 K2]. eexists. rewrite bool_decide_true; [split; [done|]|].
    + split; [exact G2|]. split; [done|]. intros d t x Hd Hs. simpl. apply K2; [by rewrite E1|by apply K1].
    + rewrite <- Hkey. apply list_elem_of_fmap. by exists c.
Qed.

(** All stored channels have been told to subscribe and connect. *)
Definition all_active g : Prop :=
  forall c, c ∈ m_channels g -> exists t x, sees (terminals g) c t x /\ t_active t = true /\ x_connected x = true.

Lemma active_keeps g g' out : all_active g -> keeps (terminals g) (terminals g') (m_channels g ++ out) -> m_channels g' = m_channels g -> all_active g'.
Proof.
  intros Ha Hk E c Hc. rewrite E in Hc. destruct (Ha c Hc) as (t & x & Hs & H). exists t, x. split; [|done].
  apply Hk; [apply elem_of_app; by left|done].
Qed.

Lemma setupChannel_ok service q g out : gateway_ok g out -> all_active g -> key service ∉ keys (m_channels g) ->
  exists g', setupChannel service q g = Done g' /\ gateway_ok g' out /\ all_active g' /\
    keys (m_channels g') = keys (m_channels g) ++
      (if is_wildcard service || bool_decide (distinct_ids (m_channels g ++ out) = Z.of_nat MAX_CHANNEL_NUMBER) then [] else [key service]).
Proof.
  intros Hok Ha Hnew. unfold setupChannel.
  destruct (addChannel_ok service q g out Hok) as [(Hw & ->)|[(Hw & _ & Hfull & ->)|(Hw & c & g1 & E & G1 & Hc & Hkey & Hk & Hcase)]].
  - rewrite Hw. exists g. by rewrite app_nil_r.
  - rewrite Hw, bool_decide_true by done. exists g. by rewrite app_nil_r.
  - rewrite E. cbn [obind]. destruct Hcase as [[Hin _]|(_ & Hroom & Hid & Ech)].
    { exfalso. apply Hnew. rewrite <- Hkey. apply list_elem_of_fmap. by exists c. }
    rewrite Hw, bool_decide_false by lia. cbn [orb]. fold (activate c (terminals g1)).
    destruct (live_activate c (terminals g1) _ (k_live _ _ G1)) as [Hl Hv]; [apply elem_of_app; by left|].
    assert (G2 : gateway_ok (set_terminals (activate c (terminals g1)) g1) (c :: out)).
    { destruct G1. constructor; simpl; try done. intros d Hd. destruct (k_terminals0 d Hd) as (t & x & Hs & Hm).
      specialize (Hv d t x Hd Hs). case_decide; [by exists (subscribe t), (connect x)|by exists t, x]. }
    destruct (gateway_drop c _ out G2) as [G3 K3]. simpl in G3, K3. eexists. split; [done|]. split; [exact G3|]. split.
    + intros d Hd. simpl in Hd. destruct (k_terminals _ _ G1 d) as (t & x & Hs & _); [apply elem_of_app; by left|].
      assert (Hact : exists t' x', sees (activate c (terminals g1)) d t' x' /\ t_active t' = true /\ x_connected x' = true).
      { specialize (Hv d t x ltac:(apply elem_of_app; by left) Hs). case_decide as Ed; [by exists (subscribe t), (connect x)|].
        exists t, x. split; [done|]. rewrite Ech in Hd. apply elem_of_app in Hd as [Hd| ->%list_elem_of_singleton]; [|done].
        destruct (Ha d Hd) as (t' & x' & Hs' & Hact'). apply Hk in Hs'; [|apply elem_of_app; by left].
        destruct Hs as [? ?], Hs' as [? ?]. by simplify_eq. }
      destruct Hact as (t' & x' & Hs' & ?). exists t', x'. split; [|done]. simpl. apply K3; [apply elem_of_app; by left|done].
    + simpl. rewrite Ech. unfold keys. rewrite fmap_app. simpl. by rewrite Hkey.
Qed.

(** *** Discovery *)

(** The services that a gateway should have channels for, by their names. *)
Definition track (ks : list (string * string * string)) (msg : CaproMessage.t) : list (string * string * string) :=
  let service := CaproMessage.m_serviceDescription msg in
  if bool_decide (ServiceDescription.m_serviceString service = INTROSPECTION_SERVICE_ID)
     || negb (bool_decide (CaproMessage.m_serviceType msg = CaproServiceType.PUBLISHER)) then ks
  else
    match CaproMessage.m_type msg with
    | CaproMessageType.OFFER =>
        if bool_decide (key service ∈ ks) || is_wildcard service || bool_decide (length ks = MAX_CHANNEL_NUMBER) then ks else ks ++ [key service]
    | CaproMessageType.STOP_OFFER => filter (fun k => k <> key service) ks
    | _ => ks
    end.

Lemma distinct_channels g : gateway_ok g [] -> distinct_ids (m_channels g ++ []) = Z.of_nat (length (keys (m_channels g))).
Proof.
  intros []. rewrite app_nil_r. unfold distinct_ids. rewrite size_list_to_set by done. unfold ids, keys. by rewrite !length_fmap.
Qed.

Lemma delete_filter {A} `{EqDecision A} (l : list A) i x : NoDup l -> l !! i = Some x -> delete i l = filter (fun y => y <> x) l.
Proof.
  revert i. induction l as [|y l IH]; intros [|i] Hn Hi; try done; apply NoDup_cons in Hn as [Hy Hn]; rewrite filter_cons; simpl in *.
  - injection Hi as <-. rewrite decide_False by tauto. symmetry. clear -Hy. induction l as [|z l IH]; [done|].
    apply not_elem_of_cons in Hy as [H1 H2]. rewrite filter_cons, decide_True by done. f_equal. auto.
  - rewrite decide_True; [f_equal; by apply IH|]. intros ->. apply Hy. by eapply list_elem_of_lookup_2.
Qed.

Lemma keys_delete i cs : keys (delete i cs) = delete i (keys cs).
Proof. unfold keys. by rewrite list_fmap_delete. Qed.

Lemma discover_ok msg g : gateway_ok g [] -> all_active g ->
  exists g', discover msg g = Done g' /\ gateway_ok g' [] /\ all_active g' /\ keys (m_channels g') = track (keys (m_channels g)) msg.
Proof.
  intros Hok Ha. unfold discover, track. set (service := CaproMessage.m_serviceDescription msg).
  case_bool_decide as H1; [by exists g|]. case_bool_decide as H2; [|by exists g]. cbn [orb negb].
  destruct (hasChannel_ok service g [] Hok) as (g1 & E & G1 & C1 & K1).
  destruct (CaproMessage.m_type msg); try by exists g.
  - rewrite E. case_bool_decide as Hin; cbn [negb orb].
    + exists g1. split; [done|]. split; [done|]. split; [by eapply active_keeps|by rewrite C1].
    + destruct (setupChannel_ok service SUBSCRIBER_CACHE_SIZE g1 [] G1) as (g2 & -> & G2 & A2 & E2); [by eapply active_keeps|by rewrite C1|].
      exists g2. split; [done|]. split; [done|]. split; [done|]. rewrite E2, C1. rewrite <- C1, distinct_channels, C1 by done.
      destruct (is_wildcard service); cbn [orb]; [by rewrite app_nil_r|]. repeat case_bool_decide; try (exfalso; lia); by rewrite ?app_nil_r.
  - rewrite E. case_bool_decide as Hin.
    + pose proof (discardChannel_ok service g1 [] G1) as Hd. destruct (discardChannel service g1) as [[[]|e] g2]; simpl.
      * destruct Hd as (G2 & K2 & i & c & Hi & Hkey & C2). exists g2. split; [done|]. split; [done|]. split.
        -- intros d Hd. assert (Hd1 : d ∈ m_channels g1).
           { rewrite C2 in Hd. apply list_elem_of_lookup in Hd as [j Hj]. destruct (decide (j < i)%nat).
             - rewrite list_lookup_delete_lt in Hj by done. by eapply list_elem_of_lookup_2.
             - rewrite list_lookup_delete_ge in Hj by lia. by eapply list_elem_of_lookup_2. }
           destruct (active_keeps g g1 [] Ha K1 C1 d Hd1) as (t & x & Hs & ?). exists t, x. split; [|done]. apply K2; [apply elem_of_app; by left|done].
        -- rewrite C2, keys_delete, <- C1. rewrite (delete_filter (keys (m_channels g1)) i (key service)); [done|apply G1|].
           unfold keys. rewrite list_lookup_fmap, Hi. simpl. by rewrite Hkey.
      * destruct Hd as (_ & _ & Hn). by rewrite C1 in Hn.
    + exists g1. split; [done|]. split; [done|]. split; [by eapply active_keeps|]. rewrite C1. symmetry.
      clear -Hin. induction (keys (m_channels g)) as [|k l IH]; [done|]. apply not_elem_of_cons in Hin as [? ?].
      rewrite filter_cons, decide_True by done. f_equal. auto.
Qed.

Lemma discover_all_ok msgs : forall g, gateway_ok g [] -> all_active g ->
  exists g', discover_all msgs g = Done g' /\ gateway_ok g' [] /\ all_active g' /\ keys (m_channels g') = foldl track (keys (m_channels g)) msgs.
Proof.
  induction msgs as [|msg msgs IH]; intros g Hok Ha; simpl; [by exists g|].
  destruct (discover_ok msg g Hok Ha) as (g1 & -> & G1 & A1 & E1). cbn [obind]. rewrite <- E1. by apply IH.
Qed.

Lemma Gateway_ctor_ok i : gateway_ok (Gateway_ctor i) [] /\ all_active (Gateway_ctor i).
Proof. split; [constructor; simpl; try (intros; set_solver); [exact live_ctor|apply NoDup_nil_2..|lia]|]. intros c Hc. set_solver. Qed.

(** *** Any use of the channels *)

(** Calls of the protected functions of the gateway, and the destruction of a copy
    that a caller has got. *)
Inductive operation :=
  | Add (service : ServiceDescription.t) (queueCapacity : Z)
  | Find (service : ServiceDescription.t)
  | Discard (service : ServiceDescription.t)
  | Release (n : nat).

Definition operate (o : operation) (st : Gateway * list Channel.t) : outcome (Gateway * list Channel.t) :=
  let '(g, out) := st in
  match o with
  | Add service q =>
      let* '(result, g) := addChannel service q g in
      Done (g, match result with success c => c :: out | error _ => out end)
  | Find service => let '(result, g) := findChannel service g in Done (g, match result with Some c => c :: out | None => out end)
  | Discard service => Done (snd (discardChannel service g), out)
  | Release n =>
      match out !! n with Some c => Done (set_terminals (drop_channel c (terminals g)) g, delete n out) | None => Done (g, out) end
  end.

Fixpoint operate_all (os : list operation) (st : Gateway * list Channel.t) : outcome (Gateway * list Channel.t) :=
  match os with [] => Done st | o :: os => let* st := operate o st in operate_all os st end.

Lemma gateway_perm g out out' : gateway_ok g out -> out ≡ₚ out' -> gateway_ok g out'.
Proof.
  intros [] Hp. constructor; try done.
  - eapply live_perm; [exact k_live0|]. by rewrite Hp.
  - intros c Hc. apply k_terminals0. revert Hc. by rewrite Hp.
Qed.

Lemma operate_ok o g out : gateway_ok g out -> exists g' out', operate o (g, out) = Done (g', out') /\ gateway_ok g' out'.
Proof.
  intros Hok. destruct o as [service q|service|service|n]; simpl.
  - destruct (addChannel_ok service q g out Hok) as [(_ & ->)|[(_ & _ & _ & ->)|(_ & c & g1 & -> & G1 & _)]]; cbn [obind]; eauto.
  - destruct (findChannel_ok service g out Hok) as [[_ ->]|(c & g1 & -> & _ & _ & G1 & _)]; eauto.
  - pose proof (discardChannel_ok service g out Hok) as Hd. destruct (discardChannel service g) as [[[]|e] g1]; simpl;
      [destruct Hd as (G1 & _)|destruct Hd as (_ & -> & _)]; eauto.
  - destruct (out !! n) as [c|] eqn:Hn; [|eauto]. destruct (gateway_drop c g (delete n out)) as [G1 _]; [|eauto].
    eapply gateway_perm; [exact Hok|]. by apply delete_Permutation.
Qed.

Lemma operate_all_ok os : forall g out, gateway_ok g out -> exists g' out', operate_all os (g, out) = Done (g', out') /\ gateway_ok g' out'.
Proof.
  induction os as [|o os IH]; intros g out Hok; [by exists g, out|]. cbn [operate_all].
  destruct (operate_ok o g out Hok) as (g1 & out1 & -> & G1). cbn [obind]. by apply IH.
Qed.
End gateway.

(** ** Properties *)

Section properties.

(** Terminals live exactly as long as the copies of their channel.  However the
    functions of a gateway are called and whenever the callers destroy the copies
    they got, no call ends the process; there is at most one channel per service;
    each copy of a channel, also of one that was discarded, leads to terminals that
    were made for its service; and both pools hold one terminal for each channel of
    which there is a copy, so that nothing is left once the copies are gone. *)
Theorem channels_own_terminals (max : nat) sizeof_I sizeof_E interface os :
  (0 < max)%nat -> Z.of_nat max < 2 ^ 32 -> 0 < sizeof_I -> 0 < sizeof_E ->
  exists g out, operate_all max sizeof_I sizeof_E os (Gateway_ctor max interface, []) = Done (g, out) /\
    NoDup (keys (m_channels g)) /\ (length (m_channels g) <= max)%nat /\
    (forall c, c ∈ m_channels g ++ out -> exists t x, sees max sizeof_I sizeof_E (terminals g) c t x /\ made_for c t x) /\
    ObjectPool.size (SharedPool.pool (s_iceoryxTerminals (terminals g))) = distinct_ids (m_channels g ++ out) /\
    ObjectPool.size (SharedPool.pool (s_externalTerminals (terminals g))) = distinct_ids (m_channels g ++ out) /\
    (out = [] -> distinct_ids (m_channels g ++ out) = getNumberOfChannels g).
Proof.
  intros Hpos Hcap HI HE. destruct (operate_all_ok max sizeof_I sizeof_E Hcap Hpos HI HE os (Gateway_ctor max interface) []) as (g & out & E & Hok).
  { by apply Gateway_ctor_ok. }
  exists g, out. split; [done|]. pose proof Hok as [Hl Hk Hi Hr Hw Ht]. destruct (l_size _ _ _ _ _ Hl) as [S1 S2].
  split; [done|]. split; [done|]. split; [done|]. split; [done|]. split; [done|]. intros ->.
  rewrite (distinct_channels max sizeof_I sizeof_E) by done. unfold keys, getNumberOfChannels. by rewrite length_fmap.
Qed.

Definition service_a : ServiceDescription.t := ServiceDescription.ctor "Radar" "Left" "Object" [0; 0; 0; 0] Interfaces.INTERNAL.
Definition service_b : ServiceDescription.t := ServiceDescription.ctor "Radar" "Right" "Object" [0; 0; 0; 0] Interfaces.INTERNAL.

Lemma channels_own_terminals_witness :
  exists g out, operate_all 2 64 32 [Add service_a 5; Add service_b 5; Discard service_a; Release 1; Find service_b]
    (Gateway_ctor 2 Interfaces.DDS, []) = Done (g, out) /\ NoDup (keys (m_channels g)).
Proof.
  destruct (channels_own_terminals 2 64 32 Interfaces.DDS [Add service_a 5; Add service_b 5; Discard service_a; Release 1; Find service_b])
    as (g & out & E & H & _); [lia|lia|lia|lia|]. exists g, out. split; [exact E|exact H].
Defined.

(** With two places: the channel that a caller still holds keeps its terminals until
    it is released, and its place is then free for another service. *)
Example places_are_reused :
  let run os := match operate_all 2 64 32 os (Gateway_ctor 2 Interfaces.DDS, []) with
                | Done (g, out) => Some (keys (m_channels g), length out) | Terminated _ => None end in
  let third := ServiceDescription.ctor "Radar" "Front" "Object" [0; 0; 0; 0] Interfaces.INTERNAL in
  let start := [Add service_a 5; Add service_b 5; Discard service_a] in
  run (start ++ [Add third 5]) = Some ([("Radar", "Right", "Object")], 2%nat) /\
  run (start ++ [Release 1; Add third 5]) = Some ([("Radar", "Right", "Object"); ("Radar", "Front", "Object")], 2%nat).
Proof. vm_compute. done. Qed.

(** C37: the gateway to DDS follows the publishers.  After any sequence of messages
    it has exactly the channels that the messages ask for: one for each service
    that was offered by a publisher and not withdrawn since, wildcards and the
    introspection left out, in the order of the offers and as long as there is
    room; all of them are subscribed and connected, and the pools hold their
    terminals and no others. *)
Theorem discovery_tracks_offers (max : nat) sizeof_I sizeof_E interface msgs :
  (0 < max)%nat -> Z.of_nat max < 2 ^ 32 -> 0 < sizeof_I -> 0 < sizeof_E ->
  exists g, discover_all max sizeof_I sizeof_E msgs (Gateway_ctor max interface) = Done g /\
    keys (m_channels g) = foldl (track max) [] msgs /\
    (forall c, c ∈ m_channels g -> exists t x, sees max sizeof_I sizeof_E (terminals g) c t x /\ made_for c t x /\
      t_active t = true /\ x_connected x = true) /\
    ObjectPool.size (SharedPool.pool (s_iceoryxTerminals (terminals g))) = getNumberOfChannels g /\
    ObjectPool.size (SharedPool.pool (s_externalTerminals (terminals g))) = getNumberOfChannels g.
Proof.
  intros Hpos Hcap HI HE. destruct (Gateway_ctor_ok max sizeof_I sizeof_E Hcap Hpos HI HE interface) as [H0 A0].
  destruct (discover_all_ok max sizeof_I sizeof_E Hcap Hpos HI HE msgs _ H0 A0) as (g & E & Hok & Ha & Hk).
  exists g. split; [done|]. split; [done|]. pose proof Hok as [Hl _ _ _ _ Ht]. destruct (l_size _ _ _ _ _ Hl) as [S1 S2].
  pose proof (distinct_channels max sizeof_I sizeof_E g Hok) as Hd. unfold keys in Hd. rewrite length_fmap in Hd.
  split; [|unfold ObjectPool.size, getNumberOfChannels; by rewrite S1, S2, Hd].
  intros c Hc. destruct (Ht c) as (t & x & Hs & Hm); [apply elem_of_app; by left|]. exists t, x. split; [done|]. split; [done|].
  destruct (Ha c Hc) as (t' & x' & [H1 H2] & H3). destruct Hs as [H4 H5]. by simplify_eq.
Qed.

Lemma discovery_tracks_offers_witness :
  exists g, discover_all 2 64 32 [CaproMessage.ctor CaproMessageType.OFFER service_a CaproServiceType.PUBLISHER None;
      CaproMessage.ctor CaproMessageType.OFFER service_b CaproServiceType.PUBLISHER None;
      CaproMessage.ctor CaproMessageType.STOP_OFFER service_a CaproServiceType.PUBLISHER None] (Gateway_ctor 2 Interfaces.DDS) = Done g /\
    keys (m_channels g) = [("Radar", "Right", "Object")].
Proof.
  destruct (discovery_tracks_offers 2 64 32 Interfaces.DDS [CaproMessage.ctor CaproMessageType.OFFER service_a CaproServiceType.PUBLISHER None;
      CaproMessage.ctor CaproMessageType.OFFER service_b CaproServiceType.PUBLISHER None;
      CaproMessage.ctor CaproMessageType.STOP_OFFER service_a CaproServiceType.PUBLISHER None]) as (g & E & H & _); [lia|lia|lia|lia|].
  exists g. split; [exact E|]. rewrite H. vm_compute. reflexivity.
Defined.
End properties.

(** ** The threads of a gateway *)

Module Threads.
Inductive main_pc := Starting | DiscoveryStarted | ForwardingStarted | Running.
Inductive thread_pc := NotStarted | AtCondition | InBody | Finished.
Record t := mk { main : main_pc; m_discoveryThread : thread_pc; m_forwardingThread : thread_pc; m_isRunning : bool }.

Definition ctor : t := mk Starting NotStarted NotStarted false.

(** A step of [discoveryLoop] or [forwardingLoop]: the condition is evaluated, or
    the body has been executed. *)
Definition loop_step (running : bool) (pc : thread_pc) : thread_pc :=
  match pc with
  | AtCondition => if running then InBody else Finished
  | InBody => AtCondition
  | pc => pc
  end.

(** [runMultithreaded], interleaved with the two threads. *)
Inductive step : t -> t -> Prop :=
  | start_discovery f r : step (mk Starting NotStarted f r) (mk DiscoveryStarted AtCondition f r)
  | start_forwarding d r : step (mk DiscoveryStarted d NotStarted r) (mk ForwardingStarted d AtCondition r)
  | store_running d f r : step (mk ForwardingStarted d f r) (mk Running d f true)
  | discovery_step m d f r : step (mk m d f r) (mk m (loop_step r d) f r)
  | forwarding_step m d f r : step (mk m d f r) (mk m d (loop_step r f) r).

(** The threads are started before [m_isRunning] is set: both can find it false
    and end before their first round, and then they never run. *)
Lemma loops_can_end_at_start :
  rtc step ctor (mk Running Finished Finished true) /\
  forall s, rtc step (mk Running Finished Finished true) s -> s = mk Running Finished Finished true.
Proof.
  split.
  - eapply rtc_l; [apply start_discovery|]. eapply rtc_l; [apply (discovery_step _ AtCondition)|]. eapply rtc_l; [apply start_forwarding|].
    eapply rtc_l; [apply (forwarding_step _ _ AtCondition)|]. simpl. apply rtc_once, store_running.
  - intros s H. remember (mk Running Finished Finished true) as s0 eqn:E. revert E.
    induction H as [|s0 s1 s2 Hs _ IH]; intros E; [done|]. subst.
    assert (E1 : s1 = mk Running Finished Finished true) by (by inversion Hs). rewrite (IH E1). exact E1.
Qed.
End Threads.
