(* ===== verification/DdsGateway.v ===== *)
(** * The gateways to DDS

    A gateway forwards chunks of local publishers as datagrams to a DDS network
    ([iox_to_dds.inl], [cyclone_data_writer.cpp]) and publishes the datagrams of the
    network locally ([dds_to_iox.inl], [cyclone_data_reader.cpp]).  A datagram
    starts with a header of 16 bytes ([iox_chunk_datagram_header.cpp]) and is
    followed by the user header and the user payload of the chunk.  The DDS
    implementation, and the iceoryx terminal of a channel (a template parameter in
    the source), are interfaces with laws. *)

From S2P Require Import Prelude Helplets ChunkHeader ChunkSender.

(** ** The header of a datagram *)

(** [Endianess], an enumeration with the underlying type [uint8_t]. *)
Module Endianess.
Definition UNDEFINED : Z := 0.
Definition LITTLE : Z := 1.
Definition BIG : Z := 2.
Definition MIXED : Z := 3.
End Endianess.

Definition EndianessString : list string := ["UNDEFINED"; "LITTLE"; "BIG"; "MIXED"].

(** [endianDetector0] is the first byte of 0x01020304 in memory. *)
Definition getEndianess (endianDetector0 : Z) : Z :=
  if endianDetector0 =? 1 then Endianess.BIG
  else if endianDetector0 =? 4 then Endianess.LITTLE
  else if endianDetector0 =? 2 then Endianess.MIXED
  else Endianess.UNDEFINED.

Module Datagram.
Record Header := mkHeader {
  datagramVersion : Z;
  endianness : Z;
  userHeaderId : Z;
  userHeaderSize : Z;
  userPayloadSize : Z;
  userPayloadAlignment : Z }.

Definition DATAGRAM_VERSION : Z := 1.

(** [sizeof(IoxChunkDatagramHeader)], also the capacity of [Serialized_t]. *)
Definition SIZEOF_HEADER : Z := 16.

Definition set_endianness (e : Z) (h : Header) : Header :=
  mkHeader (datagramVersion h) e (userHeaderId h) (userHeaderSize h) (userPayloadSize h) (userPayloadAlignment h).

(** [static_cast<uint8_t>((value >> shift) & 0xFF)] *)
Definition byte_of (value shift : Z) : Z := Z.land (Z.shiftr value shift) 255.

Definition serialize (h : Header) : list Z :=
  [datagramVersion h; endianness h;
   byte_of (userHeaderId h) 8; byte_of (userHeaderId h) 0;
   byte_of (userHeaderSize h) 24; byte_of (userHeaderSize h) 16; byte_of (userHeaderSize h) 8; byte_of (userHeaderSize h) 0;
   byte_of (userPayloadSize h) 24; byte_of (userPayloadSize h) 16; byte_of (userPayloadSize h) 8; byte_of (userPayloadSize h) 0;
   byte_of (userPayloadAlignment h) 24; byte_of (userPayloadAlignment h) 16; byte_of (userPayloadAlignment h) 8;
   byte_of (userPayloadAlignment h) 0].

Definition word32 (a b c d : Z) : Z :=
  Z.lor (Z.lor (Z.lor (u32 (Z.shiftl a 24)) (Z.shiftl b 16)) (Z.shiftl c 8)) d.

Definition deserialize (s : list Z) : outcome Header :=
  expects (Z.of_nat (length s) =? 16)
    (let at' i := aget 0 s i in
     Done (mkHeader (at' 0) (at' 1) (Z.lor (Z.shiftl (at' 2) 8) (at' 3))
             (word32 (at' 4) (at' 5) (at' 6) (at' 7)) (word32 (at' 8) (at' 9) (at' 10) (at' 11))
             (word32 (at' 12) (at' 13) (at' 14) (at' 15)))).
End Datagram.

(** ** Writing *)

(** [std::copy] and [memcpy] of [n] bytes that start at [offset] of [bytes]. *)
Definition copy (bytes : list Z) (offset n : Z) : outcome (list Z) :=
  if offset + n <=? Z.of_nat (length bytes) then Done (take (Z.to_nat n) (drop (Z.to_nat offset) bytes))
  else Terminated UNDEFINED_BEHAVIOUR.

Section writer.
Context (endianDetector0 : Z).
Import Datagram.

(** [CycloneDataWriter::write]: the datagram that is given to DDS, if any; a null
    pointer is [None]. *)
Definition write (datagramHeader : Header) (userHeaderBytes userPayloadBytes : option (list Z)) : outcome (option (list Z)) :=
  if (0 <? userHeaderSize datagramHeader)
     && ((userHeaderId datagramHeader =? ChunkHeader.NO_USER_HEADER) || bool_decide (userHeaderBytes = None))
  then Done None
  else if (0 <? userPayloadSize datagramHeader) && bool_decide (userPayloadBytes = None) then Done None
  else
    let datagramHeader := set_endianness (getEndianess endianDetector0) datagramHeader in
    let serializedDatagramHeader := serialize datagramHeader in
    let* header :=
      match userHeaderBytes with
      | Some bytes => if 0 <? userHeaderSize datagramHeader then copy bytes 0 (userHeaderSize datagramHeader) else Done []
      | None => Done []
      end in
    let* payload :=
      match userPayloadBytes with
      | Some bytes => if 0 <? userPayloadSize datagramHeader then copy bytes 0 (userPayloadSize datagramHeader) else Done []
      | None => Done []
      end in
    Done (Some (serializedDatagramHeader ++ header ++ payload)).
End writer.

(** ** Reading *)

(** A DDS data reader that keeps all samples: [read] looks at the next one, [take]
    removes it. *)
Class SampleQueue (D : Type) := {
  read_next : D -> option (list Z);
  take_next : D -> option (list Z) * D }.

Inductive DataReaderError :=
  | NOT_CONNECTED
  | INVALID_DATAGRAM_HEADER_SIZE
  | INVALID_BUFFER_PARAMETER_FOR_USER_HEADER
  | INVALID_BUFFER_PARAMETER_FOR_USER_PAYLOAD
  | INVALID_DATA
  | BUFFER_SIZE_MISMATCH.

Module CycloneDataReader.
Record t (D : Type) := mk { m_impl : D; m_isConnected : bool }.
Arguments mk {_} _ _.
Arguments m_impl {_} _.
Arguments m_isConnected {_} _.

Section reader.
Context (endianDetector0 : Z) {D : Type} `{!SampleQueue D}.
Implicit Types (r : t D).
Import Datagram.

Definition set_impl (d : D) r : t D := mk d (m_isConnected r).

(** The participant, the topic and the reader are made by DDS: [d]. *)
Definition connect (d : D) r : t D := if negb (m_isConnected r) then mk d true else r.

Definition hasSamples r : bool := bool_decide (read_next (m_impl r) <> None).

Definition peekNextIoxChunkDatagramHeader r : outcome (option Header * t D) :=
  match read_next (m_impl r) with
  | None => Done (None, r)
  | Some nextSamplePayload =>
      let nextSampleSize := Z.of_nat (length nextSamplePayload) in
      let dropSample := Done (None, set_impl (snd (take_next (m_impl r))) r) in
      if nextSampleSize =? 0 then dropSample
      else if nextSampleSize <? SIZEOF_HEADER then dropSample
      else
        let* datagramHeader := deserialize (take 16 nextSamplePayload) in
        if negb (datagramVersion datagramHeader =? DATAGRAM_VERSION) then dropSample
        else if negb (endianness datagramHeader =? getEndianess endianDetector0) then
          (* the message that is logged reads [EndianessString] at this index *)
          match EndianessString !! Z.to_nat (endianness datagramHeader) with
          | Some _ => dropSample
          | None => Terminated UNDEFINED_BEHAVIOUR
          end
        else Done (Some datagramHeader, r)
  end.

(** [takeNext] with what it writes to the two buffers; a buffer is there or null. *)
Definition takeNext (datagramHeader : Header) (userHeaderBuffer userPayloadBuffer : bool) r
    : outcome (expected (option (list Z) * option (list Z)) DataReaderError * t D) :=
  if negb (m_isConnected r) then Done (error NOT_CONNECTED, r)
  else if (0 <? userHeaderSize datagramHeader)
          && ((userHeaderId datagramHeader =? ChunkHeader.NO_USER_HEADER) || negb userHeaderBuffer)
  then Done (error INVALID_BUFFER_PARAMETER_FOR_USER_HEADER, r)
  else if (0 <? userPayloadSize datagramHeader) && negb userPayloadBuffer
  then Done (error INVALID_BUFFER_PARAMETER_FOR_USER_PAYLOAD, r)
  else
    let '(takenSamples, d) := take_next (m_impl r) in
    let r := set_impl d r in
    match takenSamples with
    | None => Done (success (None, None), r)
    | Some samplePayload =>
        let sampleSize := Z.of_nat (length samplePayload) in
        if sampleSize =? 0 then Done (error INVALID_DATA, r)
        else if sampleSize <? SIZEOF_HEADER then Done (error INVALID_DATAGRAM_HEADER_SIZE, r)
        else
          let* actualDatagramHeader := deserialize (take 16 samplePayload) in
          expects (userHeaderId datagramHeader =? userHeaderId actualDatagramHeader)
          (expects (userHeaderSize datagramHeader =? userHeaderSize actualDatagramHeader)
          (expects (userPayloadSize datagramHeader =? userPayloadSize actualDatagramHeader)
          (expects (userPayloadAlignment datagramHeader =? userPayloadAlignment actualDatagramHeader)
          (let dataSize := sampleSize - SIZEOF_HEADER in
           let bufferSize := u32 (userHeaderSize datagramHeader + userPayloadSize datagramHeader) in
           if negb (bufferSize =? dataSize) then Done (error BUFFER_SIZE_MISMATCH, r)
           else
             let* header :=
               if userHeaderBuffer
               then let* b := copy samplePayload SIZEOF_HEADER (userHeaderSize datagramHeader) in Done (Some b) else Done None in
             let* payload :=
               if userPayloadBuffer
               then let* b := copy samplePayload (SIZEOF_HEADER + userHeaderSize datagramHeader) (userPayloadSize datagramHeader) in Done (Some b)
               else Done None in
             Done (success (header, payload), r)))))
    end.
End reader.
End CycloneDataReader.

(** ** Forwarding *)

(** The chunk behind the payload pointer that a subscriber has taken. *)
Record Chunk := mkChunk {
  c_userHeaderId : Z;
  c_userHeaderSize : Z;
  c_userPayloadSize : Z;
  c_userPayloadAlignment : Z;
  c_userHeader : option (list Z);
  c_userPayload : list Z }.

(** The iceoryx terminals of channels: the untyped subscriber and the untyped
    publisher; a payload pointer of the publisher is a number. *)
Class TerminalSubscriber (S : Type) := {
  hasData : S -> bool;
  take_chunk : S -> option Chunk * S;
  release_chunk : Chunk -> S -> S }.

Class TerminalPublisher (P : Type) := {
  loan : Z -> Z -> Z -> Z -> P -> expected Z AllocationError * P;
  has_userHeader : Z -> P -> bool;
  fill : Z -> option (list Z) -> option (list Z) -> P -> P;
  publish : Z -> P -> P;
  release : Z -> P -> P }.

Module Iceoryx2DDSGateway.
Section forward.
Context (endianDetector0 : Z) {Sub : Type} `{!TerminalSubscriber Sub}.

(** The datagrams that are written; [None] when the loop has not ended. *)
Fixpoint forward (fuel : nat) (subscriber : Sub) (written : list (list Z)) : option (outcome (Sub * list (list Z))) :=
  match fuel with
  | O => None
  | S fuel =>
      if hasData subscriber then
        match take_chunk subscriber with
        | (Some c, subscriber) =>
            let datagramHeader :=
              Datagram.mkHeader Datagram.DATAGRAM_VERSION Endianess.UNDEFINED (c_userHeaderId c) (c_userHeaderSize c)
                (c_userPayloadSize c) (c_userPayloadAlignment c) in
            match write endianDetector0 datagramHeader (c_userHeader c) (Some (c_userPayload c)) with
            | Done datagram =>
                forward fuel (release_chunk c subscriber) (written ++ match datagram with Some d => [d] | None => [] end)
            | Terminated e => Some (Terminated e)
            end
        | (None, subscriber) => forward fuel subscriber written
        end
      else Some (Done (subscriber, written))
  end.
End forward.
End Iceoryx2DDSGateway.

Module DDS2IceoryxGateway.
Section forward.
Context (endianDetector0 : Z) {D : Type} `{!SampleQueue D} {P : Type} `{!TerminalPublisher P}.
Notation reader := (CycloneDataReader.t D).

(** The body of the loop for a sample. *)
Definition forward_next (r : reader) (p : P) : outcome (reader * P) :=
  let* '(datagramHeader, r) := CycloneDataReader.peekNextIoxChunkDatagramHeader endianDetector0 r in
  match datagramHeader with
  | None => Done (r, p)
  | Some h =>
      let USER_HEADER_ALIGNMENT := 1 in
      match loan (Datagram.userPayloadSize h) (Datagram.userPayloadAlignment h) (Datagram.userHeaderSize h) USER_HEADER_ALIGNMENT p with
      | (error _, p) => Done (r, p)
      | (success userPayload, p) =>
          let* '(result, r) := CycloneDataReader.takeNext h (has_userHeader userPayload p) true r in
          match result with
          | success (userHeaderBytes, userPayloadBytes) =>
              Done (r, publish userPayload (fill userPayload userHeaderBytes userPayloadBytes p))
          | error _ => Done (r, release userPayload p)
          end
      end
  end.

Fixpoint forward (fuel : nat) (r : reader) (p : P) : option (outcome (reader * P)) :=
  match fuel with
  | O => None
  | S fuel =>
      if CycloneDataReader.hasSamples r then
        match forward_next r p with
        | Done (r, p) => forward fuel r p
        | Terminated e => Some (Terminated e)
        end
      else Some (Done (r, p))
  end.
End forward.
End DDS2IceoryxGateway.

(** ** The header survives the network *)

Section header.
Import Datagram.

Definition is_byte (b : Z) : Prop := 0 <= b < 256.

Record header_ok (h : Header) : Prop := {
  ho_version : is_byte (datagramVersion h);
  ho_endianness : is_byte (endianness h);
  ho_id : 0 <= userHeaderId h < 2 ^ 16;
  ho_header : 0 <= userHeaderSize h < 2 ^ 32;
  ho_payload : 0 <= userPayloadSize h < 2 ^ 32;
  ho_alignment : 0 <= userPayloadAlignment h < 2 ^ 32 }.

Lemma lor_add k x y : 0 <= k -> (2 ^ k | x) -> 0 <= y < 2 ^ k -> Z.lor x y = x + y.
Proof.
  intros Hk [q ->] Hy. destruct (decide (y = 0)) as [->|Hy0]; [by rewrite Z.lor_0_r, Z.add_0_r|].
  rewrite <- Z.shiftl_mul_pow2 by done.
  assert (H0 : Z.land (Z.shiftl q k) y = 0).
  { apply Z.bits_inj'. intros n Hn. rewrite Z.land_spec, Z.bits_0. destruct (decide (n < k)).
    - by rewrite Z.shiftl_spec_low.
    - rewrite (Z.bits_above_log2 y n), andb_false_r; [done|lia|].
      apply Z.log2_lt_pow2; [lia|]. apply Z.lt_le_trans with (2 ^ k); [lia|]. apply Z.pow_le_mono_r; lia. }
  rewrite <- Z.lxor_lor by done. symmetry. by apply Z.add_nocarry_lxor.
Qed.

Lemma byte_of_spec v s : 0 <= s -> byte_of v s = v / 2 ^ s mod 256.
Proof. intros Hs. unfold byte_of. rewrite Z.shiftr_div_pow2 by done. change 255 with (Z.ones 8). by rewrite Z.land_ones. Qed.

Lemma word32_spec a b c d : is_byte a -> is_byte b -> is_byte c -> is_byte d ->
  word32 a b c d = a * 16777216 + b * 65536 + c * 256 + d.
Proof.
  unfold is_byte, word32. intros Ha Hb Hc Hd. rewrite !Z.shiftl_mul_pow2 by lia.
  rewrite u32_small by lia. rewrite (lor_add 24 _ (b * 2 ^ 16)) by first [done|lia|by apply Z.divide_factor_r].
  rewrite (lor_add 16 _ (c * 2 ^ 8)) by first [done|lia|exists (a * 256 + b); lia].
  rewrite (lor_add 8 _ d) by first [done|lia|exists (a * 65536 + b * 256 + c); lia]. lia.
Qed.

Lemma byte_of_byte v s : 0 <= s -> is_byte (byte_of v s).
Proof. intros Hs. rewrite byte_of_spec by done. unfold is_byte. apply Z.mod_pos_bound. lia. Qed.

Lemma word32_bytes v : 0 <= v < 2 ^ 32 -> word32 (byte_of v 24) (byte_of v 16) (byte_of v 8) (byte_of v 0) = v.
Proof.
  intros Hv. rewrite word32_spec by (apply byte_of_byte; lia). rewrite !byte_of_spec by lia.
  change (2 ^ 24) with 16777216. change (2 ^ 16) with 65536. change (2 ^ 8) with 256. change (2 ^ 0) with 1.
  rewrite Z.div_1_r. Z.to_euclidean_division_equations. lia.
Qed.

Lemma deserialize_prefix h rest : header_ok h -> deserialize (take 16 (serialize h ++ rest)) = Done h.
Proof.
  intros []. destruct h as [ver en id hs ps al]. unfold serialize. simpl in *. unfold deserialize, aget. simpl.
  rewrite !word32_bytes by done. do 2 f_equal.
  rewrite Z.shiftl_mul_pow2 by lia. rewrite (lor_add 8) by first [lia|by apply Z.divide_factor_r|by apply byte_of_byte].
  rewrite !byte_of_spec by lia. change (2 ^ 8) with 256. change (2 ^ 0) with 1. change (2 ^ 16) with 65536 in *.
  rewrite Z.div_1_r. Z.to_euclidean_division_equations. lia.
Qed.
End header.

(** ** What the gateways rely on *)

(** The samples that DDS has received and not yet given away, in order. *)
Class LawfulQueue (D : Type) `{!SampleQueue D} := {
  pending : D -> list (list Z);
  read_law d : read_next d = head (pending d);
  take_law d : fst (take_next d) = head (pending d) /\ pending (snd (take_next d)) = tail (pending d) }.

(** The chunks that wait for the subscriber and those it has taken and not released. *)
Class LawfulSubscriber (S : Type) `{!TerminalSubscriber S} := {
  available : S -> list Chunk;
  held : S -> list Chunk;
  hasData_law s : hasData s = bool_decide (available s <> []);
  take_chunk_law s c l : available s = c :: l ->
    fst (take_chunk s) = Some c /\ available (snd (take_chunk s)) = l /\ held (snd (take_chunk s)) = c :: held s;
  release_chunk_law c s l : held s = c :: l -> available (release_chunk c s) = available s /\ held (release_chunk c s) = l }.

(** A chunk as it is published: sizes, alignment and content. *)
Record Publication := mkPublication {
  p_userPayloadSize : Z;
  p_userPayloadAlignment : Z;
  p_userHeaderSize : Z;
  p_userHeader : option (list Z);
  p_userPayload : option (list Z) }.

(** A publisher with finite pools: [room p ps pa hs] chunks of these sizes can still be
    published one after the other, and a loan succeeds exactly if there is room.  A
    published chunk may stay with subscribers and takes its place; a released one gives
    it back.  [loaned] are the payload pointers of the chunks that are on loan. *)
Class LawfulPublisher (P : Type) `{!TerminalPublisher P} := {
  room : P -> Z -> Z -> Z -> nat;
  loaned : P -> list (Z * (Z * Z * Z));
  published : P -> list Publication;
  room_law p ps pa hs : (0 < room p ps pa hs)%nat -> hs + ps < 2 ^ 32;
  loan_law ps pa hs p : (0 < room p ps pa hs)%nat -> exists ptr p', loan ps pa hs 1 p = (success ptr, p') /\
    loaned p' = (ptr, (ps, pa, hs)) :: loaned p /\ published p' = published p /\
    (forall hb pb qs qa ks, room p qs qa ks <= S (room (publish ptr (fill ptr hb pb p')) qs qa ks))%nat /\
    (forall qs qa ks, room p qs qa ks <= room (release ptr p') qs qa ks)%nat;
  no_loan_law ps pa hs p : room p ps pa hs = 0%nat ->
    exists e p', loan ps pa hs 1 p = (error e, p') /\ room p' ps pa hs = 0%nat;
  userHeader_law ptr ps pa hs p l : loaned p = (ptr, (ps, pa, hs)) :: l -> has_userHeader ptr p = (0 <? hs);
  publish_law ptr ps pa hs p l hb pb : loaned p = (ptr, (ps, pa, hs)) :: l ->
    loaned (publish ptr (fill ptr hb pb p)) = l /\
    published (publish ptr (fill ptr hb pb p)) = published p ++ [mkPublication ps pa hs hb pb];
  release_law ptr ps pa hs p l : loaned p = (ptr, (ps, pa, hs)) :: l ->
    loaned (release ptr p) = l /\ published (release ptr p) = published p }.

(** ** Transport *)

Section transport.
Context (endianDetector0 : Z).
Import Datagram.

(** A chunk of the local memory; it has a user header exactly if it has the id of
    one. *)
Record chunk_ok (c : Chunk) : Prop := {
  co_id : 0 <= c_userHeaderId c < 2 ^ 16;
  co_none : c_userHeaderId c = ChunkHeader.NO_USER_HEADER -> c_userHeaderSize c = 0 /\ c_userHeader c = None;
  co_some : c_userHeaderId c <> ChunkHeader.NO_USER_HEADER -> 0 < c_userHeaderSize c < 2 ^ 32 /\
    exists b, c_userHeader c = Some b /\ Z.of_nat (length b) = c_userHeaderSize c;
  co_payload : Z.of_nat (length (c_userPayload c)) = c_userPayloadSize c /\ c_userPayloadSize c < 2 ^ 32;
  co_alignment : 0 <= c_userPayloadAlignment c < 2 ^ 32 }.

Definition header_of (c : Chunk) : Header :=
  mkHeader DATAGRAM_VERSION (getEndianess endianDetector0) (c_userHeaderId c) (c_userHeaderSize c) (c_userPayloadSize c)
    (c_userPayloadAlignment c).
Definition datagram (c : Chunk) : list Z := serialize (header_of c) ++ default [] (c_userHeader c) ++ c_userPayload c.
Definition publication (c : Chunk) : Publication :=
  mkPublication (c_userPayloadSize c) (c_userPayloadAlignment c) (c_userHeaderSize c) (c_userHeader c) (Some (c_userPayload c)).

Lemma getEndianess_byte : 0 <= getEndianess endianDetector0 < 4.
Proof. unfold getEndianess, Endianess.BIG, Endianess.LITTLE, Endianess.MIXED, Endianess.UNDEFINED. repeat case_zb; lia. Qed.

Lemma header_of_ok c : chunk_ok c -> header_ok (header_of c).
Proof.
  intros [H1 H2 H3 H4 H5]. pose proof getEndianess_byte. constructor; unfold is_byte; simpl; unfold DATAGRAM_VERSION; try lia.
Qed.

Lemma copy_all bytes pre post :
  copy (pre ++ bytes ++ post) (Z.of_nat (length pre)) (Z.of_nat (length bytes)) = Done bytes.
Proof.
  unfold copy. rewrite (proj2 (Z.leb_le _ _)) by (rewrite !length_app; lia).
  rewrite !Nat2Z.id, drop_app_length, take_app_length. done.
Qed.

Lemma copy_whole bytes : copy bytes 0 (Z.of_nat (length bytes)) = Done bytes.
Proof. pose proof (copy_all bytes [] []) as H. by rewrite app_nil_r in H. Qed.

Lemma write_datagram c : chunk_ok c ->
  write endianDetector0 (mkHeader DATAGRAM_VERSION Endianess.UNDEFINED (c_userHeaderId c) (c_userHeaderSize c)
    (c_userPayloadSize c) (c_userPayloadAlignment c)) (c_userHeader c) (Some (c_userPayload c)) = Done (Some (datagram c)).
Proof.
  intros [H1 H2 H3 H4 H5]. unfold write, set_endianness. cbn [userHeaderSize userHeaderId userPayloadSize userPayloadAlignment datagramVersion].
  assert (Hp : (if 0 <? c_userPayloadSize c then copy (c_userPayload c) 0 (c_userPayloadSize c) else Done []) = Done (c_userPayload c)).
  { case_zb.
    - rewrite <- (proj1 H4). apply copy_whole.
    - destruct (c_userPayload c); [done|simpl in H4; lia]. }
  rewrite Hp, andb_false_r. unfold datagram, header_of.
  destruct (decide (c_userHeaderId c = ChunkHeader.NO_USER_HEADER)) as [E|E].
  - destruct (H2 E) as [-> ->]. done.
  - destruct (H3 E) as ([Hs _] & b & -> & Hl). rewrite (proj2 (Z.eqb_neq _ _)) by done. cbn [orb]. rewrite andb_false_r.
    rewrite (proj2 (Z.ltb_lt _ _)) by done. by rewrite <- Hl, copy_whole.
Qed.

Context {D : Type} `{!SampleQueue D, !LawfulQueue D} {P : Type} `{!TerminalPublisher P, !LawfulPublisher P}.
Implicit Types (r : CycloneDataReader.t D) (p : P).
Import CycloneDataReader.

(** The sizes that the pools of the publisher have chunks for. *)
Context (served : Z -> Z -> Z -> Prop).

(** What the reader makes of a sample: a chunk, or nothing when the sample is too
    short, of another version or byte order, or not as long as its header says. *)
Inductive sample_of : list Z -> option Chunk -> Prop :=
  | sample_chunk c : chunk_ok c ->
      served (c_userPayloadSize c) (c_userPayloadAlignment c) (c_userHeaderSize c) -> sample_of (datagram c) (Some c)
  | sample_short s : Z.of_nat (length s) < SIZEOF_HEADER -> sample_of s None
  | sample_foreign h rest : header_ok h ->
      datagramVersion h <> DATAGRAM_VERSION \/ endianness h <> getEndianess endianDetector0 /\ endianness h < 4 ->
      sample_of (serialize h ++ rest) None
  | sample_wrong_size h rest : header_ok h ->
      datagramVersion h = DATAGRAM_VERSION -> endianness h = getEndianess endianDetector0 ->
      userHeaderSize h = 0 \/ userHeaderId h <> ChunkHeader.NO_USER_HEADER ->
      served (userPayloadSize h) (userPayloadAlignment h) (userHeaderSize h) ->
      Z.of_nat (length rest) <> userHeaderSize h + userPayloadSize h -> sample_of (serialize h ++ rest) None.

Lemma long_enough h rest : Z.of_nat (length (serialize h ++ rest)) = 16 + Z.of_nat (length rest).
Proof. rewrite length_app, Nat2Z.inj_add. done. Qed.

(** [peekNextIoxChunkDatagramHeader] accepts what a writer of the same version and
    byte order has written. *)
Lemma peek_accepts h rest r : header_ok h -> read_next (m_impl r) = Some (serialize h ++ rest) ->
  datagramVersion h = DATAGRAM_VERSION -> endianness h = getEndianess endianDetector0 ->
  peekNextIoxChunkDatagramHeader endianDetector0 r = Done (Some h, r).
Proof.
  intros Hh Hr Hv He. unfold peekNextIoxChunkDatagramHeader. rewrite Hr, long_enough.
  rewrite (proj2 (Z.eqb_neq _ 0)) by lia. unfold SIZEOF_HEADER. rewrite (proj2 (Z.ltb_ge _ _)) by lia.
  rewrite deserialize_prefix by done. cbn [obind]. rewrite Hv, He, !Z.eqb_refl. done.
Qed.

Lemma peek_drops_short s r : Z.of_nat (length s) < SIZEOF_HEADER -> read_next (m_impl r) = Some s ->
  peekNextIoxChunkDatagramHeader endianDetector0 r = Done (None, set_impl (snd (take_next (m_impl r))) r).
Proof.
  intros Hl Hr. unfold peekNextIoxChunkDatagramHeader. rewrite Hr, (proj2 (Z.ltb_lt _ _)) by done. by destruct (_ =? 0).
Qed.

Lemma peek_drops_foreign h rest r : header_ok h -> read_next (m_impl r) = Some (serialize h ++ rest) ->
  datagramVersion h <> DATAGRAM_VERSION \/ endianness h <> getEndianess endianDetector0 /\ endianness h < 4 ->
  peekNextIoxChunkDatagramHeader endianDetector0 r = Done (None, set_impl (snd (take_next (m_impl r))) r).
Proof.
  intros Hh Hr Hf. unfold peekNextIoxChunkDatagramHeader. rewrite Hr, long_enough.
  rewrite (proj2 (Z.eqb_neq _ 0)) by lia. unfold SIZEOF_HEADER. rewrite (proj2 (Z.ltb_ge _ _)) by lia.
  rewrite deserialize_prefix by done. cbn [obind].
  destruct (Z.eqb_spec (datagramVersion h) DATAGRAM_VERSION) as [Ev|]; [|done]. rewrite (proj2 (Z.eqb_neq _ _)) by tauto.
  destruct Hf as [|[_ Hlt]]; [done|]. cbn [negb].
  destruct (lookup_lt_is_Some_2 EndianessString (Z.to_nat (endianness h))) as [x ->]; [|done].
  pose proof (ho_endianness _ Hh) as [? _]. simpl. lia.
Qed.

(** [takeNext] with the header that was peeked, when that header is acceptable. *)
Lemma takeNext_spec h rest r d : header_ok h -> m_isConnected r = true ->
  take_next (m_impl r) = (Some (serialize h ++ rest), d) ->
  userHeaderSize h = 0 \/ userHeaderId h <> ChunkHeader.NO_USER_HEADER ->
  userHeaderSize h + userPayloadSize h < 2 ^ 32 ->
  takeNext h (0 <? userHeaderSize h) true r =
    (if Z.of_nat (length rest) =? userHeaderSize h + userPayloadSize h
     then Done (success (if 0 <? userHeaderSize h then Some (take (Z.to_nat (userHeaderSize h)) rest) else None,
                         Some (drop (Z.to_nat (userHeaderSize h)) rest)), set_impl d r)
     else Done (error BUFFER_SIZE_MISMATCH, set_impl d r)).
Proof.
  intros Hh Hc Ht Hid Hsum. pose proof (ho_header _ Hh). pose proof (ho_payload _ Hh).
  unfold takeNext. rewrite Hc. cbn [negb].
  assert (E1 : (0 <? userHeaderSize h) && ((userHeaderId h =? ChunkHeader.NO_USER_HEADER) || negb (0 <? userHeaderSize h)) = false).
  { case_zb; [|done]. destruct Hid as [|Hid]; [lia|]. by rewrite (proj2 (Z.eqb_neq _ _)). }
  rewrite E1, andb_false_r, Ht, long_enough, (proj2 (Z.eqb_neq _ 0)) by lia.
  unfold SIZEOF_HEADER. rewrite (proj2 (Z.ltb_ge _ 16)) by lia. rewrite deserialize_prefix by done. cbn [obind].
  rewrite !Z.eqb_refl. cbn [expects]. rewrite u32_small by lia.
  replace (16 + Z.of_nat (length rest) - 16) with (Z.of_nat (length rest)) by lia.
  rewrite (Z.eqb_sym (userHeaderSize h + _)). destruct (Z.eqb_spec (Z.of_nat (length rest)) (userHeaderSize h + userPayloadSize h)) as [El|]; [|done].
  cbn [negb].
  assert (Hcopy : forall o n, 0 <= o -> 0 <= n -> o + n <= Z.of_nat (length rest) ->
    copy (serialize h ++ rest) (16 + o) n = Done (take (Z.to_nat n) (drop (Z.to_nat o) rest))).
  { intros o n Ho Hn Hon. unfold copy. rewrite long_enough, (proj2 (Z.leb_le _ _)) by lia.
    rewrite Z2Nat.inj_add by lia. change (Z.to_nat 16) with (length (serialize h)). rewrite drop_app_add. done. }
  rewrite (Hcopy (userHeaderSize h)) by lia.
  rewrite (firstn_all2 (n := Z.to_nat (userPayloadSize h))) by (rewrite length_drop; lia).
  case_zb; [|done]. rewrite <- (Z.add_0_r 16), (Hcopy 0) by lia. done.
Qed.

Definition delivered (o : option Chunk) : list Publication := match o with Some c => [publication c] | None => [] end.

(** The state after one sample has been handled. *)
Definition handled r p (l : list (list Z)) (out : list Publication) (r' : t D) (p' : P) : Prop :=
  m_isConnected r' = true /\ pending (m_impl r') = l /\ loaned p' = loaned p /\ published p' = published p ++ out /\
  forall qs qa ks, (room p qs qa ks <= length out + room p' qs qa ks)%nat.

(** A sample whose header is accepted: loaned, taken, and published or released. *)
Lemma accepted_next h rest r p l : header_ok h -> m_isConnected r = true -> pending (m_impl r) = (serialize h ++ rest) :: l ->
  datagramVersion h = DATAGRAM_VERSION -> endianness h = getEndianess endianDetector0 ->
  userHeaderSize h = 0 \/ userHeaderId h <> ChunkHeader.NO_USER_HEADER ->
  (0 < room p (userPayloadSize h) (userPayloadAlignment h) (userHeaderSize h))%nat ->
  exists r' p', DDS2IceoryxGateway.forward_next endianDetector0 r p = Done (r', p') /\
    handled r p l (if Z.of_nat (length rest) =? userHeaderSize h + userPayloadSize h
                   then [mkPublication (userPayloadSize h) (userPayloadAlignment h) (userHeaderSize h)
                           (if 0 <? userHeaderSize h then Some (take (Z.to_nat (userHeaderSize h)) rest) else None)
                           (Some (drop (Z.to_nat (userHeaderSize h)) rest))]
                   else []) r' p'.
Proof.
  intros Hh Hc Hp Hv He Hid Hl. unfold DDS2IceoryxGateway.forward_next.
  rewrite (peek_accepts h rest) by (done || by rewrite read_law, Hp). cbn [obind].
  destruct (loan_law _ _ _ p Hl) as (ptr & p1 & -> & L1 & L2 & L3 & L4).
  destruct (take_next (m_impl r)) as [s d] eqn:Et. pose proof (take_law (m_impl r)) as [T1 T2]. rewrite Et, Hp in T1, T2. simpl in T1, T2. subst s.
  rewrite (userHeader_law _ _ _ _ _ _ L1). rewrite (takeNext_spec h rest r d) by (done || by eapply room_law).
  destruct (_ =? _); cbn [obind].
  - eexists _, _. split; [done|]. destruct (publish_law _ _ _ _ _ _ (if 0 <? userHeaderSize h then Some (take (Z.to_nat (userHeaderSize h)) rest) else None)
      (Some (drop (Z.to_nat (userHeaderSize h)) rest)) L1) as [Q1 Q2].
    split; [done|]. split; [done|]. split; [done|]. split; [by rewrite Q2, L2|]. intros qs qa ks. apply L3.
  - eexists _, _. split; [done|]. destruct (release_law _ _ _ _ _ _ L1) as [Q1 Q2]. split; [done|]. split; [done|]. split; [done|].
    split; [by rewrite Q2, L2, app_nil_r|]. intros qs qa ks. apply L4.
Qed.

Lemma dropped_next s r p l : m_isConnected r = true -> pending (m_impl r) = s :: l ->
  peekNextIoxChunkDatagramHeader endianDetector0 r = Done (None, set_impl (snd (take_next (m_impl r))) r) ->
  exists r' p', DDS2IceoryxGateway.forward_next endianDetector0 r p = Done (r', p') /\ handled r p l [] r' p'.
Proof.
  intros Hc Hp Hd. unfold DDS2IceoryxGateway.forward_next. rewrite Hd. cbn [obind]. eexists _, _. split; [done|].
  pose proof (take_law (m_impl r)) as [_ T]. rewrite Hp in T. split; [done|]. split; [done|]. split; [done|]. by rewrite app_nil_r.
Qed.

Lemma sample_next s o r p l : (forall qs qa ks, served qs qa ks -> (0 < room p qs qa ks)%nat) -> sample_of s o -> m_isConnected r = true -> pending (m_impl r) = s :: l ->
  exists r' p', DDS2IceoryxGateway.forward_next endianDetector0 r p = Done (r', p') /\ handled r p l (delivered o) r' p'.
Proof.
  intros Hroom Hs Hc Hp. destruct o as [c|].
  - inversion Hs as [? Hok Hl| | |]; subst. pose proof Hok as [H1 H2 H3 H4 H5].
    assert (Hid : c_userHeaderSize c = 0 \/ c_userHeaderId c <> ChunkHeader.NO_USER_HEADER).
    { destruct (decide (c_userHeaderId c = ChunkHeader.NO_USER_HEADER)) as [E|E]; [left; apply (H2 E)|by right]. }
    destruct (accepted_next (header_of c) (default [] (c_userHeader c) ++ c_userPayload c) r p l (header_of_ok c Hok) Hc Hp eq_refl eq_refl Hid (Hroom _ _ _ Hl))
      as (r' & p' & E & Hh). exists r', p'. split; [done|].
    assert (Hlen : Z.of_nat (length (default [] (c_userHeader c))) = c_userHeaderSize c).
    { destruct (decide (c_userHeaderId c = ChunkHeader.NO_USER_HEADER)) as [Ei|Ei]; [by destruct (H2 Ei) as [-> ->]|].
      by destruct (H3 Ei) as (_ & b & -> & ?). }
    rewrite length_app, Nat2Z.inj_add, Hlen, (proj1 H4) in Hh. simpl in Hh. rewrite Z.eqb_refl, <- Hlen, Nat2Z.id, take_app_length, drop_app_length, Hlen in Hh.
    unfold delivered, publication. replace (c_userHeader c) with (if 0 <? c_userHeaderSize c then Some (default [] (c_userHeader c)) else None); [done|].
    destruct (decide (c_userHeaderId c = ChunkHeader.NO_USER_HEADER)) as [Ei|Ei]; [by destruct (H2 Ei) as [-> ->]|].
    destruct (H3 Ei) as ([Hpos _] & b & -> & ?). by rewrite (proj2 (Z.ltb_lt _ _)).
  - inversion Hs as [|? Hl|h rest Hh Hf|h rest Hh Hv He Hid Hl Hn]; subst.
    + apply (dropped_next s); [done|done|]. by apply (peek_drops_short s); [|rewrite read_law, Hp].
    + apply (dropped_next (serialize h ++ rest)); [done|done|]. by apply (peek_drops_foreign h rest); [|rewrite read_law, Hp|].
    + destruct (accepted_next h rest r p l Hh Hc Hp Hv He Hid (Hroom _ _ _ Hl)) as (r' & p' & E & H).
      rewrite (proj2 (Z.eqb_neq _ _)) in H by done. by exists r', p'.
Qed.

(** The loop ends after as many rounds as there are samples, and all have been
    handled in order, if there is more room than chunks to publish. *)
Lemma forward_all ss : forall os r p fuel, Forall2 sample_of ss os -> m_isConnected r = true -> pending (m_impl r) = ss ->
  (length ss < fuel)%nat ->
  (forall qs qa ks, served qs qa ks -> (length (concat (delivered <$> os)) < room p qs qa ks)%nat) ->
  exists r' p', DDS2IceoryxGateway.forward endianDetector0 fuel r p = Some (Done (r', p')) /\
    handled r p [] (concat (delivered <$> os)) r' p'.
Proof.
  induction ss as [|s ss IH]; intros os r p [|fuel] Hs Hc Hp Hf Hroom; try (simpl in Hf; lia);
    inversion Hs as [|? o ? os' Ho Hos]; subst; simpl; unfold hasSamples; rewrite read_law, Hp.
  - rewrite bool_decide_false by tauto. exists r, p. split; [done|]. split; [done|]. split; [done|]. split; [done|]. by rewrite app_nil_r.
  - rewrite bool_decide_true by done. rewrite fmap_cons in Hroom. cbn [concat] in Hroom.
    destruct (sample_next s o r p ss) as (r1 & p1 & -> & H1 & H2 & H3 & H4 & H5); [|done..|].
    { intros qs qa ks Hq. specialize (Hroom _ _ _ Hq). lia. }
    destruct (IH os' r1 p1 fuel Hos H1 H2) as (r' & p' & E & I1 & I2 & I3 & I4 & I5); [simpl in Hf; lia| |].
    { intros qs qa ks Hq. specialize (Hroom _ _ _ Hq). specialize (H5 qs qa ks). rewrite length_app in Hroom. lia. }
    exists r', p'. split; [done|]. split; [done|]. split; [done|]. split; [by rewrite I3|].
    split; [by rewrite I4, H4, <- app_assoc|]. intros qs qa ks. specialize (H5 qs qa ks). specialize (I5 qs qa ks).
    rewrite length_app. unfold fmap in *. lia.
Qed.

(** A sample that is neither taken nor dropped keeps the loop busy for ever. *)
Lemma forward_stuck h rest : header_ok h -> datagramVersion h = DATAGRAM_VERSION -> endianness h = getEndianess endianDetector0 ->
  forall fuel r p l,
  room p (userPayloadSize h) (userPayloadAlignment h) (userHeaderSize h) = 0%nat \/
  0 < userHeaderSize h /\ userHeaderId h = ChunkHeader.NO_USER_HEADER ->
  m_isConnected r = true -> pending (m_impl r) = (serialize h ++ rest) :: l ->
  DDS2IceoryxGateway.forward endianDetector0 fuel r p = None.
Proof.
  intros Hh Hv He. induction fuel as [|fuel IH]; intros r p l Hbad Hc Hp; [done|]. simpl. unfold hasSamples.
  rewrite read_law, Hp. simpl. unfold DDS2IceoryxGateway.forward_next.
  rewrite (peek_accepts h rest) by (done || by rewrite read_law, Hp). cbn [obind].
  destruct (room p (userPayloadSize h) (userPayloadAlignment h) (userHeaderSize h)) as [|n] eqn:El.
  - destruct (no_loan_law _ _ _ p El) as (e & p1 & -> & El1). eapply IH; [by left|done..].
  - destruct (loan_law (userPayloadSize h) (userPayloadAlignment h) (userHeaderSize h) p) as (ptr & p1 & -> & L1 & _); [lia|].
    rewrite (userHeader_law _ _ _ _ _ _ L1).
    destruct Hbad as [|[Hs Hid]]; [done|]. unfold takeNext. rewrite Hc, Hid, Z.eqb_refl, (proj2 (Z.ltb_lt _ _)) by done.
    cbn [negb orb andb obind]. eapply IH; [by right|done..].
Qed.
End transport.

Section sending.
Context (endianDetector0 : Z) {Sub : Type} `{!TerminalSubscriber Sub, !LawfulSubscriber Sub}.

(** All chunks that wait are written, in order, and released. *)
Lemma send_all cs : forall (s : Sub) written fuel, Forall chunk_ok cs -> available s = cs -> (length cs < fuel)%nat ->
  exists s', Iceoryx2DDSGateway.forward endianDetector0 fuel s written = Some (Done (s', written ++ (datagram endianDetector0 <$> cs))) /\
    available s' = [] /\ held s' = held s.
Proof.
  induction cs as [|c cs IH]; intros s written [|fuel] Hok Ha Hf; try (simpl in Hf; lia); simpl; rewrite hasData_law, Ha.
  - rewrite bool_decide_false by tauto. exists s. by rewrite app_nil_r.
  - rewrite bool_decide_true by done. apply Forall_cons in Hok as [Hc Hok].
    destruct (take_chunk_law s c cs Ha) as (T1 & T2 & T3). destruct (take_chunk s) as [o s1]; simpl in T1, T2, T3; subst o.
    rewrite write_datagram by done. destruct (release_chunk_law c s1 _ T3) as [R1 R2].
    destruct (IH (release_chunk c s1) (written ++ [datagram endianDetector0 c]) fuel) as (s' & E & A & B); [done|by rewrite R1|simpl in Hf; lia|].
    exists s'. rewrite E, <- app_assoc. split; [done|]. split; [done|]. by rewrite B.
Qed.
End sending.

(** ** A system of terminals *)

(** Plain lists as terminals: they keep the laws.  The publisher has a number of chunks
    and a limit of chunks that may be on loan at a time. *)
Module PlainTerminals.
#[global] Instance queue : SampleQueue (list (list Z)) := {| read_next := head; take_next d := (head d, tail d) |}.
#[global] Instance lawful_queue : LawfulQueue (list (list Z)).
Proof. refine {| pending d := d |}; done. Defined.

Definition subscriber : Type := list Chunk * list Chunk.
#[global] Instance terminal_subscriber : TerminalSubscriber subscriber :=
  {| hasData s := match s.1 with [] => false | _ => true end;
     take_chunk s := match s.1 with [] => (None, s) | c :: l => (Some c, (l, c :: s.2)) end;
     release_chunk _ s := (s.1, tail s.2) |}.
#[global] Instance lawful_subscriber : LawfulSubscriber subscriber.
Proof.
  refine {| available s := s.1; held s := s.2 |}.
  - by intros [[|c l] h].
  - intros [a h] c l E. simpl in *. by subst.
  - intros c [a h] l E. simpl in *. by subst.
Defined.

(** The free chunks, the next pointer, the loans with what has been filled in, the
    publications, which keep their chunks. *)
Record publisher := mkPublisher {
  free : nat; next : Z; loans : list (Z * (Z * Z * Z)); filled : option (list Z) * option (list Z); out : list Publication }.
Definition MAX_LOANS : nat := 8.
Definition free_for (p : publisher) (ps pa hs : Z) : nat :=
  if (hs + ps <? 2 ^ 32) && (length (loans p) <? MAX_LOANS)%nat then free p else 0.
#[global] Instance terminal_publisher : TerminalPublisher publisher :=
  {| loan ps pa hs _ p :=
       match free_for p ps pa hs with
       | S n => (success (next p), mkPublisher n (next p + 1) ((next p, (ps, pa, hs)) :: loans p) (filled p) (out p))
       | O => (error RUNNING_OUT_OF_CHUNKS, p)
       end;
     has_userHeader _ p := match loans p with (_, (_, _, hs)) :: _ => 0 <? hs | [] => false end;
     fill _ hb pb p := mkPublisher (free p) (next p) (loans p) (hb, pb) (out p);
     publish _ p :=
       match loans p with
       | (_, (ps, pa, hs)) :: l => mkPublisher (free p) (next p) l (None, None) (out p ++ [mkPublication ps pa hs (filled p).1 (filled p).2])
       | [] => p
       end;
     release _ p := mkPublisher (S (free p)) (next p) (tail (loans p)) (filled p) (out p) |}.

(** A successful loan has taken one of the free chunks. *)
Lemma free_for_S p ps pa hs n : free_for p ps pa hs = S n -> free p = S n /\ hs + ps < 2 ^ 32.
Proof.
  unfold free_for. destruct (Z.ltb_spec (hs + ps) (2 ^ 32)), (length (loans p) <? MAX_LOANS)%nat; by cbn.
Qed.

#[global] Instance lawful_publisher : LawfulPublisher publisher.
Proof.
  refine {| room := free_for; loaned := loans; published := out |}.
  - intros p ps pa hs H. destruct (free_for p ps pa hs) as [|n] eqn:E; [lia|]. by apply free_for_S in E as [_ ?].
  - intros ps pa hs p H. simpl. destruct (free_for p ps pa hs) as [|n] eqn:E; [lia|]. apply free_for_S in E as [E _].
    eexists _, _. split; [done|]. split; [done|]. split; [done|]. unfold free_for. cbn. rewrite E.
    split; intros; destruct (_ && _); lia.
  - intros ps pa hs p H. simpl. rewrite H. by eexists _, _.
  - intros ptr ps pa hs p l H. simpl. by rewrite H.
  - intros ptr ps pa hs p l hb pb H. simpl. by rewrite H.
  - intros ptr ps pa hs p l H. simpl. by rewrite H.
Defined.
End PlainTerminals.

(** ** Properties *)

Section properties.
Import Datagram.

(** The datagrams [ws] arrive in order, with others in between that no compatible
    gateway has written. *)
Inductive arrives (endianDetector0 : Z) (served : Z -> Z -> Z -> Prop) : list (list Z) -> list (list Z) -> Prop :=
  | arrives_nil : arrives endianDetector0 served [] []
  | arrives_written w ws ss : arrives endianDetector0 served ws ss -> arrives endianDetector0 served (w :: ws) (w :: ss)
  | arrives_other s ws ss : sample_of endianDetector0 served s None -> arrives endianDetector0 served ws ss ->
      arrives endianDetector0 served ws (s :: ss).

Lemma arrives_samples e (served : Z -> Z -> Z -> Prop) cs : Forall chunk_ok cs ->
  Forall (fun c => served (c_userPayloadSize c) (c_userPayloadAlignment c) (c_userHeaderSize c)) cs ->
  forall ss, arrives e served (datagram e <$> cs) ss ->
  exists os, Forall2 (sample_of e served) ss os /\ concat (delivered <$> os) = publication <$> cs.
Proof.
  intros Hok Hl ss Ha. remember (datagram e <$> cs) as ws eqn:E. revert cs Hok Hl E.
  induction Ha as [|w ws ss Ha IH|s ws ss Hs Ha IH]; intros cs Hok Hl E.
  - destruct cs; [|done]. by exists [].
  - destruct cs as [|c cs]; [done|]. injection E as -> ->. apply Forall_cons in Hok as [H1 H2]. apply Forall_cons in Hl as [L1 L2].
    destruct (IH cs H2 L2 eq_refl) as (os & F & C). exists (Some c :: os). split; [by constructor; [constructor|]|]. rewrite !fmap_cons. cbn [concat delivered app]. by rewrite C.
  - destruct (IH cs Hok Hl E) as (os & F & C). exists (None :: os). split; [by constructor|done].
Qed.

(** C36: chunks cross the network unchanged.  The gateway from iceoryx to DDS writes
    every waiting chunk as one datagram, in order, and releases it.  When these
    datagrams arrive at a gateway on a system with the same byte order, possibly
    between datagrams that are too short, of another version or byte order or of a
    wrong size, and its publisher has room for more chunks of these sizes than were
    written, that gateway's loop ends after one round per datagram, publishes
    chunks with the same sizes, alignment, user header and payload in the same
    order, ignores the others, keeps no chunk on loan and has used up at most one chunk
    per publication.  Without room the loop does not end: see
    [dds_forward_never_ends]. *)
Theorem dds_transport endianDetector0 {Sub : Type} `{!TerminalSubscriber Sub, !LawfulSubscriber Sub}
    {D : Type} `{!SampleQueue D, !LawfulQueue D} {P : Type} `{!TerminalPublisher P, !LawfulPublisher P}
    (served : Z -> Z -> Z -> Prop) (s : Sub) fuel :
  Forall chunk_ok (available s) ->
  Forall (fun c => served (c_userPayloadSize c) (c_userPayloadAlignment c) (c_userHeaderSize c)) (available s) ->
  (length (available s) < fuel)%nat ->
  exists s' ws, Iceoryx2DDSGateway.forward endianDetector0 fuel s [] = Some (Done (s', ws)) /\ available s' = [] /\ held s' = held s /\
    length ws = length (available s) /\
    forall ss (r : CycloneDataReader.t D) (p : P) fuel', arrives endianDetector0 served ws ss ->
      CycloneDataReader.m_isConnected r = true -> pending (CycloneDataReader.m_impl r) = ss -> (length ss < fuel')%nat ->
      (forall ps pa hs, served ps pa hs -> (length ws < room p ps pa hs)%nat) ->
      exists r' p', DDS2IceoryxGateway.forward endianDetector0 fuel' r p = Some (Done (r', p')) /\
        pending (CycloneDataReader.m_impl r') = [] /\ loaned p' = loaned p /\
        published p' = published p ++ (publication <$> available s) /\
        forall ps pa hs, (room p ps pa hs <= length ws + room p' ps pa hs)%nat.
Proof.
  intros Hok Hl Hf. destruct (send_all endianDetector0 _ s [] fuel Hok eq_refl Hf) as (s' & E & A & B).
  exists s', (datagram endianDetector0 <$> available s). split; [done|]. split; [done|]. split; [done|]. split; [apply length_fmap|].
  intros ss r p fuel' Ha Hc Hp Hf' Hroom. destruct (arrives_samples endianDetector0 served _ Hok Hl ss Ha) as (os & F & C).
  destruct (forward_all endianDetector0 served ss os r p fuel' F Hc Hp Hf') as (r' & p' & E' & _ & H2 & H3 & H4 & H5).
  { intros qs qa ks Hq. specialize (Hroom _ _ _ Hq). rewrite C, length_fmap. by rewrite length_fmap in Hroom. }
  rewrite C in H4, H5. exists r', p'. split; [done|]. split; [done|]. split; [done|]. split; [done|].
  intros ps pa hs. specialize (H5 ps pa hs). by rewrite !length_fmap in *.
Qed.

(** Two chunks, the second with a user header. *)
Definition sample_chunks : list Chunk :=
  [mkChunk 0 0 3 1 None [7; 8; 9]; mkChunk ChunkHeader.UNKNOWN_USER_HEADER 2 1 8 (Some [1; 2]) [3]].

Lemma sample_chunks_ok : Forall chunk_ok sample_chunks.
Proof.
  apply Forall_cons_2; [|apply Forall_cons_2; [|by apply Forall_nil_2]]; constructor; simpl; try lia; try done.
  intros _. split; [lia|]. by exists [1; 2].
Qed.

(** A publisher with three free chunks receives the two chunks and a short datagram. *)
Lemma dds_transport_witness :
  exists s' ws, Iceoryx2DDSGateway.forward (Sub := PlainTerminals.subscriber) 4 3 (sample_chunks, []) [] = Some (Done (s', ws)) /\
    length ws = 2%nat /\ held s' = [] /\
    exists r' p', DDS2IceoryxGateway.forward 4 4 (CycloneDataReader.mk ([1; 2] :: ws) true)
        (PlainTerminals.mkPublisher 3 0 [] (None, None) []) = Some (Done (r', p')) /\
      published p' = publication <$> sample_chunks.
Proof.
  destruct (dds_transport (D := list (list Z)) (P := PlainTerminals.publisher) 4 (fun ps _ hs => hs + ps < 2 ^ 32)
    ((sample_chunks, []) : PlainTerminals.subscriber) 3) as (s' & ws & E & _ & H & L & R).
  - exact sample_chunks_ok.
  - apply Forall_cons_2; [reflexivity|apply Forall_cons_2; [reflexivity|by apply Forall_nil_2]].
  - simpl. lia.
  - exists s', ws. split; [exact E|]. split; [exact L|]. split; [exact H|].
    destruct (R ([1; 2] :: ws) (CycloneDataReader.mk ([1; 2] :: ws) true) (PlainTerminals.mkPublisher 3 0 [] (None, None) []) 4%nat)
      as (r' & p' & E' & _ & _ & Ep & _).
    + constructor; [by constructor|]. clear. induction ws; by constructor.
    + reflexivity.
    + reflexivity.
    + simpl in *. lia.
    + intros ps pa hs Hs. cbn. unfold PlainTerminals.free_for. rewrite (proj2 (Z.ltb_lt _ _) Hs). simpl in *. lia.
    + exists r', p'. split; [exact E'|exact Ep].
Defined.

(** The two chunks with a short and a foreign datagram in between. *)
Example sample_transport :
  match Iceoryx2DDSGateway.forward (Sub := PlainTerminals.subscriber) 4 3 (sample_chunks, []) [] with
  | Some (Done (_, [a; b])) =>
      match DDS2IceoryxGateway.forward 4 5 (CycloneDataReader.mk [a; [1; 2]; <[0%nat := 2]> b; b] true)
              (PlainTerminals.mkPublisher 2 0 [] (None, None) []) with
      | Some (Done (_, p)) => PlainTerminals.out p = publication <$> sample_chunks
      | _ => False
      end
  | _ => False
  end.
Proof. vm_compute. reflexivity. Qed.

(** C38: one datagram can stop a gateway.  If the publisher has no room for the chunk of
    a datagram (pools exhausted or without chunks of the size), or the header announces a user header without the id of one, the gateway
    neither takes nor drops it: the loop over the samples never ends, and nothing
    that arrives later is forwarded. *)
Theorem dds_forward_never_ends endianDetector0 {D : Type} `{!SampleQueue D, !LawfulQueue D} {P : Type} `{!TerminalPublisher P, !LawfulPublisher P}
    h rest fuel (r : CycloneDataReader.t D) (p : P) l :
  header_ok h -> datagramVersion h = DATAGRAM_VERSION -> endianness h = getEndianess endianDetector0 ->
  room p (userPayloadSize h) (userPayloadAlignment h) (userHeaderSize h) = 0%nat \/
    0 < userHeaderSize h /\ userHeaderId h = ChunkHeader.NO_USER_HEADER ->
  CycloneDataReader.m_isConnected r = true -> pending (CycloneDataReader.m_impl r) = (serialize h ++ rest) :: l ->
  DDS2IceoryxGateway.forward endianDetector0 fuel r p = None.
Proof. intros. by eapply forward_stuck. Qed.

Lemma dds_forward_never_ends_witness :
  DDS2IceoryxGateway.forward 4 1000 (CycloneDataReader.mk [serialize (mkHeader 1 1 0 1 0 1) ++ [5]] true)
    (PlainTerminals.mkPublisher 3 0 [] (None, None) []) = None.
Proof.
  apply (dds_forward_never_ends 4 (mkHeader 1 1 0 1 0 1) [5] 1000 _ _ []); [|reflexivity|reflexivity| |reflexivity|reflexivity].
  - constructor; unfold is_byte; simpl; lia.
  - right. split; [simpl; lia|reflexivity].
Defined.

(** A datagram with a byte order that the enumeration does not have makes the
    reader index [EndianessString] with a byte of the network. *)
Example endianess_out_of_bounds :
  CycloneDataReader.peekNextIoxChunkDatagramHeader 4 (CycloneDataReader.mk [serialize (mkHeader 1 200 0 0 0 1)] true)
  = Terminated UNDEFINED_BEHAVIOUR.
Proof. reflexivity. Qed.

(** The size of the buffers is added up in 32 bits: sizes whose sum wraps around
    pass the check against the size of the sample and are read beyond its end. *)
Example buffer_size_wraps :
  let h := mkHeader 1 1 5 (2 ^ 32 - 4) 4 1 in
  CycloneDataReader.takeNext h true true (CycloneDataReader.mk [serialize h] true) = Terminated UNDEFINED_BEHAVIOUR.
Proof. vm_compute. reflexivity. Qed.
End properties.
