(* ===== verification/Introspection.v ===== *)
(** * Introspection

    RouDi publishes what it knows about ports, processes and memory pools
    ([port_introspection.inl], [process_introspection.inl],
    [mempool_introspection.inl]).  The ports are tracked in containers with a fixed
    number of cells ([fixed_size_container.hpp]) and in maps from services and
    port ids to cells.  The threads that call [send] periodically are not modelled:
    [send] is an operation like the others, all of them hold the same mutex. *)

From S2P Require Import Prelude ChunkHeader MemPool MemoryManager CaPro PubSubPorts SharedChunk SegmentManager RouDi.

(** ** [std::map]

    The entries in the order of their keys; keys are the same if none is less. *)
Module StdMap.
Section map.
Context {K V : Type} (less : K -> K -> bool).
Notation t := (list (K * V)).

Definition equiv (a b : K) : bool := negb (less a b) && negb (less b a).

Fixpoint find (k : K) (m : t) : option V :=
  match m with
  | [] => None
  | (k', v) :: m => if equiv k k' then Some v else find k m
  end.

(** [insert] does nothing if the key is there. *)
Fixpoint insert (k : K) (v : V) (m : t) : t :=
  match m with
  | [] => [(k, v)]
  | (k', v') :: m => if less k' k then (k', v') :: insert k v m else if less k k' then (k, v) :: (k', v') :: m else (k', v') :: m
  end.

(** Changes the value behind the iterator that [find] returned. *)
Fixpoint update (k : K) (f : V -> V) (m : t) : t :=
  match m with
  | [] => []
  | (k', v) :: m => if equiv k k' then (k', f v) :: m else (k', v) :: update k f m
  end.

Fixpoint erase (k : K) (m : t) : t :=
  match m with
  | [] => []
  | (k', v) :: m => if equiv k k' then m else (k', v) :: erase k m
  end.
End map.
End StdMap.

(** ** [FixedSizeContainer] *)

Module FixedSizeContainer.
Record entry_t (T : Type) := mkEntry { value : T; isValid : bool }.
Arguments mkEntry {_} _ _.
Arguments value {_} _.
Arguments isValid {_} _.

Record t (T : Type) := mk { m_freeIndex : nat; m_size : Z; m_values : list (entry_t T) }.
Arguments mk {_} _ _ _.
Arguments m_freeIndex {_} _.
Arguments m_size {_} _.
Arguments m_values {_} _.

Section container.
(** [initial] is [T()]; an index is [None] for [NOT_AN_ELEMENT]. *)
Context {T : Type} (initial : T) (capacity : nat).
Implicit Types (c : t T).

Definition ctor : t T := mk 0 0 (replicate capacity (mkEntry initial false)).

Definition nextFree c : outcome (option nat * t T) :=
  if Z.of_nat capacity <=? m_size c then Done (None, c)
  else
    let* i := returns (cyclic_search isValid capacity (S capacity) (m_freeIndex c) (m_values c)) in
    Done (Some i, mk i (m_size c) (m_values c)).

Definition add (element : T) c : outcome (option nat * t T) :=
  let* '(nextElement, c) := nextFree c in
  match nextElement with
  | Some i => Done (Some i, mk i (u64 (m_size c + 1)) (<[i := mkEntry element true]> (m_values c)))
  | None => Done (None, c)
  end.

Definition remove (index : nat) c : outcome (t T) :=
  match m_values c !! index with
  | Some e =>
      if isValid e then Done (mk (m_freeIndex c) (u64 (m_size c - 1)) (<[index := mkEntry (value e) false]> (m_values c)))
      else Done c
  | None => Terminated UNDEFINED_BEHAVIOUR
  end.

(** [operator[]], for reading and for a change of the object. *)
Definition at_ (index : nat) c : outcome T :=
  match m_values c !! index with Some e => Done (value e) | None => Terminated UNDEFINED_BEHAVIOUR end.
Definition modify (f : T -> T) (index : nat) c : outcome (t T) :=
  match m_values c !! index with
  | Some e => Done (mk (m_freeIndex c) (m_size c) (<[index := mkEntry (f (value e)) (isValid e)]> (m_values c)))
  | None => Terminated UNDEFINED_BEHAVIOUR
  end.

(** [get]: a pointer to the object, which is its index. *)
Definition get (index : nat) c : outcome (option nat) :=
  match m_values c !! index with
  | Some e => Done (if isValid e then Some index else None)
  | None => Terminated UNDEFINED_BEHAVIOUR
  end.
End container.
End FixedSizeContainer.

(** [emplace_back] and [push_back] of the vectors and lists of a fixed capacity: a
    full container stays as it is. *)
Definition emplace_back {A} (capacity : Z) (l : list A) (x : A) : list A :=
  if Z.of_nat (length l) <? capacity then l ++ [x] else l.

(** ** The ports that are tracked *)

Module ConnectionState.
Inductive t := DEFAULT | SUB_REQUESTED | CONNECTED.
End ConnectionState.

(** A pointer to the data of a port is its slot in the table of the ports.  The
    sequence number and its time, which no code reads, are left out. *)
Record PublisherInfo := mkPublisherInfo {
  pub_portData : option nat;
  pub_process : string;
  pub_service : ServiceDescription.t;
  pub_node : string;
  (* from an index to a pointer into the container of connections *)
  pub_connectionMap : list (Z * nat);
  pub_index : Z }.

Record SubscriberInfo := mkSubscriberInfo {
  sub_portData : option nat;
  sub_process : string;
  sub_service : ServiceDescription.t;
  sub_node : string }.

Record ConnectionInfo := mkConnectionInfo {
  subscriberInfo : SubscriberInfo;
  (* a pointer into the container of publishers *)
  publisherInfo : option nat;
  state : ConnectionState.t }.

Definition PublisherInfo_default : PublisherInfo := mkPublisherInfo None "" ServiceDescription.default_ctor "" [] (-1).
Definition PublisherInfo_ctor (portData : nat) (p : BasePortData.t) : PublisherInfo :=
  mkPublisherInfo (Some portData) (BasePortData.m_runtimeName p) (BasePortData.m_serviceDescription p)
    (BasePortData.m_nodeName p) [] (-1).

Definition SubscriberInfo_default : SubscriberInfo := mkSubscriberInfo None "" ServiceDescription.default_ctor "".
Definition SubscriberInfo_ctor (portData : nat) (p : BasePortData.t) : SubscriberInfo :=
  mkSubscriberInfo (Some portData) (BasePortData.m_runtimeName p) (BasePortData.m_serviceDescription p) (BasePortData.m_nodeName p).

Definition ConnectionInfo_default : ConnectionInfo := mkConnectionInfo SubscriberInfo_default None ConnectionState.DEFAULT.
Definition ConnectionInfo_ctor (portData : nat) (p : BasePortData.t) : ConnectionInfo :=
  mkConnectionInfo (SubscriberInfo_ctor portData p) None ConnectionState.DEFAULT.

Definition isConnected (c : ConnectionInfo) : bool :=
  match publisherInfo c, state c with Some _, ConnectionState.CONNECTED => true | _, _ => false end.

Definition set_publisherInfo (p : option nat) (c : ConnectionInfo) : ConnectionInfo := mkConnectionInfo (subscriberInfo c) p (state c).
Definition set_state (s : ConnectionState.t) (c : ConnectionInfo) : ConnectionInfo := mkConnectionInfo (subscriberInfo c) (publisherInfo c) s.
Definition set_index (i : Z) (p : PublisherInfo) : PublisherInfo :=
  mkPublisherInfo (pub_portData p) (pub_process p) (pub_service p) (pub_node p) (pub_connectionMap p) i.
Definition set_connectionMap (m : list (Z * nat)) (p : PublisherInfo) : PublisherInfo :=
  mkPublisherInfo (pub_portData p) (pub_process p) (pub_service p) (pub_node p) m (pub_index p).

(** From services and port ids to cells. *)
Definition IndexMap : Type := list (ServiceDescription.t * list (Z * nat)).

(** The part that [addPublisher] and [addSubscriber] share: the new cell is entered
    into the map, unless the port has an entry. *)
Definition add_index (service : ServiceDescription.t) (uniqueId : Z) (index : nat) (m : IndexMap) : option IndexMap :=
  match StdMap.find ServiceDescription.ltb service m with
  | None => Some (StdMap.insert ServiceDescription.ltb service (StdMap.insert Z.ltb uniqueId index []) m)
  | Some inner =>
      match StdMap.find Z.ltb uniqueId inner with
      | None => Some (StdMap.update ServiceDescription.ltb service (StdMap.insert Z.ltb uniqueId index) m)
      | Some _ => None
      end
  end.

(** The cell of a port, and the erasure of the entry through the iterator. *)
Definition find_index (service : ServiceDescription.t) (uniqueId : Z) (m : IndexMap) : option nat :=
  match StdMap.find ServiceDescription.ltb service m with
  | None => None
  | Some inner => StdMap.find Z.ltb uniqueId inner
  end.
Definition erase_index (service : ServiceDescription.t) (uniqueId : Z) (m : IndexMap) : IndexMap :=
  StdMap.update ServiceDescription.ltb service (StdMap.erase Z.ltb uniqueId) m.

Definition getNextState (policy : CommunicationPolicy) (currentState : ConnectionState.t) (messageType : CaproMessageType.t)
    : ConnectionState.t :=
  match policy with
  | OneToManyPolicy =>
      match currentState with
      | ConnectionState.DEFAULT =>
          if decide (messageType = CaproMessageType.SUB) then ConnectionState.SUB_REQUESTED else currentState
      | ConnectionState.SUB_REQUESTED =>
          if decide (messageType = CaproMessageType.ACK) then ConnectionState.CONNECTED
          else if decide (messageType = CaproMessageType.NACK) then ConnectionState.DEFAULT else currentState
      | ConnectionState.CONNECTED =>
          if decide (messageType = CaproMessageType.STOP_OFFER) then ConnectionState.DEFAULT
          else if decide (messageType = CaproMessageType.UNSUB) then ConnectionState.DEFAULT else currentState
      end
  | ManyToManyPolicy =>
      match currentState with
      | ConnectionState.DEFAULT =>
          if decide (messageType = CaproMessageType.SUB) then ConnectionState.CONNECTED else currentState
      | ConnectionState.CONNECTED =>
          if decide (messageType = CaproMessageType.UNSUB) then ConnectionState.DEFAULT else currentState
      | ConnectionState.SUB_REQUESTED => currentState
      end
  end.

(** What is published about a port. *)
Record SubscriberPortData := mkSubscriberPortData {
  s_name : string; s_caproInstanceID : string; s_caproServiceID : string; s_caproEventMethodID : string; s_node : string }.
Record PublisherPortData := mkPublisherPortData {
  p_portData : SubscriberPortData; p_publisherPortID : Z; p_sourceInterface : Interfaces.t }.
Record PortIntrospectionTopic := mkPortTopic { m_subscriberList : list SubscriberPortData; m_publisherList : list PublisherPortData }.
Record SubscriberPortChangingData := mkChangingData {
  fifoSize : Z; fifoCapacity : Z; subscriptionState : SubscribeState.t; propagationScope : Scope }.

Module PortData.
Record t := mk {
  m_publisherMap : IndexMap;
  m_connectionMap : IndexMap;
  m_publisherContainer : FixedSizeContainer.t PublisherInfo;
  m_connectionContainer : FixedSizeContainer.t ConnectionInfo;
  m_newData : bool }.

Section operations.
Context (b : Build).
Implicit Types (d : t).
Notation publisher_cells := (Z.to_nat (MAX_PUBLISHERS b)).
Notation connection_cells := (Z.to_nat (MAX_SUBSCRIBERS b)).

Definition ctor : t :=
  mk [] [] (FixedSizeContainer.ctor PublisherInfo_default publisher_cells)
    (FixedSizeContainer.ctor ConnectionInfo_default connection_cells) true.

Definition isNew d : bool := m_newData d.
Definition setNew (v : bool) d : t :=
  mk (m_publisherMap d) (m_connectionMap d) (m_publisherContainer d) (m_connectionContainer d) v.
Definition set_publishers (m : IndexMap) (c : FixedSizeContainer.t PublisherInfo) d : t :=
  mk m (m_connectionMap d) c (m_connectionContainer d) (m_newData d).
Definition set_connections (m : IndexMap) (c : FixedSizeContainer.t ConnectionInfo) d : t :=
  mk (m_publisherMap d) m (m_publisherContainer d) c (m_newData d).

(** The loops over the entries of an inner map that change the connections. *)
Fixpoint modify_all (f : ConnectionInfo -> ConnectionInfo) (inner : list (Z * nat)) (c : FixedSizeContainer.t ConnectionInfo)
    : outcome (FixedSizeContainer.t ConnectionInfo) :=
  match inner with
  | [] => Done c
  | (_, index) :: inner => let* c := FixedSizeContainer.modify f index c in modify_all f inner c
  end.

Definition next_state (message : CaproMessage.t) (c : ConnectionInfo) : ConnectionInfo :=
  set_state (getNextState (Policy b) (state c) (CaproMessage.m_type message)) c.

Definition updateConnectionState (message : CaproMessage.t) d : outcome (bool * t) :=
  match StdMap.find ServiceDescription.ltb (CaproMessage.m_serviceDescription message) (m_connectionMap d) with
  | None => Done (false, d)
  | Some innerConnectionMap =>
      let* c := modify_all (next_state message) innerConnectionMap (m_connectionContainer d) in
      Done (true, setNew true (set_connections (m_connectionMap d) c d))
  end.

Definition updateSubscriberConnectionState (message : CaproMessage.t) (id : Z) d : outcome (bool * t) :=
  match StdMap.find ServiceDescription.ltb (CaproMessage.m_serviceDescription message) (m_connectionMap d) with
  | None => Done (false, d)
  | Some innerConnectionMap =>
      match StdMap.find Z.ltb id innerConnectionMap with
      | None => Done (false, d)
      | Some index =>
          let* c := FixedSizeContainer.modify (next_state message) index (m_connectionContainer d) in
          Done (true, setNew true (set_connections (m_connectionMap d) c d))
      end
  end.

Definition addPublisher (portData : nat) (port : BasePortData.t) d : outcome (bool * t) :=
  let service := BasePortData.m_serviceDescription port in
  let* '(index, c) :=
    FixedSizeContainer.add publisher_cells (PublisherInfo_ctor portData port) (m_publisherContainer d) in
  match index with
  | None => Done (false, set_publishers (m_publisherMap d) c d)
  | Some index =>
      match add_index service (BasePortData.m_uniqueId port) index (m_publisherMap d) with
      | None => Done (false, set_publishers (m_publisherMap d) c d)
      | Some m =>
          let d := set_publishers m c d in
          let* publisher := FixedSizeContainer.get index c in
          match StdMap.find ServiceDescription.ltb service (m_connectionMap d) with
          | None => Done (true, setNew true d)
          | Some innerConnectionMap =>
              let* c :=
                modify_all (fun connection =>
                    if ServiceDescription.eqb service (sub_service (subscriberInfo connection))
                    then set_publisherInfo publisher connection else connection)
                  innerConnectionMap (m_connectionContainer d) in
              Done (true, setNew true (set_connections (m_connectionMap d) c d))
          end
      end
  end.

(** The loop over the publishers of a service: the last one stays. *)
Fixpoint set_last_publisher (inner : list (Z * nat)) (publishers : FixedSizeContainer.t PublisherInfo) (connection : nat)
    (c : FixedSizeContainer.t ConnectionInfo) : outcome (FixedSizeContainer.t ConnectionInfo) :=
  match inner with
  | [] => Done c
  | (_, index) :: inner =>
      let* publisher := FixedSizeContainer.get index publishers in
      let* c := FixedSizeContainer.modify (set_publisherInfo publisher) connection c in
      set_last_publisher inner publishers connection c
  end.

Definition addSubscriber (portData : nat) (port : BasePortData.t) d : outcome (bool * t) :=
  let service := BasePortData.m_serviceDescription port in
  let* '(index, c) :=
    FixedSizeContainer.add connection_cells (ConnectionInfo_ctor portData port) (m_connectionContainer d) in
  match index with
  | None => Done (false, set_connections (m_connectionMap d) c d)
  | Some index =>
      match add_index service (BasePortData.m_uniqueId port) index (m_connectionMap d) with
      | None => Done (false, set_connections (m_connectionMap d) c d)
      | Some m =>
          match StdMap.find ServiceDescription.ltb service (m_publisherMap d) with
          | None => Done (true, set_connections m c d)
          | Some innerPublisherMap =>
              let* c := set_last_publisher innerPublisherMap (m_publisherContainer d) index c in
              Done (true, set_connections m c d)
          end
      end
  end.

(** [pair.second->...] for all pairs of the publisher's map. *)
Definition disconnect (c : ConnectionInfo) : ConnectionInfo := set_state ConnectionState.DEFAULT (set_publisherInfo None c).

Definition removePublisher (service : ServiceDescription.t) (id : Z) d : outcome (bool * t) :=
  match find_index service id (m_publisherMap d) with
  | None => Done (false, d)
  | Some index =>
      let* publisher := FixedSizeContainer.at_ index (m_publisherContainer d) in
      let* connections := modify_all disconnect (pub_connectionMap publisher) (m_connectionContainer d) in
      let* publishers := FixedSizeContainer.remove index (m_publisherContainer d) in
      Done (true, setNew true
        (set_publishers (erase_index service id (m_publisherMap d)) publishers
           (set_connections (m_connectionMap d) connections d)))
  end.

Definition removeSubscriber (service : ServiceDescription.t) (id : Z) d : outcome (bool * t) :=
  match find_index service id (m_connectionMap d) with
  | None => Done (false, d)
  | Some connectionIndex =>
      let* connection := FixedSizeContainer.at_ connectionIndex (m_connectionContainer d) in
      let* publishers :=
        match publisherInfo connection with
        | None => Done (m_publisherContainer d)
        | Some publisher =>
            FixedSizeContainer.modify
              (fun p => set_connectionMap (StdMap.erase Z.ltb (Z.of_nat connectionIndex) (pub_connectionMap p)) p)
              publisher (m_publisherContainer d)
        end in
      let* connections := FixedSizeContainer.remove connectionIndex (m_connectionContainer d) in
      Done (true, setNew true
        (set_publishers (m_publisherMap d) publishers
           (set_connections (erase_index service id (m_connectionMap d)) connections d)))
  end.

(** The data of the ports, which the pointers in the containers refer to. *)
Context (publishers : nat -> option PubSubPorts.PublisherPortData.t) (subscribers : nat -> option PubSubPorts.SubscriberPortData.t).

Definition deref {A} (ports : nat -> option A) (portData : option nat) : outcome A :=
  match portData ≫= ports with Some p => Done p | None => Terminated UNDEFINED_BEHAVIOUR end.

Definition publisherData (info : PublisherInfo) (port : PubSubPorts.PublisherPortData.t) : PublisherPortData :=
  mkPublisherPortData
    (mkSubscriberPortData (pub_process info) (ServiceDescription.m_instanceString (pub_service info))
       (ServiceDescription.m_serviceString (pub_service info)) (ServiceDescription.m_eventString (pub_service info)) (pub_node info))
    (u64 (BasePortData.m_uniqueId (PubSubPorts.PublisherPortData.base port)))
    (ServiceDescription.getSourceInterface (pub_service info)).

Definition subscriberData (info : SubscriberInfo) : SubscriberPortData :=
  mkSubscriberPortData (sub_process info) (ServiceDescription.m_instanceString (sub_service info))
    (ServiceDescription.m_serviceString (sub_service info)) (ServiceDescription.m_eventString (sub_service info)) (sub_node info).

(** One loop over all entries of an index map, the services in order. *)
Definition entries (m : IndexMap) : list nat := m ≫= (fun x => snd <$> snd x).

Fixpoint list_publishers (l : list nat) (index : Z) (topic : list PublisherPortData) (c : FixedSizeContainer.t PublisherInfo)
    : outcome (list PublisherPortData * FixedSizeContainer.t PublisherInfo) :=
  match l with
  | [] => Done (topic, c)
  | i :: l =>
      let* info := FixedSizeContainer.at_ i c in
      let* port := deref publishers (pub_portData info) in
      let* c := FixedSizeContainer.modify (set_index index) i c in
      list_publishers l (index + 1) (emplace_back (MAX_PUBLISHERS b) topic (publisherData info port)) c
  end.

Fixpoint list_subscribers (l : list nat) (topic : list SubscriberPortData) (c : FixedSizeContainer.t ConnectionInfo)
    : outcome (list SubscriberPortData) :=
  match l with
  | [] => Done topic
  | i :: l =>
      let* connection := FixedSizeContainer.at_ i c in
      list_subscribers l (emplace_back (MAX_SUBSCRIBERS b) topic (subscriberData (subscriberInfo connection))) c
  end.

Definition prepareTopic d : outcome (PortIntrospectionTopic * t) :=
  let* '(ps, c) := list_publishers (entries (m_publisherMap d)) 0 [] (m_publisherContainer d) in
  let* ss := list_subscribers (entries (m_connectionMap d)) [] (m_connectionContainer d) in
  Done (mkPortTopic ss ps, setNew false (set_publishers (m_publisherMap d) c d)).

Definition changingData (info : SubscriberInfo) : outcome SubscriberPortChangingData :=
  match sub_portData info with
  | Some _ =>
      let* port := deref subscribers (sub_portData info) in
      Done (mkChangingData 0 0 (PubSubPorts.SubscriberPortData.m_subscriptionState port)
        (ServiceDescription.m_scope (BasePortData.m_serviceDescription (PubSubPorts.SubscriberPortData.base port))))
  | None => Done (mkChangingData 0 0 SubscribeState.NOT_SUBSCRIBED INVALID)
  end.

Fixpoint list_changing (l : list nat) (topic : list SubscriberPortChangingData) (c : FixedSizeContainer.t ConnectionInfo)
    : outcome (list SubscriberPortChangingData) :=
  match l with
  | [] => Done topic
  | i :: l =>
      let* connection := FixedSizeContainer.at_ i c in
      let* x := changingData (subscriberInfo connection) in
      list_changing l (emplace_back (MAX_SUBSCRIBERS b) topic x) c
  end.

(** [prepareTopic] of the subscriber ports; the one of the throughput does nothing. *)
Definition prepareChangingTopic d : outcome (list SubscriberPortChangingData) :=
  list_changing (entries (m_connectionMap d)) [] (m_connectionContainer d).
End operations.
End PortData.

(** ** The port introspection *)

Module PortIntrospection.
(** A registered port is [Some] with whether it was told to offer; the samples that
    were passed to [sendChunk] are kept in lists.  A running task has the interval
    it was started with. *)
Record t := mk {
  m_publisherPort : option bool;
  m_publisherPortThroughput : option bool;
  m_publisherPortSubscriberPortsData : option bool;
  m_portData : PortData.t;
  m_sendInterval : Z;
  m_publishingTask : option Z;
  sent : list PortIntrospectionTopic;
  sent_throughput : nat;
  sent_changing : list (list SubscriberPortChangingData) }.

Section operations.
Context (b : Build).
Context (publishers : nat -> option PubSubPorts.PublisherPortData.t) (subscribers : nat -> option PubSubPorts.SubscriberPortData.t).
Implicit Types (p : t).

(** One second, in nanoseconds. *)
Definition ctor : t := mk None None None (PortData.ctor b) 1000000000 None [] 0 [].

Definition set_portData (d : PortData.t) p : t :=
  mk (m_publisherPort p) (m_publisherPortThroughput p) (m_publisherPortSubscriberPortsData p) d (m_sendInterval p)
    (m_publishingTask p) (sent p) (sent_throughput p) (sent_changing p).
Definition set_ports (x y z : option bool) p : t :=
  mk x y z (m_portData p) (m_sendInterval p) (m_publishingTask p) (sent p) (sent_throughput p) (sent_changing p).
Definition set_task (interval : Z) (task : option Z) p : t :=
  mk (m_publisherPort p) (m_publisherPortThroughput p) (m_publisherPortSubscriberPortsData p) (m_portData p) interval task
    (sent p) (sent_throughput p) (sent_changing p).
Definition set_sent (x : list PortIntrospectionTopic) (y : nat) (z : list (list SubscriberPortChangingData)) p : t :=
  mk (m_publisherPort p) (m_publisherPortThroughput p) (m_publisherPortSubscriberPortsData p) (m_portData p)
    (m_sendInterval p) (m_publishingTask p) x y z.

Definition on_portData (f : PortData.t -> outcome (bool * PortData.t)) p : outcome (bool * t) :=
  let* '(r, d) := f (m_portData p) in Done (r, set_portData d p).

Definition addPublisher (portData : nat) (port : BasePortData.t) p := on_portData (PortData.addPublisher b portData port) p.
Definition addSubscriber (portData : nat) (port : BasePortData.t) p := on_portData (PortData.addSubscriber b portData port) p.
Definition removePublisher (service : ServiceDescription.t) (id : Z) p := on_portData (PortData.removePublisher service id) p.
Definition removeSubscriber (service : ServiceDescription.t) (id : Z) p := on_portData (PortData.removeSubscriber service id) p.
Definition reportMessage (message : CaproMessage.t) p := on_portData (PortData.updateConnectionState b message) p.
Definition reportMessageFor (message : CaproMessage.t) (id : Z) p :=
  on_portData (PortData.updateSubscriberConnectionState b message id) p.

Definition registerPublisherPort p : bool * t :=
  match m_publisherPort p, m_publisherPortThroughput p, m_publisherPortSubscriberPortsData p with
  | None, None, None => (true, set_ports (Some false) (Some false) (Some false) p)
  | _, _, _ => (false, p)
  end.

(** [allocated]: whether [tryAllocateChunk] returns a chunk. *)
Definition sendPortData (allocated : bool) p : outcome t :=
  expects (bool_decide (is_Some (m_publisherPort p)))
  (if allocated then
     let* '(sample, d) := PortData.prepareTopic b publishers (m_portData p) in
     Done (set_sent (sent p ++ [sample]) (sent_throughput p) (sent_changing p) (set_portData d p))
   else Done p).

Definition sendThroughputData (allocated : bool) p : outcome t :=
  expects (bool_decide (is_Some (m_publisherPortThroughput p)))
  (if allocated then Done (set_sent (sent p) (S (sent_throughput p)) (sent_changing p) p) else Done p).

Definition sendSubscriberPortsData (allocated : bool) p : outcome t :=
  expects (bool_decide (is_Some (m_publisherPortSubscriberPortsData p)))
  (if allocated then
     let* sample := PortData.prepareChangingTopic b subscribers (m_portData p) in
     Done (set_sent (sent p) (sent_throughput p) (sent_changing p ++ [sample]) p)
   else Done p).

Definition run (a1 a2 a3 : bool) p : outcome t :=
  expects (bool_decide (is_Some (m_publisherPort p)))
  (expects (bool_decide (is_Some (m_publisherPortThroughput p)))
  (expects (bool_decide (is_Some (m_publisherPortSubscriberPortsData p)))
  (let* p := sendPortData a1 p in
   let* p := sendThroughputData a2 p in
   let* p := sendSubscriberPortsData a3 p in
   Done (set_task (m_sendInterval p) (Some (m_sendInterval p)) (set_ports (Some true) (Some true) (Some true) p))))).

Definition send (a1 a2 a3 : bool) p : outcome t :=
  let* p := if PortData.isNew (m_portData p) then sendPortData a1 p else Done p in
  let* p := sendThroughputData a2 p in
  sendSubscriberPortsData a3 p.

Definition setSendInterval (interval : Z) p : t :=
  set_task interval (match m_publishingTask p with Some _ => Some interval | None => None end) p.
Definition stop p : t := set_task (m_sendInterval p) None p.
End operations.
End PortIntrospection.

(** ** The process introspection *)

Definition MAX_NODE_PER_PROCESS : Z := 50.

Record ProcessIntrospectionData := mkProcessData { m_pid : Z; m_name : string; m_nodes : list string }.

Module ProcessIntrospection.
(** As in the port introspection, [sent] holds the samples. *)
Record t := mk {
  m_processList : list ProcessIntrospectionData;
  m_processListNewData : bool;
  m_publisherPort : option bool;
  m_sendInterval : Z;
  m_publishingTask : option Z;
  sent : list (list ProcessIntrospectionData) }.

Definition ctor : t := mk [] true None 1000000000 None [].

Definition set_list (l : list ProcessIntrospectionData) (new : bool) (p : t) : t :=
  mk l new (m_publisherPort p) (m_sendInterval p) (m_publishingTask p) (sent p).

Definition addProcess (pid : Z) (name : string) (p : t) : t :=
  set_list (emplace_back MAX_PROCESS_NUMBER (m_processList p) (mkProcessData pid name [])) true p.

Fixpoint erase_pid (pid : Z) (l : list ProcessIntrospectionData) : list ProcessIntrospectionData :=
  match l with
  | [] => []
  | x :: l => if m_pid x =? pid then l else x :: erase_pid pid l
  end.

Definition removeProcess (pid : Z) (p : t) : t := set_list (erase_pid pid (m_processList p)) true p.

Definition add_node (runtimeName nodeName : string) (x : ProcessIntrospectionData) : ProcessIntrospectionData :=
  if bool_decide (m_name x = runtimeName) then
    if bool_decide (nodeName ∈ m_nodes x) then x
    else mkProcessData (m_pid x) (m_name x) (emplace_back MAX_NODE_PER_PROCESS (m_nodes x) nodeName)
  else x.

Definition addNode (runtimeName nodeName : string) (p : t) : t :=
  set_list (add_node runtimeName nodeName <$> m_processList p) true p.

Fixpoint erase_node (nodeName : string) (l : list string) : list string :=
  match l with
  | [] => []
  | x :: l => if bool_decide (x = nodeName) then l else x :: erase_node nodeName l
  end.

Definition remove_node (runtimeName nodeName : string) (x : ProcessIntrospectionData) : ProcessIntrospectionData :=
  if bool_decide (m_name x = runtimeName) then mkProcessData (m_pid x) (m_name x) (erase_node nodeName (m_nodes x)) else x.

Definition removeNode (runtimeName nodeName : string) (p : t) : t :=
  set_list (remove_node runtimeName nodeName <$> m_processList p) true p.

Definition registerPublisherPort (p : t) : t :=
  match m_publisherPort p with
  | None => mk (m_processList p) (m_processListNewData p) (Some false) (m_sendInterval p) (m_publishingTask p) (sent p)
  | Some _ => p
  end.

Definition send (allocated : bool) (p : t) : outcome t :=
  if m_processListNewData p then
    expects (bool_decide (is_Some (m_publisherPort p)))
    (if allocated then
       let sample := foldl (emplace_back MAX_PROCESS_NUMBER) [] (m_processList p) in
       Done (mk (m_processList p) false (m_publisherPort p) (m_sendInterval p) (m_publishingTask p) (sent p ++ [sample]))
     else Done p)
  else Done p.

Definition run (allocated : bool) (p : t) : outcome t :=
  expects (bool_decide (is_Some (m_publisherPort p)))
  (let* p := send allocated p in
   Done (mk (m_processList p) (m_processListNewData p) (Some true) (m_sendInterval p) (Some (m_sendInterval p)) (sent p))).

Definition setSendInterval (interval : Z) (p : t) : t :=
  mk (m_processList p) (m_processListNewData p) (m_publisherPort p) interval
    (match m_publishingTask p with Some _ => Some interval | None => None end) (sent p).
Definition stop (p : t) : t :=
  mk (m_processList p) (m_processListNewData p) (m_publisherPort p) (m_sendInterval p) None (sent p).

(** The destructor: the task is stopped, and the port told to stop offering. *)
Definition dtor (p : t) : t :=
  let p := stop p in
  mk (m_processList p) (m_processListNewData p) (match m_publisherPort p with Some _ => Some false | None => None end)
    (m_sendInterval p) (m_publishingTask p) (sent p).
End ProcessIntrospection.

(** ** The memory pool introspection *)

Definition MAX_GROUP_NAME_LENGTH : nat := 32.

(** The information about a pool as it is published, with the size of the payload. *)
Record MemPoolInfo := mkMemPoolInfo {
  m_usedChunks : Z; m_minFreeChunks : Z; m_numChunks : Z; m_chunkSize : Z; m_chunkPayloadSize : Z }.
Record MemPoolIntrospectionInfo := mkMemPoolIntrospectionInfo {
  m_id : Z; m_writerGroupName : string; m_readerGroupName : string; m_mempoolInfo : list MemPoolInfo }.

Module MemPoolIntrospection.
(** As above, and the reported errors. *)
Record t := mk {
  m_offered : bool;
  m_sendInterval : Z;
  m_publishingTask : option Z;
  sent : list (list MemPoolIntrospectionInfo);
  errors : list (Error * ErrorLevel) }.

Section operations.
(** The groups of the system and the one of the process; the segments and RouDi's
    own pools, which the introspection only reads. *)
Context (db : UserDatabase) (groupOfCurrentProcess : PosixGroup.t).
Context (rouDiInternalMemoryManager : MemoryManager.t) (segments : SegmentManager.t).

Definition ctor : t := mk true 1000000000 None [] [].
Definition dtor (p : t) : t := mk false (m_sendInterval p) None (sent p) (errors p).
Definition run (p : t) : t := mk (m_offered p) (m_sendInterval p) (Some (m_sendInterval p)) (sent p) (errors p).
Definition stop (p : t) : t := mk (m_offered p) (m_sendInterval p) None (sent p) (errors p).
Definition setSendInterval (interval : Z) (p : t) : t :=
  mk (m_offered p) interval (match m_publishingTask p with Some _ => Some interval | None => None end) (sent p) (errors p).

(** The loop of [copyMemPoolInfo], which fills a vector of [numOfMemPools] entries. *)
Definition copied (src : MemPool.MemPoolInfo) : MemPoolInfo :=
  mkMemPoolInfo (MemPool.i_usedChunks src) (MemPool.i_minFreeChunks src) (MemPool.i_numChunks src) (MemPool.i_chunkSize src)
    (u32 (MemPool.i_chunkSize src - SIZEOF_CHUNK_HEADER)).
Definition copyMemPoolInfo (m : MemoryManager.t) : list MemPoolInfo :=
  (fun i => copied (MemoryManager.getMemPoolInfo m (Z.of_nat i))) <$> seq 0 (Z.to_nat (MemoryManager.getNumberOfMemPools m)).

Definition truncated (name : string) : string := String.substring 0 MAX_GROUP_NAME_LENGTH name.

Definition prepareIntrospectionSample (readerGroup writerGroup : PosixGroup.t) (id : Z) (info : list MemPoolInfo)
    : MemPoolIntrospectionInfo :=
  mkMemPoolIntrospectionInfo id (truncated (PosixGroup.getName db writerGroup)) (truncated (PosixGroup.getName db readerGroup)) info.

Definition CAPACITY : Z := MAX_SHM_SEGMENTS + 1.

(** The loop over the segments; [false] if the sample was full. *)
Fixpoint add_segments (l : SegmentManager.t) (id : Z) (sample : list MemPoolIntrospectionInfo)
    : list MemPoolIntrospectionInfo * bool :=
  match l with
  | [] => (sample, true)
  | segment :: l =>
      if Z.of_nat (length sample) <? CAPACITY then
        add_segments l (u32 (id + 1))
          (sample ++ [prepareIntrospectionSample (MePooSegment.m_readerGroup segment) (MePooSegment.m_writerGroup segment) id
                        (copyMemPoolInfo (MePooSegment.m_memoryManager segment))])
      else (sample, false)
  end.

(** [hasSubscribers] and [allocated]: what the port answers. *)
Definition send (hasSubscribers allocated : bool) (p : t) : t :=
  if hasSubscribers then
    if allocated then
      if 0 <? CAPACITY then
        let '(sample, complete) :=
          add_segments segments 1
            [prepareIntrospectionSample groupOfCurrentProcess groupOfCurrentProcess 0 (copyMemPoolInfo rouDiInternalMemoryManager)] in
        mk (m_offered p) (m_sendInterval p) (m_publishingTask p) (sent p ++ [sample])
          (if complete then errors p else errors p ++ [(MEPOO__INTROSPECTION_CONTAINER_FULL, MODERATE)])
      else
        mk (m_offered p) (m_sendInterval p) (m_publishingTask p) (sent p ++ [[]])
          (errors p ++ [(MEPOO__INTROSPECTION_CONTAINER_FULL, MODERATE)])
    else mk (m_offered p) (m_sendInterval p) (m_publishingTask p) (sent p) (errors p ++ [(MEPOO__CANNOT_ALLOCATE_CHUNK, MODERATE)])
  else p.
End operations.
End MemPoolIntrospection.
