(* ===== verification/IntrospectionSpec.v ===== *)
(** * What the introspection shows

    The containers and maps of [Introspection] track exactly the ports that were
    added and not removed; the samples list these ports, the processes and the
    pools.  At the end are runs in which the introspection shows something else. *)

From S2P Require Import Prelude ChunkHeader MemPool MemoryManager CaPro PubSubPorts SharedChunk SegmentManager RouDi.
From S2P Require Import ConditionVariable ChunkQueue VariantQueue PortPool Scenarios Introspection.

(** ** Maps *)

Section std_map.
Context {K V X : Type} (less : K -> K -> bool) (same : K -> X).
(** Keys of which none is less are the same. *)
Context (Hsame : forall a b, StdMap.equiv less a b = true <-> same a = same b).
Implicit Types (m : list (K * V)).

Lemma std_find_split k m v : StdMap.find less k m = Some v ->
  exists m1 k' m2, m = m1 ++ (k', v) :: m2 /\ same k' = same k /\ StdMap.erase less k m = m1 ++ m2 /\
    forall f, StdMap.update less k f m = m1 ++ (k', f v) :: m2.
Proof.
  induction m as [|[k' v'] m IH]; [done|]. simpl. destruct (StdMap.equiv less k k') eqn:E.
  - intros [= ->]. apply Hsame in E. by exists [], k', m.
  - intros (m1 & k'' & m2 & -> & H1 & H2 & H3)%IH. exists ((k', v') :: m1), k'', m2.
    split; [done|split; [done|split; [by rewrite H2|]]]. intros f. by rewrite H3.
Qed.

Lemma std_find_None k m : StdMap.find less k m = None <-> same k ∉ (same ∘ fst <$> m).
Proof.
  induction m as [|[k' v'] m IH]; simpl; [split; [by intros _ ?%elem_of_nil|done]|].
  rewrite not_elem_of_cons, <- IH. destruct (StdMap.equiv less k k') eqn:E.
  - apply Hsame in E. by split; [|intros [? _]].
  - assert (same k <> same k') by (intros H%Hsame; congruence). naive_solver.
Qed.

Lemma std_insert_new k v m : StdMap.find less k m = None -> StdMap.insert less k v m ≡ₚ (k, v) :: m.
Proof.
  induction m as [|[k' v'] m IH]; [done|]. simpl. destruct (StdMap.equiv less k k') eqn:E; [done|]. intros H.
  destruct (less k' k) eqn:E1; [rewrite IH by done; apply Permutation_swap|]. destruct (less k k') eqn:E2; [done|].
  unfold StdMap.equiv in E. by rewrite E1, E2 in E.
Qed.

Lemma std_find_in k k' v m : NoDup (same ∘ fst <$> m) -> (k', v) ∈ m -> same k = same k' -> StdMap.find less k m = Some v.
Proof.
  intros Hnd Hin Hk. destruct (StdMap.find less k m) as [v'|] eqn:E.
  - apply std_find_split in E as (m1 & k'' & m2 & -> & H & _). rewrite fmap_app, fmap_cons in Hnd. simpl in Hnd.
    apply NoDup_app in Hnd as (_ & H1 & H2). apply NoDup_cons in H2 as [H2 _].
    apply elem_of_app in Hin as [Hin|Hin].
    + exfalso. apply (H1 (same k')); [by apply (list_elem_of_fmap_2 (same ∘ fst)) in Hin|]. apply elem_of_cons. left. congruence.
    + apply elem_of_cons in Hin as [Hin|Hin]; [by injection Hin as -> ->|].
      exfalso. apply H2. apply (list_elem_of_fmap_2 (same ∘ fst)) in Hin. simpl in Hin. congruence.
  - exfalso. apply std_find_None in E. apply E. rewrite Hk. by apply (list_elem_of_fmap_2 (same ∘ fst)) in Hin.
Qed.
End std_map.

Lemma service_equiv a b : StdMap.equiv ServiceDescription.ltb a b = true <-> ServiceDescription.key a = ServiceDescription.key b.
Proof.
  unfold StdMap.equiv, ServiceDescription.ltb, ServiceDescription.key.
  assert (H : forall x y : string, String.compare x y = CompOpp (String.compare y x)) by apply String.compare_antisym.
  assert (R : forall x : string, String.compare x x = Eq) by (intros x; pose proof (H x x); by destruct (String.compare x x)).
  rewrite (H (ServiceDescription.m_serviceString b)), (H (ServiceDescription.m_instanceString b)), (H (ServiceDescription.m_eventString b)).
  split; [|by intros [= -> -> ->]; rewrite !R].
  destruct (String.compare (ServiceDescription.m_serviceString a) _) eqn:E1; simpl; try done.
  destruct (String.compare (ServiceDescription.m_instanceString a) _) eqn:E2; simpl; try done.
  destruct (String.compare (ServiceDescription.m_eventString a) _) eqn:E3; simpl; try done. intros _.
  apply String.compare_eq_iff in E1, E2, E3. congruence.
Qed.

Lemma id_equiv a b : StdMap.equiv Z.ltb a b = true <-> id a = id b.
Proof. unfold StdMap.equiv, id. rewrite andb_true_iff, !negb_true_iff, !Z.ltb_ge. lia. Qed.

(** ** From services and ids to cells *)

Notation key := ServiceDescription.key.
Definition PortKey : Type := string * string * string * Z.

Definition flat (m : IndexMap) : list (PortKey * nat) := m ≫= (fun x => (fun y => ((key x.1, y.1), y.2)) <$> x.2).
Definition services (m : IndexMap) : list (string * string * string) := key ∘ fst <$> m.

Record map_wf (m : IndexMap) : Prop := {
  mw_services : NoDup (services m);
  mw_ids : forall s inner, (s, inner) ∈ m -> NoDup inner.*1 }.

Lemma entries_flat m : PortData.entries m = (flat m).*2.
Proof.
  induction m as [|[s inner] m IH]; [done|]. change (inner.*2 ++ PortData.entries m = (((fun y => ((key s, y.1), y.2)) <$> inner) ++ flat m).*2).
  by rewrite fmap_app, IH, <- list_fmap_compose.
Qed.

Lemma flat_elem m k i : (k, i) ∈ flat m <-> exists s inner, (s, inner) ∈ m /\ k.1 = key s /\ (k.2, i) ∈ inner.
Proof.
  unfold flat. rewrite list_elem_of_bind. split.
  - intros ([s inner] & H1 & H2). apply list_elem_of_fmap in H1 as ([id j] & [= -> ->] & H1). by exists s, inner.
  - intros (s & inner & H1 & H2 & H3). exists (s, inner). split; [|done]. apply list_elem_of_fmap. exists (k.2, i).
    split; [|done]. destruct k; simpl in *. congruence.
Qed.

Lemma inner_elem m s inner i id : map_wf m -> StdMap.find ServiceDescription.ltb s m = Some inner ->
  (id, i) ∈ inner <-> ((key s, id), i) ∈ flat m.
Proof.
  intros W H. rewrite flat_elem. split.
  - intros Hi. apply (std_find_split _ key service_equiv) in H as (m1 & k' & m2 & -> & Hk & _). exists k', inner.
    split; [apply elem_of_app; right; left|done].
  - intros (s' & inner' & Hin & Hk & Hi). simpl in *.
    pose proof (std_find_in _ key service_equiv s s' inner' m (mw_services _ W) Hin Hk). congruence.
Qed.

Lemma service_missing m s id i : StdMap.find ServiceDescription.ltb s m = None -> ((key s, id), i) ∉ flat m.
Proof.
  intros H%(std_find_None _ key service_equiv) (s' & inner & Hin & Hk & _)%flat_elem. simpl in Hk. apply H. rewrite Hk.
  apply (list_elem_of_fmap_2 (key ∘ fst)) in Hin. done.
Qed.

Lemma find_index_flat m s n i : map_wf m -> find_index s n m = Some i <-> ((key s, n), i) ∈ flat m.
Proof.
  intros W. unfold find_index. destruct (StdMap.find ServiceDescription.ltb s m) as [inner|] eqn:E.
  - rewrite <- (inner_elem m s inner) by done. split.
    + intros H. apply (std_find_split _ id id_equiv) in H as (m1 & k' & m2 & -> & Hk & _).
      unfold id in Hk. subst. apply elem_of_app. right. left.
    + intros H. apply (std_find_in _ id id_equiv n n i); [|done|done].
      apply (std_find_split _ key service_equiv) in E as (m1 & k' & m2 & -> & _). apply (mw_ids _ W k').
      apply elem_of_app. right. left.
  - split; [done|]. by intros ?%service_missing.
Qed.

Lemma flat_split m1 s inner m2 : flat (m1 ++ (s, inner) :: m2) ≡ₚ ((fun y => ((key s, y.1), y.2)) <$> inner) ++ flat (m1 ++ m2).
Proof.
  unfold flat. rewrite (bind_Permutation _ _ ((s, inner) :: (m1 ++ m2)) (symmetry (Permutation_middle _ _ _))). done.
Qed.

(** A changed inner map keeps the services. *)
Lemma map_wf_change m1 s inner inner' m2 : map_wf (m1 ++ (s, inner) :: m2) -> NoDup inner'.*1 ->
  map_wf (m1 ++ (s, inner') :: m2) /\ services (m1 ++ (s, inner') :: m2) = services (m1 ++ (s, inner) :: m2).
Proof.
  intros [W1 W2] Hi. assert (E : services (m1 ++ (s, inner') :: m2) = services (m1 ++ (s, inner) :: m2))
    by (unfold services; by rewrite !fmap_app). split; [|done]. constructor; [by rewrite E|].
  intros s' i. rewrite elem_of_app, elem_of_cons. intros [H|[[= -> ->]|H]]; [|done|];
    apply (W2 s'), elem_of_app; [by left|right; by right].
Qed.

Lemma add_index_spec m s n i : map_wf m -> find_index s n m = None ->
  exists m', add_index s n i m = Some m' /\ map_wf m' /\ flat m' ≡ₚ ((key s, n), i) :: flat m /\
    forall k, k ∈ services m' <-> k = key s \/ k ∈ services m.
Proof.
  intros W. unfold find_index, add_index. destruct (StdMap.find ServiceDescription.ltb s m) as [inner|] eqn:E; intros H.
  - rewrite H. eexists. split; [done|]. pose proof (std_find_split _ key service_equiv _ _ _ E) as (m1 & k' & m2 & -> & Hk & _ & Hu).
    rewrite Hu. pose proof (std_insert_new _ n i inner H) as P.
    apply (std_find_None _ id id_equiv) in H. destruct (map_wf_change m1 k' inner (StdMap.insert Z.ltb n i inner) m2 W) as [W' E'].
    { rewrite P. simpl. apply NoDup_cons. split; [done|]. apply (mw_ids _ W k'). apply elem_of_app. right. left. }
    split; [done|]. split; [|intros k; rewrite E'; split; [by right|intros [->|]; [|done]]].
    + rewrite !flat_split, P, <- Hk. done.
    + rewrite <- Hk. unfold services. rewrite fmap_app. apply elem_of_app. right. left.
  - eexists. split; [done|]. pose proof (std_insert_new _ s (StdMap.insert Z.ltb n i []) m E) as P.
    apply (std_find_None _ key service_equiv) in E. split; [|split].
    + constructor; [unfold services; rewrite P; apply NoDup_cons; split; [exact E|apply W]|]. intros s' inner. rewrite P. rewrite elem_of_cons.
      intros [[= -> ->]|Hin]; [simpl; apply NoDup_singleton|by apply (mw_ids _ W s')].
    + unfold flat. rewrite P. done.
    + intros k. unfold services. rewrite P. apply elem_of_cons.
Qed.

Lemma erase_index_spec m s n i : map_wf m -> find_index s n m = Some i ->
  map_wf (erase_index s n m) /\ flat m ≡ₚ ((key s, n), i) :: flat (erase_index s n m) /\ services (erase_index s n m) = services m.
Proof.
  intros W. unfold find_index, erase_index. destruct (StdMap.find ServiceDescription.ltb s m) as [inner|] eqn:E; [|done]. intros H.
  pose proof (std_find_split _ key service_equiv _ _ _ E) as (m1 & k' & m2 & -> & Hk & _ & Hu). rewrite Hu.
  pose proof (std_find_split _ id id_equiv _ _ _ H) as (i1 & n' & i2 & -> & Hn & He & _). unfold id in Hn. subst n'. rewrite He.
  assert (Hin : (k', i1 ++ (n, i) :: i2) ∈ m1 ++ (k', i1 ++ (n, i) :: i2) :: m2) by (apply elem_of_app; right; left).
  destruct (map_wf_change m1 k' (i1 ++ (n, i) :: i2) (i1 ++ i2) m2 W) as [W' E'].
  { pose proof (mw_ids _ W _ _ Hin) as Hnd. rewrite fmap_app, fmap_cons in Hnd. rewrite fmap_app.
    rewrite <- Permutation_middle in Hnd. by apply NoDup_cons in Hnd as [_ Hnd]. }
  split; [done|split; [|done]]. rewrite !flat_split, !fmap_app, fmap_cons, <- Hk. simpl. solve_Permutation.
Qed.

(** ** Containers *)

Module FixedSizeContainerSpec.
Import FixedSizeContainer.

Section container.
Context {T : Type} (capacity : nat).
Implicit Types (c : t T).

Record wf c : Prop := {
  w_length : length (m_values c) = capacity;
  w_free : (m_freeIndex c < capacity)%nat;
  w_size : m_size c = Z.of_nat (used_cells isValid (m_values c)) }.

(** What the cells hold. *)
Definition content (e : entry_t T) : option T := if isValid e then Some (value e) else None.
Definition contents c : list (option T) := content <$> m_values c.

Lemma contents_lookup c i v : contents c !! i = Some (Some v) -> m_values c !! i = Some (mkEntry v true).
Proof.
  unfold contents. rewrite list_lookup_fmap. destruct (m_values c !! i) as [[x [|]]|]; simpl; try done. by intros [= ->].
Qed.

Lemma wf_size_le c : wf c -> 0 <= m_size c <= Z.of_nat capacity.
Proof. intros [W1 _ W3]. pose proof (used_cells_le isValid (m_values c)). lia. Qed.

Lemma contents_lt c i x : wf c -> contents c !! i = Some x -> (i < capacity)%nat.
Proof. intros [W _ _] H%lookup_lt_Some. unfold contents in H. by rewrite length_fmap, W in H. Qed.

Lemma modify_spec f c i : wf c -> (i < capacity)%nat ->
  exists c', modify f i c = Done c' /\ wf c' /\ contents c' = alter (fmap f) i (contents c) /\ m_size c' = m_size c.
Proof.
  intros [W1 W2 W3] Hi. destruct (lookup_lt_is_Some_2 (m_values c) i) as [e He]; [lia|]. unfold modify. rewrite He.
  eexists. split; [done|]. split; [constructor; simpl; [by rewrite length_insert|done|]|split; [|done]].
  - rewrite (used_cells_insert isValid _ _ _ _ He). simpl. lia.
  - unfold contents. simpl. rewrite list_fmap_insert. apply list_eq. intros j. destruct (decide (i = j)) as [<-|].
    + rewrite list_lookup_alter_eq, list_lookup_insert_eq, list_lookup_fmap, He by (by rewrite length_fmap; eapply lookup_lt_Some).
      simpl. unfold content. simpl. by destruct (isValid e).
    + by rewrite list_lookup_alter_ne, list_lookup_insert_ne by done.
Qed.

Lemma container_at_spec c i v : contents c !! i = Some (Some v) -> at_ i c = Done v.
Proof. unfold at_. by intros ->%contents_lookup. Qed.

Lemma get_spec c i v : contents c !! i = Some (Some v) -> get i c = Done (Some i).
Proof. unfold get. by intros ->%contents_lookup. Qed.

Context (Hcap : (0 < capacity)%nat) (Hmax : Z.of_nat capacity < 2 ^ 32).

Lemma container_ctor_wf (initial : T) : wf (ctor initial capacity).
Proof.
  constructor; simpl; [apply length_replicate|done|]. unfold used_cells. generalize capacity. intros n. by induction n.
Qed.

Lemma add_spec v c : wf c ->
  (m_size c = Z.of_nat capacity /\ add capacity v c = Done (None, c)) \/
  (m_size c < Z.of_nat capacity /\ exists i c', add capacity v c = Done (Some i, c') /\ wf c' /\
    contents c !! i = Some None /\ contents c' = <[i := Some v]> (contents c) /\ m_size c' = m_size c + 1).
Proof using Hcap Hmax.
  intros W. pose proof (wf_size_le c W). destruct W as [W1 W2 W3]. unfold add, nextFree.
  destruct (Z.leb_spec (Z.of_nat capacity) (m_size c)); cbn [obind]; [left; split; [lia|done]|]. right. split; [done|].
  destruct (cyclic_search_finds isValid capacity (m_values c) (m_freeIndex c) W1 W2) as (i & e & E & Hi & He); [lia|].
  rewrite E. cbn [returns obind m_size m_values]. rewrite u64_small by lia. eexists i, _. split; [done|].
  split; [constructor; simpl; [by rewrite length_insert|rewrite <- W1; by eapply lookup_lt_Some|]|].
  - rewrite (used_cells_insert isValid _ _ _ _ Hi), He. simpl. lia.
  - unfold contents. rewrite list_lookup_fmap, Hi. simpl. unfold content at 1. rewrite He. split; [done|]. by rewrite list_fmap_insert.
Qed.

Lemma remove_spec c i v : wf c -> contents c !! i = Some (Some v) ->
  exists c', remove i c = Done c' /\ wf c' /\ contents c' = <[i := None]> (contents c) /\ m_size c' = m_size c - 1.
Proof using Hcap Hmax.
  intros W Hi%contents_lookup. pose proof (wf_size_le c W). destruct W as [W1 W2 W3]. unfold remove. rewrite Hi. cbn [isValid value].
  pose proof (used_cells_pos isValid _ _ _ Hi eq_refl). rewrite u64_small by lia. eexists. split; [done|].
  split; [constructor; simpl; [by rewrite length_insert|done|]|split; [|done]].
  - rewrite (used_cells_insert isValid _ _ _ _ Hi). simpl. lia.
  - unfold contents. simpl. by rewrite list_fmap_insert.
Qed.
End container.
End FixedSizeContainerSpec.

(** ** Ports in a container and a map *)

Import FixedSizeContainerSpec.
Notation contents := FixedSizeContainerSpec.contents.

Section tracked.
(** [P] is what is known of a port, [T] what its cell holds. *)
Context {T P : Type} (capacity : nat) (keyof : P -> PortKey) (view : P -> T -> Prop).
Implicit Types (m : IndexMap) (c : FixedSizeContainer.t T) (ps : list P).

(** [m] and [c] hold the ports [ps]: each has an entry and a cell of its own, and no
    others are used. *)
Definition tracked m c ps : Prop :=
  wf capacity c /\ map_wf m /\ FixedSizeContainer.m_size c = Z.of_nat (length ps) /\ NoDup (keyof <$> ps) /\
  exists cells : list (P * nat), ps = cells.*1 /\ NoDup cells.*2 /\
    flat m ≡ₚ (fun a => (keyof a.1, a.2)) <$> cells /\
    Forall (fun a => exists v, contents c !! a.2 = Some (Some v) /\ view a.1 v) cells.

Lemma tracked_size m c ps : tracked m c ps -> Z.of_nat (length ps) <= Z.of_nat capacity.
Proof. intros (W & _ & E & _). pose proof (wf_size_le capacity c W). lia. Qed.

Context (Hcap : (0 < capacity)%nat) (Hmax : Z.of_nat capacity < 2 ^ 32).

Lemma tracked_ctor initial : tracked [] (FixedSizeContainer.ctor initial capacity) [].
Proof.
  split; [by apply container_ctor_wf|split; [|split; [done|split; [constructor|]]]].
  - constructor; [constructor|by intros s inner ?%elem_of_nil].
  - by exists []; repeat constructor.
Qed.

(** The entries of the map are those of the ports, and their cells are used. *)
Lemma tracked_entry m c ps k i : tracked m c ps -> (k, i) ∈ flat m ->
  exists p v, p ∈ ps /\ keyof p = k /\ contents c !! i = Some (Some v) /\ view p v.
Proof.
  intros (_ & _ & _ & _ & cells & -> & _ & Hf & Hv) Hin. rewrite Hf in Hin. apply list_elem_of_fmap in Hin as ([p j] & [= -> ->] & Hin).
  rewrite Forall_forall in Hv. destruct (Hv _ Hin) as (v & H1 & H2). exists p, v. split; [|done]. by apply (list_elem_of_fmap_2 fst) in Hin.
Qed.

Lemma tracked_find m c ps s n : tracked m c ps -> find_index s n m = None <-> (key s, n) ∉ keyof <$> ps.
Proof.
  intros (_ & W & _ & _ & cells & -> & _ & Hf & _). rewrite <- list_fmap_compose. split.
  - intros H Hin. apply list_elem_of_fmap in Hin as ([p i] & Hk & Hin). simpl in Hk.
    assert (He : ((key s, n), i) ∈ flat m) by (rewrite Hf; apply list_elem_of_fmap; exists (p, i); by rewrite Hk).
    apply find_index_flat in He; congruence.
  - intros H. destruct (find_index s n m) as [i|] eqn:E; [|done]. exfalso. apply find_index_flat in E; [|done].
    rewrite Hf in E. apply list_elem_of_fmap in E as ([p j] & [= Hk ->] & Hin). apply H. apply list_elem_of_fmap. by exists (p, j).
Qed.

(** A new port fits unless the container is full. *)
Lemma tracked_add m c ps p v s n : tracked m c ps -> keyof p = (key s, n) -> keyof p ∉ keyof <$> ps -> view p v ->
  (Z.of_nat (length ps) = Z.of_nat capacity /\ FixedSizeContainer.add capacity v c = Done (None, c)) \/
  (Z.of_nat (length ps) < Z.of_nat capacity /\ exists i c' m', FixedSizeContainer.add capacity v c = Done (Some i, c') /\
    add_index s n i m = Some m' /\ tracked m' c' (ps ++ [p]) /\ contents c' !! i = Some (Some v) /\
    (forall k, k ∈ services m' <-> k = key s \/ k ∈ services m)).
Proof.
  intros Ht Hk Hnew Hp. pose proof Ht as (W & Wm & Es & Hnd & cells & -> & Hn & Hf & Hv). rewrite <- Es.
  destruct (add_spec capacity Hcap Hmax v c W) as [?|(Hlt & i & c' & E & W' & Hi & Hc & Es')]; [by left|right].
  split; [done|]. rewrite Hk in Hnew. apply (tracked_find m c _ s n Ht) in Hnew as Hfind.
  destruct (add_index_spec m s n i Wm Hfind) as (m' & Em & Wm' & Hf' & Hs). exists i, c', m'.
  assert (Hii : contents c' !! i = Some (Some v)) by (rewrite Hc, list_lookup_insert_eq; [done|by eapply lookup_lt_Some]).
  assert (Hni : i ∉ cells.*2).
  { intros (a & -> & Ha)%list_elem_of_fmap. rewrite Forall_forall in Hv. destruct (Hv a Ha) as (x & Hx & _). congruence. }
  split; [done|split; [done|split; [|done]]]. split; [done|split; [done|split; [rewrite length_app; simpl; lia|split]]].
  { rewrite fmap_app. simpl. rewrite Hk. rewrite <- Permutation_cons_append. by apply NoDup_cons. }
  exists (cells ++ [(p, i)]). split; [by rewrite fmap_app|]. rewrite !fmap_app. simpl. split; [|split].
  - rewrite <- Permutation_cons_append. by apply NoDup_cons.
  - rewrite Hf', Hf, Hk. apply Permutation_cons_append.
  - apply Forall_app. split; [|apply Forall_singleton; by exists v]. eapply Forall_impl; [exact Hv|]. intros a (x & Hx & Hxv).
    exists x. split; [|done]. rewrite Hc, list_lookup_insert_ne; [done|]. intros ->. congruence.
Qed.

(** Removal of a port that has an entry. *)
Lemma tracked_remove m c ps s n i : tracked m c ps -> find_index s n m = Some i ->
  exists c', FixedSizeContainer.remove i c = Done c' /\
    tracked (erase_index s n m) c' (filter (fun p => keyof p <> (key s, n)) ps).
Proof.
  intros (W & Wm & Es & Hnd & cells & -> & Hn & Hf & Hv) E. destruct (erase_index_spec m s n i Wm E) as (Wm' & Hf' & _).
  apply find_index_flat in E; [|done]. rewrite Hf in E. apply list_elem_of_fmap in E as ([p j] & [= Hk ->] & Hin). simpl in *.
  apply list_elem_of_split in Hin as (c1 & c2 & ->). rewrite !fmap_app, !fmap_cons in *. simpl in *.
  rewrite <- Permutation_middle in Hn, Hnd, Hf. apply NoDup_cons in Hn as [Hnj Hn]. apply NoDup_cons in Hnd as [Hnk Hnd].
  rewrite <- fmap_app in *. rewrite <- Permutation_middle in Hv. apply Forall_cons in Hv as [(v & Hi & _) Hv]. simpl in Hi.
  destruct (remove_spec capacity Hcap Hmax c j v W Hi) as (c' & -> & W' & Hc & Es'). exists c'. split; [done|].
  assert (Efilter : filter (fun p => keyof p <> (key s, n)) (c1.*1 ++ p :: c2.*1) = (c1 ++ c2).*1).
  { rewrite filter_app, filter_cons, decide_False, fmap_app by (rewrite <- Hk; tauto).
    assert (Hk' : forall l : list P, (key s, n) ∉ keyof <$> l -> filter (fun p => keyof p <> (key s, n)) l = l).
    { clear. induction l as [|x l IH]; [done|]. rewrite fmap_cons, not_elem_of_cons. intros [H1 H2].
      rewrite filter_cons, decide_True by congruence. f_equal. by apply IH. }
    rewrite <- Hk in Hnk. rewrite !fmap_app in Hnk. apply not_elem_of_app in Hnk as [H1 H2]. by rewrite !Hk'. }
  rewrite Efilter. split; [done|split; [done|split; [|split]]].
  - rewrite Es', Es. rewrite fmap_app, !length_app. simpl. lia.
  - by rewrite fmap_app.
  - exists (c1 ++ c2). split; [done|split; [by rewrite fmap_app|split]].
    + rewrite Hf', <- Hk in Hf. apply Permutation_cons_inv in Hf. by rewrite fmap_app.
    + rewrite Forall_forall in Hv |- *. intros a Ha. destruct (Hv a Ha) as (x & Hx & Hxv). exists x. split; [|done].
      rewrite Hc, list_lookup_insert_ne; [done|]. intros ->. apply Hnj. rewrite <- fmap_app. by apply (list_elem_of_fmap_2 snd).
Qed.

(** Changes of the objects that keep their keys. *)
Lemma tracked_change m c c' ps (g : P -> P) : tracked m c ps -> wf capacity c' ->
  FixedSizeContainer.m_size c' = FixedSizeContainer.m_size c -> (forall p, keyof (g p) = keyof p) ->
  (forall p i v, (keyof p, i) ∈ flat m -> contents c !! i = Some (Some v) -> view p v ->
    exists v', contents c' !! i = Some (Some v') /\ view (g p) v') ->
  tracked m c' (g <$> ps).
Proof.
  intros (W & Wm & Es & Hnd & cells & -> & Hn & Hf & Hv) W' Es' Hg H.
  assert (Ek : forall l : list P, keyof <$> (g <$> l) = keyof <$> l) by (intros l; rewrite <- list_fmap_compose; apply list_fmap_ext; intros ? x _; apply Hg).
  split; [done|split; [done|split; [rewrite length_fmap; congruence|split; [by rewrite Ek|]]]].
  exists ((fun a => (g a.1, a.2)) <$> cells). rewrite <- !list_fmap_compose. split; [done|split; [done|split]].
  - rewrite Hf. apply reflexive_eq, list_fmap_ext. intros ? a _. simpl. by rewrite Hg.
  - apply Forall_fmap. rewrite Forall_forall in Hv |- *. intros a Ha. destruct (Hv a Ha) as (v & Hi & Hp). apply (H a.1 a.2 v); [|done|done].
    rewrite Hf. apply list_elem_of_fmap. by exists a.
Qed.
End tracked.

Lemma flat_cell_unique m k k' i : NoDup (flat m).*2 -> (k, i) ∈ flat m -> (k', i) ∈ flat m -> k = k'.
Proof.
  intros Hnd [x Hx]%list_elem_of_lookup [y Hy]%list_elem_of_lookup. assert (x = y) as <-; [|congruence].
  apply (NoDup_lookup _ x y i Hnd); rewrite list_lookup_fmap; [by rewrite Hx|by rewrite Hy].
Qed.

Section tracked_connections.
Context {P : Type} (capacity : nat) (keyof : P -> PortKey) (view : P -> ConnectionInfo -> Prop).
Implicit Types (m : IndexMap) (c : FixedSizeContainer.t ConnectionInfo) (ps : list P).
Notation tracked := (tracked capacity keyof view).

(** The cells of one service. *)
Lemma tracked_inner m c ps s inner : tracked m c ps -> StdMap.find ServiceDescription.ltb s m = Some inner ->
  NoDup inner.*2 /\ (forall i, i ∈ inner.*2 -> (i < capacity)%nat) /\
  (forall k i, (k, i) ∈ flat m -> i ∈ inner.*2 <-> k.1 = key s).
Proof.
  intros Ht E. pose proof Ht as (W & Wm & _ & _ & cells & _ & Hn & Hf & _).
  assert (Hnd : NoDup (flat m).*2) by (rewrite Hf, <- list_fmap_compose; exact Hn).
  assert (Hto : forall i, i ∈ inner.*2 -> exists n, ((key s, n), i) ∈ flat m).
  { intros i ([n j] & -> & Hj)%list_elem_of_fmap. exists n. by apply (inner_elem m s inner). }
  split; [|split].
  - pose proof (std_find_split _ key service_equiv _ _ _ E) as (m1 & k' & m2 & -> & _). rewrite flat_split in Hnd.
    rewrite fmap_app, <- list_fmap_compose in Hnd. by apply NoDup_app in Hnd as [Hnd _].
  - intros i Hi. destruct (Hto i Hi) as [n Hin]. destruct (tracked_entry _ _ _ _ _ _ _ _ Ht Hin) as (p & v & _ & _ & H & _).
    by apply (contents_lt capacity c i (Some v)).
  - intros k i Hin. split.
    + intros (n & Hn')%Hto. by rewrite (flat_cell_unique m k (key s, n) i Hnd Hin Hn').
    + intros Hk. destruct k as [k n]. simpl in Hk. subst k. apply (inner_elem m s inner i n Wm E) in Hin.
      by apply (list_elem_of_fmap_2 snd) in Hin.
Qed.

Lemma modify_all_spec f inner c : wf capacity c -> NoDup inner.*2 -> (forall i, i ∈ inner.*2 -> (i < capacity)%nat) ->
  exists c', PortData.modify_all f inner c = Done c' /\ wf capacity c' /\ FixedSizeContainer.m_size c' = FixedSizeContainer.m_size c /\
    forall j v, contents c !! j = Some (Some v) -> contents c' !! j = Some (Some (if decide (j ∈ inner.*2) then f v else v)).
Proof.
  revert c. induction inner as [|[n i] inner IH]; intros c W Hnd Hlt.
  - exists c. split; [done|split; [done|split; [done|]]]. intros j v Hj. rewrite decide_False by (by intros ?%elem_of_nil). done.
  - simpl in *. apply NoDup_cons in Hnd as [Hi Hnd]. destruct (modify_spec capacity f c i W) as (c1 & E1 & W1 & C1 & S1); [apply Hlt; left|].
    rewrite E1. cbn [obind]. destruct (IH c1 W1 Hnd) as (c2 & E2 & W2 & S2 & C2); [intros x Hx; apply Hlt; by right|].
    exists c2. split; [done|split; [done|split; [congruence|]]]. intros j v Hj.
    destruct (decide (j = i)) as [->|Hne].
    + rewrite (C2 i (f v)) by (by rewrite C1, list_lookup_alter_eq, Hj). rewrite decide_False by done. rewrite decide_True by left. done.
    + rewrite (C2 j v) by (by rewrite C1, list_lookup_alter_ne by done). f_equal. f_equal.
      destruct (decide (j ∈ inner.*2)) as [H|H]; [rewrite decide_True by (by right)|rewrite decide_False by (by intros [?|?]%elem_of_cons)]; done.
Qed.

(** All connections of a service are changed. *)
Lemma tracked_modify_all m c ps s inner f (g : P -> P) : tracked m c ps ->
  StdMap.find ServiceDescription.ltb s m = Some inner -> (forall p, keyof (g p) = keyof p) ->
  (forall p v, (keyof p).1 = key s -> view p v -> view (g p) (f v)) ->
  exists c', PortData.modify_all f inner c = Done c' /\ tracked m c' ((fun p => if decide ((keyof p).1 = key s) then g p else p) <$> ps).
Proof.
  intros Ht E Hg H. destruct (tracked_inner m c ps s inner Ht E) as (H1 & H2 & H3). pose proof Ht as (W & _).
  destruct (modify_all_spec f inner c W H1 H2) as (c' & Ec & W' & Es & C). exists c'. split; [done|].
  apply (tracked_change capacity keyof view m c c' ps _ Ht W' Es); [intros p; by case_decide|].
  intros p i v Hin Hi Hv. rewrite (C i v Hi). eexists. split; [done|]. pose proof (H3 _ _ Hin) as Hk.
  repeat case_decide; try tauto. by apply H.
Qed.

(** One connection is changed. *)
Lemma tracked_modify_one m c ps s n i f (g : P -> P) : tracked m c ps -> find_index s n m = Some i -> (forall p, keyof (g p) = keyof p) ->
  (forall p v, keyof p = (key s, n) -> view p v -> view (g p) (f v)) ->
  exists c', FixedSizeContainer.modify f i c = Done c' /\
    tracked m c' ((fun p => if decide (keyof p = (key s, n)) then g p else p) <$> ps).
Proof.
  intros Ht E Hg H. pose proof Ht as (W & Wm & _ & _ & cells & _ & Hn & Hf & _). apply find_index_flat in E; [|done].
  destruct (tracked_entry _ _ _ _ _ _ _ _ Ht E) as (p0 & v0 & _ & _ & Hi & _).
  destruct (modify_spec capacity f c i W) as (c' & Ec & W' & C & Es); [by apply (contents_lt capacity c i (Some v0))|].
  exists c'. split; [done|]. apply (tracked_change capacity keyof view m c c' ps _ Ht W' Es); [intros p; by case_decide|].
  assert (Hnd : NoDup (flat m).*2) by (rewrite Hf, <- list_fmap_compose; exact Hn).
  intros p j v Hin Hj Hv. destruct (decide (j = i)) as [->|Hne].
  - rewrite C, list_lookup_alter_eq, Hj. eexists. split; [done|]. pose proof (flat_cell_unique m _ _ i Hnd Hin E) as Hk.
    rewrite decide_True by done. by apply H.
  - rewrite C, list_lookup_alter_ne by done. exists v. split; [done|]. rewrite decide_False; [done|]. intros Hk.
    rewrite Hk in Hin. apply (find_index_flat m s n j Wm) in Hin. apply (find_index_flat m s n i Wm) in E. congruence.
Qed.
End tracked_connections.

(** ** The specification of the port introspection *)

(** The ports that were added and not removed, with the pointers to their data, and
    for subscribers the state of their connection; the services that had a
    subscriber at some time; whether there is something new; the samples. *)
Record Shown := mkShown {
  s_publishers : list (nat * BasePortData.t);
  s_subscribers : list (nat * BasePortData.t * ConnectionState.t);
  s_services : list (string * string * string);
  s_new : bool;
  s_sent : list PortIntrospectionTopic;
  s_changing : list (list SubscriberPortChangingData) }.

Definition port_key (p : BasePortData.t) : PortKey := (key (BasePortData.m_serviceDescription p), BasePortData.m_uniqueId p).
Definition pub_key (p : nat * BasePortData.t) : PortKey := port_key p.2.
Definition sub_key (p : nat * BasePortData.t * ConnectionState.t) : PortKey := port_key p.1.2.

(** The operations; a [Send] comes with the results of the three allocations and the
    data of the ports at that time. *)
Inductive Op :=
  | AddPublisher (portData : nat) (port : BasePortData.t)
  | AddSubscriber (portData : nat) (port : BasePortData.t)
  | RemovePublisher (service : ServiceDescription.t) (id : Z)
  | RemoveSubscriber (service : ServiceDescription.t) (id : Z)
  | Report (message : CaproMessage.t)
  | ReportFor (message : CaproMessage.t) (id : Z)
  | Send (a1 a2 a3 : bool) (publishers : nat -> option PubSubPorts.PublisherPortData.t)
      (subscribers : nat -> option PubSubPorts.SubscriberPortData.t).

(** What the samples say about a port. *)
Definition common_data (p : BasePortData.t) : SubscriberPortData :=
  let s := BasePortData.m_serviceDescription p in
  mkSubscriberPortData (BasePortData.m_runtimeName p) (ServiceDescription.m_instanceString s)
    (ServiceDescription.m_serviceString s) (ServiceDescription.m_eventString s) (BasePortData.m_nodeName p).
Definition publisher_entry (p : nat * BasePortData.t) : PublisherPortData :=
  mkPublisherPortData (common_data p.2) (u64 (BasePortData.m_uniqueId p.2))
    (ServiceDescription.m_interfaceSource (BasePortData.m_serviceDescription p.2)).
Definition changing_entry (subscribers : nat -> option PubSubPorts.SubscriberPortData.t)
    (p : nat * BasePortData.t * ConnectionState.t) : SubscriberPortChangingData :=
  match subscribers p.1.1 with
  | Some x => mkChangingData 0 0 (PubSubPorts.SubscriberPortData.m_subscriptionState x)
      (ServiceDescription.m_scope (BasePortData.m_serviceDescription (PubSubPorts.SubscriberPortData.base x)))
  | None => mkChangingData 0 0 SubscribeState.NOT_SUBSCRIBED INVALID
  end.
Definition topic_of (s : Shown) : PortIntrospectionTopic :=
  mkPortTopic ((fun p => common_data p.1.2) <$> s_subscribers s) (publisher_entry <$> s_publishers s).

Section specification.
Context (b : Build).
Implicit Types (s : Shown) (o : Op).

Definition advance (message : CaproMessage.t) (p : nat * BasePortData.t * ConnectionState.t) : nat * BasePortData.t * ConnectionState.t :=
  (p.1, getNextState (Policy b) p.2 (CaproMessage.m_type message)).

Definition spec_step o s : bool * Shown :=
  match o with
  | AddPublisher portData port =>
      if Z.of_nat (length (s_publishers s)) <? MAX_PUBLISHERS b then
        (true, mkShown (s_publishers s ++ [(portData, port)]) (s_subscribers s) (s_services s) true (s_sent s) (s_changing s))
      else (false, s)
  | AddSubscriber portData port =>
      if Z.of_nat (length (s_subscribers s)) <? MAX_SUBSCRIBERS b then
        (true, mkShown (s_publishers s) (s_subscribers s ++ [(portData, port, ConnectionState.DEFAULT)])
                 (key (BasePortData.m_serviceDescription port) :: s_services s) (s_new s) (s_sent s) (s_changing s))
      else (false, s)
  | RemovePublisher service id =>
      if decide ((key service, id) ∈ pub_key <$> s_publishers s) then
        (true, mkShown (filter (fun p => pub_key p <> (key service, id)) (s_publishers s)) (s_subscribers s) (s_services s)
                 true (s_sent s) (s_changing s))
      else (false, s)
  | RemoveSubscriber service id =>
      if decide ((key service, id) ∈ sub_key <$> s_subscribers s) then
        (true, mkShown (s_publishers s) (filter (fun p => sub_key p <> (key service, id)) (s_subscribers s)) (s_services s)
                 true (s_sent s) (s_changing s))
      else (false, s)
  | Report message =>
      let k := key (CaproMessage.m_serviceDescription message) in
      if decide (k ∈ s_services s) then
        (true, mkShown (s_publishers s) ((fun p => if decide ((sub_key p).1 = k) then advance message p else p) <$> s_subscribers s)
                 (s_services s) true (s_sent s) (s_changing s))
      else (false, s)
  | ReportFor message id =>
      let k := (key (CaproMessage.m_serviceDescription message), id) in
      if decide (k ∈ sub_key <$> s_subscribers s) then
        (true, mkShown (s_publishers s) ((fun p => if decide (sub_key p = k) then advance message p else p) <$> s_subscribers s)
                 (s_services s) true (s_sent s) (s_changing s))
      else (false, s)
  | Send a1 _ a3 _ subscribers =>
      (true, mkShown (s_publishers s) (s_subscribers s) (s_services s) (s_new s && negb a1)
               (s_sent s ++ (if s_new s && a1 then [topic_of s] else []))
               (s_changing s ++ (if a3 then [changing_entry subscribers <$> s_subscribers s] else [])))
  end.

(** What RouDi guarantees: the ports it adds are new, and the data of the tracked
    ports exist when samples are sent. *)
Definition op_ok o s : Prop :=
  match o with
  | AddPublisher _ port => port_key port ∉ pub_key <$> s_publishers s
  | AddSubscriber _ port => port_key port ∉ sub_key <$> s_subscribers s
  | Send _ _ _ publishers subscribers =>
      Forall (fun p => exists x, publishers p.1 = Some x /\
        BasePortData.m_uniqueId (PubSubPorts.PublisherPortData.base x) = BasePortData.m_uniqueId p.2) (s_publishers s) /\
      Forall (fun p => is_Some (subscribers p.1.1)) (s_subscribers s)
  | _ => True
  end.

Fixpoint spec_run (os : list Op) s : list bool * Shown :=
  match os with
  | [] => ([], s)
  | o :: os => let '(r, s) := spec_step o s in let '(rs, s) := spec_run os s in (r :: rs, s)
  end.
Fixpoint ops_ok (os : list Op) s : Prop :=
  match os with [] => True | o :: os => op_ok o s /\ ops_ok os (spec_step o s).2 end.

(** The operations of the code. *)
Definition step o (p : PortIntrospection.t) : outcome (bool * PortIntrospection.t) :=
  match o with
  | AddPublisher portData port => PortIntrospection.addPublisher b portData port p
  | AddSubscriber portData port => PortIntrospection.addSubscriber b portData port p
  | RemovePublisher service id => PortIntrospection.removePublisher service id p
  | RemoveSubscriber service id => PortIntrospection.removeSubscriber service id p
  | Report message => PortIntrospection.reportMessage b message p
  | ReportFor message id => PortIntrospection.reportMessageFor b message id p
  | Send a1 a2 a3 publishers subscribers =>
      let* p := PortIntrospection.send b publishers subscribers a1 a2 a3 p in Done (true, p)
  end.
Fixpoint run (os : list Op) (p : PortIntrospection.t) : outcome (list bool * PortIntrospection.t) :=
  match os with
  | [] => Done ([], p)
  | o :: os => let* '(r, p) := step o p in let* '(rs, p) := run os p in Done (r :: rs, p)
  end.

Definition empty_shown : Shown := mkShown [] [] [] true [] [].
Definition started : PortIntrospection.t := (PortIntrospection.registerPublisherPort (PortIntrospection.ctor b)).2.
End specification.

(** Two samples with the same entries: the code lists them in the order of services
    and ids. *)
Record same_topic (x y : PortIntrospectionTopic) : Prop := {
  st_subscribers : m_subscriberList x ≡ₚ m_subscriberList y;
  st_publishers : m_publisherList x ≡ₚ m_publisherList y }.

(** ** The code implements the specification *)

Section refinement.
Context (b : Build) (Hp : 0 < MAX_PUBLISHERS b < 2 ^ 32) (Hs : 0 < MAX_SUBSCRIBERS b < 2 ^ 32).
Implicit Types (s : Shown) (o : Op) (d : PortData.t).
Notation publisher_cells := (Z.to_nat (MAX_PUBLISHERS b)).
Notation connection_cells := (Z.to_nat (MAX_SUBSCRIBERS b)).

(** A publisher never learns of its connections. *)
Definition pub_view (p : nat * BasePortData.t) (v : PublisherInfo) : Prop :=
  exists n, v = set_index n (PublisherInfo_ctor p.1 p.2).

(** A connection points to a cell of a publisher, which may be free or reused. *)
Definition in_cells (q : option nat) : Prop := match q with Some j => (j < publisher_cells)%nat | None => True end.
Definition con_view (p : nat * BasePortData.t * ConnectionState.t) (v : ConnectionInfo) : Prop :=
  exists q, v = mkConnectionInfo (SubscriberInfo_ctor p.1.1 p.1.2) q p.2 /\ in_cells q.

Notation publishers_tracked := (tracked publisher_cells pub_key pub_view).
Notation connections_tracked := (tracked connection_cells sub_key con_view).

Record sim d s : Prop := {
  sim_publishers : publishers_tracked (PortData.m_publisherMap d) (PortData.m_publisherContainer d) (s_publishers s);
  sim_connections : connections_tracked (PortData.m_connectionMap d) (PortData.m_connectionContainer d) (s_subscribers s);
  sim_services : forall k, k ∈ services (PortData.m_connectionMap d) <-> k ∈ s_services s;
  sim_new : PortData.m_newData d = s_new s }.

Lemma cells_pos : (0 < publisher_cells)%nat /\ Z.of_nat publisher_cells < 2 ^ 32 /\
  (0 < connection_cells)%nat /\ Z.of_nat connection_cells < 2 ^ 32.
Proof. lia. Qed.

Lemma sim_ctor : sim (PortData.ctor b) empty_shown.
Proof.
  pose proof cells_pos as (H1 & H2 & H3 & H4). constructor; simpl; [by apply tracked_ctor|by apply tracked_ctor| |done].
  intros k. unfold services. simpl. done.
Qed.

(** A change of the pointers to publishers is not visible. *)
Lemma con_view_set_publisher p v q : in_cells q -> con_view p v -> con_view p (set_publisherInfo q v).
Proof. intros Hq (q' & -> & _). by exists q. Qed.

Lemma id_if {A} (P : A -> Prop) `{!forall x, Decision (P x)} (l : list A) : (fun p => if decide (P p) then id p else p) <$> l = l.
Proof. rewrite <- (list_fmap_id l) at 2. apply list_fmap_ext. intros ? x _. by case_decide. Qed.

Lemma addPublisher_refines portData port d s : sim d s -> op_ok (AddPublisher portData port) s ->
  exists d', PortData.addPublisher b portData port d = Done ((spec_step b (AddPublisher portData port) s).1, d') /\
    sim d' (spec_step b (AddPublisher portData port) s).2.
Proof.
  intros [S1 S2 S3 S4] Hok. pose proof cells_pos as (C1 & C2 & C3 & C4). unfold PortData.addPublisher. simpl spec_step.
  destruct (tracked_add publisher_cells pub_key pub_view C1 C2 _ _ _ (portData, port) (PublisherInfo_ctor portData port)
    (BasePortData.m_serviceDescription port) (BasePortData.m_uniqueId port) S1) as
    [[E ->]|(E & i & c' & m' & -> & Em & T & Hi & Hserv)]; [done|done|by exists (-1)| |]; cbn [obind].
  - rewrite (proj2 (Z.ltb_ge _ _)) by lia. eexists. split; [done|]. by constructor.
  - rewrite (proj2 (Z.ltb_lt _ _)) by lia. rewrite Em, (get_spec _ _ _ Hi). cbn [obind PortData.set_publishers PortData.m_connectionMap PortData.m_connectionContainer].
    destruct (StdMap.find ServiceDescription.ltb (BasePortData.m_serviceDescription port) (PortData.m_connectionMap d)) as [inner|] eqn:Ef;
      [|eexists; split; [done|by constructor]].
    destruct (tracked_modify_all connection_cells sub_key con_view _ _ _ _ inner
      (fun connection => if ServiceDescription.eqb (BasePortData.m_serviceDescription port) (sub_service (subscriberInfo connection))
                         then set_publisherInfo (Some i) connection else connection) id S2 Ef) as (c'' & -> & T'); [done| |].
    { intros p v _ Hv. destruct (ServiceDescription.eqb _ _); [|done]. apply con_view_set_publisher; [|done].
      destruct T as (W & _). by apply (contents_lt publisher_cells c' i (Some (PublisherInfo_ctor portData port))). }
    cbn [obind]. rewrite id_if in T'. eexists. split; [done|]. by constructor.
Qed.

Lemma set_last_publisher_spec inner publishers i c : (forall j, j ∈ inner.*2 -> exists v, contents publishers !! j = Some (Some v)) ->
  wf publisher_cells publishers -> wf connection_cells c -> (i < connection_cells)%nat ->
  exists c', PortData.set_last_publisher inner publishers i c = Done c' /\ wf connection_cells c' /\
    FixedSizeContainer.m_size c' = FixedSizeContainer.m_size c /\
    forall p j v, contents c !! j = Some (Some v) -> con_view p v -> exists v', contents c' !! j = Some (Some v') /\ con_view p v'.
Proof.
  intros Hall Wp. revert c. induction inner as [|[n j] inner IH]; intros c W Hi; simpl.
  - exists c. split; [done|split; [done|split; [done|]]]. eauto.
  - destruct (Hall j) as [x Hx]; [left|]. rewrite (get_spec _ _ _ Hx). cbn [obind].
    destruct (modify_spec connection_cells (set_publisherInfo (Some j)) c i W Hi) as (c1 & -> & W1 & C1 & E1). cbn [obind].
    destruct IH with (c := c1) as (c2 & E2 & W2 & S2 & H2); [intros k Hk; apply Hall; by right|done|done|]. exists c2.
    split; [done|split; [done|split; [congruence|]]]. intros p k v Hk Hv.
    destruct (decide (k = i)) as [->|Hne]; [|apply (H2 p k v); [by rewrite C1, list_lookup_alter_ne|done]].
    apply (H2 p i (set_publisherInfo (Some j) v)); [by rewrite C1, list_lookup_alter_eq, Hk|].
    apply con_view_set_publisher; [|done]. by apply (contents_lt publisher_cells publishers j (Some x)).
Qed.

Lemma addSubscriber_refines portData port d s : sim d s -> op_ok (AddSubscriber portData port) s ->
  exists d', PortData.addSubscriber b portData port d = Done ((spec_step b (AddSubscriber portData port) s).1, d') /\
    sim d' (spec_step b (AddSubscriber portData port) s).2.
Proof.
  intros [S1 S2 S3 S4] Hok. pose proof cells_pos as (C1 & C2 & C3 & C4). unfold PortData.addSubscriber. simpl spec_step.
  destruct (tracked_add connection_cells sub_key con_view C3 C4 _ _ _ (portData, port, ConnectionState.DEFAULT) (ConnectionInfo_ctor portData port)
    (BasePortData.m_serviceDescription port) (BasePortData.m_uniqueId port) S2) as
    [[E ->]|(E & i & c' & m' & -> & Em & T & Hi & Hserv)]; [done|done|by exists None| |]; cbn [obind].
  - rewrite (proj2 (Z.ltb_ge _ _)) by lia. eexists. split; [done|]. by constructor.
  - rewrite (proj2 (Z.ltb_lt _ _)) by lia. rewrite Em.
    assert (Hsv : forall k, k ∈ services m' <-> k ∈ key (BasePortData.m_serviceDescription port) :: s_services s)
      by (intros k; by rewrite Hserv, S3, elem_of_cons).
    destruct (StdMap.find ServiceDescription.ltb (BasePortData.m_serviceDescription port) (PortData.m_publisherMap d)) as [inner|] eqn:Ef;
      [|eexists; split; [done|by constructor]].
    pose proof S1 as (Wp & Wm & _). pose proof T as (Wc & _).
    destruct (set_last_publisher_spec inner (PortData.m_publisherContainer d) i c') as (c'' & -> & W' & Es & H'); [|done|done| |].
    { intros j ([n j'] & -> & Hj)%list_elem_of_fmap. apply (inner_elem _ _ _ _ n Wm Ef) in Hj.
      destruct (tracked_entry _ _ _ _ _ _ _ _ S1 Hj) as (p & v & _ & _ & Hv & _). by exists v. }
    { by apply (contents_lt connection_cells c' i (Some (ConnectionInfo_ctor portData port))). }
    cbn [obind]. eexists. split; [done|]. constructor; simpl; [done| |done|done].
    rewrite <- (list_fmap_id (s_subscribers s ++ _)). apply (tracked_change connection_cells sub_key con_view m' c'); [done|done|done|done|].
    intros p j v _. apply H'.
Qed.

(** The cell of a tracked port, and that a port without an entry is not tracked. *)
Lemma find_cases {T P} capacity keyof (view : P -> T -> Prop) m c ps service id : tracked capacity keyof view m c ps ->
  (find_index service id m = None /\ (key service, id) ∉ keyof <$> ps) \/
  (exists i p v, find_index service id m = Some i /\ (key service, id) ∈ keyof <$> ps /\ contents c !! i = Some (Some v) /\ view p v).
Proof.
  intros Ht. pose proof (tracked_find _ _ _ _ _ _ service id Ht) as H. destruct (find_index service id m) as [i|] eqn:E.
  - right. pose proof Ht as (_ & Wm & _). pose proof E as E'. apply find_index_flat in E'; [|done].
    destruct (tracked_entry _ _ _ _ _ _ _ _ Ht E') as (p & v & H1 & H2 & H3 & H4). exists i, p, v. split; [done|split; [|done]].
    rewrite <- H2. by apply list_elem_of_fmap_2.
  - left. split; [done|]. by apply H.
Qed.

Lemma removePublisher_refines service id d s : sim d s ->
  exists d', PortData.removePublisher service id d = Done ((spec_step b (RemovePublisher service id) s).1, d') /\
    sim d' (spec_step b (RemovePublisher service id) s).2.
Proof.
  intros [S1 S2 S3 S4]. pose proof cells_pos as (C1 & C2 & C3 & C4). unfold PortData.removePublisher. simpl spec_step.
  destruct (find_cases _ _ _ _ _ _ service id S1) as [[E H]|(i & p & v & E & H & Hi & n & ->)]; rewrite E.
  - rewrite decide_False by done. by exists d.
  - rewrite decide_True by done. rewrite (container_at_spec _ _ _ Hi). cbn [obind set_index PublisherInfo_ctor pub_connectionMap PortData.modify_all].
    destruct (tracked_remove publisher_cells pub_key pub_view C1 C2 _ _ _ _ _ _ S1 E) as (c' & -> & T). cbn [obind].
    eexists. split; [done|]. by constructor.
Qed.

Lemma removeSubscriber_refines service id d s : sim d s ->
  exists d', PortData.removeSubscriber service id d = Done ((spec_step b (RemoveSubscriber service id) s).1, d') /\
    sim d' (spec_step b (RemoveSubscriber service id) s).2.
Proof.
  intros [S1 S2 S3 S4]. pose proof cells_pos as (C1 & C2 & C3 & C4). unfold PortData.removeSubscriber. simpl spec_step.
  destruct (find_cases _ _ _ _ _ _ service id S2) as [[E H]|(i & p & v & E & H & Hi & q & -> & Hq)]; rewrite E.
  - rewrite decide_False by done. by exists d.
  - rewrite decide_True by done. rewrite (container_at_spec _ _ _ Hi). cbn [obind publisherInfo].
    destruct (tracked_remove connection_cells sub_key con_view C3 C4 _ _ _ _ _ _ S2 E) as (c' & Ec & T). rewrite Ec.
    assert (Hs' : services (erase_index service id (PortData.m_connectionMap d)) = services (PortData.m_connectionMap d)).
    { destruct S2 as (_ & Wm & _). by destruct (erase_index_spec _ _ _ _ Wm E) as (_ & _ & ->). }
    assert (Hsv : forall k, k ∈ services (erase_index service id (PortData.m_connectionMap d)) <-> k ∈ s_services s)
      by (intros k; by rewrite Hs', S3).
    destruct q as [j|]; cbn [obind]; [|eexists; split; [done|by constructor]].
    pose proof S1 as (W & _). destruct (modify_spec publisher_cells
      (fun p => set_connectionMap (StdMap.erase Z.ltb (Z.of_nat i) (pub_connectionMap p)) p) (PortData.m_publisherContainer d) j W Hq)
      as (c1 & -> & W1 & K1 & E1). cbn [obind]. eexists. split; [done|]. constructor; simpl; [|done|done|done].
    rewrite <- (list_fmap_id (s_publishers s)). apply (tracked_change publisher_cells pub_key pub_view _ _ _ _ _ S1 W1 E1); [done|].
    intros x k y _ Hk [n ->]. rewrite K1. destruct (decide (k = j)) as [->|].
    + rewrite list_lookup_alter_eq, Hk. eexists. split; [done|]. by exists n.
    + rewrite list_lookup_alter_ne by done. eexists. split; [done|]. by exists n.
Qed.

Lemma next_state_view message p v : con_view p v -> con_view (advance b message p) (PortData.next_state b message v).
Proof. intros (q & -> & Hq). by exists q. Qed.

Lemma report_refines message d s : sim d s ->
  exists d', PortData.updateConnectionState b message d = Done ((spec_step b (Report message) s).1, d') /\
    sim d' (spec_step b (Report message) s).2.
Proof.
  intros [S1 S2 S3 S4]. unfold PortData.updateConnectionState. simpl spec_step.
  destruct (StdMap.find ServiceDescription.ltb (CaproMessage.m_serviceDescription message) (PortData.m_connectionMap d)) as [inner|] eqn:E.
  - destruct (tracked_modify_all connection_cells sub_key con_view _ _ _ _ inner (PortData.next_state b message) (advance b message) S2 E)
      as (c' & -> & T); [done|intros; by apply next_state_view|]. cbn [obind].
    rewrite decide_True; [eexists; split; [done|by constructor]|]. apply S3.
    apply (std_find_split _ key service_equiv) in E as (m1 & k' & m2 & -> & Hk & _). rewrite <- Hk. unfold services. rewrite fmap_app.
    apply elem_of_app. right. left.
  - rewrite decide_False; [by exists d|]. rewrite <- S3. by apply (std_find_None _ key service_equiv) in E.
Qed.

Lemma reportFor_refines message id d s : sim d s ->
  exists d', PortData.updateSubscriberConnectionState b message id d = Done ((spec_step b (ReportFor message id) s).1, d') /\
    sim d' (spec_step b (ReportFor message id) s).2.
Proof.
  intros [S1 S2 S3 S4].
  assert (Ef : PortData.updateSubscriberConnectionState b message id d =
    match find_index (CaproMessage.m_serviceDescription message) id (PortData.m_connectionMap d) with
    | None => Done (false, d)
    | Some index =>
        let* c := FixedSizeContainer.modify (PortData.next_state b message) index (PortData.m_connectionContainer d) in
        Done (true, PortData.setNew true (PortData.set_connections (PortData.m_connectionMap d) c d))
    end).
  { unfold PortData.updateSubscriberConnectionState, find_index. by destruct (StdMap.find ServiceDescription.ltb _ _). }
  rewrite Ef. simpl spec_step. destruct (find_cases _ _ _ _ _ _ (CaproMessage.m_serviceDescription message) id S2) as [[E H]|(i & p & v & E & H & Hi & _)]; rewrite E.
  - rewrite decide_False by done. by exists d.
  - rewrite decide_True by done.
    destruct (tracked_modify_one connection_cells sub_key con_view _ _ _ _ _ i (PortData.next_state b message) (advance b message) S2 E)
      as (c' & -> & T); [done|intros; by apply next_state_view|]. cbn [obind]. eexists. split; [done|by constructor].
Qed.

(** *** Samples *)

(** The cells that the maps list, in their order, are those of the tracked ports. *)
Lemma tracked_listing {T P X} capacity keyof (view : P -> T -> Prop) m c ps (h : P -> X) : tracked capacity keyof view m c ps ->
  exists xs, xs ≡ₚ h <$> ps /\
    Forall2 (fun i x => exists p v, p ∈ ps /\ contents c !! i = Some (Some v) /\ view p v /\ x = h p) (PortData.entries m) xs.
Proof.
  intros (_ & _ & _ & _ & cells & -> & _ & Hf & Hv). rewrite entries_flat.
  assert (H : Forall2 (fun i x => exists p v, p ∈ cells.*1 /\ contents c !! i = Some (Some v) /\ view p v /\ x = h p)
    cells.*2 ((h ∘ fst) <$> cells)).
  { apply Forall2_fmap_l, Forall2_fmap_r, Forall2_same_length_lookup. split; [done|]. intros i a a' Ha Ha'. rewrite Ha in Ha'. injection Ha' as <-.
    rewrite Forall_forall in Hv. destruct (Hv a) as (v & H1 & H2); [by eapply list_elem_of_lookup_2|]. exists a.1, v. split; [|done].
    apply (list_elem_of_fmap_2 fst). by eapply list_elem_of_lookup_2. }
  assert (Hp2 : cells.*2 ≡ₚ (flat m).*2) by (rewrite Hf, <- list_fmap_compose; done).
  destruct (Permutation_Forall2 Hp2 H) as (xs & H1 & H2). exists xs. split; [|done]. rewrite <- H1, <- list_fmap_compose. done.
Qed.

Lemma emplace_back_room {A} n (l : list A) x : Z.of_nat (length l) < n -> emplace_back n l x = l ++ [x].
Proof. intros H. unfold emplace_back. by rewrite (proj2 (Z.ltb_lt _ _)). Qed.

Section samples.
Context (publishers : nat -> option PubSubPorts.PublisherPortData.t) (subscribers : nat -> option PubSubPorts.SubscriberPortData.t).

Definition live (p : nat * BasePortData.t) : Prop :=
  exists x, publishers p.1 = Some x /\ BasePortData.m_uniqueId (PubSubPorts.PublisherPortData.base x) = BasePortData.m_uniqueId p.2.

Lemma list_publishers_spec l xs : forall n topic c, wf publisher_cells c ->
  Forall2 (fun i x => exists p v, live p /\ contents c !! i = Some (Some v) /\ pub_view p v /\ x = publisher_entry p) l xs ->
  Z.of_nat (length topic) + Z.of_nat (length l) <= MAX_PUBLISHERS b ->
  exists c', PortData.list_publishers b publishers l n topic c = Done (topic ++ xs, c') /\ wf publisher_cells c' /\
    FixedSizeContainer.m_size c' = FixedSizeContainer.m_size c /\
    forall j p v, contents c !! j = Some (Some v) -> pub_view p v -> exists v', contents c' !! j = Some (Some v') /\ pub_view p v'.
Proof.
  revert xs. induction l as [|i l IH]; intros xs n topic c W H Hlen.
  - inversion H. subst. exists c. simpl. rewrite app_nil_r. split; [done|split; [done|split; [done|eauto]]].
  - inversion H as [|? x ? xs' (p & v & (y & Hy & Hid) & Hi & (k & ->) & ->) H']. subst. simpl.
    rewrite (container_at_spec _ _ _ Hi). cbn [obind]. unfold PortData.deref. simpl. rewrite Hy. cbn [obind].
    destruct (modify_spec publisher_cells (set_index n) c i W) as (c1 & -> & W1 & C1 & E1); [by eapply contents_lt|]. cbn [obind].
    assert (Hkeep : forall j p v, contents c !! j = Some (Some v) -> pub_view p v -> exists v', contents c1 !! j = Some (Some v') /\ pub_view p v').
    { intros j p' v Hj Hv. rewrite C1. destruct (decide (j = i)) as [->|]; [|by exists v; rewrite list_lookup_alter_ne].
      rewrite list_lookup_alter_eq, Hj. eexists. split; [done|]. destruct Hv as [k' ->]. by exists n. }
    rewrite emplace_back_room by (simpl in Hlen; lia).
    destruct (IH xs' (n + 1) (topic ++ [PortData.publisherData (set_index k (PublisherInfo_ctor p.1 p.2)) y]) c1 W1) as (c2 & -> & W2 & E2 & H2).
    + eapply Forall2_impl; [exact H'|]. intros j x (p' & v & Hl & Hj & Hv & ->). destruct (Hkeep j p' v Hj Hv) as (v' & ? & ?). by exists p', v'.
    + rewrite length_app. simpl in *. lia.
    + exists c2. split; [|split; [done|split; [congruence|]]].
      * rewrite <- app_assoc. unfold PortData.publisherData, publisher_entry, common_data. simpl. by rewrite Hid.
      * intros j p' v Hj Hv. destruct (Hkeep j p' v Hj Hv) as (v' & Hj' & Hv'). by apply (H2 j p' v').
Qed.

Lemma list_subscribers_spec c l xs : forall topic,
  Forall2 (fun i x => exists p v, contents c !! i = Some (Some v) /\ con_view p v /\ x = common_data p.1.2) l xs ->
  Z.of_nat (length topic) + Z.of_nat (length l) <= MAX_SUBSCRIBERS b -> PortData.list_subscribers b l topic c = Done (topic ++ xs).
Proof.
  revert xs. induction l as [|i l IH]; intros xs topic H Hlen; inversion H as [|? x ? xs' (p & v & Hi & (q & -> & _) & ->) H']; subst; simpl.
  - by rewrite app_nil_r.
  - rewrite (container_at_spec _ _ _ Hi). cbn [obind]. rewrite emplace_back_room by (simpl in Hlen; lia).
    rewrite (IH xs' _ H') by (rewrite length_app; simpl in *; lia). by rewrite <- app_assoc.
Qed.

Lemma list_changing_spec c l xs : forall topic,
  Forall2 (fun i x => exists p v, is_Some (subscribers p.1.1) /\ contents c !! i = Some (Some v) /\ con_view p v /\
    x = changing_entry subscribers p) l xs ->
  Z.of_nat (length topic) + Z.of_nat (length l) <= MAX_SUBSCRIBERS b -> PortData.list_changing b subscribers l topic c = Done (topic ++ xs).
Proof.
  revert xs. induction l as [|i l IH]; intros xs topic H Hlen; inversion H as [|? x ? xs' (p & v & [y Hy] & Hi & (q & -> & _) & ->) H']; subst; simpl.
  - by rewrite app_nil_r.
  - rewrite (container_at_spec _ _ _ Hi). cbn [obind]. unfold PortData.changingData, PortData.deref. simpl. rewrite Hy. cbn [obind].
    rewrite emplace_back_room by (simpl in Hlen; lia). rewrite (IH xs' _ H') by (rewrite length_app; simpl in *; lia).
    rewrite <- app_assoc. unfold changing_entry. by rewrite Hy.
Qed.

Lemma prepareTopic_spec d s : sim d s -> Forall live (s_publishers s) ->
  exists topic d', PortData.prepareTopic b publishers d = Done (topic, d') /\ same_topic topic (topic_of s) /\
    sim d' (mkShown (s_publishers s) (s_subscribers s) (s_services s) false (s_sent s) (s_changing s)).
Proof.
  intros [S1 S2 S3 S4] Hlive. unfold PortData.prepareTopic.
  destruct (tracked_listing _ _ _ _ _ _ publisher_entry S1) as (ps & P1 & L1).
  destruct (tracked_listing _ _ _ _ _ _ (fun p => common_data p.1.2) S2) as (ss & P2 & L2).
  pose proof (tracked_size _ _ _ _ _ _ S1) as Z1. pose proof (tracked_size _ _ _ _ _ _ S2) as Z2. pose proof S1 as (W & _).
  pose proof (Permutation_length P1) as Q1. pose proof (Permutation_length P2) as Q2. rewrite (length_fmap (A := _)) in Q1. rewrite (length_fmap (A := _)) in Q2.
  pose proof (Forall2_length _ _ _ L1) as R1. pose proof (Forall2_length _ _ _ L2) as R2.
  destruct (list_publishers_spec (PortData.entries (PortData.m_publisherMap d)) ps 0 [] (PortData.m_publisherContainer d) W) as (c' & -> & W' & E' & H').
  { eapply Forall2_impl; [exact L1|]. intros i x (p & v & Hin & Hi & Hv & ->). rewrite Forall_forall in Hlive. exists p, v. eauto. }
  { simpl. lia. }
  cbn [obind]. rewrite (list_subscribers_spec (PortData.m_connectionContainer d) (PortData.entries (PortData.m_connectionMap d)) ss []).
  - cbn [obind]. eexists _, _. split; [done|]. split; [by constructor|]. constructor; simpl; [|done|done|done].
    rewrite <- (list_fmap_id (s_publishers s)). apply (tracked_change publisher_cells pub_key pub_view _ _ _ _ _ S1 W' E'); [done|].
    intros p i v _. apply H'.
  - eapply Forall2_impl; [exact L2|]. intros i x (p & v & _ & Hi & Hv & ->). by exists p, v.
  - simpl. lia.
Qed.

Lemma prepareChangingTopic_spec d s : sim d s -> Forall (fun p => is_Some (subscribers p.1.1)) (s_subscribers s) ->
  exists topic, PortData.prepareChangingTopic b subscribers d = Done topic /\ topic ≡ₚ changing_entry subscribers <$> s_subscribers s.
Proof.
  intros [S1 S2 S3 S4] Hlive. destruct (tracked_listing _ _ _ _ _ _ (changing_entry subscribers) S2) as (xs & P1 & L1).
  pose proof (tracked_size _ _ _ _ _ _ S2) as Z1. pose proof (Permutation_length P1) as Q1. rewrite length_fmap in Q1.
  pose proof (Forall2_length _ _ _ L1) as R1. exists xs. split; [|done].
  unfold PortData.prepareChangingTopic. apply (list_changing_spec _ _ xs []); [|simpl; lia].
  eapply Forall2_impl; [exact L1|]. intros i x (p & v & Hin & Hi & Hv & ->). rewrite Forall_forall in Hlive. exists p, v. eauto.
Qed.
End samples.

(** *** The introspection *)

Record sim_introspection (p : PortIntrospection.t) s : Prop := {
  si_data : sim (PortIntrospection.m_portData p) s;
  si_ports : is_Some (PortIntrospection.m_publisherPort p) /\ is_Some (PortIntrospection.m_publisherPortThroughput p) /\
    is_Some (PortIntrospection.m_publisherPortSubscriberPortsData p);
  si_sent : Forall2 same_topic (PortIntrospection.sent p) (s_sent s);
  si_changing : Forall2 Permutation (PortIntrospection.sent_changing p) (s_changing s) }.

Lemma on_portData_refines o f p s : sim_introspection p s -> s_sent (spec_step b o s).2 = s_sent s ->
  s_changing (spec_step b o s).2 = s_changing s ->
  (sim (PortIntrospection.m_portData p) s ->
    exists d', f (PortIntrospection.m_portData p) = Done ((spec_step b o s).1, d') /\ sim d' (spec_step b o s).2) ->
  exists p', PortIntrospection.on_portData f p = Done ((spec_step b o s).1, p') /\ sim_introspection p' (spec_step b o s).2.
Proof.
  intros [D P S1 S2] E1 E2 H. destruct (H D) as (d' & E & D'). unfold PortIntrospection.on_portData. rewrite E. cbn [obind].
  eexists. split; [done|]. constructor; simpl; [done|done|by rewrite E1|by rewrite E2].
Qed.

Lemma sent_unchanged o s : match o with Send _ _ _ _ _ => False | _ => True end ->
  s_sent (spec_step b o s).2 = s_sent s /\ s_changing (spec_step b o s).2 = s_changing s.
Proof. destruct o; simpl; try done; intros _; by repeat (case_decide || case_zb). Qed.

Lemma sim_same_data d s l1 l2 : sim d s -> sim d (mkShown (s_publishers s) (s_subscribers s) (s_services s) (s_new s) l1 l2).
Proof. intros [S1 S2 S3 S4]. by constructor. Qed.

Lemma send_refines a1 a2 a3 publishers subscribers p s : sim_introspection p s -> op_ok (Send a1 a2 a3 publishers subscribers) s ->
  exists p', PortIntrospection.send b publishers subscribers a1 a2 a3 p = Done p' /\
    sim_introspection p' (spec_step b (Send a1 a2 a3 publishers subscribers) s).2.
Proof.
  intros [D (P1 & P2 & P3) S1 S2] [L1 L2]. unfold PortIntrospection.send.
  assert (Hfirst : exists p1, (if PortData.isNew (PortIntrospection.m_portData p) then PortIntrospection.sendPortData b publishers a1 p else Done p) = Done p1 /\
    PortIntrospection.m_publisherPort p1 = PortIntrospection.m_publisherPort p /\
    PortIntrospection.m_publisherPortThroughput p1 = PortIntrospection.m_publisherPortThroughput p /\
    PortIntrospection.m_publisherPortSubscriberPortsData p1 = PortIntrospection.m_publisherPortSubscriberPortsData p /\
    PortIntrospection.sent_changing p1 = PortIntrospection.sent_changing p /\
    Forall2 same_topic (PortIntrospection.sent p1) (s_sent s ++ (if s_new s && a1 then [topic_of s] else [])) /\
    sim (PortIntrospection.m_portData p1) (mkShown (s_publishers s) (s_subscribers s) (s_services s) (s_new s && negb a1) (s_sent s) (s_changing s))).
  { unfold PortData.isNew. rewrite (sim_new _ _ D). pose proof (sim_same_data _ _ (s_sent s) (s_changing s) D) as D1.
    destruct (s_new s) eqn:En; simpl; [|exists p; by rewrite app_nil_r]. unfold PortIntrospection.sendPortData.
    rewrite expects_true by (by apply bool_decide_eq_true). destruct a1; simpl; [|exists p; by rewrite app_nil_r].
    destruct (prepareTopic_spec publishers _ _ D L1) as (topic & d' & -> & Ht & D'). cbn [obind]. eexists. split; [done|].
    simpl. split; [done|split; [done|split; [done|split; [done|split; [|done]]]]]. apply Forall2_app; [done|]. by constructor. }
  destruct Hfirst as (p1 & -> & E1 & E2 & E3 & E4 & F & D1). cbn [obind]. unfold PortIntrospection.sendThroughputData, PortIntrospection.sendSubscriberPortsData.
  rewrite expects_true by (apply bool_decide_eq_true; by rewrite E2). cbn [obind].
  assert (Hrest : forall p2, PortIntrospection.m_publisherPort p2 = PortIntrospection.m_publisherPort p1 ->
    PortIntrospection.m_publisherPortThroughput p2 = PortIntrospection.m_publisherPortThroughput p1 ->
    PortIntrospection.m_publisherPortSubscriberPortsData p2 = PortIntrospection.m_publisherPortSubscriberPortsData p1 ->
    PortIntrospection.sent p2 = PortIntrospection.sent p1 -> PortIntrospection.sent_changing p2 = PortIntrospection.sent_changing p1 ->
    PortIntrospection.m_portData p2 = PortIntrospection.m_portData p1 ->
    exists p', PortIntrospection.sendSubscriberPortsData b subscribers a3 p2 = Done p' /\
      sim_introspection p' (spec_step b (Send a1 a2 a3 publishers subscribers) s).2).
  { intros p2 F1 F2 F3 F4 F5 F6. unfold PortIntrospection.sendSubscriberPortsData. rewrite expects_true by (apply bool_decide_eq_true; by rewrite F3, E3).
    rewrite F6. destruct a3; simpl.
    - destruct (prepareChangingTopic_spec subscribers _ _ D1 L2) as (topic & -> & Ht). cbn [obind]. eexists. split; [done|].
      constructor; simpl; [rewrite F6; exact (sim_same_data _ _ _ _ D1)|by rewrite F1, F2, F3, E1, E2, E3|by rewrite F4|].
      rewrite F5, E4. apply Forall2_app; [done|]. by constructor.
    - eexists. split; [done|]. rewrite app_nil_r.
      constructor; simpl; [rewrite F6; exact (sim_same_data _ _ _ _ D1)|by rewrite F1, F2, F3, E1, E2, E3|by rewrite F4|by rewrite F5, E4]. }
  destruct a2; cbn [obind]; by apply Hrest.
Qed.

Lemma step_refines o p s : sim_introspection p s -> op_ok o s ->
  exists p', step b o p = Done ((spec_step b o s).1, p') /\ sim_introspection p' (spec_step b o s).2.
Proof.
  intros S H.
  destruct o; try match goal with
    | |- exists p', step b ?o p = _ /\ _ =>
        destruct (sent_unchanged o s I) as [E1 E2]; apply (on_portData_refines o _ p s S E1 E2); intros D
    end.
  - by apply addPublisher_refines.
  - by apply addSubscriber_refines.
  - by apply removePublisher_refines.
  - by apply removeSubscriber_refines.
  - by apply report_refines.
  - by apply reportFor_refines.
  - destruct (send_refines _ _ _ _ _ _ _ S H) as (p' & E & S'). exists p'. simpl step. rewrite E. done.
Qed.

Lemma introspection_run_refines os : forall p s, sim_introspection p s -> ops_ok b os s ->
  exists p', run b os p = Done ((spec_run b os s).1, p') /\ sim_introspection p' (spec_run b os s).2.
Proof.
  induction os as [|o os IH]; intros p s S H; [by exists p|]. destruct H as [H1 H2]. simpl.
  destruct (step_refines o p s S H1) as (p1 & -> & S1). cbn [obind]. destruct (spec_step b o s) as [r s1]. simpl in *.
  destruct (IH p1 s1 S1 H2) as (p2 & -> & S2). cbn [obind]. destruct (spec_run b os s1) as [rs s2]. by exists p2.
Qed.

Lemma sim_started : sim_introspection (started b) empty_shown.
Proof. constructor; simpl; [apply sim_ctor|by repeat split; eexists|constructor|constructor]. Qed.
End refinement.

(** C39: The port introspection shows exactly the ports that RouDi has told it about.
    Whatever ports are added and removed and messages reported, all calls return with
    the specified results, up to the capacities of the build; every sample lists each
    tracked publisher and subscriber once with its name, node, service and id, and
    the state of each subscription, and port samples are sent exactly when something
    was marked as new and a chunk is available. *)
Theorem introspection_tracks_ports (b : Build) (os : list Op) :
  0 < MAX_PUBLISHERS b < 2 ^ 32 -> 0 < MAX_SUBSCRIBERS b < 2 ^ 32 -> ops_ok b os empty_shown ->
  exists p, run b os (started b) = Done ((spec_run b os empty_shown).1, p) /\
    Forall2 same_topic (PortIntrospection.sent p) (s_sent (spec_run b os empty_shown).2) /\
    Forall2 Permutation (PortIntrospection.sent_changing p) (s_changing (spec_run b os empty_shown).2) /\
    PortData.m_newData (PortIntrospection.m_portData p) = s_new (spec_run b os empty_shown).2.
Proof.
  intros H1 H2 H. destruct (introspection_run_refines b H1 H2 os _ _ (sim_started b H1 H2) H) as (p & E & [D _ S1 S2]).
  exists p. split; [done|split; [done|split; [done|]]]. apply (sim_new _ _ _ D).
Qed.

(** The connections stay as they are when a publisher is removed: no publisher knows
    its connections. *)
Theorem removePublisher_disconnects_nobody b d s service id r d' :
  0 < MAX_PUBLISHERS b < 2 ^ 32 -> 0 < MAX_SUBSCRIBERS b < 2 ^ 32 -> sim b d s ->
  PortData.removePublisher service id d = Done (r, d') -> PortData.m_connectionContainer d' = PortData.m_connectionContainer d.
Proof.
  intros H1 H2 [S1 _ _ _]. unfold PortData.removePublisher.
  destruct (find_cases _ _ _ _ _ _ service id S1) as [[E H]|(i & p & v & E & H & Hi & n & ->)]; rewrite E; [by intros [= _ <-]|].
  rewrite (container_at_spec _ _ _ Hi). cbn [obind set_index PublisherInfo_ctor pub_connectionMap PortData.modify_all].
  intros (c & _ & [= _ <-])%obind_Done_inv. done.
Qed.

(** ** Processes and pools *)

Module ProcessOps.
Inductive t := AddProcess (pid : Z) (name : string) | RemoveProcess (pid : Z) | AddNode (runtime node : string)
  | RemoveNode (runtime node : string) | Send (allocated : bool).
End ProcessOps.

Definition process_step (o : ProcessOps.t) (p : ProcessIntrospection.t) : outcome ProcessIntrospection.t :=
  match o with
  | ProcessOps.AddProcess pid name => Done (ProcessIntrospection.addProcess pid name p)
  | ProcessOps.RemoveProcess pid => Done (ProcessIntrospection.removeProcess pid p)
  | ProcessOps.AddNode r n => Done (ProcessIntrospection.addNode r n p)
  | ProcessOps.RemoveNode r n => Done (ProcessIntrospection.removeNode r n p)
  | ProcessOps.Send a => ProcessIntrospection.send a p
  end.
Fixpoint process_run (os : list ProcessOps.t) (p : ProcessIntrospection.t) : outcome ProcessIntrospection.t :=
  match os with [] => Done p | o :: os => let* p := process_step o p in process_run os p end.

Lemma emplace_back_length {A} n (l : list A) x : 0 <= n -> Z.of_nat (length l) <= n -> Z.of_nat (length (emplace_back n l x)) <= n.
Proof. intros H0 H. unfold emplace_back. case_zb; [rewrite length_app; simpl; lia|done]. Qed.

Lemma emplace_all {A} n (l k : list A) : Z.of_nat (length k) + Z.of_nat (length l) <= n -> foldl (emplace_back n) k l = k ++ l.
Proof.
  revert k. induction l as [|x l IH]; intros k H; simpl in *; [by rewrite app_nil_r|].
  rewrite emplace_back_room by lia. rewrite IH by (rewrite length_app; simpl; lia). by rewrite <- app_assoc.
Qed.

(** The published list is the current one unless something is marked as new. *)
Record process_current (p : ProcessIntrospection.t) : Prop := {
  pc_port : is_Some (ProcessIntrospection.m_publisherPort p);
  pc_length : Z.of_nat (length (ProcessIntrospection.m_processList p)) <= MAX_PROCESS_NUMBER;
  pc_sent : ProcessIntrospection.m_processListNewData p = false ->
    last (ProcessIntrospection.sent p) = Some (ProcessIntrospection.m_processList p) }.

Lemma erase_pid_length pid l : (length (ProcessIntrospection.erase_pid pid l) <= length l)%nat.
Proof. induction l as [|x l IH]; simpl; [done|]. case_zb; simpl; lia. Qed.

Lemma process_step_current o p : process_current p -> exists p', process_step o p = Done p' /\ process_current p'.
Proof.
  intros [P L S]. destruct o as [pid name|pid|r n|r n|a]; simpl; try (eexists; split; [done|constructor; simpl; [done| |done]]).
  - by apply emplace_back_length.
  - pose proof (erase_pid_length pid (ProcessIntrospection.m_processList p)). lia.
  - by rewrite length_fmap.
  - by rewrite length_fmap.
  - unfold ProcessIntrospection.send. destruct (ProcessIntrospection.m_processListNewData p) eqn:E; [|exists p; split; [done|constructor; [done|done|intros _; by apply S]]].
    rewrite expects_true by (by apply bool_decide_eq_true). destruct a; [|exists p; split; [done|constructor; [done|done|congruence]]].
    eexists. split; [done|]. constructor; simpl; [done|done|]. intros _. rewrite emplace_all by (simpl; lia). by rewrite last_snoc.
Qed.

(** In every state the last sample shows the current processes and nodes, unless
    something is marked as new; at most as many as the list can hold are shown. *)
Theorem process_introspection_current os :
  exists p, process_run os (ProcessIntrospection.registerPublisherPort ProcessIntrospection.ctor) = Done p /\ process_current p.
Proof.
  assert (H : process_current (ProcessIntrospection.registerPublisherPort ProcessIntrospection.ctor))
    by (constructor; simpl; [by eexists|by vm_compute|done]).
  revert H. generalize (ProcessIntrospection.registerPublisherPort ProcessIntrospection.ctor).
  induction os as [|o os IH]; intros p H; [by exists p|]. destruct (process_step_current o p H) as (p1 & E & H1). simpl. rewrite E. by apply IH.
Qed.

Section mempools.
Context (db : UserDatabase) (group : PosixGroup.t) (own : MemoryManager.t) (segments : SegmentManager.t).

(** What a sample says about a segment. *)
Definition segment_entry (id : Z) (reader writer : PosixGroup.t) (m : MemoryManager.t) : MemPoolIntrospectionInfo :=
  MemPoolIntrospection.prepareIntrospectionSample db reader writer id
    ((MemPoolIntrospection.copied ∘ MemPool.getInfo) <$> MemoryManager.m_memPoolVector m).

Lemma copyMemPoolInfo_spec m : Z.of_nat (length (MemoryManager.m_memPoolVector m)) < 2 ^ 32 ->
  MemPoolIntrospection.copyMemPoolInfo m = (MemPoolIntrospection.copied ∘ MemPool.getInfo) <$> MemoryManager.m_memPoolVector m.
Proof.
  intros H. unfold MemPoolIntrospection.copyMemPoolInfo, MemoryManager.getNumberOfMemPools. rewrite u32_small, Nat2Z.id by lia.
  apply list_eq. intros i. rewrite !list_lookup_fmap. destruct (MemoryManager.m_memPoolVector m !! i) as [x|] eqn:E.
  - rewrite lookup_seq_lt by (by eapply lookup_lt_Some). simpl. unfold MemoryManager.getMemPoolInfo. by rewrite Nat2Z.id, E.
  - rewrite lookup_seq_ge by (by apply lookup_ge_None). done.
Qed.

Definition few_pools (m : MemoryManager.t) : Prop := Z.of_nat (length (MemoryManager.m_memPoolVector m)) < 2 ^ 32.

Lemma add_segments_spec l : forall id sample, Forall (fun x => few_pools (MePooSegment.m_memoryManager x)) l ->
  0 <= id -> id + Z.of_nat (length l) < 2 ^ 32 ->
  Z.of_nat (length sample) + Z.of_nat (length l) <= MemPoolIntrospection.CAPACITY ->
  MemPoolIntrospection.add_segments db l id sample =
    (sample ++ imap (fun i x => segment_entry (id + Z.of_nat i) (MePooSegment.m_readerGroup x) (MePooSegment.m_writerGroup x)
                        (MePooSegment.m_memoryManager x)) l, true).
Proof.
  induction l as [|x l IH]; intros id sample Hl Hid Hid' Hlen; simpl; [by rewrite app_nil_r|]. apply Forall_cons in Hl as [Hx Hl].
  simpl in *. rewrite (proj2 (Z.ltb_lt _ _)) by lia. rewrite u32_small by lia.
  rewrite IH by (try done; rewrite ?length_app; simpl; lia). rewrite <- app_assoc. f_equal. f_equal. simpl. f_equal.
  - unfold segment_entry. rewrite copyMemPoolInfo_spec by done. by rewrite Z.add_0_r.
  - apply imap_ext. intros i y _. simpl. f_equal. lia.
Qed.

(** A sample lists RouDi's own segment and all segments for users in their order, with
    the current numbers of each of their pools; if nobody listens none is sent, and
    without a chunk an error is reported. *)
Theorem mempool_sample_complete hasSubscribers allocated p :
  few_pools own -> Forall (fun x => few_pools (MePooSegment.m_memoryManager x)) segments ->
  Z.of_nat (length segments) <= MAX_SHM_SEGMENTS ->
  let p' := MemPoolIntrospection.send db group own segments hasSubscribers allocated p in
  MemPoolIntrospection.sent p' = MemPoolIntrospection.sent p ++
    (if hasSubscribers && allocated then
       [segment_entry 0 group group own ::
        imap (fun i x => segment_entry (1 + Z.of_nat i) (MePooSegment.m_readerGroup x) (MePooSegment.m_writerGroup x)
                           (MePooSegment.m_memoryManager x)) segments] else []) /\
  MemPoolIntrospection.errors p' = MemPoolIntrospection.errors p ++
    (if hasSubscribers && negb allocated then [(MEPOO__CANNOT_ALLOCATE_CHUNK, MODERATE)] else []).
Proof.
  intros Ho Hs Hlen. unfold MemPoolIntrospection.send. destruct hasSubscribers, allocated; simpl; rewrite ?app_nil_r; try done.
  unfold MAX_SHM_SEGMENTS in Hlen. rewrite add_segments_spec; [|done|done|lia|unfold MemPoolIntrospection.CAPACITY, MAX_SHM_SEGMENTS; simpl; lia].
  simpl. rewrite copyMemPoolInfo_spec by done. done.
Qed.
End mempools.

(** ** Runs *)

(** A publisher and a subscriber as RouDi creates them, with the pointer 0. *)
Definition sample_publisher : option PubSubPorts.PublisherPortData.t :=
  match (let* p := sample_pool in
         PubSubPorts.PublisherPortData.ctor sample_build (sample_service Interfaces.INTERNAL) "radar" 0 PublisherOptions.default_ctor
           UniqueIds.start (PortPool.world p)) with
  | Done (x, _, _) => Some x
  | Terminated _ => None
  end.
Definition sample_subscriber : option PubSubPorts.SubscriberPortData.t :=
  match (let* p := sample_pool in
         PubSubPorts.SubscriberPortData.ctor sample_build 0 (sample_service Interfaces.INTERNAL) "fusion"
           SoFi_MultiProducerSingleConsumer sample_subscriber_options UniqueIds.start (PortPool.world p)) with
  | Done (x, _, _) => Some x
  | Terminated _ => None
  end.
Definition sample_base (runtime : string) : BasePortData.t :=
  BasePortData.mk (sample_service Interfaces.INTERNAL) runtime "" 1 false.
Definition sample_message (type : CaproMessageType.t) : CaproMessage.t :=
  CaproMessage.ctor type (sample_service Interfaces.INTERNAL) CaproServiceType.PUBLISHER None.
Definition sample_send : Op := Send true true true (fun _ => sample_publisher) (fun _ => sample_subscriber).
Definition sample_ops : list Op :=
  [AddSubscriber 0 (sample_base "fusion"); AddPublisher 0 (sample_base "radar");
   ReportFor (sample_message CaproMessageType.SUB) 1; sample_send; RemovePublisher (sample_service Interfaces.INTERNAL) 1; sample_send].

Lemma introspection_tracks_ports_witness :
  exists p, run sample_build sample_ops (started sample_build) = Done ((spec_run sample_build sample_ops empty_shown).1, p) /\
    Forall2 same_topic (PortIntrospection.sent p) (s_sent (spec_run sample_build sample_ops empty_shown).2) /\
    Forall2 Permutation (PortIntrospection.sent_changing p) (s_changing (spec_run sample_build sample_ops empty_shown).2) /\
    PortData.m_newData (PortIntrospection.m_portData p) = s_new (spec_run sample_build sample_ops empty_shown).2.
Proof.
  apply (introspection_tracks_ports sample_build sample_ops); [by vm_compute|by vm_compute|].
  assert (H1 : exists x, sample_publisher = Some x /\ BasePortData.m_uniqueId (PubSubPorts.PublisherPortData.base x) = 1).
  { destruct sample_publisher as [x|] eqn:E; [|by vm_compute in E]. exists x. split; [done|]. vm_compute in E. by injection E as <-. }
  assert (H2 : is_Some sample_subscriber) by (destruct sample_subscriber as [x|] eqn:E; [by eexists|by vm_compute in E]).
  unfold sample_ops, sample_send. repeat split; try (simpl; by intros ?%elem_of_nil).
  all: simpl; repeat (apply Forall_cons; split; [done|]); apply Forall_nil; done.
Defined.

(** The connections that look connected. *)
Definition connected_cells (p : PortIntrospection.t) : list bool :=
  isConnected ∘ FixedSizeContainer.value <$>
    filter (fun e => FixedSizeContainer.isValid e = true) (FixedSizeContainer.m_values (PortData.m_connectionContainer (PortIntrospection.m_portData p))).

(** After its publisher was removed a connection still counts as connected. *)
Example removed_publisher_stays_connected :
  exists p, run sample_build [AddSubscriber 0 (sample_base "fusion"); AddPublisher 0 (sample_base "radar");
      ReportFor (sample_message CaproMessageType.SUB) 1; RemovePublisher (sample_service Interfaces.INTERNAL) 1] (started sample_build)
    = Done ([true; true; true; true], p) /\ connected_cells p = [true] /\
    filter (fun e => FixedSizeContainer.isValid e = true)
      (FixedSizeContainer.m_values (PortData.m_publisherContainer (PortIntrospection.m_portData p))) = [].
Proof. eexists. split; [vm_compute; reflexivity|split; vm_compute; reflexivity]. Qed.

(** A subscriber that is added is not in the next port sample: none is sent.  The
    sample of the subscriptions, whose positions refer to it, has an entry more. *)
Example new_subscriber_not_sent :
  exists p, run sample_build [sample_send; AddSubscriber 0 (sample_base "fusion"); sample_send] (started sample_build)
    = Done ([true; true; true], p) /\ PortIntrospection.sent p = [mkPortTopic [] []] /\
    length <$> PortIntrospection.sent_changing p = [0; 1]%nat.
Proof. eexists. split; [vm_compute; reflexivity|split; vm_compute; reflexivity]. Qed.

(** A port that is added again is refused, and keeps one cell more. *)
Example added_twice_leaks :
  exists p, run sample_build [AddPublisher 0 (sample_base "radar"); AddPublisher 0 (sample_base "radar");
      RemovePublisher (sample_service Interfaces.INTERNAL) 1] (started sample_build) = Done ([true; false; true], p) /\
    FixedSizeContainer.m_size (PortData.m_publisherContainer (PortIntrospection.m_portData p)) = 1.
Proof. eexists. split; [vm_compute; reflexivity|vm_compute; reflexivity]. Qed.

(** RouDi itself is one of the processes: with as many applications as RouDi manages
    the last one is missing, also after another one has ended. *)
Definition full_house : list ProcessOps.t :=
  ProcessOps.AddProcess 0 "roudi" :: ((fun n => ProcessOps.AddProcess (Z.of_nat n) "app") <$> seq 1 (Z.to_nat MAX_PROCESS_NUMBER)).

Example last_process_missing :
  exists p, process_run (full_house ++ [ProcessOps.RemoveProcess 1])
      (ProcessIntrospection.registerPublisherPort ProcessIntrospection.ctor) = Done p /\
    bool_decide (MAX_PROCESS_NUMBER ∈ m_pid <$> ProcessIntrospection.m_processList p) = false.
Proof. eexists. split; vm_compute; reflexivity. Qed.
