(* ===== verification/Configuration.v ===== *)
(** * The configuration of RouDi and of gateways

    The command line ([roudi_cmd_line_parser.cpp] and its extension
    [roudi_cmd_line_parser_config_file_option.cpp]), the configuration files
    ([roudi_config_toml_file_provider.cpp], [toml_gateway_config_parser.cpp]) and the
    start of RouDi ([roudi_main.cpp], [roudi_app.cpp], [iceoryx_roudi_app.cpp]).

    [getopt_long] is used on command lines in which each option is a word of its own:
    a command line is the list of its options with their arguments, and an option
    that has no letter or lacks its argument is ['?'].  The TOML parser is an
    argument, a function from paths to the contents of files. *)

From Stdlib Require Import Ascii.
From S2P Require Import Prelude MemPool SharedChunk SegmentManager Duration CaPro Serialization.

(** ** The command line *)

Inductive MonitoringMode := MONITORING_ON | MONITORING_OFF.
Inductive LogLevel := kOff | kFatal | kError | kWarn | kInfo | kDebug | kVerbose.
Inductive CmdLineParserResult := UNKNOWN_OPTION_USED | INFO_OUTPUT_ONLY.
Inductive CmdLineArgumentParsingMode := ALL | ONE.
Notation CompatibilityCheckLevel := VersionInfo.CompatibilityCheckLevel.

Record CmdLineArgs_t := mkArgs {
  monitoringMode : MonitoringMode;
  logLevel : LogLevel;
  compatibilityCheckLevel : CompatibilityCheckLevel;
  processKillDelay : Duration.t;
  uniqueRouDiId : option Z;
  args_run : bool;
  configFilePath : string }.

Definition PROCESS_DEFAULT_KILL_DELAY : Duration.t := Duration.fromSeconds 45.
Definition MAX_PATH : nat := 1024.

(** The letter of an option and its argument. *)
Definition Option_ : Type := ascii * string.

Module CmdLineParser.
Record t := mk {
  m_run : bool;
  m_logLevel : LogLevel;
  m_monitoringMode : MonitoringMode;
  m_compatibilityCheckLevel : CompatibilityCheckLevel;
  m_uniqueRouDiId : option Z;
  m_processKillDelay : Duration.t }.

Definition ctor : t := mk true kWarn MONITORING_ON VersionInfo.PATCH None PROCESS_DEFAULT_KILL_DELAY.

Implicit Types (p : t).

Definition dont_run p : t :=
  mk false (m_logLevel p) (m_monitoringMode p) (m_compatibilityCheckLevel p) (m_uniqueRouDiId p) (m_processKillDelay p).
Definition set_logLevel (v : LogLevel) p : t :=
  mk (m_run p) v (m_monitoringMode p) (m_compatibilityCheckLevel p) (m_uniqueRouDiId p) (m_processKillDelay p).
Definition set_monitoringMode (v : MonitoringMode) p : t :=
  mk (m_run p) (m_logLevel p) v (m_compatibilityCheckLevel p) (m_uniqueRouDiId p) (m_processKillDelay p).
Definition set_compatibility (v : CompatibilityCheckLevel) p : t :=
  mk (m_run p) (m_logLevel p) (m_monitoringMode p) v (m_uniqueRouDiId p) (m_processKillDelay p).
Definition set_uniqueRouDiId (v : Z) p : t :=
  mk (m_run p) (m_logLevel p) (m_monitoringMode p) (m_compatibilityCheckLevel p) (Some v) (m_processKillDelay p).
Definition set_killDelay (v : Duration.t) p : t :=
  mk (m_run p) (m_logLevel p) (m_monitoringMode p) (m_compatibilityCheckLevel p) (m_uniqueRouDiId p) v.

(** The chains of [strcmp]. *)
Definition monitoring_of (optarg : string) : option MonitoringMode :=
  if String.eqb optarg "on" then Some MONITORING_ON
  else if String.eqb optarg "off" then Some MONITORING_OFF
  else None.

Definition logLevel_of (optarg : string) : option LogLevel :=
  if String.eqb optarg "off" then Some kOff
  else if String.eqb optarg "fatal" then Some kFatal
  else if String.eqb optarg "error" then Some kError
  else if String.eqb optarg "warning" then Some kWarn
  else if String.eqb optarg "info" then Some kInfo
  else if String.eqb optarg "debug" then Some kDebug
  else if String.eqb optarg "verbose" then Some kVerbose
  else None.

Definition compatibility_of (optarg : string) : option CompatibilityCheckLevel :=
  if String.eqb optarg "off" then Some VersionInfo.OFF
  else if String.eqb optarg "major" then Some VersionInfo.MAJOR
  else if String.eqb optarg "minor" then Some VersionInfo.MINOR
  else if String.eqb optarg "patch" then Some VersionInfo.PATCH
  else if String.eqb optarg "commitId" then Some VersionInfo.COMMIT_ID
  else if String.eqb optarg "buildDate" then Some VersionInfo.BUILD_DATE
  else None.

(** One option; [None] for one that is not known. *)
Definition parse_option (o : Option_) p : option t :=
  let '(opt, optarg) := o in
  if Ascii.eqb opt "h" then Some (dont_run p)
  else if Ascii.eqb opt "v" then Some (dont_run p)
  else if Ascii.eqb opt "u" then
    match convert.fromString_uint16 optarg with
    | None => Some (set_uniqueRouDiId 0 (dont_run p))
    | Some roudiId => Some (set_uniqueRouDiId roudiId p)
    end
  else if Ascii.eqb opt "m" then
    match monitoring_of optarg with Some v => Some (set_monitoringMode v p) | None => Some (dont_run p) end
  else if Ascii.eqb opt "l" then
    match logLevel_of optarg with Some v => Some (set_logLevel v p) | None => Some (dont_run p) end
  else if Ascii.eqb opt "k" then
    match convert.fromString_uint32 optarg with
    | None => Some (dont_run p)
    | Some seconds => Some (set_killDelay (Duration.fromSeconds seconds) p)
    end
  else if Ascii.eqb opt "x" then
    match compatibility_of optarg with Some v => Some (set_compatibility v p) | None => Some (dont_run p) end
  else None.

Definition args (path : string) p : CmdLineArgs_t :=
  mkArgs (m_monitoringMode p) (m_logLevel p) (m_compatibilityCheckLevel p) (m_processKillDelay p) (m_uniqueRouDiId p) (m_run p) path.

(** The loop over the options: the parser afterwards and the options that are left, or
    the parser with the error. *)
Fixpoint parse_loop (mode : CmdLineArgumentParsingMode) (argv : list Option_) p : expected (t * list Option_) (CmdLineParserResult * t) :=
  match argv with
  | [] => success (p, [])
  | o :: argv =>
      match parse_option o p with
      | None => error (UNKNOWN_OPTION_USED, dont_run p)
      | Some p => match mode with ONE => success (p, argv) | ALL => parse_loop mode argv p end
      end
  end.

Definition parse (mode : CmdLineArgumentParsingMode) (argv : list Option_) p : expected CmdLineArgs_t CmdLineParserResult :=
  match parse_loop mode argv p with
  | success (p, _) => success (args "" p)
  | error (e, _) => error e
  end.
End CmdLineParser.

Module CmdLineParserConfigFileOption.
Record t := mk { base : CmdLineParser.t; m_customConfigFilePath : string }.

Definition ctor : t := mk CmdLineParser.ctor "".

(** [h] is read again with all that follows by the parser of the base class, which does
    not know [c]; other options are read again one by one. *)
Fixpoint parse_loop (mode : CmdLineArgumentParsingMode) (argv : list Option_) (p : t) : expected t CmdLineParserResult :=
  match argv with
  | [] => success p
  | o :: rest =>
      if Ascii.eqb o.1 "h" then
        match CmdLineParser.parse_loop ALL argv (base p) with
        | error (e, _) => error e
        | success (q, _) => success (mk (CmdLineParser.dont_run q) (m_customConfigFilePath p))
        end
      else if Ascii.eqb o.1 "c" then
        let p := mk (base p) (str_take MAX_PATH o.2) in
        match mode with ONE => success p | ALL => parse_loop mode rest p end
      else
        match CmdLineParser.parse_loop ONE argv (base p) with
        | error (e, _) => error e
        | success (q, _) =>
            let p := mk q (m_customConfigFilePath p) in
            match mode with ONE => success p | ALL => parse_loop mode rest p end
        end
  end.

Definition parse (mode : CmdLineArgumentParsingMode) (argv : list Option_) (p : t) : expected CmdLineArgs_t CmdLineParserResult :=
  match parse_loop mode argv p with
  | success p => success (CmdLineParser.args (m_customConfigFilePath p) (base p))
  | error e => error e
  end.
End CmdLineParserConfigFileOption.

(** ** Configuration files *)

(** A number as [get_as<uint32_t>] reads it, which throws for values that do not fit. *)
Inductive Field := Absent | Value (n : Z) | Throws.
Definition get_as (f : Field) : outcome (option Z) :=
  match f with Absent => Done None | Value n => Done (Some n) | Throws => Terminated UNCAUGHT_EXCEPTION end.

Record TomlMempool := mkTomlMempool { t_size : Field; t_count : Field }.
Record TomlSegment := mkTomlSegment { t_writer : option string; t_reader : option string; t_mempools : option (list TomlMempool) }.
Record TomlService := mkTomlService { t_service : option string; t_instance : option string; t_event : option string }.
Record TomlFile := mkTomlFile {
  t_general : option Field; (* with the version *)
  t_segments : option (list TomlSegment);
  t_services : option (list TomlService) }.

Inductive RouDiConfigFileParseError :=
  | NO_GENERAL_SECTION
  | INVALID_CONFIG_FILE_VERSION
  | NO_SEGMENTS
  | MAX_NUMBER_OF_SEGMENTS_EXCEEDED
  | SEGMENT_WITHOUT_MEMPOOL
  | MAX_NUMBER_OF_MEMPOOLS_PER_SEGMENT_EXCEEDED
  | MEMPOOL_WITHOUT_CHUNK_SIZE
  | MEMPOOL_WITHOUT_CHUNK_COUNT
  | ROUDI_EXCEPTION_IN_PARSER.

Definition defaultConfigFilePath : string := "/etc/iceoryx/roudi_config.toml".

(** [PosixGroup::string_t] *)
Definition MAX_GROUP_STRING : nat := 100.

Module TomlRouDiConfigFileProvider.
Section provider.
(** Whether a file can be opened and what the parser makes of it, [None] for an
    exception; the name of the group of the process. *)
Context (isOpen : string -> bool) (parse_file : string -> option TomlFile) (groupOfCurrentProcess : string).

(** The constructor: the path of the configuration file. *)
Definition ctor (cmdLineArgs : CmdLineArgs_t) : string :=
  if args_run cmdLineArgs then
    let m_customConfigFilePath :=
      if String.eqb (configFilePath cmdLineArgs) "" then
        if isOpen defaultConfigFilePath then defaultConfigFilePath else EmptyString
      else EmptyString in
    let m_customConfigFilePath := configFilePath cmdLineArgs in
    m_customConfigFilePath
  else EmptyString.

Fixpoint parse_mempools (l : list TomlMempool) (mempoolConfig : MePooConfig.t)
    : outcome (expected MePooConfig.t RouDiConfigFileParseError) :=
  match l with
  | [] => Done (success mempoolConfig)
  | mempool :: l =>
      let* chunkSize := get_as (t_size mempool) in
      let* chunkCount := get_as (t_count mempool) in
      match chunkSize with
      | None => Done (error MEMPOOL_WITHOUT_CHUNK_SIZE)
      | Some chunkSize =>
          match chunkCount with
          | None => Done (error MEMPOOL_WITHOUT_CHUNK_COUNT)
          | Some chunkCount =>
              let* mempoolConfig := MePooConfig.addMemPool mempoolConfig (MePooConfig.mkEntry chunkSize chunkCount) in
              parse_mempools l mempoolConfig
          end
      end
  end.

Fixpoint parse_segments (l : list TomlSegment) (parsedConfig : SegmentConfig.t)
    : outcome (expected SegmentConfig.t RouDiConfigFileParseError) :=
  match l with
  | [] => Done (success parsedConfig)
  | segment :: l =>
      let writer := default groupOfCurrentProcess (t_writer segment) in
      let reader := default groupOfCurrentProcess (t_reader segment) in
      match t_mempools segment with
      | None => Done (error SEGMENT_WITHOUT_MEMPOOL)
      | Some mempools =>
          if bool_decide (MePooConfig.MAX_NUMBER_OF_MEMPOOLS < length mempools)%nat
          then Done (error MAX_NUMBER_OF_MEMPOOLS_PER_SEGMENT_EXCEEDED)
          else
            let* r := parse_mempools mempools [] in
            match r with
            | error e => Done (error e)
            | success mempoolConfig =>
                parse_segments l
                  (SegmentConfig.push_back parsedConfig
                     (SegmentConfig.mkEntry (str_take MAX_GROUP_STRING reader) (str_take MAX_GROUP_STRING writer) mempoolConfig MemoryInfo_default))
            end
      end
  end.

Definition parse (m_customConfigFilePath : string) : outcome (expected SegmentConfig.t RouDiConfigFileParseError) :=
  if String.eqb m_customConfigFilePath "" then Done (success (SegmentConfig.setDefaults groupOfCurrentProcess []))
  else
    match parse_file m_customConfigFilePath with
    | None => Done (error ROUDI_EXCEPTION_IN_PARSER)
    | Some parsedFile =>
        match t_general parsedFile with
        | None => Done (error NO_GENERAL_SECTION)
        | Some version =>
            let* configFileVersion := get_as version in
            if bool_decide (configFileVersion = Some 1) then
              match t_segments parsedFile with
              | None => Done (error NO_SEGMENTS)
              | Some segments =>
                  if MAX_SHM_SEGMENTS <? Z.of_nat (length segments) then Done (error MAX_NUMBER_OF_SEGMENTS_EXCEEDED)
                  else parse_segments segments []
              end
            else Done (error INVALID_CONFIG_FILE_VERSION)
        end
    end.
End provider.
End TomlRouDiConfigFileProvider.

(** ** Gateways *)

Inductive TomlGatewayConfigParseError :=
  | FILE_NOT_FOUND
  | INCOMPLETE_CONFIGURATION
  | INCOMPLETE_SERVICE_DESCRIPTION
  | INVALID_SERVICE_DESCRIPTION
  | EXCEPTION_IN_PARSER
  | MAXIMUM_NUMBER_OF_ENTRIES_EXCEEDED.

Module TomlGatewayConfigParser.
Section parser.
Context (MAX_GATEWAY_SERVICES : Z).
Context (isOpen : string -> bool) (parse_file : string -> option TomlFile).

(** The classes of [^[a-zA-Z_][a-zA-Z0-9_]*$]. *)
Definition is_letter (c : ascii) : bool :=
  let n := convert.code c in ((97 <=? n) && (n <=? 122)) || ((65 <=? n) && (n <=? 90)) || (n =? 95).
Fixpoint all_chars (f : ascii -> bool) (s : string) : bool :=
  match s with EmptyString => true | String c s => f c && all_chars f s end.

Definition hasInvalidCharacter (s : string) : bool :=
  negb (match s with
        | EmptyString => false
        | String c s => is_letter c && all_chars (fun c => is_letter c || convert.is_digit c) s
        end).

Fixpoint validate_services (l : list TomlService) : expected () TomlGatewayConfigParseError :=
  match l with
  | [] => success ()
  | service :: l =>
      match t_service service, t_instance service, t_event service with
      | Some serviceName, Some instance, Some event =>
          if hasInvalidCharacter serviceName || hasInvalidCharacter instance || hasInvalidCharacter event
          then error INVALID_SERVICE_DESCRIPTION
          else validate_services l
      | _, _, _ => error INCOMPLETE_SERVICE_DESCRIPTION
      end
  end.

Definition validate (parsedToml : TomlFile) : expected () TomlGatewayConfigParseError :=
  match t_services parsedToml with
  | None => error INCOMPLETE_CONFIGURATION
  | Some serviceArray =>
      if MAX_GATEWAY_SERVICES <? Z.of_nat (length serviceArray) then error MAXIMUM_NUMBER_OF_ENTRIES_EXCEEDED
      else validate_services serviceArray
  end.

(** [IdString_t] *)
Definition id_string (s : option string) : outcome string :=
  match s with Some s => Done (str_take 100 s) | None => Terminated UNDEFINED_BEHAVIOUR end.

Fixpoint add_services (l : list TomlService) (config : list ServiceDescription.t) : outcome (list ServiceDescription.t) :=
  match l with
  | [] => Done config
  | service :: l =>
      let* serviceName := id_string (t_service service) in
      let* instance := id_string (t_instance service) in
      let* event := id_string (t_event service) in
      let entry := ServiceDescription.ctor serviceName instance event [0; 0; 0; 0] Interfaces.INTERNAL in
      add_services l (if Z.of_nat (length config) <? MAX_GATEWAY_SERVICES then config ++ [entry] else config)
  end.

Definition parse (path : string) : outcome (expected (list ServiceDescription.t) TomlGatewayConfigParseError) :=
  if String.eqb path "" then Done (success [])
  else if negb (isOpen path) then Done (success [])
  else
    match parse_file path with
    | None => Done (error EXCEPTION_IN_PARSER)
    | Some parsedToml =>
        match validate parsedToml with
        | error e => Done (error e)
        | success _ =>
            match t_services parsedToml with
            | None => Terminated UNDEFINED_BEHAVIOUR
            | Some serviceArray => let* config := add_services serviceArray [] in Done (success config)
            end
        end
    end.
End parser.
End TomlGatewayConfigParser.

(** ** The start of RouDi *)

Module RouDiApp.
Record t := mk {
  m_logLevel : LogLevel;
  m_monitoringMode : MonitoringMode;
  m_run : bool;
  m_config : SegmentConfig.t;
  m_compatibilityCheckLevel : CompatibilityCheckLevel;
  m_processKillDelay : Duration.t }.

Definition checkAndOptimizeConfig (config : SegmentConfig.t) : bool :=
  match config with
  | [] => false
  | _ => forallb (fun segment => match SegmentConfig.m_mempoolConfig segment with [] => false | _ => true end) config
  end.

(** The id of RouDi is set also if it will not run. *)
Definition ctor (cmdLineArgs : CmdLineArgs_t) (config : SegmentConfig.t) (ids : UniqueIds.t) : t * UniqueIds.t :=
  (mk (logLevel cmdLineArgs) (monitoringMode cmdLineArgs) (checkAndOptimizeConfig config && args_run cmdLineArgs) config
     (compatibilityCheckLevel cmdLineArgs) (processKillDelay cmdLineArgs),
   match uniqueRouDiId cmdLineArgs with Some id => (UniqueIds.setUniqueRouDiId id ids).2 | None => ids end).
End RouDiApp.

Inductive ExitCode := EXIT_SUCCESS | EXIT_FAILURE.

(** [main]: the exit code, and the application that [run] starts RouDi from unless it
    must not run. *)
Definition main (isOpen : string -> bool) (parse_file : string -> option TomlFile) (groupOfCurrentProcess : string)
    (argv : list Option_) (ids : UniqueIds.t) : outcome (ExitCode * option (RouDiApp.t * UniqueIds.t)) :=
  match CmdLineParserConfigFileOption.parse ALL argv CmdLineParserConfigFileOption.ctor with
  | error UNKNOWN_OPTION_USED => Done (EXIT_FAILURE, None)
  | error INFO_OUTPUT_ONLY => Terminated UNDEFINED_BEHAVIOUR (* the value of an error is used *)
  | success cmdLineArgs =>
      let* roudiConfig :=
        TomlRouDiConfigFileProvider.parse parse_file groupOfCurrentProcess (TomlRouDiConfigFileProvider.ctor isOpen cmdLineArgs) in
      match roudiConfig with
      | error _ => Done (EXIT_FAILURE, None)
      | success config =>
          let '(roudi, ids) := RouDiApp.ctor cmdLineArgs config ids in
          Done (EXIT_SUCCESS, if RouDiApp.m_run roudi then Some (roudi, ids) else None)
      end
  end.

(** ** What the command line means *)

(** The options that the parser of the base class knows, and those that let RouDi run. *)
Definition known (o : Option_) : bool := existsb (Ascii.eqb o.1) ["h"; "v"; "u"; "m"; "l"; "k"; "x"]%char.
Definition with_arg {A} (c : ascii) (f : string -> option A) (o : Option_) : option A := if Ascii.eqb o.1 c then f o.2 else None.

Definition the_mode : Option_ -> option MonitoringMode := with_arg "m" CmdLineParser.monitoring_of.
Definition the_level : Option_ -> option LogLevel := with_arg "l" CmdLineParser.logLevel_of.
Definition the_check : Option_ -> option CompatibilityCheckLevel := with_arg "x" CmdLineParser.compatibility_of.
Definition the_delay : Option_ -> option Duration.t := with_arg "k" (fun s => Duration.fromSeconds <$> convert.fromString_uint32 s).
Definition the_id : Option_ -> option Z := with_arg "u" (fun s => Some (default 0 (convert.fromString_uint16 s))).
Definition the_path : Option_ -> option string := with_arg "c" (fun s => Some (str_take MAX_PATH s)).

Definition given {A} (c : ascii) (f : string -> option A) (o : Option_) : bool :=
  negb (Ascii.eqb o.1 c) || match f o.2 with Some _ => true | None => false end.
Definition acceptable (o : Option_) : bool :=
  negb (Ascii.eqb o.1 "h") && negb (Ascii.eqb o.1 "v") && given "u" convert.fromString_uint16 o &&
  given "m" CmdLineParser.monitoring_of o && given "l" CmdLineParser.logLevel_of o &&
  given "k" convert.fromString_uint32 o && given "x" CmdLineParser.compatibility_of o.

(** The last occurrence of each option counts. *)
Definition last_of {A} (f : Option_ -> option A) (argv : list Option_) (d : A) : A := default d (last (omap f argv)).

Definition meaning (argv : list Option_) (p : CmdLineParser.t) : CmdLineParser.t :=
  CmdLineParser.mk (CmdLineParser.m_run p && forallb acceptable argv)
    (last_of the_level argv (CmdLineParser.m_logLevel p)) (last_of the_mode argv (CmdLineParser.m_monitoringMode p))
    (last_of the_check argv (CmdLineParser.m_compatibilityCheckLevel p))
    (match last (omap the_id argv) with Some i => Some i | None => CmdLineParser.m_uniqueRouDiId p end)
    (last_of the_delay argv (CmdLineParser.m_processKillDelay p)).

Lemma omap_cons_match {A B} (f : A -> option B) x l : omap f (x :: l) = match f x with Some y => y :: omap f l | None => omap f l end.
Proof. done. Qed.

Lemma last_of_cons {A} (f : Option_ -> option A) o argv d : last_of f (o :: argv) d = last_of f argv (default d (f o)).
Proof.
  unfold last_of. rewrite omap_cons_match. destruct (f o) as [x|]; [|done]. rewrite last_cons. by destruct (last (omap f argv)).
Qed.

Lemma meaning_cons o argv p : meaning (o :: argv) p = meaning argv (meaning [o] p).
Proof.
  unfold meaning. rewrite !last_of_cons. cbn [CmdLineParser.m_run CmdLineParser.m_logLevel CmdLineParser.m_monitoringMode
    CmdLineParser.m_compatibilityCheckLevel CmdLineParser.m_uniqueRouDiId CmdLineParser.m_processKillDelay].
  f_equal; [simpl; by destruct (CmdLineParser.m_run p), (acceptable o)|]. rewrite !omap_cons_match. destruct (the_id o) as [x|]; [|done].
  rewrite last_cons. by destruct (last (omap the_id argv)).
Qed.

(** One option of the base class, and one that it does not know. *)
Lemma parse_option_spec o p : CmdLineParser.parse_option o p = if known o then Some (meaning [o] p) else None.
Proof.
  destruct o as [c s], p as [r l m x u k]. unfold CmdLineParser.parse_option, known. cbn [fst existsb].
  unfold meaning, last_of, acceptable, given, the_level, the_mode, the_check, the_id, the_delay, with_arg. simpl.
  destruct (Ascii.eqb_spec c "h") as [->|]; [by destruct r|]. destruct (Ascii.eqb_spec c "v") as [->|]; [by destruct r|].
  destruct (Ascii.eqb_spec c "u") as [->|]; [by destruct r, (convert.fromString_uint16 s)|].
  destruct (Ascii.eqb_spec c "m") as [->|]; [by destruct r, (CmdLineParser.monitoring_of s)|].
  destruct (Ascii.eqb_spec c "l") as [->|]; [by destruct r, (CmdLineParser.logLevel_of s)|].
  destruct (Ascii.eqb_spec c "k") as [->|]; [by destruct r, (convert.fromString_uint32 s)|].
  destruct (Ascii.eqb_spec c "x") as [->|]; [by destruct r, (CmdLineParser.compatibility_of s)|]. done.
Qed.

Lemma meaning_nil p : meaning [] p = p.
Proof. destruct p. unfold meaning, last_of. simpl. by rewrite andb_true_r. Qed.

Lemma base_parse_spec argv : forall p,
  CmdLineParser.parse_loop ALL argv p =
    match list_find (fun o => known o = false) argv with
    | None => success (meaning argv p, [])
    | Some (i, _) => error (UNKNOWN_OPTION_USED, CmdLineParser.dont_run (meaning (take i argv) p))
    end.
Proof.
  induction argv as [|o argv IH]; intros p; [simpl; by rewrite meaning_nil|].
  simpl. rewrite parse_option_spec. destruct (known o) eqn:E.
  - rewrite decide_False by done. rewrite IH. destruct (list_find _ argv) as [[i x]|]; simpl; [by rewrite (meaning_cons o (take i argv))|by rewrite (meaning_cons o argv)].
  - rewrite decide_True by done. simpl. by rewrite meaning_nil.
Qed.

(** The options of RouDi without help. *)
Definition usual (o : Option_) : bool := negb (Ascii.eqb o.1 "h") && (known o || Ascii.eqb o.1 "c").

Lemma path_option_neutral o p : Ascii.eqb o.1 "c" = true -> meaning [o] p = p.
Proof.
  destruct o as [c s], p. simpl. intros ->%Ascii.eqb_eq. unfold meaning, last_of. simpl. by rewrite !andb_true_r.
Qed.

Lemma other_option_path o : Ascii.eqb o.1 "c" = false -> the_path o = None.
Proof. unfold the_path, with_arg. by intros ->. Qed.

Lemma config_parse_spec argv : forall p, forallb usual argv = true ->
  CmdLineParserConfigFileOption.parse_loop ALL argv p =
    success (CmdLineParserConfigFileOption.mk (meaning argv (CmdLineParserConfigFileOption.base p))
      (last_of the_path argv (CmdLineParserConfigFileOption.m_customConfigFilePath p))).
Proof.
  induction argv as [|o argv IH]; intros [q path] H; simpl in H.
  - simpl. by rewrite meaning_nil.
  - apply andb_true_iff in H as [H1 H2]. unfold usual in H1. apply andb_true_iff in H1 as [Hh H1]. apply negb_true_iff in Hh.
    cbn [CmdLineParserConfigFileOption.parse_loop CmdLineParser.parse_loop]. rewrite Hh, (meaning_cons o argv), last_of_cons.
    cbn [CmdLineParserConfigFileOption.base CmdLineParserConfigFileOption.m_customConfigFilePath].
    destruct (Ascii.eqb o.1 "c") eqn:Ec.
    + assert (the_path o = Some (str_take MAX_PATH o.2)) as -> by (unfold the_path, with_arg; by rewrite Ec).
      rewrite IH by done. simpl. by rewrite path_option_neutral by done.
    + rewrite parse_option_spec. rewrite orb_false_r in H1. rewrite H1. rewrite IH by done. simpl. by rewrite other_option_path.
Qed.

(** ** What the files mean *)

(** The tables of a configuration. *)
Definition toml_pool (e : MePooConfig.Entry) : TomlMempool := mkTomlMempool (Value (MePooConfig.m_size e)) (Value (MePooConfig.m_chunkCount e)).
Definition toml_segment (e : SegmentConfig.SegmentEntry) : TomlSegment :=
  mkTomlSegment (Some (SegmentConfig.m_writerGroup e)) (Some (SegmentConfig.m_readerGroup e)) (Some (toml_pool <$> SegmentConfig.m_mempoolConfig e)).
Definition toml_config (c : SegmentConfig.t) : TomlFile := mkTomlFile (Some (Value 1)) (Some (toml_segment <$> c)) None.

(** The configurations that a file can hold. *)
Record expressible (e : SegmentConfig.SegmentEntry) : Prop := {
  ex_pools : (length (SegmentConfig.m_mempoolConfig e) <= MePooConfig.MAX_NUMBER_OF_MEMPOOLS)%nat;
  ex_reader : (String.length (SegmentConfig.m_readerGroup e) <= MAX_GROUP_STRING)%nat;
  ex_writer : (String.length (SegmentConfig.m_writerGroup e) <= MAX_GROUP_STRING)%nat;
  ex_info : SegmentConfig.m_memoryInfo e = MemoryInfo_default }.

Section files.
Context (parse_file : string -> option TomlFile) (group : string).
Notation parse := (TomlRouDiConfigFileProvider.parse parse_file group).

Lemma parse_mempools_spec l : forall c, (length c + length l <= MePooConfig.MAX_NUMBER_OF_MEMPOOLS)%nat ->
  TomlRouDiConfigFileProvider.parse_mempools (toml_pool <$> l) c = Done (success (c ++ l)).
Proof.
  induction l as [|[size count] l IH]; intros c H; simpl in *; [by rewrite app_nil_r|].
  unfold MePooConfig.addMemPool. rewrite bool_decide_true by lia. rewrite MePooConfig.push_back_room by lia. cbn [obind].
  rewrite IH by (rewrite length_app; simpl; lia). by rewrite <- app_assoc.
Qed.

Lemma parse_segments_spec l : forall c, Forall expressible l -> Z.of_nat (length c) + Z.of_nat (length l) <= MAX_SHM_SEGMENTS ->
  TomlRouDiConfigFileProvider.parse_segments group (toml_segment <$> l) c = Done (success (c ++ l)).
Proof.
  induction l as [|e l IH]; intros c He H; [by rewrite app_nil_r|]. apply Forall_cons in He as [[H1 H2 H3 H4] He]. simpl in H.
  cbn [fmap list_fmap TomlRouDiConfigFileProvider.parse_segments toml_segment t_writer t_reader t_mempools default from_option].
  unfold id.
  rewrite length_fmap, bool_decide_false by lia. rewrite parse_mempools_spec by (simpl; lia). cbn [obind].
  rewrite !str_take_all by done. unfold SegmentConfig.push_back. rewrite (proj2 (Z.ltb_lt _ _)) by lia. rewrite IH by (try done; rewrite length_app; simpl; lia).
  destruct e as [r w m i]. simpl in *. subst i. by rewrite <- app_assoc.
Qed.

Lemma parse_config_file path c : path <> "" -> parse_file path = Some (toml_config c) -> Forall expressible c ->
  Z.of_nat (length c) <= MAX_SHM_SEGMENTS -> parse path = Done (success c).
Proof.
  intros Hpath Hf He Hl. unfold TomlRouDiConfigFileProvider.parse. rewrite (proj2 (String.eqb_neq _ _)) by done. rewrite Hf.
  cbn [toml_config t_general t_segments get_as obind]. rewrite bool_decide_true by done. rewrite length_fmap.
  rewrite (proj2 (Z.ltb_ge _ _)) by lia. by rewrite parse_segments_spec.
Qed.
End files.

(** C40: RouDi starts with the configuration it is given.  If the command line has only
    known options with acceptable arguments, neither help nor version, and the last
    path it names is a file with the tables of a configuration of at least one segment
    with pools, then RouDi runs with exactly this configuration, and each option has
    the value of its last occurrence, or its default. *)
Theorem roudi_starts_configured isOpen parse_file group argv ids path c :
  forallb usual argv = true -> forallb acceptable argv = true ->
  last (omap the_path argv) = Some path -> path <> "" -> parse_file path = Some (toml_config c) ->
  Forall expressible c -> Z.of_nat (length c) <= MAX_SHM_SEGMENTS -> RouDiApp.checkAndOptimizeConfig c = true ->
  main isOpen parse_file group argv ids =
    Done (EXIT_SUCCESS, Some
      (RouDiApp.mk (last_of the_level argv kWarn) (last_of the_mode argv MONITORING_ON) true c
         (last_of the_check argv VersionInfo.PATCH) (last_of the_delay argv PROCESS_DEFAULT_KILL_DELAY),
       match last (omap the_id argv) with Some id => (UniqueIds.setUniqueRouDiId id ids).2 | None => ids end)).
Proof.
  intros Hu Ha Hp Hne Hf He Hl Hc. unfold main, CmdLineParserConfigFileOption.parse. rewrite config_parse_spec by done.
  unfold TomlRouDiConfigFileProvider.ctor. simpl. rewrite Ha. unfold last_of at 1. rewrite Hp. simpl.
  rewrite (parse_config_file parse_file group path c) by done. cbn [obind]. unfold RouDiApp.ctor. simpl. rewrite Hc. simpl.
  by destruct (last (omap the_id argv)).
Qed.

(** Without a path the built-in configuration is used, whatever files there are. *)
Theorem default_config_file_ignored isOpen parse_file group argv ids :
  forallb usual argv = true -> omap the_path argv = [] ->
  main isOpen parse_file group argv ids = main (fun _ => false) (fun _ => None) group argv ids.
Proof.
  intros Hu Hp. unfold main, CmdLineParserConfigFileOption.parse. rewrite config_parse_spec by done.
  assert (E : last_of the_path argv EmptyString = EmptyString) by (unfold last_of; by rewrite Hp).
  unfold TomlRouDiConfigFileProvider.ctor. simpl. rewrite E. by destruct (forallb acceptable argv).
Qed.

(** A gateway: the services of a file of valid names, in their order. *)
Definition toml_service (s : ServiceDescription.t) : TomlService :=
  mkTomlService (Some (ServiceDescription.m_serviceString s)) (Some (ServiceDescription.m_instanceString s)) (Some (ServiceDescription.m_eventString s)).

Record nameable (s : ServiceDescription.t) : Prop := {
  na_valid : Forall (fun x => TomlGatewayConfigParser.hasInvalidCharacter x = false /\ (String.length x <= 100)%nat)
    [ServiceDescription.m_serviceString s; ServiceDescription.m_instanceString s; ServiceDescription.m_eventString s];
  na_plain : s = ServiceDescription.ctor (ServiceDescription.m_serviceString s) (ServiceDescription.m_instanceString s)
    (ServiceDescription.m_eventString s) [0; 0; 0; 0] Interfaces.INTERNAL }.

Lemma nameable_names s : nameable s ->
  (TomlGatewayConfigParser.hasInvalidCharacter (ServiceDescription.m_serviceString s) = false /\
   TomlGatewayConfigParser.hasInvalidCharacter (ServiceDescription.m_instanceString s) = false /\
   TomlGatewayConfigParser.hasInvalidCharacter (ServiceDescription.m_eventString s) = false) /\
  str_take 100 (ServiceDescription.m_serviceString s) = ServiceDescription.m_serviceString s /\
  str_take 100 (ServiceDescription.m_instanceString s) = ServiceDescription.m_instanceString s /\
  str_take 100 (ServiceDescription.m_eventString s) = ServiceDescription.m_eventString s.
Proof.
  intros [H _]. rewrite !Forall_cons in H. destruct H as ([H1 L1] & [H2 L2] & [H3 L3] & _). split; [done|]. by rewrite !str_take_all.
Qed.

Lemma validate_services_spec l : Forall nameable l -> TomlGatewayConfigParser.validate_services (toml_service <$> l) = success ().
Proof.
  induction 1 as [|s l H _ IH]; [done|]. destruct (nameable_names s H) as [(H1 & H2 & H3) _].
  cbn [fmap list_fmap TomlGatewayConfigParser.validate_services toml_service t_service t_instance t_event]. by rewrite H1, H2, H3.
Qed.

Lemma add_services_spec n l : forall c, Forall nameable l -> Z.of_nat (length c) + Z.of_nat (length l) <= n ->
  TomlGatewayConfigParser.add_services n (toml_service <$> l) c = Done (c ++ l).
Proof.
  induction l as [|s l IH]; intros c H Hlen; [by rewrite app_nil_r|]. apply Forall_cons in H as [Hs H]. simpl in Hlen.
  destruct (nameable_names s Hs) as [_ (H1 & H2 & H3)].
  cbn [fmap list_fmap TomlGatewayConfigParser.add_services toml_service t_service t_instance t_event TomlGatewayConfigParser.id_string obind].
  rewrite H1, H2, H3, <- (na_plain _ Hs). rewrite (proj2 (Z.ltb_lt _ _)) by lia.
  change (list_fmap _ _ toml_service l) with (toml_service <$> l).
  rewrite IH by (try done; rewrite length_app; simpl; lia). by rewrite <- app_assoc.
Qed.

(** A gateway gets exactly the services of its file. *)
Theorem gateway_config_roundtrip n isOpen parse_file path l : path <> "" -> isOpen path = true ->
  parse_file path = Some (mkTomlFile None None (Some (toml_service <$> l))) -> Forall nameable l -> Z.of_nat (length l) <= n ->
  TomlGatewayConfigParser.parse n isOpen parse_file path = Done (success l).
Proof.
  intros Hp Ho Hf Hl Hn. unfold TomlGatewayConfigParser.parse. rewrite (proj2 (String.eqb_neq _ _)) by done. rewrite Ho, Hf. simpl negb. cbn iota.
  unfold TomlGatewayConfigParser.validate. cbn [t_services]. rewrite length_fmap, (proj2 (Z.ltb_ge _ _)) by lia.
  rewrite validate_services_spec by done. by rewrite add_services_spec.
Qed.

(** ** Runs *)

Definition sample_config : SegmentConfig.t :=
  [SegmentConfig.mkEntry "users" "drivers" [MePooConfig.mkEntry 128 10; MePooConfig.mkEntry 1024 5] MemoryInfo_default;
   SegmentConfig.mkEntry "users" "users" [MePooConfig.mkEntry 64 100] MemoryInfo_default].
Definition sample_file (path : string) : option TomlFile :=
  if String.eqb path "roudi.toml" then Some (toml_config sample_config) else None.
Definition sample_argv : list Option_ :=
  [("l"%char, "debug"); ("c"%char, "other.toml"); ("k"%char, "10"); ("c"%char, "roudi.toml"); ("u"%char, "7"); ("l"%char, "error")].

Lemma roudi_starts_configured_witness :
  main (fun _ => true) sample_file "users" sample_argv UniqueIds.start =
    Done (EXIT_SUCCESS, Some
      (RouDiApp.mk kError MONITORING_ON true sample_config VersionInfo.PATCH (Duration.fromSeconds 10),
       (UniqueIds.setUniqueRouDiId 7 UniqueIds.start).2)).
Proof.
  refine (roudi_starts_configured (fun _ => true) sample_file "users" sample_argv UniqueIds.start "roudi.toml" sample_config _ _ _ _ _ _ _ _);
    try (vm_compute; reflexivity); try done.
  all: repeat constructor; vm_compute; repeat constructor.
Defined.

(** After help the path of a configuration file is an unknown option: RouDi fails. *)
Example help_rejects_config_file :
  main (fun _ => true) sample_file "users" [("h"%char, ""); ("c"%char, "roudi.toml")] UniqueIds.start = Done (EXIT_FAILURE, None) /\
  main (fun _ => true) sample_file "users" [("c"%char, "roudi.toml"); ("h"%char, "")] UniqueIds.start = Done (EXIT_SUCCESS, None).
Proof. split; vm_compute; reflexivity. Qed.
